(* ===== verification/_CoqProject ===== *)
-Q . S2P
Prelude.v
CInt.v
CFloat.v
CLib.v
Chtime.v
Spi.v
Streams.v
Chprintf.v
Mde.v
Imu.v
Debug.v
Ctrl.v
MdeThread.v
Ocxo.v
Gps.v
I2c.v
Ina3221.v
Api.v
Http.v
Firmware.v
Threads.v
Rings.v
Queues.v
Mailboxes.v
Memcore.v
Heap.v
HeapSpec.v
HeapInv.v
HeapSafe.v
Semaphores.v
Serial.v
Timers.v
TimersSpec.v
Sched.v
Mutexes.v
Events.v
Messages.v
Kernel.v
KInv.v
KSched.v
KMutex.v
KLock.v
KUnlock.v
KOps.v
KEvt.v
KMsg.v
KSafe.v
KProps.v
EvtSpec.v
MtxSpec.v
MsgSpec.v
KRuns.v
Pipes.v
Mempools.v
ObjFifos.v
Objcaches.v
Factory.v
Registry.v
Words.v
Crc16.v
Flash.v
Mfs.v
MfsLog.v
MfsWp.v
MfsBank.v
MfsDisk.v
MfsGc.v
MfsScan.v
MfsMount.v
MfsOps.v
MfsTrans.v
MfsStore.v
MfsNor.v
Bufstreams.v
Scanf.v
ScanText.v
Buffers.v
BuffersSpec.v
BuffersIn.v
BuffersOut.v
