(* ===== verification/Prelude.v ===== *)
(** * Seatel: a verified model of the antenna controller firmware

    The firmware (src/software/) turns a ship's satellite antenna: it reads the
    azimuth encoder of a motor drive enclosure and inertial sensors, runs two
    position controllers, disciplines a reference oscillator with a GPS receiver,
    watches six supply rails, and is commanded over TCP.  It runs on the ChibiOS
    kernel, whose queues, semaphores, mailboxes and heap are modelled as well.
    The development is a shallow embedding: C functions are Rocq functions on
    explicit state, [None] is undefined behaviour or a failed assertion, and
    everything executable is executable here.

    ** The parts and how they interact

    [Firmware] (main.c) starts the threads: motion control, drive communication,
    sampling, power monitors, oscillator, GPS, and the two TCP servers.  They
    share the records of the firmware's static variables.  The servers and the
    loops call setters of [Ctrl], [Mde] and [Imu]; [Ctrl] reads what [MdeThread]
    and [Imu] have measured and sets the torques that [MdeThread] sends; [Ctrl]
    and [Ocxo] write messages through [Chprintf] into [Debug], which [Http]
    empties.  A thread is modelled from one sleep, or one received item, to the
    next; the firmware is any interleaving of such steps with interrupts, sensor
    and bus replies and network input.

    ** Files

    Foundations.  [Prelude]: option monad, tactics, byte memory ([rd], [wr]),
    list lemmas.  [CInt]: fixed-width integers ([u8] ... [i32]).  [CFloat]:
    float and double as SpecFloat, conversions that can be undefined.  [CLib]:
    strlen, strncmp, memcpy, atoi, the kernel's messages.  [Chtime]: chtime.h,
    the wrapping tick counter, its conversions and time stamps.

    The application (src/software/*.c).  [Spi]: the class of SPI devices.
    [Mde], [MdeThread]: mde.c, its command words and its thread as a state
    machine over sleeps.  [Imu]: imu.c over an SPI device and the class [LibM] of
    atan.  [Ctrl]: ctrl.c, with [rig], the state shared by the control, drive and
    sampling threads.  [Debug]: debug.c, for one thread at a time and with
    preemption between any two byte accesses; and the kernel's own trace, chtrace.c,
    the ring of its last 128 events.  [Ocxo], [Gps]: ocxo.c, gps.c.
    [Ina3221]: ina3221.c over [I2c].  [Api], [Http]: api.c, http.c.
    [Firmware]: main.c.

    Library and kernel (src/software/ChibiOS/os).  [Streams], [Chprintf]:
    memstreams.c, nullstreams.c, chprintf.c, over the class [SeqStream].
    [Bufstreams]: the reading methods of the streams, bufstreams.c, and the class
    [TextSource] of streams that hold a text.  [Scanf]: chscanf.c, a program on the
    record [scan] of its variables; [ScanText]: that it reads what is printed.  [I2c]:
    hal_i2c.c over the class [I2cLld] of peripherals.  [Threads]: the queues of
    suspended threads of chthreads.c and the timeout of chschd.c, and the classes
    [Channel] and [ChannelLaws], what a component with blocking calls promises;
    its section [System] proves, against the class, that threads and interrupts
    using any such component lose no wake-up.  [Queues] (hal_queues.c) and
    [Mailboxes] (chmboxes.c) are instances, over the arrays of [Rings].
    [Serial]: hal_serial.c, and the composition of receive interrupt, input queue
    and GPS thread.  [Buffers]: the queues of whole buffers of hal_buffers.c, instances
    of [Channel] too; [BuffersSpec]: the buffers in memory, and the class [StreamQueue]
    with [StreamLaws] of a queue that is a stream of bytes for one thread, of which
    [BuffersIn] and [BuffersOut] are the instances.  [Words]: words of several bytes in
    memory.  [Semaphores]: chsem.c, and on it chbsem.h, a token that is free or
    taken.  [Timers]: the virtual timers of
    chvt.c, their delta list and the alarm of hal_st.c; [TimersSpec]: the
    deadlines they implement.  [Memcore]: chmemcore.c, chalign.h and the area
    check of chmemchecks.h.  [Heap]: chmemheaps.c on a store of block headers;
    [HeapSpec] refines it to lists of blocks, [HeapInv] is its invariant,
    [HeapSafe] what a program may rely on.  [Pipes]: chpipes.c, between the points
    where another thread may run.  [Mempools]: chmempools.c, pools on [Memcore] and
    guarded pools on [Semaphores].  [ObjFifos]: chobjfifos.h, a guarded pool and a
    mailbox.  [Objcaches]: chobjcaches.c.  [Factory]: chfactory.c, lists of named
    elements over the class [Allocator] of what gives out memory, with
    [AllocatorLaws], which the pool satisfies; [Registry]: the registry of names
    that the factory implements for registered objects.

    The kernel's core is one state machine.  [Sched]: the threads, their queues
    and the scheduler (chschd.c, chlists.h), and thread control (chthreads.c);
    [Mutexes]: chmtx.c and chcond.c; [Events]: chevents.c; [Messages]: chmsg.c.
    A call that puts its thread to sleep ends there; where the thread goes on
    when it runs again is recorded in the thread ([th_cont]), and the rest of the
    call is a definition of its own ([mtx_locked], [cond_woken], [evt_woken],
    [msg_woken]).  [Kernel] composes the calls to steps: a call, the rest of a
    call, an interrupt handler with the preemption that ends it, a timeout;
    [call_ok] is what callers must keep to.  [KInv] is the invariant: headers and
    queues agree, owners and their stacks agree, priorities are inherited, and
    every thread's state, pointers and place to continue fit together.  [KSched],
    [KMutex], [KLock], [KUnlock], [KOps], [KEvt] and [KMsg] show that the
    operations keep it, [KSafe] that every step does.  [KProps], [MtxSpec],
    [EvtSpec] and [MsgSpec] hold what that gives: safety, scheduling and
    priorities; mutexes; events; messages.  [KRuns] holds runs that the
    documentation does not expect.

    The managed flash storage (os/hal/lib/complex/mfs) keeps records in two banks of
    a flash device.  [Crc16]: its checksum, and the division that it computes.
    [Flash]: hal_flash.c over the class [BaseFlash] of devices; [FlashLaws] is what a
    device promises: erased cells read 255, a program changes the cells in order, an
    erase empties a sector or does nothing, and the power may fail in any of these;
    [nor] is such a device.  [Mfs]: hal_mfs.c, every function, in a monad of the
    driver's record and the device.  [MfsLog]: a bank as the log of the entries
    written to it, and the records that the log replays to.  [MfsWp]: the rules by
    which programs on a device that may lose power are reasoned about, [wp]: what
    holds when the program ends, and what holds of the cells wherever the power
    fails.  [MfsBank]: reads, writes, headers and erasure of a bank.  [MfsDisk]: the
    records that a mount would find ([disk]), and the driver's record and its bank
    ([live_bank]).  [MfsGc], [MfsScan], [MfsMount], [MfsOps], [MfsTrans]: garbage
    collection, the scan, mounting with its recoveries, the operations on records,
    and transactions.  [MfsStore]: the store that all this implements, calls and
    reboots as one state machine.  [MfsNor]: a small device, runs with failing power,
    and the flaws of the code.

    ** What the theorems show

    Of the whole firmware: from the start, whatever interleaving, the control
    thread never has undefined behaviour and no controller torque leaves -25..25;
    the undefined runs of the other threads have one of six named external
    causes; the drive's bus is used only while the drive is powered and the
    control loop alive.  Of motion control: the failsafe stops every axis in the
    iteration in which it trips; azimuth tracking takes the shortest way and
    clamps its speed; elevation tracking commands the clamped error, which is the
    plain difference of the angles as long as that fits sixteen bits; the
    liveness test is right across the wrap of the clock; and two flaws, the
    calibration that overrides a stop and the torque that is reversed for large
    errors.  Of the protocols: what each command does, that serving any request
    is safe, that the state page fits its buffer.  Of formatting: truncation as
    documented, termination, round trip of %d, independence of the stream.  Of
    the debug bucket, the queues, the mailboxes and the semaphores: refinement of
    a bounded log, bounded lists and permits; no lost wake-up; waiting readers
    are served in order.  Of formatted input: what chvprintf prints for signed integers
    chvscanf reads back; and its flaws.  Of the queues of buffers: for one reader or
    writer they are streams of bytes in order, under any interleaving; with two threads on
    one side, bytes are lost or delivered twice.  Of the GPS receiver on its port: the thread sees the
    accepted bytes in order, and all of them.  Of the virtual timers: in every run in which
    the clock does not pass an alarm while the code is setting it, they implement
    deadlines on a clock that does not wrap, fire in order and never early, and
    the alarm is not late (outside, a fault is logged or the alarm comes late:
    [insert_first_alarm_past], [overflow_alarm_late]).  Of the kernel: no call, handler or timeout fails an
    assertion or corrupts a queue; the thread of highest priority runs;
    priorities are inherited along chains of mutex owners exactly as a reference
    definition says, unless a thread lowers its own priority below one that waits
    for it, which [call_ok] leaves out ([set_priority_below_waiter]); mutexes exclude, and go to the first waiting thread;
    messages are first-come first-served; events wake the threads that wait for
    them, and dispatching serves the set bits in order.  Of the allocators: alignment, disjointness, no
    loss, and that a release undoes an allocation.  Of the pipes: they hold what a
    bounded list would and move the bytes of a call together, but a wake-up can be
    lost.  Of guarded pools and objects FIFOs: objects are conserved, a granted wait
    gets an object, and a send never fails; chGuardedPoolAllocI fails an assertion
    while a grant is pending, so that the runs of pools do not call it then.  Of the objects cache: it reuses
    buffers in the order of their last use and loses no lazy write, for one user;
    with several two flaws show.  Of the factory: names are unique, references are
    counted, and an element is in memory exactly while it is referenced.  Of the
    flash storage: its checksum is the division by the polynomial; whatever calls are
    made and wherever the power fails, it is a map of records with transactions that
    happen wholly or not at all, on a device that keeps to [FlashLaws], whose
    clauses on interrupted operations are assumptions of the model (hal_flash.h is
    silent about them), and under three conditions that are executable guards of
    the theorem: the counter of bank swaps is not at its end, an erasure of a record
    does not use the last header place of its bank ([erase_lost] shows why), and a
    transaction erases a record once ([erased_twice]).  Theorems that are not listed as
    claims show further functional properties and the flaws of the code.

    ** Widths, fuel and bounds

    Integers carry their C width with the wrap of unsigned types and of conversions
    written out; a signed operation that overflows is undefined ([None]) where
    it can, as the sums of the sampling thread and the negation in %d, but for the
    count of printed bytes, which wraps; int and long are 32
    bits, pointers and size_t 32 bits, char is unsigned, as on the target.  The
    size words of the queues of buffers may be unaligned, which the target allows
    and C does not.  The
    character loop of chvprintf takes the length of the format as fuel, and a
    theorem shows that more changes nothing.  The loops over the heap's free list
    take the size of the store plus one as fuel: the list's headers are distinct
    addresses of the store, so it is always enough (proved for every reachable
    heap, since the operations are shown defined).  The
    timers' loops take the number of clock readings left plus one: each turn
    takes a reading.  The boost of mutex owners takes the number of threads plus
    one: each turn raises a thread that had a lower priority (proved to be
    enough); dispatching takes the 32 events plus one (proved as well).
    The loops over the factory's lists take the number of their elements plus one,
    which the refinement shows to be enough.  The loops of
    the storage over bytes take the number of bytes plus one, the scan of a bank the
    size of the bank plus one (every header advances it), the wait for an erase the
    bound [fl_polls] that the device promises; the refinement shows that all of them
    end.  chvscanf's turns take the length of the format, its loops over the stream's
    characters a number that a text must not exceed, since a stream need not end.  All
    other loops recurse on the data they consume.

    ** Not modelled

    Pin, clock and peripheral configuration (the board files, palSetLineMode and
    the low-level drivers): register writes without logic of their own; devices
    are the classes [SpiBus], [I2cLld] and the inputs of the steps.  The lwIP
    stack and the sockets: third-party; it delivers the chunks that [Api] and
    [Http] get.  The served page, script and icon: constants, named but not
    spelled out.  Of the kernel: the creation of threads, which sets up their
    stacks (a run starts with the threads created), the memory of dynamic
    threads, the termination request and statistics.  A thread waits in
    [Sched] for mutexes, condition variables, events, messages, references and
    times; queues of threads and semaphores have the models [Threads] and
    [Semaphores], which leave open which ready thread runs, so that their
    theorems hold for every schedule.  [chThdWait] is modelled up to the point
    where it unlocks the kernel; the reference it then releases is a step of its
    own, which needs a reference of every waiting thread.  Of the cache, the semaphore that is
    never taken and the user's pointer; its reader and writer are arguments.  Of the
    factory, the mutex: a call is a step, but for the read that comes before the
    mutex is locked.  chvscanf is without floating point, as it is built by default.  The flash storage has the options of hal_mfs.h at their defaults
    (32 records, a buffer of 32 bytes, alignment 2, 16 operations in a transaction,
    verification on); its theorems are about devices below 2^31 bytes with words least
    significant byte first, whose erased value is all ones, and whose two banks are
    disjoint and exactly as large as their sectors, each of at least 16 bytes.  Within a step of a thread
    other threads do not run, except in the models of the debug bucket and of pipes and where
    a step takes several readings of the clock. *)

From stdpp Require Export base option list strings numbers relations.
From Stdlib Require Export ZArith Lia Bool.

(** ** Scopes and arithmetic automation *)

Declare Scope seatel_scope.
Delimit Scope seatel_scope with seatel.
#[global] Open Scope Z_scope.
#[global] Open Scope seatel_scope.

(** [zlia] decides linear goals that mention division, remainder and the
    wrap-around operators once these are unfolded to [mod]. *)
Ltac zlia := Z.to_euclidean_division_equations; lia.

(** Turns the boolean tests the code makes into propositions. *)
Ltac bools :=
  repeat match goal with
  | H : (_ && _) = true |- _ => apply andb_true_iff in H; destruct H
  | H : (_ || _) = false |- _ => apply orb_false_iff in H; destruct H
  | H : negb _ = true |- _ => apply negb_true_iff in H
  | H : negb _ = false |- _ => apply negb_false_iff in H
  | H : (_ <? _)%Z = true |- _ => apply Z.ltb_lt in H
  | H : (_ <? _)%Z = false |- _ => apply Z.ltb_ge in H
  | H : (_ <=? _)%Z = true |- _ => apply Z.leb_le in H
  | H : (_ <=? _)%Z = false |- _ => apply Z.leb_gt in H
  | H : (_ >? _)%Z = true |- _ => rewrite Z.gtb_ltb in H; apply Z.ltb_lt in H
  | H : (_ >? _)%Z = false |- _ => rewrite Z.gtb_ltb in H; apply Z.ltb_ge in H
  | H : (_ =? _)%Z = true |- _ => apply Z.eqb_eq in H
  | H : (_ =? _)%Z = false |- _ => apply Z.eqb_neq in H
  end.

(** Splits [Forall P] over a list whose elements are written out. *)
Ltac forall_inv :=
  repeat match goal with H : Forall _ (_ :: _) |- _ => inversion_clear H; cbv beta in * end.

(** Case analysis on every boolean test of the goal. *)
Ltac case_bool :=
  match goal with
  | |- context [if ?b then _ else _] =>
      lazymatch b with
      | context [if _ then _ else _] => fail
      | _ => let E := fresh "E" in destruct b eqn:E; bools
      end
  end.

(** The same in a hypothesis. *)
Ltac case_bool_in H :=
  match type of H with
  | context [if ?b then _ else _] =>
      lazymatch b with
      | context [if _ then _ else _] => fail
      | _ => let E := fresh "E" in destruct b eqn:E; bools
      end
  end.

Ltac case_bools := repeat case_bool.

(** ** Undefined behaviour

    A C expression either has a value or its behaviour is undefined (a read or
    a write outside an object, a float-to-integer conversion out of range).
    [option] carries that distinction and stdpp's [x ← e; k] sequences it;
    [None] is undefined behaviour, everywhere in the development. *)

Definition defined {A} (o : option A) : bool :=
  match o with Some _ => true | None => false end.

Definition check (b : bool) : option unit := if b then Some tt else None.

Lemma check_true b : b = true -> check b = Some tt.
Proof. intros ->; reflexivity. Qed.

Lemma bind_Some_inv {A B} (f : A -> option B) (o : option A) y :
  (x ← o; f x) = Some y -> exists x, o = Some x /\ f x = Some y.
Proof. destruct o as [x|]; simpl; intros H; [eauto | discriminate]. Qed.

(** Splits every successful [x ← o; k] of the context into its two halves. *)
Ltac inv_bind :=
  repeat match goal with
  | H : (_ ← _; _) = Some _ |- _ =>
      let x := fresh "x" in let E := fresh "E" in
      apply bind_Some_inv in H; destruct H as [x [E H]]
  | H : Some _ = Some _ |- _ => injection H as H
  end.

(** ** Byte buffers

    A C array of bytes is the list of its cells; reads and writes outside it
    are undefined. *)

Definition rd (buf : list Z) (i : Z) : option Z :=
  if (0 <=? i) then buf !! Z.to_nat i else None.

Definition wr (buf : list Z) (i b : Z) : option (list Z) :=
  if (0 <=? i) && (i <? Z.of_nat (length buf))
  then Some (<[Z.to_nat i := b]> buf) else None.

(** The bytes of the NUL-terminated string stored at the head of [mem];
    undefined when [mem] ends before a NUL. *)
Fixpoint cstr (mem : list Z) : option (list Z) :=
  match mem with
  | [] => None
  | b :: mem' => if b =? 0 then Some [] else s ← cstr mem'; Some (b :: s)
  end.

(** The memory seen through the pointer [&buf[i]]. *)
Definition at_off (buf : list Z) (i : Z) : list Z := drop (Z.to_nat i) buf.

(** The bytes of a string literal. *)
Definition bytes (s : string) : list Z :=
  (fun a => Z.of_N (Ascii.N_of_ascii a)) <$> String.list_ascii_of_string s.

(** *** Buffer lemmas *)

Lemma rd_Some buf i b : rd buf i = Some b -> 0 <= i < Z.of_nat (length buf).
Proof.
  unfold rd. case_bool; [|discriminate].
  intros H. apply lookup_lt_Some in H. lia.
Qed.

Lemma rd_defined buf i :
  0 <= i < Z.of_nat (length buf) -> exists b, rd buf i = Some b.
Proof.
  intros H. unfold rd. rewrite (proj2 (Z.leb_le 0 i)) by lia.
  apply lookup_lt_is_Some_2. lia.
Qed.

Lemma wr_defined buf i b :
  0 <= i < Z.of_nat (length buf) -> wr buf i b = Some (<[Z.to_nat i := b]> buf).
Proof.
  intros H. unfold wr.
  rewrite (proj2 (Z.leb_le 0 i)), (proj2 (Z.ltb_lt i _)) by lia. reflexivity.
Qed.

Lemma wr_length buf i b buf' : wr buf i b = Some buf' -> length buf' = length buf.
Proof.
  unfold wr. case_bool; [|discriminate]. intros [= <-]. apply length_insert.
Qed.

Lemma cstr_app s rest : Forall (fun b => b <> 0) s -> cstr (s ++ 0 :: rest) = Some s.
Proof.
  induction 1 as [|b s Hb Hs IH]; simpl; [reflexivity|].
  rewrite (proj2 (Z.eqb_neq b 0)) by exact Hb. rewrite IH. reflexivity.
Qed.

Lemma cstr_nonzero mem s : cstr mem = Some s -> Forall (fun b => b <> 0) s.
Proof.
  revert s; induction mem as [|b mem IH]; simpl; intros s H; [discriminate|].
  destruct (Z.eqb_spec b 0); [injection H as <-; constructor|].
  inv_bind. subst. constructor; auto.
Qed.

Lemma cstr_split mem s : cstr mem = Some s -> exists rest, mem = s ++ 0 :: rest.
Proof.
  revert s; induction mem as [|b mem IH]; simpl; intros s H; [discriminate|].
  destruct (Z.eqb_spec b 0) as [->|].
  - injection H as <-. exists mem. reflexivity.
  - inv_bind. subst. destruct (IH _ E) as [rest ->]. exists rest. reflexivity.
Qed.

Lemma cstr_length mem s : cstr mem = Some s -> (length s < length mem)%nat.
Proof.
  intros H. destruct (cstr_split _ _ H) as [rest ->]. rewrite length_app; simpl; lia.
Qed.

(** A region that holds a NUL somewhere is a terminated string. *)
Lemma cstr_defined mem : 0 ∈ mem -> exists s, cstr mem = Some s.
Proof.
  induction mem as [|b mem IH]; intros Hin; [inversion Hin|]. simpl.
  destruct (Z.eqb_spec b 0) as [|Hb]; [eauto|].
  apply elem_of_cons in Hin as [Hz|Hin]; [congruence|].
  destruct (IH Hin) as [s ->]. simpl. eauto.
Qed.

(** ** Lists *)

Lemma Forall_take_drop {A} (P : A -> Prop) n l :
  Forall P l -> Forall P (take n l) /\ Forall P (drop n l).
Proof. intros H. split; [apply Forall_take | apply Forall_drop]; exact H. Qed.

Create HintDb seatel.
#[export] Hint Resolve cstr_app cstr_nonzero cstr_length wr_length : seatel.
