(* ===== verification/CInt.v ===== *)
(** * C integers of fixed width

    The firmware's [uint8_t] ... [int32_t] values are integers of [Z] kept in
    the range of their type; an assignment to a narrower or differently signed
    type is one of the wrap-around functions below (conversion to a signed type
    that cannot hold the value is implementation-defined in C; GCC, the
    firmware's compiler, wraps).  Integer arithmetic narrower than [int] is
    carried out in [int], so expressions are written with [Z] operators and the
    wrap is applied where C assigns. *)

From S2P Require Import Prelude.

(** [wrapu n z]: conversion to an unsigned type of [n] bits. *)
Definition wrapu (n z : Z) : Z := z mod 2 ^ n.
(** [wraps n z]: conversion to a signed type of [n] bits. *)
Definition wraps (n z : Z) : Z := (z + 2 ^ (n - 1)) mod 2 ^ n - 2 ^ (n - 1).

Abbreviation u8 := (wrapu 8).
Abbreviation u16 := (wrapu 16).
Abbreviation u32 := (wrapu 32).
Abbreviation u64 := (wrapu 64).
Abbreviation i8 := (wraps 8).
Abbreviation i16 := (wraps 16).
Abbreviation i32 := (wraps 32).

Definition in_u (n z : Z) : bool := (0 <=? z) && (z <? 2 ^ n).
Definition in_s (n z : Z) : bool := (- 2 ^ (n - 1) <=? z) && (z <? 2 ^ (n - 1)).

(** C's [/] truncates toward zero, and [%] has the sign of the dividend. *)
Abbreviation cdiv := Z.quot.
Abbreviation crem := Z.rem.

(** C's [b ? 1 : 0] for a [bool] used as an integer. *)
Definition b2z (b : bool) : Z := if b then 1 else 0.

(** ** Lemmas *)

Lemma in_u_spec n z : in_u n z = true <-> 0 <= z < 2 ^ n.
Proof. unfold in_u. rewrite andb_true_iff, Z.leb_le, Z.ltb_lt. lia. Qed.

Lemma in_s_spec n z : in_s n z = true <-> - 2 ^ (n - 1) <= z < 2 ^ (n - 1).
Proof. unfold in_s. rewrite andb_true_iff, Z.leb_le, Z.ltb_lt. lia. Qed.

Lemma wrapu_range n z : 0 <= n -> in_u n (wrapu n z) = true.
Proof.
  intros Hn. apply in_u_spec, Z.mod_pos_bound, Z.pow_pos_nonneg; lia.
Qed.

Lemma pow2_half n : 0 < n -> 2 ^ n = 2 * 2 ^ (n - 1).
Proof.
  intros Hn. replace n with (Z.succ (n - 1)) at 1 by lia.
  apply Z.pow_succ_r; lia.
Qed.

Lemma wraps_range n z : 0 < n -> in_s n (wraps n z) = true.
Proof.
  intros Hn. apply in_s_spec. unfold wraps.
  pose proof (pow2_half n Hn). pose proof (Z.pow_pos_nonneg 2 (n - 1)).
  pose proof (Z.mod_pos_bound (z + 2 ^ (n - 1)) (2 ^ n)). lia.
Qed.

Lemma wrapu_id n z : in_u n z = true -> wrapu n z = z.
Proof. intros H%in_u_spec. apply Z.mod_small. exact H. Qed.

Lemma wraps_id n z : 0 < n -> in_s n z = true -> wraps n z = z.
Proof.
  intros Hn H%in_s_spec. unfold wraps. pose proof (pow2_half n Hn).
  rewrite Z.mod_small; lia.
Qed.

Lemma wrapu_idem n z : 0 <= n -> wrapu n (wrapu n z) = wrapu n z.
Proof. intros Hn. apply wrapu_id, wrapu_range, Hn. Qed.

Lemma wraps_idem n z : 0 < n -> wraps n (wraps n z) = wraps n z.
Proof. intros Hn. apply wraps_id, wraps_range; exact Hn. Qed.

(** A signed wrap loses nothing that an unsigned wrap of the same width keeps. *)
Lemma wrapu_wraps n z : 0 < n -> wrapu n (wraps n z) = wrapu n z.
Proof.
  intros Hn. unfold wrapu, wraps.
  rewrite Zminus_mod_idemp_l. f_equal. lia.
Qed.

(** Only the last wrap of a chain of additions matters. *)
Lemma wraps_add_l n a b : 0 < n -> wraps n (wraps n a + b) = wraps n (a + b).
Proof.
  intros Hn. unfold wraps. f_equal.
  replace ((a + 2 ^ (n - 1)) mod 2 ^ n - 2 ^ (n - 1) + b + 2 ^ (n - 1))
    with ((a + 2 ^ (n - 1)) mod 2 ^ n + b) by lia.
  rewrite Zplus_mod_idemp_l. f_equal. lia.
Qed.

Lemma wrapu_add_l n a b : wrapu n (wrapu n a + b) = wrapu n (a + b).
Proof. apply Zplus_mod_idemp_l. Qed.

Lemma wrapu_sub_l n a b : wrapu n (wrapu n a - b) = wrapu n (a - b).
Proof. apply Zminus_mod_idemp_l. Qed.

Lemma wrapu_sub_r n a b : wrapu n (a - wrapu n b) = wrapu n (a - b).
Proof. apply Zminus_mod_idemp_r. Qed.

(** ** Concrete widths: [cint] unfolds the wraps into [mod] by a literal. *)

Ltac cint_unfold :=
  unfold wrapu, wraps, in_u, in_s in *;
  change (2 ^ 8) with 256 in *; change (2 ^ (8 - 1)) with 128 in *;
  change (2 ^ 16) with 65536 in *; change (2 ^ (16 - 1)) with 32768 in *;
  change (2 ^ 32) with 4294967296 in *;
  change (2 ^ (32 - 1)) with 2147483648 in *;
  change (2 ^ 64) with 18446744073709551616 in *.

Ltac cint := cint_unfold; bools; zlia.

Lemma u8_range z : 0 <= u8 z < 256.
Proof. cint. Qed.
Lemma u16_range z : 0 <= u16 z < 65536.
Proof. cint. Qed.
Lemma u32_range z : 0 <= u32 z < 4294967296.
Proof. cint. Qed.
Lemma i8_range z : -128 <= i8 z < 128.
Proof. cint. Qed.
Lemma i16_range z : -32768 <= i16 z < 32768.
Proof. cint. Qed.
Lemma i32_range z : -2147483648 <= i32 z < 2147483648.
Proof. cint. Qed.

Lemma u16_id z : 0 <= z < 65536 -> u16 z = z.
Proof. cint. Qed.
Lemma u8_id z : 0 <= z < 256 -> u8 z = z.
Proof. cint. Qed.
Lemma u32_id z : 0 <= z < 4294967296 -> u32 z = z.
Proof. cint. Qed.
Lemma i8_id z : -128 <= z < 128 -> i8 z = z.
Proof. cint. Qed.
Lemma i16_id z : -32768 <= z < 32768 -> i16 z = z.
Proof. cint. Qed.
Lemma i32_id z : -2147483648 <= z < 2147483648 -> i32 z = z.
Proof. cint. Qed.

(** An [int16_t] holds the representative of its value modulo a circle. *)
Lemma i16_class z :
  -32768 <= i16 z < 32768 /\ i16 z mod 65536 = z mod 65536 /\
  (-32768 <= z < 32768 -> i16 z = z).
Proof. split; [cint|]. split; [cint | apply i16_id]. Qed.

Lemma i16_sub_r a b : i16 (a - i16 b) = i16 (a - b).
Proof. cint. Qed.

(** Removes, innermost first, the 32-bit wraps whose argument is in range. *)
Ltac wraps_inner :=
  repeat match goal with
  | |- context [wraps 32 ?e] =>
      lazymatch e with
      | context [wraps 32 _] => fail
      | _ => rewrite (i32_id e) by lia
      end
  end.

(** Two bytes combined into a word. *)
Lemma lor_bytes hi lo : 0 <= hi -> 0 <= lo < 256 -> Z.lor (Z.shiftl hi 8) lo = hi * 256 + lo.
Proof.
  intros Hh Hlo. change 256 with (2 ^ 8). rewrite <- Z.shiftl_mul_pow2 by lia.
  rewrite <- Z.add_lor_land.
  assert (Z.land (Z.shiftl hi 8) lo = 0) as ->; [|lia].
  apply Z.bits_inj'. intros n Hn. rewrite Z.land_spec, Z.bits_0.
  destruct (Z.lt_ge_cases n 8).
  - rewrite Z.shiftl_spec_low by lia. reflexivity.
  - rewrite <- (Z.mod_small lo (2 ^ 8)) by (simpl; lia).
    rewrite Z.mod_pow2_bits_high by lia. apply andb_false_r.
Qed.

#[export] Hint Resolve wrapu_range wraps_range wrapu_id wraps_id : seatel.
#[export] Hint Resolve u8_range u16_range u32_range i8_range i16_range i32_range : seatel.
Create Rewrite HintDb seatel.
#[export] Hint Rewrite u8_id u16_id u32_id i8_id i16_id i32_id using lia : seatel.
