(* ===== verification/CFloat.v ===== *)
(** * C [float] and [double]

    IEEE-754 binary32 and binary64 values with round-to-nearest-even, as the
    Standard Library's [SpecFloat] specifies them: [float] is precision 24 and
    [double] is precision 53.  A conversion to an integer type truncates toward
    zero; when the truncated value does not fit the type the C standard gives
    no meaning to it, and the conversion below is [None].  The second half
    shows that integers are represented exactly and bounds the results of the
    operations, which is what the components need to show that such conversions
    are defined. *)

From S2P Require Import Prelude CInt.
From Stdlib Require Import SpecFloat.

(** ** Operations *)

(** *** binary64 *)

Definition d_of_Z (z : Z) : spec_float := binary_normalize 53 1024 z 0 false.
Definition d_add : spec_float -> spec_float -> spec_float := SFadd 53 1024.
Definition d_sub : spec_float -> spec_float -> spec_float := SFsub 53 1024.
Definition d_mul : spec_float -> spec_float -> spec_float := SFmul 53 1024.
Definition d_div : spec_float -> spec_float -> spec_float := SFdiv 53 1024.

(** The decimal literal [num/den]: the quotient of two exact integers, rounded
    once, is the correctly rounded value of the literal. *)
Definition d_lit (num den : Z) : spec_float := d_div (d_of_Z num) (d_of_Z den).

(** *** binary32 *)

Definition s_of_Z (z : Z) : spec_float := binary_normalize 24 128 z 0 false.
Definition s_mul : spec_float -> spec_float -> spec_float := SFmul 24 128.
Definition s_div : spec_float -> spec_float -> spec_float := SFdiv 24 128.
Definition s_sub : spec_float -> spec_float -> spec_float := SFsub 24 128.

(** *** Conversions between the two *)

Definition f_convert (prec emax : Z) (x : spec_float) : spec_float :=
  match x with
  | S754_finite s m e => binary_round prec emax s m e
  | _ => x
  end.

(** [(float)x] and [(double)x]. *)
Definition s_of_d (x : spec_float) : spec_float := f_convert 24 128 x.
Definition d_of_s (x : spec_float) : spec_float := f_convert 53 1024 x.

(** [-x]. *)
Definition f_opp (x : spec_float) : spec_float := SFopp x.
(** [x < y]. *)
Definition f_ltb (x y : spec_float) : bool := SFltb x y.

(** *** Conversions to integers *)

(** The truncation of a finite value; infinities and NaN have none. *)
Definition f_trunc (x : spec_float) : option Z :=
  match x with
  | S754_zero _ => Some 0
  | S754_finite s m e =>
      let a := if 0 <=? e then Zpos m * 2 ^ e else Zpos m / 2 ^ (- e) in
      Some (if s then - a else a)
  | _ => None
  end.

(** [(uintN_t)x] and [(intN_t)x]. *)
Definition f_to_u (n : Z) (x : spec_float) : option Z :=
  z ← f_trunc x; if in_u n z then Some z else None.
Definition f_to_s (n : Z) (x : spec_float) : option Z :=
  z ← f_trunc x; if in_s n z then Some z else None.

(** ** Shifting right *)

Lemma shr_1_m r : 0 <= shr_m r -> shr_m (shr_1 r) = shr_m r / 2.
Proof.
  destruct r as [m b s]; simpl. intros H.
  destruct m as [|[p|p|]|p]; simpl; zlia.
Qed.

Lemma iter_shr_m p : forall r,
  0 <= shr_m r -> shr_m (iter_pos shr_1 p r) = shr_m r / 2 ^ Zpos p.
Proof.
  assert (step : forall r n, 0 <= shr_m r -> 0 <= shr_m r / 2 ^ n).
  { intros r n H. apply Z_div_nonneg_nonneg; [exact H | apply Z.pow_nonneg; lia]. }
  induction p as [p IH|p IH|]; intros r H; simpl iter_pos.
  - assert (H1 : 0 <= shr_m (shr_1 r)) by (rewrite shr_1_m by exact H; zlia).
    assert (H2 : 0 <= shr_m (iter_pos shr_1 p (shr_1 r))) by (rewrite IH by exact H1; auto).
    rewrite IH by exact H2. rewrite IH by exact H1. rewrite shr_1_m by exact H.
    rewrite !Z.div_div by (try apply Z.pow_pos_nonneg; lia).
    f_equal. rewrite Pos2Z.inj_xI.
    replace (2 * Zpos p + 1) with (1 + Zpos p + Zpos p) by lia.
    rewrite !Z.pow_add_r by lia. ring.
  - assert (H2 : 0 <= shr_m (iter_pos shr_1 p r)) by (rewrite IH by exact H; auto).
    rewrite IH by exact H2. rewrite IH by exact H.
    rewrite Z.div_div by (try apply Z.pow_pos_nonneg; lia).
    f_equal. rewrite <- Z.pow_add_r by lia. f_equal. lia.
  - rewrite shr_1_m by exact H. reflexivity.
Qed.

Lemma shr_spec r e n :
  0 <= shr_m r ->
  shr_m (fst (shr r e n)) = shr_m r / 2 ^ Z.max n 0 /\
  snd (shr r e n) = e + Z.max n 0.
Proof.
  intros H. unfold shr. destruct n as [|p|p]; simpl fst; simpl snd.
  - rewrite Z.div_1_r. split; [reflexivity | lia].
  - rewrite Z.max_l by lia. rewrite iter_shr_m by exact H. split; [reflexivity | lia].
  - rewrite Z.max_r by lia. rewrite Z.div_1_r. split; [reflexivity | lia].
Qed.

Lemma shr_record_of_loc_m m l : shr_m (shr_record_of_loc m l) = m.
Proof. destruct l as [|[]]; reflexivity. Qed.

Lemma digits2_pos_log2 m : Zpos (digits2_pos m) = Z.log2 (Zpos m) + 1.
Proof.
  induction m as [p IH|p IH|]; simpl digits2_pos.
  - rewrite Pos2Z.inj_succ, IH, Pos2Z.inj_xI.
    rewrite Z.log2_succ_double by lia. lia.
  - rewrite Pos2Z.inj_succ, IH, Pos2Z.inj_xO, Z.log2_double by lia. lia.
  - reflexivity.
Qed.

Lemma Zdigits2_bound m k : 0 <= m < 2 ^ k -> 0 <= k -> Zdigits2 m <= k.
Proof.
  intros Hm Hk. destruct m as [|p|p]; simpl; [lia| |lia].
  rewrite digits2_pos_log2.
  assert (Z.log2 (Zpos p) < k) by (apply Z.log2_lt_pow2; lia). lia.
Qed.

Lemma shl_align_spec m e e' :
  snd (shl_align m e e') = Z.min e e' /\
  Zpos (fst (shl_align m e e')) = Zpos m * 2 ^ (e - Z.min e e').
Proof.
  unfold shl_align. destruct (e' - e) as [|p|p] eqn:Ep; simpl.
  1,2: rewrite Z.min_l by lia; rewrite Z.sub_diag, Z.mul_1_r; auto.
  rewrite Z.min_r by lia. split; [reflexivity|].
  replace (e - e') with (Zpos p) by lia.
  rewrite <- Z.shiftl_mul_pow2 by lia. simpl.
  apply (Pos.iter_swap_gen _ _ Zpos xO (Z.mul 2)). reflexivity.
Qed.

(** ** Integers are represented exactly *)

Lemma shr_fexp_exact prec emax m e :
  0 <= m -> fexp prec emax (Zdigits2 m + e) <= e ->
  shr_fexp prec emax m e loc_Exact = (shr_record_of_loc m loc_Exact, e).
Proof.
  intros Hm Hf. unfold shr_fexp, shr.
  destruct (fexp prec emax (Zdigits2 m + e) - e) eqn:E; [reflexivity|lia|reflexivity].
Qed.

Lemma binary_round_int prec emax s p :
  0 < prec -> Zpos (digits2_pos p) <= prec -> emin prec emax <= 0 -> prec <= emax ->
  exists m e, binary_round prec emax s p 0 = S754_finite s m e /\ e <= 0 /\
              Zpos m = Zpos p * 2 ^ (- e).
Proof.
  intros Hprec Hd Hmin Hmax. unfold binary_round.
  set (ex := fexp prec emax (Zpos (digits2_pos p) + 0)).
  assert (Hex : ex <= 0) by (unfold ex, fexp; lia).
  destruct (shl_align_spec p 0 ex) as [Hs Hf].
  rewrite Z.min_r in Hs, Hf by lia.
  destruct (shl_align p 0 ex) as [mz ez]; simpl in Hs, Hf. subst ez.
  assert (Hdz : Zdigits2 (Zpos mz) = Zpos (digits2_pos p) - ex).
  { simpl. rewrite !digits2_pos_log2, Hf, Z.log2_mul_pow2 by lia. lia. }
  assert (Hfe : fexp prec emax (Zdigits2 (Zpos mz) + ex) <= ex).
  { rewrite Hdz. replace (Zpos (digits2_pos p) - ex + ex) with (Zpos (digits2_pos p) + 0) by lia.
    fold ex. lia. }
  exists mz, ex. split_and!; [|lia|rewrite Hf; f_equal; f_equal; lia].
  unfold binary_round_aux.
  rewrite shr_fexp_exact by (try lia; exact Hfe). simpl.
  rewrite shr_fexp_exact by (try lia; exact Hfe). simpl.
  rewrite (proj2 (Z.leb_le ex _)) by lia. reflexivity.
Qed.

Lemma f_trunc_finite s m e :
  e <= 0 ->
  f_trunc (S754_finite s m e) =
  Some (if s then - (Zpos m / 2 ^ (- e)) else Zpos m / 2 ^ (- e)).
Proof.
  intros He. unfold f_trunc. destruct (Z.leb_spec 0 e); [|reflexivity].
  assert (e = 0) as -> by lia. simpl. rewrite Z.mul_1_r, Z.div_1_r. reflexivity.
Qed.

Lemma normalize_int prec emax z :
  0 < prec -> emin prec emax <= 0 -> prec <= emax -> Z.abs z < 2 ^ prec ->
  f_trunc (binary_normalize prec emax z 0 false) = Some z.
Proof.
  intros Hprec Hmin Hmax Hz. unfold binary_normalize.
  assert (Hd : forall p, Zpos p < 2 ^ prec -> Zpos (digits2_pos p) <= prec).
  { intros p Hp. apply (Zdigits2_bound (Zpos p)); lia. }
  destruct z as [|p|p]; [reflexivity | |].
  1: destruct (binary_round_int prec emax false p) as (m & e & -> & He & Hm); auto with lia.
  2: destruct (binary_round_int prec emax true p) as (m & e & -> & He & Hm); auto with lia.
  all: rewrite f_trunc_finite, Hm, Z.div_mul by (try lia; apply Z.pow_nonzero; lia).
  all: reflexivity.
Qed.

Lemma d_of_Z_trunc z : Z.abs z < 2 ^ 53 -> f_trunc (d_of_Z z) = Some z.
Proof. intros H. apply normalize_int; [reflexivity | easy | easy | exact H]. Qed.

(** Adding a zero to an integer held in a [double] changes nothing. *)
Lemma d_add_zero_trunc z s :
  Z.abs z < 2 ^ 53 -> f_trunc (d_add (d_of_Z z) (S754_zero s)) = Some z.
Proof.
  intros Hz. pose proof (d_of_Z_trunc z Hz) as H.
  destruct (d_of_Z z) as [s'|s'| |s' m e]; try discriminate; [|exact H].
  destruct s', s; exact H.
Qed.

(** ** Exact upper bounds

    [fle prec b j x]: [|x| <= b * 2 ^ j].  Rounding respects such a bound when
    [b] fits the precision, so the bounds below do not grow with rounding. *)

Definition fle (b j : Z) (x : spec_float) : Prop :=
  match x with
  | S754_zero _ => True
  | S754_finite _ m e => Zpos m * 2 ^ (e - Z.min e j) <= b * 2 ^ (j - Z.min e j)
  | _ => False
  end.

Lemma shr_1_even m : 0 <= m -> m mod 2 = 0 ->
  shr_1 (Build_shr_record m false false) = Build_shr_record (m / 2) false false.
Proof.
  intros Hm H. destruct m as [|[p|p|]|p]; try (exfalso; zlia).
  - reflexivity.
  - simpl. f_equal. zlia.
Qed.

Lemma iter_shr_exact p : forall m, 0 <= m -> (2 ^ Zpos p | m) ->
  iter_pos shr_1 p (Build_shr_record m false false)
  = Build_shr_record (m / 2 ^ Zpos p) false false.
Proof.
  assert (Hdiv : forall p m, 0 <= m -> (2 ^ Zpos p * 2 ^ Zpos p | m) ->
            0 <= m / 2 ^ Zpos p /\ (2 ^ Zpos p | m) /\ (2 ^ Zpos p | m / 2 ^ Zpos p)).
  { intros q m Hm [c ->]. assert (0 < 2 ^ Zpos q) by (apply Z.pow_pos_nonneg; lia).
    replace (c * (2 ^ Zpos q * 2 ^ Zpos q)) with (c * 2 ^ Zpos q * 2 ^ Zpos q) by ring.
    rewrite Z.div_mul by lia. split_and!; [nia | eexists; reflexivity | eexists; reflexivity]. }
  induction p as [p IH|p IH|]; intros m Hm Hd; cbn [iter_pos].
  - rewrite (Pos2Z.inj_xI p) in Hd. replace (2 * Zpos p + 1) with (1 + (Zpos p + Zpos p)) in Hd by lia.
    rewrite !Z.pow_add_r in Hd by lia. change (2 ^ 1) with 2 in Hd.
    destruct Hd as [c ->].
    rewrite shr_1_even by (try lia; replace (c * (2 * (2 ^ Zpos p * 2 ^ Zpos p)))
      with ((c * (2 ^ Zpos p * 2 ^ Zpos p)) * 2) by ring; apply Z.mod_mul; lia).
    replace (c * (2 * (2 ^ Zpos p * 2 ^ Zpos p)) / 2) with (c * (2 ^ Zpos p * 2 ^ Zpos p)).
    2:{ replace (c * (2 * (2 ^ Zpos p * 2 ^ Zpos p))) with ((c * (2 ^ Zpos p * 2 ^ Zpos p)) * 2) by ring.
        rewrite Z.div_mul by lia. reflexivity. }
    destruct (Hdiv p (c * (2 ^ Zpos p * 2 ^ Zpos p))) as (H1 & H2 & H3);
      [nia | eexists; reflexivity|].
    rewrite IH by (try exact H2; nia). rewrite IH by assumption.
    f_equal. rewrite (Pos2Z.inj_xI p). replace (2 * Zpos p + 1) with (1 + (Zpos p + Zpos p)) by lia.
    rewrite !Z.pow_add_r by lia. change (2 ^ 1) with 2.
    assert (0 < 2 ^ Zpos p) by (apply Z.pow_pos_nonneg; lia).
    rewrite Z.div_div by lia. rewrite Z.div_mul by nia.
    replace (c * (2 * (2 ^ Zpos p * 2 ^ Zpos p))) with (c * (2 * (2 ^ Zpos p * 2 ^ Zpos p))) by ring.
    rewrite Z.div_mul by nia. reflexivity.
  - rewrite (Pos2Z.inj_xO p) in Hd. replace (2 * Zpos p) with (Zpos p + Zpos p) in Hd by lia.
    rewrite Z.pow_add_r in Hd by lia. destruct (Hdiv p m Hm Hd) as (H1 & H2 & H3).
    rewrite IH by assumption. rewrite IH by assumption. f_equal.
    rewrite Z.div_div by (try apply Z.pow_pos_nonneg; lia).
    rewrite <- Z.pow_add_r by lia. f_equal. f_equal. lia.
  - rewrite shr_1_even; [reflexivity | exact Hm|]. apply Z.mod_divide; [lia | exact Hd].
Qed.

Lemma log2_bound m e b j prec :
  0 < m -> m * 2 ^ (e - Z.min e j) <= b * 2 ^ (j - Z.min e j) -> 0 < b < 2 ^ prec ->
  0 <= prec -> Z.log2 m + 1 + e <= prec + j.
Proof.
  intros Hm Hle Hb Hp. set (k := Z.min e j) in *.
  assert (H1 : 2 ^ (Z.log2 m) * 2 ^ (e - k) <= m * 2 ^ (e - k)).
  { apply Z.mul_le_mono_nonneg_r; [apply Z.pow_nonneg; lia | apply Z.log2_spec; lia]. }
  assert (H2 : b * 2 ^ (j - k) < 2 ^ prec * 2 ^ (j - k)).
  { apply Z.mul_lt_mono_pos_r; [apply Z.pow_pos_nonneg; lia | lia]. }
  pose proof (Z.log2_nonneg m).
  rewrite <- Z.pow_add_r in H1, H2 by lia.
  assert (Z.log2 m + (e - k) < prec + (j - k)); [|lia].
  apply (Z.pow_lt_mono_r_iff 2); lia.
Qed.

(** Rounding a number never gives NaN. *)
Lemma shr_fexp_nonneg prec emax m e l :
  0 <= m -> 0 <= shr_m (fst (shr_fexp prec emax m e l)).
Proof.
  intros Hm. unfold shr_fexp.
  destruct (shr_spec (shr_record_of_loc m l) e (fexp prec emax (Zdigits2 m + e) - e)) as [-> _].
  { rewrite shr_record_of_loc_m; exact Hm. }
  rewrite shr_record_of_loc_m.
  apply Z_div_nonneg_nonneg; [exact Hm | apply Z.pow_nonneg; lia].
Qed.

Lemma round_nearest_even_nonneg m l : 0 <= m -> 0 <= round_nearest_even m l.
Proof. intros Hm. unfold round_nearest_even. destruct l as [|[]]; try case_bool; lia. Qed.

Lemma binary_round_aux_not_nan prec emax s m e l :
  0 <= m -> binary_round_aux prec emax s m e l <> S754_nan.
Proof.
  intros Hm. unfold binary_round_aux.
  pose proof (shr_fexp_nonneg prec emax m e l Hm) as H1.
  destruct (shr_fexp prec emax m e l) as [r1 e1]; simpl in H1.
  pose proof (round_nearest_even_nonneg _ (loc_of_shr_record r1) H1) as Hm2.
  pose proof (shr_fexp_nonneg prec emax _ e1 loc_Exact Hm2) as H2.
  destruct (shr_fexp prec emax _ e1 loc_Exact) as [r2 e2]; simpl in H2.
  destruct (shr_m r2); [discriminate | case_bool; discriminate | lia].
Qed.

Section ExactBounds.
Context (prec emax b j : Z).
Context (Hprec : 0 < prec) (Hb : 0 < b < 2 ^ prec).
Context (Hmin : emin prec emax <= j) (Hmax : j + 2 * prec <= emax).

(** The rounded significand does not pass the bound. *)
Lemma round_step_fle m e l :
  0 <= m -> m * 2 ^ (e - Z.min e j) <= b * 2 ^ (j - Z.min e j) ->
  (l = loc_Exact \/ (e <= j /\ m < b * 2 ^ (j - e))) ->
  let r := shr_fexp prec emax m e l in
  let m2 := round_nearest_even (shr_m (fst r)) (loc_of_shr_record (fst r)) in
  0 <= m2 /\ m2 * 2 ^ (snd r - Z.min (snd r) j) <= b * 2 ^ (j - Z.min (snd r) j).
Proof.
  intros Hm Hle Hl r m2. unfold m2, r. clear m2 r. unfold shr_fexp.
  set (f := fexp prec emax (Zdigits2 m + e) - e).
  assert (Hf : f <= j - e \/ m = 0).
  { destruct m as [|p|p]; [auto| |lia]. left. unfold f, fexp. simpl Zdigits2.
    rewrite digits2_pos_log2.
    pose proof (log2_bound (Zpos p) e b j prec). lia. }
  assert (Hup : forall x lx, 0 <= x -> 0 <= round_nearest_even x lx <= x + 1).
  { intros x lx Hx. unfold round_nearest_even. destruct lx as [|[]]; try case_bool; lia. }
  destruct f as [|p|p] eqn:Ef.
  1,3: simpl; rewrite shr_record_of_loc_m;
       replace (loc_of_shr_record (shr_record_of_loc m l)) with l by (destruct l as [|[]]; reflexivity);
       split; [apply Hup, Hm|];
       destruct Hl as [->|[He Hlt]]; [exact Hle|];
       specialize (Hup m l Hm); rewrite !Z.min_l, Z.sub_diag by lia; lia.
  simpl fst; simpl snd.
  assert (Hs0 : 0 <= shr_m (shr_record_of_loc m l)) by (rewrite shr_record_of_loc_m; exact Hm).
  assert (Hpow : 0 < 2 ^ Zpos p) by (apply Z.pow_pos_nonneg; lia).
  pose proof (iter_shr_m p _ Hs0) as Hsm. rewrite shr_record_of_loc_m in Hsm.
  destruct (Z.eq_dec m 0) as [Hm0|Hm0].
  { (* an exact zero stays zero; an inexact one rounds to at most one unit *)
    destruct Hl as [->|[He Hlt]].
    - simpl shr_record_of_loc. rewrite iter_shr_exact by (try lia; subst m; apply Z.divide_0_r).
      subst m. simpl. rewrite Z.div_0_l by lia. split; [lia|].
      rewrite Z.mul_0_l. apply Z.mul_nonneg_nonneg; [lia | apply Z.pow_nonneg; lia].
    - specialize (Hup (shr_m (iter_pos shr_1 p (shr_record_of_loc m l)))
                      (loc_of_shr_record (iter_pos shr_1 p (shr_record_of_loc m l)))).
      rewrite Hsm in *. subst m. rewrite Z.div_0_l in * by lia.
      assert (Hej : e + Zpos p <= j) by (unfold f, fexp in Ef; simpl in Ef; lia).
      rewrite Z.min_l, Z.sub_diag by lia.
      assert (1 <= 2 ^ (j - (e + Zpos p))) by (apply (Z.pow_le_mono_r 2 0); lia). nia. }
  assert (Hej : e + Zpos p <= j) by lia.
  rewrite Z.min_l in Hle by lia. rewrite Z.sub_diag, Z.mul_1_r in Hle.
  rewrite Z.min_l, Z.sub_diag, Z.mul_1_r by lia.
  specialize (Hup (shr_m (iter_pos shr_1 p (shr_record_of_loc m l)))
                  (loc_of_shr_record (iter_pos shr_1 p (shr_record_of_loc m l)))).
  rewrite Hsm in Hup |- *.
  assert (Hsplit : b * 2 ^ (j - e) = b * 2 ^ (j - (e + Zpos p)) * 2 ^ Zpos p).
  { rewrite <- Z.mul_assoc, <- Z.pow_add_r by lia. f_equal. f_equal. lia. }
  set (B := b * 2 ^ (j - (e + Zpos p))) in *.
  assert (Hq : m / 2 ^ Zpos p <= B) by (apply Z.div_le_upper_bound; lia).
  split; [apply Hup, Z_div_nonneg_nonneg; lia|].
  destruct (Z.eq_dec (m / 2 ^ Zpos p) B) as [Heq|Hne].
  2: specialize (Hup (Z_div_nonneg_nonneg _ _ Hm (Z.lt_le_incl _ _ Hpow))); lia.
  assert (Hmeq : m = B * 2 ^ Zpos p).
  { pose proof (Z.mul_div_le m (2 ^ Zpos p) Hpow). rewrite Heq in *. lia. }
  destruct Hl as [->|[_ Hlt]]; [|lia].
  simpl shr_record_of_loc. rewrite iter_shr_exact by (try lia; exists B; exact Hmeq).
  simpl. lia.
Qed.

Lemma binary_round_aux_fle s m e l :
  0 <= m -> m * 2 ^ (e - Z.min e j) <= b * 2 ^ (j - Z.min e j) ->
  (l = loc_Exact \/ (e <= j /\ m < b * 2 ^ (j - e))) ->
  fle b j (binary_round_aux prec emax s m e l).
Proof.
  intros Hm Hle Hl. unfold binary_round_aux.
  pose proof (round_step_fle m e l Hm Hle Hl) as H1. simpl in H1.
  destruct (shr_fexp prec emax m e l) as [r1 e1]; simpl in H1.
  set (m2 := round_nearest_even _ _) in *. destruct H1 as [Hm2 Hle2].
  pose proof (round_step_fle m2 e1 loc_Exact Hm2 Hle2 (or_introl eq_refl)) as H2.
  simpl in H2. unfold shr_fexp in *.
  destruct (shr_spec (shr_record_of_loc m2 loc_Exact) e1
              (fexp prec emax (Zdigits2 m2 + e1) - e1)) as [Hs1 Hs2].
  { rewrite shr_record_of_loc_m; exact Hm2. }
  rewrite shr_record_of_loc_m in Hs1.
  destruct (shr (shr_record_of_loc m2 loc_Exact) e1 _) as [r2 e2]; simpl in Hs1, Hs2.
  set (n := Z.max _ 0) in *. assert (Hn : 0 <= n) by lia.
  destruct (shr_m r2) as [|p|p] eqn:Er; [exact I| |].
  2: { assert (0 <= m2 / 2 ^ n); [apply Z_div_nonneg_nonneg; [lia | apply Z.pow_nonneg; lia]|lia]. }
  assert (Hpow : 0 < 2 ^ n) by (apply Z.pow_pos_nonneg; lia).
  assert (Hpm : Zpos p * 2 ^ n <= m2).
  { rewrite Hs1. rewrite Z.mul_comm. apply Z.mul_div_le. exact Hpow. }
  assert (Hbound : Zpos p * 2 ^ (e2 - Z.min e2 j) <= b * 2 ^ (j - Z.min e2 j)).
  { rewrite Hs2. destruct (Z.le_gt_cases (e1 + n) j) as [Hc|Hc].
    - rewrite Z.min_l in Hle2 |- * by lia. rewrite Z.sub_diag, Z.mul_1_r in Hle2 |- *.
      apply (Z.mul_le_mono_pos_r _ _ (2 ^ n) Hpow).
      rewrite <- Z.mul_assoc, <- Z.pow_add_r by lia.
      replace (j - (e1 + n) + n) with (j - e1) by lia. lia.
    - rewrite Z.min_r by lia. rewrite Z.sub_diag, Z.mul_1_r.
      destruct (Z.le_gt_cases e1 j) as [Hc1|Hc1].
      + rewrite Z.min_l, Z.sub_diag, Z.mul_1_r in Hle2 by lia.
        apply (Z.mul_le_mono_pos_r _ _ (2 ^ (j - e1))); [apply Z.pow_pos_nonneg; lia|].
        rewrite <- Z.mul_assoc, <- Z.pow_add_r by lia.
        replace (e1 + n - j + (j - e1)) with n by lia. lia.
      + rewrite Z.min_r, Z.sub_diag, Z.mul_1_r in Hle2 by lia.
        replace (e1 + n - j) with (n + (e1 - j)) by lia. rewrite Z.pow_add_r by lia.
        assert (0 < 2 ^ (e1 - j)) by (apply Z.pow_pos_nonneg; lia). nia. }
  assert (He2 : e2 <= emax - prec).
  { assert (Hm20 : 0 < m2) by nia.
    pose proof (log2_bound m2 e1 b j prec Hm20 Hle2 Hb ltac:(lia)) as Hlog.
    pose proof (Z.log2_nonneg m2).
    assert (Hd : Zdigits2 m2 = Z.log2 m2 + 1).
    { destruct m2 as [|q|q]; try lia. simpl Zdigits2. apply digits2_pos_log2. }
    unfold n, fexp in Hs2. lia. }
  rewrite (proj2 (Z.leb_le _ _) He2). exact Hbound.
Qed.

End ExactBounds.

(** *** Operations *)

Lemma scale_le m e b j k k' :
  k' <= k -> k <= e -> k <= j ->
  (m * 2 ^ (e - k) <= b * 2 ^ (j - k) <-> m * 2 ^ (e - k') <= b * 2 ^ (j - k')).
Proof.
  intros H1 H2 H3. assert (Hp : 0 < 2 ^ (k - k')) by (apply Z.pow_pos_nonneg; lia).
  replace (e - k') with (e - k + (k - k')) by lia.
  replace (j - k') with (j - k + (k - k')) by lia.
  rewrite !Z.pow_add_r, !Z.mul_assoc by lia.
  apply Z.mul_le_mono_pos_r. exact Hp.
Qed.

Lemma fle_finite s m e b j k :
  k <= e -> k <= j ->
  (fle b j (S754_finite s m e) <-> Zpos m * 2 ^ (e - k) <= b * 2 ^ (j - k)).
Proof. intros H1 H2. simpl. apply scale_le; lia. Qed.

Lemma fle_mono b b' j x : b <= b' -> fle b j x -> fle b' j x.
Proof.
  intros Hb. destruct x as [s|s| |s m e]; simpl; auto. intros H.
  assert (0 < 2 ^ (j - Z.min e j)) by (apply Z.pow_pos_nonneg; lia). nia.
Qed.

Lemma fle_opp b j x : fle b j x -> fle b j (f_opp x).
Proof. destruct x; simpl; auto. Qed.

(** [fge c i x]: [c * 2 ^ i <= |x|]. *)
Definition fge (c i : Z) (x : spec_float) : Prop :=
  match x with
  | S754_finite _ m e => c * 2 ^ (i - Z.min e i) <= Zpos m * 2 ^ (e - Z.min e i)
  | _ => False
  end.

Section OpBounds.
Context (prec emax : Z).
Context (Hprec : 0 < prec).

Definition bound_ok (b j : Z) : Prop :=
  0 < b < 2 ^ prec /\ emin prec emax <= j /\ j + 2 * prec <= emax.

Lemma SFmul_fle x y b1 j1 b2 j2 :
  fle b1 j1 x -> fle b2 j2 y -> 0 <= b1 -> 0 <= b2 ->
  bound_ok (b1 * b2) (j1 + j2) -> fle (b1 * b2) (j1 + j2) (SFmul prec emax x y).
Proof.
  intros Hx Hy Hb1 Hb2 (Hb & Hmin & Hmax).
  destruct x as [s1|s1| |s1 m1 e1], y as [s2|s2| |s2 m2 e2]; simpl in Hx, Hy;
    try contradiction; try exact I.
  apply binary_round_aux_fle; auto; [lia|].
  apply (scale_le _ _ _ _ _ (Z.min e1 j1 + Z.min e2 j2)); try lia.
  rewrite Pos2Z.inj_mul.
  replace (e1 + e2 - (Z.min e1 j1 + Z.min e2 j2)) with (e1 - Z.min e1 j1 + (e2 - Z.min e2 j2)) by lia.
  replace (j1 + j2 - (Z.min e1 j1 + Z.min e2 j2)) with (j1 - Z.min e1 j1 + (j2 - Z.min e2 j2)) by lia.
  rewrite !Z.pow_add_r by lia.
  rewrite (Z.mul_shuffle1 (Zpos m1)), (Z.mul_shuffle1 b1).
  apply Z.mul_le_mono_nonneg; auto; apply Z.mul_nonneg_nonneg; try lia; apply Z.pow_nonneg; lia.
Qed.

Lemma binary_round_fle s m e b j :
  fle b j (S754_finite s m e) -> bound_ok b j -> fle b j (binary_round prec emax s m e).
Proof.
  intros Hx (Hb & Hmin & Hmax). unfold binary_round.
  destruct (shl_align_spec m e (fexp prec emax (Zpos (digits2_pos m) + e))) as [Hs Hf].
  destruct (shl_align _ _ _) as [mz ez]; simpl in Hs, Hf.
  set (ex := fexp _ _ _) in *.
  apply binary_round_aux_fle; auto; [lia|].
  subst ez. apply (scale_le _ _ _ _ _ (Z.min (Z.min e ex) j)); try lia.
  rewrite Hf, <- Z.mul_assoc, <- Z.pow_add_r by lia.
  replace (e - Z.min e ex + (Z.min e ex - Z.min (Z.min e ex) j))
    with (e - Z.min (Z.min e ex) j) by lia.
  apply (fle_finite s m e b j); try lia. exact Hx.
Qed.

Lemma binary_normalize_fle z e s b j :
  Z.abs z * 2 ^ (e - Z.min e j) <= b * 2 ^ (j - Z.min e j) -> bound_ok b j ->
  fle b j (binary_normalize prec emax z e s).
Proof.
  intros Hz Hok. destruct z as [|p|p]; [exact I | |];
    apply binary_round_fle; auto; simpl in *; exact Hz.
Qed.

Lemma f_convert_fle x b j : fle b j x -> bound_ok b j -> fle b j (f_convert prec emax x).
Proof.
  intros Hx Hok. destruct x; simpl in Hx; try contradiction; [exact I|].
  apply binary_round_fle; assumption.
Qed.

Lemma addend_fle s m e ez b j :
  fle b j (S754_finite s m e) -> ez <= e ->
  let k := Z.min ez j in
  Z.abs (cond_Zopp s (Zpos (fst (shl_align m e ez)))) * 2 ^ (ez - k) <= b * 2 ^ (j - k).
Proof.
  intros Hx Hez k. destruct (shl_align_spec m e ez) as [_ Hf].
  rewrite Z.min_r in Hf by lia.
  assert (Z.abs (cond_Zopp s (Zpos (fst (shl_align m e ez)))) = Zpos m * 2 ^ (e - ez)) as ->.
  { rewrite <- Hf. destruct s; simpl; lia. }
  rewrite <- Z.mul_assoc, <- Z.pow_add_r by lia.
  replace (e - ez + (ez - k)) with (e - k) by lia.
  apply (fle_finite s m e b j k); try lia. exact Hx.
Qed.

Lemma SFadd_fle x y b1 b2 j :
  fle b1 j x -> fle b2 j y -> 0 <= b1 -> 0 <= b2 -> bound_ok (b1 + b2) j ->
  fle (b1 + b2) j (SFadd prec emax x y) /\ fle (b1 + b2) j (SFsub prec emax x y).
Proof.
  intros Hx Hy Hb1 Hb2 Hok.
  destruct x as [s1|s1| |s1 m1 e1], y as [s2|s2| |s2 m2 e2];
    try (simpl in Hx, Hy; contradiction).
  1: destruct s1, s2; simpl; auto.
  1: split; [apply (fle_mono b2); [lia | exact Hy]
            |apply (fle_mono b2 _ _ (S754_finite (negb s2) m2 e2)); [lia | exact Hy]].
  1: split; apply (fle_mono b1); try lia; exact Hx.
  pose proof (addend_fle s1 m1 e1 (Z.min e1 e2) b1 j Hx ltac:(lia)) as H1.
  pose proof (addend_fle s2 m2 e2 (Z.min e1 e2) b2 j Hy ltac:(lia)) as H2.
  cbv zeta in H1, H2. unfold SFadd, SFsub; cbv zeta. revert H1 H2.
  generalize (cond_Zopp s1 (Zpos (fst (shl_align m1 e1 (Z.min e1 e2))))).
  generalize (cond_Zopp s2 (Zpos (fst (shl_align m2 e2 (Z.min e1 e2))))).
  intros a2 a1 H1 H2.
  assert (0 < 2 ^ (Z.min e1 e2 - Z.min (Z.min e1 e2) j)) by (apply Z.pow_pos_nonneg; lia).
  split; apply binary_normalize_fle; auto; rewrite Z.mul_add_distr_r.
  - pose proof (Z.abs_triangle a1 a2). nia.
  - pose proof (Z.abs_triangle a1 (- a2)). rewrite Z.abs_opp in *. nia.
Qed.

End OpBounds.

(** The cross-multiplied form of [|x / y| <= b * 2 ^ j]. *)
Lemma quotient_bound m1 e1 b1 j1 m2 e2 c i b j k :
  0 <= b -> 0 <= m2 ->
  m1 * 2 ^ (e1 - Z.min e1 j1) <= b1 * 2 ^ (j1 - Z.min e1 j1) ->
  c * 2 ^ (i - Z.min e2 i) <= m2 * 2 ^ (e2 - Z.min e2 i) ->
  k <= j1 -> k <= j + i -> b1 * 2 ^ (j1 - k) <= b * c * 2 ^ (j + i - k) ->
  forall t, t <= e1 -> t <= j + e2 -> m1 * 2 ^ (e1 - t) <= b * m2 * 2 ^ (j + e2 - t).
Proof.
  intros Hb Hm2 H1 H2 Hk1 Hk2 H3.
  set (n := Z.min (Z.min (Z.min e1 j1) k) (j + Z.min e2 i)).
  enough (H : m1 * 2 ^ (e1 - n) <= b * m2 * 2 ^ (j + e2 - n)).
  { intros t Ht1 Ht2. destruct (Z.le_gt_cases n t).
    - apply (scale_le m1 e1 (b * m2) (j + e2) t n); lia.
    - apply (scale_le m1 e1 (b * m2) (j + e2) n t); lia. }
  apply (scale_le m1 e1 b1 j1 (Z.min e1 j1) n) in H1; [|lia..].
  assert (H3' : b1 * 2 ^ (j1 - n) <= b * c * 2 ^ (j + i - n))
    by (apply (scale_le b1 j1 (b * c) (j + i) k n); [lia..|exact H3]).
  clear H3; rename H3' into H3.
  etransitivity; [exact H1|]. etransitivity; [exact H3|].
  replace (j + i - n) with (i - Z.min e2 i + (j + Z.min e2 i - n)) by lia.
  replace (j + e2 - n) with (e2 - Z.min e2 i + (j + Z.min e2 i - n)) by lia.
  rewrite !Z.pow_add_r by lia.
  replace (b * c * (2 ^ (i - Z.min e2 i) * 2 ^ (j + Z.min e2 i - n)))
    with (c * 2 ^ (i - Z.min e2 i) * (b * 2 ^ (j + Z.min e2 i - n))) by ring.
  replace (b * m2 * (2 ^ (e2 - Z.min e2 i) * 2 ^ (j + Z.min e2 i - n)))
    with (m2 * 2 ^ (e2 - Z.min e2 i) * (b * 2 ^ (j + Z.min e2 i - n))) by ring.
  apply Z.mul_le_mono_nonneg_r; [|exact H2].
  apply Z.mul_nonneg_nonneg; [exact Hb | apply Z.pow_nonneg; lia].
Qed.

Lemma quotient_digits m1 e1 m2 e2 b j prec t :
  0 < m1 -> 0 < m2 -> 0 < b < 2 ^ prec -> 0 <= prec -> t <= e1 -> t <= j + e2 ->
  m1 * 2 ^ (e1 - t) <= b * m2 * 2 ^ (j + e2 - t) ->
  Z.log2 m1 + e1 <= Z.log2 m2 + e2 + prec + j.
Proof.
  intros Hm1 Hm2 Hb Hp Ht1 Ht2 Hle.
  pose proof (Z.log2_nonneg m1). pose proof (Z.log2_nonneg m2).
  assert (H1 : 2 ^ (Z.log2 m1 + (e1 - t)) <= m1 * 2 ^ (e1 - t)).
  { rewrite Z.pow_add_r by lia. apply Z.mul_le_mono_nonneg_r; [apply Z.pow_nonneg; lia|].
    apply Z.log2_spec; lia. }
  assert (H2 : b * m2 * 2 ^ (j + e2 - t) < 2 ^ (prec + (Z.log2 m2 + 1) + (j + e2 - t))).
  { rewrite (Z.pow_add_r 2 (prec + _)) by lia.
    apply Z.mul_lt_mono_pos_r; [apply Z.pow_pos_nonneg; lia|].
    rewrite Z.pow_add_r by lia. apply Z.mul_lt_mono_nonneg; try lia.
    apply Z.log2_spec; lia. }
  assert (Z.log2 m1 + (e1 - t) < prec + (Z.log2 m2 + 1) + (j + e2 - t)); [|lia].
  apply (Z.pow_lt_mono_r_iff 2); lia.
Qed.

Lemma new_location_exact n k : k = 0 \/ new_location n k <> loc_Exact.
Proof.
  unfold new_location, new_location_even, new_location_odd.
  destruct (Z.even n), (Z.eqb_spec k 0); auto; right; discriminate.
Qed.

Lemma new_location_zero n : new_location n 0 = loc_Exact.
Proof. unfold new_location. destruct (Z.even n); reflexivity. Qed.

Lemma SFdiv_fle prec emax x y b1 j1 c i b j k :
  0 < prec -> fle b1 j1 x -> fge c i y -> k <= j1 -> k <= j + i ->
  b1 * 2 ^ (j1 - k) <= b * c * 2 ^ (j + i - k) -> bound_ok prec emax b j ->
  fle b j (SFdiv prec emax x y).
Proof.
  intros Hprec Hx Hy Hk1 Hk2 H3 (Hb & Hmin & Hmax).
  destruct x as [s1|s1| |s1 m1 e1], y as [s2|s2| |s2 m2 e2];
    try (simpl in Hx, Hy; contradiction); [exact I|].
  simpl in Hx, Hy.
  assert (HQ := quotient_bound (Zpos m1) e1 b1 j1 (Zpos m2) e2 c i b j k
                  (Z.lt_le_incl _ _ (proj1 Hb)) (Pos2Z.is_nonneg m2) Hx Hy Hk1 Hk2 H3).
  simpl. unfold SFdiv_core_binary.
  set (e' := Z.min _ (e1 - e2)).
  assert (He' : e' <= j).
  { pose proof (quotient_digits (Zpos m1) e1 (Zpos m2) e2 b j prec (Z.min e1 (j + e2))
      ltac:(lia) ltac:(lia) Hb ltac:(lia) ltac:(lia) ltac:(lia) (HQ (Z.min e1 (j + e2)) ltac:(lia) ltac:(lia))).
    unfold e', fexp. simpl Zdigits2. rewrite !digits2_pos_log2. lia. }
  assert (He'' : e' <= e1 - e2) by lia.
  specialize (HQ (e2 + e') ltac:(lia) ltac:(lia)).
  replace (j + e2 - (e2 + e')) with (j - e') in HQ by lia.
  set (s := e1 - e2 - e') in *. replace (e1 - (e2 + e')) with s in HQ by lia.
  assert (Hm' : match s with Z0 => Zpos m1 | Zpos _ => Z.shiftl (Zpos m1) s | Zneg _ => 0 end
                = Zpos m1 * 2 ^ s).
  { destruct s as [|p|p] eqn:Es; [simpl; lia| |lia]. apply Z.shiftl_mul_pow2. lia. }
  rewrite Hm'. clear Hm'. pose proof (Z_div_mod (Zpos m1 * 2 ^ s) (Zpos m2) ltac:(lia)) as Hdm.
  destruct (Z.div_eucl (Zpos m1 * 2 ^ s) (Zpos m2)) as [q r]. destruct Hdm as [Hq Hr].
  assert (Hq0 : 0 <= q).
  { assert (0 <= Zpos m1 * 2 ^ s)
      by (apply Z.mul_nonneg_nonneg; [lia | apply Z.pow_nonneg; lia]). nia. }
  assert (Hqb : q <= b * 2 ^ (j - e')) by nia.
  apply binary_round_aux_fle; auto.
  - rewrite Z.min_l, Z.sub_diag, Z.mul_1_r by lia. exact Hqb.
  - destruct (new_location_exact (Zpos m2) r) as [->|Hne].
    + left. apply new_location_zero.
    + destruct (Z.eq_dec r 0) as [->|Hr0].
      * left. apply new_location_zero.
      * right. split; [exact He' | nia].
Qed.

(** *** Integers *)

Lemma binary_normalize_fge prec emax z :
  0 < prec -> emin prec emax <= 0 -> prec <= emax -> 0 < Z.abs z < 2 ^ prec ->
  fge (Z.abs z) 0 (binary_normalize prec emax z 0 false).
Proof.
  intros Hprec Hmin Hmax Hz. unfold binary_normalize.
  assert (Hd : forall p, Zpos p < 2 ^ prec -> Zpos (digits2_pos p) <= prec).
  { intros p Hp. apply (Zdigits2_bound (Zpos p)); lia. }
  destruct z as [|p|p]; [lia | |].
  1: destruct (binary_round_int prec emax false p) as (m & e & -> & He & Hm); auto with lia.
  2: destruct (binary_round_int prec emax true p) as (m & e & -> & He & Hm); auto with lia.
  all: unfold fge; rewrite Hm, Z.min_l, Z.sub_diag by lia;
       change (Z.abs _) with (Zpos p);
       replace (0 - e) with (- e) by lia; lia.
Qed.

(** *** Truncation *)

Lemma f_trunc_fle b x :
  0 <= b -> fle b 0 x -> exists z, f_trunc x = Some z /\ Z.abs z <= b.
Proof.
  intros Hb Hx. destruct x as [s|s| |s m e]; simpl in *; try contradiction.
  - exists 0. split; [reflexivity | lia].
  - eexists. split; [reflexivity|].
    assert (Ha : 0 <= (if 0 <=? e then Zpos m * 2 ^ e else Zpos m / 2 ^ (- e)) <= b).
    { destruct (Z.leb_spec 0 e).
      - rewrite Z.min_r, !Z.sub_0_r, Z.mul_1_r in Hx by lia.
        split; [|exact Hx]. apply Z.mul_nonneg_nonneg; [lia | apply Z.pow_nonneg; lia].
      - rewrite Z.min_l, Z.sub_diag, Z.mul_1_r in Hx by lia. simpl in Hx.
        assert (0 < 2 ^ (- e)) by (apply Z.pow_pos_nonneg; lia).
        split; [apply Z_div_nonneg_nonneg; lia|].
        apply Z.div_le_upper_bound; [lia|]. rewrite Z.mul_comm.
        replace (- e) with (0 - e) by lia. exact Hx. }
    destruct s; lia.
Qed.

Lemma f_to_s_fle n b x :
  0 <= b < 2 ^ (n - 1) -> fle b 0 x -> exists z, f_to_s n x = Some z /\ Z.abs z <= b.
Proof.
  intros Hb Hx. destruct (f_trunc_fle b x) as (z & Hz & Ha); [lia | exact Hx|].
  exists z. unfold f_to_s. rewrite Hz. simpl.
  rewrite (proj2 (in_s_spec n z)) by lia. auto.
Qed.

(** *** At the two formats *)

(** One bound follows from another when it does as a rational number. *)
Lemma fle_le k b j b' j' x :
  k <= j -> k <= j' -> b * 2 ^ (j - k) <= b' * 2 ^ (j' - k) -> fle b j x -> fle b' j' x.
Proof.
  intros Hj Hj' Hb. destruct x as [s|s| |s m e]; simpl; auto. intros H.
  set (n := Z.min (Z.min e k) (Z.min j j')).
  apply (scale_le b j b' j' k n) in Hb; [|lia..].
  assert (H' : Zpos m * 2 ^ (e - n) <= b * 2 ^ (j - n))
    by (apply (scale_le _ _ _ _ (Z.min e j) n); [lia..|exact H]).
  apply (scale_le _ _ _ _ (Z.min e j') n); [lia..|]. lia.
Qed.

Lemma of_Z_fle prec emax z b :
  0 < prec -> Z.abs z <= b -> bound_ok prec emax b 0 ->
  fle b 0 (binary_normalize prec emax z 0 false).
Proof.
  intros Hp Hz Hok. apply binary_normalize_fle; auto. change (0 - Z.min 0 0) with 0. rewrite Z.pow_0_r. lia.
Qed.

(** [bound_ok] at concrete numbers. *)
Ltac bound_ok := unfold bound_ok, emin; split_and?; lia.

Lemma d_of_Z_fle z b : Z.abs z <= b -> 0 < b < 2 ^ 53 -> fle b 0 (d_of_Z z).
Proof. intros H1 H2. apply of_Z_fle; auto; bound_ok. Qed.

Lemma s_of_Z_fle z b : Z.abs z <= b -> 0 < b < 2 ^ 24 -> fle b 0 (s_of_Z z).
Proof. intros H1 H2. apply of_Z_fle; auto; bound_ok. Qed.

Lemma d_of_Z_fge z : 0 < Z.abs z < 2 ^ 53 -> fge (Z.abs z) 0 (d_of_Z z).
Proof. intros H. apply binary_normalize_fge; (lia || easy). Qed.

Lemma s_of_Z_fge z : 0 < Z.abs z < 2 ^ 24 -> fge (Z.abs z) 0 (s_of_Z z).
Proof. intros H. apply binary_normalize_fge; (lia || easy). Qed.

Lemma s_div_fle b1 j1 c i b j k x y :
  fle b1 j1 x -> fge c i y -> k <= j1 -> k <= j + i ->
  b1 * 2 ^ (j1 - k) <= b * c * 2 ^ (j + i - k) -> 0 < b < 2 ^ 24 -> -100 <= j <= 80 ->
  fle b j (s_div x y).
Proof. intros. eapply SFdiv_fle; eauto; bound_ok. Qed.

Lemma d_of_s_not_nan x : x <> S754_nan -> d_of_s x <> S754_nan.
Proof.
  destruct x as [s|s| |s m e]; simpl; try congruence. intros _.
  unfold binary_round. destruct (shl_align _ _ _) as [mz ez].
  apply binary_round_aux_not_nan. lia.
Qed.

Lemma fle_not_nan b j x : fle b j x -> x <> S754_nan.
Proof. destruct x; simpl; congruence. Qed.

Lemma d_mul_fle b1 j1 b2 j2 x y :
  fle b1 j1 x -> fle b2 j2 y -> 0 <= b1 -> 0 <= b2 -> 0 < b1 * b2 < 2 ^ 53 ->
  -1000 <= j1 + j2 <= 900 -> fle (b1 * b2) (j1 + j2) (d_mul x y).
Proof. intros. apply SFmul_fle; auto; bound_ok. Qed.

Lemma s_mul_fle b1 j1 b2 j2 x y :
  fle b1 j1 x -> fle b2 j2 y -> 0 <= b1 -> 0 <= b2 -> 0 < b1 * b2 < 2 ^ 24 ->
  -100 <= j1 + j2 <= 80 -> fle (b1 * b2) (j1 + j2) (s_mul x y).
Proof. intros. apply SFmul_fle; auto; bound_ok. Qed.

Lemma d_add_fle b1 b2 j x y :
  fle b1 j x -> fle b2 j y -> 0 <= b1 -> 0 <= b2 -> 0 < b1 + b2 < 2 ^ 53 ->
  -1000 <= j <= 900 -> fle (b1 + b2) j (d_add x y).
Proof. intros. apply SFadd_fle; auto; bound_ok. Qed.

Lemma d_sub_fle b1 b2 j x y :
  fle b1 j x -> fle b2 j y -> 0 <= b1 -> 0 <= b2 -> 0 < b1 + b2 < 2 ^ 53 ->
  -1000 <= j <= 900 -> fle (b1 + b2) j (d_sub x y).
Proof. intros. apply (SFadd_fle 53 1024); auto; bound_ok. Qed.

Lemma s_sub_fle b1 b2 j x y :
  fle b1 j x -> fle b2 j y -> 0 <= b1 -> 0 <= b2 -> 0 < b1 + b2 < 2 ^ 24 ->
  -100 <= j <= 80 -> fle (b1 + b2) j (s_sub x y).
Proof. intros. apply (SFadd_fle 24 128); auto; bound_ok. Qed.

Lemma d_div_fle b1 j1 c i b j k x y :
  fle b1 j1 x -> fge c i y -> k <= j1 -> k <= j + i ->
  b1 * 2 ^ (j1 - k) <= b * c * 2 ^ (j + i - k) -> 0 < b < 2 ^ 53 -> -1000 <= j <= 900 ->
  fle b j (d_div x y).
Proof. intros. eapply SFdiv_fle; eauto; bound_ok. Qed.

Lemma s_of_d_fle b j x :
  fle b j x -> 0 < b < 2 ^ 24 -> -100 <= j <= 80 -> fle b j (s_of_d x).
Proof. intros. apply f_convert_fle; auto; bound_ok. Qed.

Lemma d_of_s_fle b j x :
  fle b j x -> 0 < b < 2 ^ 53 -> -1000 <= j <= 900 -> fle b j (d_of_s x).
Proof. intros. apply f_convert_fle; auto; bound_ok. Qed.

(** *** Lower bounds of quotients *)

(** Dropping low bits down to the precision keeps a bound that fits the
    precision. *)
Lemma drop_bits_ge c i m e n prec :
  0 < prec -> 0 < c < 2 ^ prec -> 0 < m -> 0 <= n ->
  c * 2 ^ (i - Z.min e i) <= m * 2 ^ (e - Z.min e i) ->
  (e + n <= i \/ n = 0 \/ n <= Z.log2 m + 1 - prec) ->
  c * 2 ^ (i - Z.min (e + n) i) <= m / 2 ^ n * 2 ^ (e + n - Z.min (e + n) i).
Proof.
  intros Hp Hc Hm Hn Hle Hcase.
  destruct (Z.eq_dec n 0) as [->|Hn0]; [rewrite Z.div_1_r, !Z.add_0_r; exact Hle|].
  assert (Hpow : 0 < 2 ^ n) by (apply Z.pow_pos_nonneg; lia).
  destruct (Z.le_gt_cases (e + n) i) as [Hi|Hi].
  - rewrite Z.min_l in Hle |- * by lia. rewrite Z.sub_diag, Z.mul_1_r in Hle |- *.
    apply Z.div_le_lower_bound; [exact Hpow|].
    rewrite Z.mul_comm, <- Z.mul_assoc, <- Z.pow_add_r by lia.
    replace (i - (e + n) + n) with (i - e) by lia. exact Hle.
  - assert (Hlog : n <= Z.log2 m + 1 - prec) by lia.
    rewrite Z.min_r, Z.sub_diag, Z.mul_1_r by lia.
    assert (Hd : 2 ^ (prec - 1) <= m / 2 ^ n).
    { apply Z.div_le_lower_bound; [exact Hpow|]. rewrite <- Z.pow_add_r by lia.
      pose proof (Z.log2_spec m Hm). transitivity (2 ^ Z.log2 m); [|lia].
      apply Z.pow_le_mono_r; lia. }
    assert (H2 : 2 <= 2 ^ (e + n - i)) by (apply (Z.pow_le_mono_r 2 1); lia).
    pose proof (pow2_half prec Hp). nia.
Qed.

Lemma shr_fexp_ge prec emax c i m e l :
  0 < prec -> 0 < c < 2 ^ prec -> emin prec emax <= i -> 0 < m ->
  c * 2 ^ (i - Z.min e i) <= m * 2 ^ (e - Z.min e i) ->
  let r := shr_fexp prec emax m e l in
  0 < shr_m (fst r) /\
  c * 2 ^ (i - Z.min (snd r) i) <= shr_m (fst r) * 2 ^ (snd r - Z.min (snd r) i).
Proof.
  intros Hp Hc Hi Hm Hle r. unfold r, shr_fexp.
  destruct (shr_spec (shr_record_of_loc m l) e (fexp prec emax (Zdigits2 m + e) - e)) as [-> ->].
  { rewrite shr_record_of_loc_m; lia. }
  rewrite shr_record_of_loc_m. set (n := Z.max _ 0).
  assert (Hge : c * 2 ^ (i - Z.min (e + n) i) <= m / 2 ^ n * 2 ^ (e + n - Z.min (e + n) i)).
  { apply (drop_bits_ge c i m e n prec); try lia.
    destruct m as [|p|p]; try lia. unfold n, fexp. simpl Zdigits2. rewrite digits2_pos_log2. lia. }
  split; [|exact Hge].
  assert (0 < c * 2 ^ (i - Z.min (e + n) i)) by (apply Z.mul_pos_pos; [lia | apply Z.pow_pos_nonneg; lia]).
  assert (0 <= m / 2 ^ n) by (apply Z_div_nonneg_nonneg; [lia | apply Z.pow_nonneg; lia]).
  destruct (Z.eq_dec (m / 2 ^ n) 0) as [E|]; [rewrite E in Hge; lia | lia].
Qed.

Lemma round_nearest_even_ge m l : m <= round_nearest_even m l.
Proof. unfold round_nearest_even. destruct l as [|[]]; try case_bool; lia. Qed.

Lemma binary_round_aux_ge prec emax s c i m e l :
  0 < prec -> 0 < c < 2 ^ prec -> emin prec emax <= i -> 0 < m ->
  c * 2 ^ (i - Z.min e i) <= m * 2 ^ (e - Z.min e i) ->
  binary_round_aux prec emax s m e l = S754_infinity s \/
  fge c i (binary_round_aux prec emax s m e l).
Proof.
  intros Hp Hc Hi Hm Hle. unfold binary_round_aux.
  destruct (shr_fexp_ge prec emax c i m e l Hp Hc Hi Hm Hle) as [Hm1 Hle1].
  destruct (shr_fexp prec emax m e l) as [r1 e1]; simpl in Hm1, Hle1.
  pose proof (round_nearest_even_ge (shr_m r1) (loc_of_shr_record r1)) as Hup.
  set (m2 := round_nearest_even _ _) in *.
  destruct (shr_fexp_ge prec emax c i m2 e1 loc_Exact Hp Hc Hi) as [Hm2 Hle2]; [lia| |].
  { etransitivity; [exact Hle1|]. apply Z.mul_le_mono_nonneg_r; [apply Z.pow_nonneg; lia | exact Hup]. }
  destruct (shr_fexp prec emax m2 e1 loc_Exact) as [r2 e2]; simpl in Hm2, Hle2.
  destruct (shr_m r2) as [|p|p]; try lia. case_bool; [right; exact Hle2 | left; reflexivity].
Qed.

(** The exponent chosen by the division leaves a quotient of at least [prec] bits. *)
Lemma quotient_ge m1 e1 m2 e2 c i e' :
  0 < m1 -> 0 < m2 -> 0 < c -> e' <= e1 - e2 ->
  (forall k, k <= e1 -> k <= e2 + i -> c * m2 * 2 ^ (e2 + i - k) <= m1 * 2 ^ (e1 - k)) ->
  e' <= i -> c * 2 ^ (i - e') <= m1 * 2 ^ (e1 - e2 - e') / m2.
Proof.
  intros Hm1 Hm2 Hc He' HQ Hi. apply Z.div_le_lower_bound; [exact Hm2|].
  specialize (HQ (e2 + e') ltac:(lia) ltac:(lia)).
  replace (e2 + i - (e2 + e')) with (i - e') in HQ by lia.
  replace (e1 - (e2 + e')) with (e1 - e2 - e') in HQ by lia. lia.
Qed.

Lemma SFdiv_ge prec emax x y c1 i1 b2 j2 c i k :
  0 < prec -> fge c1 i1 x -> fle b2 j2 y -> y <> S754_zero false -> y <> S754_zero true ->
  0 < c < 2 ^ prec -> emin prec emax <= i -> 0 < c1 -> 0 <= b2 ->
  k <= i1 -> k <= i + j2 -> c * b2 * 2 ^ (i + j2 - k) <= c1 * 2 ^ (i1 - k) ->
  (exists s, SFdiv prec emax x y = S754_infinity s) \/ fge c i (SFdiv prec emax x y).
Proof.
  intros Hp Hx Hy Hy0 Hy1 Hc Hi Hc1 Hb2 Hk1 Hk2 H3.
  destruct x as [s1|s1| |s1 m1 e1]; try (simpl in Hx; contradiction).
  destruct y as [[]|s2| |s2 m2 e2]; try congruence; try (simpl in Hy; contradiction).
  simpl in Hx, Hy |- *. unfold SFdiv_core_binary.
  set (e' := Z.min (fexp prec emax _) (e1 - e2)).
  assert (HQ : forall k, k <= e1 -> k <= e2 + i ->
             c * Zpos m2 * 2 ^ (e2 + i - k) <= Zpos m1 * 2 ^ (e1 - k)).
  { intros k' Hk1' Hk2'.
    assert (HK : exists K, K <= k' /\ K <= k /\ K <= e1 /\ K <= i1 /\ K <= e2 + i /\ K <= j2 + i).
    { exists (Z.min (Z.min k' k) (Z.min (Z.min e1 i1) (Z.min (e2 + i) (j2 + i)))). lia. }
    destruct HK as (K & K1 & K2 & K3 & K4 & K5 & K6).
    apply (scale_le _ _ _ _ k' K); [lia..|].
    assert (Hx' : c1 * 2 ^ (i1 - K) <= Zpos m1 * 2 ^ (e1 - K))
      by (apply (scale_le _ _ _ _ (Z.min e1 i1) K); [lia..|exact Hx]).
    assert (Hyy : Zpos m2 * 2 ^ (e2 - (K - i)) <= b2 * 2 ^ (j2 - (K - i)))
      by (apply (scale_le _ _ _ _ (Z.min e2 j2) (K - i)); [lia..|exact Hy]).
    assert (H3' : c * b2 * 2 ^ (i + j2 - K) <= c1 * 2 ^ (i1 - K))
      by (apply (scale_le _ _ _ _ k K); [lia..|exact H3]).
    replace (e2 - (K - i)) with (e2 + i - K) in Hyy by lia.
    replace (j2 - (K - i)) with (i + j2 - K) in Hyy by lia. nia. }
  assert (He'' : e' <= e1 - e2) by lia.
  set (s := e1 - e2 - e') in *.
  assert (Hm' : match s with Z0 => Zpos m1 | Zpos _ => Z.shiftl (Zpos m1) s | Zneg _ => 0 end
                = Zpos m1 * 2 ^ s).
  { destruct s as [|p|p] eqn:Es; [simpl; lia| |lia]. apply Z.shiftl_mul_pow2. lia. }
  rewrite Hm'. clear Hm'.
  assert (Hq : fst (Z.div_eucl (Zpos m1 * 2 ^ s) (Zpos m2)) = Zpos m1 * 2 ^ s / Zpos m2) by reflexivity.
  destruct (Z.div_eucl (Zpos m1 * 2 ^ s) (Zpos m2)) as [q r]. simpl in Hq.
  assert (Hge : 0 < q /\ c * 2 ^ (i - Z.min e' i) <= q * 2 ^ (e' - Z.min e' i)).
  { destruct (Z.le_gt_cases e' i) as [Hei|Hei].
    - rewrite Z.min_l, Z.sub_diag, Z.mul_1_r by lia.
      pose proof (quotient_ge (Zpos m1) e1 (Zpos m2) e2 c i e' ltac:(lia) ltac:(lia) ltac:(lia)
                    He'' HQ Hei) as Hg. fold s in Hg. rewrite <- Hq in Hg.
      assert (0 < c * 2 ^ (i - e')) by (apply Z.mul_pos_pos; [lia | apply Z.pow_pos_nonneg; lia]).
      lia.
    - rewrite Z.min_r, Z.sub_diag, Z.mul_1_r by lia.
      assert (Hdig : prec <= Z.log2 (Zpos m1) + s - Z.log2 (Zpos m2)).
      { unfold s, e', fexp in *. simpl Zdigits2 in *. rewrite !digits2_pos_log2 in *. lia. }
      assert (Hqb : 2 ^ (prec - 1) <= q).
      { rewrite Hq. apply Z.div_le_lower_bound; [lia|].
        pose proof (Z.log2_spec (Zpos m1) ltac:(lia)) as [L1 _].
        pose proof (Z.log2_spec (Zpos m2) ltac:(lia)) as [_ L2].
        pose proof (Z.log2_nonneg (Zpos m2)). pose proof (Z.log2_nonneg (Zpos m1)).
        transitivity (2 ^ (Z.log2 (Zpos m2) + 1) * 2 ^ (prec - 1)).
        - apply Z.mul_le_mono_nonneg_r; [apply Z.pow_nonneg; lia | unfold Z.succ in L2; lia].
        - rewrite <- Z.pow_add_r by lia. transitivity (2 ^ Z.log2 (Zpos m1) * 2 ^ s).
          + rewrite <- Z.pow_add_r by lia. apply Z.pow_le_mono_r; lia.
          + apply Z.mul_le_mono_nonneg_r; [apply Z.pow_nonneg; lia | exact L1]. }
      assert (0 < 2 ^ (prec - 1)) by (apply Z.pow_pos_nonneg; lia).
      assert (H2 : 2 <= 2 ^ (e' - i)) by (apply (Z.pow_le_mono_r 2 1); lia).
      pose proof (pow2_half prec Hp). nia. }
  destruct (binary_round_aux_ge prec emax (xorb s1 s2) c i q e' (new_location (Zpos m2) r)
              Hp Hc Hi (proj1 Hge) (proj2 Hge)) as [E|E]; [left; eauto | right; exact E].
Qed.

Lemma d_div_fge c1 i1 b2 j2 i2 c i k b j x y :
  fge c1 i1 x -> fle b2 j2 y -> fge 1 i2 y -> fle b j (d_div x y) ->
  0 < c < 2 ^ 53 -> -1000 <= i -> 0 < c1 -> 0 <= b2 ->
  k <= i1 -> k <= i + j2 -> c * b2 * 2 ^ (i + j2 - k) <= c1 * 2 ^ (i1 - k) ->
  fge c i (d_div x y).
Proof.
  intros Hx Hy Hy1 Hfin. intros. unfold d_div in *.
  destruct (SFdiv_ge 53 1024 x y c1 i1 b2 j2 c i k) as [[s E]|]; auto; try lia.
  - intros ->. exact Hy1.
  - intros ->. exact Hy1.
  - unfold emin. lia.
  - rewrite E in Hfin. contradiction.
Qed.

(** *** Fractional parts *)

Lemma frac_bound m e l k :
  0 <= m -> k <= e -> k <= 0 ->
  l = (if 0 <=? e then m * 2 ^ e else m / 2 ^ (- e)) ->
  0 <= m * 2 ^ (e - k) - l * 2 ^ (0 - k) <= 2 ^ (0 - k).
Proof.
  intros Hm Hk Hk0 ->. case_bool.
  - rewrite <- Z.mul_assoc, <- Z.pow_add_r by lia.
    replace (e + (0 - k)) with (e - k) by lia.
    pose proof (Z.pow_pos_nonneg 2 (0 - k)). lia.
  - replace (0 - k) with (- e + (e - k)) by lia. rewrite Z.pow_add_r by lia.
    assert (0 < 2 ^ (- e)) by (apply Z.pow_pos_nonneg; lia).
    assert (0 < 2 ^ (e - k)) by (apply Z.pow_pos_nonneg; lia).
    pose proof (Z.div_mod m (2 ^ (- e))). pose proof (Z.mod_pos_bound m (2 ^ (- e))).
    set (q := m / _) in *. set (r := m mod _) in *. nia.
Qed.

(** Subtracting its truncation from a [double] leaves at most one. *)
Lemma d_sub_trunc_fle x l :
  f_trunc x = Some l -> Z.abs l < 2 ^ 53 -> fle 1 0 (d_sub x (d_of_Z l)).
Proof.
  intros Hx Hl. destruct x as [s|s| |s m e]; try discriminate.
  { injection Hx as <-. destruct s; exact I. }
  simpl in Hx. set (a := if 0 <=? e then _ else _) in Hx.
  assert (Ha : 0 <= a).
  { unfold a. case_bool; [apply Z.mul_nonneg_nonneg; [lia | apply Z.pow_nonneg; lia]|].
    apply Z_div_nonneg_nonneg; [lia | apply Z.pow_nonneg; lia]. }
  injection Hx as Hx.
  destruct (Z.eq_dec a 0) as [Ea|Ea].
  { assert (l = 0) as -> by (destruct s; lia).
    simpl. pose proof (frac_bound (Zpos m) e a (Z.min e 0) ltac:(lia) ltac:(lia) ltac:(lia) eq_refl).
    rewrite Ea in *. lia. }
  destruct a as [|p|p] eqn:Ep; [lia| |lia].
  assert (Hp : Zpos p < 2 ^ 53) by (destruct s; lia).
  destruct (binary_round_int 53 1024 s p) as (m2 & e2 & Hr & He2 & Hm2);
    [reflexivity | apply (Zdigits2_bound (Zpos p)); lia | easy | easy |].
  assert (Hd : d_of_Z l = S754_finite s m2 e2) by (rewrite <- Hr, <- Hx; destruct s; reflexivity).
  rewrite Hd. clear Hd. unfold d_sub, SFsub. cbv zeta.
  set (ez := Z.min e e2).
  destruct (shl_align_spec m e ez) as [_ H1]. destruct (shl_align_spec m2 e2 ez) as [_ H2].
  rewrite (Z.min_r e ez), (Z.min_r e2 ez) in * by lia.
  rewrite H1, H2, Hm2.
  apply binary_normalize_fle; [lia | | bound_ok].
  rewrite (Z.min_l ez 0), Z.sub_diag, Z.pow_0_r, !Z.mul_1_r by lia.
  replace (Zpos p * 2 ^ (- e2) * 2 ^ (e2 - ez)) with (Zpos p * 2 ^ (0 - ez)).
  2: { rewrite <- Z.mul_assoc, <- Z.pow_add_r by lia. do 2 f_equal. lia. }
  pose proof (frac_bound (Zpos m) e (Zpos p) ez ltac:(lia) ltac:(lia) ltac:(lia) (eq_sym Ep)).
  destruct s; simpl cond_Zopp; lia.
Qed.

(** Bounds of constants are decided by evaluation. *)
Definition fleb (b j : Z) (x : spec_float) : bool :=
  match x with
  | S754_zero _ => true
  | S754_finite _ m e => Zpos m * 2 ^ (e - Z.min e j) <=? b * 2 ^ (j - Z.min e j)
  | _ => false
  end.

Definition fgeb (c i : Z) (x : spec_float) : bool :=
  match x with
  | S754_finite _ m e => c * 2 ^ (i - Z.min e i) <=? Zpos m * 2 ^ (e - Z.min e i)
  | _ => false
  end.

Lemma fleb_sound b j x : fleb b j x = true -> fle b j x.
Proof. destruct x; simpl; intros H; try discriminate; auto. apply Z.leb_le, H. Qed.

Lemma fgeb_sound c i x : fgeb c i x = true -> fge c i x.
Proof. destruct x; simpl; intros H; try discriminate. apply Z.leb_le, H. Qed.

Ltac fconst :=
  first [ apply fleb_sound; vm_compute; reflexivity
        | apply fgeb_sound; vm_compute; reflexivity ].
