(* ===== verification/CLib.v ===== *)
(** * The C library functions the firmware calls

    [strlen], [strncmp], [memcpy] and [atoi] on byte memory.  A pointer argument
    is the memory seen through it, so running past the end of the object is
    visible as [None].  [atoi] is undefined when the value does not fit an
    [int], as in the C standard.  The messages of the kernel's calls
    ([chschd.h]) are here too. *)

From S2P Require Import Prelude CInt.

(** ** Definitions *)

Definition MSG_OK : Z := 0.
Definition MSG_TIMEOUT : Z := -1.
Definition MSG_RESET : Z := -2.

Definition strlen (mem : list Z) : option Z :=
  s ← cstr mem; Some (Z.of_nat (length s)).

(** [strncmp(a, b, n) == 0]: bytes are compared until one differs, both hold
    NUL, or [n] bytes have been compared. *)
Fixpoint strncmp_eq (a b : list Z) (n : nat) : option bool :=
  match n with
  | O => Some true
  | S n' =>
      match a, b with
      | x :: a', y :: b' =>
          if x =? y then (if x =? 0 then Some true else strncmp_eq a' b' n')
          else Some false
      | _, _ => None
      end
  end.

(** [memcpy(&dst[off], src, n)]; undefined unless both ranges exist. *)
Definition memcpy (dst : list Z) (off : Z) (src : list Z) (n : Z) : option (list Z) :=
  if (0 <=? off) && (0 <=? n) && (off + n <=? Z.of_nat (length dst))
     && (n <=? Z.of_nat (length src))
  then Some (take (Z.to_nat off) dst ++ take (Z.to_nat n) src
             ++ drop (Z.to_nat (off + n)) dst)
  else None.

Definition is_space (b : Z) : bool := ((9 <=? b) && (b <=? 13)) || (b =? 32).
Definition is_digit (b : Z) : bool := (48 <=? b) && (b <=? 57).

Fixpoint skip_space (mem : list Z) : list Z :=
  match mem with
  | b :: mem' => if is_space b then skip_space mem' else mem
  | [] => []
  end.

(** The value of the digits at the head of [mem], accumulated onto [acc]. *)
Fixpoint read_digits (acc : Z) (mem : list Z) : option Z :=
  match mem with
  | [] => None
  | b :: mem' => if is_digit b then read_digits (acc * 10 + (b - 48)) mem' else Some acc
  end.

(** [atoi]. *)
Definition atoi (mem : list Z) : option Z :=
  match skip_space mem with
  | [] => None
  | b :: mem' =>
      v ← (if b =? 45 then v ← read_digits 0 mem'; Some (- v)
           else if b =? 43 then read_digits 0 mem'
           else read_digits 0 (b :: mem'));
      if in_s 32 v then Some v else None
  end.

(** ** Lemmas *)

Lemma strlen_Some mem n :
  strlen mem = Some n ->
  exists s, cstr mem = Some s /\ n = Z.of_nat (length s) /\ 0 <= n < Z.of_nat (length mem).
Proof.
  unfold strlen. intros H. inv_bind. subst.
  exists x. pose proof (cstr_length _ _ E). split_and!; [done | done | lia | lia].
Qed.

Lemma strncmp_eq_prefix lit rest tail :
  Forall (fun b => b <> 0) lit ->
  strncmp_eq (lit ++ rest) (lit ++ tail) (length lit) = Some true.
Proof.
  induction 1 as [|b lit Hb Hlit IH]; [simpl; destruct rest, tail; reflexivity|].
  simpl. rewrite Z.eqb_refl, (proj2 (Z.eqb_neq b 0)) by exact Hb. exact IH.
Qed.

Lemma strncmp_eq_true mem lit tail :
  Forall (fun b => b <> 0) lit ->
  strncmp_eq mem (lit ++ tail) (length lit) = Some true ->
  exists rest, mem = lit ++ rest.
Proof.
  intros Hlit. revert mem. induction Hlit as [|b lit Hb Hlit IH]; intros mem H.
  - exists mem. reflexivity.
  - destruct mem as [|x mem]; simpl in H; [discriminate|].
    destruct (Z.eqb_spec x b) as [->|]; [|discriminate].
    rewrite (proj2 (Z.eqb_neq b 0)) in H by exact Hb.
    destruct (IH mem H) as [rest ->]. exists rest. reflexivity.
Qed.

Lemma memcpy_defined dst off src n :
  0 <= off -> 0 <= n -> off + n <= Z.of_nat (length dst) -> n <= Z.of_nat (length src) ->
  exists dst', memcpy dst off src n = Some dst'.
Proof.
  intros H1 H2 H3 H4. unfold memcpy.
  rewrite !(proj2 (Z.leb_le _ _)) by lia. simpl. eauto.
Qed.

Lemma memcpy_length dst off src n dst' :
  memcpy dst off src n = Some dst' -> length dst' = length dst.
Proof.
  unfold memcpy. case_bool; [|discriminate]. intros [= <-].
  rewrite !length_app, !length_take, length_drop. lia.
Qed.

(** A write of a terminated string at [off] makes the object hold it there. *)
Lemma memcpy_lookup_ge dst off src n dst' (i : nat) :
  memcpy dst off src n = Some dst' -> off + n <= Z.of_nat i -> dst' !! i = dst !! i.
Proof.
  unfold memcpy. case_bool; [|discriminate]. intros [= <-] Hi.
  rewrite lookup_app_r; rewrite length_take; [|lia].
  rewrite lookup_app_r; rewrite length_take; [|lia].
  rewrite lookup_drop. f_equal. lia.
Qed.

Lemma memcpy_split pre old post src n dst' off :
  off = Z.of_nat (length pre) -> n = Z.of_nat (length src) -> length old = length src ->
  memcpy (pre ++ old ++ post) off src n = Some dst' -> dst' = pre ++ src ++ post.
Proof.
  intros -> -> Hl. unfold memcpy. case_bool; [|discriminate]. intros [= <-].
  rewrite !Nat2Z.id, take_app_length.
  rewrite firstn_all. f_equal. f_equal.
  replace (Z.to_nat (Z.of_nat (length pre) + Z.of_nat (length src)))
    with (length (pre ++ old)) by (rewrite length_app; lia).
  rewrite (app_assoc pre old post), drop_app_length. reflexivity.
Qed.

(** *** Decimal digits *)

Fixpoint digits_value (acc : Z) (ds : list Z) : Z :=
  match ds with
  | [] => acc
  | b :: ds' => digits_value (acc * 10 + (b - 48)) ds'
  end.

Lemma digits_value_app acc ds b :
  digits_value acc (ds ++ [b]) = digits_value acc ds * 10 + (b - 48).
Proof. revert acc; induction ds as [|x ds IH]; intros acc; simpl; auto. Qed.

Lemma read_digits_value ds : forall acc c rest,
  Forall (fun b => is_digit b = true) ds -> is_digit c = false ->
  read_digits acc (ds ++ c :: rest) = Some (digits_value acc ds).
Proof.
  induction ds as [|b ds IH]; intros acc c rest Hds Hc; simpl.
  - rewrite Hc. reflexivity.
  - inversion Hds; subst. rewrite H1. apply IH; assumption.
Qed.

Lemma is_digit_not_space b : is_digit b = true -> is_space b = false.
Proof.
  unfold is_digit, is_space. intros H. bools. apply orb_false_iff. split.
  - apply andb_false_iff. right. apply Z.leb_gt. lia.
  - apply Z.eqb_neq. lia.
Qed.

Lemma atoi_digits b ds c rest :
  Forall (fun b => is_digit b = true) (b :: ds) -> is_digit c = false ->
  digits_value 0 (b :: ds) < 2 ^ 31 -> 0 <= digits_value 0 (b :: ds) ->
  atoi ((b :: ds) ++ c :: rest) = Some (digits_value 0 (b :: ds)).
Proof.
  intros Hds Hc Hv Hv0. inversion Hds as [|? ? Hb Hds']; subst. unfold atoi.
  simpl app. cbn [skip_space]. rewrite (is_digit_not_space b Hb).
  assert (Hn : (b =? 45) = false /\ (b =? 43) = false).
  { unfold is_digit in Hb. bools. split; apply Z.eqb_neq; lia. }
  destruct Hn as [-> ->].
  change (b :: (ds ++ c :: rest)) with ((b :: ds) ++ c :: rest).
  rewrite (read_digits_value (b :: ds) 0 c rest Hds Hc). cbn [mbind option_bind].
  rewrite (proj2 (in_s_spec 32 _)); [reflexivity|].
  change (2 ^ (32 - 1)) with (2 ^ 31). lia.
Qed.

Lemma atoi_neg_digits ds c rest :
  Forall (fun b => is_digit b = true) ds -> is_digit c = false ->
  0 <= digits_value 0 ds <= 2 ^ 31 ->
  atoi (45 :: ds ++ c :: rest) = Some (- digits_value 0 ds).
Proof.
  intros Hds Hc Hv. unfold atoi. cbn [skip_space].
  change (is_space 45) with false. cbv iota. change (45 =? 45) with true. cbv iota.
  rewrite (read_digits_value ds 0 c rest Hds Hc). cbn [mbind option_bind].
  rewrite (proj2 (in_s_spec 32 _)); [reflexivity|].
  change (2 ^ (32 - 1)) with (2 ^ 31). lia.
Qed.

(** A field of [n] decimal digits. *)
Definition digits (n : nat) (ds : list Z) : Prop :=
  length ds = n /\ Forall (fun b => is_digit b = true) ds.

Lemma digits_value_bound ds : forall acc,
  Forall (fun b => is_digit b = true) ds -> 0 <= acc ->
  0 <= digits_value acc ds < (acc + 1) * 10 ^ Z.of_nat (length ds).
Proof.
  induction ds as [|d ds IH]; intros acc Hd Ha; [simpl; lia|].
  inversion_clear Hd as [|? ? H1 H2]. unfold is_digit in H1. bools.
  specialize (IH (acc * 10 + (d - 48)) H2 ltac:(lia)).
  simpl length. rewrite Nat2Z.inj_succ, Z.pow_succ_r by lia. simpl digits_value.
  assert (0 < 10 ^ Z.of_nat (length ds)) by (apply Z.pow_pos_nonneg; lia). nia.
Qed.

(** [atoi] of a field of at most nine digits that is followed by something else. *)
Lemma atoi_field n ds c rest :
  digits n ds -> (1 <= n <= 9)%nat -> is_digit c = false ->
  atoi (ds ++ c :: rest) = Some (digits_value 0 ds).
Proof.
  intros [Hl Hd] Hn Hc. pose proof (digits_value_bound ds 0 Hd ltac:(lia)) as Hb.
  rewrite Hl in Hb.
  assert (10 ^ Z.of_nat n <= 10 ^ 9) by (apply Z.pow_le_mono_r; lia).
  change (10 ^ 9) with 1000000000 in *.
  destruct ds as [|d ds]; [simpl in Hl; lia|]. apply atoi_digits; auto; lia.
Qed.

(** A decimal number as a client writes it, with an optional minus sign. *)
Definition int_text (t : list Z) (v : Z) : Prop :=
  exists n ds, digits n ds /\ (1 <= n <= 9)%nat /\
    ((t = ds /\ v = digits_value 0 ds) \/ (t = 45 :: ds /\ v = - digits_value 0 ds)).

Lemma int_text_atoi t v c rest :
  int_text t v -> is_digit c = false -> atoi (t ++ c :: rest) = Some v.
Proof.
  intros (n & ds & Hd & Hn & [[-> ->]|[-> ->]]) Hc; [apply (atoi_field n); assumption|].
  destruct Hd as [Hl Hd]. pose proof (digits_value_bound ds 0 Hd ltac:(lia)) as Hb.
  assert (10 ^ Z.of_nat (length ds) <= 10 ^ 9) by (apply Z.pow_le_mono_r; lia).
  change (10 ^ 9) with 1000000000 in *. change (2 ^ 31) with 2147483648.
  rewrite <- app_comm_cons. apply atoi_neg_digits; [exact Hd | exact Hc |].
  change (2 ^ 31) with 2147483648. lia.
Qed.

(** Its bytes are digits or the sign. *)
Lemma int_text_bytes t v : int_text t v -> Forall (fun b => b = 45 \/ 48 <= b <= 57) t.
Proof.
  intros (n & ds & [_ Hd] & _ & Ht).
  assert (H : Forall (fun b => b = 45 \/ 48 <= b <= 57) ds).
  { eapply Forall_impl; [exact Hd|]. cbv beta. intros b Hb. unfold is_digit in Hb. bools. lia. }
  destruct Ht as [[-> _]|[-> _]]; [exact H | constructor; auto].
Qed.

Lemma int_text_digits n ds : digits n ds -> (1 <= n <= 9)%nat -> int_text ds (digits_value 0 ds).
Proof. intros Hd Hn. exists n, ds. auto. Qed.

Lemma digits_dec n ds : (length ds =? n)%nat && forallb is_digit ds = true -> digits n ds.
Proof.
  intros [Hl Hd]%andb_prop. split; [apply Nat.eqb_eq, Hl|].
  rewrite forallb_forall in Hd. apply Forall_forall. intros x Hx. apply Hd, list_elem_of_In, Hx.
Qed.
