(* ===== verification/Chtime.v ===== *)
(** * System time (os/rt/include/chtime.h)

    The firmware's tick counter is 32 bits wide and runs at 100 kHz
    (cfg/chconf.h).  Conversions are computed in 64 bits and rounded upward. *)

From S2P Require Import Prelude CInt.

(** ** Conversions *)

Definition CH_CFG_ST_FREQUENCY : Z := 100000.

Definition TIME_S2I (secs : Z) : Z := u32 (u64 (u64 secs * CH_CFG_ST_FREQUENCY)).
Definition TIME_MS2I (msecs : Z) : Z :=
  u32 (u64 (u64 (u64 msecs * CH_CFG_ST_FREQUENCY) + 999) / 1000).
Definition TIME_US2I (usecs : Z) : Z :=
  u32 (u64 (u64 (u64 usecs * CH_CFG_ST_FREQUENCY) + 999999) / 1000000).
Definition TIME_I2S (interval : Z) : Z :=
  u32 (u64 (u64 interval + CH_CFG_ST_FREQUENCY - 1) / CH_CFG_ST_FREQUENCY).
Definition TIME_I2MS (interval : Z) : Z :=
  u32 (u64 (u64 (u64 interval * 1000) + CH_CFG_ST_FREQUENCY - 1) / CH_CFG_ST_FREQUENCY).
Definition TIME_I2US (interval : Z) : Z :=
  u32 (u64 (u64 (u64 interval * 1000000) + CH_CFG_ST_FREQUENCY - 1) / CH_CFG_ST_FREQUENCY).

(** ** Arithmetic on the wrapping counter *)

Definition chTimeAddX (systime interval : Z) : Z := u32 (systime + interval).
Definition chTimeDiffX (start end_ : Z) : Z := u32 (end_ - start).
Definition chTimeIsInRangeX (time start end_ : Z) : bool :=
  u32 (time - start) <? u32 (end_ - start).

(** ** Conversions that assert

    [None] is the failed assertion "conversion overflow". *)

Definition TIME_MAX_INTERVAL : Z := u32 (-2).

Definition chTimeS2I (secs : Z) : option Z :=
  let ticks := u64 (u64 secs * CH_CFG_ST_FREQUENCY) in
  _ ← check (ticks <=? TIME_MAX_INTERVAL); Some (u32 ticks).
Definition chTimeMS2I (msec : Z) : option Z :=
  let ticks := u64 (u64 (u64 msec * CH_CFG_ST_FREQUENCY) + 999) / 1000 in
  _ ← check (ticks <=? TIME_MAX_INTERVAL); Some (u32 ticks).
Definition chTimeUS2I (usec : Z) : option Z :=
  let ticks := u64 (u64 (u64 usec * CH_CFG_ST_FREQUENCY) + 999999) / 1000000 in
  _ ← check (ticks <=? TIME_MAX_INTERVAL); Some (u32 ticks).
Definition chTimeI2S (interval : Z) : option Z :=
  let secs := u64 (u64 interval + CH_CFG_ST_FREQUENCY - 1) / CH_CFG_ST_FREQUENCY in
  _ ← check (secs <? u32 (-1)); Some (u32 secs).
Definition chTimeI2MS (interval : Z) : option Z :=
  let msecs := u64 (u64 (u64 interval * 1000) + CH_CFG_ST_FREQUENCY - 1) / CH_CFG_ST_FREQUENCY in
  _ ← check (msecs <? u32 (-1)); Some (u32 msecs).
Definition chTimeI2US (interval : Z) : option Z :=
  let usecs := u64 (u64 (u64 interval * 1000000) + CH_CFG_ST_FREQUENCY - 1) / CH_CFG_ST_FREQUENCY in
  _ ← check (usecs <=? u32 (-1)); Some (u32 usecs).

(** ** Time stamps of 64 bits *)

Definition chTimeStampAddX (stamp interval : Z) : Z := u64 (stamp + u64 interval).
Definition chTimeStampDiffX (start end_ : Z) : option Z :=
  let diff := u64 (end_ - start) in _ ← check (diff <=? u32 (-1)); Some (u32 diff).
Definition chTimeStampIsInRangeX (stamp start end_ : Z) : bool := u64 (stamp - start) <? u64 (end_ - start).

(** ** Lemmas *)

Lemma TIME_I2MS_value i :
  0 <= i < 4294967296 -> TIME_I2MS i = (i + 99) / 100 /\ 0 <= TIME_I2MS i <= 42949673.
Proof.
  intros Hi. unfold TIME_I2MS, CH_CFG_ST_FREQUENCY.
  assert (E : u64 (u64 (u64 i * 1000) + 100000 - 1) = i * 1000 + 99999) by cint.
  rewrite E.
  assert (E2 : (i * 1000 + 99999) / 100000 = (i + 99) / 100).
  { replace (i * 1000 + 99999) with ((i + 99) * 1000 + 999) by lia. zlia. }
  rewrite E2. rewrite u32_id by zlia. split; [reflexivity | zlia].
Qed.

Lemma TIME_MS2I_value ms : 0 <= ms <= 42949672 -> TIME_MS2I ms = ms * 100.
Proof.
  intros Hm. unfold TIME_MS2I, CH_CFG_ST_FREQUENCY.
  assert (E : u64 (u64 (u64 ms * 100000) + 999) = ms * 100000 + 999) by cint.
  rewrite E. replace (ms * 100000 + 999) with (ms * 100 * 1000 + 999) by lia. cint.
Qed.

(** A sleep of [ms] milliseconds is converted without loss (any duration up
    to eleven hours), and a tick count converts to the number of milliseconds
    that covers it: never fewer, and less than one too many. *)
Theorem time_conversions (ms i : Z) :
  0 <= ms <= 42949672 -> 0 <= i < 4294967296 ->
  TIME_I2MS (TIME_MS2I ms) = ms /\
  (TIME_I2MS i - 1) * 100 < i <= TIME_I2MS i * 100.
Proof.
  intros Hm Hi. rewrite TIME_MS2I_value by exact Hm.
  destruct (TIME_I2MS_value i Hi) as [-> _].
  destruct (TIME_I2MS_value (ms * 100) ltac:(lia)) as [-> _].
  split; [|split]; zlia.
Qed.

Lemma time_conversions_witness :
  TIME_I2MS (TIME_MS2I 20) = 20 /\ (TIME_I2MS 1234 - 1) * 100 < 1234 <= TIME_I2MS 1234 * 100.
Proof. apply time_conversions; lia. Defined.

(** The range test of the scheduler is right across the wrap of the counter:
    if [time] is [d] ticks after [start] and [end] is [n] ticks after it, both
    fewer than 2^32, the test says whether [d < n], wherever [start] lies. *)
Theorem time_in_range_wraps (start d n : Z) :
  0 <= d < 4294967296 -> 0 <= n < 4294967296 ->
  chTimeIsInRangeX (chTimeAddX start d) start (chTimeAddX start n) = (d <? n) /\
  chTimeDiffX start (chTimeAddX start d) = d.
Proof.
  intros Hd Hn. unfold chTimeIsInRangeX, chTimeAddX, chTimeDiffX.
  rewrite !wrapu_sub_l. replace (start + d - start) with d by lia.
  replace (start + n - start) with n by lia. rewrite !u32_id by lia. split; reflexivity.
Qed.

Lemma time_in_range_wraps_witness :
  chTimeIsInRangeX (chTimeAddX 4294967290 100) 4294967290 (chTimeAddX 4294967290 200)
  = (100 <? 200) /\ chTimeDiffX 4294967290 (chTimeAddX 4294967290 100) = 100.
Proof. apply time_in_range_wraps; lia. Defined.

(** The conversions that assert agree with the macros where they are defined.  To ticks,
    they fail just for durations whose ticks exceed the longest interval; from ticks,
    seconds and milliseconds never fail, and microseconds do where the macro wraps. *)
Theorem time_checked_conversions (v : Z) :
  0 <= v < 4294967296 ->
  chTimeS2I v = (if v * 100000 <=? 4294967294 then Some (v * 100000) else None) /\
  chTimeMS2I v = (if v * 100 <=? 4294967294 then Some (v * 100) else None) /\
  chTimeUS2I v = Some ((v + 9) / 10) /\
  chTimeI2S v = Some ((v + 99999) / 100000) /\
  chTimeI2MS v = Some (TIME_I2MS v) /\
  chTimeI2US v = if v * 10 <=? 4294967295 then Some (v * 10) else None.
Proof.
  intros Hv. pose proof (TIME_I2MS_value v Hv) as [Ems Hms].
  assert (E1 : u64 v = v) by cint. change TIME_MAX_INTERVAL with 4294967294. change (u32 (-1)) with 4294967295.
  unfold chTimeS2I, chTimeMS2I, chTimeUS2I, chTimeI2S, chTimeI2MS, chTimeI2US, CH_CFG_ST_FREQUENCY.
  change TIME_MAX_INTERVAL with 4294967294. change (u32 (-1)) with 4294967295. rewrite !E1.
  assert (S1 : u64 (v * 100000) = v * 100000) by cint.
  assert (M1 : u64 (u64 (v * 100000) + 999) / 1000 = v * 100).
  { rewrite S1. assert (E : u64 (v * 100000 + 999) = v * 100000 + 999) by cint. rewrite E. zlia. }
  assert (U1 : u64 (u64 (v * 100000) + 999999) / 1000000 = (v + 9) / 10).
  { rewrite S1. assert (E : u64 (v * 100000 + 999999) = v * 100000 + 999999) by cint. rewrite E. zlia. }
  assert (I1 : u64 (v + 100000 - 1) / 100000 = (v + 99999) / 100000).
  { assert (E : u64 (v + 100000 - 1) = v + 99999) by cint. rewrite E. reflexivity. }
  assert (I2 : u64 (u64 (v * 1000) + 100000 - 1) / 100000 = (v + 99) / 100).
  { assert (E : u64 (v * 1000) = v * 1000) by cint. rewrite E. assert (E' : u64 (v * 1000 + 100000 - 1) = v * 1000 + 99999) by cint.
    rewrite E'. zlia. }
  assert (I3 : u64 (u64 (v * 1000000) + 100000 - 1) / 100000 = v * 10).
  { assert (E : u64 (v * 1000000) = v * 1000000) by cint. rewrite E. assert (E' : u64 (v * 1000000 + 100000 - 1) = v * 1000000 + 99999) by cint.
    rewrite E'. zlia. }
  rewrite M1, U1, S1, I1, I2, I3, Ems. split_and!.
  - case_bool; cbn; [rewrite u32_id by lia|]; reflexivity.
  - case_bool; cbn; [rewrite u32_id by lia|]; reflexivity.
  - rewrite check_true by (apply Z.leb_le; zlia). cbn. rewrite u32_id by zlia. reflexivity.
  - rewrite check_true by (apply Z.ltb_lt; zlia). cbn. rewrite u32_id by zlia. reflexivity.
  - rewrite check_true by (apply Z.ltb_lt; zlia). cbn. rewrite u32_id by zlia. reflexivity.
  - case_bool; cbn; [rewrite u32_id by lia|]; reflexivity.
Qed.

Lemma time_checked_conversions_witness :
  chTimeS2I 50000 = None /\ chTimeMS2I 20 = Some 2000 /\ chTimeUS2I 15 = Some 2 /\ chTimeI2S 1 = Some 1 /\
  chTimeI2MS 150 = Some 2 /\ chTimeI2US 429496730 = None.
Proof.
  split_and!; [apply (time_checked_conversions 50000)|apply (time_checked_conversions 20)|apply (time_checked_conversions 15)|
    apply (time_checked_conversions 1)|apply (time_checked_conversions 150)|apply (time_checked_conversions 429496730)]; lia.
Defined.
