(* ===== verification/Spi.v ===== *)
(** * The SPI bus interface

    The motor drive enclosure, the accelerometers, the gyroscope ADC and the
    magnetometer are reached over SPI.  The bus and the chips behind it are
    hardware: a device is any type with the operations below, and the
    components that talk to it are written, and proved, against this class. *)

From S2P Require Import Prelude CInt.

(** The chip-select line named by an [SPIConfig]. *)
Inductive spi_chip :=
| LINE_MDE_CS
| LINE_IMU_CS1
| LINE_IMU_CS2
| LINE_IMU_CS3
| LINE_IMU_MPU.

#[export] Instance spi_chip_eq_dec : EqDecision spi_chip.
Proof. solve_decision. Defined.

(** [spi_select] asserts the chip-select line, [spi_shift] clocks one byte out
    and one byte in, [spi_unselect] releases the line.  The byte clocked in is
    a byte: that is the one law a client relies on. *)
Class SpiBus (D : Type) := {
  spi_select : spi_chip -> D -> D;
  spi_shift : D -> Z -> D * Z;
  spi_unselect : spi_chip -> D -> D;
  spi_shift_byte : forall d b, 0 <= snd (spi_shift d b) < 256
}.

(** [spiExchange(spip, n, tx, rx)]: [n] bytes out, [n] bytes in. *)
Fixpoint spiExchange {D} `{SpiBus D} (d : D) (tx : list Z) : D * list Z :=
  match tx with
  | [] => (d, [])
  | b :: tx' =>
      let '(d1, r) := spi_shift d b in
      let '(d2, rx) := spiExchange d1 tx' in
      (d2, r :: rx)
  end.

(** One transaction: select, exchange, unselect. *)
Definition spi_transaction {D} `{SpiBus D} (chip : spi_chip) (d : D) (tx : list Z)
  : D * list Z :=
  let '(d1, rx) := spiExchange (spi_select chip d) tx in
  (spi_unselect chip d1, rx).

(** A 16-bit word exchange, most significant byte first, as [mde_exchange] and
    [imu_exchange] perform it. *)
Definition spi_exchange16 {D} `{SpiBus D} (chip : spi_chip) (d : D) (mosi : Z) : D * Z :=
  let '(d1, rx) := spi_transaction chip d [u8 (Z.shiftr mosi 8); u8 mosi] in
  (d1, u16 (Z.lor (Z.shiftl (nth 0 rx 0) 8) (nth 1 rx 0))).

Lemma spiExchange_length {D} `{SpiBus D} tx : forall d,
  length (snd (spiExchange d tx)) = length tx.
Proof.
  induction tx as [|b tx IH]; intros d; simpl; [reflexivity|].
  destruct (spi_shift d b) as [d1 r]. specialize (IH d1).
  destruct (spiExchange d1 tx) as [d2 rx]. simpl in *. lia.
Qed.

Lemma spiExchange_bytes {D} `{SpiBus D} tx : forall d,
  Forall (fun r => 0 <= r < 256) (snd (spiExchange d tx)).
Proof.
  induction tx as [|b tx IH]; intros d; simpl; [constructor|].
  pose proof (spi_shift_byte d b) as Hb. destruct (spi_shift d b) as [d1 r].
  specialize (IH d1). destruct (spiExchange d1 tx) as [d2 rx]. simpl in *.
  constructor; assumption.
Qed.

Lemma spi_exchange16_range {D} `{SpiBus D} chip d mosi :
  0 <= snd (spi_exchange16 chip d mosi) < 65536.
Proof.
  unfold spi_exchange16. destruct (spi_transaction _ _ _). apply u16_range.
Qed.

(** ** A scripted device

    A concrete bus for examples and witnesses: it answers with the bytes of a
    script (zeros when it runs out) and logs every selected transaction. *)

Record spi_script := SpiScript {
  ss_replies : list Z;
  ss_current : list Z;
  ss_log : list (spi_chip * list Z)
}.

Definition script_shift (d : spi_script) (b : Z) : spi_script * Z :=
  match ss_replies d with
  | [] => (SpiScript [] (ss_current d ++ [b]) (ss_log d), 0)
  | r :: rs => (SpiScript rs (ss_current d ++ [b]) (ss_log d), u8 r)
  end.

#[export, program] Instance spi_script_bus : SpiBus spi_script := {
  spi_select _ d := SpiScript (ss_replies d) [] (ss_log d);
  spi_shift := script_shift;
  spi_unselect c d := SpiScript (ss_replies d) [] (ss_log d ++ [(c, ss_current d)])
}.
Next Obligation.
  intros d b. unfold script_shift. destruct (ss_replies d); simpl; [lia | apply u8_range].
Qed.
