(* ===== verification/Streams.v ===== *)
(** * Sequential streams (os/hal/lib/streams/memstreams.c, nullstreams.c)

    ChibiOS's stream "classes" are virtual method tables; [SeqStream] is the
    part of the table that [chvprintf] calls, and the memory stream and the null
    stream are two of its implementations.  A third, the list of bytes put so
    far, is the specification the others are compared with. *)

From S2P Require Import Prelude CInt CLib.

(** ** Interface *)


(** [streamPut(ip, b)]: the new state of the object and the returned message. *)
Class SeqStream (S : Type) := {
  streamPut : S -> Z -> option (S * Z)
}.

(** ** Memory stream *)

Record MemoryStream := MkMemoryStream {
  ms_buffer : list Z;
  ms_size : Z;      (* size_t *)
  ms_eos : Z;       (* size_t *)
  ms_offset : Z     (* size_t *)
}.

Definition msObjectInit (buffer : list Z) (size eos : Z) : MemoryStream :=
  MkMemoryStream buffer size eos 0.

(** [_writes]: as many bytes of [bp] as there is room for. *)
Definition ms_writes (m : MemoryStream) (bp : list Z) (n : Z) : option (MemoryStream * Z) :=
  let n := if u32 (ms_size m - ms_eos m) <? n then u32 (ms_size m - ms_eos m) else n in
  buffer ← memcpy (ms_buffer m) (ms_eos m) bp n;
  Some (MkMemoryStream buffer (ms_size m) (u32 (ms_eos m + n)) (ms_offset m), n).

(** [_reads]: as many bytes as have been put and not yet read. *)
Definition ms_reads (m : MemoryStream) (bp : list Z) (n : Z)
  : option (MemoryStream * list Z * Z) :=
  let n := if u32 (ms_eos m - ms_offset m) <? n then u32 (ms_eos m - ms_offset m) else n in
  bp ← memcpy bp 0 (at_off (ms_buffer m) (ms_offset m)) n;
  Some (MkMemoryStream (ms_buffer m) (ms_size m) (ms_eos m) (u32 (ms_offset m + n)), bp, n).

(** [_put]. *)
Definition ms_put (m : MemoryStream) (b : Z) : option (MemoryStream * Z) :=
  if u32 (ms_size m - ms_eos m) <=? 0 then Some (m, MSG_RESET)
  else buffer ← wr (ms_buffer m) (ms_eos m) (u8 b);
       Some (MkMemoryStream buffer (ms_size m) (u32 (ms_eos m + 1)) (ms_offset m), MSG_OK).

(** [_get]. *)
Definition ms_get (m : MemoryStream) : option (MemoryStream * Z) :=
  if u32 (ms_eos m - ms_offset m) <=? 0 then Some (m, MSG_RESET)
  else b ← rd (ms_buffer m) (ms_offset m);
       Some (MkMemoryStream (ms_buffer m) (ms_size m) (ms_eos m) (u32 (ms_offset m + 1)), b).

(** [_unget]. *)
Definition ms_unget (m : MemoryStream) (b : Z) : option (MemoryStream * Z) :=
  if ms_offset m <=? 0 then Some (m, MSG_RESET)
  else let offset := u32 (ms_offset m - 1) in
       buffer ← wr (ms_buffer m) offset (u8 b);
       Some (MkMemoryStream buffer (ms_size m) (ms_eos m) offset, MSG_OK).

#[export] Instance memory_stream : SeqStream MemoryStream := { streamPut := ms_put }.

(** ** Null stream *)

Inductive NullStream := MkNullStream.

Definition null_put (s : NullStream) (b : Z) : option (NullStream * Z) := Some (s, MSG_OK).

#[export] Instance null_stream : SeqStream NullStream := { streamPut := null_put }.

(** ** Specification stream *)

(** The bytes put so far. *)
#[export] Instance list_stream : SeqStream (list Z) :=
  { streamPut := fun out b => Some (out ++ [b], MSG_OK) }.

(** Successive puts, the messages ignored. *)
Fixpoint stream_puts {S} `{SeqStream S} (s : S) (bs : list Z) : option S :=
  match bs with
  | [] => Some s
  | b :: bs' => '(s', _) ← streamPut s b; stream_puts s' bs'
  end.

(** ** Lemmas *)

Lemma stream_puts_app {S} `{SeqStream S} (s : S) xs ys :
  stream_puts s (xs ++ ys) = (s' ← stream_puts s xs; stream_puts s' ys).
Proof.
  revert s; induction xs as [|x xs IH]; intros s; simpl; [reflexivity|].
  destruct (streamPut s x) as [[s' m]|]; simpl; auto.
Qed.

Lemma list_stream_puts out bs : stream_puts out bs = Some (out ++ bs).
Proof.
  revert out; induction bs as [|b bs IH]; intros out; simpl; [rewrite app_nil_r; reflexivity|].
  rewrite IH, <- app_assoc. reflexivity.
Qed.

Lemma null_stream_puts bs : stream_puts MkNullStream bs = Some MkNullStream.
Proof. induction bs as [|b bs IH]; simpl; auto. Qed.

(** A stream over a buffer that really has the announced size. *)
Definition ms_ok (m : MemoryStream) : Prop :=
  0 <= ms_offset m <= ms_eos m /\ ms_eos m <= ms_size m /\ ms_size m < 4294967296 /\
  ms_size m <= Z.of_nat (length (ms_buffer m)).

(** The unread content. *)
Definition ms_content (m : MemoryStream) : list Z :=
  drop (Z.to_nat (ms_offset m)) (take (Z.to_nat (ms_eos m)) (ms_buffer m)).

Lemma ms_put_room m b :
  ms_ok m -> ms_eos m < ms_size m ->
  ms_put m b = Some (MkMemoryStream (<[Z.to_nat (ms_eos m) := u8 b]> (ms_buffer m))
                       (ms_size m) (ms_eos m + 1) (ms_offset m), MSG_OK).
Proof.
  intros (Ho & He & Hs & Hb) Hr. unfold ms_put.
  rewrite u32_id, (proj2 (Z.leb_gt _ _)) by lia.
  rewrite wr_defined by lia. simpl. rewrite u32_id by lia. reflexivity.
Qed.

Lemma ms_put_full m b : ms_eos m = ms_size m -> ms_put m b = Some (m, MSG_RESET).
Proof. intros E. unfold ms_put. rewrite E, Z.sub_diag. reflexivity. Qed.

Lemma ms_put_ok m b m' r : ms_ok m -> ms_put m b = Some (m', r) -> ms_ok m'.
Proof.
  intros Hok H. pose proof Hok as (Ho & He & Hs & Hb).
  destruct (Z.eq_dec (ms_eos m) (ms_size m)) as [E|].
  - rewrite ms_put_full in H by exact E. injection H as <- <-. exact Hok.
  - rewrite ms_put_room in H by (auto; lia). injection H as <- <-.
    unfold ms_ok. simpl. rewrite length_insert. lia.
Qed.

(** The bytes before the end of the stream after a sequence of puts. *)
Lemma ms_puts_spec bs : forall m,
  ms_ok m -> Forall (fun b => 0 <= b < 256) bs ->
  let room := Z.to_nat (ms_size m - ms_eos m) in
  let n := (Nat.min room (length bs)) in
  exists m', stream_puts m bs = Some m' /\ ms_ok m' /\
    ms_size m' = ms_size m /\ ms_offset m' = ms_offset m /\
    ms_eos m' = ms_eos m + Z.of_nat n /\
    ms_buffer m' = take (Z.to_nat (ms_eos m)) (ms_buffer m) ++ take room bs
                   ++ drop (Z.to_nat (ms_eos m) + n) (ms_buffer m).
Proof.
  induction bs as [|b bs IH]; intros m Hok Hbs room n.
  - assert (n = O) as -> by (unfold n; simpl; lia).
    exists m. rewrite take_nil, Nat.add_0_r. simpl. rewrite take_drop. split_and!; auto; lia.
  - inversion_clear Hbs as [|? ? Hb Hbs']. pose proof Hok as (Ho & He & Hs & Hl). simpl.
    destruct (Z.eq_dec (ms_eos m) (ms_size m)) as [E|Hne].
    + rewrite ms_put_full by exact E. simpl.
      destruct (IH m Hok Hbs') as (m' & Hp & Hok' & H1 & H2 & H3 & H4).
      exists m'. assert (Hroom : room = O) by (unfold room; lia).
      unfold n. rewrite Hroom. fold room in H3, H4. rewrite Hroom in H3, H4. simpl in *.
      split_and!; auto.
    + rewrite ms_put_room by (auto; lia). simpl. rewrite u8_id by lia.
      set (m1 := MkMemoryStream _ _ _ _).
      assert (Hok1 : ms_ok m1) by (unfold ms_ok, m1; simpl; rewrite length_insert; lia).
      destruct (IH m1 Hok1 Hbs') as (m' & Hp & Hok' & H1 & H2 & H3 & H4).
      assert (Hr1 : room = S (Z.to_nat (ms_size m1 - ms_eos m1))) by (unfold room, m1; simpl; lia).
      set (r1 := Z.to_nat (ms_size m1 - ms_eos m1)) in *.
      exists m'. rewrite Hp. unfold n. rewrite Hr1. simpl. unfold m1 in *. simpl in *.
      split_and!; auto; [lia|].
      rewrite H4.
      replace (Z.to_nat (ms_eos m + 1)) with (S (Z.to_nat (ms_eos m))) by lia.
      rewrite (take_S_r _ _ b) by (rewrite list_lookup_insert_eq; [reflexivity|lia]).
      rewrite take_insert_ge by lia. rewrite <- app_assoc. simpl.
      rewrite drop_insert_lt by lia.
      do 4 f_equal. lia.
Qed.

Lemma ms_content_length m :
  ms_ok m -> length (ms_content m) = Z.to_nat (ms_eos m - ms_offset m).
Proof.
  intros (Ho & He & Hs & Hl). unfold ms_content. rewrite length_drop, length_take. lia.
Qed.

Lemma ms_get_cons m x l :
  ms_ok m -> ms_content m = x :: l ->
  exists m', ms_get m = Some (m', x) /\ ms_ok m' /\ ms_content m' = l.
Proof.
  intros Hok Hc. pose proof (ms_content_length m Hok) as Hlen. rewrite Hc in Hlen. simpl in Hlen.
  pose proof Hok as (Ho & He & Hs & Hl).
  assert (Hx : ms_buffer m !! Z.to_nat (ms_offset m) = Some x).
  { assert (H : ms_content m !! O = Some x) by (rewrite Hc; reflexivity).
    unfold ms_content in H. rewrite lookup_drop, Nat.add_0_r in H.
    rewrite lookup_take_lt in H by lia. exact H. }
  unfold ms_get. rewrite u32_id, (proj2 (Z.leb_gt _ _)) by lia.
  unfold rd. rewrite (proj2 (Z.leb_le 0 (ms_offset m))), Hx by lia. simpl.
  rewrite u32_id by lia. eexists. split; [reflexivity|]. split; [unfold ms_ok; simpl; lia|].
  unfold ms_content in *. simpl.
  replace (Z.to_nat (ms_offset m + 1)) with (Z.to_nat (ms_offset m) + 1)%nat by lia.
  rewrite <- drop_drop, Hc. reflexivity.
Qed.

(** A memory stream is a bounded first-in-first-out queue: a put appends the
    byte to the unread content while there is room and changes nothing once the
    buffer is full; a get removes and returns the oldest unread byte, or reports
    [MSG_RESET] when there is none.  No access is out of bounds. *)
Theorem ms_fifo (m : MemoryStream) (b : Z) :
  ms_ok m -> 0 <= b < 256 ->
  (exists m' r, ms_put m b = Some (m', r) /\ ms_ok m' /\
     ms_content m' = ms_content m ++ (if ms_eos m <? ms_size m then [b] else [])) /\
  (exists m' r, ms_get m = Some (m', r) /\ ms_ok m' /\
     match ms_content m with
     | [] => m' = m /\ r = MSG_RESET
     | x :: l => r = x /\ ms_content m' = l
     end).
Proof.
  intros Hok Hb. pose proof Hok as (Ho & He & Hs & Hl). split.
  - case_bool.
    + rewrite ms_put_room by auto. do 2 eexists. split; [reflexivity|].
      split; [apply (ms_put_ok m b _ MSG_OK Hok), ms_put_room; auto|].
      unfold ms_content. simpl. rewrite u8_id by lia.
      replace (Z.to_nat (ms_eos m + 1)) with (S (Z.to_nat (ms_eos m))) by lia.
      rewrite (take_S_r _ _ b) by (rewrite list_lookup_insert_eq; [reflexivity|lia]).
      rewrite take_insert_ge by lia. rewrite drop_app_le; [reflexivity|].
      rewrite length_take. lia.
    + rewrite ms_put_full by lia. do 2 eexists. split; [reflexivity|].
      split; [exact Hok|]. rewrite app_nil_r. reflexivity.
  - destruct (ms_content m) as [|x l] eqn:Ec.
    + pose proof (ms_content_length m Hok) as Hlen. rewrite Ec in Hlen. simpl in Hlen.
      unfold ms_get. rewrite u32_id, (proj2 (Z.leb_le _ _)) by lia. eauto 6.
    + destruct (ms_get_cons m x l Hok Ec) as (m' & -> & Hok' & Hc'). eauto 8.
Qed.

Lemma ms_fifo_witness :
  let m := MkMemoryStream [10; 20; 30] 3 2 1 in
  (exists m' r, ms_put m 7 = Some (m', r) /\ ms_ok m' /\
     ms_content m' = ms_content m ++ (if ms_eos m <? ms_size m then [7] else [])) /\
  (exists m' r, ms_get m = Some (m', r) /\ ms_ok m' /\
     match ms_content m with
     | [] => m' = m /\ r = MSG_RESET
     | x :: l => r = x /\ ms_content m' = l
     end).
Proof. intros m. apply (ms_fifo m 7); [unfold ms_ok, m; simpl; lia | lia]. Defined.
