(* ===== verification/Chprintf.v ===== *)
(** * Formatted output (os/hal/lib/streams/chprintf.c)

    [chvprintf] as the firmware builds it ([CHPRINTF_USE_FLOAT]): the directive
    parser, the conversions into the 23-byte scratch buffer [tmpbuf] with every
    access checked, the padding, and [chvsnprintf] over a memory stream.  The
    character loop runs with the length of the format as fuel, which is always
    enough because each turn consumes a character.  On the target [long] and
    [int] are 32 bits wide and [char] is unsigned. *)

From S2P Require Import Prelude CInt CFloat CLib Streams.
From Stdlib Require Import SpecFloat.

(** ** Arguments *)

(** A variadic argument: an [int] or [long] word, a [double], or a pointer to a
    string ([None] for the null pointer). *)
Inductive va :=
| VInt (z : Z)
| VDouble (x : spec_float)
| VStr (mem : option (list Z)).

Definition va_int (args : list va) : option (Z * list va) :=
  match args with VInt z :: args' => Some (z, args') | _ => None end.
Definition va_double (args : list va) : option (spec_float * list va) :=
  match args with VDouble x :: args' => Some (x, args') | _ => None end.
Definition va_str (args : list va) : option (option (list Z) * list va) :=
  match args with VStr m :: args' => Some (m, args') | _ => None end.

(** ** Numbers *)

Definition MAX_FILLER : Z := 11.
Definition FLOAT_PRECISION : Z := 9.

(** The do-while loop that stores digits downwards from [q].  [l] and [ll] are
    divided as unsigned words, because [radix] is unsigned. *)
Fixpoint ltoa_fill (fuel : nat) (tmp : list Z) (q l ll radix : Z) : option (list Z * Z) :=
  match fuel with
  | O => None
  | S fuel' =>
      let i := l mod radix + 48 in
      let i := if 57 <? i then i + (65 - 48 - 10) else i in
      tmp ← wr tmp (q - 1) (u8 i);
      if ll / radix =? 0 then Some (tmp, q - 1)
      else ltoa_fill fuel' tmp (q - 1) (l / radix) (ll / radix) radix
  end.

(** The do-while loop that moves the digits down to [p]. *)
Fixpoint ltoa_copy (i : nat) (tmp : list Z) (p q : Z) : option (list Z * Z) :=
  match i with
  | O => Some (tmp, p)
  | S i' => b ← rd tmp q; tmp ← wr tmp p b; ltoa_copy i' tmp (p + 1) (q + 1)
  end.

(** Thirty-two turns of the first loop are enough for a word in any radix. *)
Definition long_to_string_with_divisor (tmp : list Z) (p num radix divisor : Z)
  : option (list Z * Z) :=
  let ll := if divisor =? 0 then num else divisor in
  '(tmp, q) ← ltoa_fill 32 tmp (p + MAX_FILLER) (u32 num) (u32 ll) radix;
  ltoa_copy (Z.to_nat (p + MAX_FILLER - q)) tmp p q.

Definition ch_ltoa (tmp : list Z) (p num radix : Z) : option (list Z * Z) :=
  long_to_string_with_divisor tmp p num radix 0.

Definition pow10 : list Z :=
  [10; 100; 1000; 10000; 100000; 1000000; 10000000; 100000000; 1000000000].

Definition ftoa (tmp : list Z) (p : Z) (num : spec_float) (precision : Z)
  : option (list Z * Z) :=
  let precision :=
    if (precision =? 0) || (FLOAT_PRECISION <? precision) then FLOAT_PRECISION else precision in
  precision ← rd pow10 (precision - 1);
  l ← f_to_s 32 num;
  '(tmp, p) ← long_to_string_with_divisor tmp p l 10 0;
  tmp ← wr tmp p 46;
  l ← f_to_s 32 (d_mul (d_sub num (d_of_Z l)) (d_of_Z precision));
  long_to_string_with_divisor tmp (p + 1) l 10 (precision / 10).

(** ** Directives *)

Record ch_spec := ChSpec {
  left_align : bool; do_sign : bool; sp_filler : Z; sp_width : Z; sp_precision : Z;
  is_long : bool; sp_conv : Z
}.

(** The result of parsing after a ['%']: the format ended, or a directive, the
    rest of the format and the arguments not consumed. *)
Inductive parsed :=
| PEnd
| PSpec (sp : ch_spec) (fmt : list Z) (args : list va).

(** The optional flag characters: [fmt] advances past [c] if it is there. *)
Definition skip_char (c : Z) (fmt : list Z) : option (bool * list Z) :=
  b ← head fmt; Some (if b =? c then (true, tail fmt) else (false, fmt)).

(** The digits of a width and the character that follows them; the inner
    [None] is the end of the format. *)
Fixpoint parse_width (fmt : list Z) (width : Z) : option (option (Z * Z * list Z)) :=
  match fmt with
  | [] => None
  | c :: fmt' =>
      if c =? 0 then Some None
      else if is_digit c then parse_width fmt' (i32 (width * 10 + (c - 48)))
      else Some (Some (width, c, fmt'))
  end.

(** The digits of a precision, the first of which has been read into [c]. *)
Fixpoint parse_precision (c : Z) (fmt : list Z) (precision : Z)
  : option (option (Z * Z * list Z)) :=
  if is_digit c then
    match fmt with
    | [] => None
    | c' :: fmt' =>
        if c' =? 0 then Some None
        else parse_precision c' fmt' (i32 (precision * 10 + (c - 48)))
    end
  else Some (Some (precision, c, fmt)).

(** [*fmt++]. *)
Definition next_char (fmt : list Z) : option (Z * list Z) :=
  match fmt with [] => None | c :: fmt' => Some (c, fmt') end.

(** From the long modifier on. *)
Definition parse_long (lalign sign : bool) (filler width precision c : Z) (fmt : list Z)
    (args : list va) : option parsed :=
  if (c =? 108) || (c =? 76) then
    '(c, fmt) ← next_char fmt;
    if c =? 0 then Some PEnd
    else Some (PSpec (ChSpec lalign sign filler width precision true c) fmt args)
  else Some (PSpec (ChSpec lalign sign filler width precision ((65 <=? c) && (c <=? 90)) c) fmt args).

(** From the precision modifier on. *)
Definition parse_dot (lalign sign : bool) (filler width c : Z) (fmt : list Z) (args : list va)
  : option parsed :=
  if c =? 46 then
    '(c, fmt) ← next_char fmt;
    if c =? 0 then Some PEnd
    else if c =? 42 then
      '(precision, args) ← va_int args;
      '(c, fmt) ← next_char fmt;
      parse_long lalign sign filler width (i32 precision) c fmt args
    else
      r ← parse_precision c fmt 0;
      match r with
      | None => Some PEnd
      | Some (precision, c, fmt) => parse_long lalign sign filler width precision c fmt args
      end
  else parse_long lalign sign filler width 0 c fmt args.

Definition parse_spec (fmt : list Z) (args : list va) : option parsed :=
  '(lalign, fmt) ← skip_char 45 fmt;
  '(sign, fmt) ← skip_char 43 fmt;
  '(zero, fmt) ← skip_char 48 fmt;
  let filler := if (zero : bool) then 48 else 32 in
  c ← head fmt;
  if c =? 42 then
    '(width, args) ← va_int args;
    '(c, fmt) ← next_char (tail fmt);
    parse_dot lalign sign filler (i32 width) c fmt args
  else
    r ← parse_width fmt 0;
    match r with
    | None => Some PEnd
    | Some (width, c, fmt) => parse_dot lalign sign filler width c fmt args
    end.

(** ** Conversions *)

(** [char tmpbuf[2*MAX_FILLER + 1]]; its initial content is never read. *)
Definition tmpbuf0 : list Z := replicate 23 0.

(** [for (p = s; *p && (--precision >= 0); p++)]. *)
Fixpoint str_scan (mem : list Z) (precision : Z) : option (list Z) :=
  match mem with
  | [] => None
  | b :: mem' =>
      if b =? 0 then Some []
      else if 0 <=? precision - 1 then s ← str_scan mem' (precision - 1); Some (b :: s)
      else Some []
  end.

(** A sign is stored first, then the number from where it ends. *)
Definition put_sign (tmp : list Z) (neg sign : bool) : option (list Z * Z) :=
  if neg then tmp ← wr tmp 0 45; Some (tmp, 1)
  else if sign then tmp ← wr tmp 0 43; Some (tmp, 1)
  else Some (tmp, 0).

(** [l = -l] in a [long]: undefined for the least value. *)
Definition neg_long (l : Z) : option Z := _ ← check (in_s 32 (- l)); Some (- l).

Definition convert_signed (sp : ch_spec) (z : Z) : option (list Z) :=
  let l := i32 z in
  '(tmp, p) ← put_sign tmpbuf0 (l <? 0) (do_sign sp);
  l ← (if l <? 0 then neg_long l else Some l);
  '(tmp, p) ← ch_ltoa tmp p l 10;
  Some (take (Z.to_nat p) tmp).

Definition convert_float (sp : ch_spec) (x : spec_float) : option (list Z) :=
  let f := s_of_d x in
  let neg := f_ltb f (s_of_Z 0) in
  '(tmp, p) ← put_sign tmpbuf0 neg (do_sign sp);
  '(tmp, p) ← ftoa tmp p (d_of_s (if neg then f_opp f else f)) (u32 (sp_precision sp));
  Some (take (Z.to_nat p) tmp).

Definition convert_unsigned (radix z : Z) : option (list Z) :=
  '(tmp, p) ← ch_ltoa tmpbuf0 0 (i32 z) radix;
  Some (take (Z.to_nat p) tmp).

(** The cases of the command decoding. *)
Inductive conv_kind := CvChar | CvStr | CvSigned | CvFloat | CvUnsigned (radix : Z) | CvOther.

Definition is_conv (s : string) (c : Z) : bool := bool_decide (c ∈ bytes s).

Definition conv_of (c : Z) : conv_kind :=
  if is_conv "c" c then CvChar
  else if is_conv "s" c then CvStr
  else if is_conv "DdIi" c then CvSigned
  else if is_conv "f" c then CvFloat
  else if is_conv "XxPp" c then CvUnsigned 16
  else if is_conv "Uu" c then CvUnsigned 10
  else if is_conv "Oo" c then CvUnsigned 8
  else CvOther.

(** The command: the text between [s] and [p], the filler, and the arguments
    left. *)
Definition convert (sp : ch_spec) (args : list va) : option (list Z * Z * list va) :=
  match conv_of (sp_conv sp) with
  | CvChar => '(z, args) ← va_int args; Some ([u8 z], 32, args)
  | CvStr =>
      '(m, args) ← va_str args;
      let mem := match m with Some mem => mem | None => bytes "(null)" ++ [0] end in
      let precision := if sp_precision sp =? 0 then 32767 else sp_precision sp in
      s ← str_scan mem precision;
      Some (s, 32, args)
  | CvSigned => '(z, args) ← va_int args; t ← convert_signed sp z; Some (t, sp_filler sp, args)
  | CvFloat => '(x, args) ← va_double args; t ← convert_float sp x; Some (t, sp_filler sp, args)
  | CvUnsigned radix =>
      '(z, args) ← va_int args; t ← convert_unsigned radix z; Some (t, sp_filler sp, args)
  | CvOther => Some ([sp_conv sp], sp_filler sp, args)
  end.

(** ** Output *)

(** [streamPut(chp, b); n++], and the loops of it.  The counter is an [int] that
    wraps here; a text of 2^31 bytes or more overflows it, which C leaves
    undefined. *)
Definition put_count {S} `{SeqStream S} (st : S) (n b : Z) : option (S * Z) :=
  '(st, _) ← streamPut st (u8 b); Some (st, i32 (n + 1)).

Fixpoint puts_count {S} `{SeqStream S} (st : S) (n : Z) (bs : list Z) : option (S * Z) :=
  match bs with
  | [] => Some (st, n)
  | b :: bs' => '(st, n) ← put_count st n b; puts_count st n bs'
  end.

(** The padded text: fillers, text and fillers, with the sign kept in front of
    leading zeros. *)
Definition emit {S} `{SeqStream S} (st : S) (n : Z) (sp : ch_spec) (filler : Z) (text : list Z)
  : option (S * Z) :=
  let width := sp_width sp - Z.of_nat (length text) in
  let width := if width <? 0 then 0 else width in
  let width := if left_align sp then width else - width in
  '(st, n, text, width) ←
    (if width <? 0 then
       '(st, n, text) ←
         (match text with
          | b :: text' =>
              if ((b =? 45) || (b =? 43)) && (filler =? 48)
              then '(st, n) ← put_count st n b; Some (st, n, text')
              else Some (st, n, text)
          | [] => Some (st, n, text)
          end);
       '(st, n) ← puts_count st n (replicate (Z.to_nat (- width)) filler);
       Some (st, n, text, 0)
     else Some (st, n, text, width));
  '(st, n) ← puts_count st n text;
  puts_count st n (replicate (Z.to_nat width) filler).

Fixpoint chvprintf_loop {S} `{SeqStream S} (fuel : nat) (st : S) (fmt : list Z) (args : list va)
    (n : Z) : option (S * Z) :=
  match fuel with
  | O => None
  | Datatypes.S fuel' =>
      '(c, fmt) ← next_char fmt;
      if c =? 0 then Some (st, n)
      else if negb (c =? 37) then
        '(st, n) ← put_count st n c; chvprintf_loop fuel' st fmt args n
      else
        r ← parse_spec fmt args;
        match r with
        | PEnd => Some (st, n)
        | PSpec sp fmt args =>
            '(text, filler, args) ← convert sp args;
            '(st, n) ← emit st n sp filler text;
            chvprintf_loop fuel' st fmt args n
        end
  end.

(** [chvprintf] and [chprintf] (which only packs its arguments). *)
Definition chvprintf {S} `{SeqStream S} (st : S) (fmt : list Z) (args : list va)
  : option (S * Z) :=
  chvprintf_loop (length fmt) st fmt args 0.

(** [chvsnprintf] and [chsnprintf]: the caller's buffer afterwards and the
    number of characters. *)
Definition chvsnprintf (str : list Z) (size : Z) (fmt : list Z) (args : list va)
  : option (list Z * Z) :=
  let size_wo_nul := if 0 <? size then size - 1 else 0 in
  '(ms, retval) ← chvprintf (msObjectInit str size_wo_nul 0) fmt args;
  if ms_eos ms <? size
  then str ← wr (ms_buffer ms) (ms_eos ms) 0; Some (str, retval)
  else Some (ms_buffer ms, retval).

(** A format string literal. *)
Definition fmt_of (s : string) : list Z := bytes s ++ [0].

Example chvsnprintf_example :
  (fst <$> chvsnprintf (replicate 40 0) 40 (fmt_of "[%.3f] %05d|%-4s|%x")
     [VDouble (d_lit 12345 1000); VInt (-42); VStr (Some (fmt_of "ab")); VInt 255])
  = Some (fmt_of "[12.345] -0042|ab  |FF" ++ replicate 17 0).
Proof. vm_compute. reflexivity. Qed.

(** ** Digit strings *)

Definition radix_digit (d : Z) : Z := if 57 <? d + 48 then d + 55 else d + 48.

(** The digits the fill loop stores, most significant first. *)
Fixpoint ltoa_digits (fuel : nat) (l ll radix : Z) : list Z :=
  match fuel with
  | O => []
  | S fuel' =>
      (if ll / radix =? 0 then [] else ltoa_digits fuel' (l / radix) (ll / radix) radix)
      ++ [radix_digit (l mod radix)]
  end.

Lemma ltoa_digits_length radix fuel : forall k l ll,
  1 < radix -> 0 <= ll < radix ^ Z.of_nat k -> (1 <= k <= fuel)%nat ->
  (1 <= length (ltoa_digits fuel l ll radix) <= k)%nat.
Proof.
  induction fuel as [|fuel IH]; intros k l ll Hr Hll Hk; [lia|].
  simpl. rewrite length_app. simpl.
  destruct (Z.eqb_spec (ll / radix) 0) as [|Hne]; [simpl; lia|].
  destruct k as [|k]; [lia|].
  rewrite Nat2Z.inj_succ, Z.pow_succ_r in Hll by lia.
  assert (Hlt : 0 <= ll / radix < radix ^ Z.of_nat k).
  { split; [apply Z.div_pos; lia | apply Z.div_lt_upper_bound; lia]. }
  assert (k <> O) by (intros ->; change (radix ^ Z.of_nat 0) with 1 in Hlt; lia).
  specialize (IH k (l / radix) (ll / radix) Hr Hlt ltac:(lia)). lia.
Qed.

Lemma radix_digit_byte radix l : 1 < radix <= 16 -> 48 <= radix_digit (l mod radix) < 71.
Proof.
  intros Hr. pose proof (Z.mod_pos_bound l radix). unfold radix_digit. case_bool; lia.
Qed.

Lemma ltoa_digits_Forall (P : Z -> Prop) radix fuel : forall l ll,
  (forall x, P (radix_digit (x mod radix))) -> Forall P (ltoa_digits fuel l ll radix).
Proof.
  induction fuel as [|fuel IH]; intros l ll HP; simpl; [constructor|].
  apply Forall_app. split; [|repeat constructor; apply HP].
  case_bool; [constructor | apply IH, HP].
Qed.

Lemma ltoa_digits_decimal fuel l ll :
  Forall (fun b => is_digit b = true) (ltoa_digits fuel l ll 10).
Proof.
  apply ltoa_digits_Forall. intros x. pose proof (Z.mod_pos_bound x 10).
  unfold radix_digit, is_digit. case_bool; [lia|].
  apply andb_true_iff. rewrite !Z.leb_le. lia.
Qed.

Lemma ltoa_digits_value fuel : forall l,
  0 <= l < 10 ^ Z.of_nat fuel -> digits_value 0 (ltoa_digits fuel l l 10) = l.
Proof.
  induction fuel as [|fuel IH]; intros l Hl; [simpl in *; lia|].
  rewrite Nat2Z.inj_succ, Z.pow_succ_r in Hl by lia.
  simpl. rewrite digits_value_app.
  assert (Hd : radix_digit (l mod 10) - 48 = l mod 10).
  { pose proof (Z.mod_pos_bound l 10). unfold radix_digit. case_bool; lia. }
  rewrite Hd. case_bool.
  - simpl. zlia.
  - rewrite IH; zlia.
Qed.

(** ** The two loops *)

Lemma ltoa_fill_spec radix fuel : forall k tmp q l ll,
  1 < radix <= 16 -> 0 <= ll < radix ^ Z.of_nat k -> (1 <= k <= fuel)%nat ->
  Z.of_nat k <= q <= Z.of_nat (length tmp) ->
  let ds := ltoa_digits fuel l ll radix in
  let q' := q - Z.of_nat (length ds) in
  ltoa_fill fuel tmp q l ll radix
  = Some (take (Z.to_nat q') tmp ++ ds ++ drop (Z.to_nat q) tmp, q').
Proof.
  induction fuel as [|fuel IH]; intros k tmp q l ll Hr Hll Hk Hq; [lia|].
  destruct k as [|k]; [lia|].
  pose proof (radix_digit_byte radix l Hr) as Hd.
  cbn [ltoa_fill ltoa_digits].
  rewrite wr_defined by lia. cbn [mbind option_bind].
  replace (u8 (if 57 <? l mod radix + 48 then _ else _)) with (radix_digit (l mod radix)).
  2: { unfold radix_digit in *. revert Hd. case_bool; intros Hd; rewrite u8_id by lia; lia. }
  set (d := radix_digit (l mod radix)) in *.
  set (tmp1 := <[Z.to_nat (q - 1) := d]> tmp).
  assert (Hd1 : drop (Z.to_nat (q - 1)) tmp1 = d :: drop (Z.to_nat q) tmp).
  { unfold tmp1. rewrite (drop_S _ d) by (apply list_lookup_insert_eq; lia).
    f_equal. rewrite drop_insert_lt by lia. f_equal. lia. }
  assert (Ht1 : forall n, (n <= Z.to_nat (q - 1))%nat -> take n tmp1 = take n tmp).
  { intros n Hn. apply take_insert_ge. exact Hn. }
  destruct (Z.eqb_spec (ll / radix) 0) as [|Hne].
  - simpl length. simpl app. f_equal. f_equal.
    rewrite <- (take_drop (Z.to_nat (q - 1)) tmp1), Hd1, Ht1 by lia. reflexivity.
  - rewrite Nat2Z.inj_succ, Z.pow_succ_r in Hll by lia.
    assert (Hlt : 0 <= ll / radix < radix ^ Z.of_nat k).
    { split; [apply Z.div_pos; lia | apply Z.div_lt_upper_bound; lia]. }
    assert (k <> O) by (intros ->; change (radix ^ Z.of_nat 0) with 1 in Hlt; lia).
    pose proof (ltoa_digits_length radix fuel k (l / radix) (ll / radix) ltac:(lia) Hlt ltac:(lia)).
    rewrite (IH k) by (unfold tmp1; rewrite ?length_insert; lia).
    cbv zeta. rewrite length_app. simpl length.
    rewrite Hd1. rewrite Ht1 by lia. rewrite <- app_assoc. simpl app.
    f_equal. f_equal; [|lia]. f_equal. f_equal. lia.
Qed.

Lemma ltoa_copy_spec i : forall tmp p q,
  0 <= p <= q -> q + Z.of_nat i <= Z.of_nat (length tmp) ->
  exists tmp', ltoa_copy i tmp p q = Some (tmp', p + Z.of_nat i) /\
    length tmp' = length tmp /\
    take (Z.to_nat p + i) tmp' = take (Z.to_nat p) tmp ++ take i (drop (Z.to_nat q) tmp).
Proof.
  induction i as [|i IH]; intros tmp p q Hp Hq.
  - exists tmp. simpl. rewrite Z.add_0_r, Nat.add_0_r, app_nil_r. auto.
  - simpl. destruct (rd_defined tmp q) as [b Hb]; [lia|]. rewrite Hb. simpl.
    rewrite wr_defined by lia. simpl.
    destruct (IH (<[Z.to_nat p := b]> tmp) (p + 1) (q + 1)) as (tmp' & -> & Hl & Ht);
      [lia | rewrite length_insert; lia |].
    exists tmp'. split; [f_equal; f_equal; lia|]. split; [rewrite Hl; apply length_insert|].
    replace (Z.to_nat p + S i)%nat with (Z.to_nat (p + 1) + i)%nat by lia. rewrite Ht.
    replace (Z.to_nat (p + 1)) with (S (Z.to_nat p)) by lia.
    rewrite (take_S_r _ _ b) by (apply list_lookup_insert_eq; lia).
    rewrite take_insert_ge by lia. rewrite <- app_assoc. simpl. f_equal.
    rewrite drop_insert_lt by lia.
    unfold rd in Hb. rewrite (proj2 (Z.leb_le 0 q)) in Hb by lia.
    rewrite (drop_S tmp b (Z.to_nat q)) by exact Hb. simpl. do 3 f_equal. lia.
Qed.

(** Bytes that can stand in a terminated string. *)
Definition text_bytes : list Z -> Prop := Forall (fun b => 0 < b < 256).

Lemma ltoa_digits_text fuel l ll radix : 1 < radix <= 16 -> text_bytes (ltoa_digits fuel l ll radix).
Proof.
  intros Hr. apply ltoa_digits_Forall. intros x. pose proof (radix_digit_byte radix x Hr). lia.
Qed.

Lemma sign_text_bytes neg sign : text_bytes (if neg : bool then [45] else if sign : bool then [43] else []).
Proof. destruct neg, sign; repeat constructor; lia. Qed.

(** The digits appended at [p], when there is room for the scratch area. *)
Lemma long_to_string_spec k tmp p num radix divisor :
  1 < radix <= 16 -> 0 <= p -> p + 11 <= Z.of_nat (length tmp) ->
  let ll := u32 (if divisor =? 0 then num else divisor) in
  ll < radix ^ Z.of_nat k -> (1 <= k <= 11)%nat ->
  let ds := ltoa_digits 32 (u32 num) ll radix in
  exists tmp', long_to_string_with_divisor tmp p num radix divisor
               = Some (tmp', p + Z.of_nat (length ds)) /\
    length tmp' = length tmp /\ (1 <= length ds <= k)%nat /\
    take (Z.to_nat p + length ds) tmp' = take (Z.to_nat p) tmp ++ ds.
Proof.
  intros Hr Hp Hroom ll Hll Hk ds.
  assert (Hll0 : 0 <= ll) by apply u32_range.
  pose proof (ltoa_digits_length radix 32 k (u32 num) ll ltac:(lia) ltac:(lia) ltac:(lia)) as Hlen.
  fold ds in Hlen. unfold long_to_string_with_divisor, MAX_FILLER. fold ll.
  rewrite (ltoa_fill_spec radix 32 k) by lia. fold ds. cbn [mbind option_bind].
  set (q := p + 11 - Z.of_nat (length ds)).
  replace (Z.to_nat (p + 11 - q)) with (length ds) by lia.
  set (tmp1 := take (Z.to_nat q) tmp ++ ds ++ drop (Z.to_nat (p + 11)) tmp).
  assert (Hl1 : length tmp1 = length tmp).
  { unfold tmp1. rewrite !length_app, length_take, length_drop. lia. }
  destruct (ltoa_copy_spec (length ds) tmp1 p q) as (tmp' & -> & Hl & Ht); [lia|lia|].
  exists tmp'. split_and!; [reflexivity | lia | lia | lia |].
  rewrite Ht. unfold tmp1.
  rewrite take_app_le by (rewrite length_take; lia). rewrite take_take.
  replace (Nat.min (Z.to_nat p) (Z.to_nat q)) with (Z.to_nat p) by lia. f_equal.
  rewrite drop_app_ge by (rewrite length_take; lia).
  rewrite length_take. replace (Z.to_nat q - Nat.min (Z.to_nat q) (length tmp))%nat with O by lia.
  rewrite drop_0, take_app_length. reflexivity.
Qed.

(** ** Conversions *)

Definition sign_text (neg sign : bool) : list Z :=
  if neg then [45] else if sign then [43] else [].

Definition signed_text (sign : bool) (z : Z) : list Z :=
  let l := i32 z in
  sign_text (l <? 0) sign ++ ltoa_digits 32 (Z.abs l) (Z.abs l) 10.

Lemma put_sign_spec neg sign :
  exists tmp, put_sign tmpbuf0 neg sign = Some (tmp, Z.of_nat (length (sign_text neg sign))) /\
    length tmp = 23%nat /\ take (length (sign_text neg sign)) tmp = sign_text neg sign /\
    (length (sign_text neg sign) <= 1)%nat.
Proof. destruct neg, sign; eexists; split_and!; try reflexivity; simpl; lia. Qed.

(** [%d] can print the argument: it is not the least [long]. *)
Definition printable (z : Z) : Prop := i32 z <> -2147483648.

Lemma printable_range z : -2147483648 < z < 2147483648 -> printable z.
Proof. intros Hz. unfold printable. rewrite i32_id; lia. Qed.

Lemma abs_long z :
  printable z -> (if i32 z <? 0 then neg_long (i32 z) else Some (i32 z)) = Some (Z.abs (i32 z)).
Proof.
  unfold printable. intros Hz. pose proof (i32_range z). unfold neg_long.
  destruct (Z.ltb_spec (i32 z) 0); [|f_equal; lia].
  rewrite check_true; [cbn; f_equal; lia|]. apply in_s_spec. simpl Z.pow. lia.
Qed.

(** The least [long] cannot be printed: its negation overflows. *)
Lemma convert_signed_least sp z : ~ printable z -> convert_signed sp z = None.
Proof.
  intros Hz. assert (E : i32 z = -2147483648) by (unfold printable in Hz; lia).
  unfold convert_signed. rewrite E. destruct (do_sign sp); reflexivity.
Qed.

Lemma convert_signed_spec sp z :
  printable z ->
  convert_signed sp z = Some (signed_text (do_sign sp) z) /\
  (1 <= length (signed_text (do_sign sp) z) <= 11)%nat.
Proof.
  intros Hz. unfold convert_signed, signed_text. cbv zeta. rewrite (abs_long z Hz).
  destruct (put_sign_spec (i32 z <? 0) (do_sign sp)) as (tmp & -> & Hl & Ht & Hs).
  set (sg := sign_text (i32 z <? 0) (do_sign sp)) in *. cbn [mbind option_bind].
  unfold ch_ltoa. pose proof (i32_range z).
  assert (Hu : u32 (Z.abs (i32 z)) = Z.abs (i32 z)) by (apply u32_id; lia).
  edestruct (long_to_string_spec 10 tmp (Z.of_nat (length sg))
    (Z.abs (i32 z)) 10 0) as (tmp' & Hr & _ & Hd & Ht');
    [lia | lia | lia | rewrite Z.eqb_refl, Hu; change (10 ^ Z.of_nat 10) with 10000000000; lia | lia |].
  rewrite Z.eqb_refl, Hu in *. rewrite Hr. cbn [mbind option_bind].
  rewrite Nat2Z.id in Ht'. rewrite <- Nat2Z.inj_add, Nat2Z.id, Ht', Ht.
  split; [reflexivity|]. rewrite length_app. lia.
Qed.

Lemma convert_unsigned_spec radix z :
  8 <= radix <= 16 ->
  convert_unsigned radix z = Some (ltoa_digits 32 (u32 z) (u32 z) radix) /\
  (1 <= length (ltoa_digits 32 (u32 z) (u32 z) radix) <= 11)%nat.
Proof.
  intros Hr. unfold convert_unsigned, ch_ltoa.
  assert (Hu : u32 (i32 z) = u32 z) by (apply wrapu_wraps; lia).
  edestruct (long_to_string_spec 11 tmpbuf0 0 (i32 z) radix 0) as (tmp' & Hs & _ & Hd & Ht');
    [lia | lia | unfold tmpbuf0; rewrite length_replicate; lia | | lia |].
  { rewrite Z.eqb_refl, Hu. pose proof (u32_range z).
    assert (8 ^ 11 <= radix ^ 11) by (apply Z.pow_le_mono_l; lia).
    change (8 ^ 11) with 8589934592 in *. change (Z.of_nat 11) with 11. lia. }
  rewrite Z.eqb_refl, Hu in *. rewrite Hs. cbn [mbind option_bind].
  change (Z.to_nat 0) with O in Ht'. rewrite Nat.add_0_l in Ht'. rewrite take_0, app_nil_l in Ht'.
  rewrite Z.add_0_l, Nat2Z.id, Ht'. split; [reflexivity | lia].
Qed.

Lemma pow10_spec precision :
  1 <= precision <= 9 ->
  exists v, rd pow10 (precision - 1) = Some v /\ 10 <= v <= 1000000000.
Proof.
  intros H. assert (H' : exists n, (n < 9)%nat /\ precision = Z.of_nat n + 1)
    by (exists (Z.to_nat (precision - 1)); lia).
  destruct H' as (n & Hn & ->). do 9 (destruct n as [|n]; [eexists; split; [reflexivity|lia]|]). lia.
Qed.

Lemma ftoa_spec tmp p num precision :
  0 <= p <= 1 -> length tmp = 23%nat -> 0 <= precision -> fle 16777215 7 num ->
  exists tmp' text, ftoa tmp p num precision = Some (tmp', p + Z.of_nat (length text)) /\
    length tmp' = 23%nat /\ (3 <= length text <= 20)%nat /\ text_bytes text /\
    take (Z.to_nat p + length text) tmp' = take (Z.to_nat p) tmp ++ text.
Proof.
  intros Hp Hlen Hprec Hnum. unfold ftoa, FLOAT_PRECISION.
  set (pr := if _ || _ then 9 else precision).
  destruct (pow10_spec pr) as (v & -> & Hv); [unfold pr; case_bool; [lia|]; bools; lia|].
  cbn [mbind option_bind].
  assert (Hn0 : fle 2147483520 0 num).
  { apply (fle_le 0 16777215 7); [lia | lia | easy | exact Hnum]. }
  destruct (f_to_s_fle 32 2147483520 num) as (l & Hl & Hlb); [easy | exact Hn0|].
  rewrite Hl. cbn [mbind option_bind].
  edestruct (long_to_string_spec 10 tmp p l 10 0) as (tmp1 & -> & Hl1 & Hd1 & Ht1);
    [lia | lia | lia | rewrite Z.eqb_refl; pose proof (u32_range l); change (10 ^ Z.of_nat 10) with 10000000000; lia | lia |].
  set (ds1 := ltoa_digits 32 (u32 l) _ 10) in *.
  cbn [mbind option_bind]. rewrite wr_defined by lia. cbn [mbind option_bind].
  set (tmp2 := <[_ := 46]> tmp1).
  assert (Hl2 : length tmp2 = 23%nat) by (unfold tmp2; rewrite length_insert; lia).
  destruct (f_to_s_fle 32 1000000000 (d_mul (d_sub num (d_of_Z l)) (d_of_Z v))) as (l' & -> & _).
  { easy. }
  { apply (d_mul_fle 1 0 1000000000 0); try lia.
    - apply d_sub_trunc_fle; [|lia].
      unfold f_to_s in Hl. inv_bind. case_bool_in Hl; [congruence | discriminate].
    - apply d_of_Z_fle; lia. }
  cbn [mbind option_bind].
  assert (Hvd : 1 <= v / 10 <= 100000000) by zlia.
  edestruct (long_to_string_spec 9 tmp2 (p + Z.of_nat (length ds1) + 1) l' 10 (v / 10))
    as (tmp3 & -> & Hl3 & Hd3 & Ht3); [lia | lia | lia | | lia |].
  { rewrite (proj2 (Z.eqb_neq (v / 10) 0)) by lia. rewrite u32_id by lia.
    change (10 ^ Z.of_nat 9) with 1000000000. lia. }
  set (ds3 := ltoa_digits 32 (u32 l') _ 10) in *.
  exists tmp3, (ds1 ++ [46] ++ ds3). rewrite !length_app. simpl length.
  split_and!; [do 2 f_equal; lia | lia | lia | lia | |].
  - apply Forall_app. split; [apply ltoa_digits_text; lia|].
    constructor; [lia | apply ltoa_digits_text; lia].
  - replace (Z.to_nat p + (length ds1 + (1 + length ds3)))%nat
      with (Z.to_nat (p + Z.of_nat (length ds1) + 1) + length ds3)%nat by lia.
    rewrite Ht3. unfold tmp2.
    replace (Z.to_nat (p + Z.of_nat (length ds1) + 1)) with (S (Z.to_nat p + length ds1)) by lia.
    replace (Z.to_nat (p + Z.of_nat (length ds1))) with (Z.to_nat p + length ds1)%nat by lia.
    rewrite (take_S_r _ _ 46) by (apply list_lookup_insert_eq; lia).
    rewrite take_insert_ge by lia. rewrite Ht1, <- !app_assoc. reflexivity.
Qed.

Lemma convert_float_spec sp x :
  fle 16777215 7 x -> 0 <= sp_precision sp ->
  exists t, convert_float sp x = Some t /\ (3 <= length t <= 21)%nat /\ text_bytes t.
Proof.
  intros Hx Hp. unfold convert_float. cbv zeta.
  assert (Hf : fle 16777215 7 (s_of_d x)) by (apply s_of_d_fle; [exact Hx | lia | lia]).
  set (f := s_of_d x) in *. set (neg := f_ltb f (s_of_Z 0)).
  destruct (put_sign_spec neg (do_sign sp)) as (tmp & -> & Hl & Ht & Hs).
  cbn [mbind option_bind].
  destruct (ftoa_spec tmp (Z.of_nat (length (sign_text neg (do_sign sp))))
              (d_of_s (if neg then f_opp f else f)) (u32 (sp_precision sp)))
    as (tmp' & text & -> & Hl' & Hn & Hb & Ht'); [lia | exact Hl | apply u32_range | |].
  { apply d_of_s_fle; [|lia|lia]. destruct neg; [apply fle_opp|]; exact Hf. }
  cbn [mbind option_bind]. eexists. split; [reflexivity|]. rewrite length_take. split; [lia|].
  rewrite Nat2Z.id in Ht'. rewrite <- Nat2Z.inj_add, Nat2Z.id, Ht', Ht.
  apply Forall_app. split; [apply sign_text_bytes | exact Hb].
Qed.

Lemma str_scan_spec mem : forall s precision,
  cstr mem = Some s -> 0 <= precision ->
  str_scan mem precision = Some (take (Z.to_nat precision) s).
Proof.
  induction mem as [|b mem IH]; intros s precision Hs Hp; simpl in *; [discriminate|].
  destruct (Z.eqb_spec b 0); [injection Hs as <-; rewrite take_nil; reflexivity|].
  inv_bind. subst s. case_bool.
  - rewrite (IH x) by (auto; lia). simpl.
    replace (Z.to_nat precision) with (S (Z.to_nat (precision - 1))) by lia. reflexivity.
  - replace (Z.to_nat precision) with O by lia. reflexivity.
Qed.

(** The next argument is one the conversion can take: a terminated string (or
    the null pointer), a [double] below 2^31 in magnitude, an integer, for [%d]
    other than the least. *)
Definition va_ok (k : conv_kind) (a : va) : Prop :=
  match k, a with
  | CvStr, VStr (Some mem) => is_Some (cstr mem)
  | CvStr, VStr None => True
  | CvFloat, VDouble x => fle 16777215 7 x
  | CvSigned, VInt z => printable z
  | CvChar, VInt _ | CvUnsigned _, VInt _ => True
  | _, _ => False
  end.

Lemma conv_of_radix c radix : conv_of c = CvUnsigned radix -> 8 <= radix <= 16.
Proof. unfold conv_of. case_bools; intros H; try discriminate; injection H as <-; lia. Qed.

Definition conv_text_ok (k : conv_kind) (text : list Z) : Prop :=
  match k with CvStr => True | _ => (1 <= length text <= 21)%nat end.

Lemma convert_fits sp a args :
  va_ok (conv_of (sp_conv sp)) a -> 0 <= sp_precision sp ->
  exists text filler, convert sp (a :: args) = Some (text, filler, args) /\
    conv_text_ok (conv_of (sp_conv sp)) text.
Proof.
  intros Ha Hp. unfold convert.
  destruct (conv_of (sp_conv sp)) as [| | | |radix|] eqn:Ek; destruct a as [z|x|m];
    simpl in Ha; try contradiction; cbn [va_int va_double va_str mbind option_bind].
  - do 2 eexists. split; [reflexivity|]. simpl. lia.
  - assert (Hs : exists s, cstr (match m with Some mem => mem | None => bytes "(null)" ++ [0] end)
                           = Some s).
    { destruct m; [exact Ha|]. eexists. reflexivity. }
    destruct Hs as [s Hs]. erewrite str_scan_spec; [|exact Hs|case_bool; lia].
    do 2 eexists. split; reflexivity || exact I.
  - destruct (convert_signed_spec sp z Ha) as [-> Hl]. do 2 eexists. split; [reflexivity|].
    unfold conv_text_ok; lia.
  - destruct (convert_float_spec sp x Ha Hp) as (t & -> & Hl & _). do 2 eexists.
    split; [reflexivity|]. unfold conv_text_ok; lia.
  - destruct (convert_unsigned_spec radix z) as [-> Hl]; [eapply conv_of_radix; eauto|].
    do 2 eexists. split; [reflexivity|]. unfold conv_text_ok; lia.
Qed.

(** ** Output through any stream *)

(** The padded text of a directive. *)
Definition emit_text (sp : ch_spec) (filler : Z) (text : list Z) : list Z :=
  let pad := replicate (Z.to_nat (Z.max 0 (sp_width sp - Z.of_nat (length text)))) filler in
  if left_align sp then text ++ pad
  else match text with
       | b :: text' =>
           if ((b =? 45) || (b =? 43)) && (filler =? 48) && negb (bool_decide (pad = []))
           then b :: pad ++ text' else pad ++ text
       | [] => pad
       end.

(** The whole output of a format, stream and counter apart. *)
Fixpoint format_text (fuel : nat) (fmt : list Z) (args : list va) : option (list Z) :=
  match fuel with
  | O => None
  | S fuel' =>
      '(c, fmt) ← next_char fmt;
      if c =? 0 then Some []
      else if negb (c =? 37) then out ← format_text fuel' fmt args; Some (u8 c :: out)
      else
        r ← parse_spec fmt args;
        match r with
        | PEnd => Some []
        | PSpec sp fmt args =>
            '(text, filler, args) ← convert sp args;
            out ← format_text fuel' fmt args;
            Some ((wrapu 8 <$> emit_text sp filler text) ++ out)
        end
  end.

(** One step of [format_text]. *)
Lemma format_text_char fuel c fmt args :
  c <> 0 -> c <> 37 ->
  format_text (S fuel) (c :: fmt) args = (out ← format_text fuel fmt args; Some (u8 c :: out)).
Proof.
  intros H0 H37. simpl. rewrite !(proj2 (Z.eqb_neq c _)) by assumption. reflexivity.
Qed.

Lemma format_text_dir fuel fmt args sp fmt' args' text filler args'' :
  parse_spec fmt args = Some (PSpec sp fmt' args') ->
  convert sp args' = Some (text, filler, args'') ->
  format_text (S fuel) (37 :: fmt) args
  = (out ← format_text fuel fmt' args'';
     Some ((wrapu 8 <$> emit_text sp filler text) ++ out)).
Proof. intros Hp Hc. simpl. rewrite Hp. cbn [mbind option_bind]. rewrite Hc. reflexivity. Qed.

Lemma format_text_dir_none fuel fmt args sp fmt' args' :
  parse_spec fmt args = Some (PSpec sp fmt' args') -> convert sp args' = None ->
  format_text (S fuel) (37 :: fmt) args = None.
Proof. intros Hp Hc. simpl. rewrite Hp. cbn [mbind option_bind]. rewrite Hc. reflexivity. Qed.

(** Text at least as wide as the field is not padded. *)
Lemma emit_text_nopad sp filler text :
  sp_width sp <= Z.of_nat (length text) -> emit_text sp filler text = text.
Proof.
  intros Hw. unfold emit_text. replace (Z.to_nat _) with O by lia. simpl replicate.
  destruct (left_align sp); [apply app_nil_r|]. destruct text as [|b text]; [reflexivity|].
  cbn. rewrite andb_false_r. reflexivity.
Qed.

Section StreamOutput.
Context {S : Type} `{SeqStream S}.

(** Putting [bs] on a stream whose counter is [n]. *)
Definition put_all (st : S) (n : Z) (bs : list Z) : option (S * Z) :=
  st ← stream_puts st bs; Some (st, i32 (n + Z.of_nat (length bs))).

Lemma put_all_nil st n : put_all st n [] = Some (st, i32 n).
Proof. unfold put_all. simpl. do 3 f_equal. lia. Qed.

Lemma put_all_app st n xs ys :
  put_all st n (xs ++ ys) = ('(st, n) ← put_all st n xs; put_all st n ys).
Proof.
  unfold put_all. rewrite stream_puts_app.
  destruct (stream_puts st xs) as [st'|]; simpl; [|reflexivity].
  destruct (stream_puts st' ys) as [st''|]; simpl; [|reflexivity].
  rewrite wraps_add_l by lia. rewrite length_app. do 3 f_equal. lia.
Qed.

Lemma put_all_i32 st n bs : put_all st (i32 n) bs = put_all st n bs.
Proof. unfold put_all. rewrite wraps_add_l by lia. reflexivity. Qed.

Lemma put_all_counter st n bs st' n' : put_all st n bs = Some (st', n') -> n' = i32 n'.
Proof.
  unfold put_all. destruct (stream_puts st bs); [|discriminate].
  intros [= _ <-]. symmetry. apply wraps_idem. lia.
Qed.

Lemma put_count_all st n b : put_count st n b = put_all st n [u8 b].
Proof.
  unfold put_count, put_all. simpl. destruct (streamPut st (u8 b)) as [[st' m]|]; reflexivity.
Qed.

Lemma puts_count_all bs : forall st n,
  puts_count st (i32 n) bs = put_all st n (wrapu 8 <$> bs).
Proof.
  induction bs as [|b bs IH]; intros st n; [rewrite put_all_nil; reflexivity|].
  simpl puts_count. rewrite put_count_all, put_all_i32.
  change (wrapu 8 <$> b :: bs) with ([u8 b] ++ (wrapu 8 <$> bs)). rewrite put_all_app.
  unfold put_all at 1 3. destruct (stream_puts st [u8 b]) as [st'|]; simpl; [|reflexivity].
  rewrite IH, put_all_i32. reflexivity.
Qed.

(** Puts one after the other, with the counter of the first. *)
Lemma puts_count_app xs ys st n :
  ('(st, n) ← puts_count st (i32 n) xs; puts_count st n ys)
  = put_all st n (wrapu 8 <$> (xs ++ ys)).
Proof.
  rewrite puts_count_all, fmap_app, put_all_app. unfold put_all at 1 3.
  destruct (stream_puts st _) as [st'|]; simpl; [|reflexivity].
  rewrite puts_count_all, put_all_i32. reflexivity.
Qed.

Lemma emit_all st n sp filler text :
  emit st (i32 n) sp filler text = put_all st n (wrapu 8 <$> emit_text sp filler text).
Proof.
  unfold emit, emit_text. cbv zeta.
  set (w := sp_width sp - Z.of_nat (length text)).
  replace (if w <? 0 then 0 else w) with (Z.max 0 w) by (case_bool; lia).
  destruct (left_align sp).
  - rewrite (proj2 (Z.ltb_ge _ 0)) by lia. cbn [mbind option_bind].
    rewrite (puts_count_app text). reflexivity.
  - destruct (Z.ltb_spec (- Z.max 0 w) 0) as [Hw|Hw].
    + rewrite Z.opp_involutive. set (pad := replicate _ filler).
      assert (Hpad : bool_decide (pad = []) = false).
      { apply bool_decide_eq_false. unfold pad. destruct (Z.to_nat _) eqn:E; [lia|discriminate]. }
      rewrite Hpad.
      change (replicate (Z.to_nat 0) filler) with (@nil Z).
      destruct text as [|b text'].
      * cbn [mbind option_bind]. rewrite puts_count_all. unfold put_all.
        destruct (stream_puts st _); reflexivity.
      * cbn [negb]. rewrite andb_true_r. destruct (_ && _).
        -- rewrite put_count_all, put_all_i32.
           change (wrapu 8 <$> b :: pad ++ text') with ([u8 b] ++ (wrapu 8 <$> pad ++ text')).
           rewrite put_all_app.
           destruct (put_all st n [u8 b]) as [[st' n1]|] eqn:E1; [|reflexivity].
           cbn [mbind option_bind]. rewrite <- puts_count_app.
           rewrite <- (put_all_counter _ _ _ _ _ E1).
           destruct (puts_count st' n1 pad) as [[st'' n']|]; [|reflexivity].
           cbn [mbind option_bind].
           destruct (puts_count st'' n' text') as [[? ?]|]; reflexivity.
        -- cbn [mbind option_bind]. rewrite <- puts_count_app.
           destruct (puts_count st _ pad) as [[st'' n']|]; [|reflexivity].
           cbn [mbind option_bind].
           destruct (puts_count st'' n' _) as [[? ?]|]; reflexivity.
    + replace (Z.max 0 w) with 0 by lia. simpl replicate. cbn [mbind option_bind].
      rewrite (puts_count_app text []), app_nil_r.
      destruct text as [|b text']; [reflexivity|].
      cbn. rewrite andb_false_r. reflexivity.
Qed.

(** Putting [bs] and going on with a loop that puts a text. *)
Lemma run_then st n bs (k : S -> list Z -> list va -> Z -> option (S * Z)) fuel fmt args :
  (forall st fmt args n,
     k st fmt args (i32 n) = (out ← format_text fuel fmt args; put_all st n out)) ->
  ('(st, n) ← put_all st n bs; k st fmt args n)
  = (out ← format_text fuel fmt args; put_all st n (bs ++ out)).
Proof.
  intros Hk. destruct (put_all st n bs) as [[st' n1]|] eqn:E1; cbn [mbind option_bind].
  - rewrite (put_all_counter _ _ _ _ _ E1), Hk.
    destruct (format_text fuel fmt args) as [out|]; [|reflexivity].
    cbn [mbind option_bind]. rewrite put_all_app, E1. reflexivity.
  - destruct (format_text fuel fmt args) as [out|]; [|reflexivity].
    cbn [mbind option_bind]. rewrite put_all_app, E1. reflexivity.
Qed.

(** The loop puts the text of the format, whatever the stream is. *)
Lemma chvprintf_loop_text fuel : forall st fmt args n,
  chvprintf_loop fuel st fmt args (i32 n) = (out ← format_text fuel fmt args; put_all st n out).
Proof.
  induction fuel as [|fuel IH]; intros st fmt args n; [reflexivity|]. simpl.
  destruct (next_char fmt) as [[c fmt']|]; [|reflexivity]. simpl.
  destruct (c =? 0); [simpl; rewrite put_all_nil; reflexivity|].
  destruct (negb (c =? 37)).
  - rewrite put_count_all, put_all_i32.
    rewrite (run_then st n [u8 c] _ fuel fmt' args IH).
    destruct (format_text fuel fmt' args); reflexivity.
  - destruct (parse_spec fmt' args) as [[|sp fmt2 args2]|]; simpl;
      [rewrite put_all_nil; reflexivity| |reflexivity].
    destruct (convert sp args2) as [[[text filler] args3]|]; [|reflexivity]. simpl.
    rewrite emit_all, (run_then st n _ _ fuel fmt2 args3 IH).
    destruct (format_text fuel fmt2 args3); reflexivity.
Qed.

Lemma chvprintf_text st fmt args :
  chvprintf st fmt args = (out ← format_text (length fmt) fmt args; put_all st 0 out).
Proof. unfold chvprintf. change 0 with (i32 0) at 1. apply chvprintf_loop_text. Qed.

End StreamOutput.

Lemma chvprintf_list fmt args :
  chvprintf [] fmt args
  = (out ← format_text (length fmt) fmt args; Some (out, i32 (Z.of_nat (length out)))).
Proof.
  rewrite chvprintf_text. destruct (format_text _ fmt args) as [out|]; [|reflexivity].
  simpl. unfold put_all. rewrite list_stream_puts. reflexivity.
Qed.

(** [chvprintf] does the same thing on every stream: it puts the bytes it
    would append to a list, in that order, through [streamPut] alone, and returns
    their number, whether or not the stream took them.  When it is undefined on
    the list it is undefined on every stream. *)
Theorem chvprintf_any_stream {S} `{SeqStream S} (st : S) (fmt : list Z) (args : list va) :
  chvprintf st fmt args
  = ('(out, n) ← chvprintf [] fmt args; st' ← stream_puts st out; Some (st', n)) /\
  (forall out n, chvprintf [] fmt args = Some (out, n) -> n = i32 (Z.of_nat (length out))).
Proof.
  rewrite chvprintf_list, chvprintf_text.
  destruct (format_text (length fmt) fmt args) as [out|]; [|split; [reflexivity|discriminate]].
  split; [reflexivity|]. intros out' n [= <- <-]. reflexivity.
Qed.

Lemma chvprintf_any_stream_witness :
  chvprintf MkNullStream (fmt_of "%d") [VInt 7]
  = ('(out, n) ← chvprintf [] (fmt_of "%d") [VInt 7];
     st' ← stream_puts MkNullStream out; Some (st', n)) /\
  (forall out n, chvprintf [] (fmt_of "%d") [VInt 7] = Some (out, n) ->
                 n = i32 (Z.of_nat (length out))).
Proof. apply (chvprintf_any_stream MkNullStream (fmt_of "%d") [VInt 7]). Defined.

(** ** Fuel *)

Lemma skip_char_length c fmt b fmt' :
  skip_char c fmt = Some (b, fmt') -> (length fmt' <= length fmt)%nat.
Proof.
  unfold skip_char. destruct fmt as [|x fmt]; [discriminate|]. simpl.
  case_bool; intros [= <- <-]; simpl; lia.
Qed.

Lemma next_char_length fmt c fmt' :
  next_char fmt = Some (c, fmt') -> (length fmt' < length fmt)%nat.
Proof. destruct fmt as [|x fmt]; [discriminate|]. intros [= <- <-]. simpl. lia. Qed.

Lemma parse_width_length fmt : forall w w' c fmt',
  parse_width fmt w = Some (Some (w', c, fmt')) -> (length fmt' < length fmt)%nat.
Proof.
  induction fmt as [|x fmt IH]; intros w w' c fmt' H; simpl in H; [discriminate|].
  simpl. repeat case_bool_in H; try discriminate; [apply IH in H; lia|].
  injection H as <- <- <-. lia.
Qed.

Lemma parse_precision_length fmt : forall x p p' c fmt',
  parse_precision x fmt p = Some (Some (p', c, fmt')) -> (length fmt' <= length fmt)%nat.
Proof.
  induction fmt as [|y fmt IH]; intros x p p' c fmt' H; simpl in H; repeat case_bool_in H;
    try discriminate; try (injection H as <- <- <-; lia).
  apply IH in H. simpl. lia.
Qed.

Lemma parse_long_length a b f w p c fmt args sp fmt' args' :
  parse_long a b f w p c fmt args = Some (PSpec sp fmt' args') -> (length fmt' <= length fmt)%nat.
Proof.
  unfold parse_long. intros H. case_bool_in H; [|injection H as <- <- <-; lia].
  destruct (next_char fmt) as [[c' fmt2]|] eqn:En; [|discriminate].
  apply next_char_length in En. simpl in H. case_bool_in H; [discriminate|].
  injection H as <- <- <-. lia.
Qed.

Lemma parse_dot_length a b f w c fmt args sp fmt' args' :
  parse_dot a b f w c fmt args = Some (PSpec sp fmt' args') -> (length fmt' <= length fmt)%nat.
Proof.
  unfold parse_dot. intros H. case_bool_in H; [|eapply parse_long_length, H].
  destruct (next_char fmt) as [[c' fmt2]|] eqn:En; [|discriminate].
  apply next_char_length in En. simpl in H. case_bool_in H; [discriminate|]. case_bool_in H.
  - destruct (va_int args) as [[z args2]|]; [|discriminate]. simpl in H.
    destruct (next_char fmt2) as [[c2 fmt3]|] eqn:En2; [|discriminate].
    apply next_char_length in En2. apply parse_long_length in H. lia.
  - destruct (parse_precision c' fmt2 0) as [[[[p c2] fmt3]|]|] eqn:Ep; try discriminate.
    apply parse_precision_length in Ep. apply parse_long_length in H. lia.
Qed.

Lemma parse_spec_length fmt args sp fmt' args' :
  parse_spec fmt args = Some (PSpec sp fmt' args') -> (length fmt' <= length fmt)%nat.
Proof.
  unfold parse_spec. intros H.
  destruct (skip_char 45 fmt) as [[a f1]|] eqn:E1; [|discriminate]. cbn [mbind option_bind] in H.
  destruct (skip_char 43 f1) as [[b f2]|] eqn:E2; [|discriminate]. cbn [mbind option_bind] in H.
  destruct (skip_char 48 f2) as [[z f3]|] eqn:E3; [|discriminate]. cbn [mbind option_bind] in H.
  apply skip_char_length in E1, E2, E3.
  destruct (head f3) as [c|] eqn:Eh; [|discriminate]. cbn [mbind option_bind] in H.
  case_bool_in H.
  - destruct (va_int args) as [[w args2]|]; [|discriminate]. cbn [mbind option_bind] in H.
    destruct (next_char (tail f3)) as [[c2 f4]|] eqn:En; [|discriminate].
    apply next_char_length in En. apply parse_dot_length in H.
    destruct f3; simpl in *; lia.
  - destruct (parse_width f3 0) as [[[[w c2] f4]|]|] eqn:Ew; try discriminate.
    apply parse_width_length in Ew. apply parse_dot_length in H. lia.
Qed.

Lemma format_text_fuel f1 : forall f2 fmt args,
  (length fmt <= f1)%nat -> (length fmt <= f2)%nat ->
  format_text f1 fmt args = format_text f2 fmt args.
Proof.
  induction f1 as [|f1 IH]; intros [|f2] fmt args H1 H2; try reflexivity.
  1,2: destruct fmt; [reflexivity | simpl in *; lia].
  simpl. destruct (next_char fmt) as [[c fmt']|] eqn:En; [|reflexivity].
  apply next_char_length in En. cbn [mbind option_bind]. case_bool; [reflexivity|].
  case_bool; [rewrite (IH f2) by lia; reflexivity|].
  destruct (parse_spec fmt' args) as [[|sp fmt2 args2]|] eqn:Ep; try reflexivity.
  apply parse_spec_length in Ep. cbn [mbind option_bind].
  destruct (convert sp args2) as [[[t fl] args3]|]; [|reflexivity].
  cbn [mbind option_bind]. rewrite (IH f2) by lia. reflexivity.
Qed.

(** The fuel of the character loop never runs out: any larger fuel gives the
    same result, on every stream, format and argument list. *)
Theorem chvprintf_fuel_enough {S} `{SeqStream S} (fuel : nat) (st : S) (fmt : list Z)
    (args : list va) :
  (length fmt <= fuel)%nat -> chvprintf_loop fuel st fmt args 0 = chvprintf st fmt args.
Proof.
  intros Hf. rewrite chvprintf_text. change 0 with (i32 0) at 1.
  rewrite chvprintf_loop_text, (format_text_fuel fuel (length fmt)) by lia. reflexivity.
Qed.

Lemma chvprintf_fuel_enough_witness :
  chvprintf_loop 99 MkNullStream (fmt_of "%u") [VInt 7] 0
  = chvprintf MkNullStream (fmt_of "%u") [VInt 7].
Proof. apply chvprintf_fuel_enough. vm_compute. lia. Defined.

(** ** [chvsnprintf] *)

Lemma format_text_bytes fuel : forall fmt args out,
  format_text fuel fmt args = Some out -> Forall (fun b => 0 <= b < 256) out.
Proof.
  induction fuel as [|fuel IH]; intros fmt args out H; [discriminate|]. simpl in H.
  destruct (next_char fmt) as [[c fmt']|]; [|discriminate]. cbn [mbind option_bind] in H.
  case_bool_in H; [injection H as <-; constructor|].
  case_bool_in H.
  - inv_bind. subst. constructor; [apply u8_range | eapply IH; eauto].
  - destruct (parse_spec fmt' args) as [[|sp fmt2 args2]|]; try discriminate;
      [injection H as <-; constructor|].
    cbn [mbind option_bind] in H.
    destruct (convert sp args2) as [[[t fl] args3]|]; [|discriminate].
    cbn [mbind option_bind] in H. inv_bind. subst. apply Forall_app. split; [|eapply IH; eauto].
    apply Forall_fmap, Forall_true. intros b. apply u8_range.
Qed.

Lemma chvsnprintf_spec str size fmt args out :
  0 <= size <= Z.of_nat (length str) -> size < 2147483648 ->
  format_text (length fmt) fmt args = Some out ->
  let kept := take (Z.to_nat (size - 1)) out in
  chvsnprintf str size fmt args
  = Some (if 0 <? size then kept ++ 0 :: drop (S (length kept)) str else str,
          i32 (Z.of_nat (length out))).
Proof.
  intros Hs Hmax Ht kept. unfold chvsnprintf. rewrite chvprintf_text, Ht.
  cbn [mbind option_bind]. unfold put_all, msObjectInit.
  set (m := MkMemoryStream str (if 0 <? size then size - 1 else 0) 0 0).
  assert (Hm : ms_ok m) by (unfold ms_ok, m; simpl; case_bool; lia).
  destruct (ms_puts_spec out m Hm (format_text_bytes _ _ _ _ Ht))
    as (m' & Hp & _ & _ & _ & He & Hb).
  rewrite Hp. cbn [mbind option_bind]. rewrite He, Hb.
  simpl ms_size. simpl ms_eos. simpl ms_buffer. change (Z.to_nat 0) with O.
  rewrite take_0, app_nil_l, Z.sub_0_r, Z.add_0_l, Nat.add_0_l.
  destruct (Z.ltb_spec 0 size) as [Hpos|Hz].
  - unfold kept. rewrite length_take.
    set (n := Nat.min (Z.to_nat (size - 1)) (length out)).
    rewrite (proj2 (Z.ltb_lt _ _)) by lia.
    rewrite wr_defined by (rewrite length_app, length_take, length_drop; lia).
    cbn [mbind option_bind]. rewrite Nat2Z.id. do 2 f_equal.
    destruct (lookup_lt_is_Some_2 str n) as [x Hx]; [lia|].
    rewrite (drop_S str x n Hx).
    rewrite insert_app_r_alt by (rewrite length_take; lia).
    rewrite length_take. replace (n - _)%nat with O by lia. reflexivity.
  - change (Z.to_nat 0) with O. rewrite take_0. simpl.
    rewrite (proj2 (Z.ltb_ge _ _)) by lia. do 2 f_equal.
Qed.

(** C16: [chvsnprintf] never writes outside the first [size] bytes: when the
    formatted text, what the same format and arguments append to an unbounded
    stream, is [out], the buffer afterwards holds the first [size - 1]
    bytes of [out], a NUL, and its old content after that; the result is the
    length of the whole text, truncated or not, for a text that an [int] can
    count.  With [size = 0] nothing is written. *)
Theorem chvsnprintf_truncates (str : list Z) (size : Z) (fmt : list Z) (args : list va)
    (out : list Z) (n : Z) :
  0 <= size <= Z.of_nat (length str) -> size < 2147483648 ->
  chvprintf [] fmt args = Some (out, n) -> Z.of_nat (length out) < 2147483648 ->
  let kept := take (Z.to_nat (size - 1)) out in
  chvsnprintf str size fmt args
  = Some (if 0 <? size then kept ++ 0 :: drop (S (length kept)) str else str,
          Z.of_nat (length out)).
Proof.
  intros Hs Hm H Hl kept. rewrite chvprintf_list in H. inv_bind. subst.
  rewrite <- (i32_id (Z.of_nat (length out))) by lia. apply chvsnprintf_spec; assumption.
Qed.

Lemma chvsnprintf_truncates_witness :
  chvsnprintf (replicate 6 170) 4 (fmt_of "%s=%d") [VStr (Some (fmt_of "ab")); VInt 12]
  = Some (if 0 <? 4 then bytes "ab=" ++ 0 :: drop 4 (replicate 6 170) else replicate 6 170, 5).
Proof.
  apply (chvsnprintf_truncates (replicate 6 170) 4 _ _ (bytes "ab=12") 5);
    [simpl; lia | lia | vm_compute; reflexivity | simpl; lia].
Defined.

(** No conversion overruns [tmpbuf]: given an argument of the kind the
    directive asks for (any integer, the least excepted for [%d], any [double]
    of magnitude below 2^31, any terminated string), the conversion is defined, and what it leaves in the
    23-byte buffer is between 1 and 21 bytes long. *)
Theorem convert_in_tmpbuf (sp : ch_spec) (a : va) (args : list va) :
  va_ok (conv_of (sp_conv sp)) a -> 0 <= sp_precision sp ->
  exists text filler, convert sp (a :: args) = Some (text, filler, args) /\
    conv_text_ok (conv_of (sp_conv sp)) text.
Proof. apply convert_fits. Qed.

Lemma convert_in_tmpbuf_witness :
  exists text filler,
    convert (ChSpec false true 48 0 9 false 102) [VDouble (d_lit (-1234567) 3)]
    = Some (text, filler, []) /\ conv_text_ok CvFloat text.
Proof. apply (convert_in_tmpbuf (ChSpec false true 48 0 9 false 102)); [fconst | easy]. Defined.

(** *** Decimal round trip *)

Lemma signed_text_atoi z rest :
  atoi (signed_text false z ++ 0 :: rest) = Some (i32 z).
Proof.
  pose proof (i32_range z) as Hr. unfold signed_text. cbv zeta.
  set (l := i32 z) in *. set (ds := ltoa_digits 32 (Z.abs l) (Z.abs l) 10).
  assert (Hds : Forall (fun b => is_digit b = true) ds) by apply ltoa_digits_decimal.
  assert (Hv : digits_value 0 ds = Z.abs l).
  { apply ltoa_digits_value. change (Z.of_nat 32) with 32.
    assert (10 ^ 10 <= 10 ^ 32) by (apply Z.pow_le_mono_r; lia).
    change (10 ^ 10) with 10000000000 in *. lia. }
  assert (Hlen : (1 <= length ds)%nat).
  { apply (ltoa_digits_length 10 32 10); [lia | | lia].
    change (10 ^ Z.of_nat 10) with 10000000000. lia. }
  unfold sign_text. destruct (Z.ltb_spec l 0).
  - cbn [app]. rewrite atoi_neg_digits; auto; [|lia]. rewrite Hv. f_equal. lia.
  - cbn [app]. destruct ds as [|b ds1] eqn:E; [simpl in Hlen; lia|].
    rewrite atoi_digits; auto; rewrite Hv; [f_equal; lia | lia | lia].
Qed.

Lemma format_text_d z :
  printable z ->
  format_text 3 (fmt_of "%d") [VInt z] = Some (wrapu 8 <$> signed_text false z).
Proof.
  intros Hz. change (fmt_of "%d") with [37; 100; 0].
  destruct (convert_signed_spec (ChSpec false false 32 0 0 false 100) z Hz) as [Hc Hl].
  erewrite format_text_dir; [|vm_compute; reflexivity
    |change (convert _ _) with (t ← convert_signed (ChSpec false false 32 0 0 false 100) z;
                                Some (t, 32, @nil va)); rewrite Hc; reflexivity].
  cbn [do_sign] in *. rewrite emit_text_nopad by (simpl; lia).
  simpl format_text. cbn [mbind option_bind]. rewrite app_nil_r. reflexivity.
Qed.

Lemma signed_text_bytes sign z : Forall (fun b => 0 < b < 256) (signed_text sign z).
Proof.
  unfold signed_text. apply Forall_app. split.
  - unfold sign_text. case_bools; repeat constructor; lia.
  - eapply Forall_impl; [apply ltoa_digits_decimal|]. intros b Hb.
    unfold is_digit in Hb. bools. lia.
Qed.

Lemma wrapu8_bytes bs : Forall (fun b => 0 < b < 256) bs -> wrapu 8 <$> bs = bs.
Proof.
  induction 1 as [|b bs Hb Hbs IH]; [reflexivity|].
  rewrite fmap_cons, IH, u8_id by lia. reflexivity.
Qed.

(** Printing an integer with ["%d"] into a buffer of at least twelve bytes and
    reading it back with [atoi] gives the integer, as a 32-bit [int], for every
    integer but the least, whose negation overflows. *)
Theorem chsnprintf_d_roundtrip (str : list Z) (size z : Z) :
  12 <= size <= Z.of_nat (length str) -> size < 2147483648 -> printable z ->
  exists str' n, chvsnprintf str size (fmt_of "%d") [VInt z] = Some (str', n) /\
                 atoi str' = Some (i32 z).
Proof.
  intros Hs Hm Hz.
  destruct (convert_signed_spec (ChSpec false false 32 0 0 false 100) z Hz) as [_ Hl].
  cbn [do_sign] in Hl.
  pose proof (format_text_d z Hz) as Hf. rewrite wrapu8_bytes in Hf by apply signed_text_bytes.
  change 3%nat with (length (fmt_of "%d")) in Hf.
  rewrite (chvsnprintf_spec str size _ _ _ ltac:(lia) Hm Hf).
  do 2 eexists. split; [reflexivity|].
  rewrite (proj2 (Z.ltb_lt 0 size)) by lia.
  rewrite take_ge by lia. apply signed_text_atoi.
Qed.

Lemma chsnprintf_d_roundtrip_witness :
  exists str' n, chvsnprintf (replicate 12 0) 12 (fmt_of "%d") [VInt (-2147483647)]
                 = Some (str', n) /\ atoi str' = Some (i32 (-2147483647)).
Proof. apply chsnprintf_d_roundtrip; [simpl; lia | lia | discriminate]. Defined.

(** ** Bounds of formats, by evaluation

    What a format can print is bounded by looking at the format alone:
    [format_bound] runs through it with the kinds of its arguments, and its
    soundness turns an evaluation into a fact about every argument list. *)

Inductive va_class := KInt | KDouble | KStr (n : nat).

Definition va_in (k : va_class) (a : va) : Prop :=
  match k, a with
  | KInt, VInt z => printable z
  | KDouble, VDouble x => fle 16777215 7 x
  | KStr n, VStr (Some mem) => exists s, cstr mem = Some s /\ (length s <= n)%nat /\ text_bytes s
  | _, _ => False
  end.

(** The longest text of one conversion, and the argument kinds left. *)
Definition conv_bound (k : conv_kind) (cs : list va_class) : option (nat * list va_class) :=
  match k, cs with
  | CvFloat, KDouble :: cs' => Some (21%nat, cs')
  | CvStr, KStr n :: cs' => Some (n, cs')
  | CvSigned, KInt :: cs' | CvUnsigned _, KInt :: cs' => Some (11%nat, cs')
  | _, _ => None
  end.

Fixpoint format_bound (fuel : nat) (fmt : list Z) (cs : list va_class) : option nat :=
  match fuel with
  | O => None
  | S fuel' =>
      '(c, fmt) ← next_char fmt;
      if c =? 0 then Some O
      else if negb (c =? 37) then
        if in_u 8 c then n ← format_bound fuel' fmt cs; Some (S n) else None
      else
        match parse_spec fmt [] with
        | Some (PSpec sp fmt []) =>
            '(k, cs) ← conv_bound (conv_of (sp_conv sp)) cs;
            n ← format_bound fuel' fmt cs;
            if (0 <=? sp_precision sp) && (0 <? sp_filler sp) && in_u 8 (sp_filler sp) then Some (Nat.max k (Z.to_nat (sp_width sp)) + n)%nat
            else None
        | _ => None
        end
  end.

Lemma parse_long_args a b f w p c fmt args sp fmt' :
  parse_long a b f w p c fmt [] = Some (PSpec sp fmt' []) ->
  parse_long a b f w p c fmt args = Some (PSpec sp fmt' args).
Proof.
  unfold parse_long. case_bool; [|intros [= <- <-]; reflexivity].
  destruct (next_char fmt) as [[c' fmt2]|]; [|discriminate]. cbn [mbind option_bind].
  case_bool; [discriminate|]. intros [= <- <-]. reflexivity.
Qed.

Lemma parse_dot_args a b f w c fmt args sp fmt' :
  parse_dot a b f w c fmt [] = Some (PSpec sp fmt' []) ->
  parse_dot a b f w c fmt args = Some (PSpec sp fmt' args).
Proof.
  unfold parse_dot. case_bool; [|apply parse_long_args].
  destruct (next_char fmt) as [[c' fmt2]|]; [|discriminate]. cbn [mbind option_bind].
  case_bool; [discriminate|]. case_bool; [discriminate|].
  destruct (parse_precision c' fmt2 0) as [[[[p c2] fmt3]|]|]; try discriminate.
  apply parse_long_args.
Qed.

(** A directive without ['*'] leaves the arguments alone. *)
Lemma parse_spec_args fmt args sp fmt' :
  parse_spec fmt [] = Some (PSpec sp fmt' []) -> parse_spec fmt args = Some (PSpec sp fmt' args).
Proof.
  unfold parse_spec.
  destruct (skip_char 45 fmt) as [[a f1]|]; [|discriminate]. cbn [mbind option_bind].
  destruct (skip_char 43 f1) as [[b f2]|]; [|discriminate]. cbn [mbind option_bind].
  destruct (skip_char 48 f2) as [[z f3]|]; [|discriminate]. cbn [mbind option_bind].
  destruct (head f3) as [c|]; [|discriminate]. cbn [mbind option_bind].
  case_bool; [discriminate|].
  destruct (parse_width f3 0) as [[[[w c2] f4]|]|]; try discriminate. apply parse_dot_args.
Qed.

Lemma emit_text_length sp filler text k :
  (length text <= k)%nat ->
  (length (emit_text sp filler text) <= Nat.max k (Z.to_nat (sp_width sp)))%nat.
Proof.
  intros Hk. unfold emit_text. cbv zeta.
  destruct (left_align sp); [rewrite length_app, length_replicate; lia|].
  destruct text as [|b text]; [rewrite length_replicate; simpl; lia|].
  case_bool; simpl; rewrite length_app, length_replicate; simpl in *; lia.
Qed.

Lemma emit_text_bytes sp filler text :
  text_bytes text -> 0 < filler < 256 -> text_bytes (emit_text sp filler text).
Proof.
  intros Ht Hf. unfold emit_text. cbv zeta.
  assert (Hpad : forall n, text_bytes (replicate n filler)) by (intros n; apply Forall_replicate; lia).
  destruct (left_align sp); [apply Forall_app; split; [exact Ht | apply Hpad]|].
  destruct text as [|b text].
  - apply Hpad.
  - pose proof Ht as Ht2. inversion_clear Ht2. case_bool.
    + constructor; [assumption|]. apply Forall_app. split; [apply Hpad | assumption].
    + apply Forall_app. split; [apply Hpad | exact Ht].
Qed.

Lemma conv_bound_sound sp cs args k cs' :
  Forall2 va_in cs args -> 0 <= sp_precision sp -> 0 < sp_filler sp < 256 ->
  conv_bound (conv_of (sp_conv sp)) cs = Some (k, cs') ->
  exists text filler args', convert sp args = Some (text, filler, args') /\
    (length text <= k)%nat /\ Forall2 va_in cs' args' /\ text_bytes text /\ 0 < filler < 256.
Proof.
  intros Hin Hp Hfill. unfold convert.
  destruct (conv_of (sp_conv sp)) as [| | | |radix|] eqn:Ek; simpl conv_bound;
    try discriminate; destruct cs as [|[| |n] cs]; try discriminate;
    intros [= <- <-]; (inversion Hin as [|? a ? args' Ha Hin' E1 E2]; subst;
      destruct a as [z|x|[mem|]]; simpl in Ha; try contradiction);
    cbn [va_int va_double va_str mbind option_bind].
  - destruct Ha as (s & Hs & Hn & Hb). erewrite str_scan_spec; [|exact Hs|case_bool; lia].
    do 3 eexists. split; [reflexivity|]. split_and!; try lia; [rewrite length_take; lia | exact Hin' |].
    apply Forall_take. exact Hb.
  - destruct (convert_signed_spec sp z Ha) as [-> Hl]. do 3 eexists. split; [reflexivity|].
    split_and!; try lia; [exact Hin' | apply signed_text_bytes].
  - destruct (convert_float_spec sp x Ha Hp) as (t & -> & Hl & Hb). do 3 eexists.
    split; [reflexivity|]. split_and!; try lia; assumption.
  - pose proof (conv_of_radix _ _ Ek).
    destruct (convert_unsigned_spec radix z) as [-> Hl]; [assumption|].
    do 3 eexists. split; [reflexivity|]. split_and!; try lia; [exact Hin' | apply ltoa_digits_text; lia].
Qed.

Lemma format_bound_sound fuel : forall fmt cs args n,
  format_bound fuel fmt cs = Some n -> Forall2 va_in cs args ->
  exists out, format_text fuel fmt args = Some out /\ (length out <= n)%nat /\ text_bytes out.
Proof.
  induction fuel as [|fuel IH]; intros fmt cs args n H Hin; [discriminate|]. simpl in H |- *.
  destruct (next_char fmt) as [[c fmt1]|]; [|discriminate]. cbn [mbind option_bind] in *.
  case_bool; [injection H as <-; exists []; split; [reflexivity | split; [simpl; lia | constructor]]|].
  case_bool_in H.
  - destruct (in_u 8 c) eqn:Ec; [|discriminate]. apply in_u_spec in Ec. simpl Z.pow in Ec.
    destruct (format_bound fuel fmt1 cs) as [n1|] eqn:E1; [|discriminate].
    injection H as <-. destruct (IH _ _ _ _ E1 Hin) as (out & Ho & Hl & Hb).
    rewrite Ho. eexists. split; [reflexivity|]. split; [simpl; lia|].
    constructor; [rewrite u8_id; lia | exact Hb].
  - destruct (parse_spec fmt1 []) as [[|sp fmt2 [|]]|] eqn:Ep; try discriminate.
    rewrite (parse_spec_args _ args _ _ Ep). cbn [mbind option_bind].
    destruct (conv_bound _ cs) as [[k cs']|] eqn:Ec; [|discriminate].
    cbn [mbind option_bind] in H.
    destruct (format_bound fuel fmt2 cs') as [n1|] eqn:E1; [|discriminate].
    cbn [mbind option_bind] in H. case_bool_in H; [|discriminate]. injection H as <-.
    rewrite in_u_spec in *. simpl Z.pow in *.
    destruct (conv_bound_sound sp cs args k cs' Hin ltac:(assumption) ltac:(lia) Ec)
      as (text & filler & args' & -> & Hk & Hin' & Hb & Hf).
    cbn [mbind option_bind].
    destruct (IH _ _ _ _ E1 Hin') as (out & -> & Hl & Hbo). cbn [mbind option_bind].
    eexists. split; [reflexivity|]. rewrite length_app, length_fmap.
    pose proof (emit_text_length sp filler text k Hk). split; [lia|].
    apply Forall_app. split; [|exact Hbo].
    pose proof (emit_text_bytes sp filler text Hb Hf) as He.
    rewrite wrapu8_bytes by exact He. exact He.
Qed.

(** The same for [chvsnprintf] into a buffer of its announced size: the text is
    truncated to the buffer, and the result is its full length. *)
Lemma chvsnprintf_text str size fmt cs args n :
  0 < size <= Z.of_nat (length str) -> size < 2147483648 -> Z.of_nat n < 2147483648 ->
  format_bound (length fmt) fmt cs = Some n -> Forall2 va_in cs args ->
  exists out, format_text (length fmt) fmt args = Some out /\ (length out <= n)%nat /\
    text_bytes out /\
    let kept := take (Z.to_nat (size - 1)) out in
    chvsnprintf str size fmt args
    = Some (kept ++ 0 :: drop (S (length kept)) str, Z.of_nat (length out)).
Proof.
  intros Hs Hm Hn Hb Hin.
  destruct (format_bound_sound _ _ _ _ _ Hb Hin) as (out & Ht & Hl & Ho).
  exists out. split; [exact Ht|]. split; [exact Hl|]. split; [exact Ho|]. intros kept.
  rewrite (chvsnprintf_spec str size _ _ out ltac:(lia) Hm Ht).
  rewrite (proj2 (Z.ltb_lt 0 size)), i32_id by lia. reflexivity.
Qed.

Lemma text_bytes_nonzero s : text_bytes s -> Forall (fun b => b <> 0) s.
Proof. intros H. eapply Forall_impl; [exact H|]. cbv beta. lia. Qed.

Lemma chvsnprintf_bound str size fmt cs args n :
  0 < size <= Z.of_nat (length str) -> size < 2147483648 -> Z.of_nat n < 2147483648 ->
  format_bound (length fmt) fmt cs = Some n -> Forall2 va_in cs args ->
  exists str' s ret, chvsnprintf str size fmt args = Some (str', ret) /\
    length str' = length str /\ cstr str' = Some s /\
    (length s <= n)%nat /\ Z.of_nat (length s) < size.
Proof.
  intros Hs Hm Hn Hb Hin.
  destruct (chvsnprintf_text _ _ _ _ _ _ Hs Hm Hn Hb Hin) as (out & _ & Hl & Ho & ->).
  set (kept := take _ out).
  assert (Hk : (length kept <= n)%nat /\ Z.of_nat (length kept) < size)
    by (unfold kept; rewrite length_take; lia).
  do 3 eexists. split; [reflexivity|]. split; [rewrite length_app; simpl; rewrite length_drop; lia|].
  split; [apply cstr_app, text_bytes_nonzero, Forall_take, Ho | lia].
Qed.
