(* ===== verification/Mde.v ===== *)
(** * Motor drive enclosure: state, command words, word exchange (mde.c)

    The static variables of mde.c, its accessors, the construction of torque
    command words with their parity bit, and the 16-bit exchange.  The thread
    that uses them is in MdeThread.v, because it calls into imu.c and ctrl.c. *)

From S2P Require Import Prelude CInt Spi.

(** ** Data *)

(** The static variables of mde.c. *)
Record mde_state := MdeState {
  motor_az : Z;       (* int8_t *)
  motor_el : Z;       (* int8_t *)
  motor_sk : Z;       (* int8_t *)
  enc_az : Z;         (* uint16_t *)
  enc_az_off : Z;     (* uint16_t *)
  enc_az_speed : Z;   (* int16_t *)
  power_up : bool;
  power_dn : bool;
  is_powered_up : bool
}.

Definition mde_state0 : mde_state := MdeState 0 0 0 0 0 0 false false false.

(** Motor numbers of mde.h. *)
Definition MOTOR_AZ : Z := 3.
Definition MOTOR_EL : Z := 5.
Definition MOTOR_SK : Z := 6.

(** ** Accessors *)

Definition mde_power_up (s : mde_state) : mde_state :=
  MdeState (motor_az s) (motor_el s) (motor_sk s) (enc_az s) (enc_az_off s)
    (enc_az_speed s) true (power_dn s) (is_powered_up s).

Definition mde_power_down (s : mde_state) : mde_state :=
  MdeState (motor_az s) (motor_el s) (motor_sk s) (enc_az s) (enc_az_off s)
    (enc_az_speed s) (power_up s) true (is_powered_up s).

Definition mde_get_az_enc_pos (s : mde_state) : Z := enc_az s.
Definition mde_get_az_enc_spd (s : mde_state) : Z := enc_az_speed s.
Definition mde_get_trq_az (s : mde_state) : Z := motor_az s.
Definition mde_get_trq_el (s : mde_state) : Z := motor_el s.
Definition mde_get_trq_sk (s : mde_state) : Z := motor_sk s.
Definition mde_get_az_enc_off (s : mde_state) : Z := enc_az_off s.

(** The [int8_t] parameter of a torque setter converts its argument. *)
Definition mde_set_trq_az (trq : Z) (s : mde_state) : mde_state :=
  MdeState (i8 trq) (motor_el s) (motor_sk s) (enc_az s) (enc_az_off s)
    (enc_az_speed s) (power_up s) (power_dn s) (is_powered_up s).

Definition mde_set_trq_el (trq : Z) (s : mde_state) : mde_state :=
  MdeState (motor_az s) (i8 trq) (motor_sk s) (enc_az s) (enc_az_off s)
    (enc_az_speed s) (power_up s) (power_dn s) (is_powered_up s).

Definition mde_set_trq_sk (trq : Z) (s : mde_state) : mde_state :=
  MdeState (motor_az s) (motor_el s) (i8 trq) (enc_az s) (enc_az_off s)
    (enc_az_speed s) (power_up s) (power_dn s) (is_powered_up s).

Definition mde_set_az_enc_off (off : Z) (s : mde_state) : mde_state :=
  MdeState (motor_az s) (motor_el s) (motor_sk s) (enc_az s) (u16 off)
    (enc_az_speed s) (power_up s) (power_dn s) (is_powered_up s).

(** The thread's own assignments to the static variables. *)
Definition mde_set_encoder (pos spd : Z) (s : mde_state) : mde_state :=
  MdeState (motor_az s) (motor_el s) (motor_sk s) pos (enc_az_off s)
    spd (power_up s) (power_dn s) (is_powered_up s).

Definition mde_set_powered_down (s : mde_state) : mde_state :=
  MdeState (motor_az s) (motor_el s) (motor_sk s) (enc_az s) (enc_az_off s)
    (enc_az_speed s) (power_up s) false false.

Definition mde_set_powered_up (s : mde_state) : mde_state :=
  MdeState (motor_az s) (motor_el s) (motor_sk s) (enc_az s) (enc_az_off s)
    (enc_az_speed s) false (power_dn s) true.

(** ** Command words *)

(** The loop of [bit_count]: [n] loses a bit per iteration, so a [uint16_t]
    needs sixteen; [None] is a loop that has not ended within [fuel]. *)
Fixpoint bit_count_loop (fuel : nat) (n cntr : Z) : option Z :=
  if n =? 0 then Some cntr
  else match fuel with
       | O => None
       | S fuel' => bit_count_loop fuel' (Z.shiftr n 1) (u8 (cntr + n mod 2))
       end.

Definition bit_count (n : Z) : option Z := bit_count_loop 16 n 0.

(** [(0b1110 << 12) | ((motor & 0x7) << 9) | ((uint8_t)speed << 1)], then the
    low bit set when the number of ones is even. *)
Definition mde_cmd_set_mot_trq (motor speed : Z) : option Z :=
  let cmd := u16 (Z.lor (Z.lor (Z.shiftl 14 12) (Z.shiftl (Z.land motor 7) 9))
                        (Z.shiftl (u8 speed) 1)) in
  n ← bit_count cmd;
  Some (Z.lor cmd (b2z (Z.land n 1 =? 0))).

(** ** Word exchange *)

Definition mde_exchange {D} `{SpiBus D} (d : D) (mosi : Z) : D * Z :=
  spi_exchange16 LINE_MDE_CS d mosi.

(** Exchanges whose replies are discarded ([miso == NULL]). *)
Fixpoint mde_send {D} `{SpiBus D} (d : D) (words : list Z) : D :=
  match words with
  | [] => d
  | w :: ws => mde_send (fst (mde_exchange d w)) ws
  end.

(** The encoder position the two status words carry. *)
Definition mde_decode_enc (fc fb : Z) : Z := u16 (Z.lnot (Z.lor (Z.shiftl fc 8) fb)).

(** ** The type invariant *)

(** Every variable is in the range of its C type. *)
Definition mde_ok (s : mde_state) : bool :=
  in_s 8 (motor_az s) && in_s 8 (motor_el s) && in_s 8 (motor_sk s) &&
  in_u 16 (enc_az s) && in_u 16 (enc_az_off s) && in_s 16 (enc_az_speed s).

Lemma mde_ok_spec s :
  mde_ok s = true <->
  -128 <= motor_az s < 128 /\ -128 <= motor_el s < 128 /\ -128 <= motor_sk s < 128 /\
  0 <= enc_az s < 65536 /\ 0 <= enc_az_off s < 65536 /\ -32768 <= enc_az_speed s < 32768.
Proof. unfold mde_ok. rewrite !andb_true_iff, !in_s_spec, !in_u_spec. simpl Z.pow. tauto. Qed.

Lemma mde_setters_ok s t :
  mde_ok s = true ->
  mde_ok (mde_set_trq_az t s) = true /\ mde_ok (mde_set_trq_el t s) = true /\
  mde_ok (mde_set_trq_sk t s) = true /\ mde_ok (mde_set_az_enc_off t s) = true /\
  mde_ok (mde_power_up s) = true /\ mde_ok (mde_power_down s) = true.
Proof.
  rewrite !mde_ok_spec. destruct s; simpl. intros H.
  pose proof (i8_range t). pose proof (u16_range t). split_and!; tauto.
Qed.

(** ** Parity and layout of a command word *)

Fixpoint popcount_pos (p : positive) : Z :=
  match p with
  | xH => 1
  | xO p' => popcount_pos p'
  | xI p' => 1 + popcount_pos p'
  end.

(** The number of one bits of a nonnegative integer. *)
Definition popcount (n : Z) : Z :=
  match n with Zpos p => popcount_pos p | _ => 0 end.

Lemma popcount_pos_bound p : 0 <= popcount_pos p <= Zpos (Pos.size p).
Proof. induction p; cbn -[Z.add]; lia. Qed.

Lemma bit_count_loop_spec fuel : forall n c,
  0 <= n < 2 ^ Z.of_nat fuel -> 0 <= c -> c + popcount n < 256 ->
  bit_count_loop fuel n c = Some (c + popcount n).
Proof.
  induction fuel as [|fuel IH]; intros n c Hn Hc Hlt.
  - assert (n = 0) as -> by (simpl in Hn; lia). simpl. f_equal. lia.
  - rewrite Nat2Z.inj_succ, Z.pow_succ_r in Hn by lia. simpl.
    destruct (Z.eqb_spec n 0) as [->|Hz]; [simpl; f_equal; lia|].
    rewrite Z.shiftr_div_pow2 by lia. change (2 ^ 1) with 2.
    destruct n as [|[p|p|]|p]; [lia| | | |lia].
    + replace (Zpos p~1 / 2) with (Zpos p) by zlia.
      replace (Zpos p~1 mod 2) with 1 by zlia. simpl popcount in *.
      pose proof (popcount_pos_bound p).
      rewrite u8_id by lia. rewrite IH by (simpl; lia). simpl. f_equal. lia.
    + replace (Zpos p~0 / 2) with (Zpos p) by zlia.
      replace (Zpos p~0 mod 2) with 0 by zlia. simpl popcount in *.
      pose proof (popcount_pos_bound p).
      rewrite u8_id by lia. rewrite IH by (simpl; lia). simpl. f_equal. lia.
    + change (1 mod 2) with 1. change (1 / 2) with 0. simpl popcount in *.
      rewrite u8_id by lia. destruct fuel; reflexivity.
Qed.

Lemma bit_count_spec n : 0 <= n < 65536 -> bit_count n = Some (popcount n).
Proof.
  intros Hn. unfold bit_count. rewrite bit_count_loop_spec; [reflexivity|exact Hn|lia|].
  destruct n as [|p|p]; simpl; try lia.
  pose proof (popcount_pos_bound p).
  assert (Zpos (Pos.size p) <= 16); [|lia].
  apply Z.lt_succ_r. change (Z.succ 16) with 17.
  assert (Zpos (Pos.size p) = Z.log2 (Zpos p) + 1) as ->.
  { destruct p; simpl; lia. }
  assert (Z.log2 (Zpos p) < 16) by (apply Z.log2_lt_pow2; lia). lia.
Qed.

(** What a command word must look like for the drive to accept it: the command
    nibble, the motor field, the torque field and odd parity. *)
Definition mde_word_ok (motor speed w : Z) : bool :=
  in_u 16 w && (Z.shiftr w 12 =? 14) && (Z.land (Z.shiftr w 9) 7 =? motor)
  && (i8 (Z.land (Z.shiftr w 1) 255) =? speed) && Z.odd (popcount w).

Definition mde_cmd_ok (motor speed : Z) : bool :=
  match mde_cmd_set_mot_trq motor speed with
  | Some w => mde_word_ok motor speed w
  | None => false
  end.

Lemma mde_cmd_all :
  forallb (fun m => forallb (fun s => mde_cmd_ok (Z.of_nat m) (Z.of_nat s - 128))
                            (seq 0 256)) (seq 0 8) = true.
Proof. vm_compute. reflexivity. Qed.

Lemma mde_cmd_ok_range m s : 0 <= m < 8 -> -128 <= s < 128 -> mde_cmd_ok m s = true.
Proof.
  intros Hm Hs. pose proof mde_cmd_all as H.
  rewrite forallb_forall in H. specialize (H (Z.to_nat m)).
  rewrite forallb_forall in H.
  assert (Hin : In (Z.to_nat (s + 128)) (seq 0 256)) by (apply in_seq; lia).
  specialize (H ltac:(apply in_seq; lia) _ Hin).
  rewrite !Z2Nat.id in H by lia. replace (s + 128 - 128) with s in H by lia. exact H.
Qed.

Lemma mde_cmd_land motor speed :
  mde_cmd_set_mot_trq motor speed = mde_cmd_set_mot_trq (Z.land motor 7) speed.
Proof.
  unfold mde_cmd_set_mot_trq. rewrite <- (Z.land_assoc motor 7 7). reflexivity.
Qed.

(** For every motor number and every torque, [mde_cmd_set_mot_trq] ends and
    its word is a 16-bit word with the command nibble [1110], the low three bits
    of the motor number, the torque in two's complement, and an odd number of
    ones: the drive can decode back exactly what was encoded. *)
Theorem mde_cmd_decodes (motor speed : Z) :
  exists w, mde_cmd_set_mot_trq motor (i8 speed) = Some w /\
            mde_word_ok (Z.land motor 7) (i8 speed) w = true.
Proof.
  rewrite mde_cmd_land.
  assert (Hm : 0 <= Z.land motor 7 < 8).
  { change 7 with (Z.ones 3). rewrite Z.land_ones by lia. apply Z.mod_pos_bound. lia. }
  pose proof (mde_cmd_ok_range _ _ Hm (i8_range speed)) as H.
  unfold mde_cmd_ok in H.
  destruct (mde_cmd_set_mot_trq _ _) as [w|]; [eauto | discriminate].
Qed.
