(* ===== verification/Imu.v ===== *)
(** * Inertial measurement unit (imu.c)

    The sampling loop is split at its sleeps: [imu_step] runs the loop from one
    sleep to the next, so that other threads may run in between.  [atan] is the
    C library's; its documented range is the law of the class [LibM]. *)

From S2P Require Import Prelude CInt CFloat Spi.
From Stdlib Require Import SpecFloat.

(** ** The mathematics library *)

(** [atan] returns a value between -pi/2 and pi/2 ([884279719003555 * 2^-49] is
    pi/2 rounded to a [double]) for any argument that is a number, and NaN for
    NaN. *)
Class LibM := {
  atan : spec_float -> spec_float;
  atan_range : forall x, x <> S754_nan -> fle 884279719003555 (-49) (atan x);
  atan_nan : atan S754_nan = S754_nan
}.

(** ** Data *)

(** The static variables of imu.c. *)
Record imu_state := ImuState {
  imu_accel_x : Z;   (* int16_t *)
  imu_accel_y : Z;   (* int16_t *)
  imu_accel_z : Z;   (* int16_t *)
  imu_rot_x : Z;     (* uint16_t *)
  imu_rot_y : Z;     (* uint16_t *)
  imu_rot_y0 : Z;    (* uint16_t *)
  imu_rot_z : Z;     (* uint16_t *)
  imu_el_pos : Z;    (* int16_t *)
  imu_el_off : Z;    (* int16_t *)
  imu_el_spd : Z     (* int16_t *)
}.

Definition imu_state0 : imu_state := ImuState 0 0 0 0 0 2070 0 0 0 0.

Definition imu_set_accel (x y z : Z) (s : imu_state) : imu_state :=
  ImuState x y z (imu_rot_x s) (imu_rot_y s) (imu_rot_y0 s) (imu_rot_z s)
    (imu_el_pos s) (imu_el_off s) (imu_el_spd s).
Definition imu_set_rot (x y z : Z) (s : imu_state) : imu_state :=
  ImuState (imu_accel_x s) (imu_accel_y s) (imu_accel_z s) x y (imu_rot_y0 s) z
    (imu_el_pos s) (imu_el_off s) (imu_el_spd s).
Definition imu_set_rot_y0 (y0 : Z) (s : imu_state) : imu_state :=
  ImuState (imu_accel_x s) (imu_accel_y s) (imu_accel_z s) (imu_rot_x s) (imu_rot_y s) y0
    (imu_rot_z s) (imu_el_pos s) (imu_el_off s) (imu_el_spd s).
Definition imu_set_el (pos spd : Z) (s : imu_state) : imu_state :=
  ImuState (imu_accel_x s) (imu_accel_y s) (imu_accel_z s) (imu_rot_x s) (imu_rot_y s)
    (imu_rot_y0 s) (imu_rot_z s) pos (imu_el_off s) spd.

(** *** Accessors *)

Definition imu_get_accel_x (s : imu_state) : Z := imu_accel_x s.
Definition imu_get_accel_y (s : imu_state) : Z := imu_accel_y s.
Definition imu_get_accel_z (s : imu_state) : Z := imu_accel_z s.
Definition imu_get_rot_x (s : imu_state) : Z := imu_rot_x s.
Definition imu_get_rot_y (s : imu_state) : Z := imu_rot_y s.
Definition imu_get_rot_z (s : imu_state) : Z := imu_rot_z s.
Definition imu_get_el_pos (s : imu_state) : Z := imu_el_pos s.
Definition imu_get_el_spd (s : imu_state) : Z := imu_el_spd s.
Definition imu_get_el_off (s : imu_state) : Z := imu_el_off s.
Definition imu_set_el_off (off : Z) (s : imu_state) : imu_state :=
  ImuState (imu_accel_x s) (imu_accel_y s) (imu_accel_z s) (imu_rot_x s) (imu_rot_y s)
    (imu_rot_y0 s) (imu_rot_z s) (imu_el_pos s) (i16 off) (imu_el_spd s).

(** ** Register access *)

Definition imu_exchange {D} `{SpiBus D} (chip : spi_chip) (d : D) (mosi : Z) : D * Z :=
  spi_exchange16 chip d mosi.

(** [imu_read_mpu9250_n]: the bytes sent after the register number are
    whatever the stack holds; [junk] stands for them. *)
Definition imu_read_mpu9250_n {D} `{SpiBus D} (d : D) (reg : Z) (junk : nat -> Z) (n : nat)
  : D * option (list Z) :=
  match n with
  | O => (d, None)
  | S _ =>
      let '(d1, rx) := spi_transaction LINE_IMU_MPU d (Z.lor reg 128 :: (junk <$> seq 0 n)) in
      (d1, Some (drop 1 rx))
  end.

Definition imu_write_mpu9250 {D} `{SpiBus D} (d : D) (reg data : Z) : D :=
  fst (spi_transaction LINE_IMU_MPU d [reg; data]).

(** The magnetometer sample in the seven bytes of [read_magnetometer]: none
    when the overflow flag of the status byte is set. *)
Definition magnetometer_decode (raw : list Z) : option (Z * Z * Z) :=
  if Z.land (nth 6 raw 0) 8 =? 0
  then Some (i16 (Z.lor (Z.shiftl (nth 1 raw 0) 8) (nth 0 raw 0)),
             i16 (Z.lor (Z.shiftl (nth 3 raw 0) 8) (nth 2 raw 0)),
             i16 (Z.lor (Z.shiftl (nth 5 raw 0) 8) (nth 4 raw 0)))
  else None.

(** ** Conversions of the sampling loop *)

(** [(int16_t)((miso & 0x3FFF) << 2) / 4]: the 14-bit reading of an ADIS16209. *)
Definition accel14 (miso : Z) : Z := cdiv (i16 (Z.shiftl (Z.land miso 16383) 2)) 4.

(** The 12-bit reading of the ADC124S101. *)
Definition adc12 (miso : Z) : Z := Z.land miso 4095.

(** [atan(-(float)accel_z / (float)accel_x) * 10430], turned by half a circle
    when [accel_x > 0]. *)
Definition imu_elevation `{LibM} (ax az : Z) : option Z :=
  let q := s_div (f_opp (s_of_Z az)) (s_of_Z ax) in
  p ← f_to_s 16 (d_mul (atan (d_of_s q)) (d_of_Z 10430));
  Some (if 0 <? ax then i16 (p + 32768) else p).

(** One gyroscope sample accumulated: [accu += -(rot_y - rot_y0) * 11], in
    [int32_t]: undefined when the product or the sum leaves it. *)
Definition gyro_accumulate (accu rot_y rot_y0 : Z) : option Z :=
  let delta := - (rot_y - rot_y0) * 11 in
  _ ← check (in_s 32 delta && in_s 32 (accu + delta));
  Some (accu + delta).

(** ** The sampling loop *)

(** Where the loop is: just after the sleep that precedes the named access. *)
Inductive imu_pc :=
| SelAccelZ | GetAccelZ | SelAccelX | GetAccelX | SelAccelY | GetAccelY
| GetRotX | GetRotY | GetRotZ | Estimate.

(** The thread's locals. *)
Record imu_thread := ImuThread { im_pc : imu_pc; im_accu : Z; im_cntr : Z }.

Definition imu_thread0 : imu_thread := ImuThread SelAccelZ 0 0.

(** The estimation part of an iteration: position, then the mean of five
    gyroscope samples. *)
Definition imu_estimate `{LibM} (t : imu_thread) (s : imu_state)
  : option (imu_thread * imu_state) :=
  pos ← imu_elevation (imu_accel_x s) (imu_accel_z s);
  accu ← gyro_accumulate (im_accu t) (imu_rot_y s) (imu_rot_y0 s);
  let cntr := u8 (im_cntr t + 1) in
  if 5 <=? cntr
  then Some (ImuThread SelAccelZ 0 0, imu_set_el pos (i16 (cdiv accu cntr)) s)
  else Some (ImuThread SelAccelZ accu cntr, imu_set_el pos (imu_el_spd s) s).

(** The loop from one sleep to the next. *)
Definition imu_step {D} `{SpiBus D} `{LibM} (d : D) (t : imu_thread) (s : imu_state)
  : option (D * imu_thread * imu_state) :=
  let goto pc := ImuThread pc (im_accu t) (im_cntr t) in
  match im_pc t with
  | SelAccelZ => let '(d1, _) := imu_exchange LINE_IMU_CS1 d 1024 in
      Some (d1, goto GetAccelZ, s)
  | GetAccelZ => let '(d1, miso) := imu_exchange LINE_IMU_CS1 d 0 in
      Some (d1, goto SelAccelX,
            imu_set_accel (imu_accel_x s) (imu_accel_y s) (i16 (- accel14 miso)) s)
  | SelAccelX => let '(d1, _) := imu_exchange LINE_IMU_CS1 d 1536 in
      Some (d1, goto GetAccelX, s)
  | GetAccelX => let '(d1, miso) := imu_exchange LINE_IMU_CS1 d 0 in
      Some (d1, goto SelAccelY,
            imu_set_accel (i16 (accel14 miso)) (imu_accel_y s) (imu_accel_z s) s)
  | SelAccelY => let '(d1, _) := imu_exchange LINE_IMU_CS2 d 1536 in
      Some (d1, goto GetAccelY, s)
  | GetAccelY => let '(d1, miso) := imu_exchange LINE_IMU_CS2 d 0 in
      Some (d1, goto GetRotX,
            imu_set_accel (imu_accel_x s) (i16 (- accel14 miso)) (imu_accel_z s) s)
  | GetRotX => let '(d1, miso) := imu_exchange LINE_IMU_CS3 d 0 in
      Some (d1, goto GetRotY, imu_set_rot (adc12 miso) (imu_rot_y s) (imu_rot_z s) s)
  | GetRotY => let '(d1, miso) := imu_exchange LINE_IMU_CS3 d 2048 in
      Some (d1, goto GetRotZ, imu_set_rot (imu_rot_x s) (adc12 miso) (imu_rot_z s) s)
  | GetRotZ => let '(d1, miso) := imu_exchange LINE_IMU_CS3 d 4096 in
      Some (d1, goto Estimate, imu_set_rot (imu_rot_x s) (imu_rot_y s) (adc12 miso) s)
  | Estimate => '(t', s') ← imu_estimate t s; Some (d, t', s')
  end.

(** ** Calibration *)

(** [imu_calibrate] reads [imu_rot_y] a hundred times, sleeping after each
    reading; the thread that runs it carries the loop counter and the sum, an
    [int32_t]. *)
Definition imu_calibrate_samples : Z := 100.
Definition imu_calibrate_add (accu : Z) (s : imu_state) : option Z :=
  _ ← check (in_s 32 (accu + imu_rot_y s)); Some (accu + imu_rot_y s).
Definition imu_calibrate_end (accu : Z) (s : imu_state) : imu_state :=
  imu_set_rot_y0 (u16 (cdiv accu 100)) s.

(** The sum after readings [rs]. *)
Fixpoint imu_calibrate_sum (accu : Z) (s : imu_state) (rs : list Z) : option Z :=
  match rs with
  | [] => Some accu
  | r :: rs' =>
      accu' ← imu_calibrate_add accu (imu_set_rot (imu_rot_x s) r (imu_rot_z s) s);
      imu_calibrate_sum accu' s rs'
  end.

(** ** Initialisation of the magnetometer *)

Inductive mpu_op :=
| MpuWrite (reg data : Z)
| MpuRead (reg : Z) (n : nat)
| MpuSleep (ms : Z).

Definition MPU9250_PWR_MGMT_1 : Z := 107.
Definition MPU9250_USER_CTRL : Z := 106.
Definition MPU9250_I2C_MST_CTRL : Z := 36.
Definition MPU9250_I2C_MST_DELAY_CTRL : Z := 103.
Definition MPU9250_I2C_SLV4_CTRL : Z := 52.
Definition MPU9250_EXT_SENS_DATA_00 : Z := 73.
Definition MPU9250_I2C_SLV0_ADDR : Z := 37.
Definition MPU9250_I2C_SLV0_REG : Z := 38.
Definition MPU9250_I2C_SLV0_CTRL : Z := 39.
Definition MPU9250_I2C_SLV0_DO : Z := 99.
Definition MPU9250_AK8963_ADDRESS : Z := 12.
Definition MPU9250_AK8963_CNTL : Z := 10.
Definition MPU9250_AK8963_CNTL2 : Z := 11.
Definition MPU9250_AK8963_ASAX : Z := 16.
Definition MPU9250_AK8963_XOUT_L : Z := 3.
Definition MPU9250_WHO_AM_I_AK8963 : Z := 0.

(** A one-byte write to the magnetometer through the MPU9250's I2C master. *)
Definition ak8963_write (reg data : Z) : list mpu_op :=
  [MpuWrite MPU9250_I2C_SLV0_ADDR MPU9250_AK8963_ADDRESS;
   MpuWrite MPU9250_I2C_SLV0_REG reg;
   MpuWrite MPU9250_I2C_SLV0_DO data;
   MpuWrite MPU9250_I2C_SLV0_CTRL 129;
   MpuSleep 50].

(** A request to read [n] bytes, whose count is in the control word. *)
Definition ak8963_request (reg ctrl : Z) : list mpu_op :=
  [MpuWrite MPU9250_I2C_SLV0_ADDR (Z.lor MPU9250_AK8963_ADDRESS 128);
   MpuWrite MPU9250_I2C_SLV0_REG reg;
   MpuWrite MPU9250_I2C_SLV0_CTRL ctrl].

(** The register accesses of [imu_init], in order. *)
Definition imu_init_ops : list mpu_op :=
  [MpuWrite MPU9250_PWR_MGMT_1 0; MpuSleep 100;
   MpuWrite MPU9250_USER_CTRL 32; MpuWrite MPU9250_I2C_MST_CTRL 29;
   MpuWrite MPU9250_I2C_MST_DELAY_CTRL 129; MpuWrite MPU9250_I2C_SLV4_CTRL 1]
  ++ ak8963_write MPU9250_AK8963_CNTL2 1
  ++ ak8963_write MPU9250_AK8963_CNTL 0
  ++ ak8963_write MPU9250_AK8963_CNTL 15
  ++ ak8963_request MPU9250_AK8963_ASAX 131 ++ [MpuSleep 50; MpuRead MPU9250_EXT_SENS_DATA_00 3]
  ++ ak8963_write MPU9250_AK8963_CNTL 0
  ++ ak8963_write MPU9250_AK8963_CNTL (Z.lor (Z.shiftl 1 4) 6)
  ++ ak8963_request MPU9250_AK8963_CNTL 129 ++ [MpuSleep 50].

(** The register accesses of [read_magnetometer], in order. *)
Definition read_magnetometer_ops : list mpu_op :=
  [MpuWrite MPU9250_USER_CTRL 32; MpuWrite MPU9250_I2C_MST_CTRL 13]
  ++ ak8963_request MPU9250_WHO_AM_I_AK8963 129 ++ [MpuSleep 10; MpuRead MPU9250_EXT_SENS_DATA_00 1; MpuSleep 2]
  ++ ak8963_request MPU9250_AK8963_XOUT_L 135 ++ [MpuSleep 2; MpuRead MPU9250_EXT_SENS_DATA_00 7].

(** Performs accesses on the device; the bytes of the last read are returned. *)
Fixpoint mpu_run {D} `{SpiBus D} (junk : nat -> Z) (d : D) (last : list Z) (ops : list mpu_op)
  : D * list Z :=
  match ops with
  | [] => (d, last)
  | MpuWrite r v :: ops' => mpu_run junk (imu_write_mpu9250 d r v) last ops'
  | MpuRead r n :: ops' =>
      let '(d1, o) := imu_read_mpu9250_n d r junk n in
      mpu_run junk d1 (default [] o) ops'
  | MpuSleep _ :: ops' => mpu_run junk d last ops'
  end.

(** [imu_init]'s effect on the device; the calibration bytes it reads are
    stored in locals that nothing uses. *)
Definition imu_init {D} `{SpiBus D} (junk : nat -> Z) (d : D) : D :=
  fst (mpu_run junk d [] imu_init_ops).

(** [read_magnetometer]: the sample, or none on magnetic overflow. *)
Definition read_magnetometer {D} `{SpiBus D} (junk : nat -> Z) (d : D)
  : D * option (Z * Z * Z) :=
  let '(d1, raw) := mpu_run junk d [] read_magnetometer_ops in
  (d1, magnetometer_decode raw).

(** ** The type invariant *)

Definition imu_ok (s : imu_state) : bool :=
  in_s 16 (imu_accel_x s) && in_s 16 (imu_accel_y s) && in_s 16 (imu_accel_z s) &&
  in_u 16 (imu_rot_x s) && in_u 16 (imu_rot_y s) && in_u 16 (imu_rot_y0 s) &&
  in_u 16 (imu_rot_z s) && in_s 16 (imu_el_pos s) && in_s 16 (imu_el_off s) &&
  in_s 16 (imu_el_spd s).

(** One sample changes the sum by at most [65535 * 11]. *)
Definition gyro_delta_max : Z := 720885.

(** At most four samples are pending, and the sum is no larger than they can
    have made it. *)
Definition imu_thread_ok (t : imu_thread) : bool :=
  (0 <=? im_cntr t) && (im_cntr t <? 5) &&
  (Z.abs (im_accu t) <=? im_cntr t * gyro_delta_max).

(** The estimation divides the accelerations: it has no result when both are
    zero, which is also what a dead sensor reports. *)
Definition imu_can_step (t : imu_thread) (s : imu_state) : bool :=
  match im_pc t with
  | Estimate => negb ((imu_accel_x s =? 0) && (imu_accel_z s =? 0))
  | _ => true
  end.

(** Consecutive estimations, with gyroscope readings [rs]. *)
Fixpoint imu_run_estimates `{LibM} (t : imu_thread) (s : imu_state) (rs : list Z)
  : option (imu_thread * imu_state) :=
  match rs with
  | [] => Some (t, s)
  | r :: rs' =>
      '(t1, s1) ← imu_estimate t (imu_set_rot (imu_rot_x s) r (imu_rot_z s) s);
      imu_run_estimates t1 s1 rs'
  end.

(** A coarse arc tangent that meets the law, for examples: the sign of the
    argument times pi/4, and pi/2 at the infinities. *)
Definition atan_coarse (x : spec_float) : spec_float :=
  match x with
  | S754_infinity s => S754_finite s 7074237752028440 (-52)
  | S754_finite s _ _ => S754_finite s 7074237752028440 (-53)
  | _ => x
  end.

#[program] Definition libm_coarse : LibM := {| atan := atan_coarse |}.
Next Obligation. intros [s|s| |s m e] H; [fconst|fconst|congruence|fconst]. Qed.
Next Obligation. reflexivity. Qed.

(** ** Sensor readings *)

Lemma land_ones_mod z n : 0 <= n -> Z.land z (Z.ones n) = z mod 2 ^ n.
Proof. apply Z.land_ones. Qed.

Lemma accel14_value miso :
  accel14 miso = (miso + 8192) mod 16384 - 8192.
Proof.
  unfold accel14. change 16383 with (Z.ones 14). rewrite land_ones_mod by lia.
  rewrite Z.shiftl_mul_pow2 by lia. change (2 ^ 14) with 16384. change (2 ^ 2) with 4.
  cint.
Qed.

Lemma adc12_range miso : 0 <= adc12 miso < 4096.
Proof.
  unfold adc12. change 4095 with (Z.ones 12). rewrite land_ones_mod by lia.
  change (2 ^ 12) with 4096. zlia.
Qed.

(** The shifts, the cast and the division of the sampling loop read the low
    fourteen bits of an ADIS16209 word as a two's complement number, whatever
    the two status bits above them are. *)
Theorem accel14_twos_complement (miso : Z) :
  accel14 miso = wraps 14 miso /\ i16 (accel14 miso) = accel14 miso
  /\ i16 (- accel14 miso) = - accel14 miso.
Proof.
  rewrite accel14_value. split; [reflexivity|].
  split; apply i16_id; zlia.
Qed.

(** ** Elevation *)

Lemma elevation_quotient ax az :
  -32768 <= ax < 32768 -> -32768 <= az < 32768 -> ax <> 0 \/ az <> 0 ->
  s_div (f_opp (s_of_Z az)) (s_of_Z ax) <> S754_nan.
Proof.
  intros Hax Haz Hnz.
  destruct (Z.eq_dec ax 0) as [->|Hx].
  - assert (H : fge (Z.abs az) 0 (s_of_Z az)) by (apply s_of_Z_fge; lia).
    destruct (s_of_Z az); simpl in H; try contradiction. discriminate.
  - apply (fle_not_nan 32768 0). eapply (s_div_fle 32768 0 (Z.abs ax) 0 _ _ 0); try lia.
    + apply fle_opp, s_of_Z_fle; lia.
    + apply s_of_Z_fge. lia.
Qed.

Lemma elevation_angle `{LibM} q :
  q <> S754_nan ->
  exists p, f_to_s 16 (d_mul (atan (d_of_s q)) (d_of_Z 10430)) = Some p /\ Z.abs p <= 16384.
Proof.
  intros Hq.
  assert (Ha : fle 3217 (-11) (atan (d_of_s q))).
  { apply (fle_le (-49) 884279719003555 (-49)); [lia|lia|easy|].
    apply atan_range, d_of_s_not_nan, Hq. }
  apply f_to_s_fle; [easy|].
  apply (fle_le (-11) (3217 * 10430) (-11)); [lia|lia|easy|].
  apply (d_mul_fle 3217 (-11) 10430 0); try easy.
Qed.

Lemma elevation_some `{LibM} ax az :
  -32768 <= ax < 32768 -> -32768 <= az < 32768 -> ax <> 0 \/ az <> 0 ->
  exists p, imu_elevation ax az = Some (if 0 <? ax then i16 (p + 32768) else p)
            /\ Z.abs p <= 16384.
Proof.
  intros Hax Haz Hnz.
  destruct (elevation_angle _ (elevation_quotient ax az Hax Haz Hnz)) as (p & Hp & Hb).
  exists p. split; [|exact Hb]. unfold imu_elevation. cbv zeta. rewrite Hp. reflexivity.
Qed.

Lemma elevation_dead `{LibM} : imu_elevation 0 0 = None.
Proof.
  unfold imu_elevation.
  assert (s_div (f_opp (s_of_Z 0)) (s_of_Z 0) = S754_nan) as -> by reflexivity.
  simpl d_of_s. rewrite atan_nan. reflexivity.
Qed.

(** Unless both accelerations are zero the elevation estimate is defined
    (no out-of-range conversion, whatever [atan] returns in its documented
    range): it lies within 90 degrees of the horizon when [accel_x <= 0], and on
    the far side, at least 90 degrees away, when [accel_x > 0]. *)
Theorem imu_elevation_defined `{LibM} (ax az : Z) :
  -32768 <= ax < 32768 -> -32768 <= az < 32768 -> ax <> 0 \/ az <> 0 ->
  exists p, imu_elevation ax az = Some p /\ -32768 <= p < 32768 /\
    (ax <= 0 -> -16384 <= p <= 16384) /\ (0 < ax -> p <= -16384 \/ 16384 <= p).
Proof.
  intros Hax Haz Hnz.
  destruct (elevation_some ax az Hax Haz Hnz) as (p & -> & Hb).
  eexists. split; [reflexivity|].
  case_bool.
  - split_and!; [apply i16_range | apply i16_range | lia |]. intros _. cint.
  - lia.
Qed.

Lemma imu_elevation_defined_witness :
  exists p, @imu_elevation libm_coarse (-4096) 0 = Some p /\ -32768 <= p < 32768 /\
    (-4096 <= 0 -> -16384 <= p <= 16384) /\ (0 < -4096 -> p <= -16384 \/ 16384 <= p).
Proof. apply (@imu_elevation_defined libm_coarse (-4096) 0); lia. Defined.

(** With both accelerations zero (a dead accelerometer, the very case the
    control loop's failsafe tests for) the estimate divides zero by zero and
    converts NaN to an integer, which C leaves undefined. *)
Theorem imu_elevation_dead_sensor `{LibM} : imu_elevation 0 0 = None.
Proof. apply elevation_dead. Qed.

(** ** Gyroscope filter *)

Definition sumZ (l : list Z) : Z := foldr Z.add 0 l.

Lemma imu_ok_spec s :
  imu_ok s = true <->
  (-32768 <= imu_accel_x s < 32768 /\ -32768 <= imu_accel_y s < 32768 /\
   -32768 <= imu_accel_z s < 32768) /\
  (0 <= imu_rot_x s < 65536 /\ 0 <= imu_rot_y s < 65536 /\ 0 <= imu_rot_y0 s < 65536 /\
   0 <= imu_rot_z s < 65536) /\
  (-32768 <= imu_el_pos s < 32768 /\ -32768 <= imu_el_off s < 32768 /\
   -32768 <= imu_el_spd s < 32768).
Proof. unfold imu_ok. rewrite !andb_true_iff, !in_s_spec, !in_u_spec. simpl Z.pow. tauto. Qed.

Lemma imu_can_step_spec t s :
  im_pc t = Estimate -> imu_can_step t s = true ->
  imu_accel_x s <> 0 \/ imu_accel_z s <> 0.
Proof. intros Hpc. unfold imu_can_step. rewrite Hpc. intros H. bools. lia. Qed.

Lemma imu_thread_ok_spec t :
  imu_thread_ok t = true <->
  0 <= im_cntr t < 5 /\ Z.abs (im_accu t) <= im_cntr t * gyro_delta_max.
Proof. unfold imu_thread_ok. rewrite !andb_true_iff, !Z.leb_le, Z.ltb_lt. tauto. Qed.

(** With readings in the range of their type and at most four samples pending,
    the sum does not overflow. *)
Lemma gyro_accumulate_defined a c r r0 :
  0 <= r < 65536 -> 0 <= r0 < 65536 -> 0 <= c < 5 -> Z.abs a <= c * gyro_delta_max ->
  gyro_accumulate a r r0 = Some (a - (r - r0) * 11) /\
  Z.abs (a - (r - r0) * 11) <= (c + 1) * gyro_delta_max.
Proof.
  unfold gyro_delta_max. intros Hr Hr0 Hc Ha. unfold gyro_accumulate. cbv zeta.
  rewrite (check_true (_ && _)).
  - split; [cbn [mbind option_bind]; f_equal; lia | lia].
  - apply andb_true_iff. rewrite !in_s_spec. simpl Z.pow. lia.
Qed.

(** One estimation before, and at, the fifth sample. *)
Lemma imu_estimate_early `{LibM} pc a c s pos a' :
  imu_elevation (imu_accel_x s) (imu_accel_z s) = Some pos -> 0 <= c < 4 ->
  gyro_accumulate a (imu_rot_y s) (imu_rot_y0 s) = Some a' ->
  imu_estimate (ImuThread pc a c) s =
  Some (ImuThread SelAccelZ a' (c + 1), imu_set_el pos (imu_el_spd s) s).
Proof.
  intros E Hc Ea. unfold imu_estimate. rewrite E.
  cbn [im_accu im_cntr mbind option_bind]. rewrite Ea. cbn [mbind option_bind].
  rewrite u8_id by lia. rewrite (proj2 (Z.leb_gt _ _)) by lia. reflexivity.
Qed.

Lemma imu_estimate_fifth `{LibM} pc a s pos a' :
  imu_elevation (imu_accel_x s) (imu_accel_z s) = Some pos ->
  gyro_accumulate a (imu_rot_y s) (imu_rot_y0 s) = Some a' ->
  imu_estimate (ImuThread pc a 4) s =
  Some (ImuThread SelAccelZ 0 0, imu_set_el pos (i16 (cdiv a' 5)) s).
Proof.
  intros E Ea. unfold imu_estimate. rewrite E.
  cbn [im_accu im_cntr mbind option_bind]. rewrite Ea. reflexivity.
Qed.

Lemma imu_run_cons `{LibM} t s r rs t1 s1 :
  imu_estimate t (imu_set_rot (imu_rot_x s) r (imu_rot_z s) s) = Some (t1, s1) ->
  imu_run_estimates t s (r :: rs) = imu_run_estimates t1 s1 rs.
Proof. intros E. simpl. rewrite E. reflexivity. Qed.

(** Five consecutive estimations from a reset filter publish the truncated
    mean of [-11 * (rot_y - rot_y0)] over the five readings, wrapped to sixteen
    bits, and leave the filter reset; when every reading is within 2978 counts
    of the bias the wrap changes nothing. *)
Theorem imu_speed_mean `{LibM} (s : imu_state) (pc : imu_pc) (r1 r2 r3 r4 r5 : Z) :
  imu_ok s = true -> imu_accel_x s <> 0 \/ imu_accel_z s <> 0 ->
  Forall (fun r => 0 <= r < 4096) [r1; r2; r3; r4; r5] ->
  let mean := cdiv (-11 * (sumZ [r1; r2; r3; r4; r5] - 5 * imu_rot_y0 s)) 5 in
  exists s', imu_run_estimates (ImuThread pc 0 0) s [r1; r2; r3; r4; r5]
             = Some (ImuThread SelAccelZ 0 0, s') /\
    imu_el_spd s' = i16 mean /\
    (Forall (fun r => Z.abs (r - imu_rot_y0 s) <= 2978) [r1; r2; r3; r4; r5] ->
     imu_el_spd s' = mean).
Proof.
  intros Hok Hnz Hr mean. apply imu_ok_spec in Hok. destruct Hok as ((Hx & _ & Hz) & (_ & _ & Hy0 & _) & _).
  destruct (elevation_some _ _ Hx Hz Hnz) as (p & Hp & _).
  set (pos := if 0 <? _ then _ else _) in Hp.
  forall_inv.
  eexists. split.
  { do 4 (erewrite imu_run_cons;
      [|apply imu_estimate_early with (pos := pos);
        [exact Hp | lia | eapply gyro_accumulate_defined with (c := 4); unfold gyro_delta_max; cbn; lia]]).
    erewrite imu_run_cons;
      [|apply imu_estimate_fifth with (pos := pos);
        [exact Hp | eapply gyro_accumulate_defined with (c := 4); unfold gyro_delta_max; cbn; lia]].
    reflexivity. }
  cbn -[wraps cdiv mean Z.mul Z.sub].
  match goal with |- i16 (cdiv ?a 5) = _ /\ _ =>
    replace (cdiv a 5) with mean by (unfold mean, sumZ; simpl foldr; f_equal; lia) end.
  split; [reflexivity|]. intros Hd. forall_inv.
  apply i16_id. unfold mean, sumZ. simpl foldr. zlia.
Qed.

Lemma imu_speed_mean_witness :
  exists s', @imu_run_estimates libm_coarse (ImuThread SelAccelZ 0 0)
      (imu_set_accel (-4096) 0 0 imu_state0) [2100; 2101; 2099; 2100; 2102]
             = Some (ImuThread SelAccelZ 0 0, s') /\
    imu_el_spd s' = i16 (cdiv (-11 * (sumZ [2100; 2101; 2099; 2100; 2102] - 5 * 2070)) 5) /\
    (Forall (fun r => Z.abs (r - 2070) <= 2978) [2100; 2101; 2099; 2100; 2102] ->
     imu_el_spd s' = cdiv (-11 * (sumZ [2100; 2101; 2099; 2100; 2102] - 5 * 2070)) 5).
Proof.
  apply (@imu_speed_mean libm_coarse (imu_set_accel (-4096) 0 0 imu_state0) SelAccelZ);
    [reflexivity | left; discriminate | repeat constructor; lia].
Defined.

(** ** Calibration *)

Lemma imu_calibrate_add_defined accu s :
  0 <= imu_rot_y s < 65536 -> 0 <= accu < 2147418112 ->
  imu_calibrate_add accu s = Some (accu + imu_rot_y s).
Proof.
  intros Hy Ha. unfold imu_calibrate_add. rewrite check_true; [reflexivity|].
  apply in_s_spec. simpl Z.pow. lia.
Qed.

Lemma calibrate_sum_bounds lo hi s rs : forall acc,
  Forall (fun r => lo <= r <= hi) rs -> 0 <= lo -> hi < 65536 -> 0 <= acc ->
  acc + hi * Z.of_nat (length rs) < 2147418112 ->
  exists sum, imu_calibrate_sum acc s rs = Some sum /\
    acc + lo * Z.of_nat (length rs) <= sum <= acc + hi * Z.of_nat (length rs).
Proof.
  induction rs as [|r rs IH]; intros acc Hrs Hlo Hhi Hacc Hmax;
    [exists acc; split; [reflexivity | simpl; lia]|].
  inversion_clear Hrs. simpl imu_calibrate_sum. simpl length in *.
  rewrite Nat2Z.inj_succ, Z.mul_succ_r in Hmax. rewrite Nat2Z.inj_succ, !Z.mul_succ_r.
  assert (0 <= hi * Z.of_nat (length rs)) by nia.
  rewrite imu_calibrate_add_defined by (cbn; lia). cbn [mbind option_bind imu_rot_y imu_set_rot].
  destruct (IH (acc + r)) as (sum & -> & Hs); [assumption|lia|lia|lia|lia|].
  exists sum. split; [reflexivity | lia].
Qed.

(** The bias [imu_calibrate] stores is the mean of its hundred readings, so it
    lies between the smallest and the largest of them; no intermediate sum
    overflows. *)
Theorem imu_calibrate_mean (s : imu_state) (rs : list Z) (lo hi : Z) :
  length rs = 100%nat -> Forall (fun r => lo <= r <= hi) rs -> 0 <= lo -> hi < 65536 ->
  exists accu, imu_calibrate_sum 0 s rs = Some accu /\
    lo <= imu_rot_y0 (imu_calibrate_end accu s) <= hi.
Proof.
  intros Hlen Hrs Hlo Hhi.
  assert (lo <= hi).
  { destruct rs as [|r rs]; [discriminate|]. inversion_clear Hrs. lia. }
  destruct (calibrate_sum_bounds lo hi s rs 0 Hrs) as (accu & E & Hs); rewrite ?Hlen; try lia.
  rewrite Hlen in Hs. exists accu. split; [exact E|].
  unfold imu_calibrate_end. cbn [imu_rot_y0 imu_set_rot_y0]. rewrite u16_id; zlia.
Qed.

Lemma imu_calibrate_mean_witness :
  exists accu, imu_calibrate_sum 0 imu_state0 (replicate 100 2070) = Some accu /\
    2070 <= imu_rot_y0 (imu_calibrate_end accu imu_state0) <= 2070.
Proof.
  apply (imu_calibrate_mean imu_state0 (replicate 100 2070) 2070 2070);
    [reflexivity | repeat constructor; lia | lia | lia].
Defined.

(** ** The whole step *)

Lemma imu_set_accel_ok x y z s :
  imu_ok s = true -> -32768 <= x < 32768 -> -32768 <= y < 32768 -> -32768 <= z < 32768 ->
  imu_ok (imu_set_accel x y z s) = true.
Proof. rewrite !imu_ok_spec. destruct s; simpl. tauto. Qed.

Lemma imu_set_rot_ok x y z s :
  imu_ok s = true -> 0 <= x < 65536 -> 0 <= y < 65536 -> 0 <= z < 65536 ->
  imu_ok (imu_set_rot x y z s) = true.
Proof. rewrite !imu_ok_spec. destruct s; simpl. tauto. Qed.

Lemma imu_set_el_ok p v s :
  imu_ok s = true -> -32768 <= p < 32768 -> -32768 <= v < 32768 ->
  imu_ok (imu_set_el p v s) = true.
Proof. rewrite !imu_ok_spec. destruct s; simpl. tauto. Qed.

Lemma imu_estimate_ok `{LibM} t s :
  imu_ok s = true -> imu_thread_ok t = true ->
  imu_accel_x s <> 0 \/ imu_accel_z s <> 0 ->
  exists t' s', imu_estimate t s = Some (t', s') /\ imu_ok s' = true /\ imu_thread_ok t' = true.
Proof.
  intros Hok Ht Hnz.
  pose proof (proj1 (imu_ok_spec s) Hok) as ((Hx & _ & Hz) & (_ & Hy & Hy0 & _) & (_ & _ & Hv)).
  destruct (elevation_some _ _ Hx Hz Hnz) as (p & Hpos & Hb).
  set (pos := if 0 <? _ then _ else _) in Hpos.
  assert (Hr : -32768 <= pos < 32768).
  { unfold pos. case_bool; [apply i16_range | lia]. }
  apply imu_thread_ok_spec in Ht as [Hc Ha]. destruct t as [pc a c]. cbn in Hc, Ha.
  destruct (gyro_accumulate_defined a c (imu_rot_y s) (imu_rot_y0 s)) as [Ea Hb']; try lia.
  destruct (Z.eq_dec c 4) as [->|Hc4].
  - rewrite (imu_estimate_fifth pc a s pos _ Hpos Ea). do 2 eexists. split; [reflexivity|].
    split; [|reflexivity]. apply imu_set_el_ok; auto. apply i16_range.
  - rewrite (imu_estimate_early pc a c s pos _ Hpos) by (exact Ea || lia). do 2 eexists.
    split; [reflexivity|]. split; [apply imu_set_el_ok; auto|].
    apply imu_thread_ok_spec. cbn [im_cntr im_accu]. lia.
Qed.

Lemma imu_step_total {D} `{SpiBus D} `{LibM} (d : D) (t : imu_thread) (s : imu_state) :
  imu_ok s = true -> imu_thread_ok t = true ->
  match imu_step d t s with
  | Some (_, t', s') => imu_can_step t s = true /\ imu_ok s' = true /\ imu_thread_ok t' = true
  | None => imu_can_step t s = false
  end.
Proof.
  intros Hok Ht. pose proof (proj1 (imu_ok_spec s) Hok) as Hr.
  destruct t as [pc a c]. unfold imu_step. cbn [im_pc im_accu im_cntr].
  destruct pc;
    try (destruct (imu_exchange _ d _) as [d1 miso]; split; [reflexivity|];
         split; [|exact Ht]; try exact Hok;
         pose proof (adc12_range miso);
         solve [apply imu_set_accel_ok; auto; try apply i16_range; tauto
               |apply imu_set_rot_ok; auto; try tauto; lia]).
  destruct (decide (imu_accel_x s = 0 /\ imu_accel_z s = 0)) as [[Ex Ez]|Hnz].
  - unfold imu_estimate. rewrite Ex, Ez, elevation_dead.
    unfold imu_can_step; simpl. rewrite Ex, Ez. reflexivity.
  - destruct (imu_estimate_ok (ImuThread Estimate a c) s Hok Ht) as (t' & s' & -> & H1 & H2);
      [lia|]. simpl. split; [|auto]. unfold imu_can_step; simpl.
    apply negb_true_iff, andb_false_iff. rewrite !Z.eqb_neq. lia.
Qed.

(** C40: from a state of the thread's loop (every variable in the range of its
    type, at most four samples pending in the filter and their sum no larger
    than they can make it, which is how the loop starts) a step of the sampling
    thread is defined, its sums without overflow and its conversions in range,
    exactly when it is not an estimation with both accelerations zero; and the
    state it leaves is again such a state. *)
Theorem imu_step_defined {D} `{SpiBus D} `{LibM} (d : D) (t : imu_thread) (s : imu_state) :
  imu_ok s = true -> imu_thread_ok t = true ->
  match imu_step d t s with
  | Some (_, t', s') => imu_can_step t s = true /\ imu_ok s' = true /\ imu_thread_ok t' = true
  | None => imu_can_step t s = false
  end.
Proof. apply imu_step_total. Qed.

Lemma imu_step_defined_witness :
  match @imu_step _ _ libm_coarse (SpiScript [31; 255] [] []) (ImuThread GetAccelX 0 0) imu_state0 with
  | Some (_, t', s') =>
      imu_can_step (ImuThread GetAccelX 0 0) imu_state0 = true /\ imu_ok s' = true
      /\ imu_thread_ok t' = true
  | None => imu_can_step (ImuThread GetAccelX 0 0) imu_state0 = false
  end.
Proof.
  apply (@imu_step_defined _ _ libm_coarse (SpiScript [31; 255] [] []) (ImuThread GetAccelX 0 0) imu_state0);
    reflexivity.
Defined.
