(* ===== verification/Debug.v ===== *)
(** * The debug bucket (debug.c)

    A shared array that the control and oscillator threads append messages to
    and the HTTP thread empties.  The first half is the code run by one thread
    at a time, with its refinement to a bounded log.  The second half is the
    code as it really runs: several threads, preempted between any two byte
    accesses, with no lock.  Behind it comes the kernel's own trace
    (chtrace.c). *)

From S2P Require Import Prelude CInt CLib.

(** ** The code, uninterrupted *)

Definition DEBUG_BUCKET_SIZE : Z := 4096.

Definition bucket0 : list Z := replicate 4096 0%Z.

(** [debug_print(str)]: the message is appended when it fits with room to
    spare, and dropped otherwise. *)
Definition debug_print (bucket str : list Z) : option (list Z) :=
  used ← strlen bucket;
  in_len ← strlen str;
  if in_len + 1 <? DEBUG_BUCKET_SIZE - used
  then memcpy bucket used str (in_len + 1)
  else Some bucket.

(** [debug_emty_bucket(ret)]: the terminated string is copied out ([strcpy]) and
    the bucket's first byte cleared. *)
Definition debug_emty_bucket (ret bucket : list Z) : option (list Z * list Z) :=
  used ← strlen bucket;
  ret' ← memcpy ret 0 bucket (used + 1);
  bucket' ← wr bucket 0 0;
  Some (ret', bucket').

(** ** Preempted execution *)

(** Where a thread is inside [debug_print] or [debug_emty_bucket]:
    - [DScan msg i]: [strlen(bucket)] has passed [i] nonzero bytes;
    - [DCopy msg used k]: [memcpy] has copied [k] bytes to [&bucket[used]];
    - [DDrain i]: [strcpy] has copied [i] bytes out of the bucket;
    - [DClear]: about to execute [bucket[0] = 0]. *)
Inductive dbg_pc :=
| DIdle
| DScan (msg : list Z) (i : Z)
| DCopy (msg : list Z) (used k : Z)
| DDrain (i : Z)
| DClear.

(** One byte access of a thread that is inside a call. *)
Definition dbg_access (bucket : list Z) (pc : dbg_pc) : option (list Z * dbg_pc) :=
  match pc with
  | DIdle => Some (bucket, DIdle)
  | DScan msg i =>
      b ← rd bucket i;
      if b =? 0
      then if Z.of_nat (length msg) + 1 <? DEBUG_BUCKET_SIZE - i
           then Some (bucket, DCopy msg i 0) else Some (bucket, DIdle)
      else Some (bucket, DScan msg (i + 1))
  | DCopy msg used k =>
      if k <? Z.of_nat (length msg) + 1
      then bucket' ← wr bucket (used + k) (nth (Z.to_nat k) msg 0);
           Some (bucket', DCopy msg used (k + 1))
      else Some (bucket, DIdle)
  | DDrain i =>
      b ← rd bucket i;
      if b =? 0 then Some (bucket, DClear) else Some (bucket, DDrain (i + 1))
  | DClear => bucket' ← wr bucket 0 0; Some (bucket', DIdle)
  end.

(** A configuration is the bucket and the threads; a step is one access by one
    thread, or the start of a call by an idle one. *)
Definition dbg_config : Type := list Z * list dbg_pc.

Inductive dbg_step : dbg_config -> dbg_config -> Prop :=
| dbg_run bucket ths t pc bucket' pc' :
    ths !! t = Some pc -> dbg_access bucket pc = Some (bucket', pc') ->
    dbg_step (bucket, ths) (bucket', <[t := pc']> ths)
| dbg_call_print bucket ths t msg :
    ths !! t = Some DIdle ->
    dbg_step (bucket, ths) (bucket, <[t := DScan msg 0]> ths)
| dbg_call_empty bucket ths t :
    ths !! t = Some DIdle ->
    dbg_step (bucket, ths) (bucket, <[t := DDrain 0]> ths).

(** ** Specification: a bounded log *)

(** What the bucket is for: messages accumulate until they no longer fit. *)
Definition log_append (log msg : list Z) : list Z :=
  if Z.of_nat (length msg) + 1 <? DEBUG_BUCKET_SIZE - Z.of_nat (length log)
  then log ++ msg else log.

(** The bucket represents the log. *)
Definition bucket_rep (bucket log : list Z) : Prop :=
  length bucket = 4096%nat /\ cstr bucket = Some log.

(** ** Invariant of the preempted execution *)

Definition bucket_ok (bucket : list Z) : Prop :=
  length bucket = 4096%nat /\ bucket !! 4095%nat = Some 0.

(** A scan has not passed the last byte, and a copy ends before it. *)
Definition pc_ok (pc : dbg_pc) : Prop :=
  match pc with
  | DIdle | DClear => True
  | DScan _ i | DDrain i => 0 <= i < 4096
  | DCopy msg used k => 0 <= used /\ 0 <= k /\ used + Z.of_nat (length msg) + 1 < 4096
  end.

Definition config_ok (c : dbg_config) : Prop :=
  bucket_ok (fst c) /\ Forall pc_ok (snd c).

(** ** Lemmas *)

Lemma strlen_cstr mem s : cstr mem = Some s -> strlen mem = Some (Z.of_nat (length s)).
Proof. intros E. unfold strlen. rewrite E. reflexivity. Qed.

Lemma debug_print_refines_aux bucket log str msg :
  bucket_rep bucket log -> cstr str = Some msg ->
  exists bucket', debug_print bucket str = Some bucket' /\ bucket_rep bucket' (log_append log msg).
Proof.
  intros [Hl Hc] Hm. unfold debug_print, log_append.
  rewrite (strlen_cstr _ _ Hc), (strlen_cstr _ _ Hm). simpl.
  destruct (Z.ltb_spec (Z.of_nat (length msg) + 1) (DEBUG_BUCKET_SIZE - Z.of_nat (length log)))
    as [Hfit|]; [|exists bucket; split; [reflexivity | split; assumption]].
  unfold DEBUG_BUCKET_SIZE in Hfit.
  destruct (cstr_split _ _ Hc) as [post Hb]. destruct (cstr_split _ _ Hm) as [rest Hs].
  assert (Hlen : length bucket = (length log + S (length post))%nat)
    by (rewrite Hb, length_app; reflexivity).
  destruct (memcpy_defined bucket (Z.of_nat (length log)) str (Z.of_nat (length msg) + 1))
    as [bucket' Hcp]; try lia.
  { rewrite Hs, length_app. simpl. lia. }
  exists bucket'. split; [exact Hcp|]. split; [rewrite (memcpy_length _ _ _ _ _ Hcp); exact Hl|].
  unfold memcpy in Hcp. destruct (_ && _) in Hcp; [|discriminate]. injection Hcp as <-.
  rewrite Nat2Z.id.
  assert (take (length log) bucket = log) as -> by (rewrite Hb, take_app_length; reflexivity).
  assert (take (Z.to_nat (Z.of_nat (length msg) + 1)) str = msg ++ [0]) as ->.
  { replace (Z.to_nat (Z.of_nat (length msg) + 1)) with (length (msg ++ [0]))
      by (rewrite length_app; simpl; lia).
    rewrite Hs. change (msg ++ 0 :: rest) with (msg ++ [0] ++ rest).
    rewrite app_assoc, take_app_length. reflexivity. }
  rewrite <- app_assoc. simpl. rewrite app_assoc. apply cstr_app.
  apply Forall_app. split; [exact (cstr_nonzero _ _ Hc) | exact (cstr_nonzero _ _ Hm)].
Qed.

(** C32: [debug_print] implements appending to a bounded log: on a bucket that
    holds [log] it never reads or writes out of bounds, and afterwards the
    bucket holds [log] followed by the message when both and the terminator fit
    with room to spare, and [log] unchanged otherwise. *)
Theorem debug_print_refines (bucket log str msg : list Z) :
  bucket_rep bucket log -> cstr str = Some msg ->
  exists bucket', debug_print bucket str = Some bucket' /\ bucket_rep bucket' (log_append log msg).
Proof. apply debug_print_refines_aux. Qed.

Lemma debug_print_refines_witness :
  exists bucket', debug_print bucket0 [72; 105; 0] = Some bucket' /\
                  bucket_rep bucket' (log_append [] [72; 105]).
Proof.
  apply (debug_print_refines bucket0 [] [72; 105; 0] [72; 105]); [split; reflexivity | reflexivity].
Defined.

(** Messages appended one after the other. *)
Fixpoint debug_print_all (bucket : list Z) (strs : list (list Z)) : option (list Z) :=
  match strs with
  | [] => Some bucket
  | s :: strs' => b ← debug_print bucket s; debug_print_all b strs'
  end.

Lemma debug_print_all_refines msgs : forall bucket log,
  bucket_rep bucket log -> Forall (Forall (fun b => b <> 0)) msgs ->
  exists bucket', debug_print_all bucket ((fun m => m ++ [0]) <$> msgs) = Some bucket'
                  /\ bucket_rep bucket' (fold_left log_append msgs log).
Proof.
  induction msgs as [|m msgs IH]; intros bucket log Hrep Hms; [simpl; eauto|].
  inversion_clear Hms.
  destruct (debug_print_refines_aux bucket log (m ++ [0]) m Hrep) as (b1 & Hb1 & Hrep1).
  { apply cstr_app. assumption. }
  simpl. rewrite Hb1. apply IH; assumption.
Qed.

Lemma debug_drain bucket log ret :
  bucket_rep bucket log -> length ret = 4096%nat ->
  exists ret' bucket', debug_emty_bucket ret bucket = Some (ret', bucket') /\
    cstr ret' = Some log /\ bucket_rep bucket' [].
Proof.
  intros [Hlen Hc] Hret. pose proof (cstr_length _ _ Hc) as Hll.
  unfold debug_emty_bucket. rewrite (strlen_cstr _ _ Hc).
  destruct (memcpy_defined ret 0 bucket (Z.of_nat (length log) + 1)) as [ret' Hcp]; try lia.
  exists ret'. cbn [mbind option_bind]. rewrite Hcp. cbn [mbind option_bind].
  rewrite wr_defined by lia. cbn [mbind option_bind].
  eexists. split; [reflexivity|]. split.
  - unfold memcpy in Hcp. destruct (_ && _) in Hcp; [|discriminate]. injection Hcp as <-.
    destruct (cstr_split _ _ Hc) as [post Hbp].
    assert (take (Z.to_nat (Z.of_nat (length log) + 1)) bucket = log ++ [0]) as ->.
    { replace (Z.to_nat (Z.of_nat (length log) + 1)) with (length (log ++ [0]))
        by (rewrite length_app; simpl; lia).
      rewrite Hbp. change (log ++ 0 :: post) with (log ++ [0] ++ post).
      rewrite app_assoc, take_app_length. reflexivity. }
    simpl. rewrite <- app_assoc. apply cstr_app. exact (cstr_nonzero _ _ Hc).
  - split; [rewrite length_insert; exact Hlen|].
    destruct bucket as [|x b]; [discriminate|]. reflexivity.
Qed.

(** What [debug_emty_bucket] hands out after any sequence of messages is
    exactly the bounded log of those messages, and the bucket is empty again. *)
Theorem debug_drain_returns_log (msgs : list (list Z)) (ret : list Z) :
  Forall (Forall (fun b => b <> 0)) msgs -> length ret = 4096%nat ->
  exists bucket ret' bucket',
    debug_print_all bucket0 ((fun m => m ++ [0]) <$> msgs) = Some bucket /\
    debug_emty_bucket ret bucket = Some (ret', bucket') /\
    cstr ret' = Some (fold_left log_append msgs []) /\ bucket_rep bucket' [].
Proof.
  intros Hms Hret.
  destruct (debug_print_all_refines msgs bucket0 []) as (b & Hb & Hrep);
    [split; reflexivity | exact Hms|].
  destruct (debug_drain b _ ret Hrep Hret) as (ret' & bucket' & Hd). eauto.
Qed.

Lemma debug_drain_returns_log_witness :
  exists bucket ret' bucket',
    debug_print_all bucket0 ((fun m => m ++ [0]) <$> [[72]; [105]]) = Some bucket /\
    debug_emty_bucket bucket0 bucket = Some (ret', bucket') /\
    cstr ret' = Some (fold_left log_append [[72]; [105]] []) /\ bucket_rep bucket' [].
Proof.
  apply (debug_drain_returns_log [[72]; [105]] bucket0);
    [repeat constructor; discriminate | reflexivity].
Defined.

(** *** Preemption *)

Lemma bucket_ok_wr bucket i b bucket' :
  bucket_ok bucket -> i < 4095 -> wr bucket i b = Some bucket' -> bucket_ok bucket'.
Proof.
  intros [Hl Hz] Hi Hw. split; [rewrite (wr_length _ _ _ _ Hw); exact Hl|].
  unfold wr in Hw. case_bool_in Hw; [|discriminate]. injection Hw as <-.
  rewrite list_lookup_insert_ne by lia. exact Hz.
Qed.

Lemma bucket_ok_rd bucket i :
  bucket_ok bucket -> 0 <= i < 4096 ->
  exists b, rd bucket i = Some b /\ (b <> 0 -> i + 1 < 4096).
Proof.
  intros [Hl Hz] Hi. destruct (rd_defined bucket i) as [b Hb]; [lia|].
  exists b. split; [exact Hb|]. intros Hne. destruct (Z.eq_dec i 4095) as [->|]; [|lia].
  change (rd bucket 4095) with (bucket !! 4095%nat) in Hb. congruence.
Qed.

Lemma dbg_access_ok bucket pc :
  bucket_ok bucket -> pc_ok pc ->
  exists bucket' pc', dbg_access bucket pc = Some (bucket', pc') /\ bucket_ok bucket' /\ pc_ok pc'.
Proof.
  intros Hb Hpc. destruct pc as [|msg i|msg used k|i|]; simpl in *.
  - eauto.
  - destruct (bucket_ok_rd bucket i Hb Hpc) as (b & -> & Hlt). cbn [mbind option_bind].
    destruct (Z.eqb_spec b 0) as [|Hn].
    + unfold DEBUG_BUCKET_SIZE. case_bool; do 2 eexists; (split; [reflexivity|]); simpl; split; auto; lia.
    + do 2 eexists. split; [reflexivity|]. simpl. specialize (Hlt Hn). split; [exact Hb | lia].
  - case_bool; [|do 2 eexists; split; [reflexivity | split; [exact Hb | exact I]]].
    rewrite wr_defined by (rewrite (proj1 Hb); lia). cbn [mbind option_bind].
    do 2 eexists. split; [reflexivity|]. split; [|cbn [pc_ok]; lia].
    apply (bucket_ok_wr bucket (used + k) (nth (Z.to_nat k) msg 0) _ Hb);
      [lia | apply wr_defined; rewrite (proj1 Hb); lia].
  - destruct (bucket_ok_rd bucket i Hb Hpc) as (b & -> & Hlt). cbn [mbind option_bind].
    destruct (Z.eqb_spec b 0) as [|Hn]; [do 2 eexists; split; [reflexivity | split; [exact Hb | exact I]]|].
    do 2 eexists. split; [reflexivity|]. simpl. specialize (Hlt Hn). split; [exact Hb | lia].
  - rewrite wr_defined by (rewrite (proj1 Hb); lia). cbn [mbind option_bind].
    do 2 eexists. split; [reflexivity|]. split; [|exact I].
    apply (bucket_ok_wr bucket 0 0 _ Hb);
      [lia | apply wr_defined; rewrite (proj1 Hb); lia].
Qed.

Lemma dbg_step_ok c c' : dbg_step c c' -> config_ok c -> config_ok c'.
Proof.
  intros Hs [Hb Hths]. destruct Hs as [bucket ths t pc bucket' pc' Hpc Ha| |]; simpl in *.
  - destruct (dbg_access_ok bucket pc Hb) as (b1 & p1 & Ha' & Hb1 & Hp1).
    { apply (Forall_lookup_1 _ _ _ _ Hths Hpc). }
    assert (b1 = bucket' /\ p1 = pc') as [-> ->] by (split; congruence).
    split; [exact Hb1 | apply Forall_insert; assumption].
  - split; [exact Hb | apply Forall_insert; [exact Hths | simpl; lia]].
  - split; [exact Hb | apply Forall_insert; [exact Hths | simpl; lia]].
Qed.

(** However the byte accesses of any number of threads printing to and
    emptying the bucket are interleaved, no access is ever out of bounds: in
    every reachable configuration each thread's next access is defined, because
    the last byte of the bucket is never written and every scan stops at it.
    (The interleaving can lose or mix messages; it cannot corrupt memory.) *)
Theorem debug_interleaving_safe (n : nat) (c : dbg_config) :
  rtc dbg_step (bucket0, replicate n DIdle) c ->
  Forall (fun pc => is_Some (dbg_access (fst c) pc)) (snd c) /\ cstr (fst c) <> None.
Proof.
  intros Hr. assert (Hok : config_ok c).
  { remember (bucket0, replicate n DIdle) as c0 eqn:E.
    assert (H0 : config_ok c0).
    { subst. split; [split; reflexivity|]. apply Forall_replicate. exact I. }
    clear E. induction Hr as [|c0 c1 c2 Hs _ IH]; [exact H0|].
    apply IH. exact (dbg_step_ok _ _ Hs H0). }
  destruct Hok as [Hb Hths]. split.
  - eapply Forall_impl; [exact Hths|]. intros pc Hpc.
    destruct (dbg_access_ok _ _ Hb Hpc) as (b' & pc' & -> & _). eauto.
  - destruct (cstr_defined (fst c)) as [s ->]; [|discriminate].
    apply list_elem_of_lookup. exists 4095%nat. apply Hb.
Qed.

(** A reachable configuration in which two writers race: both have measured the
    bucket before either copies. *)
Lemma debug_interleaving_safe_witness :
  Forall (fun pc => is_Some (dbg_access bucket0 pc)) [DCopy [65] 0 0; DScan [66] 0]
  /\ cstr bucket0 <> None.
Proof.
  apply (debug_interleaving_safe 2 (bucket0, [DCopy [65] 0 0; DScan [66] 0])).
  eapply rtc_l; [apply (dbg_call_print bucket0 _ 0%nat [65]); reflexivity|].
  eapply rtc_l; [apply (dbg_call_print bucket0 _ 1%nat [66]); reflexivity|].
  eapply rtc_l; [apply (dbg_run bucket0 _ 0%nat (DScan [65] 0)); reflexivity|].
  apply rtc_refl.
Defined.

(** ** The kernel's trace (chtrace.h, chtrace.c)

    The circular buffer in which the kernel records what happens.  The theorem: read from
    the oldest entry on, it holds the last [CH_DBG_TRACE_BUFFER_SIZE] events of the kinds
    that were not suspended when they happened. *)

(** *** Data *)

Definition CH_TRACE_TYPE_UNUSED : Z := 0.
Definition CH_TRACE_TYPE_READY : Z := 1.
Definition CH_TRACE_TYPE_SWITCH : Z := 2.
Definition CH_TRACE_TYPE_ISR_ENTER : Z := 3.
Definition CH_TRACE_TYPE_ISR_LEAVE : Z := 4.
Definition CH_TRACE_TYPE_HALT : Z := 5.
Definition CH_TRACE_TYPE_USER : Z := 6.

Definition CH_DBG_TRACE_MASK_READY : Z := 1.
Definition CH_DBG_TRACE_MASK_SWITCH : Z := 2.
Definition CH_DBG_TRACE_MASK_ISR : Z := 4.
Definition CH_DBG_TRACE_MASK_HALT : Z := 8.
Definition CH_DBG_TRACE_MASK_USER : Z := 16.
Definition CH_DBG_TRACE_MASK_ALL : Z :=
  Z.lor CH_DBG_TRACE_MASK_READY (Z.lor CH_DBG_TRACE_MASK_SWITCH (Z.lor CH_DBG_TRACE_MASK_ISR
    (Z.lor CH_DBG_TRACE_MASK_HALT CH_DBG_TRACE_MASK_USER))).

Definition CH_DBG_TRACE_MASK : Z := CH_DBG_TRACE_MASK_ALL.
Definition CH_DBG_TRACE_BUFFER_SIZE : Z := 128.

(** The union of an entry; threads, objects and strings are their addresses. *)
Inductive trace_union :=
| TrSw (ntp wtobjp : Z)
| TrRdy (tp msg : Z)
| TrIsr (name : Z)
| TrHalt (reason : Z)
| TrUser (up1 up2 : Z).

(** The bit fields are three, five and twenty-four bits wide. *)
Record trace_event_t := TraceEvent {
  te_type : Z;
  te_state : Z;
  te_rtstamp : Z;
  te_time : Z;
  te_u : trace_union
}.

Record trace_buffer_t := TraceBuffer {
  tb_suspended : Z;
  tb_size : Z;
  tb_ptr : nat;
  tb_buffer : list trace_event_t
}.

(** *** Operations *)

Definition u24 (z : Z) : Z := z mod 2 ^ 24.

(** The entries' other fields are whatever is in the memory. *)
Definition trace_object_init (mem : list trace_event_t) : trace_buffer_t :=
  TraceBuffer (u16 (Z.lnot CH_DBG_TRACE_MASK)) CH_DBG_TRACE_BUFFER_SIZE 0
    ((fun e => TraceEvent CH_TRACE_TYPE_UNUSED (te_state e) (te_rtstamp e) (te_time e) (te_u e)) <$>
       take (Z.to_nat CH_DBG_TRACE_BUFFER_SIZE) mem).

(** The entry under the pointer is written; the time and the realtime counter are read. *)
Definition trace_next (time rt ty state : Z) (u : trace_union) (tbp : trace_buffer_t) : trace_buffer_t :=
  let e := TraceEvent ty (state mod 32) (u24 rt) time u in
  let ptr := S (tb_ptr tbp) in
  TraceBuffer (tb_suspended tbp) (tb_size tbp) (if CH_DBG_TRACE_BUFFER_SIZE <=? Z.of_nat ptr then O else ptr)
    (<[tb_ptr tbp := e]> (tb_buffer tbp)).

Definition trace_put (mask time rt ty state : Z) (u : trace_union) (tbp : trace_buffer_t) : trace_buffer_t :=
  if Z.land (tb_suspended tbp) mask =? 0 then trace_next time rt ty state u tbp else tbp.

(** The state of the thread [tp], or of the one switched out, is an argument. *)
Definition trace_ready (time rt tp state msg : Z) : trace_buffer_t -> trace_buffer_t :=
  trace_put CH_DBG_TRACE_MASK_READY time rt CH_TRACE_TYPE_READY state (TrRdy tp msg).
Definition trace_switch (time rt ntp ostate owtobjp : Z) : trace_buffer_t -> trace_buffer_t :=
  trace_put CH_DBG_TRACE_MASK_SWITCH time rt CH_TRACE_TYPE_SWITCH ostate (TrSw ntp owtobjp).
Definition trace_isr_enter (time rt isr : Z) : trace_buffer_t -> trace_buffer_t :=
  trace_put CH_DBG_TRACE_MASK_ISR time rt CH_TRACE_TYPE_ISR_ENTER 0 (TrIsr isr).
Definition trace_isr_leave (time rt isr : Z) : trace_buffer_t -> trace_buffer_t :=
  trace_put CH_DBG_TRACE_MASK_ISR time rt CH_TRACE_TYPE_ISR_LEAVE 0 (TrIsr isr).
Definition trace_halt (time rt reason : Z) : trace_buffer_t -> trace_buffer_t :=
  trace_put CH_DBG_TRACE_MASK_HALT time rt CH_TRACE_TYPE_HALT 0 (TrHalt reason).
Definition chTraceWriteI (time rt up1 up2 : Z) : trace_buffer_t -> trace_buffer_t :=
  trace_put CH_DBG_TRACE_MASK_USER time rt CH_TRACE_TYPE_USER 0 (TrUser up1 up2).

Definition chTraceSuspendI (mask : Z) (tbp : trace_buffer_t) : trace_buffer_t :=
  TraceBuffer (u16 (Z.lor (tb_suspended tbp) mask)) (tb_size tbp) (tb_ptr tbp) (tb_buffer tbp).
Definition chTraceResumeI (mask : Z) (tbp : trace_buffer_t) : trace_buffer_t :=
  TraceBuffer (u16 (Z.land (tb_suspended tbp) (Z.lnot mask))) (tb_size tbp) (tb_ptr tbp) (tb_buffer tbp).

(** *** Runs *)

(** What happens, with the readings of the two clocks. *)
Inductive trace_op :=
| TReady (tp state msg : Z)
| TSwitch (ntp ostate owtobjp : Z)
| TIsrEnter (isr : Z)
| TIsrLeave (isr : Z)
| THalt (reason : Z)
| TWrite (up1 up2 : Z)
| TSuspend (mask : Z)
| TResume (mask : Z).

Definition trace_exec (time rt : Z) (op : trace_op) (tbp : trace_buffer_t) : trace_buffer_t :=
  match op with
  | TReady tp state msg => trace_ready time rt tp state msg tbp
  | TSwitch ntp ostate owtobjp => trace_switch time rt ntp ostate owtobjp tbp
  | TIsrEnter isr => trace_isr_enter time rt isr tbp
  | TIsrLeave isr => trace_isr_leave time rt isr tbp
  | THalt reason => trace_halt time rt reason tbp
  | TWrite up1 up2 => chTraceWriteI time rt up1 up2 tbp
  | TSuspend mask => chTraceSuspendI mask tbp
  | TResume mask => chTraceResumeI mask tbp
  end.

Definition trace_run (ops : list (Z * Z * trace_op)) (tbp : trace_buffer_t) : trace_buffer_t :=
  foldl (fun tb p => trace_exec p.1.1 p.1.2 p.2 tb) tbp ops.

(** What the buffer shows, the oldest entry first. *)
Definition trace_shows (tbp : trace_buffer_t) : list trace_event_t :=
  filter (fun e => te_type e <> CH_TRACE_TYPE_UNUSED) (drop (tb_ptr tbp) (tb_buffer tbp) ++ take (tb_ptr tbp) (tb_buffer tbp)).

(** *** Specification: a log *)

(** The kind of an event, and its entry. *)
Definition trace_kind (op : trace_op) : Z :=
  match op with
  | TReady _ _ _ => CH_DBG_TRACE_MASK_READY
  | TSwitch _ _ _ => CH_DBG_TRACE_MASK_SWITCH
  | TIsrEnter _ | TIsrLeave _ => CH_DBG_TRACE_MASK_ISR
  | THalt _ => CH_DBG_TRACE_MASK_HALT
  | TWrite _ _ => CH_DBG_TRACE_MASK_USER
  | _ => 0
  end.

Definition trace_entry (time rt : Z) (op : trace_op) : list trace_event_t :=
  match op with
  | TReady tp state msg => [TraceEvent CH_TRACE_TYPE_READY (state mod 32) (u24 rt) time (TrRdy tp msg)]
  | TSwitch ntp ostate owtobjp => [TraceEvent CH_TRACE_TYPE_SWITCH (ostate mod 32) (u24 rt) time (TrSw ntp owtobjp)]
  | TIsrEnter isr => [TraceEvent CH_TRACE_TYPE_ISR_ENTER 0 (u24 rt) time (TrIsr isr)]
  | TIsrLeave isr => [TraceEvent CH_TRACE_TYPE_ISR_LEAVE 0 (u24 rt) time (TrIsr isr)]
  | THalt reason => [TraceEvent CH_TRACE_TYPE_HALT 0 (u24 rt) time (TrHalt reason)]
  | TWrite up1 up2 => [TraceEvent CH_TRACE_TYPE_USER 0 (u24 rt) time (TrUser up1 up2)]
  | _ => []
  end.

(** The kinds that are suspended, by their bit, and the events of the others. *)
Definition trace_off (op : trace_op) (off : nat -> bool) : nat -> bool :=
  match op with
  | TSuspend mask => fun i => off i || Z.testbit mask (Z.of_nat i)
  | TResume mask => fun i => off i && negb (Z.testbit mask (Z.of_nat i))
  | _ => off
  end.

Definition trace_bit (op : trace_op) : nat :=
  match op with
  | TReady _ _ _ => 0
  | TSwitch _ _ _ => 1
  | TIsrEnter _ | TIsrLeave _ => 2
  | THalt _ => 3
  | _ => 4
  end.

Fixpoint trace_log (off : nat -> bool) (ops : list (Z * Z * trace_op)) : list trace_event_t :=
  match ops with
  | [] => []
  | (time, rt, op) :: ops =>
      (if off (trace_bit op) then [] else trace_entry time rt op) ++ trace_log (trace_off op off) ops
  end.

(** *** Refinement *)

Definition trace_ring (tb : trace_buffer_t) : list trace_event_t :=
  drop (tb_ptr tb) (tb_buffer tb) ++ take (tb_ptr tb) (tb_buffer tb).

Definition is_used (e : trace_event_t) : Prop := te_type e <> CH_TRACE_TYPE_UNUSED.

(** A full ring of used entries behind the unused ones; the log ends with the former. *)
Definition trace_rep (tb : trace_buffer_t) (off : nat -> bool) (log : list trace_event_t) : Prop :=
  length (tb_buffer tb) = 128%nat /\ (tb_ptr tb < 128)%nat /\
  (forall i, (i < 5)%nat -> Z.testbit (tb_suspended tb) (Z.of_nat i) = off i) /\
  Forall is_used log /\
  exists unused, Forall (fun e => te_type e = CH_TRACE_TYPE_UNUSED) unused /\
    trace_ring tb = unused ++ drop (length log - 128) log /\ (unused = [] \/ (length log < 128)%nat).

Lemma filter_used l : Forall is_used l -> filter (fun e => te_type e <> CH_TRACE_TYPE_UNUSED) l = l.
Proof. induction 1 as [|e l He Hl IH]; [reflexivity|]. rewrite filter_cons_True by exact He. rewrite IH. reflexivity. Qed.

Lemma filter_unused l : Forall (fun e => te_type e = CH_TRACE_TYPE_UNUSED) l -> filter (fun e => te_type e <> CH_TRACE_TYPE_UNUSED) l = [].
Proof. induction 1 as [|e l He Hl IH]; [reflexivity|]. rewrite filter_cons_False by (intros Hx; apply Hx, He). exact IH. Qed.

Lemma trace_shows_rep tb off log : trace_rep tb off log -> trace_shows tb = drop (length log - 128) log.
Proof.
  intros (_ & _ & _ & Hu & unused & Hn & Hr & _). unfold trace_shows. fold (trace_ring tb).
  rewrite Hr, filter_app, (filter_unused _ Hn), filter_used by (apply Forall_drop, Hu). reflexivity.
Qed.

(** Writing at the pointer drops the oldest entry and adds the newest. *)
Lemma trace_ring_next time rt ty state u tb : length (tb_buffer tb) = 128%nat -> (tb_ptr tb < 128)%nat ->
  let tb' := trace_next time rt ty state u tb in
  trace_ring tb' = tail (trace_ring tb) ++ [TraceEvent ty (state mod 32) (u24 rt) time u] /\
  length (tb_buffer tb') = 128%nat /\ (tb_ptr tb' < 128)%nat.
Proof.
  intros Hl Hp. cbn zeta. unfold trace_ring, trace_next, CH_DBG_TRACE_BUFFER_SIZE. cbn [tb_ptr tb_buffer].
  set (e := TraceEvent _ _ _ _ _). set (p := tb_ptr tb) in *. set (b := tb_buffer tb) in *.
  assert (Hi : <[p := e]> b = take p b ++ e :: drop (S p) b) by (apply insert_take_drop; lia).
  assert (Ht : tail (drop p b ++ take p b) = drop (S p) b ++ take p b).
  { destruct (lookup_lt_is_Some_2 b p) as [x Hx]; [lia|]. rewrite (drop_S b x p Hx). reflexivity. }
  rewrite length_insert, Ht. split; [|split; [exact Hl|destruct (Z.leb_spec 128 (Z.of_nat (S p))); lia]]. destruct (Z.leb_spec 128 (Z.of_nat (S p))) as [E|E].
  - rewrite drop_0, take_0, app_nil_r, Hi, (drop_ge b) by lia. reflexivity.
  - rewrite Hi, (drop_app_ge (take p b)), length_take by (rewrite length_take; lia). rewrite Nat.min_l by lia.
    replace (S p - p)%nat with 1%nat by lia. cbn [drop]. rewrite take_app_ge by (rewrite length_take; lia).
    rewrite length_take, Nat.min_l by lia. replace (S p - p)%nat with 1%nat by lia. cbn [take]. rewrite take_0, <- app_assoc. reflexivity.
Qed.

Lemma land_bit a i : (Z.land a (2 ^ Z.of_nat i) =? 0) = negb (Z.testbit a (Z.of_nat i)).
Proof.
  assert (Hb : forall j, 0 <= j -> Z.testbit (Z.land a (2 ^ Z.of_nat i)) j = Z.testbit a j && (Z.of_nat i =? j))
    by (intros j Hj; rewrite Z.land_spec, Z.pow2_bits_eqb by lia; reflexivity).
  destruct (Z.testbit a (Z.of_nat i)) eqn:E.
  - apply Z.eqb_neq. intros H. specialize (Hb (Z.of_nat i) ltac:(lia)). rewrite H, Z.bits_0, E, Z.eqb_refl in Hb. discriminate.
  - apply Z.eqb_eq, Z.bits_inj'. intros j Hj. rewrite Hb, Z.bits_0 by exact Hj. destruct (Z.eqb_spec (Z.of_nat i) j) as [<-|_]; [rewrite E; reflexivity|].
    apply andb_false_r.
Qed.

Lemma trace_put_rep mask time rt ty state u tb off log i :
  trace_rep tb off log -> mask = 2 ^ Z.of_nat i -> (i < 5)%nat -> ty <> CH_TRACE_TYPE_UNUSED ->
  trace_rep (trace_put mask time rt ty state u tb) off (log ++ if off i then [] else [TraceEvent ty (state mod 32) (u24 rt) time u]).
Proof.
  intros (Hl & Hp & Hs & Hu & unused & Hn & Hr & Hf) -> Hi Ht. unfold trace_put.
  assert (E : (Z.land (tb_suspended tb) (2 ^ Z.of_nat i) =? 0) = negb (off i)).
  { rewrite <- Hs by exact Hi. apply land_bit. }
  rewrite E. destruct (off i); cbn [negb].
  - rewrite app_nil_r. split_and!; eauto.
  - destruct (trace_ring_next time rt ty state u tb Hl Hp) as (Er & Hl' & Hp'). set (e := TraceEvent _ _ _ _ _) in *.
    assert (Hlen : length (trace_ring tb) = 128%nat) by (unfold trace_ring; rewrite length_app, length_drop, length_take; lia).
    split_and!; auto; [apply Forall_app; split; [exact Hu|repeat constructor; exact Ht]|].
    exists (tail unused). split; [destruct unused; inversion_clear Hn; auto|]. rewrite Er, Hr. rewrite Hr, length_app, length_drop in Hlen.
    rewrite length_app. cbn [length].
    destruct unused as [|x unused].
    + cbn [app tail] in *. split; [|auto]. cbn [length] in Hlen.
      destruct (drop (length log - 128) log) as [|y l] eqn:Ed; [apply (f_equal length) in Ed; rewrite length_drop in Ed; cbn in Ed; lia|].
      cbn [tail]. rewrite drop_app_le by lia. f_equal. rewrite Nat.add_comm.
      replace (1 + length log - 128)%nat with (1 + (length log - 128))%nat by lia. rewrite Nat.add_comm, <- drop_drop, Ed. reflexivity.
    + destruct Hf as [Hf|Hf]; [discriminate|]. cbn [app tail length] in *. split; [|destruct unused; [left; reflexivity|right; cbn [length] in Hlen; lia]].
      rewrite <- app_assoc. f_equal. replace (length log - 128)%nat with 0%nat by lia. replace (length log + 1 - 128)%nat with 0%nat by lia. reflexivity.
Qed.

Lemma trace_exec_rep time rt op tb off log : trace_rep tb off log ->
  trace_rep (trace_exec time rt op tb) (trace_off op off) (log ++ if off (trace_bit op) then [] else trace_entry time rt op).
Proof.
  intros H. assert (Hput : forall mask i ty state u, mask = 2 ^ Z.of_nat i -> (i < 5)%nat -> ty <> CH_TRACE_TYPE_UNUSED ->
    trace_rep (trace_put mask time rt ty state u tb) off (log ++ if off i then [] else [TraceEvent ty (state mod 32) (u24 rt) time u]))
    by (intros; apply trace_put_rep; auto).
  destruct op as [tp state msg|ntp ostate owt|isr|isr|reason|up1 up2|mask|mask]; cbn [trace_exec trace_off trace_bit trace_entry].
  1-6: apply Hput; [reflexivity|lia|discriminate].
  all: replace (if off 4%nat then [] else []) with (@nil trace_event_t) by (destruct (off 4%nat); reflexivity); rewrite app_nil_r.
  all: destruct H as (Hl & Hp & Hs & Hrest); split; [exact Hl|]; split; [exact Hp|]; split; [|exact Hrest].
  all: intros i Hi; cbn [tb_suspended chTraceSuspendI chTraceResumeI]; unfold u16, wrapu; rewrite Z.mod_pow2_bits_low by lia.
  - rewrite Z.lor_spec, Hs by exact Hi. reflexivity.
  - rewrite Z.land_spec, Z.lnot_spec, Hs by lia. reflexivity.
Qed.

Lemma trace_run_rep ops : forall tb off log, trace_rep tb off log -> exists off', trace_rep (trace_run ops tb) off' (log ++ trace_log off ops).
Proof.
  induction ops as [|[[time rt] op] ops IH]; intros tb off log H; cbn; [rewrite app_nil_r; eauto|].
  rewrite app_assoc. apply IH, trace_exec_rep, H.
Qed.

(** The trace shows the last 128 of the events whose kind was not suspended when they
    happened, whatever was recorded, suspended and resumed before, in order. *)
Theorem trace_keeps_last (mem : list trace_event_t) (ops : list (Z * Z * trace_op)) :
  (128 <= length mem)%nat ->
  let log := trace_log (fun _ => false) ops in
  trace_shows (trace_run ops (trace_object_init mem)) = drop (length log - 128) log.
Proof.
  intros Hm log. assert (H0 : trace_rep (trace_object_init mem) (fun _ => false) []).
  { unfold trace_object_init, CH_DBG_TRACE_BUFFER_SIZE. split_and!; cbn [tb_buffer tb_ptr tb_suspended].
    - rewrite length_fmap, length_take. lia.
    - lia.
    - intros i Hi. do 5 (destruct i as [|i]; [reflexivity|]). lia.
    - constructor.
    - eexists. split; [|split; [unfold trace_ring; cbn [tb_ptr tb_buffer]; rewrite drop_0, take_0; reflexivity|right; cbn; lia]].
      apply Forall_fmap, Forall_forall. intros e _. reflexivity. }
  destruct (trace_run_rep ops _ _ _ H0) as [off' H]. apply (trace_shows_rep _ _ _ H).
Qed.

Definition trace_demo : list (Z * Z * trace_op) :=
  [(1, 10, TIsrEnter 7); (2, 20, TSuspend 4); (3, 30, TIsrLeave 7); (4, 2 ^ 24 + 5, TWrite 1 2)].

Lemma trace_keeps_last_witness :
  trace_shows (trace_run trace_demo (trace_object_init (replicate 128 (TraceEvent 0 0 0 0 (TrIsr 0))))) =
    [TraceEvent 3 0 10 1 (TrIsr 7); TraceEvent 6 0 5 4 (TrUser 1 2)].
Proof. apply (trace_keeps_last (replicate 128 (TraceEvent 0 0 0 0 (TrIsr 0))) trace_demo). rewrite length_replicate. lia. Defined.
