(* ===== verification/Ctrl.v ===== *)
(** * Motion control (ctrl.c)

    The control thread reads the encoder and the inertial sensors and sets the
    motor torques.  Its loop sleeps in two places: at the end of an iteration,
    and for one second in the middle of one when an azimuth calibration starts;
    [ctrl_step] runs it from one sleep to the next.  The setters are what the
    network threads call in between.  [rig] is the state the thread shares with
    them and with the sampling and drive threads.

    The controllers themselves ([az_control], [el_control]) are written over the
    readings they use.  A step is atomic here: that the drive and sampling
    threads, which have a higher priority, can update a reading in the middle of
    it is not modelled, except for the clock, each reading of which is its own
    argument. *)

From S2P Require Import Prelude CInt CFloat CLib Chtime Mde Imu Debug Chprintf.
From Stdlib Require Import SpecFloat.

(** ** Data *)

Inductive motor_state :=
| MOTOR_STATE_CONST_TORQUE
| MOTOR_STATE_CONST_SPEED
| MOTOR_STATE_TARGET_POSITION.

#[export] Instance motor_state_eq_dec : EqDecision motor_state.
Proof. solve_decision. Defined.

(** The static variables of ctrl.c. *)
Record ctrl_state := CtrlState {
  az_flag_calibrate : bool;
  az_state : motor_state;
  el_state : motor_state;
  sk_state : motor_state;
  az_tgt_spd : Z;   (* int16_t *)
  az_tgt_pos : Z;   (* uint16_t *)
  az_tgt_pos_spd : Z;   (* int16_t *)
  az_tgt_pos_tim : Z;   (* systime_t *)
  el_tgt_spd : Z;   (* int16_t *)
  el_tgt_pos : Z;   (* int16_t *)
  el_tgt_pos_spd : Z;   (* int16_t *)
  el_tgt_pos_tim : Z;   (* systime_t *)
  sk_tgt_pos : Z;   (* int16_t *)
  last_loop_update : Z   (* systime_t *)
}.

(** Assignment to one of them. *)

Definition with_az_flag_calibrate (v : bool) (s : ctrl_state) : ctrl_state :=
  CtrlState v (az_state s) (el_state s) (sk_state s) (az_tgt_spd s) (az_tgt_pos s)
    (az_tgt_pos_spd s) (az_tgt_pos_tim s) (el_tgt_spd s) (el_tgt_pos s) (el_tgt_pos_spd s)
    (el_tgt_pos_tim s) (sk_tgt_pos s) (last_loop_update s).
Definition with_az_state (v : motor_state) (s : ctrl_state) : ctrl_state :=
  CtrlState (az_flag_calibrate s) v (el_state s) (sk_state s) (az_tgt_spd s) (az_tgt_pos s)
    (az_tgt_pos_spd s) (az_tgt_pos_tim s) (el_tgt_spd s) (el_tgt_pos s) (el_tgt_pos_spd s)
    (el_tgt_pos_tim s) (sk_tgt_pos s) (last_loop_update s).
Definition with_el_state (v : motor_state) (s : ctrl_state) : ctrl_state :=
  CtrlState (az_flag_calibrate s) (az_state s) v (sk_state s) (az_tgt_spd s) (az_tgt_pos s)
    (az_tgt_pos_spd s) (az_tgt_pos_tim s) (el_tgt_spd s) (el_tgt_pos s) (el_tgt_pos_spd s)
    (el_tgt_pos_tim s) (sk_tgt_pos s) (last_loop_update s).
Definition with_sk_state (v : motor_state) (s : ctrl_state) : ctrl_state :=
  CtrlState (az_flag_calibrate s) (az_state s) (el_state s) v (az_tgt_spd s) (az_tgt_pos s)
    (az_tgt_pos_spd s) (az_tgt_pos_tim s) (el_tgt_spd s) (el_tgt_pos s) (el_tgt_pos_spd s)
    (el_tgt_pos_tim s) (sk_tgt_pos s) (last_loop_update s).
Definition with_az_tgt_spd (v : Z) (s : ctrl_state) : ctrl_state :=
  CtrlState (az_flag_calibrate s) (az_state s) (el_state s) (sk_state s) v (az_tgt_pos s)
    (az_tgt_pos_spd s) (az_tgt_pos_tim s) (el_tgt_spd s) (el_tgt_pos s) (el_tgt_pos_spd s)
    (el_tgt_pos_tim s) (sk_tgt_pos s) (last_loop_update s).
Definition with_az_tgt_pos (v : Z) (s : ctrl_state) : ctrl_state :=
  CtrlState (az_flag_calibrate s) (az_state s) (el_state s) (sk_state s) (az_tgt_spd s) v
    (az_tgt_pos_spd s) (az_tgt_pos_tim s) (el_tgt_spd s) (el_tgt_pos s) (el_tgt_pos_spd s)
    (el_tgt_pos_tim s) (sk_tgt_pos s) (last_loop_update s).
Definition with_az_tgt_pos_spd (v : Z) (s : ctrl_state) : ctrl_state :=
  CtrlState (az_flag_calibrate s) (az_state s) (el_state s) (sk_state s) (az_tgt_spd s)
    (az_tgt_pos s) v (az_tgt_pos_tim s) (el_tgt_spd s) (el_tgt_pos s) (el_tgt_pos_spd s)
    (el_tgt_pos_tim s) (sk_tgt_pos s) (last_loop_update s).
Definition with_az_tgt_pos_tim (v : Z) (s : ctrl_state) : ctrl_state :=
  CtrlState (az_flag_calibrate s) (az_state s) (el_state s) (sk_state s) (az_tgt_spd s)
    (az_tgt_pos s) (az_tgt_pos_spd s) v (el_tgt_spd s) (el_tgt_pos s) (el_tgt_pos_spd s)
    (el_tgt_pos_tim s) (sk_tgt_pos s) (last_loop_update s).
Definition with_el_tgt_spd (v : Z) (s : ctrl_state) : ctrl_state :=
  CtrlState (az_flag_calibrate s) (az_state s) (el_state s) (sk_state s) (az_tgt_spd s)
    (az_tgt_pos s) (az_tgt_pos_spd s) (az_tgt_pos_tim s) v (el_tgt_pos s) (el_tgt_pos_spd s)
    (el_tgt_pos_tim s) (sk_tgt_pos s) (last_loop_update s).
Definition with_el_tgt_pos (v : Z) (s : ctrl_state) : ctrl_state :=
  CtrlState (az_flag_calibrate s) (az_state s) (el_state s) (sk_state s) (az_tgt_spd s)
    (az_tgt_pos s) (az_tgt_pos_spd s) (az_tgt_pos_tim s) (el_tgt_spd s) v (el_tgt_pos_spd s)
    (el_tgt_pos_tim s) (sk_tgt_pos s) (last_loop_update s).
Definition with_el_tgt_pos_spd (v : Z) (s : ctrl_state) : ctrl_state :=
  CtrlState (az_flag_calibrate s) (az_state s) (el_state s) (sk_state s) (az_tgt_spd s)
    (az_tgt_pos s) (az_tgt_pos_spd s) (az_tgt_pos_tim s) (el_tgt_spd s) (el_tgt_pos s) v
    (el_tgt_pos_tim s) (sk_tgt_pos s) (last_loop_update s).
Definition with_el_tgt_pos_tim (v : Z) (s : ctrl_state) : ctrl_state :=
  CtrlState (az_flag_calibrate s) (az_state s) (el_state s) (sk_state s) (az_tgt_spd s)
    (az_tgt_pos s) (az_tgt_pos_spd s) (az_tgt_pos_tim s) (el_tgt_spd s) (el_tgt_pos s)
    (el_tgt_pos_spd s) v (sk_tgt_pos s) (last_loop_update s).
Definition with_sk_tgt_pos (v : Z) (s : ctrl_state) : ctrl_state :=
  CtrlState (az_flag_calibrate s) (az_state s) (el_state s) (sk_state s) (az_tgt_spd s)
    (az_tgt_pos s) (az_tgt_pos_spd s) (az_tgt_pos_tim s) (el_tgt_spd s) (el_tgt_pos s)
    (el_tgt_pos_spd s) (el_tgt_pos_tim s) v (last_loop_update s).
Definition with_last_loop_update (v : Z) (s : ctrl_state) : ctrl_state :=
  CtrlState (az_flag_calibrate s) (az_state s) (el_state s) (sk_state s) (az_tgt_spd s)
    (az_tgt_pos s) (az_tgt_pos_spd s) (az_tgt_pos_tim s) (el_tgt_spd s) (el_tgt_pos s)
    (el_tgt_pos_spd s) (el_tgt_pos_tim s) (sk_tgt_pos s) v.

Definition ctrl_state0 : ctrl_state :=
  CtrlState false MOTOR_STATE_CONST_TORQUE MOTOR_STATE_CONST_TORQUE MOTOR_STATE_CONST_TORQUE
    0 0 0 0 0 0 0 0 0 0.

(** What the control thread works on: the variables of ctrl.c, mde.c, imu.c and
    debug.c. *)
Record rig := Rig {
  r_ctrl : ctrl_state;
  r_mde : mde_state;
  r_imu : imu_state;
  r_bucket : list Z
}.

Definition rig0 : rig := Rig ctrl_state0 mde_state0 imu_state0 bucket0.

Definition on_ctrl (f : ctrl_state -> ctrl_state) (r : rig) : rig :=
  Rig (f (r_ctrl r)) (r_mde r) (r_imu r) (r_bucket r).
Definition on_mde (f : mde_state -> mde_state) (r : rig) : rig :=
  Rig (r_ctrl r) (f (r_mde r)) (r_imu r) (r_bucket r).
Definition on_imu (f : imu_state -> imu_state) (r : rig) : rig :=
  Rig (r_ctrl r) (r_mde r) (f (r_imu r)) (r_bucket r).

(** ** Setters and getters *)

Definition az_set_const_trq (torque : Z) (r : rig) : rig :=
  on_mde (mde_set_trq_az (i8 torque))
    (on_ctrl (fun s => with_az_state MOTOR_STATE_CONST_TORQUE (with_az_flag_calibrate false s)) r).

Definition el_set_const_trq (torque : Z) (r : rig) : rig :=
  on_ctrl (with_el_state MOTOR_STATE_CONST_TORQUE) (on_mde (mde_set_trq_el (i8 torque)) r).

Definition sk_set_const_trq (torque : Z) (r : rig) : rig :=
  on_ctrl (with_sk_state MOTOR_STATE_CONST_TORQUE) (on_mde (mde_set_trq_sk (i8 torque)) r).

Definition az_set_const_spd (speed : Z) : rig -> rig :=
  on_ctrl (fun s => with_az_state MOTOR_STATE_CONST_SPEED
                      (with_az_flag_calibrate false (with_az_tgt_spd (i16 speed) s))).

(** [now] is the tick count the setter reads. *)
Definition az_set_tgt_pos (now position : Z) : rig -> rig :=
  on_ctrl (fun s => with_az_state MOTOR_STATE_TARGET_POSITION
                      (with_az_tgt_pos_tim now
                         (with_az_flag_calibrate false (with_az_tgt_pos (u16 position) s)))).

Definition az_set_tgt_pos_spd (speed : Z) : rig -> rig :=
  on_ctrl (with_az_tgt_pos_spd (i16 speed)).

Definition el_set_tgt_pos (now position : Z) : rig -> rig :=
  on_ctrl (fun s => with_el_state MOTOR_STATE_TARGET_POSITION
                      (with_el_tgt_pos_tim now (with_el_tgt_pos (i16 position) s))).

Definition el_set_tgt_pos_spd (speed : Z) : rig -> rig :=
  on_ctrl (with_el_tgt_pos_spd (i16 speed)).

Definition sk_set_tgt_pos (position : Z) : rig -> rig :=
  on_ctrl (fun s => with_sk_state MOTOR_STATE_TARGET_POSITION (with_sk_tgt_pos (i16 position) s)).

Definition az_get_tgt_pos (r : rig) : Z := az_tgt_pos (r_ctrl r).
Definition el_get_tgt_pos (r : rig) : Z := el_tgt_pos (r_ctrl r).
Definition sk_get_tgt_pos (r : rig) : Z := sk_tgt_pos (r_ctrl r).
Definition az_get_state (r : rig) : motor_state := az_state (r_ctrl r).
Definition el_get_state (r : rig) : motor_state := el_state (r_ctrl r).
Definition sk_get_state (r : rig) : motor_state := sk_state (r_ctrl r).

Definition az_calibrate : rig -> rig := on_ctrl (with_az_flag_calibrate true).

Definition ctrl_is_running (now : Z) (s : ctrl_state) : bool :=
  TIME_I2MS (u32 (now - last_loop_update s)) <? 100.

(** ** Failsafe *)

Definition failsafe_trips (s : imu_state) : bool :=
  ((imu_get_accel_x s =? 0) && (imu_get_accel_y s =? 0) && (imu_get_accel_z s =? 0))
  || (imu_get_rot_x s <? 2070 - 800) || (2070 + 800 <? imu_get_rot_x s)
  || (imu_get_rot_y s <? 2070 - 800) || (2070 + 800 <? imu_get_rot_y s)
  || (imu_get_rot_z s <? 2070 - 800) || (2070 + 800 <? imu_get_rot_z s).

Definition ctrl_failsafe (r : rig) : rig :=
  if failsafe_trips (r_imu r)
  then sk_set_const_trq 0 (el_set_const_trq 0 (az_set_const_trq 0 r))
  else r.

(** ** Azimuth *)

(** [pos + spd * TIME_I2MS(elapsed)/1000.0]: the product is computed in
    [uint32_t], the quotient and the sum in [double]. *)
Definition extrapolate (pos spd elapsed : Z) : spec_float :=
  d_add (d_of_Z pos)
    (d_div (d_of_Z (u32 (u32 spd * TIME_I2MS elapsed))) (d_of_Z 1000)).

(** [az_tgt_spd] for a direction and a distance. *)
Definition az_approach_speed (dir dist : Z) : Z :=
  let spd := i16 (cdiv (dir * dist) 2) in
  let spd := if Z.abs spd <? 2 * 182 then i16 (dir * 2 * 182) else spd in
  if 30 * 182 <? Z.abs spd then i16 (dir * 30 * 182) else spd.

(** The torque of the azimuth speed regulator; [trq] is an [int8_t] before it is
    limited. *)
Definition az_torque (tgt act : Z) : Z :=
  let dir := if 0 <? tgt then 1 else -1 in
  let trq := i8 (cdiv (tgt - act) 60 + 10 * dir) in
  let trq := if 25 <? trq then 25 else trq in
  if trq <? -25 then -25 else trq.

Definition az_speed_control (r : rig) : rig :=
  on_mde (mde_set_trq_az (az_torque (az_tgt_spd (r_ctrl r)) (mde_get_az_enc_spd (r_mde r)))) r.

Definition az_control (now : Z) (r : rig) : option rig :=
  let s := r_ctrl r in
  match az_state s with
  | MOTOR_STATE_CONST_TORQUE => Some r
  | MOTOR_STATE_TARGET_POSITION =>
      let enc := u16 (mde_get_az_enc_pos (r_mde r) + mde_get_az_enc_off (r_mde r)) in
      tgt ← f_to_u 16 (extrapolate (az_tgt_pos s) (az_tgt_pos_spd s)
                         (u32 (now - az_tgt_pos_tim s)));
      let dir_diff := u16 (tgt - enc) in
      let dist := if u16 (tgt - enc) <? u16 (enc - tgt) then u16 (tgt - enc) else u16 (enc - tgt) in
      let nullzone := 45 in
      if (nullzone <? dir_diff) && (dir_diff <? 65535 - nullzone)
      then
        let dir := if dir_diff <? 32768 then 1 else -1 in
        Some (az_speed_control (on_ctrl (with_az_tgt_spd (az_approach_speed dir dist)) r))
      else
        Some (on_mde (fun m => mde_set_trq_az (if 0 <? mde_get_trq_az m then 3 else -3) m) r)
  | MOTOR_STATE_CONST_SPEED => Some (az_speed_control r)
  end.

(** ** Elevation *)

(** [el_tgt_spd] for a distance; [dir_el] is assigned before each use. *)
Definition el_approach_speed (dist : Z) : Z :=
  let dir_el := if dist <? 0 then -1 else 1 in
  let const_speed_range := 45 in
  let spd := if (const_speed_range <? Z.abs dist) && (Z.abs dist <? 1 * 182)
             then i16 (dir_el * 1 * 182) else dist in
  if 15 * 182 <? Z.abs spd then i16 (dir_el * 15 * 182) else spd.

(** The torque of the elevation speed regulator. *)
Definition el_torque (tgt el_spd static_trq : Z) : Z :=
  let spd := if Z.abs el_spd <? 150 then 0 else el_spd in
  let moving_trq := i16 (cdiv (tgt - spd) 10) in
  let trq := i16 (moving_trq + static_trq) in
  let trq := if 25 <? trq then 25 else trq in
  if trq <? -25 then -25 else trq.

Definition el_control (now : Z) (r : rig) : option rig :=
  let s := r_ctrl r in
  let imu := i16 (imu_get_el_pos (r_imu r) + imu_get_el_off (r_imu r)) in
  let trq0 := 0 in
  let trq90 := 0 in
  let static_trq := i8 (trq0 + cdiv ((trq90 - trq0) * imu) 16384) in
  let speed_control r :=
    on_mde (mde_set_trq_el
              (el_torque (el_tgt_spd (r_ctrl r)) (imu_get_el_spd (r_imu r)) static_trq)) r in
  match el_state s with
  | MOTOR_STATE_CONST_TORQUE => Some r
  | MOTOR_STATE_TARGET_POSITION =>
      tgt ← f_to_s 16 (extrapolate (el_tgt_pos s) (el_tgt_pos_spd s)
                         (u32 (now - el_tgt_pos_tim s)));
      let dist := i16 (tgt - imu) in
      Some (speed_control (on_ctrl (with_el_tgt_spd (el_approach_speed dist)) r))
  | MOTOR_STATE_CONST_SPEED => Some (speed_control r)
  end.

(** ** Skew *)

Definition sk_control (r : rig) : rig :=
  match sk_state (r_ctrl r) with
  | MOTOR_STATE_CONST_TORQUE => r
  | MOTOR_STATE_TARGET_POSITION | MOTOR_STATE_CONST_SPEED =>
      on_ctrl (with_sk_state MOTOR_STATE_CONST_TORQUE) r
  end.

(** ** The log line *)

(** [x / 182.044] as a [float]. *)
Definition degrees (x : Z) : spec_float := s_of_d (d_div (d_of_Z x) (d_lit 182044 1000)).

Definition ctrl_log_format : list Z :=
  bytes "[%.3f] tgt=(%.2f,%.2f) pos=(%.2f,%.2f) diff=(%.2f,%.2f)" ++ [10; 0].

Definition ctrl_log_args (now : Z) (r : rig) : list va :=
  let ms := TIME_I2MS now in
  let az := degrees (mde_get_az_enc_pos (r_mde r) + mde_get_az_enc_off (r_mde r)) in
  let el := degrees (imu_get_el_pos (r_imu r)) in
  let tgt_az := degrees (az_tgt_pos (r_ctrl r)) in
  let tgt_el := degrees (el_tgt_pos (r_ctrl r)) in
  [VDouble (d_div (d_of_Z ms) (d_of_Z 1000)); VDouble (d_of_s tgt_az); VDouble (d_of_s tgt_el);
   VDouble (d_of_s az); VDouble (d_of_s el); VDouble (d_of_s (s_sub az tgt_az));
   VDouble (d_of_s (s_sub el tgt_el))].

Definition ctrl_log (now : Z) (r : rig) : option rig :=
  '(buf, _) ← chvsnprintf (replicate 128 0) 128 ctrl_log_format (ctrl_log_args now r);
  bucket ← debug_print (r_bucket r) buf;
  Some (Rig (r_ctrl r) (r_mde r) (r_imu r) bucket).

(** ** The thread *)

(** Where the thread sleeps: at the end of the loop, or between the two halves
    of the start of a calibration. *)
Inductive ctrl_pc := CtrlTop | CtrlHoming.

(** Its locals; [old_az] is not initialised before the first calibration. *)
Record ctrl_thread := CtrlThread {
  ct_pc : ctrl_pc;
  ct_old_az : option Z;
  ct_cntr : Z   (* uint32_t *)
}.

Definition ctrl_thread0 : ctrl_thread := CtrlThread CtrlTop None 0.

(** The readings of the clock in one iteration. *)
Record ctrl_times := CtrlTimes { t_az : Z; t_el : Z; t_log : Z; t_end : Z }.

(** From the azimuth controller to the end of the iteration. *)
Definition ctrl_rest (ts : ctrl_times) (old_az : option Z) (cntr : Z) (r : rig)
  : option (ctrl_thread * rig) :=
  r ← az_control (t_az ts) r;
  r ← el_control (t_el ts) r;
  let r := sk_control r in
  r ← (if cntr mod 50 =? 0 then ctrl_log (t_log ts) r else Some r);
  Some (CtrlThread CtrlTop old_az (u32 (cntr + 1)), on_ctrl (with_last_loop_update (t_end ts)) r).

Definition ctrl_step (ts : ctrl_times) (t : ctrl_thread) (r : rig) : option (ctrl_thread * rig) :=
  match ct_pc t with
  | CtrlTop =>
      let r := ctrl_failsafe r in
      if az_flag_calibrate (r_ctrl r) then
        if negb (bool_decide (az_state (r_ctrl r) = MOTOR_STATE_CONST_SPEED)) then
          Some (CtrlThread CtrlHoming (ct_old_az t) (ct_cntr t), on_mde (mde_set_trq_az 25) r)
        else
          old_az ← ct_old_az t;
          let az := mde_get_az_enc_pos (r_mde r) in
          let r := if az <? old_az then az_set_const_trq 0 r else r in
          ctrl_rest ts (Some az) (ct_cntr t) r
      else ctrl_rest ts (ct_old_az t) (ct_cntr t) r
  | CtrlHoming =>
      let r := on_ctrl (fun s => with_az_state MOTOR_STATE_CONST_SPEED
                                   (with_az_tgt_spd (180 * 30) s)) r in
      ctrl_rest ts (Some 0) (ct_cntr t) r
  end.

(** ** Invariants *)

(** Every variable of ctrl.c is in the range of its C type. *)
Definition ctrl_ok (s : ctrl_state) : bool :=
  in_s 16 (az_tgt_spd s) && in_u 16 (az_tgt_pos s) && in_s 16 (az_tgt_pos_spd s)
  && in_u 32 (az_tgt_pos_tim s) && in_s 16 (el_tgt_spd s) && in_s 16 (el_tgt_pos s)
  && in_s 16 (el_tgt_pos_spd s) && in_u 32 (el_tgt_pos_tim s) && in_s 16 (sk_tgt_pos s)
  && in_u 32 (last_loop_update s).

(** No target moves by itself. *)
Definition targets_fixed (s : ctrl_state) : bool :=
  (az_tgt_pos_spd s =? 0) && (el_tgt_pos_spd s =? 0).

Definition rig_ok (r : rig) : Prop :=
  ctrl_ok (r_ctrl r) = true /\ mde_ok (r_mde r) = true /\ imu_ok (r_imu r) = true /\
  exists log, bucket_rep (r_bucket r) log.

(** Constant-speed mode is entered only by a calibration, which sets [old_az]. *)
Definition ctrl_thread_ok (t : ctrl_thread) (s : ctrl_state) : Prop :=
  az_state s = MOTOR_STATE_CONST_SPEED -> ct_old_az t <> None.

Definition ctrl_times_ok (ts : ctrl_times) : bool :=
  in_u 32 (t_az ts) && in_u 32 (t_el ts) && in_u 32 (t_log ts) && in_u 32 (t_end ts).

Lemma ctrl_ok_spec s :
  ctrl_ok s = true <->
  (-32768 <= az_tgt_spd s < 32768 /\ 0 <= az_tgt_pos s < 65536 /\
   -32768 <= az_tgt_pos_spd s < 32768 /\ 0 <= az_tgt_pos_tim s < 4294967296) /\
  (-32768 <= el_tgt_spd s < 32768 /\ -32768 <= el_tgt_pos s < 32768 /\
   -32768 <= el_tgt_pos_spd s < 32768 /\ 0 <= el_tgt_pos_tim s < 4294967296) /\
  -32768 <= sk_tgt_pos s < 32768 /\ 0 <= last_loop_update s < 4294967296.
Proof. unfold ctrl_ok. rewrite !andb_true_iff, !in_s_spec, !in_u_spec. simpl Z.pow. tauto. Qed.

Lemma targets_fixed_spec s :
  targets_fixed s = true <-> az_tgt_pos_spd s = 0 /\ el_tgt_pos_spd s = 0.
Proof. unfold targets_fixed. rewrite andb_true_iff, !Z.eqb_eq. tauto. Qed.

(** ** Targets *)

Lemma extrapolate_fixed pos elapsed :
  Z.abs pos < 2 ^ 53 -> f_trunc (extrapolate pos 0 elapsed) = Some pos.
Proof.
  intros Hp. unfold extrapolate.
  assert (u32 (u32 0 * TIME_I2MS elapsed) = 0) as -> by reflexivity.
  assert (d_div (d_of_Z 0) (d_of_Z 1000) = S754_zero false) as -> by (vm_compute; reflexivity).
  apply d_add_zero_trunc. exact Hp.
Qed.

Lemma az_target_fixed pos elapsed :
  0 <= pos < 65536 -> f_to_u 16 (extrapolate pos 0 elapsed) = Some pos.
Proof.
  intros Hp. unfold f_to_u. rewrite extrapolate_fixed by lia. simpl.
  rewrite (proj2 (in_u_spec 16 pos)) by (simpl; lia). reflexivity.
Qed.

Lemma el_target_fixed pos elapsed :
  -32768 <= pos < 32768 -> f_to_s 16 (extrapolate pos 0 elapsed) = Some pos.
Proof.
  intros Hp. unfold f_to_s. rewrite extrapolate_fixed by lia. simpl.
  rewrite (proj2 (in_s_spec 16 pos)) by (simpl; lia). reflexivity.
Qed.

(** ** Azimuth *)

Definition clamp (lo hi x : Z) : Z := Z.max lo (Z.min hi x).

(** The signed shortest turn from the encoder position to the target. *)
Definition az_error (r : rig) : Z :=
  i16 (az_tgt_pos (r_ctrl r) - (enc_az (r_mde r) + enc_az_off (r_mde r))).

(** The approach speed the controller is meant to command: half the distance,
    between two and thirty degrees per second, toward the target. *)
Definition az_command (e : Z) : Z := Z.sgn e * clamp (2 * 182) (30 * 182) (Z.abs e / 2).

Definition az_hold : rig -> rig :=
  on_mde (fun m => mde_set_trq_az (if 0 <? mde_get_trq_az m then 3 else -3) m).

Lemma az_approach_speed_value e :
  -32768 <= e < 32768 -> e <> 0 ->
  az_approach_speed (if 0 <? e then 1 else -1) (Z.abs e) = az_command e.
Proof.
  intros He Hz. unfold az_approach_speed, az_command, clamp. cbv zeta.
  assert (Hq : i16 (cdiv ((if 0 <? e then 1 else -1) * Z.abs e) 2) = Z.sgn e * (Z.abs e / 2)).
  { rewrite i16_id by (case_bool; zlia). case_bool; zlia. }
  rewrite Hq. destruct (Z.ltb_spec 0 e).
  - replace (Z.sgn e) with 1 by lia. case_bool; case_bool; rewrite ?i16_id by lia; zlia.
  - replace (Z.sgn e) with (-1) by lia. case_bool; case_bool; rewrite ?i16_id by lia; zlia.
Qed.

Lemma az_control_target now r :
  ctrl_ok (r_ctrl r) = true -> targets_fixed (r_ctrl r) = true ->
  az_state (r_ctrl r) = MOTOR_STATE_TARGET_POSITION ->
  az_control now r =
  Some (if (-46 <=? az_error r) && (az_error r <=? 45) then az_hold r
        else az_speed_control (on_ctrl (with_az_tgt_spd (az_command (az_error r))) r)).
Proof.
  intros Hok [Hf _]%targets_fixed_spec Hst. apply ctrl_ok_spec in Hok as ((_ & Hp & _) & _).
  unfold az_control, mde_get_az_enc_pos, mde_get_az_enc_off. rewrite Hst, Hf.
  rewrite az_target_fixed by exact Hp. cbn [mbind option_bind].
  set (x := enc_az (r_mde r) + enc_az_off (r_mde r)).
  set (p := az_tgt_pos (r_ctrl r)) in *.
  assert (He : az_error r = i16 (p - x)) by reflexivity. set (e := az_error r) in *.
  assert (Her : -32768 <= e < 32768) by (rewrite He; apply i16_range).
  assert (Hd : u16 (p - u16 x) = u16 e).
  { rewrite wrapu_sub_r, He, wrapu_wraps by lia. reflexivity. }
  assert (Hd' : u16 (u16 x - p) = u16 (- e)).
  { rewrite wrapu_sub_l. rewrite He. cint. }
  rewrite Hd, Hd'.
  assert (Hdist : (if u16 e <? u16 (- e) then u16 e else u16 (- e)) = Z.abs e)
    by (case_bool; cint).
  rewrite Hdist. clear Hd Hd' Hdist He.
  assert (Hz : (45 <? u16 e) && (u16 e <? 65535 - 45) = negb ((-46 <=? e) && (e <=? 45))).
  { apply eq_true_iff_eq. rewrite negb_true_iff, andb_true_iff, andb_false_iff.
    rewrite !Z.ltb_lt, !Z.leb_gt. cint. }
  rewrite Hz. destruct ((-46 <=? e) && (e <=? 45)) eqn:Enull; cbn [negb]; [reflexivity|].
  apply andb_false_iff in Enull. rewrite !Z.leb_gt in Enull.
  replace (if u16 e <? 32768 then 1 else -1) with (if 0 <? e then 1 else -1).
  2: { destruct (Z.ltb_spec 0 e), (Z.ltb_spec (u16 e) 32768); try reflexivity; exfalso; cint. }
  rewrite az_approach_speed_value by lia. reflexivity.
Qed.

Lemma az_torque_range tgt act : -25 <= az_torque tgt act <= 25.
Proof. unfold az_torque. cbv zeta. case_bools; lia. Qed.

Lemma az_torque_value tgt act :
  Z.abs (tgt - act) < 7080 ->
  az_torque tgt act = clamp (-25) 25 (cdiv (tgt - act) 60 + 10 * (if 0 <? tgt then 1 else -1)).
Proof.
  intros H. unfold az_torque, clamp. cbv zeta.
  set (d := if 0 <? tgt then 1 else -1).
  assert (Hd : d = 1 \/ d = -1) by (unfold d; case_bool; lia).
  rewrite i8_id by zlia. set (t := cdiv (tgt - act) 60 + 10 * d). case_bools; lia.
Qed.

Lemma az_torque_wrapped tgt act :
  0 < tgt <= 5460 -> 7080 <= tgt - act < 13200 -> az_torque tgt act = -25.
Proof.
  intros Ht Hd. unfold az_torque. cbv zeta. rewrite (proj2 (Z.ltb_lt 0 tgt)) by lia.
  assert (i8 (cdiv (tgt - act) 60 + 10 * 1) < -25) by cint.
  rewrite (proj2 (Z.ltb_ge 25 _)) by lia. rewrite (proj2 (Z.ltb_lt _ (-25))) by lia. reflexivity.
Qed.

(** ** Elevation *)

(** The elevation error as the loop computes it, the measured angle and the
    difference each assigned to an [int16_t], and the speed for it: the
    error itself, at least one degree per second outside a quarter of a degree,
    at most fifteen. *)
Definition el_error (r : rig) : Z :=
  i16 (el_tgt_pos (r_ctrl r) - i16 (imu_el_pos (r_imu r) + imu_el_off (r_imu r))).

Lemma el_error_class r :
  let diff := el_tgt_pos (r_ctrl r) - (imu_el_pos (r_imu r) + imu_el_off (r_imu r)) in
  -32768 <= el_error r < 32768 /\ el_error r mod 65536 = diff mod 65536 /\
  (-32768 <= diff < 32768 -> el_error r = diff).
Proof.
  intros diff. assert (el_error r = i16 diff) as ->; [|apply i16_class].
  unfold el_error, diff. rewrite i16_sub_r. reflexivity.
Qed.

Definition el_command (e : Z) : Z :=
  if Z.abs e <=? 45 then e else Z.sgn e * clamp 182 (15 * 182) (Z.abs e).

Lemma el_approach_speed_value e : -32768 <= e < 32768 -> el_approach_speed e = el_command e.
Proof.
  intros He. unfold el_approach_speed, el_command, clamp. cbv zeta.
  destruct (Z.leb_spec (Z.abs e) 45) as [Hs|Hs].
  - rewrite (proj2 (Z.ltb_ge 45 _)) by lia. simpl andb. cbv iota.
    rewrite (proj2 (Z.ltb_ge (15 * 182) _)) by lia. reflexivity.
  - rewrite (proj2 (Z.ltb_lt 45 _)) by lia. simpl andb.
    destruct (Z.ltb_spec e 0).
    + replace (Z.sgn e) with (-1) by lia. case_bool; case_bool; rewrite ?i16_id in * by lia; lia.
    + replace (Z.sgn e) with 1 by lia. case_bool; case_bool; rewrite ?i16_id in * by lia; lia.
Qed.

Lemma el_torque_value tgt spd :
  -32768 <= tgt < 32768 -> -32768 <= spd < 32768 ->
  el_torque tgt spd 0 =
  clamp (-25) 25 (cdiv (tgt - (if Z.abs spd <? 150 then 0 else spd)) 10).
Proof.
  intros Ht Hs. unfold el_torque, clamp. cbv zeta.
  set (v := if Z.abs spd <? 150 then 0 else spd).
  assert (-32768 <= v < 32768) by (unfold v; case_bool; lia).
  rewrite (i16_id (cdiv _ _)), Z.add_0_r, i16_id by zlia. case_bools; lia.
Qed.

Lemma el_control_target now r :
  ctrl_ok (r_ctrl r) = true -> targets_fixed (r_ctrl r) = true ->
  imu_ok (r_imu r) = true ->
  el_state (r_ctrl r) = MOTOR_STATE_TARGET_POSITION ->
  let spd := el_command (el_error r) in
  el_control now r =
  Some (on_mde (mde_set_trq_el (el_torque spd (imu_el_spd (r_imu r)) 0))
          (on_ctrl (with_el_tgt_spd spd) r)).
Proof.
  intros Hok [_ Hf]%targets_fixed_spec Himu Hst spd.
  apply ctrl_ok_spec in Hok as (_ & (_ & Hp & _) & _).
  unfold el_control. cbv zeta. rewrite Hst, Hf, el_target_fixed by exact Hp.
  cbn [mbind option_bind]. unfold imu_get_el_pos, imu_get_el_off, imu_get_el_spd.
  change (i16 (el_tgt_pos (r_ctrl r) - _)) with (el_error r).
  rewrite el_approach_speed_value by apply i16_range. reflexivity.
Qed.

(** ** The log line is always printed *)

Lemma degrees_fle x : Z.abs x <= 131070 -> fle 721 0 (degrees x).
Proof.
  intros Hx. apply s_of_d_fle; [|lia|lia].
  apply (d_div_fle 131070 0 182 0 721 0 0); try lia.
  - apply d_of_Z_fle; lia.
  - fconst.
Qed.

Lemma float_arg x : fle 1442 0 x -> fle 16777215 7 (d_of_s x).
Proof.
  intros Hx. apply (fle_le 0 1442 0); [lia | lia | easy |].
  apply d_of_s_fle; [exact Hx | lia | lia].
Qed.

Lemma degrees_arg x : Z.abs x <= 131070 -> va_in KDouble (VDouble (d_of_s (degrees x))).
Proof. intros Hx. apply float_arg, (fle_mono 721); [lia|]. apply degrees_fle, Hx. Qed.

Lemma degrees_sub_arg x y :
  Z.abs x <= 131070 -> Z.abs y <= 131070 ->
  va_in KDouble (VDouble (d_of_s (s_sub (degrees x) (degrees y)))).
Proof.
  intros Hx Hy. apply float_arg. apply (s_sub_fle 721 721 0); try lia;
    apply degrees_fle; assumption.
Qed.

Lemma ctrl_log_args_ok now r :
  rig_ok r -> 0 <= now < 4294967296 ->
  Forall2 va_in (replicate 7 KDouble) (ctrl_log_args now r).
Proof.
  intros (Hc & Hm & Hi & _) Hn. apply ctrl_ok_spec in Hc as ((_ & Hp & _) & (_ & Hpe & _) & _).
  apply mde_ok_spec in Hm as (_ & _ & _ & He & Ho & _).
  apply imu_ok_spec in Hi as (_ & _ & (Hel & _)).
  unfold ctrl_log_args, mde_get_az_enc_pos, mde_get_az_enc_off, imu_get_el_pos. cbv zeta.
  repeat constructor; try (apply degrees_arg; lia); try (apply degrees_sub_arg; lia).
  destruct (TIME_I2MS_value now Hn) as [_ Hms].
  apply (fle_le 0 42950 0); [lia | lia | easy |].
  apply (d_div_fle 42949673 0 1000 0 42950 0 0); try lia; [apply d_of_Z_fle; lia | fconst].
Qed.

Lemma ctrl_log_defined now r :
  rig_ok r -> 0 <= now < 4294967296 ->
  exists bucket, ctrl_log now r = Some (Rig (r_ctrl r) (r_mde r) (r_imu r) bucket) /\
    exists log, bucket_rep bucket log.
Proof.
  intros Hok Hn. pose proof Hok as (_ & _ & _ & log & Hrep).
  destruct (chvsnprintf_bound (replicate 128 0) 128 ctrl_log_format (replicate 7 KDouble)
              (ctrl_log_args now r) 175)
    as (buf & msg & ret & Hp & _ & Hmsg & _); try easy.
  { apply ctrl_log_args_ok; assumption. }
  destruct (debug_print_refines_aux _ _ _ _ Hrep Hmsg) as (bucket & Hb & Hrep').
  exists bucket. unfold ctrl_log. rewrite Hp. cbn [mbind option_bind]. rewrite Hb. eauto.
Qed.

(** ** One iteration *)

(** What an iteration leaves alone, and the torque limits it respects: a motor
    torque is either what it was or within the limit. *)
Record ctrl_frame (r r' : rig) : Prop := CtrlFrame {
  fr_az_state : az_state (r_ctrl r') = az_state (r_ctrl r);
  fr_el_state : el_state (r_ctrl r') = el_state (r_ctrl r);
  fr_flag : az_flag_calibrate (r_ctrl r') = az_flag_calibrate (r_ctrl r);
  fr_fixed : targets_fixed (r_ctrl r') = targets_fixed (r_ctrl r);
  fr_imu : r_imu r' = r_imu r;
  fr_sk : motor_sk (r_mde r') = motor_sk (r_mde r);
  fr_az : motor_az (r_mde r') = motor_az (r_mde r) \/ -25 <= motor_az (r_mde r') <= 25;
  fr_el : motor_el (r_mde r') = motor_el (r_mde r) \/ -25 <= motor_el (r_mde r') <= 25
}.

Lemma ctrl_frame_refl r : ctrl_frame r r.
Proof. constructor; auto. Qed.

Lemma ctrl_frame_trans r1 r2 r3 : ctrl_frame r1 r2 -> ctrl_frame r2 r3 -> ctrl_frame r1 r3.
Proof.
  intros [A1 A2 A3 A4 A5 A6 A7 A8] [B1 B2 B3 B4 B5 B6 B7 B8].
  constructor; try congruence; intuition congruence || lia.
Qed.

Lemma on_mde_ok f r :
  rig_ok r -> (forall m, mde_ok m = true -> mde_ok (f m) = true) -> rig_ok (on_mde f r).
Proof. intros (Hc & Hm & Hi & Hb) Hf. repeat split; simpl; auto. Qed.

Lemma on_ctrl_ok f r :
  rig_ok r -> (ctrl_ok (r_ctrl r) = true -> ctrl_ok (f (r_ctrl r)) = true) -> rig_ok (on_ctrl f r).
Proof. intros (Hc & Hm & Hi & Hb) Hf. repeat split; simpl; auto. Qed.

Ltac ctrl_range := intros; rewrite ctrl_ok_spec in *; simpl in *; lia.

Lemma set_trq_ok r t :
  rig_ok r -> rig_ok (on_mde (mde_set_trq_az t) r) /\ rig_ok (on_mde (mde_set_trq_el t) r)
              /\ rig_ok (on_mde (mde_set_trq_sk t) r).
Proof.
  intros Hr. split_and!; apply on_mde_ok; auto; intros m Hm;
    apply (mde_setters_ok m t Hm).
Qed.

Lemma az_speed_control_ok r :
  rig_ok r -> rig_ok (az_speed_control r) /\ ctrl_frame r (az_speed_control r).
Proof.
  intros Hr. unfold az_speed_control.
  pose proof (az_torque_range (az_tgt_spd (r_ctrl r)) (mde_get_az_enc_spd (r_mde r))) as Ht.
  split; [apply set_trq_ok, Hr|]. constructor; simpl; auto. rewrite i8_id by lia. auto.
Qed.

Lemma az_command_range e : -32768 <= e < 32768 -> -5460 <= az_command e <= 5460.
Proof. unfold az_command, clamp. intros He. destruct (Z.sgn_spec e) as [[? ->]|[[? ->]|[? ->]]]; lia. Qed.

Lemma el_command_range e : -32768 <= e < 32768 -> -2730 <= el_command e <= 2730.
Proof.
  unfold el_command, clamp. intros He. case_bool; [lia|].
  destruct (Z.sgn_spec e) as [[? ->]|[[? ->]|[? ->]]]; lia.
Qed.

Lemma az_control_ok now r :
  rig_ok r -> targets_fixed (r_ctrl r) = true ->
  exists r', az_control now r = Some r' /\ rig_ok r' /\ ctrl_frame r r'.
Proof.
  intros Hr Hf. destruct (az_state (r_ctrl r)) eqn:Es.
  - exists r. unfold az_control. rewrite Es. split_and!; auto using ctrl_frame_refl.
  - unfold az_control. rewrite Es. eexists. split; [reflexivity|]. apply az_speed_control_ok, Hr.
  - rewrite (az_control_target now r (proj1 Hr) Hf Es). eexists. split; [reflexivity|].
    pose proof (az_command_range (az_error r) (i16_range _)) as Hc. case_bool.
    + split; [unfold az_hold; apply on_mde_ok; auto; intros m Hm; apply (mde_setters_ok m _ Hm)|].
      constructor; simpl; auto. right. case_bool; rewrite i8_id by lia; lia.
    + set (r1 := on_ctrl _ r).
      assert (Hr1 : rig_ok r1) by (apply on_ctrl_ok; [exact Hr | ctrl_range]).
      destruct (az_speed_control_ok r1 Hr1) as [H1 H2]. split; [exact H1|].
      eapply ctrl_frame_trans; [|exact H2]. constructor; simpl; auto.
Qed.

Lemma el_torque_range tgt spd st : -25 <= el_torque tgt spd st <= 25.
Proof. unfold el_torque. cbv zeta. case_bools; lia. Qed.

Lemma el_control_ok now r :
  rig_ok r -> targets_fixed (r_ctrl r) = true ->
  exists r', el_control now r = Some r' /\ rig_ok r' /\ ctrl_frame r r'.
Proof.
  intros Hr Hf. pose proof Hr as (Hc & _ & Hi & _). destruct (el_state (r_ctrl r)) eqn:Es.
  - exists r. unfold el_control. rewrite Es. split_and!; auto using ctrl_frame_refl.
  - unfold el_control. rewrite Es. eexists. split; [reflexivity|]. cbv zeta.
    split; [apply set_trq_ok, Hr|]. constructor; simpl; auto. right.
    match goal with |- context [el_torque ?a ?b ?c] => pose proof (el_torque_range a b c) end.
    rewrite i8_id by lia. lia.
  - rewrite (el_control_target now r Hc Hf Hi Es). eexists. split; [reflexivity|].
    pose proof (el_command_range (el_error r) (i16_range _)) as Hcmd.
    split.
    + apply set_trq_ok, on_ctrl_ok; [exact Hr | ctrl_range].
    + constructor; simpl; auto. right.
      match goal with |- context [el_torque ?a ?b ?c] => pose proof (el_torque_range a b c) end.
      rewrite i8_id by lia. lia.
Qed.

Lemma sk_control_ok r : rig_ok r -> rig_ok (sk_control r) /\ ctrl_frame r (sk_control r).
Proof.
  intros Hr. unfold sk_control. destruct (sk_state (r_ctrl r)); [auto using ctrl_frame_refl|..].
  all: split; [apply on_ctrl_ok; [exact Hr | ctrl_range] | constructor; simpl; auto].
Qed.

Lemma ctrl_rest_ok ts old_az cntr r :
  rig_ok r -> targets_fixed (r_ctrl r) = true -> ctrl_times_ok ts = true ->
  exists r', ctrl_rest ts old_az cntr r = Some (CtrlThread CtrlTop old_az (u32 (cntr + 1)), r') /\
    rig_ok r' /\ ctrl_frame r r' /\ last_loop_update (r_ctrl r') = t_end ts.
Proof.
  intros Hr Hf Hts. unfold ctrl_times_ok in Hts. rewrite !andb_true_iff, !in_u_spec in Hts.
  destruct Hts as [[[_ _] Hlog] Hend]. simpl Z.pow in Hlog, Hend.
  destruct (az_control_ok (t_az ts) r Hr Hf) as (r1 & E1 & Hr1 & F1).
  destruct (el_control_ok (t_el ts) r1 Hr1) as (r2 & E2 & Hr2 & F2).
  { rewrite (fr_fixed _ _ F1). exact Hf. }
  destruct (sk_control_ok r2 Hr2) as [Hr3 F3]. set (r3 := sk_control r2) in *.
  assert (Hlg : exists r4, (if cntr mod 50 =? 0 then ctrl_log (t_log ts) r3 else Some r3) = Some r4
                /\ rig_ok r4 /\ ctrl_frame r3 r4).
  { case_bool; [|eauto using ctrl_frame_refl].
    destruct (ctrl_log_defined (t_log ts) r3 Hr3 Hlog) as (b & -> & Hb).
    eexists. split; [reflexivity|]. split; [|constructor; simpl; auto].
    destruct Hr3 as (? & ? & ? & _). repeat split; assumption. }
  destruct Hlg as (r4 & E4 & Hr4 & F4).
  unfold ctrl_rest. rewrite E1. cbn [mbind option_bind]. rewrite E2. cbn [mbind option_bind].
  fold r3. rewrite E4. cbn [mbind option_bind]. eexists. split; [reflexivity|].
  split; [apply on_ctrl_ok; [exact Hr4 | ctrl_range]|]. split; [|reflexivity].
  eapply ctrl_frame_trans; [exact F1|]. eapply ctrl_frame_trans; [exact F2|].
  eapply ctrl_frame_trans; [exact F3|]. eapply ctrl_frame_trans; [exact F4|].
  constructor; simpl; auto.
Qed.

(** After the azimuth controller nothing touches the azimuth. *)
Definition az_same (r r' : rig) : Prop :=
  motor_az (r_mde r') = motor_az (r_mde r) /\ az_tgt_spd (r_ctrl r') = az_tgt_spd (r_ctrl r).

Lemma el_control_az now r r' : el_control now r = Some r' -> az_same r r'.
Proof.
  unfold el_control. cbv zeta. intros H.
  destruct (el_state (r_ctrl r)); [| |destruct (f_to_s 16 _); [cbn [mbind option_bind] in H|discriminate]];
    injection H as <-; split; reflexivity.
Qed.

Lemma ctrl_log_same now r r' :
  ctrl_log now r = Some r' -> r_ctrl r' = r_ctrl r /\ r_mde r' = r_mde r.
Proof.
  unfold ctrl_log. destruct (chvsnprintf _ _ _ _) as [[buf n]|]; [|discriminate].
  cbn [mbind option_bind]. destruct (debug_print _ _); [|discriminate].
  intros [= <-]. split; reflexivity.
Qed.

Lemma sk_control_same r : r_mde (sk_control r) = r_mde r /\ az_same r (sk_control r).
Proof. unfold sk_control. destruct (sk_state (r_ctrl r)); repeat split. Qed.

Lemma ctrl_rest_az ts old_az cntr r t' r' :
  ctrl_rest ts old_az cntr r = Some (t', r') ->
  exists r1, az_control (t_az ts) r = Some r1 /\ az_same r1 r'.
Proof.
  unfold ctrl_rest. intros H.
  destruct (az_control (t_az ts) r) as [r1|]; [|discriminate]. cbn [mbind option_bind] in H.
  destruct (el_control (t_el ts) r1) as [r2|] eqn:E2; [|discriminate]. cbn [mbind option_bind] in H.
  apply el_control_az in E2 as [E2m E2s]. exists r1. split; [reflexivity|].
  destruct (sk_control_same r2) as [_ [E3m E3s]]. set (r3 := sk_control r2) in *.
  destruct (if cntr mod 50 =? 0 then _ else _) as [r4|] eqn:E4; [|discriminate].
  cbn [mbind option_bind] in H. injection H as _ <-. unfold az_same; simpl.
  assert (r_ctrl r4 = r_ctrl r3 /\ r_mde r4 = r_mde r3) as [-> ->].
  { case_bool_in E4; [eapply ctrl_log_same, E4 | injection E4 as <-; split; reflexivity]. }
  split; congruence.
Qed.

(** With both axes at constant torque an iteration changes no torque. *)
Lemma ctrl_rest_idle ts old_az cntr r t' r' :
  az_state (r_ctrl r) = MOTOR_STATE_CONST_TORQUE ->
  el_state (r_ctrl r) = MOTOR_STATE_CONST_TORQUE ->
  ctrl_rest ts old_az cntr r = Some (t', r') -> r_mde r' = r_mde r.
Proof.
  intros Ha He. unfold ctrl_rest, az_control, el_control. rewrite Ha. cbn [mbind option_bind].
  rewrite He. cbn [mbind option_bind]. cbv zeta. intros H.
  destruct (sk_control_same r) as [E3 _]. set (r3 := sk_control r) in *.
  destruct (if cntr mod 50 =? 0 then _ else _) as [r4|] eqn:E4; [|discriminate].
  cbn [mbind option_bind] in H. injection H as _ <-. simpl. rewrite <- E3.
  case_bool_in E4; [eapply ctrl_log_same, E4 | injection E4 as <-; reflexivity].
Qed.

(** ** The thread *)

Lemma az_set_const_trq_ok t r : rig_ok r -> rig_ok (az_set_const_trq t r).
Proof.
  intros Hr. unfold az_set_const_trq. apply set_trq_ok, on_ctrl_ok; [exact Hr | ctrl_range].
Qed.

Lemma ctrl_failsafe_ok r :
  rig_ok r -> rig_ok (ctrl_failsafe r) /\ r_imu (ctrl_failsafe r) = r_imu r /\
  targets_fixed (r_ctrl (ctrl_failsafe r)) = targets_fixed (r_ctrl r) /\
  (az_state (r_ctrl (ctrl_failsafe r)) = MOTOR_STATE_CONST_SPEED ->
   az_state (r_ctrl r) = MOTOR_STATE_CONST_SPEED) /\
  (ctrl_failsafe r = r \/ motor_az (r_mde (ctrl_failsafe r)) = 0 /\ motor_el (r_mde (ctrl_failsafe r)) = 0).
Proof.
  intros Hr. unfold ctrl_failsafe. destruct (failsafe_trips (r_imu r)); [|tauto].
  split_and!; try reflexivity; [|discriminate|right; split; reflexivity].
  unfold sk_set_const_trq, el_set_const_trq.
  apply on_ctrl_ok; [|ctrl_range]. apply set_trq_ok. apply on_ctrl_ok; [|ctrl_range].
  apply set_trq_ok, az_set_const_trq_ok, Hr.
Qed.

(** A torque that is unchanged or within the limit. *)
Definition trq_limited (r r' : rig) : Prop :=
  (motor_az (r_mde r') = motor_az (r_mde r) \/ -25 <= motor_az (r_mde r') <= 25) /\
  (motor_el (r_mde r') = motor_el (r_mde r) \/ -25 <= motor_el (r_mde r') <= 25).

Lemma trq_limited_frame r r1 r' : trq_limited r r1 -> ctrl_frame r1 r' -> trq_limited r r'.
Proof.
  intros [H1 H2] F. destruct F as [_ _ _ _ _ _ Fa Fe].
  split; [destruct Fa as [->|]; tauto | destruct Fe as [->|]; tauto].
Qed.

Lemma ctrl_step_ok ts t r :
  rig_ok r -> targets_fixed (r_ctrl r) = true -> ctrl_times_ok ts = true ->
  ctrl_thread_ok t (r_ctrl r) ->
  exists t' r', ctrl_step ts t r = Some (t', r') /\ rig_ok r' /\
    targets_fixed (r_ctrl r') = true /\ ctrl_thread_ok t' (r_ctrl r') /\ trq_limited r r' /\
    r_imu r' = r_imu r.
Proof.
  intros Hr Hf Hts Ht. unfold ctrl_step. destruct (ct_pc t).
  - destruct (ctrl_failsafe_ok r Hr) as (Hr1 & Hi1 & Hf1 & Hst & Hz).
    set (r1 := ctrl_failsafe r) in *.
    assert (Hl1 : trq_limited r r1) by (destruct Hz as [->|[Ea Ee]]; split; lia).
    rewrite <- Hf1 in Hf. clear Hf1. destruct (az_flag_calibrate (r_ctrl r1)).
    + destruct (bool_decide_reflect (az_state (r_ctrl r1) = MOTOR_STATE_CONST_SPEED)) as [Es|Es].
      * cbn [negb]. destruct (ct_old_az t) as [o|] eqn:Eo; [|destruct (Ht (Hst Es) Eo)].
        cbn [mbind option_bind]. set (az := mde_get_az_enc_pos (r_mde r1)).
        set (r2 := if az <? o then _ else r1).
        assert (Hr2 : rig_ok r2 /\ targets_fixed (r_ctrl r2) = true /\ trq_limited r r2 /\ r_imu r2 = r_imu r1).
        { unfold r2. case_bool; [|tauto].
          split_and!; [apply az_set_const_trq_ok, Hr1 | exact Hf | | reflexivity].
          split; [right; simpl; change (i8 (i8 0)) with 0; lia | apply Hl1]. }
        destruct Hr2 as (Hr2 & Hf2 & Hl2 & Hi2).
        destruct (ctrl_rest_ok ts (Some az) (ct_cntr t) r2 Hr2 Hf2 Hts) as (r' & -> & H' & F' & _).
        do 2 eexists. split; [reflexivity|]. split_and!; auto.
        -- rewrite (fr_fixed _ _ F'). exact Hf2.
        -- intros _. discriminate.
        -- eapply trq_limited_frame; eauto.
        -- rewrite (fr_imu _ _ F'). congruence.
      * cbn [negb]. do 2 eexists. split; [reflexivity|].
        split_and!; [apply set_trq_ok, Hr1 | exact Hf | | | exact Hi1].
        -- intros E. destruct (Es E).
        -- split; [right; simpl; change (i8 25) with 25; lia | apply Hl1].
    + destruct (ctrl_rest_ok ts (ct_old_az t) (ct_cntr t) r1 Hr1 Hf Hts) as (r' & -> & H' & F' & _).
      do 2 eexists. split; [reflexivity|]. split_and!; auto.
      * rewrite (fr_fixed _ _ F'). exact Hf.
      * unfold ctrl_thread_ok. rewrite (fr_az_state _ _ F'). intros E. apply Ht, Hst, E.
      * eapply trq_limited_frame; eauto.
      * rewrite (fr_imu _ _ F'). exact Hi1.
  - set (r1 := on_ctrl _ r).
    assert (Hr1 : rig_ok r1) by (apply on_ctrl_ok; [exact Hr | ctrl_range]).
    destruct (ctrl_rest_ok ts (Some 0) (ct_cntr t) r1 Hr1 Hf Hts) as (r' & -> & H' & F' & _).
    do 2 eexists. split; [reflexivity|]. split_and!; auto.
    + rewrite (fr_fixed _ _ F'). exact Hf.
    + intros _. discriminate.
    + eapply trq_limited_frame; [|exact F']. split; left; reflexivity.
    + apply (fr_imu _ _ F').
Qed.

(** ** Properties *)

(** A step of the control thread is never undefined, from any well-typed
    state in which the targets are fixed: it terminates, every conversion and
    every buffer access in it (the log line included) is defined, the state
    stays well-typed, and every azimuth or elevation torque it sets is within
    -25 and 25. *)
Theorem ctrl_step_safe (ts : ctrl_times) (t : ctrl_thread) (r : rig) :
  rig_ok r -> targets_fixed (r_ctrl r) = true -> ctrl_times_ok ts = true ->
  ctrl_thread_ok t (r_ctrl r) ->
  exists t' r', ctrl_step ts t r = Some (t', r') /\ rig_ok r' /\
    targets_fixed (r_ctrl r') = true /\ ctrl_thread_ok t' (r_ctrl r') /\ trq_limited r r'.
Proof.
  intros Hr Hf Hts Ht. destruct (ctrl_step_ok ts t r Hr Hf Hts Ht)
    as (t' & r' & H1 & H2 & H3 & H4 & H5 & _). eauto 8.
Qed.

Lemma rig0_ok : rig_ok rig0.
Proof. repeat split. exists []. split; reflexivity. Qed.

Lemma ctrl_step_safe_witness :
  exists t' r', ctrl_step (CtrlTimes 5 6 7 8) ctrl_thread0 (az_set_tgt_pos 3 1000 rig0) = Some (t', r') /\
    rig_ok r' /\ targets_fixed (r_ctrl r') = true /\ ctrl_thread_ok t' (r_ctrl r') /\
    trq_limited (az_set_tgt_pos 3 1000 rig0) r'.
Proof.
  apply ctrl_step_safe; [|reflexivity|reflexivity|discriminate].
  repeat split. exists []. split; reflexivity.
Defined.

(** C8: the failsafe stops the rig: when the accelerometer is dead or a rotation
    rate is out of range at the top of an iteration, at the end of that
    iteration all three motor torques are zero, all three axes are in constant
    torque mode and a running calibration has been cancelled, whatever mode and
    target the axes had. *)
Theorem ctrl_failsafe_stops (ts : ctrl_times) (t : ctrl_thread) (r : rig) :
  rig_ok r -> targets_fixed (r_ctrl r) = true -> ctrl_times_ok ts = true ->
  ct_pc t = CtrlTop -> failsafe_trips (r_imu r) = true ->
  exists t' r', ctrl_step ts t r = Some (t', r') /\ ct_pc t' = CtrlTop /\
    motor_az (r_mde r') = 0 /\ motor_el (r_mde r') = 0 /\ motor_sk (r_mde r') = 0 /\
    az_state (r_ctrl r') = MOTOR_STATE_CONST_TORQUE /\
    el_state (r_ctrl r') = MOTOR_STATE_CONST_TORQUE /\
    az_flag_calibrate (r_ctrl r') = false.
Proof.
  intros Hr Hf Hts Hpc Htr. unfold ctrl_step. rewrite Hpc.
  destruct (ctrl_failsafe_ok r Hr) as (Hr1 & _ & Hf1 & _ & _). rewrite <- Hf1 in Hf.
  assert (Hfs : ctrl_failsafe r = sk_set_const_trq 0 (el_set_const_trq 0 (az_set_const_trq 0 r)))
    by (unfold ctrl_failsafe; rewrite Htr; reflexivity).
  set (r1 := ctrl_failsafe r) in *.
  assert (Hflag : az_flag_calibrate (r_ctrl r1) = false) by (rewrite Hfs; reflexivity).
  rewrite Hflag.
  destruct (ctrl_rest_ok ts (ct_old_az t) (ct_cntr t) r1 Hr1 Hf Hts) as (r' & E & _ & F & _).
  pose proof (ctrl_rest_idle _ _ _ r1 _ r' ltac:(rewrite Hfs; reflexivity)
                ltac:(rewrite Hfs; reflexivity) E) as Hm.
  rewrite E. do 2 eexists. split; [reflexivity|].
  rewrite Hm, (fr_az_state _ _ F), (fr_el_state _ _ F), (fr_flag _ _ F), Hfs.
  split_and!; reflexivity.
Qed.

Lemma ctrl_failsafe_stops_witness :
  exists t' r', ctrl_step (CtrlTimes 5 6 7 8) ctrl_thread0 (az_calibrate (az_set_tgt_pos 3 1000 rig0)) = Some (t', r') /\
    ct_pc t' = CtrlTop /\
    motor_az (r_mde r') = 0 /\ motor_el (r_mde r') = 0 /\ motor_sk (r_mde r') = 0 /\
    az_state (r_ctrl r') = MOTOR_STATE_CONST_TORQUE /\
    el_state (r_ctrl r') = MOTOR_STATE_CONST_TORQUE /\
    az_flag_calibrate (r_ctrl r') = false.
Proof.
  apply ctrl_failsafe_stops; try reflexivity.
  repeat split. exists []. split; reflexivity.
Defined.

(** C9: target tracking in azimuth turns the short way round: with [e] the signed
    shortest angle from the encoder (offset included, both wrapping) to the
    target, the controller holds within -46..45 units, and otherwise regulates
    to a speed with the sign of [e] of half the distance, at least 2 and at most
    30 degrees per second. *)
Theorem az_tracks_shortest_way (now : Z) (r : rig) :
  ctrl_ok (r_ctrl r) = true -> targets_fixed (r_ctrl r) = true ->
  az_state (r_ctrl r) = MOTOR_STATE_TARGET_POSITION ->
  let e := az_error r in
  u16 (enc_az (r_mde r) + enc_az_off (r_mde r) + e) = u16 (az_tgt_pos (r_ctrl r)) /\
  -32768 <= e < 32768 /\
  az_control now r =
  Some (if (-46 <=? e) && (e <=? 45) then az_hold r
        else az_speed_control (on_ctrl (with_az_tgt_spd (az_command e)) r)).
Proof.
  intros Hok Hf Hs e. split; [unfold e, az_error; cint|]. split; [apply i16_range|].
  apply az_control_target; assumption.
Qed.

Lemma az_tracks_shortest_way_witness :
  let r := az_set_tgt_pos 3 65000 rig0 in
  let e := az_error r in
  u16 (enc_az (r_mde r) + enc_az_off (r_mde r) + e) = u16 (az_tgt_pos (r_ctrl r)) /\
  -32768 <= e < 32768 /\
  az_control 9 r =
  Some (if (-46 <=? e) && (e <=? 45) then az_hold r
        else az_speed_control (on_ctrl (with_az_tgt_spd (az_command e)) r)).
Proof. apply (az_tracks_shortest_way 9 (az_set_tgt_pos 3 65000 rig0)); reflexivity. Defined.

(** The azimuth speed regulator is a proportional regulator with a ten-unit
    feed-forward, limited to 25 either way, as long as the speed error is below
    7080 units (39 degrees per second). *)
Theorem az_torque_proportional (tgt act : Z) :
  Z.abs (tgt - act) < 7080 ->
  az_torque tgt act = clamp (-25) 25 (cdiv (tgt - act) 60 + 10 * (if 0 <? tgt then 1 else -1)).
Proof. apply az_torque_value. Qed.

Lemma az_torque_proportional_witness :
  az_torque 5460 0 = clamp (-25) 25 (cdiv (5460 - 0) 60 + 10 * (if 0 <? 5460 then 1 else -1)).
Proof. apply (az_torque_proportional 5460 0). lia. Defined.

(** Beyond that error the torque is computed in an [int8_t] before it is
    limited, and wraps: an antenna driven backwards against a forward command
    gets the full torque backwards. *)
Theorem az_torque_reversed (tgt act : Z) :
  0 < tgt <= 5460 -> 7080 <= tgt - act < 13200 -> az_torque tgt act = -25.
Proof. apply az_torque_wrapped. Qed.

Lemma az_torque_reversed_witness : az_torque 5460 (-2000) = -25.
Proof. apply (az_torque_reversed 5460 (-2000)); lia. Defined.

(** C10: target tracking in elevation regulates to the difference between the
    target and the measured angle plus offset, taken modulo a full circle in
    sixteen bits: when the difference fits an [int16_t] it is the plain signed
    difference, beyond that it is off by a whole circle.  The speed is the
    error, at least one degree per second outside a quarter of a degree and at
    most fifteen, and the torque a tenth of the speed error limited to 25; in
    the speed and the torque nothing wraps, whatever the measured speed. *)
Theorem el_tracks_target (now : Z) (r : rig) :
  ctrl_ok (r_ctrl r) = true -> targets_fixed (r_ctrl r) = true -> imu_ok (r_imu r) = true ->
  el_state (r_ctrl r) = MOTOR_STATE_TARGET_POSITION ->
  let diff := el_tgt_pos (r_ctrl r) - (imu_el_pos (r_imu r) + imu_el_off (r_imu r)) in
  let v := imu_el_spd (r_imu r) in
  exists r' e spd, el_control now r = Some r' /\
    -32768 <= e < 32768 /\ e mod 65536 = diff mod 65536 /\
    (-32768 <= diff < 32768 -> e = diff) /\
    spd = (if Z.abs e <=? 45 then e else Z.sgn e * clamp 182 (15 * 182) (Z.abs e)) /\
    el_tgt_spd (r_ctrl r') = spd /\
    motor_el (r_mde r') = clamp (-25) 25 (cdiv (spd - (if Z.abs v <? 150 then 0 else v)) 10).
Proof.
  intros Hok Hf Hi Hs diff v. rewrite (el_control_target now r Hok Hf Hi Hs).
  pose proof (proj1 (imu_ok_spec _) Hi) as (_ & _ & _ & _ & Hv).
  pose proof (el_command_range (el_error r) (i16_range _)) as Hc.
  eexists _, (el_error r), _. split; [reflexivity|].
  destruct (el_error_class r) as (H1 & H2 & H3).
  split; [exact H1|]. split; [exact H2|]. split; [exact H3|].
  split; [reflexivity|]. split; [reflexivity|]. simpl.
  pose proof (el_torque_range (el_command (el_error r)) (imu_el_spd (r_imu r)) 0).
  rewrite i8_id by lia. apply (el_torque_value (el_command (el_error r))); [lia | exact Hv].
Qed.

Lemma el_tracks_target_witness :
  let r := el_set_tgt_pos 3 (-8000) rig0 in
  let diff := -8000 - (0 + 0) in
  let v := imu_el_spd (r_imu r) in
  exists r' e spd, el_control 9 r = Some r' /\
    -32768 <= e < 32768 /\ e mod 65536 = diff mod 65536 /\
    (-32768 <= diff < 32768 -> e = diff) /\
    spd = (if Z.abs e <=? 45 then e else Z.sgn e * clamp 182 (15 * 182) (Z.abs e)) /\
    el_tgt_spd (r_ctrl r') = spd /\
    motor_el (r_mde r') = clamp (-25) 25 (cdiv (spd - (if Z.abs v <? 150 then 0 else v)) 10).
Proof. apply (el_tracks_target 9 (el_set_tgt_pos 3 (-8000) rig0)); reflexivity. Defined.

(** C36: a stop that arrives while a calibration is in its one-second start-up is
    lost, and so is the end of the calibration: when the thread wakes up it puts
    the azimuth back to constant speed, 30 degrees per second, and regulates to
    it, with the calibration flag cleared, so that nothing ends the turn. *)
Theorem homing_overrides_stop (ts : ctrl_times) (t : ctrl_thread) (r : rig) :
  rig_ok r -> targets_fixed (r_ctrl r) = true -> ctrl_times_ok ts = true ->
  ct_pc t = CtrlHoming ->
  exists t' r', ctrl_step ts t (az_set_const_trq 0 r) = Some (t', r') /\
    az_state (r_ctrl r') = MOTOR_STATE_CONST_SPEED /\ az_tgt_spd (r_ctrl r') = 5400 /\
    az_flag_calibrate (r_ctrl r') = false /\
    motor_az (r_mde r') = az_torque 5400 (enc_az_speed (r_mde r)).
Proof.
  intros Hr Hf Hts Hpc. unfold ctrl_step. rewrite Hpc.
  set (r1 := on_ctrl _ (az_set_const_trq 0 r)).
  assert (Hr1 : rig_ok r1).
  { apply on_ctrl_ok; [apply az_set_const_trq_ok, Hr | ctrl_range]. }
  destruct (ctrl_rest_ok ts (Some 0) (ct_cntr t) r1 Hr1 Hf Hts) as (r' & E & _ & F & _).
  destruct (ctrl_rest_az _ _ _ _ _ _ E) as (r2 & E2 & Hm & Hs).
  rewrite E. do 2 eexists. split; [reflexivity|].
  unfold az_control in E2. change (az_state (r_ctrl r1)) with MOTOR_STATE_CONST_SPEED in E2.
  cbv beta iota zeta in E2. injection E2 as <-.
  rewrite (fr_az_state _ _ F), (fr_flag _ _ F), Hm, Hs. split_and!; try reflexivity.
  simpl. pose proof (az_torque_range 5400 (enc_az_speed (r_mde r))) as Ht.
  change (180 * 30) with 5400. unfold mde_get_az_enc_spd; simpl. apply i8_id. lia.
Qed.

Lemma homing_overrides_stop_witness :
  exists t' r', ctrl_step (CtrlTimes 5 6 7 8) (CtrlThread CtrlHoming None 0) (az_set_const_trq 0 rig0) = Some (t', r') /\
    az_state (r_ctrl r') = MOTOR_STATE_CONST_SPEED /\ az_tgt_spd (r_ctrl r') = 5400 /\
    az_flag_calibrate (r_ctrl r') = false /\
    motor_az (r_mde r') = az_torque 5400 (enc_az_speed (r_mde rig0)).
Proof.
  apply homing_overrides_stop; try reflexivity.
  repeat split. exists []. split; reflexivity.
Defined.

Lemma ctrl_is_running_elapsed d s :
  0 <= last_loop_update s < 4294967296 -> 0 <= d < 4294967296 ->
  ctrl_is_running (u32 (last_loop_update s + d)) s = (d <=? 9900).
Proof.
  intros Hl Hd. unfold ctrl_is_running. rewrite wrapu_sub_l.
  replace (last_loop_update s + d - last_loop_update s) with d by lia. rewrite u32_id by lia.
  destruct (TIME_I2MS_value d Hd) as [-> _].
  destruct (Z.leb_spec d 9900); [apply Z.ltb_lt | apply Z.ltb_ge]; zlia.
Qed.

(** The watchdog of the drive thread, [ctrl_is_running], holds exactly while
    at most 99 ms (9900 ticks) have passed since the end of the last iteration,
    across the wrap of the tick counter.  The start of a calibration therefore
    trips it: that step sets the torque but does not end an iteration, and the
    thread then sleeps for a second, of which the drive is served only the first
    tenth. *)
Theorem ctrl_watchdog (ts : ctrl_times) (t : ctrl_thread) (r : rig) (d : Z) :
  ctrl_ok (r_ctrl r) = true -> 0 <= d < 4294967296 ->
  ctrl_is_running (u32 (last_loop_update (r_ctrl r) + d)) (r_ctrl r) = (d <=? 9900) /\
  (forall t' r', ctrl_step ts t r = Some (t', r') -> ct_pc t' = CtrlHoming ->
     motor_az (r_mde r') = 25 /\ az_flag_calibrate (r_ctrl r') = true /\
     ctrl_is_running (u32 (last_loop_update (r_ctrl r) + d)) (r_ctrl r') = (d <=? 9900)).
Proof.
  intros Hok Hd. apply ctrl_ok_spec in Hok as (_ & _ & _ & Hl).
  split; [apply ctrl_is_running_elapsed; assumption|].
  assert (Hrest : forall o c r0 t' r', ctrl_rest ts o c r0 = Some (t', r') -> ct_pc t' = CtrlTop).
  { unfold ctrl_rest. intros o c r0 t' r' H.
    destruct (az_control _ _) as [r1|]; [|discriminate]. cbn [mbind option_bind] in H.
    destruct (el_control _ _) as [r2|]; [|discriminate]. cbn [mbind option_bind] in H.
    destruct (if c mod 50 =? 0 then _ else _); [|discriminate].
    cbn [mbind option_bind] in H. injection H as <- _. reflexivity. }
  intros t' r' H Hpc. unfold ctrl_step in H. destruct (ct_pc t).
  - destruct (az_flag_calibrate (r_ctrl (ctrl_failsafe r))) eqn:Ef.
    + destruct (negb _).
      * injection H as <- <-. unfold ctrl_failsafe in *.
        destruct (failsafe_trips (r_imu r)); [discriminate|].
        split; [reflexivity|]. split; [exact Ef|]. apply ctrl_is_running_elapsed; assumption.
      * destruct (ct_old_az t); [|discriminate]. cbn [mbind option_bind] in H.
        apply Hrest in H. congruence.
    + apply Hrest in H. congruence.
  - apply Hrest in H. congruence.
Qed.

Lemma ctrl_watchdog_witness :
  ctrl_is_running (u32 (last_loop_update (r_ctrl rig0) + 50000)) (r_ctrl rig0) = (50000 <=? 9900) /\
  (forall t' r', ctrl_step (CtrlTimes 5 6 7 8) ctrl_thread0 rig0 = Some (t', r') -> ct_pc t' = CtrlHoming ->
     motor_az (r_mde r') = 25 /\ az_flag_calibrate (r_ctrl r') = true /\
     ctrl_is_running (u32 (last_loop_update (r_ctrl rig0) + 50000)) (r_ctrl r') = (50000 <=? 9900)).
Proof. apply (ctrl_watchdog (CtrlTimes 5 6 7 8) ctrl_thread0 rig0 50000); [reflexivity | lia]. Defined.

(** ** The drive's switch is not touched *)

Lemma ctrl_rest_power ts old_az cntr r t' r' :
  ctrl_rest ts old_az cntr r = Some (t', r') -> is_powered_up (r_mde r') = is_powered_up (r_mde r).
Proof.
  unfold ctrl_rest. intros H. apply bind_Some_inv in H as [r1 [E1 H]].
  apply bind_Some_inv in H as [r2 [E2 H]]. apply bind_Some_inv in H as [r3 [E3 H]].
  injection H as _ <-. cbn [on_ctrl r_mde].
  assert (H1 : is_powered_up (r_mde r1) = is_powered_up (r_mde r)).
  { unfold az_control in E1. destruct (az_state (r_ctrl r)).
    - injection E1 as <-. reflexivity.
    - injection E1 as <-. reflexivity.
    - apply bind_Some_inv in E1 as [tgt [_ E1]]. case_bool_in E1; injection E1 as <-; reflexivity. }
  assert (H2 : is_powered_up (r_mde r2) = is_powered_up (r_mde r1)).
  { unfold el_control in E2. destruct (el_state (r_ctrl r1)).
    - injection E2 as <-. reflexivity.
    - injection E2 as <-. reflexivity.
    - apply bind_Some_inv in E2 as [tgt [_ E2]]. injection E2 as <-. reflexivity. }
  rewrite <- H1, <- H2. destruct (cntr mod 50 =? 0).
  - destruct (ctrl_log_same _ _ _ E3) as [_ E]. rewrite E, (proj1 (sk_control_same r2)). reflexivity.
  - injection E3 as <-. rewrite (proj1 (sk_control_same r2)). reflexivity.
Qed.

Lemma ctrl_step_power ts t r t' r' :
  ctrl_step ts t r = Some (t', r') -> is_powered_up (r_mde r') = is_powered_up (r_mde r).
Proof.
  assert (Hf : is_powered_up (r_mde (ctrl_failsafe r)) = is_powered_up (r_mde r))
    by (unfold ctrl_failsafe; case_bool; reflexivity).
  unfold ctrl_step. intros H. destruct (ct_pc t).
  - destruct (az_flag_calibrate _).
    + destruct (negb _); [injection H as <- <-; exact Hf|].
      apply bind_Some_inv in H as [o [_ H]]. apply ctrl_rest_power in H. rewrite H.
      case_bool; exact Hf.
    + apply ctrl_rest_power in H. congruence.
  - apply ctrl_rest_power in H. exact H.
Qed.

(** ** What the network threads may do

    The invariant they keep, and what they leave to the control and drive
    threads: only a calibration enters constant-speed mode, and only the drive
    thread switches the drive. *)

Definition rig_inv (r : rig) : Prop := rig_ok r /\ targets_fixed (r_ctrl r) = true.

Record client_effect (r r' : rig) : Prop := ClientEffect {
  ce_inv : rig_inv r';
  ce_speed : az_state (r_ctrl r') = MOTOR_STATE_CONST_SPEED ->
             az_state (r_ctrl r) = MOTOR_STATE_CONST_SPEED;
  ce_power : is_powered_up (r_mde r') = is_powered_up (r_mde r)
}.

Lemma client_effect_refl r : rig_inv r -> client_effect r r.
Proof. intros H. split; auto. Qed.

Lemma client_on_ctrl f r0 r :
  client_effect r0 r ->
  (ctrl_ok (r_ctrl r) = true -> ctrl_ok (f (r_ctrl r)) = true) ->
  az_tgt_pos_spd (f (r_ctrl r)) = 0 -> el_tgt_pos_spd (f (r_ctrl r)) = 0 ->
  (az_state (f (r_ctrl r)) = MOTOR_STATE_CONST_SPEED ->
   az_state (r_ctrl r) = MOTOR_STATE_CONST_SPEED) ->
  client_effect r0 (on_ctrl f r).
Proof.
  intros [[Hok _] Hs Hp] Hf Ha He Hst. split; [|simpl; auto|exact Hp].
  split; [apply on_ctrl_ok; assumption|]. simpl. apply targets_fixed_spec. auto.
Qed.

Lemma client_on_mde f r0 r :
  client_effect r0 r ->
  (forall m, mde_ok m = true -> mde_ok (f m) = true /\ is_powered_up (f m) = is_powered_up m) ->
  client_effect r0 (on_mde f r).
Proof.
  intros [[Hok Hf] Hs Hp] H. split; [|exact Hs|].
  - split; [apply on_mde_ok; [exact Hok | apply H] | exact Hf].
  - simpl. destruct Hok as (_ & Hm & _). rewrite (proj2 (H _ Hm)). exact Hp.
Qed.

Lemma client_set_trq f t r0 r :
  In f [mde_set_trq_az; mde_set_trq_el; mde_set_trq_sk; mde_set_az_enc_off] ->
  client_effect r0 r -> client_effect r0 (on_mde (f t) r).
Proof.
  intros Hf Hr. apply client_on_mde; [exact Hr|]. intros m Hm.
  destruct (mde_setters_ok m t Hm) as (H1 & H2 & H3 & H4 & _).
  destruct Hf as [<-|[<-|[<-|[<-|[]]]]]; auto.
Qed.

(** Proves [client_effect] of an [on_ctrl] update. *)
Ltac client_ctrl H :=
  let Hf := fresh in
  pose proof (proj2 (ce_inv _ _ H)) as Hf; apply targets_fixed_spec in Hf;
  apply client_on_ctrl;
  [ exact H
  | rewrite !ctrl_ok_spec; simpl;
    repeat match goal with
    | |- context [wrapu 16 ?x] => pose proof (u16_range x); generalize dependent (wrapu 16 x); intros
    | |- context [wraps 16 ?x] => pose proof (i16_range x); generalize dependent (wraps 16 x); intros
    end; tauto
  | simpl; (tauto || reflexivity)
  | simpl; (tauto || reflexivity)
  | simpl; (discriminate || tauto) ].

Section Setters.
Context (r0 r : rig) (Hr : client_effect r0 r).

Lemma client_az_set_tgt_pos now p :
  0 <= now < 4294967296 -> client_effect r0 (az_set_tgt_pos now p r).
Proof. intros Hn. client_ctrl Hr. Qed.

Lemma client_el_set_tgt_pos now p :
  0 <= now < 4294967296 -> client_effect r0 (el_set_tgt_pos now p r).
Proof. intros Hn. client_ctrl Hr. Qed.

Lemma client_sk_set_tgt_pos p : client_effect r0 (sk_set_tgt_pos p r).
Proof. client_ctrl Hr. Qed.

Lemma client_az_calibrate : client_effect r0 (az_calibrate r).
Proof. client_ctrl Hr. Qed.

Lemma client_az_set_tgt_pos_spd : client_effect r0 (az_set_tgt_pos_spd 0 r).
Proof. client_ctrl Hr. Qed.

Lemma client_el_set_tgt_pos_spd : client_effect r0 (el_set_tgt_pos_spd 0 r).
Proof. client_ctrl Hr. Qed.

Lemma client_az_set_const_trq t : client_effect r0 (az_set_const_trq t r).
Proof. apply client_set_trq; [simpl; tauto|]. client_ctrl Hr. Qed.

Lemma client_el_set_const_trq t : client_effect r0 (el_set_const_trq t r).
Proof.
  pose proof (client_set_trq mde_set_trq_el (i8 t) r0 r ltac:(simpl; tauto) Hr) as H.
  client_ctrl H.
Qed.

Lemma client_sk_set_const_trq t : client_effect r0 (sk_set_const_trq t r).
Proof.
  pose proof (client_set_trq mde_set_trq_sk (i8 t) r0 r ltac:(simpl; tauto) Hr) as H.
  client_ctrl H.
Qed.

Lemma client_imu_set_el_off v : client_effect r0 (on_imu (imu_set_el_off v) r).
Proof.
  destruct Hr as [[(Hc & Hm & Hi & Hb) Hf] Hs Hp]. split; [|exact Hs|exact Hp].
  split; [|exact Hf]. repeat split; simpl; auto.
  apply imu_ok_spec in Hi. apply imu_ok_spec. simpl. pose proof (i16_range v). tauto.
Qed.

Lemma client_bucket b log :
  bucket_rep b log -> client_effect r0 (Rig (r_ctrl r) (r_mde r) (r_imu r) b).
Proof.
  intros Hb. destruct Hr as [[(Hc & Hm & Hi & _) Hf] Hs Hp]. split; [|exact Hs|exact Hp].
  split; [|exact Hf]. repeat split; simpl; eauto.
Qed.

Lemma client_mde_power : client_effect r0 (on_mde mde_power_up r) /\
                         client_effect r0 (on_mde mde_power_down r).
Proof.
  split; (apply client_on_mde; [exact Hr|]; intros m Hm; split; [|reflexivity];
          apply (mde_setters_ok m 0 Hm)).
Qed.

End Setters.

#[export] Hint Resolve client_effect_refl client_az_set_tgt_pos client_el_set_tgt_pos
  client_sk_set_tgt_pos client_az_calibrate client_az_set_tgt_pos_spd client_el_set_tgt_pos_spd
  client_az_set_const_trq client_el_set_const_trq client_sk_set_const_trq
  client_imu_set_el_off : seatel.
