(* ===== verification/MdeThread.v ===== *)
(** * Motor drive enclosure: the communication thread (mde.c)

    The thread powers the drive up and down on command, and while the drive is
    on and the control thread is alive exchanges one cycle of words with it
    every three milliseconds.  [mde_step] runs the loop from one sleep to the
    next; [mde_pc] says at which sleep it is. *)

From S2P Require Import Prelude CInt CFloat Chtime Spi Mde Imu Debug Ctrl.
From Stdlib Require Import SpecFloat.

(** ** State *)

(** The sleep the thread is in: at the end of the loop; the second after the
    drive's supply has been switched off; after [i] readings of the gyroscope in
    [imu_calibrate] (with their sum); the four seconds after it; and the two
    pauses of the initialisation sequence. *)
Inductive mde_pc :=
| MdTop
| MdPowerDown
| MdCalibrate (i accu : Z)
| MdSettle
| MdInit2
| MdInit3.

(** The thread's locals and the drive's supply line.  Before the first cycle
    [old_t] and [old_x] hold whatever the stack held. *)
Record mde_thread := MdeThread {
  md_pc : mde_pc;
  md_old_t : Z;    (* systime_t *)
  md_old_x : Z;    (* uint16_t *)
  md_pwr : bool    (* LINE_MDE_PWR *)
}.

Definition md_goto (pc : mde_pc) (t : mde_thread) : mde_thread :=
  MdeThread pc (md_old_t t) (md_old_x t) (md_pwr t).
Definition md_set_pwr (b : bool) (t : mde_thread) : mde_thread :=
  MdeThread (md_pc t) (md_old_t t) (md_old_x t) b.

(** The readings of the clock in one cycle: in [ctrl_is_running], for [dt], and
    for [old_t]. *)
Record mde_times := MdeTimes { m_run : Z; m_dt : Z; m_old : Z }.

(** ** One cycle *)

(** [dx/dt] in encoder units per second. *)
Definition enc_speed (enc old_x ticks : Z) : option Z :=
  let dt := d_div (d_of_Z ticks) (d_of_Z CH_CFG_ST_FREQUENCY) in
  let dx := i16 (i16 enc - i16 old_x) in
  f_to_s 16 (d_div (d_of_Z dx) dt).

Definition mde_cycle {D} `{SpiBus D} (ts : mde_times) (d : D) (t : mde_thread) (r : rig)
  : option (D * mde_thread * rig) :=
  let d := mde_send d [65279; 65279; 65279; 65279; 65023] in
  let '(d, miso_fc) := mde_exchange d 64766 in
  let fc := Z.land miso_fc 255 in
  let '(d, miso_fb) := mde_exchange d 64511 in
  let fb := Z.land miso_fb 255 in
  let enc := mde_decode_enc fc fb in
  spd ← enc_speed enc (md_old_x t) (u32 (m_dt ts - md_old_t t));
  let r := on_mde (mde_set_encoder enc spd) r in
  cmd_az ← mde_cmd_set_mot_trq MOTOR_AZ (motor_az (r_mde r));
  cmd_el ← mde_cmd_set_mot_trq MOTOR_EL (motor_el (r_mde r));
  cmd_sk ← mde_cmd_set_mot_trq MOTOR_SK (motor_sk (r_mde r));
  Some (mde_send d [cmd_az; cmd_el; cmd_sk], MdeThread MdTop (m_old ts) enc (md_pwr t), r).

(** [if(is_powered_up && ctrl_is_running())], then the sleep. *)
Definition mde_serve {D} `{SpiBus D} (ts : mde_times) (d : D) (t : mde_thread) (r : rig)
  : option (D * mde_thread * rig) :=
  if is_powered_up (r_mde r) && ctrl_is_running (m_run ts) (r_ctrl r)
  then mde_cycle ts d t r
  else Some (d, md_goto MdTop t, r).

(** ** Power *)

(** One turn of the loop of [imu_calibrate]. *)
Definition mde_calibrate (i accu : Z) (t : mde_thread) (r : rig) : option mde_thread :=
  accu' ← imu_calibrate_add accu (r_imu r); Some (md_goto (MdCalibrate (i + 1) accu') t).

(** [if(power_up && !is_powered_up)], up to its first sleep. *)
Definition mde_power {D} `{SpiBus D} (ts : mde_times) (d : D) (t : mde_thread) (r : rig)
  : option (D * mde_thread * rig) :=
  if power_up (r_mde r) && negb (is_powered_up (r_mde r))
  then t' ← mde_calibrate 0 0 (md_set_pwr true t) r; Some (d, t', r)
  else mde_serve ts d t r.

Definition mde_init1_words : list Z :=
  [23461; 62719; 62719; 43263; 43518; 43517; 43260; 43515; 43258; 43257; 43512; 43511;
   43254; 43253; 43508; 43251; 43506; 43505].
Definition mde_init2_words : list Z := [42074; 42074].
Definition mde_init3_words : list Z :=
  [64511; 55801; 55279; 56575; 56063; 64375; 64118; 64251; 65023; 64766].

(** ** The thread *)

Definition mde_step {D} `{SpiBus D} (ts : mde_times) (d : D) (t : mde_thread) (r : rig)
  : option (D * mde_thread * rig) :=
  match md_pc t with
  | MdTop =>
      if power_dn (r_mde r) && is_powered_up (r_mde r)
      then Some (d, md_goto MdPowerDown (md_set_pwr false t), r)
      else mde_power ts d t r
  | MdPowerDown => mde_power ts d t (on_mde mde_set_powered_down r)
  | MdCalibrate i accu =>
      if i <? imu_calibrate_samples then t' ← mde_calibrate i accu t r; Some (d, t', r)
      else Some (d, md_goto MdSettle t, on_imu (imu_calibrate_end accu) r)
  | MdSettle => Some (mde_send d mde_init1_words, md_goto MdInit2 t, r)
  | MdInit2 => Some (mde_send d mde_init2_words, md_goto MdInit3 t, r)
  | MdInit3 => mde_serve ts (mde_send d mde_init3_words) t (on_mde mde_set_powered_up r)
  end.

(** The thread as it starts, its locals holding any value. *)
Definition mde_thread0 (old_t old_x : Z) : mde_thread := MdeThread MdTop old_t old_x false.

(** The drive, its thread and the rest of the firmware: a step of the thread, or
    anything another thread does, which may set the command flags but not
    [is_powered_up]. *)
Inductive mde_sys_step {D} `{SpiBus D} : D * mde_thread * rig -> D * mde_thread * rig -> Prop :=
| mde_sys_thread ts d t r c : mde_step ts d t r = Some c -> mde_sys_step (d, t, r) c
| mde_sys_other d t r r' :
    is_powered_up (r_mde r') = is_powered_up (r_mde r) -> mde_sys_step (d, t, r) (d, t, r').

(** Consecutive steps with the same clock readings, for examples. *)
Fixpoint mde_run {D} `{SpiBus D} (n : nat) (ts : mde_times) (c : D * mde_thread * rig)
  : option (D * mde_thread * rig) :=
  match n with
  | O => Some c
  | S n' => let '(d, t, r) := c in c' ← mde_step ts d t r; mde_run n' ts c'
  end.

(** ** Invariants *)

(** The supply line agrees with where the thread is. *)
Definition mde_thread_ok (t : mde_thread) (m : mde_state) : bool :=
  match md_pc t with
  | MdTop => Bool.eqb (md_pwr t) (is_powered_up m)
  | MdPowerDown => negb (md_pwr t) && is_powered_up m
  | _ => md_pwr t && negb (is_powered_up m)
  end.

(** The sum of a calibration under way is made of its readings. *)
Definition mde_sum_ok (t : mde_thread) : bool :=
  match md_pc t with
  | MdCalibrate i accu => (0 <=? i) && (i <=? 100) && (0 <=? accu) && (accu <=? i * 65535)
  | _ => true
  end.

Lemma mde_calibrate_inv i accu t r t' :
  mde_calibrate i accu t r = Some t' ->
  t' = md_goto (MdCalibrate (i + 1) (accu + imu_rot_y (r_imu r))) t.
Proof.
  unfold mde_calibrate, imu_calibrate_add. destruct (in_s _ _); [|discriminate].
  intros E. injection E as <-. reflexivity.
Qed.

(** A reading added to such a sum leaves one. *)
Lemma mde_calibrate_total i accu t r :
  imu_ok (r_imu r) = true -> 0 <= i < 100 -> 0 <= accu <= i * 65535 ->
  exists t', mde_calibrate i accu t r = Some t' /\ mde_sum_ok t' = true.
Proof.
  intros Hi Hn Ha. apply imu_ok_spec in Hi as (_ & (_ & Hy & _) & _).
  unfold mde_calibrate. rewrite imu_calibrate_add_defined by lia. eexists. split; [reflexivity|].
  cbn. rewrite !andb_true_iff, !Z.leb_le. lia.
Qed.

Lemma mde_cycle_inv {D} `{SpiBus D} ts d t r d' t' r' :
  mde_cycle ts d t r = Some (d', t', r') ->
  exists enc spd w1 w2 w3,
    d' = mde_send d [65279; 65279; 65279; 65279; 65023; 64766; 64511; w1; w2; w3] /\
    t' = MdeThread MdTop (m_old ts) enc (md_pwr t) /\
    r' = on_mde (mde_set_encoder enc spd) r /\
    (exists d1 fc d2 fb, mde_exchange (mde_send d [65279; 65279; 65279; 65279; 65023]) 64766 = (d1, fc) /\
       mde_exchange d1 64511 = (d2, fb) /\ enc = mde_decode_enc (Z.land fc 255) (Z.land fb 255)) /\
    enc_speed enc (md_old_x t) (u32 (m_dt ts - md_old_t t)) = Some spd /\
    mde_cmd_set_mot_trq MOTOR_AZ (motor_az (r_mde r)) = Some w1 /\
    mde_cmd_set_mot_trq MOTOR_EL (motor_el (r_mde r)) = Some w2 /\
    mde_cmd_set_mot_trq MOTOR_SK (motor_sk (r_mde r)) = Some w3.
Proof.
  unfold mde_cycle. intros Hc.
  destruct (mde_exchange (mde_send d _) 64766) as [d1 fc] eqn:E1.
  destruct (mde_exchange d1 64511) as [d2 fb] eqn:E2.
  cbv zeta in Hc. set (enc := mde_decode_enc _ _) in *.
  destruct (enc_speed enc _ _) as [spd|] eqn:Es; [|discriminate]. cbn [mbind option_bind] in Hc.
  destruct (mde_cmd_set_mot_trq MOTOR_AZ _) as [w1|] eqn:W1; [|discriminate].
  cbn [mbind option_bind] in Hc.
  destruct (mde_cmd_set_mot_trq MOTOR_EL _) as [w2|] eqn:W2; [|discriminate].
  cbn [mbind option_bind] in Hc.
  destruct (mde_cmd_set_mot_trq MOTOR_SK _) as [w3|] eqn:W3; [|discriminate].
  cbn [mbind option_bind] in Hc. injection Hc as <- <- <-.
  exists enc, spd, w1, w2, w3. split.
  { cbn [mde_send] in *. rewrite E1. cbn [fst]. rewrite E2. reflexivity. }
  split; [reflexivity|]. split; [reflexivity|]. split; [exists d1, fc, d2, fb; auto|].
  split_and!; [exact Es | reflexivity ..].
Qed.

Lemma mde_serve_inv {D} `{SpiBus D} ts d t r d' t' r' :
  mde_serve ts d t r = Some (d', t', r') ->
  md_pc t' = MdTop /\ md_pwr t' = md_pwr t /\ is_powered_up (r_mde r') = is_powered_up (r_mde r) /\
  (d' = d \/ is_powered_up (r_mde r) = true /\ ctrl_is_running (m_run ts) (r_ctrl r) = true).
Proof.
  unfold mde_serve. intros Hs. destruct (_ && _) eqn:Ec.
  - apply andb_true_iff in Ec. apply mde_cycle_inv in Hs as (enc & spd & w1 & w2 & w3 & _ & -> & -> & _).
    split_and!; try reflexivity. right. exact Ec.
  - injection Hs as <- <- <-. split_and!; auto.
Qed.

Lemma mde_power_inv {D} `{SpiBus D} ts d t r d' t' r' :
  Bool.eqb (md_pwr t) (is_powered_up (r_mde r)) = true ->
  mde_power ts d t r = Some (d', t', r') ->
  mde_thread_ok t' (r_mde r') = true /\
  (d' = d \/ md_pwr t = true /\ md_pwr t' = true /\ ctrl_is_running (m_run ts) (r_ctrl r) = true).
Proof.
  intros Hok. apply Bool.eqb_prop in Hok. unfold mde_power. intros Hs.
  destruct (_ && _) eqn:Ec.
  - apply andb_true_iff in Ec as [_ Ep]. apply bind_Some_inv in Hs as [t1 [Et E]].
    apply mde_calibrate_inv in Et as ->. injection E as <- <- <-.
    split; [exact Ep | left; reflexivity].
  - apply mde_serve_inv in Hs as (Hpc & Hpw & Hup & Hd). split.
    + unfold mde_thread_ok. rewrite Hpc, Hpw, Hup, Hok. apply Bool.eqb_reflx.
    + destruct Hd as [->|[Hu Hr]]; [left; reflexivity | right]. rewrite Hpw, Hok. auto.
Qed.

(** The invariant, and when the bus is used. *)
Lemma mde_step_inv {D} `{SpiBus D} ts d t r d' t' r' :
  mde_thread_ok t (r_mde r) = true -> mde_step ts d t r = Some (d', t', r') ->
  mde_thread_ok t' (r_mde r') = true /\
  (d' = d \/ md_pwr t = true /\ md_pwr t' = true /\
     (md_pc t = MdTop -> ctrl_is_running (m_run ts) (r_ctrl r) = true)).
Proof.
  intros Hok Hs. unfold mde_step in Hs. unfold mde_thread_ok in Hok.
  destruct (md_pc t) as [| |i accu| | |] eqn:Epc.
  - destruct (_ && _) eqn:Ec.
    + apply andb_true_iff in Ec as [_ Ep]. injection Hs as <- <- <-.
      split; [exact Ep | left; reflexivity].
    + apply mde_power_inv in Hs as [H1 [H2|(H2 & H3 & H4)]]; auto 6.
  - apply andb_true_iff in Hok as [Hp _]. apply negb_true_iff in Hp.
    apply mde_power_inv in Hs as [H1 [H2|(H2 & H3 & H4)]]; [auto | congruence |].
    rewrite Hp. reflexivity.
  - destruct (i <? _); [|injection Hs as <- <- <-; split; auto].
    apply bind_Some_inv in Hs as [t1 [Et E]]. apply mde_calibrate_inv in Et as ->.
    injection E as <- <- <-. split; auto.
  - injection Hs as <- <- <-. split; [exact Hok|]. right.
    apply andb_true_iff in Hok as [Hp _]. split_and!; auto. discriminate.
  - injection Hs as <- <- <-. split; [exact Hok|]. right.
    apply andb_true_iff in Hok as [Hp _]. split_and!; auto. discriminate.
  - apply andb_true_iff in Hok as [Hp _].
    apply mde_serve_inv in Hs as (Hpc & Hpw & Hup & _). split.
    + unfold mde_thread_ok. rewrite Hpc, Hpw, Hup, Hp. reflexivity.
    + right. rewrite Hpw. split_and!; auto. discriminate.
Qed.

Lemma mde_sys_ok {D} `{SpiBus D} c c' :
  mde_sys_step c c' ->
  mde_thread_ok (snd (fst c)) (r_mde (snd c)) = true ->
  mde_thread_ok (snd (fst c')) (r_mde (snd c')) = true.
Proof.
  intros Hs Hok. destruct Hs as [ts d t r [[d' t'] r'] Hs|d t r r' E]; simpl in *.
  - apply (mde_step_inv ts d t r d' t' r' Hok Hs).
  - unfold mde_thread_ok in *. rewrite E. exact Hok.
Qed.

(** The drive is never addressed without supply, and never in regular
    operation behind a stalled control loop: in every state reachable from the
    start, a step that uses the bus begins and ends with the supply line on,
    and unless it is part of the initialisation sequence, the control thread
    was running when it began. *)
Theorem mde_bus_guarded {D} `{SpiBus D} (old_t old_x : Z) (d0 d : D) (r0 r : rig) (t : mde_thread) :
  is_powered_up (r_mde r0) = false ->
  rtc mde_sys_step (d0, mde_thread0 old_t old_x, r0) (d, t, r) ->
  forall ts d' t' r', mde_step ts d t r = Some (d', t', r') -> d' <> d ->
    md_pwr t = true /\ md_pwr t' = true /\
    (md_pc t = MdTop -> ctrl_is_running (m_run ts) (r_ctrl r) = true).
Proof.
  intros Hoff Hr ts d' t' r' Hs Hne.
  assert (Hok : mde_thread_ok t (r_mde r) = true).
  { remember (d0, mde_thread0 old_t old_x, r0) as c0 eqn:E0. remember (d, t, r) as c eqn:E.
    assert (H0 : mde_thread_ok (snd (fst c0)) (r_mde (snd c0)) = true)
      by (subst c0; unfold mde_thread_ok; cbn; rewrite Hoff; reflexivity).
    assert (H1 : mde_thread_ok (snd (fst c)) (r_mde (snd c)) = true).
    { clear E0 E Hs. induction Hr as [|c0 c1 c2 Hs1 _ IH]; [exact H0|].
      apply IH. exact (mde_sys_ok _ _ Hs1 H0). }
    subst c. exact H1. }
  destruct (mde_step_inv ts d t r d' t' r' Hok Hs) as [_ [E|Hg]]; [congruence | exact Hg].
Qed.

Lemma mde_bus_guarded_witness :
  let r1 := on_mde mde_power_up rig0 in
  power_up (r_mde r1) = true /\
  forall ts d' t' r',
    mde_step ts (SpiScript [] [] []) (mde_thread0 0 0) r1 = Some (d', t', r') ->
    d' <> SpiScript [] [] [] ->
    md_pwr (mde_thread0 0 0) = true /\ md_pwr t' = true /\
    (md_pc (mde_thread0 0 0) = MdTop -> ctrl_is_running (m_run ts) (r_ctrl r1) = true).
Proof.
  split; [reflexivity|].
  apply (mde_bus_guarded 0 0 (SpiScript [] [] []) (SpiScript [] [] []) rig0); [reflexivity|].
  eapply rtc_l; [apply (mde_sys_other _ _ _ (on_mde mde_power_up rig0)); reflexivity | apply rtc_refl].
Defined.

(** ** The cycle *)

(** A cycle reads the encoder and commands the three motors, once each: it
    exchanges exactly ten words, the position is the complement of the two
    status bytes, and the three torque words decode to the torques set at that
    moment. *)
Theorem mde_cycle_words {D} `{SpiBus D} (ts : mde_times) (d : D) (t : mde_thread) (r : rig)
    (d' : D) (t' : mde_thread) (r' : rig) :
  mde_ok (r_mde r) = true -> mde_cycle ts d t r = Some (d', t', r') ->
  exists w1 w2 w3 hi lo,
    d' = mde_send d [65279; 65279; 65279; 65279; 65023; 64766; 64511; w1; w2; w3] /\
    mde_word_ok MOTOR_AZ (motor_az (r_mde r)) w1 = true /\
    mde_word_ok MOTOR_EL (motor_el (r_mde r)) w2 = true /\
    mde_word_ok MOTOR_SK (motor_sk (r_mde r)) w3 = true /\
    0 <= hi < 256 /\ 0 <= lo < 256 /\ enc_az (r_mde r') = 65535 - (hi * 256 + lo) /\
    md_old_x t' = enc_az (r_mde r').
Proof.
  intros Hok Hc. apply mde_ok_spec in Hok as (Ha & He & Hk & _).
  apply mde_cycle_inv in Hc as (enc & spd & w1 & w2 & w3 & Hd & -> & -> & Hx & _ & W1 & W2 & W3).
  destruct Hx as (d1 & fc & d2 & fb & _ & _ & Henc).
  assert (Hb : forall x, 0 <= Z.land x 255 < 256).
  { intros x. change 255 with (Z.ones 8). rewrite Z.land_ones by lia. apply Z.mod_pos_bound. lia. }
  exists w1, w2, w3, (Z.land fc 255), (Z.land fb 255).
  assert (Hw : forall mo tq w, 0 <= mo < 8 -> -128 <= tq < 128 ->
             mde_cmd_set_mot_trq mo tq = Some w -> mde_word_ok mo tq w = true).
  { intros mo tq w Hmo Htq W. pose proof (mde_cmd_ok_range mo tq Hmo Htq) as Hok.
    unfold mde_cmd_ok in Hok. rewrite W in Hok. exact Hok. }
  split_and!; auto; try apply Hb; try (apply Hw; auto; easy).
  simpl. rewrite Henc. unfold mde_decode_enc.
  pose proof (Hb fc). pose proof (Hb fb). set (hi := Z.land fc 255) in *. set (lo := Z.land fb 255) in *.
  rewrite lor_bytes by lia. unfold Z.lnot. cint.
Qed.

Lemma mde_cycle_words_witness :
  let d := SpiScript [] [] [] in
  exists w1 w2 w3 hi lo,
    mde_send d [65279; 65279; 65279; 65279; 65023; 64766; 64511; 58886; 59914; 60416]
    = mde_send d [65279; 65279; 65279; 65279; 65023; 64766; 64511; w1; w2; w3] /\
    mde_word_ok MOTOR_AZ 3 w1 = true /\ mde_word_ok MOTOR_EL 5 w2 = true /\
    mde_word_ok MOTOR_SK 0 w3 = true /\
    0 <= hi < 256 /\ 0 <= lo < 256 /\ 65535 = 65535 - (hi * 256 + lo) /\ 65535 = 65535.
Proof.
  apply (mde_cycle_words (MdeTimes 0 100000 100000) (SpiScript [] [] []) (mde_thread0 0 65535)
           (az_set_const_trq 3 (el_set_const_trq 5 rig0)) _ (MdeThread MdTop 100000 65535 false)
           (on_mde (mde_set_encoder 65535 0) (az_set_const_trq 3 (el_set_const_trq 5 rig0))));
    [reflexivity | vm_compute; reflexivity].
Defined.

(** ** The speed *)

Lemma enc_dt_fge ticks :
  0 < ticks < 4294967296 ->
  fge (ticks * 2 ^ 37 / 100000) (-37) (d_div (d_of_Z ticks) (d_of_Z CH_CFG_ST_FREQUENCY)).
Proof.
  intros Ht. change CH_CFG_ST_FREQUENCY with 100000.
  assert (Hc : 0 < ticks * 2 ^ 37 / 100000 < 2 ^ 53)
    by (change (2 ^ 37) with 137438953472; change (2 ^ 53) with 9007199254740992; zlia).
  apply (d_div_fge ticks 0 100000 0 0 _ (-37) (-37) 42950 0); try lia.
  - rewrite <- (Z.abs_eq ticks) at 1 by lia. apply d_of_Z_fge. lia.
  - apply d_of_Z_fle; lia.
  - fconst.
  - apply (d_div_fle ticks 0 100000 0 42950 0 0); try lia.
    + apply d_of_Z_fle; lia.
    + fconst.
  - change (2 ^ (-37 + 0 - -37)) with 1. change (0 - -37) with 37. zlia.
Qed.

Lemma enc_speed_some enc old_x ticks :
  0 < ticks < 4294967296 ->
  Z.abs (i16 (i16 enc - i16 old_x)) * 100000 <= 32766 * ticks ->
  exists v, enc_speed enc old_x ticks = Some v /\ Z.abs v <= 32767.
Proof.
  intros Ht Hdx. unfold enc_speed. set (dx := i16 (i16 enc - i16 old_x)) in *.
  pose proof (i16_range (i16 enc - i16 old_x)) as Hr. fold dx in Hr.
  apply f_to_s_fle; [easy|].
  apply (d_div_fle (Z.abs dx) 0 (ticks * 2 ^ 37 / 100000) (-37) 32767 0 (-37)); try lia.
  - destruct (Z.eq_dec dx 0) as [->|]; [exact I|]. apply d_of_Z_fle; lia.
  - apply enc_dt_fge, Ht.
  - change (0 - -37) with 37. change (2 ^ (0 + -37 - -37)) with 1.
    change (2 ^ 37) with 137438953472 in *. zlia.
Qed.

(** The speed estimate is defined and fits its type whenever the position has
    changed by at most 32766 units per second since the last cycle, across the
    wrap of the encoder; at the three milliseconds of a cycle that is 98 units.
    With no tick between two cycles it is undefined: the code divides by a zero
    time. *)
Theorem enc_speed_defined (enc old_x ticks : Z) :
  0 < ticks < 4294967296 ->
  Z.abs (i16 (i16 enc - i16 old_x)) * 100000 <= 32766 * ticks ->
  (exists v, enc_speed enc old_x ticks = Some v /\ -32768 <= v < 32768) /\
  enc_speed enc old_x 0 = None.
Proof.
  intros Ht Hdx. split.
  - destruct (enc_speed_some enc old_x ticks Ht Hdx) as (v & Hv & Hb). exists v.
    split; [exact Hv | lia].
  - unfold enc_speed.
    assert (d_div (d_of_Z 0) (d_of_Z CH_CFG_ST_FREQUENCY) = S754_zero false) as ->
      by (vm_compute; reflexivity).
    destruct (d_of_Z _) as [s|s| |s m e]; reflexivity.
Qed.

Lemma enc_speed_defined_witness :
  (exists v, enc_speed 3 65530 300 = Some v /\ -32768 <= v < 32768) /\
  enc_speed 3 65530 0 = None.
Proof. apply (enc_speed_defined 3 65530 300); [lia | vm_compute; discriminate]. Defined.

(** ** The whole step *)

Lemma mde_set_encoder_ok enc spd m :
  mde_ok m = true -> 0 <= enc < 65536 -> -32768 <= spd < 32768 ->
  mde_ok (mde_set_encoder enc spd m) = true.
Proof. rewrite !mde_ok_spec. destruct m; simpl. tauto. Qed.

Lemma enc_speed_range enc old_x ticks v :
  enc_speed enc old_x ticks = Some v -> -32768 <= v < 32768.
Proof.
  unfold enc_speed, f_to_s. intros Hs. inv_bind. case_bool_in Hs; [|discriminate].
  injection Hs as <-. apply in_s_spec in E0. simpl in E0. lia.
Qed.

Lemma mde_cycle_total {D} `{SpiBus D} ts d t r :
  mde_ok (r_mde r) = true ->
  match mde_cycle ts d t r with
  | Some (_, t', r') =>
      md_pc t' = MdTop /\ exists enc spd, r' = on_mde (mde_set_encoder enc spd) r /\
        0 <= enc < 65536 /\ -32768 <= spd < 32768
  | None => exists enc, enc_speed enc (md_old_x t) (u32 (m_dt ts - md_old_t t)) = None
  end.
Proof.
  intros Hok. destruct (mde_cycle ts d t r) as [[[d' t'] r']|] eqn:Ec.
  - apply mde_cycle_inv in Ec as (enc & spd & w1 & w2 & w3 & _ & -> & -> & Hx & Hs & _).
    destruct Hx as (? & ? & ? & ? & _ & _ & Henc). split; [reflexivity|].
    exists enc, spd. split; [reflexivity|].
    split; [rewrite Henc; apply u16_range | eapply enc_speed_range, Hs].
  - apply mde_ok_spec in Hok as (Ha & He & Hk & _).
    unfold mde_cycle in Ec.
    destruct (mde_exchange (mde_send d _) 64766) as [d1 fc]. destruct (mde_exchange d1 64511) as [d2 fb].
    cbv zeta in Ec. set (enc := mde_decode_enc _ _) in *. exists enc.
    destruct (enc_speed enc _ _) as [spd|]; [|reflexivity]. cbn [mbind option_bind] in Ec.
    assert (Hw : forall mo tq, 0 <= mo < 8 -> -128 <= tq < 128 ->
               exists w, mde_cmd_set_mot_trq mo tq = Some w).
    { intros mo tq Hmo Htq. pose proof (mde_cmd_ok_range mo tq Hmo Htq) as Hc.
      unfold mde_cmd_ok in Hc. destruct (mde_cmd_set_mot_trq mo tq); [eauto | discriminate]. }
    destruct (Hw MOTOR_AZ (motor_az (r_mde r))) as [w1 W1]; [easy | exact Ha|].
    destruct (Hw MOTOR_EL (motor_el (r_mde r))) as [w2 W2]; [easy | exact He|].
    destruct (Hw MOTOR_SK (motor_sk (r_mde r))) as [w3 W3]; [easy | exact Hk|].
    simpl in Ec. rewrite W1, W2, W3 in Ec. discriminate.
Qed.

(** What a step may do to the rest of the firmware. *)
Definition mde_effect (r r' : rig) : Prop :=
  rig_ok r' /\ r_ctrl r' = r_ctrl r /\ r_bucket r' = r_bucket r /\
  motor_az (r_mde r') = motor_az (r_mde r) /\ motor_el (r_mde r') = motor_el (r_mde r) /\
  motor_sk (r_mde r') = motor_sk (r_mde r).

Lemma mde_power_total {D} `{SpiBus D} ts d t r :
  rig_ok r ->
  match mde_power ts d t r with
  | Some (_, t', r') => mde_effect r r' /\ mde_sum_ok t' = true
  | None => exists enc, enc_speed enc (md_old_x t) (u32 (m_dt ts - md_old_t t)) = None
  end.
Proof.
  intros Hr. pose proof Hr as (_ & Hm & Hi & _).
  assert (Hid : mde_effect r r) by (split; [exact Hr | repeat split]).
  unfold mde_power, mde_serve. case_bool.
  { destruct (mde_calibrate_total 0 0 (md_set_pwr true t) r Hi) as (t' & -> & Hs); [lia|lia|].
    split; assumption. }
  case_bool; [|split; [exact Hid | reflexivity]].
  pose proof (mde_cycle_total ts d t r Hm) as Hc.
  destruct (mde_cycle ts d t r) as [[[d' t'] r']|]; [|exact Hc].
  destruct Hc as (Hpc & enc & spd & -> & He & Hs). split; [|unfold mde_sum_ok; rewrite Hpc; reflexivity].
  split; [|repeat split]. apply on_mde_ok; [exact Hr|]. intros m Hmo. apply mde_set_encoder_ok; assumption.
Qed.

Lemma mde_step_total {D} `{SpiBus D} (ts : mde_times) (d : D) (t : mde_thread) (r : rig) :
  rig_ok r -> mde_sum_ok t = true ->
  match mde_step ts d t r with
  | Some (_, t', r') => mde_effect r r' /\ mde_sum_ok t' = true
  | None => exists enc, enc_speed enc (md_old_x t) (u32 (m_dt ts - md_old_t t)) = None
  end.
Proof.
  intros Hr Hsum. assert (Hid : mde_effect r r) by (split; [exact Hr | repeat split]).
  assert (Hflags : forall f, (forall m, mde_ok m = true -> mde_ok (f m) = true) ->
                   (forall m, motor_az (f m) = motor_az m /\ motor_el (f m) = motor_el m
                              /\ motor_sk (f m) = motor_sk m) ->
                   mde_effect r (on_mde f r)).
  { intros f Hf Hmot. destruct (Hmot (r_mde r)) as (? & ? & ?).
    split; [apply (on_mde_ok f r Hr Hf) | repeat split; assumption]. }
  unfold mde_step. destruct (md_pc t) as [| |i accu| | |] eqn:Epc.
  - case_bool; [split; [exact Hid | reflexivity] | apply mde_power_total, Hr].
  - pose proof (Hflags mde_set_powered_down) as He. destruct He as (Hr1 & He).
    { intros [] Hm. exact Hm. } { intros []. auto. }
    pose proof (mde_power_total ts d t (on_mde mde_set_powered_down r) Hr1) as Hp.
    destruct (mde_power _ _ _ _) as [[[d' t'] r']|]; [|exact Hp].
    destruct Hp as ((H1 & H2) & Hs). split; [|exact Hs]. split; [exact H1|].
    destruct He as (? & ? & ? & ? & ?), H2 as (? & ? & ? & ? & ?). split_and!; congruence.
  - destruct Hr as (Hc & Hm & Hi & Hb). unfold mde_sum_ok in Hsum. rewrite Epc in Hsum.
    rewrite !andb_true_iff, !Z.leb_le in Hsum. unfold imu_calibrate_samples.
    case_bool.
    { destruct (mde_calibrate_total i accu t r Hi) as (t' & -> & Hs); [lia|lia|].
      split; assumption. }
    split; [|reflexivity]. split; [|repeat split]. split; [exact Hc|]. split; [exact Hm|]. split; [|exact Hb]. simpl.
    apply imu_ok_spec in Hi. apply imu_ok_spec. unfold imu_calibrate_end, imu_set_rot_y0. simpl.
    pose proof (u16_range (cdiv accu 100)). tauto.
  - split; [exact Hid | reflexivity].
  - split; [exact Hid | reflexivity].
  - pose proof (Hflags mde_set_powered_up) as He. destruct He as (Hr1 & He).
    { intros [] Hm. exact Hm. } { intros []. auto. }
    unfold mde_serve. case_bool; [|split; [split; [exact Hr1 | exact He] | reflexivity]].
    pose proof (mde_cycle_total ts (mde_send d mde_init3_words) t (on_mde mde_set_powered_up r)
                  (proj1 (proj2 Hr1))) as Hc.
    destruct (mde_cycle _ _ _ _) as [[[d' t'] r']|]; [|exact Hc].
    destruct Hc as (Hpc & enc & spd & -> & Henc & Hs).
    split; [|unfold mde_sum_ok; rewrite Hpc; reflexivity]. split; [|exact He].
    apply on_mde_ok; [exact Hr1|]. intros m Hm. apply mde_set_encoder_ok; assumption.
Qed.

(** A step of the drive thread from a well-typed state, in which the sum of a
    calibration under way is made of its readings, is undefined in one
    way only, an encoder speed out of range; otherwise it keeps the state
    such, and never touches the motor torques, the control variables or
    the debug bucket. *)
Theorem mde_step_effect {D} `{SpiBus D} (ts : mde_times) (d : D) (t : mde_thread) (r : rig) :
  rig_ok r -> mde_sum_ok t = true ->
  match mde_step ts d t r with
  | Some (_, t', r') => mde_effect r r' /\ mde_sum_ok t' = true
  | None => exists enc, enc_speed enc (md_old_x t) (u32 (m_dt ts - md_old_t t)) = None
  end.
Proof. apply mde_step_total. Qed.

Lemma mde_step_effect_witness :
  match mde_step (MdeTimes 0 300 300) (SpiScript [] [] []) (mde_thread0 0 65535)
          (on_mde mde_set_powered_up rig0) with
  | Some (_, t', r') => mde_effect (on_mde mde_set_powered_up rig0) r' /\ mde_sum_ok t' = true
  | None => exists enc, enc_speed enc 65535 (u32 (300 - 0)) = None
  end.
Proof.
  apply (mde_step_effect (MdeTimes 0 300 300) (SpiScript [] [] []) (mde_thread0 0 65535)
           (on_mde mde_set_powered_up rig0)); [|reflexivity].
  repeat split. exists []. split; reflexivity.
Defined.

(** ** A stale power-down command *)

(** A power-down command given while the drive is off is not dropped: it stays
    pending, so that a power-up that follows it, the later command, switches the
    drive on and initialises it only to switch it off again on the next turn. *)
Theorem mde_power_down_stale :
  let start := (SpiScript [] [] [], mde_thread0 0 0,
                on_mde mde_power_up (on_mde mde_power_down rig0)) in
  let ts := MdeTimes 1000000 0 0 in
  (exists d t r, mde_run 104 ts start = Some (d, t, r) /\
     md_pwr t = true /\ is_powered_up (r_mde r) = true /\ power_dn (r_mde r) = true) /\
  (exists d t r, mde_run 106 ts start = Some (d, t, r) /\
     md_pwr t = false /\ is_powered_up (r_mde r) = false /\ power_up (r_mde r) = false).
Proof. split; do 3 eexists; (split; [vm_compute; reflexivity | repeat split]). Qed.
