(* ===== verification/Ocxo.v ===== *)
(** * Reference oscillator discipline (ocxo.c)

    The pulse of the GPS receiver captures a counter of the 20 MHz output; the
    thread trims the oscillator's control voltage when three captures agree.
    The capture runs in an interrupt; the thread's turn is one step here, so an
    interrupt between its comparison and its assignments is not modelled. *)

From S2P Require Import Prelude CInt CFloat CLib Chtime Debug Chprintf.
From Stdlib Require Import SpecFloat.

(** ** State *)

(** The static variables, and the two outputs the code drives. *)
Record ocxo_state := OcxoState {
  ocxo_cntr : Z * Z * Z;   (* int32_t[3] *)
  cntr_i : Z;              (* uint32_t *)
  out_ocxo_cntr : Z;       (* int32_t *)
  last_pulse : Z;          (* systime_t *)
  dac_val : Z;             (* uint16_t *)
  led_1pps : bool;         (* LINE_LED_1PPS *)
  dac_out : Z              (* last value put to the DAC *)
}.

Definition ocxo_state0 : ocxo_state := OcxoState (0, 1, 2) 0 0 0 2050 false 2050.

Definition ocxo_get_last_pulse (s : ocxo_state) : Z := last_pulse s.
Definition ocxo_get_cntr (s : ocxo_state) : Z := out_ocxo_cntr s.
Definition ocxo_get_dac_val (s : ocxo_state) : Z := dac_val s.

(** ** The pulse interrupt *)

(** [ocxo_cntr[i] = v]. *)
Definition slot_set (i v : Z) (c : Z * Z * Z) : Z * Z * Z :=
  let '(a, b, d) := c in
  if i =? 0 then (v, b, d) else if i =? 1 then (a, v, d) else (a, b, v).

(** [cnt] is the timer's count, [now] the tick counter. *)
Definition exti_cb (cnt now : Z) (s : ocxo_state) : ocxo_state :=
  OcxoState (slot_set (cntr_i s mod 3) (i32 cnt) (ocxo_cntr s)) (u32 (cntr_i s + 1))
    (out_ocxo_cntr s) now (dac_val s) true (dac_out s).

(** ** The thread *)

(** The new control value for a count. *)
Definition dac_adjust (cntr dac : Z) : Z :=
  if 20000001 <? cntr then u16 (dac - 10)
  else if cntr <? 19999999 then u16 (dac + 10)
  else dac.

Definition ocxo_log (now cntr : Z) (bucket : list Z) : option (list Z) :=
  '(buf, _) ← chvsnprintf (replicate 64 0) 64 (bytes "[%.3f] cntr=%d" ++ [10; 0])
     [VDouble (d_div (d_of_Z (TIME_I2MS now)) (d_of_Z 1000)); VInt cntr];
  debug_print bucket buf.

Definition ocxo_agree (s : ocxo_state) : bool :=
  let '(a, b, d) := ocxo_cntr s in (a =? b) && (b =? d).

(** [if(ocxo_cntr[0] == ocxo_cntr[1] && ...)]. *)
Definition ocxo_trim (now : Z) (s : ocxo_state) (bucket : list Z)
  : option (ocxo_state * list Z) :=
  if ocxo_agree s then
    let '(a, b, d) := ocxo_cntr s in
    bucket ← ocxo_log now a bucket;
    let dac := dac_adjust a (dac_val s) in
    Some (OcxoState (-1, b, d) (cntr_i s) a (last_pulse s) dac (led_1pps s) dac, bucket)
  else Some (s, bucket).

(** One turn of the loop; the clock is read for the log and for the LED. *)
Definition ocxo_step (now_log now : Z) (s : ocxo_state) (bucket : list Z)
  : option (ocxo_state * list Z) :=
  '(s, bucket) ← ocxo_trim now_log s bucket;
  let led := if 100 <? TIME_I2MS (u32 (now - last_pulse s)) then false else led_1pps s in
  Some (OcxoState (ocxo_cntr s) (cntr_i s) (out_ocxo_cntr s) (last_pulse s) (dac_val s) led
          (dac_out s), bucket).

(** ** Invariant *)

(** The published count and the control value are in the range of their types;
    the least count is never published, since printing it is undefined. *)
Definition ocxo_ok (s : ocxo_state) : Prop :=
  -2147483648 < out_ocxo_cntr s < 2147483648 /\ 0 <= dac_val s < 65536 /\
  let '(a, b, d) := ocxo_cntr s in
  in_s 32 a = true /\ in_s 32 b = true /\ in_s 32 d = true.

(** The count the thread is about to print, if any, is the least [int32_t]. *)
Definition ocxo_least (s : ocxo_state) : Prop :=
  ocxo_agree s = true /\ fst (fst (ocxo_cntr s)) = -2147483648.

(** ** Lemmas *)

Lemma exti_cb_ok cnt now s : ocxo_ok s -> ocxo_ok (exti_cb cnt now s).
Proof.
  unfold ocxo_ok, exti_cb, slot_set. destruct s as [[[a b] d] i o l v led out]; simpl.
  pose proof (wraps_range 32 cnt ltac:(lia)). case_bool; [tauto|]. case_bool; tauto.
Qed.

Lemma ocxo_log_defined now cntr bucket log :
  0 <= now < 4294967296 -> printable cntr -> bucket_rep bucket log ->
  exists bucket' log', ocxo_log now cntr bucket = Some bucket' /\ bucket_rep bucket' log'.
Proof.
  intros Hn Hc Hrep. destruct (TIME_I2MS_value now Hn) as [_ Hms].
  destruct (chvsnprintf_bound (replicate 64 0) 64 (bytes "[%.3f] cntr=%d" ++ [10; 0])
              [KDouble; KInt]
              [VDouble (d_div (d_of_Z (TIME_I2MS now)) (d_of_Z 1000)); VInt cntr] 41)
    as (buf & msg & ret & Hp & _ & Hmsg & _); try easy.
  { constructor; [|constructor; [exact Hc | constructor]].
    apply (fle_le 0 42950 0); [lia | lia | easy |].
    apply (d_div_fle 42949673 0 1000 0 42950 0 0); try lia; [apply d_of_Z_fle; lia | fconst]. }
  destruct (debug_print_refines_aux _ _ _ _ Hrep Hmsg) as (bucket' & Hb & Hrep').
  exists bucket'. eexists. unfold ocxo_log. rewrite Hp. cbn [mbind option_bind].
  split; [exact Hb | exact Hrep'].
Qed.

(** The least count cannot be logged. *)
Lemma ocxo_log_least now bucket : ocxo_log now (-2147483648) bucket = None.
Proof.
  unfold ocxo_log, chvsnprintf. rewrite chvprintf_text.
  generalize (d_div (d_of_Z (TIME_I2MS now)) (d_of_Z 1000)). intros x.
  change (bytes "[%.3f] cntr=%d" ++ [10; 0])
    with [91; 37; 46; 51; 102; 93; 32; 99; 110; 116; 114; 61; 37; 100; 10; 0].
  assert (Hd : forall fuel, format_text (S fuel) [37; 100; 10; 0] [VInt (-2147483648)] = None).
  { intros fuel. eapply format_text_dir_none; reflexivity. }
  cbn [length]. rewrite format_text_char by lia.
  destruct (convert_float (ChSpec false false 32 0 3 false 102) x) as [t|] eqn:E.
  - erewrite format_text_dir; [|reflexivity
      |change (convert _ _) with (t ← convert_float (ChSpec false false 32 0 3 false 102) x;
                                  Some (t, 32, [VInt (-2147483648)])); rewrite E; reflexivity].
    rewrite !format_text_char by lia. rewrite Hd. reflexivity.
  - erewrite format_text_dir_none; [reflexivity | reflexivity |].
    change (convert _ _) with (t ← convert_float (ChSpec false false 32 0 3 false 102) x;
                               Some (t, 32, [VInt (-2147483648)])). rewrite E. reflexivity.
Qed.

Lemma dac_adjust_ok cntr dac : 0 <= dac < 65536 -> 0 <= dac_adjust cntr dac < 65536.
Proof. intros Hd. unfold dac_adjust. repeat case_bool; auto; apply u16_range. Qed.

(** A turn is undefined in one way only: three pulses agreed on the least count. *)
Lemma ocxo_step_total now_log now s bucket log :
  0 <= now_log < 4294967296 -> bucket_rep bucket log -> ocxo_ok s ->
  match ocxo_step now_log now s bucket with
  | Some (s', bucket') => ocxo_ok s' /\ exists log', bucket_rep bucket' log'
  | None => ocxo_least s
  end.
Proof.
  intros Hn Hrep Hok. unfold ocxo_step, ocxo_trim, ocxo_least.
  destruct (ocxo_agree s) eqn:Ea; [|cbn [mbind option_bind]; eauto].
  unfold ocxo_ok in Hok. destruct (ocxo_cntr s) as [[a b] d] eqn:Ec.
  destruct Hok as (Ho & Hv & Ha & Hb & Hd). pose proof Ha as Ha'. apply in_s_spec in Ha'. simpl Z.pow in Ha'.
  destruct (Z.eq_dec a (-2147483648)) as [->|Hne].
  - rewrite ocxo_log_least. cbn [mbind option_bind]. auto.
  - destruct (ocxo_log_defined now_log a bucket log Hn) as (b' & log' & -> & Hrep');
      [apply printable_range; lia | exact Hrep |].
    cbn [mbind option_bind]. split; [|eauto]. unfold ocxo_ok. simpl.
    pose proof (dac_adjust_ok a (dac_val s) Hv). split_and!; auto; lia.
Qed.

(** The counts in the slots are those of the last three pulses. *)
Definition slots_hold (s : ocxo_state) (a b c : Z) : Prop :=
  ocxo_cntr s = (a, b, c) \/ ocxo_cntr s = (c, a, b) \/ ocxo_cntr s = (b, c, a).

Lemma three_pulses s n1 n2 n3 a b c :
  0 <= cntr_i s < 4294967292 ->
  -2147483648 <= a < 2147483648 -> -2147483648 <= b < 2147483648 -> -2147483648 <= c < 2147483648 ->
  slots_hold (exti_cb c n3 (exti_cb b n2 (exti_cb a n1 s))) a b c.
Proof.
  intros Hi Ha Hb Hc. destruct s as [[[x y] z] i o l d led out]. simpl in Hi.
  unfold slots_hold, exti_cb. cbn [ocxo_cntr cntr_i].
  rewrite !u32_id by (rewrite ?u32_id; lia). rewrite !i32_id by lia.
  assert (Hm : i mod 3 = 0 \/ i mod 3 = 1 \/ i mod 3 = 2) by zlia.
  unfold slot_set. destruct Hm as [E|[E|E]].
  - replace ((i + 1) mod 3) with 1 by zlia. replace ((i + 1 + 1) mod 3) with 2 by zlia.
    rewrite E. simpl. auto.
  - replace ((i + 1) mod 3) with 2 by zlia. replace ((i + 1 + 1) mod 3) with 0 by zlia.
    rewrite E. simpl. auto.
  - replace ((i + 1) mod 3) with 0 by zlia. replace ((i + 1 + 1) mod 3) with 1 by zlia.
    rewrite E. simpl. auto.
Qed.

Lemma slots_agree s a b c :
  slots_hold s a b c -> ocxo_agree s = ((a =? b) && (b =? c)).
Proof.
  intros [E|[E|E]]; unfold ocxo_agree; rewrite E; [reflexivity| |];
    apply eq_true_iff_eq; rewrite !andb_true_iff, !Z.eqb_eq; lia.
Qed.

Lemma dac_adjust_cases a dac :
  (1 < a - 20000000 -> dac_adjust a dac = (dac - 10) mod 65536) /\
  (a - 20000000 < -1 -> dac_adjust a dac = (dac + 10) mod 65536) /\
  (Z.abs (a - 20000000) <= 1 -> dac_adjust a dac = dac).
Proof.
  unfold dac_adjust. split_and!; intros; repeat case_bool; try lia; reflexivity.
Qed.

(** C39: the oscillator is trimmed exactly when three consecutive pulses agree: a
    turn of the thread after three pulses with counts [a], [b], [c], none of
    them the least [int32_t], which the log line cannot print, is always
    defined.  If all three are equal it publishes the count, moves the control
    value ten steps down when the count is more than one above the nominal
    20000000, ten steps up when it is more than one below (in sixteen bits, so
    that it wraps at the ends), keeps it otherwise, and puts it to the DAC; if
    they are not equal it changes neither the value, the DAC nor the count. *)
Theorem ocxo_trims_on_agreement (s : ocxo_state) (n1 n2 n3 a b c now_log now : Z)
    (bucket log : list Z) :
  0 <= cntr_i s < 4294967292 ->
  Forall (fun x => -2147483648 < x < 2147483648) [a; b; c] ->
  0 <= now_log < 4294967296 -> bucket_rep bucket log ->
  let s3 := exti_cb c n3 (exti_cb b n2 (exti_cb a n1 s)) in
  exists s' bucket' log', ocxo_step now_log now s3 bucket = Some (s', bucket') /\
    bucket_rep bucket' log' /\
    if (a =? b) && (b =? c)
    then (1 < a - 20000000 -> dac_val s' = (dac_val s - 10) mod 65536) /\
         (a - 20000000 < -1 -> dac_val s' = (dac_val s + 10) mod 65536) /\
         (Z.abs (a - 20000000) <= 1 -> dac_val s' = dac_val s) /\
         dac_out s' = dac_val s' /\ out_ocxo_cntr s' = a
    else dac_val s' = dac_val s /\ dac_out s' = dac_out s /\ out_ocxo_cntr s' = out_ocxo_cntr s.
Proof.
  intros Hi Habc Hn Hrep s3. forall_inv.
  pose proof (three_pulses s n1 n2 n3 a b c Hi ltac:(lia) ltac:(lia) ltac:(lia)) as Hh.
  fold s3 in Hh.
  assert (Hkeep : dac_val s3 = dac_val s /\ dac_out s3 = dac_out s /\ out_ocxo_cntr s3 = out_ocxo_cntr s)
    by (repeat split).
  clearbody s3. destruct Hkeep as (K1 & K2 & K3).
  unfold ocxo_step, ocxo_trim. rewrite (slots_agree _ _ _ _ Hh).
  destruct ((a =? b) && (b =? c)) eqn:E.
  - bools. subst b c.
    assert (Hc : ocxo_cntr s3 = (a, a, a)) by (destruct Hh as [->|[->| ->]]; reflexivity).
    rewrite Hc. destruct (ocxo_log_defined now_log a bucket log Hn) as (b' & l' & -> & Hr');
      [apply printable_range; lia | exact Hrep |].
    cbn [mbind option_bind]. do 3 eexists. split; [reflexivity|]. split; [exact Hr'|].
    simpl. rewrite K1. pose proof (dac_adjust_cases a (dac_val s)). tauto.
  - cbn [mbind option_bind]. do 3 eexists. split; [reflexivity|]. split; [exact Hrep|]. simpl. auto.
Qed.

Lemma ocxo_trims_on_agreement_witness :
  let s3 := exti_cb 20000005 30 (exti_cb 20000005 20 (exti_cb 20000005 10 ocxo_state0)) in
  exists s' bucket' log', ocxo_step 40 40 s3 bucket0 = Some (s', bucket') /\
    bucket_rep bucket' log' /\
    if (20000005 =? 20000005) && (20000005 =? 20000005)
    then (1 < 20000005 - 20000000 -> dac_val s' = (2050 - 10) mod 65536) /\
         (20000005 - 20000000 < -1 -> dac_val s' = (2050 + 10) mod 65536) /\
         (Z.abs (20000005 - 20000000) <= 1 -> dac_val s' = 2050) /\
         dac_out s' = dac_val s' /\ out_ocxo_cntr s' = 20000005
    else dac_val s' = 2050 /\ dac_out s' = 2050 /\ out_ocxo_cntr s' = 0.
Proof.
  apply (ocxo_trims_on_agreement ocxo_state0 10 20 30 20000005 20000005 20000005 40 40 bucket0 []);
    [simpl; lia | repeat constructor; lia | lia | split; reflexivity].
Defined.

Lemma ocxo_trim_disarms now s bucket s' bucket' :
  ocxo_trim now s bucket = Some (s', bucket') -> out_ocxo_cntr s' <> -1 ->
  ocxo_agree s = true -> ocxo_agree s' = false.
Proof.
  unfold ocxo_trim. intros H Hne Ha. rewrite Ha in H. unfold ocxo_agree in Ha.
  destruct (ocxo_cntr s) as [[a b] c]. bools. subst b c.
  destruct (ocxo_log now a bucket) as [b'|]; [|discriminate]. cbn [mbind option_bind] in H.
  injection H as <- <-. cbn [out_ocxo_cntr] in Hne. unfold ocxo_agree. cbn [ocxo_cntr].
  rewrite (proj2 (Z.eqb_neq (-1) a)) by lia. reflexivity.
Qed.

(** Each agreement is used once: after a turn that trimmed the oscillator,
    further turns without a pulse leave the control value, the DAC and the
    published count alone (unless the count was -1, which no real timer
    interval gives). *)
Theorem ocxo_trims_once (now1 now2 now3 now4 : Z) (s s1 s2 : ocxo_state)
    (bucket bucket1 bucket2 : list Z) :
  ocxo_agree s = true ->
  ocxo_step now1 now2 s bucket = Some (s1, bucket1) -> out_ocxo_cntr s1 <> -1 ->
  ocxo_step now3 now4 s1 bucket1 = Some (s2, bucket2) ->
  dac_val s2 = dac_val s1 /\ dac_out s2 = dac_out s1 /\ out_ocxo_cntr s2 = out_ocxo_cntr s1 /\
  bucket2 = bucket1.
Proof.
  intros Ha H1 Hne H2. unfold ocxo_step in H1.
  destruct (ocxo_trim now1 s bucket) as [[sa ba]|] eqn:Et; [|discriminate].
  cbn [mbind option_bind] in H1. injection H1 as <- <-. simpl in Hne.
  pose proof (ocxo_trim_disarms _ _ _ _ _ Et Hne Ha) as Hd.
  unfold ocxo_step, ocxo_trim in H2.
  replace (ocxo_agree _) with false in H2. cbn [mbind option_bind] in H2.
  injection H2 as <- <-. simpl. auto.
Qed.

Lemma ocxo_trims_once_witness :
  let s := OcxoState (7, 7, 7) 3 0 0 2050 true 2050 in
  exists s1 b1 s2 b2, ocxo_step 40 40 s bucket0 = Some (s1, b1) /\
    ocxo_step 50 50 s1 b1 = Some (s2, b2) /\
    dac_val s2 = dac_val s1 /\ dac_out s2 = dac_out s1 /\ out_ocxo_cntr s2 = out_ocxo_cntr s1 /\
    b2 = b1.
Proof.
  do 4 eexists. split; [vm_compute; reflexivity|]. split; [vm_compute; reflexivity|].
  eapply (ocxo_trims_once 40 40 50 50 (OcxoState (7, 7, 7) 3 0 0 2050 true 2050) _ _ bucket0);
    [reflexivity | vm_compute; reflexivity | discriminate | vm_compute; reflexivity].
Defined.

(** The control value is not limited to the DAC's twelve bits: from nine or
    less a count above the band wraps it around to the top of the sixteen-bit
    range, and from 4086 or more (below the wrap) a count below the band takes
    it past the DAC's largest input, 4095. *)
Theorem dac_adjust_unlimited (cntr dac : Z) :
  0 <= dac < 65526 ->
  (20000001 < cntr -> dac <= 9 -> 65526 <= dac_adjust cntr dac < 65536) /\
  (cntr < 19999999 -> 4086 <= dac -> 4095 < dac_adjust cntr dac) /\
  (19999999 <= cntr <= 20000001 -> dac_adjust cntr dac = dac).
Proof.
  intros Hd. unfold dac_adjust. split_and!; intros; case_bool; try lia; try case_bool; cint.
Qed.

Lemma dac_adjust_unlimited_witness :
  (20000001 < 20000002 -> 5 <= 9 -> 65526 <= dac_adjust 20000002 5 < 65536) /\
  (20000002 < 19999999 -> 4086 <= 5 -> 4095 < dac_adjust 20000002 5) /\
  (19999999 <= 20000002 <= 20000001 -> dac_adjust 20000002 5 = 5).
Proof. apply dac_adjust_unlimited. lia. Defined.
