(* ===== verification/Gps.v ===== *)
(** * GPS receiver (gps.c)

    The thread assembles the bytes of the serial port into lines; [gps_parse]
    picks the fields of two sentences at fixed offsets.  The line buffer is the
    stack array of the thread, so that a field that lies behind the end of a
    short line is read from what earlier lines left there. *)

From S2P Require Import Prelude CInt CFloat CLib Chtime Ocxo.
From Stdlib Require Import SpecFloat.

(** ** State *)

(** The static variables of gps.c; nothing assigns [m_sats]. *)
Record gps_state := GpsState {
  m_date : Z;            (* uint32_t *)
  m_time : Z;            (* uint32_t *)
  m_lat : spec_float;    (* float *)
  m_lon : spec_float;    (* float *)
  m_alt : Z;             (* int16_t *)
  m_sats : Z;            (* uint8_t *)
  m_sats_sol : Z         (* uint8_t *)
}.

Definition gps_state0 : gps_state := GpsState 0 0 (S754_zero false) (S754_zero false) 0 0 0.

(** ** Parsing *)

(** [(deg/100 + (min + frac / 10000.0) / 60.0) * (c == pos ? 1 : -1)], stored in
    a [float]; the first division is of integers. *)
Definition gps_angle (deg min frac c pos : Z) : spec_float :=
  s_of_d (d_mul
    (d_add (d_of_Z (cdiv deg 100))
       (d_div (d_add (d_of_Z min) (d_div (d_of_Z frac) (d_of_Z 10000))) (d_of_Z 60)))
    (d_of_Z (if c =? pos then 1 else -1))).

(** The fields of a GGA sentence. *)
Definition gps_parse_gga (str : list Z) (s : gps_state) : option gps_state :=
  time ← atoi (at_off str 7);
  lat_deg ← atoi (at_off str 14);
  lat_min ← atoi (at_off str 16);
  lat_frac ← atoi (at_off str 19);
  lat_c ← rd str 24;
  lon_deg ← atoi (at_off str 26);
  lon_min ← atoi (at_off str 29);
  lon_frac ← atoi (at_off str 32);
  lon_c ← rd str 37;
  sats ← atoi (at_off str 41);
  alt ← atoi (at_off str 48);
  Some (GpsState (m_date s) (u32 time) (gps_angle lat_deg lat_min lat_frac lat_c 78)
          (gps_angle lon_deg lon_min lon_frac lon_c 69) (i16 alt) (m_sats s) (u8 sats)).

Definition gps_parse (str : list Z) (s : gps_state) : option gps_state :=
  gga ← strncmp_eq str (bytes "$GPGGA" ++ [0]) 6;
  s ← (if gga : bool then gps_parse_gga str s else Some s);
  rmf ← strncmp_eq str (bytes "$PGRMF" ++ [0]) 6;
  if rmf : bool then
    date ← atoi (at_off str 18);
    Some (GpsState (u32 date) (m_time s) (m_lat s) (m_lon s) (m_alt s) (m_sats s) (m_sats_sol s))
  else Some s.

(** ** The line assembler *)

(** The locals of the thread: [char buf[128]] and [idx]. *)
Record gps_thread := GpsThread { gp_buf : list Z; gp_idx : Z }.

(** Storing a byte [c] that is not a line end. *)
Definition gps_store (c : Z) (t : gps_thread) : option gps_thread :=
  if gp_idx t <? 128 - 1
  then buf ← wr (gp_buf t) (gp_idx t) c; Some (GpsThread buf (gp_idx t + 1))
  else Some (GpsThread (gp_buf t) 0).

(** One turn of the loop with the byte [sdGet] returned. *)
Definition gps_char (c : Z) (t : gps_thread) (s : gps_state) : option (gps_thread * gps_state) :=
  if c =? 0 then Some (t, s)
  else if (c =? 10) || (c =? 13) then
    buf ← wr (gp_buf t) (gp_idx t) 0;
    s ← gps_parse buf s;
    Some (GpsThread buf 0, s)
  else t ← gps_store c t; Some (t, s).

Fixpoint gps_chars (cs : list Z) (t : gps_thread) (s : gps_state)
  : option (gps_thread * gps_state) :=
  match cs with
  | [] => Some (t, s)
  | c :: cs' => '(t, s) ← gps_char c t s; gps_chars cs' t s
  end.

(** [get_gps_data] at tick [now]. *)
Definition get_gps_data (now : Z) (s : gps_state) (o : ocxo_state)
  : Z * Z * spec_float * spec_float * Z * Z * Z * bool :=
  let td := TIME_I2MS (u32 (now - ocxo_get_last_pulse o)) in
  (m_date s, m_time s, m_lat s, m_lon s, m_alt s, m_sats s, m_sats_sol s, td <=? 200).

(** ** Angles are bounded *)

(** What [atoi] returns is an [int]. *)
Lemma atoi_range mem v : atoi mem = Some v -> -2147483648 <= v < 2147483648.
Proof.
  unfold atoi. destruct (skip_space mem); [discriminate|]. intros H. inv_bind.
  case_bool_in H; [|discriminate]. injection H as <-. apply in_s_spec in E0. exact E0.
Qed.

(** The angles are below 2^26, far from the limit of a [%f] conversion, and the
    narrow integers are in the range of their types. *)
Definition gps_ok (s : gps_state) : Prop :=
  (fle 16777215 2 (m_lat s) /\ fle 16777215 2 (m_lon s)) /\
  -32768 <= m_alt s < 32768 /\ 0 <= m_sats s < 256 /\ 0 <= m_sats_sol s < 256.

Lemma gps_angle_fle deg min frac c pos :
  -2147483648 <= deg < 2147483648 -> -2147483648 <= min < 2147483648 ->
  -2147483648 <= frac < 2147483648 -> fle 16777215 2 (gps_angle deg min frac c pos).
Proof.
  intros Hd Hm Hf. apply s_of_d_fle; [|lia|lia].
  apply (fle_le 0 (60845378 * 1) 0); [lia|lia|easy|].
  apply (d_mul_fle 60845378 0 1 0); try lia; [|case_bool; fconst].
  apply (d_add_fle 21474837 39370541 0); try lia; [apply d_of_Z_fle; zlia|].
  apply (d_div_fle 2147698397 0 60 0 39370541 0 0); try lia; [|fconst].
  apply (fle_le 0 (2147483648 + 214749) 0); [lia|lia|lia|].
  apply d_add_fle; try lia; [apply d_of_Z_fle; lia|].
  apply (d_div_fle 2147483648 0 10000 0 214749 0 0); try lia; [apply d_of_Z_fle; lia | fconst].
Qed.

Lemma gps_parse_ok str s s' : gps_ok s -> gps_parse str s = Some s' -> gps_ok s'.
Proof.
  intros Hok H. unfold gps_parse in H. apply bind_Some_inv in H as [gga [_ H]].
  apply bind_Some_inv in H as [s1 [E H]]. apply bind_Some_inv in H as [rmf [_ H]].
  assert (Hok1 : gps_ok s1).
  { destruct gga; [|injection E as <-; exact Hok]. unfold gps_parse_gga in E.
    repeat match type of E with (x ← ?e; _) = _ =>
      let v := fresh "v" in let E' := fresh "E" in apply bind_Some_inv in E as [v [E' E]] end.
    repeat match goal with H : atoi _ = Some _ |- _ => apply atoi_range in H end.
    injection E as <-. destruct Hok as (_ & _ & Hs & _). split; [split; apply gps_angle_fle; assumption|].
    split; [apply i16_range|]. split; [exact Hs | apply u8_range]. }
  destruct rmf; [|injection H as <-; exact Hok1]. apply bind_Some_inv in H as [d [_ H]].
  injection H as <-. exact Hok1.
Qed.

Lemma gps_char_ok c t s t' s' : gps_ok s -> gps_char c t s = Some (t', s') -> gps_ok s'.
Proof.
  intros Hok H. unfold gps_char in H. case_bool_in H; [injection H as <- <-; exact Hok|].
  case_bool_in H.
  - apply bind_Some_inv in H as [buf [_ H]]. apply bind_Some_inv in H as [s1 [E1 H]].
    injection H as <- <-. eapply gps_parse_ok; eassumption.
  - apply bind_Some_inv in H as [t1 [_ H]]. injection H as <- <-. exact Hok.
Qed.

(** ** The assembler is safe *)

Definition gps_thread_ok (t : gps_thread) : Prop :=
  length (gp_buf t) = 128%nat /\ 0 <= gp_idx t <= 127.

Lemma gps_store_ok c t :
  gps_thread_ok t -> exists t', gps_store c t = Some t' /\ gps_thread_ok t'.
Proof.
  intros [Hl Hi]. unfold gps_store. case_bool.
  - rewrite wr_defined by lia. eexists. split; [reflexivity|].
    split; [simpl; rewrite length_insert; exact Hl | simpl; lia].
  - eexists. split; [reflexivity|]. split; [exact Hl | simpl; lia].
Qed.

Lemma gps_char_safe (c : Z) (t : gps_thread) (s : gps_state) :
  gps_thread_ok t ->
  match gps_char c t s with
  | Some (t', _) => gps_thread_ok t'
  | None => (c = 10 \/ c = 13) /\ exists buf, wr (gp_buf t) (gp_idx t) 0 = Some buf /\ gps_parse buf s = None
  end.
Proof.
  intros Hok. pose proof Hok as [Hl Hi]. unfold gps_char.
  destruct (c =? 0); [exact Hok|].
  destruct ((c =? 10) || (c =? 13)) eqn:Ec.
  - rewrite wr_defined by lia. cbn [mbind option_bind].
    destruct (gps_parse _ s) as [s'|] eqn:Ep; cbn [mbind option_bind].
    + split; [simpl; rewrite length_insert; exact Hl | simpl; lia].
    + apply orb_true_iff in Ec. rewrite !Z.eqb_eq in Ec. split; [exact Ec|]. eauto.
  - destruct (gps_store_ok c t Hok) as (t' & -> & Hok'). exact Hok'.
Qed.

(** The assembler never leaves its buffer, whatever the receiver sends: from
    a state with the index in the buffer every byte is stored, ends a line or is
    dropped, the index stays within 0..127, and the only way a turn can be
    undefined is the parser's reading of a finished line. *)
Theorem gps_assembler_safe (c : Z) (t : gps_thread) (s : gps_state) :
  gps_thread_ok t ->
  match gps_char c t s with
  | Some (t', _) => gps_thread_ok t'
  | None => (c = 10 \/ c = 13) /\ exists buf, wr (gp_buf t) (gp_idx t) 0 = Some buf /\ gps_parse buf s = None
  end.
Proof. apply gps_char_safe. Qed.

Lemma gps_assembler_safe_witness :
  match gps_char 65 (GpsThread (replicate 128 0) 127) gps_state0 with
  | Some (t', _) => gps_thread_ok t'
  | None => (65 = 10 \/ 65 = 13) /\ exists buf,
      wr (replicate 128 0) 127 0 = Some buf /\ gps_parse buf gps_state0 = None
  end.
Proof.
  apply (gps_assembler_safe 65 (GpsThread (replicate 128 0) 127) gps_state0).
  split; [reflexivity | simpl; lia].
Defined.

(** ** Lines *)

(** A byte that goes into a line. *)
Definition line_byte (c : Z) : bool := negb (c =? 0) && negb (c =? 10) && negb (c =? 13).

Lemma gps_chars_line line : forall t s,
  gps_thread_ok t -> gp_idx t + Z.of_nat (length line) <= 127 ->
  Forall (fun c => line_byte c = true) line ->
  exists buf, gps_chars line t s = Some (GpsThread buf (gp_idx t + Z.of_nat (length line)), s) /\
    length buf = 128%nat /\
    take (Z.to_nat (gp_idx t) + length line) buf = take (Z.to_nat (gp_idx t)) (gp_buf t) ++ line /\
    drop (Z.to_nat (gp_idx t) + length line) buf
    = drop (Z.to_nat (gp_idx t) + length line) (gp_buf t).
Proof.
  induction line as [|c line IH]; intros t s [Hl Hi] Hlen Hc.
  - exists (gp_buf t). destruct t as [buf i]. simpl. rewrite Z.add_0_r, Nat.add_0_r, app_nil_r. auto.
  - inversion_clear Hc as [|? ? H1 H2]. simpl length in *. simpl gps_chars.
    unfold gps_char. unfold line_byte in H1. bools.
    rewrite !(proj2 (Z.eqb_neq c _)) by assumption. simpl orb. cbv iota.
    unfold gps_store. rewrite (proj2 (Z.ltb_lt (gp_idx t) _)) by lia.
    rewrite wr_defined by lia. cbn [mbind option_bind].
    set (t1 := GpsThread _ _).
    assert (Hok1 : gps_thread_ok t1)
      by (split; [unfold t1; simpl; rewrite length_insert; exact Hl | unfold t1; simpl; lia]).
    destruct (IH t1 s Hok1) as (buf & -> & Hlb & Ht & Hd); [unfold t1; simpl; lia | exact H2 |].
    exists buf. unfold t1 in *. simpl in Ht, Hd |- *.
    replace (Z.to_nat (gp_idx t + 1)) with (S (Z.to_nat (gp_idx t))) in * by lia.
    split; [do 3 f_equal; lia|]. split; [exact Hlb|].
    rewrite Nat.add_succ_r. simpl in Ht, Hd. rewrite Ht, Hd. split.
    + rewrite (take_S_r _ _ c) by (apply list_lookup_insert_eq; lia).
      rewrite take_insert_ge by lia. rewrite <- app_assoc. reflexivity.
    + rewrite drop_insert_lt by lia. reflexivity.
Qed.

(** A line of up to 127 bytes reaches the parser whole: fed byte by byte from
    the start of the buffer and ended by a carriage return or line feed, it is
    parsed as a terminated string, followed by the older content of the buffer,
    and the assembler is ready for the next line. *)
Theorem gps_line_parsed (line : list Z) (eol : Z) (buf : list Z) (s : gps_state) :
  length buf = 128%nat -> (length line <= 127)%nat ->
  Forall (fun c => line_byte c = true) line -> eol = 10 \/ eol = 13 ->
  let str := line ++ 0 :: drop (S (length line)) buf in
  gps_chars (line ++ [eol]) (GpsThread buf 0) s
  = (s' ← gps_parse str s; Some (GpsThread str 0, s')).
Proof.
  intros Hl Hlen Hline He str.
  assert (Happ : forall xs ys t s, gps_chars (xs ++ ys) t s
                 = ('(t, s) ← gps_chars xs t s; gps_chars ys t s)).
  { induction xs as [|x xs IH]; intros ys t0 s0; [reflexivity|]. simpl.
    destruct (gps_char x t0 s0) as [[t1 s1]|]; simpl; auto. }
  destruct (gps_chars_line line (GpsThread buf 0) s) as (b1 & E1 & Hl1 & Ht & Hd);
    [split; [exact Hl | simpl; lia] | simpl; lia | exact Hline |].
  simpl in Ht, Hd. rewrite Happ, E1. cbn [mbind option_bind]. simpl gp_idx.
  simpl gps_chars. unfold gps_char.
  rewrite (proj2 (Z.eqb_neq eol 0)) by lia.
  assert ((eol =? 10) || (eol =? 13) = true) as ->
    by (apply orb_true_iff; rewrite !Z.eqb_eq; exact He).
  simpl gp_buf. simpl gp_idx. rewrite wr_defined by lia. cbn [mbind option_bind].
  rewrite Z.add_0_l, Nat2Z.id.
  assert (Hstr : <[length line := 0]> b1 = str).
  { rewrite <- (take_drop (length line) b1), Ht, Hd.
    destruct (lookup_lt_is_Some_2 buf (length line)) as [x Hx]; [lia|].
    rewrite (drop_S buf x _ Hx). unfold str.
    replace (length line) with (length line + 0)%nat at 1 by lia.
    rewrite insert_app_r. reflexivity. }
  rewrite Hstr. destruct (gps_parse str s) as [s'|]; reflexivity.
Qed.

Lemma gps_line_parsed_witness :
  let line := bytes "$PGRMF,142,518553,180502,000215" in
  let str := line ++ 0 :: drop (S (length line)) (replicate 128 0) in
  gps_chars (line ++ [13]) (GpsThread (replicate 128 0) 0) gps_state0
  = (s' ← gps_parse str gps_state0; Some (GpsThread str 0, s')).
Proof.
  apply (gps_line_parsed (bytes "$PGRMF,142,518553,180502,000215") 13 (replicate 128 0) gps_state0);
    [reflexivity | vm_compute; lia | | right; reflexivity].
  apply Forall_forall. intros c Hc. apply list_elem_of_In in Hc.
  vm_compute in Hc. repeat (destruct Hc as [<-|Hc]; [reflexivity|]). destruct Hc.
Defined.

(** ** The fields *)

Definition comma : list Z := [44].

(** A GGA sentence with the fields the parser reads. *)
Definition gga_sentence (time la1 la2 lb lc lo0 lo1 lo2 lp le q sats dop alt rest : list Z) : list Z :=
  bytes "$GPGGA," ++ time ++ comma ++ la1 ++ la2 ++ [46] ++ lb ++ comma ++ lc ++ comma
  ++ lo0 ++ lo1 ++ lo2 ++ [46] ++ lp ++ comma ++ le ++ comma ++ q ++ comma ++ sats ++ comma
  ++ dop ++ comma ++ alt ++ [46] ++ rest.

Lemma at_off_app a b n : length a = n -> at_off (a ++ b) (Z.of_nat n) = b.
Proof. intros <-. unfold at_off. rewrite Nat2Z.id. apply drop_app_length. Qed.

(** Writes out a list whose length is a numeral. *)
Ltac explode_length Hl :=
  repeat match type of Hl with
  | length ?l = S _ => destruct l; simpl in Hl; [discriminate Hl | apply Nat.succ_inj in Hl]
  | length ?l = O => apply nil_length_inv in Hl; subst l
  end.

Ltac explode H := let Hl := fresh "Hl" in let Hd := fresh "Hd" in
  destruct H as [Hl Hd]; clear Hd; explode_length Hl.

(** The fixed offsets of [gps_parse] are those of a GGA sentence with a
    two-digit latitude and three-digit longitude degree: from such a sentence,
    whatever its digits, it takes the time, the satellites and the altitude as
    the numbers written there, and composes each angle from its degrees (the
    integer part of ddmm/100), whole minutes and four-digit fraction. *)
Theorem gps_gga_fields (s : gps_state) (time la1 la2 lb lo0 lo1 lo2 lp sats dop alt rest : list Z)
    (n e q : Z) :
  digits 6 time -> digits 2 la1 -> digits 2 la2 -> digits 4 lb ->
  digits 1 lo0 -> digits 2 lo1 -> digits 2 lo2 -> digits 4 lp -> digits 2 sats ->
  length dop = 3%nat -> digits (length alt) alt -> (1 <= length alt <= 4)%nat ->
  gps_parse (gga_sentence time la1 la2 lb [n] lo0 lo1 lo2 lp [e] [q] sats dop alt rest) s
  = Some (GpsState (m_date s) (digits_value 0 time)
            (gps_angle (digits_value 0 (la1 ++ la2)) (digits_value 0 la2) (digits_value 0 lb) n 78)
            (gps_angle (digits_value 0 (lo0 ++ lo1 ++ lo2)) (digits_value 0 lo2) (digits_value 0 lp) e 69)
            (digits_value 0 alt) (m_sats s) (digits_value 0 sats)).
Proof.
  intros Ht Hla1 Hla2 Hlb Hlo0 Hlo1 Hlo2 Hlp Hs Hdop Halt Hal.
  assert (Hcat : forall n1 n2 l1 l2, digits n1 l1 -> digits n2 l2 -> digits (n1 + n2) (l1 ++ l2)).
  { intros n1 n2 l1 l2 [H1 H2] [H3 H4]. split; [rewrite length_app; lia | apply Forall_app; auto]. }
  pose proof (Hcat _ _ _ _ Hla1 Hla2) as Hla. pose proof (Hcat _ _ _ _ Hlo1 Hlo2) as Hlo12.
  pose proof (Hcat _ _ _ _ Hlo0 Hlo12) as Hlo.
  assert (Hvb : forall n ds, digits n ds -> 0 <= digits_value 0 ds < 10 ^ Z.of_nat n).
  { intros n0 ds [Hl Hd]. pose proof (digits_value_bound ds 0 Hd ltac:(lia)). rewrite Hl in H. lia. }
  pose proof (Hvb _ _ Ht) as Bt. pose proof (Hvb _ _ Hs) as Bs. pose proof (Hvb _ _ Halt) as Ba.
  assert (10 ^ Z.of_nat (length alt) <= 10 ^ 4) by (apply Z.pow_le_mono_r; lia).
  change (10 ^ Z.of_nat 6) with 1000000 in Bt. change (10 ^ Z.of_nat 2) with 100 in Bs.
  change (10 ^ 4) with 10000 in *.
  set (str := gga_sentence _ _ _ _ _ _ _ _ _ _ _ _ _ _ _).
  assert (F : forall k m ds c tl, digits m ds -> (1 <= m <= 9)%nat -> is_digit c = false ->
            at_off str k = ds ++ c :: tl -> atoi (at_off str k) = Some (digits_value 0 ds)).
  { intros k m ds c tl H1 H2 H3 ->. apply (atoi_field m); assumption. }
  assert (E : gps_parse_gga str s = Some (GpsState (m_date s) (digits_value 0 time)
            (gps_angle (digits_value 0 (la1 ++ la2)) (digits_value 0 la2) (digits_value 0 lb) n 78)
            (gps_angle (digits_value 0 (lo0 ++ lo1 ++ lo2)) (digits_value 0 lo2) (digits_value 0 lp) e 69)
            (digits_value 0 alt) (m_sats s) (digits_value 0 sats))).
  { unfold gps_parse_gga.
    assert (Hr : rd str 24 = Some n /\ rd str 37 = Some e /\
      at_off str 7 = time ++ 44 :: at_off str 14 /\
      at_off str 14 = (la1 ++ la2) ++ 46 :: at_off str 19 /\
      at_off str 16 = la2 ++ 46 :: at_off str 19 /\
      at_off str 19 = lb ++ 44 :: at_off str 24 /\
      at_off str 26 = (lo0 ++ lo1 ++ lo2) ++ 46 :: at_off str 32 /\
      at_off str 29 = lo2 ++ 46 :: at_off str 32 /\
      at_off str 32 = lp ++ 44 :: at_off str 37 /\
      at_off str 41 = sats ++ 44 :: at_off str 44 /\
      at_off str 48 = alt ++ 46 :: rest).
    { unfold str. explode Ht. explode Hla1. explode Hla2. explode Hlb. explode Hlo0. explode Hlo1.
      explode Hlo2. explode Hlp. explode Hs.
      explode_length Hdop.
      repeat split. }
    destruct Hr as (R1 & R2 & A1 & A2 & A3 & A4 & A5 & A6 & A7 & A8 & A9).
    rewrite (F 7 6%nat _ 44 _ Ht ltac:(lia) eq_refl A1), (F 14 4%nat _ 46 _ Hla ltac:(lia) eq_refl A2),
      (F 16 2%nat _ 46 _ Hla2 ltac:(lia) eq_refl A3), (F 19 4%nat _ 44 _ Hlb ltac:(lia) eq_refl A4),
      (F 26 5%nat _ 46 _ Hlo ltac:(lia) eq_refl A5), (F 29 2%nat _ 46 _ Hlo2 ltac:(lia) eq_refl A6),
      (F 32 4%nat _ 44 _ Hlp ltac:(lia) eq_refl A7), (F 41 2%nat _ 44 _ Hs ltac:(lia) eq_refl A8),
      (F 48 (length alt) _ 46 _ Halt ltac:(lia) eq_refl A9).
    rewrite R1, R2. cbn [mbind option_bind].
    rewrite u32_id, i16_id, u8_id by lia. reflexivity. }
  unfold gps_parse.
  assert (strncmp_eq str (bytes "$GPGGA" ++ [0]) 6 = Some true) as -> by reflexivity.
  cbn [mbind option_bind]. rewrite E. cbn [mbind option_bind].
  assert (strncmp_eq str (bytes "$PGRMF" ++ [0]) 6 = Some false) as -> by reflexivity.
  reflexivity.
Qed.

(** The sentence of the code's comment. *)
Lemma gps_gga_fields_witness :
  gps_parse (bytes "$GPGGA,181010,5224.7214,N,01323.6669,E,2,08,1.1,13.8,M,42.0,M,,*71" ++ [0]) gps_state0
  = Some (GpsState 0 181010 (gps_angle 5224 24 7214 78 78) (gps_angle 1323 23 6669 69 69) 13 0 8).
Proof.
  apply (gps_gga_fields gps_state0 (bytes "181010") (bytes "52") (bytes "24") (bytes "7214")
           (bytes "0") (bytes "13") (bytes "23") (bytes "6669") (bytes "08") (bytes "1.1") (bytes "13")
           (bytes "8,M,42.0,M,,*71" ++ [0]) 78 69 50);
    try (split; [reflexivity | repeat constructor]); try reflexivity; vm_compute; lia.
Defined.
