(* ===== verification/I2c.v ===== *)
(** * The I2C driver (hal_i2c.c)

    The state machine of ChibiOS's I2C driver.  Its assertions are enabled in
    this firmware and a failing one halts the system, so [None] is a failed
    assertion here.  The peripheral below it is hardware: any type with the
    operations of the class [I2cLld]. *)

From S2P Require Import Prelude CInt.

Inductive i2cstate_t :=
| I2C_UNINIT
| I2C_STOP
| I2C_READY
| I2C_ACTIVE_TX
| I2C_ACTIVE_RX
| I2C_LOCKED.

#[export] Instance i2cstate_eq_dec : EqDecision i2cstate_t.
Proof. solve_decision. Defined.

Definition I2C_MSG_OK : Z := 0.
Definition I2C_MSG_TIMEOUT : Z := -1.

(** The low-level driver.  A transfer returns a message and the receive buffer;
    what a failed transfer leaves there is any bytes, as many as asked for. *)
Class I2cLld (B : Type) := {
  i2c_lld_start : B -> B;
  i2c_lld_stop : B -> B;
  i2c_lld_master_transmit_timeout : B -> Z -> list Z -> nat -> B * Z * list Z;
  i2c_lld_rx : forall b addr tx n,
    let rx := snd (i2c_lld_master_transmit_timeout b addr tx n) in
    length rx = n /\ Forall (fun r => 0 <= r < 256) rx
}.

(** What the low-level driver has besides: the firmware's device is only written to, with
    an answer read in the same transfer. *)
Class I2cLldRx (B : Type) := {
  i2c_rx_lld :: I2cLld B;
  i2c_lld_master_receive_timeout : B -> Z -> nat -> B * Z * list Z;
  i2c_lld_get_errors : B -> Z;
  i2c_lld_received : forall b addr n,
    let rx := snd (i2c_lld_master_receive_timeout b addr n) in
    length rx = n /\ Forall (fun r => 0 <= r < 256) rx
}.

(** The driver object; the peripheral is part of it, and of the configuration
    only its presence matters.  The error mask, which only the low-level driver
    sets after it was cleared, is kept with the peripheral. *)
Record I2CDriver (B : Type) := mkI2C {
  i2c_state : i2cstate_t;
  i2c_config : bool;
  i2c_periph : B
}.
Arguments mkI2C {B}.
Arguments i2c_state {B}.
Arguments i2c_config {B}.
Arguments i2c_periph {B}.

Section Driver.
Context {B : Type} `{I2cLld B}.

Definition i2cObjectInit (b : B) : I2CDriver B := mkI2C I2C_STOP false b.

(** The states in which the driver may be started or stopped. *)
Definition i2c_idle (s : i2cstate_t) : bool :=
  bool_decide (s = I2C_STOP) || bool_decide (s = I2C_READY) || bool_decide (s = I2C_LOCKED).

Definition i2cStart (d : I2CDriver B) : option (I2CDriver B) :=
  _ ← check (i2c_idle (i2c_state d));
  Some (mkI2C I2C_READY true (i2c_lld_start (i2c_periph d))).

Definition i2cStop (d : I2CDriver B) : option (I2CDriver B) :=
  _ ← check (i2c_idle (i2c_state d));
  Some (mkI2C I2C_STOP false (i2c_lld_stop (i2c_periph d))).

Definition i2cMasterTransmitTimeout (d : I2CDriver B) (addr : Z) (tx : list Z) (rxbytes : nat)
    (timeout : Z) : option (I2CDriver B * Z * list Z) :=
  _ ← check ((0 <? Z.of_nat (length tx)) && negb (timeout =? 0));
  _ ← check (bool_decide (i2c_state d = I2C_READY));
  let '(b, msg, rx) := i2c_lld_master_transmit_timeout (i2c_periph d) addr tx rxbytes in
  Some (mkI2C (if msg =? I2C_MSG_TIMEOUT then I2C_LOCKED else I2C_READY) (i2c_config d) b, msg, rx).

(** ** A start, a transfer and a stop *)

(** Whatever the transfer's outcome, the sequence asserts nothing false and
    leaves the driver stopped. *)
Lemma i2c_session d addr tx n timeout :
  i2c_idle (i2c_state d) = true -> tx <> [] -> timeout <> 0 ->
  let '(b, msg, rx) :=
    i2c_lld_master_transmit_timeout (i2c_lld_start (i2c_periph d)) addr tx n in
  exists d1 d2, i2cStart d = Some d1 /\
    i2cMasterTransmitTimeout d1 addr tx n timeout = Some (d2, msg, rx) /\
    i2cStop d2 = Some (mkI2C I2C_STOP false (i2c_lld_stop b)) /\
    length rx = n /\ Forall (fun r => 0 <= r < 256) rx.
Proof.
  intros Hi Htx Ht. pose proof (i2c_lld_rx (i2c_lld_start (i2c_periph d)) addr tx n) as Hrx.
  unfold i2cStart. rewrite Hi. cbn [check mbind option_bind].
  destruct (i2c_lld_master_transmit_timeout _ addr tx n) as [[b msg] rx] eqn:E.
  eexists. eexists. split; [reflexivity|]. unfold i2cMasterTransmitTimeout. simpl.
  rewrite (check_true (_ && _)).
  - cbn [mbind option_bind]. rewrite E. split; [reflexivity|]. split; [|exact Hrx].
    unfold i2cStop. simpl. destruct (msg =? _); reflexivity.
  - apply andb_true_intro. split; [|apply negb_true_iff, Z.eqb_neq; exact Ht].
    destruct tx; [congruence|]. apply Z.ltb_lt. simpl. lia.
Qed.

End Driver.

(** ** Receiving *)

Section Receive.
Context {B : Type} `{I2cLldRx B}.

Definition i2cGetErrors (d : I2CDriver B) : Z := i2c_lld_get_errors (i2c_periph d).

Definition i2cMasterReceiveTimeout (d : I2CDriver B) (addr : Z) (rxbytes : nat) (timeout : Z)
  : option (I2CDriver B * Z * list Z) :=
  _ ← check (negb (addr =? 0) && (0 <? Z.of_nat rxbytes) && negb (timeout =? 0));
  _ ← check (bool_decide (i2c_state d = I2C_READY));
  let '(b, msg, rx) := i2c_lld_master_receive_timeout (i2c_periph d) addr rxbytes in
  Some (mkI2C (if msg =? I2C_MSG_TIMEOUT then I2C_LOCKED else I2C_READY) (i2c_config d) b, msg, rx).

(** What a client may do with a driver. *)
Inductive i2c_op :=
| I2cStart
| I2cStop
| I2cTransmit (addr : Z) (tx : list Z) (rxbytes : nat) (timeout : Z)
| I2cReceive (addr : Z) (rxbytes : nat) (timeout : Z).

Definition i2c_exec (op : i2c_op) (d : I2CDriver B) : option (I2CDriver B * option Z) :=
  match op with
  | I2cStart => d ← i2cStart d; Some (d, None)
  | I2cStop => d ← i2cStop d; Some (d, None)
  | I2cTransmit addr tx n timeout => '(d, msg, _) ← i2cMasterTransmitTimeout d addr tx n timeout; Some (d, Some msg)
  | I2cReceive addr n timeout => '(d, msg, _) ← i2cMasterReceiveTimeout d addr n timeout; Some (d, Some msg)
  end.

Fixpoint i2c_run (ops : list i2c_op) (d : I2CDriver B) : option (I2CDriver B * list (option Z)) :=
  match ops with
  | [] => Some (d, [])
  | op :: ops => '(d, r) ← i2c_exec op d; '(d, rs) ← i2c_run ops d; Some (d, r :: rs)
  end.

Definition i2c_args_ok (op : i2c_op) : bool :=
  match op with
  | I2cStart | I2cStop => true
  | I2cTransmit _ tx _ timeout => (0 <? Z.of_nat (length tx)) && negb (timeout =? 0)
  | I2cReceive addr n timeout => negb (addr =? 0) && (0 <? Z.of_nat n) && negb (timeout =? 0)
  end.

Definition i2c_transfers (op : i2c_op) : bool := match op with I2cTransmit _ _ _ _ | I2cReceive _ _ _ => true | _ => false end.

(** The driver may transfer after a start that no stop and no transfer with a timeout has
    followed. *)
Definition i2c_ready_after (ready : bool) (op : i2c_op) (r : option Z) : bool :=
  match op, r with
  | I2cStart, _ => true
  | I2cStop, _ => false
  | _, Some msg => negb (msg =? I2C_MSG_TIMEOUT)
  | _, None => ready
  end.

Fixpoint i2c_ready (ready : bool) (ops : list i2c_op) (rs : list (option Z)) : bool :=
  match ops, rs with
  | op :: ops, r :: rs => i2c_ready (i2c_ready_after ready op r) ops rs
  | _, _ => ready
  end.

Definition i2c_at_rest (ready : bool) (d : I2CDriver B) : Prop :=
  i2c_state d = I2C_READY /\ ready = true \/ (i2c_state d = I2C_STOP \/ i2c_state d = I2C_LOCKED) /\ ready = false.

Lemma i2c_exec_spec op d ready : i2c_at_rest ready d -> i2c_args_ok op = true ->
  (i2c_exec op d = None <-> i2c_transfers op = true /\ ready = false) /\
  forall d' r, i2c_exec op d = Some (d', r) -> i2c_at_rest (i2c_ready_after ready op r) d'.
Proof.
  intros Hd Ha. assert (Hidle : i2c_idle (i2c_state d) = true)
    by (unfold i2c_idle; destruct Hd as [[-> _]|[[-> | ->] _]]; reflexivity).
  assert (Hr : bool_decide (i2c_state d = I2C_READY) = ready)
    by (destruct Hd as [[-> ->]|[[-> | ->] ->]]; reflexivity).
  destruct op as [| |addr tx n timeout|addr n timeout]; cbn [i2c_exec i2c_transfers i2c_args_ok] in *.
  - unfold i2cStart. rewrite Hidle. cbn. split; [split; [discriminate|intros [? _]; discriminate]|]. intros d' r [= <- <-]. left. auto.
  - unfold i2cStop. rewrite Hidle. cbn. split; [split; [discriminate|intros [? _]; discriminate]|]. intros d' r [= <- <-]. right. auto.
  - unfold i2cMasterTransmitTimeout. rewrite Ha, Hr. destruct (i2c_lld_master_transmit_timeout _ addr tx n) as [[b msg] rx].
    destruct ready; cbn; [|split; [tauto|discriminate]]. split; [split; [discriminate|intros [_ ?]; discriminate]|].
    intros d' r [= <- <-]. unfold i2c_at_rest. cbn. destruct (msg =? I2C_MSG_TIMEOUT); cbn; auto.
  - unfold i2cMasterReceiveTimeout. rewrite Ha, Hr. destruct (i2c_lld_master_receive_timeout _ addr n) as [[b msg] rx].
    destruct ready; cbn; [|split; [tauto|discriminate]]. split; [split; [discriminate|intros [_ ?]; discriminate]|].
    intros d' r [= <- <-]. unfold i2c_at_rest. cbn. destruct (msg =? I2C_MSG_TIMEOUT); cbn; auto.
Qed.

Lemma i2c_run_spec ops : forall d ready d' rs, i2c_at_rest ready d -> Forall (fun op => i2c_args_ok op = true) ops ->
  i2c_run ops d = Some (d', rs) -> i2c_at_rest (i2c_ready ready ops rs) d'.
Proof.
  induction ops as [|op ops IH]; intros d ready d' rs Hd Ha E; cbn in E; [injection E as <- <-; exact Hd|].
  apply Forall_cons in Ha as [Ha1 Ha2]. destruct (i2c_exec_spec op d ready Hd Ha1) as [_ Hs].
  destruct (i2c_exec op d) as [[d1 r]|]; [|discriminate]. cbn in E. specialize (Hs d1 r eq_refl).
  destruct (i2c_run ops d1) as [[d2 rs']|] eqn:E2; [|discriminate]. injection E as <- <-. cbn. eapply IH; eauto.
Qed.

(** After any sequence of starts, stops and transfers, whatever the bus has answered, the
    next call fails an assertion just when it is a transfer and the driver has not been
    started since the last stop or transfer that timed out. *)
Theorem i2c_transfers_when_ready (b : B) (ops : list i2c_op) (d : I2CDriver B) (rs : list (option Z)) (op : i2c_op) :
  Forall (fun op => i2c_args_ok op = true) (ops ++ [op]) -> i2c_run ops (i2cObjectInit b) = Some (d, rs) ->
  (i2c_exec op d = None <-> i2c_transfers op = true /\ i2c_ready false ops rs = false).
Proof.
  intros Ha E. apply Forall_app in Ha as [Ha1 Ha2]. apply Forall_cons in Ha2 as [Ha2 _].
  apply (i2c_exec_spec op d); [|exact Ha2]. eapply i2c_run_spec; [|exact Ha1|exact E]. right. auto.
Qed.

End Receive.

(** A bus on which the second transfer times out. *)
#[local, program] Instance i2c_demo_lld : I2cLld nat := {
  i2c_lld_start := id;
  i2c_lld_stop := id;
  i2c_lld_master_transmit_timeout b _ _ n := (S b, if Nat.eqb b 1 then -1 else 0, replicate n 0)
}.
Next Obligation. intros b addr tx n. cbn. split; [apply length_replicate|apply Forall_replicate; lia]. Defined.

#[local, program] Instance i2c_demo : I2cLldRx nat := {
  i2c_lld_master_receive_timeout b _ n := (S b, if Nat.eqb b 1 then -1 else 0, replicate n 0);
  i2c_lld_get_errors _ := 0
}.
Next Obligation. intros b addr n. cbn. split; [apply length_replicate|apply Forall_replicate; lia]. Defined.

Lemma i2c_transfers_when_ready_witness :
  i2c_exec (I2cTransmit 64 [0] 0 10)
    (default (i2cObjectInit 0%nat) (fst <$> i2c_run [I2cStart; I2cTransmit 64 [0] 2 10; I2cReceive 64 2 10] (i2cObjectInit 0%nat))) = None.
Proof.
  assert (E : i2c_run [I2cStart; I2cTransmit 64 [0] 2 10; I2cReceive 64 2 10] (i2cObjectInit 0%nat)
              = Some (mkI2C I2C_LOCKED true 2%nat, [None; Some 0; Some (-1)])) by reflexivity.
  rewrite E. apply (i2c_transfers_when_ready 0%nat [I2cStart; I2cTransmit 64 [0] 2 10; I2cReceive 64 2 10] _ [None; Some 0; Some (-1)]);
    [repeat constructor|exact E|split; reflexivity].
Defined.
