(* ===== verification/Ina3221.v ===== *)
(** * Power monitors (ina3221.c)

    Two INA3221 chips on one I2C bus.  The thread resets and configures them,
    then copies the shunt and bus voltages of their six channels twice a second;
    [ina3221_get_current_reading] turns them into millivolts or milliwatts. *)

From S2P Require Import Prelude CInt CFloat Chtime I2c.
From Stdlib Require Import SpecFloat.

(** ** Data *)

Inductive mon_port_t :=
| MON_NO_PORT | MON_PORT_1 | MON_PORT_2 | MON_PORT_3 | MON_PORT_4 | MON_PORT_5 | MON_PORT_6.

Inductive mon_compute_t := MON_NMVOLT | MON_NMWATT.

(** [dev_status_t], used as bits. *)
Definition MON_DEV_FAULT : Z := 2.
Definition MON_DEV_UNEQUIPPED : Z := 4.

Definition INA_MSG_OK : Z := 0.
Definition INA_MSG_ERROR : Z := -3.

Definition INA3221_CONFIGURATION : Z := 0.
Definition INA3221_CHAN1_REGS : Z := 1.
Definition INA3221_CHAN2_REGS : Z := 3.
Definition INA3221_CHAN3_REGS : Z := 5.
Definition INA3221_MANUFACTURER_ID : Z := 254.
Definition INA3221_DIE_ID : Z := 255.

(** The addresses of the two [pwr_unit_cfg_t]. *)
Definition pcfg_40 : Z := 64.
Definition pcfg_41 : Z := 65.

Record ina3221_mon := Mon { bus_volt : Z; shunt_volt : Z }.

Record ina3221_mons := Mons {
  mon_ch1 : ina3221_mon;
  mon_ch2 : ina3221_mon;
  mon_ch3 : ina3221_mon;
  mon_ch4 : ina3221_mon;
  mon_ch5 : ina3221_mon;
  mon_ch6 : ina3221_mon
}.

Definition mons0 : ina3221_mons :=
  let m := Mon 0 0 in Mons m m m m m m.

(** ** The reading *)

(** [(mon_reading_t)(calc * (float)mon.bus_volt / 1000000.0)] with
    [calc = (float)mon.shunt_volt * 5.0 / 0.01] rounded to a [float]. *)
Definition ina3221_milliwatt (m : ina3221_mon) : option Z :=
  let calc := s_of_d (d_div (d_mul (d_of_s (s_of_Z (shunt_volt m))) (d_of_Z 5)) (d_lit 1 100)) in
  f_to_s 32 (d_div (d_of_s (s_mul calc (s_of_Z (bus_volt m)))) (d_of_Z 1000000)).

Definition mon_of_port (ms : ina3221_mons) (p : mon_port_t) : option ina3221_mon :=
  match p with
  | MON_PORT_1 => Some (mon_ch1 ms)
  | MON_PORT_2 => Some (mon_ch2 ms)
  | MON_PORT_3 => Some (mon_ch3 ms)
  | MON_PORT_4 => Some (mon_ch4 ms)
  | MON_PORT_5 => Some (mon_ch5 ms)
  | MON_PORT_6 => Some (mon_ch6 ms)
  | MON_NO_PORT => None
  end.

(** The returned message and what is left in [*mrp]. *)
Definition ina3221_get_current_reading (ms : ina3221_mons) (ports : mon_port_t)
    (compute : mon_compute_t) : option (Z * Z) :=
  match mon_of_port ms ports with
  | None => Some (INA_MSG_ERROR, i32 4294967295)
  | Some m =>
      match compute with
      | MON_NMWATT => mw ← ina3221_milliwatt m; Some (INA_MSG_OK, mw)
      | MON_NMVOLT => Some (INA_MSG_OK, bus_volt m)
      end
  end.

(** ** The bus operations *)

(** The program counter of the thread: each constructor is a point after a sleep. *)
Inductive ina_pc :=
| InaReset (pcfg : Z)
| InaConfig (pcfg : Z)
| InaConfigCheck (pcfg : Z)
| InaLoop.

Section Ina.
Context {B : Type} `{I2cLld B}.

Record ina_state := Ina {
  ina_drv : I2CDriver B;
  ina_error : Z;              (* static dev_status_t error *)
  ina_mons : ina3221_mons
}.

(** The driver after the read, the value and whether the transfer succeeded. *)
Definition sysReadI2C16 (d : I2CDriver B) (addr reg : Z) : option (I2CDriver B * Z * bool) :=
  d ← i2cStart d;
  '(d, msg, rx) ← i2cMasterTransmitTimeout d addr [reg] 2 (TIME_MS2I 100);
  d ← i2cStop d;
  Some (d, u16 (Z.lor (Z.shiftl (nth 0 rx 0) 8) (nth 1 rx 0)), msg =? INA_MSG_OK).

Definition sysWriteI2CN (d : I2CDriver B) (addr : Z) (txbuf : list Z)
  : option (I2CDriver B * bool) :=
  d ← i2cStart d;
  '(d, msg, _) ← i2cMasterTransmitTimeout d addr txbuf 0 (TIME_MS2I 100);
  d ← i2cStop d;
  Some (d, msg =? INA_MSG_OK).

(** The channel's shunt and bus registers, and whether both were read. *)
Definition ina3221_get_chan (d : I2CDriver B) (pcfg addr : Z)
  : option (I2CDriver B * (Z * Z) * bool) :=
  '(d, v, ok1) ← sysReadI2C16 d pcfg addr;
  let shunt := if ok1 : bool then i16 v else 0 in
  '(d, v, ok2) ← sysReadI2C16 d pcfg (u8 (addr + 1));
  let bus := if ok2 : bool then i16 v else 0 in
  Some (d, (shunt, bus), ok1 && ok2).

Definition ina3221_update_chan (d : I2CDriver B) (pcfg : Z) (mon : ina3221_mon) (addr : Z)
  : option (I2CDriver B * ina3221_mon) :=
  '(d, (shunt, bus), ok) ← ina3221_get_chan d pcfg addr;
  Some (d, if ok : bool then Mon bus shunt else mon).

Definition ina3221_hardware_reset (pcfg : Z) (s : ina_state) : option ina_state :=
  '(d, ok) ← sysWriteI2CN (ina_drv s) pcfg [INA3221_CONFIGURATION; 128; 0];
  Some (Ina d (if ok : bool then ina_error s else Z.lor (ina_error s) 2) (ina_mons s)).

(** [ina3221_send_config] up to its sleep, and after it. *)
Definition ina3221_config_write (pcfg : Z) (s : ina_state) : option ina_state :=
  '(d, ok) ← sysWriteI2CN (ina_drv s) pcfg [INA3221_CONFIGURATION; 117; 39];
  Some (Ina d (if ok : bool then ina_error s else Z.lor (ina_error s) 2) (ina_mons s)).

Definition ina3221_config_check (pcfg : Z) (s : ina_state) : option ina_state :=
  '(d, conf_read, ok) ← sysReadI2C16 (ina_drv s) pcfg INA3221_CONFIGURATION;
  Some (Ina d (if negb ok || negb (conf_read =? 29991) then Z.lor (ina_error s) 2 else ina_error s)
          (ina_mons s)).

Definition ina3221_isAvailable (pcfg : Z) (s : ina_state) : option (ina_state * bool) :=
  '(d, man, ok) ← sysReadI2C16 (ina_drv s) pcfg INA3221_MANUFACTURER_ID;
  if negb ok then Some (Ina d (Z.lor (ina_error s) MON_DEV_UNEQUIPPED) (ina_mons s), false)
  else
    '(d, die, ok) ← sysReadI2C16 d pcfg INA3221_DIE_ID;
    if negb ok then Some (Ina d (Z.lor (ina_error s) MON_DEV_UNEQUIPPED) (ina_mons s), false)
    else if negb (man =? 21577) || negb (die =? 12832)
    then Some (Ina d (Z.lor (ina_error s) MON_DEV_FAULT) (ina_mons s), false)
    else Some (Ina d (ina_error s) (ina_mons s), true).

(** One turn of the update loop. *)
Definition ina3221_update (s : ina_state) : option ina_state :=
  let ms := ina_mons s in
  '(d, m1) ← ina3221_update_chan (ina_drv s) pcfg_40 (mon_ch1 ms) INA3221_CHAN1_REGS;
  '(d, m2) ← ina3221_update_chan d pcfg_40 (mon_ch2 ms) INA3221_CHAN2_REGS;
  '(d, m3) ← ina3221_update_chan d pcfg_40 (mon_ch3 ms) INA3221_CHAN3_REGS;
  '(d, m4) ← ina3221_update_chan d pcfg_41 (mon_ch4 ms) INA3221_CHAN1_REGS;
  '(d, m5) ← ina3221_update_chan d pcfg_41 (mon_ch5 ms) INA3221_CHAN2_REGS;
  '(d, m6) ← ina3221_update_chan d pcfg_41 (mon_ch6 ms) INA3221_CHAN3_REGS;
  Some (Ina d (ina_error s) (Mons m1 m2 m3 m4 m5 m6)).

(** The thread from one sleep to the next: the state, where it goes on and the
    ticks it sleeps. *)
Definition ina_step (pc : ina_pc) (s : ina_state) : option (ina_state * ina_pc * Z) :=
  match pc with
  | InaReset p => s ← ina3221_hardware_reset p s; Some (s, InaConfig p, TIME_MS2I 100)
  | InaConfig p => s ← ina3221_config_write p s; Some (s, InaConfigCheck p, TIME_MS2I 50)
  | InaConfigCheck p =>
      s ← ina3221_config_check p s;
      Some (s, if p =? pcfg_40 then InaReset pcfg_41 else InaLoop, TIME_MS2I 100)
  | InaLoop => s ← ina3221_update s; Some (s, InaLoop, TIME_MS2I 500)
  end.

Fixpoint ina_run (n : nat) (pc : ina_pc) (s : ina_state) : option (ina_state * ina_pc) :=
  match n with
  | O => Some (s, pc)
  | S n' => '(s, pc, _) ← ina_step pc s; ina_run n' pc s
  end.

Definition ina_state0 (b : B) : ina_state := Ina (i2cObjectInit b) MON_DEV_UNEQUIPPED mons0.

End Ina.
Arguments ina_state : clear implicits.

(** ** No step fails *)

Definition mon_ok (m : ina3221_mon) : Prop :=
  -32768 <= bus_volt m < 32768 /\ -32768 <= shunt_volt m < 32768.

Definition mons_ok (ms : ina3221_mons) : Prop :=
  mon_ok (mon_ch1 ms) /\ mon_ok (mon_ch2 ms) /\ mon_ok (mon_ch3 ms) /\
  mon_ok (mon_ch4 ms) /\ mon_ok (mon_ch5 ms) /\ mon_ok (mon_ch6 ms).

Definition ina_ok {B} (s : ina_state B) : Prop :=
  i2c_state (ina_drv s) = I2C_STOP /\ mons_ok (ina_mons s).

(** [e'] has all the bits of [e]. *)
Definition flags_kept (e e' : Z) : Prop := Z.lor e e' = e'.

Section Safety.
Context {B : Type} `{I2cLld B}.

Implicit Types (d : I2CDriver B) (s : ina_state B).

Lemma sysRead_defined d addr reg :
  i2c_state d = I2C_STOP ->
  exists d' v ok, sysReadI2C16 d addr reg = Some (d', v, ok) /\ i2c_state d' = I2C_STOP.
Proof.
  intros Hd. pose proof (i2c_session d addr [reg] 2 (TIME_MS2I 100)) as Hs.
  destruct (i2c_lld_master_transmit_timeout _ addr [reg] 2) as [[b msg] rx].
  destruct Hs as (d1 & d2 & E1 & E2 & E3 & _); [rewrite Hd; reflexivity | congruence | easy |].
  unfold sysReadI2C16. rewrite E1. cbn [mbind option_bind]. rewrite E2.
  cbn [mbind option_bind]. rewrite E3. cbn [mbind option_bind]. eauto 6.
Qed.

Lemma sysWrite_defined d addr tx :
  i2c_state d = I2C_STOP -> tx <> [] ->
  exists d' ok, sysWriteI2CN d addr tx = Some (d', ok) /\ i2c_state d' = I2C_STOP.
Proof.
  intros Hd Htx. pose proof (i2c_session d addr tx 0 (TIME_MS2I 100)) as Hs.
  destruct (i2c_lld_master_transmit_timeout _ addr tx 0) as [[b msg] rx].
  destruct Hs as (d1 & d2 & E1 & E2 & E3 & _); [rewrite Hd; reflexivity | exact Htx | easy |].
  unfold sysWriteI2CN. rewrite E1. cbn [mbind option_bind]. rewrite E2.
  cbn [mbind option_bind]. rewrite E3. cbn [mbind option_bind]. eauto.
Qed.

Lemma update_chan_defined d pcfg mon addr :
  i2c_state d = I2C_STOP -> mon_ok mon ->
  exists d' mon', ina3221_update_chan d pcfg mon addr = Some (d', mon') /\
    i2c_state d' = I2C_STOP /\ mon_ok mon'.
Proof.
  intros Hd Hm. unfold ina3221_update_chan, ina3221_get_chan.
  destruct (sysRead_defined d pcfg addr Hd) as (d1 & v1 & ok1 & -> & Hd1).
  cbn [mbind option_bind].
  destruct (sysRead_defined d1 pcfg (u8 (addr + 1)) Hd1) as (d2 & v2 & ok2 & -> & Hd2).
  cbn [mbind option_bind]. eexists. eexists. split; [reflexivity|]. split; [exact Hd2|].
  destruct ok1, ok2; try exact Hm. split; apply i16_range.
Qed.

Lemma ina_update_defined s :
  ina_ok s -> exists s', ina3221_update s = Some s' /\ ina_ok s' /\ ina_error s' = ina_error s.
Proof.
  intros (Hd & H1 & H2 & H3 & H4 & H5 & H6). unfold ina3221_update.
  destruct (update_chan_defined _ pcfg_40 _ INA3221_CHAN1_REGS Hd H1) as (d1 & m1 & -> & Hd1 & Hm1).
  cbn [mbind option_bind].
  destruct (update_chan_defined _ pcfg_40 _ INA3221_CHAN2_REGS Hd1 H2) as (d2 & m2 & -> & Hd2 & Hm2).
  cbn [mbind option_bind].
  destruct (update_chan_defined _ pcfg_40 _ INA3221_CHAN3_REGS Hd2 H3) as (d3 & m3 & -> & Hd3 & Hm3).
  cbn [mbind option_bind].
  destruct (update_chan_defined _ pcfg_41 _ INA3221_CHAN1_REGS Hd3 H4) as (d4 & m4 & -> & Hd4 & Hm4).
  cbn [mbind option_bind].
  destruct (update_chan_defined _ pcfg_41 _ INA3221_CHAN2_REGS Hd4 H5) as (d5 & m5 & -> & Hd5 & Hm5).
  cbn [mbind option_bind].
  destruct (update_chan_defined _ pcfg_41 _ INA3221_CHAN3_REGS Hd5 H6) as (d6 & m6 & -> & Hd6 & Hm6).
  cbn [mbind option_bind]. eexists. split; [reflexivity|]. split; [|reflexivity].
  split; [exact Hd6|]. split_and!; assumption.
Qed.

Lemma flags_kept_refl e : flags_kept e e.
Proof. apply Z.lor_diag. Qed.

Lemma flags_kept_lor e b : flags_kept e (Z.lor e b).
Proof. unfold flags_kept. rewrite Z.lor_assoc, Z.lor_diag. reflexivity. Qed.

End Safety.

Lemma ina_step_total {B} `{I2cLld B} (pc : ina_pc) (s : ina_state B) :
  ina_ok s ->
  exists s' pc' t, ina_step pc s = Some (s', pc', t) /\ ina_ok s' /\
    flags_kept (ina_error s) (ina_error s') /\ 0 < t.
Proof.
  intros Hok. pose proof Hok as [Hd Hm]. destruct pc as [p|p|p|]; cbn [ina_step].
  - unfold ina3221_hardware_reset.
    destruct (sysWrite_defined (ina_drv s) p [INA3221_CONFIGURATION; 128; 0] Hd ltac:(congruence))
      as (d & ok & -> & Hd'). cbn [mbind option_bind].
    eexists _, _, _. split; [reflexivity|]. split; [split; assumption|].
    split; [|reflexivity]. simpl. destruct ok; auto using flags_kept_refl, flags_kept_lor.
  - unfold ina3221_config_write.
    destruct (sysWrite_defined (ina_drv s) p [INA3221_CONFIGURATION; 117; 39] Hd ltac:(congruence))
      as (d & ok & -> & Hd'). cbn [mbind option_bind].
    eexists _, _, _. split; [reflexivity|]. split; [split; assumption|].
    split; [|reflexivity]. simpl. destruct ok; auto using flags_kept_refl, flags_kept_lor.
  - unfold ina3221_config_check.
    destruct (sysRead_defined (ina_drv s) p INA3221_CONFIGURATION Hd) as (d & v & ok & -> & Hd').
    cbn [mbind option_bind].
    eexists _, _, _. split; [reflexivity|]. split; [split; assumption|].
    split; [|reflexivity]. simpl. case_bool; auto using flags_kept_refl, flags_kept_lor.
  - destruct (ina_update_defined s Hok) as (s' & -> & Hok' & He). cbn [mbind option_bind].
    eexists _, _, _. split; [reflexivity|]. split; [exact Hok'|]. split; [|reflexivity].
    rewrite He. apply flags_kept_refl.
Qed.

(** Whatever the bus and the chips do (errors, timeouts, any bytes), a step
    of the monitoring thread trips no assertion of the I2C driver, leaves the
    driver stopped and every channel with 16-bit values, and never clears an
    error flag. *)
Theorem ina_step_safe {B} `{I2cLld B} (pc : ina_pc) (s : ina_state B) :
  ina_ok s ->
  exists s' pc' t, ina_step pc s = Some (s', pc', t) /\ ina_ok s' /\
    flags_kept (ina_error s) (ina_error s') /\ 0 < t.
Proof. apply ina_step_total. Qed.

(** ** Readings *)

Lemma milliwatt_defined m :
  mon_ok m -> exists z, ina3221_milliwatt m = Some z /\ Z.abs z <= 536871.
Proof.
  intros [Hb Hs]. unfold ina3221_milliwatt.
  apply f_to_s_fle; [lia|].
  apply (d_div_fle 125 32 1000000 0 536871 0 0); try lia; [|fconst].
  apply d_of_s_fle; [|lia|lia].
  apply (s_mul_fle 125 17 1 15); try lia.
  - apply s_of_d_fle; [|lia|lia].
    apply (d_div_fle 163840 0 5764607523034235 (-59) 125 17 (-59)); try lia; [|fconst].
    apply (fle_le 0 (32768 * 5) 0); [lia|lia|easy|].
    apply (d_mul_fle 32768 0 5 0); try lia; [|apply d_of_Z_fle; lia].
    apply d_of_s_fle; [apply s_of_Z_fle; lia|lia|lia].
  - apply (fle_le 0 32768 0); [lia|lia|easy|]. apply s_of_Z_fle; lia.
Qed.

Lemma reading_value (ms : ina3221_mons) (p : mon_port_t) (c : mon_compute_t) :
  mons_ok ms ->
  match mon_of_port ms p with
  | None => p = MON_NO_PORT /\ ina3221_get_current_reading ms p c = Some (-3, -1)
  | Some m =>
      exists v, ina3221_get_current_reading ms p c = Some (0, v) /\
        match c with MON_NMVOLT => v = bus_volt m | MON_NMWATT => Z.abs v <= 536871 end
  end.
Proof.
  intros (H1 & H2 & H3 & H4 & H5 & H6). unfold ina3221_get_current_reading.
  assert (Hm : forall m, mon_of_port ms p = Some m -> mon_ok m)
    by (destruct p; simpl; intros m [= <-]; assumption).
  destruct (mon_of_port ms p) as [m|] eqn:Ep.
  - destruct c; [eauto|]. destruct (milliwatt_defined m (Hm m eq_refl)) as (z & -> & Hz).
    cbn [mbind option_bind]. eauto.
  - destruct p; try discriminate. split; reflexivity.
Qed.

(** A reading is always defined: without a port it is the error message and
    -1; with one, the voltage is the bus voltage of that port's channel and the
    power computed in floating point fits the result (at most 537 W either
    way), so that the conversion to an integer never overflows. *)
Theorem ina_reading_defined (ms : ina3221_mons) (p : mon_port_t) (c : mon_compute_t) :
  mons_ok ms ->
  match mon_of_port ms p with
  | None => p = MON_NO_PORT /\ ina3221_get_current_reading ms p c = Some (-3, -1)
  | Some m =>
      exists v, ina3221_get_current_reading ms p c = Some (0, v) /\
        match c with MON_NMVOLT => v = bus_volt m | MON_NMWATT => Z.abs v <= 536871 end
  end.
Proof. apply reading_value. Qed.

(** ** Working chips

    What the data sheet says of two INA3221 on the bus: a read returns the
    addressed register, most significant byte first, and changes nothing; a
    write to the configuration register without the reset bit stores the word;
    neither a write nor a reset touches the other chip. *)
Class Ina3221Chips (B : Type) `{I2cLld B} := {
  chip_reg : B -> Z -> Z -> Z;
  chip_reg_range : forall b a r, 0 <= chip_reg b a r < 65536;
  chip_start : forall b a r, chip_reg (i2c_lld_start b) a r = chip_reg b a r;
  chip_stop : forall b a r, chip_reg (i2c_lld_stop b) a r = chip_reg b a r;
  chip_read : forall b a r, a = pcfg_40 \/ a = pcfg_41 ->
    exists b', i2c_lld_master_transmit_timeout b a [r] 2
               = (b', I2C_MSG_OK, [chip_reg b a r / 256; chip_reg b a r mod 256]) /\
    forall a' r', chip_reg b' a' r' = chip_reg b a' r';
  chip_write : forall b a hi lo, a = pcfg_40 \/ a = pcfg_41 ->
    0 <= hi < 256 -> 0 <= lo < 256 ->
    exists b' rx, i2c_lld_master_transmit_timeout b a [INA3221_CONFIGURATION; hi; lo] 0
                  = (b', I2C_MSG_OK, rx) /\
    (hi < 128 -> chip_reg b' a INA3221_CONFIGURATION = hi * 256 + lo) /\
    forall a' r', a' <> a -> chip_reg b' a' r' = chip_reg b a' r'
}.

Section Chips.
Context {B : Type} `{Ina3221Chips B}.

Definition drv_reg (d : I2CDriver B) (a r : Z) : Z := chip_reg (i2c_periph d) a r.

Lemma word_of_bytes w : 0 <= w < 65536 -> u16 (Z.lor (Z.shiftl (w / 256) 8) (w mod 256)) = w.
Proof.
  intros Hw. rewrite lor_bytes by zlia. rewrite u16_id by zlia. zlia.
Qed.

Lemma chip_sysRead d a r :
  i2c_state d = I2C_STOP -> a = pcfg_40 \/ a = pcfg_41 ->
  exists d', sysReadI2C16 d a r = Some (d', drv_reg d a r, true) /\
    i2c_state d' = I2C_STOP /\ forall a' r', drv_reg d' a' r' = drv_reg d a' r'.
Proof.
  intros Hd Ha. pose proof (i2c_session d a [r] 2 (TIME_MS2I 100)) as Hs.
  destruct (chip_read (i2c_lld_start (i2c_periph d)) a r Ha) as (b' & E & Hb).
  rewrite E in Hs.
  destruct Hs as (d1 & d2 & E1 & E2 & E3 & _); [rewrite Hd; reflexivity | congruence | easy |].
  unfold sysReadI2C16. rewrite E1. cbn [mbind option_bind]. rewrite E2.
  cbn [mbind option_bind]. rewrite E3. cbn [mbind option_bind]. eexists.
  simpl nth. rewrite word_of_bytes by apply chip_reg_range. rewrite chip_start.
  split; [reflexivity|]. split; [reflexivity|]. intros a' r'. unfold drv_reg. simpl.
  rewrite chip_stop, Hb, chip_start. reflexivity.
Qed.

Lemma chip_sysWrite d a hi lo :
  i2c_state d = I2C_STOP -> a = pcfg_40 \/ a = pcfg_41 -> 0 <= hi < 256 -> 0 <= lo < 256 ->
  exists d', sysWriteI2CN d a [INA3221_CONFIGURATION; hi; lo] = Some (d', true) /\
    i2c_state d' = I2C_STOP /\
    (hi < 128 -> drv_reg d' a INA3221_CONFIGURATION = hi * 256 + lo) /\
    forall a' r', a' <> a -> drv_reg d' a' r' = drv_reg d a' r'.
Proof.
  intros Hd Ha Hhi Hlo.
  pose proof (i2c_session d a [INA3221_CONFIGURATION; hi; lo] 0 (TIME_MS2I 100)) as Hs.
  destruct (chip_write (i2c_lld_start (i2c_periph d)) a hi lo Ha Hhi Hlo) as (b' & rx & E & Hc & Hb).
  rewrite E in Hs.
  destruct Hs as (d1 & d2 & E1 & E2 & E3 & _); [rewrite Hd; reflexivity | congruence | easy |].
  unfold sysWriteI2CN. rewrite E1. cbn [mbind option_bind]. rewrite E2.
  cbn [mbind option_bind]. rewrite E3. cbn [mbind option_bind]. eexists.
  split; [reflexivity|]. split; [reflexivity|]. unfold drv_reg. simpl. split.
  - intros Hlt. rewrite chip_stop. auto.
  - intros a' r' Hne. rewrite chip_stop, Hb, chip_start by exact Hne. reflexivity.
Qed.

Lemma chip_update_chan d a mon r :
  i2c_state d = I2C_STOP -> a = pcfg_40 \/ a = pcfg_41 -> 0 <= r < 255 ->
  exists d', ina3221_update_chan d a mon r
             = Some (d', Mon (i16 (drv_reg d a (r + 1))) (i16 (drv_reg d a r))) /\
    i2c_state d' = I2C_STOP /\ forall a' r', drv_reg d' a' r' = drv_reg d a' r'.
Proof.
  intros Hd Ha Hr. unfold ina3221_update_chan, ina3221_get_chan.
  destruct (chip_sysRead d a r Hd Ha) as (d1 & -> & Hd1 & Hr1). cbn [mbind option_bind].
  rewrite u8_id by lia.
  destruct (chip_sysRead d1 a (r + 1) Hd1 Ha) as (d2 & -> & Hd2 & Hr2). cbn [mbind option_bind].
  eexists. rewrite Hr1. split; [reflexivity|]. split; [exact Hd2|].
  intros a' r'. rewrite Hr2, Hr1. reflexivity.
Qed.

(** What the loop reads of a chip's channel. *)
Definition chip_mon (d : I2CDriver B) (a r : Z) : ina3221_mon :=
  Mon (i16 (drv_reg d a (r + 1))) (i16 (drv_reg d a r)).

Lemma chip_update s :
  i2c_state (ina_drv s) = I2C_STOP ->
  exists d', ina3221_update s = Some (Ina d' (ina_error s)
      (Mons (chip_mon (ina_drv s) pcfg_40 1) (chip_mon (ina_drv s) pcfg_40 3)
            (chip_mon (ina_drv s) pcfg_40 5) (chip_mon (ina_drv s) pcfg_41 1)
            (chip_mon (ina_drv s) pcfg_41 3) (chip_mon (ina_drv s) pcfg_41 5))) /\
    i2c_state d' = I2C_STOP /\ forall a' r', drv_reg d' a' r' = drv_reg (ina_drv s) a' r'.
Proof.
  intros Hd. unfold ina3221_update.
  assert (H40 : pcfg_40 = pcfg_40 \/ pcfg_40 = pcfg_41) by auto.
  assert (H41 : pcfg_41 = pcfg_40 \/ pcfg_41 = pcfg_41) by auto.
  destruct (chip_update_chan _ pcfg_40 (mon_ch1 (ina_mons s)) INA3221_CHAN1_REGS Hd H40) as (d1 & -> & Hd1 & R1); [easy|].
  cbn [mbind option_bind].
  destruct (chip_update_chan d1 pcfg_40 (mon_ch2 (ina_mons s)) INA3221_CHAN2_REGS Hd1 H40) as (d2 & -> & Hd2 & R2); [easy|].
  cbn [mbind option_bind].
  destruct (chip_update_chan d2 pcfg_40 (mon_ch3 (ina_mons s)) INA3221_CHAN3_REGS Hd2 H40) as (d3 & -> & Hd3 & R3); [easy|].
  cbn [mbind option_bind].
  destruct (chip_update_chan d3 pcfg_41 (mon_ch4 (ina_mons s)) INA3221_CHAN1_REGS Hd3 H41) as (d4 & -> & Hd4 & R4); [easy|].
  cbn [mbind option_bind].
  destruct (chip_update_chan d4 pcfg_41 (mon_ch5 (ina_mons s)) INA3221_CHAN2_REGS Hd4 H41) as (d5 & -> & Hd5 & R5); [easy|].
  cbn [mbind option_bind].
  destruct (chip_update_chan d5 pcfg_41 (mon_ch6 (ina_mons s)) INA3221_CHAN3_REGS Hd5 H41) as (d6 & -> & Hd6 & R6); [easy|].
  cbn [mbind option_bind]. exists d6. unfold chip_mon.
  rewrite !R5, !R4, !R3, !R2, !R1. split; [reflexivity|]. split; [exact Hd6|].
  intros a' r'. rewrite R6, R5, R4, R3, R2, R1. reflexivity.
Qed.

(** Reset, configuration and check of one chip. *)
Lemma chip_configure p s :
  p = pcfg_40 \/ p = pcfg_41 -> i2c_state (ina_drv s) = I2C_STOP ->
  exists d', ina_run 3 (InaReset p) s
             = Some (Ina d' (ina_error s) (ina_mons s),
                     if p =? pcfg_40 then InaReset pcfg_41 else InaLoop) /\
    i2c_state d' = I2C_STOP /\ drv_reg d' p INA3221_CONFIGURATION = 29991 /\
    forall a' r', a' <> p -> drv_reg d' a' r' = drv_reg (ina_drv s) a' r'.
Proof.
  intros Hp Hd. unfold ina_run, ina_step, ina3221_hardware_reset, ina3221_config_write,
    ina3221_config_check.
  destruct (chip_sysWrite _ p 128 0 Hd Hp) as (d1 & -> & Hd1 & _ & Ho1); [lia|lia|].
  cbn [mbind option_bind ina_drv ina_error ina_mons].
  destruct (chip_sysWrite d1 p 117 39 Hd1 Hp) as (d2 & -> & Hd2 & Hc2 & Ho2); [lia|lia|].
  cbn [mbind option_bind ina_drv ina_error ina_mons].
  destruct (chip_sysRead d2 p INA3221_CONFIGURATION Hd2 Hp) as (d3 & -> & Hd3 & Ho3).
  cbn [mbind option_bind ina_drv ina_error ina_mons].
  specialize (Hc2 ltac:(lia)). rewrite Hc2. exists d3. split; [reflexivity|].
  split; [exact Hd3|]. split; [rewrite Ho3; exact Hc2|].
  intros a' r' Hne. rewrite Ho3, Ho2, Ho1 by exact Hne. reflexivity.
Qed.

End Chips.

Lemma ina_run_app {B} `{I2cLld B} n1 n2 : forall pc (s : ina_state B),
  ina_run (n1 + n2) pc s = ('(s, pc) ← ina_run n1 pc s; ina_run n2 pc s).
Proof.
  induction n1 as [|n1 IH]; intros pc s; [reflexivity|]. simpl.
  destruct (ina_step pc s) as [[[s1 pc1] t]|]; simpl; auto.
Qed.

(** C38: with two working chips on the bus, the thread comes up in six turns with
    both chips holding the configuration 0x7527 and no error flag added, and
    every further turn makes the six channels the signed values of the chips'
    shunt and bus voltage registers. *)
Theorem ina_reads_chips {B} `{Ina3221Chips B} (s : ina_state B) :
  i2c_state (ina_drv s) = I2C_STOP ->
  exists d, ina_run 6 (InaReset pcfg_40) s = Some (Ina d (ina_error s) (ina_mons s), InaLoop) /\
    drv_reg d pcfg_40 INA3221_CONFIGURATION = 29991 /\
    drv_reg d pcfg_41 INA3221_CONFIGURATION = 29991 /\
    exists d' t, ina_step InaLoop (Ina d (ina_error s) (ina_mons s))
      = Some (Ina d' (ina_error s)
                (Mons (chip_mon d pcfg_40 1) (chip_mon d pcfg_40 3) (chip_mon d pcfg_40 5)
                      (chip_mon d pcfg_41 1) (chip_mon d pcfg_41 3) (chip_mon d pcfg_41 5)),
              InaLoop, t) /\
      i2c_state d' = I2C_STOP /\ forall a r, drv_reg d' a r = drv_reg d a r.
Proof.
  intros Hd. destruct (chip_configure pcfg_40 s) as (d1 & E1 & Hd1 & Hc1 & _); [auto|exact Hd|].
  destruct (chip_configure pcfg_41 (Ina d1 (ina_error s) (ina_mons s)))
    as (d2 & E2 & Hd2 & Hc2 & Ho2); [auto|exact Hd1|].
  cbn [ina_drv ina_error ina_mons] in *. exists d2.
  change 6%nat with (3 + 3)%nat. rewrite ina_run_app, E1. cbn [mbind option_bind].
  change (if pcfg_40 =? pcfg_40 then InaReset pcfg_41 else InaLoop) with (InaReset pcfg_41).
  rewrite E2. split; [reflexivity|]. split; [rewrite Ho2 by easy; exact Hc1|].
  split; [exact Hc2|].
  destruct (chip_update (Ina d2 (ina_error s) (ina_mons s))) as (d3 & E3 & Hd3 & Ho3);
    [exact Hd2|]. cbn [ina_drv ina_error ina_mons] in *.
  cbn [ina_step]. rewrite E3. cbn [mbind option_bind]. eauto 6.
Qed.

(** ** A concrete bus *)

(** Two chips by their registers; anything but a read of two bytes or a write of
    one register is answered with a NAK. *)
Definition ina_regs : Type := Z -> Z -> Z.

Definition regs_transmit (b : ina_regs) (a : Z) (tx : list Z) (n : nat) : ina_regs * Z * list Z :=
  match tx, n with
  | [r], 2%nat => (b, 0, [u16 (b a r) / 256; u16 (b a r) mod 256])
  | [r; hi; lo], O =>
      (fun a' r' => if (a' =? a) && (r' =? r)
                    then (if (r =? 0) && (128 <=? hi) then 28967 else hi * 256 + lo)
                    else b a' r', 0, [])
  | _, _ => (b, -2, replicate n 0)
  end.

#[export, program] Instance regs_lld : I2cLld ina_regs := {
  i2c_lld_start b := b;
  i2c_lld_stop b := b;
  i2c_lld_master_transmit_timeout := regs_transmit
}.
Next Obligation.
  intros b a tx n. unfold regs_transmit.
  assert (Hrep : length (replicate n 0) = n /\ Forall (fun r => 0 <= r < 256) (replicate n 0)).
  { split; [apply length_replicate | apply Forall_replicate; lia]. }
  destruct tx as [|r [|hi [|lo [|x tx]]]]; try exact Hrep.
  - destruct n as [|[|[|n]]]; try exact Hrep. simpl. split; [reflexivity|].
    pose proof (u16_range (b a r)). repeat constructor; zlia.
  - destruct n; [split; [reflexivity | constructor] | exact Hrep].
Qed.

#[export, program] Instance regs_chips : Ina3221Chips ina_regs := {
  chip_reg b a r := u16 (b a r)
}.
Next Obligation. intros b a r. apply u16_range. Qed.
Next Obligation. reflexivity. Qed.
Next Obligation. reflexivity. Qed.
Next Obligation. intros b a r _. exists b. split; reflexivity. Qed.
Next Obligation.
  intros b a hi lo _ Hhi Hlo. eexists. exists []. split; [reflexivity|]. split.
  - intros Hlt. simpl. rewrite Z.eqb_refl, (proj2 (Z.leb_gt 128 hi)) by lia. simpl.
    apply u16_id. lia.
  - intros a' r' Hne. simpl. rewrite (proj2 (Z.eqb_neq a' a)) by exact Hne. reflexivity.
Qed.

Definition some_regs : ina_regs := fun a r => a * 256 + r * 1000.

Lemma ina_step_safe_witness :
  exists s' pc' t, ina_step InaLoop (ina_state0 some_regs) = Some (s', pc', t) /\ ina_ok s' /\
    flags_kept 4 (ina_error s') /\ 0 < t.
Proof.
  apply (ina_step_safe InaLoop (ina_state0 some_regs)).
  split; [reflexivity|]. repeat split; simpl; lia.
Defined.

Lemma ina_reading_defined_witness :
  exists v, ina3221_get_current_reading (Mons (Mon 0 0) (Mon 12000 400) (Mon 0 0) (Mon 0 0) (Mon 0 0) (Mon 0 0))
              MON_PORT_2 MON_NMWATT = Some (0, v) /\ Z.abs v <= 536871.
Proof.
  apply (ina_reading_defined (Mons (Mon 0 0) (Mon 12000 400) (Mon 0 0) (Mon 0 0) (Mon 0 0) (Mon 0 0))
           MON_PORT_2 MON_NMWATT).
  repeat split; simpl; lia.
Defined.

(** 12 V and 0.2 A are 2.4 W. *)
Example reading_example :
  ina3221_get_current_reading (Mons (Mon 0 0) (Mon 12000 400) (Mon 0 0) (Mon 0 0) (Mon 0 0) (Mon 0 0))
    MON_PORT_2 MON_NMWATT = Some (0, 2400).
Proof. vm_compute. reflexivity. Qed.

Lemma ina_reads_chips_witness :
  exists d, ina_run 6 (InaReset pcfg_40) (ina_state0 some_regs)
            = Some (Ina d 4 mons0, InaLoop) /\
    drv_reg d pcfg_40 0 = 29991 /\ drv_reg d pcfg_41 0 = 29991 /\
    exists d' t, ina_step InaLoop (Ina d 4 mons0)
      = Some (Ina d' 4
                (Mons (chip_mon d pcfg_40 1) (chip_mon d pcfg_40 3) (chip_mon d pcfg_40 5)
                      (chip_mon d pcfg_41 1) (chip_mon d pcfg_41 3) (chip_mon d pcfg_41 5)),
              InaLoop, t) /\
      i2c_state d' = I2C_STOP /\ forall a r, drv_reg d' a r = drv_reg d a r.
Proof. apply (ina_reads_chips (ina_state0 some_regs)). reflexivity. Defined.
