(* ===== verification/Api.v ===== *)
(** * The rotator protocol (api.c)

    A TCP client asks for the antenna's position, commands one, or stops it.
    [api_command] is the body of the receive loop for one chunk of data; the
    connection delivers the chunks and collects the answers.  The locals that
    the code does not initialise start with arbitrary values. *)

From S2P Require Import Prelude CInt CFloat CLib Chtime Mde Imu Debug Chprintf Ctrl.
From Stdlib Require Import SpecFloat.

(** ** Data *)

(** The locals of [server_serve] that live across commands. *)
Record api_locals := ApiLocals {
  last_az : spec_float;   (* float, not initialised *)
  last_el : spec_float;   (* float, not initialised *)
  last_cmd : Z            (* systime_t *)
}.

(** [connected] is the static variable (the LED follows it), [api_sent] what
    has been written to the connection. *)
Record api_state := Api {
  api_rig : rig;
  connected : bool;
  api_loc : api_locals;
  api_sent : list (list Z)
}.

Definition api_is_connected (s : api_state) : bool := connected s.

Definition netconn_write (msg : list Z) (s : api_state) : api_state :=
  Api (api_rig s) (connected s) (api_loc s) (api_sent s ++ [msg]).

Definition on_rig (f : rig -> rig) (s : api_state) : api_state :=
  Api (f (api_rig s)) (connected s) (api_loc s) (api_sent s).

(** ** Parsing a position *)

(** [while(i<l && !stop(msg[i])) i++]: at most [n = l - i] turns. *)
Fixpoint scan_until (n : nat) (stop : Z -> bool) (msg : list Z) (i : Z) : option Z :=
  match n with
  | O => Some i
  | S n' => c ← rd msg i; if stop c then Some i else scan_until n' stop msg (i + 1)
  end.

Definition is_separator (c : Z) : bool := (c =? 46) || (c =? 44).
Definition is_blank (c : Z) : bool := c =? 32.

(** One scan, the separator overwritten by an underscore, and the index behind
    it. *)
Definition extract_field (stop : Z -> bool) (msg : list Z) (l i : Z) : option (list Z * Z) :=
  i ← scan_until (Z.to_nat (l - i)) stop msg i;
  msg ← wr msg i 95;
  Some (msg, u8 (i + 1)).

(** The buffer cut into fields: where the second to fourth number start, and
    the result. *)
Definition extract_split (msg : list Z) : option (list Z * Z * Z * Z * bool) :=
  n ← strlen msg;
  let l := u8 n in
  '(msg, n2) ← extract_field is_separator msg l 2;
  '(msg, n3) ← extract_field is_blank msg l n2;
  '(msg, n4) ← extract_field is_separator msg l n3;
  Some (msg, n2, n3, n4, negb (n4 =? l)).

(** [a + b/100.0] as a [float]. *)
Definition hundredths (a b : Z) : spec_float :=
  s_of_d (d_add (d_of_Z a) (d_div (d_of_Z b) (d_of_Z 100))).

Definition extract_numbers (msg : list Z) : option (spec_float * spec_float * bool) :=
  '(msg, n2, n3, n4, ok) ← extract_split msg;
  a1 ← atoi (at_off msg 2);
  a2 ← atoi (at_off msg n2);
  a3 ← atoi (at_off msg n3);
  a4 ← atoi (at_off msg n4);
  Some (hundredths a1 a2, hundredths a3 a4, ok).

(** ** The commands *)

(** The literal 182.044, units per degree. *)
Definition units_per_degree : spec_float := d_lit 182044 1000.

(** [x*182.044]. *)
Definition units (x : spec_float) : spec_float := d_mul (d_of_s x) units_per_degree.

Definition api_report_format : list Z := bytes "%.2f" ++ [10] ++ bytes "%.2f" ++ [10; 0].

(** 'p'. *)
Definition api_report (buf : list Z) (s : api_state) : option api_state :=
  let r := api_rig s in
  let az := degrees (mde_get_az_enc_pos (r_mde r) + mde_get_az_enc_off (r_mde r)) in
  let el := degrees (imu_get_el_pos (r_imu r)) in
  let el := if f_ltb el (S754_zero false) then S754_zero false else el in
  '(buf, _) ← chvsnprintf buf 128 api_report_format [VDouble (d_of_s az); VDouble (d_of_s el)];
  n ← strlen buf;
  Some (netconn_write (take (Z.to_nat n) buf) s).

(** The readings of the clock while a command is served. *)
Record api_times := ApiTimes {
  ta_az : Z; ta_el : Z; ta_check : Z; ta_az_spd : Z; ta_el_spd : Z; ta_end : Z
}.

(** [(x-last)*182.044 / (TIME_I2MS(elapsed)/1000.0)] as an [int16_t]. *)
Definition api_speed (x last : spec_float) (elapsed : Z) : option Z :=
  f_to_s 16 (d_div (units (s_sub x last)) (d_div (d_of_Z (TIME_I2MS elapsed)) (d_of_Z 1000))).

(** The speed hint: whatever the speeds, only zero is ever set. *)
Definition api_speed_hint (ts : api_times) (az el : spec_float) (s : api_state) : option api_state :=
  let lc := last_cmd (api_loc s) in
  if TIME_I2MS (u32 (ta_check ts - lc)) <? 3000 then
    az_spd ← api_speed az (last_az (api_loc s)) (u32 (ta_az_spd ts - lc));
    el_spd ← api_speed el (last_el (api_loc s)) (u32 (ta_el_spd ts - lc));
    if (Z.abs az_spd <? 5 * 182) && (Z.abs el_spd <? 5 * 182)
    then Some (on_rig (fun r => el_set_tgt_pos_spd 0 (az_set_tgt_pos_spd 0 r)) s)
    else Some s
  else Some s.

Definition api_remember (ts : api_times) (az el : spec_float) (s : api_state) : api_state :=
  Api (api_rig s) (connected s) (ApiLocals az el (ta_end ts)) (api_sent s).

(** 'P'. *)
Definition api_set_position (ts : api_times) (buf : list Z) (s : api_state) : option api_state :=
  '(az, el, ok) ← extract_numbers buf;
  if negb ok then Some (netconn_write (bytes "RPRT 1" ++ [10]) s)
  else
    pos ← f_to_u 16 (units az);
    let s := on_rig (az_set_tgt_pos (ta_az ts) pos) s in
    pos ← f_to_s 16 (units el);
    let s := on_rig (el_set_tgt_pos (ta_el ts) pos) s in
    s ← api_speed_hint ts az el s;
    Some (netconn_write (bytes "RPRT 0" ++ [10]) (api_remember ts az el s)).

(** 'S'. *)
Definition api_stop (ts : api_times) (s : api_state) : api_state :=
  let s := on_rig (fun r =>
    let r := az_set_tgt_pos (ta_az ts) (mde_get_az_enc_pos (r_mde r)) r in
    let r := el_set_tgt_pos (ta_el ts) (imu_get_el_pos (r_imu r)) r in
    el_set_tgt_pos_spd 0 (az_set_tgt_pos_spd 0 r)) s in
  netconn_write (bytes "S" ++ [10]) s.

(** [memset] and [memcpy] into the 128-byte buffer. *)
Definition api_buffer (data : list Z) : option (list Z) :=
  memcpy (replicate 128 0) 0 data (Z.min (Z.of_nat (length data)) 128).

(** One chunk: the state and [quit_conn]. *)
Definition api_command (ts : api_times) (data : list Z) (s : api_state) : option (api_state * bool) :=
  match data with
  | [] => Some (s, false)
  | c :: _ =>
      buf ← api_buffer data;
      if c =? 112 then s ← api_report buf s; Some (s, false)
      else if c =? 80 then s ← api_set_position ts buf s; Some (s, false)
      else if c =? 83 then Some (api_stop ts s, false)
      else if c =? 113 then Some (s, true)
      else Some (s, false)
  end.

(** The chunks of one network buffer; the rest is dropped after a quit. *)
Fixpoint api_netbuf (chunks : list (api_times * list Z)) (s : api_state) : option api_state :=
  match chunks with
  | [] => Some s
  | (ts, data) :: chunks' =>
      '(s, quit) ← api_command ts data s;
      if quit : bool then Some s else api_netbuf chunks' s
  end.

Fixpoint api_netbufs (bufs : list (list (api_times * list Z))) (s : api_state) : option api_state :=
  match bufs with
  | [] => Some s
  | b :: bufs' => s ← api_netbuf b s; api_netbufs bufs' s
  end.

(** [server_serve]: the network buffers received until the connection fails. *)
Definition api_server_serve (now : Z) (az0 el0 : spec_float)
    (bufs : list (list (api_times * list Z))) (r : rig) : option api_state :=
  s ← api_netbufs bufs (Api r true (ApiLocals az0 el0 now) []);
  Some (Api (api_rig s) false (api_loc s) (api_sent s)).

(** ** Parsing: bounds *)

Lemma scan_until_bounds n stop msg : forall i,
  0 <= i -> i + Z.of_nat n <= Z.of_nat (length msg) ->
  exists j, scan_until n stop msg i = Some j /\ i <= j <= i + Z.of_nat n.
Proof.
  induction n as [|n IH]; intros i Hi Hn; [exists i; split; [reflexivity|lia]|].
  cbn [scan_until]. destruct (rd_defined msg i) as [c ->]; [lia|]. cbn [mbind option_bind].
  destruct (stop c); [exists i; split; [reflexivity|lia]|].
  destruct (IH (i + 1)) as (j & -> & Hj); [lia|lia|]. exists j. split; [reflexivity|lia].
Qed.

(** A field is found and cut off whenever there is room for one more byte. *)
Lemma extract_field_bounds stop msg l i :
  (length msg <= 128)%nat -> 0 <= i -> Z.max i l < Z.of_nat (length msg) ->
  exists msg' j, extract_field stop msg l i = Some (msg', j) /\ length msg' = length msg /\
    i < j <= Z.max i l + 1.
Proof.
  intros Hl Hi Hm. unfold extract_field.
  destruct (scan_until_bounds (Z.to_nat (l - i)) stop msg i) as (j & -> & Hj); [lia|lia|].
  cbn [mbind option_bind]. rewrite wr_defined by lia. cbn [mbind option_bind].
  rewrite u8_id by lia. eexists _, _. split; [reflexivity|].
  split; [apply length_insert | lia].
Qed.

(** For a command of at most 124 bytes, whatever they are, cutting the
    buffer into fields stays inside it, and each field starts inside it. *)
Theorem api_split_in_bounds (msg text : list Z) :
  length msg = 128%nat -> cstr msg = Some text -> (2 <= length text <= 124)%nat ->
  exists msg' n2 n3 n4 ok, extract_split msg = Some (msg', n2, n3, n4, ok) /\
    length msg' = 128%nat /\ 2 < n2 < n3 /\ n3 < n4 <= 127.
Proof.
  intros Hl Hc Ht. unfold extract_split, strlen. rewrite Hc. cbn [mbind option_bind].
  rewrite u8_id by lia. set (l := Z.of_nat (length text)) in *.
  destruct (extract_field_bounds is_separator msg l 2) as (m1 & n2 & -> & L1 & H2); [lia..|].
  cbn [mbind option_bind].
  destruct (extract_field_bounds is_blank m1 l n2) as (m2 & n3 & -> & L2 & H3); [lia..|].
  cbn [mbind option_bind].
  destruct (extract_field_bounds is_separator m2 l n3) as (m3 & n4 & -> & L3 & H4); [lia..|].
  cbn [mbind option_bind]. do 5 eexists. split; [reflexivity|]. split; [lia|]. lia.
Qed.

Lemma api_split_in_bounds_witness :
  let text := bytes "P 180.00 45.00_" in
  exists msg' n2 n3 n4 ok,
    extract_split (text ++ replicate 113 0) = Some (msg', n2, n3, n4, ok) /\
    length msg' = 128%nat /\ 2 < n2 < n3 /\ n3 < n4 <= 127.
Proof.
  apply (api_split_in_bounds (bytes "P 180.00 45.00_" ++ replicate 113 0) (bytes "P 180.00 45.00_"));
    [reflexivity | vm_compute; reflexivity | vm_compute; lia].
Defined.

(** ** Parsing: overlong commands *)

Lemma scan_until_none n stop msg : forall i,
  0 <= i -> (forall k c, i <= k < i + Z.of_nat n -> rd msg k = Some c -> stop c = false) ->
  i + Z.of_nat n <= Z.of_nat (length msg) ->
  scan_until n stop msg i = Some (i + Z.of_nat n).
Proof.
  induction n as [|n IH]; intros i Hi Hs Hn; [f_equal; lia|].
  cbn [scan_until]. destruct (rd_defined msg i) as [c Hc]; [lia|]. rewrite Hc.
  cbn [mbind option_bind]. rewrite (Hs i c) by (assumption || lia).
  rewrite IH; [f_equal; lia | lia | intros k c' Hk; apply Hs; lia | lia].
Qed.

Lemma wr_out msg i b : Z.of_nat (length msg) <= i -> wr msg i b = None.
Proof.
  intros H. unfold wr. rewrite (proj2 (Z.ltb_ge i _)) by lia. rewrite andb_false_r. reflexivity.
Qed.

(** A text without a separator is scanned to its end. *)
Lemma scan_text stop msg text (i : Z) :
  cstr msg = Some text -> 0 <= i -> Forall (fun c => stop c = false) (drop (Z.to_nat i) text) ->
  let l := Z.of_nat (length text) in
  i <= l -> scan_until (Z.to_nat (l - i)) stop msg i = Some l.
Proof.
  intros Hc Hi Hsep l Hil. pose proof (cstr_length _ _ Hc).
  rewrite (scan_until_none (Z.to_nat (l - i))); [f_equal; lia | lia | | lia].
  intros k c Hk Hr. unfold rd in Hr. rewrite (proj2 (Z.leb_le 0 k)) in Hr by lia.
  destruct (cstr_split _ _ Hc) as [rest ->].
  rewrite lookup_app_l in Hr by lia.
  rewrite <- (take_drop (Z.to_nat i) text), lookup_app_r in Hr by (rewrite length_take; lia).
  rewrite Forall_lookup in Hsep. eapply Hsep, Hr.
Qed.

Lemma extract_field_end stop msg l i :
  l < i -> 0 <= i < Z.of_nat (length msg) ->
  extract_field stop msg l i = Some (<[Z.to_nat i := 95]> msg, u8 (i + 1)).
Proof.
  intros Hl Hi. unfold extract_field. replace (Z.to_nat (l - i)) with O by lia.
  cbn [scan_until mbind option_bind]. rewrite wr_defined by lia. reflexivity.
Qed.

Lemma extract_field_out stop msg l i :
  l < i -> Z.of_nat (length msg) <= i -> extract_field stop msg l i = None.
Proof.
  intros Hl Hi. unfold extract_field. replace (Z.to_nat (l - i)) with O by lia.
  cbn [scan_until mbind option_bind]. rewrite wr_out by lia. reflexivity.
Qed.

(** A command of 126 or 127 bytes without a separator makes
    [extract_numbers] write past the end of the 128-byte buffer: the first scan
    runs to the end of the text, and each of the three writes lands one byte
    further. *)
Theorem api_overlong_overflow (msg text : list Z) :
  length msg = 128%nat -> cstr msg = Some text -> (126 <= length text)%nat ->
  Forall (fun c => is_separator c = false) (drop 2 text) ->
  extract_numbers msg = None.
Proof.
  intros Hl Hc Ht Hsep. unfold extract_numbers, extract_split, strlen. rewrite Hc.
  cbn [mbind option_bind]. pose proof (cstr_length _ _ Hc) as Hlt.
  rewrite u8_id by lia. set (l := Z.of_nat (length text)).
  pose proof (scan_text is_separator msg text 2 Hc ltac:(lia) Hsep ltac:(lia)) as E1.
  fold l in E1.
  assert (extract_field is_separator msg l 2 = Some (<[Z.to_nat l := 95]> msg, u8 (l + 1))) as ->.
  { unfold extract_field. rewrite E1. cbn [mbind option_bind]. rewrite wr_defined by lia. reflexivity. }
  cbn [mbind option_bind].
  set (m1 := <[_ := 95]> msg). assert (L1 : length m1 = 128%nat) by (unfold m1; rewrite length_insert; lia).
  rewrite u8_id by lia.
  destruct (Z.eq_dec l 127) as [E|E].
  - rewrite (extract_field_out is_blank m1) by lia. reflexivity.
  - rewrite (extract_field_end is_blank m1) by lia. cbn [mbind option_bind].
    rewrite u8_id by lia. rewrite extract_field_out by (rewrite ?length_insert; lia). reflexivity.
Qed.

Lemma api_overlong_overflow_witness :
  extract_numbers (80 :: replicate 126 65 ++ [0]) = None.
Proof.
  apply (api_overlong_overflow (80 :: replicate 126 65 ++ [0]) (80 :: replicate 126 65));
    [reflexivity | vm_compute; reflexivity | vm_compute; lia |].
  change (Forall (fun c => is_separator c = false) (replicate 125 65)).
  apply Forall_replicate. reflexivity.
Defined.

(** ** Parsing: well-formed commands *)

Lemma scan_until_find n stop pre seg c post :
  Forall (fun x => stop x = false) seg ->
  n = length seg \/ (length seg < n)%nat /\ stop c = true ->
  scan_until n stop (pre ++ seg ++ c :: post) (Z.of_nat (length pre))
  = Some (Z.of_nat (length pre + length seg)).
Proof.
  intros Hseg. revert pre n. induction Hseg as [|x seg Hx Hseg IH]; intros pre n Hn.
  - rewrite Nat.add_0_r. destruct n as [|n]; [reflexivity|].
    destruct Hn as [Hn|[_ Hn]]; [discriminate|]. cbn [scan_until]. unfold rd.
    rewrite (proj2 (Z.leb_le 0 _)), Nat2Z.id by lia. simpl.
    rewrite lookup_app_r, Nat.sub_diag by lia. simpl. rewrite Hn. reflexivity.
  - destruct n as [|n]; [simpl in Hn; lia|]. cbn [scan_until]. unfold rd.
    rewrite (proj2 (Z.leb_le 0 _)), Nat2Z.id by lia.
    rewrite lookup_app_r, Nat.sub_diag by lia. simpl. rewrite Hx.
    specialize (IH (pre ++ [x]) n). rewrite length_app in IH. simpl length in IH.
    rewrite <- app_assoc in IH. simpl app in IH.
    replace (Z.of_nat (length pre) + 1) with (Z.of_nat (length pre + 1)) by lia.
    rewrite IH; [f_equal; simpl; lia|]. simpl in Hn.
    destruct Hn as [Hn|[Hn Hc]]; [left; lia | right; split; [lia | exact Hc]].
Qed.

Lemma extract_field_find stop l pre seg c post :
  Forall (fun x => stop x = false) seg ->
  let i := Z.of_nat (length pre) in
  let j := Z.of_nat (length pre + length seg) in
  l = j \/ j < l /\ stop c = true -> j < 255 ->
  extract_field stop (pre ++ seg ++ c :: post) l i = Some (pre ++ seg ++ 95 :: post, j + 1).
Proof.
  intros Hseg i j Hl Hj. unfold extract_field, i.
  rewrite (scan_until_find _ stop pre seg c post Hseg).
  2: { unfold j in *. destruct Hl as [Hl|[Hl Hs]]; [left; lia | right; split; [lia | exact Hs]]. }
  cbn [mbind option_bind]. fold j. rewrite wr_defined by (rewrite !length_app; simpl; lia).
  cbn [mbind option_bind]. rewrite u8_id by lia. f_equal. f_equal.
  unfold j. rewrite Nat2Z.id, !app_assoc, <- length_app.
  replace (length (pre ++ seg)) with (length (pre ++ seg) + 0)%nat by lia.
  rewrite insert_app_r. reflexivity.
Qed.

(** A position command: 'P', a blank, the two numbers of the azimuth with a
    separator between them, a blank, those of the elevation, and the rest of
    the line. *)
Definition position_text (a b c d tail : list Z) (s1 s2 : Z) : list Z :=
  80 :: 32 :: a ++ s1 :: b ++ 32 :: c ++ s2 :: d ++ tail.

Definition separator_ok (s : Z) : Prop := s = 46 \/ s = 44.

Lemma position_split a b c d tail s1 s2 rest :
  Forall (fun x => is_separator x = false) a -> Forall (fun x => is_blank x = false) b ->
  Forall (fun x => is_separator x = false) c ->
  separator_ok s1 -> separator_ok s2 -> d <> [] ->
  let text := position_text a b c d tail s1 s2 in
  Forall (fun x => x <> 0) text -> (length text <= 254)%nat ->
  extract_split (text ++ 0 :: rest)
  = Some (80 :: 32 :: a ++ 95 :: b ++ 95 :: c ++ 95 :: d ++ tail ++ 0 :: rest,
          Z.of_nat (length a + 3), Z.of_nat (length a + length b + 4),
          Z.of_nat (length a + length b + length c + 5), true).
Proof.
  intros Ha Hb Hc Hs1 Hs2 Hd text Hnz Hlen. unfold extract_split, strlen.
  rewrite cstr_app by exact Hnz. cbn [mbind option_bind]. rewrite u8_id by lia.
  assert (Hl : length text = (length a + length b + length c + length d + length tail + 5)%nat).
  { unfold text, position_text. simpl. rewrite !length_app. simpl.
    rewrite !length_app. simpl. rewrite !length_app. simpl. rewrite !length_app. lia. }
  assert (Hd1 : (1 <= length d)%nat) by (destruct d; [congruence | simpl; lia]).
  set (l := Z.of_nat (length text)). assert (Hlz : l = Z.of_nat (length text)) by reflexivity.
  assert (E1 : text ++ 0 :: rest
               = [80; 32] ++ a ++ s1 :: (b ++ 32 :: c ++ s2 :: d ++ tail ++ 0 :: rest)).
  { unfold text, position_text. simpl. rewrite <- !app_assoc. simpl. rewrite <- !app_assoc. simpl.
    rewrite <- !app_assoc. simpl. rewrite <- !app_assoc. reflexivity. }
  rewrite E1. change 2 with (Z.of_nat (length [80; 32])).
  rewrite extract_field_find; [|exact Ha| |simpl length; lia].
  2: { right. simpl length. split; [lia|]. destruct Hs1 as [-> | ->]; reflexivity. }
  cbn [mbind option_bind].
  set (pre2 := [80; 32] ++ a ++ [95]).
  assert (L2 : length pre2 = (length a + 3)%nat) by (unfold pre2; simpl; rewrite length_app; simpl; lia).
  assert (E2 : [80; 32] ++ a ++ 95 :: b ++ 32 :: c ++ s2 :: d ++ tail ++ 0 :: rest
               = pre2 ++ b ++ 32 :: (c ++ s2 :: d ++ tail ++ 0 :: rest))
    by (unfold pre2; rewrite <- !app_assoc; reflexivity).
  rewrite E2. replace (Z.of_nat (length [80; 32] + length a) + 1) with (Z.of_nat (length pre2))
    by (rewrite L2; change (length [80; 32]) with 2%nat; lia).
  rewrite extract_field_find; [|exact Hb|right; split; [lia|reflexivity]|lia].
  cbn [mbind option_bind].
  set (pre3 := pre2 ++ b ++ [95]).
  assert (L3 : length pre3 = (length a + length b + 4)%nat)
    by (unfold pre3; rewrite !length_app, L2; simpl; lia).
  assert (E3 : pre2 ++ b ++ 95 :: c ++ s2 :: d ++ tail ++ 0 :: rest
               = pre3 ++ c ++ s2 :: (d ++ tail ++ 0 :: rest))
    by (unfold pre3; rewrite <- !app_assoc; reflexivity).
  rewrite E3. replace (Z.of_nat (length pre2 + length b) + 1) with (Z.of_nat (length pre3)) by lia.
  rewrite extract_field_find; [|exact Hc| |lia].
  2: { right. split; [lia|]. destruct Hs2 as [-> | ->]; reflexivity. }
  cbn [mbind option_bind]. rewrite L2, L3.
  rewrite (proj2 (Z.eqb_neq _ l)) by lia. clear L2 L3 E2 E3.
  unfold pre3, pre2. rewrite <- !app_assoc.
  f_equal. f_equal. f_equal. f_equal. f_equal; lia.
Qed.

(** The rest of a command line: nothing, or something that does not continue
    the number before it. *)
Definition line_tail (tail : list Z) : Prop :=
  Forall (fun x => x <> 0) tail /\ forall c t, tail = c :: t -> is_digit c = false.

Lemma int_text_scans t v :
  int_text t v ->
  t <> [] /\ Forall (fun x => x <> 0) t /\ Forall (fun x => is_separator x = false) t /\
  Forall (fun x => is_blank x = false) t.
Proof.
  intros H. pose proof (int_text_bytes t v H) as Hb. split.
  { destruct H as (n & ds & [Hl _] & Hn & [[-> _]|[-> _]]); [|discriminate].
    destruct ds; [simpl in Hl; lia | discriminate]. }
  unfold is_separator, is_blank.
  split_and!; (eapply Forall_impl; [exact Hb|]); cbv beta; intros b H1; [lia|apply orb_false_iff|];
    rewrite ?Z.eqb_neq; lia.
Qed.

(** Where a field starts in the cut buffer. *)
Lemma at_off_split pre rest n : n = Z.of_nat (length pre) -> at_off (pre ++ rest) n = rest.
Proof. intros ->. unfold at_off. rewrite Nat2Z.id. apply drop_app_length. Qed.

Lemma extract_numbers_value a b c d tail s1 s2 va vb vc vd rest :
  int_text a va -> int_text b vb -> int_text c vc -> int_text d vd -> line_tail tail ->
  separator_ok s1 -> separator_ok s2 ->
  let text := position_text a b c d tail s1 s2 in
  (length text <= 254)%nat ->
  extract_numbers (text ++ 0 :: rest) = Some (hundredths va vb, hundredths vc vd, true).
Proof.
  intros Ha Hb Hc Hd [Ht Ht'] Hs1 Hs2 text Hlen.
  destruct (int_text_scans _ _ Ha) as (_ & Na & Sa & _).
  destruct (int_text_scans _ _ Hb) as (_ & Nb & _ & Bb).
  destruct (int_text_scans _ _ Hc) as (_ & Nc & Sc & _).
  destruct (int_text_scans _ _ Hd) as (Ed & Nd & _ & _).
  assert (Hnz : Forall (fun x => x <> 0) text).
  { unfold text, position_text. unfold separator_ok in *.
    repeat first [apply Forall_app_2 | apply Forall_cons_2]; try assumption; lia. }
  unfold extract_numbers, text.
  rewrite (position_split a b c d tail s1 s2 rest Sa Bb Sc Hs1 Hs2 Ed Hnz Hlen).
  cbn [mbind option_bind].
  set (t0 := d ++ tail ++ 0 :: rest).
  change (80 :: 32 :: a ++ 95 :: b ++ 95 :: c ++ 95 :: t0)
    with ([80; 32] ++ a ++ 95 :: b ++ 95 :: c ++ 95 :: t0).
  rewrite (at_off_split [80; 32] (a ++ 95 :: b ++ 95 :: c ++ 95 :: t0) 2) by reflexivity.
  rewrite (int_text_atoi a va 95) by (assumption || reflexivity). cbn [mbind option_bind].
  replace ([80; 32] ++ a ++ 95 :: b ++ 95 :: c ++ 95 :: t0)
    with (([80; 32] ++ a ++ [95]) ++ b ++ 95 :: c ++ 95 :: t0)
    by (rewrite <- !app_assoc; reflexivity).
  rewrite (at_off_split _ _ (Z.of_nat (length a + 3))) by (rewrite !length_app; simpl; lia).
  rewrite (int_text_atoi b vb 95) by (assumption || reflexivity). cbn [mbind option_bind].
  replace (([80; 32] ++ a ++ [95]) ++ b ++ 95 :: c ++ 95 :: t0)
    with ((([80; 32] ++ a ++ [95]) ++ b ++ [95]) ++ c ++ 95 :: t0)
    by (rewrite <- !app_assoc; reflexivity).
  rewrite (at_off_split _ _ (Z.of_nat (length a + length b + 4))) by (rewrite !length_app; simpl; lia).
  rewrite (int_text_atoi c vc 95) by (assumption || reflexivity). cbn [mbind option_bind].
  replace ((([80; 32] ++ a ++ [95]) ++ b ++ [95]) ++ c ++ 95 :: t0)
    with (((([80; 32] ++ a ++ [95]) ++ b ++ [95]) ++ c ++ [95]) ++ t0)
    by (rewrite <- !app_assoc; reflexivity).
  rewrite (at_off_split _ _ (Z.of_nat (length a + length b + length c + 5))) by (rewrite !length_app; simpl; lia).
  unfold t0. destruct tail as [|x tail].
  - rewrite app_nil_l, (int_text_atoi d vd 0) by (assumption || reflexivity). reflexivity.
  - rewrite <- app_comm_cons.
    rewrite (int_text_atoi d vd x) by (try assumption; eapply Ht'; reflexivity). reflexivity.
Qed.

(** ** Commands *)




Definition api_times_ok (ts : api_times) : Prop :=
  0 <= ta_az ts < 4294967296 /\ 0 <= ta_el ts < 4294967296.

(** What a command may do to a connection: the rig's invariant is kept, the
    static flag is untouched, and at most one answer is sent. *)
Definition api_effect (s s' : api_state) : Prop :=
  client_effect (api_rig s) (api_rig s') /\ connected s' = connected s /\
  exists answers, api_sent s' = api_sent s ++ answers /\ (length answers <= 1)%nat.

Lemma api_effect_answer s r l msg :
  client_effect (api_rig s) r -> api_effect s (netconn_write msg (Api r (connected s) l (api_sent s))).
Proof. intros Hr. split; [exact Hr|]. split; [reflexivity|]. exists [msg]. simpl. auto. Qed.

Lemma api_effect_silent s : rig_inv (api_rig s) -> api_effect s s.
Proof. intros Hr. split; [apply client_effect_refl, Hr|]. split; [reflexivity|]. exists []. rewrite app_nil_r. simpl. auto. Qed.

Lemma api_report_effect buf s :
  rig_inv (api_rig s) -> length buf = 128%nat ->
  exists s', api_report buf s = Some s' /\ api_effect s s'.
Proof.
  intros Hr Hl. pose proof Hr as [(_ & Hm & Hi & _) _].
  apply mde_ok_spec in Hm. apply imu_ok_spec in Hi. unfold api_report. cbv zeta.
  unfold mde_get_az_enc_pos, mde_get_az_enc_off, imu_get_el_pos.
  set (el := if f_ltb _ _ then _ else _).
  assert (Hel : fle 16777215 7 (d_of_s el)).
  { apply float_arg. unfold el. case_bool; [exact I|]. apply (fle_mono 721); [lia|].
    apply degrees_fle. lia. }
  destruct (chvsnprintf_bound buf 128 api_report_format [KDouble; KDouble]
              [VDouble (d_of_s (degrees (enc_az (r_mde (api_rig s)) + enc_az_off (r_mde (api_rig s)))));
               VDouble (d_of_s el)] 44)
    as (buf' & msg & ret & -> & _ & Hmsg & _); try easy; try lia.
  { constructor; [apply degrees_arg; lia|]. constructor; [exact Hel | constructor]. }
  cbn [mbind option_bind]. unfold strlen. rewrite Hmsg. cbn [mbind option_bind].
  eexists. split; [reflexivity|]. destruct s. apply (api_effect_answer (Api _ _ _ _)).
  apply client_effect_refl, Hr.
Qed.

Lemma api_speed_hint_effect ts az el r0 s s' :
  client_effect r0 (api_rig s) -> api_speed_hint ts az el s = Some s' ->
  client_effect r0 (api_rig s') /\ connected s' = connected s /\ api_sent s' = api_sent s.
Proof.
  intros Hr H. unfold api_speed_hint in H. case_bool_in H.
  - inv_bind. case_bool_in H; injection H as <-; simpl; auto with seatel.
  - injection H as <-. auto.
Qed.

Lemma api_set_position_effect ts buf s s' :
  rig_inv (api_rig s) -> api_times_ok ts -> api_set_position ts buf s = Some s' -> api_effect s s'.
Proof.
  intros Hr [Ha He] H. unfold api_set_position in H. apply bind_Some_inv in H as [[[az el] ok] [_ H]].
  destruct ok; cbn [negb] in H.
  - apply bind_Some_inv in H as [p1 [_ H]]. apply bind_Some_inv in H as [p2 [_ H]].
    apply bind_Some_inv in H as [s2 [E H]]. injection H as <-.
    apply (api_speed_hint_effect _ _ _ (api_rig s)) in E as (Hr2 & Hc & Hs); [|simpl; auto with seatel].
    split; [exact Hr2|]. split; [exact Hc|]. simpl in *. rewrite Hs.
    eexists. split; [reflexivity|]. simpl. lia.
  - injection H as <-. destruct s. apply (api_effect_answer (Api _ _ _ _)).
    apply client_effect_refl, Hr.
Qed.

Lemma api_command_total (ts : api_times) (data : list Z) (s : api_state) :
  rig_inv (api_rig s) -> api_times_ok ts ->
  match api_command ts data s with
  | Some (s', _) => api_effect s s'
  | None => exists rest, data = 80 :: rest
  end.
Proof.
  intros Hr Hts. unfold api_command. destruct data as [|c data]; [apply api_effect_silent, Hr|].
  destruct (memcpy_defined (replicate 128 0) 0 (c :: data) (Z.min (Z.of_nat (length (c :: data))) 128))
    as (buf & Hbuf); rewrite ?length_replicate; try lia.
  unfold api_buffer. rewrite Hbuf. pose proof (memcpy_length _ _ _ _ _ Hbuf) as Hl.
  cbn [mbind option_bind]. rewrite length_replicate in Hl.
  destruct (c =? 112).
  { destruct (api_report_effect buf s Hr Hl) as (s' & -> & He). exact He. }
  destruct (Z.eqb_spec c 80) as [->|_].
  { destruct (api_set_position ts buf s) as [s'|] eqn:E; cbn [mbind option_bind]; [|eauto].
    eapply api_set_position_effect; eassumption. }
  destruct (c =? 83).
  { destruct Hts. destruct s as [r cn l o]. unfold api_stop, on_rig. cbn [api_rig connected api_loc api_sent].
    apply (api_effect_answer (Api r cn l o)). simpl in Hr. auto 6 with seatel. }
  destruct (c =? 113); apply api_effect_silent, Hr.
Qed.

(** Whatever a client sends, serving it is defined unless it is a position
    command, keeps the invariant of the rig (and with it the safety of the
    control loop), does not touch what belongs to the other threads, leaves the speed hints at zero, and sends at most one
    answer. *)
Theorem api_command_safe (ts : api_times) (data : list Z) (s : api_state) :
  rig_inv (api_rig s) -> api_times_ok ts ->
  match api_command ts data s with
  | Some (s', _) => api_effect s s'
  | None => exists rest, data = 80 :: rest
  end.
Proof. apply api_command_total. Qed.

Lemma rig0_inv : rig_inv rig0.
Proof. split; [apply rig0_ok | reflexivity]. Qed.

Definition api_state0 : api_state :=
  Api rig0 true (ApiLocals (S754_zero false) (S754_zero false) 0) [].

Lemma api_command_safe_witness :
  match api_command (ApiTimes 1 2 3 4 5 6) (bytes "p" ++ [10]) api_state0 with
  | Some (s', _) => api_effect api_state0 s'
  | None => exists rest, bytes "p" ++ [10] = 80 :: rest
  end.
Proof.
  apply (api_command_safe (ApiTimes 1 2 3 4 5 6) (bytes "p" ++ [10]) api_state0);
    [apply rig0_inv | split; simpl; lia].
Defined.

(** The answer to a position query at 100 and 25 degrees. *)
Example api_report_example :
  (fun s => api_sent (fst s)) <$>
    api_command (ApiTimes 0 0 0 0 0 0) (bytes "p")
      (Api (Rig ctrl_state0 (MdeState 0 0 0 18205 0 0 false false false)
              (ImuState 0 0 0 2070 2070 2070 2070 4552 0 0) bucket0) true
         (ApiLocals (S754_zero false) (S754_zero false) 0) [])
  = Some [bytes "100.00" ++ [10] ++ bytes "25.00" ++ [10]].
Proof. vm_compute. reflexivity. Qed.

(** ** Flaws of the protocol *)

(** A stop command does not stop: it makes the raw sensor positions the
    targets, while the controllers compare the targets with the positions
    corrected by the calibration offsets, so the antenna is sent off by
    exactly these offsets. *)
Theorem api_stop_turns_by_offset (ts : api_times) (s : api_state) :
  rig_inv (api_rig s) ->
  let r := api_rig s in
  exists s', api_command ts [83] s = Some (s', false) /\
    let r' := api_rig s' in
    az_get_state r' = MOTOR_STATE_TARGET_POSITION /\
    el_get_state r' = MOTOR_STATE_TARGET_POSITION /\
    az_error r' = i16 (- enc_az_off (r_mde r)) /\ el_error r' = i16 (- imu_el_off (r_imu r)).
Proof.
  intros [(_ & Hm & Hi & _) _] r. apply mde_ok_spec in Hm. apply imu_ok_spec in Hi.
  eexists. split; [reflexivity|]. split; [reflexivity|]. split; [reflexivity|].
  unfold az_error, el_error. simpl. fold r.
  unfold mde_get_az_enc_pos, imu_get_el_pos. fold r in Hm, Hi.
  rewrite u16_id, (i16_id (imu_el_pos (r_imu r))) by lia. split; cint.
Qed.

Lemma api_stop_turns_by_offset_witness :
  exists s', api_command (ApiTimes 0 0 0 0 0 0) [83] api_state0 = Some (s', false) /\
    let r' := api_rig s' in
    az_get_state r' = MOTOR_STATE_TARGET_POSITION /\
    el_get_state r' = MOTOR_STATE_TARGET_POSITION /\
    az_error r' = i16 (- 0) /\ el_error r' = i16 (- 0).
Proof. apply (api_stop_turns_by_offset (ApiTimes 0 0 0 0 0 0) api_state0), rig0_inv. Defined.

Lemma at_off_at msg (i : nat) x : msg !! i = Some x -> at_off msg (Z.of_nat i) = x :: drop (S i) msg.
Proof. intros H. unfold at_off. rewrite Nat2Z.id. apply drop_S. exact H. Qed.

Lemma atoi_junk c rest : is_space c = false -> is_digit c = false -> c <> 45 -> c <> 43 ->
  atoi (c :: rest) = Some 0.
Proof.
  intros H1 H2 H3 H4. unfold atoi. cbn [skip_space]. rewrite H1.
  rewrite (proj2 (Z.eqb_neq c 45)), (proj2 (Z.eqb_neq c 43)) by assumption.
  cbn [read_digits]. rewrite H2. reflexivity.
Qed.

(** A position command whose numbers have no decimals is not rejected: its
    elevation is lost, and the antenna is sent to elevation zero. *)
Theorem api_whole_degrees_lose_elevation (a tail : list Z) (va c : Z) (rest : list Z) :
  int_text a va -> is_digit c = false ->
  let text := 80 :: 32 :: a ++ c :: tail in
  Forall (fun x => x <> 0) text -> Forall (fun x => is_separator x = false) (drop 2 text) ->
  (length text <= 124)%nat -> (length text + length rest = 124)%nat ->
  extract_numbers (text ++ 0 :: 0 :: 0 :: 0 :: rest) = Some (hundredths va 0, hundredths 0 0, true).
Proof.
  intros Ha Hc text Hnz Hsep Hl Hlr. unfold extract_numbers, extract_split, strlen.
  rewrite cstr_app by exact Hnz. cbn [mbind option_bind]. rewrite u8_id by lia.
  set (msg := text ++ 0 :: 0 :: 0 :: 0 :: rest). set (l := Z.of_nat (length text)).
  assert (Lm : length msg = 128%nat) by (unfold msg; rewrite length_app; simpl; simpl in Hlr; lia).
  assert (H2l : 2 <= l) by (unfold l, text; simpl length; lia).
  pose proof (scan_text is_separator msg text 2 (cstr_app _ _ Hnz) ltac:(lia) Hsep H2l) as E1.
  fold l in E1.
  assert (extract_field is_separator msg l 2 = Some (text ++ 95 :: 0 :: 0 :: 0 :: rest, l + 1)) as ->.
  { unfold extract_field. rewrite E1. cbn [mbind option_bind].
    rewrite wr_defined by lia. cbn [mbind option_bind]. rewrite u8_id by lia. do 2 f_equal.
    unfold l, msg. rewrite Nat2Z.id, <- (Nat.add_0_r (length text)), insert_app_r. reflexivity. }
  cbn [mbind option_bind].
  assert (Hw : forall x y z w stop, extract_field stop (text ++ x :: y :: z :: w :: rest) l (l + 1)
                 = Some (text ++ x :: 95 :: z :: w :: rest, l + 2)).
  { intros x y z w stop. rewrite extract_field_end by (rewrite ?length_app; simpl length in *; lia).
    rewrite u8_id by lia. f_equal. f_equal; [|lia].
    replace (Z.to_nat (l + 1)) with (length text + 1)%nat by lia. rewrite insert_app_r. reflexivity. }
  rewrite Hw. cbn [mbind option_bind]. clear Hw.
  assert (extract_field is_separator (text ++ 95 :: 95 :: 0 :: 0 :: rest) l (l + 2)
          = Some (text ++ 95 :: 95 :: 95 :: 0 :: rest, l + 3)) as ->.
  { rewrite extract_field_end by (rewrite ?length_app; simpl length in *; lia).
    rewrite u8_id by lia. f_equal. f_equal; [|lia].
    replace (Z.to_nat (l + 2)) with (length text + 2)%nat by lia. rewrite insert_app_r. reflexivity. }
  cbn [mbind option_bind]. rewrite (proj2 (Z.eqb_neq (l + 3) l)) by lia. cbn [negb].
  set (m := text ++ 95 :: 95 :: 95 :: 0 :: rest).
  assert (Hat : forall k x r', drop k (95 :: 95 :: 95 :: 0 :: rest) = x :: r' ->
                at_off m (l + Z.of_nat k) = x :: r').
  { intros k x r' <-. unfold at_off, m. replace (Z.to_nat _) with (length text + k)%nat by lia.
    rewrite drop_app_add. reflexivity. }
  assert (atoi (at_off m 2) = Some va) as ->.
  { change (at_off m 2) with ((a ++ c :: tail) ++ 95 :: 95 :: 95 :: 0 :: rest).
    rewrite <- app_assoc, <- app_comm_cons. apply int_text_atoi; assumption. }
  change 1 with (Z.of_nat 1). change 2 with (Z.of_nat 2). change 3 with (Z.of_nat 3).
  rewrite (Hat 1%nat 95 (95 :: 0 :: rest) eq_refl), (Hat 2%nat 95 (0 :: rest) eq_refl),
    (Hat 3%nat 0 rest eq_refl).
  rewrite !atoi_junk by (reflexivity || lia). reflexivity.
Qed.

Lemma api_whole_degrees_lose_elevation_witness :
  extract_numbers (bytes "P 180 45" ++ [10] ++ replicate 119 0)
  = Some (hundredths 180 0, hundredths 0 0, true).
Proof.
  apply (api_whole_degrees_lose_elevation (bytes "180") (bytes "45" ++ [10]) 180 32 (replicate 115 0));
    [ apply (int_text_digits 3); [apply digits_dec; reflexivity | lia]
    | reflexivity | vm_compute; repeat constructor; discriminate | vm_compute; repeat constructor
    | vm_compute; lia | vm_compute; lia ].
Defined.

(** The fraction of a negative angle counts upward: -c.d is read as
    -c + 0.d degrees. *)
Theorem api_negative_fraction (a b c d tail rest : list Z) (na nb nc nd : nat) :
  digits na a -> digits nb b -> digits nc c -> digits nd d ->
  (1 <= na <= 9)%nat -> (1 <= nb <= 9)%nat -> (1 <= nc <= 9)%nat -> (1 <= nd <= 9)%nat ->
  line_tail tail -> (length (position_text a b (45%Z :: c) d tail 46%Z 46%Z) <= 127)%nat ->
  extract_numbers (position_text a b (45 :: c) d tail 46 46 ++ 0 :: rest)
  = Some (hundredths (digits_value 0 a) (digits_value 0 b),
          hundredths (- digits_value 0 c) (digits_value 0 d), true).
Proof.
  intros Ha Hb Hc Hd La Lb Lc Ld Ht Hl.
  apply (extract_numbers_value a b (45 :: c) d tail 46 46);
    [eapply int_text_digits; eassumption | eapply int_text_digits; eassumption |
     exists nc, c; auto | eapply int_text_digits; eassumption | exact Ht | left; reflexivity |
     left; reflexivity | lia].
Qed.

(** -5.50 is read as -4.5. *)
Lemma api_negative_fraction_witness :
  extract_numbers (bytes "P 10.00 -5.50" ++ replicate 115 0)
  = Some (hundredths 10 0, s_of_d (d_lit (-45) 10), true).
Proof.
  change (s_of_d (d_lit (-45) 10)) with (hundredths (-5) 50).
  apply (api_negative_fraction (bytes "10") (bytes "00") (bytes "5") (bytes "50") []
           (replicate 114 0) 2 2 1 2); try lia; try (apply digits_dec; reflexivity);
    try (vm_compute; lia).
  split; [constructor | intros x t [=]].
Defined.

(** Two position commands in quick succession are undefined behaviour when
    they are far apart: a command of 90 degrees a tenth of a second after one of
    0 degrees implies a speed that does not fit the [int16_t] it is stored in. *)
Theorem api_fast_turn_undefined (ts : api_times) (s : api_state) :
  last_az (api_loc s) = S754_zero false ->
  u32 (ta_check ts - last_cmd (api_loc s)) = 10000 ->
  u32 (ta_az_spd ts - last_cmd (api_loc s)) = 10000 ->
  api_command ts (bytes "P 90.00 0.00" ++ [10]) s = None.
Proof.
  intros H1 H2 H3. unfold api_command.
  change (bytes "P 90.00 0.00" ++ [10]) with (80 :: bytes " 90.00 0.00" ++ [10]). cbv iota.
  destruct (api_buffer (80 :: bytes " 90.00 0.00" ++ [10])) as [buf|] eqn:E; [|reflexivity].
  cbn [mbind option_bind]. change (80 =? 112) with false. change (80 =? 80) with true. cbv iota.
  unfold api_set_position.
  assert (extract_numbers buf = Some (hundredths 90 0, hundredths 0 0, true)) as ->.
  { vm_compute in E. injection E as <-. vm_compute. reflexivity. }
  cbn [mbind option_bind negb].
  assert (f_to_u 16 (units (hundredths 90 0)) = Some 16383) as -> by (vm_compute; reflexivity).
  assert (f_to_s 16 (units (hundredths 0 0)) = Some 0) as -> by (vm_compute; reflexivity).
  cbn [mbind option_bind]. unfold api_speed_hint. cbn [api_loc on_rig]. rewrite H1, H2, H3.
  assert (api_speed (hundredths 90 0) (S754_zero false) 10000 = None) as -> by (vm_compute; reflexivity).
  reflexivity.
Qed.

Lemma api_fast_turn_undefined_witness :
  api_command (ApiTimes 0 0 10000 10000 10000 10000) (bytes "P 90.00 0.00" ++ [10]) api_state0 = None.
Proof. apply (api_fast_turn_undefined (ApiTimes 0 0 10000 10000 10000 10000) api_state0); reflexivity. Defined.
