(* ===== verification/Http.v ===== *)
(** * The HTTP server (http.c)

    One request per connection: the dispatcher recognises it by its prefix,
    calls the setter it names or prints the state as JSON, and answers.  A
    request is the memory of the first network buffer; reading past its end is
    undefined.  The three static replies (page, script, icon) are named, not
    spelled out. *)

From S2P Require Import Prelude CInt CFloat CLib Chtime Mde Imu Debug Chprintf Ctrl.
From S2P Require Import Ocxo Gps I2c Ina3221 Api.
From Stdlib Require Import SpecFloat.

(** ** The state the server works on *)

(** Everything the other modules keep, and the three power switches. *)
Record station := Station {
  st_rig : rig;
  st_ocxo : ocxo_state;
  st_gps : gps_state;
  st_mons : ina3221_mons;
  st_connected : bool;      (* api.c *)
  st_pwr_lna : bool;
  st_pwr_ext5 : bool;
  st_pwr_ext24 : bool
}.

Definition with_rig (r : rig) (s : station) : station :=
  Station r (st_ocxo s) (st_gps s) (st_mons s) (st_connected s) (st_pwr_lna s) (st_pwr_ext5 s)
    (st_pwr_ext24 s).
Definition on_st_rig (f : rig -> rig) (s : station) : station := with_rig (f (st_rig s)) s.

(** [palWriteLine] on one of the power lines. *)
Definition set_pwr_lna (b : bool) (s : station) : station :=
  Station (st_rig s) (st_ocxo s) (st_gps s) (st_mons s) (st_connected s) b (st_pwr_ext5 s)
    (st_pwr_ext24 s).
Definition set_pwr_ext5 (b : bool) (s : station) : station :=
  Station (st_rig s) (st_ocxo s) (st_gps s) (st_mons s) (st_connected s) (st_pwr_lna s) b
    (st_pwr_ext24 s).
Definition set_pwr_ext24 (b : bool) (s : station) : station :=
  Station (st_rig s) (st_ocxo s) (st_gps s) (st_mons s) (st_connected s) (st_pwr_lna s)
    (st_pwr_ext5 s) b.

(** What is written to the connection: bytes, or one of the static texts. *)
Inductive reply :=
| RBytes (b : list Z)
| RPage
| RJquery
| RFavicon.

(** [HTTP_PRINT] of a literal. *)
Definition HTTP_PRINT (str : list Z) : list reply := [RBytes str; RBytes [10]].

(** The bytes of a literal in which a backtick stands for a double quote. *)
Definition jbytes (s : string) : list Z := (fun c => if c =? 96 then 34 else c) <$> bytes s.

Definition crlf : list Z := [13; 10].

Definition print_ack : list reply :=
  HTTP_PRINT (bytes "HTTP/1.1 200 OK" ++ crlf ++ bytes "Content-type: text/plain" ++ crlf ++ crlf
              ++ bytes "OK").

(** [HTTP_PRINT_COPY(str)]: the string up to its terminator. *)
Definition HTTP_PRINT_COPY (str : list Z) : option (list reply) :=
  n ← strlen str; Some [RBytes (take (Z.to_nat n) str); RBytes [10]].

Definition print_debug (s : station) : option (station * list reply) :=
  let r := st_rig s in
  '(str, bucket) ← debug_emty_bucket (replicate 4096 0) (r_bucket r);
  body ← HTTP_PRINT_COPY str;
  Some (with_rig (Rig (r_ctrl r) (r_mde r) (r_imu r) bucket) s,
        HTTP_PRINT (bytes "HTTP/1.1 200 OK" ++ crlf ++ bytes "Content-type: text/plain" ++ crlf)
        ++ body).

(** ** The state as JSON *)

Definition MOTOR_STATE (m : motor_state) : list Z :=
  match m with
  | MOTOR_STATE_CONST_TORQUE => fmt_of "CONST_TORQUE"
  | MOTOR_STATE_CONST_SPEED => fmt_of "CONST_SPEED"
  | MOTOR_STATE_TARGET_POSITION => fmt_of "TARGET_POSITION"
  end.

(** [len += chsnprintf(&buf[len], sizeof(buf)-len, fmt, ...)]. *)
Definition json_append (b : list Z * Z) (part : list Z * list va) : option (list Z * Z) :=
  let '(buf, len) := b in
  '(sub, n) ← chvsnprintf (at_off buf len) (u32 (1024 - len)) (fst part) (snd part);
  Some (take (Z.to_nat len) buf ++ sub, u32 (len + n)).

Fixpoint json_print (parts : list (list Z * list va)) (b : list Z * Z) : option (list Z * Z) :=
  match parts with
  | [] => Some b
  | p :: parts' => b ← json_append b p; json_print parts' b
  end.

Definition json_mde (m : mde_state) : list Z * list va :=
  (jbytes "{`mde`:{`mot`:[%d,%d,%d],`enc`:{`pos`:%d,`spd`:%d,`off`:%d}}," ++ [0],
   [VInt (mde_get_trq_az m); VInt (mde_get_trq_el m); VInt (mde_get_trq_sk m);
    VInt (mde_get_az_enc_pos m); VInt (mde_get_az_enc_spd m); VInt (mde_get_az_enc_off m)]).

Definition json_imu (i : imu_state) : list Z * list va :=
  (jbytes "`imu`:{`accel`:[%d,%d,%d],`rot`:[%d,%d,%d],`el`:{`pos`:%d,`spd`:%d,`off`:%d}}," ++ [0],
   [VInt (imu_get_accel_x i); VInt (imu_get_accel_y i); VInt (imu_get_accel_z i);
    VInt (imu_get_rot_x i); VInt (imu_get_rot_y i); VInt (imu_get_rot_z i);
    VInt (imu_get_el_pos i); VInt (imu_get_el_spd i); VInt (imu_get_el_off i)]).

Definition json_ctrl (r : rig) : list Z * list va :=
  (jbytes "`ctrl`:{`state`:[`%s`,`%s`,`%s`],`tgt`:[%d,%d,%d]}," ++ [0],
   [VStr (Some (MOTOR_STATE (az_get_state r))); VStr (Some (MOTOR_STATE (el_get_state r)));
    VStr (Some (MOTOR_STATE (sk_get_state r)));
    VInt (az_get_tgt_pos r); VInt (el_get_tgt_pos r); VInt (sk_get_tgt_pos r)]).

(** The reading left in the variable, whatever the message. *)
Definition reading (ms : ina3221_mons) (p : mon_port_t) (c : mon_compute_t) : option Z :=
  '(_, v) ← ina3221_get_current_reading ms p c; Some v.

Definition json_pwr (ms : ina3221_mons) : option (list Z * list va) :=
  ext5_v ← reading ms MON_PORT_1 MON_NMVOLT;
  ext5_p ← reading ms MON_PORT_1 MON_NMWATT;
  ext24_v ← reading ms MON_PORT_2 MON_NMVOLT;
  ext24_p ← reading ms MON_PORT_2 MON_NMWATT;
  mde_v ← reading ms MON_PORT_3 MON_NMVOLT;
  mde_p ← reading ms MON_PORT_3 MON_NMWATT;
  lna1_v ← reading ms MON_PORT_4 MON_NMVOLT;
  lna1_p ← reading ms MON_PORT_4 MON_NMWATT;
  lna2_v ← reading ms MON_PORT_5 MON_NMVOLT;
  lna2_p ← reading ms MON_PORT_5 MON_NMWATT;
  ocxo_v ← reading ms MON_PORT_6 MON_NMVOLT;
  ocxo_p ← reading ms MON_PORT_6 MON_NMWATT;
  Some (jbytes "`pwr`:{`ext5`:[%d,%d],`ext24`:[%d,%d],`mde`:[%d,%d],`ocxo`:[%d,%d],`lna1`:[%d,%d],`lna2`:[%d,%d]}," ++ [0],
    [VInt ext5_v; VInt ext5_p; VInt ext24_v; VInt ext24_p; VInt mde_v; VInt mde_p;
     VInt ocxo_v; VInt (- ocxo_p); VInt lna1_v; VInt lna1_p; VInt lna2_v; VInt lna2_p]).

Definition json_gps (now : Z) (g : gps_state) (o : ocxo_state) : list Z * list va :=
  let '(date, time, lat, lon, alt, sats, sats_sol, pulse) := get_gps_data now g o in
  (jbytes "`gps`:{`date`:%d,`time`:%d,`lat`:%.5f,`lon`:%.5f,`alt`:%d,`sats`:%d,`sats_sol`:%d,`pulse`:%d}," ++ [0],
   [VInt date; VInt time; VDouble (d_of_s lat); VDouble (d_of_s lon); VInt alt; VInt sats;
    VInt sats_sol; VInt (b2z pulse)]).

Definition json_ocxo (o : ocxo_state) : list Z * list va :=
  (jbytes "`ocxo`:{`cntr`:%d,`dac`:%d}," ++ [0], [VInt (ocxo_get_cntr o); VInt (ocxo_get_dac_val o)]).

Definition json_misc (connected : bool) (now : Z) : list Z * list va :=
  (jbytes "`api_connected`:%d,`time`:%d}" ++ [0], [VInt (b2z connected); VInt now]).

Definition json_parts (now_gps now : Z) (s : station) : option (list (list Z * list va)) :=
  pwr ← json_pwr (st_mons s);
  Some [json_mde (r_mde (st_rig s)); json_imu (r_imu (st_rig s)); json_ctrl (st_rig s); pwr;
        json_gps now_gps (st_gps s) (st_ocxo s); json_ocxo (st_ocxo s);
        json_misc (st_connected s) now].

(** [now_gps] and [now] are the two readings of the clock. *)
Definition print_json (now_gps now : Z) (s : station) : option (list reply) :=
  parts ← json_parts now_gps now s;
  '(buf, _) ← json_print parts (replicate 1024 0, 0);
  body ← HTTP_PRINT_COPY buf;
  Some (HTTP_PRINT (bytes "HTTP/1.1 200 OK" ++ crlf ++ bytes "Content-type: application/json"
                    ++ crlf ++ crlf) ++ body).

(** ** The dispatcher *)

(** [strncmp((char* )data, lit, n) == 0] with [n] the literal's length. *)
Definition starts (data : list Z) (lit : string) : option bool :=
  strncmp_eq data (bytes lit ++ [0]) (length (bytes lit)).

(** A setter whose argument follows the prefix. *)
Definition http_set (data : list Z) (off : Z) (f : Z -> station -> station) (s : station)
  : option (station * list reply) :=
  v ← atoi (at_off data off); Some (f v s, print_ack).

(** A switch: any number but zero is on. *)
Definition http_switch (data : list Z) (off : Z) (f : bool -> station -> station) :=
  http_set data off (fun v => f (negb (v =? 0))).

Definition mde_switch (b : bool) : station -> station :=
  on_st_rig (on_mde (if b then mde_power_up else mde_power_down)).

(** The request table: each entry is tried in order; the clock is read at most
    twice, at [now] and [now']. *)
Definition http_handlers (now now' : Z) (data : list Z) (s : station)
  : list (string * option (station * list reply)) :=
  [("GET /state.json"%string, r ← print_json now now' s; Some (s, r));
   ("GET /favicon.ico"%string, Some (s, [RFavicon]));
   ("GET /jquery.js"%string,
      Some (s, HTTP_PRINT (bytes "HTTP/1.1 200 OK" ++ crlf ++ bytes "Content-type: text/javascript"
                           ++ crlf ++ crlf) ++ [RJquery; RBytes [10]]));
   ("GET / "%string, Some (s, [RPage; RBytes [10]]));
   ("GET /set/trq/az/"%string, http_set data 16 (fun v => on_st_rig (az_set_const_trq v)) s);
   ("GET /set/trq/el/"%string, http_set data 16 (fun v => on_st_rig (el_set_const_trq v)) s);
   ("GET /set/trq/sk/"%string, http_set data 16 (fun v => on_st_rig (sk_set_const_trq v)) s);
   ("GET /set/tar/az/"%string, http_set data 16 (fun v => on_st_rig (az_set_tgt_pos now v)) s);
   ("GET /set/tar/el/"%string, http_set data 16 (fun v => on_st_rig (el_set_tgt_pos now v)) s);
   ("GET /set/tar/sk/"%string, http_set data 16 (fun v => on_st_rig (sk_set_tgt_pos v)) s);
   ("GET /set/off/az/"%string, http_set data 16 (fun v => on_st_rig (on_mde (mde_set_az_enc_off v))) s);
   ("GET /set/off/el/"%string, http_set data 16 (fun v => on_st_rig (on_imu (imu_set_el_off v))) s);
   ("GET /sw/lna/"%string, http_switch data 12 set_pwr_lna s);
   ("GET /sw/mde/"%string, http_switch data 12 mde_switch s);
   ("GET /sw/ext5/"%string, http_switch data 13 set_pwr_ext5 s);
   ("GET /sw/ext24/"%string, http_switch data 14 set_pwr_ext24 s);
   ("GET /calibrate"%string, Some (on_st_rig az_calibrate s, print_ack));
   ("GET /debug"%string, print_debug s)].

Definition not_found : list reply :=
  HTTP_PRINT (bytes "HTTP/1.1 404 Not Found" ++ crlf)
  ++ HTTP_PRINT (bytes "404 Not Found" ++ crlf ++ crlf).

Fixpoint http_dispatch (hs : list (string * option (station * list reply))) (data : list Z)
    (s : station) : option (station * list reply) :=
  match hs with
  | [] => Some (s, not_found)
  | (lit, h) :: hs' =>
      m ← starts data lit;
      if m : bool then h else http_dispatch hs' data s
  end.

(** [server_serve] on the data of the first buffer; when nothing was received
    the connection is only closed. *)
Definition http_server_serve (now now' : Z) (recv : option (list Z)) (s : station)
  : option (station * list reply) :=
  match recv with
  | None => Some (s, [])
  | Some data => http_dispatch (http_handlers now now' data s) data s
  end.

(** ** Invariant *)

Definition station_ok (s : station) : Prop :=
  rig_inv (st_rig s) /\ (gps_ok (st_gps s) /\ ocxo_ok (st_ocxo s)) /\ mons_ok (st_mons s).

(** The 32-bit numbers of the state page, the date and the time of the last
    sentences and the tick counter, can be printed with [%d]: none is the least
    [long]. *)
Definition page_printable (now : Z) (s : station) : Prop :=
  printable (m_date (st_gps s)) /\ printable (m_time (st_gps s)) /\ printable now.

#[export] Instance page_printable_dec now s : Decision (page_printable now s).
Proof. unfold page_printable, printable. exact _. Defined.

(** A request may change the rig the way the network threads may, and the power
    switches; the other modules' state is only read. *)
Record station_effect (s s' : station) : Prop := StationEffect {
  se_rig : client_effect (st_rig s) (st_rig s');
  se_ocxo : st_ocxo s' = st_ocxo s;
  se_gps : st_gps s' = st_gps s;
  se_mons : st_mons s' = st_mons s;
  se_connected : st_connected s' = st_connected s
}.

Lemma station_effect_ok s s' : station_ok s -> station_effect s s' -> station_ok s'.
Proof.
  intros (_ & Hg & Hm) [He E0 E1 E2 _]. unfold station_ok. rewrite E0, E1, E2.
  split; [apply (ce_inv _ _ He)|]. split; [exact Hg | exact Hm].
Qed.

Lemma on_st_rig_effect f s :
  client_effect (st_rig s) (f (st_rig s)) -> station_effect s (on_st_rig f s).
Proof. intros H. split; auto. Qed.

Lemma set_pwr_effect b s :
  station_ok s ->
  station_effect s (set_pwr_lna b s) /\ station_effect s (set_pwr_ext5 b s) /\
  station_effect s (set_pwr_ext24 b s).
Proof.
  intros (Hr & _). split_and!; (split; [apply client_effect_refl, Hr | reflexivity..]).
Qed.

(** ** The JSON text is complete *)

(** A part of the text whose length is bounded by looking at its format. *)
Definition part_bound (p : list Z * list va) (n : nat) : Prop :=
  exists cs, format_bound (length (fst p)) (fst p) cs = Some n /\ Forall2 va_in cs (snd p).

Definition part_text (p : list Z * list va) (out : list Z) : Prop :=
  format_text (length (fst p)) (fst p) (snd p) = Some out.

Lemma json_append_text pre rest p n :
  let buf := pre ++ rest in
  length buf = 1024%nat -> part_bound p n -> (length pre + n < 1024)%nat ->
  exists out rest', json_append (buf, Z.of_nat (length pre)) p
                    = Some ((pre ++ out) ++ 0 :: rest', Z.of_nat (length (pre ++ out))) /\
    part_text p out /\ (length out <= n)%nat /\ text_bytes out /\
    length ((pre ++ out) ++ 0 :: rest') = 1024%nat.
Proof.
  intros buf Hl (cs & Hb & Hin) Hn. unfold buf in *. rewrite length_app in Hl.
  unfold json_append. rewrite u32_id by lia.
  assert (at_off (pre ++ rest) (Z.of_nat (length pre)) = rest) as ->
    by (unfold at_off; rewrite Nat2Z.id; apply drop_app_length).
  destruct (chvsnprintf_text rest (1024 - Z.of_nat (length pre)) (fst p) cs (snd p) n)
    as (out & Ht & Hlo & Hbo & E); [lia|lia|lia|exact Hb|exact Hin|].
  rewrite take_ge in E by lia. rewrite E. cbn [mbind option_bind].
  rewrite Nat2Z.id, take_app_length, app_assoc, <- Nat2Z.inj_add, u32_id by lia.
  exists out, (drop (S (length out)) rest). rewrite (length_app pre out).
  split; [reflexivity|]. split; [exact Ht|]. split; [exact Hlo|]. split; [exact Hbo|].
  rewrite !length_app. simpl. rewrite length_drop. lia.
Qed.

Lemma json_print_text parts : forall ns pre rest,
  Forall2 part_bound parts ns ->
  length (pre ++ 0 :: rest) = 1024%nat -> (length pre + sum_list ns < 1024)%nat ->
  exists outs rest', json_print parts (pre ++ 0 :: rest, Z.of_nat (length pre))
      = Some ((pre ++ concat outs) ++ 0 :: rest', Z.of_nat (length (pre ++ concat outs))) /\
    Forall2 part_text parts outs /\ (length (concat outs) <= sum_list ns)%nat /\
    text_bytes (concat outs).
Proof.
  induction parts as [|p parts IH]; intros ns pre rest Hb Hl Hn.
  - exists [], rest. simpl. rewrite app_nil_r. split_and!; try constructor. lia.
  - destruct ns as [|n ns']; [inversion Hb|]. apply Forall2_cons in Hb as [Hp Hps].
    change (sum_list (n :: ns')) with (n + sum_list ns')%nat in *.
    assert (Hn1 : (length pre + n < 1024)%nat) by lia.
    destruct (json_append_text pre (0 :: rest) p n Hl Hp Hn1)
      as (out & rest1 & E & Ht & Hlo & Hbo & Hl1).
    destruct (IH ns' (pre ++ out) rest1 Hps Hl1) as (outs & rest' & E' & Hts & Hls & Hbs);
      [rewrite length_app; lia|].
    exists (out :: outs), rest'. cbn [json_print]. rewrite E. cbn [mbind option_bind].
    rewrite E'. simpl concat. rewrite <- !app_assoc. split; [reflexivity|].
    split; [constructor; assumption|]. split; [rewrite length_app; lia|].
    apply Forall_app. auto.
Qed.

Lemma motor_state_arg m : va_in (KStr 15) (VStr (Some (MOTOR_STATE m))).
Proof.
  destruct m; (eexists; split; [reflexivity|]); (split; [vm_compute; lia|]); vm_compute;
    repeat constructor.
Qed.

Lemma mon_of_port_ok ms p m : mons_ok ms -> mon_of_port ms p = Some m -> mon_ok m.
Proof. intros (? & ? & ? & ? & ? & ?). destruct p; simpl; intros [= <-]; assumption. Qed.

Lemma reading_Some ms p c :
  mons_ok ms -> exists v, reading ms p c = Some v /\ Z.abs v <= 536871.
Proof.
  intros H. pose proof (reading_value ms p c H) as Hr. unfold reading.
  destruct (mon_of_port ms p) as [m|] eqn:Ep.
  - destruct Hr as (v & -> & Hv). exists v. split; [reflexivity|].
    destruct (mon_of_port_ok ms p m H Ep). destruct c; [subst v|]; lia.
  - destruct Hr as [_ ->]. exists (-1). split; [reflexivity | lia].
Qed.

Lemma json_pwr_Some ms : mons_ok ms -> exists p, json_pwr ms = Some p /\ part_bound p 206.
Proof.
  intros H. unfold json_pwr.
  repeat lazymatch goal with
  | |- context [reading ?a ?b ?c] =>
      let v := fresh "v" in let Hv := fresh "Hv" in
      destruct (reading_Some a b c H) as (v & -> & Hv); cbn [mbind option_bind]
  end.
  eexists. split; [reflexivity|]. exists (replicate 12 KInt).
  split; [vm_compute; reflexivity|]. repeat (constructor; [apply printable_range; lia|]). constructor.
Qed.

Lemma b2z_printable b : printable (b2z b).
Proof. destruct b; discriminate. Qed.

Lemma printable_within lo z hi :
  lo <= z < hi -> -2147483648 < lo -> hi <= 2147483648 -> printable z.
Proof. intros Hz Hlo Hhi. apply printable_range. lia. Qed.

(** The bound of a part, by evaluating its format. *)
Ltac va_printable :=
  solve [assumption | eapply printable_within; [eassumption | lia | lia] | apply b2z_printable].
Ltac va_printables := repeat (constructor; [va_printable|]); constructor.
Ltac part_bound cs := exists cs; split; [vm_compute; reflexivity | va_printables].

Lemma json_parts_bound now now' s :
  station_ok s -> page_printable now' s ->
  exists parts, json_parts now now' s = Some parts /\
    Forall2 part_bound parts [115; 159; 117; 206; 182; 46; 47]%nat.
Proof.
  intros ([(Hrc & Hrm & Hri & _) _] & [([Hlat Hlon] & Halt & Hs1 & Hs2) (Ho & Hv & _)] & Hm) (Hdate & Htime & Hnow).
  apply ctrl_ok_spec in Hrc as ((_ & ? & _) & (_ & ? & _) & ? & _).
  apply mde_ok_spec in Hrm as (? & ? & ? & ? & ? & ?).
  apply imu_ok_spec in Hri as ((? & ? & ?) & (? & ? & ? & ?) & ? & ? & ?).
  destruct (json_pwr_Some _ Hm) as (p & Hp & Hb).
  unfold json_parts. rewrite Hp. cbn [mbind option_bind]. eexists. split; [reflexivity|].
  constructor; [part_bound (replicate 6 KInt)|].
  constructor; [part_bound (replicate 9 KInt)|].
  constructor.
  { exists [KStr 15; KStr 15; KStr 15; KInt; KInt; KInt]. split; [vm_compute; reflexivity|].
    repeat (constructor; [apply motor_state_arg|]).
    va_printables. }
  constructor; [exact Hb|].
  constructor.
  { exists [KInt; KInt; KDouble; KDouble; KInt; KInt; KInt; KInt]. split; [vm_compute; reflexivity|].
    assert (Hd : forall x, fle 16777215 2 x -> va_in KDouble (VDouble (d_of_s x))).
    { intros x Hx. apply d_of_s_fle; [|lia|lia].
      apply (fle_le 2 16777215 2); [lia|lia|easy|exact Hx]. }
    do 2 (constructor; [va_printable|]). do 2 (constructor; [apply Hd; assumption|]).
    va_printables. }
  apply printable_range in Ho.
  constructor; [part_bound (replicate 2 KInt)|].
  constructor; [part_bound (replicate 2 KInt)|]. constructor.
Qed.

Lemma print_json_text (now now' : Z) (s : station) :
  station_ok s -> page_printable now' s ->
  exists parts outs, json_parts now now' s = Some parts /\
    Forall2 part_text parts outs /\ (length (concat outs) <= 872)%nat /\
    print_json now now' s =
    Some (HTTP_PRINT (bytes "HTTP/1.1 200 OK" ++ crlf ++ bytes "Content-type: application/json"
                      ++ crlf ++ crlf) ++ [RBytes (concat outs); RBytes [10]]).
Proof.
  intros Hok Hpr. destruct (json_parts_bound now now' s Hok Hpr) as (parts & Hp & Hb).
  destruct (json_print_text parts _ [] (replicate 1023 0) Hb)
    as (outs & rest & E & Ht & Hl & Hbs); [reflexivity | vm_compute; lia|].
  exists parts, outs. split; [exact Hp|]. split; [exact Ht|]. split; [exact Hl|].
  unfold print_json. rewrite Hp. cbn [mbind option_bind].
  change (json_print parts (replicate 1024 0, 0))
    with (json_print parts ([] ++ 0 :: replicate 1023 0, Z.of_nat (length (@nil Z)))).
  rewrite E. cbn [mbind option_bind].
  rewrite app_nil_l. unfold HTTP_PRINT_COPY, strlen.
  rewrite cstr_app by (apply text_bytes_nonzero; exact Hbs). cbn [mbind option_bind].
  rewrite Nat2Z.id, take_app_length. reflexivity.
Qed.

(** C37: the state page always fits: whatever the state, unless a number to be
    printed is the least 32-bit integer, whose negation [%d] leaves undefined
    (the date or time of a sentence, or the tick counter itself, at the one tick
    2^31), the seven parts are printed one behind the other into the 1024-byte buffer without truncation,
    and what is sent is the header and exactly the concatenation of the parts,
    at most 872 bytes. *)
Theorem http_state_json (now now' : Z) (s : station) :
  station_ok s -> page_printable now' s ->
  exists parts outs, json_parts now now' s = Some parts /\
    Forall2 part_text parts outs /\ (length (concat outs) <= 872)%nat /\
    print_json now now' s =
    Some (HTTP_PRINT (bytes "HTTP/1.1 200 OK" ++ crlf ++ bytes "Content-type: application/json"
                      ++ crlf ++ crlf) ++ [RBytes (concat outs); RBytes [10]]).
Proof. apply print_json_text. Qed.

Definition station0 : station :=
  Station rig0 ocxo_state0 gps_state0 mons0 false false false false.

Lemma station0_ok : station_ok station0.
Proof.
  split; [apply rig0_inv|]. split; [|repeat split; simpl; lia].
  split; [split; [split; exact I|] | split; [|split; [|split_and!; reflexivity]]]; simpl; lia.
Qed.

Lemma http_state_json_witness :
  exists parts outs, json_parts 5 6 station0 = Some parts /\
    Forall2 part_text parts outs /\ (length (concat outs) <= 872)%nat /\
    print_json 5 6 station0 =
    Some (HTTP_PRINT (bytes "HTTP/1.1 200 OK" ++ crlf ++ bytes "Content-type: application/json"
                      ++ crlf ++ crlf) ++ [RBytes (concat outs); RBytes [10]]).
Proof.
  apply (http_state_json 5 6 station0); [exact station0_ok | repeat split; discriminate].
Defined.

(** ** Dispatch *)

Lemma dispatch_skip lit h hs data s :
  starts data lit = Some false -> http_dispatch ((lit, h) :: hs) data s = http_dispatch hs data s.
Proof. intros E. simpl. rewrite E. reflexivity. Qed.

Lemma dispatch_hit lit h hs data s :
  starts data lit = Some true -> http_dispatch ((lit, h) :: hs) data s = h.
Proof. intros E. simpl. rewrite E. reflexivity. Qed.

Lemma starts_self (lit : string) rest :
  forallb (fun b => negb (b =? 0)) (bytes lit) = true -> starts (bytes lit ++ rest) lit = Some true.
Proof.
  intros H. apply strncmp_eq_prefix. rewrite forallb_forall in H. apply Forall_forall.
  intros x Hx. apply list_elem_of_In in Hx. specialize (H x Hx). bools. assumption.
Qed.

(** The commands of the interface that carry a number. *)
Inductive http_command :=
| SetTrqAz | SetTrqEl | SetTrqSk | SetTarAz | SetTarEl | SetTarSk | SetOffAz | SetOffEl
| SwLna | SwMde | SwExt5 | SwExt24.

Definition command_path (c : http_command) : list Z :=
  bytes match c with
        | SetTrqAz => "GET /set/trq/az/" | SetTrqEl => "GET /set/trq/el/"
        | SetTrqSk => "GET /set/trq/sk/" | SetTarAz => "GET /set/tar/az/"
        | SetTarEl => "GET /set/tar/el/" | SetTarSk => "GET /set/tar/sk/"
        | SetOffAz => "GET /set/off/az/" | SetOffEl => "GET /set/off/el/"
        | SwLna => "GET /sw/lna/" | SwMde => "GET /sw/mde/"
        | SwExt5 => "GET /sw/ext5/" | SwExt24 => "GET /sw/ext24/"
        end.

(** What each of them is for. *)
Definition command_effect (now : Z) (c : http_command) (v : Z) (s : station) : station :=
  match c with
  | SetTrqAz => on_st_rig (az_set_const_trq (i8 v)) s
  | SetTrqEl => on_st_rig (el_set_const_trq (i8 v)) s
  | SetTrqSk => on_st_rig (sk_set_const_trq (i8 v)) s
  | SetTarAz => on_st_rig (az_set_tgt_pos now (u16 v)) s
  | SetTarEl => on_st_rig (el_set_tgt_pos now (i16 v)) s
  | SetTarSk => on_st_rig (sk_set_tgt_pos (i16 v)) s
  | SetOffAz => on_st_rig (on_mde (mde_set_az_enc_off (u16 v))) s
  | SetOffEl => on_st_rig (on_imu (imu_set_el_off (i16 v))) s
  | SwLna => set_pwr_lna (negb (v =? 0)) s
  | SwMde => on_st_rig (on_mde (if v =? 0 then mde_power_down else mde_power_up)) s
  | SwExt5 => set_pwr_ext5 (negb (v =? 0)) s
  | SwExt24 => set_pwr_ext24 (negb (v =? 0)) s
  end.

(** C13: every numbered command of the web interface reaches its own handler and
    does what its path says with the number behind it: the torques, targets and
    offsets are set (modulo the width of their type), the power switches follow
    "not zero", and the answer is the acknowledgement. *)
Theorem http_command_effect (now now' : Z) (s : station) (c : http_command) (t : list Z) (v x : Z)
    (rest : list Z) :
  int_text t v -> is_digit x = false ->
  http_server_serve now now' (Some (command_path c ++ t ++ x :: rest)) s
  = Some (command_effect now c v s, print_ack).
Proof.
  intros Ht Hx. pose proof (int_text_atoi t v x rest Ht Hx) as Ha. set (tl := t ++ x :: rest) in *.
  assert (Hs : forall off f, http_set (command_path c ++ tl) off f s
      = (v ← atoi (at_off (command_path c ++ tl) off); Some (f v s, print_ack))) by reflexivity.
  unfold http_server_serve, http_handlers.
  destruct c; repeat (rewrite dispatch_skip by reflexivity); 
    rewrite dispatch_hit by (apply starts_self; reflexivity);
    unfold http_switch; rewrite Hs;
    lazymatch goal with |- context [at_off ?d ?n] => change (at_off d n) with tl end;
    rewrite Ha; cbn [mbind option_bind];
    unfold command_effect, az_set_const_trq, el_set_const_trq, sk_set_const_trq, az_set_tgt_pos,
      el_set_tgt_pos, sk_set_tgt_pos, mde_set_az_enc_off, imu_set_el_off, mde_switch;
    rewrite ?wraps_idem, ?wrapu_idem by lia; try reflexivity.
  destruct (v =? 0); reflexivity.
Qed.

Lemma http_command_effect_witness :
  http_server_serve 7 8 (Some (bytes "GET /set/trq/az/-20 HTTP/1.1")) station0
  = Some (on_st_rig (az_set_const_trq (i8 (-20))) station0, print_ack).
Proof.
  apply (http_command_effect 7 8 station0 SetTrqAz (bytes "-20") (-20) 32 (bytes "HTTP/1.1"));
    [|reflexivity].
  exists 2%nat, (bytes "20"). split; [apply digits_dec; reflexivity|]. split; [lia|].
  right. split; reflexivity.
Defined.

(** ** Safety *)

Lemma strncmp_eq_None lit : forall data,
  strncmp_eq data (lit ++ [0]) (length lit) = None -> (length data < length lit)%nat.
Proof.
  induction lit as [|b lit IH]; intros data H; [destruct data; discriminate|].
  destruct data as [|x data]; [simpl; lia|]. simpl in H |- *.
  destruct (x =? b); [|discriminate]. destruct (x =? 0); [discriminate|].
  specialize (IH data H). lia.
Qed.

(** The argument of a command cannot be read. *)
Definition bad_argument (data : list Z) : Prop :=
  exists off, In off [12; 13; 14; 16] /\ atoi (at_off data off) = None.

(** What makes a request undefined: it is shorter than the longest path, its
    argument cannot be read, or it asks for the state page when a number on it
    cannot be printed. *)
Definition bad_request (now : Z) (data : list Z) (s : station) : Prop :=
  (length data < 16)%nat \/ bad_argument data \/
  (starts data "GET /state.json" = Some true /\ ~ page_printable now s).

(** A handler's effect is a permitted one, or its argument cannot be read, or it
    is that of the state page. *)
Definition handler_ok (now : Z) (data : list Z) (s : station)
    (h : string * option (station * list reply)) : Prop :=
  match snd h with
  | Some (s', _) => station_effect s s'
  | None => bad_argument data \/ (fst h = "GET /state.json"%string /\ ~ page_printable now s)
  end.

Lemma http_set_ok now data off f s lit :
  In off [12; 13; 14; 16] -> (forall v, station_effect s (f v s)) ->
  handler_ok now data s (lit, http_set data off f s).
Proof.
  intros Hoff Hf. unfold handler_ok, http_set. cbn [fst snd].
  destruct (atoi (at_off data off)) as [v|] eqn:E; simpl; [apply Hf|].
  left. exists off. auto.
Qed.

Lemma print_json_ok now now' data s :
  station_ok s -> station_effect s s ->
  handler_ok now' data s ("GET /state.json"%string, r ← print_json now now' s; Some (s, r)).
Proof.
  intros Hs Hid. unfold handler_ok. cbn [fst snd].
  destruct (decide (page_printable now' s)) as [Hp|Hp].
  - destruct (print_json_text now now' s Hs Hp) as (? & ? & _ & _ & _ & ->). exact Hid.
  - destruct (print_json now now' s); [exact Hid | right; auto].
Qed.

Lemma print_debug_ok now data s lit : station_ok s -> handler_ok now data s (lit, print_debug s).
Proof.
  intros Hs. pose proof (proj1 Hs) as Hr. pose proof Hr as [(_ & _ & _ & log & Hb) _].
  unfold handler_ok, print_debug. cbn [fst snd].
  destruct (debug_drain _ _ (replicate 4096 0) Hb) as (ret & b' & -> & Hr' & Hb'); [reflexivity|].
  cbn [mbind option_bind]. unfold HTTP_PRINT_COPY, strlen. rewrite Hr'. cbn [mbind option_bind].
  apply on_st_rig_effect with (f := fun r => Rig (r_ctrl r) (r_mde r) (r_imu r) b').
  eapply client_bucket; [apply client_effect_refl, Hr | exact Hb'].
Qed.

Lemma http_handlers_ok now now' data s :
  station_ok s -> 0 <= now < 4294967296 ->
  Forall (fun h => (length (bytes (fst h)) <= 16)%nat /\ handler_ok now' data s h)
    (http_handlers now now' data s).
Proof.
  intros Hs Hn. pose proof (client_effect_refl _ (proj1 Hs)) as Hr.
  assert (Hid : station_effect s s) by (split; [exact Hr | reflexivity..]).
  unfold http_handlers, http_switch.
  repeat (apply Forall_cons; split; [split; [vm_compute; lia | cbn [snd]]|]).
  all: lazymatch goal with
       | |- Forall _ [] => apply Forall_nil
       | |- handler_ok _ _ _ (_, http_set _ _ _ _) => apply http_set_ok; [simpl; tauto | intros v]
       | |- handler_ok _ _ _ (_, print_debug _) => apply print_debug_ok, Hs
       | |- context [print_json _ _ _] => apply print_json_ok; assumption
       | |- handler_ok _ _ _ (_, Some (on_st_rig az_calibrate _, _)) =>
           apply on_st_rig_effect; auto with seatel
       | |- handler_ok _ _ _ (_, Some (_, _)) => exact Hid
       end.
  all: lazymatch goal with
       | |- True => exact I
       | |- station_effect _ (on_st_rig (on_mde (mde_set_az_enc_off _)) _) =>
           apply on_st_rig_effect, client_set_trq; [simpl; tauto | exact Hr]
       | |- station_effect _ (mde_switch ?b _) =>
           apply on_st_rig_effect; destruct b; apply (client_mde_power _ _ Hr)
       | |- station_effect _ (on_st_rig _ _) => apply on_st_rig_effect; auto with seatel
       | |- _ => apply set_pwr_effect; exact Hs
       end.
Qed.

Lemma dispatch_ok now data s hs :
  station_ok s ->
  Forall (fun h => (length (bytes (fst h)) <= 16)%nat /\ handler_ok now data s h) hs ->
  match http_dispatch hs data s with
  | Some (s', _) => station_effect s s'
  | None => bad_request now data s
  end.
Proof.
  intros Hs. induction 1 as [|[lit h] hs [Hl Hh] _ IH].
  { split; [apply client_effect_refl, (proj1 Hs) | reflexivity..]. }
  cbn [fst snd] in *. simpl.
  destruct (starts data lit) as [[|]|] eqn:E; cbn [mbind option_bind]; [|exact IH|].
  - destruct h as [[s' r]|]; [exact Hh|]. destruct Hh as [Hh|[Hh Hp]]; [right; left; exact Hh|].
    right. right. cbn [fst] in Hh. subst lit. auto.
  - left. apply strncmp_eq_None in E. lia.
Qed.

Lemma http_serve_total (now now' : Z) (data : list Z) (s : station) :
  station_ok s -> 0 <= now < 4294967296 ->
  match http_server_serve now now' (Some data) s with
  | Some (s', _) => station_effect s s'
  | None => bad_request now' data s
  end.
Proof. intros Hs Hn. apply dispatch_ok; [exact Hs | apply http_handlers_ok; assumption]. Qed.

(** Whatever request arrives, serving it keeps the invariant of the rig (and
    with it the safety of the control loop), leaves what belongs to the other
    threads alone, and the only undefined cases are a request shorter than the
    longest path, a number that overflows or runs past the end of the
    data, and a state page with the least 32-bit integer on it. *)
Theorem http_serve_safe (now now' : Z) (data : list Z) (s : station) :
  station_ok s -> 0 <= now < 4294967296 ->
  match http_server_serve now now' (Some data) s with
  | Some (s', _) => station_effect s s'
  | None => bad_request now' data s
  end.
Proof. apply http_serve_total. Qed.

Lemma http_serve_safe_witness :
  match http_server_serve 7 8 (Some (bytes "GET /debug HTTP/1.1")) station0 with
  | Some (s', _) => station_effect station0 s'
  | None => bad_request 8 (bytes "GET /debug HTTP/1.1") station0
  end.
Proof.
  apply (http_serve_safe 7 8 (bytes "GET /debug HTTP/1.1") station0 station0_ok). lia.
Defined.

(** The web interface does not limit torques: the number is only reduced
    modulo 256, so that a request for 100 sets four times the largest torque
    the controllers may use, and one for 200 turns the motor backwards. *)
Theorem http_torque_unlimited (now now' : Z) (s : station) :
  let trq v := motor_az <$> (r_mde <$> (st_rig <$> (fst <$>
    http_server_serve now now' (Some (bytes "GET /set/trq/az/" ++ v ++ bytes " HTTP/1.1")) s))) in
  trq (bytes "100") = Some 100 /\ trq (bytes "200") = Some (-56).
Proof. split; vm_compute; reflexivity. Qed.
