(* ===== verification/Firmware.v ===== *)
(** * The firmware as a whole (main.c)

    [init] starts the threads; from then on the firmware is their interleaving,
    with the pulse interrupt and the bytes, bus replies and requests that come
    from outside.  An event runs one thread from one sleep (or one received
    item) to the next; [fw_step] is defined unless that run has undefined
    behaviour. *)

From S2P Require Import Prelude CInt CFloat CLib Chtime Spi Mde Imu Debug Chprintf Ctrl.
From S2P Require Import MdeThread Ocxo Gps I2c Ina3221 Api Http.
From Stdlib Require Import SpecFloat.

Section Firmware.
Context {D E B : Type} `{SpiBus D} `{SpiBus E} `{I2cLld B} `{LibM}.

(** ** State *)

(** The shared variables, and each thread's locals with the device it alone
    talks to; [fw_api] is the open connection, if any. *)
Record firmware := Firmware {
  fw_st : station;
  fw_ctrl : ctrl_thread;
  fw_mde : D * mde_thread;
  fw_imu : E * imu_thread;
  fw_gps : gps_thread;
  fw_ina : I2CDriver B * Z * ina_pc;
  fw_api : option api_locals
}.

(** The firmware after [init]; what the code does not initialise is arbitrary. *)
Definition fw_init (d : D) (e : E) (b : B) (old_t old_x : Z) (gps_buf : list Z) : firmware :=
  Firmware station0 ctrl_thread0 (d, mde_thread0 old_t old_x) (e, imu_thread0)
    (GpsThread gps_buf 0) (i2cObjectInit b, MON_DEV_UNEQUIPPED, InaReset pcfg_40) None.

Definition with_st (s : station) (f : firmware) : firmware :=
  Firmware s (fw_ctrl f) (fw_mde f) (fw_imu f) (fw_gps f) (fw_ina f) (fw_api f).

(** ** Events *)

Inductive event :=
| EvCtrl (ts : ctrl_times)
| EvMde (ts : mde_times)
| EvImu
| EvPulse (cnt now : Z)
| EvOcxo (now_log now : Z)
| EvGps (c : Z)
| EvIna
| EvAccept (now : Z) (az0 el0 : spec_float)
| EvChunk (ts : api_times) (data : list Z)
| EvClose
| EvHttp (now now' : Z) (data : list Z).

(** Clock readings are 32-bit tick counts. *)
Definition is_tick (t : Z) : Prop := 0 <= t < 4294967296.

Definition event_ok (e : event) : Prop :=
  match e with
  | EvCtrl ts => ctrl_times_ok ts = true
  | EvOcxo n _ => is_tick n
  | EvChunk ts _ => api_times_ok ts
  | EvHttp n _ _ => is_tick n
  | _ => True
  end.

(** ** Steps *)

Definition step_ctrl (ts : ctrl_times) (f : firmware) : option firmware :=
  '(t, r) ← ctrl_step ts (fw_ctrl f) (st_rig (fw_st f));
  Some (Firmware (with_rig r (fw_st f)) t (fw_mde f) (fw_imu f) (fw_gps f) (fw_ina f) (fw_api f)).

Definition step_mde (ts : mde_times) (f : firmware) : option firmware :=
  '(d, t, r) ← mde_step ts (fst (fw_mde f)) (snd (fw_mde f)) (st_rig (fw_st f));
  Some (Firmware (with_rig r (fw_st f)) (fw_ctrl f) (d, t) (fw_imu f) (fw_gps f) (fw_ina f) (fw_api f)).

Definition step_imu (f : firmware) : option firmware :=
  let r := st_rig (fw_st f) in
  '(e, t, i) ← imu_step (fst (fw_imu f)) (snd (fw_imu f)) (r_imu r);
  Some (Firmware (with_rig (on_imu (fun _ => i) r) (fw_st f)) (fw_ctrl f) (fw_mde f) (e, t)
          (fw_gps f) (fw_ina f) (fw_api f)).

Definition with_ocxo (o : ocxo_state) (s : station) : station :=
  Station (st_rig s) o (st_gps s) (st_mons s) (st_connected s) (st_pwr_lna s) (st_pwr_ext5 s)
    (st_pwr_ext24 s).

Definition step_ocxo (now_log now : Z) (f : firmware) : option firmware :=
  let r := st_rig (fw_st f) in
  '(o, bucket) ← ocxo_step now_log now (st_ocxo (fw_st f)) (r_bucket r);
  Some (with_st (with_ocxo o (with_rig (Rig (r_ctrl r) (r_mde r) (r_imu r) bucket) (fw_st f))) f).

Definition step_gps (c : Z) (f : firmware) : option firmware :=
  let s := fw_st f in
  '(t, g) ← gps_char c (fw_gps f) (st_gps s);
  Some (Firmware (Station (st_rig s) (st_ocxo s) g (st_mons s) (st_connected s) (st_pwr_lna s)
                    (st_pwr_ext5 s) (st_pwr_ext24 s))
          (fw_ctrl f) (fw_mde f) (fw_imu f) t (fw_ina f) (fw_api f)).

Definition step_ina (f : firmware) : option firmware :=
  let s := fw_st f in
  let '(d, err, pc) := fw_ina f in
  '(i, pc, _) ← ina_step pc (Ina d err (st_mons s));
  Some (Firmware (Station (st_rig s) (st_ocxo s) (st_gps s) (ina_mons i) (st_connected s)
                    (st_pwr_lna s) (st_pwr_ext5 s) (st_pwr_ext24 s))
          (fw_ctrl f) (fw_mde f) (fw_imu f) (fw_gps f) (ina_drv i, ina_error i, pc) (fw_api f)).

Definition set_connected (b : bool) (s : station) : station :=
  Station (st_rig s) (st_ocxo s) (st_gps s) (st_mons s) b (st_pwr_lna s) (st_pwr_ext5 s)
    (st_pwr_ext24 s).

Definition set_api (l : option api_locals) (s : station) (f : firmware) : firmware :=
  Firmware s (fw_ctrl f) (fw_mde f) (fw_imu f) (fw_gps f) (fw_ina f) l.

(** A chunk is served only on an open connection. *)
Definition step_chunk (ts : api_times) (data : list Z) (f : firmware) : option firmware :=
  match fw_api f with
  | None => Some f
  | Some l =>
      '(a, _) ← api_command ts data (Api (st_rig (fw_st f)) true l []);
      Some (set_api (Some (api_loc a)) (with_rig (api_rig a) (fw_st f)) f)
  end.

Definition step_http (now now' : Z) (data : list Z) (f : firmware) : option firmware :=
  '(s, _) ← http_server_serve now now' (Some data) (fw_st f); Some (with_st s f).

Definition fw_step (e : event) (f : firmware) : option firmware :=
  match e with
  | EvCtrl ts => step_ctrl ts f
  | EvMde ts => step_mde ts f
  | EvImu => step_imu f
  | EvPulse cnt now => Some (with_st (with_ocxo (exti_cb cnt now (st_ocxo (fw_st f))) (fw_st f)) f)
  | EvOcxo n n' => step_ocxo n n' f
  | EvGps c => step_gps c f
  | EvIna => step_ina f
  | EvAccept now az0 el0 =>
      Some (set_api (Some (ApiLocals az0 el0 now)) (set_connected true (fw_st f)) f)
  | EvChunk ts data => step_chunk ts data f
  | EvClose => Some (set_api None (set_connected false (fw_st f)) f)
  | EvHttp n n' data => step_http n n' data f
  end.

(** Any sequence of events. *)
Inductive fw_reach (f0 : firmware) : firmware -> Prop :=
| reach_init : fw_reach f0 f0
| reach_step f e f' : fw_reach f0 f -> event_ok e -> fw_step e f = Some f' -> fw_reach f0 f'.

Fixpoint fw_run (es : list event) (f : firmware) : option firmware :=
  match es with
  | [] => Some f
  | e :: es' => f ← fw_step e f; fw_run es' f
  end.

Lemma fw_run_reach f0 es : forall f f',
  fw_reach f0 f -> Forall event_ok es -> fw_run es f = Some f' -> fw_reach f0 f'.
Proof.
  induction es as [|e es IH]; intros f f' Hr He Hs; [injection Hs as <-; exact Hr|].
  inversion_clear He. simpl in Hs. apply bind_Some_inv in Hs as [f1 [E1 Hs]].
  eapply IH; [|eassumption|exact Hs]. eapply reach_step; eassumption.
Qed.

(** ** The invariant *)

Record fw_ok (f : firmware) : Prop := FwOk {
  ok_station : station_ok (fw_st f);
  ok_ctrl : ctrl_thread_ok (fw_ctrl f) (r_ctrl (st_rig (fw_st f)));
  ok_mde : mde_thread_ok (snd (fw_mde f)) (r_mde (st_rig (fw_st f))) = true;
  ok_sum : mde_sum_ok (snd (fw_mde f)) = true;
  ok_imu : imu_thread_ok (snd (fw_imu f)) = true;
  ok_gps : gps_thread_ok (fw_gps f);
  ok_ina : i2c_state (fst (fst (fw_ina f))) = I2C_STOP
}.

(** What must have happened outside for a step to be undefined: an encoder
    speed out of range, an accelerometer that reports nothing, three pulses
    that agree on the least count, a sentence or a request with an unreadable
    number, a state page with an unprintable one, or a position command. *)
Definition culprit (e : event) (f : firmware) : Prop :=
  match e with
  | EvMde ts => exists enc, enc_speed enc (md_old_x (snd (fw_mde f)))
                              (u32 (m_dt ts - md_old_t (snd (fw_mde f)))) = None
  | EvImu => imu_can_step (snd (fw_imu f)) (r_imu (st_rig (fw_st f))) = false
  | EvGps c => (c = 10 \/ c = 13) /\ exists buf,
                 wr (gp_buf (fw_gps f)) (gp_idx (fw_gps f)) 0 = Some buf /\
                 gps_parse buf (st_gps (fw_st f)) = None
  | EvChunk _ data => exists rest, data = 80 :: rest
  | EvOcxo _ _ => ocxo_least (st_ocxo (fw_st f))
  | EvHttp _ now data => bad_request now data (fw_st f)
  | _ => False
  end.

(** A client's effect keeps the invariant. *)
Lemma client_keeps s f :
  fw_ok f -> station_ok s -> client_effect (st_rig (fw_st f)) (st_rig s) -> fw_ok (with_st s f).
Proof.
  intros [Hs Hc Hm Hu Hi Hg Ha] Hs' [_ Hsp Hp]. split; try assumption; cbn.
  - intros E'. apply Hc, Hsp, E'.
  - unfold mde_thread_ok in *. rewrite Hp. exact Hm.
Qed.

Lemma step_ctrl_safe ts f :
  fw_ok f -> ctrl_times_ok ts = true ->
  exists f', step_ctrl ts f = Some f' /\ fw_ok f' /\
    trq_limited (st_rig (fw_st f)) (st_rig (fw_st f')).
Proof.
  intros [((Hr & Hf) & Hg' & Hm') Hc Hm Hu Hi Hg Ha] Hts. unfold step_ctrl.
  destruct (ctrl_step_ok ts _ _ Hr Hf Hts Hc) as (t' & r' & E' & Hr' & Hf' & Hc' & Hl & _).
  rewrite E'. cbn [mbind option_bind]. eexists. split; [reflexivity|]. split; [|exact Hl].
  split; try assumption; cbn.
  - split; [split|split]; assumption.
  - unfold mde_thread_ok in *. rewrite (ctrl_step_power _ _ _ _ _ E'). exact Hm.
Qed.

Lemma step_mde_safe ts f :
  fw_ok f ->
  match step_mde ts f with Some f' => fw_ok f' | None => culprit (EvMde ts) f end.
Proof.
  intros [((Hr & Hf) & Hg' & Hm') Hc Hm Hu Hi Hg Ha]. unfold step_mde.
  pose proof (mde_step_total ts (fst (fw_mde f)) (snd (fw_mde f)) _ Hr Hu) as Ht.
  destruct (mde_step ts _ _ _) as [[[d t] r]|] eqn:E'; cbn [mbind option_bind]; [|exact Ht].
  destruct Ht as ((Hr' & Ec & _ & _) & Hu'). split; try assumption; cbn.
  - split; [split|split]; try assumption. cbn. rewrite Ec. exact Hf.
  - rewrite Ec. exact Hc.
  - apply (mde_step_inv _ _ _ _ _ _ _ Hm E').
Qed.

Lemma step_imu_safe f :
  fw_ok f -> match step_imu f with Some f' => fw_ok f' | None => culprit EvImu f end.
Proof.
  intros [((Hr & Hf) & Hg' & Hm') Hc Hm Hu Hi Hg Ha]. unfold step_imu.
  pose proof Hr as (Hrc & Hrm & Hri & Hrb).
  pose proof (imu_step_total (fst (fw_imu f)) _ _ Hri Hi) as Ht.
  destruct (imu_step _ _ _) as [[[e t] i]|]; cbn [mbind option_bind]; [|exact Ht].
  destruct Ht as (_ & Hri' & Hi'). split; try assumption; cbn.
  split; [split; [|exact Hf]|split; assumption]. repeat split; assumption.
Qed.

Lemma step_ocxo_safe n n' f :
  fw_ok f -> is_tick n ->
  match step_ocxo n n' f with Some f' => fw_ok f' | None => culprit (EvOcxo n n') f end.
Proof.
  intros Hok Hn. pose proof Hok as [(Hr & (Hg' & Ho) & Hm') _ _ _ _ _ _].
  pose proof Hr as [(_ & _ & _ & log & Hb) _]. unfold step_ocxo.
  pose proof (ocxo_step_total n n' (st_ocxo (fw_st f)) _ _ Hn Hb Ho) as Ht.
  destruct (ocxo_step n n' _ _) as [[o b]|]; cbn [mbind option_bind]; [|exact Ht].
  destruct Ht as (Ho' & log' & Hb').
  assert (He : client_effect (st_rig (fw_st f))
    (Rig (r_ctrl (st_rig (fw_st f))) (r_mde (st_rig (fw_st f))) (r_imu (st_rig (fw_st f))) b))
    by (eapply client_bucket; [apply client_effect_refl, Hr | exact Hb']).
  apply client_keeps; [exact Hok | | exact He].
  split; [apply (ce_inv _ _ He)|]. split; [split; [exact Hg' | exact Ho'] | exact Hm'].
Qed.

Lemma step_gps_safe c f :
  fw_ok f -> match step_gps c f with Some f' => fw_ok f' | None => culprit (EvGps c) f end.
Proof.
  intros [(Hr & Hg' & Hm') Hc Hm Hu Hi Hg Ha]. unfold step_gps.
  pose proof (gps_char_safe c (fw_gps f) (st_gps (fw_st f)) Hg) as Ht.
  destruct (gps_char c _ _) as [[t g]|] eqn:E'; cbn [mbind option_bind]; [|exact Ht].
  apply gps_char_ok in E'; [|apply Hg']. split; try assumption.
  split; [exact Hr|]. split; [split; [exact E' | apply Hg'] | exact Hm'].
Qed.

Lemma step_ina_safe f : fw_ok f -> exists f', step_ina f = Some f' /\ fw_ok f'.
Proof.
  intros [(Hr & Hg' & Hm') Hc Hm Hu Hi Hg Ha]. unfold step_ina.
  destruct (fw_ina f) as [[d err] pc]. cbn in Ha.
  destruct (ina_step_total pc (Ina d err (st_mons (fw_st f)))) as (i & pc' & t & -> & [Hd Hmo] & _);
    [split; assumption|].
  cbn [mbind option_bind]. eexists. split; [reflexivity|]. split; try assumption.
  split; [exact Hr|]. split; [exact Hg' | exact Hmo].
Qed.

Lemma step_chunk_safe ts data f :
  fw_ok f -> api_times_ok ts ->
  match step_chunk ts data f with Some f' => fw_ok f' | None => culprit (EvChunk ts data) f end.
Proof.
  intros Hok Hts. pose proof Hok as [(Hr & Hg' & Hm') _ _ _ _ _ _]. unfold step_chunk.
  destruct (fw_api f) as [l|]; [|exact Hok].
  pose proof (api_command_total ts data (Api (st_rig (fw_st f)) true l []) Hr Hts) as Ht.
  destruct (api_command ts data _) as [[a q]|]; cbn [mbind option_bind]; [|exact Ht].
  destruct Ht as (He & _).
  assert (Hs : station_ok (with_rig (api_rig a) (fw_st f)))
    by (split; [apply (ce_inv _ _ He) | split; [exact Hg' | exact Hm']]).
  destruct (client_keeps _ _ Hok Hs He). split; assumption.
Qed.

Lemma step_http_safe n n' data f :
  fw_ok f -> is_tick n ->
  match step_http n n' data f with Some f' => fw_ok f' | None => culprit (EvHttp n n' data) f end.
Proof.
  intros Hok Hn. pose proof (ok_station _ Hok) as Hs. unfold step_http.
  pose proof (http_serve_total n n' data (fw_st f) Hs Hn) as Ht.
  destruct (http_server_serve n n' _ _) as [[s r]|]; cbn [mbind option_bind]; [|exact Ht].
  apply client_keeps; [exact Hok | eapply station_effect_ok; eassumption | apply (se_rig _ _ Ht)].
Qed.

Lemma fw_step_ok e f :
  fw_ok f -> event_ok e ->
  match fw_step e f with Some f' => fw_ok f' | None => culprit e f end.
Proof.
  intros Hok He. destruct e as [ts|ts| |cnt now|n n'|c| |now az0 el0|ts data| |n n' data]; cbn [fw_step].
  - destruct (step_ctrl_safe ts f Hok He) as (f' & -> & H' & _). exact H'.
  - apply step_mde_safe, Hok.
  - apply step_imu_safe, Hok.
  - destruct Hok as [(Hr & (Hg' & Ho) & Hm') Hc Hm Hu Hi Hg Ha]. split; try assumption.
    split; [exact Hr|]. split; [split; [exact Hg' | apply exti_cb_ok, Ho] | exact Hm'].
  - apply step_ocxo_safe; assumption.
  - apply step_gps_safe, Hok.
  - destruct (step_ina_safe f Hok) as (f' & -> & H'). exact H'.
  - destruct Hok. split; assumption.
  - apply step_chunk_safe; assumption.
  - destruct Hok. split; assumption.
  - apply step_http_safe; assumption.
Qed.

Lemma fw_init_ok d e b old_t old_x gps_buf :
  length gps_buf = 128%nat -> fw_ok (fw_init d e b old_t old_x gps_buf).
Proof.
  intros Hl. split; try reflexivity; [apply station0_ok | discriminate |].
  split; [exact Hl | cbn; lia].
Qed.

Lemma fw_reach_ok f0 f : fw_ok f0 -> fw_reach f0 f -> fw_ok f.
Proof.
  intros Hstart. induction 1 as [|f e f' _ IH He Hs]; [exact Hstart|].
  pose proof (fw_step_ok e f IH He) as Ht. rewrite Hs in Ht. exact Ht.
Qed.

(** ** Properties *)

(** C1: the control loop is safe in the whole firmware: however the threads,
    the pulse interrupt, the sensors, the buses and the network clients have
    interleaved since the start, the next run of the control thread is defined
    and sets no azimuth or elevation torque beyond 25. *)
Theorem firmware_control_safe d e b old_t old_x gps_buf f ts :
  length gps_buf = 128%nat -> fw_reach (fw_init d e b old_t old_x gps_buf) f ->
  ctrl_times_ok ts = true ->
  exists f', fw_step (EvCtrl ts) f = Some f' /\ trq_limited (st_rig (fw_st f)) (st_rig (fw_st f')).
Proof.
  intros Hl Hr Hts.
  destruct (step_ctrl_safe ts f (fw_reach_ok _ _ (fw_init_ok d e b old_t old_x gps_buf Hl) Hr) Hts)
    as (f' & Hs & _ & Ht). exists f'. split; assumption.
Qed.


(** C11: in every reachable state of the firmware, a run of the drive thread that
    uses the drive's bus begins and ends with the supply on, and outside the
    initialisation sequence the control loop was alive when it began. *)
Theorem firmware_drive_guarded d e b old_t old_x gps_buf f ts f' :
  length gps_buf = 128%nat -> fw_reach (fw_init d e b old_t old_x gps_buf) f ->
  fw_step (EvMde ts) f = Some f' -> fst (fw_mde f') <> fst (fw_mde f) ->
  md_pwr (snd (fw_mde f)) = true /\ md_pwr (snd (fw_mde f')) = true /\
  (md_pc (snd (fw_mde f)) = MdTop ->
   ctrl_is_running (m_run ts) (r_ctrl (st_rig (fw_st f))) = true).
Proof.
  intros Hl Hr Hs Hne.
  pose proof (ok_mde _ (fw_reach_ok _ _ (fw_init_ok d e b old_t old_x gps_buf Hl) Hr)) as Hok.
  cbn [fw_step] in Hs. unfold step_mde in Hs. apply bind_Some_inv in Hs as [[[d' t'] r'] [Hs E']].
  injection E' as <-. cbn in *.
  destruct (mde_step_inv _ _ _ _ _ _ _ Hok Hs) as [_ [Hd|Hg]]; [congruence | exact Hg].
Qed.

End Firmware.

(** ** A concrete firmware *)

Definition fw_example : @firmware spi_script spi_script ina_regs :=
  fw_init (SpiScript [] [] []) (SpiScript [] [] []) some_regs 0 0 (replicate 128 0).

#[local] Existing Instance libm_coarse.

(** After a client has sent the antenna to azimuth 90 over the web. *)
Definition fw_example_turning : @firmware spi_script spi_script ina_regs :=
  with_st (on_st_rig (az_set_tgt_pos 7 16384) station0) fw_example.

(** The drive switched on over the web and calibrated. *)
Definition fw_drive_events : list event :=
  EvHttp 7 8 (bytes "GET /sw/mde/1 HTTP/1.1") :: replicate 102 (EvMde (MdeTimes 10 100000 100000)).

Definition fw_example_drive : @firmware spi_script spi_script ina_regs :=
  default fw_example (fw_run fw_drive_events fw_example).

Lemma fw_example_reach : fw_reach fw_example fw_example_turning.
Proof.
  apply (fw_run_reach fw_example [EvHttp 7 8 (bytes "GET /set/tar/az/16384 HTTP/1.1")] fw_example);
    [apply reach_init | repeat constructor; cbn; unfold is_tick; lia | vm_compute; reflexivity].
Qed.

Lemma fw_example_drive_reach : fw_reach fw_example fw_example_drive.
Proof.
  apply (fw_run_reach fw_example fw_drive_events fw_example);
    [apply reach_init | | vm_compute; reflexivity].
  constructor; [cbn; unfold is_tick; lia | apply Forall_replicate; exact I].
Qed.

Lemma firmware_control_safe_witness :
  exists f', fw_step (EvCtrl (CtrlTimes 10 10 10 10)) fw_example_turning = Some f' /\
    trq_limited (st_rig (fw_st fw_example_turning)) (st_rig (fw_st f')).
Proof.
  apply (firmware_control_safe (SpiScript [] [] []) (SpiScript [] [] []) some_regs 0 0
           (replicate 128 0) fw_example_turning (CtrlTimes 10 10 10 10));
    [reflexivity | exact fw_example_reach | reflexivity].
Defined.


(** The first run after the calibration addresses the drive. *)
Lemma firmware_drive_guarded_witness :
  exists f', fw_step (EvMde (MdeTimes 10 100000 100000)) fw_example_drive = Some f' /\
    md_pwr (snd (fw_mde fw_example_drive)) = true /\ md_pwr (snd (fw_mde f')) = true.
Proof.
  destruct (fw_step (EvMde (MdeTimes 10 100000 100000)) fw_example_drive) as [f'|] eqn:E;
    [|vm_compute in E; discriminate].
  destruct (firmware_drive_guarded (SpiScript [] [] []) (SpiScript [] [] []) some_regs 0 0
              (replicate 128 0) fw_example_drive (MdeTimes 10 100000 100000) f')
    as (H1 & H2 & _); [reflexivity | exact fw_example_drive_reach | exact E | |].
  - vm_compute in E. injection E as <-. vm_compute. discriminate.
  - exists f'. auto.
Defined.
