(* ===== verification/Threads.v ===== *)
(** * Thread queues and blocking calls (chthreads.c, chschd.c)

    The queues of suspended threads, and what a client of the kernel may rely on
    when it makes threads wait: [Channel] states what a component with wait
    queues promises, and the theorems of the section [System] hold for the
    threads and interrupts that use any such component: the component stays
    consistent, and no wake-up is lost. *)

From stdpp Require Import gmap.
From S2P Require Import Prelude CLib.
#[local] Open Scope Z_scope.

(** ** Thread queues *)

Definition TIME_IMMEDIATE : Z := 0.
Definition TIME_INFINITE : Z := 2 ^ 32 - 1.

(** What an operation does outside its object: it makes a thread ready with a
    message, or calls the low side's notification callback. *)
Inductive event :=
| Wake (thread : nat) (msg : Z)
| Notify.

(** A queue is the list of its threads, the longest waiting first. *)
Definition threads_queue := list nat.

Definition chThdQueueObjectInit : threads_queue := [].

Definition chThdDoDequeueNextI (t : nat) (tq : threads_queue) (msg : Z)
  : threads_queue * list event := (tq, [Wake t msg]).

Definition chThdDequeueNextI (tq : threads_queue) (msg : Z) : threads_queue * list event :=
  match tq with
  | [] => ([], [])
  | t :: tq => chThdDoDequeueNextI t tq msg
  end.

Fixpoint chThdDequeueAllI (tq : threads_queue) (msg : Z) : threads_queue * list event :=
  match tq with
  | [] => ([], [])
  | t :: tq =>
      let '(tq, ev) := chThdDoDequeueNextI t tq msg in
      let '(tq, evs) := chThdDequeueAllI tq msg in (tq, ev ++ evs)
  end.

(** [None] when the call returns [MSG_TIMEOUT] without suspending its thread. *)
Definition chThdEnqueueTimeoutS (t : nat) (timeout : Z) (tq : threads_queue)
  : option threads_queue :=
  if timeout =? TIME_IMMEDIATE then None else Some (tq ++ [t]).

(** The timer of a queued thread expires: it leaves the queue. *)
Definition sch_wakeup (t : nat) (tq : threads_queue) : threads_queue * list event :=
  (filter (fun t' => t' <> t) tq, [Wake t MSG_TIMEOUT]).

(** How far a call that may block has come: it has returned, its thread is
    suspended, or it has released the kernel lock between two parts of its work. *)
Inductive outcome (R C : Type) :=
| Return (r : R)
| Blocked (c : C)
| More (c : C).
Arguments Return {R C}.
Arguments Blocked {R C}.
Arguments More {R C}.

Definition outcome_map {R R' C C'} (f : R -> R') (g : C -> C') (o : outcome R C) : outcome R' C' :=
  match o with
  | Return r => Return (f r)
  | Blocked c => Blocked (g c)
  | More c => More (g c)
  end.

(** The threads an operation makes ready. *)
Definition wakes (ev : list event) : list (nat * Z) :=
  omap (fun e => match e with Wake t msg => Some (t, msg) | Notify => None end) ev.

Definition with_msg (msg : Z) (ts : list nat) : list (nat * Z) := (fun t => (t, msg)) <$> ts.

Lemma wakes_app ev1 ev2 : wakes (ev1 ++ ev2) = wakes ev1 ++ wakes ev2.
Proof. apply omap_app. Qed.

Lemma chThdDequeueNextI_spec tq msg :
  exists woken rest, tq = woken ++ rest /\ fst (chThdDequeueNextI tq msg) = rest /\
    wakes (snd (chThdDequeueNextI tq msg)) = with_msg msg woken /\
    (length woken = 1%nat \/ woken = [] /\ rest = []).
Proof. destruct tq as [|t tq]; [exists [], [] | exists [t], tq]; split_and!; auto. Qed.

Lemma chThdDequeueAllI_spec tq msg :
  fst (chThdDequeueAllI tq msg) = [] /\
  wakes (snd (chThdDequeueAllI tq msg)) = with_msg msg tq.
Proof.
  induction tq as [|t tq [IH1 IH2]]; simpl; [auto|].
  destruct (chThdDequeueAllI tq msg) as [tq' evs]. simpl in *. rewrite IH2. auto.
Qed.

(** ** The interface of a component with wait queues

    A component has two sides on which threads may wait (readers and writers); a
    call waits on one of them.  [ch_avail] counts what a waiting thread could
    take. *)

Class Channel (Q I C R : Type) := {
  ch_waiting : bool -> Q -> threads_queue;
  ch_avail : bool -> Q -> Z;
  ch_side : C -> bool;
  ch_isr : I -> Q -> option (Q * list event);
  ch_call : nat -> C -> Q -> option (Q * outcome R C * list event);
  ch_resume : nat -> Z -> C -> Q -> option (Q * outcome R C * list event);
  ch_expire : bool -> nat -> Q -> Q
}.

(** Along an operation, the threads [woken] leave the head of a side's queue and
    [enq] join its tail; threads are left waiting only when nothing has become
    available but what the woken threads can take. *)
Definition moved {Q I C R : Type} `{Channel Q I C R} (s : bool) (enq woken : list nat) (msg : Z) (q q' : Q) : Prop :=
  exists rest, ch_waiting s q = woken ++ rest /\ ch_waiting s q' = rest ++ enq /\
    (ch_waiting s q' = [] \/
     ch_avail s q' <= ch_avail s q + (if msg =? MSG_OK then Z.of_nat (length woken) else 0)).

Definition enqueued {Q I C R : Type} `{Channel Q I C R} (t : nat) (c : C) (o : outcome R C) (s : bool) : list nat :=
  match o with Blocked _ => if Bool.eqb (ch_side c) s then [t] else [] | _ => [] end.

(** An operation moves threads on both sides and wakes just those. *)
Definition moves {Q I C R : Type} `{Channel Q I C R} (enq : bool -> list nat) (q q' : Q) (ev : list event) : Prop :=
  exists msg wt wf, msg <= MSG_OK /\ wakes ev = with_msg msg wt ++ with_msg msg wf /\
    moved true (enq true) wt msg q q' /\ moved false (enq false) wf msg q q'.

(** An operation that wakes no thread. *)
Lemma moves_quiet {Q I C R : Type} `{Channel Q I C R} enq (q q' : Q) ev :
  wakes ev = [] ->
  (forall s, ch_waiting s q' = ch_waiting s q ++ enq s /\
             (ch_waiting s q' = [] \/ ch_avail s q' <= ch_avail s q)) ->
  moves enq q q' ev.
Proof.
  intros Hev Hs. exists MSG_OK, [], []. split_and!; [lia|exact Hev| |].
  all: eexists; split; [reflexivity|]; simpl; rewrite Z.add_0_r; apply Hs.
Qed.

(** An operation that wakes threads of one side. *)
Lemma moves_wake {Q I C R : Type} `{Channel Q I C R} s msg woken rest (q q' : Q) ev :
  msg <= MSG_OK -> wakes ev = with_msg msg woken ->
  ch_waiting s q = woken ++ rest -> ch_waiting s q' = rest ->
  ch_waiting s q' = [] \/
    ch_avail s q' <= ch_avail s q + (if msg =? MSG_OK then Z.of_nat (length woken) else 0) ->
  ch_waiting (negb s) q' = ch_waiting (negb s) q ->
  ch_waiting (negb s) q' = [] \/ ch_avail (negb s) q' <= ch_avail (negb s) q ->
  moves (fun _ => []) q q' ev.
Proof.
  intros Hmsg Hev Hq Hq' Ha Hn Hn'. exists msg.
  assert (Hs : moved s [] woken msg q q') by (exists rest; rewrite app_nil_r; auto).
  assert (Hns : moved (negb s) [] [] msg q q').
  { exists (ch_waiting (negb s) q). rewrite app_nil_r. split_and!; auto.
    destruct Hn' as [Hn'|Hn']; [auto|]. right. case_bool; simpl; lia. }
  destruct s; [exists woken, [] | exists [], woken]; rewrite ?app_nil_r; auto.
Qed.

Class ChannelLaws (Q I C R : Type) `{Channel Q I C R} := {
  ch_inv : Q -> Prop;
  ch_isr_ok : I -> Prop;
  ch_live : C -> Prop;
  ch_isr_law : forall i q, ch_inv q -> ch_isr_ok i ->
    exists q' ev, ch_isr i q = Some (q', ev) /\ ch_inv q' /\ moves (fun _ => []) q q' ev;
  ch_call_law : forall t c q, ch_inv q ->
    exists q' o ev, ch_call t c q = Some (q', o, ev) /\ ch_inv q' /\
      moves (enqueued t c o) q q' ev /\
      match o with
      | Blocked c' => ch_live c' /\ ch_side c' = ch_side c /\ ch_avail (ch_side c) q' <= 0
      | _ => True
      end /\
      (ch_live c -> ch_avail (ch_side c) q' <= 0 \/
                    ch_avail (ch_side c) q' < ch_avail (ch_side c) q);
  ch_resume_law : forall t msg c q,
    (msg = MSG_OK -> ch_resume t msg c q = ch_call t c q) /\
    (msg < MSG_OK -> exists r, ch_resume t msg c q = Some (q, Return r, []));
  ch_expire_law : forall s t q, ch_inv q ->
    ch_inv (ch_expire s t q) /\
    ch_waiting s (ch_expire s t q) = fst (sch_wakeup t (ch_waiting s q)) /\
    ch_waiting (negb s) (ch_expire s t q) = ch_waiting (negb s) q /\
    forall s', ch_avail s' (ch_expire s t q) = ch_avail s' q
}.

(** ** Threads and interrupts at work on a component *)

Inductive tstate (C : Type) :=
| Suspended (c : C)
| Ready (c : C) (msg : Z)
| Running (c : C).
Arguments Suspended {C}.
Arguments Ready {C}.
Arguments Running {C}.

(** A thread that is not in the map is not in a call. *)
Record system (Q C : Type) := Sys { sy_obj : Q; sy_threads : gmap nat (tstate C) }.
Arguments Sys {Q C}.
Arguments sy_obj {Q C}.
Arguments sy_threads {Q C}.

Inductive sys_event (I C : Type) :=
| EvIsr (i : I)
| EvCall (t : nat) (c : C)
| EvRun (t : nat)
| EvTimeout (t : nat).
Arguments EvIsr {I C}.
Arguments EvCall {I C}.
Arguments EvRun {I C}.
Arguments EvTimeout {I C}.

Section System.
Context {Q I C R : Type} `{Channel Q I C R}.

Definition wake_one (m : gmap nat (tstate C)) (w : nat * Z) : gmap nat (tstate C) :=
  match m !! fst w with
  | Some (Suspended c) => <[fst w := Ready c (snd w)]> m
  | _ => m
  end.

Definition wake_all (ws : list (nat * Z)) (m : gmap nat (tstate C)) : gmap nat (tstate C) :=
  foldl wake_one m ws.

Definition settle (t : nat) (o : outcome R C) (m : gmap nat (tstate C)) : gmap nat (tstate C) :=
  match o with
  | Return _ => delete t m
  | Blocked c => <[t := Suspended c]> m
  | More c => <[t := Running c]> m
  end.

Definition after_call (t : nat) (sy : system Q C) (r : option (Q * outcome R C * list event))
  : option (system Q C) :=
  '(q, o, ev) ← r; Some (Sys q (settle t o (wake_all (wakes ev) (sy_threads sy)))).

(** An event happens only when it can: an idle thread starts a call, a thread
    that is ready or between two parts of a call runs, a suspended one times out. *)
Definition sys_enabled (e : sys_event I C) (sy : system Q C) : bool :=
  match e with
  | EvIsr _ => true
  | EvCall t _ => match sy_threads sy !! t with None => true | _ => false end
  | EvRun t => match sy_threads sy !! t with Some (Ready _ _) | Some (Running _) => true | _ => false end
  | EvTimeout t => match sy_threads sy !! t with Some (Suspended _) => true | _ => false end
  end.

Definition sys_step (e : sys_event I C) (sy : system Q C) : option (system Q C) :=
  match e with
  | EvIsr i =>
      '(q, ev) ← ch_isr i (sy_obj sy); Some (Sys q (wake_all (wakes ev) (sy_threads sy)))
  | EvCall t c => after_call t sy (ch_call t c (sy_obj sy))
  | EvRun t =>
      match sy_threads sy !! t with
      | Some (Ready c msg) => after_call t sy (ch_resume t msg c (sy_obj sy))
      | Some (Running c) => after_call t sy (ch_call t c (sy_obj sy))
      | _ => Some sy
      end
  | EvTimeout t =>
      match sy_threads sy !! t with
      | Some (Suspended c) =>
          Some (Sys (ch_expire (ch_side c) t (sy_obj sy))
                  (wake_all [(t, MSG_TIMEOUT)] (sy_threads sy)))
      | _ => Some sy
      end
  end.

Fixpoint sys_run (es : list (sys_event I C)) (sy : system Q C) : option (system Q C) :=
  match es with
  | [] => Some sy
  | e :: es => if sys_enabled e sy then sy ← sys_step e sy; sys_run es sy else None
  end.

(** What a thread's call returns in a step, if it does. *)
Definition returned (t : nat) (r : option (Q * outcome R C * list event)) : list (nat * R) :=
  match r with Some (_, Return v, _) => [(t, v)] | _ => [] end.

Definition sys_returns (e : sys_event I C) (sy : system Q C) : list (nat * R) :=
  match e with
  | EvCall t c => returned t (ch_call t c (sy_obj sy))
  | EvRun t =>
      match sy_threads sy !! t with
      | Some (Ready c msg) => returned t (ch_resume t msg c (sy_obj sy))
      | Some (Running c) => returned t (ch_call t c (sy_obj sy))
      | _ => []
      end
  | _ => []
  end.

(** A run with the log of what calls have returned. *)
Fixpoint sys_log (es : list (sys_event I C)) (sy : system Q C) : option (system Q C * list (nat * R)) :=
  match es with
  | [] => Some (sy, [])
  | e :: es =>
      if sys_enabled e sy then
        sy' ← sys_step e sy;
        '(sy'', log) ← sys_log es sy';
        Some (sy'', sys_returns e sy ++ log)
      else None
  end.

(** The threads of a side that have been woken to take something and have not
    run yet. *)
Definition takes (s : bool) (st : tstate C) : bool :=
  match st with Ready c msg => Bool.eqb (ch_side c) s && (msg =? MSG_OK) | _ => false end.

Definition ready_count (s : bool) (m : gmap nat (tstate C)) : Z :=
  Z.of_nat (size (filter (fun p => takes s (snd p) = true) m)).

(** ** Invariant *)

(** The suspended threads are those of the wait queues [wait]. *)
Definition threads_ok (live : C -> Prop) (wait : bool -> list nat) (m : gmap nat (tstate C)) : Prop :=
  (forall s, NoDup (wait s)) /\
  (forall s t, t ∈ wait s <-> exists c, m !! t = Some (Suspended c) /\ ch_side c = s) /\
  (forall t c, m !! t = Some (Suspended c) -> live c) /\
  (forall t c msg, m !! t = Some (Ready c msg) -> live c /\ msg <= MSG_OK).

Lemma ready_count_delete s m t :
  ready_count s m =
  ready_count s (delete t m) + match m !! t with Some st => Z.b2z (takes s st) | None => 0 end.
Proof.
  unfold ready_count. destruct (m !! t) as [st|] eqn:E.
  - rewrite <- (insert_delete_id m t st E) at 1. rewrite map_filter_insert. simpl.
    destruct (takes s st) eqn:Et.
    + rewrite decide_True by reflexivity. rewrite map_size_insert_None; [simpl; lia|].
      rewrite map_lookup_filter, lookup_delete_eq. reflexivity.
    + rewrite decide_False by discriminate. rewrite delete_id, Z.add_0_r; [reflexivity|].
      apply lookup_delete_eq.
  - rewrite delete_id by exact E. lia.
Qed.

Lemma ready_count_insert s m t st :
  ready_count s (<[t := st]> m) = ready_count s (delete t m) + Z.b2z (takes s st).
Proof.
  rewrite (ready_count_delete s (<[t := st]> m) t), lookup_insert_eq, delete_insert_eq. reflexivity.
Qed.

Lemma ready_count_nonneg s m : 0 <= ready_count s m.
Proof. unfold ready_count. lia. Qed.

Definition without (s : bool) (rest : list nat) (wait : bool -> list nat) : bool -> list nat :=
  fun s' => if Bool.eqb s s' then rest else wait s'.

(** Waking the head of a queue. *)
Lemma wake_one_ok live wait m s t rest msg :
  threads_ok live wait m -> wait s = t :: rest -> msg <= MSG_OK ->
  threads_ok live (without s rest wait) (wake_one m (t, msg)) /\
  forall s', ready_count s' (wake_one m (t, msg)) =
    ready_count s' m + Z.b2z (Bool.eqb s s' && (msg =? MSG_OK)).
Proof.
  intros (Hnd & Hsus & Hlive & Hready) Hs Hmsg.
  destruct (proj1 (Hsus s t)) as (c & Ec & Hc); [rewrite Hs; left|].
  pose proof (Hnd s) as Hns. rewrite Hs in Hns. apply NoDup_cons in Hns as [Hnin Hnr].
  unfold wake_one. simpl. rewrite Ec. split; [split_and!|].
  - intros s'. unfold without. destruct (Bool.eqb s s'); [exact Hnr|apply Hnd].
  - intros s' t'. unfold without. destruct (decide (t' = t)) as [->|Ht].
    + rewrite lookup_insert_eq. split; [|intros (? & [=] & _)].
      intros Hin. exfalso. destruct (Bool.eqb s s') eqn:Es; [contradiction|].
      apply Hsus in Hin as (c' & Ec' & Hc'). rewrite Ec in Ec'. injection Ec' as <-.
      rewrite Hc in Hc'. subst s'. rewrite Bool.eqb_reflx in Es. discriminate.
    + rewrite lookup_insert_ne by congruence. rewrite <- Hsus.
      destruct (Bool.eqb s s') eqn:Es; [|reflexivity]. apply Bool.eqb_prop in Es. subst s'.
      rewrite Hs, elem_of_cons. intuition.
  - intros t' c'. destruct (decide (t' = t)) as [->|Ht];
      [rewrite lookup_insert_eq; discriminate|rewrite lookup_insert_ne by congruence; apply Hlive].
  - intros t' c' msg'. destruct (decide (t' = t)) as [->|Ht];
      [|rewrite lookup_insert_ne by congruence; apply Hready].
    rewrite lookup_insert_eq. intros [= <- <-]. split; [exact (Hlive _ _ Ec)|exact Hmsg].
  - intros s'. rewrite ready_count_insert, (ready_count_delete s' m t), Ec. simpl. rewrite Hc. lia.
Qed.

Lemma wake_all_ok live s msg rest ts : forall wait m,
  threads_ok live wait m -> wait s = ts ++ rest -> msg <= MSG_OK ->
  threads_ok live (without s rest wait) (wake_all (with_msg msg ts) m) /\
  forall s', ready_count s' (wake_all (with_msg msg ts) m) =
    ready_count s' m + (if Bool.eqb s s' && (msg =? MSG_OK) then Z.of_nat (length ts) else 0).
Proof.
  induction ts as [|t ts IH]; intros wait m Hok Hs Hmsg.
  - simpl in *. split; [|intros s'; case_bool; lia].
    assert (forall s', without s rest wait s' = wait s') as E.
    { intros s'. unfold without. destruct (Bool.eqb s s') eqn:Es; [|reflexivity].
      apply Bool.eqb_prop in Es. subst s'. symmetry. exact Hs. }
    destruct Hok as (Hnd & Hsus & Hrest). split_and!; try apply Hrest.
    + intros s'. rewrite E. apply Hnd.
    + intros s' t'. rewrite E. apply Hsus.
  - simpl in *. destruct (wake_one_ok _ _ _ _ _ _ msg Hok Hs Hmsg) as [Hok1 Hc1].
    destruct (IH (without s (ts ++ rest) wait) (wake_one m (t, msg)) Hok1) as [Hok2 Hc2];
      [unfold without; rewrite Bool.eqb_reflx; reflexivity|exact Hmsg|].
    split.
    + destruct Hok2 as (Hnd & Hsus & Hrest). split_and!; try apply Hrest.
      * intros s'. specialize (Hnd s'). unfold without in *. destruct (Bool.eqb s s'); exact Hnd.
      * intros s' t'. specialize (Hsus s' t'). unfold without in *.
        destruct (Bool.eqb s s'); exact Hsus.
    + intros s'. change (wake_all (with_msg msg (t :: ts)) m)
        with (wake_all (with_msg msg ts) (wake_one m (t, msg))). rewrite Hc2, Hc1.
      destruct (Bool.eqb s s' && (msg =? MSG_OK)); simpl Z.b2z; lia.
Qed.

Context `{!ChannelLaws Q I C R}.

(** What is available on a side can be taken by threads that are awake, unless
    no thread of that side waits. *)
Definition sys_inv (sy : system Q C) : Prop :=
  ch_inv (sy_obj sy) /\
  threads_ok ch_live (fun s => ch_waiting s (sy_obj sy)) (sy_threads sy) /\
  forall s, ch_waiting s (sy_obj sy) = [] \/
            ch_avail s (sy_obj sy) <= ready_count s (sy_threads sy).

Lemma threads_ok_ext live wait wait' m :
  (forall s, wait s = wait' s) -> threads_ok live wait m -> threads_ok live wait' m.
Proof.
  intros E (Hnd & Hsus & Hrest). split_and!; try apply Hrest.
  - intros s. rewrite <- E. apply Hnd.
  - intros s t. rewrite <- E. apply Hsus.
Qed.

Lemma wake_all_keeps ws t : forall m,
  (forall c, m !! t <> Some (Suspended c)) -> wake_all ws m !! t = m !! t.
Proof.
  induction ws as [|w ws IH]; intros m Hn; [reflexivity|].
  assert (E : wake_one m w !! t = m !! t).
  { unfold wake_one. destruct (decide (fst w = t)) as [<-|Ht].
    - destruct (m !! fst w) as [[c'| |]|] eqn:E; try (rewrite E; reflexivity).
      exfalso. exact (Hn c' eq_refl).
    - destruct (m !! fst w) as [[c'| |]|]; try reflexivity. apply lookup_insert_ne. exact Ht. }
  change (wake_all (w :: ws) m) with (wake_all ws (wake_one m w)).
  rewrite IH; rewrite E; [reflexivity|exact Hn].
Qed.

(** What an operation's wake-ups do to the threads. *)
Lemma moves_ok live enq (q q' : Q) ev m :
  moves enq q q' ev -> threads_ok live (fun s => ch_waiting s q) m ->
  exists rest, threads_ok live rest (wake_all (wakes ev) m) /\
    forall s, ch_waiting s q' = rest s ++ enq s /\
      ready_count s m <= ready_count s (wake_all (wakes ev) m) /\
      (ch_waiting s q = [] -> rest s = []) /\
      (ch_waiting s q' = [] \/
       ch_avail s q' <= ch_avail s q + (ready_count s (wake_all (wakes ev) m) - ready_count s m)).
Proof.
  intros (msg & wt & wf & Hmsg & Hw & (rt & Ht & Ht' & At) & (rf & Hf & Hf' & Af)) Hok.
  destruct (wake_all_ok live true msg rt wt _ _ Hok Ht Hmsg) as [Hok1 C1].
  destruct (wake_all_ok live false msg rf wf _ _ Hok1 Hf Hmsg) as [Hok2 C2].
  assert (E : wake_all (wakes ev) m = wake_all (with_msg msg wf) (wake_all (with_msg msg wt) m)).
  { rewrite Hw. apply foldl_app. }
  rewrite E. exists (fun s : bool => if s then rt else rf). split.
  - refine (threads_ok_ext _ _ _ _ _ Hok2). intros []; reflexivity.
  - intros s. rewrite C2, C1. destruct s; simpl; [rewrite Ht, Ht'|rewrite Hf, Hf'];
      split_and!; auto; try (case_bools; lia);
      try (intros Hnil; apply app_nil in Hnil; apply Hnil);
      [rewrite Ht' in At; destruct At as [At|At] | rewrite Hf' in Af; destruct Af as [Af|Af]];
      auto; right; case_bools; lia.
Qed.

(** What the end of a call's step does to its thread. *)
Lemma settle_ok t c o rest m :
  threads_ok ch_live rest m -> (forall c', m !! t <> Some (Suspended c')) ->
  match o with Blocked c' => ch_live c' /\ ch_side c' = ch_side c | _ => True end ->
  threads_ok ch_live (fun s => rest s ++ enqueued t c o s) (settle t o m) /\
  forall s, ready_count s (settle t o m) =
    ready_count s m - match m !! t with Some st => Z.b2z (takes s st) | None => 0 end.
Proof.
  intros (Hnd & Hsus & Hlive & Hready) Hn Ho.
  assert (Hnin : forall s, t ∉ rest s).
  { intros s Hin. apply Hsus in Hin as (c' & Ec & _). exact (Hn c' Ec). }
  assert (Hcount : forall s, ready_count s (settle t o m) = ready_count s (delete t m)).
  { intros s. destruct o; simpl; rewrite ?ready_count_insert; simpl; lia. }
  split; [|intros s; rewrite Hcount, (ready_count_delete s m t); lia].
  unfold threads_ok. destruct o as [r|c'|c']; simpl in *; split_and!.
  all: try (intros t' c1; destruct (decide (t' = t)) as [->|Ht'];
    rewrite ?lookup_delete_eq, ?lookup_insert_eq, ?lookup_delete_ne, ?lookup_insert_ne by congruence;
    first [discriminate | apply Hlive | apply Hready | intros [= <-]; apply Ho | discriminate]).
  all: try (intros s; rewrite ?app_nil_r; apply Hnd).
  all: try (intros s t'; rewrite ?app_nil_r; destruct (decide (t' = t)) as [->|Ht'];
    rewrite ?lookup_delete_eq, ?lookup_insert_eq, ?lookup_delete_ne, ?lookup_insert_ne by congruence;
    [split; [intros Hin; destruct (Hnin _ Hin)|intros (? & [=] & _)] | apply Hsus]).
  - intros s. case_bool; [|rewrite app_nil_r; apply Hnd].
    apply NoDup_app. split_and!; [apply Hnd| |apply NoDup_singleton].
    intros t' Hin Hin'. apply list_elem_of_singleton in Hin'. subst t'. exact (Hnin _ Hin).
  - intros s t'. rewrite elem_of_app. destruct (decide (t' = t)) as [->|Ht'].
    + rewrite lookup_insert_eq. case_bool.
      * apply Bool.eqb_prop in E. split; [|intros; right; left].
        intros _. exists c'. split; [reflexivity|]. destruct Ho as [_ ->]. exact E.
      * split; [intros [Hin|Hin]; [destruct (Hnin _ Hin)|inversion Hin]|].
        intros (c1 & [= <-] & Hs). destruct Ho as [_ Ho]. rewrite Ho in Hs. subst s.
        rewrite Bool.eqb_reflx in E. discriminate.
    + rewrite lookup_insert_ne by congruence. rewrite <- Hsus. case_bool.
      * rewrite list_elem_of_singleton. intuition.
      * split; [intros [Hin|Hin]; [exact Hin|inversion Hin]|auto].
Qed.

(** ** Every step keeps the invariant *)

Definition event_ok (e : sys_event I C) : Prop :=
  match e with EvIsr i => ch_isr_ok i | _ => True end.

Lemma call_inv sy t c :
  sys_inv sy ->
  match sy_threads sy !! t with
  | None | Some (Running _) => True
  | Some (Ready c' msg) => c' = c /\ msg = MSG_OK
  | Some (Suspended _) => False
  end ->
  exists sy', after_call t sy (ch_call t c (sy_obj sy)) = Some sy' /\ sys_inv sy'.
Proof.
  intros (Hinv & Hok & Hlost) Ht. pose proof Hok as (_ & _ & _ & Hready).
  destruct (ch_call_law t c _ Hinv) as (q' & o & ev & E & Hinv' & Hmoves & Ho & Htake).
  assert (Hns : forall c', sy_threads sy !! t <> Some (Suspended c'))
    by (intros c' Ec; rewrite Ec in Ht; exact Ht).
  unfold after_call. rewrite E. simpl. eexists. split; [reflexivity|].
  destruct (moves_ok _ _ _ _ _ _ Hmoves Hok) as (rest & Hok' & Hs).
  pose proof (wake_all_keeps (wakes ev) t _ Hns) as Hkeep.
  destruct (settle_ok t c o rest _ Hok') as [Hok2 Hc2];
    [rewrite Hkeep; exact Hns | destruct o; intuition |].
  unfold sys_inv. simpl. split_and!; [exact Hinv'| |].
  - refine (threads_ok_ext _ _ _ _ _ Hok2). intros s. symmetry. apply Hs.
  - intros s. destruct (Hs s) as (Hw & Hle & Hnil & [Hd|Hd]); [left; exact Hd|].
    destruct (ch_waiting s (sy_obj sy)) as [|t0 ts] eqn:Eq.
    + rewrite Hw, (Hnil eq_refl). simpl. unfold enqueued in *. destruct o as [r|c'|c']; auto.
      case_bool; auto. right. apply Bool.eqb_prop in E0. subst s.
      pose proof (ready_count_nonneg (ch_side c) (settle t (Blocked c') (wake_all (wakes ev) (sy_threads sy)))).
      destruct Ho as (_ & _ & Ho). lia.
    + right. destruct (Hlost s) as [Hlost'|Hlost']; [congruence|]. rewrite Hc2, Hkeep.
      pose proof (ready_count_nonneg s (settle t o (wake_all (wakes ev) (sy_threads sy)))) as Hpos.
      rewrite Hc2, Hkeep in Hpos.
      destruct (sy_threads sy !! t) as [[c'|c' msg|c']|] eqn:Et; simpl in *; try lia.
      destruct Ht as [-> ->]. destruct (Hready t c MSG_OK Et) as [Hlive _].
      destruct (Bool.eqb (ch_side c) s) eqn:Es; simpl in *; [|lia].
      apply Bool.eqb_prop in Es. subst s. destruct (Htake Hlive); lia.
Qed.

Lemma isr_inv sy i :
  sys_inv sy -> ch_isr_ok i -> exists sy', sys_step (EvIsr i) sy = Some sy' /\ sys_inv sy'.
Proof.
  intros (Hinv & Hok & Hlost) Hi.
  destruct (ch_isr_law i _ Hinv Hi) as (q' & ev & E & Hinv' & Hmoves).
  simpl. rewrite E. simpl. eexists. split; [reflexivity|].
  destruct (moves_ok _ _ _ _ _ _ Hmoves Hok) as (rest & Hok' & Hs).
  unfold sys_inv. simpl. split_and!; [exact Hinv'| |].
  - refine (threads_ok_ext _ _ _ _ _ Hok'). intros s. destruct (Hs s) as [-> _].
    rewrite app_nil_r. reflexivity.
  - intros s. destruct (Hs s) as (Hw & Hle & Hnil & [Hd|Hd]); [left; exact Hd|].
    destruct (ch_waiting s (sy_obj sy)) eqn:Eq; [left; rewrite Hw, (Hnil eq_refl); reflexivity|].
    destruct (Hlost s) as [Hl|Hl]; [congruence|]. right. lia.
Qed.

Lemma filter_ne_other t (l : list nat) : t ∉ l -> filter (fun t' => t' <> t) l = l.
Proof.
  induction l as [|x l IH]; [reflexivity|]. rewrite not_elem_of_cons. intros [Hx Hl].
  rewrite filter_cons_True by congruence. rewrite IH by exact Hl. reflexivity.
Qed.

Lemma timeout_inv sy t :
  sys_inv sy -> exists sy', sys_step (EvTimeout t) sy = Some sy' /\ sys_inv sy'.
Proof.
  intros (Hinv & Hok & Hlost). simpl.
  destruct (sy_threads sy !! t) as [[c|c msg|c]|] eqn:Et;
    try (eexists; split; [reflexivity|split_and!; assumption]).
  eexists. split; [reflexivity|].
  destruct (ch_expire_law (ch_side c) t _ Hinv) as (Hinv' & Hw & Hw' & Hav).
  destruct Hok as (Hnd & Hsus & Hlive & Hready).
  assert (Hwait : forall s, ch_waiting s (ch_expire (ch_side c) t (sy_obj sy)) =
                            filter (fun t' => t' <> t) (ch_waiting s (sy_obj sy))).
  { intros s. destruct (Bool.bool_dec s (ch_side c)) as [->|Hs]; [exact Hw|].
    assert (s = negb (ch_side c)) as -> by (destruct s, (ch_side c); simpl; congruence).
    rewrite Hw', filter_ne_other; [reflexivity|]. intros Hin.
    apply Hsus in Hin as (c' & Ec & Hc'). rewrite Et in Ec. injection Ec as <-. auto. }
  unfold sys_inv. simpl. unfold wake_one. simpl. rewrite Et. split_and!; [exact Hinv'| |].
  - split_and!.
    + intros s. rewrite Hwait. apply NoDup_filter, Hnd.
    + intros s t'. rewrite Hwait, list_elem_of_filter.
      destruct (decide (t' = t)) as [->|Ht].
      * rewrite lookup_insert_eq. split; [tauto|]. intros (? & [=] & _).
      * rewrite lookup_insert_ne by congruence. rewrite <- Hsus. tauto.
    + intros t' c'. destruct (decide (t' = t)) as [->|Ht];
        [rewrite lookup_insert_eq; discriminate|rewrite lookup_insert_ne by congruence; apply Hlive].
    + intros t' c' msg. destruct (decide (t' = t)) as [->|Ht];
        [|rewrite lookup_insert_ne by congruence; apply Hready].
      rewrite lookup_insert_eq. intros [= <- <-]. split; [exact (Hlive _ _ Et)|discriminate].
  - intros s. rewrite Hwait, Hav. destruct (Hlost s) as [->|Hl]; [left; reflexivity|].
    right. rewrite ready_count_insert. simpl. rewrite andb_false_r.
    rewrite (ready_count_delete s (sy_threads sy) t), Et in Hl. exact Hl.
Qed.

Lemma sys_step_inv sy e :
  sys_inv sy -> sys_enabled e sy = true -> event_ok e ->
  exists sy', sys_step e sy = Some sy' /\ sys_inv sy'.
Proof.
  intros Hsy Hen Hok. destruct e as [i|t c|t|t].
  - apply isr_inv; assumption.
  - simpl in *. apply call_inv; [exact Hsy|]. destruct (sy_threads sy !! t); [discriminate|auto].
  - simpl in *. destruct (sy_threads sy !! t) as [[c|c msg|c]|] eqn:Et; try discriminate.
    + destruct (proj2 (proj2 (proj2 (proj1 (proj2 Hsy)))) t c msg Et) as [_ Hmsg].
      destruct (ch_resume_law t msg c (sy_obj sy)) as [HOK Herr].
      destruct (decide (msg = MSG_OK)) as [->|Hne].
      * rewrite HOK by reflexivity. apply call_inv; [exact Hsy|]. rewrite Et. auto.
      * destruct Herr as [r ->]; [lia|]. simpl. eexists. split; [reflexivity|].
        destruct Hsy as (Hinv & Hthr & Hlost).
        destruct (settle_ok t c (Return r) _ _ Hthr) as [Hthr' Hc'];
          [intros c'; rewrite Et; discriminate|exact Logic.I|].
        unfold sys_inv. simpl in *. split_and!; [exact Hinv| |].
        -- refine (threads_ok_ext _ _ _ _ _ Hthr'). intros s. apply app_nil_r.
        -- intros s. rewrite Hc', Et. simpl. rewrite (proj2 (Z.eqb_neq _ _) Hne), andb_false_r.
           rewrite Z.sub_0_r. apply Hlost.
    + apply call_inv; [exact Hsy|]. rewrite Et. auto.
  - apply timeout_inv; assumption.
Qed.

Lemma sys_run_inv es : forall sy sy',
  sys_inv sy -> Forall event_ok es -> sys_run es sy = Some sy' -> sys_inv sy'.
Proof.
  induction es as [|e es IH]; intros sy sy' Hsy Hes Hrun; simpl in Hrun.
  - injection Hrun as <-. exact Hsy.
  - inversion_clear Hes as [|? ? He Hes']. case_bool_in Hrun; [|discriminate].
    destruct (sys_step_inv _ _ Hsy E He) as (sy1 & E1 & Hsy1). rewrite E1 in Hrun. simpl in Hrun.
    exact (IH _ _ Hsy1 Hes' Hrun).
Qed.

(** In a consistent system every event that can happen is defined, a thread is
    suspended exactly when it is in a wait queue, and threads wait on a side
    only while all that is available there is left to threads that are awake. *)
Definition no_lost_wakeup (sy : system Q C) : Prop :=
  (forall e, event_ok e -> sys_enabled e sy = true -> sys_step e sy <> None) /\
  (forall s t, t ∈ ch_waiting s (sy_obj sy) <->
     exists c, sy_threads sy !! t = Some (Suspended c) /\ ch_side c = s) /\
  (forall s, ch_waiting s (sy_obj sy) <> [] ->
     ch_avail s (sy_obj sy) <= ready_count s (sy_threads sy)).

Lemma sys_inv_no_lost_wakeup sy : sys_inv sy -> no_lost_wakeup sy.
Proof.
  intros Hsy. split_and!.
  - intros e He Hen. destruct (sys_step_inv sy e Hsy Hen He) as (sy' & -> & _). discriminate.
  - apply Hsy.
  - intros s Hs. destruct Hsy as (_ & _ & Hlost). destruct (Hlost s); [contradiction|assumption].
Qed.

(** An object no thread waits for starts a consistent system. *)
Lemma sys_init_inv (q : Q) :
  ch_inv q -> (forall s, ch_waiting s q = []) -> sys_inv (Sys q ∅).
Proof.
  intros Hinv Hnone. unfold sys_inv. simpl. split_and!; [exact Hinv| |auto].
  split_and!.
  - intros s. rewrite Hnone. constructor.
  - intros s t. rewrite Hnone, lookup_empty. split; [intros Hin; inversion Hin|intros (? & [=] & _)].
  - intros t c. rewrite lookup_empty. discriminate.
  - intros t c msg. rewrite lookup_empty. discriminate.
Qed.

End System.
