(* ===== verification/Rings.v ===== *)
(** * Ring buffers

    The I/O queues and the mailboxes of ChibiOS keep their items in an array with a
    read and a write position that wrap at its end.  [ring_content] is the
    sequence such an array holds; the lemmas say what writing at the write
    position and advancing either position do to it. *)

From S2P Require Import Prelude CInt CLib.

(** The [n] items from position [r] on. *)
Definition ring_content (buf : list Z) (r n : Z) : list Z :=
  (fun i => nth (Z.to_nat ((r + Z.of_nat i) mod Z.of_nat (length buf))) buf 0)
    <$> seq 0 (Z.to_nat n).

(** [r] advanced by one with the wrap the code makes. *)
Definition ring_next (size r : Z) : Z := if size <=? r + 1 then 0 else r + 1.

(** A ring of [n] items: both positions are in the array, and the write position
    is [n] items behind the read position. *)
Definition ring_ok (buf : list Z) (r w n : Z) : Prop :=
  let size := Z.of_nat (length buf) in
  0 < size /\ 0 <= r < size /\ 0 <= n <= size /\ w = (r + n) mod size.

Lemma ring_content_length buf r n : length (ring_content buf r n) = Z.to_nat n.
Proof. unfold ring_content. rewrite length_fmap, length_seq. reflexivity. Qed.

Lemma ring_next_mod size r : 0 < size -> 0 <= r < size -> ring_next size r = (r + 1) mod size.
Proof.
  intros Hs Hr. unfold ring_next. case_bool.
  - replace (r + 1) with size by lia. rewrite Z_mod_same_full. reflexivity.
  - rewrite Z.mod_small; lia.
Qed.

Lemma nth_lookup_Z (buf : list Z) k d : 0 <= k < Z.of_nat (length buf) ->
  buf !! Z.to_nat k = Some (nth (Z.to_nat k) buf d).
Proof. intros H. rewrite nth_lookup. destruct (lookup_lt_is_Some_2 buf (Z.to_nat k)) as [x ->]; [lia|]. reflexivity. Qed.

Lemma rd_nth buf k : 0 <= k < Z.of_nat (length buf) -> rd buf k = Some (nth (Z.to_nat k) buf 0).
Proof.
  intros H. unfold rd. rewrite (proj2 (Z.leb_le 0 k)) by lia. apply nth_lookup_Z. exact H.
Qed.

(** Two positions less than a whole turn apart are different cells. *)
Lemma mod_distinct r i j size :
  0 <= i -> i < j -> j < i + size -> (r + i) mod size <> (r + j) mod size.
Proof.
  intros Hi Hij Hj He. assert (0 < size) by lia.
  pose proof (Z_div_mod_eq_full (r + i) size). pose proof (Z_div_mod_eq_full (r + j) size).
  assert (j - i = size * ((r + j) / size - (r + i) / size)) by lia.
  assert (0 < (r + j) / size - (r + i) / size) by nia. nia.
Qed.

Lemma nth_insert_ne (buf : list Z) (i j : nat) b : i <> j -> nth i (<[j := b]> buf) 0 = nth i buf 0.
Proof. intros H. rewrite !nth_lookup, list_lookup_insert_ne by congruence. reflexivity. Qed.

Lemma nth_insert_eq (buf : list Z) (i : nat) b : (i < length buf)%nat -> nth i (<[i := b]> buf) 0 = b.
Proof. intros H. rewrite nth_lookup, list_lookup_insert_eq by exact H. reflexivity. Qed.

(** Writing at the write position appends. *)
Lemma ring_put buf r w n b :
  ring_ok buf r w n -> n < Z.of_nat (length buf) ->
  wr buf w b = Some (<[Z.to_nat w := b]> buf) /\
  ring_content (<[Z.to_nat w := b]> buf) r (n + 1) = ring_content buf r n ++ [b] /\
  ring_ok (<[Z.to_nat w := b]> buf) r (ring_next (Z.of_nat (length buf)) w) (n + 1).
Proof.
  intros (Hs & Hr & Hn & Hw) Hlt. set (size := Z.of_nat (length buf)) in *.
  assert (Hw0 : 0 <= w < size) by (subst w; apply Z.mod_pos_bound; lia).
  split; [apply wr_defined; lia|]. split.
  - unfold ring_content. rewrite length_insert. fold size.
    replace (Z.to_nat (n + 1)) with (S (Z.to_nat n)) by lia.
    rewrite seq_S, fmap_app. f_equal.
    + apply list_fmap_ext. intros i x Hx. apply lookup_seq in Hx as [-> Hi].
      apply nth_insert_ne. intros He. apply Z2Nat.inj in He; [|apply Z.mod_pos_bound; lia|lia].
      rewrite Hw in He. revert He. apply mod_distinct; lia.
    + simpl. rewrite Z2Nat.id by lia. rewrite <- Hw. f_equal. apply nth_insert_eq. lia.
  - unfold ring_ok. rewrite length_insert. fold size. split_and!; try lia.
    rewrite ring_next_mod by lia. rewrite Hw, Zplus_mod_idemp_l. f_equal. lia.
Qed.

(** Reading at the read position and advancing it removes the first item. *)
Lemma ring_get buf r w n :
  ring_ok buf r w n -> 0 < n ->
  exists b, rd buf r = Some b /\
    ring_content buf r n = b :: ring_content buf (ring_next (Z.of_nat (length buf)) r) (n - 1) /\
    ring_ok buf (ring_next (Z.of_nat (length buf)) r) w (n - 1).
Proof.
  intros (Hs & Hr & Hn & Hw) Hpos. set (size := Z.of_nat (length buf)) in *.
  eexists. split; [apply rd_nth; exact Hr|]. rewrite ring_next_mod by lia. split.
  - unfold ring_content. fold size. replace (Z.to_nat n) with (S (Z.to_nat (n - 1))) by lia.
    cbn [seq fmap list_fmap]. rewrite Z.add_0_r, (Z.mod_small r) by lia. f_equal.
    rewrite <- fmap_S_seq, <- list_fmap_compose. apply list_fmap_ext. intros i x _. simpl.
    rewrite Zplus_mod_idemp_l. do 3 f_equal. lia.
  - unfold ring_ok. fold size. split_and!; try lia; try (apply Z.mod_pos_bound; lia).
    rewrite Zplus_mod_idemp_l. rewrite Hw. f_equal. lia.
Qed.

(** The first [k] of [n] items. *)
Lemma ring_content_take buf r n k :
  0 <= k <= n -> take (Z.to_nat k) (ring_content buf r n) = ring_content buf r k.
Proof.
  intros Hk. unfold ring_content. rewrite <- fmap_take.
  rewrite take_seq. f_equal. f_equal. lia.
Qed.

Lemma ring_content_drop buf r n k :
  0 <= k <= n -> drop (Z.to_nat k) (ring_content buf r n) = ring_content buf (r + k) (n - k).
Proof.
  intros Hk. unfold ring_content. rewrite <- fmap_drop, drop_seq.
  replace (Z.to_nat (n - k)) with (Z.to_nat n - Z.to_nat k)%nat by lia.
  apply list_eq. intros i. rewrite !list_lookup_fmap.
  destruct (decide (i < Z.to_nat n - Z.to_nat k)%nat) as [Hi|Hi].
  - rewrite !lookup_seq_lt by lia. simpl. do 4 f_equal. lia.
  - rewrite !lookup_seq_ge by lia. reflexivity.
Qed.

(** The read position counts modulo the size. *)
Lemma ring_content_mod buf r n :
  0 < Z.of_nat (length buf) ->
  ring_content buf (r mod Z.of_nat (length buf)) n = ring_content buf r n.
Proof.
  intros Hs. unfold ring_content. apply list_fmap_ext. intros i x _.
  rewrite Zplus_mod_idemp_l. reflexivity.
Qed.

(** A stretch that does not wrap is a slice of the array. *)
Lemma ring_content_slice buf r n :
  0 <= r -> 0 <= n -> r + n <= Z.of_nat (length buf) ->
  ring_content buf r n = take (Z.to_nat n) (drop (Z.to_nat r) buf).
Proof.
  intros Hr Hn Hle. unfold ring_content. apply list_eq. intros i. rewrite list_lookup_fmap.
  destruct (decide (i < Z.to_nat n)%nat) as [Hi|Hi].
  - rewrite lookup_seq_lt by lia. simpl. rewrite lookup_take_lt, lookup_drop by lia.
    rewrite Z.mod_small by lia.
    replace (Z.to_nat r + i)%nat with (Z.to_nat (r + Z.of_nat i)) by lia.
    rewrite (nth_lookup_Z buf _ 0) by lia. reflexivity.
  - rewrite lookup_seq_ge by lia. simpl. rewrite lookup_take_ge by lia. reflexivity.
Qed.

(** The first [a] of [a + b] items, then the others. *)
Lemma ring_content_app buf r a b :
  0 <= a -> 0 <= b -> ring_content buf r (a + b) = ring_content buf r a ++ ring_content buf (r + a) b.
Proof.
  intros Ha Hb. rewrite <- (take_drop (Z.to_nat a) (ring_content buf r (a + b))).
  rewrite ring_content_take, ring_content_drop by lia. do 2 f_equal. lia.
Qed.

(** Advancing the read position removes items from the head. *)
Lemma ring_skip buf r w n k :
  ring_ok buf r w n -> 0 <= k <= n ->
  ring_ok buf ((r + k) mod Z.of_nat (length buf)) w (n - k) /\
  ring_content buf ((r + k) mod Z.of_nat (length buf)) (n - k) = drop (Z.to_nat k) (ring_content buf r n).
Proof.
  intros (Hs & Hr & Hn & Hw) Hk. split.
  - unfold ring_ok. split_and!; try lia; try (apply Z.mod_pos_bound; lia).
    rewrite Zplus_mod_idemp_l, Hw. f_equal. lia.
  - rewrite ring_content_mod, ring_content_drop by lia. reflexivity.
Qed.

(** Both positions agree when the ring is empty and when it is full. *)
Lemma ring_full buf r w n :
  ring_ok buf r w n -> (w =? r) && negb (n =? 0) = (n =? Z.of_nat (length buf)).
Proof.
  intros (Hs & Hr & Hn & Hw). apply Bool.eq_iff_eq_true.
  rewrite andb_true_iff, negb_true_iff, !Z.eqb_eq, Z.eqb_neq. split.
  - intros [Hwr Hn0]. assert (~ n < Z.of_nat (length buf)); [|lia]. intros Hlt.
    apply (mod_distinct r 0 n (Z.of_nat (length buf))); try lia.
    rewrite Z.add_0_r, <- Hw, Z.mod_small by lia. symmetry. exact Hwr.
  - intros ->. split; [|lia]. rewrite Hw. replace (r + Z.of_nat (length buf)) with (r + 1 * Z.of_nat (length buf)) by lia.
    rewrite Z_mod_plus_full. apply Z.mod_small. exact Hr.
Qed.

(** ** Block writes *)

Lemma memcpy_zero dst off src : 0 <= off <= Z.of_nat (length dst) -> memcpy dst off src 0 = Some dst.
Proof.
  intros H. unfold memcpy. rewrite !(proj2 (Z.leb_le _ _)) by lia. simpl.
  rewrite Z.add_0_r, take_drop. reflexivity.
Qed.

Lemma memcpy_cons dst off b src n :
  0 <= off -> off < Z.of_nat (length dst) -> 0 <= n ->
  memcpy dst off (b :: src) (n + 1) = memcpy (<[Z.to_nat off := b]> dst) (off + 1) src n.
Proof.
  intros Ho Hlt Hn. unfold memcpy. rewrite length_insert. cbn [length].
  rewrite (proj2 (Z.leb_le 0 off)), (proj2 (Z.leb_le 0 (n + 1))), (proj2 (Z.leb_le 0 (off + 1))),
    (proj2 (Z.leb_le 0 n)) by lia. cbn [andb].
  replace (off + (n + 1) <=? Z.of_nat (length dst)) with (off + 1 + n <=? Z.of_nat (length dst))
    by (f_equal; lia).
  replace (n + 1 <=? Z.of_nat (S (length src))) with (n <=? Z.of_nat (length src))
    by (apply Bool.eq_iff_eq_true; rewrite !Z.leb_le; lia).
  case_bool; [|reflexivity]. f_equal.
  replace (Z.to_nat (n + 1)) with (S (Z.to_nat n)) by lia.
  replace (Z.to_nat (off + 1)) with (S (Z.to_nat off)) by lia.
  rewrite (take_S_r (<[Z.to_nat off := b]> dst) _ b) by (apply list_lookup_insert_eq; lia).
  rewrite take_insert_ge by lia. rewrite drop_insert_lt by lia.
  rewrite <- app_assoc. cbn [app firstn]. do 4 f_equal. lia.
Qed.

(** A block that does not wrap, written at the write position, is appended. *)
Lemma ring_write bs : forall buf r w n k,
  ring_ok buf r w n -> 0 <= k <= Z.of_nat (length bs) ->
  n + k <= Z.of_nat (length buf) -> w + k <= Z.of_nat (length buf) ->
  exists buf', memcpy buf w bs k = Some buf' /\ length buf' = length buf /\
    ring_content buf' r (n + k) = ring_content buf r n ++ take (Z.to_nat k) bs /\
    ring_ok buf' r (if w + k =? Z.of_nat (length buf) then 0 else w + k) (n + k).
Proof.
  induction bs as [|b bs IH]; intros buf r w n k Hok Hk Hn Hw; pose proof Hok as (Hs & Hr & Hn0 & Ew).
  all: assert (Hw0 : 0 <= w < Z.of_nat (length buf)) by (subst w; apply Z.mod_pos_bound; lia).
  all: destruct (decide (k = 0)) as [->|Hne].
  all: try (exists buf; rewrite memcpy_zero, !Z.add_0_r, app_nil_r, (proj2 (Z.eqb_neq _ _)) by lia;
    split_and!; auto; exact Hok).
  - simpl in Hk. lia.
  - cbn [length] in Hk.
    destruct (ring_put _ _ _ _ b Hok) as (_ & Ec & Hok'); [lia|].
    assert (Em : memcpy buf w (b :: bs) k = memcpy (<[Z.to_nat w := b]> buf) (w + 1) bs (k - 1))
      by (rewrite <- memcpy_cons by lia; f_equal; lia).
    rewrite Em.
    destruct (decide (w + 1 = Z.of_nat (length buf))) as [He|He].
    + assert (k = 1) as -> by lia. change (1 - 1) with 0 in *.
      rewrite memcpy_zero by (rewrite length_insert; lia). eexists. split; [reflexivity|].
      rewrite length_insert. split_and!; [reflexivity|exact Ec|].
      rewrite (proj2 (Z.eqb_eq _ _)) by lia. unfold ring_next in Hok'.
      rewrite (proj2 (Z.leb_le _ _)) in Hok' by lia. exact Hok'.
    + unfold ring_next in Hok'. rewrite (proj2 (Z.leb_gt _ _)) in Hok' by lia.
      destruct (IH _ _ _ _ (k - 1) Hok') as (buf' & E & Hl & Ec' & Hok2);
        rewrite ?length_insert; try lia.
      rewrite length_insert in *. exists buf'. split_and!; [exact E|exact Hl| |].
      * replace (n + k) with (n + 1 + (k - 1)) by lia. rewrite Ec', Ec, <- app_assoc.
        replace (Z.to_nat k) with (S (Z.to_nat (k - 1))) by lia. reflexivity.
      * replace (w + k) with (w + 1 + (k - 1)) by lia. replace (n + k) with (n + 1 + (k - 1)) by lia.
        exact Hok2.
Qed.

(** [r] moved back by one with the wrap the code makes. *)
Definition ring_prev (size r : Z) : Z := if r - 1 <? 0 then size - 1 else r - 1.

Lemma ring_prev_mod size r : 0 < size -> 0 <= r < size -> ring_prev size r = (r - 1) mod size.
Proof.
  intros Hs Hr. unfold ring_prev. case_bool.
  - apply (Z.mod_unique_pos _ _ (-1)); lia.
  - rewrite Z.mod_small; lia.
Qed.

(** Moving the read position back and writing there puts an item at the head. *)
Lemma ring_push buf r w n b :
  ring_ok buf r w n -> n < Z.of_nat (length buf) ->
  let r' := ring_prev (Z.of_nat (length buf)) r in
  wr buf r' b = Some (<[Z.to_nat r' := b]> buf) /\
  ring_content (<[Z.to_nat r' := b]> buf) r' (n + 1) = b :: ring_content buf r n /\
  ring_ok (<[Z.to_nat r' := b]> buf) r' w (n + 1).
Proof.
  intros (Hs & Hr & Hn & Hw) Hlt r'. set (size := Z.of_nat (length buf)) in *.
  assert (Er : r' = (r - 1) mod size) by (apply ring_prev_mod; assumption).
  assert (Hr' : 0 <= r' < size) by (rewrite Er; apply Z.mod_pos_bound; lia).
  split; [apply wr_defined; exact Hr'|]. split.
  - unfold ring_content. rewrite length_insert. fold size.
    replace (Z.to_nat (n + 1)) with (S (Z.to_nat n)) by lia. cbn [seq fmap list_fmap].
    rewrite Z.add_0_r, (Z.mod_small r') by exact Hr'. f_equal; [apply nth_insert_eq; lia|].
    rewrite <- fmap_S_seq, <- list_fmap_compose. apply list_fmap_ext. intros i x Hx. simpl.
    apply lookup_seq in Hx as [-> Hi]. simpl.
    assert (E : (r' + Z.of_nat (S i)) mod size = (r + Z.of_nat i) mod size)
      by (rewrite Er, Zplus_mod_idemp_l; f_equal; lia).
    rewrite E. apply nth_insert_ne. intros He.
    apply Z2Nat.inj in He; [|apply Z.mod_pos_bound; lia|lia].
    rewrite <- E, <- (Z.mod_small r' size) in He by exact Hr'.
    rewrite Zplus_mod_idemp_l in He. symmetry in He.
    apply (mod_distinct r' 0 (Z.of_nat (S i)) size); rewrite ?Z.add_0_r; lia.
  - unfold ring_ok. rewrite length_insert. fold size. split_and!; try lia.
    rewrite Er, Zplus_mod_idemp_l, Hw. f_equal. lia.
Qed.
