(* ===== verification/Queues.v ===== *)
(** * I/O queues (hal_queues.c)

    The byte queues between the serial driver's interrupts and the threads, the
    GPS receiver's among them.  An operation that would suspend its caller says
    so, and is resumed with the message that woke it, so that every interleaving
    of threads, interrupts and timeouts is a sequence of the calls below.  The
    theorems show that input and output queues implement bounded FIFOs, that no
    wake-up is lost, and that waiting readers are served in order. *)

From stdpp Require Import gmap.
From S2P Require Import Prelude CInt CLib Threads Rings.
#[local] Open Scope Z_scope.

(** ** Data *)

(** Pointers are offsets in the buffer; [q_top] is its length.  Of the callback
    only its presence is kept: its calls are events. *)
Record io_queue := IoQueue {
  q_waiting : threads_queue;
  q_counter : Z;
  q_buffer : list Z;
  q_wrptr : Z;
  q_rdptr : Z;
  q_notify : bool
}.

Definition q_top (q : io_queue) : Z := Z.of_nat (length (q_buffer q)).

Definition q_with (waiting : threads_queue) (counter : Z) (buffer : list Z) (wrptr rdptr : Z)
    (q : io_queue) : io_queue :=
  IoQueue waiting counter buffer wrptr rdptr (q_notify q).

(** The queue's threads woken by [osalThreadDequeueNextI] or
    [osalThreadDequeueAllI]; the calling thread suspended by
    [osalThreadEnqueueTimeoutS], unless that returns a timeout at once. *)
Definition q_dequeue (f : threads_queue -> Z -> threads_queue * list event) (msg : Z) (q : io_queue)
  : io_queue * list event :=
  let '(ts, ev) := f (q_waiting q) msg in
  (q_with ts (q_counter q) (q_buffer q) (q_wrptr q) (q_rdptr q) q, ev).

Definition q_enqueue (t : nat) (timeout : Z) (q : io_queue) : option io_queue :=
  ts ← chThdEnqueueTimeoutS t timeout (q_waiting q);
  Some (q_with ts (q_counter q) (q_buffer q) (q_wrptr q) (q_rdptr q) q).

Definition q_expire (t : nat) (q : io_queue) : io_queue :=
  q_with (fst (sch_wakeup t (q_waiting q))) (q_counter q) (q_buffer q) (q_wrptr q) (q_rdptr q) q.

Definition q_notification (q : io_queue) : list event := if q_notify q then [Notify] else [].

(** ** Input queues *)

Definition iqObjectInit (bp : list Z) (notify : bool) : io_queue := IoQueue chThdQueueObjectInit 0 bp 0 0 notify.

Definition iqIsEmptyI (q : io_queue) : bool := q_counter q =? 0.
Definition iqIsFullI (q : io_queue) : bool := (q_wrptr q =? q_rdptr q) && negb (q_counter q =? 0).
Definition iqGetFullI (q : io_queue) : Z := q_counter q.
Definition iqGetEmptyI (q : io_queue) : Z := q_top q - q_counter q.

Definition iqResetI (q : io_queue) : io_queue * list event :=
  q_dequeue chThdDequeueAllI MSG_RESET (q_with (q_waiting q) 0 (q_buffer q) 0 0 q).

Definition iqPutI (b : Z) (q : io_queue) : option (io_queue * Z * list event) :=
  if iqIsFullI q then Some (q, MSG_TIMEOUT, [])
  else
    buf ← wr (q_buffer q) (q_wrptr q) b;
    let '(q, ev) := q_dequeue chThdDequeueNextI MSG_OK
      (q_with (q_waiting q) (q_counter q + 1) buf (ring_next (q_top q) (q_wrptr q)) (q_rdptr q) q) in
    Some (q, MSG_OK, ev).

(** Taking the byte at the read pointer. *)
Definition iq_take (q : io_queue) : option (io_queue * Z * list event) :=
  b ← rd (q_buffer q) (q_rdptr q);
  Some (q_with (q_waiting q) (q_counter q - 1) (q_buffer q) (q_wrptr q)
          (ring_next (q_top q) (q_rdptr q)) q, b, q_notification q).

Definition iqGetI (q : io_queue) : option (io_queue * Z * list event) :=
  if iqIsEmptyI q then Some (q, MSG_TIMEOUT, []) else iq_take q.

(** [iqGetTimeout] called by thread [t], up to its return or its suspension. *)
Definition iqGetTimeout (t : nat) (timeout : Z) (q : io_queue)
  : option (io_queue * outcome Z unit * list event) :=
  if iqIsEmptyI q then
    match q_enqueue t timeout q with
    | None => Some (q, Return MSG_TIMEOUT, [])
    | Some q => Some (q, Blocked tt, [])
    end
  else '(q, b, ev) ← iq_take q; Some (q, Return b, ev).

(** The same call, resumed with [msg]: an error is returned, otherwise the queue
    is looked at again, because another reader may have been faster. *)
Definition iqGetTimeout_resume (t : nat) (timeout msg : Z) (q : io_queue)
  : option (io_queue * outcome Z unit * list event) :=
  if msg <? MSG_OK then Some (q, Return msg, []) else iqGetTimeout t timeout q.

(** [iq_read]: up to [n] bytes in at most two copies; the bytes put at [bp]. *)
Definition iq_read (n : Z) (q : io_queue) : option (io_queue * list Z) :=
  let n := if iqGetFullI q <? n then iqGetFullI q else n in
  let s1 := q_top q - q_rdptr q in
  let slice off len := take (Z.to_nat len) (drop (Z.to_nat off) (q_buffer q)) in
  _ ← check ((0 <=? q_rdptr q) && (0 <=? n) && (0 <=? s1) && (n <=? s1 + q_top q));
  let '(bytes, rdptr) :=
    if n <? s1 then (slice (q_rdptr q) n, q_rdptr q + n)
    else if s1 <? n then (slice (q_rdptr q) s1 ++ slice 0 (n - s1), n - s1)
    else (slice (q_rdptr q) n, 0) in
  Some (q_with (q_waiting q) (q_counter q - n) (q_buffer q) (q_wrptr q) rdptr q, bytes).

Definition iqReadI (n : Z) (q : io_queue) : option (io_queue * list Z * list event) :=
  _ ← check (0 <? n);
  '(q, bs) ← iq_read n q;
  Some (q, bs, if 0 <? Z.of_nat (length bs) then q_notification q else []).

(** [iqReadTimeout]: the state of a call in progress is what it has read and how
    much it still wants; it returns the number of bytes it has put in the
    caller's buffer, and these bytes. *)
Definition iqReadTimeout_step (t : nat) (timeout : Z) (st : list Z * Z) (q : io_queue)
  : option (io_queue * outcome (Z * list Z) (list Z * Z) * list event) :=
  let '(got, n) := st in
  if n <=? 0 then Some (q, Return (Z.of_nat (length got), got), [])
  else
    '(q, bs) ← iq_read n q;
    if Z.of_nat (length bs) =? 0 then
      match q_enqueue t timeout q with
      | None => Some (q, Return (Z.of_nat (length got), got), [])
      | Some q => Some (q, Blocked (got, n), [])
      end
    else Some (q, More (got ++ bs, n - Z.of_nat (length bs)), q_notification q).

Definition iqReadTimeout_resume (t : nat) (timeout msg : Z) (st : list Z * Z) (q : io_queue)
  : option (io_queue * outcome (Z * list Z) (list Z * Z) * list event) :=
  if negb (msg =? MSG_OK) then Some (q, Return (Z.of_nat (length (fst st)), fst st), [])
  else iqReadTimeout_step t timeout st q.

(** ** Output queues *)

Definition oqObjectInit (bp : list Z) (notify : bool) : io_queue :=
  IoQueue chThdQueueObjectInit (Z.of_nat (length bp)) bp 0 0 notify.

Definition oqIsFullI (q : io_queue) : bool := q_counter q =? 0.
Definition oqIsEmptyI (q : io_queue) : bool := (q_wrptr q =? q_rdptr q) && negb (q_counter q =? 0).
Definition oqGetEmptyI (q : io_queue) : Z := q_counter q.
Definition oqGetFullI (q : io_queue) : Z := q_top q - q_counter q.

Definition oqResetI (q : io_queue) : io_queue * list event :=
  q_dequeue chThdDequeueAllI MSG_RESET (q_with (q_waiting q) (q_top q) (q_buffer q) 0 0 q).

(** Putting a byte at the write pointer. *)
Definition oq_add (b : Z) (q : io_queue) : option (io_queue * list event) :=
  buf ← wr (q_buffer q) (q_wrptr q) b;
  Some (q_with (q_waiting q) (q_counter q - 1) buf (ring_next (q_top q) (q_wrptr q)) (q_rdptr q) q,
        q_notification q).

Definition oqPutI (b : Z) (q : io_queue) : option (io_queue * Z * list event) :=
  if oqIsFullI q then Some (q, MSG_TIMEOUT, [])
  else '(q, ev) ← oq_add b q; Some (q, MSG_OK, ev).

Definition oqPutTimeout (t : nat) (b timeout : Z) (q : io_queue)
  : option (io_queue * outcome Z unit * list event) :=
  if oqIsFullI q then
    match q_enqueue t timeout q with
    | None => Some (q, Return MSG_TIMEOUT, [])
    | Some q => Some (q, Blocked tt, [])
    end
  else '(q, ev) ← oq_add b q; Some (q, Return MSG_OK, ev).

Definition oqPutTimeout_resume (t : nat) (b timeout msg : Z) (q : io_queue)
  : option (io_queue * outcome Z unit * list event) :=
  if msg <? MSG_OK then Some (q, Return msg, []) else oqPutTimeout t b timeout q.

Definition oqGetI (q : io_queue) : option (io_queue * Z * list event) :=
  if oqIsEmptyI q then Some (q, MSG_TIMEOUT, [])
  else
    b ← rd (q_buffer q) (q_rdptr q);
    let '(q, ev) := q_dequeue chThdDequeueNextI MSG_OK
      (q_with (q_waiting q) (q_counter q + 1) (q_buffer q) (q_wrptr q)
         (ring_next (q_top q) (q_rdptr q)) q) in
    Some (q, b, ev).

(** [oq_write]: as many of the bytes [bp] as there is room for, in at most two
    copies. *)
Definition oq_write (bp : list Z) (q : io_queue) : option (io_queue * Z) :=
  let n := Z.of_nat (length bp) in
  let n := if oqGetEmptyI q <? n then oqGetEmptyI q else n in
  let s1 := q_top q - q_wrptr q in
  '(buf, wrptr) ←
    (if n <? s1 then buf ← memcpy (q_buffer q) (q_wrptr q) bp n; Some (buf, q_wrptr q + n)
     else if s1 <? n then
       buf ← memcpy (q_buffer q) (q_wrptr q) bp s1;
       buf ← memcpy buf 0 (drop (Z.to_nat s1) bp) (n - s1);
       Some (buf, n - s1)
     else buf ← memcpy (q_buffer q) (q_wrptr q) bp n; Some (buf, 0));
  Some (q_with (q_waiting q) (q_counter q - n) buf wrptr (q_rdptr q) q, n).

Definition oqWriteI (bp : list Z) (q : io_queue) : option (io_queue * Z * list event) :=
  _ ← check (0 <? Z.of_nat (length bp));
  '(q, n) ← oq_write bp q;
  Some (q, n, if 0 <? n then q_notification q else []).

(** [oqWriteTimeout]: the state of a call is what it has written and what it
    still has to write. *)
Definition oqWriteTimeout_step (t : nat) (timeout : Z) (st : Z * list Z) (q : io_queue)
  : option (io_queue * outcome Z (Z * list Z) * list event) :=
  let '(done, bp) := st in
  if Z.of_nat (length bp) <=? 0 then Some (q, Return done, [])
  else
    '(q, n) ← oq_write bp q;
    if n =? 0 then
      match q_enqueue t timeout q with
      | None => Some (q, Return done, [])
      | Some q => Some (q, Blocked (done, bp), [])
      end
    else Some (q, More (done + n, drop (Z.to_nat n) bp), q_notification q).

Definition oqWriteTimeout_resume (t : nat) (timeout msg : Z) (st : Z * list Z) (q : io_queue)
  : option (io_queue * outcome Z (Z * list Z) * list event) :=
  if negb (msg =? MSG_OK) then Some (q, Return (fst st), [])
  else oqWriteTimeout_step t timeout st q.

(** ** Representation

    An input queue holds the [q_counter] bytes from its read pointer on; an
    output queue counts its free cells instead. *)

Definition iq_ok (q : io_queue) : Prop := ring_ok (q_buffer q) (q_rdptr q) (q_wrptr q) (q_counter q).
Definition iq_content (q : io_queue) : list Z := ring_content (q_buffer q) (q_rdptr q) (q_counter q).

Definition oq_ok (q : io_queue) : Prop :=
  ring_ok (q_buffer q) (q_rdptr q) (q_wrptr q) (q_top q - q_counter q).
Definition oq_content (q : io_queue) : list Z :=
  ring_content (q_buffer q) (q_rdptr q) (q_top q - q_counter q).

Lemma iq_length q : iq_ok q -> Z.of_nat (length (iq_content q)) = q_counter q.
Proof. intros (? & ? & ? & ?). unfold iq_content. rewrite ring_content_length. lia. Qed.

Lemma oq_length q : oq_ok q -> Z.of_nat (length (oq_content q)) = q_top q - q_counter q.
Proof. intros (? & ? & ? & ?). unfold oq_content. rewrite ring_content_length. lia. Qed.

Lemma q_dequeue_next msg q :
  exists woken rest ev, q_dequeue chThdDequeueNextI msg q =
      (q_with rest (q_counter q) (q_buffer q) (q_wrptr q) (q_rdptr q) q, ev) /\
    q_waiting q = woken ++ rest /\ wakes ev = with_msg msg woken /\
    (length woken = 1%nat \/ woken = [] /\ rest = []).
Proof.
  destruct (chThdDequeueNextI_spec (q_waiting q) msg) as (woken & rest & Hq & Hr & Hw & Hl).
  unfold q_dequeue. destruct (chThdDequeueNextI (q_waiting q) msg) as [ts ev]. simpl in *. subst ts.
  exists woken, rest, ev. auto.
Qed.

Lemma q_dequeue_all msg q :
  exists ev, q_dequeue chThdDequeueAllI msg q =
      (q_with [] (q_counter q) (q_buffer q) (q_wrptr q) (q_rdptr q) q, ev) /\
    wakes ev = with_msg msg (q_waiting q).
Proof.
  destruct (chThdDequeueAllI_spec (q_waiting q) msg) as [Hr Hw].
  unfold q_dequeue. destruct (chThdDequeueAllI (q_waiting q) msg) as [ts ev]. simpl in *. subst ts.
  exists ev. auto.
Qed.

Lemma wakes_notification q : wakes (q_notification q) = [].
Proof. unfold q_notification. destruct (q_notify q); reflexivity. Qed.

(** ** Input queues *)

Lemma iqIsFullI_spec q : iq_ok q -> iqIsFullI q = (q_counter q =? q_top q).
Proof. intros Hok. apply (ring_full _ _ _ _ Hok). Qed.

(** A byte put into a queue that is not full goes behind the others and wakes
    the first waiting reader. *)
Lemma iqPutI_spec b q :
  iq_ok q -> q_counter q < q_top q ->
  exists q' ev woken, iqPutI b q = Some (q', MSG_OK, ev) /\ iq_ok q' /\
    iq_content q' = iq_content q ++ [b] /\ q_counter q' = q_counter q + 1 /\
    q_top q' = q_top q /\ wakes ev = with_msg MSG_OK woken /\
    q_waiting q = woken ++ q_waiting q' /\
    (length woken = 1%nat \/ woken = [] /\ q_waiting q' = []).
Proof.
  intros Hok Hlt. unfold iqPutI. rewrite iqIsFullI_spec by exact Hok.
  rewrite (proj2 (Z.eqb_neq _ _)) by lia.
  destruct (ring_put _ _ _ _ b Hok Hlt) as (Ew & Ec & Hok'). rewrite Ew. simpl.
  destruct (q_dequeue_next MSG_OK
    (q_with (q_waiting q) (q_counter q + 1) (<[Z.to_nat (q_wrptr q):=b]> (q_buffer q))
       (ring_next (q_top q) (q_wrptr q)) (q_rdptr q) q)) as (woken & rest & ev & E & Hq & Hw & Hl).
  rewrite E. exists (q_with rest (q_counter q + 1) (<[Z.to_nat (q_wrptr q):=b]> (q_buffer q))
    (ring_next (q_top q) (q_wrptr q)) (q_rdptr q) q), ev, woken.
  unfold q_top. simpl in *. rewrite length_insert. split_and!; auto.
Qed.

Lemma iqPutI_full b q : iq_ok q -> q_counter q = q_top q -> iqPutI b q = Some (q, MSG_TIMEOUT, []).
Proof.
  intros Hok Hlt. unfold iqPutI. rewrite iqIsFullI_spec by exact Hok.
  rewrite (proj2 (Z.eqb_eq _ _)) by exact Hlt. reflexivity.
Qed.

(** What the calls that only take bytes leave alone. *)
Definition q_frame (q q' : io_queue) : Prop :=
  q_waiting q' = q_waiting q /\ q_top q' = q_top q /\ q_notify q' = q_notify q.

(** Taking a byte. *)
Lemma iq_take_spec q :
  iq_ok q -> 0 < q_counter q ->
  exists q' b, iq_take q = Some (q', b, q_notification q) /\ iq_ok q' /\
    iq_content q = b :: iq_content q' /\ q_counter q' = q_counter q - 1 /\ q_frame q q'.
Proof.
  intros Hok Hpos. destruct (ring_get _ _ _ _ Hok Hpos) as (b & Eb & Ec & Hok').
  unfold iq_take. rewrite Eb. simpl. eexists _, b. split; [reflexivity|].
  split_and!; auto. repeat split.
Qed.

(** [iq_read] takes the first [n] bytes, or all of them. *)
Lemma iq_read_spec n q :
  iq_ok q -> 0 <= n ->
  exists q', iq_read n q = Some (q', take (Z.to_nat n) (iq_content q)) /\ iq_ok q' /\
    iq_content q' = drop (Z.to_nat n) (iq_content q) /\
    q_counter q' = q_counter q - Z.min n (q_counter q) /\ q_frame q q'.
Proof.
  intros Hok Hn. pose proof Hok as (Hs & Hr & Hc & Hw).
  set (m := Z.min n (q_counter q)).
  assert (Em : (if iqGetFullI q <? n then iqGetFullI q else n) = m)
    by (unfold iqGetFullI, m; case_bool; lia).
  destruct (ring_skip _ _ _ _ m Hok) as [Hok' Ec]; [lia|].
  assert (Ed : drop (Z.to_nat n) (iq_content q) = drop (Z.to_nat m) (iq_content q)).
  { destruct (decide (n <= q_counter q)); [unfold m; f_equal; lia|].
    rewrite !drop_ge; [reflexivity| |]; unfold iq_content; rewrite ring_content_length; lia. }
  assert (Et : take (Z.to_nat n) (iq_content q) = ring_content (q_buffer q) (q_rdptr q) m).
  { unfold iq_content. rewrite <- (ring_content_take _ _ (q_counter q) m) by lia.
    destruct (decide (n <= q_counter q)); [unfold m; do 2 f_equal; lia|].
    rewrite !take_ge; [reflexivity| |]; rewrite ring_content_length; lia. }
  exists (q_with (q_waiting q) (q_counter q - m) (q_buffer q) (q_wrptr q)
            ((q_rdptr q + m) mod q_top q) q).
  split; [|rewrite Ed; split_and!; auto; repeat split].
  unfold iq_read. rewrite Em, Et. unfold q_top in *.
  rewrite check_true by (rewrite !andb_true_iff, !Z.leb_le; lia).
  cbn [mbind option_bind].
  destruct (Z.ltb_spec m (Z.of_nat (length (q_buffer q)) - q_rdptr q)) as [H1|H1];
    [|destruct (Z.ltb_spec (Z.of_nat (length (q_buffer q)) - q_rdptr q) m) as [H2|H2]].
  - rewrite Z.mod_small by lia. rewrite ring_content_slice by lia. reflexivity.
  - set (s1 := Z.of_nat (length (q_buffer q)) - q_rdptr q) in *.
    replace (ring_content (q_buffer q) (q_rdptr q) m)
      with (ring_content (q_buffer q) (q_rdptr q) s1 ++ ring_content (q_buffer q) 0 (m - s1)).
    + rewrite !ring_content_slice by (unfold s1 in *; lia).
      replace ((q_rdptr q + m) mod Z.of_nat (length (q_buffer q))) with (m - s1); [reflexivity|].
      apply (Z.mod_unique_pos _ _ 1); unfold s1 in *; lia.
    + replace m with (s1 + (m - s1)) at 2 by lia. rewrite ring_content_app by lia. f_equal.
      rewrite <- (ring_content_mod _ (q_rdptr q + s1)) by lia. f_equal.
      replace (q_rdptr q + s1) with (Z.of_nat (length (q_buffer q))) by (unfold s1; lia).
      rewrite Z_mod_same_full. reflexivity.
  - rewrite ring_content_slice by lia.
    replace (q_rdptr q + m) with (Z.of_nat (length (q_buffer q))) by lia.
    rewrite Z_mod_same_full. reflexivity.
Qed.

(** ** Output queues *)

Lemma oqIsEmptyI_spec q :
  oq_ok q -> 0 < q_counter q -> oqIsEmptyI q = (q_counter q =? q_top q).
Proof.
  intros (Hs & Hr & Hn & Hw) Hpos. unfold q_top in *. apply Bool.eq_iff_eq_true.
  unfold oqIsEmptyI. rewrite andb_true_iff, negb_true_iff, !Z.eqb_eq, Z.eqb_neq.
  set (size := Z.of_nat (length (q_buffer q))) in *. split.
  - intros [Hwr _]. assert (~ 0 < size - q_counter q); [|lia]. intros Hlt.
    apply (mod_distinct (q_rdptr q) 0 (size - q_counter q) size); try lia.
    rewrite Z.add_0_r, <- Hw, Z.mod_small by lia. symmetry. exact Hwr.
  - intros Hc. split; [|lia]. rewrite Hw, Hc, Z.sub_diag, Z.add_0_r. apply Z.mod_small. exact Hr.
Qed.

(** Putting a byte. *)
Lemma oq_add_spec b q :
  oq_ok q -> 0 < q_counter q ->
  exists q', oq_add b q = Some (q', q_notification q) /\ oq_ok q' /\
    oq_content q' = oq_content q ++ [b] /\ q_counter q' = q_counter q - 1 /\ q_frame q q'.
Proof.
  intros Hok Hpos. pose proof Hok as (Hs & Hr & Hn & Hw).
  destruct (ring_put _ _ _ _ b Hok) as (Ew & Ec & Hok'); [unfold q_top in *; lia|].
  unfold oq_add. rewrite Ew. cbn [mbind option_bind]. eexists. split; [reflexivity|].
  unfold oq_ok, oq_content, q_frame, q_top in *. cbn [q_with q_buffer q_rdptr q_wrptr q_counter q_waiting q_notify].
  rewrite length_insert in *.
  replace (Z.of_nat (length (q_buffer q)) - (q_counter q - 1))
    with (Z.of_nat (length (q_buffer q)) - q_counter q + 1) by lia.
  split_and!; auto.
Qed.

(** The low side takes the first byte and wakes the first waiting writer. *)
Lemma oqGetI_spec q :
  oq_ok q -> q_counter q < q_top q -> 0 <= q_counter q ->
  (q_wrptr q =? q_rdptr q) && negb (q_counter q =? 0) = false ->
  exists q' b ev woken, oqGetI q = Some (q', b, ev) /\ oq_ok q' /\
    oq_content q = b :: oq_content q' /\ q_counter q' = q_counter q + 1 /\
    q_top q' = q_top q /\ wakes ev = with_msg MSG_OK woken /\
    q_waiting q = woken ++ q_waiting q' /\
    (length woken = 1%nat \/ woken = [] /\ q_waiting q' = []).
Proof.
  intros Hok Hlt Hpos He. unfold oqGetI. unfold oqIsEmptyI. rewrite He.
  destruct (ring_get _ _ _ _ Hok) as (b & Eb & Ec & Hok'); [lia|]. rewrite Eb. cbn [mbind option_bind].
  destruct (q_dequeue_next MSG_OK
    (q_with (q_waiting q) (q_counter q + 1) (q_buffer q) (q_wrptr q)
       (ring_next (q_top q) (q_rdptr q)) q)) as (woken & rest & ev & E & Hq & Hw & Hl).
  rewrite E. eexists _, b, ev, woken. split; [reflexivity|].
  unfold oq_ok, oq_content, q_top in *. cbn [q_with q_buffer q_rdptr q_wrptr q_counter q_waiting q_notify] in *.
  replace (Z.of_nat (length (q_buffer q)) - (q_counter q + 1))
    with (Z.of_nat (length (q_buffer q)) - q_counter q - 1) by lia.
  split_and!; auto.
Qed.

Lemma oqGetI_cases q :
  oq_ok q ->
  (q_counter q = q_top q /\ oqGetI q = Some (q, MSG_TIMEOUT, [])) \/
  exists q' b ev woken, oqGetI q = Some (q', b, ev) /\ oq_ok q' /\
    oq_content q = b :: oq_content q' /\ q_counter q' = q_counter q + 1 /\
    q_top q' = q_top q /\ wakes ev = with_msg MSG_OK woken /\
    q_waiting q = woken ++ q_waiting q' /\
    (length woken = 1%nat \/ woken = [] /\ q_waiting q' = []).
Proof.
  intros Hok. pose proof Hok as (Hs & Hr & Hn & Hw). unfold q_top in Hn.
  destruct (decide (q_counter q = q_top q)) as [Hf|Hf].
  - left. split; [exact Hf|]. unfold oqGetI. rewrite oqIsEmptyI_spec by (unfold q_top in *; try exact Hok; lia).
    rewrite (proj2 (Z.eqb_eq _ _)) by exact Hf. reflexivity.
  - right. apply oqGetI_spec; try exact Hok; try (unfold q_top in *; lia).
    destruct (decide (0 < q_counter q)).
    + fold (oqIsEmptyI q). rewrite oqIsEmptyI_spec by assumption. apply Z.eqb_neq. exact Hf.
    + rewrite (proj2 (Z.eqb_eq (q_counter q) 0)) by (unfold q_top in *; lia). apply andb_false_r.
Qed.

(** [oq_write] puts the first bytes there is room for. *)
Lemma oq_write_spec bp q :
  oq_ok q ->
  let m := Z.min (Z.of_nat (length bp)) (q_counter q) in
  exists q', oq_write bp q = Some (q', m) /\ oq_ok q' /\
    oq_content q' = oq_content q ++ take (Z.to_nat m) bp /\
    q_counter q' = q_counter q - m /\ q_frame q q'.
Proof.
  intros Hok m. pose proof Hok as (Hs & Hr & Hn & Hw). unfold q_top in *.
  set (size := Z.of_nat (length (q_buffer q))) in *.
  assert (Hw0 : 0 <= q_wrptr q < size) by (rewrite Hw; apply Z.mod_pos_bound; lia).
  assert (Em : (if oqGetEmptyI q <? Z.of_nat (length bp) then oqGetEmptyI q else Z.of_nat (length bp)) = m)
    by (unfold oqGetEmptyI, m; case_bool; lia).
  assert (Hgoal : forall buf w, length buf = length (q_buffer q) ->
    ring_content buf (q_rdptr q) (size - q_counter q + m) = oq_content q ++ take (Z.to_nat m) bp ->
    ring_ok buf (q_rdptr q) w (size - q_counter q + m) ->
    let q' := q_with (q_waiting q) (q_counter q - m) buf w (q_rdptr q) q in
    oq_ok q' /\ oq_content q' = oq_content q ++ take (Z.to_nat m) bp /\
    q_counter q' = q_counter q - m /\ q_frame q q').
  { intros buf w Hl Hc Hok' q'. unfold oq_ok, oq_content, q_frame, q_top, q' in *.
    cbn [q_with q_buffer q_rdptr q_wrptr q_counter q_waiting q_notify] in *. rewrite Hl. fold size.
    replace (size - (q_counter q - m)) with (size - q_counter q + m) by lia. split_and!; auto. }
  unfold oq_write. rewrite Em. unfold q_top in *. fold size.
  destruct (Z.ltb_spec m (size - q_wrptr q)) as [H1|H1];
    [|destruct (Z.ltb_spec (size - q_wrptr q) m) as [H2|H2]].
  - destruct (ring_write bp _ _ _ _ m Hok) as (buf & E & Hl & Ec & Hok'); try (unfold q_top; lia).
    rewrite E. cbn [mbind option_bind]. eexists. split; [reflexivity|]. apply Hgoal; auto.
    fold size in Hok'. rewrite (proj2 (Z.eqb_neq _ _)) in Hok' by lia. exact Hok'.
  - set (s1 := size - q_wrptr q) in *.
    destruct (ring_write bp _ _ _ _ s1 Hok) as (buf & E & Hl & Ec & Hok'); try (unfold q_top; lia).
    rewrite E. cbn [mbind option_bind].
    rewrite (proj2 (Z.eqb_eq _ _)) in Hok' by lia.
    destruct (ring_write (drop (Z.to_nat s1) bp) _ _ _ _ (m - s1) Hok') as (buf2 & E2 & Hl2 & Ec2 & Hok2);
      try (rewrite ?length_drop, ?Hl; unfold q_top; lia).
    rewrite E2. cbn [mbind option_bind]. eexists. split; [reflexivity|].
    unfold q_top in *. fold size in Ec, Ec2, Hok2. rewrite Hl in Hok2. fold size in Hok2.
    replace (size - q_counter q + s1 + (m - s1)) with (size - q_counter q + m) in * by lia.
    apply Hgoal; [lia| |].
    + rewrite Ec2, Ec, <- app_assoc. unfold oq_content, q_top. fold size. f_equal.
      rewrite <- (take_drop (Z.to_nat s1) (take (Z.to_nat m) bp)), take_take, Nat.min_l by lia.
      f_equal. rewrite skipn_firstn_comm. f_equal. lia.
    + rewrite Z.add_0_l, (proj2 (Z.eqb_neq _ _)) in Hok2 by lia. exact Hok2.
  - destruct (ring_write bp _ _ _ _ m Hok) as (buf & E & Hl & Ec & Hok'); try (unfold q_top; lia).
    rewrite E. cbn [mbind option_bind]. eexists. split; [reflexivity|]. apply Hgoal; auto.
    fold size in Hok'. rewrite (proj2 (Z.eqb_eq _ _)) in Hok' by lia. exact Hok'.
Qed.

(** ** The queues as components with wait queues *)

(** The operations of the low side and of code that runs in a kernel lock, with
    what they return. *)
Inductive iq_op := IqPut (b : Z) | IqGet | IqRead (n : Z) | IqReset.
Inductive oq_op := OqPut (b : Z) | OqGet | OqWrite (bp : list Z) | OqReset.

Definition iq_exec (i : iq_op) (q : io_queue) : option (io_queue * (Z * list Z) * list event) :=
  match i with
  | IqPut b => '(q, r, ev) ← iqPutI b q; Some (q, (r, []), ev)
  | IqGet => '(q, r, ev) ← iqGetI q; Some (q, (r, []), ev)
  | IqRead n => '(q, bs, ev) ← iqReadI n q; Some (q, (Z.of_nat (length bs), bs), ev)
  | IqReset => let '(q, ev) := iqResetI q in Some (q, (MSG_OK, []), ev)
  end.

Definition oq_exec (i : oq_op) (q : io_queue) : option (io_queue * Z * list event) :=
  match i with
  | OqPut b => oqPutI b q
  | OqGet => oqGetI q
  | OqWrite bp => oqWriteI bp q
  | OqReset => let '(q, ev) := oqResetI q in Some (q, MSG_OK, ev)
  end.

(** The calls of threads: a byte, or a block in progress. *)
Inductive iq_call := IqGetTimeout (timeout : Z) | IqReadTimeout (timeout : Z) (st : list Z * Z).
Inductive oq_call := OqPutTimeout (timeout b : Z) | OqWriteTimeout (timeout : Z) (st : Z * list Z).

Definition iq_do (t : nat) (resumed : option Z) (c : iq_call) (q : io_queue)
  : option (io_queue * outcome (Z * list Z) iq_call * list event) :=
  match c with
  | IqGetTimeout timeout =>
      '(q, o, ev) ← match resumed with
                    | None => iqGetTimeout t timeout q
                    | Some msg => iqGetTimeout_resume t timeout msg q
                    end;
      Some (q, outcome_map (fun r => (r, [])) (fun _ => c) o, ev)
  | IqReadTimeout timeout st =>
      '(q, o, ev) ← match resumed with
                    | None => iqReadTimeout_step t timeout st q
                    | Some msg => iqReadTimeout_resume t timeout msg st q
                    end;
      Some (q, outcome_map id (IqReadTimeout timeout) o, ev)
  end.

Definition oq_do (t : nat) (resumed : option Z) (c : oq_call) (q : io_queue)
  : option (io_queue * outcome Z oq_call * list event) :=
  match c with
  | OqPutTimeout timeout b =>
      '(q, o, ev) ← match resumed with
                    | None => oqPutTimeout t b timeout q
                    | Some msg => oqPutTimeout_resume t b timeout msg q
                    end;
      Some (q, outcome_map id (fun _ => c) o, ev)
  | OqWriteTimeout timeout st =>
      '(q, o, ev) ← match resumed with
                    | None => oqWriteTimeout_step t timeout st q
                    | Some msg => oqWriteTimeout_resume t timeout msg st q
                    end;
      Some (q, outcome_map id (OqWriteTimeout timeout) o, ev)
  end.

(** Readers wait at an input queue, writers at an output queue: the side [true];
    nobody waits on the other side. *)
#[export] Instance iq_channel : Channel io_queue iq_op iq_call (Z * list Z) := {
  ch_waiting := fun s q => if s then q_waiting q else [];
  ch_avail := fun s q => if s then q_counter q else 0;
  ch_side := fun _ => true;
  ch_isr := fun i q => '(q, _, ev) ← iq_exec i q; Some (q, ev);
  ch_call := fun t c q => iq_do t None c q;
  ch_resume := fun t msg c q => iq_do t (Some msg) c q;
  ch_expire := fun s t q => if s then q_expire t q else q
}.

#[export] Instance oq_channel : Channel io_queue oq_op oq_call Z := {
  ch_waiting := fun s q => if s then q_waiting q else [];
  ch_avail := fun s q => if s then q_counter q else 0;
  ch_side := fun _ => true;
  ch_isr := fun i q => '(q, _, ev) ← oq_exec i q; Some (q, ev);
  ch_call := fun t c q => oq_do t None c q;
  ch_resume := fun t msg c q => oq_do t (Some msg) c q;
  ch_expire := fun s t q => if s then q_expire t q else q
}.

(** ** The promises of an input queue *)

(** The bounded list an input queue implements. *)
Definition fifo_exec (cap : Z) (i : iq_op) (l : list Z) : list Z * (Z * list Z) :=
  match i with
  | IqPut b => if Z.of_nat (length l) <? cap then (l ++ [b], (MSG_OK, [])) else (l, (MSG_TIMEOUT, []))
  | IqGet => match l with [] => ([], (MSG_TIMEOUT, [])) | b :: l => (l, (b, [])) end
  | IqRead n =>
      let bs := take (Z.to_nat n) l in (drop (Z.to_nat n) l, (Z.of_nat (length bs), bs))
  | IqReset => ([], (MSG_OK, []))
  end.

Definition iq_op_ok (i : iq_op) : Prop := match i with IqRead n => 0 < n | _ => True end.

Lemma iqGetI_cases q :
  iq_ok q ->
  (q_counter q = 0 /\ iqIsEmptyI q = true) \/
  (iqIsEmptyI q = false /\ exists q' b, iq_take q = Some (q', b, q_notification q) /\ iq_ok q' /\
    iq_content q = b :: iq_content q' /\ q_counter q' = q_counter q - 1 /\ q_frame q q').
Proof.
  intros Hok. unfold iqIsEmptyI. destruct (Z.eqb_spec (q_counter q) 0) as [E|E]; [auto|].
  right. split; [reflexivity|]. apply iq_take_spec; [exact Hok|]. destruct Hok as (_ & _ & ? & _). lia.
Qed.

Lemma iqResetI_spec q :
  iq_ok q ->
  exists q' ev, iqResetI q = (q', ev) /\ iq_ok q' /\ iq_content q' = [] /\ q_counter q' = 0 /\
    q_top q' = q_top q /\ q_waiting q' = [] /\ wakes ev = with_msg MSG_RESET (q_waiting q).
Proof.
  intros (Hs & Hr & Hn & Hw). unfold iqResetI.
  destruct (q_dequeue_all MSG_RESET (q_with (q_waiting q) 0 (q_buffer q) 0 0 q)) as (ev & E & Hev).
  rewrite E. eexists _, ev. split; [reflexivity|]. unfold iq_ok, ring_ok. simpl. split_and!; auto; lia.
Qed.

Lemma iq_empty q : iq_ok q -> q_counter q = 0 -> iq_content q = [].
Proof. intros _ Hc. unfold iq_content. rewrite Hc. reflexivity. Qed.

(** The moves of the threads, for either kind of queue. *)
Lemma q_moves_quiet enq q q' ev :
  wakes ev = [] -> q_waiting q' = q_waiting q ++ enq true -> enq false = [] ->
  q_waiting q' = [] \/ q_counter q' <= q_counter q ->
  moves (H := iq_channel) enq q q' ev.
Proof.
  intros Hev Hw He Ha. apply moves_quiet; [exact Hev|]. intros []; simpl; [auto|].
  rewrite He. auto.
Qed.

Lemma q_moves_wake msg woken q q' ev :
  msg <= MSG_OK -> wakes ev = with_msg msg woken -> q_waiting q = woken ++ q_waiting q' ->
  q_waiting q' = [] \/
    q_counter q' <= q_counter q + (if msg =? MSG_OK then Z.of_nat (length woken) else 0) ->
  moves (H := iq_channel) (fun _ => []) q q' ev.
Proof.
  intros Hmsg Hev Hw Ha. apply (moves_wake true msg woken (q_waiting q')); simpl; auto.
Qed.

Lemma q_moves_one q q' ev woken :
  wakes ev = with_msg MSG_OK woken -> q_waiting q = woken ++ q_waiting q' ->
  length woken = 1%nat \/ woken = [] /\ q_waiting q' = [] -> q_counter q' = q_counter q + 1 ->
  moves (H := iq_channel) (fun _ => []) q q' ev.
Proof.
  intros Hev Hw Hl Hc. apply (q_moves_wake MSG_OK woken); [lia|exact Hev|exact Hw|].
  destruct Hl as [Hl|[_ Hl]]; [|auto]. right. rewrite Hl, Hc. simpl. lia.
Qed.

Lemma q_moves_less q q' ev :
  wakes ev = [] -> q_frame q q' -> q_counter q' <= q_counter q ->
  moves (H := iq_channel) (fun _ => []) q q' ev.
Proof.
  intros Hev (Hw & _) Hc. apply q_moves_quiet; auto. rewrite app_nil_r. exact Hw.
Qed.

(** What an operation returns and leaves is what the bounded list says; threads
    are woken from the head of the wait queue. *)
Lemma iq_exec_spec i q :
  iq_ok q -> iq_op_ok i ->
  exists q' ev r, iq_exec i q = Some (q', r, ev) /\ iq_ok q' /\ q_top q' = q_top q /\
    fifo_exec (q_top q) i (iq_content q) = (iq_content q', r) /\
    moves (H := iq_channel) (fun _ => []) q q' ev.
Proof.
  intros Hok Hi. pose proof (iq_length q Hok) as Hlen. destruct i as [b| |n|]; simpl.
  - rewrite Hlen. destruct (Z.ltb_spec (q_counter q) (q_top q)) as [Hlt|Hge].
    + destruct (iqPutI_spec b q Hok Hlt) as (q' & ev & woken & E & Hok' & Hc & Hn & Ht & Hev & Hw & Hl).
      rewrite E. simpl. exists q', ev, (MSG_OK, []). rewrite Hc. split_and!; auto.
      apply (q_moves_one _ _ _ woken); auto.
    + pose proof Hok as (_ & _ & Hn & _). unfold q_top in Hge.
      rewrite iqPutI_full by (unfold q_top; try exact Hok; lia). simpl.
      exists q, [], (MSG_TIMEOUT, []). split_and!; auto. apply q_moves_less; repeat split; lia.
  - unfold iqGetI. destruct (iqGetI_cases q Hok) as [[Hc Hb]|[Hb (q' & b & E & Hok' & Hc & Hn & Hf)]]; rewrite Hb.
    + rewrite iq_empty by assumption. simpl. exists q, [], (MSG_TIMEOUT, []).
      rewrite iq_empty by assumption. split_and!; auto. apply q_moves_less; repeat split; lia.
    + rewrite E, Hc. simpl. exists q', (q_notification q), (b, []). split_and!; auto; [apply Hf|].
      apply q_moves_less; [apply wakes_notification|exact Hf|lia].
  - simpl in Hi. unfold iqReadI. rewrite check_true by (apply Z.ltb_lt; exact Hi). simpl.
    destruct (iq_read_spec n q Hok) as (q' & E & Hok' & Hc & Hn & Hf); [lia|].
    rewrite E. simpl. do 3 eexists. split; [reflexivity|]. rewrite Hc. split_and!; auto; [apply Hf|].
    apply q_moves_less; [|exact Hf|rewrite Hn; destruct Hok as (_ & _ & ? & _); lia].
    case_bool; [|reflexivity]. destruct Hf as (_ & _ & Hno). unfold q_notification.
    destruct (q_notify _); reflexivity.
  - destruct (iqResetI_spec q Hok) as (q' & ev & E & Hok' & Hc & Hn & Ht & Hw & Hev). rewrite E.
    exists q', ev, (MSG_OK, []). rewrite Hc. split_and!; auto.
    apply (q_moves_wake MSG_RESET (q_waiting q)); auto; [discriminate|]. rewrite Hw, app_nil_r. reflexivity.
Qed.

(** Blocking calls: what a thread that runs does, from its start or from the
    message that woke it. *)
Definition iq_live (c : iq_call) : Prop :=
  match c with IqGetTimeout _ => True | IqReadTimeout _ (_, n) => 0 < n end.

Lemma q_enqueue_spec t timeout q :
  q_enqueue t timeout q = None \/
  exists q', q_enqueue t timeout q = Some q' /\ q_waiting q' = q_waiting q ++ [t] /\
    q_counter q' = q_counter q /\ q_buffer q' = q_buffer q /\ q_wrptr q' = q_wrptr q /\
    q_rdptr q' = q_rdptr q /\ q_notify q' = q_notify q.
Proof.
  unfold q_enqueue, chThdEnqueueTimeoutS. case_bool; [left; reflexivity|]. right.
  eexists. split; [reflexivity|]. repeat split.
Qed.

Lemma iq_call_spec t c q :
  iq_ok q ->
  exists q' o ev, iq_do t None c q = Some (q', o, ev) /\ iq_ok q' /\
    moves (H := iq_channel) (enqueued (H := iq_channel) t c o) q q' ev /\
    match o with Blocked c' => iq_live c' /\ true = true /\ q_counter q' <= 0 | _ => True end /\
    (iq_live c -> q_counter q' <= 0 \/ q_counter q' < q_counter q).
Proof.
  intros Hok. pose proof Hok as (_ & _ & Hcount & _).
  assert (Hblock : forall c0 q', q_waiting q' = q_waiting q ++ [t] -> q_counter q' = q_counter q ->
    moves (H := iq_channel) (enqueued (H := iq_channel) t c (Blocked c0)) q q' []).
  { intros c0 q' Hw Hc. apply q_moves_quiet; simpl; auto. right. lia. }
  assert (Hsame : moves (H := iq_channel) (fun _ => []) q q [])
    by (apply q_moves_less; repeat split; lia).
  assert (Hok_enq : forall q', q_counter q' = q_counter q -> q_buffer q' = q_buffer q ->
    q_wrptr q' = q_wrptr q -> q_rdptr q' = q_rdptr q -> iq_ok q')
    by (unfold iq_ok; intros q' -> -> -> ->; exact Hok).
  destruct c as [timeout|timeout [got n]]; simpl.
  - unfold iqGetTimeout. destruct (iqGetI_cases q Hok) as [[Hc Hb]|[Hb (q' & b & E & Hok' & Hc & Hn & Hf)]]; rewrite Hb.
    + destruct (q_enqueue_spec t timeout q) as [E|(q' & E & Hw & Hc' & Hbu & Hwr & Hrd & Hno)]; rewrite E; simpl.
      * eexists q, _, []. split; [reflexivity|]. split_and!; auto. lia.
      * eexists q', _, []. split; [reflexivity|]. split_and!; auto; simpl; auto; lia.
    + rewrite E. simpl. eexists q', _, _. split; [reflexivity|]. split_and!; auto; [|lia].
      apply q_moves_less; [apply wakes_notification|exact Hf|lia].
  - destruct (Z.leb_spec n 0) as [Hle|Hgt].
    + simpl. eexists q, _, []. split; [reflexivity|]. split_and!; auto. lia.
    + destruct (iq_read_spec n q Hok) as (q' & E & Hok' & Hc & Hn & Hf); [lia|].
      rewrite E. simpl. rewrite length_take. pose proof (iq_length q Hok) as Hlen.
      destruct (Z.eqb_spec (Z.of_nat (Z.to_nat n `min` length (iq_content q))) 0) as [Hz|Hz].
      * assert (Hc0 : q_counter q = 0) by lia. rewrite Hc0 in Hn. rewrite Z.min_r in Hn by lia.
        destruct Hf as (Hfw & Hft & Hfn).
        destruct (q_enqueue_spec t timeout q') as [E'|(q2 & E' & Hw & Hc' & Hbu & Hwr & Hrd & Hno)]; rewrite E'; simpl.
        -- eexists q', _, []. split; [reflexivity|]. split_and!; auto; [|lia].
           apply q_moves_less; repeat split; auto. lia.
        -- eexists q2, _, []. split; [reflexivity|]. split_and!; auto; try lia.
           ++ unfold iq_ok. rewrite Hc', Hbu, Hwr, Hrd. exact Hok'.
           ++ apply Hblock; congruence || lia.
      * simpl. eexists q', _, _. split; [reflexivity|]. split_and!; auto; [|lia].
        destruct Hf as (Hfw & Hft & Hfn). apply q_moves_less; [|split_and!; auto|lia].
        unfold q_notification. rewrite Hfn. destruct (q_notify q); reflexivity.
Qed.

Lemma iq_isr_law i q :
  iq_ok q -> iq_op_ok i ->
  exists q' ev, ch_isr i q = Some (q', ev) /\ iq_ok q' /\ moves (H := iq_channel) (fun _ => []) q q' ev.
Proof.
  intros Hq Hi. destruct (iq_exec_spec i q Hq Hi) as (q' & ev & r & E & Hq' & _ & _ & Hm).
  exists q', ev. simpl. rewrite E. auto.
Qed.

Lemma iq_resume_law t msg (c : iq_call) (q : io_queue) :
  (msg = MSG_OK -> ch_resume t msg c q = ch_call t c q) /\
  (msg < MSG_OK -> exists r, ch_resume t msg c q = Some (q, Return r, [])).
Proof.
  simpl. split.
  - intros ->. destruct c; reflexivity.
  - intros Hmsg. destruct c as [timeout|timeout [got n]]; simpl.
    + unfold iqGetTimeout_resume. rewrite (proj2 (Z.ltb_lt _ _)) by exact Hmsg. simpl. eauto.
    + unfold iqReadTimeout_resume. rewrite (proj2 (Z.eqb_neq _ _)) by lia. simpl. eauto.
Qed.

Lemma iq_expire_law s t q :
  iq_ok q ->
  iq_ok (ch_expire (Channel := iq_channel) s t q) /\
  ch_waiting (Channel := iq_channel) s (ch_expire (Channel := iq_channel) s t q) =
    fst (sch_wakeup t (ch_waiting (Channel := iq_channel) s q)) /\
  ch_waiting (Channel := iq_channel) (negb s) (ch_expire (Channel := iq_channel) s t q) =
    ch_waiting (Channel := iq_channel) (negb s) q /\
  forall s', ch_avail (Channel := iq_channel) s' (ch_expire (Channel := iq_channel) s t q) =
    ch_avail (Channel := iq_channel) s' q.
Proof.
  intros Hq. destruct s; simpl; split_and!; try exact Hq; try reflexivity; intros []; reflexivity.
Qed.

#[export] Instance iq_laws : ChannelLaws io_queue iq_op iq_call (Z * list Z) := {
  ch_inv := iq_ok;
  ch_isr_ok := iq_op_ok;
  ch_live := iq_live;
  ch_isr_law := iq_isr_law;
  ch_call_law := iq_call_spec;
  ch_resume_law := iq_resume_law;
  ch_expire_law := iq_expire_law
}.

(** ** The promises of an output queue *)

Definition ofifo_exec (cap : Z) (i : oq_op) (l : list Z) : list Z * Z :=
  match i with
  | OqPut b => if Z.of_nat (length l) <? cap then (l ++ [b], MSG_OK) else (l, MSG_TIMEOUT)
  | OqGet => match l with [] => ([], MSG_TIMEOUT) | b :: l => (l, b) end
  | OqWrite bp =>
      let n := Z.min (Z.of_nat (length bp)) (cap - Z.of_nat (length l)) in
      (l ++ take (Z.to_nat n) bp, n)
  | OqReset => ([], MSG_OK)
  end.

Definition oq_op_ok (i : oq_op) : Prop := match i with OqWrite bp => bp <> [] | _ => True end.

Definition oq_live (c : oq_call) : Prop :=
  match c with OqPutTimeout _ _ => True | OqWriteTimeout _ (_, bp) => bp <> [] end.

Lemma oqResetI_spec q :
  oq_ok q ->
  exists q' ev, oqResetI q = (q', ev) /\ oq_ok q' /\ oq_content q' = [] /\
    q_top q' = q_top q /\ q_waiting q' = [] /\ wakes ev = with_msg MSG_RESET (q_waiting q).
Proof.
  intros (Hs & Hr & Hn & Hw). unfold oqResetI.
  destruct (q_dequeue_all MSG_RESET (q_with (q_waiting q) (q_top q) (q_buffer q) 0 0 q)) as (ev & E & Hev).
  rewrite E. eexists _, ev. split; [reflexivity|].
  unfold oq_ok, oq_content, ring_ok, q_top. simpl. rewrite Z.sub_diag. split_and!; auto; lia.
Qed.

Lemma oq_count q : oq_ok q -> 0 <= q_counter q <= q_top q.
Proof. intros (_ & _ & Hn & _). unfold q_top in *. lia. Qed.

Lemma oq_empty q : q_counter q = q_top q -> oq_content q = [].
Proof. intros Hc. unfold oq_content. rewrite Hc, Z.sub_diag. reflexivity. Qed.

Lemma oqPutI_cases b q :
  oq_ok q ->
  (q_counter q = 0 /\ oqIsFullI q = true) \/
  (0 < q_counter q /\ oqIsFullI q = false /\
   exists q', oq_add b q = Some (q', q_notification q) /\ oq_ok q' /\
     oq_content q' = oq_content q ++ [b] /\ q_counter q' = q_counter q - 1 /\ q_frame q q').
Proof.
  intros Hok. pose proof (oq_count q Hok). unfold oqIsFullI.
  destruct (Z.eqb_spec (q_counter q) 0) as [E|E]; [auto|].
  right. split; [lia|]. split; [reflexivity|]. apply oq_add_spec; [exact Hok|]. lia.
Qed.

Lemma nonempty_length {A} (l : list A) : l <> [] -> 0 < Z.of_nat (length l).
Proof. destruct l; [congruence|]. simpl. lia. Qed.

Lemma oq_exec_spec i q :
  oq_ok q -> oq_op_ok i ->
  exists q' ev r, oq_exec i q = Some (q', r, ev) /\ oq_ok q' /\ q_top q' = q_top q /\
    ofifo_exec (q_top q) i (oq_content q) = (oq_content q', r) /\
    moves (H := iq_channel) (fun _ => []) q q' ev.
Proof.
  intros Hok Hi. pose proof (oq_length q Hok) as Hlen. pose proof (oq_count q Hok) as Hcnt.
  destruct i as [b| |bp|]; simpl.
  - rewrite Hlen. unfold oqPutI.
    destruct (oqPutI_cases b q Hok) as [[Hc Hb]|(Hc & Hb & q' & E & Hok' & Hc' & Hn & Hf)]; rewrite Hb.
    + rewrite (proj2 (Z.ltb_ge _ _)) by lia. exists q, [], MSG_TIMEOUT. split_and!; auto.
      apply q_moves_less; repeat split; lia.
    + rewrite E, (proj2 (Z.ltb_lt _ _)) by lia. simpl. exists q', (q_notification q), MSG_OK.
      rewrite Hc'. split_and!; auto; [apply Hf|].
      apply q_moves_less; [apply wakes_notification|exact Hf|lia].
  - destruct (oqGetI_cases q Hok) as [[Hc E]|(q' & b & ev & woken & E & Hok' & Hc & Hn & Ht & Hev & Hw & Hl)]; rewrite E.
    + exists q, [], MSG_TIMEOUT. rewrite oq_empty by exact Hc. split_and!; auto.
      apply q_moves_less; repeat split; lia.
    + exists q', ev, b. rewrite Hc. split_and!; auto. apply (q_moves_one _ _ _ woken); auto.
  - simpl in Hi. apply nonempty_length in Hi. unfold oqWriteI.
    rewrite check_true by (apply Z.ltb_lt; exact Hi). simpl.
    destruct (oq_write_spec bp q Hok) as (q' & E & Hok' & Hc & Hn & Hf). rewrite E. simpl.
    do 3 eexists. split; [reflexivity|]. rewrite Hc. split_and!; auto; [apply Hf| |].
    + repeat f_equal; lia.
    + apply q_moves_less; [|exact Hf|lia]. destruct Hf as (_ & _ & Hno). unfold q_notification.
      rewrite Hno. repeat case_bool; reflexivity.
  - destruct (oqResetI_spec q Hok) as (q' & ev & E & Hok' & Hc & Ht & Hw & Hev). rewrite E.
    exists q', ev, MSG_OK. rewrite Hc. split_and!; auto.
    apply (q_moves_wake MSG_RESET (q_waiting q)); auto; [discriminate|]. rewrite Hw, app_nil_r. reflexivity.
Qed.

Lemma oq_call_spec t c q :
  oq_ok q ->
  exists q' o ev, oq_do t None c q = Some (q', o, ev) /\ oq_ok q' /\
    moves (H := oq_channel) (enqueued (H := oq_channel) t c o) q q' ev /\
    match o with Blocked c' => oq_live c' /\ true = true /\ q_counter q' <= 0 | _ => True end /\
    (oq_live c -> q_counter q' <= 0 \/ q_counter q' < q_counter q).
Proof.
  intros Hok. pose proof (oq_count q Hok) as Hcount.
  assert (Hblock : forall c0 q', q_waiting q' = q_waiting q ++ [t] -> q_counter q' = q_counter q ->
    moves (H := oq_channel) (enqueued (H := oq_channel) t c (Blocked c0)) q q' []).
  { intros c0 q' Hw Hc. apply q_moves_quiet; simpl; auto. right. lia. }
  assert (Hsame : moves (H := oq_channel) (fun _ => []) q q [])
    by (apply q_moves_less; repeat split; lia).
  destruct c as [timeout b|timeout [done bp]]; simpl.
  - unfold oqPutTimeout.
    destruct (oqPutI_cases b q Hok) as [[Hc Hb]|(Hc & Hb & q' & E & Hok' & Hc' & Hn & Hf)]; rewrite Hb.
    + destruct (q_enqueue_spec t timeout q) as [E|(q' & E & Hw & Hc' & Hbu & Hwr & Hrd & Hno)]; rewrite E; simpl.
      * eexists q, _, []. split; [reflexivity|]. split_and!; auto. lia.
      * eexists q', _, []. split; [reflexivity|]. split_and!; auto; try lia.
        2: exact Logic.I.
        unfold oq_ok, q_top. rewrite Hc', Hbu, Hwr, Hrd. exact Hok.
    + rewrite E. simpl. eexists q', _, _. split; [reflexivity|]. split_and!; auto; [|lia].
      apply q_moves_less; [apply wakes_notification|exact Hf|lia].
  - destruct (Z.leb_spec (Z.of_nat (length bp)) 0) as [Hle|Hgt].
    + simpl. eexists q, _, []. split; [reflexivity|]. split_and!; auto.
      intros Hlive. apply nonempty_length in Hlive. lia.
    + destruct (oq_write_spec bp q Hok) as (q' & E & Hok' & Hc & Hn & Hf). rewrite E.
      cbn [mbind option_bind]. destruct Hf as (Hfw & Hft & Hfn).
      destruct (Z.eqb_spec (Z.min (Z.of_nat (length bp)) (q_counter q)) 0) as [Hz|Hz].
      * assert (Hc0 : q_counter q = 0) by lia.
        destruct (q_enqueue_spec t timeout q') as [E'|(q2 & E' & Hw & Hc' & Hbu & Hwr & Hrd & Hno)]; rewrite E'; simpl.
        -- eexists q', _, []. split; [reflexivity|]. split_and!; auto; [|lia].
           apply q_moves_less; repeat split; auto. lia.
        -- eexists q2, _, []. split; [reflexivity|].
           split_and!; auto; try (simpl; split_and!; auto; try lia; intros ->; simpl in Hgt; lia); try lia.
           ++ unfold oq_ok, q_top. rewrite Hc', Hbu, Hwr, Hrd. exact Hok'.
           ++ apply Hblock; congruence || lia.
           ++ intros ->. simpl in Hgt. lia.
      * simpl. eexists q', _, _. split; [reflexivity|]. split_and!; auto; [|lia].
        apply q_moves_less; [|split_and!; auto|lia].
        unfold q_notification. rewrite Hfn. destruct (q_notify q); reflexivity.
Qed.

Lemma oq_isr_law i q :
  oq_ok q -> oq_op_ok i ->
  exists q' ev, ch_isr i q = Some (q', ev) /\ oq_ok q' /\ moves (H := oq_channel) (fun _ => []) q q' ev.
Proof.
  intros Hq Hi. destruct (oq_exec_spec i q Hq Hi) as (q' & ev & r & E & Hq' & _ & _ & Hm).
  exists q', ev. simpl. rewrite E. auto.
Qed.

Lemma oq_resume_law t msg (c : oq_call) (q : io_queue) :
  (msg = MSG_OK -> ch_resume t msg c q = ch_call t c q) /\
  (msg < MSG_OK -> exists r, ch_resume t msg c q = Some (q, Return r, [])).
Proof.
  simpl. split.
  - intros ->. destruct c; reflexivity.
  - intros Hmsg. destruct c as [timeout b|timeout [done bp]]; simpl.
    + unfold oqPutTimeout_resume. rewrite (proj2 (Z.ltb_lt _ _)) by exact Hmsg. simpl. eauto.
    + unfold oqWriteTimeout_resume. rewrite (proj2 (Z.eqb_neq _ _)) by lia. simpl. eauto.
Qed.

Lemma oq_expire_law s t q :
  oq_ok q ->
  oq_ok (ch_expire (Channel := oq_channel) s t q) /\
  ch_waiting (Channel := oq_channel) s (ch_expire (Channel := oq_channel) s t q) =
    fst (sch_wakeup t (ch_waiting (Channel := oq_channel) s q)) /\
  ch_waiting (Channel := oq_channel) (negb s) (ch_expire (Channel := oq_channel) s t q) =
    ch_waiting (Channel := oq_channel) (negb s) q /\
  forall s', ch_avail (Channel := oq_channel) s' (ch_expire (Channel := oq_channel) s t q) =
    ch_avail (Channel := oq_channel) s' q.
Proof.
  intros Hq. destruct s; simpl; split_and!; try exact Hq; try reflexivity; intros []; reflexivity.
Qed.

#[export] Instance oq_laws : ChannelLaws io_queue oq_op oq_call Z := {
  ch_inv := oq_ok;
  ch_isr_ok := oq_op_ok;
  ch_live := oq_live;
  ch_isr_law := oq_isr_law;
  ch_call_law := oq_call_spec;
  ch_resume_law := oq_resume_law;
  ch_expire_law := oq_expire_law
}.

(** ** Properties *)

Fixpoint iq_exec_all (ops : list iq_op) (q : io_queue) : option (io_queue * list (Z * list Z)) :=
  match ops with
  | [] => Some (q, [])
  | i :: ops =>
      '(q, r, _) ← iq_exec i q;
      '(q, rs) ← iq_exec_all ops q;
      Some (q, r :: rs)
  end.

Fixpoint fifo_exec_all (cap : Z) (ops : list iq_op) (l : list Z) : list Z * list (Z * list Z) :=
  match ops with
  | [] => (l, [])
  | i :: ops =>
      let '(l, r) := fifo_exec cap i l in
      let '(l, rs) := fifo_exec_all cap ops l in (l, r :: rs)
  end.

Fixpoint oq_exec_all (ops : list oq_op) (q : io_queue) : option (io_queue * list Z) :=
  match ops with
  | [] => Some (q, [])
  | i :: ops =>
      '(q, r, _) ← oq_exec i q;
      '(q, rs) ← oq_exec_all ops q;
      Some (q, r :: rs)
  end.

Fixpoint ofifo_exec_all (cap : Z) (ops : list oq_op) (l : list Z) : list Z * list Z :=
  match ops with
  | [] => (l, [])
  | i :: ops =>
      let '(l, r) := ofifo_exec cap i l in
      let '(l, rs) := ofifo_exec_all cap ops l in (l, r :: rs)
  end.

Lemma iq_init_ok bp notify : bp <> [] -> iq_ok (iqObjectInit bp notify).
Proof. intros H. apply nonempty_length in H. unfold iq_ok, ring_ok. simpl. split_and!; lia || reflexivity. Qed.

Lemma oq_init_ok bp notify : bp <> [] -> oq_ok (oqObjectInit bp notify).
Proof.
  intros H. apply nonempty_length in H. unfold oq_ok, ring_ok, q_top. simpl.
  rewrite Z.sub_diag. split_and!; lia || reflexivity.
Qed.

Lemma oq_init_content bp notify : oq_content (oqObjectInit bp notify) = [].
Proof. unfold oq_content, q_top. simpl. rewrite Z.sub_diag. reflexivity. Qed.

Lemma iq_exec_all_spec ops : forall q,
  iq_ok q -> Forall iq_op_ok ops ->
  exists q' rs, iq_exec_all ops q = Some (q', rs) /\
    fifo_exec_all (q_top q) ops (iq_content q) = (iq_content q', rs).
Proof.
  induction ops as [|i ops IH]; intros q Hok Hops; [simpl; eauto|].
  inversion_clear Hops. destruct (iq_exec_spec i q Hok) as (q1 & ev & r & E & Hok1 & Ht & Hf & _); [assumption|].
  destruct (IH q1 Hok1) as (q2 & rs & E2 & Hf2); [assumption|].
  simpl. rewrite E. simpl. rewrite E2, Hf. simpl. rewrite <- Ht, Hf2. eauto.
Qed.

Lemma oq_exec_all_spec ops : forall q,
  oq_ok q -> Forall oq_op_ok ops ->
  exists q' rs, oq_exec_all ops q = Some (q', rs) /\
    ofifo_exec_all (q_top q) ops (oq_content q) = (oq_content q', rs).
Proof.
  induction ops as [|i ops IH]; intros q Hok Hops; [simpl; eauto|].
  inversion_clear Hops. destruct (oq_exec_spec i q Hok) as (q1 & ev & r & E & Hok1 & Ht & Hf & _); [assumption|].
  destruct (IH q1 Hok1) as (q2 & rs & E2 & Hf2); [assumption|].
  simpl. rewrite E. simpl. rewrite E2, Hf. simpl. rewrite <- Ht, Hf2. eauto.
Qed.

(** C14: whatever sequence of puts, gets, block reads and resets an input queue of
    any size goes through, no operation is undefined, each returns what a list
    bounded by the buffer's size would, and the queue holds that list. *)
Theorem iq_refines_fifo (bp : list Z) (notify : bool) (ops : list iq_op) :
  bp <> [] -> Forall iq_op_ok ops ->
  exists q rs, iq_exec_all ops (iqObjectInit bp notify) = Some (q, rs) /\
    fifo_exec_all (Z.of_nat (length bp)) ops [] = (iq_content q, rs).
Proof. intros Hbp Hops. exact (iq_exec_all_spec ops _ (iq_init_ok bp notify Hbp) Hops). Qed.

(** The ring wraps: three cells, four bytes, a block read across the end. *)
Lemma iq_refines_fifo_witness :
  exists q rs, iq_exec_all [IqPut 1; IqPut 2; IqGet; IqPut 3; IqPut 4; IqPut 5; IqRead 2; IqGet; IqGet]
      (iqObjectInit [0; 0; 0] true) = Some (q, rs) /\
    fifo_exec_all 3 [IqPut 1; IqPut 2; IqGet; IqPut 3; IqPut 4; IqPut 5; IqRead 2; IqGet; IqGet] [] =
      (iq_content q, rs).
Proof.
  apply (iq_refines_fifo [0; 0; 0] true [IqPut 1; IqPut 2; IqGet; IqPut 3; IqPut 4; IqPut 5; IqRead 2; IqGet; IqGet]);
    [discriminate|repeat constructor].
Defined.

(** an output queue implements the same bounded list, with block writes that
    take as many bytes as there is room for. *)
Theorem oq_refines_fifo (bp : list Z) (notify : bool) (ops : list oq_op) :
  bp <> [] -> Forall oq_op_ok ops ->
  exists q rs, oq_exec_all ops (oqObjectInit bp notify) = Some (q, rs) /\
    ofifo_exec_all (Z.of_nat (length bp)) ops [] = (oq_content q, rs).
Proof.
  intros Hbp Hops. rewrite <- (oq_init_content bp notify).
  exact (oq_exec_all_spec ops _ (oq_init_ok bp notify Hbp) Hops).
Qed.

Lemma oq_refines_fifo_witness :
  exists q rs, oq_exec_all [OqPut 1; OqGet; OqWrite [2; 3; 4; 5]; OqPut 6; OqGet; OqGet]
      (oqObjectInit [0; 0; 0] true) = Some (q, rs) /\
    ofifo_exec_all 3 [OqPut 1; OqGet; OqWrite [2; 3; 4; 5]; OqPut 6; OqGet; OqGet] [] = (oq_content q, rs).
Proof.
  apply (oq_refines_fifo [0; 0; 0] true [OqPut 1; OqGet; OqWrite [2; 3; 4; 5]; OqPut 6; OqGet; OqGet]);
    [discriminate|repeat constructor; discriminate].
Defined.

(** C17: however interrupts, readers that start, resume or time out, and resets
    interleave on an input queue, every step is defined, and a reader is left
    waiting only while at least as many woken readers as there are bytes have
    still to run. *)
Theorem iq_no_lost_wakeup (bp : list Z) (notify : bool) (es : list (sys_event iq_op iq_call))
    (sy : system io_queue iq_call) :
  bp <> [] -> Forall event_ok es ->
  sys_run es (Sys (iqObjectInit bp notify) ∅) = Some sy ->
  no_lost_wakeup sy.
Proof.
  intros Hbp Hes Hrun. apply sys_inv_no_lost_wakeup. refine (sys_run_inv es _ _ _ Hes Hrun).
  apply sys_init_inv; [exact (iq_init_ok bp notify Hbp)|intros []; reflexivity].
Qed.

(** The same holds of writers at an output queue, which wait only while the
    free cells are left to woken writers. *)
Theorem oq_no_lost_wakeup (bp : list Z) (notify : bool) (es : list (sys_event oq_op oq_call))
    (sy : system io_queue oq_call) :
  bp <> [] -> Forall event_ok es ->
  sys_run es (Sys (oqObjectInit bp notify) ∅) = Some sy ->
  no_lost_wakeup sy.
Proof.
  intros Hbp Hes Hrun. apply sys_inv_no_lost_wakeup. refine (sys_run_inv es _ _ _ Hes Hrun).
  apply sys_init_inv; [exact (oq_init_ok bp notify Hbp)|intros []; reflexivity].
Qed.

(** Three threads: two wait, a byte arrives, a third reader takes it before the
    woken one runs, which then waits again. *)
Definition iq_race : list (sys_event iq_op iq_call) :=
  [EvCall 1%nat (IqGetTimeout 100); EvCall 2%nat (IqReadTimeout 50 ([], 4)); EvIsr (IqPut 7);
   EvCall 3%nat (IqGetTimeout 10); EvRun 1%nat; EvIsr (IqPut 8); EvTimeout 1%nat].

Definition iq_race_end : system io_queue iq_call :=
  Sys (IoQueue [] 1 [7; 8] 0 1 true)
    (<[1%nat := Ready (IqGetTimeout 100) MSG_TIMEOUT]>
     (<[2%nat := Ready (IqReadTimeout 50 ([], 4)) MSG_OK]> ∅)).

Lemma iq_no_lost_wakeup_witness :
  sys_run iq_race (Sys (iqObjectInit [0; 0] true) ∅) = Some iq_race_end /\ no_lost_wakeup iq_race_end.
Proof.
  split; [vm_compute; reflexivity|].
  apply (iq_no_lost_wakeup [0; 0] true iq_race);
    [discriminate|repeat constructor|vm_compute; reflexivity].
Defined.

Definition oq_race : list (sys_event oq_op oq_call) :=
  [EvCall 1%nat (OqWriteTimeout 100 (0, [1; 2; 3])); EvRun 1%nat; EvCall 2%nat (OqPutTimeout 50 9);
   EvIsr OqGet; EvIsr OqGet; EvRun 2%nat].

Definition oq_race_end : system io_queue oq_call :=
  Sys (IoQueue [] 1 [9; 2] 1 0 false)
    (<[1%nat := Ready (OqWriteTimeout 100 (2, [3])) MSG_OK]> ∅).

Lemma oq_no_lost_wakeup_witness :
  sys_run oq_race (Sys (oqObjectInit [0; 0] false) ∅) = Some oq_race_end /\ no_lost_wakeup oq_race_end.
Proof.
  split; [vm_compute; reflexivity|].
  apply (oq_no_lost_wakeup [0; 0] false oq_race);
    [discriminate|repeat constructor; discriminate|vm_compute; reflexivity].
Defined.

(** Puts that find waiting readers make them ready, in order. *)
Lemma puts_wake (bs : list Z) (rest : list nat) : forall (ts : list nat) (q : io_queue) m,
  iq_ok q -> q_counter q + Z.of_nat (length bs) <= q_top q -> length ts = length bs ->
  q_waiting q = ts ++ rest ->
  NoDup ts -> (forall t, t ∈ ts -> exists timeout, m !! t = Some (Suspended (IqGetTimeout timeout))) ->
  exists q' m', sys_log (EvIsr ∘ IqPut <$> bs) (Sys q m) = Some (Sys q' m', []) /\ iq_ok q' /\
    iq_content q' = iq_content q ++ bs /\ q_waiting q' = rest /\
    (forall t, t ∈ ts -> exists timeout, m' !! t = Some (Ready (IqGetTimeout timeout) MSG_OK)) /\
    (forall t, t ∉ ts -> m' !! t = m !! t).
Proof.
  induction bs as [|b bs IH]; intros [|t ts] q m Hok Hcap Hl Hw Hnd Hs; try discriminate Hl.
  - simpl. exists q, m. rewrite app_nil_r. split_and!; auto. intros t Hin. inversion Hin.
  - cbn [length] in *. apply NoDup_cons in Hnd as [Hnin Hnd].
    destruct (Hs t) as [timeout Et]; [left|].
    destruct (iqPutI_spec b q Hok) as (q1 & ev & woken & E & Hok1 & Hc1 & Hn1 & Ht1 & Hev & Hw1 & Hl1); [lia|].
    assert (woken = [t] /\ q_waiting q1 = ts ++ rest) as [-> Hw1'].
    { rewrite Hw in Hw1. destruct Hl1 as [Hl1|[-> Hnil]]; [|rewrite Hnil in Hw1; discriminate].
      destruct woken as [|t' [|]]; try discriminate Hl1. simpl in Hw1. injection Hw1 as <- Hw1. auto. }
    destruct (IH ts q1 (<[t := Ready (IqGetTimeout timeout) MSG_OK]> m) Hok1)
      as (q2 & m2 & E2 & Hok2 & Hc2 & Hw2 & Hin2 & Hout2); [lia|lia|exact Hw1'|exact Hnd| |].
    { intros t' Hin. rewrite lookup_insert_ne by (intros ->; contradiction). apply Hs. right. exact Hin. }
    exists q2, m2. cbn [fmap list_fmap compose]. cbn -[sys_log]. cbn [sys_log sys_enabled].
    unfold sys_step. cbn [ch_isr iq_channel iq_exec sy_obj sy_threads]. rewrite E. cbn [mbind option_bind].
    unfold wake_all. rewrite Hev. simpl foldl. unfold wake_one. simpl. rewrite Et.
    simpl in E2. rewrite E2. split; [reflexivity|].
    rewrite Hc2, Hc1, <- app_assoc. split_and!; auto.
    + intros t' Hin. destruct (decide (t' = t)) as [->|Hne].
      * exists timeout. rewrite Hout2 by exact Hnin. apply lookup_insert_eq.
      * apply Hin2. apply elem_of_cons in Hin as [?|?]; [contradiction|assumption].
    + intros t' Hin. apply not_elem_of_cons in Hin as [Hne Hin]. rewrite Hout2 by exact Hin.
      apply lookup_insert_ne. congruence.
Qed.

(** Readers that run when bytes are there return them, in order. *)
Lemma ready_readers_return (bs : list Z) : forall (ts : list nat) (q : io_queue) m rest,
  iq_ok q -> iq_content q = bs ++ rest -> length ts = length bs -> NoDup ts ->
  (forall t, t ∈ ts -> exists timeout, m !! t = Some (Ready (IqGetTimeout timeout) MSG_OK)) ->
  exists q' m', sys_log (EvRun <$> ts) (Sys q m) = Some (Sys q' m', zip ts ((fun b => (b, [])) <$> bs)) /\
    iq_ok q' /\ iq_content q' = rest /\ q_waiting q' = q_waiting q /\
    (forall t, t ∈ ts -> m' !! t = None) /\ (forall t, t ∉ ts -> m' !! t = m !! t).
Proof.
  induction bs as [|b bs IH]; intros [|t ts] q m rest Hok Hc Hl Hnd Hs; try discriminate Hl.
  - simpl. exists q, m. split_and!; auto. intros t Hin. inversion Hin.
  - cbn [length] in *. apply NoDup_cons in Hnd as [Hnin Hnd].
    destruct (Hs t) as [timeout Et]; [left|].
    assert (Hpos : 0 < q_counter q) by (rewrite <- iq_length, Hc by exact Hok; simpl; lia).
    destruct (iq_take_spec q Hok Hpos) as (q1 & b' & E & Hok1 & Hc1 & Hn1 & Hf1).
    rewrite Hc in Hc1. simpl in Hc1. injection Hc1 as <- Hc1.
    destruct (IH ts q1 (delete t m) rest Hok1) as (q2 & m2 & E2 & Hok2 & Hc2 & Hw2 & Hin2 & Hout2);
      [congruence|lia|exact Hnd| |].
    { intros t' Hin. rewrite lookup_delete_ne by (intros ->; contradiction). apply Hs. right. exact Hin. }
    exists q2, m2. cbn [fmap list_fmap sys_log sys_enabled sy_threads]. rewrite Et.
    unfold sys_step, sys_returns. cbn [sy_threads sy_obj]. rewrite Et.
    cbn [ch_resume iq_channel iq_do]. unfold iqGetTimeout_resume, iqGetTimeout. simpl.
    unfold iqIsEmptyI. rewrite (proj2 (Z.eqb_neq _ _)) by lia. rewrite E. simpl.
    rewrite wakes_notification. simpl in E2 |- *. rewrite E2. split; [reflexivity|].
    split_and!; auto; [rewrite Hw2; apply Hf1| |].
    + intros t' Hin. destruct (decide (t' = t)) as [->|Hne].
      * rewrite Hout2 by exact Hnin. apply lookup_delete_eq.
      * apply Hin2. apply elem_of_cons in Hin as [?|?]; [contradiction|assumption].
    + intros t' Hin. apply not_elem_of_cons in Hin as [Hne Hin]. rewrite Hout2 by exact Hin.
      apply lookup_delete_ne. congruence.
Qed.

Lemma sys_log_app (es1 : list (sys_event iq_op iq_call)) : forall es2 sy sy1 log1 sy2 log2,
  sys_log es1 sy = Some (sy1, log1) -> sys_log es2 sy1 = Some (sy2, log2) ->
  sys_log (es1 ++ es2) sy = Some (sy2, log1 ++ log2).
Proof.
  induction es1 as [|e es1 IH]; intros es2 sy sy1 log1 sy2 log2 H1 H2.
  - injection H1 as <- <-. exact H2.
  - cbn [app sys_log] in *. destruct (sys_enabled e sy); [|discriminate].
    destruct (sys_step e sy) as [sy'|]; [|discriminate]. cbn [mbind option_bind] in *.
    destruct (sys_log es1 sy') as [[sya loga]|] eqn:E; [|discriminate]. injection H1 as <- <-.
    rewrite (IH _ _ _ _ _ _ E H2). simpl. rewrite app_assoc. reflexivity.
Qed.

(** C31: readers that wait at an empty input queue are served in the order in
    which they came: as many bytes as there are such readers wake them, and when
    the bytes have all come first and the woken readers then run in that order,
    with no step of another thread or interrupt in between, each returns its byte,
    whatever other threads are in calls.  Under other schedules a reader that
    comes later may take the byte another was woken for ([iq_race]). *)
Theorem iq_readers_served (ts rest : list nat) (bs : list Z) (sy : system io_queue iq_call) :
  sys_inv sy -> iq_content (sy_obj sy) = [] -> q_waiting (sy_obj sy) = ts ++ rest ->
  (forall t, t ∈ ts -> exists timeout, sy_threads sy !! t = Some (Suspended (IqGetTimeout timeout))) ->
  length bs = length ts -> Z.of_nat (length bs) <= q_top (sy_obj sy) ->
  exists sy', sys_log ((EvIsr ∘ IqPut <$> bs) ++ (EvRun <$> ts)) sy =
      Some (sy', zip ts ((fun b => (b, [])) <$> bs)) /\
    iq_content (sy_obj sy') = [] /\ q_waiting (sy_obj sy') = rest /\
    (forall t, t ∈ ts -> sy_threads sy' !! t = None).
Proof.
  intros Hsy Hempty Hw Hs Hl Hcap. destruct sy as [q m]. cbn [sy_obj sy_threads] in *.
  pose proof Hsy as (Hok & (Hnd & _) & _). cbn [sy_obj sy_threads] in *. simpl in Hok.
  pose proof (iq_length q Hok) as Hlen. rewrite Hempty in Hlen. simpl in Hlen.
  assert (Hndts : NoDup ts).
  { specialize (Hnd true). simpl in Hnd. rewrite Hw in Hnd. apply NoDup_app in Hnd. apply Hnd. }
  destruct (puts_wake bs rest ts q m Hok) as (q1 & m1 & E1 & Hok1 & Hc1 & Hw1 & Hin1 & _); auto; [lia|].
  destruct (ready_readers_return bs ts q1 m1 [] Hok1) as (q2 & m2 & E2 & Hok2 & Hc2 & Hw2 & Hin2 & _); auto.
  { rewrite Hc1, Hempty, app_nil_r. reflexivity. }
  exists (Sys q2 m2). rewrite (sys_log_app _ _ _ _ _ _ _ E1 E2). cbn [sy_obj sy_threads].
  split_and!; auto. congruence.
Qed.

Definition waiting_readers : system io_queue iq_call :=
  Sys (IoQueue [4; 2; 9]%nat 0 [1; 0; 0] 1 1 true)
    (<[4%nat := Suspended (IqGetTimeout 100)]> (<[2%nat := Suspended (IqGetTimeout 7)]>
     (<[9%nat := Suspended (IqReadTimeout 50 ([], 4))]> ∅))).

Lemma waiting_readers_inv : sys_inv waiting_readers.
Proof.
  apply (sys_run_inv
    [EvIsr (IqPut 1); EvCall 4%nat (IqGetTimeout 100); EvCall 4%nat (IqGetTimeout 100);
     EvCall 2%nat (IqGetTimeout 7); EvCall 9%nat (IqReadTimeout 50 ([], 4))]
    (Sys (iqObjectInit [0; 0; 0] true) ∅)).
  - apply sys_init_inv; [apply iq_init_ok; discriminate|intros []; reflexivity].
  - repeat constructor.
  - vm_compute. reflexivity.
Qed.

Lemma iq_readers_served_witness :
  exists sy', sys_log ((EvIsr ∘ IqPut <$> [65; 66]) ++ (EvRun <$> [4; 2]%nat)) waiting_readers =
      Some (sy', [(4%nat, (65, [])); (2%nat, (66, []))]) /\
    iq_content (sy_obj sy') = [] /\ q_waiting (sy_obj sy') = [9%nat] /\
    (forall t, t ∈ [4; 2]%nat -> sy_threads sy' !! t = None).
Proof.
  apply (iq_readers_served [4; 2]%nat [9%nat] [65; 66] waiting_readers);
    [exact waiting_readers_inv|reflexivity|reflexivity| |reflexivity|discriminate].
  intros t [->|[->|Hin]%elem_of_cons]%elem_of_cons; [eexists; reflexivity|eexists; reflexivity|inversion Hin].
Defined.
