(* ===== verification/Mailboxes.v ===== *)
(** * Mailboxes (chmboxes.c)

    The bounded message queues of the kernel's library, through which the network
    stack's threads talk.  Readers and writers may both wait.  A mailbox
    implements a bounded double-ended list with a reset state, and loses no
    wake-up on either side.  A call made in the kernel lock is one step; the
    variants that take the lock themselves are the same step. *)

From stdpp Require Import gmap.
From S2P Require Import Prelude CInt CLib Threads Rings.
#[local] Open Scope Z_scope.

(** ** Data: pointers are indices in the buffer *)

Record mailbox_t := Mailbox {
  mb_buffer : list Z;
  mb_wrptr : Z;
  mb_rdptr : Z;
  mb_cnt : Z;
  mb_reset : bool;
  mb_qw : threads_queue;
  mb_qr : threads_queue
}.

Definition chMBObjectInit (buf : list Z) : option mailbox_t :=
  _ ← check (0 <? Z.of_nat (length buf));
  Some (Mailbox buf 0 0 0 false chThdQueueObjectInit chThdQueueObjectInit).

Definition chMBGetSizeI (mb : mailbox_t) : Z := Z.of_nat (length (mb_buffer mb)).
Definition chMBGetUsedCountI (mb : mailbox_t) : Z := mb_cnt mb.
Definition chMBGetFreeCountI (mb : mailbox_t) : Z := chMBGetSizeI mb - chMBGetUsedCountI mb.
Definition chMBPeekI (mb : mailbox_t) : option Z := rd (mb_buffer mb) (mb_rdptr mb).

Definition chMBResumeX (mb : mailbox_t) : mailbox_t :=
  Mailbox (mb_buffer mb) (mb_wrptr mb) (mb_rdptr mb) (mb_cnt mb) false (mb_qw mb) (mb_qr mb).

(** ** Reset *)

Definition chMBResetI (mb : mailbox_t) : mailbox_t * list event :=
  let '(qw, ev1) := chThdDequeueAllI (mb_qw mb) MSG_RESET in
  let '(qr, ev2) := chThdDequeueAllI (mb_qr mb) MSG_RESET in
  (Mailbox (mb_buffer mb) 0 0 0 true qw qr, ev1 ++ ev2).

Definition chMBReset (mb : mailbox_t) : mailbox_t * list event := chMBResetI mb.

(** ** Storing and fetching, once there is room or a message *)

Definition mb_append (msg : Z) (mb : mailbox_t) : option (mailbox_t * list event) :=
  buf ← wr (mb_buffer mb) (mb_wrptr mb) msg;
  let '(qr, ev) := chThdDequeueNextI (mb_qr mb) MSG_OK in
  Some (Mailbox buf (ring_next (chMBGetSizeI mb) (mb_wrptr mb)) (mb_rdptr mb) (mb_cnt mb + 1)
          (mb_reset mb) (mb_qw mb) qr, ev).

(** The pointer is compared with the start of the buffer after it has been
    decremented: addresses are ordered as indices are. *)
Definition mb_prepend (msg : Z) (mb : mailbox_t) : option (mailbox_t * list event) :=
  let rdptr := ring_prev (chMBGetSizeI mb) (mb_rdptr mb) in
  buf ← wr (mb_buffer mb) rdptr msg;
  let '(qr, ev) := chThdDequeueNextI (mb_qr mb) MSG_OK in
  Some (Mailbox buf (mb_wrptr mb) rdptr (mb_cnt mb + 1) (mb_reset mb) (mb_qw mb) qr, ev).

Definition mb_remove (mb : mailbox_t) : option (mailbox_t * Z * list event) :=
  msg ← rd (mb_buffer mb) (mb_rdptr mb);
  let '(qw, ev) := chThdDequeueNextI (mb_qw mb) MSG_OK in
  Some (Mailbox (mb_buffer mb) (mb_wrptr mb) (ring_next (chMBGetSizeI mb) (mb_rdptr mb)) (mb_cnt mb - 1)
          (mb_reset mb) qw (mb_qr mb), msg, ev).

(** ** Operations that do not wait *)

Definition chMBPostI (msg : Z) (mb : mailbox_t) : option (mailbox_t * Z * list event) :=
  if mb_reset mb then Some (mb, MSG_RESET, [])
  else if 0 <? chMBGetFreeCountI mb then '(mb, ev) ← mb_append msg mb; Some (mb, MSG_OK, ev)
  else Some (mb, MSG_TIMEOUT, []).

Definition chMBPostAheadI (msg : Z) (mb : mailbox_t) : option (mailbox_t * Z * list event) :=
  if mb_reset mb then Some (mb, MSG_RESET, [])
  else if 0 <? chMBGetFreeCountI mb then '(mb, ev) ← mb_prepend msg mb; Some (mb, MSG_OK, ev)
  else Some (mb, MSG_TIMEOUT, []).

(** The status, and the message stored through the caller's pointer. *)
Definition chMBFetchI (mb : mailbox_t) : option (mailbox_t * (Z * option Z) * list event) :=
  if mb_reset mb then Some (mb, (MSG_RESET, None), [])
  else if 0 <? chMBGetUsedCountI mb then
    '(mb, msg, ev) ← mb_remove mb; Some (mb, (MSG_OK, Some msg), ev)
  else Some (mb, (MSG_TIMEOUT, None), []).

(** ** Operations that may wait, up to their return or suspension *)

Definition with_qw (qw : threads_queue) (mb : mailbox_t) : mailbox_t :=
  Mailbox (mb_buffer mb) (mb_wrptr mb) (mb_rdptr mb) (mb_cnt mb) (mb_reset mb) qw (mb_qr mb).
Definition with_qr (qr : threads_queue) (mb : mailbox_t) : mailbox_t :=
  Mailbox (mb_buffer mb) (mb_wrptr mb) (mb_rdptr mb) (mb_cnt mb) (mb_reset mb) (mb_qw mb) qr.

Definition chMBPostTimeoutS (t : nat) (msg timeout : Z) (mb : mailbox_t)
  : option (mailbox_t * outcome Z unit * list event) :=
  if mb_reset mb then Some (mb, Return MSG_RESET, [])
  else if 0 <? chMBGetFreeCountI mb then '(mb, ev) ← mb_append msg mb; Some (mb, Return MSG_OK, ev)
  else
    match chThdEnqueueTimeoutS t timeout (mb_qw mb) with
    | None => Some (mb, Return MSG_TIMEOUT, [])
    | Some qw => Some (with_qw qw mb, Blocked tt, [])
    end.

Definition chMBPostAheadTimeoutS (t : nat) (msg timeout : Z) (mb : mailbox_t)
  : option (mailbox_t * outcome Z unit * list event) :=
  if mb_reset mb then Some (mb, Return MSG_RESET, [])
  else if 0 <? chMBGetFreeCountI mb then '(mb, ev) ← mb_prepend msg mb; Some (mb, Return MSG_OK, ev)
  else
    match chThdEnqueueTimeoutS t timeout (mb_qw mb) with
    | None => Some (mb, Return MSG_TIMEOUT, [])
    | Some qw => Some (with_qw qw mb, Blocked tt, [])
    end.

Definition chMBFetchTimeoutS (t : nat) (timeout : Z) (mb : mailbox_t)
  : option (mailbox_t * outcome (Z * option Z) unit * list event) :=
  if mb_reset mb then Some (mb, Return (MSG_RESET, None), [])
  else if 0 <? chMBGetUsedCountI mb then
    '(mb, msg, ev) ← mb_remove mb; Some (mb, Return (MSG_OK, Some msg), ev)
  else
    match chThdEnqueueTimeoutS t timeout (mb_qr mb) with
    | None => Some (mb, Return (MSG_TIMEOUT, None), [])
    | Some qr => Some (with_qr qr mb, Blocked tt, [])
    end.

Definition chMBPostTimeout := chMBPostTimeoutS.
Definition chMBPostAheadTimeout := chMBPostAheadTimeoutS.
Definition chMBFetchTimeout := chMBFetchTimeoutS.

(** ** The mailbox as a component with wait queues *)

Inductive mb_op := MbPost (msg : Z) | MbPostAhead (msg : Z) | MbFetch | MbReset | MbResume.

Definition mb_exec (i : mb_op) (mb : mailbox_t) : option (mailbox_t * (Z * option Z) * list event) :=
  match i with
  | MbPost msg => '(mb, r, ev) ← chMBPostI msg mb; Some (mb, (r, None), ev)
  | MbPostAhead msg => '(mb, r, ev) ← chMBPostAheadI msg mb; Some (mb, (r, None), ev)
  | MbFetch => chMBFetchI mb
  | MbReset => let '(mb, ev) := chMBResetI mb in Some (mb, (MSG_OK, None), ev)
  | MbResume => Some (chMBResumeX mb, (MSG_OK, None), [])
  end.

Inductive mb_call :=
| MbPostTimeout (msg timeout : Z)
| MbPostAheadTimeout (msg timeout : Z)
| MbFetchTimeout (timeout : Z).

(** A call, or one that loops because it was woken with [MSG_OK]. *)
Definition mb_do (t : nat) (c : mb_call) (mb : mailbox_t)
  : option (mailbox_t * outcome (Z * option Z) mb_call * list event) :=
  match c with
  | MbPostTimeout msg timeout =>
      '(mb, o, ev) ← chMBPostTimeoutS t msg timeout mb;
      Some (mb, outcome_map (fun r => (r, None)) (fun _ => c) o, ev)
  | MbPostAheadTimeout msg timeout =>
      '(mb, o, ev) ← chMBPostAheadTimeoutS t msg timeout mb;
      Some (mb, outcome_map (fun r => (r, None)) (fun _ => c) o, ev)
  | MbFetchTimeout timeout =>
      '(mb, o, ev) ← chMBFetchTimeoutS t timeout mb;
      Some (mb, outcome_map id (fun _ => c) o, ev)
  end.

Definition mb_resume (t : nat) (rdymsg : Z) (c : mb_call) (mb : mailbox_t)
  : option (mailbox_t * outcome (Z * option Z) mb_call * list event) :=
  if rdymsg =? MSG_OK then mb_do t c mb else Some (mb, Return (rdymsg, None), []).

(** Writers wait on the side [true], readers on the side [false]. *)
#[export] Instance mb_channel : Channel mailbox_t mb_op mb_call (Z * option Z) := {
  ch_waiting := fun s mb => if s then mb_qw mb else mb_qr mb;
  ch_avail := fun s mb =>
    if mb_reset mb then 0 else if s then chMBGetFreeCountI mb else chMBGetUsedCountI mb;
  ch_side := fun c => match c with MbFetchTimeout _ => false | _ => true end;
  ch_isr := fun i mb => '(mb, _, ev) ← mb_exec i mb; Some (mb, ev);
  ch_call := mb_do;
  ch_resume := mb_resume;
  ch_expire := fun s t mb =>
    if s then with_qw (fst (sch_wakeup t (mb_qw mb))) mb
    else with_qr (fst (sch_wakeup t (mb_qr mb))) mb
}.

(** ** Representation *)

Definition mb_content (mb : mailbox_t) : list Z :=
  ring_content (mb_buffer mb) (mb_rdptr mb) (mb_cnt mb).

(** While a mailbox is in the reset state no thread waits for it. *)
Definition mb_ok (mb : mailbox_t) : Prop :=
  ring_ok (mb_buffer mb) (mb_rdptr mb) (mb_wrptr mb) (mb_cnt mb) /\
  (mb_reset mb = true -> mb_qw mb = [] /\ mb_qr mb = []).

Lemma mb_length mb : mb_ok mb -> Z.of_nat (length (mb_content mb)) = mb_cnt mb.
Proof. intros [(_ & _ & Hn & _) _]. unfold mb_content. rewrite ring_content_length. lia. Qed.

Lemma mb_count mb : mb_ok mb -> 0 <= mb_cnt mb <= chMBGetSizeI mb.
Proof. intros [(_ & _ & Hn & _) _]. exact Hn. Qed.

(** What storing a message at either end does besides. *)
Definition mb_stored (mb mb' : mailbox_t) (ev : list event) : Prop :=
  mb_ok mb' /\ mb_reset mb' = false /\ chMBGetSizeI mb' = chMBGetSizeI mb /\
  mb_cnt mb' = mb_cnt mb + 1 /\ mb_qw mb' = mb_qw mb /\
  exists woken, wakes ev = with_msg MSG_OK woken /\ mb_qr mb = woken ++ mb_qr mb' /\
    (length woken = 1%nat \/ woken = [] /\ mb_qr mb' = []).

Lemma mb_append_spec msg mb :
  mb_ok mb -> mb_reset mb = false -> mb_cnt mb < chMBGetSizeI mb ->
  exists mb' ev, mb_append msg mb = Some (mb', ev) /\
    mb_content mb' = mb_content mb ++ [msg] /\ mb_stored mb mb' ev.
Proof.
  intros [Hok _] Hr Hlt. destruct (ring_put _ _ _ _ msg Hok Hlt) as (Ew & Ec & Hok').
  unfold mb_append. rewrite Ew. cbn [mbind option_bind].
  destruct (chThdDequeueNextI_spec (mb_qr mb) MSG_OK) as (woken & rest & Hq & Hrest & Hw & Hl).
  destruct (chThdDequeueNextI (mb_qr mb) MSG_OK) as [qr ev]. simpl in Hrest, Hw. subst qr.
  eexists _, ev. split; [reflexivity|]. split; [exact Ec|].
  unfold mb_stored, mb_ok, chMBGetSizeI. simpl. rewrite length_insert, Hr.
  split_and!; auto; try discriminate. exists woken. auto.
Qed.

Lemma mb_prepend_spec msg mb :
  mb_ok mb -> mb_reset mb = false -> mb_cnt mb < chMBGetSizeI mb ->
  exists mb' ev, mb_prepend msg mb = Some (mb', ev) /\
    mb_content mb' = msg :: mb_content mb /\ mb_stored mb mb' ev.
Proof.
  intros [Hok _] Hr Hlt. destruct (ring_push _ _ _ _ msg Hok Hlt) as (Ew & Ec & Hok').
  unfold mb_prepend, chMBGetSizeI in *. rewrite Ew. cbn [mbind option_bind].
  destruct (chThdDequeueNextI_spec (mb_qr mb) MSG_OK) as (woken & rest & Hq & Hrest & Hw & Hl).
  destruct (chThdDequeueNextI (mb_qr mb) MSG_OK) as [qr ev]. simpl in Hrest, Hw. subst qr.
  eexists _, ev. split; [reflexivity|]. split; [exact Ec|].
  unfold mb_stored, mb_ok, chMBGetSizeI. simpl. rewrite length_insert, Hr.
  split_and!; auto; try discriminate. exists woken. auto.
Qed.

Lemma mb_remove_spec mb :
  mb_ok mb -> mb_reset mb = false -> 0 < mb_cnt mb ->
  exists mb' msg ev, mb_remove mb = Some (mb', msg, ev) /\
    mb_content mb = msg :: mb_content mb' /\ mb_ok mb' /\ mb_reset mb' = false /\
    chMBGetSizeI mb' = chMBGetSizeI mb /\ mb_cnt mb' = mb_cnt mb - 1 /\ mb_qr mb' = mb_qr mb /\
    exists woken, wakes ev = with_msg MSG_OK woken /\ mb_qw mb = woken ++ mb_qw mb' /\
      (length woken = 1%nat \/ woken = [] /\ mb_qw mb' = []).
Proof.
  intros [Hok _] Hr Hpos. destruct (ring_get _ _ _ _ Hok Hpos) as (msg & Eb & Ec & Hok').
  unfold mb_remove. rewrite Eb. cbn [mbind option_bind].
  destruct (chThdDequeueNextI_spec (mb_qw mb) MSG_OK) as (woken & rest & Hq & Hrest & Hw & Hl).
  destruct (chThdDequeueNextI (mb_qw mb) MSG_OK) as [qw ev]. simpl in Hrest, Hw. subst qw.
  eexists _, msg, ev. split; [reflexivity|]. split; [exact Ec|].
  unfold mb_ok, chMBGetSizeI. simpl. rewrite Hr.
  split_and!; auto; try discriminate. exists woken. auto.
Qed.

(** ** The moves of the threads *)

Lemma mb_moves_stored mb mb' ev :
  mb_ok mb -> mb_reset mb = false -> mb_stored mb mb' ev ->
  moves (H := mb_channel) (fun _ => []) mb mb' ev.
Proof.
  intros Hok Hr (Hok' & Hr' & Hs & Hc & Hqw & woken & Hev & Hqr & Hl).
  apply (moves_wake false MSG_OK woken (mb_qr mb')); auto; [lia| |]; simpl; rewrite ?Hr, ?Hr';
    unfold chMBGetFreeCountI, chMBGetUsedCountI; rewrite ?Hs, ?Hc.
  - destruct Hl as [->|[_ Hl]]; [right; simpl; lia|auto].
  - right. lia.
Qed.

Lemma mb_moves_removed mb mb' ev woken :
  mb_reset mb = false -> mb_reset mb' = false -> chMBGetSizeI mb' = chMBGetSizeI mb ->
  mb_cnt mb' = mb_cnt mb - 1 -> mb_qr mb' = mb_qr mb ->
  wakes ev = with_msg MSG_OK woken -> mb_qw mb = woken ++ mb_qw mb' ->
  length woken = 1%nat \/ woken = [] /\ mb_qw mb' = [] ->
  moves (H := mb_channel) (fun _ => []) mb mb' ev.
Proof.
  intros Hr Hr' Hs Hc Hqr Hev Hqw Hl.
  apply (moves_wake true MSG_OK woken (mb_qw mb')); auto; [lia| |]; simpl; rewrite ?Hr, ?Hr';
    unfold chMBGetFreeCountI, chMBGetUsedCountI; rewrite ?Hs, ?Hc.
  - destruct Hl as [->|[_ Hl]]; [right; simpl; lia|auto].
  - right. lia.
Qed.

Lemma mb_moves_same mb : moves (H := mb_channel) (fun _ => []) mb mb [].
Proof.
  apply moves_quiet; [reflexivity|]. intros s. rewrite app_nil_r. split; [reflexivity|right; lia].
Qed.

(** ** What the operations do *)

(** A bounded double-ended list, and whether it is in the reset state. *)
Definition deque_exec (cap : Z) (i : mb_op) (st : list Z * bool)
  : (list Z * bool) * (Z * option Z) :=
  let '(l, reset) := st in
  match i with
  | MbPost msg =>
      if reset then (st, (MSG_RESET, None))
      else if Z.of_nat (length l) <? cap then ((l ++ [msg], reset), (MSG_OK, None))
      else (st, (MSG_TIMEOUT, None))
  | MbPostAhead msg =>
      if reset then (st, (MSG_RESET, None))
      else if Z.of_nat (length l) <? cap then ((msg :: l, reset), (MSG_OK, None))
      else (st, (MSG_TIMEOUT, None))
  | MbFetch =>
      if reset then (st, (MSG_RESET, None))
      else match l with
           | [] => (st, (MSG_TIMEOUT, None))
           | msg :: l => ((l, reset), (MSG_OK, Some msg))
           end
  | MbReset => (([], true), (MSG_OK, None))
  | MbResume => ((l, false), (MSG_OK, None))
  end.

Lemma chMBResetI_spec mb :
  mb_ok mb ->
  exists mb' ev, chMBResetI mb = (mb', ev) /\ mb_ok mb' /\ mb_content mb' = [] /\
    mb_reset mb' = true /\ chMBGetSizeI mb' = chMBGetSizeI mb /\
    mb_qw mb' = [] /\ mb_qr mb' = [] /\
    wakes ev = with_msg MSG_RESET (mb_qw mb) ++ with_msg MSG_RESET (mb_qr mb).
Proof.
  intros [(Hs & Hr & Hn & Hw) _]. unfold chMBResetI.
  destruct (chThdDequeueAllI_spec (mb_qw mb) MSG_RESET) as [E1 W1].
  destruct (chThdDequeueAllI_spec (mb_qr mb) MSG_RESET) as [E2 W2].
  destruct (chThdDequeueAllI (mb_qw mb) MSG_RESET) as [qw ev1].
  destruct (chThdDequeueAllI (mb_qr mb) MSG_RESET) as [qr ev2]. simpl in *. subst qw qr.
  eexists _, _. split; [reflexivity|]. rewrite wakes_app, W1, W2.
  unfold mb_ok, mb_content, ring_ok. simpl. split_and!; auto; lia.
Qed.

Lemma mb_exec_spec i mb :
  mb_ok mb ->
  exists mb' ev r, mb_exec i mb = Some (mb', r, ev) /\ mb_ok mb' /\
    chMBGetSizeI mb' = chMBGetSizeI mb /\
    deque_exec (chMBGetSizeI mb) i (mb_content mb, mb_reset mb) = ((mb_content mb', mb_reset mb'), r) /\
    moves (H := mb_channel) (fun _ => []) mb mb' ev.
Proof.
  intros Hok. pose proof (mb_length mb Hok) as Hlen. pose proof (mb_count mb Hok) as Hcnt.
  pose proof (mb_moves_same mb) as Hsame.
  assert (Hstay : forall r : Z * option Z, exists mb' ev r', Some (mb, r, []) = Some (mb', r', ev) /\ mb_ok mb' /\
    chMBGetSizeI mb' = chMBGetSizeI mb /\
    ((mb_content mb, mb_reset mb), r) = ((mb_content mb', mb_reset mb'), r') /\
    moves (H := mb_channel) (fun _ => []) mb mb' ev)
    by (intros r; exists mb, [], r; split_and!; auto).
  destruct i as [msg|msg| | |]; simpl.
  - unfold chMBPostI, chMBGetFreeCountI, chMBGetUsedCountI. rewrite Hlen.
    destruct (mb_reset mb) eqn:Er; [apply Hstay|].
    destruct (Z.ltb_spec (mb_cnt mb) (chMBGetSizeI mb)) as [Hlt|Hge].
    + rewrite (proj2 (Z.ltb_lt 0 _)) by lia.
      destruct (mb_append_spec msg mb Hok Er Hlt) as (mb' & ev & E & Hc & Hst).
      rewrite E. simpl. exists mb', ev, (MSG_OK, None). rewrite Hc. pose proof Hst as (Hok' & Hr' & Hs' & _).
      rewrite Hr'. split_and!; auto. apply mb_moves_stored; assumption.
    + rewrite (proj2 (Z.ltb_ge 0 _)) by lia. apply Hstay.
  - unfold chMBPostAheadI, chMBGetFreeCountI, chMBGetUsedCountI. rewrite Hlen.
    destruct (mb_reset mb) eqn:Er; [apply Hstay|].
    destruct (Z.ltb_spec (mb_cnt mb) (chMBGetSizeI mb)) as [Hlt|Hge].
    + rewrite (proj2 (Z.ltb_lt 0 _)) by lia.
      destruct (mb_prepend_spec msg mb Hok Er Hlt) as (mb' & ev & E & Hc & Hst).
      rewrite E. simpl. exists mb', ev, (MSG_OK, None). rewrite Hc. pose proof Hst as (Hok' & Hr' & Hs' & _).
      rewrite Hr'. split_and!; auto. apply mb_moves_stored; assumption.
    + rewrite (proj2 (Z.ltb_ge 0 _)) by lia. apply Hstay.
  - unfold chMBFetchI, chMBGetUsedCountI. destruct (mb_reset mb) eqn:Er; [apply Hstay|].
    destruct (Z.ltb_spec 0 (mb_cnt mb)) as [Hpos|Hz].
    + destruct (mb_remove_spec mb Hok Er Hpos) as (mb' & msg & ev & E & Hc & Hok' & Hr' & Hs & Hn & Hqr & woken & Hev & Hqw & Hl).
      rewrite E, Hc. simpl. exists mb', ev, (MSG_OK, Some msg). rewrite Hr'. split_and!; auto.
      apply (mb_moves_removed _ _ _ woken); assumption.
    + assert (Hnil : mb_content mb = []) by (apply length_zero_iff_nil; lia).
      rewrite Hnil in *. apply Hstay.
  - destruct (chMBResetI_spec mb Hok) as (mb' & ev & E & Hok' & Hc & Hr' & Hs & Hqw & Hqr & Hev).
    rewrite E. exists mb', ev, (MSG_OK, None). rewrite Hc, Hr'. split_and!; auto.
    exists MSG_RESET, (mb_qw mb), (mb_qr mb). split_and!; [discriminate|exact Hev| |];
      exists []; rewrite ?app_nil_r; simpl; auto.
  - exists (chMBResumeX mb), [], (MSG_OK, None). split_and!; auto.
    + split; [apply Hok|discriminate].
    + destruct Hok as [_ Hres]. apply moves_quiet; [reflexivity|]. intros s. rewrite app_nil_r.
      split; [destruct s; reflexivity|]. destruct (mb_reset mb) eqn:Er.
      * destruct (Hres eq_refl) as [Hw Hr]. left. destruct s; simpl; assumption.
      * right. simpl. rewrite Er. destruct s; reflexivity.
Qed.

Lemma mb_call_spec t c mb :
  mb_ok mb ->
  exists mb' o ev, mb_do t c mb = Some (mb', o, ev) /\ mb_ok mb' /\
    moves (H := mb_channel) (enqueued (H := mb_channel) t c o) mb mb' ev /\
    match o with
    | Blocked c' => True /\ ch_side (Channel := mb_channel) c' = ch_side (Channel := mb_channel) c /\
        ch_avail (Channel := mb_channel) (ch_side (Channel := mb_channel) c) mb' <= 0
    | _ => True
    end /\
    (True -> ch_avail (Channel := mb_channel) (ch_side (Channel := mb_channel) c) mb' <= 0 \/
             ch_avail (Channel := mb_channel) (ch_side (Channel := mb_channel) c) mb' <
             ch_avail (Channel := mb_channel) (ch_side (Channel := mb_channel) c) mb).
Proof.
  intros Hok. pose proof (mb_count mb Hok) as Hcnt. pose proof (mb_moves_same mb) as Hsame.
  assert (Hblock : forall o qw qr, mb_reset mb = false ->
    (qw = mb_qw mb ++ enqueued (H := mb_channel) t c o true) ->
    (qr = mb_qr mb ++ enqueued (H := mb_channel) t c o false) ->
    mb_ok (with_qw qw (with_qr qr mb)) /\
    moves (H := mb_channel) (enqueued (H := mb_channel) t c o) mb (with_qw qw (with_qr qr mb)) []).
  { intros o qw qr Hr -> ->. split; [split; [apply Hok|simpl; congruence]|].
    apply moves_quiet; [reflexivity|]. intros s. split; [destruct s; reflexivity|].
    right. simpl. rewrite Hr. destruct s; reflexivity. }
  destruct (mb_reset mb) eqn:Er.
  { exists mb, (Return (MSG_RESET, None)), [].
    split; [destruct c; simpl; unfold chMBPostTimeoutS, chMBPostAheadTimeoutS, chMBFetchTimeoutS; rewrite Er; reflexivity|].
    split_and!; auto. intros _. left. simpl. rewrite Er. lia. }
  destruct c as [msg timeout|msg timeout|timeout]; simpl.
  - unfold chMBPostTimeoutS, chMBGetFreeCountI, chMBGetUsedCountI. rewrite Er.
    destruct (Z.ltb_spec 0 (chMBGetSizeI mb - mb_cnt mb)) as [Hlt|Hge].
    + destruct (mb_append_spec msg mb Hok Er) as (mb' & ev & E & Hc & Hst); [lia|]. rewrite E. simpl.
      eexists mb', _, ev. split; [reflexivity|]. pose proof Hst as (Hok' & Hr' & Hs' & Hc' & _).
      split_and!; auto; [apply mb_moves_stored; assumption|].
      unfold chMBGetFreeCountI, chMBGetUsedCountI. rewrite Hr', ?Er, Hs', Hc'. lia.
    + unfold chThdEnqueueTimeoutS. case_bool; simpl.
      * eexists mb, _, []. split; [reflexivity|]. split_and!; auto.
        intros _. left. rewrite Er. exact Hge.
      * destruct (Hblock (Blocked (MbPostTimeout msg timeout)) (mb_qw mb ++ [t]) (mb_qr mb ++ [])) as [Hok' Hm]; auto.
        rewrite app_nil_r in Hok', Hm. eexists _, _, []. split; [reflexivity|].
        split; [exact Hok'|]. split; [exact Hm|]. simpl. rewrite Er. split_and!; auto.
  - unfold chMBPostAheadTimeoutS, chMBGetFreeCountI, chMBGetUsedCountI. rewrite Er.
    destruct (Z.ltb_spec 0 (chMBGetSizeI mb - mb_cnt mb)) as [Hlt|Hge].
    + destruct (mb_prepend_spec msg mb Hok Er) as (mb' & ev & E & Hc & Hst); [lia|]. rewrite E. simpl.
      eexists mb', _, ev. split; [reflexivity|]. pose proof Hst as (Hok' & Hr' & Hs' & Hc' & _).
      split_and!; auto; [apply mb_moves_stored; assumption|].
      unfold chMBGetFreeCountI, chMBGetUsedCountI. rewrite Hr', ?Er, Hs', Hc'. lia.
    + unfold chThdEnqueueTimeoutS. case_bool; simpl.
      * eexists mb, _, []. split; [reflexivity|]. split_and!; auto.
        intros _. left. rewrite Er. exact Hge.
      * destruct (Hblock (Blocked (MbPostAheadTimeout msg timeout)) (mb_qw mb ++ [t]) (mb_qr mb ++ [])) as [Hok' Hm]; auto.
        rewrite app_nil_r in Hok', Hm. eexists _, _, []. split; [reflexivity|].
        split; [exact Hok'|]. split; [exact Hm|]. simpl. rewrite Er. split_and!; auto.
  - unfold chMBFetchTimeoutS, chMBGetUsedCountI. rewrite Er.
    destruct (Z.ltb_spec 0 (mb_cnt mb)) as [Hlt|Hge].
    + destruct (mb_remove_spec mb Hok Er Hlt) as (mb' & msg & ev & E & Hc & Hok' & Hr' & Hs & Hn & Hqr & woken & Hev & Hqw & Hl).
      rewrite E. simpl. eexists mb', _, ev. split; [reflexivity|].
      split_and!; auto; [apply (mb_moves_removed _ _ _ woken); assumption|].
      unfold chMBGetUsedCountI. rewrite Hr', ?Er, Hn. lia.
    + unfold chThdEnqueueTimeoutS. case_bool; simpl.
      * eexists mb, _, []. split; [reflexivity|]. split_and!; auto.
        intros _. left. rewrite Er. exact Hge.
      * destruct (Hblock (Blocked (MbFetchTimeout timeout)) (mb_qw mb ++ []) (mb_qr mb ++ [t])) as [Hok' Hm]; auto.
        rewrite app_nil_r in Hok', Hm. eexists _, _, []. split; [reflexivity|].
        split; [exact Hok'|]. split; [exact Hm|]. simpl. rewrite Er. split_and!; auto.
Qed.

Lemma mb_isr_law i mb :
  mb_ok mb -> True ->
  exists mb' ev, ch_isr i mb = Some (mb', ev) /\ mb_ok mb' /\ moves (H := mb_channel) (fun _ => []) mb mb' ev.
Proof.
  intros Hok _. destruct (mb_exec_spec i mb Hok) as (mb' & ev & r & E & Hok' & _ & _ & Hm).
  exists mb', ev. simpl. rewrite E. auto.
Qed.

Lemma mb_resume_law t msg (c : mb_call) (mb : mailbox_t) :
  (msg = MSG_OK -> ch_resume t msg c mb = ch_call t c mb) /\
  (msg < MSG_OK -> exists r, ch_resume t msg c mb = Some (mb, Return r, [])).
Proof.
  simpl. unfold mb_resume. split; [intros ->; reflexivity|].
  intros Hmsg. rewrite (proj2 (Z.eqb_neq _ _)) by lia. eauto.
Qed.

Lemma mb_expire_law s t mb :
  mb_ok mb ->
  mb_ok (ch_expire (Channel := mb_channel) s t mb) /\
  ch_waiting (Channel := mb_channel) s (ch_expire (Channel := mb_channel) s t mb) =
    fst (sch_wakeup t (ch_waiting (Channel := mb_channel) s mb)) /\
  ch_waiting (Channel := mb_channel) (negb s) (ch_expire (Channel := mb_channel) s t mb) =
    ch_waiting (Channel := mb_channel) (negb s) mb /\
  forall s', ch_avail (Channel := mb_channel) s' (ch_expire (Channel := mb_channel) s t mb) =
    ch_avail (Channel := mb_channel) s' mb.
Proof.
  intros [Hok Hres]. destruct s; simpl; split_and!; try reflexivity;
    try (intros []; reflexivity);
    (split; [exact Hok|]; simpl; intros Hr; destruct (Hres Hr) as [Hw Hr']; rewrite ?Hw, ?Hr'; auto).
Qed.

#[export] Instance mb_laws : ChannelLaws mailbox_t mb_op mb_call (Z * option Z) := {
  ch_inv := mb_ok;
  ch_isr_ok := fun _ => True;
  ch_live := fun _ => True;
  ch_isr_law := mb_isr_law;
  ch_call_law := mb_call_spec;
  ch_resume_law := mb_resume_law;
  ch_expire_law := mb_expire_law
}.

(** ** Properties *)

Fixpoint mb_exec_all (ops : list mb_op) (mb : mailbox_t) : option (mailbox_t * list (Z * option Z)) :=
  match ops with
  | [] => Some (mb, [])
  | i :: ops =>
      '(mb, r, _) ← mb_exec i mb;
      '(mb, rs) ← mb_exec_all ops mb;
      Some (mb, r :: rs)
  end.

Fixpoint deque_exec_all (cap : Z) (ops : list mb_op) (st : list Z * bool)
  : (list Z * bool) * list (Z * option Z) :=
  match ops with
  | [] => (st, [])
  | i :: ops =>
      let '(st, r) := deque_exec cap i st in
      let '(st, rs) := deque_exec_all cap ops st in (st, r :: rs)
  end.

Lemma mb_exec_all_spec ops : forall mb,
  mb_ok mb ->
  exists mb' rs, mb_exec_all ops mb = Some (mb', rs) /\
    deque_exec_all (chMBGetSizeI mb) ops (mb_content mb, mb_reset mb) = ((mb_content mb', mb_reset mb'), rs).
Proof.
  induction ops as [|i ops IH]; intros mb Hok; [simpl; eauto|].
  destruct (mb_exec_spec i mb Hok) as (mb1 & ev & r & E & Hok1 & Hs & Hf & _).
  destruct (IH mb1 Hok1) as (mb2 & rs & E2 & Hf2).
  cbn [mb_exec_all deque_exec_all]. rewrite E, Hf. cbn [mbind option_bind].
  rewrite E2, <- Hs, Hf2. cbn [mbind option_bind]. eauto.
Qed.

Lemma chMBObjectInit_ok buf mb :
  chMBObjectInit buf = Some mb ->
  mb_ok mb /\ mb_content mb = [] /\ mb_reset mb = false /\ chMBGetSizeI mb = Z.of_nat (length buf) /\
  mb_qw mb = [] /\ mb_qr mb = [].
Proof.
  unfold chMBObjectInit. intros H. inv_bind. unfold check in E. case_bool_in E; [|discriminate].
  injection E as <-. subst mb. unfold mb_ok, ring_ok. simpl. split_and!; auto; try lia.
Qed.

(** C35: whatever sequence of posts, urgent posts, fetches, resets and resumes a
    mailbox goes through, no operation is undefined and each returns what a
    double-ended list bounded by the buffer's size would: messages come out in
    order, urgent ones first, and everything fails while the mailbox is reset. *)
Theorem mailbox_refines_deque (buf : list Z) (mb0 : mailbox_t) (ops : list mb_op) :
  chMBObjectInit buf = Some mb0 ->
  exists mb rs, mb_exec_all ops mb0 = Some (mb, rs) /\
    deque_exec_all (Z.of_nat (length buf)) ops ([], false) = ((mb_content mb, mb_reset mb), rs).
Proof.
  intros Hinit. destruct (chMBObjectInit_ok _ _ Hinit) as (Hok & <- & <- & <- & _).
  exact (mb_exec_all_spec ops mb0 Hok).
Qed.

Definition mb_example : list mb_op :=
  [MbPost 1; MbPostAhead 2; MbPost 3; MbFetch; MbPost 4; MbReset; MbFetch; MbResume; MbPostAhead 5; MbFetch].

Lemma mailbox_refines_deque_witness :
  exists mb rs, mb_exec_all mb_example (Mailbox [0; 0] 0 0 0 false [] []) = Some (mb, rs) /\
    deque_exec_all 2 mb_example ([], false) = ((mb_content mb, mb_reset mb), rs).
Proof. apply (mailbox_refines_deque [0; 0] _ mb_example). reflexivity. Defined.

(** However posts and fetches of threads, interrupts, timeouts, resets and
    resumes interleave, every step is defined, readers wait only while the
    messages are left to woken readers, and writers only while the free slots are
    left to woken writers. *)
Theorem mailbox_no_lost_wakeup (buf : list Z) (mb0 : mailbox_t) (es : list (sys_event mb_op mb_call))
    (sy : system mailbox_t mb_call) :
  chMBObjectInit buf = Some mb0 ->
  sys_run es (Sys mb0 ∅) = Some sy ->
  no_lost_wakeup sy.
Proof.
  intros Hinit Hrun. destruct (chMBObjectInit_ok _ _ Hinit) as (Hok & _ & _ & _ & Hw & Hr).
  apply sys_inv_no_lost_wakeup. refine (sys_run_inv es _ _ _ _ Hrun).
  - apply sys_init_inv; [exact Hok|intros []; assumption].
  - apply Forall_forall. intros []; simpl; auto.
Qed.

(** A writer waits for room, a reader makes it, and the mailbox is reset before
    the writer runs. *)
Definition mb_race : list (sys_event mb_op mb_call) :=
  [EvIsr (MbPost 1); EvCall 1%nat (MbPostTimeout 2 100); EvCall 2%nat (MbFetchTimeout 100);
   EvCall 2%nat (MbFetchTimeout 100); EvIsr (MbPostAhead 3); EvIsr MbReset].

Definition mb_race_end : system mailbox_t mb_call :=
  Sys (Mailbox [3] 0 0 0 true [] [])
    (<[1%nat := Ready (MbPostTimeout 2 100) MSG_OK]>
     (<[2%nat := Ready (MbFetchTimeout 100) MSG_OK]> ∅)).

Lemma mailbox_no_lost_wakeup_witness :
  sys_run mb_race (Sys (Mailbox [0] 0 0 0 false [] []) ∅) = Some mb_race_end /\
  no_lost_wakeup mb_race_end.
Proof.
  split; [vm_compute; reflexivity|].
  apply (mailbox_no_lost_wakeup [0] (Mailbox [0] 0 0 0 false [] []) mb_race);
    [reflexivity|vm_compute; reflexivity].
Defined.
