(* ===== verification/Memcore.v ===== *)
(** * Core memory manager (chmemcore.c, chalign.h, chmemchecks.h)

    The firmware's spare RAM, given out from either end.  Addresses and sizes are
    32-bit words; an allocation returns 0 for NULL.  The theorems show that what
    is given out is aligned, apart from everything else and inside the memory,
    for every size for which the address arithmetic does not wrap; and what
    happens when it does. *)

From S2P Require Import Prelude CInt.

(** ** Alignment *)

Definition MEM_ALIGN_MASK (a : Z) : Z := u32 (a - 1).
Definition MEM_ALIGN_PREV (p a : Z) : Z := Z.land (u32 p) (Z.lxor (MEM_ALIGN_MASK a) (2 ^ 32 - 1)).
Definition MEM_ALIGN_NEXT (p a : Z) : Z := MEM_ALIGN_PREV (u32 p + MEM_ALIGN_MASK a) a.
Definition MEM_IS_ALIGNED (p a : Z) : bool := Z.land (u32 p) (MEM_ALIGN_MASK a) =? 0.
Definition MEM_IS_VALID_ALIGNMENT (a : Z) : bool :=
  negb (u32 a =? 0) && (Z.land (u32 a) (MEM_ALIGN_MASK a) =? 0).

(** ** The memory not given out yet *)

Record memcore_t := Memcore { basemem : Z; topmem : Z }.

(** [__core_init]: the linker provides the bounds. *)
Definition core_init (heap_base heap_end : Z) : memcore_t := Memcore heap_base heap_end.

Definition chCoreAllocFromBaseI (size align offset : Z) (core : memcore_t) : option (memcore_t * Z) :=
  _ ← check (MEM_IS_VALID_ALIGNMENT align);
  let p := MEM_ALIGN_NEXT (basemem core + offset) align in
  let next := u32 (p + size) in
  if (topmem core <? next) || (next <? basemem core) then Some (core, 0)
  else Some (Memcore next (topmem core), p).

Definition chCoreAllocFromTopI (size align offset : Z) (core : memcore_t) : option (memcore_t * Z) :=
  _ ← check (MEM_IS_VALID_ALIGNMENT align);
  let p := MEM_ALIGN_PREV (topmem core - size) align in
  let prev := u32 (p - offset) in
  if (prev <? basemem core) || (topmem core <? prev) then Some (core, 0)
  else Some (Memcore (basemem core) prev, p).

Definition chCoreAllocFromBase := chCoreAllocFromBaseI.
Definition chCoreAllocFromTop := chCoreAllocFromTopI.
Definition chCoreAllocAlignedWithOffset := chCoreAllocFromTop.

Record memory_area_t := MemArea { area_base : Z; area_size : Z }.

Definition chCoreGetStatusX (core : memcore_t) : memory_area_t :=
  MemArea (basemem core) (u32 (topmem core - basemem core)).

(** The space [p, p + size) lies in the area; the assertion fails when either
    wraps around the address space. *)
Definition chMemIsSpaceWithinX (map : memory_area_t) (p size : Z) : option bool :=
  let mem_end := u32 (area_base map + area_size map - 1) in
  let end_ := u32 (p + size - 1) in
  _ ← check ((area_base map <=? mem_end) && (p <=? end_));
  Some ((p <=? end_) && (area_base map <=? p) && (end_ <=? mem_end)).

(** ** Alignment lemmas *)

Lemma u32_small x : 0 <= x < 2 ^ 32 -> u32 x = x.
Proof. intros H. apply u32_id. exact H. Qed.

Lemma valid_alignment a :
  0 <= a < 2 ^ 32 -> MEM_IS_VALID_ALIGNMENT a = true -> exists k, 0 <= k < 32 /\ a = 2 ^ k.
Proof.
  intros Ha. unfold MEM_IS_VALID_ALIGNMENT, MEM_ALIGN_MASK. rewrite u32_small by exact Ha.
  intros H. bools. rewrite u32_small in H0 by lia.
  assert (Hpos : 0 < a) by lia. exists (Z.log2 a).
  pose proof (Z.log2_spec a Hpos) as [Hlo Hhi]. pose proof (Z.log2_nonneg a).
  split; [split; [lia|apply Z.log2_lt_pow2; lia]|].
  destruct (decide (a = 2 ^ Z.log2 a)) as [E|E]; [exact E|exfalso].
  assert (Hl : Z.log2 (a - 1) = Z.log2 a) by (apply Z.log2_unique; lia).
  assert (Hb : Z.testbit (Z.land a (a - 1)) (Z.log2 a) = true).
  { rewrite Z.land_spec, Z.bit_log2 by lia. rewrite <- Hl, Z.bit_log2; [reflexivity|].
    pose proof (Z.pow_pos_nonneg 2 (Z.log2 a)). lia. }
  rewrite H0, Z.bits_0 in Hb. discriminate.
Qed.

Lemma valid_alignment_pow k : 0 <= k < 32 -> MEM_IS_VALID_ALIGNMENT (2 ^ k) = true.
Proof.
  intros Hk. unfold MEM_IS_VALID_ALIGNMENT, MEM_ALIGN_MASK.
  assert (Hp : 0 < 2 ^ k < 2 ^ 32) by (split; [apply Z.pow_pos_nonneg; lia|apply Z.pow_lt_mono_r; lia]).
  rewrite !u32_small by lia. rewrite (proj2 (Z.eqb_neq _ _)) by lia. simpl. apply Z.eqb_eq.
  replace (2 ^ k - 1) with (Z.ones k) by (rewrite Z.ones_equiv; lia).
  rewrite Z.land_ones by lia. apply Z_mod_same_full.
Qed.

Lemma align_prev_value p k :
  0 <= p < 2 ^ 32 -> 0 <= k < 32 -> MEM_ALIGN_PREV p (2 ^ k) = p - p mod 2 ^ k.
Proof.
  intros Hp Hk. unfold MEM_ALIGN_PREV, MEM_ALIGN_MASK.
  assert (Hp2 : 0 < 2 ^ k < 2 ^ 32) by (split; [apply Z.pow_pos_nonneg; lia|apply Z.pow_lt_mono_r; lia]).
  rewrite !u32_small by lia.
  replace (2 ^ k - 1) with (Z.ones k) by (rewrite Z.ones_equiv; lia).
  change (2 ^ 32 - 1) with (Z.ones 32).
  transitivity (Z.ldiff p (Z.ones k)).
  - apply Z.bits_inj'. intros n Hn. rewrite Z.land_spec, Z.lxor_spec, Z.ldiff_spec.
    destruct (Z_lt_le_dec n 32) as [Hlt|Hge].
    + rewrite (Z.ones_spec_low 32) by lia. rewrite xorb_true_r. reflexivity.
    + assert (Ep : Z.testbit p n = false).
      { apply Z.testbit_false; [lia|]. rewrite Z.div_small; [reflexivity|].
        split; [lia|]. apply (Z.lt_le_trans _ (2 ^ 32)); [lia|apply Z.pow_le_mono_r; lia]. }
      rewrite Ep. reflexivity.
  - rewrite Z.ldiff_ones_r, Z.shiftl_mul_pow2, Z.shiftr_div_pow2 by lia.
    pose proof (Z_div_mod_eq_full p (2 ^ k)). lia.
Qed.

Lemma align_next_value p k :
  0 <= p -> 0 <= k < 32 -> p + 2 ^ k - 1 < 2 ^ 32 ->
  exists d, MEM_ALIGN_NEXT p (2 ^ k) = p + d /\ 0 <= d < 2 ^ k /\ (p + d) mod 2 ^ k = 0.
Proof.
  intros Hp Hk Hlt. unfold MEM_ALIGN_NEXT, MEM_ALIGN_MASK.
  assert (Hp2 : 0 < 2 ^ k < 2 ^ 32) by (split; [apply Z.pow_pos_nonneg; lia|apply Z.pow_lt_mono_r; lia]).
  rewrite !u32_small by lia. rewrite align_prev_value by lia.
  pose proof (Z.mod_pos_bound (p + (2 ^ k - 1)) (2 ^ k)) as Hm.
  exists (2 ^ k - 1 - (p + (2 ^ k - 1)) mod 2 ^ k). split_and!; try lia.
  replace (p + (2 ^ k - 1 - (p + (2 ^ k - 1)) mod 2 ^ k))
    with (p + (2 ^ k - 1) - (p + (2 ^ k - 1)) mod 2 ^ k) by lia.
  rewrite Zminus_mod_idemp_r, Z.sub_diag. apply Z.mod_0_l. lia.
Qed.

Lemma is_aligned_value p k :
  0 <= p < 2 ^ 32 -> 0 <= k < 32 -> MEM_IS_ALIGNED p (2 ^ k) = (p mod 2 ^ k =? 0).
Proof.
  intros Hp Hk. unfold MEM_IS_ALIGNED, MEM_ALIGN_MASK.
  assert (Hp2 : 0 < 2 ^ k < 2 ^ 32) by (split; [apply Z.pow_pos_nonneg; lia|apply Z.pow_lt_mono_r; lia]).
  rewrite !u32_small by lia.
  replace (2 ^ k - 1) with (Z.ones k) by (rewrite Z.ones_equiv; lia).
  rewrite Z.land_ones by lia. reflexivity.
Qed.

Definition core_ok (core : memcore_t) : Prop := 0 < basemem core <= topmem core /\ topmem core < 2 ^ 32.

(** A request whose address arithmetic stays below the top of the address space. *)
Definition req_ok (core : memcore_t) (size k offset : Z) : Prop :=
  0 <= size /\ 0 <= k < 32 /\ 0 <= offset /\ topmem core + size + 2 ^ k + offset < 2 ^ 32.

(** What is left after an allocation of [lo, hi). *)
Definition carved (core core' : memcore_t) (lo hi : Z) : Prop :=
  basemem core <= lo /\ hi <= topmem core /\
  (basemem core = basemem core' /\ topmem core' = lo \/ basemem core' = hi /\ topmem core' = topmem core).

Lemma u32_wrap x : 2 ^ 32 <= x < 2 ^ 33 -> u32 x = x - 2 ^ 32.
Proof. intros H. unfold u32, wrapu. symmetry. apply (Z.mod_unique_pos _ _ 1); lia. Qed.

Lemma u32_neg x : - 2 ^ 32 <= x < 0 -> u32 x = x + 2 ^ 32.
Proof. intros H. unfold u32, wrapu. symmetry. apply (Z.mod_unique_pos _ _ (-1)); lia. Qed.

Lemma align_prev_u32 p k : 0 <= k < 32 -> MEM_ALIGN_PREV p (2 ^ k) = u32 p - u32 p mod 2 ^ k.
Proof.
  intros Hk. rewrite <- align_prev_value; [|pose proof (u32_range p); lia|exact Hk].
  unfold MEM_ALIGN_PREV. f_equal. symmetry. apply u32_small. pose proof (u32_range p). lia.
Qed.

(** An allocation from the top fails exactly when there is not enough room. *)
Lemma core_top_spec size k offset core :
  core_ok core -> req_ok core size k offset ->
  (chCoreAllocFromTopI size (2 ^ k) offset core = Some (core, 0) /\
   topmem core - size - (topmem core - size) mod 2 ^ k - offset < basemem core) \/
  exists p core', chCoreAllocFromTopI size (2 ^ k) offset core = Some (core', p) /\
    p mod 2 ^ k = 0 /\ carved core core' (p - offset) (topmem core) /\ p + size <= topmem core /\ core_ok core' /\ 0 < p.
Proof.
  intros (Hb & Ht) (Hs & Hk & Ho & Hlt). unfold chCoreAllocFromTopI.
  assert (Hp2 : 0 < 2 ^ k) by (apply Z.pow_pos_nonneg; lia).
  rewrite check_true by (apply valid_alignment_pow; exact Hk). cbn [mbind option_bind].
  rewrite align_prev_u32 by exact Hk.
  destruct (Z_lt_le_dec (topmem core) size) as [Hbig|Hsmall].
  - left. rewrite (u32_neg (topmem core - size)) by lia.
    pose proof (Z.mod_pos_bound (topmem core - size + 2 ^ 32) (2 ^ k) Hp2).
    pose proof (Z.mod_pos_bound (topmem core - size) (2 ^ k) Hp2).
    rewrite u32_small by lia. rewrite (proj2 (Z.ltb_lt (topmem core) _)) by lia.
    rewrite orb_true_r. split; [reflexivity|lia].
  - rewrite (u32_small (topmem core - size)) by lia. pose proof (Z.mod_pos_bound (topmem core - size) (2 ^ k) Hp2) as Hm.
    assert (Hle : (topmem core - size) mod 2 ^ k <= topmem core - size) by (apply Z.mod_le; lia).
    set (p := topmem core - size - (topmem core - size) mod 2 ^ k) in *.
    destruct (Z_lt_le_dec p offset) as [Hneg|Hpos].
    + left. rewrite u32_neg by lia. rewrite (proj2 (Z.ltb_lt (topmem core) _)) by lia.
      rewrite orb_true_r. split; [reflexivity|lia].
    + rewrite u32_small by lia. rewrite (proj2 (Z.ltb_ge (topmem core) _)) by lia. rewrite orb_false_r.
      destruct (Z.ltb_spec (p - offset) (basemem core)) as [H1|H1]; [left; split; [reflexivity|lia]|].
      right. exists p, (Memcore (basemem core) (p - offset)). split; [reflexivity|].
      unfold carved, core_ok. simpl. split_and!; try lia.
      unfold p. rewrite Zminus_mod_idemp_r, Z.sub_diag. apply Z.mod_0_l. lia.
Qed.

Lemma core_base_spec size k offset core :
  core_ok core -> req_ok core size k offset ->
  (chCoreAllocFromBaseI size (2 ^ k) offset core = Some (core, 0) /\
   topmem core < basemem core + offset + 2 ^ k - 1 + size) \/
  exists p core', chCoreAllocFromBaseI size (2 ^ k) offset core = Some (core', p) /\
    p mod 2 ^ k = 0 /\ carved core core' (p - offset) (p + size) /\ p + size <= topmem core /\ core_ok core' /\ 0 < p.
Proof.
  intros (Hb & Ht) (Hs & Hk & Ho & Hlt). unfold chCoreAllocFromBaseI.
  assert (Hp2 : 0 < 2 ^ k) by (apply Z.pow_pos_nonneg; lia).
  rewrite check_true by (apply valid_alignment_pow; exact Hk). cbn [mbind option_bind].
  destruct (align_next_value (basemem core + offset) k) as (d & -> & Hd & Hal); [lia|exact Hk|lia|].
  rewrite u32_small by lia. rewrite (proj2 (Z.ltb_ge _ (basemem core))) by lia. rewrite orb_false_r.
  destruct (Z.ltb_spec (topmem core) (basemem core + offset + d + size)) as [H1|H1]; [left; split; [reflexivity|lia]|].
  right. eexists _, _. split; [reflexivity|]. unfold carved, core_ok. simpl. split_and!; try lia.
Qed.

(** ** Properties *)

(** A request: from the top or the base, size, alignment exponent, offset. *)
Definition core_req := (bool * Z * Z * Z)%type.

Definition core_alloc (r : core_req) (core : memcore_t) : option (memcore_t * Z) :=
  let '(top, size, k, offset) := r in
  (if top : bool then chCoreAllocFromTop else chCoreAllocFromBase) size (2 ^ k) offset core.

(** The blocks a sequence of requests is given, NULL results left out. *)
Fixpoint core_run (rs : list core_req) (core : memcore_t) : option (memcore_t * list (core_req * Z)) :=
  match rs with
  | [] => Some (core, [])
  | r :: rs =>
      '(core, p) ← core_alloc r core;
      '(core, got) ← core_run rs core;
      Some (core, if p =? 0 then got else (r, p) :: got)
  end.

Definition in_core (core : memcore_t) (b : core_req * Z) : Prop :=
  let '((_, size, k, offset), p) := b in
  p mod 2 ^ k = 0 /\ basemem core <= p - offset /\ p + size <= topmem core.

Definition apart (b1 b2 : core_req * Z) : Prop :=
  let '((_, size1, _, offset1), p1) := b1 in
  let '((_, size2, _, offset2), p2) := b2 in
  p1 + size1 <= p2 - offset2 \/ p2 + size2 <= p1 - offset1.

Lemma core_run_sound rs : forall core,
  core_ok core -> Forall (fun '(_, size, k, offset) => req_ok core size k offset) rs ->
  exists core' got, core_run rs core = Some (core', got) /\ core_ok core' /\
    basemem core <= basemem core' /\ topmem core' <= topmem core /\
    Forall (in_core core) got /\ ForallOrdPairs apart got.
Proof.
  induction rs as [|[[[top size] k] offset] rs IH]; intros core Hok Hrs; cbn [core_run].
  - exists core, []. split_and!; auto; try lia. constructor.
  - inversion_clear Hrs as [|? ? Hr Hrs'].
    assert (Hstep : exists core1 p, core_alloc (top, size, k, offset) core = Some (core1, p) /\
      ((p = 0 /\ core1 = core) \/
       (0 < p /\ p mod 2 ^ k = 0 /\ core_ok core1 /\ p + size <= topmem core /\
        exists hi, p + size <= hi /\ carved core core1 (p - offset) hi))).
    { unfold core_alloc. destruct top.
      - destruct (core_top_spec size k offset core Hok Hr) as [[E _]|(p & core1 & E & Ha & Hc & Hle & Hok1 & Hp)];
          unfold chCoreAllocFromTop; rewrite E; [eauto 10|]. do 2 eexists. split; [reflexivity|].
        right. split_and!; auto. exists (topmem core). auto.
      - destruct (core_base_spec size k offset core Hok Hr) as [[E _]|(p & core1 & E & Ha & Hc & Hle & Hok1 & Hp)];
          unfold chCoreAllocFromBase; rewrite E; [eauto 10|]. do 2 eexists. split; [reflexivity|].
        right. split_and!; auto. exists (p + size). split; [lia|exact Hc]. }
    destruct Hstep as (core1 & p & E & [[-> ->]|(Hp & Ha & Hok1 & Hle & hi & Hhi & Hc)]); rewrite E;
      cbn [mbind option_bind].
    + destruct (IH core Hok Hrs') as (core' & got & E' & Hrest). rewrite E'. cbn [mbind option_bind].
      rewrite (proj2 (Z.eqb_eq _ _)) by reflexivity. eauto.
    + destruct Hc as (Hlo & Hhi2 & Hc). destruct Hr as (Hs0 & Hk0 & Ho0 & Hw0).
      destruct (IH core1 Hok1) as (core' & got & E' & Hok' & Hb & Ht & Hin & Hap).
      { refine (Forall_impl _ _ _ Hrs' _). intros [[[? size'] k'] offset'] (? & ? & ? & ?).
        unfold req_ok. split_and!; try assumption; try lia. }
      rewrite E'. cbn [mbind option_bind]. rewrite (proj2 (Z.eqb_neq _ _)) by lia.
      exists core', ((top, size, k, offset, p) :: got). destruct Hok1 as [Hb1 Ht1].
      split_and!; auto; try lia.
      * constructor; [simpl; split_and!; auto; lia|]. refine (Forall_impl _ _ _ Hin _).
        intros [[[[? size'] k'] offset'] p'] (? & ? & ?). simpl. split_and!; auto; lia.
      * constructor; [|exact Hap]. refine (Forall_impl _ _ _ Hin _).
        intros [[[[? size'] k'] offset'] p'] (? & ? & ?). simpl. lia.
Qed.

(** Any sequence of core allocations from either end whose sizes do not make
    the addresses wrap is defined; the blocks given out are aligned as asked, lie
    inside the memory with their offsets, and are pairwise disjoint. *)
Theorem core_alloc_disjoint (rs : list core_req) (core : memcore_t) :
  core_ok core -> Forall (fun '(_, size, k, offset) => req_ok core size k offset) rs ->
  exists core' got, core_run rs core = Some (core', got) /\
    Forall (in_core core) got /\ ForallOrdPairs apart got.
Proof.
  intros Hok Hrs. destruct (core_run_sound rs core Hok Hrs) as (core' & got & E & _ & _ & _ & Hin & Hap).
  eauto.
Qed.

Definition core_reqs : list core_req :=
  [(true, 100, 3, 8); (false, 10, 5, 0); (true, 2000, 3, 8); (true, 24, 6, 8); (false, 7, 2, 4)].

Lemma core_alloc_disjoint_witness :
  exists core' got, core_run core_reqs (Memcore 536870912 536871936) = Some (core', got) /\
    Forall (in_core (Memcore 536870912 536871936)) got /\ ForallOrdPairs apart got.
Proof.
  apply (core_alloc_disjoint core_reqs (Memcore 536870912 536871936)).
  - unfold core_ok. simpl. lia.
  - repeat constructor; simpl; lia.
Defined.

(** The overflow test of the core allocator does not catch every overflow: a
    request for all but [d] bytes of the address space, with [d] at most the
    alignment, succeeds at an aligned top and gives out no memory at all. *)
Theorem core_alloc_wraps (d k : Z) (core : memcore_t) :
  core_ok core -> 0 <= k < 32 -> 0 < d < 2 ^ k -> topmem core mod 2 ^ k = 0 ->
  topmem core + d < 2 ^ 32 ->
  chCoreAllocFromTop (2 ^ 32 - d) (2 ^ k) 0 core = Some (core, topmem core).
Proof.
  intros (Hb & Ht) Hk Hd Ha Hlt. unfold chCoreAllocFromTop, chCoreAllocFromTopI.
  rewrite check_true by (apply valid_alignment_pow; exact Hk). cbn [mbind option_bind].
  rewrite align_prev_u32 by exact Hk. rewrite (u32_neg (topmem core - (2 ^ 32 - d))) by lia.
  replace (topmem core - (2 ^ 32 - d) + 2 ^ 32) with (topmem core + d) by lia.
  rewrite Z.add_mod, Ha, Z.add_0_l, Zmod_mod, (Z.mod_small d) by lia.
  replace (topmem core + d - d) with (topmem core) by lia. rewrite Z.sub_0_r, u32_small by lia.
  rewrite !(proj2 (Z.ltb_ge _ _)) by lia. destruct core. reflexivity.
Qed.

Lemma core_alloc_wraps_witness :
  chCoreAllocFromTop (2 ^ 32 - 4) (2 ^ 3) 0 (Memcore 536870912 536871936) =
    Some (Memcore 536870912 536871936, 536871936).
Proof. apply (core_alloc_wraps 4 3); [unfold core_ok; simpl; lia|lia|lia|reflexivity|simpl; lia]. Defined.
