(* ===== verification/Heap.v ===== *)
(** * Heap allocator (chmemheaps.c)

    First-fit allocation from an address-ordered free list with splitting and
    coalescing.  The block headers are a store of pairs of words, read and
    written through the code's macros, so that the list's pointers and the two
    uses a header has (free, used) are as in memory. HeapSpec.v,
    HeapInv.v and HeapSafe.v refine the pointer code to operations on the list
    of the free blocks, and show what a program may rely on.
    The heap's mutex makes each operation one step. *)

From stdpp Require Import gmap.
From S2P Require Import Prelude CInt Memcore.
#[local] Open Scope Z_scope.

(** ** Memory: the headers *)

Definition CH_HEAP_ALIGNMENT : Z := 8.
Definition sizeof_header : Z := 8.

(** The two words of a header: [next] and [pages] of a free block, owner and
    [size] of a used one.  An address that is not in the store holds no header,
    and an access there is undefined. *)
Abbreviation heap_mem := (gmap Z (Z * Z)).

Definition H_BLOCK (hp : Z) : Z := hp + sizeof_header.
Definition H_FREE_NEXT (m : heap_mem) (hp : Z) : option Z := fst <$> m !! hp.
Definition H_FREE_PAGES (m : heap_mem) (hp : Z) : option Z := snd <$> m !! hp.
Definition H_USED_HEAP := H_FREE_NEXT.
Definition H_USED_SIZE := H_FREE_PAGES.
Definition H_FREE_FULLSIZE (pages : Z) : Z := u32 ((pages + 1) * sizeof_header).
Definition H_FREE_LIMIT (m : heap_mem) (hp : Z) : option Z :=
  pages ← H_FREE_PAGES m hp; Some (H_BLOCK hp + sizeof_header * pages).
Definition NPAGES (p1 p2 : Z) : Z := u32 ((p1 - p2) / sizeof_header).

Definition set_word0 (hp v : Z) (m : heap_mem) : option heap_mem :=
  w ← m !! hp; Some (<[hp := (v, snd w)]> m).
Definition set_word1 (hp v : Z) (m : heap_mem) : option heap_mem :=
  w ← m !! hp; Some (<[hp := (fst w, v)]> m).

(** ** Heaps.  A heap is known by the address of the header in its descriptor. *)

Record memory_heap_t := MemHeap {
  hp_provider : bool;
  hp_area : memory_area_t;
  hp_header : Z
}.

Record heap_state := HeapState { h_mem : heap_mem; h_core : memcore_t }.

(** [__heap_init]: an empty default heap that grows from the core memory. *)
Definition heap_init (header : Z) (st : heap_state) : option (heap_state * memory_heap_t) :=
  m ← set_word0 header 0 (h_mem st);
  m ← set_word1 header 0 m;
  Some (HeapState m (h_core st), MemHeap true (chCoreGetStatusX (h_core st)) header).

(** [chHeapObjectInit]: a heap in a buffer of its own. *)
Definition chHeapObjectInit (header buf size : Z) (st : heap_state)
  : option (heap_state * memory_heap_t) :=
  let hp := MEM_ALIGN_NEXT buf CH_HEAP_ALIGNMENT in
  _ ← check (0 <? size);
  let size := u32 (size - (hp - buf)) in
  let pages := u32 (size - sizeof_header) / CH_HEAP_ALIGNMENT in
  m ← set_word0 header hp (h_mem st);
  m ← set_word1 header 0 m;
  m ← set_word0 hp 0 m;
  m ← set_word1 hp pages m;
  Some (HeapState m (h_core st), MemHeap false (MemArea hp (H_FREE_FULLSIZE pages)) header).

(** ** Allocation *)

(** The search for the first block that fits: the block before it, itself, and
    the header position that makes the data aligned.  [None] is undefined
    behaviour or the end of the fuel, [Some None] the end of the list. *)
Fixpoint heap_find (fuel : nat) (m : heap_mem) (qp pages align : Z) : option (option (Z * Z * Z)) :=
  match fuel with
  | O => None
  | S fuel =>
      hp ← H_FREE_NEXT m qp;
      if hp =? 0 then Some None
      else
        let ahp := u32 (MEM_ALIGN_NEXT (H_BLOCK hp) align - sizeof_header) in
        limit ← H_FREE_LIMIT m hp;
        if (ahp <? limit) && (pages <=? NPAGES limit (H_BLOCK ahp))
        then Some (Some (qp, hp, ahp))
        else heap_find fuel m hp pages align
  end.

(** The block is not properly aligned: [hp] keeps what comes before [ahp], and
    what comes after the data becomes a free block. *)
Definition heap_split_unaligned (hp ahp pages : Z) (m : heap_mem) : option heap_mem :=
  limit ← H_FREE_LIMIT m hp;
  let bpages := NPAGES limit (H_BLOCK ahp) in
  m ← set_word1 hp (NPAGES ahp (H_BLOCK hp)) m;
  if pages <? bpages then
    let fp := H_BLOCK ahp + sizeof_header * pages in
    m ← set_word1 fp (u32 (u32 (bpages - pages) - 1)) m;
    next ← H_FREE_NEXT m hp;
    m ← set_word0 fp next m;
    set_word0 hp fp m
  else Some m.

(** The block is properly aligned: it is taken whole or cut. *)
Definition heap_take_aligned (qp hp pages : Z) (m : heap_mem) : option heap_mem :=
  n ← H_FREE_PAGES m hp;
  next ← H_FREE_NEXT m hp;
  if n =? pages then set_word0 qp next m
  else
    let fp := H_BLOCK hp + sizeof_header * pages in
    m ← set_word0 fp next m;
    limit ← H_FREE_LIMIT m hp;
    m ← set_word1 fp (NPAGES limit (H_BLOCK fp)) m;
    set_word0 qp fp m.

(** The block found after [qp] is cut or taken, and its header set. *)
Definition heap_cut (qp hp ahp pages size header : Z) (m : heap_mem) : option (heap_mem * Z) :=
  m ← (if hp <? ahp then heap_split_unaligned hp ahp pages m else heap_take_aligned qp hp pages m);
  let hp := if hp <? ahp then ahp else hp in
  m ← set_word1 hp size m;
  m ← set_word0 hp header m;
  Some (m, hp).

(** The data's address, or 0. *)
Definition chHeapAllocAligned (heapp : memory_heap_t) (size align : Z) (st : heap_state)
  : option (heap_state * Z) :=
  let m := h_mem st in
  _ ← check ((0 <? size) && MEM_IS_VALID_ALIGNMENT align);
  let align := if align <? CH_HEAP_ALIGNMENT then CH_HEAP_ALIGNMENT else align in
  let pages := MEM_ALIGN_NEXT size CH_HEAP_ALIGNMENT / CH_HEAP_ALIGNMENT in
  found ← heap_find (S (base.size m)) m (hp_header heapp) pages align;
  match found with
  | Some (qp, hp, ahp) =>
      '(m, hp) ← heap_cut qp hp ahp pages size (hp_header heapp) m;
      Some (HeapState m (h_core st), H_BLOCK hp)
  | None =>
      if hp_provider heapp then
        '(core, ahp) ← chCoreAllocAlignedWithOffset (u32 (pages * CH_HEAP_ALIGNMENT)) align sizeof_header (h_core st);
        if ahp =? 0 then Some (HeapState m core, 0)
        else
          let hp := ahp - sizeof_header in
          m ← set_word0 hp (hp_header heapp) m;
          m ← set_word1 hp size m;
          Some (HeapState m core, ahp)
      else Some (st, 0)
  end.

Definition chHeapAlloc (heapp : memory_heap_t) (size : Z) (st : heap_state) : option (heap_state * Z) :=
  chHeapAllocAligned heapp size CH_HEAP_ALIGNMENT st.

Definition chHeapGetSize (p : Z) (m : heap_mem) : option Z := H_USED_SIZE m (p - sizeof_header).

(** ** Release *)

(** Insertion of [hp] after [qp], with both merges. *)
Definition heap_insert_after (hp qp : Z) (m : heap_mem) : option heap_mem :=
  next ← H_FREE_NEXT m qp;
  m ← set_word0 hp next m;
  m ← set_word0 qp hp m;
  limit ← H_FREE_LIMIT m hp;
  m ← (if limit =? next then
         n ← H_FREE_PAGES m hp;
         n' ← H_FREE_PAGES m next;
         next' ← H_FREE_NEXT m next;
         m ← set_word1 hp (u32 (n + u32 (n' + 1))) m;
         set_word0 hp next' m
       else Some m);
  qlimit ← H_FREE_LIMIT m qp;
  if qlimit =? hp then
    k ← H_FREE_PAGES m qp;
    n ← H_FREE_PAGES m hp;
    next ← H_FREE_NEXT m hp;
    m ← set_word1 qp (u32 (k + u32 (n + 1))) m;
    set_word0 qp next m
  else Some m.

Fixpoint heap_release (fuel : nat) (header hp qp : Z) (m : heap_mem) : option heap_mem :=
  match fuel with
  | O => None
  | S fuel =>
      qlimit ← H_FREE_LIMIT m qp;
      _ ← check ((hp <? qp) || (qlimit <=? hp));
      next ← H_FREE_NEXT m qp;
      if ((qp =? header) || (qp <? hp)) && ((next =? 0) || (hp <? next))
      then heap_insert_after hp qp m
      else heap_release fuel header hp next m
  end.

Definition chHeapFree (p : Z) (st : heap_state) : option heap_state :=
  _ ← check (negb (p =? 0) && MEM_IS_ALIGNED p CH_HEAP_ALIGNMENT);
  let m := h_mem st in
  let hp := p - sizeof_header in
  header ← H_USED_HEAP m hp;
  size ← H_USED_SIZE m hp;
  m ← set_word1 hp (MEM_ALIGN_NEXT size CH_HEAP_ALIGNMENT / CH_HEAP_ALIGNMENT) m;
  m ← heap_release (S (base.size m)) header hp header m;
  Some (HeapState m (h_core st)).

(** ** Status and integrity *)

(** The number of free blocks, their pages, and the pages of the largest. *)
Fixpoint heap_count (fuel : nat) (m : heap_mem) (qp n tpages lpages : Z) : option (Z * Z * Z) :=
  match fuel with
  | O => None
  | S fuel =>
      hp ← H_FREE_NEXT m qp;
      if hp =? 0 then Some (n, u32 (tpages * CH_HEAP_ALIGNMENT), u32 (lpages * CH_HEAP_ALIGNMENT))
      else
        pages ← H_FREE_PAGES m hp;
        heap_count fuel m hp (u32 (n + 1)) (u32 (tpages + pages)) (if lpages <? pages then pages else lpages)
  end.

Definition chHeapStatus (heapp : memory_heap_t) (st : heap_state) : option (Z * Z * Z) :=
  heap_count (S (base.size (h_mem st))) (h_mem st) (hp_header heapp) 0 0 0.

(** [true] when the list is damaged. *)
Fixpoint heap_integrity (fuel : nat) (m : heap_mem) (area : memory_area_t) (hp prevhp : Z) : option bool :=
  match fuel with
  | O => None
  | S fuel =>
      hp ← H_FREE_NEXT m hp;
      if hp =? 0 then Some false
      else if hp <=? prevhp then Some true
      else if negb (MEM_IS_ALIGNED hp CH_HEAP_ALIGNMENT) then Some true
      else
        pages ← H_FREE_PAGES m hp;
        within ← chMemIsSpaceWithinX area hp (H_FREE_FULLSIZE pages);
        if negb within then Some true else heap_integrity fuel m area hp hp
  end.

(** The provider is an address in the executable areas: the default areas cover
    the whole address space. *)
Definition chHeapIntegrityCheck (heapp : memory_heap_t) (st : heap_state) : option bool :=
  heap_integrity (S (base.size (h_mem st))) (h_mem st) (hp_area heapp) (hp_header heapp) 0.
