(* ===== verification/HeapSpec.v ===== *)
(** * The heap allocator against lists of blocks

    [chainto] reads the pointer list in the store as a list of blocks (address,
    pages); [carve] and [fl_insert] are the allocation and the release on such
    lists.  The lemmas show that the code of Heap.v performs them, and that they
    keep the blocks disjoint. *)

From stdpp Require Import gmap sorting.
From S2P Require Import Prelude CInt Memcore Heap.
#[local] Open Scope Z_scope.

(** ** Blocks *)

Abbreviation block := (Z * Z)%type.
Definition b_end (b : block) : Z := fst b + 8 + 8 * snd b.

(** The free list from the blocks [l] on, the last one pointing to [q]. *)
Definition hd_or (q : Z) (l : list block) : Z := match l with [] => q | b :: _ => fst b end.

Fixpoint chainto (m : heap_mem) (l : list block) (q : Z) : Prop :=
  match l with
  | [] => True
  | b :: l => m !! fst b = Some (hd_or q l, snd b) /\ chainto m l q
  end.

Lemma chainto_app m l1 l2 q :
  chainto m (l1 ++ l2) q <-> chainto m l1 (hd_or q l2) /\ chainto m l2 q.
Proof.
  induction l1 as [|b l1 IH]; simpl; [tauto|]. rewrite IH.
  destruct l1; simpl; tauto.
Qed.

Lemma chainto_frame m m' l q :
  (forall b, b ∈ l -> m' !! fst b = m !! fst b) -> chainto m l q -> chainto m' l q.
Proof.
  induction l as [|b l IH]; simpl; [auto|]. intros Hf [Hb Hl]. split.
  - rewrite Hf by left. exact Hb.
  - apply IH; [|exact Hl]. intros b' Hb'. apply Hf. right. exact Hb'.
Qed.

(** Redirecting the last pointer. *)
Lemma chainto_redirect m l b q q' :
  fst b ∉ l.*1 -> chainto m (l ++ [b]) q -> chainto (<[fst b := (q', snd b)]> m) (l ++ [b]) q'.
Proof.
  rewrite !chainto_app. simpl. intros Hnin [Hl [Hb _]]. split;
    [|split; [apply lookup_insert_eq|exact Logic.I]].
  refine (chainto_frame m _ _ _ _ Hl). intros b' Hb'. apply lookup_insert_ne. intros E.
  apply Hnin. rewrite E. apply list_elem_of_fmap. eauto.
Qed.

(** Two blocks share no byte; a block lies inside another. *)
Definition disj (b1 b2 : block) : Prop := b_end b1 <= fst b2 \/ b_end b2 <= fst b1.
Definition inside (b1 b2 : block) : Prop := fst b2 <= fst b1 /\ b_end b1 <= b_end b2.

Definition all_disj (bs : list block) : Prop := ForallOrdPairs disj bs.

#[export] Instance disj_sym : Symmetric disj.
Proof. unfold disj. intros b1 b2 H. tauto. Qed.

Lemma all_disj_perm bs bs' : bs ≡ₚ bs' -> all_disj bs -> all_disj bs'.
Proof.
  unfold all_disj. induction 1 as [|b l l' Hp IH|b1 b2 l|l1 l2 l3 _ IH1 _ IH2]; auto.
  - intros H. inversion_clear H as [|? ? Hf Hd]. constructor; [rewrite <- Hp; exact Hf|auto].
  - intros H. inversion_clear H as [|? ? Hf Hd]. inversion_clear Hd as [|? ? Hf' Hd'].
    inversion_clear Hf as [|? ? H12 Hf1]. constructor; [constructor; [symmetry; exact H12|exact Hf']|constructor; assumption].
Qed.

#[export] Instance all_disj_proper : Proper ((≡ₚ) ==> iff) all_disj.
Proof. intros l l' H. split; apply all_disj_perm; [exact H|symmetry; exact H]. Qed.

Lemma all_disj_app l1 l2 :
  all_disj (l1 ++ l2) <-> all_disj l1 /\ all_disj l2 /\ Forall (fun b1 => Forall (disj b1) l2) l1.
Proof.
  unfold all_disj. induction l1 as [|b l1 IH]; simpl.
  - split; [intros H; split_and!; auto; constructor|tauto].
  - split.
    + intros H. inversion_clear H as [|? ? Hf Hd]. apply Forall_app in Hf as [Hf1 Hf2].
      apply IH in Hd as (H1 & H2 & H3). split_and!; auto; constructor; auto.
    + intros (H1 & H2 & H3). inversion_clear H1 as [|? ? Hf Hd]. inversion_clear H3 as [|? ? Hf' Hd'].
      constructor; [apply Forall_app; auto|apply IH; auto].
Qed.

Lemma inside_disj b b1 b2 : 0 <= snd b -> inside b b1 -> disj b1 b2 -> disj b b2.
Proof. unfold inside, disj, b_end. lia. Qed.

(** Blocks carved out of one block are disjoint from what it was disjoint from. *)
Lemma all_disj_carve b new bs :
  all_disj (b :: bs) -> Forall (fun b' => 0 <= snd b' /\ inside b' b) new -> all_disj new -> all_disj (new ++ bs).
Proof.
  intros H Hin Hnew. inversion_clear H as [|? ? Hf Hd]. apply all_disj_app. split_and!; auto.
  refine (Forall_impl _ _ _ Hin _). intros b' [Hn Hb']. refine (Forall_impl _ _ _ Hf _).
  intros b2. apply inside_disj; assumption.
Qed.

(** ** What makes a block well placed: aligned, not negative, below the end of
    the address space, and every header position in it belongs to the store. *)
Definition slots (m : heap_mem) (lo hi : Z) : Prop :=
  forall x, lo <= x < hi -> x mod 8 = 0 -> is_Some (m !! x).

Definition block_ok (m : heap_mem) (b : block) : Prop :=
  0 < fst b /\ fst b mod 8 = 0 /\ 0 <= snd b /\ b_end b < 2 ^ 32 /\ slots m (fst b) (b_end b).

(** Same domain. *)
Definition same_slots (m m' : heap_mem) : Prop := forall x, is_Some (m !! x) <-> is_Some (m' !! x).

Lemma same_slots_insert m x v : is_Some (m !! x) -> same_slots m (<[x := v]> m).
Proof.
  intros Hx y. destruct (decide (y = x)) as [->|Hne].
  - rewrite lookup_insert_eq. split; eauto.
  - rewrite lookup_insert_ne by congruence. reflexivity.
Qed.

Lemma same_slots_refl m : same_slots m m.
Proof. intros x. reflexivity. Qed.

Lemma same_slots_trans m1 m2 m3 : same_slots m1 m2 -> same_slots m2 m3 -> same_slots m1 m3.
Proof. intros H1 H2 x. etransitivity; [apply H1|apply H2]. Qed.

Lemma block_ok_same m m' b : same_slots m m' -> block_ok m b -> block_ok m' b.
Proof.
  intros Hs (H1 & H2 & H3 & H4 & H5). split_and!; auto. intros x Hx Ha. apply Hs. auto.
Qed.

Lemma block_ok_inside m b b' :
  block_ok m b -> inside b' b -> 0 <= snd b' -> fst b' mod 8 = 0 -> block_ok m b'.
Proof.
  intros (H1 & H2 & H3 & H4 & H5) [Hl Hh] Hn Ha. split_and!; auto; try lia.
  intros x Hx Hx8. apply H5; [lia|exact Hx8].
Qed.

(** The header of a good block is in the store. *)
Lemma block_ok_header m b : block_ok m b -> is_Some (m !! fst b).
Proof. intros (H1 & H2 & H3 & H4 & H5). apply H5; [unfold b_end; lia|exact H2]. Qed.

(** ** Allocation on lists *)

Definition data_pages (size : Z) : Z := MEM_ALIGN_NEXT size CH_HEAP_ALIGNMENT / CH_HEAP_ALIGNMENT.

(** The header position for aligned data in the block at [a]. *)
Definition aligned_header (a align : Z) : Z := u32 (MEM_ALIGN_NEXT (a + 8) align - 8).

Definition fits (pages align : Z) (b : block) : bool :=
  (aligned_header (fst b) align <? b_end b) &&
  (pages <=? NPAGES (b_end b) (aligned_header (fst b) align + 8)).

(** What is left of block [b] around the [pages] pages of data whose header is
    at [ahp]. *)
Definition carve (b : block) (ahp pages : Z) : list block :=
  (if fst b <? ahp then [(fst b, (ahp - fst b - 8) / 8)] else []) ++
  (if pages <? (b_end b - (ahp + 8)) / 8
   then [(ahp + 8 + 8 * pages, (b_end b - (ahp + 8)) / 8 - pages - 1)] else []).

Fixpoint fl_alloc (pages align : Z) (fl : list block) : option (list block * Z) :=
  match fl with
  | [] => None
  | b :: fl =>
      if fits pages align b
      then Some (carve b (aligned_header (fst b) align) pages ++ fl, aligned_header (fst b) align)
      else '(fl, ahp) ← fl_alloc pages align fl; Some (b :: fl, ahp)
  end.

(** A header position that fits: inside the block, aligned. *)
Lemma fits_spec pages k b m :
  block_ok m b -> 3 <= k < 32 -> 0 <= pages -> fits pages (2 ^ k) b = true ->
  let ahp := aligned_header (fst b) (2 ^ k) in
  fst b <= ahp /\ ahp mod 8 = 0 /\ (ahp + 8) mod 2 ^ k = 0 /\
  ahp + 8 + 8 * pages <= b_end b /\ (b_end b - (ahp + 8)) mod 8 = 0 /\ ahp + 8 <= b_end b.
Proof.
  intros (H1 & H2 & H3 & H4 & _) Hk Hp Hf ahp. unfold fits in Hf. fold ahp in Hf. bools.
  assert (Hpow : 2 ^ k = 8 * 2 ^ (k - 3)) by (change 8 with (2 ^ 3); rewrite <- Z.pow_add_r by lia; f_equal; lia).
  assert (Hp2 : 0 < 2 ^ k < 2 ^ 32) by (split; [apply Z.pow_pos_nonneg; lia|apply Z.pow_lt_mono_r; lia]).
  unfold b_end in *. destruct b as [a n]. simpl in *.
  assert (Hahp : exists d, ahp = a + d /\ 0 <= d < 2 ^ k /\ (a + 8 + d) mod 2 ^ k = 0).
  { unfold ahp, aligned_header in *. destruct (Z_lt_le_dec (a + 8 + 2 ^ k - 1) (2 ^ 32)) as [Hlt|Hge].
    - destruct (align_next_value (a + 8) k) as (d & E & Hd & Hm); [lia|lia|exact Hlt|].
      rewrite E in *. exists d. rewrite u32_small by lia. split_and!; try lia.
    - exfalso. unfold MEM_ALIGN_NEXT, MEM_ALIGN_MASK in H.
      rewrite (u32_small (2 ^ k - 1)), (u32_small (a + 8)), align_prev_u32 in H by lia.
      rewrite (u32_wrap (a + 8 + (2 ^ k - 1))) in H by lia.
      rewrite (Z.mod_small (a + 8 + (2 ^ k - 1) - 2 ^ 32)), Z.sub_diag in H by lia.
      rewrite u32_neg in H by lia. pose proof (Z_div_mod_eq_full a 8). lia. }
  destruct Hahp as (d & -> & Hd & Hm).
  assert (Hm8 : (a + 8 + d) mod 8 = 0).
  { apply Z.mod_divide in Hm; [|lia]. apply Z.mod_divide; [lia|]. destruct Hm as [z Hz]. exists (z * 2 ^ (k - 3)). lia. }
  assert (Hd8 : d mod 8 = 0).
  { replace d with (a + 8 + d - (a + 8)) by lia. rewrite Zminus_mod, Hm8, Z.add_mod, H2 by lia. reflexivity. }
  assert (Hle : a + d + 8 <= a + 8 + 8 * n).
  { pose proof (Z_div_mod_eq_full d 8). lia. }
  unfold NPAGES in H0. rewrite u32_small in H0; [|split; [apply Z.div_pos; unfold sizeof_header; lia|]].
  2:{ apply Z.div_lt_upper_bound; unfold sizeof_header; lia. }
  unfold sizeof_header in H0.
  assert (Hdiv : (a + 8 + 8 * n - (a + d + 8)) mod 8 = 0).
  { replace (a + 8 + 8 * n - (a + d + 8)) with (- d + n * 8) by lia. rewrite Z_mod_plus_full.
    apply Z_mod_zero_opp_full. exact Hd8. }
  split_and!; try lia.
  - rewrite Z.add_mod, H2, Hd8 by lia. reflexivity.
  - replace (a + d + 8) with (a + 8 + d) by lia. exact Hm.
  - pose proof (Z_div_mod_eq_full (a + 8 + 8 * n - (a + d + 8)) 8). lia.
Qed.

Definition weight (b : block) : Z := snd b + 1.
Definition weights (bs : list block) : Z := foldr (fun b s => weight b + s) 0 bs.

Lemma weights_app l1 l2 : weights (l1 ++ l2) = weights l1 + weights l2.
Proof. induction l1; simpl; lia. Qed.

(** What [fits_spec] says of a header position. *)
Definition fit (pages : Z) (b : block) (ahp : Z) : Prop :=
  fst b <= ahp /\ ahp mod 8 = 0 /\ ahp + 8 + 8 * pages <= b_end b /\
  (b_end b - (ahp + 8)) mod 8 = 0 /\ 0 <= pages.

Ltac forall_split :=
  repeat match goal with
  | |- Forall _ [] => constructor
  | |- Forall _ (_ :: _) => constructor
  | |- ForallOrdPairs _ [] => constructor
  | |- ForallOrdPairs _ (_ :: _) => constructor
  end.

(** The block of the data and what is left of [b] are good blocks inside [b],
    disjoint, and together as large as [b]. *)
Lemma carve_ok m b ahp pages :
  block_ok m b -> fit pages b ahp ->
  Forall (fun b' => 0 <= snd b' /\ inside b' b /\ fst b' mod 8 = 0) ((ahp, pages) :: carve b ahp pages) /\
  all_disj ((ahp, pages) :: carve b ahp pages) /\
  weights ((ahp, pages) :: carve b ahp pages) = weight b.
Proof.
  intros (H1 & H2 & H3 & H4 & _) (F1 & F2 & F3 & F4 & F5).
  destruct b as [a n]. unfold carve, weights, weight, all_disj, disj, inside, b_end in *. simpl in *.
  pose proof (Z_div_mod_eq_full (a + 8 + 8 * n - (ahp + 8)) 8).
  pose proof (Z_div_mod_eq_full a 8). pose proof (Z_div_mod_eq_full ahp 8).
  set (bp := (a + 8 + 8 * n - (ahp + 8)) / 8) in *.
  assert (E1 : (ahp - a - 8) / 8 = ahp / 8 - a / 8 - 1).
  { replace (ahp - a - 8) with ((ahp / 8 - a / 8 - 1) * 8) by lia. apply Z_div_mult_full. lia. }
  rewrite E1.
  assert (Hm : (ahp + 8 + 8 * pages) mod 8 = 0).
  { replace (ahp + 8 + 8 * pages) with (ahp + (1 + pages) * 8) by lia. rewrite Z_mod_plus_full. exact F2. }
  destruct (Z.ltb_spec a ahp); destruct (Z.ltb_spec pages bp); simpl; split_and!; forall_split; simpl;
    split_and?; try lia; try exact Hm; assumption.
Qed.

Lemma fits_fit pages k b m :
  block_ok m b -> 3 <= k < 32 -> 0 <= pages -> fits pages (2 ^ k) b = true ->
  fit pages b (aligned_header (fst b) (2 ^ k)) /\ (aligned_header (fst b) (2 ^ k) + 8) mod 2 ^ k = 0.
Proof.
  intros Hb Hk Hp Hf. destruct (fits_spec pages k b m Hb Hk Hp Hf) as (? & ? & ? & ? & ? & ?).
  unfold fit. auto 10.
Qed.

(** ** The code performs [fl_alloc] *)

Lemma heap_find_spec pages align m fl : forall fuel qb,
  (length fl < fuel)%nat -> chainto m (qb :: fl) 0 -> Forall (block_ok m) fl ->
  match fl_alloc pages align fl with
  | None => heap_find fuel m (fst qb) pages align = Some None
  | Some (fl', ahp) =>
      exists pre b post l qb', fl = pre ++ b :: post /\ fl' = pre ++ carve b ahp pages ++ post /\
        ahp = aligned_header (fst b) align /\ fits pages align b = true /\ qb :: pre = l ++ [qb'] /\
        heap_find fuel m (fst qb) pages align = Some (Some (fst qb', fst b, ahp))
  end.
Proof.
  induction fl as [|b fl IH]; intros fuel qb Hfuel Hch Hok; (destruct fuel as [|fuel]; [simpl in Hfuel; lia|]);
    simpl in Hch; destruct Hch as [Hq Hch].
  - simpl. unfold H_FREE_NEXT. rewrite Hq. reflexivity.
  - inversion_clear Hok as [|? ? Hb Hok'].
    assert (Hne : fst b <> 0) by (destruct Hb; lia).
    cbn [heap_find fl_alloc]. unfold H_FREE_NEXT, H_FREE_LIMIT, H_FREE_PAGES. rewrite Hq.
    cbn [fmap option_fmap option_map mbind option_bind fst].
    rewrite (proj2 (Z.eqb_neq _ _)) by exact Hne.
    pose proof Hch as [Hbm _]. rewrite Hbm. cbn [fmap option_fmap option_map mbind option_bind snd].
    fold (b_end b). change (H_BLOCK (fst b) + sizeof_header * snd b) with (b_end b).
    change (u32 (MEM_ALIGN_NEXT (H_BLOCK (fst b)) align - sizeof_header)) with (aligned_header (fst b) align).
    change (H_BLOCK (aligned_header (fst b) align)) with (aligned_header (fst b) align + 8).
    fold (fits pages align b). destruct (fits pages align b) eqn:Ef.
    + exists [], b, fl, [], qb. split_and!; reflexivity || exact Ef.
    + specialize (IH fuel b). destruct (fl_alloc pages align fl) as [[fl' ahp]|] eqn:Ea; simpl.
      * destruct IH as (pre & b' & post & l & qb' & E1 & E2 & E3 & E4 & E5 & E6);
          [simpl in Hfuel; lia|exact Hch|exact Hok'|].
        exists (b :: pre), b', post, (qb :: l), qb'. rewrite E1, E2. split_and!; auto.
        rewrite E5. reflexivity.
      * apply IH; [simpl in Hfuel; lia|exact Hch|exact Hok'].
Qed.

(** Frames: an address outside a block is not one of the headers inside it. *)
Lemma chain_outside m m' l q (b : block) :
  Forall (disj b) l -> 0 <= snd b -> Forall (fun b' => 0 <= snd b') l ->
  (forall x, ~ (fst b <= x < b_end b) -> m' !! x = m !! x) ->
  chainto m l q -> chainto m' l q.
Proof.
  intros Hd Hn Hn' Hf. apply chainto_frame. intros b' Hb'. apply Hf.
  rewrite Forall_forall in Hd, Hn'. specialize (Hd _ Hb'). specialize (Hn' _ Hb').
  unfold disj, b_end in *. lia.
Qed.

(** Simplifies lookups in updated stores. *)
Ltac mem_simpl :=
  repeat first [rewrite lookup_insert_eq | rewrite lookup_insert_ne by (unfold b_end in *; simpl in *; lia)].

Lemma set_word0_eq hp v m w : m !! hp = Some w -> set_word0 hp v m = Some (<[hp := (v, snd w)]> m).
Proof. intros H. unfold set_word0. rewrite H. reflexivity. Qed.
Lemma set_word1_eq hp v m w : m !! hp = Some w -> set_word1 hp v m = Some (<[hp := (fst w, v)]> m).
Proof. intros H. unfold set_word1. rewrite H. reflexivity. Qed.

Lemma NPAGES_eq p1 p2 : p2 <= p1 < 2 ^ 32 -> 0 <= p2 -> NPAGES p1 p2 = (p1 - p2) / 8.
Proof.
  intros H H2. unfold NPAGES, sizeof_header. apply u32_small. split; [apply Z.div_pos; lia|].
  apply Z.div_lt_upper_bound; lia.
Qed.

(** Cutting the block [b] whose data starts at [ahp + 8]: the store afterwards. *)
Lemma heap_split_spec m b ahp pages next :
  block_ok m b -> fit pages b ahp -> fst b < ahp -> m !! fst b = Some (next, snd b) ->
  exists m', heap_split_unaligned (fst b) ahp pages m = Some m' /\ same_slots m m' /\
    chainto m' (carve b ahp pages) next /\
    (forall x, ~ (fst b <= x < b_end b) -> m' !! x = m !! x).
Proof.
  intros Hb (F1 & F2 & F3 & F4 & F5) Hlt Hm. pose proof Hb as (H1 & H2 & H3 & H4 & H5).
  destruct b as [a n]. simpl in *.
  unfold heap_split_unaligned, H_FREE_LIMIT, H_FREE_PAGES, H_FREE_NEXT, H_BLOCK, sizeof_header.
  rewrite Hm. cbn [fmap option_fmap option_map mbind option_bind snd].
  rewrite (set_word1_eq a _ m (next, n) Hm). cbn [mbind option_bind fst].
  change (a + 8 + 8 * n) with (b_end (a, n)).
  rewrite (NPAGES_eq (b_end (a, n)) (ahp + 8)) by lia.
  pose proof (Z_div_mod_eq_full (b_end (a, n) - (ahp + 8)) 8) as Hbp.
  pose proof (Z_div_mod_eq_full a 8) as Ha8. pose proof (Z_div_mod_eq_full ahp 8) as Hahp8.
  unfold carve. simpl fst. rewrite (proj2 (Z.ltb_lt a ahp)) by exact Hlt.
  rewrite (NPAGES_eq ahp (a + 8)) by lia. replace (ahp - (a + 8)) with (ahp - a - 8) by lia.
  set (bp := (b_end (a, n) - (ahp + 8)) / 8) in *.
  set (m1 := <[a:=(next, (ahp - a - 8) / 8)]> m).
  assert (Hs1 : same_slots m m1) by (apply same_slots_insert; eauto).
  destruct (Z.ltb_spec pages bp) as [Hex|Hno].
  - set (fp := ahp + 8 + 8 * pages) in *.
    assert (Hfp : exists w, m !! fp = Some w).
    { apply H5; [unfold fp in *; lia|]. unfold fp.
      replace (ahp + 8 + 8 * pages) with (ahp + (1 + pages) * 8) by lia. rewrite Z_mod_plus_full. exact F2. }
    destruct Hfp as [w Hw].
    assert (Hw1 : m1 !! fp = Some w) by (unfold m1; rewrite lookup_insert_ne by (unfold fp; lia); exact Hw).
    rewrite (set_word1_eq fp _ m1 w Hw1). cbn [mbind option_bind].
    rewrite lookup_insert_ne by (unfold fp; lia). unfold m1 at 2. rewrite lookup_insert_eq.
    cbn [fmap option_fmap option_map mbind option_bind fst].
    assert (Hbpu : bp < 2 ^ 32) by (unfold b_end in *; simpl in *; lia).
    rewrite (u32_small (bp - pages)), u32_small by lia.
    erewrite set_word0_eq; [|apply lookup_insert_eq]. cbn [mbind option_bind snd].
    rewrite insert_insert_eq.
    assert (Ha : (<[fp:=(next, bp - pages - 1)]> m1) !! a = Some (next, (ahp - a - 8) / 8))
      by (rewrite lookup_insert_ne by (unfold fp; lia); unfold m1; apply lookup_insert_eq).
    rewrite (set_word0_eq a _ _ _ Ha). eexists. split; [reflexivity|]. cbn [snd]. split_and!.
    + eapply same_slots_trans; [exact Hs1|]. eapply same_slots_trans; apply same_slots_insert; eauto.
    + simpl. rewrite lookup_insert_eq, lookup_insert_ne by (unfold fp; lia). rewrite lookup_insert_eq. auto.
    + intros x Hx. unfold m1. unfold b_end, fp in *. simpl in *. rewrite !lookup_insert_ne by lia. reflexivity.
  - eexists. split; [reflexivity|]. split_and!; [exact Hs1| |].
    + simpl. unfold m1. rewrite lookup_insert_eq. auto.
    + intros x Hx. unfold m1. unfold b_end in *. simpl in *. rewrite !lookup_insert_ne by lia. reflexivity.
Qed.

Lemma heap_take_spec m b qb pages next :
  block_ok m b -> fit pages b (fst b) -> m !! fst b = Some (next, snd b) ->
  m !! fst qb = Some (fst b, snd qb) -> ~ (fst b <= fst qb < b_end b) ->
  exists m', heap_take_aligned (fst qb) (fst b) pages m = Some m' /\ same_slots m m' /\
    m' !! fst qb = Some (hd_or next (carve b (fst b) pages), snd qb) /\
    chainto m' (carve b (fst b) pages) next /\
    (forall x, x <> fst qb -> ~ (fst b <= x < b_end b) -> m' !! x = m !! x).
Proof.
  intros Hb (_ & F2 & F3 & F4 & F5) Hm Hq Hout. pose proof Hb as (H1 & H2 & H3 & H4 & H5).
  destruct b as [a n], qb as [qp k]. cbn [fst snd] in *.
  unfold heap_take_aligned, H_FREE_LIMIT, H_FREE_PAGES, H_FREE_NEXT, H_BLOCK, sizeof_header.
  rewrite Hm. cbn [fmap option_fmap option_map mbind option_bind snd fst].
  unfold carve. cbn [fst]. rewrite (proj2 (Z.ltb_ge a a)) by lia. cbn [app].
  assert (Ebp : (b_end (a, n) - (a + 8)) / 8 = n).
  { unfold b_end. cbn [fst snd]. replace (a + 8 + 8 * n - (a + 8)) with (n * 8) by lia. apply Z_div_mult_full. lia. }
  rewrite Ebp. unfold b_end in *. cbn [fst snd] in *.
  destruct (Z.eqb_spec n pages) as [->|Hne].
  - rewrite (proj2 (Z.ltb_ge pages pages)) by lia. rewrite (set_word0_eq _ _ _ _ Hq).
    eexists. split; [reflexivity|]. cbn [snd hd_or chainto]. split_and!; auto.
    + apply same_slots_insert. eauto.
    + apply lookup_insert_eq.
    + intros x Hx _. apply lookup_insert_ne. congruence.
  - rewrite (proj2 (Z.ltb_lt pages n)) by lia. set (fp := a + 8 + 8 * pages) in *.
    assert (Hfp : exists w, m !! fp = Some w).
    { apply H5; [unfold fp in *; lia|]. unfold fp.
      replace (a + 8 + 8 * pages) with (a + (1 + pages) * 8) by lia. rewrite Z_mod_plus_full. exact F2. }
    destruct Hfp as [w Hw]. rewrite (set_word0_eq _ _ _ _ Hw). cbn [mbind option_bind].
    rewrite lookup_insert_ne by (unfold fp; lia). rewrite Hm.
    cbn [fmap option_fmap option_map mbind option_bind snd].
    rewrite (NPAGES_eq (a + 8 + 8 * n) (fp + 8)) by (unfold fp in *; lia).
    replace (a + 8 + 8 * n - (fp + 8)) with ((n - pages - 1) * 8) by (unfold fp; lia).
    rewrite Z_div_mult_full by lia.
    erewrite set_word1_eq; [|apply lookup_insert_eq]. cbn [mbind option_bind fst].
    rewrite insert_insert_eq.
    assert (Hq1 : (<[fp:=(next, n - pages - 1)]> m) !! qp = Some (a, k))
      by (rewrite lookup_insert_ne by (unfold fp in *; lia); exact Hq).
    rewrite (set_word0_eq _ _ _ _ Hq1). eexists. split; [reflexivity|]. cbn [snd hd_or chainto fst]. split_and!.
    + eapply same_slots_trans; apply same_slots_insert; eauto.
    + apply lookup_insert_eq.
    + rewrite lookup_insert_ne by (unfold fp in *; lia). apply lookup_insert_eq.
    + exact Logic.I.
    + intros x Hx Hx'. rewrite !lookup_insert_ne by (unfold fp in *; lia). reflexivity.
Qed.

(** Whether an address lies in one of the blocks. *)
Definition covered (x : Z) (bs : list block) : Prop := Exists (fun b => fst b <= x < b_end b) bs.

Lemma covered_app x l1 l2 : covered x (l1 ++ l2) <-> covered x l1 \/ covered x l2.
Proof. apply Exists_app. Qed.

Lemma disj_not_covered b l x :
  0 <= snd b -> Forall (fun b' => 0 <= snd b') l -> Forall (disj b) l ->
  fst b <= x < b_end b -> ~ covered x l.
Proof.
  intros Hn Hl Hd Hx Hc. apply Exists_exists in Hc as (b' & Hin & Hx').
  rewrite Forall_forall in Hd. specialize (Hd _ Hin). unfold disj in Hd. lia.
Qed.

Lemma heap_cut_spec m h l qb b post ahp pages size :
  let nodes := l ++ [qb] ++ b :: post in
  chainto m nodes 0 -> all_disj nodes -> Forall (fun b' => 0 <= snd b') nodes ->
  block_ok m b -> fit pages b ahp ->
  exists m', heap_cut (fst qb) (fst b) ahp pages size h m = Some (m', ahp) /\ same_slots m m' /\
    chainto m' (l ++ [qb] ++ carve b ahp pages ++ post) 0 /\ m' !! ahp = Some (h, size) /\
    (forall x, ~ covered x nodes -> m' !! x = m !! x).
Proof.
  intros nodes Hch Hd Hn Hb Hfit. unfold nodes in *.
  rewrite !chainto_app in Hch. cbn [app hd_or] in Hch.
  destruct Hch as (Hchl & [Hq _] & [Hbm Hpost]). cbn [hd_or] in *.
  apply all_disj_app in Hd as (Hdl & Hd2 & Hdl2). apply (all_disj_app [qb]) in Hd2 as (_ & Hd3 & Hdq).
  inversion_clear Hd3 as [|? ? Hdb Hdpost]. rewrite Forall_singleton in Hdq.
  change (Forall (disj qb) (b :: post)) in Hdq.
  inversion_clear Hdq as [|? ? Hqb Hqpost].
  apply Forall_app in Hn as [Hnl Hn2]. inversion_clear Hn2 as [|? ? Hnq Hn3].
  inversion_clear Hn3 as [|? ? Hnb Hnpost]. cbv beta in *.
  assert (Hdbl : Forall (disj b) l).
  { refine (Forall_impl _ _ _ Hdl2 _). intros b' Hb'. symmetry.
    apply Forall_app in Hb' as [_ Hb']. inversion_clear Hb'. assumption. }
  assert (Hq_out : ~ (fst b <= fst qb < b_end b)) by (unfold disj, b_end in *; lia).
  assert (Hdql : Forall (disj qb) l).
  { refine (Forall_impl _ _ _ Hdl2 _). intros b' Hb'. symmetry.
    apply Forall_app in Hb' as [Hb' _]. inversion_clear Hb'. assumption. }
  pose proof Hfit as (F1 & F2 & F3 & F4 & F5).
  (* the free list after the cut *)
  assert (Hcut : exists m1, (if fst b <? ahp then heap_split_unaligned (fst b) ahp pages m
                             else heap_take_aligned (fst qb) (fst b) pages m) = Some m1 /\
    same_slots m m1 /\ chainto m1 (carve b ahp pages) (hd_or 0 post) /\
    m1 !! fst qb = Some (hd_or (hd_or 0 post) (carve b ahp pages), snd qb) /\
    (forall x, x <> fst qb -> ~ (fst b <= x < b_end b) -> m1 !! x = m !! x)).
  { destruct (Z.ltb_spec (fst b) ahp) as [Hlt|Hge].
    - destruct (heap_split_spec m b ahp pages _ Hb Hfit Hlt Hbm) as (m1 & E & Hs & Hc & Hf).
      exists m1. split_and!; auto. rewrite Hf by exact Hq_out. rewrite Hq.
      unfold carve. rewrite (proj2 (Z.ltb_lt _ _)) by exact Hlt. reflexivity.
    - assert (ahp = fst b) as -> by lia.
      destruct (heap_take_spec m b qb pages _ Hb Hfit Hbm Hq Hq_out) as (m1 & E & Hs & Hq1 & Hc & Hf).
      exists m1. split_and!; auto. }
  destruct Hcut as (m1 & E1 & Hs1 & Hc1 & Hq1 & Hf1). unfold heap_cut. rewrite E1. cbn [mbind option_bind].
  assert (Ehp : (if fst b <? ahp then ahp else fst b) = ahp) by (destruct (Z.ltb_spec (fst b) ahp); lia).
  rewrite Ehp.
  assert (Hah : is_Some (m1 !! ahp)).
  { apply Hs1. destruct Hb as (_ & _ & _ & _ & H5). apply H5; [unfold b_end in *; lia|exact F2]. }
  destruct Hah as [w Hw]. rewrite (set_word1_eq _ _ _ _ Hw). cbn [mbind option_bind].
  erewrite set_word0_eq; [|apply lookup_insert_eq]. cbn [mbind option_bind snd].
  rewrite insert_insert_eq. eexists. split; [reflexivity|].
  set (m2 := <[ahp:=(h, size)]> m1).
  assert (Hf2 : forall x, x <> ahp -> m2 !! x = m1 !! x)
    by (intros x Hx; unfold m2; apply lookup_insert_ne; congruence).
  destruct (carve_ok m b ahp pages Hb Hfit) as (Hin & Hcd & _).
  inversion_clear Hcd as [|? ? Hahd _]. inversion_clear Hin as [|? ? _ Hin'].
  assert (Hother : forall b', b' ∈ l \/ b' ∈ post -> m2 !! fst b' = m !! fst b').
  { intros b' Hb'. rewrite !Forall_forall in *.
    assert (Hdb' : disj b b' /\ disj qb b' /\ 0 <= snd b')
      by (destruct Hb' as [Hb'|Hb']; split_and!; auto).
    destruct Hdb' as (D1 & D2 & D3). unfold disj, b_end in D1, D2, F3.
    rewrite Hf2 by lia. apply Hf1; [lia|unfold b_end; lia]. }
  split_and!.
  - eapply same_slots_trans; [exact Hs1|]. apply same_slots_insert. eauto.
  - rewrite !chainto_app. cbn [app hd_or]. split_and!.
    + refine (chainto_frame m _ _ _ _ Hchl). intros b' Hb'. apply Hother. auto.
    + cbn [chainto hd_or]. split; [|exact Logic.I]. rewrite Hf2 by (unfold disj, b_end in *; lia).
      rewrite Hq1. destruct (carve b ahp pages); reflexivity.
    + refine (chainto_frame m1 _ _ _ _ Hc1). intros b' Hb'. apply Hf2.
      rewrite Forall_forall in Hahd, Hin'. specialize (Hahd _ Hb'). specialize (Hin' _ Hb').
      unfold disj, b_end in Hahd. simpl in Hahd. lia.
    + refine (chainto_frame m _ _ _ _ Hpost). intros b' Hb'. apply Hother. auto.
  - apply lookup_insert_eq.
  - intros x Hx. rewrite !covered_app in Hx.
    assert (Hxb : ~ (fst b <= x < b_end b)) by (intros ?; apply Hx; right; right; left; assumption).
    assert (Hxq : x <> fst qb).
    { intros ->. apply Hx. right. left. left. unfold b_end. lia. }
    rewrite Hf2 by (unfold b_end in *; lia). apply Hf1; assumption.
Qed.

(** ** Release on lists *)

(** [b] in front of [l], merged with its head when they touch. *)
Definition join (b : block) (l : list block) : list block :=
  match l with
  | c :: l' => if b_end b =? fst c then (fst b, snd b + snd c + 1) :: l' else b :: l
  | [] => [b]
  end.

(** [b] inserted behind [qb] and the blocks that precede it, with both merges. *)
Fixpoint fl_insert_after (qb b : block) (fl : list block) : list block :=
  match fl with
  | [] => join qb (join b [])
  | c :: fl' =>
      if fst b <? fst c then join qb (join b fl) else qb :: fl_insert_after c b fl'
  end.

Lemma hd_or_join q b l : hd_or q (join b l) = fst b.
Proof. destruct l as [|c l]; simpl; [reflexivity|]. case_bool; reflexivity. Qed.

Lemma hd_or_insert_after q qb b fl : hd_or q (fl_insert_after qb b fl) = fst qb.
Proof.
  destruct fl as [|c fl]; cbn [fl_insert_after]; [apply hd_or_join|].
  destruct (fst b <? fst c); [apply hd_or_join|reflexivity].
Qed.

(** The code of an insertion performs the two joins. *)
Lemma heap_insert_after_spec m b qb fl w0 :
  chainto m (qb :: fl) 0 -> m !! fst b = Some (w0, snd b) ->
  0 < fst b -> 0 <= snd b -> b_end b < 2 ^ 32 -> 0 <= snd qb -> 0 <= fst qb -> b_end qb < 2 ^ 32 ->
  fst b <> fst qb -> fst b ∉ fl.*1 -> fst qb ∉ fl.*1 -> NoDup (fl.*1) ->
  Forall (fun c => 0 <= snd c /\ 0 < fst c /\ b_end c < 2 ^ 32) fl ->
  exists m', heap_insert_after (fst b) (fst qb) m = Some m' /\ same_slots m m' /\
    chainto m' (join qb (join b fl)) 0 /\
    (forall x, x <> fst b -> x <> fst qb -> m' !! x = m !! x).
Proof.
  intros [Hq Hch] Hb B1 B2 B3 Q1 Q2 Q3 Hbq Hbf Hqf Hnd Hfl.
  unfold heap_insert_after, H_FREE_NEXT, H_FREE_LIMIT, H_FREE_PAGES.
  rewrite Hq. cbn [fmap option_fmap option_map mbind option_bind fst snd].
  rewrite (set_word0_eq _ _ _ _ Hb). cbn [mbind option_bind snd].
  set (m1 := <[fst b:=(hd_or 0 fl, snd b)]> m).
  assert (Hq1 : m1 !! fst qb = Some (hd_or 0 fl, snd qb))
    by (unfold m1; rewrite lookup_insert_ne by congruence; exact Hq).
  rewrite (set_word0_eq _ _ _ _ Hq1). cbn [mbind option_bind snd].
  set (m2 := <[fst qb:=(fst b, snd qb)]> m1).
  assert (Hb2 : m2 !! fst b = Some (hd_or 0 fl, snd b))
    by (unfold m2, m1; rewrite lookup_insert_ne by congruence; apply lookup_insert_eq).
  assert (Hs2 : same_slots m m2).
  { eapply same_slots_trans; [apply same_slots_insert; eauto|]. apply same_slots_insert. eauto. }
  assert (Hf2 : forall x, x <> fst b -> x <> fst qb -> m2 !! x = m !! x).
  { intros x Hx1 Hx2. unfold m2, m1. rewrite !lookup_insert_ne by congruence. reflexivity. }
  rewrite Hb2. cbn [fmap option_fmap option_map mbind option_bind fst snd].
  change (H_BLOCK (fst b) + sizeof_header * snd b) with (b_end b).
  (* the merge with the next block *)
  assert (Hnext : exists m3 b3 l3, join b fl = b3 :: l3 /\ fst b3 = fst b /\ 0 <= snd b3 /\ b_end b3 < 2 ^ 32 /\
    (if b_end b =? hd_or 0 fl
     then n' ← snd <$> m2 !! hd_or 0 fl;
          next' ← fst <$> m2 !! hd_or 0 fl;
          m' ← set_word1 (fst b) (u32 (snd b + u32 (n' + 1))) m2;
          set_word0 (fst b) next' m'
     else Some m2) = Some m3 /\
    m3 !! fst b = Some (hd_or 0 l3, snd b3) /\ same_slots m2 m3 /\ chainto m l3 0 /\
    (forall c, c ∈ l3 -> c ∈ fl) /\ (forall x, x <> fst b -> m3 !! x = m2 !! x)).
  { destruct fl as [|c fl']; cbn [hd_or join].
    - rewrite (proj2 (Z.eqb_neq _ _)) by (unfold b_end; lia).
      exists m2, b, []. cbn [hd_or]. split_and!; auto using same_slots_refl.
    - destruct (Z.eqb_spec (b_end b) (fst c)) as [E|E].
      + destruct Hch as [Hc Hch']. inversion_clear Hfl as [|? ? (C1 & C2 & C3) _].
        assert (Hcb : fst c <> fst b /\ fst c <> fst qb).
        { split; intros Ec; [apply Hbf|apply Hqf]; rewrite <- Ec; left. }
        rewrite (Hf2 (fst c)), Hc by apply Hcb. cbn [fmap option_fmap option_map mbind option_bind fst snd].
        rewrite (u32_small (snd c + 1)), u32_small by (unfold b_end in *; lia).
        rewrite (set_word1_eq _ _ _ _ Hb2). cbn [mbind option_bind fst].
        erewrite set_word0_eq; [|apply lookup_insert_eq]. cbn [snd].
        rewrite insert_insert_eq.
        exists (<[fst b:=(hd_or 0 fl', snd b + (snd c + 1))]> m2), (fst b, snd b + snd c + 1), fl'.
        cbn [fst snd]. rewrite lookup_insert_eq. split_and!; auto; try lia.
        * unfold b_end in *. cbn [fst snd]. lia.
        * do 2 f_equal. lia.
        * apply same_slots_insert. eauto.
        * intros c' Hc'. right. exact Hc'.
        * intros y Hy. apply lookup_insert_ne. congruence.
      + exists m2, b, (c :: fl'). cbn [hd_or]. split_and!; auto using same_slots_refl. }
  destruct Hnext as (m3 & b3 & l3 & Ej & Ef & B4 & B5 & E3 & Hb3 & Hs3 & Hch3 & Hsub & Hf3).
  rewrite E3. cbn [mbind option_bind]. rewrite Ej.
  assert (Hq3 : m3 !! fst qb = Some (fst b, snd qb))
    by (rewrite Hf3 by congruence; unfold m2; apply lookup_insert_eq).
  rewrite Hq3. cbn [fmap option_fmap option_map mbind option_bind fst snd].
  change (H_BLOCK (fst qb) + sizeof_header * snd qb) with (b_end qb).
  assert (Hl3 : forall c, c ∈ l3 -> fst c <> fst b /\ fst c <> fst qb).
  { intros c Hc. apply Hsub in Hc. split; intros Ec; [apply Hbf|apply Hqf]; rewrite <- Ec;
      apply list_elem_of_fmap; eauto. }
  cbn [join]. rewrite Ef. destruct (Z.eqb_spec (b_end qb) (fst b)) as [E|E].
  - rewrite Hb3. cbn [fmap option_fmap option_map mbind option_bind fst snd].
    rewrite (u32_small (snd b3 + 1)), u32_small by (unfold b_end in *; lia).
    rewrite (set_word1_eq _ _ _ _ Hq3). cbn [mbind option_bind fst].
    erewrite set_word0_eq; [|apply lookup_insert_eq]. cbn [snd]. rewrite insert_insert_eq.
    eexists. split; [reflexivity|]. split_and!.
    + eapply same_slots_trans; [exact Hs2|]. eapply same_slots_trans; [exact Hs3|]. apply same_slots_insert. eauto.
    + cbn [chainto fst snd]. split; [rewrite lookup_insert_eq; do 2 f_equal; lia|].
      refine (chainto_frame m _ _ _ _ Hch3). intros c Hc. destruct (Hl3 c Hc).
      rewrite lookup_insert_ne, Hf3, Hf2 by congruence. reflexivity.
    + intros x Hx1 Hx2. rewrite lookup_insert_ne, Hf3, Hf2 by congruence. reflexivity.
  - eexists. split; [reflexivity|]. split_and!.
    + eapply same_slots_trans; [exact Hs2|exact Hs3].
    + cbn [chainto hd_or]. rewrite Ef. split_and!; auto.
      refine (chainto_frame m _ _ _ _ Hch3). intros c Hc. destruct (Hl3 c Hc).
      rewrite Hf3, Hf2 by congruence. reflexivity.
    + intros x Hx1 Hx2. rewrite Hf3, Hf2 by congruence. reflexivity.
Qed.

(** Bounds of a block's fields. *)
Definition bounded (c : block) : Prop := 0 <= snd c /\ 0 < fst c /\ b_end c < 2 ^ 32.

Lemma heap_release_spec h b w0 fl : forall fuel qb m,
  (length fl < fuel)%nat -> chainto m (qb :: fl) 0 -> m !! fst b = Some (w0, snd b) ->
  bounded b -> bounded qb -> Forall bounded fl -> Forall (disj b) (qb :: fl) ->
  NoDup ((qb :: fl).*1) -> (fst qb = h \/ fst qb < fst b) ->
  exists m', heap_release fuel h (fst b) (fst qb) m = Some m' /\ same_slots m m' /\
    chainto m' (fl_insert_after qb b fl) 0 /\
    (forall x, x <> fst b -> x ∉ (qb :: fl).*1 -> m' !! x = m !! x).
Proof.
  induction fl as [|c fl IH]; intros [|fuel] qb m Hfuel Hch Hb B Q Hfl Hd Hnd Hpos;
    try (simpl in Hfuel; lia).
  all: pose proof B as (B1 & B2 & B3); pose proof Q as (Q1 & Q2 & Q3).
  all: inversion_clear Hd as [|? ? Hdq Hdfl]; rewrite fmap_cons in Hnd; apply NoDup_cons in Hnd as [Hqnin Hnd].
  all: pose proof Hch as [Hq Hch']; cbn [heap_release].
  all: unfold H_FREE_LIMIT at 1, H_FREE_PAGES at 1, H_FREE_NEXT at 1; rewrite Hq;
    cbn [fmap option_fmap option_map mbind option_bind fst snd];
    change (H_BLOCK (fst qb) + sizeof_header * snd qb) with (b_end qb).
  all: rewrite check_true by (rewrite orb_true_iff, Z.ltb_lt, Z.leb_le; unfold disj, b_end in *; lia);
    cbn [mbind option_bind].
  all: replace ((fst qb =? h) || (fst qb <? fst b)) with true
    by (symmetry; rewrite orb_true_iff, Z.eqb_eq, Z.ltb_lt; exact Hpos); cbn [andb].
  all: assert (Hbq : fst b <> fst qb) by (unfold disj, b_end in *; lia).
  - cbn [hd_or]. rewrite Z.eqb_refl. cbn [orb fl_insert_after].
    destruct (heap_insert_after_spec m b qb [] w0 Hch Hb) as (m' & E & Hs & Hc & Hf);
      auto; try lia; try apply not_elem_of_nil; try constructor.
    exists m'. split_and!; auto. intros x Hx Hx'. apply Hf; [exact Hx|]. intros ->. apply Hx'. left.
  - cbn [hd_or]. inversion_clear Hfl as [|? ? (C1 & C2 & C3) Hfl'].
    inversion_clear Hdfl as [|? ? Hdc Hdfl']. rewrite (proj2 (Z.eqb_neq (fst c) 0)) by lia. cbn [orb fl_insert_after].
    assert (Hbnin : fst b ∉ (c :: fl).*1).
    { intros Hin. apply list_elem_of_fmap in Hin as (c' & Ec & Hc'). apply elem_of_cons in Hc' as [->|Hc'].
      - unfold disj, b_end in *. lia.
      - rewrite Forall_forall in Hdfl', Hfl'. specialize (Hdfl' _ Hc'). specialize (Hfl' _ Hc').
        unfold disj, bounded, b_end in *. lia. }
    destruct (Z.ltb_spec (fst b) (fst c)) as [Hlt|Hge].
    + destruct (heap_insert_after_spec m b qb (c :: fl) w0 Hch Hb) as (m' & E & Hs & Hc & Hf);
        auto; try lia.
      exists m'. split_and!; auto. intros y Hy Hy'. apply Hf; [exact Hy|]. intros ->. apply Hy'. left.
    + destruct (IH fuel c m) as (m' & E & Hs & Hc & Hf); auto.
      { simpl in Hfuel. lia. }
      { unfold bounded. auto. }
      { right. unfold disj, b_end in *. lia. }
      exists m'. split_and!; auto.
      * cbn [chainto]. rewrite hd_or_insert_after. split; [|exact Hc].
        rewrite Hf; [exact Hq|congruence|exact Hqnin].
      * intros y Hy Hy'. rewrite fmap_cons in Hy'. apply not_elem_of_cons in Hy' as [_ Hy']. apply Hf; assumption.
Qed.

(** ** What merging keeps *)

(** [l'] is [l] up to the order and to merges of blocks that touch. *)
Inductive merges : list block -> list block -> Prop :=
| M_perm l l' : l ≡ₚ l' -> merges l l'
| M_join b c l : b_end b = fst c -> merges (b :: c :: l) ((fst b, snd b + snd c + 1) :: l)
| M_skip b l l' : merges l l' -> merges (b :: l) (b :: l')
| M_trans l1 l2 l3 : merges l1 l2 -> merges l2 l3 -> merges l1 l3.

Lemma merges_refl l : merges l l.
Proof. apply M_perm. reflexivity. Qed.

Lemma join_merges b l : merges (b :: l) (join b l).
Proof.
  destruct l as [|c l]; simpl; [apply merges_refl|].
  destruct (Z.eqb_spec (b_end b) (fst c)) as [E|E]; [apply M_join; exact E|apply merges_refl].
Qed.

Lemma insert_after_merges b fl : forall qb, merges (qb :: b :: fl) (fl_insert_after qb b fl).
Proof.
  induction fl as [|c fl IH]; intros qb; cbn [fl_insert_after].
  - apply join_merges.
  - destruct (fst b <? fst c).
    + eapply M_trans; [apply M_skip, join_merges|apply join_merges].
    + eapply M_trans; [|apply M_skip, IH]. apply M_perm. constructor. constructor.
Qed.

Lemma merges_app_r l l' r : merges l l' -> merges (l ++ r) (l' ++ r).
Proof.
  induction 1 as [l l' Hp|b c l E|b l l' _ IH|l1 l2 l3 _ IH1 _ IH2].
  - apply M_perm. rewrite Hp. reflexivity.
  - apply (M_join b c (l ++ r) E).
  - apply (M_skip b _ _ IH).
  - exact (M_trans _ _ _ IH1 IH2).
Qed.

(** Disjointness, good placement and the total size survive merges. *)
Definition placed (m : heap_mem) (bs : list block) : Prop := Forall (block_ok m) bs /\ all_disj bs.

Lemma merged_block_ok m b c :
  block_ok m b -> block_ok m c -> b_end b = fst c -> block_ok m (fst b, snd b + snd c + 1).
Proof.
  intros (B1 & B2 & B3 & B4 & B5) (C1 & C2 & C3 & C4 & C5) E. unfold block_ok, b_end in *. cbn [fst snd] in *.
  split_and!; try lia; try assumption. intros x Hx Hx8.
  destruct (Z_lt_le_dec x (fst c)); [apply B5|apply C5]; auto; lia.
Qed.

Lemma merges_Forall (P : block -> Prop) l l' :
  (forall b c, P b -> P c -> b_end b = fst c -> P (fst b, snd b + snd c + 1)) ->
  merges l l' -> Forall P l -> Forall P l'.
Proof.
  intros HP. induction 1 as [l l' Hp|b c l E|b l l' _ IH|l1 l2 l3 _ IH1 _ IH2]; auto.
  - intros H. rewrite <- Hp. exact H.
  - intros H. inversion_clear H as [|? ? Hb H']. inversion_clear H' as [|? ? Hc Hl]. constructor; auto.
  - intros H. inversion_clear H. constructor; auto.
Qed.

Lemma merges_disj b0 l l' :
  0 <= snd b0 -> merges l l' -> Forall (fun b => 0 <= snd b) l -> Forall (disj b0) l -> Forall (disj b0) l'.
Proof.
  intros Hn Hm Hnn Hd.
  assert (H : Forall (fun b => 0 <= snd b /\ disj b0 b) l') by
    (apply (merges_Forall _ l); [|exact Hm|apply Forall_and; auto];
     intros b c [Hb1 Hb2] [Hc1 Hc2] E; unfold disj, b_end in *; cbn [fst snd]; lia).
  apply Forall_and in H. apply H.
Qed.

Lemma merges_placed m l l' : merges l l' -> placed m l -> placed m l'.
Proof.
  intros Hm [Hok Hd]. split.
  { apply (merges_Forall _ l); [intros b c Hb Hc; apply merged_block_ok; assumption|exact Hm|exact Hok]. }
  revert Hok Hd. induction Hm as [l l' Hp|b c l E|b l l' Hm IH|l1 l2 l3 Hm1 IH1 Hm2 IH2]; intros Hok Hd.
  - rewrite <- Hp. exact Hd.
  - inversion_clear Hok as [|? ? Hb Hok']. inversion_clear Hok' as [|? ? Hc Hl].
    inversion_clear Hd as [|? ? Hdb Hd']. inversion_clear Hd' as [|? ? Hdc Hdl].
    inversion_clear Hdb as [|? ? _ Hdbl]. constructor; [|exact Hdl]. rewrite !Forall_forall in *.
    intros b' Hb'. specialize (Hdbl _ Hb'). specialize (Hdc _ Hb'). destruct (Hl _ Hb') as (_ & _ & Hn & _).
    destruct Hb as (_ & _ & Hnb & _). destruct Hc as (_ & _ & Hnc & _).
    unfold disj, b_end in *. cbn [fst snd]. lia.
  - inversion_clear Hok as [|? ? Hb Hl]. inversion_clear Hd as [|? ? Hdb Hdl]. constructor; [|exact (IH Hl Hdl)].
    apply (merges_disj b l); [apply Hb|exact Hm| |exact Hdb].
    refine (Forall_impl _ _ _ Hl _). intros b' Hb'. apply Hb'.
  - apply IH2; [|exact (IH1 Hok Hd)]. apply (merges_Forall _ l1); [|exact Hm1|exact Hok].
    intros b c Hb Hc. apply merged_block_ok; assumption.
Qed.

Lemma merges_weights l l' : merges l l' -> weights l = weights l'.
Proof.
  induction 1 as [l l' Hp|b c l E|b l l' _ IH|l1 l2 l3 _ IH1 _ IH2]; simpl; try lia.
  - induction Hp; simpl; lia.
  - unfold weight. cbn [snd]. lia.
Qed.

Lemma join_cons b l : exists b3 l3, join b l = b3 :: l3 /\ fst b3 = fst b.
Proof. destruct l as [|c l]; simpl; [eauto|]. destruct (b_end b =? fst c); eauto. Qed.

(** [b] inserted in a list: what follows a block that [b] does not touch. *)
Definition fl_insert (b : block) (fl : list block) : list block :=
  match fl with
  | [] => [b]
  | c :: fl' => if fst b <? fst c then join b fl else fl_insert_after c b fl'
  end.

Lemma insert_after_head qb b fl :
  b_end qb <> fst b -> fl_insert_after qb b fl = qb :: fl_insert b fl.
Proof.
  intros Hne. destruct fl as [|c fl]; cbn [fl_insert_after fl_insert].
  - simpl. rewrite (proj2 (Z.eqb_neq _ _)) by exact Hne. reflexivity.
  - destruct (fst b <? fst c); [|reflexivity].
    destruct (join_cons b (c :: fl)) as (b3 & l3 & -> & Hh).
    cbn [join]. rewrite (proj2 (Z.eqb_neq _ _)) by congruence. reflexivity.
Qed.

Lemma insert_merges b fl : merges (b :: fl) (fl_insert b fl).
Proof.
  destruct fl as [|c fl]; cbn [fl_insert]; [apply merges_refl|].
  destruct (fst b <? fst c); [apply join_merges|].
  eapply M_trans; [|apply insert_after_merges]. apply M_perm. constructor.
Qed.

(** ** Blocks in address order that do not touch *)

Fixpoint fl_apart (lo : Z) (fl : list block) : Prop :=
  match fl with
  | [] => True
  | b :: fl => lo < fst b /\ fl_apart (b_end b) fl
  end.

Lemma fl_apart_mono lo lo' fl : lo' <= lo -> fl_apart lo fl -> fl_apart lo' fl.
Proof. destruct fl; simpl; [auto|]. intros Hle [H1 H2]. split; [lia|exact H2]. Qed.

Lemma carve_apart m b ahp pages lo post :
  block_ok m b -> fit pages b ahp -> lo < fst b -> fl_apart (b_end b) post ->
  fl_apart lo (carve b ahp pages ++ post).
Proof.
  intros (H1 & H2 & H3 & H4 & _) (F1 & F2 & F3 & F4 & F5) Hlo Hpost.
  destruct b as [a n]. unfold carve. cbn [fst snd] in *.
  pose proof (Z_div_mod_eq_full (b_end (a, n) - (ahp + 8)) 8).
  pose proof (Z_div_mod_eq_full a 8). pose proof (Z_div_mod_eq_full ahp 8).
  assert (E1 : (ahp - a - 8) / 8 = ahp / 8 - a / 8 - 1).
  { replace (ahp - a - 8) with ((ahp / 8 - a / 8 - 1) * 8) by lia. apply Z_div_mult_full. lia. }
  rewrite E1.
  assert (Hend : forall x, x = b_end (a, n) -> fl_apart x post) by (intros x ->; exact Hpost).
  destruct (Z.ltb_spec a ahp); destruct (Z.ltb_spec pages ((b_end (a, n) - (ahp + 8)) / 8));
    simpl; unfold b_end in *; cbn [fst snd] in *; split_and?; try lia.
  - apply Hend. lia.
  - apply (fl_apart_mono (a + 8 + 8 * n)); [lia|exact Hpost].
  - apply Hend. lia.
  - apply (fl_apart_mono (a + 8 + 8 * n)); [lia|exact Hpost].
Qed.

Lemma carve_apart_app m pre b ahp pages post : forall lo,
  block_ok m b -> fit pages b ahp -> fl_apart lo (pre ++ b :: post) ->
  fl_apart lo (pre ++ carve b ahp pages ++ post).
Proof.
  induction pre as [|c pre IH]; intros lo Hb Hf; simpl.
  - intros [Hlo Hpost]. apply (carve_apart m); assumption.
  - intros [Hlo Hrest]. split; [exact Hlo|]. apply IH; assumption.
Qed.

(** Inserting keeps the order. *)
Lemma join_apart lo b fl :
  lo < fst b -> Forall (disj b) fl -> match fl with [] => True | c :: _ => fst b < fst c end ->
  0 <= snd b -> Forall (fun c => 0 <= snd c) fl -> fl_apart lo fl -> fl_apart lo (join b fl).
Proof.
  intros Hlo Hd Hlt Hn Hns. destruct fl as [|c fl]; simpl; [auto|]. intros [Hc Hfl].
  inversion_clear Hd as [|? ? Hdc _]. inversion_clear Hns as [|? ? Hnc _].
  destruct (Z.eqb_spec (b_end b) (fst c)) as [E|E]; simpl.
  - split; [exact Hlo|]. refine (fl_apart_mono (b_end c) _ _ _ Hfl). unfold b_end in *. cbn [fst snd]. lia.
  - split_and!; auto. unfold disj, b_end in *. lia.
Qed.

Lemma insert_after_apart b fl : forall lo qb,
  lo < fst qb -> b_end qb <= fst b -> 0 <= snd b -> 0 <= snd qb -> Forall (disj b) fl ->
  Forall (fun c => 0 <= snd c) fl -> fl_apart (b_end qb) fl -> fl_apart lo (fl_insert_after qb b fl).
Proof.
  induction fl as [|c fl IH]; intros lo qb Hlo Hqb Hn Hnq Hd Hns Hap; cbn [fl_insert_after].
  - simpl. destruct (Z.eqb_spec (b_end qb) (fst b)); simpl; split_and!; auto. lia.
  - inversion_clear Hd as [|? ? Hdc Hd']. inversion_clear Hns as [|? ? Hnc Hns'].
    destruct (Z.ltb_spec (fst b) (fst c)) as [Hlt|Hge].
    + destruct (Z.eq_dec (b_end qb) (fst b)) as [E|E].
      * assert (Hj : fl_apart (fst b - 1) (join b (c :: fl))).
        { apply join_apart; auto; [lia|]. destruct Hap as [Hc Hfl]. split; [lia|exact Hfl]. }
        destruct (join_cons b (c :: fl)) as (b3 & l3 & Ej & Hh). rewrite Ej in *.
        cbn [join]. rewrite (proj2 (Z.eqb_eq _ _)) by congruence. destruct Hj as [_ Hj].
        split; [exact Hlo|]. refine (fl_apart_mono (b_end b3) _ _ _ Hj).
        unfold b_end in *. cbn [fst snd]. lia.
      * assert (Hj : fl_apart (b_end qb) (join b (c :: fl))) by (apply join_apart; auto; lia).
        destruct (join_cons b (c :: fl)) as (b3 & l3 & Ej & Hh). rewrite Ej in *.
        cbn [join]. rewrite (proj2 (Z.eqb_neq _ _)) by congruence. split; [exact Hlo|exact Hj].
    + destruct Hap as [Hc Hfl]. split; [exact Hlo|]. apply IH; auto.
      unfold disj, b_end in *. lia.
Qed.

Lemma insert_apart b fl :
  0 < fst b -> 0 <= snd b -> Forall (disj b) fl -> Forall (fun c => 0 <= snd c) fl ->
  fl_apart 0 fl -> fl_apart 0 (fl_insert b fl).
Proof.
  intros Hpos Hn Hd Hns Hap. destruct fl as [|c fl]; cbn [fl_insert]; [simpl; auto|].
  inversion_clear Hd as [|? ? Hdc Hd']. inversion_clear Hns as [|? ? Hnc Hns'].
  destruct (Z.ltb_spec (fst b) (fst c)) as [Hlt|Hge].
  - apply join_apart; auto.
  - destruct Hap as [Hc Hfl]. apply insert_after_apart; auto. unfold disj, b_end in *. lia.
Qed.

(** ** Releasing what has just been allocated *)

Lemma join_touch b c l : b_end b = fst c -> join b (c :: l) = (fst b, snd b + snd c + 1) :: l.
Proof. intros E. cbn [join]. rewrite (proj2 (Z.eqb_eq _ _)) by exact E. reflexivity. Qed.

Lemma join_apart_cons b c l : b_end b < fst c -> join b (c :: l) = b :: c :: l.
Proof. intros E. cbn [join]. rewrite (proj2 (Z.eqb_neq _ _)) by lia. reflexivity. Qed.

Lemma join_before b l : fl_apart (b_end b) l -> join b l = b :: l.
Proof. destruct l as [|c l]; [reflexivity|]. intros [H _]. apply join_apart_cons. exact H. Qed.

(** [b] put behind [qb] in front of a list it does not reach behind. *)
Lemma insert_before qb b l :
  match l with [] => True | c :: _ => fst b < fst c end -> fl_insert_after qb b l = join qb (join b l).
Proof. destruct l as [|c l]; cbn [fl_insert_after]; [reflexivity|]. intros H. rewrite (proj2 (Z.ltb_lt _ _)) by exact H. reflexivity. Qed.

(** Refilling a carved block, behind any block that does not touch it. *)
Lemma refill m b ahp pages qb post :
  block_ok m b -> fit pages b ahp -> b_end qb < fst b -> fl_apart (b_end b) post ->
  fl_insert_after qb (ahp, pages) (carve b ahp pages ++ post) = qb :: b :: post.
Proof.
  intros (H1 & H2 & H3 & H4 & _) (F1 & F2 & F3 & F4 & F5) Hq Hpost.
  destruct b as [a n]. unfold carve. cbn [fst snd] in *.
  pose proof (Z_div_mod_eq_full (b_end (a, n) - (ahp + 8)) 8) as Hbp.
  pose proof (Z_div_mod_eq_full a 8). pose proof (Z_div_mod_eq_full ahp 8).
  set (bp := (b_end (a, n) - (ahp + 8)) / 8) in *.
  assert (E1 : (ahp - a - 8) / 8 = ahp / 8 - a / 8 - 1).
  { replace (ahp - a - 8) with ((ahp / 8 - a / 8 - 1) * 8) by lia. apply Z_div_mult_full. lia. }
  rewrite E1. set (n1 := ahp / 8 - a / 8 - 1) in *.
  unfold b_end in F3, F4, Hbp, H4. cbn [fst snd] in *.
  (* the data with what follows it is one block up to the end of [b] *)
  set (rest := if pages <? bp then [(ahp + 8 + 8 * pages, bp - pages - 1)] else []).
  assert (Hrest : join (ahp, pages) (rest ++ post) = (ahp, bp) :: post /\
                  match rest ++ post with [] => True | c :: _ => ahp < fst c end).
  { unfold rest. destruct (Z.ltb_spec pages bp); cbn [app].
    - rewrite join_touch by reflexivity. cbn [fst snd]. split; [do 2 f_equal; lia|lia].
    - assert (pages = bp) as -> by lia. assert (Hp : fl_apart (b_end (ahp, bp)) post).
      { refine (fl_apart_mono (b_end (a, n)) _ _ _ Hpost). unfold b_end. cbn [fst snd]. lia. }
      rewrite join_before by exact Hp. split; [reflexivity|]. destruct post; [exact Logic.I|].
      destruct Hp as [Hp _]. unfold b_end in Hp. cbn [fst snd] in Hp. lia. }
  destruct Hrest as [Hj Hlt]. destruct (Z.ltb_spec a ahp) as [Ha|Ha]; cbn [app].
  - fold rest. cbn [fl_insert_after fst]. rewrite (proj2 (Z.ltb_ge ahp a)) by lia.
    rewrite insert_before by exact Hlt. rewrite Hj. rewrite join_touch by (unfold b_end; cbn [fst snd]; lia).
    cbn [fst snd]. do 3 f_equal. lia.
  - fold rest. rewrite insert_before by exact Hlt. rewrite Hj.
    rewrite join_apart_cons by (cbn [fst]; lia). do 3 f_equal; lia.
Qed.

Lemma alloc_insert m pages k : forall fl qb fl' ahp,
  Forall (block_ok m) fl -> 3 <= k < 32 -> 0 <= pages -> fl_apart (b_end qb) fl ->
  fl_alloc pages (2 ^ k) fl = Some (fl', ahp) ->
  fl_insert_after qb (ahp, pages) fl' = qb :: fl /\ (forall lo, fl_apart lo fl -> lo < ahp).
Proof.
  induction fl as [|b fl IH]; intros qb fl' ahp Hok Hk Hp Hap Ea; simpl in Ea; [discriminate|].
  inversion_clear Hok as [|? ? Hb Hok']. destruct Hap as [Hq Hap].
  destruct (fits pages (2 ^ k) b) eqn:Ef.
  - injection Ea as <- <-. destruct (fits_fit pages k b m Hb Hk Hp Ef) as [Hfit _].
    split; [apply (refill m); assumption|]. intros lo [Hlo _]. destruct Hfit. lia.
  - destruct (fl_alloc pages (2 ^ k) fl) as [[fl1 ahp1]|] eqn:Ea1; simpl in Ea; [|discriminate].
    injection Ea as <- <-. destruct (IH b fl1 ahp1 Hok' Hk Hp Hap eq_refl) as [E Hlt].
    specialize (Hlt _ Hap). destruct Hb as (_ & _ & Hn & _). unfold b_end in Hlt.
    split; [|intros lo [Hlo _]; lia]. cbn [fl_insert_after fst].
    rewrite (proj2 (Z.ltb_ge _ _)) by lia. rewrite E. reflexivity.
Qed.
