(* ===== verification/HeapInv.v ===== *)
(** * The heap allocator is safe

    The invariant of a heap: its free list is in address order without touching
    blocks, free and allocated blocks and the heap's own header share no byte,
    and every allocated block's header names the heap and the requested size.
    Allocation and release keep it, for heaps in a buffer and for the default
    heap that grows from the core memory. *)

From stdpp Require Import gmap sorting.
From S2P Require Import Prelude CInt Memcore Heap HeapSpec.
#[local] Open Scope Z_scope.

(** The allocated blocks are known by header address and requested size. *)
Definition u_block (u : Z * Z) : block := (fst u, data_pages (snd u)).

(** The header of the descriptor, with the word of the descriptor behind it. *)
Definition header_block (h : Z) : block := (h, 1).

(** The block shares no byte with the core memory. *)
Definition outside_core (core : memcore_t) (b : block) : Prop :=
  b_end b <= basemem core \/ topmem core <= fst b \/ topmem core <= basemem core.

(** The block lies in the heap's own buffer. *)
Definition in_area (area : memory_area_t) (b : block) : Prop :=
  area_base area <= fst b /\ b_end b <= area_base area + area_size area.

Record heap_inv (heapp : memory_heap_t) (st : heap_state) (fl : list block) (us : list (Z * Z)) : Prop := {
  hi_chain : chainto (h_mem st) ((hp_header heapp, 0) :: fl) 0;
  hi_placed : placed (h_mem st) (fl ++ (u_block <$> us));
  hi_header : Forall (disj (header_block (hp_header heapp))) (fl ++ (u_block <$> us)) /\
              0 < hp_header heapp /\ hp_header heapp + 16 < 2 ^ 32;
  hi_used : Forall (fun u => h_mem st !! fst u = Some (hp_header heapp, snd u) /\ 0 < snd u < 2 ^ 32) us;
  hi_apart : fl_apart 0 fl;
  hi_core : hp_provider heapp = true ->
    core_ok (h_core st) /\ slots (h_mem st) (basemem (h_core st)) (topmem (h_core st)) /\
    Forall (outside_core (h_core st)) (header_block (hp_header heapp) :: fl ++ (u_block <$> us));
  hi_area : hp_provider heapp = false -> Forall (in_area (hp_area heapp)) (fl ++ (u_block <$> us))
}.

(** What a request must satisfy: nonzero size, alignment a power of two, and for
    a heap that grows from the core memory no wrap of the addresses. *)
Definition heap_req (heapp : memory_heap_t) (st : heap_state) (size k : Z) : Prop :=
  0 < size < 2 ^ 32 /\ 0 <= k < 32 /\
  (hp_provider heapp = true -> topmem (h_core st) + size + 2 ^ k + 32 < 2 ^ 32).

(** ** Sizes in pages *)

Lemma data_pages_bounds size :
  0 < size < 2 ^ 32 ->
  0 <= data_pages size < 2 ^ 29 /\
  (size <= 2 ^ 32 - 8 -> size <= 8 * data_pages size < size + 8) /\
  (2 ^ 32 - 8 < size -> data_pages size = 0).
Proof.
  intros Hs. unfold data_pages, CH_HEAP_ALIGNMENT.
  replace (MEM_ALIGN_NEXT size 8) with (MEM_ALIGN_NEXT size (2 ^ 3)) by reflexivity.
  destruct (Z_le_gt_dec size (2 ^ 32 - 8)) as [Hle|Hgt].
  - destruct (align_next_value size 3) as (d & -> & Hd & Hm); [lia|lia|lia|].
    change (2 ^ 3) with 8 in *. pose proof (Z_div_mod_eq_full (size + d) 8). lia.
  - assert (E : MEM_ALIGN_NEXT size (2 ^ 3) = 0).
    { unfold MEM_ALIGN_NEXT, MEM_ALIGN_MASK. rewrite (u32_small (2 ^ 3 - 1)), (u32_small size) by lia.
      rewrite align_prev_u32 by lia. change (2 ^ 3) with 8. change (2 ^ 32) with 4294967296 in *.
      rewrite (u32_wrap (size + (8 - 1))) by (change (2 ^ 32) with 4294967296; change (2 ^ 33) with 8589934592; lia).
      change (2 ^ 32) with 4294967296. rewrite Z.mod_small by lia. lia. }
    change (2 ^ 3) with 8 in *. rewrite E. rewrite Z.div_0_l by lia. lia.
Qed.

Lemma min_alignment k :
  0 <= k < 32 -> (if 2 ^ k <? CH_HEAP_ALIGNMENT then CH_HEAP_ALIGNMENT else 2 ^ k) = 2 ^ Z.max k 3.
Proof.
  intros Hk. unfold CH_HEAP_ALIGNMENT. destruct (Z.ltb_spec (2 ^ k) 8) as [Hlt|Hge].
  - change 8 with (2 ^ 3) in Hlt. apply Z.pow_lt_mono_r_iff in Hlt; [|lia|lia].
    rewrite Z.max_r by lia. reflexivity.
  - change 8 with (2 ^ 3) in Hge. apply Z.pow_le_mono_r_iff in Hge; [|lia|lia].
    rewrite Z.max_l by lia. reflexivity.
Qed.

(** Alignment to more than asked for. *)
Lemma mod_pow_le p j k : 0 <= j <= k -> p mod 2 ^ k = 0 -> p mod 2 ^ j = 0.
Proof.
  intros Hj H. assert (0 < 2 ^ j) by (apply Z.pow_pos_nonneg; lia).
  assert (0 < 2 ^ k) by (apply Z.pow_pos_nonneg; lia).
  apply Z.mod_divide in H as [z Hz]; [|lia]. apply Z.mod_divide; [lia|].
  exists (z * 2 ^ (k - j)). rewrite Hz. replace k with (k - j + j) at 1 by lia. rewrite Z.pow_add_r by lia. lia.
Qed.

(** ** Fuel *)

Lemma placed_nodup m bs : placed m bs -> NoDup (bs.*1).
Proof.
  intros [Hok Hd]. induction bs as [|b bs IH]; [constructor|].
  inversion_clear Hok as [|? ? Hb Hok']. inversion_clear Hd as [|? ? Hdb Hd'].
  rewrite fmap_cons. constructor; [|apply IH; assumption].
  intros Hin. apply list_elem_of_fmap in Hin as (c & Ec & Hc).
  rewrite Forall_forall in Hdb, Hok'. specialize (Hdb _ Hc). specialize (Hok' _ Hc).
  destruct Hb as (_ & _ & Hn & _). destruct Hok' as (_ & _ & Hn' & _). unfold disj, b_end in *. lia.
Qed.

Lemma nodup_size (m : heap_mem) (ks : list Z) :
  NoDup ks -> (forall k, k ∈ ks -> is_Some (m !! k)) -> (length ks <= size m)%nat.
Proof.
  intros Hnd Hin. rewrite <- (size_dom m), <- (size_list_to_set (C := gset Z) ks) by exact Hnd.
  apply subseteq_size. intros k Hk. apply elem_of_list_to_set in Hk. apply elem_of_dom. auto.
Qed.

Lemma placed_fuel m bs : placed m bs -> (length bs < S (size m))%nat.
Proof.
  intros H. pose proof (placed_nodup _ _ H) as Hnd. rewrite <- (length_fmap fst bs).
  apply Nat.lt_succ_r, nodup_size; [exact Hnd|].
  intros k Hk. apply list_elem_of_fmap in Hk as (b & -> & Hb). destruct H as [Hok _].
  rewrite Forall_forall in Hok. exact (block_ok_header m b (Hok _ Hb)).
Qed.

Lemma placed_app_l m l r : placed m (l ++ r) -> placed m l.
Proof. intros [Hok Hd]. apply Forall_app in Hok as [Hok _]. apply all_disj_app in Hd as [Hd _]. split; assumption. Qed.

Lemma header_disj0 h bs : Forall (disj (header_block h)) bs -> Forall (disj (h, 0)) bs.
Proof.
  intros H. refine (Forall_impl _ _ _ H _). intros b Hb. unfold disj, header_block, b_end in *. cbn [fst snd] in *. lia.
Qed.

Lemma placed_nonneg m bs : placed m bs -> Forall (fun b => 0 <= snd b) bs.
Proof. intros [Hok _]. refine (Forall_impl _ _ _ Hok _). intros b Hb. apply Hb. Qed.

(** ** Allocation from the free list *)

Lemma placed_same m m' bs : same_slots m m' -> placed m bs -> placed m' bs.
Proof.
  intros Hs [Hok Hd]. split; [|exact Hd]. refine (Forall_impl _ _ _ Hok _). intros b. apply block_ok_same. exact Hs.
Qed.

(** Replacing a block by blocks carved out of it. *)
Lemma placed_carve m b ahp pages rest :
  placed m (b :: rest) -> fit pages b ahp -> placed m (((ahp, pages) :: carve b ahp pages) ++ rest).
Proof.
  intros [Hok Hd] Hfit. inversion_clear Hok as [|? ? Hb Hrest].
  destruct (carve_ok m b ahp pages Hb Hfit) as (Hin & Hdn & _). split.
  - apply Forall_app. split; [|exact Hrest]. refine (Forall_impl _ _ _ Hin _).
    intros b' (Hn & Hi & Ha). exact (block_ok_inside m b b' Hb Hi Hn Ha).
  - apply (all_disj_carve b); [exact Hd| |exact Hdn]. refine (Forall_impl _ _ _ Hin _). tauto.
Qed.

(** What holds of a block holds of what is carved out of it. *)
Lemma Forall_carve (P : block -> Prop) m b ahp pages rest :
  (forall b' , 0 <= snd b' -> inside b' b -> P b -> P b') ->
  block_ok m b -> fit pages b ahp -> Forall P (b :: rest) ->
  Forall P (((ahp, pages) :: carve b ahp pages) ++ rest).
Proof.
  intros HP Hb Hfit H. inversion_clear H as [|? ? Hpb Hrest].
  destruct (carve_ok m b ahp pages Hb Hfit) as (Hin & _ & _).
  apply Forall_app. split; [|exact Hrest]. refine (Forall_impl _ _ _ Hin _).
  intros b' (Hn & Hi & _). exact (HP b' Hn Hi Hpb).
Qed.

Lemma alloc_perm (pre post : list block) b ahp pages (U : list block) :
  ((ahp, pages) :: carve b ahp pages) ++ (pre ++ post ++ U) ≡ₚ
  (pre ++ carve b ahp pages ++ post) ++ (ahp, pages) :: U.
Proof. cbn [app]. rewrite <- Permutation_middle. constructor. rewrite <- !app_assoc. apply Permutation_app_swap_app. Qed.

Lemma heap_alloc_list heapp st fl us size k fl' ahp :
  heap_inv heapp st fl us -> heap_req heapp st size k ->
  fl_alloc (data_pages size) (2 ^ Z.max k 3) fl = Some (fl', ahp) ->
  exists st', chHeapAllocAligned heapp size (2 ^ k) st = Some (st', ahp + 8) /\
    h_core st' = h_core st /\ heap_inv heapp st' fl' ((ahp, size) :: us) /\
    (ahp + 8) mod 2 ^ k = 0 /\ weights fl = weights fl' + data_pages size + 1.
Proof.
  intros [Hch Hpl (Hhd & Hh0 & Hh1) Hus Hap Hcore Harea] (Hs & Hk & Hnw) Ea.
  destruct (data_pages_bounds size Hs) as (Hp & _ & _).
  set (h := hp_header heapp) in *. set (m := h_mem st) in *.
  pose proof (placed_app_l _ _ _ Hpl) as Hplf.
  pose proof (heap_find_spec (data_pages size) (2 ^ Z.max k 3) m fl (S (base.size m)) (h, 0)
    (placed_fuel _ _ Hplf) Hch (proj1 Hplf)) as Hfind.
  rewrite Ea in Hfind. destruct Hfind as (pre & b & post & l & qb & Efl & Efl' & Eahp & Efit & Eq & Efind).
  assert (Hb : block_ok m b).
  { destruct Hplf as [Hok _]. rewrite Efl in Hok. apply Forall_app in Hok as [_ Hok]. inversion_clear Hok. assumption. }
  destruct (fits_fit (data_pages size) (Z.max k 3) b m Hb) as [Hfit Halign]; [lia|lia|exact Efit|].
  rewrite <- Eahp in Hfit, Halign.
  assert (Hnodes : l ++ [qb] ++ b :: post = (h, 0) :: fl) by (rewrite app_assoc, <- Eq, Efl; reflexivity).
  destruct (heap_cut_spec m h l qb b post ahp (data_pages size) size) as (m' & Ecut & Hsame & Hch' & Hhdr & Hframe).
  - rewrite Hnodes. exact Hch.
  - rewrite Hnodes. constructor; [|apply Hplf]. apply header_disj0. apply Forall_app in Hhd as [Hhd _]. exact Hhd.
  - rewrite Hnodes. constructor; [simpl; lia|exact (placed_nonneg _ _ Hplf)].
  - exact Hb.
  - exact Hfit.
  - rewrite Hnodes in Hframe.
    assert (Hch2 : chainto m' ((h, 0) :: fl') 0).
    { rewrite Efl'. change ((h, 0) :: pre ++ carve b ahp (data_pages size) ++ post)
        with (((h, 0) :: pre) ++ carve b ahp (data_pages size) ++ post).
      rewrite Eq, <- app_assoc. exact Hch'. }
    assert (Eperm : fl ++ (u_block <$> us) ≡ₚ b :: (pre ++ post ++ (u_block <$> us))).
    { rewrite Efl, <- app_assoc. cbn [app]. symmetry. apply Permutation_middle. }
    assert (Eperm' : fl' ++ (u_block <$> (ahp, size) :: us) ≡ₚ
      ((ahp, data_pages size) :: carve b ahp (data_pages size)) ++ (pre ++ post ++ (u_block <$> us))).
    { rewrite Efl', alloc_perm. reflexivity. }
    exists (HeapState m' (h_core st)). split; [|split; [reflexivity|split; [split|split]]].
    + unfold chHeapAllocAligned. fold m h.
      rewrite check_true by (rewrite andb_true_iff, Z.ltb_lt; split; [lia|apply valid_alignment_pow; exact Hk]).
      cbn [mbind option_bind]. rewrite min_alignment by exact Hk. fold (data_pages size).
      change (fst (h, 0)) with h in Efind. rewrite Efind. cbn [mbind option_bind].
      rewrite Ecut. reflexivity.
    + exact Hch2.
    + cbn [h_mem]. apply (placed_same m); [exact Hsame|]. destruct Hpl as [Hok Hd].
      assert (Hpl2 : placed m (b :: pre ++ post ++ (u_block <$> us))).
      { split; [rewrite <- Eperm; exact Hok|rewrite <- Eperm; exact Hd]. }
      destruct (placed_carve _ _ _ _ _ Hpl2 Hfit) as [Hok2 Hd2].
      split; [rewrite Eperm'; exact Hok2|rewrite Eperm'; exact Hd2].
    + split; [|split; assumption]. rewrite Eperm'. apply (Forall_carve _ m); [|exact Hb|exact Hfit|rewrite <- Eperm; exact Hhd].
      intros b' Hn Hi Hd. symmetry. symmetry in Hd. exact (inside_disj _ _ _ Hn Hi Hd).
    + cbn [h_mem]. constructor; [split; [exact Hhdr|exact Hs]|].
      rewrite Forall_forall in *. intros u Hu. destruct (Hus _ Hu) as [Hu1 Hu2]. split; [|exact Hu2].
      rewrite Hframe; [exact Hu1|].
      assert (Hin : u_block u ∈ u_block <$> us) by (apply list_elem_of_fmap; eauto).
      destruct (data_pages_bounds _ Hu2) as (Hpu & _).
      apply (disj_not_covered (u_block u)); cbn [u_block snd fst]; try lia.
      * constructor; [simpl; lia|exact (placed_nonneg _ _ Hplf)].
      * destruct Hpl as [_ Hd]. apply all_disj_app in Hd as (_ & _ & Hd). constructor.
        -- symmetry. assert (Hx : Forall (disj (h, 0)) (u_block <$> us)).
           { apply header_disj0, Forall_forall. intros x Hx. apply Hhd, elem_of_app. auto. }
           rewrite Forall_forall in Hx. exact (Hx _ Hin).
        -- refine (Forall_impl _ _ _ Hd _). intros b' Hb'. symmetry. rewrite Forall_forall in Hb'. exact (Hb' _ Hin).
      * unfold b_end, u_block. cbn [fst snd]. lia.
    + rewrite Efl'. apply (carve_apart_app m); [exact Hb|exact Hfit|]. rewrite <- Efl. exact Hap.
    + intros Hprov. destruct (Hcore Hprov) as (Hc1 & Hc2 & Hc3). cbn [h_core h_mem]. split_and!; [exact Hc1| |].
      * intros x Hx Hx8. apply Hsame. auto.
      * inversion_clear Hc3 as [|? ? Hc4 Hc5]. constructor; [exact Hc4|]. rewrite Eperm'.
        apply (Forall_carve _ m); [|exact Hb|exact Hfit|rewrite <- Eperm; exact Hc5].
        intros b' Hn [Hi1 Hi2] Hd. unfold outside_core, b_end in *. lia.
    + intros Hprov. cbn [h_mem]. rewrite Eperm'.
      apply (Forall_carve _ m); [|exact Hb|exact Hfit|rewrite <- Eperm; exact (Harea Hprov)].
      intros b' Hn [Hi1 Hi2] Hd. unfold in_area, b_end in *. lia.
    + apply (mod_pow_le _ k (Z.max k 3)); [lia|exact Halign].
    + destruct (carve_ok m b ahp (data_pages size) Hb Hfit) as (_ & _ & Hw).
      rewrite Efl', Efl, !weights_app. simpl in *. unfold weight in *. cbn [snd] in *. lia.
Qed.

(** ** Allocation from the core memory *)

Lemma pow_max_le k : 0 <= k -> 2 ^ Z.max k 3 <= 2 ^ k + 7.
Proof.
  intros Hk. destruct (Z_le_gt_dec k 3) as [Hle|Hgt].
  - rewrite Z.max_r by lia. pose proof (Z.pow_pos_nonneg 2 k). change (2 ^ 3) with 8. lia.
  - rewrite Z.max_l by lia. lia.
Qed.

Lemma heap_alloc_grow heapp st fl us size k :
  heap_inv heapp st fl us -> heap_req heapp st size k ->
  fl_alloc (data_pages size) (2 ^ Z.max k 3) fl = None ->
  chHeapAllocAligned heapp size (2 ^ k) st = Some (st, 0) \/
  exists st' p, chHeapAllocAligned heapp size (2 ^ k) st = Some (st', p) /\ hp_provider heapp = true /\
    0 < p /\ p mod 2 ^ k = 0 /\ topmem (h_core st') <= topmem (h_core st) /\
    heap_inv heapp st' fl ((p - 8, size) :: us).
Proof.
  intros Hinv (Hs & Hk & Hnw) Ea. pose proof Hinv as [Hch Hpl (Hhd & Hh0 & Hh1) Hus Hap Hcore _].
  destruct (data_pages_bounds size Hs) as (Hp & Hsz & _).
  set (h := hp_header heapp) in *. set (m := h_mem st) in *.
  pose proof (placed_app_l _ _ _ Hpl) as Hplf.
  pose proof (heap_find_spec (data_pages size) (2 ^ Z.max k 3) m fl (S (base.size m)) (h, 0)
    (placed_fuel _ _ Hplf) Hch (proj1 Hplf)) as Hfind.
  rewrite Ea in Hfind. change (fst (h, 0)) with h in Hfind.
  unfold chHeapAllocAligned. fold m h.
  rewrite check_true by (rewrite andb_true_iff, Z.ltb_lt; split; [lia|apply valid_alignment_pow; exact Hk]).
  cbn [mbind option_bind]. rewrite min_alignment by exact Hk. fold (data_pages size).
  rewrite Hfind. cbn [mbind option_bind].
  destruct (hp_provider heapp) eqn:Eprov; [|left; destruct st; reflexivity].
  destruct (Hcore eq_refl) as (Hc1 & Hc2 & Hc3). specialize (Hnw eq_refl).
  pose proof (pow_max_le k ltac:(lia)) as Hmax. assert (0 < 2 ^ k) by (apply Z.pow_pos_nonneg; lia).
  assert (Htop : 0 < topmem (h_core st)) by (destruct Hc1; lia).
  specialize (Hsz ltac:(lia)). unfold CH_HEAP_ALIGNMENT, sizeof_header.
  rewrite u32_small by lia. unfold chCoreAllocAlignedWithOffset, chCoreAllocFromTop.
  destruct (core_top_spec (data_pages size * 8) (Z.max k 3) 8 (h_core st) Hc1)
    as [[E _]|(p & core' & E & Hal & (Hlo & _ & Hcc) & Hle & Hok' & Hp0)].
  { unfold req_ok. split_and!; lia. }
  - left. rewrite E. cbn [mbind option_bind]. rewrite Z.eqb_refl. destruct st. reflexivity.
  - right. rewrite E. cbn [mbind option_bind]. rewrite (proj2 (Z.eqb_neq _ _)) by lia.
    assert (Hp8 : p mod 8 = 0) by (change 8 with (2 ^ 3); apply (mod_pow_le _ 3 (Z.max k 3)); [lia|exact Hal]).
    assert (Hq8 : (p - 8) mod 8 = 0).
    { replace (p - 8) with (p + (-1) * 8) by lia. rewrite Z_mod_plus_full. exact Hp8. }
    assert (Hslot : is_Some (m !! (p - 8))) by (apply Hc2; [lia|exact Hq8]). destruct Hslot as [w Hw].
    rewrite (set_word0_eq _ _ _ _ Hw). cbn [mbind option_bind].
    erewrite set_word1_eq; [|apply lookup_insert_eq]. cbn [mbind option_bind fst]. rewrite insert_insert_eq.
    set (m' := <[p - 8:=(h, size)]> m).
    assert (Hsame : same_slots m m') by (apply same_slots_insert; eauto).
    set (nb := u_block (p - 8, size)).
    assert (Hnb : b_end nb = p + data_pages size * 8) by (unfold nb, u_block, b_end; cbn [fst snd]; lia).
    assert (Hnb1 : fst nb = p - 8) by reflexivity. assert (Hnb2 : snd nb = data_pages size) by reflexivity.
    assert (Hout : Forall (disj nb) (header_block h :: fl ++ (u_block <$> us))).
    { refine (Forall_impl _ _ _ Hc3 _). intros b Hb. unfold outside_core, disj in *. lia. }
    assert (Hfr : forall b, 0 <= snd b -> disj nb b -> m' !! fst b = m !! fst b).
    { intros b Hn Hd. apply lookup_insert_ne. unfold disj, b_end in Hd. rewrite Hnb1, Hnb2 in Hd. lia. }
    inversion_clear Hout as [|? ? Hd1 Hd2]. apply Forall_app in Hd2 as [Hd2 Hd3].
    assert (Eperm : fl ++ (u_block <$> (p - 8, size) :: us) ≡ₚ nb :: (fl ++ (u_block <$> us))).
    { rewrite fmap_cons. symmetry. apply Permutation_middle. }
    eexists _, p. split; [reflexivity|]. split_and!; auto.
    { apply (mod_pow_le _ k (Z.max k 3)); [lia|exact Hal]. }
    { cbn [h_core]. destruct Hcc; lia. }
    pose proof (placed_nonneg _ _ Hpl) as Hnn. apply Forall_app in Hnn as [Hnn1 Hnn2].
    split; cbn [h_mem h_core]; fold h.
    + refine (chainto_frame m _ _ _ _ Hch). intros b Hb. apply elem_of_cons in Hb as [->|Hb].
      * apply (Hfr (h, 0)); [simpl; lia|]. unfold disj, header_block, b_end in *. cbn [fst snd] in *. lia.
      * rewrite Forall_forall in Hnn1, Hd2. apply Hfr; auto.
    + assert (Hpl2 : placed m' (nb :: fl ++ (u_block <$> us))).
      { destruct (placed_same _ _ _ Hsame Hpl) as [Hok Hd]. split.
        - constructor; [|exact Hok]. unfold block_ok. rewrite Hnb, Hnb1, Hnb2. destruct Hc1 as [Hc1a Hc1b].
          split_and!; try lia; try exact Hq8. intros x Hx Hx8. apply Hsame, Hc2; [lia|exact Hx8].
        - constructor; [apply Forall_app; auto|exact Hd]. }
      destruct Hpl2 as [Hok Hd]. split; [rewrite Eperm; exact Hok|rewrite Eperm; exact Hd].
    + split; [|split; assumption]. rewrite Eperm. constructor; [symmetry; exact Hd1|exact Hhd].
    + constructor; [split; [apply lookup_insert_eq|exact Hs]|].
      rewrite Forall_forall in *. intros u Hu. destruct (Hus _ Hu) as [Hu1 Hu2]. split; [|exact Hu2].
      assert (Hin : u_block u ∈ u_block <$> us) by (apply list_elem_of_fmap; eauto).
      rewrite <- Hu1. apply (Hfr (u_block u)); auto.
    + exact Hap.
    + intros _. split_and!; [exact Hok'| |].
      * intros x Hx Hx8. apply Hsame, Hc2; [|exact Hx8]. destruct Hcc; lia.
      * inversion_clear Hc3 as [|? ? Hc4 Hc5]. constructor.
        -- unfold outside_core in *. destruct Hcc; lia.
        -- rewrite Eperm. constructor; [unfold outside_core; destruct Hcc; lia|].
           refine (Forall_impl _ _ _ Hc5 _). intros b Hb. unfold outside_core in *. destruct Hcc; lia.
    + congruence.
Qed.

(** ** Release *)

(** The free list after the release of the block of [u]. *)
Definition fl_free (u : Z * Z) (fl : list block) : list block := fl_insert (u_block u) fl.

Lemma placed_perm m l l' : l ≡ₚ l' -> placed m l -> placed m l'.
Proof. intros Hp [Hok Hd]. split; rewrite <- Hp; assumption. Qed.

Lemma heap_free_list heapp st fl u us :
  heap_inv heapp st fl (u :: us) ->
  exists st', chHeapFree (fst u + 8) st = Some st' /\ h_core st' = h_core st /\
    heap_inv heapp st' (fl_free u fl) us /\
    weights (fl_free u fl) = weights fl + data_pages (snd u) + 1.
Proof.
  intros [Hch Hpl (Hhd & Hh0 & Hh1) Hus Hap Hcore Harea].
  set (h := hp_header heapp) in *. set (m := h_mem st) in *.
  inversion_clear Hus as [|? ? [Hum Hus1] Hus2]. rewrite fmap_cons in *.
  assert (Eperm : fl ++ u_block u :: (u_block <$> us) ≡ₚ (u_block u :: fl) ++ (u_block <$> us))
    by (symmetry; apply Permutation_middle).
  pose proof (placed_perm _ _ _ Eperm Hpl) as Hpl2. rewrite Eperm in Hhd.
  pose proof Hpl2 as [Hok2 Hd2]. pose proof (placed_app_l _ _ _ Hpl2) as Hplu.
  cbn [app] in Hok2, Hd2, Hhd. inversion_clear Hok2 as [|? ? Hub Hok3]. inversion_clear Hd2 as [|? ? Hud Hd3].
  inversion_clear Hhd as [|? ? Hhu Hhd'].
  destruct (data_pages_bounds _ Hus1) as (Hpu & _).
  assert (Ehead : fl_insert_after (h, 0) (u_block u) fl = (h, 0) :: fl_free u fl).
  { apply insert_after_head. unfold disj, header_block, u_block, b_end in *. cbn [fst snd] in *. lia. }
  pose proof (insert_merges (u_block u) fl) as Hmerge. fold (fl_free u fl) in Hmerge.
  unfold chHeapFree. pose proof Hub as (U1 & U2 & U3 & U4 & _). change (fst (u_block u)) with (fst u) in *.
  assert (Hu8 : (fst u + 8) mod 8 = 0) by (replace (fst u + 8) with (fst u + 1 * 8) by lia; rewrite Z_mod_plus_full; exact U2).
  assert (Hlt8 : fst u + 8 < 2 ^ 32) by (unfold b_end, u_block in *; cbn [fst snd] in *; lia).
  rewrite check_true.
  2:{ rewrite (proj2 (Z.eqb_neq _ _)) by lia. unfold CH_HEAP_ALIGNMENT.
      change 8 with (2 ^ 3) at 2. rewrite is_aligned_value by lia. cbn [negb andb]. apply Z.eqb_eq. exact Hu8. }
  cbn [mbind option_bind]. unfold sizeof_header. replace (fst u + 8 - 8) with (fst u) by lia.
  fold m. unfold H_USED_HEAP, H_USED_SIZE, H_FREE_NEXT, H_FREE_PAGES. rewrite Hum.
  cbn [fmap option_fmap option_map mbind option_bind fst snd].
  rewrite (set_word1_eq _ _ _ _ Hum). cbn [mbind option_bind fst]. fold (data_pages (snd u)).
  set (m1 := <[fst u:=(h, data_pages (snd u))]> m).
  assert (Hs1 : same_slots m m1) by (apply same_slots_insert; eauto).
  assert (Hflu : Forall (disj (u_block u)) ((h, 0) :: fl)).
  { apply Forall_app in Hud as [Hud _]. constructor; [|exact Hud].
    unfold disj, header_block, b_end in *. cbn [fst snd] in *. lia. }
  assert (Hnfl : Forall (fun b => 0 <= snd b) ((h, 0) :: fl)).
  { constructor; [simpl; lia|]. apply placed_nonneg in Hplu. inversion_clear Hplu. assumption. }
  assert (Hch1 : chainto m1 ((h, 0) :: fl) 0).
  { refine (chainto_frame m _ _ _ _ Hch). intros b Hb. apply lookup_insert_ne.
    rewrite Forall_forall in Hflu, Hnfl. specialize (Hflu _ Hb). specialize (Hnfl _ Hb).
    unfold disj, u_block, b_end in *. cbn [fst snd] in *. lia. }
  assert (Hbnd : Forall bounded fl).
  { destruct Hplu as [Hok _]. inversion_clear Hok as [|? ? _ Hokf]. refine (Forall_impl _ _ _ Hokf _).
    intros b (? & ? & ? & ? & _). unfold bounded. auto. }
  assert (Hndh : NoDup (((h, 0) :: fl).*1)).
  { rewrite fmap_cons. constructor.
    - intros Hin. apply list_elem_of_fmap in Hin as (b & Eb & Hb). apply Forall_app in Hhd' as [Hhf _].
      rewrite Forall_forall in Hhf, Hbnd. specialize (Hhf _ Hb). destruct (Hbnd _ Hb) as (? & ? & ?).
      unfold disj, header_block, b_end in *. cbn [fst snd] in *. lia.
    - apply placed_nodup in Hplu. rewrite fmap_cons in Hplu. inversion_clear Hplu. assumption. }
  assert (Hfuel : (length fl < S (base.size m1))%nat).
  { apply (placed_same _ _ _ Hs1), placed_fuel in Hplu. simpl in Hplu. lia. }
  destruct (heap_release_spec h (u_block u) h fl (S (base.size m1)) (h, 0) m1) as (m' & E & Hs' & Hch' & Hf');
    auto.
  { unfold m1, u_block. cbn [fst snd]. apply lookup_insert_eq. }
  { unfold bounded, u_block in *. cbn [fst snd] in *. auto. }
  { unfold bounded, b_end. cbn [fst snd]. lia. }
  change (fst (h, 0)) with h in E. change (fst (u_block u)) with (fst u) in E.
  rewrite E. cbn [mbind option_bind]. eexists. split; [reflexivity|]. split; [reflexivity|].
  rewrite Ehead in Hch'. pose proof (same_slots_trans _ _ _ Hs1 Hs') as Hsame.
  pose proof (merges_app_r _ _ (u_block <$> us) Hmerge) as Hmerge_us.
  split; [split; cbn [h_mem h_core]; fold h|].
  - exact Hch'.
  - apply (placed_same m); [exact Hsame|]. exact (merges_placed _ _ _ Hmerge_us Hpl2).
  - split; [|split; assumption].
    apply (merges_disj (header_block h) ((u_block u :: fl) ++ (u_block <$> us)));
      [simpl; lia|exact Hmerge_us|exact (placed_nonneg _ _ Hpl2)|constructor; assumption].
  - rewrite !Forall_forall in *. intros v Hv. destruct (Hus2 _ Hv) as [Hv1 Hv2]. split; [|exact Hv2].
    assert (Hin : u_block v ∈ u_block <$> us) by (apply list_elem_of_fmap; eauto).
    destruct (data_pages_bounds _ Hv2) as (Hpv & _).
    assert (Hvu : fst v <> fst u).
    { specialize (Hud (u_block v)). rewrite elem_of_app in Hud. specialize (Hud (or_intror Hin)).
      unfold disj, u_block, b_end in Hud. cbn [fst snd] in Hud. cbn [snd u_block] in U3. lia. }
    rewrite Hf'; [unfold m1; rewrite lookup_insert_ne by congruence; exact Hv1|exact Hvu|].
    intros Hin'. apply list_elem_of_fmap in Hin' as (b & Eb & Hb). apply elem_of_cons in Hb as [->|Hb].
    + specialize (Hhd' (u_block v)). rewrite elem_of_app in Hhd'. specialize (Hhd' (or_intror Hin)).
      unfold disj, header_block, u_block, b_end in Hhd'. cbn [fst snd] in *. lia.
    + apply all_disj_app in Hd3 as (_ & _ & Hd3). rewrite Forall_forall in Hd3. specialize (Hd3 _ Hb).
      rewrite Forall_forall in Hd3. specialize (Hd3 _ Hin). destruct (Hbnd _ Hb) as (Hb0 & _).
      unfold disj, u_block, b_end in Hd3. cbn [fst snd] in Hd3. lia.
  - apply insert_apart; [exact U1|exact U3| | |exact Hap].
    + inversion_clear Hflu. assumption.
    + inversion_clear Hnfl. assumption.
  - intros Hprov. destruct (Hcore Hprov) as (Hc1 & Hc2 & Hc3). split_and!; [exact Hc1| |].
    + intros y Hy Hy8. apply Hsame. auto.
    + inversion_clear Hc3 as [|? ? Hc4 Hc5]. constructor; [exact Hc4|].
      rewrite Eperm in Hc5. assert (Hcc : Forall (fun b => 0 <= snd b /\ outside_core (h_core st) b)
          (fl_free u fl ++ (u_block <$> us))).
      { refine (merges_Forall _ _ _ _ Hmerge_us _).
        - intros b c [Hb1 Hb2] [Hc6 Hc7] Ebc. unfold outside_core, b_end in *. cbn [fst snd]. lia.
        - apply Forall_and. split; [exact (placed_nonneg _ _ Hpl2)|exact Hc5]. }
      apply Forall_and in Hcc. apply Hcc.
  - intros Hprov. specialize (Harea Hprov). rewrite Eperm in Harea.
    refine (merges_Forall _ _ _ _ Hmerge_us Harea).
    intros b c [Hb1 Hb2] [Hc1 Hc2] Ebc. unfold in_area, b_end in *. cbn [fst snd]. lia.
  - rewrite <- (merges_weights _ _ Hmerge). change (weights (u_block u :: fl)) with (weight (u_block u) + weights fl).
    unfold weight, u_block. cbn [snd]. lia.
Qed.

(** ** Initialisation *)

Definition buffer_ok (header buf size : Z) (m : heap_mem) : Prop :=
  let hp := buf + (- buf) mod 8 in
  0 < buf /\ hp + 8 <= buf + size /\ buf + size < 2 ^ 32 /\
  slots m hp (buf + size) /\ is_Some (m !! header) /\ 0 < header /\ header + 16 < 2 ^ 32 /\
  (header + 16 <= buf \/ buf + size <= header).

Lemma chHeapObjectInit_inv header buf size st :
  buffer_ok header buf size (h_mem st) ->
  let hp := buf + (- buf) mod 8 in
  let pages := (buf + size - hp - 8) / 8 in
  exists st' heapp, chHeapObjectInit header buf size st = Some (st', heapp) /\
    hp_provider heapp = false /\ hp_header heapp = header /\ hp_area heapp = MemArea hp (8 * (pages + 1)) /\
    heap_inv heapp st' [(hp, pages)] [].
Proof.
  intros (B1 & B2 & B3 & B4 & [w Bw] & B5 & B6 & B7) hp pages. fold hp in B2, B4.
  pose proof (Z.mod_pos_bound (- buf) 8 ltac:(lia)) as Hmod.
  assert (Hhp8 : hp mod 8 = 0).
  { unfold hp. rewrite Zplus_mod_idemp_r. replace (buf + - buf) with 0 by lia. reflexivity. }
  assert (Ehp : MEM_ALIGN_NEXT buf CH_HEAP_ALIGNMENT = hp).
  { unfold CH_HEAP_ALIGNMENT. change 8 with (2 ^ 3).
    destruct (align_next_value buf 3) as (d & -> & Hd & Hm); [lia|lia|unfold hp in *; lia|].
    change (2 ^ 3) with 8 in *. unfold hp in *.
    pose proof (Z_div_mod_eq_full (buf + d) 8). pose proof (Z_div_mod_eq_full (buf + (- buf) mod 8) 8). lia. }
  assert (Hpg : 0 <= pages /\ hp + 8 + 8 * pages <= buf + size).
  { unfold pages. pose proof (Z_div_mod_eq_full (buf + size - hp - 8) 8).
    pose proof (Z.mod_pos_bound (buf + size - hp - 8) 8 ltac:(lia)). split; [apply Z.div_pos; lia|lia]. }
  assert (Hne : header <> hp) by (unfold hp in *; lia).
  assert (Hslot : is_Some (h_mem st !! hp)) by (apply B4; [lia|exact Hhp8]). destruct Hslot as [w' Bw'].
  unfold chHeapObjectInit. rewrite Ehp, check_true by (apply Z.ltb_lt; unfold hp in *; lia).
  cbn [mbind option_bind]. rewrite (set_word0_eq _ _ _ _ Bw). cbn [mbind option_bind].
  erewrite set_word1_eq; [|apply lookup_insert_eq]. cbn [mbind option_bind fst]. rewrite insert_insert_eq.
  set (m1 := <[header:=(hp, 0)]> (h_mem st)).
  assert (Bw1 : m1 !! hp = Some w') by (unfold m1; rewrite lookup_insert_ne by congruence; exact Bw').
  rewrite (set_word0_eq _ _ _ _ Bw1). cbn [mbind option_bind].
  erewrite set_word1_eq; [|apply lookup_insert_eq]. cbn [mbind option_bind fst]. rewrite insert_insert_eq.
  unfold sizeof_header, CH_HEAP_ALIGNMENT.
  rewrite (u32_small (size - (hp - buf))), (u32_small (size - (hp - buf) - 8)) by (unfold hp in *; lia).
  replace (size - (hp - buf) - 8) with (buf + size - hp - 8) by lia. fold pages.
  set (m2 := <[hp:=(0, pages)]> m1).
  assert (Hs : same_slots (h_mem st) m2).
  { eapply same_slots_trans; apply same_slots_insert; eauto. }
  eexists _, _. split; [reflexivity|]. cbn [hp_provider hp_header hp_area].
  split; [reflexivity|]. split; [reflexivity|]. split.
  { unfold H_FREE_FULLSIZE, sizeof_header. rewrite u32_small by lia. f_equal. lia. }
  assert (Hb : block_ok m2 (hp, pages)).
  { unfold block_ok, b_end. cbn [fst snd]. split_and!; try lia; try exact Hhp8; try (unfold hp in *; lia).
    intros x Hx Hx8. apply Hs, B4; [lia|exact Hx8]. }
  split; cbn [h_mem h_core hp_header hp_provider].
  - cbn [chainto hd_or fst snd]. split_and!; auto.
    + unfold m2, m1. rewrite lookup_insert_ne by congruence. apply lookup_insert_eq.
    + unfold m2. apply lookup_insert_eq.
  - split; [apply Forall_singleton; exact Hb|repeat constructor].
  - split; [|auto]. apply Forall_singleton. unfold disj, header_block, b_end. cbn [fst snd]. unfold hp in *. lia.
  - constructor.
  - cbn [fl_apart fst]. unfold hp in *. split; [lia|exact Logic.I].
  - discriminate.
  - intros _. apply Forall_singleton. unfold in_area, b_end. cbn [hp_area area_base area_size fst snd].
    unfold H_FREE_FULLSIZE, sizeof_header. rewrite u32_small by lia. lia.
Qed.

Lemma heap_init_inv header st :
  is_Some (h_mem st !! header) -> 0 < header -> header + 16 < 2 ^ 32 ->
  core_ok (h_core st) -> slots (h_mem st) (basemem (h_core st)) (topmem (h_core st)) ->
  outside_core (h_core st) (header_block header) ->
  exists st' heapp, heap_init header st = Some (st', heapp) /\ hp_provider heapp = true /\
    hp_header heapp = header /\ h_core st' = h_core st /\ heap_inv heapp st' [] [].
Proof.
  intros [w Hw] H0 H1 Hc Hsl Ho. unfold heap_init. rewrite (set_word0_eq _ _ _ _ Hw). cbn [mbind option_bind].
  erewrite set_word1_eq; [|apply lookup_insert_eq]. cbn [mbind option_bind fst]. rewrite insert_insert_eq.
  eexists _, _. split; [reflexivity|]. split_and!; try reflexivity.
  split; cbn [h_mem h_core hp_header hp_provider].
  - cbn [chainto hd_or fst snd]. split; [apply lookup_insert_eq|exact Logic.I].
  - split; constructor.
  - split; [constructor|auto].
  - constructor.
  - exact Logic.I.
  - intros _. split_and!; [exact Hc| |apply Forall_singleton; exact Ho].
    intros x Hx Hx8. apply (same_slots_insert _ header); eauto.
  - discriminate.
Qed.

(** ** Runs *)

Inductive heap_op := HAlloc (size k : Z) | HFree (n : nat).

(** The blocks allocated and not yet freed, the latest first, are what a program
    knows of the heap; it frees one of them. *)
Definition heap_exec (heapp : memory_heap_t) (op : heap_op) (st : heap_state) (us : list (Z * Z))
  : option (heap_state * list (Z * Z)) :=
  match op with
  | HAlloc size k =>
      '(st, p) ← chHeapAllocAligned heapp size (2 ^ k) st;
      Some (st, if p =? 0 then us else (p - sizeof_header, size) :: us)
  | HFree n =>
      match us !! n with
      | None => Some (st, us)
      | Some u => st ← chHeapFree (fst u + sizeof_header) st; Some (st, delete n us)
      end
  end.

Fixpoint heap_run (heapp : memory_heap_t) (ops : list heap_op) (st : heap_state) (us : list (Z * Z))
  : option (heap_state * list (Z * Z)) :=
  match ops with
  | [] => Some (st, us)
  | op :: ops => '(st, us) ← heap_exec heapp op st us; heap_run heapp ops st us
  end.

Definition heap_op_ok (heapp : memory_heap_t) (st : heap_state) (op : heap_op) : Prop :=
  match op with HAlloc size k => heap_req heapp st size k | HFree _ => True end.

Lemma heap_inv_perm heapp st fl us us' : us ≡ₚ us' -> heap_inv heapp st fl us -> heap_inv heapp st fl us'.
Proof.
  intros Hp [H1 H2 [H3 H3'] H4 H5 H6 H7]. split; auto.
  - apply (placed_perm _ (fl ++ (u_block <$> us))); [rewrite Hp; reflexivity|exact H2].
  - split; [|exact H3']. rewrite <- Hp. exact H3.
  - rewrite <- Hp. exact H4.
  - intros Hprov. destruct (H6 Hprov) as (? & ? & Hf). split_and!; auto. rewrite <- Hp. exact Hf.
  - intros Hprov. rewrite <- Hp. exact (H7 Hprov).
Qed.

(** The pages of a heap: free blocks and allocated ones, headers included. *)
Definition total_pages (fl : list block) (us : list (Z * Z)) : Z := weights (fl ++ (u_block <$> us)).

Lemma total_pages_perm fl us us' : us ≡ₚ us' -> total_pages fl us = total_pages fl us'.
Proof.
  intros Hp. unfold total_pages. apply merges_weights, M_perm. rewrite Hp. reflexivity.
Qed.

Lemma heap_inv_pos heapp st fl us u : heap_inv heapp st fl us -> u ∈ us -> 0 < fst u.
Proof.
  intros [_ [Hok _] _ _ _ _ _] Hu. apply Forall_app in Hok as [_ Hok]. rewrite Forall_forall in Hok.
  assert (Hin : u_block u ∈ u_block <$> us) by (apply list_elem_of_fmap; eauto). apply (Hok _ Hin).
Qed.

Lemma heap_exec_inv heapp op st fl us :
  heap_inv heapp st fl us -> heap_op_ok heapp st op ->
  exists st' us' fl', heap_exec heapp op st us = Some (st', us') /\ heap_inv heapp st' fl' us' /\
    topmem (h_core st') <= topmem (h_core st) /\
    (hp_provider heapp = false -> total_pages fl' us' = total_pages fl us).
Proof.
  intros Hinv Hop. destruct op as [size k|n]; cbn [heap_exec].
  - destruct (fl_alloc (data_pages size) (2 ^ Z.max k 3) fl) as [[fl' ahp]|] eqn:Ea.
    + destruct (heap_alloc_list heapp st fl us size k fl' ahp Hinv Hop Ea) as (st' & E & Hcore & Hinv' & _ & Hw).
      rewrite E. cbn [mbind option_bind]. unfold sizeof_header.
      pose proof (heap_inv_pos _ _ _ _ (ahp, size) Hinv' ltac:(left)) as Hpos. cbn [fst] in Hpos.
      rewrite (proj2 (Z.eqb_neq _ _)) by lia. replace (ahp + 8 - 8) with ahp by lia.
      exists st', ((ahp, size) :: us), fl'. split; [reflexivity|]. split; [exact Hinv'|].
      rewrite Hcore. split; [lia|]. intros _. unfold total_pages. rewrite !weights_app, fmap_cons.
      change (weights (u_block (ahp, size) :: (u_block <$> us)))
        with (weight (u_block (ahp, size)) + weights (u_block <$> us)).
      unfold weight, u_block at 1. cbn [snd]. lia.
    + destruct (heap_alloc_grow heapp st fl us size k Hinv Hop Ea)
        as [E|(st' & p & E & Hprov & Hp & _ & Htop & Hinv')]; rewrite E; cbn [mbind option_bind].
      * rewrite Z.eqb_refl. exists st, us, fl. split_and!; auto. lia.
      * rewrite (proj2 (Z.eqb_neq _ _)) by lia. unfold sizeof_header.
        exists st', ((p - 8, size) :: us), fl. split_and!; auto. congruence.
  - destruct (us !! n) as [u|] eqn:Eu; [|exists st, us, fl; split_and!; auto; lia].
    assert (Hp : us ≡ₚ u :: delete n us) by (apply delete_Permutation; exact Eu).
    destruct (heap_free_list heapp st fl u (delete n us)) as (st' & E & Hcore & Hinv' & Hw).
    { apply (heap_inv_perm _ _ _ us); [exact Hp|exact Hinv]. }
    unfold sizeof_header. rewrite E. cbn [mbind option_bind].
    exists st', (delete n us), (fl_free u fl). rewrite Hcore. split_and!; auto; [lia|].
    intros _. rewrite (total_pages_perm fl _ _ Hp). unfold total_pages. rewrite !weights_app, fmap_cons.
    change (weights (u_block u :: (u_block <$> delete n us)))
      with (weight (u_block u) + weights (u_block <$> delete n us)).
    unfold weight, u_block at 2. cbn [snd]. lia.
Qed.

Lemma heap_req_mono heapp st st' op :
  topmem (h_core st') <= topmem (h_core st) -> heap_op_ok heapp st op -> heap_op_ok heapp st' op.
Proof.
  intros Hle. destruct op as [size k|n]; simpl; [|auto]. intros (H1 & H2 & H3). split_and!; try tauto.
  intros Hp. specialize (H3 Hp). lia.
Qed.

Lemma heap_run_inv heapp ops : forall st fl us,
  heap_inv heapp st fl us -> Forall (heap_op_ok heapp st) ops ->
  exists st' us' fl', heap_run heapp ops st us = Some (st', us') /\ heap_inv heapp st' fl' us' /\
    (hp_provider heapp = false -> total_pages fl' us' = total_pages fl us).
Proof.
  induction ops as [|op ops IH]; intros st fl us Hinv Hops; cbn [heap_run].
  - exists st, us, fl. auto.
  - inversion_clear Hops as [|? ? Hop Hops'].
    destruct (heap_exec_inv heapp op st fl us Hinv Hop) as (st1 & us1 & fl1 & E & Hinv1 & Htop & Ht).
    rewrite E. cbn [mbind option_bind].
    destruct (IH st1 fl1 us1 Hinv1) as (st2 & us2 & fl2 & E2 & Hinv2 & Ht2).
    { refine (Forall_impl _ _ _ Hops' _). intros op'. apply heap_req_mono. exact Htop. }
    exists st2, us2, fl2. rewrite E2. split_and!; auto. intros Hp. rewrite Ht2, Ht by exact Hp. reflexivity.
Qed.

(** ** What a program may rely on *)

(** The data of an allocated block. *)
Definition data_start (u : Z * Z) : Z := fst u + sizeof_header.
Definition data_end (u : Z * Z) : Z := data_start u + 8 * data_pages (snd u).

Definition data_apart (u1 u2 : Z * Z) : Prop := data_end u1 <= data_start u2 \/ data_end u2 <= data_start u1.

(** The blocks' data are 8-aligned and pairwise disjoint, hold as many bytes as
    were asked for (unless the rounding of the size wrapped), and the heap knows
    their sizes. *)
Definition blocks_ok (st : heap_state) (us : list (Z * Z)) : Prop :=
  ForallOrdPairs data_apart us /\
  Forall (fun u => data_start u mod 8 = 0 /\ chHeapGetSize (data_start u) (h_mem st) = Some (snd u) /\
                   (snd u <= 2 ^ 32 - 8 -> data_start u + snd u <= data_end u)) us.

Lemma heap_inv_blocks heapp st fl us : heap_inv heapp st fl us -> blocks_ok st us.
Proof.
  intros [_ [Hok Hd] _ Hus _ _ _]. apply Forall_app in Hok as [_ Hok]. apply all_disj_app in Hd as (_ & Hd & _).
  unfold blocks_ok, data_end, data_start, sizeof_header. split.
  - clear Hus. induction us as [|u us IH]; [constructor|]. rewrite fmap_cons in *.
    inversion_clear Hok as [|? ? Hu Hok']. inversion_clear Hd as [|? ? Hdu Hd'].
    constructor; [|auto]. rewrite Forall_forall in *. intros v Hv.
    assert (Hin : u_block v ∈ u_block <$> us) by (apply list_elem_of_fmap; eauto).
    specialize (Hdu _ Hin). specialize (Hok' _ Hin). destruct Hu as (_ & _ & Hn & _). destruct Hok' as (_ & _ & Hn' & _).
    unfold disj, data_apart, data_end, data_start, sizeof_header, u_block, b_end in *. cbn [fst snd] in *. lia.
  - rewrite Forall_forall in *. intros u Hu. destruct (Hus _ Hu) as [Hm Hs].
    assert (Hin : u_block u ∈ u_block <$> us) by (apply list_elem_of_fmap; eauto).
    destruct (Hok _ Hin) as (_ & H8 & _). change (fst (u_block u)) with (fst u) in H8.
    destruct (data_pages_bounds _ Hs) as (_ & Hsz & _). split_and!.
    + replace (fst u + 8) with (fst u + 1 * 8) by lia. rewrite Z_mod_plus_full. exact H8.
    + unfold chHeapGetSize, H_USED_SIZE, H_FREE_PAGES, sizeof_header.
      replace (fst u + 8 - 8) with (fst u) by lia. rewrite Hm. reflexivity.
    + intros Hle. specialize (Hsz Hle). lia.
Qed.
