(* ===== verification/HeapSafe.v ===== *)
(** * What a program may rely on of the heap

    Runs of allocations and releases on a heap in a buffer: no undefined
    behaviour, disjoint blocks inside the buffer, nothing lost; what the status
    and integrity functions report; an allocation is undone by its release; and a
    request whose size cannot be rounded up. *)

From stdpp Require Import gmap.
From S2P Require Import Prelude CInt Memcore Heap HeapSpec HeapInv.
#[local] Open Scope Z_scope.

(** ** Status and integrity of a well-formed heap *)

Fixpoint fl_pages (fl : list block) : Z := match fl with [] => 0 | b :: fl => snd b + fl_pages fl end.
Fixpoint fl_largest (fl : list block) : Z := match fl with [] => 0 | b :: fl => Z.max (snd b) (fl_largest fl) end.

Lemma weights_pages fl : weights fl = fl_pages fl + Z.of_nat (length fl).
Proof.
  induction fl as [|b fl IH]; [reflexivity|].
  change (weights (b :: fl)) with (weight b + weights fl). cbn [fl_pages length]. unfold weight. lia.
Qed.

Lemma fl_pages_nonneg fl : Forall (fun b => 0 <= snd b) fl -> 0 <= fl_largest fl <= fl_pages fl.
Proof. induction 1 as [|b fl Hb _ IH]; cbn [fl_pages fl_largest] in *; lia. Qed.

(** Disjoint blocks in address order fill at most the address space. *)
Lemma fl_apart_weights m fl : forall lo,
  0 <= lo < 2 ^ 32 -> Forall (block_ok m) fl -> fl_apart lo fl -> lo + 8 * weights fl < 2 ^ 32.
Proof.
  induction fl as [|b fl IH]; intros lo Hlo Hok Hap; [simpl; lia|].
  apply Forall_cons in Hok as [(B1 & B2 & B3 & B4 & _) Hok']. destruct Hap as [Hb Hap].
  change (weights (b :: fl)) with (weight b + weights fl).
  assert (H : b_end b + 8 * weights fl < 2 ^ 32) by (apply IH; auto; unfold b_end in *; lia).
  unfold weight, b_end in *. lia.
Qed.

Lemma heap_count_spec m fl : forall fuel qb n t l,
  (length fl < fuel)%nat -> chainto m (qb :: fl) 0 -> Forall (block_ok m) fl ->
  0 <= n -> 0 <= t -> 0 <= l -> n + Z.of_nat (length fl) < 2 ^ 32 -> 8 * (t + fl_pages fl) < 2 ^ 32 -> 8 * l < 2 ^ 32 ->
  heap_count fuel m (fst qb) n t l =
    Some (n + Z.of_nat (length fl), 8 * (t + fl_pages fl), 8 * Z.max l (fl_largest fl)).
Proof.
  induction fl as [|b fl IH]; intros fuel qb n t l Hfuel Hch Hok Hn Ht Hl Hn' Ht' Hl';
    (destruct fuel as [|fuel]; [simpl in Hfuel; lia|]); destruct Hch as [Hq Hch];
    cbn [heap_count]; unfold H_FREE_NEXT, H_FREE_PAGES; rewrite Hq;
    cbn [fmap option_fmap option_map mbind option_bind hd_or fst].
  - rewrite Z.eqb_refl. cbn [fl_pages fl_largest length Z.of_nat] in *. unfold CH_HEAP_ALIGNMENT.
    rewrite !u32_small by lia.
    change (Z.of_nat 0) with 0. replace (n + 0) with n by lia. replace (8 * (t + 0)) with (t * 8) by lia.
    replace (8 * Z.max l 0) with (l * 8) by lia. reflexivity.
  - apply Forall_cons in Hok as [(B1 & B2 & B3 & B4 & _) Hok'].
    pose proof (fl_pages_nonneg fl) as Hpg.
    assert (Hnn : Forall (fun b => 0 <= snd b) fl) by (refine (Forall_impl _ _ _ Hok' _); intros c Hc; apply Hc).
    specialize (Hpg Hnn). rewrite (proj2 (Z.eqb_neq (fst b) 0)) by lia.
    pose proof Hch as [Hb _]. rewrite Hb. cbn [fmap option_fmap option_map mbind option_bind snd].
    cbn [fl_pages fl_largest length] in *.
    rewrite !u32_small by lia.
    assert (El : (if l <? snd b then snd b else l) = Z.max l (snd b)) by (destruct (Z.ltb_spec l (snd b)); lia).
    rewrite El, (IH fuel b) by (auto; lia). clear IH. do 2 f_equal; [f_equal|]; lia.
Qed.

Lemma heap_integrity_spec m area fl : forall fuel qb prev,
  (length fl < fuel)%nat -> chainto m (qb :: fl) 0 -> Forall (block_ok m) fl -> fl_apart prev fl ->
  0 <= area_base area -> area_base area + area_size area < 2 ^ 32 -> Forall (in_area area) fl ->
  heap_integrity fuel m area (fst qb) prev = Some false.
Proof.
  induction fl as [|b fl IH]; intros fuel qb prev Hfuel Hch Hok Hap Ha0 Ha1 Hin;
    (destruct fuel as [|fuel]; [simpl in Hfuel; lia|]); destruct Hch as [Hq Hch];
    cbn [heap_integrity]; unfold H_FREE_NEXT, H_FREE_PAGES; rewrite Hq;
    cbn [fmap option_fmap option_map mbind option_bind hd_or fst]; [reflexivity|].
  apply Forall_cons in Hok as [(B1 & B2 & B3 & B4 & _) Hok']. apply Forall_cons in Hin as [[I1 I2] Hin'].
  destruct Hap as [Hb Hap]. unfold b_end in *. rewrite (proj2 (Z.eqb_neq _ _)), (proj2 (Z.leb_gt _ _)) by lia.
  unfold CH_HEAP_ALIGNMENT. change 8 with (2 ^ 3) at 1. rewrite is_aligned_value by lia.
  change (2 ^ 3) with 8. rewrite B2. cbn [Z.eqb negb].
  pose proof Hch as [Hbm _]. rewrite Hbm. cbn [fmap option_fmap option_map mbind option_bind snd].
  unfold chMemIsSpaceWithinX, H_FREE_FULLSIZE, sizeof_header.
  rewrite (u32_small ((snd b + 1) * 8)) by lia. rewrite !u32_small by lia.
  rewrite check_true by (apply andb_true_iff; rewrite !Z.leb_le; lia). cbn [mbind option_bind].
  rewrite !(proj2 (Z.leb_le _ _)) by lia. cbn [andb negb].
  apply IH; auto; [simpl in Hfuel; lia|]. refine (fl_apart_mono _ _ _ _ Hap). lia.
Qed.

Lemma heap_status_inv heapp st fl us :
  heap_inv heapp st fl us ->
  chHeapStatus heapp st = Some (Z.of_nat (length fl), 8 * fl_pages fl, 8 * fl_largest fl) /\
  8 * weights fl < 2 ^ 32 /\ 0 <= fl_largest fl <= fl_pages fl.
Proof.
  intros [Hch Hpl _ _ Hap _ _]. pose proof (placed_app_l _ _ _ Hpl) as Hplf.
  pose proof (fl_apart_weights _ fl 0 ltac:(lia) (proj1 Hplf) Hap) as Hw.
  pose proof (fl_pages_nonneg fl (placed_nonneg _ _ Hplf)) as Hpg. rewrite weights_pages in *.
  split; [|lia]. unfold chHeapStatus.
  pose proof (heap_count_spec (h_mem st) fl (S (base.size (h_mem st))) (hp_header heapp, 0) 0 0 0
    (placed_fuel _ _ Hplf) Hch (proj1 Hplf)) as H.
  cbn [fst] in H. rewrite H by lia. do 2 f_equal; lia.
Qed.

Lemma heap_integrity_inv heapp st fl us :
  heap_inv heapp st fl us -> hp_provider heapp = false ->
  0 <= area_base (hp_area heapp) -> area_base (hp_area heapp) + area_size (hp_area heapp) < 2 ^ 32 ->
  chHeapIntegrityCheck heapp st = Some false.
Proof.
  intros [Hch Hpl _ _ Hap _ Harea] Hprov Ha0 Ha1. pose proof (placed_app_l _ _ _ Hpl) as Hplf.
  specialize (Harea Hprov). apply Forall_app in Harea as [Harea _].
  apply (heap_integrity_spec _ _ fl _ (hp_header heapp, 0)); auto; [exact (placed_fuel _ _ Hplf)|apply Hplf].
Qed.

(** ** Heaps in a buffer *)

Definition op_ok (op : heap_op) : Prop :=
  match op with HAlloc size k => 0 < size < 2 ^ 32 /\ 0 <= k < 32 | HFree _ => True end.

(** What the blocks of [us] take, headers included. *)
Definition used_bytes (us : list (Z * Z)) : Z := foldr (fun u s => 8 * data_pages (snd u) + 8 + s) 0 us.

Lemma used_bytes_weights us : used_bytes us = 8 * weights (u_block <$> us).
Proof.
  induction us as [|u us IH]; [reflexivity|]. rewrite fmap_cons.
  change (used_bytes (u :: us)) with (8 * data_pages (snd u) + 8 + used_bytes us).
  change (weights (u_block u :: (u_block <$> us))) with (weight (u_block u) + weights (u_block <$> us)).
  unfold weight, u_block at 1. cbn [snd]. lia.
Qed.

Section InBuffer.
Context (header buf size : Z) (st0 : heap_state).
Hypothesis Hbuf : buffer_ok header buf size (h_mem st0).

(** Initialisation succeeds, and the heap's area is in the buffer. *)
Lemma init_ok : exists st heapp fl,
  chHeapObjectInit header buf size st0 = Some (st, heapp) /\ hp_provider heapp = false /\ hp_header heapp = header /\
  buf <= area_base (hp_area heapp) /\ area_base (hp_area heapp) + area_size (hp_area heapp) <= buf + size /\
  heap_inv heapp st fl [] /\ 8 * total_pages fl [] = area_size (hp_area heapp).
Proof.
  pose proof (chHeapObjectInit_inv _ _ _ _ Hbuf) as (st & heapp & E & Hp & Hh & Ha & Hinv).
  exists st, heapp. eexists. split; [exact E|]. rewrite Hp, Hh, Ha. cbn [area_base area_size].
  pose proof Hbuf as (B1 & B2 & B3 & _). pose proof (Z.mod_pos_bound (- buf) 8 ltac:(lia)).
  set (hp := buf + (- buf) mod 8) in *. pose proof (Z_div_mod_eq_full (buf + size - hp - 8) 8).
  pose proof (Z.mod_pos_bound (buf + size - hp - 8) 8 ltac:(lia)).
  split_and!; [reflexivity|reflexivity|lia|lia|exact Hinv|].
  fold hp. unfold total_pages. change (weights ([(hp, (buf + size - hp - 8) / 8)] ++ (u_block <$> [])))
    with ((buf + size - hp - 8) / 8 + 1 + 0). lia.
Qed.

Lemma op_ok_heap_op_ok heapp st ops :
  hp_provider heapp = false -> Forall op_ok ops -> Forall (heap_op_ok heapp st) ops.
Proof.
  intros Hp H. refine (Forall_impl _ _ _ H _). intros [s k|n]; simpl; [|auto].
  intros [Hs Hk]. split_and!; try tauto; try lia. intros E. congruence.
Qed.

(** After any run, the invariant holds and nothing is lost. *)
Lemma run_ok ops : Forall op_ok ops -> exists st heapp st' us fl,
  chHeapObjectInit header buf size st0 = Some (st, heapp) /\ heap_run heapp ops st [] = Some (st', us) /\
  hp_provider heapp = false /\ hp_header heapp = header /\
  buf <= area_base (hp_area heapp) /\ area_base (hp_area heapp) + area_size (hp_area heapp) <= buf + size /\
  heap_inv heapp st' fl us /\ 8 * total_pages fl us = area_size (hp_area heapp).
Proof.
  intros Hops. destruct init_ok as (st & heapp & fl0 & E & Hp & Hh & A1 & A2 & Hinv & Ht).
  destruct (heap_run_inv heapp ops st fl0 [] Hinv (op_ok_heap_op_ok heapp st ops Hp Hops))
    as (st' & us & fl & Er & Hinv' & Ht'). specialize (Ht' Hp).
  exists st, heapp, st', us, fl. split_and!; auto. lia.
Qed.
End InBuffer.

(** A heap in a buffer never refuses what its largest free block can hold. *)
Lemma aligned_header_8 m b : block_ok m b -> aligned_header (fst b) 8 = fst b.
Proof.
  intros (B1 & B2 & B3 & B4 & _). unfold b_end, aligned_header in *.
  pose proof (Z_div_mod_eq_full (fst b) 8). change 8 with (2 ^ 3) at 2.
  change (2 ^ 32) with 4294967296 in *.
  destruct (align_next_value (fst b + 8) 3) as (d & -> & Hd & Hm);
    [lia|lia|change (2 ^ 3) with 8; change (2 ^ 32) with 4294967296; lia|].
  change (2 ^ 3) with 8 in *. rewrite u32_small by (change (2 ^ 32) with 4294967296; lia).
  pose proof (Z_div_mod_eq_full (fst b + 8 + d) 8). lia.
Qed.

Lemma fits_8 m b pages : block_ok m b -> pages <= snd b -> fits pages 8 b = true.
Proof.
  intros Hb Hle. unfold fits. rewrite (aligned_header_8 m b Hb). destruct Hb as (B1 & B2 & B3 & B4 & _).
  unfold NPAGES, b_end, sizeof_header in *.
  replace (fst b + 8 + 8 * snd b - (fst b + 8)) with (snd b * 8) by lia. rewrite Z_div_mult_full by lia.
  rewrite u32_small by lia. apply andb_true_iff. rewrite Z.ltb_lt, Z.leb_le. lia.
Qed.

Lemma fl_alloc_largest m fl pages :
  Forall (block_ok m) fl -> fl <> [] -> 0 <= pages <= fl_largest fl -> fl_alloc pages 8 fl <> None.
Proof.
  induction fl as [|b fl IH]; [congruence|]. intros Hok _ Hp. cbn [fl_alloc fl_largest] in *.
  apply Forall_cons in Hok as [Hb Hok].
  destruct (fits pages 8 b) eqn:Ef; [discriminate|].
  assert (Hlt : snd b < pages).
  { destruct (Z_lt_le_dec (snd b) pages) as [H|Hge]; [exact H|].
    rewrite (fits_8 m b pages Hb Hge) in Ef. discriminate. }
  pose proof Hb as (_ & _ & Hn & _). assert (Hfl : fl <> []) by (intros ->; cbn [fl_largest] in Hp; lia).
  specialize (IH Hok Hfl). destruct (fl_alloc pages 8 fl) as [[fl' ahp]|]; [discriminate|].
  intros _. apply IH; [lia|reflexivity].
Qed.

(** The same list is read from the same headers. *)
Lemma chainto_agree m m' l q : chainto m l q -> chainto m' l q -> Forall (fun b => m' !! fst b = m !! fst b) l.
Proof.
  induction l as [|b l IH]; [constructor|]. intros [Hb Hl] [Hb' Hl'].
  constructor; [congruence|]. apply IH; assumption.
Qed.

(** A released block that has just been taken gives the list there was before. *)
Lemma free_alloc_list m pages k fl fl' ahp size :
  Forall (block_ok m) fl -> 3 <= k < 32 -> pages = data_pages size -> 0 <= pages -> fl_apart 0 fl ->
  fl_alloc pages (2 ^ k) fl = Some (fl', ahp) -> fl_free (ahp, size) fl' = fl.
Proof.
  intros Hok Hk Ep Hp Hap Ea.
  destruct (alloc_insert m pages k fl (-8, 0) fl' ahp Hok Hk Hp Hap Ea) as [E Hlt].
  specialize (Hlt 0 Hap). rewrite insert_after_head in E by (unfold b_end; cbn [fst snd]; lia).
  injection E as E. unfold fl_free, u_block. cbn [fst snd]. rewrite <- Ep. exact E.
Qed.

Lemma heap_inv_free_ok heapp st fl us : heap_inv heapp st fl us -> Forall (block_ok (h_mem st)) fl.
Proof. intros [_ Hpl _ _ _ _ _]. apply (placed_app_l _ _ _ Hpl). Qed.

(** ** The theorems *)

(** C15: a heap set up in a buffer survives every sequence of valid allocations and
    releases without undefined behaviour: the allocated blocks stay 8-aligned,
    disjoint, as large as asked for, of known size, and inside the buffer. *)
Theorem heap_run_safe header buf size st0 ops :
  buffer_ok header buf size (h_mem st0) -> Forall op_ok ops ->
  exists st heapp st' us,
    chHeapObjectInit header buf size st0 = Some (st, heapp) /\ heap_run heapp ops st [] = Some (st', us) /\
    blocks_ok st' us /\ Forall (fun u => buf <= fst u /\ data_end u <= buf + size) us.
Proof.
  intros Hb Hops. destruct (run_ok _ _ _ _ Hb ops Hops)
    as (st & heapp & st' & us & fl & E & Er & Hp & _ & A1 & A2 & Hinv & _).
  exists st, heapp, st', us. split_and!; auto; [exact (heap_inv_blocks _ _ _ _ Hinv)|].
  pose proof (hi_area _ _ _ _ Hinv Hp) as Ha. apply Forall_app in Ha as [_ Ha].
  apply (Forall_fmap u_block) in Ha. refine (Forall_impl _ _ _ Ha _). intros u [H1 H2].
  unfold data_end, data_start, sizeof_header, b_end, u_block in *. cbn [fst snd] in *. lia.
Qed.

(** After any such sequence the integrity check passes, and the status
    accounts for every byte: what is free, with a header for each free block, and
    what is in use make up the heap.  A request not above the largest free block
    that the status reports is granted. *)
Theorem heap_status_accounts header buf size st0 ops :
  buffer_ok header buf size (h_mem st0) -> Forall op_ok ops ->
  exists st heapp st' us n total largest,
    chHeapObjectInit header buf size st0 = Some (st, heapp) /\ heap_run heapp ops st [] = Some (st', us) /\
    chHeapIntegrityCheck heapp st' = Some false /\ chHeapStatus heapp st' = Some (n, total, largest) /\
    total + 8 * n + used_bytes us = area_size (hp_area heapp) /\
    forall req, 0 < req <= largest -> exists st2 p, chHeapAlloc heapp req st' = Some (st2, p) /\ p <> 0.
Proof.
  intros Hb Hops. destruct (run_ok _ _ _ _ Hb ops Hops)
    as (st & heapp & st' & us & fl & E & Er & Hp & _ & A1 & A2 & Hinv & Ht).
  destruct (heap_status_inv _ _ _ _ Hinv) as (Es & Hw & Hl). pose proof Hb as (B1 & _ & B3 & _).
  exists st, heapp, st', us. eexists _, _, _. split_and!; [exact E|exact Er| |exact Es| |].
  - apply (heap_integrity_inv _ _ fl us); auto; lia.
  - unfold total_pages in Ht. rewrite weights_app, weights_pages in Ht. rewrite used_bytes_weights. lia.
  - intros req Hreq. rewrite weights_pages in Hw.
    assert (Hs : 0 < req < 2 ^ 32) by lia. destruct (data_pages_bounds req Hs) as (Hd & Hr & _).
    assert (Hrq : heap_req heapp st' req 3) by (split_and!; try lia; congruence).
    destruct (fl_alloc (data_pages req) (2 ^ Z.max 3 3) fl) as [[fl' ahp]|] eqn:Ea.
    + destruct (heap_alloc_list heapp st' fl us req 3 fl' ahp Hinv Hrq Ea) as (st2 & E2 & _ & Hinv2 & _).
      exists st2, (ahp + 8). split; [exact E2|].
      pose proof (heap_inv_pos _ _ _ _ (ahp, req) Hinv2 ltac:(left)). cbn [fst] in *. lia.
    + exfalso. revert Ea. apply (fl_alloc_largest (h_mem st')); [exact (heap_inv_free_ok _ _ _ _ Hinv)| |lia].
      intros ->. cbn [fl_largest] in Hreq. lia.
Qed.

(** C21: a release undoes the allocation of the block: the free list, the headers of
    the other blocks and the status are as before the allocation, for every
    alignment and whatever happened to the heap before. *)
Theorem heap_free_undoes_alloc header buf size st0 ops st heapp st' us req k st1 p :
  buffer_ok header buf size (h_mem st0) -> Forall op_ok ops ->
  chHeapObjectInit header buf size st0 = Some (st, heapp) -> heap_run heapp ops st [] = Some (st', us) ->
  0 < req < 2 ^ 32 -> 0 <= k < 32 ->
  chHeapAllocAligned heapp req (2 ^ k) st' = Some (st1, p) -> p <> 0 ->
  exists st2 fl, chHeapFree p st1 = Some st2 /\ p mod 2 ^ k = 0 /\
    chainto (h_mem st') ((header, 0) :: fl) 0 /\
    Forall (fun b => h_mem st2 !! fst b = h_mem st' !! fst b) ((header, 0) :: fl) /\
    Forall (fun u => h_mem st2 !! fst u = h_mem st' !! fst u) us /\
    chHeapStatus heapp st2 = chHeapStatus heapp st'.
Proof.
  intros Hb Hops Ei Er Hs Hk Ea Hp0. destruct (run_ok _ _ _ _ Hb ops Hops)
    as (st_ & heapp_ & st'_ & us_ & fl & Ei' & Er' & Hp & Hh & _ & _ & Hinv & _).
  simplify_eq. assert (Hrq : heap_req heapp st' req k) by (split_and!; try lia; congruence).
  destruct (data_pages_bounds req Hs) as (Hd & _).
  destruct (fl_alloc (data_pages req) (2 ^ Z.max k 3) fl) as [[fl' ahp]|] eqn:El.
  - destruct (heap_alloc_list heapp st' fl us req k fl' ahp Hinv Hrq El) as (st1' & E1 & _ & Hinv1 & Hal & _).
    simplify_eq. destruct (heap_free_list heapp st1 fl' (ahp, req) us Hinv1) as (st2 & E2 & _ & Hinv2 & _).
    rewrite (free_alloc_list (h_mem st') (data_pages req) (Z.max k 3) fl) in Hinv2;
      auto; try lia; [|exact (heap_inv_free_ok _ _ _ _ Hinv)|exact (hi_apart _ _ _ _ Hinv)].
    exists st2, fl. split_and!; auto; [exact (hi_chain _ _ _ _ Hinv)| | |].
    + apply (chainto_agree _ _ _ 0); [exact (hi_chain _ _ _ _ Hinv)|exact (hi_chain _ _ _ _ Hinv2)].
    + pose proof (hi_used _ _ _ _ Hinv) as H1. pose proof (hi_used _ _ _ _ Hinv2) as H2.
      rewrite Forall_forall in *. intros u Hu. destruct (H1 _ Hu) as [-> _]. apply H2. exact Hu.
    + rewrite (proj1 (heap_status_inv _ _ _ _ Hinv)), (proj1 (heap_status_inv _ _ _ _ Hinv2)). reflexivity.
  - destruct (heap_alloc_grow heapp st' fl us req k Hinv Hrq El) as [E|(? & ? & _ & Hpr & _)]; congruence.
Qed.

(** A request of more than 2^32 - 8 bytes is granted: rounding its size up
    gives 0, so the heap hands out a header with no data behind it, and the data
    address is that of the header of the next free block. *)
Theorem heap_huge_request header buf size st0 st heapp req :
  buffer_ok header buf size (h_mem st0) -> 16 + (- buf) mod 8 <= size ->
  chHeapObjectInit header buf size st0 = Some (st, heapp) -> 2 ^ 32 - 8 < req < 2 ^ 32 ->
  exists st' p pages, chHeapAlloc heapp req st = Some (st', p) /\ p <> 0 /\
    chHeapGetSize p (h_mem st') = Some req /\
    h_mem st' !! header = Some (p, 0) /\ h_mem st' !! p = Some (0, pages).
Proof.
  intros Hb Hsz Ei Hr.
  destruct (chHeapObjectInit_inv _ _ _ _ Hb) as (st_ & heapp_ & Ei' & Hp & Hh & _ & Hinv).
  rewrite Ei in Ei'. injection Ei' as <- <-.
  set (hp := buf + (- buf) mod 8) in *. set (n := (buf + size - hp - 8) / 8) in *.
  assert (Hn : 0 < n) by (apply Z.div_str_pos; unfold hp; lia).
  assert (Hs : 0 < req < 2 ^ 32) by lia. destruct (data_pages_bounds req Hs) as (_ & _ & H0). specialize (H0 ltac:(lia)).
  assert (Hrq : heap_req heapp st req 3) by (split_and!; try lia; congruence).
  pose proof (heap_inv_free_ok _ _ _ _ Hinv) as Hok. apply Forall_cons in Hok as [Hok _].
  assert (Ea : fl_alloc (data_pages req) (2 ^ Z.max 3 3) [(hp, n)] = Some ([(hp + 8, n - 1)], hp)).
  { rewrite H0. change (2 ^ Z.max 3 3) with 8. cbn [fl_alloc]. rewrite (fits_8 _ _ _ Hok) by (cbn [snd]; lia).
    rewrite (aligned_header_8 _ _ Hok). unfold carve, b_end. cbn [fst snd]. rewrite Z.ltb_irrefl.
    replace (hp + 8 + 8 * n - (hp + 8)) with (n * 8) by lia. rewrite Z_div_mult_full by lia.
    rewrite (proj2 (Z.ltb_lt _ _)) by lia. cbn [app]. do 4 f_equal; lia. }
  destruct (heap_alloc_list heapp st _ [] req 3 _ hp Hinv Hrq Ea) as (st' & E & _ & Hinv' & _).
  pose proof (hi_chain _ _ _ _ Hinv') as (C1 & C2 & _). cbn [hd_or fst snd] in *. rewrite Hh in C1.
  pose proof (hi_used _ _ _ _ Hinv') as Hu. apply Forall_cons in Hu as [[Hu _] _]. cbn [fst snd] in Hu.
  destruct Hok as (O1 & _). cbn [fst] in O1.
  exists st', (hp + 8), (n - 1). split_and!; auto; [lia|].
  unfold chHeapGetSize, H_USED_SIZE, H_FREE_PAGES, sizeof_header.
  replace (hp + 8 - 8) with hp by lia. rewrite Hu. reflexivity.
Qed.

(** ** Witnesses: a heap in a buffer of 64 bytes at 64, its descriptor's header at 16. *)

Definition demo_store : heap_mem :=
  foldr (fun x m => <[x := (0, 0)]> m) ∅ [16; 64; 72; 80; 88; 96; 104; 112; 120].
Definition demo_heap : heap_state := HeapState demo_store (Memcore 0 0).
Definition demo_ops : list heap_op := [HAlloc 5 0; HAlloc 8 4; HFree 1; HAlloc 1 3].

Lemma demo_buffer : buffer_ok 16 64 64 (h_mem demo_heap).
Proof.
  unfold buffer_ok. change (64 + - (64) mod 8) with 64. split_and!; try lia; [|by vm_compute; eauto].
  intros x Hx Hx8. pose proof (Z_div_mod_eq_full x 8). set (q := x / 8) in *.
  assert (Hq : q = 8 \/ q = 9 \/ q = 10 \/ q = 11 \/ q = 12 \/ q = 13 \/ q = 14 \/ q = 15) by lia.
  assert (E : x = 8 * q) by lia. rewrite E. clearbody q. destruct_or! Hq; rewrite Hq; vm_compute; eauto.
Defined.

Lemma demo_ops_ok : Forall op_ok demo_ops.
Proof. repeat (apply Forall_cons; split; [simpl; lia|]). apply Forall_nil. exact Logic.I. Defined.

Lemma heap_run_safe_witness :
  exists st heapp st' us,
    chHeapObjectInit 16 64 64 demo_heap = Some (st, heapp) /\ heap_run heapp demo_ops st [] = Some (st', us) /\
    blocks_ok st' us /\ Forall (fun u => 64 <= fst u /\ data_end u <= 64 + 64) us.
Proof. exact (heap_run_safe 16 64 64 demo_heap demo_ops demo_buffer demo_ops_ok). Defined.

Lemma heap_status_accounts_witness :
  exists st heapp st' us n total largest,
    chHeapObjectInit 16 64 64 demo_heap = Some (st, heapp) /\ heap_run heapp demo_ops st [] = Some (st', us) /\
    chHeapIntegrityCheck heapp st' = Some false /\ chHeapStatus heapp st' = Some (n, total, largest) /\
    total + 8 * n + used_bytes us = area_size (hp_area heapp) /\
    forall req, 0 < req <= largest -> exists st2 p, chHeapAlloc heapp req st' = Some (st2, p) /\ p <> 0.
Proof. exact (heap_status_accounts 16 64 64 demo_heap demo_ops demo_buffer demo_ops_ok). Defined.

(** An aligned allocation that splits a block in three, and its release. *)
Lemma heap_free_undoes_alloc_witness :
  exists st heapp st' us st1,
    heap_run heapp demo_ops st [] = Some (st', us) /\
    chHeapAllocAligned heapp 9 (2 ^ 4) st' = Some (st1, 112) /\
    exists st2 fl, chHeapFree 112 st1 = Some st2 /\ 112 mod 2 ^ 4 = 0 /\
      chainto (h_mem st') ((16, 0) :: fl) 0 /\
      Forall (fun b => h_mem st2 !! fst b = h_mem st' !! fst b) ((16, 0) :: fl) /\
      Forall (fun u => h_mem st2 !! fst u = h_mem st' !! fst u) us /\
      chHeapStatus heapp st2 = chHeapStatus heapp st'.
Proof.
  destruct (chHeapObjectInit 16 64 64 demo_heap) as [[st heapp]|] eqn:E; [|vm_compute in E; discriminate].
  pose proof E as E0. vm_compute in E0. injection E0 as Es Eh.
  destruct (heap_run heapp demo_ops st []) as [[st' us]|] eqn:Er; [|rewrite <- Es, <- Eh in Er; vm_compute in Er; discriminate].
  pose proof Er as Er0. rewrite <- Es, <- Eh in Er0. vm_compute in Er0. injection Er0 as Er1 Er2.
  destruct (chHeapAllocAligned heapp 9 (2 ^ 4) st') as [[st1 p]|] eqn:Ea;
    [|rewrite <- Er1, <- Eh in Ea; vm_compute in Ea; discriminate].
  pose proof Ea as Ea0. rewrite <- Er1, <- Eh in Ea0. vm_compute in Ea0. injection Ea0 as _ Ep. rewrite <- Ep in Ea.
  exists st, heapp, st', us, st1. split; [exact Er|split; [exact Ea|]].
  apply (heap_free_undoes_alloc 16 64 64 demo_heap demo_ops st heapp st' us 9 4 st1 112 demo_buffer demo_ops_ok E Er);
    [lia|lia|exact Ea|discriminate].
Defined.

Lemma heap_huge_request_witness :
  exists st heapp st' p pages, chHeapObjectInit 16 64 64 demo_heap = Some (st, heapp) /\
    chHeapAlloc heapp (2 ^ 32 - 1) st = Some (st', p) /\ p <> 0 /\
    chHeapGetSize p (h_mem st') = Some (2 ^ 32 - 1) /\
    h_mem st' !! 16 = Some (p, 0) /\ h_mem st' !! p = Some (0, pages).
Proof.
  destruct (chHeapObjectInit 16 64 64 demo_heap) as [[st heapp]|] eqn:E; [|vm_compute in E; discriminate].
  destruct (heap_huge_request 16 64 64 demo_heap st heapp (2 ^ 32 - 1) demo_buffer) as (st' & p & pages & H);
    [vm_compute; discriminate|exact E|lia|].
  exists st, heapp, st', p, pages. split; [reflexivity|exact H].
Defined.
