(* ===== verification/Semaphores.v ===== *)
(** * Counting semaphores (chsem.c)

    The counter is the number of permits left, or minus the number of waiting
    threads.  A permit is handed to the thread that has waited longest.  The
    theorems refine the counter to a semaphore of permits and a queue, whatever
    waits, signals, resets and timeouts follow each other, and show that no
    permit is lost or invented.  An operation made under the kernel lock is one
    step.  Binary semaphores (chbsem.h) follow, a token that is free or taken. *)

From stdpp Require Import gmap.
From S2P Require Import Prelude CInt CLib Threads.
#[local] Open Scope Z_scope.

(** ** Data and operations *)

Record semaphore_t := Sem { sem_queue : threads_queue; sem_cnt : Z }.

(** The counter is a signed 32-bit integer: passing its bounds is undefined. *)
Definition cnt_inc (sp : semaphore_t) : option semaphore_t :=
  _ ← check (sem_cnt sp <? 2 ^ 31 - 1); Some (Sem (sem_queue sp) (sem_cnt sp + 1)).
Definition cnt_dec (sp : semaphore_t) : option semaphore_t :=
  _ ← check (- 2 ^ 31 <? sem_cnt sp); Some (Sem (sem_queue sp) (sem_cnt sp - 1)).

(** The assertion "inconsistent semaphore". *)
Definition sem_consistent (sp : semaphore_t) : bool :=
  match sem_queue sp with [] => 0 <=? sem_cnt sp | _ => sem_cnt sp <? 0 end.

Definition chSemObjectInit (n : Z) : option semaphore_t :=
  _ ← check (0 <=? n); Some (Sem chThdQueueObjectInit n).

Definition chSemGetCounterI (sp : semaphore_t) : Z := sem_cnt sp.
Definition chSemFastWaitI : semaphore_t -> option semaphore_t := cnt_dec.
Definition chSemFastSignalI : semaphore_t -> option semaphore_t := cnt_inc.

(** The threads are released from the last of the queue to the first. *)
Definition chSemResetWithMessageI (n msg : Z) (sp : semaphore_t) : option (semaphore_t * list event) :=
  _ ← check (0 <=? n);
  _ ← check (sem_consistent sp);
  Some (Sem [] n, (fun t => Wake t msg) <$> rev (sem_queue sp)).

Definition chSemResetWithMessage := chSemResetWithMessageI.
Definition chSemReset (n : Z) := chSemResetWithMessage n MSG_RESET.
Definition chSemResetI (n : Z) := chSemResetWithMessageI n MSG_RESET.

(** [ch_queue_fifo_remove] of an empty queue is undefined. *)
Definition sem_wake_first (sp : semaphore_t) : option (semaphore_t * list event) :=
  match sem_queue sp with
  | [] => None
  | t :: ts => Some (Sem ts (sem_cnt sp), [Wake t MSG_OK])
  end.

(** [if (++sp->cnt <= 0) ...]: the signal proper. *)
Definition sem_release (sp : semaphore_t) : option (semaphore_t * list event) :=
  sp ← cnt_inc sp;
  if sem_cnt sp <=? 0 then sem_wake_first sp else Some (sp, []).

Definition chSemSignalI (sp : semaphore_t) : option (semaphore_t * list event) :=
  _ ← check (sem_consistent sp); sem_release sp.
Definition chSemSignal := chSemSignalI.

Fixpoint sem_add (n : nat) (sp : semaphore_t) : option (semaphore_t * list event) :=
  match n with
  | O => Some (sp, [])
  | S n =>
      '(sp, ev) ← sem_release sp;
      '(sp, evs) ← sem_add n sp;
      Some (sp, ev ++ evs)
  end.

Definition chSemAddCounterI (n : Z) (sp : semaphore_t) : option (semaphore_t * list event) :=
  _ ← check (0 <? n);
  _ ← check (sem_consistent sp);
  sem_add (Z.to_nat n) sp.

(** The call of thread [t], up to its return or its suspension; a suspended call
    returns the message that its thread is woken with. *)
Definition chSemWaitS (t : nat) (sp : semaphore_t) : option (semaphore_t * outcome Z unit) :=
  _ ← check (sem_consistent sp);
  sp ← cnt_dec sp;
  if sem_cnt sp <? 0 then Some (Sem (sem_queue sp ++ [t]) (sem_cnt sp), Blocked tt)
  else Some (sp, Return MSG_OK).
Definition chSemWait := chSemWaitS.

Definition chSemWaitTimeoutS (t : nat) (timeout : Z) (sp : semaphore_t)
  : option (semaphore_t * outcome Z unit) :=
  _ ← check (sem_consistent sp);
  sp ← cnt_dec sp;
  if sem_cnt sp <? 0 then
    if timeout =? TIME_IMMEDIATE then
      sp ← cnt_inc sp; Some (sp, Return MSG_TIMEOUT)
    else Some (Sem (sem_queue sp ++ [t]) (sem_cnt sp), Blocked tt)
  else Some (sp, Return MSG_OK).
Definition chSemWaitTimeout := chSemWaitTimeoutS.

(** The timer of a thread that waits on the semaphore expires ([__sch_wakeup]). *)
Definition sem_wakeup (t : nat) (sp : semaphore_t) : option (semaphore_t * list event) :=
  sp ← chSemFastSignalI sp;
  let '(q, ev) := sch_wakeup t (sem_queue sp) in
  Some (Sem q (sem_cnt sp), ev).

(** [chSemSignalWait] of thread [t], on semaphores of a store: the two may be the
    same one. *)
Definition chSemSignalWait (t sps spw : nat) (m : gmap nat semaphore_t)
  : option (gmap nat semaphore_t * outcome Z unit * list event) :=
  ss ← m !! sps;
  sw ← m !! spw;
  _ ← check (sem_consistent ss);
  _ ← check (sem_consistent sw);
  '(ss, ev) ← sem_release ss;
  let m := <[sps := ss]> m in
  sw ← m !! spw;
  sw ← cnt_dec sw;
  if sem_cnt sw <? 0 then
    Some (<[spw := Sem (sem_queue sw ++ [t]) (sem_cnt sw)]> m, Blocked tt, ev)
  else Some (<[spw := sw]> m, Return MSG_OK, ev).

(** ** Runs

    The answers a step produces are the messages of the wait calls it ends, at
    once or by waking their threads. *)

Inductive sem_op :=
| SWait (t : nat)
| SWaitTimeout (t : nat) (timeout : Z)
| SSignal
| SAdd (n : Z)
| SReset (n msg : Z)
| STimeout (t : nat).

Definition answers (t : nat) (o : outcome Z unit) : list (nat * Z) :=
  match o with Return msg => [(t, msg)] | _ => [] end.

Definition sem_exec (op : sem_op) (sp : semaphore_t) : option (semaphore_t * list (nat * Z)) :=
  match op with
  | SWait t => '(sp, o) ← chSemWait t sp; Some (sp, answers t o)
  | SWaitTimeout t timeout => '(sp, o) ← chSemWaitTimeout t timeout sp; Some (sp, answers t o)
  | SSignal => '(sp, ev) ← chSemSignal sp; Some (sp, wakes ev)
  | SAdd n => '(sp, ev) ← chSemAddCounterI n sp; Some (sp, wakes ev)
  | SReset n msg => '(sp, ev) ← chSemResetWithMessage n msg sp; Some (sp, wakes ev)
  | STimeout t => '(sp, ev) ← sem_wakeup t sp; Some (sp, wakes ev)
  end.

Fixpoint sem_exec_all (ops : list sem_op) (sp : semaphore_t) : option (semaphore_t * list (nat * Z)) :=
  match ops with
  | [] => Some (sp, [])
  | op :: ops =>
      '(sp, l) ← sem_exec op sp;
      '(sp, ls) ← sem_exec_all ops sp;
      Some (sp, l ++ ls)
  end.

(** ** Specification: permits and a queue of waiting threads *)

Record permits := Permits { p_free : Z; p_wait : list nat }.

(** [n] permits are released, to the waiting threads first. *)
Definition spec_release (n : Z) (p : permits) : permits * list (nat * Z) :=
  let k := Z.to_nat n in
  (Permits (p_free p + Z.max 0 (n - Z.of_nat (length (p_wait p)))) (drop k (p_wait p)),
   with_msg MSG_OK (take k (p_wait p))).

Definition spec_exec (op : sem_op) (p : permits) : permits * list (nat * Z) :=
  match op with
  | SWait t =>
      if 0 <? p_free p then (Permits (p_free p - 1) (p_wait p), [(t, MSG_OK)])
      else (Permits (p_free p) (p_wait p ++ [t]), [])
  | SWaitTimeout t timeout =>
      if 0 <? p_free p then (Permits (p_free p - 1) (p_wait p), [(t, MSG_OK)])
      else if timeout =? TIME_IMMEDIATE then (p, [(t, MSG_TIMEOUT)])
      else (Permits (p_free p) (p_wait p ++ [t]), [])
  | SSignal => spec_release 1 p
  | SAdd n => spec_release n p
  | SReset n msg => (Permits n [], with_msg msg (rev (p_wait p)))
  | STimeout t => (Permits (p_free p) (filter (fun t' => t' <> t) (p_wait p)), [(t, MSG_TIMEOUT)])
  end.

Fixpoint spec_exec_all (ops : list sem_op) (p : permits) : permits * list (nat * Z) :=
  match ops with
  | [] => (p, [])
  | op :: ops =>
      let '(p, l) := spec_exec op p in
      let '(p, ls) := spec_exec_all ops p in (p, l ++ ls)
  end.

(** What an operation needs: a thread waits on one semaphore at a time, only
    waiting threads time out, permits are added in positive numbers, and the
    counter keeps in its type. *)
Definition op_permits (op : sem_op) (p : permits) : Z :=
  match op with SSignal => p_free p + 1 | SAdd n => p_free p + n | SReset n _ => n | _ => 0 end.

Definition sem_op_ok (op : sem_op) (p : permits) : Prop :=
  match op with
  | SWait t | SWaitTimeout t _ => (t ∉ p_wait p) /\ Z.of_nat (length (p_wait p)) < 2 ^ 31
  | SAdd n => 0 < n
  | SReset n msg => 0 <= n
  | STimeout t => t ∈ p_wait p
  | SSignal => True
  end /\ op_permits op p < 2 ^ 31.

Fixpoint sem_ops_ok (ops : list sem_op) (p : permits) : Prop :=
  match ops with
  | [] => True
  | op :: ops => sem_op_ok op p /\ sem_ops_ok ops (fst (spec_exec op p))
  end.

(** ** Representation *)

Definition sem_rep (sp : semaphore_t) (p : permits) : Prop :=
  sem_queue sp = p_wait p /\ NoDup (p_wait p) /\ 0 <= p_free p < 2 ^ 31 /\
  sem_cnt sp = p_free p - Z.of_nat (length (p_wait p)) /\ (p_wait p = [] \/ p_free p = 0).

Lemma rep_consistent sp p : sem_rep sp p -> sem_consistent sp = true.
Proof.
  intros (Hq & _ & Hf & Hc & H). unfold sem_consistent. rewrite Hq, Hc.
  destruct (p_wait p) as [|t ts]; [apply Z.leb_le; simpl; lia|].
  destruct H as [H|H]; [discriminate|]. apply Z.ltb_lt. rewrite H. cbn [length]. lia.
Qed.

(** One permit more. *)
Lemma release_spec sp p :
  sem_rep sp p -> p_free p + 1 < 2 ^ 31 ->
  exists sp' ev, sem_release sp = Some (sp', ev) /\ sem_rep sp' (fst (spec_release 1 p)) /\
    wakes ev = snd (spec_release 1 p).
Proof.
  intros (Hq & Hnd & Hf & Hc & H) Hlt. unfold sem_release, cnt_inc, sem_wake_first.
  rewrite check_true by (apply Z.ltb_lt; lia). cbn [mbind option_bind sem_cnt sem_queue]. rewrite Hq, Hc.
  unfold sem_rep, spec_release. change (Z.to_nat 1) with 1%nat.
  destruct (p_wait p) as [|t ts]; cbn [length fst snd p_free p_wait].
  - rewrite (proj2 (Z.leb_gt _ _)) by lia. eexists _, _. split; [reflexivity|].
    cbn [sem_queue sem_cnt drop take length]. split_and!; auto; lia.
  - destruct H as [H|H]; [discriminate|]. rewrite H, (proj2 (Z.leb_le _ _)) by lia.
    eexists _, _. split; [reflexivity|]. cbn [sem_queue sem_cnt drop take].
    apply NoDup_cons in Hnd as [_ Hnd]. change (drop 0 ts) with ts. split_and!; auto; lia.
Qed.

Lemma spec_release_add n p :
  0 <= n ->
  fst (spec_release (1 + n) p) = fst (spec_release n (fst (spec_release 1 p))) /\
  snd (spec_release (1 + n) p) = snd (spec_release 1 p) ++ snd (spec_release n (fst (spec_release 1 p))).
Proof.
  intros Hn. unfold spec_release. replace (Z.to_nat (1 + n)) with (S (Z.to_nat n)) by lia.
  change (Z.to_nat 1) with 1%nat. cbn [fst snd p_free p_wait].
  destruct (p_wait p) as [|t ts]; cbn [length drop take].
  - rewrite drop_nil, take_nil. split; [|reflexivity]. f_equal. cbn [length Z.of_nat]. lia.
  - change (drop 0 ts) with ts. split; [f_equal; lia|reflexivity].
Qed.

Lemma spec_release_0 p : spec_release 0 p = (p, []).
Proof.
  unfold spec_release. change (Z.to_nat 0) with 0%nat. rewrite drop_0, take_0.
  replace (p_free p + Z.max 0 (0 - Z.of_nat (length (p_wait p)))) with (p_free p) by lia. destruct p. reflexivity.
Qed.

Lemma add_spec n : forall sp p,
  sem_rep sp p -> p_free p + Z.of_nat n < 2 ^ 31 ->
  exists sp' ev, sem_add n sp = Some (sp', ev) /\ sem_rep sp' (fst (spec_release (Z.of_nat n) p)) /\
    wakes ev = snd (spec_release (Z.of_nat n) p).
Proof.
  induction n as [|n IH]; intros sp p Hr Hlt; cbn [sem_add].
  - change (Z.of_nat 0) with 0. rewrite spec_release_0. exists sp, []. auto.
  - destruct (release_spec sp p Hr) as (sp1 & ev1 & -> & Hr1 & Hw1); [lia|]. cbn [mbind option_bind].
    destruct (IH sp1 _ Hr1) as (sp2 & ev2 & -> & Hr2 & Hw2).
    { unfold spec_release. cbn [fst p_free]. lia. }
    cbn [mbind option_bind]. exists sp2, (ev1 ++ ev2). split; [reflexivity|].
    replace (Z.of_nat (S n)) with (1 + Z.of_nat n) by lia.
    destruct (spec_release_add (Z.of_nat n) p) as [-> ->]; [lia|].
    split; [exact Hr2|]. rewrite wakes_app, Hw1, Hw2. reflexivity.
Qed.

Lemma wakes_messages msg ts : wakes ((fun t => Wake t msg) <$> ts) = with_msg msg ts.
Proof. induction ts as [|t ts IH]; [reflexivity|]. cbn. unfold wakes in IH. rewrite IH. reflexivity. Qed.

Lemma filter_length_nodup (t : nat) l :
  NoDup l -> t ∈ l -> length l = S (length (filter (fun t' => t' <> t) l)).
Proof.
  induction l as [|x l IH]; intros Hnd Hin; [inversion Hin|]. apply NoDup_cons in Hnd as [Hx Hnd].
  destruct (decide (x = t)) as [->|Hne].
  - rewrite filter_cons_False by auto. rewrite filter_ne_other by exact Hx. reflexivity.
  - rewrite filter_cons_True by exact Hne. cbn [length]. f_equal. apply IH; [exact Hnd|].
    apply elem_of_cons in Hin as [Hin|Hin]; [congruence|exact Hin].
Qed.

(** A permit taken, and a thread put in the queue. *)
Lemma rep_take sp p :
  sem_rep sp p -> 0 < p_free p ->
  0 <= sem_cnt sp - 1 /\ sem_rep (Sem (sem_queue sp) (sem_cnt sp - 1)) (Permits (p_free p - 1) (p_wait p)).
Proof.
  intros (Hq & Hnd & Hf & Hc & [H|H]) Hp; [|lia]. unfold sem_rep. cbn [sem_queue sem_cnt p_wait p_free].
  rewrite Hc, H in *. cbn [length] in *. split_and!; auto; lia.
Qed.

Lemma rep_wait t sp p :
  sem_rep sp p -> p_free p <= 0 -> t ∉ p_wait p ->
  sem_cnt sp - 1 < 0 /\ sem_rep (Sem (sem_queue sp ++ [t]) (sem_cnt sp - 1)) (Permits (p_free p) (p_wait p ++ [t])).
Proof.
  intros (Hq & Hnd & Hf & Hc & H) Hp Ht. unfold sem_rep. cbn [sem_queue sem_cnt p_wait p_free].
  rewrite Hq, length_app. cbn [length]. split_and!; auto; try lia.
  apply NoDup_app. split_and!; [exact Hnd| |apply NoDup_singleton].
  intros x Hx Hx'. apply list_elem_of_singleton in Hx'. subst x. contradiction.
Qed.

(** Every operation implements its specification. *)
Lemma sem_exec_spec op sp p :
  sem_rep sp p -> sem_op_ok op p ->
  exists sp', sem_exec op sp = Some (sp', snd (spec_exec op p)) /\ sem_rep sp' (fst (spec_exec op p)).
Proof.
  intros Hr [Hop Hb]. pose proof (rep_consistent _ _ Hr) as Hcons.
  pose proof Hr as (Hq & Hnd & Hf & Hc & H).
  destruct op as [t|t timeout| |n|n msg|t]; cbn [sem_exec spec_exec op_permits] in *.
  - destruct Hop as [Ht Hl]. unfold chSemWait, chSemWaitS, cnt_dec.
    rewrite Hcons. change (check true) with (Some tt). cbn [mbind option_bind].
    rewrite check_true by (apply Z.ltb_lt; lia). cbn [mbind option_bind sem_cnt sem_queue].
    destruct (Z.ltb_spec 0 (p_free p)) as [Hp|Hp].
    + destruct (rep_take _ _ Hr Hp) as [Hn Hr']. rewrite (proj2 (Z.ltb_ge _ _)) by exact Hn. eauto.
    + destruct (rep_wait t _ _ Hr Hp Ht) as [Hn Hr']. rewrite (proj2 (Z.ltb_lt _ _)) by exact Hn. eauto.
  - destruct Hop as [Ht Hl]. unfold chSemWaitTimeout, chSemWaitTimeoutS, cnt_dec, cnt_inc.
    rewrite Hcons. change (check true) with (Some tt). cbn [mbind option_bind].
    rewrite check_true by (apply Z.ltb_lt; lia). cbn [mbind option_bind sem_cnt sem_queue].
    destruct (Z.ltb_spec 0 (p_free p)) as [Hp|Hp].
    + destruct (rep_take _ _ Hr Hp) as [Hn Hr']. rewrite (proj2 (Z.ltb_ge _ _)) by exact Hn. eauto.
    + destruct (rep_wait t _ _ Hr Hp Ht) as [Hn Hr']. rewrite (proj2 (Z.ltb_lt _ _)) by exact Hn.
      destruct (timeout =? TIME_IMMEDIATE); [|eauto].
      rewrite check_true by (apply Z.ltb_lt; lia). cbn [mbind option_bind].
      replace (sem_cnt sp - 1 + 1) with (sem_cnt sp) by lia. destruct sp. eauto.
  - unfold chSemSignal, chSemSignalI. rewrite Hcons. change (check true) with (Some tt). cbn [mbind option_bind].
    destruct (release_spec sp p Hr Hb) as (sp' & ev & -> & Hr' & Hw). cbn [mbind option_bind]. rewrite Hw. eauto.
  - unfold chSemAddCounterI. rewrite Hcons, !check_true by (first [reflexivity | apply Z.ltb_lt; lia]). cbn [mbind option_bind].
    destruct (add_spec (Z.to_nat n) sp p Hr) as (sp' & ev & -> & Hr' & Hw); [lia|]. cbn [mbind option_bind].
    rewrite Z2Nat.id in * by lia. rewrite Hw. eauto.
  - unfold chSemResetWithMessage, chSemResetWithMessageI.
    rewrite Hcons, !check_true by (reflexivity || (apply Z.leb_le; lia)). cbn [mbind option_bind].
    rewrite wakes_messages, Hq. eexists. split; [reflexivity|]. cbn [fst].
    split_and!; cbn [sem_queue sem_cnt p_wait p_free length]; auto; try lia. constructor.
  - unfold sem_wakeup, chSemFastSignalI, cnt_inc, sch_wakeup. rewrite Hc.
    destruct H as [H|H]; [rewrite H in Hop; inversion Hop|].
    rewrite check_true by (apply Z.ltb_lt; lia). cbn [mbind option_bind sem_cnt sem_queue]. rewrite Hq.
    eexists. split; [reflexivity|]. cbn [fst].
    split_and!; cbn [sem_queue sem_cnt p_wait p_free]; auto; try lia; [apply NoDup_filter; exact Hnd|].
    rewrite (filter_length_nodup t (p_wait p) Hnd Hop). lia.
Qed.

Lemma sem_exec_all_spec ops : forall sp p,
  sem_rep sp p -> sem_ops_ok ops p ->
  exists sp', sem_exec_all ops sp = Some (sp', snd (spec_exec_all ops p)) /\ sem_rep sp' (fst (spec_exec_all ops p)).
Proof.
  induction ops as [|op ops IH]; intros sp p Hr Hok; cbn [sem_exec_all spec_exec_all] in *.
  - exists sp. auto.
  - destruct Hok as [Hop Hok]. destruct (sem_exec_spec op sp p Hr Hop) as (sp1 & -> & Hr1). cbn [mbind option_bind].
    destruct (IH sp1 _ Hr1 Hok) as (sp2 & -> & Hr2). cbn [mbind option_bind].
    destruct (spec_exec op p) as [p1 l1]. cbn [fst snd] in *.
    destruct (spec_exec_all ops p1) as [p2 l2]. cbn [fst snd] in *. eauto.
Qed.

Lemma sem_init_rep n : 0 <= n < 2 ^ 31 -> exists sp, chSemObjectInit n = Some sp /\ sem_rep sp (Permits n []).
Proof.
  intros Hn. unfold chSemObjectInit. rewrite check_true by (apply Z.leb_le; lia).
  eexists. split; [reflexivity|]. split_and!; cbn; auto; try lia. constructor.
Qed.

(** ** Permits *)

Definition granted (log : list (nat * Z)) : Z := Z.of_nat (length (filter (fun a => snd a = MSG_OK) log)).

Definition released (op : sem_op) : Z := match op with SSignal => 1 | SAdd n => n | _ => 0 end.
Definition is_reset (op : sem_op) : bool := match op with SReset _ _ => true | _ => false end.
Definition all_released (ops : list sem_op) : Z := foldr (fun op s => released op + s) 0 ops.

Lemma granted_app l1 l2 : granted (l1 ++ l2) = granted l1 + granted l2.
Proof. unfold granted. rewrite filter_app, length_app. lia. Qed.

Lemma granted_ok ts : granted (with_msg MSG_OK ts) = Z.of_nat (length ts).
Proof.
  induction ts as [|t ts IH]; [reflexivity|]. change (with_msg MSG_OK (t :: ts)) with ([(t, MSG_OK)] ++ with_msg MSG_OK ts).
  rewrite granted_app, IH. cbn [length]. change (granted [(t, MSG_OK)]) with 1. lia.
Qed.

Lemma spec_exec_permits op p :
  is_reset op = false -> sem_op_ok op p ->
  p_free (fst (spec_exec op p)) + granted (snd (spec_exec op p)) = p_free p + released op.
Proof.
  intros Hreset [Hop _]. assert (Hrel : forall n, 0 <= n ->
    p_free (fst (spec_release n p)) + granted (snd (spec_release n p)) = p_free p + n).
  { intros n Hn. unfold spec_release. cbn [fst snd p_free]. rewrite granted_ok, length_take. lia. }
  destruct op as [t|t timeout| |n|n msg|t]; cbn [spec_exec released is_reset] in *; try discriminate.
  - destruct (0 <? p_free p); cbn [fst snd p_free]; [change (granted [(t, MSG_OK)]) with 1|change (granted []) with 0]; lia.
  - destruct (0 <? p_free p); [|destruct (timeout =? TIME_IMMEDIATE)]; cbn [fst snd p_free];
      [change (granted [(t, MSG_OK)]) with 1|change (granted [(t, MSG_TIMEOUT)]) with 0|change (granted []) with 0]; lia.
  - apply Hrel. lia.
  - apply Hrel. lia.
  - cbn [fst snd p_free]. change (granted [(t, MSG_TIMEOUT)]) with 0. lia.
Qed.

Lemma spec_exec_all_permits ops : forall p,
  forallb (fun op => negb (is_reset op)) ops = true -> sem_ops_ok ops p ->
  p_free (fst (spec_exec_all ops p)) + granted (snd (spec_exec_all ops p)) = p_free p + all_released ops.
Proof.
  induction ops as [|op ops IH]; intros p Hr Hok; cbn [spec_exec_all forallb sem_ops_ok] in *.
  - change (granted (snd (p, []))) with 0. change (all_released []) with 0. cbn [fst]. lia.
  - apply andb_prop in Hr as [Hr1 Hr2]. destruct Hok as [Hop Hok]. apply negb_true_iff in Hr1.
    pose proof (spec_exec_permits op p Hr1 Hop) as H1. specialize (IH _ Hr2 Hok).
    destruct (spec_exec op p) as [p1 l1]. cbn [fst snd] in *.
    destruct (spec_exec_all ops p1) as [p2 l2]. cbn [fst snd] in *. rewrite granted_app.
    change (all_released (op :: ops)) with (released op + all_released ops). lia.
Qed.

(** Signalling one semaphore and waiting on another is the two operations one
    after the other, on the same semaphore too. *)
Lemma chSemSignalWait_split t sps spw m ss sw ps pw :
  m !! sps = Some ss -> m !! spw = Some sw -> sem_rep ss ps -> sem_rep sw pw -> p_free ps + 1 < 2 ^ 31 ->
  chSemSignalWait t sps spw m =
    ('(ss, ev) ← chSemSignal ss;
     let m := <[sps := ss]> m in
     sw ← m !! spw;
     '(sw, o) ← chSemWait t sw;
     Some (<[spw := sw]> m, o, ev)).
Proof.
  intros Hs Hw Rs Rw Hlt. unfold chSemSignalWait, chSemSignal, chSemSignalI, chSemWait, chSemWaitS.
  rewrite Hs, Hw. cbn [mbind option_bind].
  rewrite (rep_consistent _ _ Rs), (rep_consistent _ _ Rw). change (check true) with (Some tt). cbn [mbind option_bind].
  destruct (release_spec ss ps Rs Hlt) as (ss' & ev & -> & Rs' & _). cbn [mbind option_bind].
  assert (Hc : exists sw' pw', <[sps := ss']> m !! spw = Some sw' /\ sem_rep sw' pw').
  { destruct (decide (sps = spw)) as [->|Hne].
    - rewrite lookup_insert_eq. eauto.
    - rewrite lookup_insert_ne by exact Hne. eauto. }
  destruct Hc as (sw' & pw' & -> & Rw'). cbn [mbind option_bind].
  rewrite (rep_consistent _ _ Rw'). change (check true) with (Some tt). cbn [mbind option_bind].
  destruct (cnt_dec sw') as [sw''|]; [|reflexivity]. cbn [mbind option_bind].
  destruct (sem_cnt sw'' <? 0); reflexivity.
Qed.

(** ** The theorems *)

(** C18: a semaphore initialised with n permits implements permits and a first-come
    first-served queue: through any sequence of waits, signals, resets and
    timeouts no operation is undefined or trips an assertion, every wait call is
    answered as the specification says, and the counter is the number of free
    permits, or minus the number of waiting threads. *)
Theorem sem_refines_permits n ops :
  0 <= n < 2 ^ 31 -> sem_ops_ok ops (Permits n []) ->
  exists sp0 sp, chSemObjectInit n = Some sp0 /\
    sem_exec_all ops sp0 = Some (sp, snd (spec_exec_all ops (Permits n []))) /\
    sem_queue sp = p_wait (fst (spec_exec_all ops (Permits n []))) /\
    chSemGetCounterI sp = p_free (fst (spec_exec_all ops (Permits n [])))
                          - Z.of_nat (length (p_wait (fst (spec_exec_all ops (Permits n []))))).
Proof.
  intros Hn Hok. destruct (sem_init_rep n Hn) as (sp0 & E0 & Hr).
  destruct (sem_exec_all_spec ops sp0 _ Hr Hok) as (sp & E & Hq & _ & _ & Hc & _).
  exists sp0, sp. auto.
Qed.

(** Without resets no permit is lost or invented: the free permits and the
    granted waits together are the initial permits and those released since, and
    threads wait only while no permit is free; timeouts change nothing. *)
Theorem sem_permits_conserved n ops :
  0 <= n < 2 ^ 31 -> forallb (fun op => negb (is_reset op)) ops = true -> sem_ops_ok ops (Permits n []) ->
  exists sp0 sp log, chSemObjectInit n = Some sp0 /\ sem_exec_all ops sp0 = Some (sp, log) /\
    Z.max 0 (chSemGetCounterI sp) + granted log = n + all_released ops /\
    (sem_queue sp <> [] <-> chSemGetCounterI sp < 0).
Proof.
  intros Hn Hr Hok. destruct (sem_init_rep n Hn) as (sp0 & E0 & Hr0).
  destruct (sem_exec_all_spec ops sp0 _ Hr0 Hok) as (sp & E & Hrep).
  pose proof (spec_exec_all_permits ops _ Hr Hok) as Hp. cbn [p_free] in Hp.
  destruct Hrep as (Hq & _ & Hf & Hc & H). unfold chSemGetCounterI.
  exists sp0, sp, (snd (spec_exec_all ops (Permits n []))). split_and!; auto.
  - rewrite Hc. destruct H as [H|H]; rewrite H in *; cbn [length] in *; lia.
  - rewrite Hq, Hc. destruct (p_wait (fst (spec_exec_all ops (Permits n [])))) as [|t ts]; cbn [length] in *.
    + split; [congruence|lia].
    + destruct H as [H|H]; [discriminate|]. split; [lia|discriminate].
Qed.

(** ** Witnesses *)

Definition sem_demo : list sem_op :=
  [SWait 1; SWaitTimeout 2 0; SWaitTimeout 3 50; SWait 4; STimeout 3; SSignal; SAdd 2; SWait 5].

Lemma sem_demo_ok : sem_ops_ok sem_demo (Permits 1 []).
Proof.
  cbn. unfold sem_op_ok. cbn.
  repeat match goal with
  | |- _ /\ _ => split
  | |- ?t ∉ ?l => apply (bool_decide_unpack (t ∉ l)); vm_compute; exact Logic.I
  | |- ?t ∈ ?l => apply (bool_decide_unpack (t ∈ l)); vm_compute; exact Logic.I
  | |- True => exact Logic.I
  | |- (_ < _)%Z => reflexivity
  end.
Defined.

Lemma sem_refines_permits_witness :
  exists sp0 sp, chSemObjectInit 1 = Some sp0 /\
    sem_exec_all sem_demo sp0 = Some (sp, snd (spec_exec_all sem_demo (Permits 1 []))) /\
    sem_queue sp = p_wait (fst (spec_exec_all sem_demo (Permits 1 []))) /\
    chSemGetCounterI sp = p_free (fst (spec_exec_all sem_demo (Permits 1 [])))
                          - Z.of_nat (length (p_wait (fst (spec_exec_all sem_demo (Permits 1 []))))).
Proof. apply (sem_refines_permits 1 sem_demo); [lia|exact sem_demo_ok]. Defined.

Lemma sem_permits_conserved_witness :
  exists sp0 sp log, chSemObjectInit 1 = Some sp0 /\ sem_exec_all sem_demo sp0 = Some (sp, log) /\
    Z.max 0 (chSemGetCounterI sp) + granted log = 1 + all_released sem_demo /\
    (sem_queue sp <> [] <-> chSemGetCounterI sp < 0).
Proof. apply (sem_permits_conserved 1 sem_demo); [lia|reflexivity|exact sem_demo_ok]. Defined.

(** ** Binary semaphores (chbsem.h)

    A semaphore whose counter is kept at one: the signal of a free one has no effect.
    The theorem refines it to a token that is free or taken, with the threads that wait
    for it, through any sequence of operations, without the bound on the number of
    signals that a counting semaphore has. *)

(** *** Data and operations *)

Record binary_semaphore_t := BSem { bs_sem : semaphore_t }.

Definition chBSemObjectInit (taken : bool) : option binary_semaphore_t :=
  s ← chSemObjectInit (if taken then 0 else 1); Some (BSem s).

Definition chBSemWaitS (t : nat) (bsp : binary_semaphore_t) : option (binary_semaphore_t * outcome Z unit) :=
  '(s, o) ← chSemWaitS t (bs_sem bsp); Some (BSem s, o).
Definition chBSemWait (t : nat) (bsp : binary_semaphore_t) : option (binary_semaphore_t * outcome Z unit) :=
  '(s, o) ← chSemWait t (bs_sem bsp); Some (BSem s, o).
Definition chBSemWaitTimeoutS (t : nat) (timeout : Z) (bsp : binary_semaphore_t) : option (binary_semaphore_t * outcome Z unit) :=
  '(s, o) ← chSemWaitTimeoutS t timeout (bs_sem bsp); Some (BSem s, o).
Definition chBSemWaitTimeout (t : nat) (timeout : Z) (bsp : binary_semaphore_t) : option (binary_semaphore_t * outcome Z unit) :=
  '(s, o) ← chSemWaitTimeout t timeout (bs_sem bsp); Some (BSem s, o).

Definition chBSemResetI (taken : bool) (bsp : binary_semaphore_t) : option (binary_semaphore_t * list event) :=
  '(s, ev) ← chSemResetI (if taken then 0 else 1) (bs_sem bsp); Some (BSem s, ev).
Definition chBSemReset (taken : bool) (bsp : binary_semaphore_t) : option (binary_semaphore_t * list event) :=
  '(s, ev) ← chSemReset (if taken then 0 else 1) (bs_sem bsp); Some (BSem s, ev).

Definition chBSemSignalI (bsp : binary_semaphore_t) : option (binary_semaphore_t * list event) :=
  if sem_cnt (bs_sem bsp) <? 1 then '(s, ev) ← chSemSignalI (bs_sem bsp); Some (BSem s, ev) else Some (bsp, []).
Definition chBSemSignal (bsp : binary_semaphore_t) : option (binary_semaphore_t * list event) := chBSemSignalI bsp.

(** Whether it is taken. *)
Definition chBSemGetStateI (bsp : binary_semaphore_t) : bool := if 0 <? sem_cnt (bs_sem bsp) then false else true.

(** *** Runs *)

Inductive bsem_op :=
| BWait (t : nat)
| BWaitTimeout (t : nat) (timeout : Z)
| BSignal
| BReset (taken : bool)
| BTimeout (t : nat).

Definition bsem_exec (op : bsem_op) (b : binary_semaphore_t) : option (binary_semaphore_t * list (nat * Z)) :=
  match op with
  | BWait t => '(b, o) ← chBSemWait t b; Some (b, answers t o)
  | BWaitTimeout t timeout => '(b, o) ← chBSemWaitTimeout t timeout b; Some (b, answers t o)
  | BSignal => '(b, ev) ← chBSemSignal b; Some (b, wakes ev)
  | BReset taken => '(b, ev) ← chBSemReset taken b; Some (b, wakes ev)
  | BTimeout t => '(s, ev) ← sem_wakeup t (bs_sem b); Some (BSem s, wakes ev)
  end.

Fixpoint bsem_exec_all (ops : list bsem_op) (b : binary_semaphore_t) : option (binary_semaphore_t * list (nat * Z)) :=
  match ops with
  | [] => Some (b, [])
  | op :: ops => '(b, l) ← bsem_exec op b; '(b, ls) ← bsem_exec_all ops b; Some (b, l ++ ls)
  end.

(** *** Specification: a token *)

Record token := Token { tk_taken : bool; tk_wait : list nat }.

(** The token goes to the first waiting thread, or is free. *)
Definition token_exec (op : bsem_op) (k : token) : token * list (nat * Z) :=
  match op with
  | BWait t => if tk_taken k then (Token true (tk_wait k ++ [t]), []) else (Token true (tk_wait k), [(t, MSG_OK)])
  | BWaitTimeout t timeout =>
      if tk_taken k then
        if timeout =? TIME_IMMEDIATE then (k, [(t, MSG_TIMEOUT)]) else (Token true (tk_wait k ++ [t]), [])
      else (Token true (tk_wait k), [(t, MSG_OK)])
  | BSignal => match tk_wait k with [] => (Token false [], []) | t :: ts => (Token true ts, [(t, MSG_OK)]) end
  | BReset taken => (Token taken [], with_msg MSG_RESET (rev (tk_wait k)))
  | BTimeout t => (Token true (filter (fun t' => t' <> t) (tk_wait k)), [(t, MSG_TIMEOUT)])
  end.

Fixpoint token_exec_all (ops : list bsem_op) (k : token) : token * list (nat * Z) :=
  match ops with
  | [] => (k, [])
  | op :: ops => let '(k, l) := token_exec op k in let '(k, ls) := token_exec_all ops k in (k, l ++ ls)
  end.

(** A thread waits at most once, and only waiting threads time out. *)
Definition bsem_op_ok (op : bsem_op) (k : token) : Prop :=
  match op with
  | BWait t | BWaitTimeout t _ => (t ∉ tk_wait k) /\ Z.of_nat (length (tk_wait k)) < 2 ^ 31
  | BTimeout t => t ∈ tk_wait k
  | BSignal | BReset _ => True
  end.

Fixpoint bsem_ops_ok (ops : list bsem_op) (k : token) : Prop :=
  match ops with
  | [] => True
  | op :: ops => bsem_op_ok op k /\ bsem_ops_ok ops (fst (token_exec op k))
  end.

(** *** Refinement *)

Definition token_permits (k : token) : permits := Permits (if tk_taken k then 0 else 1) (tk_wait k).

Definition bsem_rep (b : binary_semaphore_t) (k : token) : Prop :=
  sem_rep (bs_sem b) (token_permits k) /\ (tk_taken k = false -> tk_wait k = []).

(** An operation that is one of the counting semaphore. *)
Lemma bsem_by_sem op sop b k k' l : bsem_rep b k -> sem_op_ok sop (token_permits k) ->
  (forall s r, sem_exec sop (bs_sem b) = Some (s, r) -> bsem_exec op b = Some (BSem s, r)) ->
  spec_exec sop (token_permits k) = (token_permits k', l) -> (tk_taken k' = false -> tk_wait k' = []) ->
  exists b', bsem_exec op b = Some (b', l) /\ bsem_rep b' k'.
Proof.
  intros [Hr _] Hok He Es Hk. destruct (sem_exec_spec sop (bs_sem b) _ Hr Hok) as (s' & E & Hr'). rewrite Es in E, Hr'.
  exists (BSem s'). split; [apply He, E|]. split; [exact Hr'|exact Hk].
Qed.

Ltac bsem_same :=
  intros s r E; unfold bsem_exec, sem_exec, chBSemWait, chBSemWaitTimeout, chBSemReset, chBSemSignal, chSemSignal, chSemReset in *;
  match type of E with context [mbind _ ?o] => destruct o as [[? ?]|]; [|discriminate E] end; cbn [mbind option_bind] in *; congruence.

Lemma bsem_exec_spec op b k : bsem_rep b k -> bsem_op_ok op k ->
  exists b', bsem_exec op b = Some (b', snd (token_exec op k)) /\ bsem_rep b' (fst (token_exec op k)).
Proof.
  intros H Hop. destruct k as [taken ts]. pose proof (proj2 H) as Hfree. cbn in Hfree.
  destruct op as [t|t timeout| |taken'|t]; cbn [token_exec tk_taken tk_wait] in *.
  - destruct taken; (eapply (bsem_by_sem _ (SWait t)); [exact H|split; [exact Hop|cbn; lia]|bsem_same|reflexivity|cbn; auto; discriminate]).
  - destruct taken; [destruct (timeout =? TIME_IMMEDIATE) eqn:Et|];
      (eapply (bsem_by_sem _ (SWaitTimeout t timeout)); [exact H|split; [exact Hop|cbn; lia]|bsem_same|cbn; rewrite ?Et; reflexivity|cbn; auto; discriminate]).
  - pose proof (proj1 H) as (Hq & _ & _ & Hc & _). cbn [token_permits p_free p_wait tk_taken tk_wait] in Hq, Hc.
    destruct taken.
    + assert (Hlt : (sem_cnt (bs_sem b) <? 1) = true) by (apply Z.ltb_lt; lia).
      destruct ts as [|t ts].
      * eapply (bsem_by_sem _ SSignal); [exact H|split; [exact Logic.I|cbn; lia]| |reflexivity|reflexivity].
        intros s r E. unfold bsem_exec, chBSemSignal, chBSemSignalI. rewrite Hlt. revert s r E. bsem_same.
      * eapply (bsem_by_sem _ SSignal _ _ (Token true ts)); [exact H|split; [exact Logic.I|cbn; lia]| | |discriminate].
        -- intros s r E. unfold bsem_exec, chBSemSignal, chBSemSignalI. rewrite Hlt. revert s r E. bsem_same.
        -- cbn. unfold spec_release. cbn [token_permits p_free p_wait tk_taken tk_wait length]. unfold token_permits. cbn. f_equal. f_equal. lia.
    + rewrite (Hfree eq_refl) in *. cbn [length] in Hc. exists b. cbn [bsem_exec]. unfold chBSemSignal, chBSemSignalI.
      rewrite (proj2 (Z.ltb_ge _ _)) by lia. split; [reflexivity|exact H].
  - eapply (bsem_by_sem _ (SReset (if taken' then 0 else 1) MSG_RESET));
      [exact H|split; cbn; destruct taken'; lia|bsem_same|destruct taken'; reflexivity|destruct taken'; auto].
  - eapply (bsem_by_sem _ (STimeout t)); [exact H|split; [exact Hop|cbn; destruct taken; lia]|bsem_same| |discriminate].
    destruct taken; [reflexivity|]. rewrite (Hfree eq_refl) in Hop. apply elem_of_nil in Hop. contradiction.
Qed.

Lemma bsem_exec_all_spec ops : forall b k, bsem_rep b k -> bsem_ops_ok ops k ->
  exists b', bsem_exec_all ops b = Some (b', snd (token_exec_all ops k)) /\ bsem_rep b' (fst (token_exec_all ops k)).
Proof.
  induction ops as [|op ops IH]; intros b k H Hok; cbn in *; [eauto|]. destruct Hok as [Hop Hok].
  destruct (bsem_exec_spec op b k H Hop) as (b1 & -> & H1). destruct (token_exec op k) as [k1 l1]. cbn in *.
  destruct (IH b1 k1 H1 Hok) as (b2 & -> & H2). destruct (token_exec_all ops k1) as [k2 l2]. cbn in *. eauto.
Qed.

(** A binary semaphore is a token: through any sequence of waits, signals, resets and
    timeouts no assertion fails and no counter overflows, every call gets the answer that
    the token gives, and the state that is read is whether the token is taken. *)
Theorem bsem_refines_token (taken : bool) (ops : list bsem_op) :
  bsem_ops_ok ops (Token taken []) ->
  exists b0 b, chBSemObjectInit taken = Some b0 /\
    bsem_exec_all ops b0 = Some (b, snd (token_exec_all ops (Token taken []))) /\
    sem_queue (bs_sem b) = tk_wait (fst (token_exec_all ops (Token taken []))) /\
    chBSemGetStateI b = tk_taken (fst (token_exec_all ops (Token taken []))).
Proof.
  intros Hok. assert (E : chBSemObjectInit taken = Some (BSem (Sem [] (if taken then 0 else 1)))) by (destruct taken; reflexivity).
  assert (H0 : bsem_rep (BSem (Sem [] (if taken then 0 else 1))) (Token taken [])).
  { split; [|auto]. split_and!; [reflexivity|constructor|destruct taken; cbn; lia|destruct taken; cbn; lia|destruct taken; cbn; lia|auto]. }
  destruct (bsem_exec_all_spec ops _ _ H0 Hok) as (b & Eb & (Hq & _ & _ & Hc & _) & Hf).
  do 2 eexists. split; [exact E|]. split; [exact Eb|]. split; [exact Hq|]. unfold chBSemGetStateI. rewrite Hc. cbn [token_permits p_free p_wait].
  destruct (tk_taken (fst (token_exec_all ops (Token taken [])))); [rewrite (proj2 (Z.ltb_ge _ _)) by lia; reflexivity|].
  rewrite Hf by reflexivity. reflexivity.
Qed.

Definition bsem_demo : list bsem_op := [BSignal; BSignal; BWait 1; BWait 2; BWaitTimeout 3 0; BSignal; BReset false].

Lemma bsem_refines_token_witness :
  exists b0 b, chBSemObjectInit true = Some b0 /\
    bsem_exec_all bsem_demo b0 = Some (b, snd (token_exec_all bsem_demo (Token true []))) /\
    sem_queue (bs_sem b) = tk_wait (fst (token_exec_all bsem_demo (Token true []))) /\
    chBSemGetStateI b = tk_taken (fst (token_exec_all bsem_demo (Token true []))).
Proof.
  apply (bsem_refines_token true bsem_demo). cbn.
  repeat match goal with
  | |- _ /\ _ => split
  | |- ?t ∉ ?l => apply (bool_decide_unpack (t ∉ l)); vm_compute; exact Logic.I
  | |- True => exact Logic.I
  | |- (_ < _)%Z => reflexivity
  end.
Defined.
