(* ===== verification/Serial.v ===== *)
(** * The serial driver, and the GPS receiver behind it (hal_serial.c, gps.c)

    The driver joins an input and an output queue to the interrupt of a port and
    tells listeners what happens by event flags.  The second half composes the
    receive interrupt, the input queue and the thread of gps.c, which waits in
    [sdGet] or sleeps: however interrupts and thread interleave, the thread sees
    the bytes of the port in order, and misses only those flagged as lost. *)

From stdpp Require Import gmap.
From S2P Require Import Prelude CInt CFloat CLib Chtime Ocxo Gps Threads Rings Queues.
#[local] Open Scope Z_scope.

(** ** The driver *)

Inductive sdstate_t := SD_UNINIT | SD_STOP | SD_READY.

Record SerialDriver := SD { sd_state : sdstate_t; sd_iqueue : io_queue; sd_oqueue : io_queue }.

Definition SERIAL_BUFFERS_SIZE : nat := 16.
Definition CHN_INPUT_AVAILABLE : Z := 4.
Definition CHN_OUTPUT_EMPTY : Z := 8.
Definition SD_QUEUE_FULL_ERROR : Z := 2048.

(** The buffers [ib] and [ob] hold whatever they held. *)
Definition sdObjectInit (ib ob : list Z) (inotify onotify : bool) : SerialDriver :=
  SD SD_STOP (iqObjectInit ib inotify) (oqObjectInit ob onotify).

Definition sd_usable (sd : SerialDriver) : bool :=
  match sd_state sd with SD_UNINIT => false | _ => true end.

(** [sd_lld_start] sets up the port, and cannot fail. *)
Definition sdStart (sd : SerialDriver) : option SerialDriver :=
  _ ← check (sd_usable sd); Some (SD SD_READY (sd_iqueue sd) (sd_oqueue sd)).

Definition sdStop (sd : SerialDriver) : option (SerialDriver * list event) :=
  _ ← check (sd_usable sd);
  let '(oq, ev1) := oqResetI (sd_oqueue sd) in
  let '(iq, ev2) := iqResetI (sd_iqueue sd) in
  Some (SD SD_STOP iq oq, ev1 ++ ev2).

(** The flags broadcast, and the events of the queue. *)
Definition sdIncomingDataI (b : Z) (sd : SerialDriver) : option (SerialDriver * list Z * list event) :=
  let flags := if iqIsEmptyI (sd_iqueue sd) then [CHN_INPUT_AVAILABLE] else [] in
  '(iq, msg, ev) ← iqPutI b (sd_iqueue sd);
  Some (SD (sd_state sd) iq (sd_oqueue sd),
        flags ++ (if msg <? MSG_OK then [SD_QUEUE_FULL_ERROR] else []), ev).

Definition sdRequestDataI (sd : SerialDriver) : option (SerialDriver * Z * list Z * list event) :=
  '(oq, b, ev) ← oqGetI (sd_oqueue sd);
  Some (SD (sd_state sd) (sd_iqueue sd) oq, b, if b <? MSG_OK then [CHN_OUTPUT_EMPTY] else [], ev).

Definition sdPutWouldBlock (sd : SerialDriver) : bool := oqIsFullI (sd_oqueue sd).
Definition sdGetWouldBlock (sd : SerialDriver) : bool := iqIsEmptyI (sd_iqueue sd).

(** The methods of the channel: calls of the queues with or without a timeout. *)
Definition on_iqueue {A} (sd : SerialDriver) (r : option (io_queue * A * list event))
  : option (SerialDriver * A * list event) :=
  '(iq, o, ev) ← r; Some (SD (sd_state sd) iq (sd_oqueue sd), o, ev).
Definition on_oqueue {A} (sd : SerialDriver) (r : option (io_queue * A * list event))
  : option (SerialDriver * A * list event) :=
  '(oq, o, ev) ← r; Some (SD (sd_state sd) (sd_iqueue sd) oq, o, ev).

Definition sd_gett (t : nat) (timeout : Z) (sd : SerialDriver) :=
  on_iqueue sd (iqGetTimeout t timeout (sd_iqueue sd)).
Definition sd_get (t : nat) (sd : SerialDriver) := sd_gett t TIME_INFINITE sd.
Definition sd_putt (t : nat) (b timeout : Z) (sd : SerialDriver) :=
  on_oqueue sd (oqPutTimeout t b timeout (sd_oqueue sd)).
Definition sd_put (t : nat) (b : Z) (sd : SerialDriver) := sd_putt t b TIME_INFINITE sd.
Definition sd_readt (t : nat) (n timeout : Z) (sd : SerialDriver) :=
  on_iqueue sd (iqReadTimeout_step t timeout ([], n) (sd_iqueue sd)).
Definition sd_read (t : nat) (n : Z) (sd : SerialDriver) := sd_readt t n TIME_INFINITE sd.
Definition sd_writet (t : nat) (bp : list Z) (timeout : Z) (sd : SerialDriver) :=
  on_oqueue sd (oqWriteTimeout_step t timeout (0, bp) (sd_oqueue sd)).
Definition sd_write (t : nat) (bp : list Z) (sd : SerialDriver) := sd_writet t bp TIME_INFINITE sd.

(** [sdGet], called and resumed with the message that woke its thread. *)
Definition sdGet (t : nat) (sd : SerialDriver) := sd_get t sd.
Definition sdGet_resume (t : nat) (msg : Z) (sd : SerialDriver) :=
  on_iqueue sd (iqGetTimeout_resume t TIME_INFINITE msg (sd_iqueue sd)).

(** ** The GPS receiver on its port

    Where the thread of gps.c is: about to call [sdGet], suspended in it, made
    ready with a message, or asleep after a NUL. *)

Inductive gps_pc := GpsCall | GpsWait | GpsReady (msg : Z) | GpsSleep.

Record gps_link := Link { l_sd : SerialDriver; l_pc : gps_pc; l_thread : gps_thread; l_state : gps_state }.

Definition gps_tid : nat := 0.

(** The thread has got byte [v], or is suspended. *)
Definition link_got (l : gps_link) (r : option (SerialDriver * outcome Z unit * list event)) : option gps_link :=
  '(sd, o, _) ← r;
  match o with
  | Return v =>
      let c := u8 v in
      '(t, s) ← gps_char c (l_thread l) (l_state l);
      Some (Link sd (if c =? 0 then GpsSleep else GpsCall) t s)
  | _ => Some (Link sd GpsWait (l_thread l) (l_state l))
  end.

(** A run of the thread, up to its next byte, suspension or the end of its sleep. *)
Definition link_gps (l : gps_link) : option gps_link :=
  match l_pc l with
  | GpsCall => link_got l (sdGet gps_tid (l_sd l))
  | GpsReady msg => link_got l (sdGet_resume gps_tid msg (l_sd l))
  | GpsSleep => Some (Link (l_sd l) GpsCall (l_thread l) (l_state l))
  | GpsWait => Some l
  end.

(** Delivery of a wake-up to the thread. *)
Definition link_wake (ev : list event) (pc : gps_pc) : gps_pc :=
  match pc, wakes ev with
  | GpsWait, (_, msg) :: _ => GpsReady msg
  | _, _ => pc
  end.

(** The receive interrupt with a byte; what the port has accepted. *)
Definition link_isr (b : Z) (l : gps_link) : option (gps_link * list Z) :=
  '(sd, flags, ev) ← sdIncomingDataI b (l_sd l);
  Some (Link sd (link_wake ev (l_pc l)) (l_thread l) (l_state l),
        if bool_decide (SD_QUEUE_FULL_ERROR ∈ flags) then [] else [b]).

Inductive link_event := LByte (b : Z) | LRun.

Fixpoint link_run (es : list link_event) (l : gps_link) : option (gps_link * list Z) :=
  match es with
  | [] => Some (l, [])
  | LByte b :: es =>
      '(l, acc) ← link_isr b l;
      '(l, accs) ← link_run es l;
      Some (l, acc ++ accs)
  | LRun :: es => l ← link_gps l; link_run es l
  end.

(** The port as [gps_init] starts it, the line buffer holding anything. *)
Definition link_init (ib ob buf : list Z) : option gps_link :=
  sd ← sdStart (sdObjectInit ib ob false true);
  Some (Link sd GpsCall (GpsThread buf 0) gps_state0).

(** ** Invariant *)

Definition is_byte (b : Z) : Prop := 0 <= b < 256.
Definition link_queue (l : gps_link) : io_queue := sd_iqueue (l_sd l).
Definition link_content (l : gps_link) : list Z := iq_content (link_queue l).

Lemma gps_chars_app cs1 cs2 : forall t s,
  gps_chars (cs1 ++ cs2) t s = ('(t, s) ← gps_chars cs1 t s; gps_chars cs2 t s).
Proof.
  induction cs1 as [|c cs1 IH]; intros t s; [reflexivity|]. cbn [app gps_chars].
  destruct (gps_char c t s) as [[t1 s1]|]; [apply IH|reflexivity].
Qed.

Section Link.
Context (t0 : gps_thread) (s0 : gps_state).

(** The thread has worked off the bytes [cs]; it is suspended only while nothing
    is left for it. *)
Definition link_inv (cs : list Z) (l : gps_link) : Prop :=
  iq_ok (link_queue l) /\ gps_chars cs t0 s0 = Some (l_thread l, l_state l) /\
  Forall is_byte (link_content l) /\
  match l_pc l with
  | GpsWait => q_waiting (link_queue l) = [gps_tid] /\ link_content l = []
  | GpsReady msg => msg = MSG_OK /\ q_waiting (link_queue l) = []
  | _ => q_waiting (link_queue l) = []
  end.

Lemma link_isr_inv cs l b :
  link_inv cs l -> is_byte b ->
  exists l' acc, link_isr b l = Some (l', acc) /\ link_inv cs l' /\
    link_content l' = link_content l ++ acc /\ (acc = [b] \/ acc = []) /\ l_pc l' <> GpsWait.
Proof.
  intros (Hok & Hcs & Hby & Hpc) Hb. unfold link_isr, sdIncomingDataI, link_content, link_queue in *.
  destruct l as [[st iq oq] pc t s]. cbn [l_sd sd_iqueue sd_state sd_oqueue l_pc l_thread l_state] in *.
  set (fl := if iqIsEmptyI iq then [CHN_INPUT_AVAILABLE] else []).
  assert (Hfl : SD_QUEUE_FULL_ERROR ∉ fl).
  { unfold fl. destruct (iqIsEmptyI iq); [|apply not_elem_of_nil].
    rewrite list_elem_of_singleton. discriminate. }
  pose proof (iq_length iq Hok) as Hlen. pose proof Hok as (Hsz & _ & Hcnt & _).
  destruct (decide (q_counter iq = q_top iq)) as [Hfull|Hroom].
  - rewrite (iqPutI_full b iq Hok Hfull). cbn [mbind option_bind l_sd sd_iqueue].
    change (MSG_TIMEOUT <? MSG_OK) with true.
    rewrite bool_decide_true by (apply elem_of_app; right; left).
    eexists _, []. split; [reflexivity|]. unfold link_inv, link_content, link_queue. cbn.
    assert (Hw : pc <> GpsWait).
    { intros ->. destruct Hpc as [_ Hnil]. rewrite Hnil in Hlen. cbn in Hlen. unfold q_top in *. lia. }
    rewrite app_nil_r. assert (Ew : link_wake [] pc = pc) by (destruct pc; reflexivity).
    split_and!; auto; rewrite Ew; assumption.
  - destruct (iqPutI_spec b iq Hok) as (iq' & ev & woken & E & Hok' & Hc & _ & _ & Hev & Hwait & Hone);
      [unfold q_top in *; lia|].
    rewrite E. cbn [mbind option_bind l_sd sd_iqueue]. change (MSG_OK <? MSG_OK) with false.
    rewrite app_nil_r, bool_decide_false by exact Hfl.
    eexists _, [b]. split; [reflexivity|]. unfold link_inv, link_content, link_queue. cbn [l_sd sd_iqueue l_pc l_thread l_state].
    rewrite Hc. assert (Hby' : Forall is_byte (iq_content iq ++ [b])) by (apply Forall_app; auto).
    assert (Hpc' : match link_wake ev pc with
                   | GpsWait => False
                   | GpsReady msg => msg = MSG_OK /\ q_waiting iq' = []
                   | _ => q_waiting iq' = [] end).
    { unfold link_wake. rewrite Hev. destruct pc as [| |msg|].
      - rewrite Hpc in Hwait. symmetry in Hwait. apply app_eq_nil in Hwait. tauto.
      - destruct Hpc as [Hw _]. rewrite Hw in Hwait.
        destruct woken as [|w woken]; [destruct Hone as [Hone|[_ Hone]]; [discriminate|rewrite Hone in Hwait; discriminate]|].
        injection Hwait as _ Hwait. symmetry in Hwait. apply app_eq_nil in Hwait. cbn. tauto.
      - destruct Hpc as [-> Hw]. rewrite Hw in Hwait. symmetry in Hwait. apply app_eq_nil in Hwait. tauto.
      - rewrite Hpc in Hwait. symmetry in Hwait. apply app_eq_nil in Hwait. tauto. }
    split_and!; auto; destruct (link_wake ev pc); auto; try contradiction; discriminate.
Qed.

(** The thread runs: it takes the first byte, or is suspended, or wakes up. *)
Lemma gps_inv cs l :
  link_inv cs l ->
  match link_gps l with
  | Some l' => exists cs', link_inv cs' l' /\ cs ++ link_content l = cs' ++ link_content l' /\
      match l_pc l with
      | GpsWait => l' = l
      | GpsSleep => l_pc l' = GpsCall /\ link_content l' = link_content l
      | _ => match link_content l with
             | [] => l_pc l' = GpsWait
             | _ :: rest => link_content l' = rest /\ (l_pc l' = GpsCall \/ l_pc l' = GpsSleep)
             end
      end
  | None => exists v rest, link_content l = v :: rest /\ gps_chars (cs ++ [v]) t0 s0 = None
  end.
Proof.
  intros (Hok & Hcs & Hby & Hpc). unfold link_gps, link_content, link_queue in *.
  destruct l as [[st iq oq] pc t s]. cbn [l_sd sd_iqueue sd_state sd_oqueue l_pc l_thread l_state] in *.
  assert (Hget : q_waiting iq = [] ->
    match link_got (Link (SD st iq oq) pc t s) (on_iqueue (SD st iq oq) (iqGetTimeout gps_tid TIME_INFINITE iq)) with
    | Some l' => exists cs', link_inv cs' l' /\ cs ++ iq_content iq = cs' ++ iq_content (sd_iqueue (l_sd l')) /\
        match iq_content iq with
        | [] => l_pc l' = GpsWait
        | _ :: rest => iq_content (sd_iqueue (l_sd l')) = rest /\ (l_pc l' = GpsCall \/ l_pc l' = GpsSleep)
        end
    | None => exists v rest, iq_content iq = v :: rest /\ gps_chars (cs ++ [v]) t0 s0 = None
    end).
  { intros Hw. unfold iqGetTimeout.
    destruct (iqGetI_cases iq Hok) as [[Hc ->]|[-> (iq' & v & -> & Hok' & Hc & _ & Hfr & _)]].
    - rewrite (iq_empty iq Hok Hc). unfold q_enqueue, chThdEnqueueTimeoutS.
      change (TIME_INFINITE =? TIME_IMMEDIATE) with false. cbn [mbind option_bind on_iqueue link_got].
      exists cs. split; [|split; [|reflexivity]].
      + split; [exact Hok|]. split; [exact Hcs|]. split; [exact Hby|]. split.
        * cbn. rewrite Hw. reflexivity.
        * exact (iq_empty iq Hok Hc).
      + f_equal. symmetry. exact (iq_empty iq Hok Hc).
    - cbn [mbind option_bind on_iqueue link_got l_thread l_state]. rewrite Hc in *.
      apply Forall_cons in Hby as [Hv Hby]. rewrite u8_id by exact Hv.
      assert (Happ : gps_chars (cs ++ [v]) t0 s0 = gps_char v t s).
      { rewrite gps_chars_app, Hcs. cbn [mbind option_bind gps_chars]. destruct (gps_char v t s) as [[]|]; reflexivity. }
      destruct (gps_char v t s) as [[t1 s1]|]; cbn [mbind option_bind].
      + exists (cs ++ [v]). split; [|split].
        * split_and!; cbn; auto. destruct (v =? 0); rewrite Hfr; exact Hw.
        * rewrite <- app_assoc. reflexivity.
        * cbn. split; [reflexivity|]. destruct (v =? 0); auto.
      + exists v, (iq_content iq'). auto. }
  destruct pc as [| |msg|].
  - exact (Hget Hpc).
  - exists cs. split_and!; auto. split_and!; cbn; auto.
  - destruct Hpc as [-> Hpc]. exact (Hget Hpc).
  - exists cs. split_and!; auto. split_and!; cbn; auto.
Qed.
End Link.

Definition event_byte (e : link_event) : list Z := match e with LByte b => [b] | LRun => [] end.
Definition link_bytes (es : list link_event) : list Z := es ≫= event_byte.

Section Runs.
Context (t0 : gps_thread) (s0 : gps_state).

Lemma link_run_inv es : forall cs l,
  link_inv t0 s0 cs l -> Forall is_byte (link_bytes es) ->
  match link_run es l with
  | Some (l', acc) => exists cs', link_inv t0 s0 cs' l' /\ cs' ++ link_content l' = cs ++ link_content l ++ acc /\
      sublist acc (link_bytes es)
  | None => exists cs', sublist cs' (cs ++ link_content l ++ link_bytes es) /\ gps_chars cs' t0 s0 = None
  end.
Proof.
  induction es as [|e es IH]; intros cs l Hinv Hes; cbn [link_run].
  - exists cs. rewrite app_nil_r. auto.
  - change (link_bytes (e :: es)) with (event_byte e ++ link_bytes es) in *. apply Forall_app in Hes as [He Hes].
    destruct e as [b|]; cbn [event_byte] in *.
    + apply Forall_cons in He as [Hb _].
      destruct (link_isr_inv t0 s0 cs l b Hinv Hb) as (l1 & acc & -> & Hinv1 & Hc1 & Hacc & _). cbn [mbind option_bind].
      assert (Hsub : sublist acc [b]) by (destruct Hacc as [-> | ->]; [reflexivity|apply sublist_nil_l]).
      specialize (IH cs l1 Hinv1 Hes). destruct (link_run es l1) as [[l2 accs]|]; cbn [mbind option_bind].
      * destruct IH as (cs' & Hinv2 & E & Hs2). exists cs'. rewrite E, Hc1, <- !app_assoc. split_and!; auto.
        apply sublist_app; assumption.
      * destruct IH as (cs' & Hs & E). exists cs'. split; [|exact E]. rewrite Hc1, <- app_assoc in Hs.
        etransitivity; [exact Hs|]. repeat (apply sublist_app; [reflexivity|]). apply sublist_app; [exact Hsub|reflexivity].
    + pose proof (gps_inv t0 s0 cs l Hinv) as Hg. destruct (link_gps l) as [l1|]; cbn [mbind option_bind].
      * destruct Hg as (cs1 & Hinv1 & E1 & _). specialize (IH cs1 l1 Hinv1 Hes).
        destruct (link_run es l1) as [[l2 accs]|].
        -- destruct IH as (cs' & Hinv2 & E & Hs2). exists cs'. rewrite E, !app_assoc, E1. auto.
        -- rewrite app_assoc, <- E1, <- app_assoc in IH. exact IH.
      * destruct Hg as (v & rest & Hc & E). exists (cs ++ [v]). split; [|exact E]. rewrite Hc. cbn [app].
        apply sublist_app; [reflexivity|]. apply sublist_skip, sublist_nil_l.
Qed.

(** How many runs the thread needs to be suspended with nothing left. *)
Definition runs_left (l : gps_link) : nat :=
  2 * length (link_content l) + match l_pc l with GpsWait => 0 | GpsSleep => 2 | _ => 1 end.

Lemma link_drains n : forall cs l t s,
  runs_left l = n -> link_inv t0 s0 cs l -> gps_chars (cs ++ link_content l) t0 s0 = Some (t, s) ->
  exists k l', (k <= n)%nat /\ link_run (replicate k LRun) l = Some (l', []) /\
    l_pc l' = GpsWait /\ link_content l' = [] /\ l_thread l' = t /\ l_state l' = s.
Proof.
  induction n as [n IH] using lt_wf_ind. intros cs l t s Hn Hinv Hcs.
  pose proof Hinv as (_ & Hthr & _ & Hpc).
  assert (Hstop : l_pc l = GpsWait -> l_thread l = t /\ l_state l = s /\ link_content l = []).
  { intros E. rewrite E in Hpc. destruct Hpc as [_ Hnil]. rewrite Hnil, app_nil_r in Hcs. split_and!; congruence. }
  pose proof (gps_inv t0 s0 cs l Hinv) as Hg. destruct (link_gps l) as [l1|] eqn:E1.
  - destruct Hg as (cs1 & Hinv1 & Ec & Hcase).
    assert (Hstep : (runs_left l1 < n)%nat -> exists k l', (k <= n)%nat /\
      link_run (replicate k LRun) l = Some (l', []) /\
      l_pc l' = GpsWait /\ link_content l' = [] /\ l_thread l' = t /\ l_state l' = s).
    { intros Hlt. rewrite Ec in Hcs. destruct (IH _ Hlt cs1 l1 t s eq_refl Hinv1 Hcs) as (k & l' & Hk & Er & Hrest).
      exists (S k), l'. cbn [replicate link_run]. rewrite E1. cbn [mbind option_bind]. split; [lia|]. auto. }
    unfold runs_left in Hn, Hstep. destruct (l_pc l) as [| |msg|] eqn:Epc.
    + destruct (link_content l) as [|v rest] eqn:El; apply Hstep.
      * rewrite Hcase. assert (link_content l1 = []) as ->; [|cbn in *; lia].
        destruct Hinv1 as (_ & _ & _ & Hp1). rewrite Hcase in Hp1. apply Hp1.
      * destruct Hcase as [-> [-> | ->]]; cbn [length] in *; lia.
    + destruct (Hstop eq_refl) as (H1 & H2 & H3). exists 0%nat, l. split; [lia|]. rewrite Epc. auto.
    + destruct (link_content l) as [|v rest] eqn:El; apply Hstep.
      * rewrite Hcase. assert (link_content l1 = []) as ->; [|cbn in *; lia].
        destruct Hinv1 as (_ & _ & _ & Hp1). rewrite Hcase in Hp1. apply Hp1.
      * destruct Hcase as [-> [-> | ->]]; cbn [length] in *; lia.
    + apply Hstep. destruct Hcase as [-> ->]. lia.
  - exfalso. destruct Hg as (v & rest & Hc & E). rewrite Hc in Hcs. change (v :: rest) with ([v] ++ rest) in Hcs.
    rewrite app_assoc, gps_chars_app, E in Hcs. discriminate.
Qed.
End Runs.

Lemma link_init_inv ib ob buf :
  ib <> [] -> exists l, link_init ib ob buf = Some l /\ link_inv (GpsThread buf 0) gps_state0 [] l /\
    link_content l = [] /\ l_pc l = GpsCall.
Proof.
  intros Hib. eexists. split; [reflexivity|]. unfold link_inv, link_content, link_queue. cbn [l_sd sd_iqueue l_thread l_state l_pc].
  split_and!; try reflexivity; [exact (iq_init_ok ib false Hib)|constructor].
Qed.

(** ** The theorems *)

(** C33: however the receive interrupt and the GPS thread interleave, the thread's
    state is that of [gps.c] run on the bytes of the port in order, except those
    flagged as lost because the queue was full: what was accepted is what the
    thread has worked off and what is still in the queue, and it is suspended only
    when nothing is.  The run is undefined only if parsing such a sequence is. *)
Theorem gps_sees_stream ib ob buf es :
  ib <> [] -> Forall is_byte (link_bytes es) ->
  exists l0, link_init ib ob buf = Some l0 /\
    match link_run es l0 with
    | Some (l, acc) => sublist acc (link_bytes es) /\
        exists cs, acc = cs ++ link_content l /\
          gps_chars cs (GpsThread buf 0) gps_state0 = Some (l_thread l, l_state l) /\
          (l_pc l = GpsWait -> link_content l = [])
    | None => exists cs, sublist cs (link_bytes es) /\ gps_chars cs (GpsThread buf 0) gps_state0 = None
    end.
Proof.
  intros Hib Hes. destruct (link_init_inv ib ob buf Hib) as (l0 & E0 & Hinv & Hc & _).
  exists l0. split; [exact E0|]. pose proof (link_run_inv _ _ es [] l0 Hinv Hes) as H. rewrite Hc in H.
  destruct (link_run es l0) as [[l acc]|]; cbn [app] in H; [|exact H].
  destruct H as (cs & (_ & Hcs & _ & Hpc) & E & Hs). split; [exact Hs|]. exists cs. split_and!; auto.
  intros Ew. rewrite Ew in Hpc. apply Hpc.
Qed.

(** Every accepted byte reaches the parser: when the port falls silent, the
    thread needs at most two runs for each byte in the queue, and two more, to be
    suspended with the state of [gps.c] run on all the accepted bytes. *)
Theorem gps_drains_port ib ob buf es l0 l acc t s :
  ib <> [] -> Forall is_byte (link_bytes es) -> link_init ib ob buf = Some l0 ->
  link_run es l0 = Some (l, acc) -> gps_chars acc (GpsThread buf 0) gps_state0 = Some (t, s) ->
  exists k l', (k <= 2 * length (link_content l) + 2)%nat /\
    link_run (replicate k LRun) l = Some (l', []) /\
    l_pc l' = GpsWait /\ link_content l' = [] /\ l_thread l' = t /\ l_state l' = s.
Proof.
  intros Hib Hes E0 Er Hg. destruct (link_init_inv ib ob buf Hib) as (l0' & E0' & Hinv & Hc & _).
  simplify_eq. pose proof (link_run_inv _ _ es [] l0 Hinv Hes) as H. rewrite Er, Hc in H. cbn [app] in H.
  destruct H as (cs & Hinv' & E & _). rewrite <- E in Hg.
  destruct (link_drains _ _ _ cs l t s eq_refl Hinv' Hg) as (k & l' & Hk & Hrest).
  exists k, l'. split; [|exact Hrest]. unfold runs_left in Hk. destruct (l_pc l); lia.
Qed.

(** ** Witnesses: a port with three cells; a date sentence arrives in two bursts,
    the second too fast. *)

Definition link_demo : list link_event :=
  [LRun; LByte 36; LRun; LByte 80; LByte 71; LRun; LRun; LByte 0; LRun; LByte 82; LByte 77; LByte 70; LByte 44; LRun; LRun].

Lemma link_demo_bytes : Forall is_byte (link_bytes link_demo).
Proof. unfold is_byte. cbn. repeat (apply Forall_cons; split; [lia|]). apply Forall_nil. exact Logic.I. Defined.

Lemma gps_sees_stream_witness :
  [0; 0; 0] <> [] /\ Forall is_byte (link_bytes link_demo) /\
  exists l0, link_init [0; 0; 0] [0] (replicate 128 0) = Some l0 /\
    match link_run link_demo l0 with
    | Some (l, acc) => sublist acc (link_bytes link_demo) /\
        exists cs, acc = cs ++ link_content l /\
          gps_chars cs (GpsThread (replicate 128 0) 0) gps_state0 = Some (l_thread l, l_state l) /\
          (l_pc l = GpsWait -> link_content l = [])
    | None => exists cs, sublist cs (link_bytes link_demo) /\
                gps_chars cs (GpsThread (replicate 128 0) 0) gps_state0 = None
    end.
Proof.
  split; [discriminate|]. split; [exact link_demo_bytes|].
  apply (gps_sees_stream [0; 0; 0] [0] (replicate 128 0) link_demo); [discriminate|exact link_demo_bytes].
Defined.

(** In the demonstration the comma is lost, and the rest reaches the line buffer. *)
Lemma gps_drains_port_witness :
  exists l0 l t s, link_init [0; 0; 0] [0] (replicate 128 0) = Some l0 /\
    link_run link_demo l0 = Some (l, [36; 80; 71; 0; 82; 77; 70]) /\
    exists k l', (k <= 2 * length (link_content l) + 2)%nat /\
      link_run (replicate k LRun) l = Some (l', []) /\
      l_pc l' = GpsWait /\ link_content l' = [] /\ l_thread l' = t /\ l_state l' = s.
Proof.
  destruct (link_init [0; 0; 0] [0] (replicate 128 0)) as [l0|] eqn:E0; [|discriminate].
  pose proof E0 as E0'. vm_compute in E0'. injection E0' as E0'.
  destruct (link_run link_demo l0) as [[l acc]|] eqn:Er; [|rewrite <- E0' in Er; vm_compute in Er; discriminate].
  pose proof Er as Er'. rewrite <- E0' in Er'. vm_compute in Er'. injection Er' as _ Ea.
  destruct (gps_chars acc (GpsThread (replicate 128 0) 0) gps_state0) as [[t s]|] eqn:Eg;
    [|rewrite <- Ea in Eg; vm_compute in Eg; discriminate].
  exists l0, l, t, s. split; [reflexivity|]. split; [rewrite Ea; exact Er|].
  apply (gps_drains_port [0; 0; 0] [0] (replicate 128 0) link_demo l0 l acc t s);
    [discriminate|exact link_demo_bytes|exact E0|exact Er|exact Eg].
Defined.
