(* ===== verification/Timers.v ===== *)
(** * Virtual timers (chvt.c, chlists.h)

    The kernel's timers as the firmware configures them: a free-running 32-bit
    counter with an alarm, and a list of the armed timers in which each holds the
    distance to the one before it.  Timers are known by number.  The clock is read
    from a list of absolute times, of which the counter shows the low 32 bits, so
    that time can pass between any two instructions.  The alarm's own assertions
    (hal_st.c) are checked.  The timer's interrupt handler takes the callbacks as
    an argument: what they do to timers may depend on all that has fired before. *)

From stdpp Require Import gmap.
From S2P Require Import Prelude CInt CLib Chtime Threads.
#[local] Open Scope Z_scope.

(** ** State *)

Definition CH_CFG_ST_TIMEDELTA : Z := 2.
Definition CH_RFCU_VT_INSUFFICIENT_DELTA : Z := 1.

(** An armed timer and its delta; the header of the list is not kept: its delta is
    restored to this maximum after every insertion and removal. *)
Abbreviation delta_list := (list (nat * Z)).
Definition header_delta : Z := 2 ^ 32 - 1.

Record vt_state := Vt {
  vt_dlist : delta_list;
  vt_lasttime : Z;
  vt_reload : gmap nat Z;
  vt_alarm : option Z;
  vt_faults : Z;
  vt_clock : list Z
}.

Definition with_dlist (dl : delta_list) (st : vt_state) : vt_state :=
  Vt dl (vt_lasttime st) (vt_reload st) (vt_alarm st) (vt_faults st) (vt_clock st).
Definition with_lasttime (t : Z) (st : vt_state) : vt_state :=
  Vt (vt_dlist st) t (vt_reload st) (vt_alarm st) (vt_faults st) (vt_clock st).
Definition with_reload (id : nat) (r : Z) (st : vt_state) : vt_state :=
  Vt (vt_dlist st) (vt_lasttime st) (<[id := r]> (vt_reload st)) (vt_alarm st) (vt_faults st) (vt_clock st).
Definition with_alarm (a : option Z) (st : vt_state) : vt_state :=
  Vt (vt_dlist st) (vt_lasttime st) (vt_reload st) a (vt_faults st) (vt_clock st).

(** [__vt_object_init], with the readings the clock will give. *)
Definition vt_object_init (clock : list Z) : vt_state := Vt [] 0 ∅ None 0 clock.

(** ** Counter and alarm *)

Definition chVTGetSystemTimeX (st : vt_state) : option (vt_state * Z) :=
  match vt_clock st with
  | [] => None
  | t :: ts => Some (Vt (vt_dlist st) (vt_lasttime st) (vt_reload st) (vt_alarm st) (vt_faults st) ts, u32 t)
  end.

Definition stIsAlarmActive (st : vt_state) : bool := match vt_alarm st with Some _ => true | None => false end.
Definition stStartAlarm (abstime : Z) (st : vt_state) : option vt_state :=
  _ ← check (negb (stIsAlarmActive st)); Some (with_alarm (Some abstime) st).
Definition stSetAlarm (abstime : Z) (st : vt_state) : option vt_state :=
  _ ← check (stIsAlarmActive st); Some (with_alarm (Some abstime) st).
Definition stStopAlarm (st : vt_state) : vt_state := with_alarm None st.

Definition chRFCUCollectFaultsI (mask : Z) (st : vt_state) : vt_state :=
  Vt (vt_dlist st) (vt_lasttime st) (vt_reload st) (vt_alarm st) (Z.lor (vt_faults st) mask) (vt_clock st).

(** The fault is logged when the configured delta was not enough. *)
Definition vt_check_delta (currdelta : Z) (st : vt_state) : vt_state :=
  if CH_CFG_ST_TIMEDELTA <? currdelta then chRFCUCollectFaultsI CH_RFCU_VT_INSUFFICIENT_DELTA st else st.

Definition vt_min_delay (delay : Z) : Z := if delay <? CH_CFG_ST_TIMEDELTA then CH_CFG_ST_TIMEDELTA else delay.

(** The loops that set the alarm again until the time has not skipped past it: a
    turn for each reading of the clock. *)
Fixpoint vt_set_alarm_loop (fuel : nat) (now delay currdelta : Z) (st : vt_state) : option (vt_state * Z) :=
  match fuel with
  | O => None
  | S fuel =>
      st ← stSetAlarm (chTimeAddX now delay) st;
      '(st, newnow) ← chVTGetSystemTimeX st;
      if chTimeDiffX now newnow <? delay then Some (st, currdelta)
      else
        let currdelta := u32 (currdelta + 1) in
        vt_set_alarm_loop fuel newnow currdelta currdelta st
  end.

Definition vt_set_alarm (now delay : Z) (st : vt_state) : option vt_state :=
  '(st, currdelta) ← vt_set_alarm_loop (S (length (vt_clock st))) now (vt_min_delay delay) CH_CFG_ST_TIMEDELTA st;
  Some (vt_check_delta currdelta st).

Fixpoint vt_insert_first_loop (fuel : nat) (now delay currdelta : Z) (st : vt_state) : option (vt_state * Z) :=
  match fuel with
  | O => None
  | S fuel =>
      '(st, newnow) ← chVTGetSystemTimeX st;
      if chTimeDiffX now newnow <? delay then Some (st, currdelta)
      else
        let currdelta := u32 (currdelta + 1) in
        st ← stSetAlarm (chTimeAddX now currdelta) st;
        vt_insert_first_loop fuel newnow currdelta currdelta st
  end.

Definition vt_insert_first (id : nat) (now delay : Z) (st : vt_state) : option vt_state :=
  let st := with_dlist [(id, delay)] (with_lasttime now st) in
  let delay := vt_min_delay delay in
  st ← stStartAlarm (chTimeAddX (vt_lasttime st) delay) st;
  '(st, currdelta) ← vt_insert_first_loop (S (length (vt_clock st))) now delay CH_CFG_ST_TIMEDELTA st;
  Some (vt_check_delta currdelta st).

(** ** The delta list *)

Definition in_list (id : nat) (dl : delta_list) : bool := existsb (fun p => Nat.eqb (fst p) id) dl.

(** Linking an element that is in the list already would corrupt it; the code's
    assertion sees that only for the elements it passes. *)
Fixpoint ch_dlist_insert (id : nat) (delta : Z) (dl : delta_list) : option delta_list :=
  match dl with
  | [] => Some [(id, delta)]
  | (i, d) :: dl' =>
      if d <? delta then
        _ ← check (negb (Nat.eqb i id));
        l ← ch_dlist_insert id (u32 (delta - d)) dl'; Some ((i, d) :: l)
      else
        _ ← check (negb (in_list id dl));
        Some ((id, delta) :: (i, u32 (d - delta)) :: dl')
  end.

(** The delta of a timer that is removed goes to the next one, if there is one. *)
Definition dlist_add (delta : Z) (dl : delta_list) : delta_list :=
  match dl with [] => [] | (i, d) :: dl => (i, u32 (d + delta)) :: dl end.

Fixpoint ch_dlist_dequeue (id : nat) (dl : delta_list) : option delta_list :=
  match dl with
  | [] => None
  | (i, d) :: dl =>
      if Nat.eqb i id then Some (dlist_add d dl)
      else l ← ch_dlist_dequeue id dl; Some ((i, d) :: l)
  end.

(** ** Arming and disarming *)

Definition vt_enqueue (id : nat) (delay : Z) (st : vt_state) : option vt_state :=
  '(st, now) ← chVTGetSystemTimeX st;
  match vt_dlist st with
  | [] => vt_insert_first id now delay st
  | (_, first) :: _ =>
      let nowdelta := chTimeDiffX (vt_lasttime st) now in
      let delta := u32 (nowdelta + delay) in
      let delta := if delta <? nowdelta then delay else delta in
      st ← (if delta <? first then vt_set_alarm now delay st else Some st);
      dl ← ch_dlist_insert id delta (vt_dlist st);
      Some (with_dlist dl st)
  end.

Definition chVTDoSetI (id : nat) (delay : Z) (st : vt_state) : option vt_state :=
  _ ← check (negb (delay =? TIME_IMMEDIATE)); vt_enqueue id delay (with_reload id 0 st).
Definition chVTDoSetContinuousI (id : nat) (delay : Z) (st : vt_state) : option vt_state :=
  _ ← check (negb (delay =? TIME_IMMEDIATE)); vt_enqueue id delay (with_reload id delay st).

Definition chVTIsArmedI (id : nat) (st : vt_state) : bool := in_list id (vt_dlist st).

Definition chVTDoResetI (id : nat) (st : vt_state) : option vt_state :=
  _ ← check (chVTIsArmedI id st);
  match vt_dlist st with
  | (i, d) :: dl =>
      if negb (Nat.eqb i id) then
        dl ← ch_dlist_dequeue id (vt_dlist st); Some (with_dlist dl st)
      else
        match dlist_add d dl with
        | [] => Some (stStopAlarm (with_dlist [] st))
        | (j, first) :: rest =>
            let st := with_dlist ((j, first) :: rest) st in
            '(st, now) ← chVTGetSystemTimeX st;
            let nowdelta := chTimeDiffX (vt_lasttime st) now in
            if first <=? nowdelta then Some st
            else vt_set_alarm now (u32 (first - nowdelta)) st
        end
  | [] => None
  end.

Definition chVTResetI (id : nat) (st : vt_state) : option vt_state :=
  if chVTIsArmedI id st then chVTDoResetI id st else Some st.
Definition chVTSetI (id : nat) (delay : Z) (st : vt_state) : option vt_state :=
  st ← chVTResetI id st; chVTDoSetI id delay st.
Definition chVTSetContinuousI (id : nat) (delay : Z) (st : vt_state) : option vt_state :=
  st ← chVTResetI id st; chVTDoSetContinuousI id delay st.

Definition chVTSetReloadIntervalX (id : nat) (reload : Z) (st : vt_state) : vt_state := with_reload id reload st.
Definition chVTGetReloadIntervalX (id : nat) (st : vt_state) : Z := default 0 (vt_reload st !! id).

Fixpoint vt_remaining (id : nat) (delta : Z) (dl : delta_list) : option Z :=
  match dl with
  | [] => None
  | (i, d) :: dl =>
      let delta := u32 (delta + d) in
      if Nat.eqb i id then Some delta else vt_remaining id delta dl
  end.

Definition chVTGetRemainingIntervalI (id : nat) (st : vt_state) : option (vt_state * Z) :=
  delta ← vt_remaining id 0 (vt_dlist st);
  '(st, now) ← chVTGetSystemTimeX st;
  let nowdelta := chTimeDiffX (vt_lasttime st) now in
  Some (st, if delta <? nowdelta then 0 else u32 (delta - nowdelta)).

(** The time to the next timer, when there is one. *)
Definition chVTGetTimersStateI (st : vt_state) : option (vt_state * option Z) :=
  match vt_dlist st with
  | [] => Some (st, None)
  | (_, first) :: _ =>
      '(st, now) ← chVTGetSystemTimeX st;
      Some (st, Some (u32 (u32 (first + CH_CFG_ST_TIMEDELTA) - chTimeDiffX (vt_lasttime st) now)))
  end.

(** Time stamps of 64 bits: the last one given out is passed along. *)
Definition chVTGetTimeStampI (last : Z) (st : vt_state) : option (vt_state * Z) :=
  '(st, now) ← chVTGetSystemTimeX st;
  let stamp := u64 (last + chTimeDiffX (u32 last) now) in
  _ ← check (last <=? stamp); Some (st, stamp).
Definition chVTResetTimeStampI (st : vt_state) : option (vt_state * Z) := chVTGetSystemTimeX st.

(** ** The interrupt handler *)

(** What a callback, or anyone else, does to timers. *)
Inductive vt_op :=
| VSet (id : nat) (delay : Z)
| VSetContinuous (id : nat) (delay : Z)
| VReset (id : nat)
| VSetReload (id : nat) (reload : Z).

Definition vt_exec (op : vt_op) (st : vt_state) : option vt_state :=
  match op with
  | VSet id delay => chVTSetI id delay st
  | VSetContinuous id delay => chVTSetContinuousI id delay st
  | VReset id => chVTResetI id st
  | VSetReload id reload => Some (chVTSetReloadIntervalX id reload st)
  end.

Fixpoint vt_exec_all (ops : list vt_op) (st : vt_state) : option vt_state :=
  match ops with
  | [] => Some st
  | op :: ops => st ← vt_exec op st; vt_exec_all ops st
  end.

(** A periodic timer is armed again after its callback; [true] when it was the
    only one, and the handler returns. *)
Definition vt_rearm (id : nat) (lasttime : Z) (st : vt_state) : option (vt_state * bool) :=
  let reload := chVTGetReloadIntervalX id st in
  if 0 <? reload then
    '(st, now) ← chVTGetSystemTimeX st;
    let nowdelta := chTimeDiffX lasttime now in
    _ ← check (negb (reload <? nowdelta));
    let delay := u32 (reload - nowdelta) in
    match vt_dlist st with
    | [] => st ← vt_insert_first id now delay st; Some (st, true)
    | _ =>
        let delta := u32 (nowdelta + delay) in
        let delta := if delta <? nowdelta then delay else delta in
        dl ← ch_dlist_insert id delta (vt_dlist st);
        Some (with_dlist dl st, false)
    end
  else Some (st, false).

(** After the last expired timer: the rest of the time since it is taken from the
    next timer, and the alarm is set for that one. *)
Definition vt_tick_end (now nowdelta : Z) (st : vt_state) : option vt_state :=
  match vt_dlist st with
  | [] => Some st
  | (i, d) :: dl =>
      let st := with_dlist ((i, u32 (d - nowdelta)) :: dl) (with_lasttime (u32 (vt_lasttime st + nowdelta)) st) in
      vt_set_alarm now (u32 (d - nowdelta)) st
  end.

(** The handler, with the timers it has fired. *)
Fixpoint vt_tick_loop (fuel : nat) (cb : list nat -> nat -> list vt_op) (fired : list nat) (st : vt_state)
  : option (vt_state * list nat) :=
  match fuel with
  | O => None
  | S fuel =>
      '(st, now) ← chVTGetSystemTimeX st;
      let nowdelta := chTimeDiffX (vt_lasttime st) now in
      match vt_dlist st with
      | [] => if nowdelta <? header_delta then st ← vt_tick_end now nowdelta st; Some (st, fired) else None
      | (id, d) :: dl =>
          if nowdelta <? d then st ← vt_tick_end now nowdelta st; Some (st, fired)
          else
            let lasttime := chTimeAddX (vt_lasttime st) d in
            let st := with_dlist dl (with_lasttime lasttime st) in
            let st := match dl with [] => stStopAlarm st | _ => st end in
            let fired := fired ++ [id] in
            st ← vt_exec_all (cb fired id) st;
            '(st, stop) ← vt_rearm id lasttime st;
            if stop : bool then Some (st, fired) else vt_tick_loop fuel cb fired st
      end
  end.

Definition chVTDoTickI (cb : list nat -> nat -> list vt_op) (st : vt_state) : option (vt_state * list nat) :=
  vt_tick_loop (S (length (vt_clock st))) cb [] st.
