(* ===== verification/TimersSpec.v ===== *)
(** * Virtual timers against absolute deadlines

    The specification keeps the time at which each armed timer is due, on a clock
    that does not wrap, and the time of the alarm.  A specified operation is
    defined only while the deadlines fit the counter, less than 2^32 ticks after
    the base of the list, and while no reading of the clock skips past an alarm
    just being set (the code logs a fault in that case).  The code implements it:
    timers fire in the order of their deadlines and never early, and after a tick
    the alarm is never set late. *)

From stdpp Require Import gmap sorting.
From S2P Require Import Prelude CInt CLib Chtime Threads Timers.
#[local] Open Scope Z_scope.

(** ** Specification *)

Record timers := Tm {
  tm_base : Z;
  tm_due : list (nat * Z);
  tm_reload : gmap nat Z;
  tm_alarm : option Z;
  tm_now : Z;
  tm_clock : list Z
}.

Definition timers0 (clock : list Z) : timers := Tm 0 [] ∅ None 0 clock.

Definition set_base (b : Z) (s : timers) : timers :=
  Tm b (tm_due s) (tm_reload s) (tm_alarm s) (tm_now s) (tm_clock s).
Definition set_due (ds : list (nat * Z)) (s : timers) : timers :=
  Tm (tm_base s) ds (tm_reload s) (tm_alarm s) (tm_now s) (tm_clock s).
Definition set_reload (id : nat) (r : Z) (s : timers) : timers :=
  Tm (tm_base s) (tm_due s) (<[id := r]> (tm_reload s)) (tm_alarm s) (tm_now s) (tm_clock s).
Definition set_alarm (a : option Z) (s : timers) : timers :=
  Tm (tm_base s) (tm_due s) (tm_reload s) a (tm_now s) (tm_clock s).

(** A reading of the clock, which does not run backwards. *)
Definition read_clock (s : timers) : option (timers * Z) :=
  match tm_clock s with
  | [] => None
  | t :: ts =>
      _ ← check (tm_now s <=? t);
      Some (Tm (tm_base s) (tm_due s) (tm_reload s) (tm_alarm s) t ts, t)
  end.

(** Less than 2^32 ticks have passed since the time the deltas count from. *)
Definition in_time (t : Z) (s : timers) : bool := t <? tm_base s + 2 ^ 32.

(** The alarm for [delay] ticks from [t]; the next reading comes before it. *)
Definition arm_alarm (t delay : Z) (s : timers) : option timers :=
  '(s, u) ← read_clock (set_alarm (Some (t + Z.max delay 2)) s);
  _ ← check (u <? t + Z.max delay 2);
  Some s.

(** A timer due at the same time as others goes before them. *)
Fixpoint insert_due (id : nat) (due : Z) (ds : list (nat * Z)) : list (nat * Z) :=
  match ds with
  | [] => [(id, due)]
  | (i, d) :: ds' => if d <? due then (i, d) :: insert_due id due ds' else (id, due) :: ds
  end.

Definition spec_enqueue (id : nat) (delay : Z) (s : timers) : option timers :=
  '(s, t) ← read_clock s;
  match tm_due s with
  | [] => arm_alarm t delay (set_due [(id, t + delay)] (set_base t s))
  | (_, first) :: _ =>
      _ ← check (in_time (t + delay) s);
      s' ← (if t + delay <? first then arm_alarm t delay s else Some s);
      Some (set_due (insert_due id (t + delay) (tm_due s)) s')
  end.

Definition spec_remove (id : nat) (s : timers) : option timers :=
  match tm_due s with
  | [] => Some s
  | (i, d) :: ds =>
      if Nat.eqb i id then
        match ds with
        | [] => Some (set_alarm None (set_due [] s))
        | (_, first) :: _ =>
            '(s, t) ← read_clock (set_due ds s);
            _ ← check (in_time t s);
            if first <=? t then Some s else arm_alarm t (first - t) s
        end
      else Some (set_due (filter (fun p => fst p <> id) (tm_due s)) s)
  end.

Definition spec_set (id : nat) (delay reload : Z) (s : timers) : option timers :=
  s ← spec_remove id s; spec_enqueue id delay (set_reload id reload s).

Definition delay_ok (delay : Z) : bool := (0 <? delay) && (delay <? 2 ^ 32).
Definition reload_ok (reload : Z) : bool := (0 <=? reload) && (reload <? 2 ^ 32).

Definition spec_exec_op (op : vt_op) (s : timers) : option timers :=
  match op with
  | VSet id delay => _ ← check (delay_ok delay); spec_set id delay 0 s
  | VSetContinuous id delay => _ ← check (delay_ok delay); spec_set id delay delay s
  | VReset id => spec_remove id s
  | VSetReload id reload => _ ← check (reload_ok reload); Some (set_reload id reload s)
  end.

Fixpoint spec_exec_ops (ops : list vt_op) (s : timers) : option timers :=
  match ops with
  | [] => Some s
  | op :: ops => s ← spec_exec_op op s; spec_exec_ops ops s
  end.

(** A periodic timer that was due at [due] is due again a period later; when
    another timer has been set meanwhile in the then empty list, the period counts
    from that time instead.  The callback must return within the period. *)
Definition spec_rearm (id : nat) (due : Z) (s : timers) : option (timers * bool) :=
  let reload := default 0 (tm_reload s !! id) in
  if 0 <? reload then
    '(s, t) ← read_clock s;
    _ ← check (t <=? due + reload);
    match tm_due s with
    | [] =>
        s ← arm_alarm t (due + reload - t) (set_due [(id, due + reload)] (set_base t s));
        Some (s, true)
    | _ =>
        _ ← check (negb (in_list id (tm_due s)));
        Some (set_due (insert_due id (tm_base s + reload) (tm_due s)) s, false)
    end
  else Some (s, false).

(** The handler fires what is due, each after a look at the clock, with the time
    of that look and the deadline. *)
Fixpoint spec_tick_loop (fuel : nat) (cb : list nat -> nat -> list vt_op) (fired : list (nat * Z * Z)) (s : timers)
  : option (timers * list (nat * Z * Z)) :=
  match fuel with
  | O => None
  | S fuel =>
      '(s, t) ← read_clock s;
      match tm_due s with
      | [] => _ ← check (t <? tm_base s + header_delta); Some (s, fired)
      | (id, due) :: ds =>
          _ ← check (in_time t s);
          if t <? due then
            s ← arm_alarm t (due - t) (set_base t s); Some (s, fired)
          else
            let s := set_due ds (set_base due s) in
            let s := match ds with [] => set_alarm None s | _ => s end in
            let fired := fired ++ [(id, t, due)] in
            s ← spec_exec_ops (cb ((fun f => fst (fst f)) <$> fired) id) s;
            '(s, stop) ← spec_rearm id due s;
            if stop : bool then Some (s, fired) else spec_tick_loop fuel cb fired s
      end
  end.

Definition spec_tick (cb : list nat -> nat -> list vt_op) (s : timers) : option (timers * list (nat * Z * Z)) :=
  spec_tick_loop (S (length (tm_clock s))) cb [] s.

(** Runs of operations and timer interrupts: of the specification, and of the code. *)
Inductive vt_event := VOp (op : vt_op) | VTick.

Fixpoint spec_run (cb : list nat -> nat -> list vt_op) (evs : list vt_event) (log : list (nat * Z * Z)) (s : timers)
  : option (timers * list (nat * Z * Z)) :=
  match evs with
  | [] => Some (s, log)
  | VOp op :: evs => s ← spec_exec_op op s; spec_run cb evs log s
  | VTick :: evs => '(s, fired) ← spec_tick cb s; spec_run cb evs (log ++ fired) s
  end.

Fixpoint vt_run (cb : list nat -> nat -> list vt_op) (evs : list vt_event) (log : list nat) (st : vt_state)
  : option (vt_state * list nat) :=
  match evs with
  | [] => Some (st, log)
  | VOp op :: evs => st ← vt_exec op st; vt_run cb evs log st
  | VTick :: evs => '(st, fired) ← chVTDoTickI cb st; vt_run cb evs (log ++ fired) st
  end.

(** ** Representation *)

Fixpoint deadlines (b : Z) (dl : delta_list) : list (nat * Z) :=
  match dl with [] => [] | (i, d) :: dl => (i, b + d) :: deadlines (b + d) dl end.

(** The deltas are not negative, and together less than [lim]. *)
Fixpoint deltas_ok (lim : Z) (dl : delta_list) : Prop :=
  match dl with [] => True | (_, d) :: dl => 0 <= d < lim /\ deltas_ok (lim - d) dl end.

Record vt_rep (st : vt_state) (s : timers) : Prop := {
  vr_base : vt_lasttime st = u32 (tm_base s);
  vr_due : deadlines (tm_base s) (vt_dlist st) = tm_due s;
  vr_deltas : deltas_ok (2 ^ 32) (vt_dlist st);
  vr_nodup : NoDup ((vt_dlist st).*1);
  vr_reload : vt_reload st = tm_reload s;
  vr_reload_ok : map_Forall (fun _ r => 0 <= r < 2 ^ 32) (tm_reload s);
  vr_alarm : vt_alarm st = u32 <$> tm_alarm s;
  vr_armed : vt_dlist st = [] <-> tm_alarm s = None;
  vr_faults : vt_faults st = 0;
  vr_now : tm_base s <= tm_now s;
  vr_clock : vt_clock st = tm_clock s
}.

(** ** The delta list *)

Lemma deadlines_ids dl : forall b, (deadlines b dl).*1 = dl.*1.
Proof. induction dl as [|[i d] dl IH]; intros b; [reflexivity|]. cbn [deadlines]. rewrite !fmap_cons, IH. reflexivity. Qed.

Lemma in_list_spec id (ds : list (nat * Z)) : in_list id ds = true <-> id ∈ ds.*1.
Proof.
  unfold in_list. induction ds as [|[i d] ds IH]; cbn [existsb].
  - split; [discriminate|]. intros H. inversion H.
  - rewrite fmap_cons, elem_of_cons, orb_true_iff, IH, Nat.eqb_eq. cbn [fst]. split; intros [H|H]; auto.
Qed.

Lemma in_list_false id (ds : list (nat * Z)) : in_list id ds = false <-> id ∉ ds.*1.
Proof. rewrite <- in_list_spec. destruct (in_list id ds); split; congruence. Qed.

Lemma dlist_insert_spec id delta dl : forall b lim,
  deltas_ok lim dl -> 0 <= delta < lim -> lim <= 2 ^ 32 -> id ∉ dl.*1 ->
  exists dl', ch_dlist_insert id delta dl = Some dl' /\ deadlines b dl' = insert_due id (b + delta) (deadlines b dl) /\
    deltas_ok lim dl' /\ dl'.*1 ≡ₚ id :: dl.*1.
Proof.
  revert delta. induction dl as [|[i d] dl IH]; intros delta b lim Hok Hd Hl Hid; cbn [ch_dlist_insert deadlines insert_due].
  - exists [(id, delta)]. cbn. split_and!; auto; lia.
  - destruct Hok as [Hd0 Hok]. rewrite fmap_cons in Hid. apply not_elem_of_cons in Hid as [Hne Hid].
    cbn [fst] in Hne. assert (E : (b + d <? b + delta) = (d <? delta)).
    { destruct (Z.ltb_spec d delta); [apply Z.ltb_lt|apply Z.ltb_ge]; lia. }
    rewrite E. destruct (Z.ltb_spec d delta) as [Hlt|Hge].
    + assert (Hi : Nat.eqb i id = false) by (apply Nat.eqb_neq; congruence).
      rewrite Hi. change (check (negb false)) with (Some tt). cbn [mbind option_bind].
      rewrite u32_id by (change 4294967296 with (2 ^ 32); lia).
      destruct (IH (delta - d) (b + d) (lim - d) Hok) as (dl' & -> & Ed & Hok' & Hp); [lia|lia|exact Hid|].
      cbn [mbind option_bind]. exists ((i, d) :: dl'). cbn [deadlines deltas_ok]. rewrite Ed.
      replace (b + d + (delta - d)) with (b + delta) by lia. split_and!; auto; try lia.
      rewrite !fmap_cons. cbn [fst]. rewrite Hp. constructor.
    + assert (Hi : in_list id ((i, d) :: dl) = false).
      { apply in_list_false. rewrite fmap_cons. apply not_elem_of_cons. auto. }
      rewrite Hi. change (check (negb false)) with (Some tt). cbn [mbind option_bind].
      rewrite u32_id by (change 4294967296 with (2 ^ 32); lia).
      exists ((id, delta) :: (i, d - delta) :: dl). cbn [deadlines deltas_ok].
      replace (b + delta + (d - delta)) with (b + d) by lia. split_and!; auto; try lia.
      replace (lim - delta - (d - delta)) with (lim - d) by lia. exact Hok.
Qed.

Lemma dlist_add_spec d dl b lim :
  0 <= d < lim -> lim <= 2 ^ 32 -> deltas_ok (lim - d) dl ->
  deadlines b (dlist_add d dl) = deadlines (b + d) dl /\ deltas_ok lim (dlist_add d dl) /\ (dlist_add d dl).*1 = dl.*1.
Proof.
  intros Hd Hl. destruct dl as [|[j e] dl]; [auto|]. intros [He Hok].
  cbn [dlist_add deadlines deltas_ok]. rewrite !fmap_cons. rewrite u32_id by (change 4294967296 with (2 ^ 32); lia).
  replace (b + (e + d)) with (b + d + e) by lia. replace (lim - (e + d)) with (lim - d - e) by lia.
  split_and!; auto; lia.
Qed.

Lemma filter_absent id (ds : list (nat * Z)) : id ∉ ds.*1 -> filter (fun p => fst p <> id) ds = ds.
Proof.
  induction ds as [|[i d] ds IH]; [reflexivity|]. rewrite fmap_cons. cbn [fst].
  intros [H1 H2]%not_elem_of_cons. rewrite filter_cons_True by (cbn [fst]; congruence). rewrite IH by exact H2. reflexivity.
Qed.

Lemma dlist_dequeue_spec id dl : forall b lim,
  deltas_ok lim dl -> lim <= 2 ^ 32 -> id ∈ dl.*1 -> NoDup (dl.*1) ->
  exists dl', ch_dlist_dequeue id dl = Some dl' /\ deadlines b dl' = filter (fun p => fst p <> id) (deadlines b dl) /\
    deltas_ok lim dl' /\ dl'.*1 = filter (fun i => i <> id) (dl.*1).
Proof.
  induction dl as [|[i d] dl IH]; intros b lim Hok Hl Hin Hnd; [inversion Hin|]. destruct Hok as [Hd Hok].
  rewrite fmap_cons in *. cbn [fst] in *. apply NoDup_cons in Hnd as [Hi Hnd]. cbn [ch_dlist_dequeue deadlines].
  destruct (Nat.eqb_spec i id) as [->|Hne].
  - destruct (dlist_add_spec d dl b lim Hd Hl Hok) as (E & Hok' & Ei). exists (dlist_add d dl).
    split; [reflexivity|]. rewrite filter_cons_False by (cbn [fst]; congruence).
    rewrite filter_absent by (rewrite deadlines_ids; exact Hi). split; [exact E|]. split; [exact Hok'|].
    rewrite Ei, filter_cons_False by congruence. symmetry. apply filter_ne_other. exact Hi.
  - apply elem_of_cons in Hin as [Hin|Hin]; [congruence|].
    destruct (IH (b + d) (lim - d) Hok) as (dl' & -> & Ed & Hok' & Ei); [lia|exact Hin|exact Hnd|].
    cbn [mbind option_bind]. exists ((i, d) :: dl'). cbn [deadlines deltas_ok].
    rewrite !filter_cons_True by (cbn [fst]; congruence). rewrite Ed, fmap_cons. cbn [fst]. rewrite Ei. auto.
Qed.

Lemma deltas_wider dl : forall lim lim', deltas_ok lim dl -> lim <= lim' -> deltas_ok lim' dl.
Proof.
  induction dl as [|[i d] dl IH]; intros lim lim' H Hl; [exact I|]. destruct H as [Hd H].
  split; [lia|]. eapply IH; [exact H|lia].
Qed.

(** The head of the list. *)
Lemma deadlines_cons b dl id due ds :
  deadlines b dl = (id, due) :: ds -> exists d dl', dl = (id, d) :: dl' /\ due = b + d /\ ds = deadlines (b + d) dl'.
Proof. destruct dl as [|[i d] dl]; [discriminate|]. cbn [deadlines]. intros H. injection H as -> <- <-. eauto. Qed.

Lemma deadlines_nil b dl : deadlines b dl = [] -> dl = [].
Proof. destruct dl as [|[i d] dl]; [reflexivity|discriminate]. Qed.

(** ** The clock and the alarm *)

Lemma time_diff a b : 0 <= b - a < 2 ^ 32 -> chTimeDiffX (u32 a) (u32 b) = b - a.
Proof.
  intros H. unfold chTimeDiffX. rewrite wrapu_sub_l, wrapu_sub_r. apply u32_id.
  change 4294967296 with (2 ^ 32). exact H.
Qed.

Lemma time_add a d : chTimeAddX (u32 a) d = u32 (a + d).
Proof. unfold chTimeAddX. apply wrapu_add_l. Qed.

Definition with_clock (ts : list Z) (st : vt_state) : vt_state :=
  Vt (vt_dlist st) (vt_lasttime st) (vt_reload st) (vt_alarm st) (vt_faults st) ts.

Lemma get_time st t ts : vt_clock st = t :: ts -> chVTGetSystemTimeX st = Some (with_clock ts st, u32 t).
Proof. unfold chVTGetSystemTimeX. intros ->. reflexivity. Qed.

Definition at_time (t : Z) (ts : list Z) (s : timers) : timers :=
  Tm (tm_base s) (tm_due s) (tm_reload s) (tm_alarm s) t ts.

Lemma read_inv s s' t :
  read_clock s = Some (s', t) -> exists ts, tm_clock s = t :: ts /\ tm_now s <= t /\ s' = at_time t ts s.
Proof.
  unfold read_clock. destruct (tm_clock s) as [|u ts]; [discriminate|].
  destruct (Z.leb_spec (tm_now s) u) as [H|H]; [|discriminate]. cbn. intros E. injection E as <- <-. eauto.
Qed.

Lemma rep_read st s t ts :
  vt_rep st s -> tm_clock s = t :: ts -> tm_now s <= t ->
  chVTGetSystemTimeX st = Some (with_clock ts st, u32 t) /\ vt_rep (with_clock ts st) (at_time t ts s).
Proof.
  intros [] Hc Ht. split; [apply get_time; congruence|]. split; cbn; auto; lia.
Qed.

Lemma arm_inv t delay s s' :
  arm_alarm t delay s = Some s' -> tm_now s = t ->
  exists u ts, tm_clock s = u :: ts /\ t <= u < t + Z.max delay 2 /\
    s' = Tm (tm_base s) (tm_due s) (tm_reload s) (Some (t + Z.max delay 2)) u ts.
Proof.
  unfold arm_alarm. intros H Hn. destruct (read_clock _) as [[s1 u]|] eqn:E; [|discriminate].
  apply read_inv in E as (ts & Hc & Hu & ->). cbn in Hc, Hu, H.
  destruct (Z.ltb_spec u (t + Z.max delay 2)) as [Hl|Hl]; [|discriminate]. cbn in H. injection H as <-.
  exists u, ts. split_and!; auto; lia.
Qed.

Lemma min_delay_max delay : vt_min_delay delay = Z.max delay 2.
Proof. unfold vt_min_delay, CH_CFG_ST_TIMEDELTA. destruct (Z.ltb_spec delay 2); lia. Qed.

Lemma set_alarm_run st t delay u ts :
  vt_clock st = u :: ts -> vt_alarm st <> None -> t <= u < t + Z.max delay 2 -> delay < 2 ^ 32 ->
  vt_set_alarm (u32 t) delay st =
    Some (Vt (vt_dlist st) (vt_lasttime st) (vt_reload st) (Some (u32 (t + Z.max delay 2))) (vt_faults st) ts).
Proof.
  intros Hc Ha Hu Hd. unfold vt_set_alarm. rewrite min_delay_max. cbn [vt_set_alarm_loop]. unfold stSetAlarm.
  assert (Hact : stIsAlarmActive st = true).
  { unfold stIsAlarmActive. destruct (vt_alarm st); [reflexivity|congruence]. }
  rewrite Hact. change (check true) with (Some tt). cbn [mbind option_bind].
  erewrite get_time by exact Hc. cbn [mbind option_bind]. rewrite time_diff, time_add by lia.
  destruct (Z.ltb_spec (u - t) (Z.max delay 2)); [|lia]. reflexivity.
Qed.

Lemma insert_first_run st id t delay u ts :
  vt_clock st = u :: ts -> vt_alarm st = None -> t <= u < t + Z.max delay 2 -> delay < 2 ^ 32 ->
  vt_insert_first id (u32 t) delay st =
    Some (Vt [(id, delay)] (u32 t) (vt_reload st) (Some (u32 (t + Z.max delay 2))) (vt_faults st) ts).
Proof.
  intros Hc Ha Hu Hd. unfold vt_insert_first. rewrite min_delay_max. unfold stStartAlarm, stIsAlarmActive.
  cbn [with_dlist with_lasttime vt_alarm vt_lasttime]. rewrite Ha.
  change (check (negb false)) with (Some tt). cbn [mbind option_bind vt_insert_first_loop].
  erewrite get_time by exact Hc. cbn [mbind option_bind]. rewrite time_diff, time_add by lia.
  destruct (Z.ltb_spec (u - t) (Z.max delay 2)); [|lia]. reflexivity.
Qed.

(** ** Operations *)

(** The alarm is not later than the first deadline, or two ticks from now. *)
Definition alarm_ok (s : timers) : Prop :=
  match tm_due s with
  | [] => True
  | (_, first) :: _ => exists a, tm_alarm s = Some a /\ a <= Z.max first (tm_now s + 2)
  end.

(** What every operation leaves true. *)
Record moves (s s' : timers) : Prop := {
  mv_base : tm_base s <= tm_base s';
  mv_now : tm_now s <= tm_now s';
  mv_alarm : alarm_ok s -> alarm_ok s'
}.

Lemma moves_refl s : moves s s.
Proof. split; auto; lia. Qed.

Lemma moves_trans s1 s2 s3 : moves s1 s2 -> moves s2 s3 -> moves s1 s3.
Proof. intros [] []. split; auto; lia. Qed.

Lemma insert_due_head id due i d ds :
  exists j ds', insert_due id due ((i, d) :: ds) = (j, Z.min d due) :: ds'.
Proof.
  cbn [insert_due]. destruct (Z.ltb_spec d due).
  - rewrite Z.min_l by lia. eauto.
  - rewrite Z.min_r by lia. eauto.
Qed.

(** The code [f] does what the specification [g] says. *)
Definition implements (f : vt_state -> option vt_state) (st : vt_state) (s s' : timers) : Prop :=
  exists st', f st = Some st' /\ vt_rep st' s' /\ moves s s'.

Lemma vr_ids st s : vt_rep st s -> (tm_due s).*1 = (vt_dlist st).*1.
Proof. intros R. rewrite <- (vr_due _ _ R). apply deadlines_ids. Qed.

(** Arming in an empty list. *)
Lemma first_rep st s id t delay due u ts :
  vt_rep st s -> vt_dlist st = [] -> 0 <= delay < 2 ^ 32 -> due = t + delay -> t <= u < t + Z.max delay 2 ->
  tm_clock s = u :: ts ->
  exists st', vt_insert_first id (u32 t) delay st = Some st' /\
    vt_rep st' (Tm t [(id, due)] (tm_reload s) (Some (t + Z.max delay 2)) u ts).
Proof.
  intros R He Hd -> Hu Hc. pose proof (proj1 (vr_armed _ _ R) He) as Ha. eexists. split.
  - apply (insert_first_run st id t delay u ts); [rewrite (vr_clock _ _ R); exact Hc| |exact Hu|lia].
    rewrite (vr_alarm _ _ R), Ha. reflexivity.
  - destruct R. split; cbn; auto; try lia; try (split; discriminate). apply NoDup_singleton.
Qed.

(** Setting the alarm, and inserting a timer, in a list that is not empty. *)
Lemma alarm_rep st s s' t delay :
  vt_rep st s -> vt_dlist st <> [] -> tm_now s = t -> delay < 2 ^ 32 -> arm_alarm t delay s = Some s' ->
  exists st' u ts, vt_set_alarm (u32 t) delay st = Some st' /\ vt_rep st' s' /\ vt_dlist st' = vt_dlist st /\
    t <= u /\ s' = Tm (tm_base s) (tm_due s) (tm_reload s) (Some (t + Z.max delay 2)) u ts.
Proof.
  intros R Hne Hn Hd H. apply arm_inv in H as (u & ts & Hc & Hu & ->); [|exact Hn].
  eexists _, u, ts. split; [apply (set_alarm_run st t delay u ts); [| |exact Hu|exact Hd]|].
  - rewrite (vr_clock _ _ R). exact Hc.
  - intros Ha. apply Hne, (vr_armed _ _ R). rewrite (vr_alarm _ _ R) in Ha.
    destruct (tm_alarm s); [discriminate|reflexivity].
  - split; [|split; [reflexivity|split; [lia|reflexivity]]].
    destruct R. split; cbn; auto; try lia. split; [contradiction|discriminate].
Qed.

Lemma relist_rep st s dl :
  vt_rep st s -> vt_dlist st <> [] -> dl <> [] -> deltas_ok (2 ^ 32) dl -> NoDup (dl.*1) ->
  vt_rep (with_dlist dl st) (set_due (deadlines (tm_base s) dl) s).
Proof.
  intros R Hne Hdl Hok Hnd. pose proof (vr_armed _ _ R) as Ha.
  destruct R. split; cbn; auto. split; [contradiction|]. intros H. apply Ha in H. contradiction.
Qed.

Lemma insert_rep st s id delta :
  vt_rep st s -> vt_dlist st <> [] -> id ∉ (vt_dlist st).*1 -> 0 <= delta < 2 ^ 32 ->
  exists dl, ch_dlist_insert id delta (vt_dlist st) = Some dl /\
    vt_rep (with_dlist dl st) (set_due (insert_due id (tm_base s + delta) (tm_due s)) s).
Proof.
  intros R Hne Hid Hd.
  destruct (dlist_insert_spec id delta (vt_dlist st) (tm_base s) (2 ^ 32) (vr_deltas _ _ R) Hd) as (dl & E & Ed & Hok & Hp);
    [lia|exact Hid|].
  exists dl. split; [exact E|]. rewrite <- (vr_due _ _ R), <- Ed. apply relist_rep; auto.
  - intros ->. apply Permutation_nil in Hp. discriminate.
  - rewrite Hp. apply NoDup_cons. split; [exact Hid|apply (vr_nodup _ _ R)].
Qed.

Lemma bind_check {A} b (k : unit -> option A) r : (check b ≫= k) = Some r -> b = true /\ k tt = Some r.
Proof. destruct b; [auto|discriminate]. Qed.

(** Compares two pairs of numbers the same distance apart. *)
Lemma ltb_shift a b c d : b - a = d - c -> (a <? b) = (c <? d).
Proof. intros H. destruct (Z.ltb_spec c d); [apply Z.ltb_lt|apply Z.ltb_ge]; lia. Qed.

Lemma enqueue_sim st s s' id delay :
  vt_rep st s -> id ∉ (vt_dlist st).*1 -> 0 < delay < 2 ^ 32 -> spec_enqueue id delay s = Some s' ->
  implements (vt_enqueue id delay) st s s'.
Proof.
  intros R Hid Hd H. unfold spec_enqueue in H. destruct (read_clock s) as [[s1 t]|] eqn:E; [|discriminate].
  apply read_inv in E as (ts & Hc & Ht & ->). destruct (rep_read st s t ts R Hc Ht) as [E R1].
  pose proof (vr_now _ _ R) as Hnow. unfold implements, vt_enqueue. rewrite E. cbn [mbind option_bind] in *.
  change (tm_due (at_time t ts s)) with (tm_due s) in H. change (vt_dlist (with_clock ts st)) with (vt_dlist st).
  pose proof (vr_due _ _ R) as Hdue. destruct (tm_due s) as [|[i first] ds] eqn:Eds.
  - apply deadlines_nil in Hdue. rewrite Hdue.
    apply arm_inv in H as (u & ts' & Hc' & Hu & ->); [|reflexivity].
    destruct (first_rep (with_clock ts st) (at_time t ts s) id t delay (t + delay) u ts' R1 Hdue)
      as (st' & E' & R'); [lia|reflexivity|exact Hu|exact Hc'|].
    exists st'. split; [exact E'|]. split; [exact R'|]. split; cbn; [lia|lia|]. intros _. eexists. split; [reflexivity|lia].
  - apply deadlines_cons in Hdue as (d & dl & Hdl & -> & _).
    pose proof (vr_deltas _ _ R) as Hok. rewrite Hdl in *. destruct (Hok) as [Hd0 _].
    apply bind_check in H as [Hin%Z.ltb_lt H]. cbn [tm_base at_time] in Hin.
    change (vt_lasttime (with_clock ts st)) with (vt_lasttime st). rewrite (vr_base _ _ R), time_diff by lia.
    rewrite u32_id by (change 4294967296 with (2 ^ 32); lia).
    destruct (Z.ltb_spec (t - tm_base s + delay) (t - tm_base s)); [lia|].
    rewrite (ltb_shift (t + delay) (tm_base s + d) (t - tm_base s + delay) d) in H by lia.
    assert (Hne : vt_dlist (with_clock ts st) <> []) by (cbn; rewrite Hdl; discriminate).
    assert (Hmid : exists st2 s2, vt_rep st2 s2 /\ vt_dlist st2 = (i, d) :: dl /\ tm_base s2 = tm_base s /\
      tm_due s2 = tm_due s /\ t <= tm_now s2 /\
      (if t - tm_base s + delay <? d then vt_set_alarm (u32 t) delay (with_clock ts st) else Some (with_clock ts st))
        = Some st2 /\ s' = set_due (insert_due id (t + delay) (tm_due s)) s2 /\
      (if t - tm_base s + delay <? d then tm_alarm s2 = Some (t + Z.max delay 2) else tm_alarm s2 = tm_alarm s)).
    { rewrite Eds. destruct (Z.ltb_spec (t - tm_base s + delay) d).
      - destruct (arm_alarm t delay (at_time t ts s)) as [s2|] eqn:Ea; [|discriminate].
        destruct (alarm_rep (with_clock ts st) (at_time t ts s) s2 t delay R1 Hne eq_refl ltac:(lia) Ea) as (st2 & u & ts' & E2 & R2 & Hdl2 & Hu & Es2).
        cbn in H. injection H as <-. exists st2, s2. rewrite Hdl2, Es2. split_and!; auto. rewrite <- Es2. exact R2.
      - cbn in H. injection H as <-. exists (with_clock ts st), (at_time t ts s). split_and!; auto. cbn; lia. }
    destruct Hmid as (st2 & s2 & R2 & Hdl2 & Hb2 & Hdue2 & Hn2 & -> & -> & Ha). cbn [mbind option_bind].
    destruct (insert_rep st2 s2 id (t - tm_base s + delay) R2) as (dl' & -> & R'); [congruence|rewrite Hdl2; exact Hid|lia|].
    cbn [mbind option_bind]. eexists. split; [reflexivity|].
    rewrite Hb2, Hdue2 in R'. replace (tm_base s + (t - tm_base s + delay)) with (t + delay) in R' by lia.
    split; [exact R'|]. split; cbn; [lia|lia|]. unfold alarm_ok. cbn [tm_due set_due tm_alarm tm_now]. rewrite Eds.
    intros (a & Hal & Hle). destruct (insert_due_head id (t + delay) i (tm_base s + d) ds) as (j & ds' & ->).
    destruct (Z.ltb_spec (t - tm_base s + delay) d); rewrite Ha; eexists; (split; [eassumption || reflexivity|]); lia.
Qed.

(** Removing the first timer leaves the rest, with its delta added to the next. *)
Lemma first_removed st s i d dl :
  vt_rep st s -> vt_dlist st = (i, d) :: dl -> dl <> [] ->
  vt_rep (with_dlist (dlist_add d dl) st) (set_due (deadlines (tm_base s + d) dl) s) /\ (i ∉ (dlist_add d dl).*1) /\
  dlist_add d dl <> [].
Proof.
  intros R Hdl Hne. pose proof (vr_deltas _ _ R) as Hok. rewrite Hdl in Hok. destruct Hok as [Hd Hok].
  destruct (dlist_add_spec d dl (tm_base s) (2 ^ 32) Hd ltac:(lia) Hok) as (Ed & Hok' & Ei).
  assert (Hne' : dlist_add d dl <> []) by (destruct dl as [|[]]; [contradiction|discriminate]).
  pose proof (vr_nodup _ _ R) as Hnd. rewrite Hdl, fmap_cons in Hnd. apply NoDup_cons in Hnd as [Hi Hnd].
  rewrite Ei, <- Ed. split; [|auto]. apply relist_rep; auto; [congruence|]. rewrite Ei. exact Hnd.
Qed.

(** The first timer goes: the alarm is set for the next one, if that is not due
    already. *)
Lemma remove_first_sim st s s' id d e j dl :
  vt_rep st s -> vt_dlist st = (id, d) :: (j, e) :: dl -> spec_remove id s = Some s' ->
  exists st', chVTDoResetI id st = Some st' /\ vt_rep st' s' /\ moves s s' /\ (id ∉ (vt_dlist st').*1).
Proof.
  intros R Hdl H. unfold spec_remove in H. unfold chVTDoResetI, chVTIsArmedI.
  rewrite <- (vr_due _ _ R) in H at 1. rewrite Hdl in *. cbn [deadlines in_list existsb fst] in *.
  rewrite Nat.eqb_refl in *. cbn [negb orb]. change (check true) with (Some tt). cbn [mbind option_bind].
  destruct (first_removed st s id d ((j, e) :: dl) R Hdl ltac:(discriminate)) as (R1 & Hid & Hne).
  cbn [deadlines] in *. destruct (read_clock _) as [[s2 t]|] eqn:E; [|discriminate].
  apply read_inv in E as (ts & Hc & Ht & ->). destruct (rep_read _ _ t ts R1 Hc Ht) as [E R2].
  cbn [dlist_add mbind option_bind] in *. rewrite E. cbn [mbind option_bind].
  apply bind_check in H as [Hin%Z.ltb_lt H]. cbn [tm_base at_time set_due] in Hin.
  change (vt_lasttime (with_clock ts _)) with (vt_lasttime st). rewrite (vr_base _ _ R).
  pose proof (vr_now _ _ R) as Hnow. cbn [tm_now set_due] in Ht. rewrite time_diff by lia.
  pose proof (vr_deltas _ _ R) as Hok. rewrite Hdl in Hok. destruct Hok as (Hd & He & _).
  rewrite (u32_id (e + d)) in * by (change 4294967296 with (2 ^ 32); lia).
  destruct (Z.leb_spec (e + d) (t - tm_base s)) as [Hl|Hl].
  - rewrite (proj2 (Z.leb_le _ _)) in H by lia. injection H as <-. eexists. split; [reflexivity|].
    split; [exact R2|]. split; [|exact Hid]. split; cbn; [lia|lia|].
    unfold alarm_ok. rewrite <- (vr_due _ _ R), Hdl. cbn. intros (a & Ha & Hle). exists a. split; [exact Ha|lia].
  - rewrite (proj2 (Z.leb_gt _ _)) in H by lia.
    rewrite (u32_id (e + d - (t - tm_base s))) by (change 4294967296 with (2 ^ 32); lia).
    replace (tm_base s + d + e - t) with (e + d - (t - tm_base s)) in H by lia.
    destruct (alarm_rep _ _ s' t (e + d - (t - tm_base s)) R2 Hne eq_refl ltac:(lia) H)
      as (st' & u & ts' & E' & R' & Hdl' & Hu & Es').
    exists st'. split; [exact E'|]. split; [exact R'|]. rewrite Hdl'. split; [|exact Hid].
    rewrite Es'. split; cbn; [lia|lia|]. intros _. eexists. split; [reflexivity|lia].
Qed.

Lemma remove_sim st s s' id :
  vt_rep st s -> spec_remove id s = Some s' ->
  exists st', chVTResetI id st = Some st' /\ vt_rep st' s' /\ moves s s' /\ (id ∉ (vt_dlist st').*1).
Proof.
  intros R H. unfold chVTResetI. destruct (chVTIsArmedI id st) eqn:Earm; unfold chVTIsArmedI in Earm.
  - destruct (vt_dlist st) as [|[i d] dl] eqn:Hdl; [discriminate|].
    destruct (Nat.eqb_spec i id) as [->|Hne]; [destruct dl as [|[j e] dl]|].
    + unfold spec_remove in H. unfold chVTDoResetI, chVTIsArmedI. rewrite <- (vr_due _ _ R) in H at 1. rewrite Hdl in *.
      cbn [deadlines] in H. rewrite Nat.eqb_refl in *. injection H as <-. rewrite Earm.
      eexists. split; [reflexivity|]. split; [|split; [split; cbn; auto; lia|]]; [|intros Hin; inversion Hin].
      destruct R. split; cbn; auto; [constructor|tauto].
    + eapply remove_first_sim; eauto.
    + cbn [in_list existsb fst] in Earm. rewrite (proj2 (Nat.eqb_neq _ _) Hne) in Earm. cbn [orb] in Earm.
      unfold chVTDoResetI, chVTIsArmedI, spec_remove in *. rewrite <- (vr_due _ _ R) in H. rewrite Hdl in *.
      cbn [in_list existsb fst deadlines ch_dlist_dequeue] in *. rewrite (proj2 (Nat.eqb_neq _ _) Hne) in *.
      cbn [orb negb]. rewrite Earm. change (check true) with (Some tt). cbn [mbind option_bind].
      pose proof (vr_deltas _ _ R) as Hok. rewrite Hdl in Hok. destruct Hok as [Hd Hok].
      pose proof (vr_nodup _ _ R) as Hnd. rewrite Hdl, fmap_cons in Hnd. apply NoDup_cons in Hnd as [Hi Hnd].
      destruct (dlist_dequeue_spec id dl (tm_base s + d) (2 ^ 32 - d) Hok) as (dl' & -> & Ed & Hok' & Ei);
        [lia|apply in_list_spec; exact Earm|exact Hnd|].
      cbn [mbind option_bind]. injection H as <-. eexists. split; [reflexivity|].
      rewrite filter_cons_True by (cbn [fst]; exact Hne). rewrite <- Ed. split; [|split].
      * change ((i, tm_base s + d) :: deadlines (tm_base s + d) dl') with (deadlines (tm_base s) ((i, d) :: dl')).
        apply relist_rep; [exact R|rewrite Hdl; discriminate|discriminate|split; auto|].
        rewrite fmap_cons. cbn [fst]. apply NoDup_cons. rewrite Ei. split; [|apply NoDup_filter; exact Hnd].
        intros Hin. apply list_elem_of_filter in Hin. tauto.
      * split; [cbn; lia|cbn; lia|]. unfold alarm_ok. rewrite <- (vr_due _ _ R), Hdl. auto.
      * cbn [vt_dlist with_dlist]. rewrite fmap_cons. apply not_elem_of_cons. split; [cbn [fst]; congruence|].
        rewrite Ei. intros Hin. apply list_elem_of_filter in Hin. tauto.
  - exists st. split; [reflexivity|]. apply in_list_false in Earm.
    assert (s' = s) as ->; [|split_and!; auto using moves_refl]. unfold spec_remove in H.
    rewrite <- (vr_ids _ _ R) in Earm. pose proof (filter_absent id (tm_due s) Earm) as Ef.
    destruct (tm_due s) as [|[i d] ds] eqn:Eds; [congruence|]. rewrite fmap_cons in Earm.
    apply not_elem_of_cons in Earm as [Hne _]. cbn [fst] in Hne. rewrite (proj2 (Nat.eqb_neq _ _)) in H by congruence.
    injection H as <-. rewrite Ef, <- Eds. destruct s; reflexivity.
Qed.

Lemma reload_rep st s id r :
  vt_rep st s -> 0 <= r < 2 ^ 32 -> vt_rep (with_reload id r st) (set_reload id r s).
Proof.
  intros [] Hr. split; cbn; auto; [congruence|]. apply map_Forall_insert_2; auto.
Qed.

Lemma reload_moves id r s : moves s (set_reload id r s).
Proof. split; auto; cbn; lia. Qed.

Lemma set_sim st s s' id delay reload :
  vt_rep st s -> 0 < delay < 2 ^ 32 -> 0 <= reload < 2 ^ 32 -> spec_set id delay reload s = Some s' ->
  implements (fun st => st ← chVTResetI id st; vt_enqueue id delay (with_reload id reload st)) st s s'.
Proof.
  intros R Hd Hr H. unfold spec_set in H. destruct (spec_remove id s) as [s1|] eqn:E; [|discriminate].
  destruct (remove_sim _ _ _ _ R E) as (st1 & E1 & R1 & M1 & Hid). cbn [mbind option_bind] in H.
  destruct (enqueue_sim _ _ _ _ _ (reload_rep _ _ id reload R1 Hr) Hid Hd H) as (st' & E' & R' & M').
  exists st'. rewrite E1. split_and!; auto. eauto using moves_trans, reload_moves.
Qed.

Lemma exec_sim op st s s' : vt_rep st s -> spec_exec_op op s = Some s' -> implements (vt_exec op) st s s'.
Proof.
  intros R H. unfold implements. destruct op as [id delay|id delay|id|id reload]; cbn [spec_exec_op vt_exec] in *.
  1,2: apply bind_check in H as [[H1%Z.ltb_lt H2%Z.ltb_lt]%andb_true_iff H];
    unfold chVTSetI, chVTSetContinuousI, chVTDoSetI, chVTDoSetContinuousI;
    (eapply set_sim in H; [|exact R|lia|lia]); destruct H as (st' & E & R' & M); exists st'; split; [|auto];
    rewrite <- E; destruct (chVTResetI id st); [|reflexivity]; cbn [mbind option_bind];
    change TIME_IMMEDIATE with 0; rewrite (proj2 (Z.eqb_neq delay 0)) by lia; reflexivity.
  - destruct (remove_sim _ _ _ _ R H) as (st' & E & R' & M & _). eauto.
  - apply bind_check in H as [[H1%Z.leb_le H2%Z.ltb_lt]%andb_true_iff H]. injection H as <-.
    eexists. split; [reflexivity|]. split; [apply reload_rep; auto|apply reload_moves].
Qed.

Lemma exec_all_sim ops : forall st s s',
  vt_rep st s -> spec_exec_ops ops s = Some s' -> implements (vt_exec_all ops) st s s'.
Proof.
  induction ops as [|op ops IH]; intros st s s' R H; cbn [spec_exec_ops] in H.
  - injection H as <-. exists st. split_and!; auto using moves_refl.
  - destruct (spec_exec_op op s) as [s1|] eqn:E; [|discriminate].
    destruct (exec_sim _ _ _ _ R E) as (st1 & E1 & R1 & M1).
    destruct (IH _ _ _ R1 H) as (st' & E' & R' & M'). exists st'. cbn [vt_exec_all]. rewrite E1.
    split_and!; eauto using moves_trans.
Qed.

(** ** The interrupt handler *)

Lemma rearm_sim st s s' id due stop :
  vt_rep st s -> due <= tm_base s -> spec_rearm id due s = Some (s', stop) ->
  exists st', vt_rearm id (u32 due) st = Some (st', stop) /\ vt_rep st' s' /\ tm_base s <= tm_base s' /\
    tm_now s <= tm_now s' /\ (stop = true -> alarm_ok s').
Proof.
  intros R Hb H. unfold spec_rearm in H. unfold vt_rearm, chVTGetReloadIntervalX. rewrite (vr_reload _ _ R).
  destruct (Z.ltb_spec 0 (default 0 (tm_reload s !! id))) as [Hr|Hr].
  2:{ injection H as <- <-. exists st. split_and!; auto; lia || discriminate. }
  assert (Hr2 : default 0 (tm_reload s !! id) < 2 ^ 32).
  { pose proof (vr_reload_ok _ _ R id) as Hok. destruct (tm_reload s !! id) as [r|]; cbn in *; [|lia].
    apply (Hok r eq_refl). }
  generalize dependent (default 0 (tm_reload s !! id)). intros reload H Hr Hr2.
  destruct (read_clock s) as [[s1 t]|] eqn:E; [|discriminate].
  apply read_inv in E as (ts & Hc & Ht & ->). destruct (rep_read st s t ts R Hc Ht) as [E R1].
  rewrite E. cbn [mbind option_bind] in *. apply bind_check in H as [Hle%Z.leb_le H].
  pose proof (vr_now _ _ R) as Hnow. rewrite time_diff by lia. rewrite (proj2 (Z.ltb_ge reload (t - due))) by lia.
  change (check (negb false)) with (Some tt). cbn [mbind option_bind].
  rewrite (u32_id (reload - (t - due))) by (change 4294967296 with (2 ^ 32); lia).
  change (tm_due (at_time t ts s)) with (tm_due s) in *. change (vt_dlist (with_clock ts st)) with (vt_dlist st).
  pose proof (vr_due _ _ R) as Hdue. pose proof (vr_ids _ _ R) as Hids. destruct (tm_due s) as [|[i first] ds] eqn:Eds.
  - apply deadlines_nil in Hdue. rewrite Hdue. destruct (arm_alarm _ _ _) as [s2|] eqn:Ea; [|discriminate].
    cbn [mbind option_bind] in H. injection H as <- <-.
    apply arm_inv in Ea as (u & ts' & Hc' & Hu & ->); [|reflexivity].
    replace (due + reload - t) with (reload - (t - due)) in * by lia.
    destruct (first_rep (with_clock ts st) (at_time t ts s) id t (reload - (t - due)) (due + reload) u ts' R1 Hdue)
      as (st' & -> & R'); [lia|lia|exact Hu|exact Hc'|].
    exists st'. split; [reflexivity|]. split; [exact R'|]. cbn. split_and!; [lia|lia|].
    intros _. eexists. split; [reflexivity|cbn; lia].
  - apply bind_check in H as [Hid%negb_true_iff H]. injection H as <- <-. apply in_list_false in Hid.
    rewrite Hids in Hid. apply deadlines_cons in Hdue as (d & dl & Hdl & -> & _).
    replace (t - due + (reload - (t - due))) with reload by lia. rewrite (u32_id reload) by (change 4294967296 with (2 ^ 32); lia).
    rewrite (proj2 (Z.ltb_ge reload (t - due))) by lia.
    destruct (insert_rep (with_clock ts st) (at_time t ts s) id reload R1) as (dl' & E' & R');
      [cbn; congruence|exact Hid|lia|].
    cbn [vt_dlist with_clock] in E'. rewrite Hdl in *. cbn [with_clock vt_dlist]. rewrite ?Hdl, E'. cbn [mbind option_bind].
    cbn [tm_base at_time tm_due] in R'. rewrite Eds in R'.
    eexists. split; [reflexivity|]. split; [exact R'|]. cbn. split_and!; lia || discriminate.
Qed.

(** What has been fired: not before it was due, in the order of the deadlines, which
    lie between [lo] and [hi]. *)
Definition log_ok (lo hi : Z) (log : list (nat * Z * Z)) : Prop :=
  Forall (fun f => snd f <= snd (fst f)) log /\ StronglySorted Z.le (log.*2) /\
  Forall (fun due => lo <= due <= hi) (log.*2).

Definition fired_ids (log : list (nat * Z * Z)) : list nat := (fun f => fst (fst f)) <$> log.

Lemma log_app lo mid hi l1 l2 :
  log_ok lo mid l1 -> log_ok mid hi l2 -> lo <= mid <= hi -> log_ok lo hi (l1 ++ l2).
Proof.
  intros (Ht1 & Hs1 & Hb1) (Ht2 & Hs2 & Hb2) Hm. unfold log_ok. rewrite fmap_app, !Forall_app. split; [auto|]. split.
  - apply StronglySorted_app_2; auto. intros x y Hx Hy.
    rewrite Forall_forall in Hb1, Hb2. specialize (Hb1 _ Hx). specialize (Hb2 _ Hy). cbn in *. lia.
  - split; eapply Forall_impl; eauto; cbn; intros; lia.
Qed.

Lemma log_one id t due lo hi : due <= t -> lo <= due <= hi -> log_ok lo hi [(id, t, due)].
Proof. intros Ht Hb. split; [|split]; cbn; repeat constructor; auto; lia. Qed.

Lemma log_nil lo hi : log_ok lo hi [].
Proof. split; [|split]; constructor. Qed.

Lemma log_widen lo hi hi' log : log_ok lo hi log -> hi <= hi' -> log_ok lo hi' log.
Proof. intros (Ht & Hs & Hb) Hw. split_and!; auto. eapply Forall_impl; [exact Hb|]. cbn. intros; lia. Qed.

(** The end of the handler: the time passed goes from the first delta to the base. *)
Lemma tick_end_sim st s s' t id d dl :
  vt_rep st s -> tm_now s = t -> vt_dlist st = (id, d) :: dl -> t < tm_base s + d ->
  arm_alarm t (tm_base s + d - t) (set_base t s) = Some s' ->
  exists st', vt_tick_end (u32 t) (t - tm_base s) st = Some st' /\ vt_rep st' s' /\ tm_base s <= tm_base s' /\
    tm_now s <= tm_now s' /\ alarm_ok s'.
Proof.
  intros R Hn Hdl Hlt H. pose proof (vr_now _ _ R) as Hnow. pose proof (vr_deltas _ _ R) as Hok.
  rewrite Hdl in Hok. destruct Hok as [Hd Hok]. unfold vt_tick_end. rewrite Hdl, (vr_base _ _ R).
  rewrite (u32_id (d - (t - tm_base s))) by (change 4294967296 with (2 ^ 32); lia). rewrite wrapu_add_l.
  replace (tm_base s + (t - tm_base s)) with t by lia. replace (tm_base s + d - t) with (d - (t - tm_base s)) in H by lia.
  assert (R1 : vt_rep (with_dlist ((id, d - (t - tm_base s)) :: dl) (with_lasttime (u32 t) st)) (set_base t s)).
  { pose proof (vr_ids _ _ R) as Hids. pose proof (vr_due _ _ R) as Hdue. rewrite Hdl in *. cbn [deadlines] in Hdue.
    destruct R. split; cbn [with_dlist with_lasttime vt_dlist vt_lasttime set_base tm_base tm_due deadlines]; auto.
    - rewrite <- Hdue. replace (t + (d - (t - tm_base s))) with (tm_base s + d) by lia. reflexivity.
    - split; [lia|]. eapply deltas_wider; [exact Hok|lia].
    - rewrite Hdl in *. exact vr_nodup0.
    - rewrite Hdl in vr_armed0. split; [discriminate|]. intros Ha. apply vr_armed0 in Ha. discriminate.
    - cbn. lia. }
  destruct (alarm_rep _ _ s' t (d - (t - tm_base s)) R1 ltac:(discriminate) Hn ltac:(lia) H)
    as (st' & u & ts & E & R' & _ & Hu & ->).
  exists st'. cbn [with_lasttime with_dlist] in *. split; [exact E|]. split; [exact R'|]. cbn. split_and!; [lia|lia|].
  unfold alarm_ok. cbn. rewrite <- (vr_due _ _ R), Hdl. cbn. eexists. split; [reflexivity|lia].
Qed.

(** The first timer leaves the list when it is due. *)
Lemma fire_rep st s id d dl :
  vt_rep st s -> vt_dlist st = (id, d) :: dl -> tm_base s + d <= tm_now s ->
  let due := tm_base s + d in
  let s1 := set_due (deadlines due dl) (set_base due s) in
  let st1 := with_dlist dl (with_lasttime (u32 due) st) in
  vt_rep (match dl with [] => stStopAlarm st1 | _ => st1 end)
    (match deadlines due dl with [] => set_alarm None s1 | _ => s1 end).
Proof.
  intros R Hdl Hle. pose proof (vr_deltas _ _ R) as Hok. pose proof (vr_nodup _ _ R) as Hnd. rewrite Hdl in *.
  destruct Hok as [Hd Hok]. rewrite fmap_cons in Hnd. apply NoDup_cons in Hnd as [_ Hnd].
  assert (Hok' : deltas_ok (2 ^ 32) dl) by (eapply deltas_wider; [exact Hok|lia]).
  pose proof (vr_armed _ _ R) as Ha. rewrite Hdl in Ha.
  destruct dl as [|[j e] dl]; cbn [deadlines]; destruct R; split; cbn; auto; try tauto.
  split; [discriminate|]. intros H. apply Ha in H. discriminate.
Qed.

Lemma tick_loop_sim cb fuel : forall lo log st s s' log',
  vt_rep st s -> log_ok lo (tm_base s) log -> lo <= tm_base s -> spec_tick_loop fuel cb log s = Some (s', log') ->
  exists st', vt_tick_loop fuel cb (fired_ids log) st = Some (st', fired_ids log') /\ vt_rep st' s' /\
    log_ok lo (tm_base s') log' /\ tm_base s <= tm_base s' /\ tm_now s <= tm_now s' /\ alarm_ok s'.
Proof.
  induction fuel as [|fuel IH]; intros lo log st s s' log' R L Hlo H; [discriminate|].
  cbn [spec_tick_loop vt_tick_loop] in *. destruct (read_clock s) as [[s1 t]|] eqn:E; [|discriminate].
  apply read_inv in E as (ts & Hc & Ht & ->). destruct (rep_read st s t ts R Hc Ht) as [E R1].
  rewrite E. cbn [mbind option_bind] in *. pose proof (vr_now _ _ R) as Hnow.
  change (vt_dlist (with_clock ts st)) with (vt_dlist st). change (vt_lasttime (with_clock ts st)) with (vt_lasttime st).
  change (tm_due (at_time t ts s)) with (tm_due s) in *. rewrite (vr_base _ _ R).
  pose proof (vr_due _ _ R) as Hdue. destruct (tm_due s) as [|[id due] ds] eqn:Eds.
  { apply deadlines_nil in Hdue. apply bind_check in H as [Hl%Z.ltb_lt H]. injection H as <- <-.
    cbn [tm_base at_time] in Hl. unfold header_delta in *. rewrite Hdue, time_diff by lia.
    rewrite (proj2 (Z.ltb_lt _ _)) by lia. unfold vt_tick_end. cbn [vt_dlist with_clock]. rewrite Hdue.
    eexists. split; [reflexivity|]. split; [exact R1|]. split; [exact L|]. cbn. split_and!; [lia|lia|].
    unfold alarm_ok. cbn. rewrite Eds. exact I. }
  apply deadlines_cons in Hdue as (d & dl & Hdl & -> & ->). rewrite Hdl.
  apply bind_check in H as [Hl%Z.ltb_lt H]. cbn [tm_base at_time] in Hl. rewrite time_diff by lia.
  rewrite (ltb_shift t (tm_base s + d) (t - tm_base s) d) in H by lia. destruct (Z.ltb_spec (t - tm_base s) d).
  - destruct (arm_alarm _ _ _) as [s2|] eqn:Ea; [|discriminate]. injection H as <- <-.
    destruct (tick_end_sim (with_clock ts st) (at_time t ts s) s2 t id d dl R1 eq_refl Hdl) as (st' & E' & R' & Hb & Hn & A);
      [cbn; lia|exact Ea|]. cbn [tm_base at_time tm_now] in *.
    rewrite E'. exists st'. split_and!; auto; [eapply log_widen; eauto|lia].
  - rewrite time_add. pose proof (vr_deltas _ _ R) as Hok. rewrite Hdl in Hok. destruct Hok as [Hd _].
    pose proof (fire_rep (with_clock ts st) (at_time t ts s) id d dl R1 Hdl) as R2.
    cbn [tm_base at_time tm_now] in R2. specialize (R2 ltac:(lia)). cbv zeta in R2.
    change (fired_ids log ++ [id]) with (fired_ids log ++ fired_ids [(id, t, tm_base s + d)]).
    unfold fired_ids in *. rewrite <- fmap_app.
    destruct (spec_exec_ops _ _) as [s3|] eqn:E3; [|discriminate].
    destruct (exec_all_sim _ _ _ _ R2 E3) as (st3 & -> & R3 & M3). cbn [mbind option_bind] in *.
    assert (Hb3 : tm_base s + d <= tm_base s3).
    { destruct M3 as [M3 _ _]. destruct dl as [|[]]; exact M3. }
    assert (Hn3 : t <= tm_now s3).
    { destruct M3 as [_ M3 _]. destruct dl as [|[]]; exact M3. }
    destruct (spec_rearm _ _ _) as [[s4 stop]|] eqn:E4; [|discriminate].
    destruct (rearm_sim _ _ _ _ _ _ R3 Hb3 E4) as (st4 & -> & R4 & Hb4 & Hn4 & A4). cbn [mbind option_bind] in *.
    assert (L4 : log_ok lo (tm_base s4) (log ++ [(id, t, tm_base s + d)])).
    { apply log_app with (mid := tm_base s); [exact L| |lia]. apply log_one; lia. }
    destruct stop.
    + injection H as <- <-. exists st4. split_and!; auto; lia.
    + destruct (IH lo _ _ _ _ _ R4 L4 ltac:(lia) H) as (st' & E' & R' & L' & Hb' & Hn' & A').
      exists st'. split_and!; auto; lia.
Qed.

Lemma tick_sim cb st s s' log :
  vt_rep st s -> spec_tick cb s = Some (s', log) ->
  exists st', chVTDoTickI cb st = Some (st', fired_ids log) /\ vt_rep st' s' /\
    log_ok (tm_base s) (tm_base s') log /\ tm_base s <= tm_base s' /\ alarm_ok s'.
Proof.
  intros R H. unfold spec_tick in H. unfold chVTDoTickI. rewrite (vr_clock _ _ R).
  destruct (tick_loop_sim cb (S (length (tm_clock s))) (tm_base s) [] st s s' log R (log_nil _ _) (Z.le_refl _) H)
    as (st' & E & R' & L & Hb & _ & A).
  exists st'. auto.
Qed.

(** ** Runs *)

Lemma run_sim cb evs : forall log st s s' log',
  vt_rep st s -> alarm_ok s -> 0 <= tm_base s -> log_ok 0 (tm_base s) log -> spec_run cb evs log s = Some (s', log') ->
  exists st', vt_run cb evs (fired_ids log) st = Some (st', fired_ids log') /\ vt_rep st' s' /\
    log_ok 0 (tm_base s') log' /\ alarm_ok s'.
Proof.
  induction evs as [|[op|] evs IH]; intros log st s s' log' R A Hb L H; cbn [spec_run vt_run] in *.
  - injection H as <- <-. eauto 10.
  - destruct (spec_exec_op op s) as [s1|] eqn:E; [|discriminate].
    destruct (exec_sim _ _ _ _ R E) as (st1 & -> & R1 & [Mb _ Ma]). cbn [mbind option_bind] in *.
    apply (IH log st1 s1); auto; [lia|]. eapply log_widen; eauto.
  - destruct (spec_tick cb s) as [[s1 fired]|] eqn:E; [|discriminate].
    destruct (tick_sim _ _ _ _ _ R E) as (st1 & -> & R1 & L1 & Hb1 & A1). cbn [mbind option_bind] in *.
    unfold fired_ids in *. rewrite <- fmap_app. apply (IH _ st1 s1); auto; [lia|]. eapply log_app; eauto.
Qed.

Lemma init_rep clock : vt_rep (vt_object_init clock) (timers0 clock).
Proof. split; cbn; auto using NoDup_nil_2; try lia; [apply map_Forall_empty|tauto]. Qed.

Lemma init_run cb clock evs s log :
  spec_run cb evs [] (timers0 clock) = Some (s, log) ->
  exists st, vt_run cb evs [] (vt_object_init clock) = Some (st, fired_ids log) /\ vt_rep st s /\
    log_ok 0 (tm_base s) log /\ alarm_ok s.
Proof.
  intros H. destruct (run_sim cb evs [] _ _ s log (init_rep clock) I (Z.le_refl 0) (log_nil _ _) H) as (st & E & R & L & A).
  eauto.
Qed.

(** A run with a one-shot and a periodic timer, whose callback arms a third. *)
Definition demo_clock : list Z :=
  [0; 1; 3; 4; 20; 21; 22; 31; 31; 50; 51; 52; 53; 60; 61; 62; 63; 64; 65; 66; 67; 68; 69; 70].
Definition demo_cb (fired : list nat) (id : nat) : list vt_op :=
  match id with 2%nat => [VSet 3 7] | _ => [] end.
Definition demo_events : list vt_event :=
  [VOp (VSetContinuous 1 30); VOp (VSet 2 18); VTick; VTick; VOp (VReset 3); VTick].

(** C20: virtual timers implement deadlines.  Whatever sequence of arming, disarming
    and timer interrupts is run from the kernel's start, with callbacks that arm and
    disarm timers too, in every run in which the deadlines fit the counter and the
    clock does not pass an alarm while the code is setting it (the specification on
    absolute deadlines, [spec_run], is defined exactly on these: [arm_alarm] asks it
    of the readings; [insert_first_alarm_past] and [overflow_alarm_late] show runs of
    the code outside, with a fault logged and a late alarm), the code runs
    without a failed assertion or a logged fault, fires the same timers in the same
    order, and leaves the delta list, the alarm and the reload values that represent
    the specified deadlines. *)
Theorem timers_refine_deadlines cb clock evs s log :
  spec_run cb evs [] (timers0 clock) = Some (s, log) ->
  exists st, vt_run cb evs [] (vt_object_init clock) = Some (st, fired_ids log) /\
    deadlines (tm_base s) (vt_dlist st) = tm_due s /\ vt_lasttime st = u32 (tm_base s) /\
    vt_alarm st = u32 <$> tm_alarm s /\ vt_reload st = tm_reload s /\ vt_faults st = 0.
Proof.
  intros H. apply init_run in H as (st & E & [] & _). eauto 10.
Qed.

Lemma timers_refine_deadlines_witness :
  exists s log, spec_run demo_cb demo_events [] (timers0 demo_clock) = Some (s, log) /\
    fired_ids log = [2; 1; 3; 1]%nat /\
    exists st, vt_run demo_cb demo_events [] (vt_object_init demo_clock) = Some (st, fired_ids log) /\
      vt_lasttime st = u32 (tm_base s).
Proof.
  destruct (spec_run demo_cb demo_events [] (timers0 demo_clock)) as [[s log]|] eqn:E.
  - exists s, log. split; [reflexivity|]. split.
    + revert E. vm_compute. intros E. injection E as <- <-. reflexivity.
    + destruct (timers_refine_deadlines demo_cb demo_clock demo_events s log E) as (st & H & _ & Hb & _). eauto.
  - vm_compute in E. discriminate.
Defined.

(** C19: virtual timers fire on time.  In every such run, that is one in which the
    clock does not pass an alarm while it is being set, a timer fires only after a
    reading of the clock that has reached its deadline, and the timers fire in the
    order of their deadlines; at every point in between, with no timer armed the
    alarm is off, and otherwise it is set no later than the first deadline, or two
    ticks from the last reading when that deadline is closer. *)
Theorem timers_fire_on_time cb clock evs s log :
  spec_run cb evs [] (timers0 clock) = Some (s, log) ->
  exists st, vt_run cb evs [] (vt_object_init clock) = Some (st, fired_ids log) /\
    Forall (fun f => snd f <= snd (fst f)) log /\ StronglySorted Z.le (log.*2) /\
    match vt_dlist st with
    | [] => vt_alarm st = None
    | (_, delta) :: _ =>
        exists a, vt_alarm st = Some (u32 a) /\ a <= Z.max (tm_base s + delta) (tm_now s + CH_CFG_ST_TIMEDELTA)
    end.
Proof.
  intros H. apply init_run in H as (st & E & R & (Ht & Hs & _) & A). exists st. split_and!; auto.
  unfold alarm_ok in A. rewrite <- (vr_due _ _ R) in A. rewrite (vr_alarm _ _ R).
  destruct (vt_dlist st) as [|[i d] dl] eqn:Hdl.
  - rewrite (proj1 (vr_armed _ _ R) Hdl). reflexivity.
  - destruct A as (a & Ha & Hle). exists a. rewrite Ha. split; [reflexivity|exact Hle].
Qed.

Lemma timers_fire_on_time_witness :
  exists s log, spec_run demo_cb demo_events [] (timers0 demo_clock) = Some (s, log) /\
    log.*2 = [21; 30; 38; 60] /\ Forall (fun f => snd f <= snd (fst f)) log.
Proof.
  destruct (spec_run demo_cb demo_events [] (timers0 demo_clock)) as [[s log]|] eqn:E.
  - exists s, log. split; [reflexivity|]. split.
    + revert E. vm_compute. intros E. injection E as <- <-. reflexivity.
    + destruct (timers_fire_on_time demo_cb demo_clock demo_events s log E) as (st & _ & H & _). exact H.
  - vm_compute in E. discriminate.
Defined.

(** ** The remaining time *)

Lemma remaining_spec id due dl : forall b lim acc,
  deltas_ok lim dl -> 0 <= acc -> acc + lim <= 2 ^ 32 -> NoDup (dl.*1) -> (id, due) ∈ deadlines b dl ->
  vt_remaining id acc dl = Some (acc + (due - b)) /\ 0 <= due - b < lim.
Proof.
  induction dl as [|[i d] dl IH]; intros b lim acc Hok Ha Hl Hnd Hin; [inversion Hin|].
  destruct Hok as [Hd Hok]. rewrite fmap_cons in Hnd. apply NoDup_cons in Hnd as [Hi Hnd]. cbn [deadlines vt_remaining] in *.
  rewrite u32_id by (change 4294967296 with (2 ^ 32); lia). apply elem_of_cons in Hin as [Hin|Hin].
  - injection Hin as -> ->. rewrite Nat.eqb_refl. split; [f_equal; lia|lia].
  - destruct (Nat.eqb_spec i id) as [->|Hne].
    + contradiction Hi. cbn [fst]. rewrite <- (deadlines_ids dl (b + d)). apply list_elem_of_fmap. exists (id, due). auto.
    + destruct (IH (b + d) (lim - d) (acc + d) Hok) as [-> Hr]; [lia|lia|exact Hnd|exact Hin|]. split; [f_equal; lia|lia].
Qed.

(** The remaining time of an armed timer, asked for at any point of a run, is the
    time to its deadline, and zero from the deadline on; nothing else changes. *)
Theorem remaining_time_exact cb clock evs s log id due s' t :
  spec_run cb evs [] (timers0 clock) = Some (s, log) -> (id, due) ∈ tm_due s ->
  read_clock s = Some (s', t) -> in_time t s = true ->
  exists st st', vt_run cb evs [] (vt_object_init clock) = Some (st, fired_ids log) /\
    chVTGetRemainingIntervalI id st = Some (st', Z.max 0 (due - t)) /\
    vt_dlist st' = vt_dlist st /\ vt_alarm st' = vt_alarm st /\ vt_lasttime st' = vt_lasttime st.
Proof.
  intros H Hin Hr Ht%Z.ltb_lt. apply init_run in H as (st & E & R & _). apply read_inv in Hr as (ts & Hc & Hn & ->).
  destruct (rep_read _ _ _ _ R Hc Hn) as [Eg _]. rewrite <- (vr_due _ _ R) in Hin. pose proof (vr_now _ _ R) as Hnow.
  destruct (remaining_spec id due (vt_dlist st) (tm_base s) (2 ^ 32) 0 (vr_deltas _ _ R)) as [Er Hb];
    [lia|lia|apply (vr_nodup _ _ R)|exact Hin|].
  exists st, (with_clock ts st). split; [exact E|]. split; [|auto]. unfold chVTGetRemainingIntervalI.
  rewrite Er, Eg. cbn [mbind option_bind vt_lasttime with_clock]. rewrite (vr_base _ _ R), time_diff by lia.
  f_equal. f_equal. destruct (Z.ltb_spec (0 + (due - tm_base s)) (t - tm_base s)); [lia|].
  rewrite u32_id by (change 4294967296 with (2 ^ 32); lia). lia.
Qed.

Lemma remaining_time_exact_witness :
  exists st st', vt_run demo_cb [VOp (VSetContinuous 1 30); VOp (VSet 2 18)] [] (vt_object_init demo_clock) = Some (st, []) /\
    chVTGetRemainingIntervalI 2 st = Some (st', 1).
Proof.
  destruct (remaining_time_exact demo_cb demo_clock [VOp (VSetContinuous 1 30); VOp (VSet 2 18)]
    (Tm 0 [(2%nat, 21); (1%nat, 30)] {[1%nat := 30; 2%nat := 0]} (Some 21) 4 (drop 4 demo_clock)) [] 2 21
    (Tm 0 [(2%nat, 21); (1%nat, 30)] {[1%nat := 30; 2%nat := 0]} (Some 21) 20 (drop 5 demo_clock)) 20)
    as (st & st' & H1 & H2 & _); [vm_compute; reflexivity|apply elem_of_cons; left; reflexivity|reflexivity|reflexivity|].
  exists st, st'. split; [exact H1|exact H2].
Defined.

(** ** Time stamps *)

(** A stamp taken less than 2^32 ticks after the one before it has moved on by the
    time between them, so that stamps count the time on without wrapping; and the
    next one starts from there. *)
Lemma time_stamp_exact last t0 t ts st :
  u32 last = u32 t0 -> vt_clock st = t :: ts -> 0 <= t - t0 < 2 ^ 32 -> 0 <= last -> last + (t - t0) < 2 ^ 64 ->
  chVTGetTimeStampI last st = Some (with_clock ts st, last + (t - t0)) /\ u32 (last + (t - t0)) = u32 t.
Proof.
  intros Hl Hc Ht H0 H64. unfold chVTGetTimeStampI. rewrite (get_time _ _ _ Hc). cbn [mbind option_bind].
  rewrite Hl, time_diff by exact Ht. rewrite (wrapu_id 64) by (cint_unfold; bools; lia).
  rewrite (proj2 (Z.leb_le _ _)) by lia. split; [reflexivity|].
  rewrite <- wrapu_add_l, Hl, wrapu_add_l. f_equal. lia.
Qed.

(** ** Beyond the specification *)

(** When the clock skips past the alarm for the first timer, [vt_insert_first] sets
    the alarm again from the reading before the skip: the alarm for a time long
    past, which the counter reaches after a full turn ([vt_set_alarm] starts from
    the new reading). *)
Lemma insert_first_alarm_past :
  (fun r => (vt_alarm (fst r), vt_faults (fst r))) <$>
    vt_run (fun _ _ => []) [VOp (VSet 1 2)] [] (vt_object_init [0; 100; 101]) = Some (Some 3, 1).
Proof. vm_compute. reflexivity. Qed.

(** A delay that ends beyond the range of the counter is to be shortened: the delta
    is, but the alarm is set after the full delay, here at 2^32 + 5, past the
    deadlines of both timers.  The handler at that time then finds nothing due. *)
Lemma overflow_alarm_late :
  (fun r => (vt_dlist (fst r), vt_alarm (fst r))) <$>
    vt_run (fun _ _ => []) [VOp (VSet 1 (2 ^ 32 - 10)); VOp (VSet 2 (2 ^ 31 + 5))] []
      (vt_object_init [0; 1; 2 ^ 31; 2 ^ 31 + 1])
    = Some ([(2%nat, 2 ^ 31 + 5); (1%nat, 2 ^ 31 - 15)], Some 5) /\
  snd <$> vt_run (fun _ _ => []) [VOp (VSet 1 (2 ^ 32 - 10)); VOp (VSet 2 (2 ^ 31 + 5)); VTick] []
      (vt_object_init [0; 1; 2 ^ 31; 2 ^ 31 + 1; 2 ^ 32 + 5; 2 ^ 32 + 6]) = Some [].
Proof. vm_compute. auto. Qed.
