(* ===== verification/Sched.v ===== *)
(** * The scheduler (chschd.c) and thread control (chthreads.c)

    One core: the thread that runs, the list of ready threads and the threads
    themselves, with the queues their headers can be linked in.  A thread is linked
    in at most one queue, by the same header; linking a header that is linked, or
    taking out one that is not, would corrupt the lists and is [None], as is a
    failed assertion.  The kernel's stack switch is the field [th_cont]: where a
    thread that went to sleep inside a call continues when it runs again. *)

From stdpp Require Import gmap.
From S2P Require Import Prelude CLib Threads.
#[local] Open Scope Z_scope.

(** ** Constants *)

Definition NOPRIO : Z := 0.
Definition IDLEPRIO : Z := 1.
Definition LOWPRIO : Z := 2.
Definition NORMALPRIO : Z := 128.
Definition HIGHPRIO : Z := 255.

(** ** Threads *)

Inductive thd_state :=
| CH_STATE_READY | CH_STATE_CURRENT | CH_STATE_WTSTART | CH_STATE_SUSPENDED
| CH_STATE_WTMTX | CH_STATE_WTCOND | CH_STATE_SLEEPING | CH_STATE_WTEXIT
| CH_STATE_WTOREVT | CH_STATE_WTANDEVT | CH_STATE_SNDMSGQ | CH_STATE_SNDMSG
| CH_STATE_WTMSG | CH_STATE_FINAL.

#[export] Instance thd_state_eq_dec : EqDecision thd_state.
Proof. solve_decision. Defined.

(** The queue a thread's header is linked in: the ready list, the queue of a mutex,
    of a condition variable, of messages to a thread, or of those that wait for a
    thread's end. *)
Inductive qid := Q_none | Q_ready | Q_mtx (m : nat) | Q_cond (c : nat) | Q_msg (t : nat) | Q_exit (t : nat).

#[export] Instance qid_eq_dec : EqDecision qid.
Proof. solve_decision. Defined.

Definition qid_code (q : qid) : nat * nat :=
  match q with
  | Q_none => (0, 0) | Q_ready => (1, 0) | Q_mtx m => (2, m) | Q_cond c => (3, c) | Q_msg t => (4, t)
  | Q_exit t => (5, t)
  end%nat.
Definition qid_decode (c : nat * nat) : qid :=
  match c with
  | (0, _) => Q_none | (1, _) => Q_ready | (2, m) => Q_mtx m | (3, c) => Q_cond c | (4, t) => Q_msg t
  | (_, t) => Q_exit t
  end%nat.

#[export] Instance qid_countable : Countable qid.
Proof. apply (inj_countable' qid_code qid_decode). intros []; reflexivity. Defined.

(** The field [u]: a message ([rdymsg], [sentmsg] and [exitcode] share their bits),
    a mask of events, or a pointer to what the thread waits for. *)
Inductive thd_u :=
| U_msg (msg : Z)
| U_ewmask (mask : Z)
| U_wtmtxp (m : nat)
| U_wtobjp (c : nat)
| U_wttrp (r : nat).

(** How a wait for events takes them: the lowest pending one, all pending ones, or
    only all of those asked for. *)
Inductive evt_kind := EvtOne | EvtAny | EvtAll.

(** What a call returns. *)
Inductive kresult :=
| RVoid
| RMsg (msg : Z)
| RBool (b : bool)
| RMask (mask : Z)
| RThread (t : option nat).

(** Where a sleeping thread continues: in the calls named, after their sleep. *)
Inductive cont :=
| C_mtx (m : nat) (r : kresult)
| C_cond (m : nat) (timed : bool)
| C_suspend
| C_sleep
| C_wait (t : nat)
| C_exit
| C_evt (kind : evt_kind) (timed : bool) (mask : Z)
| C_msg_send
| C_msg_wait (timed : bool).

Record thread := Thd {
  th_prio : Z;
  th_realprio : Z;
  th_state : thd_state;
  th_u : thd_u;
  th_link : qid;
  th_mtxlist : list nat;
  th_epending : Z;
  th_timer : bool;
  th_refs : Z;
  th_reg : bool;
  th_cont : option cont
}.

(** [__thd_object_init]: one reference, in the registry. *)
Definition thd_object_init (prio : Z) : thread :=
  Thd prio prio CH_STATE_WTSTART (U_msg 0) Q_none [] 0 false 1 true None.

#[export] Instance thread_inhabited : Inhabited thread := populate (thd_object_init IDLEPRIO).

Definition th_with_prio (p : Z) (th : thread) : thread :=
  Thd p (th_realprio th) (th_state th) (th_u th) (th_link th) (th_mtxlist th) (th_epending th)
    (th_timer th) (th_refs th) (th_reg th) (th_cont th).
Definition th_with_realprio (p : Z) (th : thread) : thread :=
  Thd (th_prio th) p (th_state th) (th_u th) (th_link th) (th_mtxlist th) (th_epending th)
    (th_timer th) (th_refs th) (th_reg th) (th_cont th).
Definition th_with_state (s : thd_state) (th : thread) : thread :=
  Thd (th_prio th) (th_realprio th) s (th_u th) (th_link th) (th_mtxlist th) (th_epending th)
    (th_timer th) (th_refs th) (th_reg th) (th_cont th).
Definition th_with_u (u : thd_u) (th : thread) : thread :=
  Thd (th_prio th) (th_realprio th) (th_state th) u (th_link th) (th_mtxlist th) (th_epending th)
    (th_timer th) (th_refs th) (th_reg th) (th_cont th).
Definition th_with_link (q : qid) (th : thread) : thread :=
  Thd (th_prio th) (th_realprio th) (th_state th) (th_u th) q (th_mtxlist th) (th_epending th)
    (th_timer th) (th_refs th) (th_reg th) (th_cont th).
Definition th_with_mtxlist (ms : list nat) (th : thread) : thread :=
  Thd (th_prio th) (th_realprio th) (th_state th) (th_u th) (th_link th) ms (th_epending th)
    (th_timer th) (th_refs th) (th_reg th) (th_cont th).
Definition th_with_epending (e : Z) (th : thread) : thread :=
  Thd (th_prio th) (th_realprio th) (th_state th) (th_u th) (th_link th) (th_mtxlist th) e
    (th_timer th) (th_refs th) (th_reg th) (th_cont th).
Definition th_with_timer (b : bool) (th : thread) : thread :=
  Thd (th_prio th) (th_realprio th) (th_state th) (th_u th) (th_link th) (th_mtxlist th) (th_epending th)
    b (th_refs th) (th_reg th) (th_cont th).
Definition th_with_refs (n : Z) (th : thread) : thread :=
  Thd (th_prio th) (th_realprio th) (th_state th) (th_u th) (th_link th) (th_mtxlist th) (th_epending th)
    (th_timer th) n (th_reg th) (th_cont th).
Definition th_with_reg (b : bool) (th : thread) : thread :=
  Thd (th_prio th) (th_realprio th) (th_state th) (th_u th) (th_link th) (th_mtxlist th) (th_epending th)
    (th_timer th) (th_refs th) b (th_cont th).
Definition th_with_cont (c : option cont) (th : thread) : thread :=
  Thd (th_prio th) (th_realprio th) (th_state th) (th_u th) (th_link th) (th_mtxlist th) (th_epending th)
    (th_timer th) (th_refs th) (th_reg th) c.

(** ** The kernel *)

(** A registration for events: who listens, for which of its event bits, the flags
    accumulated and the flags wanted. *)
Record listener := Listener { el_listener : nat; el_events : Z; el_flags : Z; el_wflags : Z }.

(** The running thread, the threads, the queues, the owners of mutexes, the thread
    references, and the event sources with their listeners. *)
Record kernel := Kernel {
  k_current : nat;
  k_threads : gmap nat thread;
  k_queues : gmap qid (list nat);
  k_owner : gmap nat nat;
  k_refs : gmap nat nat;
  k_sources : gmap nat (list nat);
  k_listeners : gmap nat listener
}.

Definition thr (k : kernel) (t : nat) : thread := k_threads k !!! t.
Definition prio (k : kernel) (t : nat) : Z := th_prio (thr k t).
Definition queue (k : kernel) (q : qid) : list nat := k_queues k !!! q.
Definition owner (k : kernel) (m : nat) : option nat := k_owner k !! m.

Definition upd_thread (t : nat) (f : thread -> thread) (k : kernel) : kernel :=
  Kernel (k_current k) (<[t := f (thr k t)]> (k_threads k)) (k_queues k) (k_owner k) (k_refs k) (k_sources k) (k_listeners k).
Definition upd_queue (q : qid) (l : list nat) (k : kernel) : kernel :=
  Kernel (k_current k) (k_threads k) (<[q := l]> (k_queues k)) (k_owner k) (k_refs k) (k_sources k) (k_listeners k).
Definition set_current (t : nat) (k : kernel) : kernel :=
  Kernel t (k_threads k) (k_queues k) (k_owner k) (k_refs k) (k_sources k) (k_listeners k).
Definition set_owner (m : nat) (o : option nat) (k : kernel) : kernel :=
  Kernel (k_current k) (k_threads k) (k_queues k) (partial_alter (fun _ => o) m (k_owner k)) (k_refs k) (k_sources k)
    (k_listeners k).
Definition set_ref (r : nat) (o : option nat) (k : kernel) : kernel :=
  Kernel (k_current k) (k_threads k) (k_queues k) (k_owner k) (partial_alter (fun _ => o) r (k_refs k)) (k_sources k)
    (k_listeners k).

(** The idle thread is thread 0. *)
Definition chSysGetIdleThreadX : nat := 0.

(** ** Queues of thread headers *)

(** The scan of a priority queue ends at an element of lower priority, the new one
    going behind its peers, or ahead of them. *)
Fixpoint insert_behind (pr : nat -> Z) (p : Z) (t : nat) (l : list nat) : list nat :=
  match l with
  | [] => [t]
  | x :: l' => if p <=? pr x then x :: insert_behind pr p t l' else t :: l
  end.

Fixpoint insert_ahead (pr : nat -> Z) (p : Z) (t : nat) (l : list nat) : list nat :=
  match l with
  | [] => [t]
  | x :: l' => if p <? pr x then x :: insert_ahead pr p t l' else t :: l
  end.

(** A header that is not linked goes into a queue. *)
Definition link_in (q : qid) (t : nat) (l : list nat) (k : kernel) : option kernel :=
  _ ← check (bool_decide (th_link (thr k t) = Q_none));
  Some (upd_thread t (th_with_link q) (upd_queue q l k)).

(** The scan for the place behind the peers relies on the header of the list having
    the lowest priority of all, [NOPRIO]. *)
Definition ch_pqueue_insert_behind (q : qid) (t : nat) (k : kernel) : option kernel :=
  _ ← check (NOPRIO <? prio k t);
  link_in q t (insert_behind (prio k) (prio k t) t (queue k q)) k.
Definition ch_pqueue_insert_ahead (q : qid) (t : nat) (k : kernel) : option kernel :=
  link_in q t (insert_ahead (prio k) (prio k t) t (queue k q)) k.
Definition ch_sch_prio_insert (q : qid) (t : nat) (k : kernel) : option kernel :=
  link_in q t (insert_behind (prio k) (prio k t) t (queue k q)) k.
Definition ch_queue_insert (q : qid) (t : nat) (k : kernel) : option kernel :=
  link_in q t (queue k q ++ [t]) k.
Definition ch_list_link (q : qid) (t : nat) (k : kernel) : option kernel :=
  link_in q t (t :: queue k q) k.

(** Takes the first header, or a given one wherever it is linked, out. *)
Definition ch_queue_fifo_remove (q : qid) (k : kernel) : option (kernel * nat) :=
  match queue k q with
  | [] => None
  | t :: l => Some (upd_thread t (th_with_link Q_none) (upd_queue q l k), t)
  end.
Definition ch_pqueue_remove_highest : qid -> kernel -> option (kernel * nat) := ch_queue_fifo_remove.
Definition ch_list_unlink : qid -> kernel -> option (kernel * nat) := ch_queue_fifo_remove.

Definition ch_queue_dequeue (t : nat) (k : kernel) : option kernel :=
  match th_link (thr k t) with
  | Q_none => None
  | q => Some (upd_thread t (th_with_link Q_none) (upd_queue q (filter (fun s => s <> t) (queue k q)) k))
  end.

(** ** The ready list *)

Definition firstprio (k : kernel) : Z :=
  match queue k Q_ready with [] => NOPRIO | t :: _ => prio k t end.

Definition set_state (t : nat) (s : thd_state) : kernel -> kernel := upd_thread t (th_with_state s).

Definition can_ready (t : nat) (k : kernel) : bool :=
  match th_state (thr k t) with CH_STATE_READY | CH_STATE_FINAL => false | _ => true end.

Definition sch_ready_behind (t : nat) (k : kernel) : option kernel :=
  _ ← check (can_ready t k); ch_pqueue_insert_behind Q_ready t (set_state t CH_STATE_READY k).
Definition sch_ready_ahead (t : nat) (k : kernel) : option kernel :=
  _ ← check (can_ready t k); ch_pqueue_insert_ahead Q_ready t (set_state t CH_STATE_READY k).

Definition chSchReadyI : nat -> kernel -> option kernel := sch_ready_behind.

(** The first ready thread becomes the running one. *)
Definition sch_pick (k : kernel) : option kernel :=
  '(k, ntp) ← ch_pqueue_remove_highest Q_ready k;
  Some (set_current ntp (set_state ntp CH_STATE_CURRENT k)).

Definition sch_reschedule_behind (k : kernel) : option kernel :=
  let otp := k_current k in k ← sch_pick k; sch_ready_behind otp k.
Definition sch_reschedule_ahead (k : kernel) : option kernel :=
  let otp := k_current k in k ← sch_pick k; sch_ready_ahead otp k.

Definition chSchRescheduleS (k : kernel) : option kernel :=
  if prio k (k_current k) <? firstprio k then sch_reschedule_ahead k else Some k.
Definition chSchIsPreemptionRequired (k : kernel) : bool := prio k (k_current k) <? firstprio k.
Definition chSchDoPreemption (k : kernel) : option kernel :=
  let otp := k_current k in k ← sch_pick k; sch_ready_ahead otp k.
Definition chSchPreemption (k : kernel) : option kernel :=
  if prio k (k_current k) <? firstprio k then sch_reschedule_ahead k else Some k.
Definition chSchDoYieldS (k : kernel) : option kernel :=
  if prio k (k_current k) <=? firstprio k then sch_reschedule_behind k else Some k.
Definition chSchSelectFirst (k : kernel) : option kernel :=
  let otp := k_current k in k ← sch_pick k; sch_ready_ahead otp k.

(** ** Sleeping and waking *)

(** The running thread goes to sleep, to continue at [c]. *)
Definition chSchGoSleepS (newstate : thd_state) (c : cont) (k : kernel) : option kernel :=
  let otp := k_current k in
  _ ← check (negb (Nat.eqb otp chSysGetIdleThreadX));
  sch_pick (upd_thread otp (th_with_cont (Some c)) (set_state otp newstate k)).

(** With a timeout a timer is set, which the thread stops when it continues. *)
Definition chSchGoSleepTimeoutS (newstate : thd_state) (timeout : Z) (c : cont) (k : kernel) : option kernel :=
  if timeout =? TIME_INFINITE then chSchGoSleepS newstate c k
  else
    _ ← check (negb (timeout =? TIME_IMMEDIATE));
    chSchGoSleepS newstate c (upd_thread (k_current k) (th_with_timer true) k).

Definition chSchWakeupS (ntp : nat) (msg : Z) (k : kernel) : option kernel :=
  let otp := k_current k in
  _ ← check (firstprio k <=? prio k otp);
  let k := upd_thread ntp (th_with_u (U_msg msg)) k in
  if prio k ntp <=? prio k otp then sch_ready_behind ntp k
  else
    k ← sch_ready_ahead otp k;
    Some (set_current ntp (set_state ntp CH_STATE_CURRENT k)).

(** The timer of a thread that sleeps with a timeout goes off. *)
Definition sch_wakeup (t : nat) (k : kernel) : option kernel :=
  let k := upd_thread t (th_with_timer false) k in
  let timeout k := sch_ready_behind t (upd_thread t (th_with_u (U_msg MSG_TIMEOUT)) k) in
  match th_state (thr k t), th_u (thr k t) with
  | CH_STATE_READY, _ => Some k
  | CH_STATE_SUSPENDED, U_wttrp r => timeout (set_ref r None k)
  | CH_STATE_SUSPENDED, _ => None
  | CH_STATE_WTCOND, _ | CH_STATE_SNDMSGQ, _ => k ← ch_queue_dequeue t k; timeout k
  | _, _ => timeout k
  end.

(** The message a thread was made ready with. *)
Definition rdymsg (k : kernel) (t : nat) : option Z :=
  match th_u (thr k t) with U_msg msg => Some msg | _ => None end.

(** ** Thread control

    A call returns its result, or nothing when its thread sleeps. *)

Definition chThdStart (t : nat) (k : kernel) : option (kernel * option kresult) :=
  _ ← check (bool_decide (th_state (thr k t) = CH_STATE_WTSTART));
  k ← chSchWakeupS t MSG_OK k; Some (k, Some (RThread (Some t))).

Definition chThdSetPriority (newprio : Z) (k : kernel) : option (kernel * option kresult) :=
  let t := k_current k in
  _ ← check (newprio <=? HIGHPRIO);
  let oldprio := th_realprio (thr k t) in
  let k := if (prio k t =? oldprio) || (prio k t <? newprio) then upd_thread t (th_with_prio newprio) k else k in
  k ← chSchRescheduleS (upd_thread t (th_with_realprio newprio) k);
  Some (k, Some (RMsg oldprio)).

Definition chThdYield (k : kernel) : option (kernel * option kresult) :=
  k ← chSchDoYieldS k; Some (k, Some RVoid).

Definition chThdSleepS (ticks : Z) (k : kernel) : option (kernel * option kresult) :=
  _ ← check (negb (ticks =? TIME_IMMEDIATE));
  k ← chSchGoSleepTimeoutS CH_STATE_SLEEPING ticks C_sleep k; Some (k, None).

(** The running thread suspends itself at a reference. *)
Definition suspend_at (r : nat) (k : kernel) : option kernel :=
  _ ← check (bool_decide (k_refs k !! r = None));
  Some (upd_thread (k_current k) (th_with_u (U_wttrp r)) (set_ref r (Some (k_current k)) k)).

Definition chThdSuspendS (r : nat) (k : kernel) : option (kernel * option kresult) :=
  k ← suspend_at r k; k ← chSchGoSleepS CH_STATE_SUSPENDED C_suspend k; Some (k, None).

Definition chThdSuspendTimeoutS (r : nat) (timeout : Z) (k : kernel) : option (kernel * option kresult) :=
  _ ← check (bool_decide (k_refs k !! r = None));
  if timeout =? TIME_IMMEDIATE then Some (k, Some (RMsg MSG_TIMEOUT))
  else
    k ← suspend_at r k; k ← chSchGoSleepTimeoutS CH_STATE_SUSPENDED timeout C_suspend k; Some (k, None).

Definition chThdResumeI (r : nat) (msg : Z) (k : kernel) : option kernel :=
  match k_refs k !! r with
  | None => Some k
  | Some t =>
      _ ← check (bool_decide (th_state (thr k t) = CH_STATE_SUSPENDED));
      chSchReadyI t (upd_thread t (th_with_u (U_msg msg)) (set_ref r None k))
  end.

Definition chThdResumeS (r : nat) (msg : Z) (k : kernel) : option kernel :=
  match k_refs k !! r with
  | None => Some k
  | Some t =>
      _ ← check (bool_decide (th_state (thr k t) = CH_STATE_SUSPENDED));
      chSchWakeupS t msg (set_ref r None k)
  end.
Definition chThdResume (r : nat) (msg : Z) (k : kernel) : option (kernel * option kresult) :=
  k ← chThdResumeS r msg k; Some (k, Some RVoid).

(** References to a thread, and its place in the registry of threads: all threads are
    static, they have no memory to return. *)
Definition REG_REMOVE (t : nat) (k : kernel) : option kernel :=
  _ ← check (th_reg (thr k t)); Some (upd_thread t (th_with_reg false) k).

Definition chThdAddRef (t : nat) (k : kernel) : option (kernel * option kresult) :=
  _ ← check (th_refs (thr k t) <? 255);
  Some (upd_thread t (fun th => th_with_refs (th_refs th + 1) th) k, Some (RThread (Some t))).

Definition chThdRelease (t : nat) (k : kernel) : option (kernel * option kresult) :=
  _ ← check (0 <? th_refs (thr k t));
  let k := upd_thread t (fun th => th_with_refs (th_refs th - 1) th) k in
  k ← (if (th_refs (thr k t) =? 0) && bool_decide (th_state (thr k t) = CH_STATE_FINAL) then REG_REMOVE t k else Some k);
  Some (k, Some RVoid).

(** A thread ends: those that wait for it are made ready, the last that came first. *)
Fixpoint exit_wake (n : nat) (q : qid) (k : kernel) : option kernel :=
  match n with
  | O => Some k
  | S n => '(k, t) ← ch_list_unlink q k; k ← chSchReadyI t k; exit_wake n q k
  end.

Definition chThdExitS (msg : Z) (k : kernel) : option (kernel * option kresult) :=
  let t := k_current k in
  let k := upd_thread t (th_with_u (U_msg msg)) k in
  k ← exit_wake (length (queue k (Q_exit t))) (Q_exit t) k;
  k ← (if th_refs (thr k t) =? 0 then REG_REMOVE t k else Some k);
  k ← chSchGoSleepS CH_STATE_FINAL C_exit k; Some (k, None).

(** The wait for the end of a thread, in the locked part of the call; the release of
    the reference that the call ends with, with the kernel unlocked, is the call
    [chThdRelease]. *)
Definition chThdWait (t : nat) (k : kernel) : option (kernel * option kresult) :=
  _ ← check (negb (Nat.eqb t (k_current k)));
  _ ← check (0 <? th_refs (thr k t));
  match th_state (thr k t) with
  | CH_STATE_FINAL => msg ← rdymsg k t; Some (k, Some (RMsg msg))
  | _ =>
      k ← ch_list_link (Q_exit t) (k_current k) k;
      k ← chSchGoSleepS CH_STATE_WTEXIT (C_wait t) k; Some (k, None)
  end.
