(* ===== verification/Mutexes.v ===== *)
(** * Mutexes and condition variables (chmtx.c, chcond.c)

    A mutex is its queue of waiting threads, in the kernel's queues, and its owner;
    the mutexes a thread owns are a stack in the thread.  Mutexes are not
    recursive, as configured. *)

From stdpp Require Import gmap.
From S2P Require Import Prelude CLib Threads Sched.
#[local] Open Scope Z_scope.

(** ** Mutexes *)

Definition chMtxQueueNotEmptyS (m : nat) (k : kernel) : bool :=
  match queue k (Q_mtx m) with [] => false | _ => true end.
Definition chMtxGetOwnerI (m : nat) (k : kernel) : option nat := owner k m.
Definition chMtxGetNextMutexX (k : kernel) : option nat := head (th_mtxlist (thr k (k_current k))).

Definition chMtxObjectInit (m : nat) (k : kernel) : kernel := set_owner m None (upd_queue (Q_mtx m) [] k).
Definition chMtxObjectDispose (m : nat) (k : kernel) : option kernel :=
  _ ← check (negb (chMtxQueueNotEmptyS m k)); _ ← check (bool_decide (owner k m = None));
  Some k.

(** Thread [t] becomes the owner: the mutex goes on its stack. *)
Definition mtx_give (m t : nat) (k : kernel) : kernel :=
  upd_thread t (fun th => th_with_mtxlist (m :: th_mtxlist th) th) (set_owner m (Some t) k).

(** The queue a waiting thread is put into again; the field [u] is read as a pointer
    to a mutex for condition variables as well, whose queue is the first field of
    both. *)
Definition wait_queue (u : thd_u) : option qid :=
  match u with U_wtmtxp m => Some (Q_mtx m) | U_wtobjp c => Some (Q_cond c) | _ => None end.

(** Priority inheritance: the owner of the mutex, and the owner of the one it waits
    for in turn, get at least priority [p]; the turns are bounded by the number of
    threads that have less. *)
Fixpoint mtx_boost (fuel : nat) (p : Z) (tp : nat) (k : kernel) : option kernel :=
  match fuel with
  | O => None
  | S fuel =>
      if prio k tp <? p then
        let k := upd_thread tp (th_with_prio p) k in
        match th_state (thr k tp) with
        | CH_STATE_WTMTX =>
            q ← wait_queue (th_u (thr k tp));
            k ← ch_queue_dequeue tp k;
            k ← ch_sch_prio_insert q tp k;
            match th_u (thr k tp) with
            | U_wtmtxp m => tp ← owner k m; mtx_boost fuel p tp k
            | _ => None
            end
        | CH_STATE_WTCOND =>
            q ← wait_queue (th_u (thr k tp));
            k ← ch_queue_dequeue tp k; ch_sch_prio_insert q tp k
        | CH_STATE_READY =>
            k ← ch_queue_dequeue tp (set_state tp CH_STATE_CURRENT k); chSchReadyI tp k
        | _ => Some k
        end
      else Some k
  end.

(** Locks, to return [r] when the mutex is owned. *)
Definition mtx_lock (m : nat) (r : kresult) (k : kernel) : option (kernel * option kresult) :=
  let currtp := k_current k in
  match owner k m with
  | Some tp =>
      k ← mtx_boost (S (size (k_threads k))) (prio k currtp) tp k;
      k ← ch_sch_prio_insert (Q_mtx m) currtp k;
      k ← chSchGoSleepS CH_STATE_WTMTX (C_mtx m r) (upd_thread currtp (th_with_u (U_wtmtxp m)) k);
      Some (k, None)
  | None => Some (mtx_give m currtp k, Some r)
  end.

(** When the thread runs again it has been made the owner. *)
Definition mtx_locked (m : nat) (r : kresult) (k : kernel) : option (kernel * option kresult) :=
  _ ← check (bool_decide (owner k m = Some (k_current k)));
  _ ← check (bool_decide (chMtxGetNextMutexX k = Some m));
  Some (k, Some r).

Definition chMtxLockS (m : nat) : kernel -> option (kernel * option kresult) := mtx_lock m RVoid.
Definition chMtxLock := chMtxLockS.

Definition chMtxTryLockS (m : nat) (k : kernel) : option (kernel * option kresult) :=
  match owner k m with
  | Some _ => Some (k, Some (RBool false))
  | None => Some (mtx_give m (k_current k) k, Some (RBool true))
  end.
Definition chMtxTryLock := chMtxTryLockS.

(** The mutex is handed to the first waiting thread, or is free. *)
Definition mtx_hand_over (m : nat) (k : kernel) : option kernel :=
  if chMtxQueueNotEmptyS m k then
    '(k, tp) ← ch_queue_fifo_remove (Q_mtx m) k; chSchReadyI tp (mtx_give m tp k)
  else Some (set_owner m None k).

(** The priority a thread with base priority [p] has by the mutexes [ms]. *)
Definition newprio_of (k : kernel) (p : Z) (ms : list nat) : Z :=
  foldl (fun newprio lmp =>
    match queue k (Q_mtx lmp) with
    | s :: _ => if newprio <? prio k s then prio k s else newprio
    | [] => newprio
    end) p ms.

(** Unlocks the mutex that was locked last. *)
Definition chMtxUnlockS (m : nat) (k : kernel) : option kernel :=
  let currtp := k_current k in
  match th_mtxlist (thr k currtp) with
  | [] => None
  | top :: ms =>
      _ ← check (bool_decide (owner k top = Some currtp));
      _ ← check (Nat.eqb top m);
      let k := upd_thread currtp (th_with_mtxlist ms) k in
      let k := if chMtxQueueNotEmptyS m k then
                 upd_thread currtp (th_with_prio (newprio_of k (th_realprio (thr k currtp)) ms)) k
               else k in
      mtx_hand_over m k
  end.

Definition chMtxUnlock (m : nat) (k : kernel) : option (kernel * option kresult) :=
  let waiting := chMtxQueueNotEmptyS m k in
  k ← chMtxUnlockS m k;
  k ← (if waiting then chSchRescheduleS k else Some k);
  Some (k, Some RVoid).

Fixpoint unlock_all (currtp : nat) (ms : list nat) (k : kernel) : option kernel :=
  match ms with
  | [] => Some k
  | m :: ms =>
      k ← mtx_hand_over m (upd_thread currtp (th_with_mtxlist ms) k);
      unlock_all currtp ms k
  end.

Definition chMtxUnlockAllS (k : kernel) : option (kernel * option kresult) :=
  let currtp := k_current k in
  match th_mtxlist (thr k currtp) with
  | [] => Some (k, Some RVoid)
  | ms =>
      k ← unlock_all currtp ms k;
      k ← chSchRescheduleS (upd_thread currtp (fun th => th_with_prio (th_realprio th) th) k);
      Some (k, Some RVoid)
  end.
Definition chMtxUnlockAll := chMtxUnlockAllS.

(** ** Condition variables *)

Definition chCondObjectInit (c : nat) (k : kernel) : kernel := upd_queue (Q_cond c) [] k.
Definition chCondObjectDispose (c : nat) (k : kernel) : option kernel :=
  _ ← check (match queue k (Q_cond c) with [] => true | _ => false end); Some k.

Definition chCondSignal (c : nat) (k : kernel) : option (kernel * option kresult) :=
  match queue k (Q_cond c) with
  | [] => Some (k, Some RVoid)
  | _ => '(k, tp) ← ch_queue_fifo_remove (Q_cond c) k; k ← chSchWakeupS tp MSG_OK k; Some (k, Some RVoid)
  end.

Definition chCondSignalI (c : nat) (k : kernel) : option kernel :=
  match queue k (Q_cond c) with
  | [] => Some k
  | _ => '(k, tp) ← ch_queue_fifo_remove (Q_cond c) k; chSchReadyI tp (upd_thread tp (th_with_u (U_msg MSG_OK)) k)
  end.

Fixpoint cond_broadcast (n : nat) (c : nat) (k : kernel) : option kernel :=
  match n with
  | O => Some k
  | S n =>
      '(k, tp) ← ch_queue_fifo_remove (Q_cond c) k;
      k ← chSchReadyI tp k;
      cond_broadcast n c (upd_thread tp (th_with_u (U_msg MSG_RESET)) k)
  end.
Definition chCondBroadcastI (c : nat) (k : kernel) : option kernel :=
  cond_broadcast (length (queue k (Q_cond c))) c k.
Definition chCondBroadcast (c : nat) (k : kernel) : option (kernel * option kresult) :=
  k ← chCondBroadcastI c k; k ← chSchRescheduleS k; Some (k, Some RVoid).

(** The mutex locked last is released and the thread queued; woken, it locks the
    mutex again. *)
Definition cond_enqueue (c : nat) (k : kernel) : option (kernel * nat) :=
  m ← chMtxGetNextMutexX k;
  k ← chMtxUnlockS m k;
  k ← ch_sch_prio_insert (Q_cond c) (k_current k) (upd_thread (k_current k) (th_with_u (U_wtobjp c)) k);
  Some (k, m).

Definition chCondWaitS (c : nat) (k : kernel) : option (kernel * option kresult) :=
  '(k, m) ← cond_enqueue c k;
  k ← chSchGoSleepS CH_STATE_WTCOND (C_cond m false) k; Some (k, None).

Definition chCondWaitTimeoutS (c : nat) (timeout : Z) (k : kernel) : option (kernel * option kresult) :=
  _ ← check (negb (timeout =? TIME_IMMEDIATE));
  '(k, m) ← cond_enqueue c k;
  k ← chSchGoSleepTimeoutS CH_STATE_WTCOND timeout (C_cond m true) k; Some (k, None).

(** After the sleep; a wait that has timed out does not lock the mutex. *)
Definition cond_woken (m : nat) (timed : bool) (k : kernel) : option (kernel * option kresult) :=
  msg ← rdymsg k (k_current k);
  if timed && (msg =? MSG_TIMEOUT) then Some (k, Some (RMsg msg)) else mtx_lock m (RMsg msg) k.
