(* ===== verification/Events.v ===== *)
(** * Event flags (chevents.c)

    Each thread has a mask of 32 pending events.  A source has a list of listeners,
    the last registered first; a broadcast sets events of the listening threads.  A
    thread waits for one, any or all of some events. *)

From stdpp Require Import gmap.
From S2P Require Import Prelude CInt CLib Threads Sched.
#[local] Open Scope Z_scope.

Definition ALL_EVENTS : Z := 2 ^ 32 - 1.
Definition EVENT_MASK (eid : Z) : Z := u32 (Z.shiftl 1 eid).

(** ** Sources *)

Definition set_listener (el : nat) (l : listener) (k : kernel) : kernel :=
  Kernel (k_current k) (k_threads k) (k_queues k) (k_owner k) (k_refs k) (k_sources k) (<[el := l]> (k_listeners k)).
Definition set_source (es : nat) (ls : list nat) (k : kernel) : kernel :=
  Kernel (k_current k) (k_threads k) (k_queues k) (k_owner k) (k_refs k) (<[es := ls]> (k_sources k)) (k_listeners k).

Definition listeners (k : kernel) (es : nat) : list nat := k_sources k !!! es.

Definition chEvtObjectInit (es : nat) : kernel -> kernel := set_source es [].

(** A listener that is linked in a list already would corrupt it. *)
Definition evt_registered (el : nat) (k : kernel) : bool :=
  negb (bool_decide (map_Forall (fun _ ls => el ∉ ls) (k_sources k))).

Definition chEvtRegisterMaskWithFlagsI (es el : nat) (events wflags : Z) (k : kernel) : option kernel :=
  _ ← check (negb (evt_registered el k));
  Some (set_listener el (Listener (k_current k) events 0 wflags) (set_source es (el :: listeners k es) k)).
Definition chEvtRegisterMask (es el : nat) (events : Z) : kernel -> option kernel :=
  chEvtRegisterMaskWithFlagsI es el events ALL_EVENTS.
Definition chEvtRegister (es el : nat) (event : Z) : kernel -> option kernel := chEvtRegisterMask es el (EVENT_MASK event).

(** The listener is taken out of the list, when it is there. *)
Fixpoint unlink_first (el : nat) (ls : list nat) : list nat :=
  match ls with [] => [] | l :: ls => if Nat.eqb l el then ls else l :: unlink_first el ls end.
Definition chEvtUnregister (es el : nat) (k : kernel) : kernel :=
  set_source es (unlink_first el (listeners k es)) k.

Definition chEvtIsListeningI (es : nat) (k : kernel) : bool :=
  match listeners k es with [] => false | _ => true end.

(** The check that no listener is left has the condition the wrong way round. *)
Definition chEvtObjectDispose (es : nat) (k : kernel) : option kernel := _ ← check (chEvtIsListeningI es k); Some k.

Definition chEvtGetAndClearFlagsI (el : nat) (k : kernel) : option (kernel * Z) :=
  l ← k_listeners k !! el;
  Some (set_listener el (Listener (el_listener l) (el_events l) 0 (el_wflags l)) k, Z.land (el_flags l) (el_wflags l)).

(** ** Pending events *)

Definition set_epending (t : nat) (e : Z) : kernel -> kernel := upd_thread t (th_with_epending e).

Definition chEvtGetAndClearEventsI (events : Z) (k : kernel) : kernel * Z :=
  let t := k_current k in
  let e := th_epending (thr k t) in
  (set_epending t (Z.ldiff e events) k, Z.land e events).

Definition chEvtAddEventsI (events : Z) (k : kernel) : kernel * Z :=
  let t := k_current k in
  let e := Z.lor (th_epending (thr k t)) events in (set_epending t e k, e).

(** Does a thread in this wait state wake up with these events pending? *)
Definition evt_wakes (s : thd_state) (u : thd_u) (pending : Z) : bool :=
  match s, u with
  | CH_STATE_WTOREVT, U_ewmask mask => negb (Z.land pending mask =? 0)
  | CH_STATE_WTANDEVT, U_ewmask mask => Z.land pending mask =? mask
  | _, _ => false
  end.

Definition chEvtSignalI (t : nat) (events : Z) (k : kernel) : option kernel :=
  let k := set_epending t (Z.lor (th_epending (thr k t)) events) k in
  if evt_wakes (th_state (thr k t)) (th_u (thr k t)) (th_epending (thr k t)) then
    chSchReadyI t (upd_thread t (th_with_u (U_msg MSG_OK)) k)
  else Some k.

Definition chEvtSignal (t : nat) (events : Z) (k : kernel) : option (kernel * option kresult) :=
  k ← chEvtSignalI t events k; k ← chSchRescheduleS k; Some (k, Some RVoid).

(** Without flags every listener is signalled, with flags those that want one. *)
Definition evt_notify (flags : Z) (el : nat) (k : kernel) : option kernel :=
  l ← k_listeners k !! el;
  let k := set_listener el (Listener (el_listener l) (el_events l) (Z.lor (el_flags l) flags) (el_wflags l)) k in
  if (flags =? 0) || negb (Z.land flags (el_wflags l) =? 0) then chEvtSignalI (el_listener l) (el_events l) k
  else Some k.

Fixpoint evt_notify_all (flags : Z) (ls : list nat) (k : kernel) : option kernel :=
  match ls with
  | [] => Some k
  | el :: ls => k ← evt_notify flags el k; evt_notify_all flags ls k
  end.

Definition chEvtBroadcastFlagsI (es : nat) (flags : Z) (k : kernel) : option kernel :=
  evt_notify_all flags (listeners k es) k.
Definition chEvtBroadcastFlags (es : nat) (flags : Z) (k : kernel) : option (kernel * option kresult) :=
  k ← chEvtBroadcastFlagsI es flags k; k ← chSchRescheduleS k; Some (k, Some RVoid).
Definition chEvtBroadcast (es : nat) : kernel -> option (kernel * option kresult) := chEvtBroadcastFlags es 0.

(** ** Waiting *)

(** The events a wait can take now, and whether that is enough to return. *)
Definition evt_found (kind : evt_kind) (pending events : Z) : bool :=
  match kind with
  | EvtOne | EvtAny => negb (Z.land pending events =? 0)
  | EvtAll => Z.land pending events =? events
  end.

(** The lowest bit of a mask, by the code's expression. *)
Definition lowest_event (m : Z) : Z := Z.lxor m (Z.land m (u32 (m - 1))).

Definition evt_taken (kind : evt_kind) (pending events : Z) : Z :=
  match kind with
  | EvtOne => lowest_event (Z.land pending events)
  | EvtAny => Z.land pending events
  | EvtAll => events
  end.

Definition evt_take (kind : evt_kind) (events : Z) (k : kernel) : option (kernel * option kresult) :=
  let t := k_current k in
  let e := th_epending (thr k t) in
  let m := evt_taken kind e events in
  Some (set_epending t (Z.ldiff e m) k, Some (RMask m)).

Definition evt_state (kind : evt_kind) : thd_state :=
  match kind with EvtAll => CH_STATE_WTANDEVT | _ => CH_STATE_WTOREVT end.

(** [chEvtWaitOne], [chEvtWaitAny], [chEvtWaitAll] *)
Definition chEvtWait (kind : evt_kind) (events : Z) (k : kernel) : option (kernel * option kresult) :=
  let t := k_current k in
  if evt_found kind (th_epending (thr k t)) events then evt_take kind events k
  else
    k ← chSchGoSleepS (evt_state kind) (C_evt kind false events) (upd_thread t (th_with_u (U_ewmask events)) k);
    Some (k, None).

(** [chEvtWaitOneTimeout], [chEvtWaitAnyTimeout], [chEvtWaitAllTimeout] *)
Definition chEvtWaitTimeout (kind : evt_kind) (events timeout : Z) (k : kernel) : option (kernel * option kresult) :=
  let t := k_current k in
  if evt_found kind (th_epending (thr k t)) events then evt_take kind events k
  else if timeout =? TIME_IMMEDIATE then Some (k, Some (RMask 0))
  else
    k ← chSchGoSleepTimeoutS (evt_state kind) timeout (C_evt kind true events) (upd_thread t (th_with_u (U_ewmask events)) k);
    Some (k, None).

Definition evt_woken (kind : evt_kind) (timed : bool) (events : Z) (k : kernel) : option (kernel * option kresult) :=
  if timed then
    msg ← rdymsg k (k_current k);
    if msg <? MSG_OK then Some (k, Some (RMask 0)) else evt_take kind events k
  else evt_take kind events k.

(** ** Dispatching *)

(** Calls the handler of each event of the mask, the lowest first; [fuel] bounds the
    identifiers. *)
Fixpoint evt_dispatch (fuel : nat) (eid events : Z) : option (list Z) :=
  match fuel with
  | O => None
  | S fuel =>
      if events =? 0 then Some []
      else if negb (Z.land events (EVENT_MASK eid) =? 0) then
        l ← evt_dispatch fuel (eid + 1) (Z.ldiff events (EVENT_MASK eid)); Some (eid :: l)
      else evt_dispatch fuel (eid + 1) events
  end.
Definition chEvtDispatch (events : Z) : option (list Z) := evt_dispatch 33 0 events.
