(* ===== verification/Messages.v ===== *)
(** * Synchronous messages (chmsg.c)

    A sender queues itself at the receiver and sleeps until it is released with an
    answer. *)

From stdpp Require Import gmap.
From S2P Require Import Prelude CLib Threads Sched.
#[local] Open Scope Z_scope.

Definition chMsgIsPendingI (t : nat) (k : kernel) : bool :=
  match queue k (Q_msg t) with [] => false | _ => true end.

(** The receiver is made ready without a message of its own: its field [u] stays. *)
Definition chMsgSend (t : nat) (msg : Z) (k : kernel) : option (kernel * option kresult) :=
  let currtp := k_current k in
  k ← ch_queue_insert (Q_msg t) currtp (upd_thread currtp (th_with_u (U_msg msg)) k);
  k ← (if bool_decide (th_state (thr k t) = CH_STATE_WTMSG) then chSchReadyI t k else Some k);
  k ← chSchGoSleepS CH_STATE_SNDMSGQ C_msg_send k;
  Some (k, None).

(** Takes the first sender from the queue. *)
Definition msg_take (k : kernel) : option (kernel * option kresult) :=
  '(k, tp) ← ch_queue_fifo_remove (Q_msg (k_current k)) k;
  Some (set_state tp CH_STATE_SNDMSG k, Some (RThread (Some tp))).

Definition chMsgWaitS (k : kernel) : option (kernel * option kresult) :=
  if negb (chMsgIsPendingI (k_current k) k) then
    k ← chSchGoSleepS CH_STATE_WTMSG (C_msg_wait false) k; Some (k, None)
  else msg_take k.
Definition chMsgWait := chMsgWaitS.

Definition chMsgWaitTimeoutS (timeout : Z) (k : kernel) : option (kernel * option kresult) :=
  if negb (chMsgIsPendingI (k_current k) k) then
    k ← chSchGoSleepTimeoutS CH_STATE_WTMSG timeout (C_msg_wait true) k; Some (k, None)
  else msg_take k.
Definition chMsgWaitTimeout := chMsgWaitTimeoutS.

(** The receiver runs again.  With a timeout it looks at its message: whatever the
    field [u] was used for last; a pointer is never [MSG_OK]. *)
Definition msg_woken (timed : bool) (k : kernel) : option (kernel * option kresult) :=
  if timed then
    match th_u (thr k (k_current k)) with
    | U_msg msg | U_ewmask msg =>
        if msg =? MSG_OK then msg_take k else Some (k, Some (RThread None))
    | _ => Some (k, Some (RThread None))
    end
  else msg_take k.

Definition chMsgPollS (k : kernel) : option (kernel * option kresult) :=
  if chMsgIsPendingI (k_current k) k then msg_take k else Some (k, Some (RThread None)).
Definition chMsgPoll := chMsgPollS.

Definition chMsgGet (t : nat) (k : kernel) : option Z :=
  _ ← check (bool_decide (th_state (thr k t) = CH_STATE_SNDMSG)); rdymsg k t.

Definition chMsgReleaseS (t : nat) (msg : Z) (k : kernel) : option kernel := chSchWakeupS t msg k.
Definition chMsgRelease (t : nat) (msg : Z) (k : kernel) : option (kernel * option kresult) :=
  _ ← check (bool_decide (th_state (thr k t) = CH_STATE_SNDMSG));
  k ← chMsgReleaseS t msg k; Some (k, Some RVoid).
