(* ===== verification/Kernel.v ===== *)
(** * The kernel as a transition system

    One event after the other: a call of the running thread, the rest of a call it
    slept in, an interrupt handler with the preemption that ends it, or the timeout
    of a sleeping thread.  The calls are those of the files [Sched], [Mutexes],
    [Events] and [Messages]. *)

From stdpp Require Import gmap fin_maps.
From S2P Require Import Prelude CLib Threads Sched Mutexes Events Messages.
#[local] Open Scope Z_scope.

(** ** Events *)

Inductive kcall :=
| KLock (m : nat) | KTryLock (m : nat) | KUnlock (m : nat) | KUnlockAll
| KCondWait (c : nat) | KCondWaitTimeout (c : nat) (timeout : Z) | KCondSignal (c : nat) | KCondBroadcast (c : nat)
| KEvtRegister (es el : nat) (events wflags : Z) | KEvtUnregister (es el : nat)
| KEvtSignal (t : nat) (events : Z) | KEvtBroadcast (es : nat) (flags : Z)
| KEvtClear (events : Z) | KEvtAdd (events : Z) | KEvtFlags (el : nat)
| KEvtWait (kind : evt_kind) (events : Z) | KEvtWaitTimeout (kind : evt_kind) (events timeout : Z)
| KMsgSend (t : nat) (msg : Z) | KMsgWait | KMsgWaitTimeout (timeout : Z) | KMsgPoll | KMsgRelease (t : nat) (msg : Z)
| KStart (t : nat) | KSetPriority (p : Z) | KYield | KSleep (ticks : Z)
| KSuspend (r : nat) | KSuspendTimeout (r : nat) (timeout : Z) | KResumeRef (r : nat) (msg : Z)
| KExit (msg : Z) | KWait (t : nat) | KAddRef (t : nat) | KRelease (t : nat).

(** What interrupt handlers call. *)
Inductive kisr :=
| ICondSignal (c : nat) | ICondBroadcast (c : nat) | IEvtSignal (t : nat) (events : Z) | IEvtBroadcast (es : nat) (flags : Z)
| IResumeRef (r : nat) (msg : Z).

Inductive kevent := KCall (op : kcall) | KContinue | KIsr (op : kisr) | KTimeout (t : nat).

Definition exec_call (op : kcall) (k : kernel) : option (kernel * option kresult) :=
  match op with
  | KLock m => chMtxLock m k
  | KTryLock m => chMtxTryLock m k
  | KUnlock m => chMtxUnlock m k
  | KUnlockAll => chMtxUnlockAll k
  | KCondWait c => chCondWaitS c k
  | KCondWaitTimeout c timeout => chCondWaitTimeoutS c timeout k
  | KCondSignal c => chCondSignal c k
  | KCondBroadcast c => chCondBroadcast c k
  | KEvtRegister es el events wflags => k ← chEvtRegisterMaskWithFlagsI es el events wflags k; Some (k, Some RVoid)
  | KEvtUnregister es el => Some (chEvtUnregister es el k, Some RVoid)
  | KEvtSignal t events => chEvtSignal t events k
  | KEvtBroadcast es flags => chEvtBroadcastFlags es flags k
  | KEvtClear events => let '(k, m) := chEvtGetAndClearEventsI events k in Some (k, Some (RMask m))
  | KEvtAdd events => let '(k, m) := chEvtAddEventsI events k in Some (k, Some (RMask m))
  | KEvtFlags el => '(k, m) ← chEvtGetAndClearFlagsI el k; Some (k, Some (RMask m))
  | KEvtWait kind events => chEvtWait kind events k
  | KEvtWaitTimeout kind events timeout => chEvtWaitTimeout kind events timeout k
  | KMsgSend t msg => chMsgSend t msg k
  | KMsgWait => chMsgWait k
  | KMsgWaitTimeout timeout => chMsgWaitTimeout timeout k
  | KMsgPoll => chMsgPoll k
  | KMsgRelease t msg => chMsgRelease t msg k
  | KStart t => chThdStart t k
  | KSetPriority p => chThdSetPriority p k
  | KYield => chThdYield k
  | KSleep ticks => chThdSleepS ticks k
  | KSuspend r => chThdSuspendS r k
  | KSuspendTimeout r timeout => chThdSuspendTimeoutS r timeout k
  | KResumeRef r msg => chThdResume r msg k
  | KExit msg => chThdExitS msg k
  | KWait t => chThdWait t k
  | KAddRef t => chThdAddRef t k
  | KRelease t => chThdRelease t k
  end.

(** The rest of a call after its sleep. *)
Definition exec_cont (c : cont) (k : kernel) : option (kernel * option kresult) :=
  let t := k_current k in
  match c with
  | C_mtx m r => mtx_locked m r k
  | C_cond m timed => cond_woken m timed k
  | C_suspend | C_msg_send => msg ← rdymsg k t; Some (k, Some (RMsg msg))
  | C_sleep => Some (k, Some RVoid)
  | C_wait t => msg ← rdymsg k t; Some (k, Some (RMsg msg))
  | C_exit => None
  | C_evt kind timed events => evt_woken kind timed events k
  | C_msg_wait timed => msg_woken timed k
  end.

Definition continue (k : kernel) : option (kernel * option kresult) :=
  let t := k_current k in
  c ← th_cont (thr k t);
  exec_cont c (upd_thread t (fun th => th_with_cont None (th_with_timer false th)) k).

Definition exec_isr (op : kisr) (k : kernel) : option kernel :=
  match op with
  | ICondSignal c => chCondSignalI c k
  | ICondBroadcast c => chCondBroadcastI c k
  | IEvtSignal t events => chEvtSignalI t events k
  | IEvtBroadcast es flags => chEvtBroadcastFlagsI es flags k
  | IResumeRef r msg => chThdResumeI r msg k
  end.

(** An interrupt ends with a switch when a thread of higher priority is ready. *)
Definition isr_epilogue (k : kernel) : option kernel :=
  if chSchIsPreemptionRequired k then chSchDoPreemption k else Some k.

Definition k_step (e : kevent) (k : kernel) : option (kernel * option kresult) :=
  match e with
  | KCall op => exec_call op k
  | KContinue => continue k
  | KIsr op => k ← exec_isr op k; k ← isr_epilogue k; Some (k, None)
  | KTimeout t => k ← sch_wakeup t k; k ← isr_epilogue k; Some (k, None)
  end.

(** ** What callers must keep to *)

(** Some thread that waits for a mutex of [t] has a priority above [p]. *)
Definition waiter_above (k : kernel) (t : nat) (p : Z) : bool :=
  existsb (fun m => existsb (fun s => p <? prio k s) (queue k (Q_mtx m))) (th_mtxlist (thr k t)).

Definition call_ok (op : kcall) (k : kernel) : bool :=
  let t := k_current k in
  match op with
  | KUnlock m => bool_decide (head (th_mtxlist (thr k t)) = Some m)
  | KCondWait _ => negb (bool_decide (th_mtxlist (thr k t) = []))
  | KCondWaitTimeout _ timeout => negb (bool_decide (th_mtxlist (thr k t) = [])) && negb (timeout =? TIME_IMMEDIATE)
  | KEvtFlags el => bool_decide (is_Some (k_listeners k !! el))
  | KMsgWaitTimeout timeout | KSleep timeout => negb (timeout =? TIME_IMMEDIATE)
  | KMsgRelease t _ => bool_decide (th_state (thr k t) = CH_STATE_SNDMSG)
  | KStart t => bool_decide (is_Some (k_threads k !! t)) && bool_decide (th_state (thr k t) = CH_STATE_WTSTART)
  | KSetPriority p => (NOPRIO <? p) && (p <=? HIGHPRIO) && negb (waiter_above k t p && (prio k t =? th_realprio (thr k t)))
  | KSuspend r | KSuspendTimeout r _ => bool_decide (k_refs k !! r = None)
  | KWait s => negb (Nat.eqb s t) && (0 <? th_refs (thr k s))
  | KAddRef s => (0 <? th_refs (thr k s)) && (th_refs (thr k s) <? 255)
  | KRelease s => 0 <? th_refs (thr k s)
  | KEvtRegister _ el _ _ => negb (evt_registered el k)
  | _ => true
  end.

(** The idle thread makes no calls; a thread that was switched to inside a call goes
    on with it before anything else happens. *)
Definition k_enabled (e : kevent) (k : kernel) : bool :=
  let t := k_current k in
  match th_cont (thr k t), e with
  | None, KCall op => negb (Nat.eqb t chSysGetIdleThreadX) && call_ok op k
  | None, KIsr _ => true
  | None, KTimeout s => th_timer (thr k s)
  | Some _, KContinue => true
  | _, _ => false
  end.

(** ** Runs from the start *)

(** The main thread runs, the idle thread is ready, the others, with priorities
    [prios], have been created. *)
Definition kernel_init (prios : list Z) : kernel :=
  Kernel 1
    (<[0%nat := th_with_link Q_ready (th_with_state CH_STATE_READY (thd_object_init IDLEPRIO))]>
     (<[1%nat := th_with_state CH_STATE_CURRENT (thd_object_init NORMALPRIO)]>
      (map_seq 2 (thd_object_init <$> prios))))
    {[Q_ready := [0%nat]]} ∅ ∅ ∅ ∅.

Fixpoint k_run (es : list kevent) (k : kernel) : option kernel :=
  match es with
  | [] => Some k
  | e :: es => _ ← check (k_enabled e k); '(k, _) ← k_step e k; k_run es k
  end.

Inductive k_reach (prios : list Z) : kernel -> Prop :=
| reach_init : k_reach prios (kernel_init prios)
| reach_step k e k' r : k_reach prios k -> k_enabled e k = true -> k_step e k = Some (k', r) -> k_reach prios k'.
