(* ===== verification/KInv.v ===== *)
(** * The kernel's invariant

    Lists and headers agree, ordered queues are ordered, mutexes and their owners'
    stacks agree, priorities are inherited, one thread runs, and every thread's
    state, pointers and place to continue fit together. *)

From stdpp Require Import gmap sorting.
From S2P Require Import Prelude CInt CLib Threads Sched Mutexes Events Messages Kernel.
#[local] Open Scope Z_scope.

(** ** Reading an updated kernel *)

Lemma thr_upd_thread t f k s : thr (upd_thread t f k) s = if decide (s = t) then f (thr k t) else thr k s.
Proof.
  unfold thr. simpl. destruct (decide (s = t)) as [->|Hne].
  - apply lookup_total_insert_eq.
  - apply lookup_total_insert_ne. congruence.
Qed.

Lemma queue_upd_queue q l k q' : queue (upd_queue q l k) q' = if decide (q' = q) then l else queue k q'.
Proof.
  unfold queue. simpl. destruct (decide (q' = q)) as [->|Hne].
  - apply lookup_total_insert_eq.
  - apply lookup_total_insert_ne. congruence.
Qed.

Lemma owner_set_owner m o k m' : owner (set_owner m o k) m' = if decide (m' = m) then o else owner k m'.
Proof.
  unfold owner. simpl. destruct (decide (m' = m)) as [->|Hne].
  - apply lookup_partial_alter_eq.
  - apply lookup_partial_alter_ne. congruence.
Qed.

Lemma refs_set_ref r o k r' : k_refs (set_ref r o k) !! r' = if decide (r' = r) then o else k_refs k !! r'.
Proof.
  simpl. destruct (decide (r' = r)) as [->|Hne].
  - apply lookup_partial_alter_eq.
  - apply lookup_partial_alter_ne. congruence.
Qed.

Lemma thr_upd_queue q l k s : thr (upd_queue q l k) s = thr k s. Proof. reflexivity. Qed.
Lemma thr_set_current t k s : thr (set_current t k) s = thr k s. Proof. reflexivity. Qed.
Lemma thr_set_owner m o k s : thr (set_owner m o k) s = thr k s. Proof. reflexivity. Qed.
Lemma thr_set_ref r o k s : thr (set_ref r o k) s = thr k s. Proof. reflexivity. Qed.
Lemma queue_upd_thread t f k q : queue (upd_thread t f k) q = queue k q. Proof. reflexivity. Qed.
Lemma queue_set_current t k q : queue (set_current t k) q = queue k q. Proof. reflexivity. Qed.
Lemma queue_set_owner m o k q : queue (set_owner m o k) q = queue k q. Proof. reflexivity. Qed.
Lemma queue_set_ref r o k q : queue (set_ref r o k) q = queue k q. Proof. reflexivity. Qed.
Lemma owner_upd_thread t f k m : owner (upd_thread t f k) m = owner k m. Proof. reflexivity. Qed.
Lemma owner_upd_queue q l k m : owner (upd_queue q l k) m = owner k m. Proof. reflexivity. Qed.
Lemma owner_set_current t k m : owner (set_current t k) m = owner k m. Proof. reflexivity. Qed.
Lemma owner_set_ref r o k m : owner (set_ref r o k) m = owner k m. Proof. reflexivity. Qed.

Create Rewrite HintDb kern.
#[export] Hint Rewrite thr_upd_thread queue_upd_queue owner_set_owner refs_set_ref thr_upd_queue thr_set_current
  thr_set_owner thr_set_ref queue_upd_thread queue_set_current queue_set_owner queue_set_ref owner_upd_thread
  owner_upd_queue owner_set_current owner_set_ref : kern.

(** [kern] reads the fields of updated kernels, by cases on whether the thread or
    queue is the updated one. *)
Ltac kred := unfold set_state, prio in *; autorewrite with kern in *; simpl in *.
Ltac kern := kred; repeat (case_decide; simplify_eq; kred).

(** The same, in the goal alone. *)
Ltac kg :=
  unfold set_state, prio; autorewrite with kern; simpl;
  repeat (match goal with |- context [decide ?P] => destruct (decide P); try (exfalso; congruence); subst end;
          autorewrite with kern; simpl).

(** ** Headers and queues *)

Definition ordered (q : qid) : Prop := match q with Q_ready | Q_mtx _ | Q_cond _ => True | _ => False end.

Definition by_prio (pr : nat -> Z) (a b : nat) : Prop := pr b <= pr a.

Record links_ok (k : kernel) : Prop := {
  lk_in : forall q t, t ∈ queue k q <-> th_link (thr k t) = q /\ q <> Q_none;
  lk_nodup : forall q, NoDup (queue k q);
  lk_sorted : forall q, ordered q -> StronglySorted (by_prio (prio k)) (queue k q);
  lk_pos : forall t, NOPRIO < prio k t
}.

Lemma insert_behind_perm pr p t l : insert_behind pr p t l ≡ₚ t :: l.
Proof.
  induction l as [|x l IH]; [reflexivity|]. simpl. case_bool; [|reflexivity]. rewrite IH. constructor.
Qed.

Lemma insert_ahead_perm pr p t l : insert_ahead pr p t l ≡ₚ t :: l.
Proof.
  induction l as [|x l IH]; [reflexivity|]. simpl. case_bool; [|reflexivity]. rewrite IH. constructor.
Qed.

Lemma sorted_perm_cons pr x t l l' :
  Forall (by_prio pr x) l -> by_prio pr x t -> l' ≡ₚ t :: l -> Forall (by_prio pr x) l'.
Proof. intros Hl Ht ->. constructor; assumption. Qed.

Lemma sorted_before pr t x l :
  StronglySorted (by_prio pr) (x :: l) -> by_prio pr t x -> StronglySorted (by_prio pr) (t :: x :: l).
Proof.
  intros Hs Ht. apply StronglySorted_cons. split; [|exact Hs]. constructor; [exact Ht|].
  apply StronglySorted_cons in Hs as [Hx _]. eapply Forall_impl; [exact Hx|]. unfold by_prio in *. intros y Hy. lia.
Qed.

Lemma insert_behind_sorted pr t l :
  StronglySorted (by_prio pr) l -> StronglySorted (by_prio pr) (insert_behind pr (pr t) t l).
Proof.
  induction l as [|x l IH]; intros Hs; [repeat constructor|]. simpl. destruct (Z.leb_spec (pr t) (pr x)).
  - apply StronglySorted_cons in Hs as [Hx Hs]. apply StronglySorted_cons. split; [|auto].
    eapply sorted_perm_cons; [exact Hx|exact H|apply insert_behind_perm].
  - apply sorted_before; [exact Hs|]. unfold by_prio. lia.
Qed.

Lemma insert_ahead_sorted pr t l :
  StronglySorted (by_prio pr) l -> StronglySorted (by_prio pr) (insert_ahead pr (pr t) t l).
Proof.
  induction l as [|x l IH]; intros Hs; [repeat constructor|]. simpl. destruct (Z.ltb_spec (pr t) (pr x)).
  - apply StronglySorted_cons in Hs as [Hx Hs]. apply StronglySorted_cons. split; [|auto].
    apply (sorted_perm_cons pr x t l); [exact Hx|unfold by_prio; lia|apply insert_ahead_perm].
  - apply sorted_before; [exact Hs|]. unfold by_prio. lia.
Qed.

Lemma sorted_ext pr pr' l :
  (forall t, t ∈ l -> pr t = pr' t) -> StronglySorted (by_prio pr) l -> StronglySorted (by_prio pr') l.
Proof.
  induction l as [|x l IH]; intros E Hs; [constructor|].
  apply StronglySorted_cons in Hs as [Hx Hs]. apply StronglySorted_cons. split.
  - rewrite Forall_forall in *. unfold by_prio in *. intros y Hy. rewrite <- !E by (constructor; assumption || left).
    apply Hx, Hy.
  - apply IH; [|exact Hs]. intros t Ht. apply E. right. exact Ht.
Qed.

Lemma sorted_filter pr (P : nat -> Prop) `{!forall x, Decision (P x)} l :
  StronglySorted (by_prio pr) l -> StronglySorted (by_prio pr) (filter P l).
Proof.
  induction l as [|x l IH]; intros Hs; [constructor|]. apply StronglySorted_cons in Hs as [Hx Hs].
  rewrite filter_cons. destruct (decide (P x)); [|auto]. apply StronglySorted_cons. split; [|auto].
  rewrite Forall_forall in *. intros y Hy. apply list_elem_of_filter in Hy as [_ Hy]. auto.
Qed.

(** Only headers, priorities and queues matter. *)
Lemma links_ext k k' :
  (forall t, th_link (thr k' t) = th_link (thr k t) /\ th_prio (thr k' t) = th_prio (thr k t)) ->
  (forall q, queue k' q = queue k q) -> links_ok k -> links_ok k'.
Proof.
  intros Ht Hq [Hin Hnd Hs Hp]. split; intros.
  - rewrite Hq, Hin. destruct (Ht t) as [-> _]. reflexivity.
  - rewrite Hq. apply Hnd.
  - rewrite Hq. eapply sorted_ext; [|apply Hs; assumption]. intros t _. unfold prio. destruct (Ht t) as [_ ->]. reflexivity.
  - unfold prio. destruct (Ht t) as [_ ->]. apply Hp.
Qed.

(** The priority of a header that is in no ordered queue may change. *)
Lemma links_prio k k' t :
  ~ ordered (th_link (thr k t)) -> NOPRIO < prio k' t ->
  (forall s, th_link (thr k' s) = th_link (thr k s) /\ (s <> t -> th_prio (thr k' s) = th_prio (thr k s))) ->
  (forall q, queue k' q = queue k q) -> links_ok k -> links_ok k'.
Proof.
  intros Hl Hpos Ht Hq [Hin Hnd Hs Hp]. split; intros.
  - rewrite Hq, Hin. destruct (Ht t0) as [-> _]. reflexivity.
  - rewrite Hq. apply Hnd.
  - rewrite Hq. eapply sorted_ext; [|apply Hs; assumption]. intros s Hin'. unfold prio.
    apply Hin in Hin' as [E1 E2]. destruct (Ht s) as [_ ->]; [reflexivity|]. intros ->. congruence.
  - destruct (decide (t0 = t)) as [->|Hne]; [exact Hpos|]. unfold prio. destruct (Ht t0) as [_ ->]; [apply Hp|exact Hne].
Qed.

Lemma link_in_ok q t l k :
  links_ok k -> th_link (thr k t) = Q_none -> q <> Q_none -> l ≡ₚ t :: queue k q ->
  (ordered q -> StronglySorted (by_prio (prio k)) l) ->
  link_in q t l k = Some (upd_thread t (th_with_link q) (upd_queue q l k)) /\
  links_ok (upd_thread t (th_with_link q) (upd_queue q l k)).
Proof.
  intros [Hin Hnd Hs Hp] Hl Hq Hperm Hsort. unfold link_in. rewrite bool_decide_true by exact Hl. split; [reflexivity|].
  assert (Ep : forall s, prio (upd_thread t (th_with_link q) (upd_queue q l k)) s = prio k s).
  { intros s. kern; reflexivity. }
  split.
  - intros q' s. kred. destruct (decide (q' = q)) as [->|Hne].
    + rewrite Hperm, elem_of_cons, Hin. case_decide; subst; simpl; intuition congruence.
    + rewrite Hin. case_decide; subst; simpl; [|reflexivity]. intuition congruence.
  - intros q'. kred. destruct (decide (q' = q)) as [->|Hne]; [|apply Hnd]. rewrite Hperm. apply NoDup_cons. split; [|apply Hnd].
    intros Hc. apply Hin in Hc as [Hc _]. congruence.
  - intros q' Ho. eapply sorted_ext; [intros s _; symmetry; apply Ep|]. autorewrite with kern.
    destruct (decide (q' = q)) as [->|Hne]; [auto|apply Hs, Ho].
  - intros s. rewrite Ep. apply Hp.
Qed.

Lemma remove_ok q t k :
  links_ok k -> th_link (thr k t) = q -> q <> Q_none ->
  links_ok (upd_thread t (th_with_link Q_none) (upd_queue q (filter (fun s => s <> t) (queue k q)) k)).
Proof.
  intros [Hin Hnd Hs Hp] Hl Hq. set (k' := upd_thread _ _ _).
  assert (Ep : forall s, prio k' s = prio k s) by (intros s; unfold k'; kern; reflexivity).
  split.
  - intros q' s. unfold k'. kred. destruct (decide (q' = q)) as [->|Hne].
    + rewrite list_elem_of_filter, Hin. case_decide; subst; simpl; intuition congruence.
    + rewrite Hin. case_decide; subst; simpl; intuition congruence.
  - intros q'. unfold k'. kred. case_decide; [apply NoDup_filter|]; apply Hnd.
  - intros q' Ho. eapply sorted_ext; [intros s _; symmetry; apply Ep|]. unfold k'. autorewrite with kern.
    destruct (decide (q' = q)) as [->|Hne]; [apply sorted_filter|]; apply Hs, Ho.
  - intros s. rewrite Ep. apply Hp.
Qed.

Lemma fifo_remove_ok q t l k :
  links_ok k -> queue k q = t :: l -> q <> Q_none ->
  ch_queue_fifo_remove q k = Some (upd_thread t (th_with_link Q_none) (upd_queue q l k), t) /\
  th_link (thr k t) = q /\ links_ok (upd_thread t (th_with_link Q_none) (upd_queue q l k)).
Proof.
  intros H E Hq. unfold ch_queue_fifo_remove. rewrite E. split; [reflexivity|].
  assert (Hl : th_link (thr k t) = q). { apply (lk_in k H). rewrite E. left. } split; [exact Hl|].
  pose proof (remove_ok q t k H Hl Hq) as R. rewrite E in R. rewrite filter_cons_False in R by congruence.
  rewrite filter_ne_other in R; [exact R|]. pose proof (lk_nodup k H q) as Hnd. rewrite E in Hnd.
  apply NoDup_cons in Hnd. tauto.
Qed.

Lemma dequeue_ok t k :
  links_ok k -> th_link (thr k t) <> Q_none ->
  let q := th_link (thr k t) in
  let k' := upd_thread t (th_with_link Q_none) (upd_queue q (filter (fun s => s <> t) (queue k q)) k) in
  ch_queue_dequeue t k = Some k' /\ links_ok k'.
Proof.
  intros H Hl q k'. split; [|apply remove_ok; auto]. unfold ch_queue_dequeue, k', q.
  destruct (th_link (thr k t)); [contradiction|reflexivity..].
Qed.

Lemma not_linked k t q : links_ok k -> th_link (thr k t) = Q_none -> t ∉ queue k q.
Proof. intros H Hl Hin. apply (lk_in k H) in Hin as [E N]. congruence. Qed.

(** ** Mutexes and priorities *)

Record own_ok (k : kernel) : Prop := {
  ow_list : forall m t, owner k m = Some t <-> m ∈ th_mtxlist (thr k t);
  ow_nodup : forall t, NoDup (th_mtxlist (thr k t));
  ow_waited : forall s m, th_link (thr k s) = Q_mtx m -> is_Some (owner k m)
}.

(** Thread [s] waits for a mutex that [t] owns. *)
Definition blocks (k : kernel) (s t : nat) : Prop :=
  exists m, th_link (thr k s) = Q_mtx m /\ owner k m = Some t.

(** A thread has at least its base priority and that of the threads it blocks; and
    no more than one of them. *)
Definition pi_lower (k : kernel) : Prop :=
  forall t, NOPRIO < th_realprio (thr k t) <= prio k t /\ forall s, blocks k s t -> prio k s <= prio k t.
Definition pi_tight (k : kernel) (t : nat) : Prop :=
  prio k t = th_realprio (thr k t) \/ exists s, blocks k s t /\ prio k s = prio k t.

(** ** Threads *)

Definition is_msg (u : thd_u) : Prop := match u with U_msg _ => True | _ => False end.

Definition state_link (s : thd_state) (q : qid) (u : thd_u) : Prop :=
  match s with
  | CH_STATE_READY => q = Q_ready
  | CH_STATE_WTMTX => exists m, q = Q_mtx m /\ u = U_wtmtxp m
  | CH_STATE_WTCOND => exists c, q = Q_cond c /\ u = U_wtobjp c
  | CH_STATE_SNDMSGQ => (exists t, q = Q_msg t) /\ is_msg u
  | CH_STATE_WTEXIT => exists t, q = Q_exit t
  | _ => q = Q_none
  end.

Definition awake (s : thd_state) : Prop := s = CH_STATE_READY \/ s = CH_STATE_CURRENT.

(** A thread that has ended, with its exit code. *)
Definition dead (k : kernel) (t : nat) : Prop := th_state (thr k t) = CH_STATE_FINAL /\ is_msg (th_u (thr k t)).

(** How a thread sleeps in a call. *)
Definition asleep (c : cont) (s : thd_state) (q : qid) (u : thd_u) : Prop :=
  match c with
  | C_mtx m _ => s = CH_STATE_WTMTX /\ q = Q_mtx m
  | C_cond _ _ => s = CH_STATE_WTCOND
  | C_suspend => s = CH_STATE_SUSPENDED
  | C_sleep => s = CH_STATE_SLEEPING
  | C_wait t => s = CH_STATE_WTEXIT /\ q = Q_exit t
  | C_exit => s = CH_STATE_FINAL
  | C_evt kind _ events => s = evt_state kind /\ u = U_ewmask events
  | C_msg_send => s = CH_STATE_SNDMSGQ \/ s = CH_STATE_SNDMSG
  | C_msg_wait _ => s = CH_STATE_WTMSG
  end.

Lemma asleep_awake c s q u : asleep c s q u -> awake s -> False.
Proof. destruct c as [| | | | | |[]| |]; simpl; intros H [-> | ->]; intuition discriminate. Qed.

(** What a thread that has been woken may rely on; [d] is a thread that is ending. *)
Definition resume_ok (d : option nat) (k : kernel) (t : nat) (c : cont) : Prop :=
  let th := thr k t in
  match c with
  | C_mtx m _ => head (th_mtxlist th) = Some m
  | C_cond _ _ | C_suspend | C_msg_send => is_msg (th_u th)
  | C_sleep => True
  | C_wait s => d = Some s \/ dead k s
  | C_exit => False
  | C_evt kind timed events =>
      (timed = true /\ th_u th = U_msg MSG_TIMEOUT) \/ ((timed = true -> th_u th = U_msg MSG_OK) /\ evt_found kind (th_epending th) events = true)
  | C_msg_wait timed => queue k (Q_msg t) <> [] \/ (timed = true /\ th_u th = U_msg MSG_TIMEOUT)
  end.

Definition timed_cont (c : option cont) : Prop :=
  match c with
  | Some (C_cond _ true) | Some C_suspend | Some C_sleep | Some (C_evt _ true _) | Some (C_msg_wait true) => True
  | _ => False
  end.

Record thread_ok (d : option nat) (k : kernel) (t : nat) : Prop := {
  to_link : state_link (th_state (thr k t)) (th_link (thr k t)) (th_u (thr k t));
  to_cont : match th_cont (thr k t) with
            | None => awake (th_state (thr k t)) \/ th_state (thr k t) = CH_STATE_WTSTART
            | Some c => (awake (th_state (thr k t)) /\ resume_ok d k t c) \/
                        asleep c (th_state (thr k t)) (th_link (thr k t)) (th_u (thr k t))
            end;
  to_timer : th_timer (thr k t) = true -> timed_cont (th_cont (thr k t));
  to_ref : forall r, k_refs k !! r = Some t -> th_state (thr k t) = CH_STATE_SUSPENDED /\ th_u (thr k t) = U_wttrp r;
  to_susp : th_state (thr k t) = CH_STATE_SUSPENDED -> exists r, k_refs k !! r = Some t /\ th_u (thr k t) = U_wttrp r;
  to_final : th_state (thr k t) = CH_STATE_FINAL -> is_msg (th_u (thr k t));
  to_reg : th_reg (thr k t) = false -> th_state (thr k t) = CH_STATE_FINAL /\ th_refs (thr k t) = 0
}.

(** A thread that has not ended is in the registry. *)
Ltac registered T := let Hr := fresh in intros Hr; destruct (to_reg _ _ _ T Hr); exfalso; congruence.

Lemma registered_ok d k t : thread_ok d k t -> th_state (thr k t) <> CH_STATE_FINAL -> th_reg (thr k t) = true.
Proof. intros T Hs. destruct (th_reg (thr k t)) eqn:E; [reflexivity|]. destruct (to_reg _ _ _ T E). contradiction. Qed.

(** The invariant, but for the state of thread [x] and the tightness of [y]'s
    priority, with [d] ending. *)
Record kinv (x y d : option nat) (k : kernel) : Prop := {
  ki_links : links_ok k;
  ki_own : own_ok k;
  ki_lower : pi_lower k;
  ki_tight : forall t, y <> Some t -> pi_tight k t;
  ki_cur : forall t, x <> Some t -> (th_state (thr k t) = CH_STATE_CURRENT <-> t = k_current k);
  ki_idle : th_cont (thr k chSysGetIdleThreadX) = None /\ th_state (thr k chSysGetIdleThreadX) <> CH_STATE_WTSTART;
  ki_src : forall es el, el ∈ listeners k es -> is_Some (k_listeners k !! el);
  ki_thr : forall t, x <> Some t -> thread_ok d k t
}.

(** The running thread has the highest priority. *)
Definition ktop (k : kernel) : Prop := forall s, s ∈ queue k Q_ready -> prio k s <= prio k (k_current k).

Lemma ktop_first k : links_ok k -> (ktop k <-> firstprio k <= prio k (k_current k)).
Proof.
  intros [_ _ Hs Hp]. specialize (Hs Q_ready I). unfold ktop, firstprio.
  destruct (queue k Q_ready) as [|n l]; [split; [intros _; specialize (Hp (k_current k)); lia|intros _ s Hin; inversion Hin]|].
  apply StronglySorted_cons in Hs as [Hs _]. rewrite Forall_forall in Hs. unfold by_prio in Hs. split.
  - intros H. apply H. left.
  - intros H s [-> | Hin]%elem_of_cons; [exact H|]. specialize (Hs s Hin). simpl in Hs. lia.
Qed.

(** ** Frames *)

(** All but the priorities. *)
Definition same_thread (th th' : thread) : Prop :=
  th_state th' = th_state th /\ th_u th' = th_u th /\ th_link th' = th_link th /\ th_mtxlist th' = th_mtxlist th /\
  th_epending th' = th_epending th /\ th_timer th' = th_timer th /\ th_cont th' = th_cont th /\
  th_refs th' = th_refs th /\ th_reg th' = th_reg th.

Lemma same_thread_refl th : same_thread th th.
Proof. split_and!; reflexivity. Qed.

Lemma resume_frame d d' k k' t c :
  th_mtxlist (thr k' t) = th_mtxlist (thr k t) -> th_u (thr k' t) = th_u (thr k t) ->
  th_epending (thr k' t) = th_epending (thr k t) ->
  (queue k (Q_msg t) <> [] -> queue k' (Q_msg t) <> []) -> (forall s, d = Some s \/ dead k s -> d' = Some s \/ dead k' s) ->
  resume_ok d k t c -> resume_ok d' k' t c.
Proof.
  intros Em Eu Ee Hq Hd. destruct c; simpl; rewrite ?Em, ?Eu, ?Ee; auto. intuition.
Qed.

Lemma thread_frame d d' k k' t :
  same_thread (thr k t) (thr k' t) -> (forall r, k_refs k' !! r = Some t <-> k_refs k !! r = Some t) ->
  (queue k (Q_msg t) <> [] -> queue k' (Q_msg t) <> []) -> (forall s, d = Some s \/ dead k s -> d' = Some s \/ dead k' s) ->
  thread_ok d k t -> thread_ok d' k' t.
Proof.
  intros (Es & Eu & El & Em & Ee & Et & Ec & En & Eg) Hr Hq Hd [H1 H2 H3 H4 H5 H6 H7]. split; rewrite ?Es, ?Eu, ?El, ?Et, ?Ec, ?En, ?Eg; auto.
  - destruct (th_cont (thr k t)) as [c|]; [|exact H2]. destruct H2 as [[Ha Hok]|Ha]; [left|auto].
    split; [exact Ha|]. exact (resume_frame d d' k k' t c Em Eu Ee Hq Hd Hok).
  - intros r Hk. apply Hr in Hk. auto.
  - intros Hs. apply H5 in Hs as (r & Hk & E). exists r. split; [apply Hr; exact Hk|exact E].
Qed.

(** Priorities, headers in mutex queues and owners decide on inheritance. *)
Definition same_blocks (k k' : kernel) : Prop :=
  (forall s m, th_link (thr k' s) = Q_mtx m <-> th_link (thr k s) = Q_mtx m) /\ (forall m, owner k' m = owner k m).

Lemma blocks_frame k k' s t : same_blocks k k' -> blocks k' s t <-> blocks k s t.
Proof. intros [Hl Ho]. unfold blocks. setoid_rewrite Hl. setoid_rewrite Ho. reflexivity. Qed.

Definition same_prios (k k' : kernel) : Prop :=
  forall t, th_prio (thr k' t) = th_prio (thr k t) /\ th_realprio (thr k' t) = th_realprio (thr k t).

Lemma pi_lower_frame k k' : same_blocks k k' -> same_prios k k' -> pi_lower k -> pi_lower k'.
Proof.
  intros Hb Hp H t. unfold prio in *. destruct (Hp t) as [-> ->]. destruct (H t) as [H1 H2]. split; [exact H1|].
  intros s Hs. apply (blocks_frame k k' s t Hb) in Hs. destruct (Hp s) as [-> _]. apply H2, Hs.
Qed.

Lemma pi_tight_frame k k' t : same_blocks k k' -> same_prios k k' -> pi_tight k t -> pi_tight k' t.
Proof.
  intros Hb Hp H. unfold pi_tight, prio in *. destruct (Hp t) as [-> ->]. destruct H as [H|(s & Hs & E)]; [auto|].
  right. exists s. destruct (Hp s) as [-> _]. split; [|exact E]. apply (blocks_frame k k' s t Hb). exact Hs.
Qed.

Lemma own_frame k k' :
  same_blocks k k' -> (forall t, th_mtxlist (thr k' t) = th_mtxlist (thr k t)) -> own_ok k -> own_ok k'.
Proof.
  intros [Hl Ho] Hm []. split; intros.
  - rewrite Ho, Hm. auto.
  - rewrite Hm. auto.
  - rewrite Ho. apply ow_waited0 with s. apply Hl. assumption.
Qed.

(** ** A thread is made ready *)

(** What thread [t] needs to go to the ready list. *)
Record wakeable (d : option nat) (k : kernel) (t : nat) : Prop := {
  wk_link : th_link (thr k t) = Q_none;
  wk_cont : match th_cont (thr k t) with None => True | Some c => resume_ok d k t c end;
  wk_timer : th_timer (thr k t) = true -> timed_cont (th_cont (thr k t));
  wk_ref : forall r, k_refs k !! r <> Some t;
  wk_reg : th_reg (thr k t) = true
}.

Definition readied (t : nat) (l : list nat) (k : kernel) : kernel :=
  upd_thread t (th_with_link Q_ready) (upd_queue Q_ready l (set_state t CH_STATE_READY k)).

Lemma dead_frame k k' s :
  (forall s, th_state (thr k s) = CH_STATE_FINAL -> thr k' s = thr k s) -> dead k s -> dead k' s.
Proof. intros H [H1 H2]. unfold dead. rewrite H by exact H1. auto. Qed.

Lemma ready_inv y d k t l :
  kinv (Some t) y d k -> k_current k <> t -> th_state (thr k t) <> CH_STATE_FINAL ->
  wakeable d k t -> l ≡ₚ t :: queue k Q_ready -> StronglySorted (by_prio (prio k)) l ->
  link_in Q_ready t l (set_state t CH_STATE_READY k) = Some (readied t l k) /\ kinv None y d (readied t l k).
Proof.
  intros [Hlk Hown Hlo Hti Hcur Hidle Hsrc Hthr] Hc Hf [W1 W2 W3 W4 W5] Hp Hs.
  assert (Hlk0 : links_ok (set_state t CH_STATE_READY k)).
  { refine (links_ext k _ _ _ Hlk); [|reflexivity]. intros s. kern; auto. }
  destruct (link_in_ok Q_ready t l (set_state t CH_STATE_READY k) Hlk0) as [E Hlk'].
  { kern; congruence. } { discriminate. } { exact Hp. }
  { intros _. eapply sorted_ext; [|exact Hs]. intros s _. kern; reflexivity. }
  split; [exact E|]. fold (readied t l k) in *. clear E.
  assert (Hb : same_blocks k (readied t l k)).
  { split; [|reflexivity]. intros s m. unfold readied. kern; [|reflexivity]. rewrite W1. split; discriminate. }
  assert (Hpr : same_prios k (readied t l k)) by (intros s; unfold readied; kern; auto).
  assert (Hd : forall s, d = Some s \/ dead k s -> d = Some s \/ dead (readied t l k) s).
  { intros s [H|H]; [auto|right]. revert H. apply dead_frame. intros s' Hs'. unfold readied. kern; congruence. }
  assert (Hq : forall s, queue (readied t l k) (Q_msg s) = queue k (Q_msg s)) by (intros s; unfold readied; kern; reflexivity).
  split; auto.
  - refine (own_frame k _ Hb _ Hown). intros s. unfold readied. kern; reflexivity.
  - apply (pi_lower_frame k); assumption.
  - intros s Hy. apply (pi_tight_frame k); auto.
  - intros s _. unfold readied. kern; [split; [discriminate|congruence]|]. apply Hcur. congruence.
  - destruct Hidle. unfold readied. kern; auto.
  - intros s _. destruct (decide (s = t)) as [->|Hne].
    + split; unfold readied; kern; auto; try discriminate.
      * destruct (th_cont (thr k t)) eqn:Ec; [left|left; left; reflexivity]. split; [left; reflexivity|].
        eapply resume_frame; [..|exact W2]; unfold readied; kern; auto.
      * intros r Hr. destruct (W4 r Hr).
      * congruence.
    + apply (thread_frame d d k); [|reflexivity|rewrite Hq; auto|exact Hd|apply Hthr; congruence].
      unfold readied. kern; apply same_thread_refl.
Qed.

Lemma can_ready_spec k t : can_ready t k = true <-> th_state (thr k t) <> CH_STATE_READY /\ th_state (thr k t) <> CH_STATE_FINAL.
Proof. unfold can_ready. destruct (th_state (thr k t)); split; try discriminate; intuition congruence. Qed.

Lemma ready_behind_inv y d k t :
  kinv (Some t) y d k -> k_current k <> t -> can_ready t k = true -> wakeable d k t ->
  exists l, sch_ready_behind t k = Some (readied t l k) /\ l ≡ₚ t :: queue k Q_ready /\ kinv None y d (readied t l k).
Proof.
  intros H Hc Hr W. unfold sch_ready_behind, ch_pqueue_insert_behind. rewrite Hr. cbn [check mbind option_bind].
  assert (Ep : forall s, prio (set_state t CH_STATE_READY k) s = prio k s) by (intros s; kern; reflexivity).
  rewrite Ep, (proj2 (Z.ltb_lt _ _)) by apply (lk_pos k (ki_links _ _ _ _ H)). cbn [check mbind option_bind].
  apply can_ready_spec in Hr as [Hr1 Hr2].
  pose proof (insert_behind_perm (prio (set_state t CH_STATE_READY k)) (prio k t) t (queue k Q_ready)) as Hp.
  destruct (ready_inv y d k t _ H Hc Hr2 W Hp) as [E K]; [|eauto].
  rewrite <- (Ep t). eapply sorted_ext; [intros s _; apply Ep|]. apply insert_behind_sorted.
  eapply sorted_ext; [intros s _; symmetry; apply Ep|]. apply (lk_sorted k (ki_links _ _ _ _ H)). exact I.
Qed.

Lemma ready_ahead_inv y d k t :
  kinv (Some t) y d k -> k_current k <> t -> can_ready t k = true -> wakeable d k t ->
  exists l, sch_ready_ahead t k = Some (readied t l k) /\ l ≡ₚ t :: queue k Q_ready /\ kinv None y d (readied t l k).
Proof.
  intros H Hc Hr W. unfold sch_ready_ahead, ch_pqueue_insert_ahead. rewrite Hr. cbn [check mbind option_bind].
  assert (Ep : forall s, prio (set_state t CH_STATE_READY k) s = prio k s) by (intros s; kern; reflexivity).
  rewrite Ep. apply can_ready_spec in Hr as [Hr1 Hr2].
  pose proof (insert_ahead_perm (prio (set_state t CH_STATE_READY k)) (prio k t) t (queue k Q_ready)) as Hp.
  destruct (ready_inv y d k t _ H Hc Hr2 W Hp) as [E K]; [|eauto].
  rewrite <- (Ep t). eapply sorted_ext; [intros s _; apply Ep|]. apply insert_ahead_sorted.
  eapply sorted_ext; [intros s _; symmetry; apply Ep|]. apply (lk_sorted k (ki_links _ _ _ _ H)). exact I.
Qed.

(** ** The next thread is picked *)

Lemma kinv_open x y d k : kinv None y d k -> kinv (Some x) y d k.
Proof. intros []. split; auto. Qed.

Lemma kinv_close x y d k :
  kinv (Some x) y d k -> thread_ok d k x -> (th_state (thr k x) = CH_STATE_CURRENT <-> x = k_current k) -> kinv None y d k.
Proof.
  intros [] Hx Hc. split; auto.
  - intros t _. destruct (decide (t = x)) as [->|]; [exact Hc|apply ki_cur0; congruence].
  - intros t _. destruct (decide (t = x)) as [->|]; [exact Hx|apply ki_thr0; congruence].
Qed.

Definition picked (n : nat) (l : list nat) (k : kernel) : kernel :=
  set_current n (set_state n CH_STATE_CURRENT (upd_thread n (th_with_link Q_none) (upd_queue Q_ready l k))).

Lemma state_link_ready s u : state_link s Q_ready u -> s = CH_STATE_READY.
Proof.
  destruct s; simpl; intros H; try reflexivity; try discriminate;
    repeat match goal with H : _ /\ _ |- _ => destruct H | H : exists _, _ |- _ => destruct H end; discriminate.
Qed.

Lemma ready_state x y d k t : kinv x y d k -> th_link (thr k t) = Q_ready -> x <> Some t -> th_state (thr k t) = CH_STATE_READY.
Proof.
  intros H Hl Hx. pose proof (to_link _ _ _ (ki_thr _ _ _ _ H t Hx)) as Hs. rewrite Hl in Hs.
  exact (state_link_ready _ _ Hs).
Qed.

Lemma pick_inv y d k n l :
  kinv (Some (k_current k)) y d k -> th_link (thr k (k_current k)) <> Q_ready -> queue k Q_ready = n :: l ->
  sch_pick k = Some (picked n l k) /\ kinv (Some (k_current k)) y d (picked n l k) /\ k_current k <> n /\
  Forall (fun s => prio k s <= prio k n) l.
Proof.
  intros H Hl E. pose proof H as [Hlk Hown Hlo Hti Hcur Hidle Hsrc Hthr].
  destruct (fifo_remove_ok Q_ready n l k Hlk E) as (Er & Hn & Hlk'); [discriminate|].
  assert (Hne : k_current k <> n) by congruence.
  assert (Hst : th_state (thr k n) = CH_STATE_READY) by (apply (ready_state _ _ _ _ _ H Hn); congruence).
  pose proof (lk_sorted k Hlk Q_ready I) as Hs. rewrite E in Hs. apply StronglySorted_cons in Hs as [Hs _].
  unfold sch_pick, ch_pqueue_remove_highest. rewrite Er. cbn [mbind option_bind]. split; [reflexivity|].
  split; [|split; [exact Hne|exact Hs]].
  assert (Hb : same_blocks k (picked n l k)).
  { split; [|reflexivity]. intros s m. unfold picked. kern; [|reflexivity]. rewrite Hn. split; discriminate. }
  assert (Hpr : same_prios k (picked n l k)) by (intros s; unfold picked; kern; auto).
  assert (Hd : forall s, d = Some s \/ dead k s -> d = Some s \/ dead (picked n l k) s).
  { intros s [?|Hd]; [auto|right]. revert Hd. apply dead_frame. intros s' Hs'. unfold picked. kern; congruence. }
  assert (Hq : forall s, queue (picked n l k) (Q_msg s) = queue k (Q_msg s)) by (intros s; unfold picked; kern; reflexivity).
  split; auto.
  - refine (links_ext (upd_thread n (th_with_link Q_none) (upd_queue Q_ready l k)) _ _ _ Hlk'); [|reflexivity].
    intros s. unfold picked. kern; auto.
  - refine (own_frame k _ Hb _ Hown). intros s. unfold picked. kern; reflexivity.
  - apply (pi_lower_frame k); assumption.
  - intros s Hy. apply (pi_tight_frame k); auto.
  - intros s Hs'. unfold picked. kern; [split; reflexivity|]. rewrite Hcur by exact Hs'. split; congruence.
  - unfold picked. kern; intuition congruence.
  - intros s Hs'. destruct (decide (s = n)) as [->|Hsn].
    + pose proof (Hthr n Hs') as [T1 T2 T3 T4 T5 T6 T7]. rewrite Hst in *.
      assert (En : th_cont (thr (picked n l k) n) = th_cont (thr k n)) by (unfold picked; kern; reflexivity).
      assert (Es : th_state (thr (picked n l k) n) = CH_STATE_CURRENT) by (unfold picked; kern; reflexivity).
      split; rewrite ?En, ?Es; try discriminate.
      * unfold picked. kern; reflexivity.
      * destruct (th_cont (thr k n)) as [c|]; [left|left; right; reflexivity]. split; [right; reflexivity|].
        destruct T2 as [[_ T2]|T2]; [|destruct (asleep_awake _ _ _ _ T2); left; reflexivity].
        eapply resume_frame; [..|exact T2]; [unfold picked; kern; reflexivity..|rewrite Hq; auto|exact Hd].
      * unfold picked. kern; auto.
      * intros r Hr. destruct (T4 r Hr). discriminate.
      * assert (Eg : th_reg (thr (picked n l k) n) = th_reg (thr k n)) by (unfold picked; kern; reflexivity). rewrite Eg.
        intros Hr. destruct (T7 Hr). discriminate.
    + apply (thread_frame d d k); [|reflexivity|rewrite Hq; auto|exact Hd|apply Hthr; exact Hs'].
      unfold picked. kern; apply same_thread_refl.
Qed.

(** ** The running thread goes to sleep *)

Definition slept (s : thd_state) (c : cont) (k : kernel) : kernel :=
  upd_thread (k_current k) (th_with_cont (Some c)) (set_state (k_current k) s k).

Lemma picked_top n l k : Forall (fun s => prio k s <= prio k n) l -> ktop (picked n l k).
Proof.
  intros Hl s Hs. assert (Ep : forall s, prio (picked n l k) s = prio k s) by (intros r; unfold picked; kern; reflexivity).
  change (k_current (picked n l k)) with n. rewrite !Ep. rewrite Forall_forall in Hl. apply Hl. revert Hs.
  unfold picked. kern; auto.
Qed.

Lemma idle_ready x y d k :
  kinv x y d k -> x <> Some chSysGetIdleThreadX -> k_current k <> chSysGetIdleThreadX -> queue k Q_ready <> [].
Proof.
  intros H Hx Hc E. destruct (ki_idle _ _ _ _ H) as [Hi1 Hi2]. pose proof (ki_thr _ _ _ _ H _ Hx) as T.
  pose proof (to_cont _ _ _ T) as T2. rewrite Hi1 in T2. destruct T2 as [[T2|T2]|T2]; [|apply (ki_cur _ _ _ _ H) in T2; congruence|contradiction].
  pose proof (to_link _ _ _ T) as T1. rewrite T2 in T1. simpl in T1.
  assert (Hin : chSysGetIdleThreadX ∈ queue k Q_ready) by (apply (lk_in k (ki_links _ _ _ _ H)); split; [exact T1|discriminate]).
  rewrite E in Hin. inversion Hin.
Qed.

Lemma slept_inv y d d' s c k :
  kinv (Some (k_current k)) y d k -> th_state (thr k (k_current k)) = CH_STATE_CURRENT ->
  k_current k <> chSysGetIdleThreadX -> s <> CH_STATE_CURRENT -> s <> CH_STATE_READY -> thread_ok d' (slept s c k) (k_current k) ->
  (forall t, d = Some t -> d' = Some t \/ dead (slept s c k) t) ->
  kinv None y d' (picked (hd 0%nat (queue k Q_ready)) (tl (queue k Q_ready)) (slept s c k)) /\
  chSchGoSleepS s c k = Some (picked (hd 0%nat (queue k Q_ready)) (tl (queue k Q_ready)) (slept s c k)) /\
  ktop (picked (hd 0%nat (queue k Q_ready)) (tl (queue k Q_ready)) (slept s c k)).
Proof.
  intros H Hst Hi Hs Hs' T Hdd. pose proof H as [Hlk Hown Hlo Hti Hcur Hidle Hsrc Hthr]. set (t := k_current k) in *.
  set (k1 := slept s c k) in *.
  assert (Hb : same_blocks k k1) by (split; [|reflexivity]; intros r m; unfold k1, slept; kern; reflexivity).
  assert (Hpr : same_prios k k1) by (intros r; unfold k1, slept; kern; auto).
  assert (Hd : forall r, d = Some r \/ dead k r -> d' = Some r \/ dead k1 r).
  { intros r [Hr|Hr]; [auto|right]. revert Hr. apply dead_frame. intros r' Hr'. unfold k1, slept. fold t. kern; congruence. }
  assert (H1 : kinv (Some t) y d' k1).
  { split; auto.
    - refine (links_ext k k1 _ _ Hlk); [|reflexivity]. intros r. unfold k1, slept. kern; auto.
    - refine (own_frame k k1 Hb _ Hown). intros r. unfold k1, slept. kern; reflexivity.
    - apply (pi_lower_frame k); assumption.
    - intros r Hy. apply (pi_tight_frame k); auto.
    - intros r Hr. unfold k1, slept. fold t. kern. apply Hcur. exact Hr.
    - unfold k1, slept. fold t. kern; intuition congruence.
    - intros r Hr. apply (thread_frame d d' k k1 r); [|reflexivity|auto|exact Hd|apply Hthr; exact Hr].
      unfold k1, slept. fold t. kern; apply same_thread_refl. }
  assert (Es : th_state (thr k1 t) = s) by (unfold k1, slept; fold t; kern; reflexivity).
  assert (Hl : th_link (thr k1 t) <> Q_ready).
  { pose proof (to_link _ _ _ T) as TL. intros E. rewrite E in TL. apply state_link_ready in TL. congruence. }
  assert (Hq : queue k Q_ready <> []).
  { intros E. refine (idle_ready (Some t) y d k H _ Hi E). intros Ei. apply Hi. congruence. }
  destruct (queue k Q_ready) as [|n l] eqn:E; [contradiction|].
  destruct (pick_inv y d' k1 n l H1 Hl E) as (Ek & H2 & Hne & Hle). change (k_current k1) with t in *.
  simpl hd. simpl tl. split; [|split].
  - apply (kinv_close t); [exact H2| |].
    + apply (thread_frame d' d' k1); [|reflexivity| |  |exact T].
      * unfold picked. kern; apply same_thread_refl.
      * unfold picked. kern; auto.
      * intros r [Hr|Hr]; [auto|right]. revert Hr. apply dead_frame. intros r' Hr'. unfold picked. kern; [|reflexivity].
        assert (Hn : th_state (thr k1 n) = CH_STATE_READY); [|congruence].
        apply (ready_state (Some t) y d' k1 n H1); [|congruence]. apply (lk_in k1 (ki_links _ _ _ _ H1)).
        change (queue k1 Q_ready) with (queue k Q_ready). rewrite E. left.
    + change (k_current (picked n l k1)) with n.
      assert (Et : th_state (thr (picked n l k1) t) = s) by (unfold picked; kern; congruence). rewrite Et. split; congruence.
  - unfold chSchGoSleepS. fold t. rewrite (proj2 (Nat.eqb_neq _ _) Hi). exact Ek.
  - apply picked_top. exact Hle.
Qed.
