(* ===== verification/KSched.v ===== *)
(** * Scheduling keeps the invariant

    Switching, sleeping, waking and timeouts: each keeps the kernel's invariant, and
    leaves the thread with the highest priority running. *)

From stdpp Require Import gmap sorting.
From S2P Require Import Prelude CInt CLib Threads Sched Mutexes Events Messages Kernel KInv.
#[local] Open Scope Z_scope.

(** ** Switching *)

Lemma kinv_awake x y d k : kinv x y d k -> x <> Some (k_current k) -> th_state (thr k (k_current k)) = CH_STATE_CURRENT.
Proof. intros H Hx. apply (ki_cur _ _ _ _ H); auto. Qed.

Lemma kinv_unlinked y d k : kinv None y d k -> th_link (thr k (k_current k)) = Q_none.
Proof.
  intros H. pose proof (to_link _ _ _ (ki_thr _ _ _ _ H (k_current k) ltac:(discriminate))) as T.
  rewrite (kinv_awake _ _ _ _ H) in T by discriminate. exact T.
Qed.

Lemma no_ref d k t : thread_ok d k t -> th_state (thr k t) <> CH_STATE_SUSPENDED -> forall r, k_refs k !! r <> Some t.
Proof. intros T Hs r Hr. destruct (to_ref _ _ _ T r Hr). contradiction. Qed.

(** The first ready thread replaces the running one, which goes to the ready list. *)
Lemma swap_inv y d k n l (f : nat -> kernel -> option kernel) :
  kinv None y d k -> queue k Q_ready = n :: l -> prio k (k_current k) <= prio k n ->
  (f = sch_ready_ahead \/ f = sch_ready_behind) ->
  exists k', (k1 ← sch_pick k; f (k_current k) k1) = Some k' /\ kinv None y d k' /\ ktop k' /\
    (forall s, prio k' s = prio k s).
Proof.
  intros H E Hp Hf. pose proof (kinv_awake _ _ _ _ H ltac:(discriminate)) as Hst. pose proof (kinv_unlinked _ _ _ H) as Hul.
  destruct (pick_inv y d k n l (kinv_open _ _ _ _ H)) as (Ek & H1 & Hne & Hl); [congruence|exact E|].
  rewrite Ek. cbn [mbind option_bind]. set (t := k_current k) in *. set (k1 := picked n l k) in *.
  assert (Et : thr k1 t = thr k t) by (unfold k1, picked; kern; reflexivity).
  assert (W : wakeable d k1 t).
  { pose proof (ki_thr _ _ _ _ H t ltac:(discriminate)) as T. pose proof T as [T1 T2 T3 T4 T5 T6 T7]. split; rewrite ?Et; auto.
    - destruct (th_cont (thr k t)) as [c|]; [|exact I]. destruct T2 as [[_ T2]|T2].
      + eapply resume_frame; [..|exact T2]; rewrite ?Et; auto.
        * unfold k1, picked. kern; auto.
        * intros s [?|Hd]; [auto|right]. revert Hd. apply dead_frame. intros s' Hs'. unfold k1, picked. kern; [|reflexivity].
          assert (th_state (thr k n) = CH_STATE_READY); [|congruence].
          apply (ready_state None y d k n H); [|discriminate]. apply (lk_in k (ki_links _ _ _ _ H)). rewrite E. left.
      + destruct (asleep_awake _ _ _ _ T2). right. exact Hst.
    - intros r. apply (no_ref d k t T). rewrite Hst. discriminate.
    - apply (registered_ok d k t T). rewrite Hst. discriminate. }
  assert (Hc : k_current k1 <> t) by (change (k_current k1) with n; congruence).
  assert (Hr : can_ready t k1 = true) by (apply can_ready_spec; rewrite Et, Hst; split; discriminate).
  assert (Hx : exists l', f t k1 = Some (readied t l' k1) /\ l' ≡ₚ t :: queue k1 Q_ready /\ kinv None y d (readied t l' k1)).
  { destruct Hf as [-> | ->]; [apply ready_ahead_inv|apply ready_behind_inv]; assumption. }
  destruct Hx as (l' & Ef & Hperm & H2). exists (readied t l' k1). split; [exact Ef|]. split; [exact H2|].
  assert (Ep : forall s, prio (readied t l' k1) s = prio k s).
  { intros s. unfold readied, k1, picked. kern; reflexivity. }
  split; [|exact Ep]. intros s Hs. rewrite !Ep. change (k_current (readied t l' k1)) with n.
  assert (Hq : queue (readied t l' k1) Q_ready = l') by (unfold readied; kern; reflexivity).
  rewrite Hq, Hperm in Hs. apply elem_of_cons in Hs as [-> |Hs]; [exact Hp|].
  assert (Hq1 : queue k1 Q_ready = l) by (unfold k1, picked; kern; reflexivity). rewrite Hq1 in Hs.
  rewrite Forall_forall in Hl. apply Hl, Hs.
Qed.

Lemma first_cons k p : NOPRIO < p -> p <= firstprio k -> exists n l, queue k Q_ready = n :: l /\ p <= prio k n.
Proof. unfold firstprio. destruct (queue k Q_ready) as [|n l]; [lia|eauto]. Qed.

Lemma reschedule_inv y d k :
  kinv None y d k -> exists k', chSchRescheduleS k = Some k' /\ kinv None y d k' /\ ktop k' /\ (forall s, prio k' s = prio k s).
Proof.
  intros H. unfold chSchRescheduleS. destruct (Z.ltb_spec (prio k (k_current k)) (firstprio k)) as [Hlt|Hge].
  - destruct (first_cons k (prio k (k_current k))) as (n & l & E & Hn); [apply (lk_pos k (ki_links _ _ _ _ H))|lia|].
    apply (swap_inv y d k n l sch_ready_ahead); auto.
  - exists k. split_and!; auto. apply ktop_first; [apply (ki_links _ _ _ _ H)|exact Hge].
Qed.

Lemma epilogue_inv y d k :
  kinv None y d k -> exists k', isr_epilogue k = Some k' /\ kinv None y d k' /\ ktop k' /\ (forall s, prio k' s = prio k s).
Proof. apply reschedule_inv. Qed.

Lemma yield_inv y d k :
  kinv None y d k -> ktop k -> exists k', chSchDoYieldS k = Some k' /\ kinv None y d k' /\ ktop k' /\ (forall s, prio k' s = prio k s).
Proof.
  intros H Ht. unfold chSchDoYieldS. destruct (Z.leb_spec (prio k (k_current k)) (firstprio k)) as [Hle|Hgt]; [|eauto 10].
  destruct (first_cons k (prio k (k_current k))) as (n & l & E & Hn); [apply (lk_pos k (ki_links _ _ _ _ H))|exact Hle|].
  apply (swap_inv y d k n l sch_ready_behind); auto.
Qed.

(** ** Waking *)

(** Kernels that read the same. *)
Record keq (k k' : kernel) : Prop := {
  ke_thr : forall s, thr k' s = thr k s;
  ke_queue : forall q, queue k' q = queue k q;
  ke_owner : forall m, owner k' m = owner k m;
  ke_cur : k_current k' = k_current k;
  ke_refs : k_refs k' = k_refs k;
  ke_src : k_sources k' = k_sources k;
  ke_lis : k_listeners k' = k_listeners k
}.

(** The sources of events and their listeners are apart from the rest. *)
Lemma kinv_reads x y d k k' :
  (forall s, thr k' s = thr k s) -> (forall q, queue k' q = queue k q) -> (forall m, owner k' m = owner k m) ->
  k_current k' = k_current k -> k_refs k' = k_refs k ->
  (forall es el, el ∈ listeners k' es -> is_Some (k_listeners k' !! el)) -> kinv x y d k -> kinv x y d k'.
Proof.
  intros E1 E2 E3 E4 E5 E6 H. pose proof H as [Hlk Hown Hlo Hti Hcur Hidle Hsrc Hthr].
  assert (Hb : same_blocks k k') by (split; [intros s m; rewrite E1; reflexivity|exact E3]).
  assert (Hp : same_prios k k') by (intros s; rewrite E1; auto).
  assert (Hd : forall s, d = Some s \/ dead k s -> d = Some s \/ dead k' s) by (unfold dead; intros s; rewrite E1; auto).
  split; [| | | | | |exact E6|].
  - refine (links_ext k k' _ E2 Hlk). intros s. rewrite E1. auto.
  - refine (own_frame k k' Hb _ Hown). intros s. rewrite E1. reflexivity.
  - exact (pi_lower_frame k k' Hb Hp Hlo).
  - intros t Hy. apply (pi_tight_frame k); auto.
  - intros t Hx. rewrite E1, E4. auto.
  - rewrite E1. exact Hidle.
  - intros t Hx. apply (thread_frame d d k); [rewrite E1; apply same_thread_refl|rewrite E5; reflexivity|rewrite E2; auto|exact Hd|auto].
Qed.

Lemma kinv_ext x y d k k' : keq k k' -> kinv x y d k -> kinv x y d k'.
Proof.
  intros [E1 E2 E3 E4 E5 E6 E7] H. apply (kinv_reads x y d k k'); auto.
  intros es el. unfold listeners. rewrite E6, E7. apply (ki_src _ _ _ _ H).
Qed.

(** The state of the thread in transit may change freely. *)
Lemma open_upd t f y d k :
  kinv (Some t) y d k ->
  th_prio (f (thr k t)) = th_prio (thr k t) -> th_realprio (f (thr k t)) = th_realprio (thr k t) ->
  th_link (f (thr k t)) = th_link (thr k t) -> th_mtxlist (f (thr k t)) = th_mtxlist (thr k t) ->
  (t = chSysGetIdleThreadX -> th_cont (f (thr k t)) = None /\ th_state (f (thr k t)) <> CH_STATE_WTSTART) ->
  ~ dead k t -> kinv (Some t) y d (upd_thread t f k).
Proof.
  intros H Ep Er El Em Hi Hnd. pose proof H as [Hlk Hown Hlo Hti Hcur Hidle Hsrc Hthr].
  assert (Hb : same_blocks k (upd_thread t f k)) by (split; [intros s m; kern; rewrite ?El; reflexivity|reflexivity]).
  assert (Hp : same_prios k (upd_thread t f k)) by (intros s; kern; auto).
  assert (Hd : forall s, d = Some s \/ dead k s -> d = Some s \/ dead (upd_thread t f k) s).
  { intros s [?|Hd]; [auto|right]. unfold dead. destruct (decide (s = t)) as [->|Hne]; [contradiction|]. kern. exact Hd. }
  split; auto.
  - refine (links_ext k _ _ _ Hlk); [|reflexivity]. intros s. kern; auto.
  - refine (own_frame k _ Hb _ Hown). intros s. kern; auto.
  - exact (pi_lower_frame k _ Hb Hp Hlo).
  - intros s Hy. apply (pi_tight_frame k); auto.
  - intros s Hx. assert (s <> t) by congruence. kern. auto.
  - destruct (decide (chSysGetIdleThreadX = t)) as [E|Hne]; kern; auto.
  - intros s Hx. assert (Hne : s <> t) by congruence.
    apply (thread_frame d d k); [|reflexivity|auto|exact Hd|auto]. kern. apply same_thread_refl.
Qed.

(** A thread that starts or has been taken out of a queue wakes up with a message. *)
Lemma ready_msg_inv y d k t msg :
  kinv (Some t) y d k -> k_current k <> t -> can_ready t k = true ->
  wakeable d (upd_thread t (th_with_u (U_msg msg)) k) t -> (t = chSysGetIdleThreadX -> th_state (thr k t) <> CH_STATE_WTSTART) ->
  kinv (Some t) y d (upd_thread t (th_with_u (U_msg msg)) k) /\
  exists k', sch_ready_behind t (upd_thread t (th_with_u (U_msg msg)) k) = Some k' /\ kinv None y d k' /\
    k_current k' = k_current k /\
    exists l, l ≡ₚ t :: queue k Q_ready /\ k' = readied t l (upd_thread t (th_with_u (U_msg msg)) k).
Proof.
  intros H Hc Hr W Hi.
  assert (H1 : kinv (Some t) y d (upd_thread t (th_with_u (U_msg msg)) k)).
  { apply open_upd; [exact H|reflexivity..| |].
    - intros E. split; [|exact (Hi E)]. simpl. rewrite E. apply (ki_idle _ _ _ _ H).
    - intros [Hd _]. apply can_ready_spec in Hr. tauto. }
  split; [exact H1|]. assert (Hr' : can_ready t (upd_thread t (th_with_u (U_msg msg)) k) = true).
  { apply can_ready_spec. apply can_ready_spec in Hr. kern. exact Hr. }
  destruct (ready_behind_inv y d _ t H1 Hc Hr' W) as (l & E & Hl & H2). eexists. split; [exact E|]. split; [exact H2|].
  split; [reflexivity|]. exists l. auto.
Qed.

Lemma insert_ahead_ext pr pr' p t l : (forall s, pr s = pr' s) -> insert_ahead pr p t l = insert_ahead pr' p t l.
Proof. intros E. induction l as [|x l IH]; [reflexivity|]. simpl. rewrite E, IH. reflexivity. Qed.

Lemma ready_ahead_eq t k :
  can_ready t k = true -> th_link (thr k t) = Q_none ->
  sch_ready_ahead t k = Some (readied t (insert_ahead (prio k) (prio k t) t (queue k Q_ready)) k).
Proof.
  intros Hr Hl. unfold sch_ready_ahead, ch_pqueue_insert_ahead, link_in. rewrite Hr.
  change (check true) with (Some tt). cbn [mbind option_bind].
  assert (Ep : forall s, prio (set_state t CH_STATE_READY k) s = prio k s) by (intros s; kg; reflexivity).
  rewrite bool_decide_true by (kg; exact Hl). change (check true) with (Some tt). cbn [mbind option_bind].
  rewrite Ep, (insert_ahead_ext _ (prio k) _ _ _ Ep). reflexivity.
Qed.

(** A woken thread may run at once, instead of the one that ran. *)
Lemma run_inv y d k t :
  kinv (Some t) y d k -> k_current k <> t -> th_state (thr k t) <> CH_STATE_FINAL -> wakeable d k t ->
  kinv (Some (k_current k)) y d (set_current t (set_state t CH_STATE_CURRENT k)).
Proof.
  intros H Hc Hf [W1 W2 W3 W4 W5]. set (k2 := set_current t _).
  assert (Hst : th_state (thr k (k_current k)) = CH_STATE_CURRENT) by (apply (ki_cur _ _ _ _ H); [congruence|reflexivity]).
  assert (H1 : kinv (Some t) y d (set_state t CH_STATE_CURRENT k)).
  { apply open_upd; [exact H|reflexivity..| |].
    - intros E. simpl. split; [rewrite E; apply (ki_idle _ _ _ _ H)|discriminate].
    - intros [Hd _]. contradiction. }
  pose proof H1 as [Hlk Hown Hlo Hti Hcur Hidle Hsrc Hthr].
  assert (Hb : same_blocks (set_state t CH_STATE_CURRENT k) k2) by (split; [intros s m|intros m]; reflexivity).
  assert (Hp : same_prios (set_state t CH_STATE_CURRENT k) k2) by (intros s; split; reflexivity).
  split; [| |exact (pi_lower_frame _ k2 Hb Hp Hlo)| | |exact Hidle|exact Hsrc|].
  - refine (links_ext (set_state t CH_STATE_CURRENT k) k2 _ _ Hlk); [intros s; split|]; reflexivity.
  - refine (own_frame _ k2 Hb _ Hown). reflexivity.
  - intros s Hy. exact (pi_tight_frame _ k2 s Hb Hp (Hti s Hy)).
  - intros s Hs. change (k_current k2) with t. destruct (decide (s = t)) as [->|Hne].
    + unfold k2. kg. tauto.
    + change (thr k2 s) with (thr (set_state t CH_STATE_CURRENT k) s). rewrite Hcur by congruence.
      change (k_current (set_state t CH_STATE_CURRENT k)) with (k_current k). split; congruence.
  - intros s Hs. destruct (decide (s = t)) as [->|Hne].
    + assert (Es : th_state (thr k2 t) = CH_STATE_CURRENT) by (unfold k2; kg; reflexivity).
      assert (Er : forall r, k_refs k2 !! r <> Some t) by exact W4.
      split; rewrite ?Es; try discriminate.
      * unfold k2. kg. exact W1.
      * assert (Ec : th_cont (thr k2 t) = th_cont (thr k t)) by (unfold k2; kg; reflexivity). rewrite Ec.
        destruct (th_cont (thr k t)) as [c|]; [left|left; right; reflexivity]. split; [right; reflexivity|].
        eapply resume_frame; [..|exact W2]; [unfold k2; kg; reflexivity..|auto|].
        intros r [Hd|Hd]; [auto|right]. revert Hd. apply dead_frame. intros r' Hr'. unfold k2. kg; congruence.
      * unfold k2. kg. exact W3.
      * intros r Hr. destruct (Er r Hr).
      * unfold k2. kg. congruence.
    + apply (thread_frame d d (set_state t CH_STATE_CURRENT k)); [apply same_thread_refl|reflexivity|auto|auto|apply Hthr; congruence].
Qed.

Lemma wakeup_inv y d k t msg :
  kinv (Some t) y d k -> k_current k <> t -> can_ready t k = true -> ktop k ->
  wakeable d (upd_thread t (th_with_u (U_msg msg)) k) t -> (t = chSysGetIdleThreadX -> th_state (thr k t) <> CH_STATE_WTSTART) ->
  exists k', chSchWakeupS t msg k = Some k' /\ kinv None y d k' /\ ktop k' /\ (forall s, prio k' s = prio k s).
Proof.
  intros H Hc Hr Ht W Hi. unfold chSchWakeupS.
  rewrite (proj2 (Z.leb_le (firstprio k) (prio k (k_current k)))) by (apply ktop_first; [apply (ki_links _ _ _ _ H)|exact Ht]).
  change (check true) with (Some tt). cbn [mbind option_bind].
  destruct (ready_msg_inv y d k t msg H Hc Hr W Hi) as (H1 & k' & E & H2 & Ec & l & Hp & Eq).
  set (k1 := upd_thread t (th_with_u (U_msg msg)) k) in *. set (o := k_current k) in *.
  assert (Ep1 : forall s, prio k1 s = prio k s) by (intros s; unfold k1; kg; reflexivity).
  rewrite !Ep1. destruct (Z.leb_spec (prio k t) (prio k o)) as [Hle|Hgt].
  - assert (Ep : forall s, prio k' s = prio k s) by (intros s; rewrite Eq; unfold readied, k1; kg; reflexivity).
    exists k'. split_and!; auto. intros s Hs. rewrite !Ep, Ec. 
    assert (El : queue k' Q_ready = l) by (rewrite Eq; unfold readied; kg; reflexivity). rewrite El, Hp in Hs. apply elem_of_cons in Hs as [-> |Hs]; [exact Hle|]. apply Ht. exact Hs.
  - set (k2 := set_current t (set_state t CH_STATE_CURRENT k1)).
    assert (Hf : th_state (thr k1 t) <> CH_STATE_FINAL).
    { apply can_ready_spec in Hr as [_ Hr]. unfold k1. kg. exact Hr. }
    assert (H3 : kinv (Some o) y d k2) by exact (run_inv y d k1 t H1 Hc Hf W).
    assert (T : thread_ok d k1 o) by (apply (ki_thr _ _ _ _ H1); congruence).
    assert (Ho2 : thr k2 o = thr k1 o) by (unfold k2; kg; reflexivity).
    assert (Hso : th_state (thr k1 o) = CH_STATE_CURRENT) by (apply (ki_cur _ _ _ _ H1); [congruence|reflexivity]).
    assert (W2 : wakeable d k2 o).
    { split; rewrite ?Ho2.
      - pose proof (to_link _ _ _ T) as TL. rewrite Hso in TL. exact TL.
      - pose proof (to_cont _ _ _ T) as TC. destruct (th_cont (thr k1 o)) as [c|]; [|exact I].
        destruct TC as [[_ TC]|TC]; [|destruct (asleep_awake _ _ _ _ TC); right; exact Hso].
        eapply resume_frame; [..|exact TC]; rewrite ?Ho2; auto.
        intros r [?|Hd]; [auto|right]. revert Hd. apply dead_frame. intros r' Hr'. unfold k2. kg; congruence.
      - apply (to_timer _ _ _ T).
      - apply (no_ref d k1 o T). rewrite Hso. discriminate.
      - apply (registered_ok d k1 o T). rewrite Hso. discriminate. }
    assert (Hr2 : can_ready o k2 = true) by (apply can_ready_spec; rewrite Ho2, Hso; split; discriminate).
    assert (Hr1 : can_ready o k1 = true) by (apply can_ready_spec; rewrite Hso; split; discriminate).
    destruct (ready_ahead_inv y d k2 o H3) as (l2 & E2 & Hp2 & H4); [change (k_current k2) with t; congruence|exact Hr2|exact W2|].
    rewrite (ready_ahead_eq o k2 Hr2 (wk_link _ _ _ W2)) in E2. apply (inj Some) in E2. rewrite <- E2 in H4.
    rewrite (ready_ahead_eq o k1 Hr1) by (pose proof (to_link _ _ _ T) as TL; rewrite Hso in TL; exact TL).
    cbn [mbind option_bind]. change (queue k2 Q_ready) with (queue k1 Q_ready) in *.
    assert (Ep2 : forall s, prio k2 s = prio k1 s) by (intros s; unfold k2; kg; reflexivity).
    rewrite Ep2 in H4. rewrite (insert_ahead_ext (prio k2) (prio k1) _ _ _ Ep2) in H4.
    clear E2 Hp2. set (l1 := insert_ahead _ _ _ _) in *. eexists. split; [reflexivity|].
    assert (K : keq (readied o l1 k2) (set_current t (set_state t CH_STATE_CURRENT (readied o l1 k1)))).
    { split; try reflexivity. intros s. unfold readied, k2. kg; reflexivity. }
    split; [exact (kinv_ext _ _ _ _ _ K H4)|].
    assert (Ep : forall s, prio (set_current t (set_state t CH_STATE_CURRENT (readied o l1 k1))) s = prio k s).
    { intros s. unfold readied, k1. kg; reflexivity. }
    split; [|exact Ep]. intros s Hs. rewrite !Ep. change (k_current (set_current t _)) with t.
    assert (El : queue (set_current t (set_state t CH_STATE_CURRENT (readied o l1 k1))) Q_ready = l1) by (unfold readied; kg; reflexivity).
    rewrite El in Hs. unfold l1 in Hs. rewrite insert_ahead_perm in Hs. apply elem_of_cons in Hs as [-> |Hs]; [lia|].
    specialize (Ht s Hs). fold o in Ht. lia.
Qed.

(** ** Taking a thread out of a queue *)

Definition taken (t : nat) (q : qid) (l : list nat) (k : kernel) : kernel :=
  upd_thread t (th_with_link Q_none) (upd_queue q l k).

Lemma taken_inv y d k t q l :
  kinv None y d k -> th_link (thr k t) = q -> (forall m, q <> Q_mtx m) -> (forall s, q = Q_msg s -> th_cont (thr k s) = None) ->
  links_ok (taken t q l k) -> kinv (Some t) y d (taken t q l k).
Proof.
  intros H Hl Hm Hq Hlk'. pose proof H as [Hlk Hown Hlo Hti Hcur Hidle Hsrc Hthr]. set (k1 := taken t q l k) in *.
  assert (Hb : same_blocks k k1).
  { split; [|reflexivity]. intros s m. unfold k1, taken. kg; [|reflexivity]. split; [discriminate|]. intros E. exfalso. eapply Hm, E. }
  assert (Hp : same_prios k k1) by (intros s; unfold k1, taken; kg; auto).
  assert (Hd : forall s, d = Some s \/ dead k s -> d = Some s \/ dead k1 s).
  { intros s [?|Hd]; [auto|right]. unfold dead, k1, taken in *. kg; exact Hd. }
  split; [exact Hlk'| |exact (pi_lower_frame k k1 Hb Hp Hlo)| | | |exact Hsrc|].
  - refine (own_frame k k1 Hb _ Hown). intros s. unfold k1, taken. kg; reflexivity.
  - intros s Hy. exact (pi_tight_frame k k1 s Hb Hp (Hti s Hy)).
  - intros s Hs. assert (s <> t) by congruence. unfold k1, taken. kg. apply Hcur. discriminate.
  - unfold k1, taken. kg; exact Hidle.
  - intros s Hs. assert (Hne : s <> t) by congruence. pose proof (Hthr s ltac:(discriminate)) as T.
    assert (Es : thr k1 s = thr k s) by (unfold k1, taken; kg; reflexivity).
    destruct (decide (q = Q_msg s)) as [Eq|Hqs].
    + pose proof T as [T1 T2 T3 T4 T5 T6 T7]. split; rewrite ?Es; auto. rewrite (Hq s Eq) in *. exact T2.
    + apply (thread_frame d d k k1); [rewrite Es; apply same_thread_refl|reflexivity| |exact Hd|exact T].
      unfold k1, taken. kg; auto.
Qed.

(** The queue tells the state. *)
Lemma link_state s q u :
  state_link s q u ->
  match q with
  | Q_ready => s = CH_STATE_READY
  | Q_mtx m => s = CH_STATE_WTMTX /\ u = U_wtmtxp m
  | Q_cond c => s = CH_STATE_WTCOND /\ u = U_wtobjp c
  | Q_msg _ => s = CH_STATE_SNDMSGQ /\ is_msg u
  | Q_exit _ => s = CH_STATE_WTEXIT
  | Q_none => True
  end.
Proof.
  destruct s; simpl; intros H; repeat match goal with H : _ /\ _ |- _ => destruct H | H : exists _, _ |- _ => destruct H end;
    subst; try discriminate; auto.
Qed.

Lemma cont_asleep d k t c :
  thread_ok d k t -> th_cont (thr k t) = Some c -> ~ awake (th_state (thr k t)) ->
  asleep c (th_state (thr k t)) (th_link (thr k t)) (th_u (thr k t)).
Proof. intros T Ec Ha. pose proof (to_cont _ _ _ T) as TC. rewrite Ec in TC. destruct TC as [[TC _]|TC]; [contradiction|exact TC]. Qed.

(** A thread that waits for a condition variable is taken out of its queue. *)
Lemma cond_taken y d k t c l :
  kinv None y d k -> th_link (thr k t) = Q_cond c -> links_ok (taken t (Q_cond c) l k) ->
  let k1 := taken t (Q_cond c) l k in
  kinv (Some t) y d k1 /\ k_current k1 <> t /\ can_ready t k1 = true /\
  (t = chSysGetIdleThreadX -> th_state (thr k1 t) <> CH_STATE_WTSTART) /\
  th_state (thr k1 t) = CH_STATE_WTCOND /\
  (forall msg, wakeable d (upd_thread t (th_with_u (U_msg msg)) k1) t) /\
  (exists m timed, th_cont (thr k t) = Some (C_cond m timed)).
Proof.
  intros H Hl Hlk k1. pose proof (ki_thr _ _ _ _ H t ltac:(discriminate)) as T.
  pose proof (link_state _ _ _ (to_link _ _ _ T)) as Hs. rewrite Hl in Hs. destruct Hs as [Hs Hu].
  assert (Es : th_state (thr k1 t) = CH_STATE_WTCOND) by (unfold k1, taken; kg; exact Hs).
  assert (Hc : exists m timed, th_cont (thr k t) = Some (C_cond m timed)).
  { pose proof (to_cont _ _ _ T) as TC. destruct (th_cont (thr k t)) as [c'|] eqn:Ec.
    - apply (cont_asleep d k t c' T) in Ec; [|rewrite Hs; intros [|]; discriminate]. rewrite Hs in Ec.
      destruct c' as [| | | | | |[]| |]; simpl in Ec; try (exfalso; intuition discriminate). eauto.
    - rewrite Hs in TC. destruct TC as [[|]|]; discriminate. }
  split; [apply taken_inv; auto; discriminate|]. split; [|split; [|split; [|split; [exact Es|split; [|exact Hc]]]]].
  - change (k_current k1) with (k_current k). intros E. symmetry in E. apply (ki_cur _ _ _ _ H t ltac:(discriminate)) in E. congruence.
  - apply can_ready_spec. rewrite Es. split; discriminate.
  - rewrite Es. discriminate.
  - intros msg. destruct Hc as (m & timed & Hc). split; unfold k1, taken; kg; auto.
    + rewrite Hc. simpl. kg. exact I.
    + apply (to_timer _ _ _ T).
    + apply (no_ref d k t T). rewrite Hs. discriminate.
    + apply (registered_ok d k t T). rewrite Hs. discriminate.
Qed.

(** ** Timeouts *)

Lemma closed_upd t f y d k :
  kinv None y d k ->
  th_prio (f (thr k t)) = th_prio (thr k t) -> th_realprio (f (thr k t)) = th_realprio (thr k t) ->
  th_link (f (thr k t)) = th_link (thr k t) -> th_mtxlist (f (thr k t)) = th_mtxlist (thr k t) ->
  th_state (f (thr k t)) = th_state (thr k t) -> (t = chSysGetIdleThreadX -> th_cont (f (thr k t)) = None) ->
  ~ dead k t -> thread_ok d (upd_thread t f k) t -> kinv None y d (upd_thread t f k).
Proof.
  intros H Ep Er El Em Es Hi Hnd T. apply (kinv_close t); [|exact T|].
  - apply open_upd; auto; [apply kinv_open; exact H|]. intros E. split; [auto|]. rewrite Es, E. apply (ki_idle _ _ _ _ H).
  - change (k_current (upd_thread t f k)) with (k_current k). rewrite <- (ki_cur _ _ _ _ H t) by discriminate.
    rewrite thr_upd_thread, decide_True by reflexivity. rewrite Es. reflexivity.
Qed.

Lemma unref_inv y d k t r :
  kinv (Some t) y d k -> k_refs k !! r = Some t -> kinv (Some t) y d (set_ref r None k).
Proof.
  intros H Hr. pose proof H as [Hlk Hown Hlo Hti Hcur Hidle Hsrc Hthr]. set (k1 := set_ref r None k).
  assert (Hb : same_blocks k k1) by (split; [intros s m|intros m]; reflexivity).
  assert (Hp : same_prios k k1) by (intros s; split; reflexivity).
  split; [| |exact (pi_lower_frame k k1 Hb Hp Hlo)| |exact Hcur|exact Hidle|exact Hsrc|].
  - refine (links_ext k k1 _ _ Hlk); [intros s; split|]; reflexivity.
  - refine (own_frame k k1 Hb _ Hown). reflexivity.
  - intros s Hy. exact (pi_tight_frame k k1 s Hb Hp (Hti s Hy)).
  - intros s Hs. apply (thread_frame d d k k1); [apply same_thread_refl| |auto|auto|apply Hthr; exact Hs].
    intros r'. unfold k1. rewrite refs_set_ref. case_decide; [|reflexivity]. subst. rewrite Hr. split; congruence.
Qed.

Lemma resume_timeout d k t c : timed_cont (Some c) -> th_u (thr k t) = U_msg MSG_TIMEOUT -> resume_ok d k t c.
Proof. destruct c as [|? []| | | | |? []| |[]]; simpl; intros Hc E; rewrite ?E; auto; try contradiction; exact I. Qed.

(** With the timer off, out of its queue and its reference, the thread is made ready. *)
Lemma timeout_ready y d k t c :
  kinv (Some t) y d k -> k_current k <> t -> t <> chSysGetIdleThreadX -> can_ready t k = true ->
  th_link (thr k t) = Q_none -> th_cont (thr k t) = Some c -> timed_cont (Some c) -> th_timer (thr k t) = false ->
  (forall r, k_refs k !! r <> Some t) -> th_reg (thr k t) = true ->
  exists k', sch_ready_behind t (upd_thread t (th_with_u (U_msg MSG_TIMEOUT)) k) = Some k' /\ kinv None y d k' /\
    k_current k' = k_current k.
Proof.
  intros H Hc Hi Hr Hl Ec Htc Ht Href Hreg.
  destruct (ready_msg_inv y d k t MSG_TIMEOUT H Hc Hr) as (_ & k' & E & H' & Ek & _); [|congruence|eauto].
  split; [kg; exact Hl|kg; rewrite Ec|kg; congruence|exact Href|kg; exact Hreg].
  apply resume_timeout; [exact Htc|]. kg. reflexivity.
Qed.

(** A timeout fires for a thread that sleeps with one, or has just been woken. *)
Lemma kernel_timeout_inv y d k t :
  kinv None y d k -> th_timer (thr k t) = true -> th_cont (thr k (k_current k)) = None ->
  exists k', sch_wakeup t k = Some k' /\ kinv None y d k' /\ k_current k' = k_current k.
Proof.
  intros H Ht Hc. pose proof (ki_thr _ _ _ _ H t ltac:(discriminate)) as T. pose proof (to_timer _ _ _ T Ht) as Htc.
  assert (Hne : k_current k <> t) by (intros E; rewrite <- E, Hc in Htc; exact Htc).
  set (k0 := upd_thread t (th_with_timer false) k).
  assert (Et : thr k0 t = th_with_timer false (thr k t)) by (unfold k0; kg; reflexivity).
  destruct (th_cont (thr k t)) as [c|] eqn:Ec; [|destruct Htc].
  assert (Hni : t <> chSysGetIdleThreadX) by (intros E; rewrite E in Ec; destruct (ki_idle _ _ _ _ H); congruence).
  pose proof (to_cont _ _ _ T) as TC. rewrite Ec in TC.
  assert (Hnd : ~ dead k t).
  { intros [Hf _]. rewrite Hf in TC. destruct TC as [[[|] _]|TC]; try discriminate.
    destruct c as [| | | | | |[]| |]; simpl in TC, Htc; intuition discriminate. }
  assert (H0 : kinv (Some t) y d k0) by (apply open_upd; [apply kinv_open; exact H|reflexivity..|contradiction|exact Hnd]).
  unfold sch_wakeup. fold k0. rewrite Et. simpl th_state. simpl th_u. destruct TC as [[Ha HR]|TC].
  - destruct Ha as [Ha|Ha]; [|apply (ki_cur _ _ _ _ H t ltac:(discriminate)) in Ha; congruence]. rewrite Ha.
    exists k0. split; [reflexivity|]. split; [|reflexivity]. apply (kinv_close t); [exact H0| |].
    + pose proof T as [T1 T2 T3 T4 T5 T6 T7]. split; rewrite ?Et; simpl; rewrite ?Ec; auto; try discriminate.
      left. split; [left; exact Ha|]. eapply resume_frame; [..|exact HR]; rewrite ?Et; auto.
      intros s [?|Hd]; [auto|right]. revert Hd. apply dead_frame. intros s' Hs'. unfold k0. kg; congruence.
    + rewrite Et. simpl. rewrite Ha. split; [discriminate|]. intros E. change (k_current k0) with (k_current k) in E. congruence.
  - assert (Hreg : th_reg (thr k t) = true).
    { apply (registered_ok d k t T). intros Hf. rewrite Hf in TC.
      destruct c as [| | | | | |[]| |]; simpl in TC, Htc; intuition discriminate. }
    assert (Hns : th_state (thr k t) <> CH_STATE_SUSPENDED -> th_link (thr k t) = Q_none -> can_ready t k0 = true ->
      exists k', sch_ready_behind t (upd_thread t (th_with_u (U_msg MSG_TIMEOUT)) k0) = Some k' /\ kinv None y d k' /\
        k_current k' = k_current k).
    { intros Hs Hl Hr. apply (timeout_ready y d k0 t c); rewrite ?Et; auto. apply (no_ref d k t T Hs). }
    pose proof (to_link _ _ _ T) as TL.
    assert (Hcr : th_state (thr k t) <> CH_STATE_READY -> th_state (thr k t) <> CH_STATE_FINAL -> can_ready t k0 = true).
    { intros. apply can_ready_spec. rewrite Et. auto. }
    destruct c as [|m []| | | | |kind [] ev| |[]]; simpl in TC, Htc; try contradiction.
    + rewrite TC. assert (Hl : exists c, th_link (thr k t) = Q_cond c) by (rewrite TC in TL; destruct TL as (c & E & _); eauto).
      destruct Hl as (c & Hl).
      assert (H0' : kinv None y d k0).
      { apply (kinv_close t); [exact H0| |].
        - destruct T as [T1 T2 T3 T4 T5 T6 T7]. split; rewrite ?Et; simpl; rewrite ?Ec; auto; try discriminate.
        - rewrite Et. simpl. rewrite TC. split; [discriminate|]. intros E. change (k_current k0) with (k_current k) in E. congruence. }
      destruct (dequeue_ok t k0 (ki_links _ _ _ _ H0)) as [Ed Hlk]; [rewrite Et; simpl; congruence|].
      rewrite Ed. cbn [mbind option_bind]. cbv zeta in Hlk. rewrite Et in *. simpl th_link in *. rewrite Hl in *.
      destruct (cond_taken y d k0 t c _ H0' ltac:(rewrite Et; exact Hl) Hlk) as (H1 & Hc1 & Hr1 & _ & _ & _ & _).
      set (k2 := taken t _ _ k0) in *.
      assert (E2 : thr k2 t = th_with_link Q_none (thr k0 t)) by (unfold k2, taken; kg; reflexivity).
      destruct (timeout_ready y d k2 t (C_cond m true) H1 Hc1 Hni Hr1) as (k' & E & H' & Ek');
        [rewrite E2; reflexivity|rewrite E2, Et; exact Ec|exact I|rewrite E2, Et; reflexivity| |rewrite E2, Et; exact Hreg|exists k'; auto].
      apply (no_ref d k t T). rewrite TC. discriminate.
    + rewrite TC. destruct (to_susp _ _ _ T TC) as (r & Hr & Hu). rewrite Hu.
      apply (timeout_ready y d (set_ref r None k0) t C_suspend); auto.
      * apply unref_inv; [exact H0|exact Hr].
      * apply can_ready_spec. change (thr (set_ref r None k0) t) with (thr k0 t). rewrite Et. simpl. rewrite TC. split; discriminate.
      * change (thr (set_ref r None k0) t) with (thr k0 t). rewrite Et. rewrite TC in TL. exact TL.
      * change (thr (set_ref r None k0) t) with (thr k0 t). rewrite Et. exact Ec.
      * change (thr (set_ref r None k0) t) with (thr k0 t). rewrite Et. reflexivity.
      * intros r'. rewrite refs_set_ref. case_decide; [discriminate|]. intros Hr'.
        destruct (to_ref _ _ _ T r' Hr') as [_ E]. congruence.
      * change (thr (set_ref r None k0) t) with (thr k0 t). rewrite Et. exact Hreg.
    + rewrite TC in *. apply Hns; [discriminate|exact TL|apply Hcr; discriminate].
    + destruct TC as [TC _]. rewrite TC in *. destruct kind; (apply Hns; [discriminate|exact TL|apply Hcr; discriminate]).
    + rewrite TC in *. apply Hns; [discriminate|exact TL|apply Hcr; discriminate].
Qed.
