(* ===== verification/KMutex.v ===== *)
(** * Priority inheritance

    The operations on mutexes and condition variables keep the kernel's invariant:
    the boost along a chain of owners in particular, in any chain and with the fuel
    it is given. *)

From stdpp Require Import gmap sorting.
From S2P Require Import Prelude CInt CLib Threads Sched Mutexes Events Messages Kernel KInv KSched.
#[local] Open Scope Z_scope.

(** ** The invariant without the priorities *)

Record kbase (x d : option nat) (k : kernel) : Prop := {
  kb_links : links_ok k;
  kb_own : own_ok k;
  kb_cur : forall t, x <> Some t -> (th_state (thr k t) = CH_STATE_CURRENT <-> t = k_current k);
  kb_idle : th_cont (thr k chSysGetIdleThreadX) = None /\ th_state (thr k chSysGetIdleThreadX) <> CH_STATE_WTSTART;
  kb_src : forall es el, el ∈ listeners k es -> is_Some (k_listeners k !! el);
  kb_thr : forall t, x <> Some t -> thread_ok d k t
}.

Lemma base_of_kinv x y d k : kinv x y d k -> kbase x d k.
Proof. intros []. split; auto. Qed.

Lemma kinv_of_base x y d k : kbase x d k -> pi_lower k -> (forall t, y <> Some t -> pi_tight k t) -> kinv x y d k.
Proof. intros [] Hl Ht. split; auto. Qed.

(** ** One thread's priority is raised *)

(** Only the priority of [tp] and the order of the queues change. *)
Record raised (tp : nat) (p : Z) (k k' : kernel) : Prop := {
  ra_thr : forall s, thr k' s = if decide (s = tp) then th_with_prio p (thr k tp) else thr k s;
  ra_queue : forall q, queue k' q ≡ₚ queue k q;
  ra_msg : forall s, queue k' (Q_msg s) = queue k (Q_msg s);
  ra_owner : forall m, owner k' m = owner k m;
  ra_cur : k_current k' = k_current k;
  ra_refs : k_refs k' = k_refs k;
  ra_src : k_sources k' = k_sources k;
  ra_lis : k_listeners k' = k_listeners k;
  ra_links : links_ok k'
}.

Lemma raised_same tp p k k' s : raised tp p k k' -> same_thread (thr k s) (thr k' s).
Proof. intros R. rewrite (ra_thr _ _ _ _ R). destruct (decide (s = tp)) as [->|]; split_and!; reflexivity. Qed.

Lemma raised_blocks tp p k k' : raised tp p k k' -> same_blocks k k'.
Proof.
  intros R. split; [|apply (ra_owner _ _ _ _ R)]. intros s m.
  destruct (raised_same _ _ _ _ s R) as (_ & _ & -> & _). reflexivity.
Qed.

Lemma raised_prio tp p k k' s : raised tp p k k' -> prio k' s = if decide (s = tp) then p else prio k s.
Proof. intros R. unfold prio. rewrite (ra_thr _ _ _ _ R). case_decide; reflexivity. Qed.

Lemma raised_base tp p d k k' : raised tp p k k' -> kbase None d k -> kbase None d k'.
Proof.
  intros R [Hlk Hown Hcur Hidle Hsrc Hthr]. split.
  - apply (ra_links _ _ _ _ R).
  - apply (own_frame k k' (raised_blocks _ _ _ _ R)); [|exact Hown]. intros s. apply (raised_same _ _ _ _ s R).
  - intros s Hs. destruct (raised_same _ _ _ _ s R) as (-> & _). rewrite (ra_cur _ _ _ _ R). auto.
  - destruct (raised_same _ _ _ _ chSysGetIdleThreadX R) as (-> & _ & _ & _ & _ & _ & -> & _). exact Hidle.
  - intros es el. unfold listeners. rewrite (ra_src _ _ _ _ R), (ra_lis _ _ _ _ R). apply Hsrc.
  - intros s Hs. apply (thread_frame d d k k'); [apply (raised_same _ _ _ _ s R)| | | |auto].
    + rewrite (ra_refs _ _ _ _ R). reflexivity.
    + rewrite (ra_msg _ _ _ _ R). auto.
    + intros r [?|[H1 H2]]; [auto|right]. unfold dead. destruct (raised_same _ _ _ _ r R) as (-> & -> & _). auto.
Qed.

(** A thread in an ordered queue is taken out with its new priority... *)
Lemma dequeue_raised f tp p k q :
  links_ok k -> th_link (thr k tp) = q -> q <> Q_none -> NOPRIO < p ->
  th_prio (f (thr k tp)) = p -> th_link (f (thr k tp)) = q ->
  let k1 := upd_thread tp f k in
  let k2 := upd_thread tp (th_with_link Q_none) (upd_queue q (filter (fun s => s <> tp) (queue k q)) k1) in
  ch_queue_dequeue tp k1 = Some k2 /\ links_ok k2 /\ tp :: filter (fun s => s <> tp) (queue k q) ≡ₚ queue k q.
Proof.
  intros H Hl Hq Hp Ef El k1 k2. split; [|split].
  - unfold ch_queue_dequeue, k2. replace (th_link (thr k1 tp)) with q by (unfold k1; kg; congruence).
    destruct q; [contradiction|reflexivity..].
  - pose proof (remove_ok q tp k H Hl Hq) as H1. refine (links_prio _ k2 tp _ _ _ _ H1).
    + kg. auto.
    + unfold k2, k1. kg. congruence.
    + intros s. unfold k2, k1. kg; split; congruence || reflexivity || (intros; congruence).
    + intros q'. unfold k2, k1. kg; reflexivity.
  - assert (Hin : tp ∈ queue k q) by (apply (lk_in k H); auto). pose proof (lk_nodup k H q) as Hnd.
    clear -Hin Hnd. revert Hin Hnd. induction (queue k q) as [|x l IH]; intros Hin Hnd; [inversion Hin|].
    apply NoDup_cons in Hnd as [Hx Hnd]. destruct (decide (x = tp)) as [->|Hne].
    + rewrite filter_cons_False by congruence. rewrite filter_ne_other by exact Hx. reflexivity.
    + rewrite filter_cons_True by exact Hne. apply elem_of_cons in Hin as [?|Hin]; [congruence|].
      rewrite <- (IH Hin Hnd) at 2. constructor.
Qed.

(** ... and goes behind its new peers. *)
Lemma insert_inv q tp k :
  links_ok k -> th_link (thr k tp) = Q_none -> q <> Q_none ->
  exists l, ch_sch_prio_insert q tp k = Some (upd_thread tp (th_with_link q) (upd_queue q l k)) /\
    ch_pqueue_insert_behind q tp k = Some (upd_thread tp (th_with_link q) (upd_queue q l k)) /\
    l ≡ₚ tp :: queue k q /\ links_ok (upd_thread tp (th_with_link q) (upd_queue q l k)).
Proof.
  intros H Hl Hq. unfold ch_sch_prio_insert, ch_pqueue_insert_behind.
  set (l := insert_behind (prio k) (prio k tp) tp (queue k q)). exists l.
  rewrite (proj2 (Z.ltb_lt NOPRIO (prio k tp)) (lk_pos k H tp)).
  destruct (link_in_ok q tp l k H Hl Hq) as [E Hlk].
  - apply insert_behind_perm.
  - intros Ho. apply insert_behind_sorted, (lk_sorted k H q Ho).
  - split_and!; [exact E|exact E|apply insert_behind_perm|exact Hlk].
Qed.

Lemma requeue_raised tp p k q :
  links_ok k -> th_link (thr k tp) = q -> q <> Q_none -> (forall s, q <> Q_msg s) -> NOPRIO < p ->
  exists k2 k3, ch_queue_dequeue tp (upd_thread tp (th_with_prio p) k) = Some k2 /\
    ch_sch_prio_insert q tp k2 = Some k3 /\ raised tp p k k3.
Proof.
  intros H Hl Hq Hm Hp.
  destruct (dequeue_raised (th_with_prio p) tp p k q H Hl Hq Hp eq_refl Hl) as (E2 & H2 & Hperm).
  set (k2 := upd_thread tp (th_with_link Q_none) _) in *.
  destruct (insert_inv q tp k2 H2) as (l & E3 & _ & Hl3 & H3); [unfold k2; kg; reflexivity|exact Hq|].
  exists k2, (upd_thread tp (th_with_link q) (upd_queue q l k2)). split; [exact E2|]. split; [exact E3|].
  assert (Eq2 : queue k2 q = filter (fun s => s <> tp) (queue k q)) by (unfold k2; kg; reflexivity). rewrite Eq2, Hperm in Hl3.
  split; try reflexivity; [| | |exact H3].
  - intros s. unfold k2. kg; [|reflexivity]. destruct (thr k tp); reflexivity.
  - intros q'. unfold k2. kg; [exact Hl3|reflexivity].
  - intros s. unfold k2. kg; reflexivity.
Qed.

Lemma upd_upd t f g k : upd_thread t g (upd_thread t f k) = upd_thread t (fun th => g (f th)) k.
Proof.
  unfold upd_thread. simpl. f_equal. rewrite insert_insert_eq. f_equal.
  change (thr (Kernel _ _ _ _ _ _ _) t) with (thr (upd_thread t f k) t). rewrite thr_upd_thread, decide_True by reflexivity.
  reflexivity.
Qed.

Lemma ready_raised tp p k :
  links_ok k -> th_link (thr k tp) = Q_ready -> th_state (thr k tp) = CH_STATE_READY -> NOPRIO < p ->
  exists k2 k3, ch_queue_dequeue tp (set_state tp CH_STATE_CURRENT (upd_thread tp (th_with_prio p) k)) = Some k2 /\
    chSchReadyI tp k2 = Some k3 /\ raised tp p k k3.
Proof.
  intros H Hl Hst Hp. unfold set_state at 1. rewrite upd_upd.
  destruct (dequeue_raised (fun th => th_with_state CH_STATE_CURRENT (th_with_prio p th)) tp p k Q_ready H Hl)
    as (E2 & H2 & Hperm); [discriminate|exact Hp|reflexivity|exact Hl|].
  set (k2 := upd_thread tp (th_with_link Q_none) _) in *.
  assert (H2' : links_ok (set_state tp CH_STATE_READY k2)).
  { refine (links_ext k2 _ _ _ H2); [|reflexivity]. intros s. kg; auto. }
  destruct (insert_inv Q_ready tp (set_state tp CH_STATE_READY k2) H2') as (l & _ & E3 & Hl3 & H3);
    [unfold k2; kg; reflexivity|discriminate|].
  set (k3 := upd_thread tp (th_with_link Q_ready) _) in *. exists k2, k3. split; [exact E2|]. split.
  - unfold chSchReadyI, sch_ready_behind. replace (can_ready tp k2) with true; [exact E3|].
    symmetry. apply can_ready_spec. unfold k2. kg. split; discriminate.
  - assert (Eq2 : queue (set_state tp CH_STATE_READY k2) Q_ready = filter (fun s => s <> tp) (queue k Q_ready))
      by (unfold k2; kg; reflexivity).
    rewrite Eq2, Hperm in Hl3. split; try reflexivity; [| | |exact H3].
    + intros s. unfold k3, k2. kg; [|reflexivity]. revert Hl Hst. clear. destruct (thr k tp); simpl. intros -> ->. reflexivity.
    + intros q'. unfold k3, k2. kg; [exact Hl3|reflexivity].
    + intros s. unfold k3, k2. kg; reflexivity.
Qed.

(** A thread in no ordered queue just gets the priority. *)
Lemma plain_raised tp p k :
  links_ok k -> ~ ordered (th_link (thr k tp)) -> NOPRIO < p -> raised tp p k (upd_thread tp (th_with_prio p) k).
Proof.
  intros H Hl Hp. split; try reflexivity; [intros s; kg; reflexivity|].
  apply (links_prio k _ tp); [exact Hl|kg; exact Hp| |reflexivity|exact H].
  intros s. kg; split; congruence || reflexivity || (intros; congruence).
Qed.

(** ** The boost *)

(** One turn: the thread is raised, and the next is the owner of the mutex it waits
    for, if it waits for one. *)
Lemma boost_turn d k tp p :
  kbase None d k -> prio k tp < p ->
  exists k', raised tp p k k' /\
    ((exists m n, th_link (thr k tp) = Q_mtx m /\ owner k m = Some n /\
        forall fuel, mtx_boost (S fuel) p tp k = mtx_boost fuel p n k') \/
     ((forall m, th_link (thr k tp) <> Q_mtx m) /\ forall fuel, mtx_boost (S fuel) p tp k = Some k')).
Proof.
  intros H Hp. pose proof (kb_links _ _ _ H) as Hlk. assert (Hpos : NOPRIO < p) by (pose proof (lk_pos k Hlk tp); lia).
  pose proof (kb_thr _ _ _ H tp ltac:(discriminate)) as T. pose proof (to_link _ _ _ T) as TL.
  set (k1 := upd_thread tp (th_with_prio p) k).
  assert (E1 : thr k1 tp = th_with_prio p (thr k tp)) by (unfold k1; kg; reflexivity).
  assert (Hb : forall fuel, mtx_boost (S fuel) p tp k =
    match th_state (thr k1 tp) with
    | CH_STATE_WTMTX =>
        q ← wait_queue (th_u (thr k1 tp));
        k ← ch_queue_dequeue tp k1; k ← ch_sch_prio_insert q tp k;
        match th_u (thr k tp) with U_wtmtxp m => tp ← owner k m; mtx_boost fuel p tp k | _ => None end
    | CH_STATE_WTCOND =>
        q ← wait_queue (th_u (thr k1 tp)); k ← ch_queue_dequeue tp k1; ch_sch_prio_insert q tp k
    | CH_STATE_READY => k ← ch_queue_dequeue tp (set_state tp CH_STATE_CURRENT k1); chSchReadyI tp k
    | _ => Some k1
    end).
  { intros fuel. cbn [mtx_boost]. rewrite (proj2 (Z.ltb_lt _ _) Hp). reflexivity. }
  rewrite E1 in Hb. cbn [th_state th_u th_with_prio] in Hb.
  assert (Hplain : ~ ordered (th_link (thr k tp)) -> (forall fuel, mtx_boost (S fuel) p tp k = Some k1) ->
    exists k', raised tp p k k' /\
      ((exists m n, th_link (thr k tp) = Q_mtx m /\ owner k m = Some n /\
          forall fuel, mtx_boost (S fuel) p tp k = mtx_boost fuel p n k') \/
       ((forall m, th_link (thr k tp) <> Q_mtx m) /\ forall fuel, mtx_boost (S fuel) p tp k = Some k'))).
  { intros Ho Hk. exists k1. split; [apply plain_raised; assumption|]. right. split; [|exact Hk].
    intros m Em. rewrite Em in Ho. apply Ho. exact I. }
  destruct (th_state (thr k tp)) eqn:Es; simpl in TL;
    try (apply Hplain; [rewrite TL; simpl; tauto|exact Hb]).
  - destruct (ready_raised tp p k Hlk TL Es Hpos) as (k2 & k3 & E2 & E3 & R). exists k3. split; [exact R|]. right.
    split; [congruence|]. intros fuel. rewrite Hb. fold k1 in E2. rewrite E2. exact E3.
  - destruct TL as (m & TL & Eu). destruct (ow_waited k (kb_own _ _ _ H) tp m TL) as [n Hn].
    destruct (requeue_raised tp p k (Q_mtx m) Hlk TL) as (k2 & k3 & E2 & E3 & R); [discriminate|discriminate|exact Hpos|].
    exists k3. split; [exact R|]. left. exists m, n. split; [exact TL|]. split; [exact Hn|]. intros fuel. rewrite Hb, Eu.
    cbn [wait_queue mbind option_bind]. fold k1 in E2. rewrite E2. cbn [mbind option_bind]. rewrite E3. cbn [mbind option_bind].
    destruct (raised_same _ _ _ _ tp R) as (_ & Eu3 & _). rewrite Eu3, Eu, (ra_owner _ _ _ _ R), Hn. reflexivity.
  - destruct TL as (c & TL & Eu).
    destruct (requeue_raised tp p k (Q_cond c) Hlk TL) as (k2 & k3 & E2 & E3 & R); [discriminate|discriminate|exact Hpos|].
    exists k3. split; [exact R|]. right. split; [congruence|]. intros fuel. rewrite Hb, Eu.
    cbn [wait_queue mbind option_bind]. fold k1 in E2. rewrite E2. exact E3.
  - destruct TL as (s & TL). apply Hplain; [rewrite TL; simpl; tauto|exact Hb].
  - destruct TL as ((s & TL) & _). apply Hplain; [rewrite TL; simpl; tauto|exact Hb].
Qed.

(** The state of the priorities when it is [tp]'s turn to get [p], for a mutex that
    [o] owns. *)
Record boosting (o tp : nat) (p : Z) (k : kernel) : Prop := {
  bo_lower : forall t, NOPRIO < th_realprio (thr k t) <= Z.max (prio k t) (if decide (t = tp) then p else 0) /\
    forall s, blocks k s t -> prio k s <= Z.max (prio k t) (if decide (t = tp) then p else 0);
  bo_tight : forall t, t <> o -> t <> tp -> pi_tight k t;
  bo_turn : tp <> o -> (p <= prio k tp -> pi_tight k tp) /\ exists s, blocks k s tp /\ prio k s = p;
  bo_owner : pi_tight k o \/ prio k o = p;
  bo_done : tp <> o -> p <= prio k o
}.

(** The boost is over: all priorities are right but for the thread that is going to
    wait, with priority [p]. *)
Record boosted (o : nat) (p : Z) (k : kernel) : Prop := {
  bd_lower : pi_lower k;
  bd_tight : forall t, t <> o -> pi_tight k t;
  bd_owner : pi_tight k o \/ prio k o = p;
  bd_done : p <= prio k o
}.

Lemma boosting_done o tp p k : boosting o tp p k -> links_ok k -> p <= prio k tp -> boosted o p k.
Proof.
  intros [Hl Ht Hturn Ho Hd] Hlk Hp. split; [| |exact Ho|].
  - intros t. pose proof (lk_pos k Hlk t) as Hpos. unfold NOPRIO in Hpos. specialize (Hl t).
    assert (E : Z.max (prio k t) (if decide (t = tp) then p else 0) = prio k t) by (case_decide; subst; lia).
    rewrite E in Hl. exact Hl.
  - intros t Hne. destruct (decide (t = tp)) as [->|Hnt]; [|apply Ht; assumption]. apply (Hturn Hne). exact Hp.
  - destruct (decide (tp = o)) as [->|Hne]; [exact Hp|apply Hd, Hne].
Qed.

Lemma blocks_inj k s t t' : blocks k s t -> blocks k s t' -> t = t'.
Proof. intros (m & Hl & Ho) (m' & Hl' & Ho'). congruence. Qed.

Lemma tight_raised tp p k k' t :
  raised tp p k k' -> pi_tight k t -> t <> tp -> (blocks k tp t -> prio k tp <> prio k t) -> pi_tight k' t.
Proof.
  intros R H Hne Hn. pose proof (raised_prio _ _ _ _ t R) as Ep. rewrite decide_False in Ep by exact Hne.
  pose proof (ra_thr _ _ _ _ R t) as Et. rewrite decide_False in Et by exact Hne.
  unfold pi_tight. rewrite Ep, Et. destruct H as [E|(s & Hs & E)]; [left; exact E|].
  right. exists s. split; [apply (blocks_frame k k' s t (raised_blocks _ _ _ _ R)); exact Hs|].
  rewrite (raised_prio _ _ _ _ s R), decide_False; [exact E|]. intros ->. exact (Hn Hs E).
Qed.

(** A thread that is blocked by itself, or by one with its new priority, is tight. *)
Lemma tight_self tp p k k' s :
  raised tp p k k' -> blocks k s tp -> prio k s = p -> pi_tight k' tp.
Proof.
  intros R Hs Es. right. exists s. split; [apply (blocks_frame k k' s tp (raised_blocks _ _ _ _ R)); exact Hs|].
  rewrite !(raised_prio _ _ _ _ _ R), (decide_True (P := tp = tp)) by reflexivity. case_decide; [reflexivity|exact Es].
Qed.

Lemma lower_raised o tp p k k' :
  boosting o tp p k -> links_ok k -> prio k tp < p -> raised tp p k k' ->
  forall t, NOPRIO < th_realprio (thr k' t) <= prio k' t /\ (forall s, s <> tp -> blocks k' s t -> prio k' s <= prio k' t).
Proof.
  intros [Hl _ _ _ _] Hlk Hp R t. destruct (Hl t) as [L1 L2]. pose proof (lk_pos k Hlk t) as Hpos. unfold NOPRIO in Hpos.
  assert (E : prio k' t = Z.max (prio k t) (if decide (t = tp) then p else 0)).
  { rewrite (raised_prio _ _ _ _ _ R). case_decide; subst; lia. }
  rewrite E. split.
  - rewrite (ra_thr _ _ _ _ R). destruct (decide (t = tp)) as [->|]; exact L1.
  - intros s Hne Hs. apply (blocks_frame k k' s t (raised_blocks _ _ _ _ R)) in Hs.
    rewrite (raised_prio _ _ _ _ s R), (decide_False (P := s = tp)) by exact Hne. exact (L2 s Hs).
Qed.

Lemma owner_raised o tp p k k' :
  boosting o tp p k -> prio k tp < p -> raised tp p k k' -> p <= prio k' o /\ (pi_tight k' o \/ prio k' o = p).
Proof.
  intros [_ _ _ Ho Hd] Hp R. pose proof (raised_prio _ _ _ _ o R) as Ep. destruct (decide (o = tp)) as [->|Hne].
  - rewrite Ep. split; [lia|right; reflexivity].
  - specialize (Hd ltac:(congruence)). rewrite Ep. split; [exact Hd|]. destruct Ho as [Ho|Ho]; [left|right; exact Ho].
    apply (tight_raised tp p k k'); [exact R|exact Ho|exact Hne|lia].
Qed.

Lemma boosting_step o tp p k k' m n :
  boosting o tp p k -> links_ok k -> prio k tp < p -> raised tp p k k' ->
  th_link (thr k tp) = Q_mtx m -> owner k m = Some n -> boosting o n p k'.
Proof.
  intros B Hlk Hp R Hl Hn. pose proof (lower_raised o tp p k k' B Hlk Hp R) as HL.
  destruct (owner_raised o tp p k k' B Hp R) as [HO1 HO2].
  assert (Hb : blocks k tp n) by (exists m; auto).
  assert (Eb : forall s t, blocks k' s t <-> blocks k s t) by (intros; apply blocks_frame, (raised_blocks _ _ _ _ R)).
  assert (Etp : prio k' tp = p) by (rewrite (raised_prio _ _ _ _ _ R), decide_True; reflexivity).
  destruct B as [_ Ht Hturn _ _]. split; [| | |exact HO2|intros _; exact HO1].
  - intros t. destruct (HL t) as [L1 L2]. split; [lia|]. intros s Hs. destruct (decide (s = tp)) as [->|Hne].
    + apply Eb in Hs. rewrite (blocks_inj _ _ _ _ Hs Hb), (decide_True (P := n = n)) by reflexivity. lia.
    + specialize (L2 s Hne Hs). lia.
  - intros t Hto Htn. destruct (decide (t = tp)) as [->|Hne].
    + destruct (Hturn Hto) as [_ (s & Hs & Es)]. exact (tight_self tp p k k' s R Hs Es).
    + apply (tight_raised tp p k k'); [exact R|apply Ht; assumption|exact Hne|].
      intros Hbt. destruct Htn. exact (blocks_inj _ _ _ _ Hbt Hb).
  - intros Hno. split; [|exists tp; rewrite Eb; auto]. intros Hpn. destruct (decide (n = tp)) as [->|Hne].
    + right. exists tp. rewrite Eb. auto.
    + rewrite (raised_prio _ _ _ _ _ R), decide_False in Hpn by exact Hne.
      apply (tight_raised tp p k k'); [exact R|apply Ht; assumption|exact Hne|lia].
Qed.

Lemma boosting_end o tp p k k' :
  boosting o tp p k -> links_ok k -> prio k tp < p -> raised tp p k k' ->
  (forall m, th_link (thr k tp) <> Q_mtx m) -> boosted o p k'.
Proof.
  intros B Hlk Hp R Hl. pose proof (lower_raised o tp p k k' B Hlk Hp R) as HL.
  destruct (owner_raised o tp p k k' B Hp R) as [HO1 HO2].
  assert (Hb : forall t, ~ blocks k tp t) by (intros t (m & E & _); exact (Hl m E)).
  destruct B as [_ Ht Hturn _ _]. split; [| |exact HO2|exact HO1].
  - intros t. destruct (HL t) as [L1 L2]. split; [exact L1|]. intros s Hs. apply L2; [|exact Hs]. intros ->.
    apply (blocks_frame k k' tp t (raised_blocks _ _ _ _ R)) in Hs. exact (Hb t Hs).
  - intros t Hto. destruct (decide (t = tp)) as [->|Hne].
    + destruct (Hturn Hto) as [_ (s & Hs & Es)]. exact (tight_self tp p k k' s R Hs Es).
    + apply (tight_raised tp p k k'); [exact R|apply Ht; assumption|exact Hne|]. intros H. destruct (Hb t H).
Qed.

(** What a boost changes: priorities below [p], which become [p], and orders. *)
Record lifted (p : Z) (k k' : kernel) : Prop := {
  li_thr : forall s, thr k' s = th_with_prio (prio k' s) (thr k s);
  li_prio : forall s, prio k' s = prio k s \/ prio k s < p /\ prio k' s = p;
  li_queue : forall q, queue k' q ≡ₚ queue k q;
  li_owner : forall m, owner k' m = owner k m;
  li_cur : k_current k' = k_current k
}.

Lemma lifted_refl p k : lifted p k k.
Proof. split; auto. intros s. unfold prio. destruct (thr k s); reflexivity. Qed.

Lemma lifted_trans p k1 k2 k3 : lifted p k1 k2 -> lifted p k2 k3 -> lifted p k1 k3.
Proof.
  intros [T1 P1 Q1 O1 C1] [T2 P2 Q2 O2 C2]. split; [| | | |congruence].
  - intros s. rewrite T2, T1. reflexivity.
  - intros s. destruct (P1 s) as [E1|[? E1]], (P2 s) as [E2|[? E2]]; rewrite E2, ?E1; auto; lia.
  - intros q. rewrite Q2. apply Q1.
  - intros m. rewrite O2. apply O1.
Qed.

Lemma raised_lifted tp p k k' : raised tp p k k' -> prio k tp < p -> lifted p k k'.
Proof.
  intros R Hp. split; [| |apply (ra_queue _ _ _ _ R)|apply (ra_owner _ _ _ _ R)|apply (ra_cur _ _ _ _ R)].
  - intros s. rewrite (raised_prio _ _ _ _ _ R), (ra_thr _ _ _ _ R). case_decide; subst; [reflexivity|].
    unfold prio. destruct (thr k s); reflexivity.
  - intros s. rewrite (raised_prio _ _ _ _ _ R). case_decide; subst; auto.
Qed.

(** The threads of lower priority that the boost can come to. *)
Definition below (p : Z) (L : list nat) (k : kernel) : nat := length (filter (fun t => prio k t < p) L).

Lemma below_raised tp p k k' L :
  raised tp p k k' -> prio k tp < p -> tp ∈ L -> (below p L k' < below p L k)%nat.
Proof.
  intros R Hp.
  assert (Hle : forall L, (below p L k' <= below p L k)%nat).
  { clear L. unfold below. induction L as [|x L IH]; [reflexivity|]. rewrite !filter_cons, (raised_prio _ _ _ _ _ R).
    repeat case_decide; subst; simpl; lia. }
  induction L as [|x L IH]; intros Hin; [inversion Hin|].
  specialize (Hle L). unfold below in *. rewrite !filter_cons, (raised_prio _ _ _ _ _ R).
  apply elem_of_cons in Hin as [->|Hin]; [|specialize (IH Hin)]; repeat case_decide; subst; simpl; lia || contradiction.
Qed.

(** The boost ends, with the priorities inherited. *)
Lemma boost_loop d o p L fuel : forall tp k,
  kbase None d k -> boosting o tp p k -> (forall t, th_mtxlist (thr k t) <> [] -> t ∈ L) -> th_mtxlist (thr k tp) <> [] ->
  (below p L k < fuel)%nat ->
  exists k', mtx_boost fuel p tp k = Some k' /\ kbase None d k' /\ boosted o p k' /\ lifted p k k'.
Proof.
  induction fuel as [|fuel IH]; intros tp k H B HL Htp Hf; [lia|].
  pose proof (kb_links _ _ _ H) as Hlk. destruct (Z.ltb_spec (prio k tp) p) as [Hp|Hp].
  - destruct (boost_turn d k tp p H Hp) as (k1 & R & C). pose proof (raised_base _ _ _ _ _ R H) as H1.
    pose proof (raised_lifted _ _ _ _ R Hp) as Li. destruct C as [(m & n & Hl & Hn & E)|[Hl E]]; rewrite E.
    + assert (Em : forall t, th_mtxlist (thr k1 t) = th_mtxlist (thr k t)) by (intros t; apply (raised_same _ _ _ _ t R)).
      destruct (IH n k1) as (k2 & E2 & H2 & B2 & Li2).
      * exact H1.
      * exact (boosting_step o tp p k k1 m n B Hlk Hp R Hl Hn).
      * intros t. rewrite Em. apply HL.
      * rewrite Em. intros E0. apply (ow_list k (kb_own _ _ _ H)) in Hn. rewrite E0 in Hn. inversion Hn.
      * pose proof (below_raised tp p k k1 L R Hp (HL tp Htp)). lia.
      * exists k2. split; [exact E2|]. split; [exact H2|]. split; [exact B2|]. exact (lifted_trans _ _ _ _ Li Li2).
    + exists k1. split; [reflexivity|]. split; [exact H1|]. split; [exact (boosting_end o tp p k k1 B Hlk Hp R Hl)|exact Li].
  - exists k. simpl. rewrite (proj2 (Z.ltb_ge _ _) Hp). split; [reflexivity|]. split; [exact H|].
    split; [exact (boosting_done o tp p k B Hlk Hp)|apply lifted_refl].
Qed.

Lemma boost_ok d o p m k :
  kinv None None d k -> owner k m = Some o ->
  exists k', mtx_boost (S (size (k_threads k))) p o k = Some k' /\ kbase None d k' /\ boosted o p k' /\ lifted p k k'.
Proof.
  intros H Ho. pose proof (lk_pos k (ki_links _ _ _ _ H)) as Hpos. unfold NOPRIO in Hpos.
  apply (boost_loop d o p (elements (dom (k_threads k)))).
  - exact (base_of_kinv _ _ _ _ H).
  - split; try (intros; contradiction).
    + intros t. destruct (ki_lower _ _ _ _ H t) as [H1 H2]. split; [lia|]. intros s Hs. specialize (H2 s Hs). lia.
    + intros t _ _. apply (ki_tight _ _ _ _ H). discriminate.
    + left. apply (ki_tight _ _ _ _ H). discriminate.
  - intros t Ht. apply elem_of_elements, elem_of_dom. unfold thr in Ht. rewrite lookup_total_alt in Ht.
    destruct (k_threads k !! t); [eauto|]. destruct Ht. reflexivity.
  - intros E. apply (ow_list k (ki_own _ _ _ _ H)) in Ho. rewrite E in Ho. inversion Ho.
  - unfold below. pose proof (length_filter (fun t => prio k t < p) (elements (dom (k_threads k)))) as Hle.
    rewrite <- size_dom. unfold size at 1, set_size. simpl. lia.
Qed.
