(* ===== verification/KLock.v ===== *)
(** * Mutexes and condition variables keep the invariant

    Locking with its boost, unlocking with the hand over to the first waiting
    thread, and the waits at condition variables. *)

From stdpp Require Import gmap sorting.
From S2P Require Import Prelude CInt CLib Threads Sched Mutexes Events Messages Kernel KInv KSched KMutex.
#[local] Open Scope Z_scope.

(** ** Calls *)

(** A thread, not the idle one, runs its own code. *)
Record calling (k : kernel) : Prop := {
  ca_inv : kinv None None None k;
  ca_top : ktop k;
  ca_cont : th_cont (thr k (k_current k)) = None;
  ca_idle : k_current k <> chSysGetIdleThreadX
}.

(** The operation is defined and ends in a kernel that is in order. *)
Definition good (o : option (kernel * option kresult)) : Prop :=
  exists k r, o = Some (k, r) /\ kinv None None None k /\ ktop k.

Lemma good_some k r : kinv None None None k -> ktop k -> good (Some (k, r)).
Proof. intros H Ht. exists k, r. auto. Qed.

Lemma good_bind (o : option kernel) r :
  (exists k, o = Some k /\ kinv None None None k /\ ktop k) -> good (k ← o; Some (k, r)).
Proof. intros (k & -> & H & Ht). apply good_some; assumption. Qed.

Section current.
Context (y d : option nat) (k : kernel) (H : kinv None y d k).
Let t := k_current k.

Lemma current_state : th_state (thr k t) = CH_STATE_CURRENT.
Proof. apply (kinv_awake None y d k H). discriminate. Qed.
Lemma current_link : th_link (thr k t) = Q_none.
Proof. exact (kinv_unlinked y d k H). Qed.
Lemma current_alive : ~ dead k t.
Proof. intros [E _]. rewrite current_state in E. discriminate. Qed.
Lemma current_ref r : k_refs k !! r <> Some t.
Proof. apply (no_ref d k t); [apply (ki_thr _ _ _ _ H); discriminate|]. rewrite current_state. discriminate. Qed.
Lemma current_reg : th_reg (thr k t) = true.
Proof. apply (registered_ok d k t); [apply (ki_thr _ _ _ _ H); discriminate|]. rewrite current_state. discriminate. Qed.
Lemma current_timer : th_cont (thr k t) = None -> th_timer (thr k t) = false.
Proof.
  intros Ec. pose proof (to_timer _ _ _ (ki_thr _ _ _ _ H t ltac:(discriminate))) as T. rewrite Ec in T.
  destruct (th_timer (thr k t)); [destruct (T eq_refl)|reflexivity].
Qed.
End current.

(** ** Going to sleep *)

(** What the running thread must have done before it sleeps in state [s]. *)
Record sleepy (s : thd_state) (c : cont) (k : kernel) : Prop := {
  sl_state : th_state (thr k (k_current k)) = CH_STATE_CURRENT;
  sl_idle : k_current k <> chSysGetIdleThreadX;
  sl_new : s <> CH_STATE_CURRENT /\ s <> CH_STATE_READY;
  sl_link : state_link s (th_link (thr k (k_current k))) (th_u (thr k (k_current k)));
  sl_asleep : asleep c s (th_link (thr k (k_current k))) (th_u (thr k (k_current k)));
  sl_ref : forall r, k_refs k !! r = Some (k_current k) -> s = CH_STATE_SUSPENDED /\ th_u (thr k (k_current k)) = U_wttrp r;
  sl_susp : s = CH_STATE_SUSPENDED -> exists r, k_refs k !! r = Some (k_current k) /\ th_u (thr k (k_current k)) = U_wttrp r;
  sl_final : s = CH_STATE_FINAL -> is_msg (th_u (thr k (k_current k)));
  sl_reg : th_reg (thr k (k_current k)) = false -> s = CH_STATE_FINAL /\ th_refs (thr k (k_current k)) = 0
}.

Lemma sleep_ok y d d' s c k :
  kinv (Some (k_current k)) y d k -> sleepy s c k ->
  (th_timer (thr k (k_current k)) = true -> timed_cont (Some c)) ->
  (forall t, d = Some t -> d' = Some t \/ dead (slept s c k) t) ->
  exists k', chSchGoSleepS s c k = Some k' /\ kinv None y d' k' /\ ktop k'.
Proof.
  intros H [S1 S2 [S3 S4] S5 S6 S7 S8 S9 S10] Ht Hd.
  assert (T : thread_ok d' (slept s c k) (k_current k)).
  { assert (E : thr (slept s c k) (k_current k) = th_with_cont (Some c) (th_with_state s (thr k (k_current k))))
      by (unfold slept; kg; reflexivity).
    split; rewrite ?E; auto. right. exact S6. }
  destruct (slept_inv y d d' s c k H S1 S2 S3 S4 T Hd) as (H' & E & Ht'). eauto.
Qed.

Lemma sleep_timeout_ok y d s timeout c k :
  kinv (Some (k_current k)) y d k -> sleepy s c k -> timed_cont (Some c) -> timeout <> TIME_IMMEDIATE ->
  exists k', chSchGoSleepTimeoutS s timeout c k = Some k' /\ kinv None y d k' /\ ktop k'.
Proof.
  intros H S Hc Hi. unfold chSchGoSleepTimeoutS. destruct (timeout =? TIME_INFINITE).
  - apply (sleep_ok y d d); auto.
  - rewrite (proj2 (Z.eqb_neq timeout TIME_IMMEDIATE) Hi). change (check (negb false)) with (Some tt). cbn [mbind option_bind].
    set (t := k_current k) in *. set (k1 := upd_thread t (th_with_timer true) k).
    assert (E : thr k1 t = th_with_timer true (thr k t)) by (unfold k1; kg; reflexivity).
    destruct S as [S1 S2 S3 S5 S6 S7 S8 S9 S10]. fold t in S1, S2, S5, S6, S7, S8, S9, S10. apply (sleep_ok y d d); auto.
    + apply open_upd; [exact H|reflexivity..|contradiction|]. intros [Hf _]. rewrite S1 in Hf. discriminate.
    + split; change (k_current k1) with t; rewrite ?E; assumption.
Qed.

(** ** The running thread joins a queue *)

Lemma enqueue_base d k t q l :
  kbase (Some t) d k -> th_link (thr k t) = Q_none -> (forall m, q = Q_mtx m -> is_Some (owner k m)) ->
  l ≡ₚ t :: queue k q -> links_ok (upd_thread t (th_with_link q) (upd_queue q l k)) ->
  kbase (Some t) d (upd_thread t (th_with_link q) (upd_queue q l k)).
Proof.
  intros [Hlk Hown Hcur Hidle Hsrc Hthr] Hl Hm Hp Hlk'. set (k1 := upd_thread _ _ _) in *.
  assert (Hs : forall s, same_thread (thr k1 s) (thr k s) \/ s = t).
  { intros s. unfold k1. kg; [auto|left; apply same_thread_refl]. }
  split; [exact Hlk'| | | |exact Hsrc|].
  - destruct Hown as [O1 O2 O3]. split.
    + intros m s. change (owner k1 m) with (owner k m). rewrite O1. unfold k1. kg; reflexivity.
    + intros s. unfold k1. kg; apply O2.
    + intros s m. change (owner k1 m) with (owner k m). unfold k1. kg; [apply Hm|apply O3].
  - intros s Hx. unfold k1. kg. apply Hcur. exact Hx.
  - unfold k1. kg; exact Hidle.
  - intros s Hx. apply (thread_frame d d k); [|reflexivity| | |apply Hthr; exact Hx].
    + unfold k1. kg. apply same_thread_refl.
    + intros Hq. unfold k1. kg; [|exact Hq]. intros E. subst l. apply Permutation_nil_cons in Hp. exact Hp.
    + intros r [?|Hd]; [auto|right]. unfold dead, k1 in *. kg; exact Hd.
Qed.

Lemma enqueue_inv y d k t q l :
  kinv (Some t) y d k -> th_link (thr k t) = Q_none -> (forall m, q <> Q_mtx m) ->
  l ≡ₚ t :: queue k q -> links_ok (upd_thread t (th_with_link q) (upd_queue q l k)) ->
  kinv (Some t) y d (upd_thread t (th_with_link q) (upd_queue q l k)).
Proof.
  intros H Hl Hm Hp Hlk'.
  assert (Hb : same_blocks k (upd_thread t (th_with_link q) (upd_queue q l k))).
  { split; [|reflexivity]. intros s m. kg; [|reflexivity]. rewrite Hl. split; [intros E; destruct (Hm m E)|discriminate]. }
  assert (Hpr : same_prios k (upd_thread t (th_with_link q) (upd_queue q l k))) by (intros s; kg; auto).
  apply kinv_of_base.
  - apply enqueue_base; [apply (base_of_kinv (Some t) y)| | | |]; auto. intros m E. destruct (Hm m E).
  - exact (pi_lower_frame k _ Hb Hpr (ki_lower _ _ _ _ H)).
  - intros s Hy. exact (pi_tight_frame k _ s Hb Hpr (ki_tight _ _ _ _ H s Hy)).
Qed.

(** The running thread sets its field [u]. *)
Lemma set_u_inv y d k t u :
  kinv (Some t) y d k -> th_state (thr k t) = CH_STATE_CURRENT -> t <> chSysGetIdleThreadX ->
  kinv (Some t) y d (upd_thread t (th_with_u u) k).
Proof.
  intros H Hs Hi. apply open_upd; [exact H|reflexivity..|contradiction|]. intros [E _]. rewrite Hs in E. discriminate.
Qed.

(** ** Locking *)

Lemma base_open x d k : kbase None d k -> kbase (Some x) d k.
Proof. intros []. split; auto. Qed.

(** The thread that waits has the owner inherit. *)
Lemma waits_inv o d k t m l :
  kbase None d k -> boosted o (prio k t) k -> owner k m = Some o -> th_link (thr k t) = Q_none ->
  l ≡ₚ t :: queue k (Q_mtx m) -> links_ok (upd_thread t (th_with_link (Q_mtx m)) (upd_queue (Q_mtx m) l k)) ->
  kinv (Some t) None d (upd_thread t (th_with_link (Q_mtx m)) (upd_queue (Q_mtx m) l k)).
Proof.
  intros H B Ho Hl Hp Hlk'. set (k1 := upd_thread _ _ _).
  assert (Ep : forall s, prio k1 s = prio k s) by (intros s; unfold k1; kg; reflexivity).
  assert (Er : forall s, th_realprio (thr k1 s) = th_realprio (thr k s)) by (intros s; unfold k1; kg; reflexivity).
  assert (Eb : forall s u, blocks k1 s u <-> (s = t /\ u = o) \/ blocks k s u).
  { intros s u. unfold blocks. change (owner k1) with (owner k). unfold k1. kg.
    - split; [|intros [[_ ->]|(m' & E & _)]; [eauto|congruence]]. intros (m' & E & E'). left. split; [reflexivity|].
      injection E as <-. congruence.
    - split; [auto|]. intros [[? _]|?]; [contradiction|assumption]. }
  destruct B as [B1 B2 B3 B4]. apply kinv_of_base.
  - apply enqueue_base; auto; [apply base_open; exact H|]. intros m' E. injection E as <-. rewrite Ho. eauto.
  - intros u. rewrite Ep, Er. destruct (B1 u) as [L1 L2]. split; [exact L1|]. intros s Hs. rewrite Ep.
    apply Eb in Hs as [[-> ->]|Hs]; [exact B4|exact (L2 s Hs)].
  - intros u _. unfold pi_tight. rewrite Ep, Er.
    assert (Ht : pi_tight k u -> prio k u = th_realprio (thr k u) \/ exists s, blocks k1 s u /\ prio k1 s = prio k u).
    { intros [E|(s & Hs & E)]; [auto|right]. exists s. rewrite Eb, Ep. auto. }
    destruct (decide (u = o)) as [->|Hne]; [|exact (Ht (B2 u Hne))].
    destruct B3 as [B3|B3]; [exact (Ht B3)|]. right. exists t. rewrite Eb, Ep. auto.
Qed.

(** A free mutex is taken. *)
Lemma give_inv x y d k m t :
  kinv x y d k -> owner k m = None -> (forall m' r, th_cont (thr k t) <> Some (C_mtx m' r)) -> kinv x y d (mtx_give m t k).
Proof.
  intros H Ho Hc. pose proof H as [Hlk Hown Hlo Hti Hcur Hidle Hsrc Hthr]. set (k1 := mtx_give m t k).
  assert (Et : forall s, thr k1 s = if decide (s = t) then th_with_mtxlist (m :: th_mtxlist (thr k t)) (thr k t) else thr k s).
  { intros s. unfold k1, mtx_give. kg; reflexivity. }
  assert (Eo : forall m', owner k1 m' = if decide (m' = m) then Some t else owner k m').
  { intros m'. unfold k1, mtx_give. kg; reflexivity. }
  assert (Eb : forall s u, blocks k1 s u <-> blocks k s u).
  { intros s u. unfold blocks. setoid_rewrite Eo. rewrite Et.
    assert (E : th_link (if decide (s = t) then th_with_mtxlist (m :: th_mtxlist (thr k t)) (thr k t) else thr k s) = th_link (thr k s))
      by (case_decide; subst; reflexivity). rewrite E.
    assert (Hm : forall m', th_link (thr k s) = Q_mtx m' -> m' <> m).
    { intros m' E1 ->. destruct (ow_waited k Hown s m E1). congruence. }
    split; intros (m' & E1 & E2); exists m'; (split; [exact E1|]); rewrite decide_False in * by (exact (Hm m' E1)); exact E2. }
  assert (Hpr : same_prios k k1) by (intros s; rewrite Et; case_decide; subst; auto).
  assert (Ep : forall s, prio k1 s = prio k s) by (intros s; apply Hpr).
  assert (Hn : forall s, m ∉ th_mtxlist (thr k s)) by (intros s E; apply (ow_list k Hown) in E; congruence).
  split; [| | | | | |exact Hsrc|].
  - refine (links_ext k k1 _ _ Hlk); [|reflexivity]. intros s. rewrite Et. case_decide; subst; auto.
  - destruct Hown as [O1 O2 O3]. split.
    + intros m' s. rewrite Eo, Et. specialize (Hn s). pose proof (O1 m' s) as Om.
      destruct (decide (m' = m)) as [->|], (decide (s = t)) as [->|]; simpl; rewrite ?elem_of_cons; intuition congruence.
    + intros s. rewrite Et. case_decide; subst; simpl; [|apply O2]. apply NoDup_cons. auto.
    + intros s m' E. rewrite Eo. destruct (decide (m' = m)); [eauto|]. apply (O3 s). revert E. rewrite Et.
      case_decide; subst; auto.
  - intros s. rewrite Ep. destruct (Hpr s) as [_ ->]. destruct (Hlo s) as [L1 L2]. split; [exact L1|].
    intros u Hu. rewrite Ep. apply L2, Eb, Hu.
  - intros s Hy. unfold pi_tight. rewrite Ep. destruct (Hpr s) as [_ ->]. destruct (Hti s Hy) as [E|(u & Hu & E)]; [auto|right].
    exists u. rewrite Eb, Ep. auto.
  - intros s Hx. rewrite Et. change (k_current k1) with (k_current k). rewrite <- Hcur by exact Hx. case_decide; subst; reflexivity.
  - rewrite Et. case_decide; subst; exact Hidle.
  - intros s Hx. destruct (decide (s = t)) as [->|Hne].
    + destruct (Hthr t Hx) as [T1 T2 T3 T4 T5 T6 T7]. split; rewrite ?Et, ?decide_True by reflexivity; simpl; auto.
      destruct (th_cont (thr k t)) as [c|]; [|exact T2]. destruct T2 as [[Ha T2]|T2]; [left|right; exact T2]. split; [exact Ha|].
      assert (Hd : forall s, d = Some s \/ dead k s -> d = Some s \/ dead k1 s).
      { intros s [?|Hd]; [auto|right]. unfold dead in *. rewrite Et. case_decide; subst; exact Hd. }
      destruct c; simpl in *; rewrite ?Et, ?decide_True by reflexivity; auto. destruct (Hc m0 r eq_refl).
    + apply (thread_frame d d k); [rewrite Et, decide_False by exact Hne; apply same_thread_refl|reflexivity|auto| |auto].
      intros r [?|Hd]; [auto|right]. unfold dead in *. rewrite Et. case_decide; subst; exact Hd.
Qed.

Lemma give_top m k t : ktop k -> ktop (mtx_give m t k).
Proof.
  intros Ht s Hs. assert (Ep : forall s, prio (mtx_give m t k) s = prio k s) by (intros u; unfold mtx_give; kg; reflexivity).
  rewrite !Ep. exact (Ht s Hs).
Qed.

Lemma lock_good m r k : calling k -> good (mtx_lock m r k).
Proof.
  intros [H Htop Hc Hi]. unfold mtx_lock. set (t := k_current k) in *. destruct (owner k m) as [o|] eqn:Ho.
  - destruct (boost_ok None o (prio k t) m k H Ho) as (k1 & E1 & H1 & B & Li). rewrite E1. cbn [mbind option_bind].
    pose proof (li_cur _ _ _ Li) as Ec. fold t in Ec.
    assert (Ep : prio k1 t = prio k t) by (destruct (li_prio _ _ _ Li t) as [E|[E _]]; [exact E|lia]).
    assert (Et : thr k1 t = th_with_prio (prio k t) (thr k t)) by (rewrite (li_thr _ _ _ Li), Ep; reflexivity).
    assert (Hl : th_link (thr k1 t) = Q_none) by (rewrite Et; exact (current_link None None k H)).
    destruct (insert_inv (Q_mtx m) t k1 (kb_links _ _ _ H1) Hl) as (l & E2 & _ & Hp & Hlk); [discriminate|].
    rewrite E2. cbn [mbind option_bind]. rewrite <- Ep in B. rewrite <- (li_owner _ _ _ Li) in Ho.
    pose proof (waits_inv o None k1 t m l H1 B Ho Hl Hp Hlk) as H2. set (k2 := upd_thread _ _ (upd_queue _ l k1)) in *.
    assert (E2t : thr k2 t = th_with_link (Q_mtx m) (th_with_prio (prio k t) (thr k t))) by (unfold k2; kg; rewrite Et; reflexivity).
    pose proof (current_state None None k H) as Hst. fold t in Hst.
    assert (H3 : kinv (Some t) None None (upd_thread t (th_with_u (U_wtmtxp m)) k2)).
    { apply set_u_inv; [exact H2|rewrite E2t; exact Hst|exact Hi]. }
    set (k3 := upd_thread t (th_with_u (U_wtmtxp m)) k2) in *.
    assert (E3t : thr k3 t = th_with_u (U_wtmtxp m) (th_with_link (Q_mtx m) (th_with_prio (prio k t) (thr k t))))
      by (rewrite <- E2t; unfold k3; kg; reflexivity).
    assert (Ec3 : k_current k3 = t) by exact Ec.
    assert (Hnr : forall r, k_refs k3 !! r <> Some t).
    { apply (no_ref None k1); [apply (kb_thr _ _ _ H1); discriminate|]. rewrite Et. simpl. rewrite Hst. discriminate. }
    destruct (sleep_ok None None None CH_STATE_WTMTX (C_mtx m r) k3) as (k' & E & H' & Ht').
    + rewrite Ec3. exact H3.
    + split; rewrite ?Ec3, ?E3t; simpl; eauto; try discriminate; try (split; discriminate).
      * intros r' Hr. destruct (Hnr r' Hr).
      * unfold t. rewrite (current_reg None None k H). discriminate.
    + rewrite Ec3, E3t. simpl. unfold t. rewrite (current_timer None None k H Hc). discriminate.
    + discriminate.
    + rewrite E. cbn [mbind option_bind]. apply good_some; assumption.
  - apply good_some; [|apply give_top; exact Htop]. apply give_inv; [exact H|exact Ho|]. rewrite Hc. discriminate.
Qed.

Lemma trylock_good m k : calling k -> good (chMtxTryLock m k).
Proof.
  intros [H Htop Hc Hi]. unfold chMtxTryLock, chMtxTryLockS. destruct (owner k m) eqn:Ho; apply good_some; auto.
  - apply give_inv; [exact H|exact Ho|]. rewrite Hc. discriminate.
  - apply give_top. exact Htop.
Qed.
