(* ===== verification/KUnlock.v ===== *)
(** * Unlocking keeps the invariant

    The mutex goes to the first of its waiting threads, and the thread that unlocks
    it gets the priority it has by its other mutexes. *)

From stdpp Require Import gmap sorting.
From S2P Require Import Prelude CInt CLib Threads Sched Mutexes Events Messages Kernel KInv KSched KMutex KLock.
#[local] Open Scope Z_scope.

(** ** The new priority *)

(** [p] is the priority thread [t] has by the mutexes [ms]; not exactly so for [y]. *)
Record new_prio (y : option nat) (t : nat) (ms : list nat) (p : Z) (k : kernel) : Prop := {
  np_real : th_realprio (thr k t) <= p;
  np_lower : forall s m, m ∈ ms -> th_link (thr k s) = Q_mtx m -> prio k s <= p;
  np_tight : y = Some t \/ p = th_realprio (thr k t) \/ exists s m, m ∈ ms /\ th_link (thr k s) = Q_mtx m /\ prio k s = p
}.

Lemma newprio_of_ok k ms : forall p,
  links_ok k ->
  let p' := newprio_of k p ms in
  p <= p' /\ (forall s m, m ∈ ms -> th_link (thr k s) = Q_mtx m -> prio k s <= p') /\
  (p' = p \/ exists s m, m ∈ ms /\ th_link (thr k s) = Q_mtx m /\ prio k s = p').
Proof.
  induction ms as [|m ms IH]; intros p H p'.
  - unfold p'. simpl. split; [lia|]. split; [|auto]. intros s m Hm. inversion Hm.
  - unfold p', newprio_of. simpl. fold (newprio_of k).
    set (p1 := match queue k (Q_mtx m) with [] => p | s :: _ => if p <? prio k s then prio k s else p end).
    destruct (IH p1 H) as (H1 & H2 & H3). fold (newprio_of k p1 ms). set (p2 := newprio_of k p1 ms) in *.
    assert (Hp1 : p <= p1 /\ (forall s, th_link (thr k s) = Q_mtx m -> prio k s <= p1) /\
                  (p1 = p \/ exists s, th_link (thr k s) = Q_mtx m /\ prio k s = p1)).
    { assert (Hin : forall s, s ∈ queue k (Q_mtx m) <-> th_link (thr k s) = Q_mtx m).
      { intros s. rewrite (lk_in k H). split; [tauto|]. intros E. split; [exact E|discriminate]. }
      pose proof (lk_sorted k H (Q_mtx m) I) as Hs. unfold p1. destruct (queue k (Q_mtx m)) as [|x l].
      - split; [lia|]. split; [|auto]. intros s Es. apply Hin in Es. inversion Es.
      - apply StronglySorted_cons in Hs as [Hs _]. rewrite Forall_forall in Hs. unfold by_prio in Hs.
        assert (Hx : forall s, th_link (thr k s) = Q_mtx m -> prio k s <= prio k x).
        { intros s Es. apply Hin, elem_of_cons in Es as [->|Es]; [lia|]. exact (Hs s Es). }
        destruct (Z.ltb_spec p (prio k x)); split_and!; [lia|exact Hx| |lia| |auto].
        + right. exists x. split; [|reflexivity]. apply Hin. left.
        + intros s Es. specialize (Hx s Es). lia. }
    destruct Hp1 as (G1 & G2 & G3). split; [lia|]. split.
    + intros s m' [->|Hm']%elem_of_cons Es; [specialize (G2 s Es); lia|exact (H2 s m' Hm' Es)].
    + destruct H3 as [E|(s & m' & Hm' & Es & E)].
      * rewrite E. destruct G3 as [G3|(s & Es & G3)]; [auto|right]. exists s, m. split; [left|auto].
      * right. exists s, m'. split; [right; exact Hm'|auto].
Qed.

(** ** The hand over *)

(** The running thread has dropped mutex [m], its last one, and has priority [p]. *)
Definition dropped (t : nat) (ms : list nat) (p : Z) (k : kernel) : kernel :=
  upd_thread t (fun th => th_with_prio p (th_with_mtxlist ms th)) k.

Lemma upd_ext t f g k : f (thr k t) = g (thr k t) -> upd_thread t f k = upd_thread t g k.
Proof. intros E. unfold upd_thread. rewrite E. reflexivity. Qed.

Lemma dropped_plain t ms k : upd_thread t (th_with_mtxlist ms) k = dropped t ms (prio k t) k.
Proof. apply upd_ext. unfold prio. destruct (thr k t); reflexivity. Qed.

Section hand_over.
Context (y d : option nat) (k : kernel) (m : nat) (ms : list nat) (p : Z).
Let t := k_current k.
Let k0 := dropped t ms p k.
Hypothesis (H : kinv None y d k) (Em : th_mtxlist (thr k t) = m :: ms) (Hc : th_cont (thr k t) = None).
Hypothesis (Np : new_prio y t ms p k).

Lemma dropped_thr s : thr k0 s = if decide (s = t) then th_with_prio p (th_with_mtxlist ms (thr k t)) else thr k s.
Proof. unfold k0, dropped. kg; reflexivity. Qed.

Lemma dropped_prio s : prio k0 s = if decide (s = t) then p else prio k s.
Proof. unfold prio. rewrite dropped_thr. case_decide; reflexivity. Qed.

Lemma dropped_link s : th_link (thr k0 s) = th_link (thr k s).
Proof. rewrite dropped_thr. case_decide; subst; reflexivity. Qed.

Lemma dropped_links : links_ok k0.
Proof.
  pose proof (current_link y d k H) as Hl. fold t in Hl.
  assert (Hp : NOPRIO < p).
  { pose proof (np_real _ _ _ _ _ Np). destruct (ki_lower _ _ _ _ H t) as [? _]. lia. }
  apply (links_prio k k0 t); [rewrite Hl; simpl; tauto|rewrite dropped_prio, decide_True; auto| |reflexivity|apply (ki_links _ _ _ _ H)].
  intros s. split; [apply dropped_link|]. intros Hne. rewrite dropped_thr, decide_False by exact Hne. reflexivity.
Qed.

Lemma dropped_thread_ok k1 s :
  thr k1 s = thr k0 s -> (forall r, k_refs k1 !! r = k_refs k !! r) -> queue k1 (Q_msg s) = queue k (Q_msg s) ->
  (forall r, th_state (thr k r) = CH_STATE_FINAL -> thr k1 r = thr k0 r) -> thread_ok d k1 s.
Proof.
  intros Es Er Eq Hd. pose proof (ki_thr _ _ _ _ H s ltac:(discriminate)) as T.
  destruct (decide (s = t)) as [->|Hne].
  - destruct T as [T1 T2 T3 T4 T5 T6 T7]. rewrite Hc in *.
    split; rewrite ?Es, ?dropped_thr, ?decide_True by reflexivity; simpl; rewrite ?Hc; auto.
    + intros r. rewrite Er. auto.
    + intros Hs. destruct (T5 Hs) as (r & Hr & Hu). exists r. rewrite Er. auto.
  - apply (thread_frame d d k k1); [| |rewrite Eq; auto| |exact T].
    + rewrite Es, dropped_thr, decide_False by exact Hne. apply same_thread_refl.
    + intros r. rewrite Er. reflexivity.
    + intros r [?|Hr]; [auto|right]. revert Hr. apply dead_frame. intros r' Hr'. rewrite (Hd r' Hr'), dropped_thr.
      case_decide; [|reflexivity]. subst. unfold t in Hr'. rewrite (current_state y d k H) in Hr'. discriminate.
Qed.

Lemma dropped_own m' s : m' <> m -> owner k m' = Some s <-> m' ∈ th_mtxlist (thr k0 s).
Proof.
  intros Hm. rewrite (ow_list k (ki_own _ _ _ _ H)), dropped_thr. destruct (decide (s = t)) as [->|]; [|reflexivity].
  simpl. rewrite Em, elem_of_cons. intuition congruence.
Qed.

Lemma dropped_gone s : m ∉ th_mtxlist (thr k0 s).
Proof.
  pose proof (ki_own _ _ _ _ H) as [O1 O2 O3]. assert (Ho : owner k m = Some t) by (apply O1; rewrite Em; left).
  rewrite dropped_thr. destruct (decide (s = t)) as [->|Hne]; simpl.
  - specialize (O2 t). rewrite Em in O2. apply NoDup_cons in O2. apply O2.
  - intros E. apply O1 in E. congruence.
Qed.

Lemma dropped_nodup s : NoDup (th_mtxlist (thr k0 s)).
Proof.
  pose proof (ow_nodup k (ki_own _ _ _ _ H) s) as O2. rewrite dropped_thr. destruct (decide (s = t)) as [->|]; [|exact O2].
  simpl. rewrite Em in O2. apply NoDup_cons in O2. apply O2.
Qed.

Lemma owned_by_current m' : owner k m' = Some t -> m' <> m -> m' ∈ ms.
Proof. intros Ho Hm. apply (ow_list k (ki_own _ _ _ _ H)) in Ho. rewrite Em in Ho. apply elem_of_cons in Ho. tauto. Qed.

(** The priorities are right as long as the waiting threads of the other mutexes
    wait for the same owners. *)
Lemma dropped_lower k1 :
  (forall u, thr k1 u = thr k0 u \/ prio k1 u = prio k0 u /\ th_realprio (thr k1 u) = th_realprio (thr k0 u)) ->
  forall u, NOPRIO < th_realprio (thr k1 u) <= prio k1 u /\
    forall s m', m' <> m -> th_link (thr k s) = Q_mtx m' -> owner k m' = Some u -> prio k1 s <= prio k1 u.
Proof.
  intros Ek u.
  assert (Ep : forall u, prio k1 u = prio k0 u).
  { intros v. destruct (Ek v) as [E|[E _]]; [unfold prio; rewrite E; reflexivity|exact E]. }
  assert (Er : th_realprio (thr k1 u) = th_realprio (thr k u)).
  { assert (E : th_realprio (thr k0 u) = th_realprio (thr k u)) by (rewrite dropped_thr; case_decide; subst; reflexivity).
    rewrite <- E. destruct (Ek u) as [->|[_ ->]]; reflexivity. }
  rewrite Er, !Ep, dropped_prio. destruct (ki_lower _ _ _ _ H u) as [L1 L2]. split.
  - case_decide; [subst u; split; [lia|exact (np_real _ _ _ _ _ Np)]|exact L1].
  - intros s m' Hm Hl Ho. rewrite Ep, dropped_prio.
    assert (Hs : s <> t) by (intros ->; unfold t in Hl; rewrite (current_link y d k H) in Hl; discriminate).
    rewrite decide_False by exact Hs. case_decide; [subst u|apply L2; exists m'; auto].
    apply (np_lower _ _ _ _ _ Np s m'); [apply owned_by_current; assumption|exact Hl].
Qed.

Lemma dropped_tight k1 :
  (forall u, prio k1 u = prio k0 u) -> (forall u, th_realprio (thr k1 u) = th_realprio (thr k0 u)) ->
  (forall s u m', m' <> m -> th_link (thr k s) = Q_mtx m' -> owner k m' = Some u -> blocks k1 s u) ->
  forall u, y <> Some u -> pi_tight k1 u.
Proof.
  intros Ep Er Eb u Hy. unfold pi_tight. rewrite Ep, Er, dropped_prio.
  assert (Hs : forall s m', th_link (thr k s) = Q_mtx m' -> prio k1 s = prio k s).
  { intros s m' Hl. rewrite Ep, dropped_prio, decide_False; [reflexivity|]. intros ->. unfold t in Hl.
    rewrite (current_link y d k H) in Hl. discriminate. }
  assert (Ho : owner k m = Some t) by (apply (ow_list k (ki_own _ _ _ _ H)); rewrite Em; left).
  destruct (decide (u = t)) as [->|Hne].
  - rewrite dropped_thr, decide_True by reflexivity. destruct (np_tight _ _ _ _ _ Np) as [?|[E|(s & m' & Hm & Hl & E)]];
      [contradiction|left; exact E|right]. exists s. rewrite (Hs s m' Hl). split; [|exact E].
    apply (Eb s t m'); [|exact Hl|apply (ow_list k (ki_own _ _ _ _ H)); rewrite Em; right; exact Hm].
    intros ->. pose proof (dropped_gone t) as G. rewrite dropped_thr, decide_True in G by reflexivity. exact (G Hm).
  - rewrite dropped_thr, decide_False by exact Hne. destruct (ki_tight _ _ _ _ H u Hy) as [E|(s & (m' & Hl & Hm) & E)]; [auto|right].
    exists s. rewrite (Hs s m' Hl). split; [|exact E]. apply (Eb s u m'); [|exact Hl|exact Hm]. intros ->. congruence.
Qed.

(** Nobody waits: the mutex is free. *)
Lemma freed_inv : queue k (Q_mtx m) = [] -> kinv None y d (set_owner m None k0).
Proof.
  intros Eq. set (k1 := set_owner m None k0).
  assert (Hl : forall s m', th_link (thr k s) = Q_mtx m' -> m' <> m).
  { intros s m' E ->. assert (Hin : s ∈ queue k (Q_mtx m)) by (apply (lk_in k (ki_links _ _ _ _ H)); split; [exact E|discriminate]).
    rewrite Eq in Hin. inversion Hin. }
  assert (Eo : forall m', owner k1 m' = if decide (m' = m) then None else owner k m') by (intros m'; unfold k1; kg; reflexivity).
  split.
  - refine (links_ext k0 k1 _ _ dropped_links); [intros s; split|]; reflexivity.
  - split; [| |].
    + intros m' s. rewrite Eo. change (thr k1 s) with (thr k0 s). case_decide; [|apply dropped_own; assumption].
      subst. pose proof (dropped_gone s). split; [discriminate|contradiction].
    + intros s. change (thr k1 s) with (thr k0 s). apply dropped_nodup.
    + intros s m'. change (thr k1 s) with (thr k0 s). rewrite dropped_link, Eo. intros E. rewrite decide_False by exact (Hl s m' E).
      exact (ow_waited k (ki_own _ _ _ _ H) s m' E).
  - intros u. destruct (dropped_lower k1 ltac:(intros v; left; reflexivity) u) as [L1 L2]. split; [exact L1|].
    intros s (m' & E & Ho). change (thr k1 s) with (thr k0 s) in E. rewrite dropped_link in E. rewrite Eo in Ho.
    rewrite decide_False in Ho by exact (Hl s m' E). exact (L2 s m' (Hl s m' E) E Ho).
  - apply (dropped_tight k1); try reflexivity. intros s u m' Hm E Ho. exists m'. change (thr k1 s) with (thr k0 s).
    rewrite dropped_link, Eo, decide_False by exact Hm. auto.
  - intros s _. change (thr k1 s) with (thr k0 s). change (k_current k1) with (k_current k).
    rewrite <- (ki_cur _ _ _ _ H s) by discriminate. rewrite dropped_thr. case_decide; subst; reflexivity.
  - change (thr k1 ?s) with (thr k0 s). rewrite dropped_thr. case_decide as E; [rewrite <- E|]; exact (ki_idle _ _ _ _ H).
  - exact (ki_src _ _ _ _ H).
  - intros s _. apply dropped_thread_ok; reflexivity.
Qed.

(** The first waiting thread becomes the owner. *)
Definition handed (tp : nat) (l : list nat) : kernel := mtx_give m tp (taken tp (Q_mtx m) l k0).

Lemma handed_thr tp l s : tp <> t ->
  thr (handed tp l) s =
    if decide (s = tp) then th_with_mtxlist (m :: th_mtxlist (thr k tp)) (th_with_link Q_none (thr k tp)) else thr k0 s.
Proof. intros Hne. unfold handed, mtx_give, taken. kg; [|reflexivity]. rewrite dropped_thr, decide_False by exact Hne. reflexivity. Qed.

Lemma handed_inv tp l :
  queue k (Q_mtx m) = tp :: l ->
  kinv (Some tp) y d (handed tp l) /\ tp <> t /\ th_state (thr k tp) = CH_STATE_WTMTX /\
  wakeable d (handed tp l) tp.
Proof.
  intros Eq. set (k1 := handed tp l).
  pose proof (ki_links _ _ _ _ H) as Hlk.
  assert (Hin : forall s, s ∈ tp :: l <-> th_link (thr k s) = Q_mtx m).
  { intros s. rewrite <- Eq, (lk_in k Hlk). split; [tauto|]. intros E. split; [exact E|discriminate]. }
  assert (Htp : th_link (thr k tp) = Q_mtx m) by (apply Hin; left).
  assert (Hne : tp <> t) by (intros ->; unfold t in Htp; rewrite (current_link y d k H) in Htp; discriminate).
  pose proof (ki_thr _ _ _ _ H tp ltac:(discriminate)) as T.
  pose proof (link_state _ _ _ (to_link _ _ _ T)) as Hst. rewrite Htp in Hst. destruct Hst as [Hst Hu].
  assert (Ek : forall s, thr k1 s = if decide (s = tp) then th_with_mtxlist (m :: th_mtxlist (thr k tp)) (th_with_link Q_none (thr k tp))
                                 else thr k0 s) by (intros s; apply handed_thr; exact Hne).
  assert (E0 : thr k0 tp = thr k tp) by (rewrite dropped_thr, decide_False by exact Hne; reflexivity).
  assert (Ep : forall s, prio k1 s = prio k0 s /\ th_realprio (thr k1 s) = th_realprio (thr k0 s)).
  { intros s. unfold prio. rewrite Ek. case_decide; [subst; rewrite E0|]; split; reflexivity. }
  assert (Ho : owner k m = Some t) by (apply (ow_list k (ki_own _ _ _ _ H)); rewrite Em; left).
  assert (Eo : forall m', owner k1 m' = if decide (m' = m) then Some tp else owner k m').
  { intros m'. unfold k1, handed, mtx_give, taken. kg; reflexivity. }
  assert (El : forall s, s <> tp -> th_link (thr k1 s) = th_link (thr k s)).
  { intros s Hs. rewrite Ek, decide_False by exact Hs. apply dropped_link. }
  assert (El' : th_link (thr k1 tp) = Q_none) by (rewrite Ek, decide_True; reflexivity).
  pose proof (fifo_remove_ok (Q_mtx m) tp l k0 dropped_links Eq ltac:(discriminate)) as (_ & _ & Hlk').
  split; [|split; [exact Hne|split; [exact Hst|]]].
  - split.
    + refine (links_ext _ k1 _ _ Hlk'); [|reflexivity]. intros s. unfold k1, handed, mtx_give, taken. kg; auto.
    + split.
      * intros m' s. rewrite Eo, Ek. destruct (decide (m' = m)) as [->|Hm], (decide (s = tp)) as [->|Hs].
        -- split; [left|reflexivity].
        -- pose proof (dropped_gone s). split; [congruence|contradiction].
        -- simpl. rewrite elem_of_cons. rewrite <- E0, <- dropped_own by exact Hm. intuition congruence.
        -- apply dropped_own. exact Hm.
      * intros s. rewrite Ek. case_decide; [|apply dropped_nodup]. simpl. apply NoDup_cons. rewrite <- E0.
        split; [apply dropped_gone|apply dropped_nodup].
      * intros s m' E. rewrite Eo. case_decide; [eauto|]. destruct (decide (s = tp)) as [->|Hs]; [congruence|].
        rewrite El in E by exact Hs. exact (ow_waited k (ki_own _ _ _ _ H) s m' E).
    + intros u. destruct (dropped_lower k1 ltac:(intros v; right; apply Ep) u) as [L1 L2]. split; [exact L1|].
      intros s (m' & E & Hm). destruct (decide (s = tp)) as [->|Hs]; [congruence|]. rewrite El in E by exact Hs.
      rewrite Eo in Hm. destruct (decide (m' = m)) as [->|Hmm]; [|exact (L2 s m' Hmm E Hm)].
      injection Hm as <-. destruct (Ep s) as [-> _], (Ep tp) as [-> _]. rewrite !dropped_prio.
      rewrite (decide_False (P := tp = t)) by exact Hne.
      assert (Hst' : s <> t) by (intros ->; unfold t in E; rewrite (current_link y d k H) in E; discriminate).
      rewrite decide_False by exact Hst'. pose proof (lk_sorted k Hlk (Q_mtx m) I) as Hso. rewrite Eq in Hso.
      apply StronglySorted_cons in Hso as [Hso _]. rewrite Forall_forall in Hso. apply Hso.
      apply Hin, elem_of_cons in E. tauto.
    + apply (dropped_tight k1); [intros u; apply Ep|intros u; apply Ep|]. intros s u m' Hm E Hm'. exists m'. rewrite Eo, decide_False by exact Hm.
      split; [|exact Hm']. rewrite El; [exact E|]. intros ->. congruence.
    + intros s Hs. assert (Hs' : s <> tp) by congruence. change (k_current k1) with (k_current k). rewrite Ek, decide_False by exact Hs'.
      rewrite <- (ki_cur _ _ _ _ H s) by discriminate. rewrite dropped_thr. case_decide; subst; reflexivity.
    + rewrite Ek. destruct (ki_idle _ _ _ _ H) as [Hi1 Hi2]. case_decide as E; [subst tp; split; [exact Hi1|simpl; congruence]|].
      rewrite dropped_thr. case_decide as E'; [rewrite <- E'|]; auto.
    + exact (ki_src _ _ _ _ H).
    + intros s Hs. assert (Hs' : s <> tp) by congruence. apply dropped_thread_ok.
      * rewrite Ek, decide_False by exact Hs'. reflexivity.
      * reflexivity.
      * unfold k1, handed, mtx_give, taken. kg; reflexivity.
      * intros r Hr. rewrite Ek, decide_False; [reflexivity|]. congruence.
  - pose proof (to_cont _ _ _ T) as TC. pose proof (to_timer _ _ _ T) as TT.
    assert (Hrg : th_reg (thr k tp) = true) by (apply (registered_ok d k tp T); rewrite Hst; discriminate).
    split; [exact El'| | | |rewrite Ek, decide_True by reflexivity; exact Hrg].
    + rewrite Ek, decide_True by reflexivity. simpl. destruct (th_cont (thr k tp)) as [c|]; [|exact I].
      destruct TC as [[[Ha|Ha] _]|TC]; [congruence|congruence|]. rewrite Hst, Htp in TC.
      destruct c as [| | | | | |[]| |]; simpl in TC; try (exfalso; intuition discriminate).
      destruct TC as [_ TC]. injection TC as <-. simpl. rewrite Ek, decide_True; reflexivity.
    + rewrite Ek, decide_True by reflexivity. exact TT.
    + apply (no_ref d k tp T). rewrite Hst. discriminate.
Qed.
End hand_over.

Lemma hand_over_ok y d k m ms p :
  let t := k_current k in
  kinv None y d k -> th_mtxlist (thr k t) = m :: ms -> th_cont (thr k t) = None -> new_prio y t ms p k ->
  exists k', mtx_hand_over m (dropped t ms p k) = Some k' /\ kinv None y d k' /\ k_current k' = t /\
    thr k' t = th_with_prio p (th_with_mtxlist ms (thr k t)) /\
    (chMtxQueueNotEmptyS m k = false -> ktop k -> prio k t = p -> ktop k').
Proof.
  cbv zeta. intros H Em Hc Np. set (k0 := dropped (k_current k) ms p k).
  assert (Et : thr k0 (k_current k) = th_with_prio p (th_with_mtxlist ms (thr k (k_current k)))) by (unfold k0; rewrite dropped_thr, decide_True; reflexivity).
  unfold mtx_hand_over, chMtxQueueNotEmptyS. change (queue k0) with (queue k). destruct (queue k (Q_mtx m)) as [|tp l] eqn:Eq.
  - eexists. split; [reflexivity|]. split; [exact (freed_inv y d k m ms p H Em Hc Np Eq)|]. split; [reflexivity|]. split; [exact Et|].
    intros _ Ht Hp s Hs. change (prio (set_owner m None k0)) with (prio k0). unfold k0. rewrite !dropped_prio.
    change (k_current (set_owner m None _)) with (k_current k). rewrite (decide_True (P := k_current k = k_current k)) by reflexivity.
    case_decide; [lia|]. rewrite <- Hp. apply Ht. exact Hs.
  - destruct (handed_inv y d k m ms p H Em Hc Np tp l Eq) as (H1 & Hne & Hst & W). 
    destruct (fifo_remove_ok (Q_mtx m) tp l k0 (dropped_links y d k ms p H Np) Eq ltac:(discriminate)) as (E & _ & _).
    rewrite E. cbn [mbind option_bind]. fold (taken tp (Q_mtx m) l k0). change (mtx_give m tp (taken tp (Q_mtx m) l k0)) with (handed k m ms p tp l).
    destruct (ready_behind_inv y d (handed k m ms p tp l) tp) as (l' & E' & _ & H'); [exact H1|exact (not_eq_sym Hne)| |exact W|].
    + apply can_ready_spec. rewrite handed_thr, decide_True by (reflexivity || exact Hne). simpl. rewrite Hst. split; discriminate.
    + eexists. split; [exact E'|]. split; [exact H'|]. split; [reflexivity|]. split; [|discriminate].
      unfold readied. kg. rewrite handed_thr, decide_False by (exact Hne || exact (not_eq_sym Hne)). exact Et.
Qed.

(** ** Unlocking *)

Lemma unlock_ok k m :
  kinv None None None k -> th_cont (thr k (k_current k)) = None -> head (th_mtxlist (thr k (k_current k))) = Some m ->
  exists k', chMtxUnlockS m k = Some k' /\ kinv None None None k' /\ k_current k' = k_current k /\
    (exists p ms, thr k' (k_current k) = th_with_prio p (th_with_mtxlist ms (thr k (k_current k)))) /\
    (chMtxQueueNotEmptyS m k = false -> ktop k -> ktop k').
Proof.
  intros H Hc Hm. unfold chMtxUnlockS. set (t := k_current k) in *.
  destruct (th_mtxlist (thr k t)) as [|m' ms] eqn:Em; [discriminate|]. injection Hm as ->.
  assert (Ho : owner k m = Some t) by (apply (ow_list k (ki_own _ _ _ _ H)); rewrite Em; left).
  rewrite bool_decide_true by exact Ho. change (check true) with (Some tt). cbn [mbind option_bind].
  rewrite Nat.eqb_refl. change (check true) with (Some tt). cbn [mbind option_bind].
  set (k1 := upd_thread t (th_with_mtxlist ms) k). change (chMtxQueueNotEmptyS m k1) with (chMtxQueueNotEmptyS m k).
  assert (E1 : forall s, prio k1 s = prio k s /\ th_link (thr k1 s) = th_link (thr k s) /\ th_realprio (thr k1 s) = th_realprio (thr k s)).
  { intros s. unfold k1. kg; auto. }
  assert (Hlk : links_ok k1).
  { refine (links_ext k k1 _ _ (ki_links _ _ _ _ H)); [|reflexivity]. intros s. split; apply E1. }
  set (p' := newprio_of k1 (th_realprio (thr k1 t)) ms).
  set (p := if chMtxQueueNotEmptyS m k then p' else prio k t).
  assert (Ek : (if chMtxQueueNotEmptyS m k then upd_thread t (th_with_prio p') k1 else k1) = dropped t ms p k).
  { unfold p. destruct (chMtxQueueNotEmptyS m k); [apply upd_upd|apply dropped_plain]. }
  rewrite Ek.
  assert (Np : new_prio None t ms p k).
  { unfold p. destruct (chMtxQueueNotEmptyS m k) eqn:Eq.
    - destruct (newprio_of_ok k1 ms (th_realprio (thr k1 t)) Hlk) as (P1 & P2 & P3). fold p' in P1, P2, P3.
      destruct (E1 t) as (_ & _ & Er). rewrite Er in *. split; [exact P1| |right].
      + intros s m' Hm Hl. destruct (E1 s) as (<- & E2 & _). rewrite <- E2 in Hl. exact (P2 s m' Hm Hl).
      + destruct P3 as [P3|(s & m' & Hm & Hl & E)]; [auto|right]. destruct (E1 s) as (E3 & E2 & _). exists s, m'. rewrite <- E2, <- E3. auto.
    - destruct (ki_lower _ _ _ _ H t) as [[_ L1] L2]. split; [exact L1| |right].
      + intros s m' Hm Hl. apply L2. exists m'. split; [exact Hl|]. apply (ow_list k (ki_own _ _ _ _ H)). rewrite Em. right. exact Hm.
      + destruct (ki_tight _ _ _ _ H t ltac:(discriminate)) as [E|(s & (m' & Hl & Hm) & E)]; [auto|right].
        exists s, m'. split; [|auto]. apply (ow_list k (ki_own _ _ _ _ H)) in Hm. rewrite Em in Hm. apply elem_of_cons in Hm as [->|Hm]; [|exact Hm].
        unfold chMtxQueueNotEmptyS in Eq. assert (Hin : s ∈ queue k (Q_mtx m)); [|destruct (queue k (Q_mtx m)); [inversion Hin|discriminate]].
        apply (lk_in k (ki_links _ _ _ _ H)). split; [exact Hl|discriminate]. }
  destruct (hand_over_ok None None k m ms p H Em Hc Np) as (k' & E & H' & Ec & Et & Ht). fold t in E, Ec, Et, Ht.
  exists k'. split; [exact E|]. split; [exact H'|]. split; [exact Ec|]. split; [eauto|]. intros Hq Htop. apply Ht; auto.
  unfold p. rewrite Hq. reflexivity.
Qed.

Lemma unlock_good m k : calling k -> call_ok (KUnlock m) k = true -> good (chMtxUnlock m k).
Proof.
  intros [H Htop Hc Hi] Hm. apply bool_decide_eq_true in Hm. unfold chMtxUnlock.
  destruct (unlock_ok k m H Hc Hm) as (k' & E & H' & Ec & _ & Ht). rewrite E. cbn [mbind option_bind].
  destruct (chMtxQueueNotEmptyS m k); [|apply good_some; auto].
  destruct (reschedule_inv None None k' H') as (k2 & E2 & H2 & Ht2 & _). rewrite E2. apply good_some; assumption.
Qed.

Lemma unlock_all_ok d t ms : forall k,
  k_current k = t -> kinv None (Some t) d k -> th_mtxlist (thr k t) = ms -> th_cont (thr k t) = None ->
  exists k', unlock_all t ms k = Some k' /\ kinv None (Some t) d k' /\ k_current k' = t /\
    thr k' t = th_with_mtxlist [] (thr k t).
Proof.
  induction ms as [|m ms IH]; intros k Ec H Em Hc.
  - exists k. split_and!; auto. rewrite <- Em. destruct (thr k t); reflexivity.
  - cbn [unlock_all]. rewrite dropped_plain. subst t.
    destruct (hand_over_ok (Some (k_current k)) d k m ms (prio k (k_current k)) H Em Hc) as (k1 & E1 & H1 & Ec1 & Et1 & _).
    { destruct (ki_lower _ _ _ _ H (k_current k)) as [[_ L1] L2]. split; [exact L1| |auto]. intros s m' Hm Hl. apply L2. exists m'.
      split; [exact Hl|]. apply (ow_list k (ki_own _ _ _ _ H)). rewrite Em. right. exact Hm. }
    rewrite E1. cbn [mbind option_bind].
    assert (Et : thr k1 (k_current k) = th_with_mtxlist ms (thr k (k_current k))).
    { rewrite Et1. unfold prio. destruct (thr k (k_current k)); reflexivity. }
    destruct (IH k1 Ec1 H1) as (k2 & E2 & H2 & Ec2 & Et2); [rewrite Et; reflexivity|rewrite Et; exact Hc|].
    exists k2. split; [exact E2|]. split; [exact H2|]. split; [exact Ec2|]. rewrite Et2, Et. reflexivity.
Qed.

(** ** Setting the priority *)

(** The running thread gets base priority [r] and priority [p]. *)
Lemma reprio_inv y d k r p :
  let t := k_current k in
  let f := fun th => th_with_realprio r (th_with_prio p th) in
  kinv None y d k -> (y = None \/ y = Some t) -> NOPRIO < r <= p -> (forall s, blocks k s t -> prio k s <= p) ->
  (p = r \/ exists s, blocks k s t /\ prio k s = p) -> kinv None None d (upd_thread t f k).
Proof.
  intros t f H Hy Hp Hb Htight. set (k1 := upd_thread t f k). pose proof (current_link y d k H) as Hl. fold t in Hl.
  assert (Et : forall s, thr k1 s = if decide (s = t) then f (thr k t) else thr k s) by (intros s; unfold k1; kg; reflexivity).
  assert (Hs : forall s, same_thread (thr k s) (thr k1 s)) by (intros s; rewrite Et; case_decide; subst; split_and!; reflexivity).
  assert (Hbl : same_blocks k k1) by (split; [|reflexivity]; intros s m; destruct (Hs s) as (_ & _ & -> & _); reflexivity).
  assert (Hns : forall s u, blocks k s u -> s <> t) by (intros s u (m & E & _) ->; congruence).
  assert (Ep : forall s, prio k1 s = if decide (s = t) then p else prio k s) by (intros s; unfold prio; rewrite Et; case_decide; reflexivity).
  pose proof H as [Hlk Hown Hlo Hti Hcur Hidle Hsrc Hthr]. split.
  - apply (links_prio k k1 t); [rewrite Hl; simpl; tauto|rewrite Ep, decide_True by reflexivity; lia| |reflexivity|exact Hlk].
    intros s. split; [apply (Hs s)|]. intros Hne. rewrite Et, decide_False by exact Hne. reflexivity.
  - refine (own_frame k k1 Hbl _ Hown). intros s. apply (Hs s).
  - intros u. rewrite Ep, Et. destruct (Hlo u) as [L1 L2]. split; [case_decide; [exact Hp|exact L1]|].
    intros s Hsu. apply (blocks_frame k k1 s u Hbl) in Hsu. rewrite Ep, decide_False by exact (Hns s u Hsu).
    case_decide; [subst; apply Hb; exact Hsu|exact (L2 s Hsu)].
  - intros u _. unfold pi_tight. rewrite Ep, Et.
    assert (Hex : forall q, (exists s, blocks k s u /\ prio k s = q) -> exists s, blocks k1 s u /\ prio k1 s = q).
    { intros q (s & Hsu & E). exists s. rewrite Ep, decide_False by exact (Hns s u Hsu). split; [|exact E].
      apply (blocks_frame k k1 s u Hbl). exact Hsu. }
    destruct (decide (u = t)) as [->|Hne]; [destruct Htight; auto|]. destruct (Hti u); [|auto|auto]. destruct Hy; congruence.
  - intros s _. destruct (Hs s) as (-> & _). apply Hcur. discriminate.
  - destruct (Hs chSysGetIdleThreadX) as (-> & _ & _ & _ & _ & _ & -> & _). exact Hidle.
  - exact Hsrc.
  - intros s _. apply (thread_frame d d k k1); [apply Hs|reflexivity|auto| |apply Hthr; discriminate].
    intros r' [?|[H1 H2]]; [auto|right]. unfold dead. destruct (Hs r') as (-> & -> & _). auto.
Qed.

Lemma good_reschedule k r : kinv None None None k -> good (k ← chSchRescheduleS k; Some (k, r)).
Proof. intros H. apply good_bind. destruct (reschedule_inv None None k H) as (k' & E & H' & Ht & _). eauto. Qed.

Lemma unlock_all_good k : calling k -> good (chMtxUnlockAll k).
Proof.
  intros [H Htop Hc Hi]. unfold chMtxUnlockAll, chMtxUnlockAllS. set (t := k_current k) in *.
  destruct (th_mtxlist (thr k t)) as [|m ms] eqn:Em; [apply good_some; assumption|].
  assert (H0 : kinv None (Some t) None k) by (destruct H; split; auto).
  destruct (unlock_all_ok None t (m :: ms) k eq_refl H0 Em Hc) as (k1 & E1 & H1 & Ec & Et).
  rewrite E1. cbn [mbind option_bind]. apply good_reschedule. subst t. rewrite <- Ec in H1, Et |- *.
  set (t := k_current k1) in *.
  assert (Hb : forall s, ~ blocks k1 s t).
  { intros s (m' & _ & Ho). apply (ow_list k1 (ki_own _ _ _ _ H1)) in Ho. rewrite Et in Ho. inversion Ho. }
  pose proof (reprio_inv (Some t) None k1 (th_realprio (thr k1 t)) (th_realprio (thr k1 t)) H1) as R. cbv zeta in R. fold t in R.
  erewrite upd_ext; [apply R; auto|].
  - destruct (ki_lower _ _ _ _ H1 t) as [[? _] _]. lia.
  - intros s Hs. destruct (Hb s Hs).
  - destruct (thr k1 t); reflexivity.
Qed.

Lemma set_priority_good p k : calling k -> call_ok (KSetPriority p) k = true -> good (chThdSetPriority p k).
Proof.
  intros [H Htop Hc Hi] Hok. simpl in Hok. apply andb_prop in Hok as [Hok Hw]. apply andb_prop in Hok as [Hp1 Hp2].
  apply Z.ltb_lt in Hp1. unfold chThdSetPriority. rewrite Hp2. change (check true) with (Some tt). cbn [mbind option_bind].
  set (t := k_current k) in *. apply good_reschedule.
  destruct (ki_lower _ _ _ _ H t) as [[L0 L1] L2].
  set (c := (prio k t =? th_realprio (thr k t)) || (prio k t <? p)).
  pose proof (reprio_inv None None k p (if c then p else prio k t) H) as R. cbv zeta in R. fold t in R.
  assert (Ek : upd_thread t (th_with_realprio p) (if c then upd_thread t (th_with_prio p) k else k) =
    upd_thread t (fun th => th_with_realprio p (th_with_prio (if c then p else prio k t) th)) k).
  { destruct c; [apply upd_upd|]. apply upd_ext. unfold prio. destruct (thr k t); reflexivity. }
  rewrite Ek. apply R; [auto|..]; unfold c in *; clear R Ek c.
  - destruct (Z.eqb_spec (prio k t) (th_realprio (thr k t))), (Z.ltb_spec (prio k t) p); simpl; lia.
  - intros s Hs. destruct (Z.eqb_spec (prio k t) (th_realprio (thr k t))); simpl.
    + rewrite andb_true_r in Hw. apply negb_true_iff in Hw. destruct Hs as (m & Hl & Ho).
      destruct (Z.le_gt_cases (prio k s) p) as [|Hgt]; [assumption|]. exfalso. assert (waiter_above k t p = true); [|congruence].
      apply existsb_exists. exists m. split; [apply list_elem_of_In, (ow_list k (ki_own _ _ _ _ H)); exact Ho|].
      apply existsb_exists. exists s. split; [apply list_elem_of_In, (lk_in k (ki_links _ _ _ _ H))|apply Z.ltb_lt; lia].
      split; [exact Hl|discriminate].
    + specialize (L2 s Hs). destruct (Z.ltb_spec (prio k t) p); lia.
  - destruct (Z.eqb_spec (prio k t) (th_realprio (thr k t))) as [|Hne]; [auto|]. simpl.
    destruct (Z.ltb_spec (prio k t) p); [auto|right]. destruct (ki_tight _ _ _ _ H t ltac:(discriminate)); [contradiction|assumption].
Qed.
