(* ===== verification/KOps.v ===== *)
(** * Condition variables and thread control keep the invariant *)

From stdpp Require Import gmap sorting.
From S2P Require Import Prelude CInt CLib Threads Sched Mutexes Events Messages Kernel KInv KSched KMutex KLock KUnlock.
#[local] Open Scope Z_scope.

(** An operation for interrupt handlers keeps the invariant and switches no thread. *)
Definition fine (k : kernel) (o : option kernel) : Prop :=
  exists k', o = Some k' /\ kinv None None None k' /\ k_current k' = k_current k.

Lemma fine_some k : kinv None None None k -> fine k (Some k).
Proof. intros H. exists k. auto. Qed.

Lemma fine_trans k k1 o : k_current k1 = k_current k -> fine k1 o -> fine k o.
Proof. intros E (k' & Eo & H & Ec). exists k'. split_and!; auto. congruence. Qed.

Lemma fine_good k o r : fine k o -> good (k1 ← o; k2 ← chSchRescheduleS k1; Some (k2, r)).
Proof. intros (k1 & -> & H & _). cbn [mbind option_bind]. apply good_reschedule. exact H. Qed.

(** ** Condition variables *)

Lemma ready_behind_eq t k :
  can_ready t k = true -> th_link (thr k t) = Q_none -> NOPRIO < prio k t ->
  sch_ready_behind t k = Some (readied t (insert_behind (prio k) (prio k t) t (queue k Q_ready)) k).
Proof.
  intros Hr Hl Hp. unfold sch_ready_behind, ch_pqueue_insert_behind, link_in. rewrite Hr.
  change (check true) with (Some tt). cbn [mbind option_bind].
  assert (Ep : forall s, prio (set_state t CH_STATE_READY k) s = prio k s) by (intros s; kg; reflexivity).
  rewrite Ep, (proj2 (Z.ltb_lt NOPRIO (prio k t)) Hp). change (check true) with (Some tt). cbn [mbind option_bind].
  rewrite bool_decide_true by (kg; exact Hl). change (check true) with (Some tt). cbn [mbind option_bind].
  assert (E : forall l, insert_behind (prio (set_state t CH_STATE_READY k)) (prio k t) t l = insert_behind (prio k) (prio k t) t l).
  { induction l as [|x l IH]; [reflexivity|]. simpl. rewrite Ep, IH. reflexivity. }
  rewrite E. reflexivity.
Qed.

(** The first waiting thread of a condition variable. *)
Lemma cond_first d k c t l :
  kinv None None d k -> queue k (Q_cond c) = t :: l ->
  ch_queue_fifo_remove (Q_cond c) k = Some (taken t (Q_cond c) l k, t) /\
  kinv (Some t) None d (taken t (Q_cond c) l k) /\ k_current k <> t /\ can_ready t (taken t (Q_cond c) l k) = true /\
  th_state (thr k t) = CH_STATE_WTCOND /\
  (forall msg, wakeable d (upd_thread t (th_with_u (U_msg msg)) (taken t (Q_cond c) l k)) t).
Proof.
  intros H Eq. destruct (fifo_remove_ok (Q_cond c) t l k (ki_links _ _ _ _ H) Eq ltac:(discriminate)) as (E & Hl & Hlk).
  fold (taken t (Q_cond c) l k) in *. destruct (cond_taken None d k t c l H Hl Hlk) as (H1 & Hc & Hr & _ & Hs & W & _).
  split_and!; auto. revert Hs. unfold taken. kg. auto.
Qed.

Lemma taken_top t q l k : q <> Q_ready -> ktop k -> ktop (taken t q l k).
Proof.
  intros Hq Ht s Hs. assert (Ep : forall s, prio (taken t q l k) s = prio k s) by (intros u; unfold taken; kg; reflexivity).
  rewrite !Ep. apply Ht. revert Hs. unfold taken. kg. auto.
Qed.

Lemma cond_signal_good c k : calling k -> good (chCondSignal c k).
Proof.
  intros [H Htop Hc Hi]. unfold chCondSignal. destruct (queue k (Q_cond c)) as [|t l] eqn:Eq; [apply good_some; assumption|].
  destruct (cond_first None k c t l H Eq) as (E & H1 & Hne & Hr & Hs & W). rewrite E. cbn [mbind option_bind].
  apply good_bind. destruct (wakeup_inv None None (taken t (Q_cond c) l k) t MSG_OK H1 Hne Hr) as (k' & E' & H' & Ht' & _); eauto.
  - apply taken_top; [discriminate|exact Htop].
  - intros _. unfold taken. kg. congruence.
Qed.

Lemma cond_signalI_fine c k : kinv None None None k -> fine k (chCondSignalI c k).
Proof.
  intros H. unfold chCondSignalI. destruct (queue k (Q_cond c)) as [|t l] eqn:Eq; [apply fine_some; assumption|].
  destruct (cond_first None k c t l H Eq) as (E & H1 & Hne & Hr & Hs & W). rewrite E. cbn [mbind option_bind].
  destruct (ready_msg_inv None None (taken t (Q_cond c) l k) t MSG_OK H1 Hne Hr (W _)) as (_ & k' & E' & H' & Ec & _).
  - intros _. unfold taken. kg. congruence.
  - exists k'. auto.
Qed.

(** The message may be set after the thread has been made ready. *)
Lemma cond_broadcast_turn c t l k :
  kinv None None None k -> queue k (Q_cond c) = t :: l ->
  exists k1, chSchReadyI t (taken t (Q_cond c) l k) = Some k1 /\ k_current k1 = k_current k /\
    queue k1 (Q_cond c) = l /\ kinv None None None (upd_thread t (th_with_u (U_msg MSG_RESET)) k1).
Proof.
  intros H Eq. destruct (cond_first None k c t l H Eq) as (E & H1 & Hne & Hr & Hs & W).
  set (k0 := taken t (Q_cond c) l k) in *.
  assert (Hl : th_link (thr k0 t) = Q_none) by (unfold k0, taken; kg; reflexivity).
  assert (Hp : NOPRIO < prio k0 t) by apply (lk_pos k0 (ki_links _ _ _ _ H1)).
  destruct (ready_msg_inv None None k0 t MSG_RESET H1 Hne Hr (W _)) as (_ & k' & E' & H' & _ & _).
  { intros _. unfold k0, taken. kg. congruence. }
  set (ku := upd_thread t (th_with_u (U_msg MSG_RESET)) k0) in *.
  assert (Ep : forall s, prio ku s = prio k0 s) by (intros s; unfold ku; kg; reflexivity).
  rewrite (ready_behind_eq t ku) in E';
    [|apply can_ready_spec; apply can_ready_spec in Hr; unfold ku; kg; exact Hr|unfold ku; kg; exact Hl|rewrite Ep; exact Hp].
  apply (inj Some) in E'. subst k'. rewrite Ep in H'. change (queue ku Q_ready) with (queue k0 Q_ready) in H'.
  assert (Ei : forall p l, insert_behind (prio ku) p t l = insert_behind (prio k0) p t l).
  { intros p l'. induction l' as [|x l' IH]; [reflexivity|]. simpl. rewrite Ep, IH. reflexivity. }
  rewrite Ei in H'. unfold chSchReadyI. rewrite (ready_behind_eq t k0 Hr Hl Hp). set (l1 := insert_behind _ _ _ _) in *.
  eexists. split; [reflexivity|]. split; [reflexivity|]. split; [unfold readied, k0, taken; kg; reflexivity|].
  refine (kinv_ext _ _ _ _ _ _ H'). split; try reflexivity. intros s. unfold readied, ku. kg; reflexivity.
Qed.

Lemma cond_broadcast_ok c n : forall k,
  kinv None None None k -> length (queue k (Q_cond c)) = n -> fine k (cond_broadcast n c k).
Proof.
  induction n as [|n IH]; intros k H Hn; [apply fine_some; exact H|]. destruct (queue k (Q_cond c)) as [|t l] eqn:Eq; [discriminate|].
  injection Hn as Hn. cbn [cond_broadcast]. destruct (cond_first None k c t l H Eq) as (E & _). rewrite E. cbn [mbind option_bind].
  destruct (cond_broadcast_turn c t l k H Eq) as (k1 & E1 & Ec1 & Eq1 & H1). rewrite E1. cbn [mbind option_bind].
  apply (fine_trans k (upd_thread t (th_with_u (U_msg MSG_RESET)) k1)); [exact Ec1|]. apply IH; [exact H1|].
  change (queue (upd_thread t _ k1)) with (queue k1). congruence.
Qed.

Lemma cond_broadcastI_fine c k : kinv None None None k -> fine k (chCondBroadcastI c k).
Proof. intros H. apply cond_broadcast_ok; [exact H|reflexivity]. Qed.

Lemma cond_broadcast_good c k : calling k -> good (chCondBroadcast c k).
Proof. intros [H _ _ _]. apply (fine_good k), cond_broadcastI_fine, H. Qed.

(** The mutex is left and the thread queued. *)
Lemma cond_enqueue_ok c k :
  kinv None None None k -> th_cont (thr k (k_current k)) = None -> k_current k <> chSysGetIdleThreadX ->
  th_mtxlist (thr k (k_current k)) <> [] ->
  exists k' m, cond_enqueue c k = Some (k', m) /\ kinv (Some (k_current k')) None None k' /\
    (forall timed, sleepy CH_STATE_WTCOND (C_cond m timed) k') /\ th_timer (thr k' (k_current k')) = false.
Proof.
  intros H Hc Hi Hm. unfold cond_enqueue, chMtxGetNextMutexX.
  destruct (th_mtxlist (thr k (k_current k))) as [|m ms] eqn:Em; [contradiction|]. cbn [head mbind option_bind].
  destruct (unlock_ok k m H Hc) as (k1 & E1 & H1 & Ec & (p & ms' & Et) & _); [rewrite Em; reflexivity|].
  rewrite E1. cbn [mbind option_bind]. rewrite <- Ec in *. set (t := k_current k1) in *.
  pose proof (current_state None None k1 H1) as Hst. pose proof (current_link None None k1 H1) as Hl. fold t in Hst, Hl.
  assert (H2 : kinv (Some t) None None (upd_thread t (th_with_u (U_wtobjp c)) k1)) by (apply set_u_inv; [apply kinv_open|..]; assumption).
  set (k2 := upd_thread t (th_with_u (U_wtobjp c)) k1) in *.
  assert (E2 : thr k2 t = th_with_u (U_wtobjp c) (thr k1 t)) by (unfold k2; kg; reflexivity).
  destruct (insert_inv (Q_cond c) t k2 (ki_links _ _ _ _ H2)) as (l & E3 & _ & Hp & Hlk); [rewrite E2; exact Hl|discriminate|].
  rewrite E3. cbn [mbind option_bind].
  assert (H3 : kinv (Some t) None None (upd_thread t (th_with_link (Q_cond c)) (upd_queue (Q_cond c) l k2))).
  { apply enqueue_inv; [exact H2|rewrite E2; exact Hl|discriminate|exact Hp|exact Hlk]. }
  set (k3 := upd_thread t (th_with_link (Q_cond c)) _) in *.
  assert (E3t : thr k3 t = th_with_link (Q_cond c) (th_with_u (U_wtobjp c) (thr k1 t))) by (rewrite <- E2; unfold k3; kg; reflexivity).
  assert (Ec3 : k_current k3 = t) by reflexivity.
  eexists k3, m. split; [reflexivity|]. rewrite Ec3. split; [exact H3|]. split.
  - intros timed. split; rewrite ?Ec3, ?E3t; simpl; eauto; try discriminate; try (split; discriminate).
    + intros r Hr. destruct (current_ref None None k1 H1 r Hr).
    + unfold t. rewrite (current_reg None None k1 H1). discriminate.
  - rewrite E3t. simpl. apply (current_timer None None k1 H1). fold t. rewrite Et. exact Hc.
Qed.

Lemma sleep_good k s c :
  kinv (Some (k_current k)) None None k -> sleepy s c k -> th_timer (thr k (k_current k)) = false ->
  good (k ← chSchGoSleepS s c k; Some (k, None)).
Proof.
  intros H S Ht. apply good_bind. apply (sleep_ok None None None s c k H S); [congruence|discriminate].
Qed.

Lemma sleep_timeout_good k s timeout c :
  kinv (Some (k_current k)) None None k -> sleepy s c k -> timed_cont (Some c) -> timeout <> TIME_IMMEDIATE ->
  good (k ← chSchGoSleepTimeoutS s timeout c k; Some (k, None)).
Proof. intros H S Ht Hi. apply good_bind. exact (sleep_timeout_ok None None s timeout c k H S Ht Hi). Qed.

Lemma cond_wait_good c k : calling k -> call_ok (KCondWait c) k = true -> good (chCondWaitS c k).
Proof.
  intros [H Htop Hc Hi] Hok. simpl in Hok. apply negb_true_iff, bool_decide_eq_false in Hok. unfold chCondWaitS.
  destruct (cond_enqueue_ok c k H Hc Hi Hok) as (k1 & m & E & H1 & S & Ht). rewrite E. cbn [mbind option_bind].
  apply sleep_good; auto.
Qed.

Lemma cond_wait_timeout_good c timeout k :
  calling k -> call_ok (KCondWaitTimeout c timeout) k = true -> good (chCondWaitTimeoutS c timeout k).
Proof.
  intros [H Htop Hc Hi] Hok. simpl in Hok. apply andb_prop in Hok as [Hok Ht]. apply negb_true_iff, bool_decide_eq_false in Hok.
  unfold chCondWaitTimeoutS. rewrite Ht. change (check true) with (Some tt). cbn [mbind option_bind].
  destruct (cond_enqueue_ok c k H Hc Hi Hok) as (k1 & m & E & H1 & S & _). rewrite E. cbn [mbind option_bind].
  apply sleep_timeout_good; [exact H1|apply S|exact I|]. intros ->. discriminate.
Qed.

(** ** Thread control *)

Lemma calling_sleepy s c k :
  calling k -> s <> CH_STATE_CURRENT -> s <> CH_STATE_READY -> s <> CH_STATE_SUSPENDED -> s <> CH_STATE_FINAL ->
  state_link s Q_none (th_u (thr k (k_current k))) -> asleep c s Q_none (th_u (thr k (k_current k))) -> sleepy s c k.
Proof.
  intros [H Htop Hc Hi] H1 H2 H3 H4 HL HA.
  split; rewrite ?(current_link None None k H); auto; [apply (current_state None None k H)| |contradiction|contradiction|].
  - intros r Hr. destruct (current_ref None None k H r Hr).
  - rewrite (current_reg None None k H). discriminate.
Qed.

Lemma yield_good k : calling k -> good (chThdYield k).
Proof.
  intros [H Htop _ _]. apply good_bind. destruct (yield_inv None None k H Htop) as (k' & E & H' & Ht & _). eauto.
Qed.

Lemma sleep_call_good ticks k : calling k -> call_ok (KSleep ticks) k = true -> good (chThdSleepS ticks k).
Proof.
  intros C Hok. unfold chThdSleepS. simpl in Hok. rewrite Hok. change (check true) with (Some tt). cbn [mbind option_bind].
  apply sleep_timeout_good; [apply kinv_open, C| |exact I|intros ->; discriminate].
  apply calling_sleepy; try discriminate; [exact C|reflexivity|reflexivity].
Qed.

Lemma start_good t k : calling k -> call_ok (KStart t) k = true -> good (chThdStart t k).
Proof.
  intros [H Htop _ _] Hok. simpl in Hok. apply andb_prop in Hok as [_ Hst]. apply bool_decide_eq_true in Hst.
  unfold chThdStart. rewrite bool_decide_true by exact Hst. change (check true) with (Some tt). cbn [mbind option_bind].
  apply good_bind. pose proof (ki_thr _ _ _ _ H t ltac:(discriminate)) as T.
  pose proof (to_link _ _ _ T) as TL. rewrite Hst in TL. simpl in TL.
  assert (Hc : th_cont (thr k t) = None).
  { pose proof (to_cont _ _ _ T) as TC. destruct (th_cont (thr k t)) as [c|]; [|reflexivity]. rewrite Hst in TC.
    destruct TC as [[[|] _]|TC]; try discriminate. destruct c as [| | | | | |[]| |]; simpl in TC; intuition discriminate. }
  destruct (wakeup_inv None None k t MSG_OK) as (k' & E & H' & Ht' & _); eauto.
  - apply kinv_open, H.
  - intros E. rewrite <- E, (current_state None None k H) in Hst. discriminate.
  - apply can_ready_spec. rewrite Hst. split; discriminate.
  - split; kg; auto; [rewrite Hc; exact I|apply (to_timer _ _ _ T)| |].
    + apply (no_ref None k t T). rewrite Hst. discriminate.
    + apply (registered_ok None k t T). rewrite Hst. discriminate.
  - intros ->. apply (ki_idle _ _ _ _ H).
Qed.

Lemma ref_inv y d k t r :
  kinv (Some t) y d k -> k_refs k !! r = None -> kinv (Some t) y d (set_ref r (Some t) k).
Proof.
  intros H Hr. pose proof H as [Hlk Hown Hlo Hti Hcur Hidle Hsrc Hthr]. set (k1 := set_ref r (Some t) k).
  assert (Hb : same_blocks k k1) by (split; [intros s m|intros m]; reflexivity).
  assert (Hp : same_prios k k1) by (intros s; split; reflexivity).
  split; [| |exact (pi_lower_frame k k1 Hb Hp Hlo)| |exact Hcur|exact Hidle|exact Hsrc|].
  - refine (links_ext k k1 _ _ Hlk); [intros s; split|]; reflexivity.
  - refine (own_frame k k1 Hb _ Hown). reflexivity.
  - intros s Hy. exact (pi_tight_frame k k1 s Hb Hp (Hti s Hy)).
  - intros s Hs. apply (thread_frame d d k k1); [apply same_thread_refl| |auto|auto|apply Hthr; exact Hs].
    intros r'. unfold k1. rewrite refs_set_ref. case_decide; [|reflexivity]. subst. rewrite Hr. split; congruence.
Qed.

Lemma suspend_ok r k :
  calling k -> k_refs k !! r = None ->
  exists k', suspend_at r k = Some k' /\ kinv (Some (k_current k')) None None k' /\ sleepy CH_STATE_SUSPENDED C_suspend k' /\
    th_timer (thr k' (k_current k')) = false.
Proof.
  intros [H Htop Hc Hi] Hr. unfold suspend_at. rewrite bool_decide_true by exact Hr. change (check true) with (Some tt).
  cbn [mbind option_bind]. set (t := k_current k) in *. set (k1 := set_ref r (Some t) k).
  set (k2 := upd_thread t (th_with_u (U_wttrp r)) k1). assert (Ec : k_current k2 = t) by reflexivity.
  assert (Et : thr k2 t = th_with_u (U_wttrp r) (thr k t)) by (unfold k2, k1; kg; reflexivity).
  exists k2. split; [reflexivity|]. rewrite Ec. split; [|split].
  - apply set_u_inv; [apply ref_inv; [apply kinv_open, H|exact Hr]|exact (current_state None None k H)|exact Hi].
  - split; rewrite ?Ec, ?Et; cbn [th_state th_u th_link th_with_u state_link asleep is_msg]; try discriminate; auto.
    + exact (current_state None None k H).
    + exact (current_link None None k H).
    + intros r'. change (k_refs k2) with (k_refs k1). unfold k1. rewrite refs_set_ref. case_decide; [subst; auto|].
      intros Hr'. destruct (current_ref None None k H r' Hr').
    + intros _. exists r. change (k_refs k2) with (k_refs k1). unfold k1. rewrite refs_set_ref, decide_True by reflexivity. auto.
    + cbn [th_reg th_with_u]. unfold t. rewrite (current_reg None None k H). discriminate.
  - rewrite Et. exact (current_timer None None k H Hc).
Qed.

Lemma suspend_good r k : calling k -> call_ok (KSuspend r) k = true -> good (chThdSuspendS r k).
Proof.
  intros C Hok. apply bool_decide_eq_true in Hok. unfold chThdSuspendS.
  destruct (suspend_ok r k C Hok) as (k1 & E & H1 & S & Ht). rewrite E. cbn [mbind option_bind]. apply sleep_good; assumption.
Qed.

Lemma suspend_timeout_good r timeout k : calling k -> call_ok (KSuspendTimeout r timeout) k = true -> good (chThdSuspendTimeoutS r timeout k).
Proof.
  intros C Hok. apply bool_decide_eq_true in Hok. unfold chThdSuspendTimeoutS. rewrite bool_decide_true by exact Hok.
  change (check true) with (Some tt). cbn [mbind option_bind]. destruct (Z.eqb_spec timeout TIME_IMMEDIATE) as [|Hne]; [apply good_some; apply C|].
  destruct (suspend_ok r k C Hok) as (k1 & E & H1 & S & Ht). rewrite E. cbn [mbind option_bind].
  apply sleep_timeout_good; [exact H1|exact S|exact I|exact Hne].
Qed.

(** A suspended thread leaves its reference. *)
Lemma unref_ok r t k :
  kinv None None None k -> k_refs k !! r = Some t ->
  let k1 := set_ref r None k in
  kinv (Some t) None None k1 /\ th_state (thr k t) = CH_STATE_SUSPENDED /\ k_current k1 <> t /\ can_ready t k1 = true /\
  (forall msg, wakeable None (upd_thread t (th_with_u (U_msg msg)) k1) t).
Proof.
  intros H Hr k1. pose proof (ki_thr _ _ _ _ H t ltac:(discriminate)) as T. destruct (to_ref _ _ _ T r Hr) as [Hst Hu].
  split; [apply unref_inv; [apply kinv_open, H|exact Hr]|]. split; [exact Hst|]. split; [|split].
  - intros E. change (k_current k1) with (k_current k) in E. rewrite <- E, (current_state None None k H) in Hst. discriminate.
  - apply can_ready_spec. change (thr k1 t) with (thr k t). rewrite Hst. split; discriminate.
  - intros msg. assert (E : thr (upd_thread t (th_with_u (U_msg msg)) k1) t = th_with_u (U_msg msg) (thr k t)) by (unfold k1; kg; reflexivity).
    split; rewrite ?E; cbn [th_state th_u th_link th_with_u th_cont th_timer].
    + pose proof (to_link _ _ _ T) as TL. rewrite Hst in TL. exact TL.
    + pose proof (to_cont _ _ _ T) as TC. destruct (th_cont (thr k t)) as [c|]; [|exact I]. rewrite Hst in TC.
      destruct TC as [[[|] _]|TC]; try discriminate.
      destruct c as [| | | | | |[]| |]; simpl in TC; try (exfalso; intuition discriminate). simpl. rewrite E. exact I.
    + apply (to_timer _ _ _ T).
    + intros r'. change (k_refs (upd_thread _ _ k1)) with (k_refs k1). unfold k1. rewrite refs_set_ref. case_decide as Hne; [discriminate|].
      intros Hr'. destruct (to_ref _ _ _ T r' Hr') as [_ Hu']. congruence.
    + apply (registered_ok None k t T). rewrite Hst. discriminate.
Qed.

Lemma resumeI_fine r msg k : kinv None None None k -> fine k (chThdResumeI r msg k).
Proof.
  intros H. unfold chThdResumeI. destruct (k_refs k !! r) as [t|] eqn:Hr; [|apply fine_some; exact H].
  destruct (unref_ok r t k H Hr) as (H1 & Hst & Hne & Hcr & W). rewrite bool_decide_true by exact Hst.
  change (check true) with (Some tt). cbn [mbind option_bind].
  destruct (ready_msg_inv None None (set_ref r None k) t msg H1 Hne Hcr (W msg)) as (_ & k' & E & H' & Ec & _).
  - intros _. change (thr (set_ref r None k) t) with (thr k t). congruence.
  - exists k'. auto.
Qed.

Lemma resume_good r msg k : calling k -> good (chThdResume r msg k).
Proof.
  intros [H Htop _ _]. unfold chThdResume, chThdResumeS. destruct (k_refs k !! r) as [t|] eqn:Hr; [|apply good_some; assumption].
  destruct (unref_ok r t k H Hr) as (H1 & Hst & Hne & Hcr & W). rewrite bool_decide_true by exact Hst.
  change (check true) with (Some tt). cbn [mbind option_bind]. apply good_bind.
  destruct (wakeup_inv None None (set_ref r None k) t msg H1 Hne Hcr Htop (W msg)) as (k' & E & H' & Ht & _); eauto.
  intros _. change (thr (set_ref r None k) t) with (thr k t). congruence.
Qed.

(** ** The end of a thread *)

Lemma kinv_ending d y k : kinv None y None k -> kinv None y d k.
Proof.
  intros []. split; auto. intros t Ht. apply (thread_frame None d k k); [apply same_thread_refl|reflexivity|auto| |auto].
  intros s [?|?]; [discriminate|auto].
Qed.

Lemma exit_turn t s l k :
  kinv None None (Some t) k -> queue k (Q_exit t) = s :: l ->
  ch_list_unlink (Q_exit t) k = Some (taken s (Q_exit t) l k, s) /\
  exists k', chSchReadyI s (taken s (Q_exit t) l k) = Some k' /\ kinv None None (Some t) k' /\ k_current k' = k_current k /\
    queue k' (Q_exit t) = l /\ thr k' (k_current k) = thr k (k_current k).
Proof.
  intros H Eq. destruct (fifo_remove_ok (Q_exit t) s l k (ki_links _ _ _ _ H) Eq ltac:(discriminate)) as (E & Hl & Hlk).
  fold (taken s (Q_exit t) l k) in *. split; [exact E|]. set (k1 := taken s (Q_exit t) l k) in *.
  pose proof (ki_thr _ _ _ _ H s ltac:(discriminate)) as T.
  pose proof (link_state _ _ _ (to_link _ _ _ T)) as Hst. rewrite Hl in Hst.
  assert (Hne : k_current k <> s) by (intros Es; rewrite <- Es, (current_state None _ k H) in Hst; discriminate).
  assert (H1 : kinv (Some s) None (Some t) k1) by (apply taken_inv; auto; discriminate).
  assert (Es : thr k1 s = th_with_link Q_none (thr k s)) by (unfold k1, taken; kg; reflexivity).
  destruct (ready_behind_inv None (Some t) k1 s H1 Hne) as (l' & E' & _ & H').
  - apply can_ready_spec. rewrite Es. simpl. rewrite Hst. split; discriminate.
  - split; rewrite ?Es; simpl; auto.
    + pose proof (to_cont _ _ _ T) as TC. destruct (th_cont (thr k s)) as [c|]; [|exact I]. rewrite Hst, Hl in TC.
      destruct TC as [[[|] _]|TC]; try discriminate.
      destruct c as [| | | | | |[]| |]; simpl in TC; try (exfalso; intuition discriminate).
      destruct TC as [_ TC]. injection TC as <-. left. reflexivity.
    + apply (to_timer _ _ _ T).
    + apply (no_ref _ k s T). rewrite Hst. discriminate.
    + apply (registered_ok _ k s T). rewrite Hst. discriminate.
  - eexists. split; [exact E'|]. split; [exact H'|]. split; [reflexivity|]. split; unfold readied, k1, taken; kg; reflexivity.
Qed.

Lemma exit_wake_ok t n : forall k,
  kinv None None (Some t) k -> length (queue k (Q_exit t)) = n ->
  exists k', exit_wake n (Q_exit t) k = Some k' /\ kinv None None (Some t) k' /\ k_current k' = k_current k /\
    thr k' (k_current k) = thr k (k_current k).
Proof.
  induction n as [|n IH]; intros k H Hn; [exists k; auto|]. destruct (queue k (Q_exit t)) as [|s l] eqn:Eq; [discriminate|].
  injection Hn as Hn. cbn [exit_wake]. destruct (exit_turn t s l k H Eq) as (E & k1 & E1 & H1 & Ec1 & Eq1 & Et1).
  rewrite E. cbn [mbind option_bind]. rewrite E1. cbn [mbind option_bind].
  destruct (IH k1 H1 ltac:(congruence)) as (k2 & E2 & H2 & Ec2 & Et2). exists k2. split; [exact E2|]. split; [exact H2|].
  rewrite Ec1 in *. split; congruence.
Qed.

(** What the scheduler and the waits see of a thread. *)
Definition sched_data (th th' : thread) : Prop :=
  th_prio th' = th_prio th /\ th_realprio th' = th_realprio th /\ th_link th' = th_link th /\ th_mtxlist th' = th_mtxlist th /\
  th_state th' = th_state th /\ th_cont th' = th_cont th /\ th_timer th' = th_timer th.

(** The running thread may change its field [u] and its events. *)
Definition own_data (th th' : thread) : Prop :=
  sched_data th th' /\ th_refs th' = th_refs th /\ th_reg th' = th_reg th.

Lemma current_upd_calling f k :
  calling k -> own_data (thr k (k_current k)) (f (thr k (k_current k))) -> calling (upd_thread (k_current k) f k).
Proof.
  intros [H Htop Hc Hi] ((E1 & E2 & E3 & E4 & E5 & E6 & E7) & E8 & E9). set (t := k_current k) in *. pose proof (current_state None None k H) as Hst.
  fold t in Hst. set (k1 := upd_thread t f k). assert (Et : thr k1 t = f (thr k t)) by (unfold k1; kg; reflexivity).
  split; [| | |exact Hi].
  - apply closed_upd; auto; [contradiction|apply (current_alive None None k H)|].
    destruct (ki_thr _ _ _ _ H t ltac:(discriminate)) as [T1 T2 T3 T4 T5 T6 T7]. rewrite Hst, Hc in *.
    fold k1. split; rewrite ?Et, ?E5, ?E6, ?E7, ?E3, ?E8, ?E9, ?Hst, ?Hc; auto; try discriminate.
    intros r Hr. destruct (current_ref None None k H r Hr).
  - assert (Ep : forall s, prio k1 s = prio k s) by (intros s; unfold k1; kg; [exact E1|reflexivity]).
    intros s Hs. rewrite !Ep. exact (Htop s Hs).
  - change (k_current k1) with t. rewrite Et, E6. exact Hc.
Qed.

Lemma current_u_calling u k : calling k -> calling (upd_thread (k_current k) (th_with_u u) k).
Proof. intros C. apply current_upd_calling; [exact C|]. repeat split. Qed.

(** The references of a thread in order change. *)
Lemma refs_inv k t f :
  kinv None None None k -> sched_data (thr k t) (f (thr k t)) -> th_u (f (thr k t)) = th_u (thr k t) ->
  th_epending (f (thr k t)) = th_epending (thr k t) ->
  (th_reg (f (thr k t)) = false -> th_state (thr k t) = CH_STATE_FINAL /\ th_refs (f (thr k t)) = 0) ->
  kinv None None None (upd_thread t f k).
Proof.
  intros H (E1 & E2 & E3 & E4 & E5 & E6 & E7) Eu Ee Hg. set (k1 := upd_thread t f k).
  assert (Et : thr k1 t = f (thr k t)) by (unfold k1; kg; reflexivity).
  assert (Eo : forall s, s <> t -> thr k1 s = thr k s) by (intros s Hs; unfold k1; kg; reflexivity).
  assert (Hd : forall s, None = Some s \/ dead k s -> None = Some s \/ dead k1 s).
  { intros s [?|[H1 H2]]; [discriminate|right]. unfold dead. destruct (decide (s = t)) as [->|Hs]; [rewrite Et, E5, Eu|rewrite Eo by exact Hs]; auto. }
  assert (T : thread_ok None k1 t).
  { destruct (ki_thr _ _ _ _ H t ltac:(discriminate)) as [T1 T2 T3 T4 T5 T6 T7].
    split; rewrite ?Et, ?E3, ?E5, ?E6, ?E7, ?Eu; auto. destruct (th_cont (thr k t)) as [c|]; [|exact T2].
    destruct T2 as [[Ha T2]|T2]; [left; split; [exact Ha|]|right; exact T2].
    eapply resume_frame; [..|exact T2]; rewrite ?Et; auto. }
  pose proof H as [Hlk Hown Hlo Hti Hcur Hidle Hsrc Hthr].
  assert (Hs : forall s, th_link (thr k1 s) = th_link (thr k s) /\ th_prio (thr k1 s) = th_prio (thr k s) /\
    th_realprio (thr k1 s) = th_realprio (thr k s) /\ th_mtxlist (thr k1 s) = th_mtxlist (thr k s) /\
    th_state (thr k1 s) = th_state (thr k s) /\ th_cont (thr k1 s) = th_cont (thr k s)).
  { intros s. destruct (decide (s = t)) as [->|Hs]; [rewrite Et; split_and!; assumption|rewrite Eo by exact Hs; split_and!; reflexivity]. }
  assert (Hb : same_blocks k k1) by (split; [|reflexivity]; intros s m; destruct (Hs s) as (-> & _); reflexivity).
  assert (Hp : same_prios k k1) by (intros s; destruct (Hs s) as (_ & -> & -> & _); auto).
  split; auto.
  - refine (links_ext k k1 _ _ Hlk); [|reflexivity]. intros s. destruct (Hs s) as (-> & -> & _). auto.
  - refine (own_frame k k1 Hb _ Hown). intros s. apply (Hs s).
  - exact (pi_lower_frame k k1 Hb Hp Hlo).
  - intros s Hy. exact (pi_tight_frame k k1 s Hb Hp (Hti s Hy)).
  - intros s Hx. destruct (Hs s) as (_ & _ & _ & _ & -> & _). apply Hcur. exact Hx.
  - destruct (Hs chSysGetIdleThreadX) as (_ & _ & _ & _ & -> & ->). exact Hidle.
  - intros s _. destruct (decide (s = t)) as [->|Hne]; [exact T|].
    apply (thread_frame None None k k1); [rewrite Eo by exact Hne; apply same_thread_refl|reflexivity|auto|exact Hd|apply Hthr; discriminate].
Qed.

Lemma addref_good t k : calling k -> call_ok (KAddRef t) k = true -> good (chThdAddRef t k).
Proof.
  intros [H Htop _ _] Hok. simpl in Hok. apply andb_prop in Hok as [Hok1 Hok2]. apply Z.ltb_lt in Hok1. unfold chThdAddRef. rewrite Hok2.
  change (check true) with (Some tt). cbn [mbind option_bind]. apply good_some.
  - apply refs_inv; [exact H|repeat split|reflexivity|reflexivity|]. simpl. intros Hg.
    destruct (to_reg _ _ _ (ki_thr _ _ _ _ H t ltac:(discriminate)) Hg). lia.
  - intros s Hs. assert (Ep : forall s, prio (upd_thread t (fun th => th_with_refs (th_refs th + 1) th) k) s = prio k s) by (intros u; kg; reflexivity).
    rewrite !Ep. exact (Htop s Hs).
Qed.

Lemma release_good t k : calling k -> call_ok (KRelease t) k = true -> good (chThdRelease t k).
Proof.
  intros [H Htop _ _] Hok. simpl in Hok. unfold chThdRelease. rewrite Hok. change (check true) with (Some tt). cbn [mbind option_bind].
  apply Z.ltb_lt in Hok. set (f := fun th => th_with_refs (th_refs th - 1) th). set (k1 := upd_thread t f k).
  assert (Hg : th_reg (thr k t) = true).
  { destruct (th_reg (thr k t)) eqn:E; [reflexivity|]. destruct (to_reg _ _ _ (ki_thr _ _ _ _ H t ltac:(discriminate)) E). lia. }
  assert (H1 : kinv None None None k1).
  { apply refs_inv; [exact H|repeat split|reflexivity|reflexivity|]. simpl. congruence. }
  assert (Et : thr k1 t = f (thr k t)) by (unfold k1; kg; reflexivity).
  assert (Ep1 : forall s, prio k1 s = prio k s) by (intros u; unfold k1, f; kg; reflexivity).
  assert (Ht1 : ktop k1) by (intros s Hs; rewrite !Ep1; exact (Htop s Hs)).
  destruct (_ && _) eqn:Ec; [|apply good_some; assumption]. apply andb_prop in Ec as [Ec1 Ec2].
  apply Z.eqb_eq in Ec1. apply bool_decide_eq_true in Ec2. unfold REG_REMOVE. rewrite Et. unfold f at 1. cbn [th_reg th_with_refs].
  rewrite Hg. change (check true) with (Some tt). cbn [mbind option_bind]. apply good_some.
  - apply refs_inv; [exact H1|repeat split|reflexivity|reflexivity|]. simpl. auto.
  - intros s Hs. assert (Ep : forall s, prio (upd_thread t (th_with_reg false) k1) s = prio k1 s) by (intros u; kg; reflexivity).
    rewrite !Ep. exact (Ht1 s Hs).
Qed.

(** The thread that ends leaves the registry when nothing refers to it. *)
Lemma exit_unregister t d k :
  kinv None None d k -> k_current k = t -> t <> chSysGetIdleThreadX ->
  exists k', (if th_refs (thr k t) =? 0 then REG_REMOVE t k else Some k) = Some k' /\
    kinv (Some t) None d k' /\ k_current k' = t /\ k_refs k' = k_refs k /\
    exists b, thr k' t = th_with_reg b (thr k t) /\ (b = false -> th_refs (thr k t) = 0).
Proof.
  intros H Ec Hi. destruct (Z.eqb_spec (th_refs (thr k t)) 0) as [E0|E0].
  - unfold REG_REMOVE. rewrite <- Ec, (current_reg None d k H), Ec. change (check true) with (Some tt). cbn [mbind option_bind].
    eexists. split; [reflexivity|]. split; [|split; [exact Ec|split; [reflexivity|]]].
    + apply open_upd; [apply kinv_open, H|reflexivity..|contradiction|]. rewrite <- Ec. apply (current_alive None d k H).
    + exists false. split; [kg; reflexivity|auto].
  - exists k. split; [reflexivity|]. split; [apply kinv_open, H|]. split; [exact Ec|]. split; [reflexivity|].
    exists (th_reg (thr k t)). split; [destruct (thr k t); reflexivity|]. rewrite <- Ec, (current_reg None d k H). discriminate.
Qed.

Lemma exit_good msg k : calling k -> good (chThdExitS msg k).
Proof.
  intros C. pose proof C as [H Htop Hc Hi]. unfold chThdExitS. set (t := k_current k) in *.
  pose proof (kinv_ending (Some t) None _ (ca_inv _ (current_u_calling (U_msg msg) k C))) as H1. fold t in H1.
  set (k1 := upd_thread t (th_with_u (U_msg msg)) k) in *.
  destruct (exit_wake_ok t _ k1 H1 eq_refl) as (k2 & E2 & H2 & Ec2 & Et2). rewrite E2. cbn [mbind option_bind].
  change (k_current k1) with t in *. assert (E1 : thr k1 t = th_with_u (U_msg msg) (thr k t)) by (unfold k1; kg; reflexivity).
  rewrite E1 in Et2. destruct (exit_unregister t (Some t) k2 H2 Ec2 Hi) as (k3 & E3 & H3 & Ec3 & Er3 & b & Et3 & Hb).
  rewrite E3. cbn [mbind option_bind]. rewrite Et2 in Et3, Hb. apply good_bind.
  apply (sleep_ok None (Some t) None CH_STATE_FINAL C_exit k3).
  - rewrite Ec3. exact H3.
  - split; rewrite ?Ec3, ?Et3; simpl; try discriminate; auto; try (split; discriminate).
    + apply (current_state None None k H).
    + exact (current_link None None k H).
    + rewrite Er3. intros r Hr. destruct (current_ref None (Some t) k2 H2 r). rewrite Ec2. exact Hr.
  - rewrite Ec3, Et3. simpl. unfold t. rewrite (current_timer None None k H Hc). discriminate.
  - intros s [= <-]. right. unfold dead, slept. rewrite Ec3. kg. rewrite Et3. split; [reflexivity|exact I].
Qed.

Lemma wait_good t k : calling k -> call_ok (KWait t) k = true -> good (chThdWait t k).
Proof.
  intros C Hok. pose proof C as [H Htop Hc Hi]. unfold chThdWait. simpl in Hok. apply andb_prop in Hok as [Hok1 Hok2].
  rewrite Hok1, Hok2. change (check true) with (Some tt). cbn [mbind option_bind].
  assert (Hq : good (k0 ← ch_list_link (Q_exit t) (k_current k) k; k1 ← chSchGoSleepS CH_STATE_WTEXIT (C_wait t) k0; Some (k1, None))).
  { unfold ch_list_link. set (s := k_current k) in *. pose proof (current_link None None k H) as Hl. fold s in Hl.
    destruct (link_in_ok (Q_exit t) s (s :: queue k (Q_exit t)) k (ki_links _ _ _ _ H) Hl) as [E Hlk];
      [discriminate|reflexivity|contradiction|]. rewrite E. cbn [mbind option_bind].
    assert (H1 : kinv (Some s) None None (upd_thread s (th_with_link (Q_exit t)) (upd_queue (Q_exit t) (s :: queue k (Q_exit t)) k))).
    { apply enqueue_inv; [apply kinv_open, H|exact Hl|discriminate|reflexivity|exact Hlk]. }
    set (k1 := upd_thread s _ _) in *. assert (Ec : k_current k1 = s) by reflexivity.
    assert (Et : thr k1 s = th_with_link (Q_exit t) (thr k s)) by (unfold k1; kg; reflexivity).
    apply sleep_good; rewrite ?Ec; [exact H1| |rewrite Et; apply (current_timer None None k H Hc)].
    split; rewrite ?Ec, ?Et; simpl; eauto; try discriminate; try (split; discriminate).
    - apply (current_state None None k H).
    - intros r Hr. destruct (current_ref None None k H r Hr).
    - unfold s. rewrite (current_reg None None k H). discriminate. }
  destruct (th_state (thr k t)) eqn:Es; try exact Hq.
  pose proof (to_final _ _ _ (ki_thr _ _ _ _ H t ltac:(discriminate)) Es) as Hm. unfold rdymsg.
  destruct (th_u (thr k t)); try contradiction. apply good_some; assumption.
Qed.
