(* ===== verification/KEvt.v ===== *)
(** * Events keep the invariant *)

From stdpp Require Import gmap sorting.
From S2P Require Import Prelude CInt CLib Threads Sched Mutexes Events Messages Kernel KInv KSched KMutex KLock KUnlock KOps.
#[local] Open Scope Z_scope.

(** More events can only wake. *)
Lemma evt_found_more kind p e mask : evt_found kind p mask = true -> evt_found kind (Z.lor p e) mask = true.
Proof.
  destruct kind; simpl; rewrite Z.land_lor_distr_l.
  1-2: intros H; apply negb_true_iff, Z.eqb_neq in H; apply negb_true_iff, Z.eqb_neq; intros E;
       apply Z.lor_eq_0_iff in E; tauto.
  intros H. apply Z.eqb_eq in H. rewrite H. apply Z.eqb_eq. rewrite Z.land_comm. apply Z.bits_inj'. intros n _.
  rewrite Z.lor_spec, Z.land_spec. destruct (Z.testbit mask n), (Z.testbit e n); reflexivity.
Qed.

(** ** Signals *)

(** Data of any thread that the invariant does not depend on. *)
Lemma data_inv k t f :
  kinv None None None k -> own_data (thr k t) (f (thr k t)) -> th_u (f (thr k t)) = th_u (thr k t) ->
  (forall c, resume_ok None k t c -> resume_ok None (upd_thread t f k) t c) ->
  kinv None None None (upd_thread t f k).
Proof.
  intros H ((E1 & E2 & E3 & E4 & E5 & E6 & E7) & E8 & E9) Eu Hr. set (k1 := upd_thread t f k).
  assert (Et : thr k1 t = f (thr k t)) by (unfold k1; kg; reflexivity).
  destruct (ki_thr _ _ _ _ H t ltac:(discriminate)) as [T1 T2 T3 T4 T5 T6 T7].
  assert (T : thread_ok None k1 t).
  { split; rewrite ?Et, ?E3, ?E5, ?E6, ?E7, ?E8, ?E9, ?Eu; auto. destruct (th_cont (thr k t)) as [c|]; [|exact T2].
    destruct T2 as [[Ha T2]|T2]; [left; split; [exact Ha|apply Hr; exact T2]|right; exact T2]. }
  assert (Ek : thr k1 t = f (thr k t)) by exact Et.
  assert (Hs : forall s, own_data (thr k s) (thr k1 s) /\ th_u (thr k1 s) = th_u (thr k s)).
  { intros s. unfold k1. kg; [split; [unfold own_data, sched_data; split_and!; assumption|exact Eu]|]. split; [repeat split|reflexivity]. }
  assert (Hb : same_blocks k k1).
  { split; [|reflexivity]. intros s m. destruct (Hs s) as [((_ & _ & -> & _) & _) _]. reflexivity. }
  assert (Hp : same_prios k k1) by (intros s; destruct (Hs s) as [((-> & -> & _) & _) _]; auto).
  pose proof H as [Hlk Hown Hlo Hti Hcur Hidle Hsrc Hthr]. split.
  - refine (links_ext k k1 _ _ Hlk); [|reflexivity]. intros s. destruct (Hs s) as [((-> & _ & -> & _) & _) _]. auto.
  - refine (own_frame k k1 Hb _ Hown). intros s. destruct (Hs s) as [((_ & _ & _ & -> & _) & _) _]. reflexivity.
  - exact (pi_lower_frame k k1 Hb Hp Hlo).
  - intros s Hy. exact (pi_tight_frame k k1 s Hb Hp (Hti s Hy)).
  - intros s Hx. destruct (Hs s) as [((_ & _ & _ & _ & -> & _) & _) _]. apply Hcur. exact Hx.
  - destruct (Hs chSysGetIdleThreadX) as [((_ & _ & _ & _ & -> & -> & _) & _) _]. exact Hidle.
  - exact Hsrc.
  - intros s _. destruct (decide (s = t)) as [->|Hne]; [exact T|].
    apply (thread_frame None None k k1); [|reflexivity|auto| |apply Hthr; discriminate].
    + unfold k1. kg. apply same_thread_refl.
    + intros r [?|[H1 H2]]; [auto|right]. unfold dead. destruct (Hs r) as [((_ & _ & _ & _ & -> & _) & _) ->]. auto.
Qed.

Lemma pending_inv k t e :
  kinv None None None k -> kinv None None None (set_epending t (Z.lor (th_epending (thr k t)) e) k).
Proof.
  intros H. apply data_inv; [exact H|repeat split|reflexivity|]. intros c. destruct c; simpl; kg; auto.
  - intros [?|[H1 H2]]; [auto|right]. unfold dead. kg; auto.
  - intros [Hc|[Hc Hf]]; [auto|right]. split; [exact Hc|]. apply evt_found_more. exact Hf.
Qed.

(** A thread that waits for events is woken by them. *)
Lemma evt_wakes_ok d k t :
  thread_ok d k t -> evt_wakes (th_state (thr k t)) (th_u (thr k t)) (th_epending (thr k t)) = true ->
  (th_state (thr k t) = CH_STATE_WTOREVT \/ th_state (thr k t) = CH_STATE_WTANDEVT) /\ th_link (thr k t) = Q_none /\
  match th_cont (thr k t) with
  | Some (C_evt kind _ events) => evt_found kind (th_epending (thr k t)) events = true
  | _ => False
  end.
Proof.
  intros [T1 T2 _ _ _ _ _] Hw. unfold evt_wakes in Hw.
  assert (Hs : th_state (thr k t) = CH_STATE_WTOREVT \/ th_state (thr k t) = CH_STATE_WTANDEVT).
  { destruct (th_state (thr k t)); try discriminate; auto. }
  split; [exact Hs|]. split; [destruct Hs as [E|E]; rewrite E in T1; exact T1|].
  destruct (th_cont (thr k t)) as [c|].
  - destruct T2 as [[[E|E] _]|T2]; [destruct Hs; congruence|destruct Hs; congruence|].
    destruct c as [| | | | | |kind timed events| |]; simpl in T2; try (destruct Hs, T2; congruence); try (destruct Hs; congruence).
    destruct T2 as [Es Eu]. rewrite Es, Eu in Hw. destruct kind; exact Hw.
  - destruct T2 as [[E|E]|E]; destruct Hs; congruence.
Qed.

Lemma signalI_ok t events k :
  kinv None None None k ->
  let k1 := set_epending t (Z.lor (th_epending (thr k t)) events) k in
  exists k', chEvtSignalI t events k = Some k' /\ kinv None None None k' /\ k_current k' = k_current k /\
    k_listeners k' = k_listeners k /\
    if evt_wakes (th_state (thr k1 t)) (th_u (thr k1 t)) (th_epending (thr k1 t)) then
      exists l, k' = readied t l (upd_thread t (th_with_u (U_msg MSG_OK)) k1)
    else k' = k1.
Proof.
  intros H k1. unfold chEvtSignalI. fold k1.
  assert (H1 : kinv None None None k1) by (apply pending_inv; exact H).
  destruct (evt_wakes _ _ _) eqn:Hw; [|exists k1; auto].
  pose proof (ki_thr _ _ _ _ H1 t ltac:(discriminate)) as T.
  destruct (evt_wakes_ok None k1 t T Hw) as (Hs & Hl & Hc).
  destruct (ready_msg_inv None None k1 t MSG_OK) as (_ & k' & E & H' & Ec & l & _ & Ek).
  - apply kinv_open, H1.
  - intros E. rewrite <- E, (current_state None None k1 H1) in Hs. destruct Hs; discriminate.
  - apply can_ready_spec. destruct Hs as [-> | ->]; split; discriminate.
  - assert (Et : thr (upd_thread t (th_with_u (U_msg MSG_OK)) k1) t = th_with_u (U_msg MSG_OK) (thr k1 t)) by (kg; reflexivity).
    split; rewrite ?Et; cbn [th_link th_cont th_timer th_with_u].
    + exact Hl.
    + destruct (th_cont (thr k1 t)) as [[| | | | | |kind timed ev| |]|]; try contradiction. right. rewrite Et. auto.
    + apply (to_timer _ _ _ T).
    + apply (no_ref None k1 t T). destruct Hs as [-> | ->]; discriminate.
    + apply (registered_ok None k1 t T). destruct Hs as [-> | ->]; discriminate.
  - intros _. destruct Hs as [-> | ->]; discriminate.
  - exists k'. split; [exact E|]. split; [exact H'|]. split; [exact Ec|]. split; [rewrite Ek; reflexivity|eauto].
Qed.

Lemma signalI_fine t events k : kinv None None None k -> fine k (chEvtSignalI t events k).
Proof. intros H. destruct (signalI_ok t events k H) as (k' & E & H' & Ec & _ & _). exists k'. auto. Qed.

Lemma signal_good t events k : calling k -> good (chEvtSignal t events k).
Proof. intros [H _ _ _]. exact (fine_good k _ _ (signalI_fine t events k H)). Qed.

(** ** Sources *)

Lemma listener_inv el l k : kinv None None None k -> kinv None None None (set_listener el l k).
Proof.
  intros H. apply (kinv_reads None None None k); try reflexivity; [|exact H].
  intros es el'. change (listeners (set_listener el l k) es) with (listeners k es). intros Hin. simpl.
  destruct (decide (el' = el)) as [->|Hne]; [rewrite lookup_insert_eq; eauto|].
  rewrite lookup_insert_ne by congruence. exact (ki_src _ _ _ _ H es el' Hin).
Qed.

Lemma source_inv es ls k :
  (forall el, el ∈ ls -> is_Some (k_listeners k !! el)) -> kinv None None None k -> kinv None None None (set_source es ls k).
Proof.
  intros Hls H. apply (kinv_reads None None None k); try reflexivity; [|exact H].
  intros es' el. simpl. unfold listeners. simpl. destruct (decide (es' = es)) as [->|Hne].
  - rewrite lookup_total_insert_eq. apply Hls.
  - rewrite lookup_total_insert_ne by congruence. apply (ki_src _ _ _ _ H).
Qed.

Lemma notify_all_fine flags ls : forall k,
  (forall el, el ∈ ls -> is_Some (k_listeners k !! el)) -> kinv None None None k -> fine k (evt_notify_all flags ls k).
Proof.
  induction ls as [|el ls IH]; intros k Hls H; [apply fine_some; exact H|]. cbn [evt_notify_all]. unfold evt_notify.
  destruct (Hls el) as [l El]; [left|]. rewrite El. cbn [mbind option_bind]. set (l' := Listener _ _ _ _).
  pose proof (listener_inv el l' k H) as H1. set (k1 := set_listener el l' k) in *.
  assert (Hn : forall k2, k_current k2 = k_current k -> k_listeners k2 = k_listeners k1 -> kinv None None None k2 ->
    fine k (evt_notify_all flags ls k2)).
  { intros k2 Ec Eq H2. apply (fine_trans k k2); [exact Ec|]. apply IH; [|exact H2]. intros el' Hin. rewrite Eq.
    simpl. destruct (decide (el' = el)) as [->|Hne]; [rewrite lookup_insert_eq; eauto|].
    rewrite lookup_insert_ne by congruence. apply Hls. right. exact Hin. }
  destruct (_ || _); [|apply Hn; auto].
  destruct (signalI_ok (el_listener l) (el_events l) k1 H1) as (k2 & E2 & H2 & Ec2 & Eq2 & _). rewrite E2. apply Hn; auto.
Qed.

Lemma broadcastI_fine es flags k : kinv None None None k -> fine k (chEvtBroadcastFlagsI es flags k).
Proof. intros H. apply notify_all_fine; [apply (ki_src _ _ _ _ H)|exact H]. Qed.

Lemma broadcast_good es flags k : calling k -> good (chEvtBroadcastFlags es flags k).
Proof. intros [H _ _ _]. exact (fine_good k _ _ (broadcastI_fine es flags k H)). Qed.

Lemma register_good es el events wflags k :
  calling k -> call_ok (KEvtRegister es el events wflags) k = true ->
  good (k ← chEvtRegisterMaskWithFlagsI es el events wflags k; Some (k, Some RVoid)).
Proof.
  intros [H Htop _ _] Hok. unfold chEvtRegisterMaskWithFlagsI. simpl in Hok. rewrite Hok. change (check true) with (Some tt).
  cbn [mbind option_bind]. apply good_some; [|exact Htop]. set (l := Listener _ _ _ _).
  pose proof (source_inv es (el :: listeners k es) (set_listener el l k)) as S.
  refine (kinv_ext _ _ _ _ _ _ (S _ (listener_inv el l k H))); [split; reflexivity|].
  intros el' Hin. simpl. destruct (decide (el' = el)) as [->|Hne]; [rewrite lookup_insert_eq; eauto|].
  rewrite lookup_insert_ne by congruence. apply elem_of_cons in Hin as [?|Hin]; [contradiction|].
  exact (ki_src _ _ _ _ H es el' Hin).
Qed.

Lemma unlink_first_subset el ls x : x ∈ unlink_first el ls -> x ∈ ls.
Proof.
  induction ls as [|l ls IH]; simpl; [auto|]. destruct (Nat.eqb l el); [intros; right; assumption|].
  rewrite !elem_of_cons. tauto.
Qed.

Lemma unregister_good es el k : calling k -> good (Some (chEvtUnregister es el k, Some RVoid)).
Proof.
  intros [H Htop _ _]. apply good_some; [|exact Htop]. apply source_inv; [|exact H].
  intros el' Hin. apply (ki_src _ _ _ _ H es). exact (unlink_first_subset el _ el' Hin).
Qed.

Lemma evt_flags_good el k : calling k -> call_ok (KEvtFlags el) k = true ->
  good ('(k, m) ← chEvtGetAndClearFlagsI el k; Some (k, Some (RMask m))).
Proof.
  intros [H Htop _ _] Hok. apply bool_decide_eq_true in Hok as [l El]. unfold chEvtGetAndClearFlagsI. rewrite El.
  cbn [mbind option_bind]. apply good_some; [apply listener_inv; exact H|exact Htop].
Qed.

(** ** Waiting *)

Lemma epending_calling e k : calling k -> calling (set_epending (k_current k) e k).
Proof. intros C. apply current_upd_calling; [exact C|]. repeat split. Qed.

Lemma calling_good k r : calling k -> good (Some (k, r)).
Proof. intros [H Htop _ _]. apply good_some; assumption. Qed.

Lemma evt_take_good kind events k : calling k -> good (evt_take kind events k).
Proof. intros C. apply calling_good, epending_calling, C. Qed.

Lemma evt_sleepy kind timed events k :
  calling k ->
  let k1 := upd_thread (k_current k) (th_with_u (U_ewmask events)) k in
  calling k1 /\ sleepy (evt_state kind) (C_evt kind timed events) k1.
Proof.
  intros C k1. pose proof (current_u_calling (U_ewmask events) k C) as C1. fold k1 in C1. split; [exact C1|].
  apply calling_sleepy; [exact C1|destruct kind; discriminate..|destruct kind; reflexivity|].
  split; [reflexivity|]. unfold k1. simpl k_current. kg. reflexivity.
Qed.

Lemma evt_wait_good kind events k : calling k -> good (chEvtWait kind events k).
Proof.
  intros C. unfold chEvtWait. destruct (evt_found _ _ _); [apply evt_take_good; exact C|].
  destruct (evt_sleepy kind false events k C) as [C1 S]. apply sleep_good; [apply kinv_open, C1|exact S|].
  apply (current_timer None None _ (ca_inv _ C1)), C1.
Qed.

Lemma evt_wait_timeout_good kind events timeout k : calling k -> good (chEvtWaitTimeout kind events timeout k).
Proof.
  intros C. unfold chEvtWaitTimeout. destruct (evt_found _ _ _); [apply evt_take_good; exact C|].
  destruct (Z.eqb_spec timeout TIME_IMMEDIATE) as [|Hne]; [apply calling_good; exact C|].
  destruct (evt_sleepy kind true events k C) as [C1 S]. apply sleep_timeout_good; [apply kinv_open, C1|exact S|exact I|exact Hne].
Qed.

Lemma evt_woken_good kind timed events k :
  calling k -> resume_ok None k (k_current k) (C_evt kind timed events) -> good (evt_woken kind timed events k).
Proof.
  intros C HR. unfold evt_woken. destruct timed; [|apply evt_take_good; exact C]. simpl in HR. unfold rdymsg.
  destruct HR as [[_ ->]|[Hu _]]; [|rewrite Hu by reflexivity]; cbn [mbind option_bind].
  - change (MSG_TIMEOUT <? MSG_OK) with true. apply calling_good, C.
  - change (MSG_OK <? MSG_OK) with false. apply evt_take_good, C.
Qed.
