(* ===== verification/KMsg.v ===== *)
(** * Messages keep the invariant *)

From stdpp Require Import gmap sorting.
From S2P Require Import Prelude CInt CLib Threads Sched Mutexes Events Messages Kernel KInv KSched KMutex KLock KUnlock KOps KEvt.
#[local] Open Scope Z_scope.

(** Data of a thread that is not in transit change, its own invariant being kept. *)
Lemma upd_inv x y d k t f :
  kinv x y d k -> x <> Some t ->
  th_prio (f (thr k t)) = th_prio (thr k t) -> th_realprio (f (thr k t)) = th_realprio (thr k t) ->
  th_link (f (thr k t)) = th_link (thr k t) -> th_mtxlist (f (thr k t)) = th_mtxlist (thr k t) ->
  th_state (f (thr k t)) = th_state (thr k t) -> (t = chSysGetIdleThreadX -> th_cont (f (thr k t)) = None) ->
  ~ dead k t -> thread_ok d (upd_thread t f k) t -> kinv x y d (upd_thread t f k).
Proof.
  intros H Hx Ep Er El Em Es Hi Hnd T. set (k1 := upd_thread t f k) in *.
  assert (Et : thr k1 t = f (thr k t)) by (unfold k1; kg; reflexivity).
  assert (Eo : forall s, s <> t -> thr k1 s = thr k s) by (intros s Hs; unfold k1; kg; reflexivity).
  assert (Hb : same_blocks k k1).
  { split; [|reflexivity]. intros s m. destruct (decide (s = t)) as [->|Hs]; [rewrite Et, El; reflexivity|rewrite Eo by exact Hs; reflexivity]. }
  assert (Hp : same_prios k k1).
  { intros s. destruct (decide (s = t)) as [->|Hs]; [rewrite Et; auto|rewrite Eo by exact Hs; auto]. }
  pose proof H as [Hlk Hown Hlo Hti Hcur Hidle Hsrc Hthr]. split.
  - refine (links_ext k k1 _ _ Hlk); [|reflexivity]. intros s.
    destruct (decide (s = t)) as [->|Hs]; [rewrite Et; auto|rewrite Eo by exact Hs; auto].
  - refine (own_frame k k1 Hb _ Hown). intros s. destruct (decide (s = t)) as [->|Hs]; [rewrite Et; auto|rewrite Eo by exact Hs; auto].
  - exact (pi_lower_frame k k1 Hb Hp Hlo).
  - intros s Hy. exact (pi_tight_frame k k1 s Hb Hp (Hti s Hy)).
  - intros s Hs. rewrite <- (Hcur s Hs : _ <-> s = k_current k1).
    destruct (decide (s = t)) as [->|Hst]; [rewrite Et, Es; reflexivity|rewrite Eo by exact Hst; reflexivity].
  - destruct (decide (chSysGetIdleThreadX = t)) as [E|Hne]; [|rewrite Eo by exact Hne; exact Hidle].
    rewrite E, Et. split; [auto|]. rewrite Es, <- E. apply Hidle.
  - exact Hsrc.
  - intros s Hs. destruct (decide (s = t)) as [->|Hne]; [exact T|].
    apply (thread_frame d d k k1); [rewrite Eo by exact Hne; apply same_thread_refl|reflexivity|auto| |apply Hthr; exact Hs].
    intros r [?|Hd]; [auto|right]. unfold dead. destruct (decide (r = t)) as [->|Hr]; [contradiction|rewrite Eo by exact Hr; exact Hd].
Qed.

(** ** Sending *)

Lemma insert_behind_ext pr pr' p t l : (forall s, pr s = pr' s) -> insert_behind pr p t l = insert_behind pr' p t l.
Proof. intros E. induction l as [|x l IH]; [reflexivity|]. simpl. rewrite E, IH. reflexivity. Qed.

(** The sender has queued itself; the receiver, if it waits for a message, is made
    ready.  The proof has it ready before, with nothing to resume. *)
Lemma receiver_ready t k :
  calling k -> th_state (thr k t) = CH_STATE_WTMSG ->
  let s := k_current k in
  let k1 := upd_thread s (th_with_link (Q_msg t)) (upd_queue (Q_msg t) (queue k (Q_msg t) ++ [s]) k) in
  kinv (Some s) None None k1 ->
  exists k', chSchReadyI t k1 = Some k' /\ kinv (Some s) None None k' /\ k_current k' = s /\ thr k' s = thr k1 s /\
    k_refs k' = k_refs k1.
Proof.
  intros [H Htop Hc Hi] Hst s k1 Hk1.
  pose proof (ki_thr _ _ _ _ H t ltac:(discriminate)) as T.
  assert (Hcur : th_state (thr k s) = CH_STATE_CURRENT) by exact (current_state None None k H).
  assert (Hne : s <> t) by congruence.
  pose proof (to_link _ _ _ T) as Hl. rewrite Hst in Hl. simpl in Hl.
  assert (Hls : th_link (thr k s) = Q_none) by exact (current_link None None k H).
  assert (Hct : exists b, th_cont (thr k t) = Some (C_msg_wait b)).
  { pose proof (to_cont _ _ _ T) as TC. rewrite Hst in TC. destruct (th_cont (thr k t)) as [c|].
    - destruct TC as [[[|] _]|TC]; try discriminate.
      destruct c as [| | | | | |[]| |]; simpl in TC; try (exfalso; intuition discriminate). eauto.
    - destruct TC as [[|]|]; discriminate. }
  destruct Hct as [b Hct].
  (* ready without its continuation *)
  set (f := fun th => th_with_cont (Some C_sleep) th).
  assert (Hit : t <> chSysGetIdleThreadX) by (intros E; rewrite E in Hct; destruct (ki_idle _ _ _ _ H); congruence).
  assert (H0 : kinv (Some t) None None (upd_thread t f k)).
  { apply open_upd; [apply kinv_open, H|reflexivity..|contradiction|]. intros [E _]. congruence. }
  set (k0 := upd_thread t f k) in *. assert (E0 : thr k0 t = th_with_cont (Some C_sleep) (thr k t)) by (unfold k0, f; kg; reflexivity).
  assert (Hr0 : can_ready t k0 = true) by (apply can_ready_spec; rewrite E0; simpl; rewrite Hst; split; discriminate).
  destruct (ready_behind_inv None None k0 t H0) as (l & El & Hp & H2); [exact Hne|exact Hr0| |].
  { split; rewrite ?E0; simpl; auto.
    - apply (no_ref None k t T). rewrite Hst. discriminate.
    - apply (registered_ok None k t T). rewrite Hst. discriminate. }
  (* the sender queued *)
  set (k2 := readied t l k0) in *.
  assert (E2s : thr k2 s = thr k s) by (unfold k2, readied, k0; kg; reflexivity).
  assert (Eq2 : queue k2 (Q_msg t) = queue k (Q_msg t)) by (unfold k2, readied, k0; kg; reflexivity).
  destruct (link_in_ok (Q_msg t) s (queue k (Q_msg t) ++ [s]) k2 (ki_links _ _ _ _ H2)) as [_ Hlk3];
    [congruence|discriminate|rewrite Eq2; apply Permutation_app_comm|contradiction|].
  assert (H3 : kinv (Some s) None None (upd_thread s (th_with_link (Q_msg t)) (upd_queue (Q_msg t) (queue k (Q_msg t) ++ [s]) k2))).
  { apply enqueue_inv; [apply kinv_open, H2|congruence|discriminate|rewrite Eq2; apply Permutation_app_comm|exact Hlk3]. }
  set (k3 := upd_thread s _ (upd_queue _ _ k2)) in *.
  (* the continuation again *)
  assert (E3t : thr k3 t = th_with_link Q_ready (th_with_state CH_STATE_READY (th_with_cont (Some C_sleep) (thr k t)))).
  { unfold k3, k2, readied, k0, f. kg. reflexivity. }
  set (g := th_with_cont (Some (C_msg_wait b))). set (k4 := upd_thread t g k3).
  assert (E4t : thr k4 t = th_with_link Q_ready (th_with_state CH_STATE_READY (thr k t))).
  { unfold k4, g. kg. rewrite E3t. revert Hct. destruct (thr k t). simpl. intros ->. reflexivity. }
  assert (H4 : kinv (Some s) None None k4).
  { apply upd_inv; [exact H3|congruence|rewrite ?E3t; reflexivity..|contradiction| |].
    - intros [E _]. rewrite E3t in E. discriminate.
    - fold k4. destruct T as [T1 T2 T3 T4 T5 T6 T7]. split; rewrite ?E4t; simpl; try discriminate; auto.
      + rewrite Hct. left. split; [left; reflexivity|]. simpl. left. unfold k4. autorewrite with kern. unfold k3. kg.
        intros E. apply app_eq_nil in E as [_ E]. discriminate.
      + intros r Hr. assert (Hr' : k_refs k !! r = Some t) by exact Hr. destruct (T4 r Hr'). congruence.
      + intros Hr. destruct (T7 Hr). congruence. }
  (* the kernels read the same *)
  assert (E1t : thr k1 t = thr k t) by (unfold k1; kg; reflexivity).
  assert (Hr1 : can_ready t k1 = true) by (apply can_ready_spec; rewrite E1t, Hst; split; discriminate).
  assert (Hp1 : NOPRIO < prio k1 t) by apply (lk_pos k1 (ki_links _ _ _ _ Hk1)).
  assert (Hl1 : th_link (thr k1 t) = Q_none) by (rewrite E1t; exact Hl).
  assert (Epr : forall u, prio k1 u = prio k u) by (intros u; unfold k1; kg; reflexivity).
  assert (Epr0 : forall u, prio k0 u = prio k u) by (intros u; unfold k0, f; kg; reflexivity).
  rewrite (ready_behind_eq t k0 Hr0) in El; [|rewrite E0; exact Hl|rewrite Epr0, <- Epr; exact Hp1].
  assert (Eqr : queue k1 Q_ready = queue k0 Q_ready) by (unfold k1, k0; kg; reflexivity).
  assert (Ell : insert_behind (prio k1) (prio k1 t) t (queue k1 Q_ready) = l).
  { rewrite Eqr, Epr, <- (Epr0 t). rewrite (insert_behind_ext (prio k1) (prio k0)) by (intros u; rewrite Epr, Epr0; reflexivity).
    apply (inj Some) in El. apply (f_equal (fun k => queue k Q_ready)) in El. revert El. unfold k2, readied. kg. auto. }
  unfold chSchReadyI. rewrite (ready_behind_eq t k1 Hr1 Hl1 Hp1), Ell. eexists. split; [reflexivity|].
  split; [|split; [reflexivity|split; [unfold readied; kg; reflexivity|reflexivity]]].
  refine (kinv_ext _ _ _ _ _ _ H4). split; try reflexivity.
  - intros u. destruct (decide (u = t)) as [->|Hut].
    + rewrite E4t. unfold readied. kg. rewrite E1t. reflexivity.
    + unfold k4, k3, k2, readied, k1, k0. kg; reflexivity.
  - intros q. unfold k4. autorewrite with kern. unfold k3, k2, readied, k1, k0. kg; reflexivity.
Qed.

Lemma send_good t msg k : calling k -> good (chMsgSend t msg k).
Proof.
  intros C. pose proof (current_u_calling (U_msg msg) k C) as C1. unfold chMsgSend. set (s := k_current k) in *.
  set (k1 := upd_thread s (th_with_u (U_msg msg)) k) in *. pose proof C1 as [H1 Htop1 Hc1 Hi1]. change (k_current k1) with s in *.
  pose proof (current_link None None k1 H1) as Hl. change (k_current k1) with s in Hl.
  pose proof (current_state None None k1 H1) as Hst. change (k_current k1) with s in Hst.
  unfold ch_queue_insert. destruct (link_in_ok (Q_msg t) s (queue k1 (Q_msg t) ++ [s]) k1 (ki_links _ _ _ _ H1) Hl) as [E2 Hlk2];
    [discriminate|apply Permutation_app_comm|contradiction|]. rewrite E2. cbn [mbind option_bind].
  assert (H2 : kinv (Some s) None None (upd_thread s (th_with_link (Q_msg t)) (upd_queue (Q_msg t) (queue k1 (Q_msg t) ++ [s]) k1))).
  { apply enqueue_inv; [apply kinv_open, H1|exact Hl|discriminate|apply Permutation_app_comm|exact Hlk2]. }
  set (k2 := upd_thread s _ (upd_queue _ _ k1)) in *.
  assert (E1u : th_u (thr k1 s) = U_msg msg) by (unfold k1; kg; reflexivity).
  assert (E2s : thr k2 s = th_with_link (Q_msg t) (thr k1 s)) by (unfold k2; kg; reflexivity).
  assert (Hsleep : forall k', kinv (Some s) None None k' -> k_current k' = s -> thr k' s = thr k2 s -> k_refs k' = k_refs k2 ->
    good (k ← chSchGoSleepS CH_STATE_SNDMSGQ C_msg_send k'; Some (k, None))).
  { intros k' H' Ec Et Er. apply sleep_good; rewrite ?Ec; [exact H'| |rewrite Et, E2s; apply (current_timer None None k1 H1), Hc1].
    split; rewrite ?Ec, ?Et, ?E2s; simpl; try discriminate; auto; try (split; discriminate).
    - rewrite E1u. simpl. eauto.
    - rewrite Er. intros r Hr. destruct (current_ref None None k1 H1 r Hr).
    - pose proof (current_reg None None k1 H1) as Hg. change (k_current k1) with s in Hg. rewrite Hg. discriminate. }
  destruct (bool_decide (th_state (thr k2 t) = CH_STATE_WTMSG)) eqn:Ew; [|apply Hsleep; auto].
  apply bool_decide_eq_true in Ew. assert (Ht : t <> s) by (intros ->; rewrite E2s in Ew; simpl in Ew; congruence).
  assert (Ew1 : th_state (thr k1 t) = CH_STATE_WTMSG) by (revert Ew; unfold k2; kg; auto).
  destruct (receiver_ready t k1 C1 Ew1 H2) as (k3 & E3 & H3 & Ec3 & Es3 & Er3). change (k_current k1) with s in *. fold k2 in E3, Es3, Er3.
  rewrite E3. cbn [mbind option_bind]. apply Hsleep; auto.
Qed.

(** ** Receiving *)

Lemma msg_take_good k : calling k -> queue k (Q_msg (k_current k)) <> [] -> good (msg_take k).
Proof.
  intros [H Htop Hc Hi] Hq. unfold msg_take. set (t := k_current k) in *.
  destruct (queue k (Q_msg t)) as [|s l] eqn:Eq; [contradiction|].
  destruct (fifo_remove_ok (Q_msg t) s l k (ki_links _ _ _ _ H) Eq ltac:(discriminate)) as (E & Hl & Hlk).
  fold (taken s (Q_msg t) l k) in *. rewrite E. cbn [mbind option_bind].
  pose proof (ki_thr _ _ _ _ H s ltac:(discriminate)) as T.
  pose proof (link_state _ _ _ (to_link _ _ _ T)) as Hst. rewrite Hl in Hst. destruct Hst as [Hst Hu].
  pose proof (current_state None None k H) as Hcur. fold t in Hcur. assert (Hne : s <> t) by congruence.
  assert (H1 : kinv (Some s) None None (taken s (Q_msg t) l k)).
  { apply taken_inv; [exact H|exact Hl|discriminate| |exact Hlk]. intros u [= <-]. exact Hc. }
  set (k1 := taken s (Q_msg t) l k) in *. assert (E1 : thr k1 s = th_with_link Q_none (thr k s)) by (unfold k1, taken; kg; reflexivity).
  assert (Hct : th_cont (thr k s) = Some C_msg_send).
  { pose proof (to_cont _ _ _ T) as TC. rewrite Hst in TC. destruct (th_cont (thr k s)) as [c|].
    - destruct TC as [[[|] _]|TC]; try discriminate.
      destruct c as [| | | | | |[]| |]; simpl in TC; try (exfalso; intuition discriminate). reflexivity.
    - destruct TC as [[|]|]; discriminate. }
  apply good_some.
  - assert (Hsi : s <> chSysGetIdleThreadX) by (intros ->; destruct (ki_idle _ _ _ _ H); congruence).
    apply (kinv_close s).
    + apply open_upd; [exact H1|reflexivity..|contradiction|]. intros [Hd _]. rewrite E1 in Hd. simpl in Hd. congruence.
    + assert (Es : thr (set_state s CH_STATE_SNDMSG k1) s = th_with_state CH_STATE_SNDMSG (th_with_link Q_none (thr k s))).
      { rewrite <- E1. kg. reflexivity. }
      split; rewrite ?Es; simpl; auto; try discriminate.
      * rewrite Hct. right. right. reflexivity.
      * apply (to_timer _ _ _ T).
      * intros r Hr. assert (Hr' : k_refs k !! r = Some s) by exact Hr. destruct (to_ref _ _ _ T r Hr'). congruence.
      * intros Hr. destruct (to_reg _ _ _ T Hr). congruence.
    + change (k_current (set_state s CH_STATE_SNDMSG k1)) with t. kg. split; congruence.
  - intros u Hu'. assert (Ep : forall u, prio (set_state s CH_STATE_SNDMSG k1) u = prio k u) by (intros v; unfold k1, taken; kg; reflexivity).
    rewrite !Ep. apply Htop. revert Hu'. unfold k1, taken. kg. auto.
Qed.

Lemma msg_pending t k : chMsgIsPendingI t k = true <-> queue k (Q_msg t) <> [].
Proof. unfold chMsgIsPendingI. destruct (queue k (Q_msg t)); split; congruence. Qed.

Lemma msg_wait_good k : calling k -> good (chMsgWait k).
Proof.
  intros C. unfold chMsgWait, chMsgWaitS. destruct (chMsgIsPendingI _ _) eqn:Ep; simpl negb.
  - apply msg_take_good; [exact C|]. apply msg_pending. exact Ep.
  - apply sleep_good; [apply kinv_open, C| |apply (current_timer None None k (ca_inv k C)), C].
    apply calling_sleepy; try discriminate; [exact C|reflexivity|reflexivity].
Qed.

Lemma msg_wait_timeout_good timeout k : calling k -> call_ok (KMsgWaitTimeout timeout) k = true -> good (chMsgWaitTimeout timeout k).
Proof.
  intros C Hok. unfold chMsgWaitTimeout, chMsgWaitTimeoutS. destruct (chMsgIsPendingI _ _) eqn:Ep; simpl negb.
  - apply msg_take_good; [exact C|]. apply msg_pending. exact Ep.
  - apply sleep_timeout_good; [apply kinv_open, C| |exact I|intros ->; discriminate].
    apply calling_sleepy; try discriminate; [exact C|reflexivity|reflexivity].
Qed.

Lemma msg_poll_good k : calling k -> good (chMsgPoll k).
Proof.
  intros C. unfold chMsgPoll, chMsgPollS. destruct (chMsgIsPendingI _ _) eqn:Ep; [|apply calling_good, C].
  apply msg_take_good; [exact C|]. apply msg_pending. exact Ep.
Qed.

Lemma msg_release_good t msg k : calling k -> call_ok (KMsgRelease t msg) k = true -> good (chMsgRelease t msg k).
Proof.
  intros [H Htop Hc Hi] Hok. apply bool_decide_eq_true in Hok. unfold chMsgRelease, chMsgReleaseS.
  rewrite bool_decide_true by exact Hok. change (check true) with (Some tt). cbn [mbind option_bind]. apply good_bind.
  pose proof (ki_thr _ _ _ _ H t ltac:(discriminate)) as T. pose proof (to_link _ _ _ T) as TL. rewrite Hok in TL. simpl in TL.
  destruct (wakeup_inv None None k t msg) as (k' & E & H' & Ht' & _); eauto.
  - apply kinv_open, H.
  - intros E. rewrite <- E, (current_state None None k H) in Hok. discriminate.
  - apply can_ready_spec. rewrite Hok. split; discriminate.
  - assert (Et : thr (upd_thread t (th_with_u (U_msg msg)) k) t = th_with_u (U_msg msg) (thr k t)) by (kg; reflexivity).
    split; rewrite ?Et; cbn [th_link th_cont th_timer th_with_u]; auto.
    + pose proof (to_cont _ _ _ T) as TC. rewrite Hok in TC. destruct (th_cont (thr k t)) as [c|]; [|exact I].
      destruct TC as [[[|] _]|TC]; try discriminate.
      destruct c as [| | | | | |[]| |]; simpl in TC; try (exfalso; intuition discriminate). simpl. rewrite Et. exact I.
    + apply (to_timer _ _ _ T).
    + apply (no_ref None k t T). rewrite Hok. discriminate.
    + apply (registered_ok None k t T). rewrite Hok. discriminate.
  - intros ->. rewrite Hok. discriminate.
Qed.

Lemma msg_woken_good timed k : calling k -> resume_ok None k (k_current k) (C_msg_wait timed) -> good (msg_woken timed k).
Proof.
  intros C HR. simpl in HR. unfold msg_woken. destruct timed; [|destruct HR as [HR|[? _]]; [apply msg_take_good; assumption|discriminate]].
  assert (Hn : good (Some (k, Some (RThread None)))) by apply calling_good, C.
  assert (Ht : queue k (Q_msg (k_current k)) <> [] \/ th_u (thr k (k_current k)) = U_msg MSG_TIMEOUT) by tauto. clear HR.
  destruct Ht as [Ht|Ht].
  - destruct (th_u (thr k (k_current k))); try exact Hn; destruct (_ =? MSG_OK); try exact Hn; apply msg_take_good; assumption.
  - rewrite Ht. change (MSG_TIMEOUT =? MSG_OK) with false. exact Hn.
Qed.
