(* ===== verification/KSafe.v ===== *)
(** * The kernel is safe

    The invariant holds from the start on, so that no event that callers may cause
    fails an assertion or corrupts a queue, the running thread has the highest
    priority, and priorities are inherited. *)

From stdpp Require Import gmap sorting relations.
From S2P Require Import Prelude CInt CLib Threads Sched Mutexes Events Messages Kernel KInv KSched KMutex KLock KUnlock KOps KEvt KMsg.
#[local] Open Scope Z_scope.

(** ** The start *)

Section init.
Context (prios : list Z) (Hp : Forall (fun p => NOPRIO < p) prios).

Lemma init_thr t :
  thr (kernel_init prios) t =
    match t with
    | 0%nat => th_with_link Q_ready (th_with_state CH_STATE_READY (thd_object_init IDLEPRIO))
    | 1%nat => th_with_state CH_STATE_CURRENT (thd_object_init NORMALPRIO)
    | S (S n) => thd_object_init (default IDLEPRIO (prios !! n))
    end.
Proof.
  unfold thr. simpl. destruct t as [|[|n]].
  - apply lookup_total_insert_eq.
  - rewrite lookup_total_insert_ne by discriminate. apply lookup_total_insert_eq.
  - rewrite !lookup_total_insert_ne by discriminate. rewrite lookup_total_alt, lookup_map_seq, option_guard_True by lia.
    replace (S (S n) - 2)%nat with n by lia. rewrite list_lookup_fmap. destruct (prios !! n); reflexivity.
Qed.

Lemma init_prio t : NOPRIO < th_prio (thr (kernel_init prios) t) /\
  th_realprio (thr (kernel_init prios) t) = th_prio (thr (kernel_init prios) t).
Proof.
  rewrite init_thr. destruct t as [|[|n]]; [split; reflexivity..|]. simpl. split; [|reflexivity].
  destruct (prios !! n) as [p|] eqn:E; [|reflexivity]. rewrite Forall_lookup in Hp. exact (Hp n p E).
Qed.

Lemma init_link t : th_link (thr (kernel_init prios) t) = if decide (t = 0%nat) then Q_ready else Q_none.
Proof. rewrite init_thr. destruct t as [|[|n]]; reflexivity. Qed.

Lemma init_queue q : queue (kernel_init prios) q = if decide (q = Q_ready) then [0%nat] else [].
Proof.
  unfold queue. simpl. destruct (decide (q = Q_ready)) as [->|Hne]; [reflexivity|].
  rewrite lookup_total_alt, lookup_singleton_ne by congruence. reflexivity.
Qed.

Lemma init_inv : kinv None None None (kernel_init prios) /\ ktop (kernel_init prios).
Proof.
  assert (Hq : forall q t, t ∈ queue (kernel_init prios) q <-> q = Q_ready /\ t = 0%nat).
  { intros q t. rewrite init_queue. case_decide; [rewrite list_elem_of_singleton; tauto|]. rewrite elem_of_nil. tauto. }
  split; [|intros s Hs; apply Hq in Hs as [_ ->]; unfold prio; rewrite !init_thr; simpl; unfold IDLEPRIO, NORMALPRIO; lia].
  assert (Hb : forall s t, ~ blocks (kernel_init prios) s t) by (intros s t (m & E & _); rewrite init_link in E; case_decide; discriminate).
  split.
  - split.
    + intros q t. rewrite Hq, init_link. case_decide; intuition congruence.
    + intros q. rewrite init_queue. case_decide; [apply NoDup_singleton|constructor].
    + intros q _. rewrite init_queue. case_decide; repeat constructor.
    + intros t. apply init_prio.
  - split.
    + intros m t. rewrite init_thr. unfold owner. simpl. rewrite lookup_empty. destruct t as [|[|n]]; simpl; (split; [discriminate|]; intros E; inversion E).
    + intros t. rewrite init_thr. destruct t as [|[|n]]; constructor.
    + intros s m E. rewrite init_link in E. case_decide; discriminate.
  - intros t. destruct (init_prio t) as [H1 H2]. unfold prio. rewrite H2. split; [lia|]. intros s Hs. destruct (Hb s t Hs).
  - intros t _. left. symmetry. apply init_prio.
  - intros t _. rewrite init_thr. simpl. destruct t as [|[|n]]; simpl; split; congruence || lia.
  - rewrite init_thr. split; [reflexivity|discriminate].
  - intros es el. unfold listeners. simpl. rewrite lookup_total_empty. intros E. inversion E.
  - intros t _. split.
    + rewrite init_thr. destruct t as [|[|n]]; reflexivity.
    + rewrite init_thr. destruct t as [|[|n]]; simpl; unfold awake; auto.
    + rewrite init_thr. destruct t as [|[|n]]; discriminate.
    + intros r. simpl. rewrite lookup_empty. discriminate.
    + rewrite init_thr. destruct t as [|[|n]]; discriminate.
    + rewrite init_thr. destruct t as [|[|n]]; discriminate.
    + rewrite init_thr. destruct t as [|[|n]]; discriminate.
Qed.
End init.

(** ** Continuing *)

Lemma locked_good m r k : calling k -> head (th_mtxlist (thr k (k_current k))) = Some m -> good (mtx_locked m r k).
Proof.
  intros C Hm. unfold mtx_locked, chMtxGetNextMutexX. pose proof (ca_inv k C) as H.
  assert (Ho : owner k m = Some (k_current k)).
  { apply (ow_list k (ki_own _ _ _ _ H)). destruct (th_mtxlist (thr k (k_current k))); [discriminate|]. injection Hm as ->. left. }
  rewrite (bool_decide_true _ Ho), (bool_decide_true _ Hm). apply calling_good, C.
Qed.

Lemma woken_good m timed k : calling k -> is_msg (th_u (thr k (k_current k))) -> good (cond_woken m timed k).
Proof.
  intros C Hu. unfold cond_woken, rdymsg. destruct (th_u (thr k (k_current k))) as [msg| | | |]; try contradiction.
  cbn [mbind option_bind]. destruct (timed && (msg =? MSG_TIMEOUT)); [apply calling_good, C|apply lock_good, C].
Qed.

(** The thread that was switched to inside a call. *)
Lemma continue_ok k c :
  kinv None None None k -> ktop k -> th_cont (thr k (k_current k)) = Some c ->
  let k1 := upd_thread (k_current k) (fun th => th_with_cont None (th_with_timer false th)) k in
  calling k1 /\ resume_ok None k1 (k_current k1) c.
Proof.
  intros H Htop Ec k1. set (t := k_current k) in *. pose proof (current_state None None k H) as Hst. fold t in Hst.
  assert (Et : thr k1 t = th_with_cont None (th_with_timer false (thr k t))) by (unfold k1; kg; reflexivity).
  destruct (ki_thr _ _ _ _ H t ltac:(discriminate)) as [T1 T2 T3 T4 T5 T6 T7]. rewrite Ec, Hst in T2.
  destruct T2 as [[_ HR]|T2]; [|destruct (asleep_awake _ _ _ _ T2); right; reflexivity].
  assert (Hd : forall s, dead k s -> dead k1 s).
  { intros s. apply dead_frame. intros s' Hs'. unfold k1. kg; congruence. }
  split.
  - split.
    + apply closed_upd; [exact H|reflexivity..|reflexivity|apply (current_alive None None k H)|]. fold k1.
      split; rewrite ?Et; simpl; auto; [left; right; exact Hst|discriminate].
    + intros s Hs. assert (Ep : forall s, prio k1 s = prio k s) by (intros u; unfold k1; kg; reflexivity). rewrite !Ep. exact (Htop s Hs).
    + change (k_current k1) with t. rewrite Et. reflexivity.
    + change (k_current k1) with t. intros E. rewrite E in Ec. destruct (ki_idle _ _ _ _ H). congruence.
  - change (k_current k1) with t. eapply resume_frame; [..|exact HR]; rewrite ?Et; auto.
    intros s [?|?]; [discriminate|auto].
Qed.

Lemma continue_good k : kinv None None None k -> ktop k -> is_Some (th_cont (thr k (k_current k))) -> good (continue k).
Proof.
  intros H Htop [c Ec]. unfold continue. rewrite Ec. cbn [mbind option_bind].
  destruct (continue_ok k c H Htop Ec) as [C HR]. set (k1 := upd_thread _ _ k) in *. unfold exec_cont.
  destruct c as [m r|m timed| | |t| |kind timed events| |timed]; simpl in HR.
  - apply locked_good; assumption.
  - apply woken_good; assumption.
  - unfold rdymsg. destruct (th_u _); try contradiction. apply calling_good, C.
  - apply calling_good, C.
  - destruct HR as [HR|[_ HR]]; [discriminate|]. unfold rdymsg. destruct (th_u _); try contradiction. apply calling_good, C.
  - destruct HR.
  - apply evt_woken_good; assumption.
  - unfold rdymsg. destruct (th_u _); try contradiction. apply calling_good, C.
  - apply msg_woken_good; assumption.
Qed.

(** ** Every step *)

#[local] Hint Resolve lock_good trylock_good unlock_good unlock_all_good cond_wait_good cond_wait_timeout_good cond_signal_good
  cond_broadcast_good register_good unregister_good signal_good broadcast_good evt_flags_good evt_wait_good
  evt_wait_timeout_good send_good msg_wait_good msg_wait_timeout_good msg_poll_good msg_release_good start_good
  set_priority_good yield_good sleep_call_good suspend_good suspend_timeout_good resume_good exit_good wait_good addref_good release_good
  calling_good epending_calling : good.

Lemma call_good op k : calling k -> call_ok op k = true -> good (exec_call op k).
Proof. intros C Hok. destruct op; simpl exec_call; try solve [eauto with good]. apply lock_good, C. Qed.

Lemma isr_fine op k : kinv None None None k -> fine k (exec_isr op k).
Proof.
  intros H. destruct op; simpl; [apply cond_signalI_fine|apply cond_broadcastI_fine|apply signalI_fine|apply broadcastI_fine|apply resumeI_fine];
    exact H.
Qed.

Lemma step_good e k : kinv None None None k -> ktop k -> k_enabled e k = true -> good (k_step e k).
Proof.
  intros H Htop He. unfold k_enabled in He. destruct (th_cont (thr k (k_current k))) as [c|] eqn:Ec.
  - destruct e; try discriminate. apply continue_good; eauto.
  - destruct e as [op| |op|t]; try discriminate; simpl k_step.
    + apply andb_prop in He as [Hi Hok]. apply negb_true_iff, Nat.eqb_neq in Hi. apply call_good; [split; assumption|exact Hok].
    + destruct (isr_fine op k H) as (k1 & E1 & H1 & _). rewrite E1. cbn [mbind option_bind]. apply good_bind.
      destruct (epilogue_inv None None k1 H1) as (k2 & E2 & H2 & Ht2 & _). eauto.
    + destruct (kernel_timeout_inv None None k t H He Ec) as (k1 & E1 & H1 & _). rewrite E1. cbn [mbind option_bind]. apply good_bind.
      destruct (epilogue_inv None None k1 H1) as (k2 & E2 & H2 & Ht2 & _). eauto.
Qed.

Lemma reach_inv prios k : Forall (fun p => NOPRIO < p) prios -> k_reach prios k -> kinv None None None k /\ ktop k.
Proof.
  intros Hp. induction 1 as [|k e k' r _ [IH1 IH2] He E]; [apply init_inv; exact Hp|].
  destruct (step_good e k IH1 IH2 He) as (k1 & r1 & E1 & H1 & H2). rewrite E1 in E. injection E as -> ->. auto.
Qed.
