(* ===== verification/KProps.v ===== *)
(** * What the kernel promises: safety, scheduling, priorities *)

From stdpp Require Import gmap sorting relations.
From S2P Require Import Prelude CInt CLib Threads Sched Mutexes Events Messages Kernel KInv KSched KMutex KLock KUnlock KOps KEvt KMsg KSafe.
#[local] Open Scope Z_scope.

Lemma run_reach prios es : forall k k', k_reach prios k -> k_run es k = Some k' -> k_reach prios k'.
Proof.
  induction es as [|e es IH]; intros k k' H E; [injection E as <-; exact H|]. cbn [k_run] in E.
  destruct (k_enabled e k) eqn:He; [|discriminate]. change (check true) with (Some tt) in E. cbn [mbind option_bind] in E.
  destruct (k_step e k) as [[k1 r]|] eqn:E1; [|discriminate]. exact (IH k1 k' (reach_step prios k e k1 r H He E1) E).
Qed.

(** The kernel after a run, for examples. *)
Definition after (prios : list Z) (es : list kevent) : kernel := default (kernel_init prios) (k_run es (kernel_init prios)).

Lemma after_reach prios es : k_reach prios (after prios es).
Proof.
  unfold after. destruct (k_run es (kernel_init prios)) as [k|] eqn:E; [|constructor].
  exact (run_reach prios es _ k (reach_init prios) E).
Qed.

(** ** Safety *)

(** C3: in every reachable state of the kernel, whatever its threads, interrupts and
    timeouts have done, every call that keeps to its documented preconditions, the
    rest of every interrupted call, every handler and every timeout succeeds: no
    assertion fails and no header is linked twice or taken out of a queue it is not
    in. *)
Theorem kernel_safe prios k e :
  Forall (fun p => NOPRIO < p) prios -> k_reach prios k -> k_enabled e k = true ->
  exists k' r, k_step e k = Some (k', r).
Proof.
  intros Hp R He. destruct (reach_inv prios k Hp R) as [H Ht].
  destruct (step_good e k H Ht He) as (k' & r & E & _). eauto.
Qed.

(** A thread of priority 140 finds the mutex locked by the main thread, which then
    unlocks it. *)
Definition run_lock : list kevent :=
  [KCall (KLock 1); KCall (KStart 2); KCall (KLock 1)].

Lemma kernel_safe_witness :
  k_enabled (KCall (KUnlock 1)) (after [140] run_lock) = true /\
  exists k' r, k_step (KCall (KUnlock 1)) (after [140] run_lock) = Some (k', r).
Proof.
  split; [vm_compute; reflexivity|]. apply (kernel_safe [140]); [repeat constructor|apply after_reach|vm_compute; reflexivity].
Defined.

(** ** Scheduling *)

(** C7: in every reachable state exactly the running thread is marked as current, the
    ready list holds exactly the threads that are ready, by falling priority, and
    none of them has a higher priority than the running one. *)
Theorem kernel_runs_highest prios k :
  Forall (fun p => NOPRIO < p) prios -> k_reach prios k ->
  (forall t, th_state (thr k t) = CH_STATE_CURRENT <-> t = k_current k) /\
  (forall t, t ∈ queue k Q_ready <-> th_state (thr k t) = CH_STATE_READY) /\
  StronglySorted (by_prio (prio k)) (queue k Q_ready) /\
  (forall t, th_state (thr k t) = CH_STATE_READY -> prio k t <= prio k (k_current k)).
Proof.
  intros Hp R. destruct (reach_inv prios k Hp R) as [H Ht].
  assert (Hr : forall t, t ∈ queue k Q_ready <-> th_state (thr k t) = CH_STATE_READY).
  { intros t. rewrite (lk_in k (ki_links _ _ _ _ H)). pose proof (to_link _ _ _ (ki_thr _ _ _ _ H t ltac:(discriminate))) as TL. split.
    - intros [E _]. rewrite E in TL. exact (state_link_ready _ _ TL).
    - intros E. rewrite E in TL. split; [exact TL|discriminate]. }
  split; [intros t; apply (ki_cur _ _ _ _ H); discriminate|]. split; [exact Hr|].
  split; [apply (lk_sorted k (ki_links _ _ _ _ H)); exact I|]. intros t Es. apply Ht, Hr, Es.
Qed.

Lemma kernel_runs_highest_witness :
  let k := after [140] run_lock in
  (forall t, th_state (thr k t) = CH_STATE_CURRENT <-> t = k_current k) /\
  (forall t, t ∈ queue k Q_ready <-> th_state (thr k t) = CH_STATE_READY) /\
  StronglySorted (by_prio (prio k)) (queue k Q_ready) /\
  (forall t, th_state (thr k t) = CH_STATE_READY -> prio k t <= prio k (k_current k)).
Proof. exact (kernel_runs_highest [140] _ ltac:(repeat constructor) (after_reach _ _)). Defined.

(** ** Priority inheritance *)

(** The threads that wait for a mutex of [t], and the priority [t] should have: its
    own or that of a thread it holds up; there is none when threads wait for each
    other in a ring. *)
Definition waiters (k : kernel) (t : nat) : list nat := th_mtxlist (thr k t) ≫= fun m => queue k (Q_mtx m).

Fixpoint inherited (fuel : nat) (k : kernel) (t : nat) : option Z :=
  match fuel with
  | O => None
  | S fuel =>
      foldr (fun s acc => p ← acc; q ← inherited fuel k s; Some (Z.max p q)) (Some (th_realprio (thr k t))) (waiters k t)
  end.

Lemma waiters_blocks k s t : links_ok k -> own_ok k -> s ∈ waiters k t <-> blocks k s t.
Proof.
  intros Hlk Ho. unfold waiters, blocks. rewrite list_elem_of_bind. split.
  - intros (m & Hs & Hm). exists m. apply (ow_list k Ho) in Hm. apply (lk_in k Hlk) in Hs. tauto.
  - intros (m & Hl & Hm). exists m. split; [apply (lk_in k Hlk); split; [exact Hl|discriminate]|apply (ow_list k Ho); exact Hm].
Qed.

Lemma inherited_ok k fuel : kinv None None None k -> forall t p, inherited fuel k t = Some p -> prio k t = p.
Proof.
  intros H. induction fuel as [|fuel IH]; intros t p E; [discriminate|]. cbn [inherited] in E.
  destruct (ki_lower _ _ _ _ H t) as [[_ L1] L2].
  assert (W : forall l, (forall s, s ∈ l -> prio k s <= prio k t) -> forall p,
    foldr (fun s acc => p ← acc; q ← inherited fuel k s; Some (Z.max p q)) (Some (th_realprio (thr k t))) l = Some p ->
    th_realprio (thr k t) <= p <= prio k t /\ forall s, s ∈ l -> prio k s <= p).
  { clear E p. induction l as [|s l IHl]; intros Hl p E; simpl in E.
    - injection E as <-. split; [lia|]. intros s Hs. inversion Hs.
    - destruct (foldr _ _ l) as [q|]; [|discriminate]. cbn [mbind option_bind] in E.
      destruct (inherited fuel k s) as [q'|] eqn:Es; [|discriminate]. injection E as <-.
      destruct (IHl ltac:(intros; apply Hl; right; assumption) q eq_refl) as [G1 G2].
      pose proof (Hl s ltac:(left)) as Hs. rewrite (IH s q' Es) in Hs. split; [lia|].
      intros u [->|Hu]%elem_of_cons; [rewrite (IH s q' Es); lia|]. specialize (G2 u Hu). lia. }
  destruct (W (waiters k t)) with (p := p) as [G1 G2]; [|exact E|].
  - intros s Hs. apply L2, (waiters_blocks k s t (ki_links _ _ _ _ H) (ki_own _ _ _ _ H)), Hs.
  - destruct (ki_tight _ _ _ _ H t ltac:(discriminate)) as [Et|(s & Hs & Et)]; [lia|].
    apply (waiters_blocks k s t (ki_links _ _ _ _ H) (ki_own _ _ _ _ H)) in Hs. specialize (G2 s Hs). lia.
Qed.

(** Where it is undefined, the fuel has been used on a chain of waiting threads. *)
Fixpoint chain (k : kernel) (l : list nat) : Prop :=
  match l with x :: (y :: _) as l' => y ∈ waiters k x /\ chain k l' | _ => True end.

Lemma inherited_chain k fuel : forall t, inherited fuel k t = None -> exists l, length l = fuel /\ chain k (t :: l).
Proof.
  induction fuel as [|fuel IH]; intros t E; [exists []; split; [reflexivity|exact I]|]. cbn [inherited] in E.
  assert (Hs : exists s, s ∈ waiters k t /\ inherited fuel k s = None).
  { revert E. induction (waiters k t) as [|s l IHl]; [discriminate|]. simpl. intros E.
    destruct (foldr _ _ l) as [p|]; [|destruct IHl as (u & Hu & Eu); [reflexivity|exists u; split; [right; exact Hu|exact Eu]]].
    cbn [mbind option_bind] in E. destruct (inherited fuel k s) eqn:Es; [discriminate|]. exists s. split; [left|exact Es]. }
  destruct Hs as (s & Hs & Es). destruct (IH s Es) as (l & Hl & Hc). exists (s :: l). split; [simpl; congruence|]. split; [exact Hs|exact Hc].
Qed.

Lemma chain_app k l1 l2 : chain k (l1 ++ l2) -> chain k l2.
Proof.
  induction l1 as [|x l1 IH]; [auto|]. destruct l1 as [|y l1]; simpl; [destruct l2; [auto|intros [_ H]; exact H]|].
  intros [_ H]. apply IH. exact H.
Qed.

Lemma chain_tc k x y l1 l2 : chain k (x :: l1 ++ y :: l2) -> tc (fun s t => s ∈ waiters k t) y x.
Proof.
  revert x. induction l1 as [|z l1 IH]; intros x; simpl; intros [Hx H]; [apply tc_once; exact Hx|].
  eapply tc_r; [exact (IH z H)|exact Hx].
Qed.

Lemma chain_waited k l t : chain k (l ++ [t]) -> forall x, x ∈ l -> waiters k x <> [].
Proof.
  induction l as [|y l IH]; intros H x Hx; [inversion Hx|]. apply elem_of_cons in Hx as [->|Hx].
  - destruct l as [|z l]; simpl in H; destruct H as [H _]; intros E; rewrite E in H; inversion H.
  - apply IH; [|exact Hx]. destruct l; simpl in H; [exact I|apply H].
Qed.

Lemma repeated (l : list nat) : ~ NoDup l -> exists x l1 l2 l3, l = l1 ++ x :: l2 ++ x :: l3.
Proof.
  induction l as [|x l IH]; intros H; [destruct H; constructor|]. destruct (decide (x ∈ l)) as [Hx|Hx].
  - apply list_elem_of_split in Hx as (l2 & l3 & ->). exists x, [], l2, l3. reflexivity.
  - destruct IH as (y & l1 & l2 & l3 & ->); [intros Hl; apply H; constructor; assumption|]. exists y, (x :: l1), l2, l3. reflexivity.
Qed.

(** Enough fuel: a longer chain than there are threads has a thread twice. *)
Lemma inherited_ring k t :
  inherited (S (size (k_threads k))) k t = None -> exists u, tc (fun s t => s ∈ waiters k t) u u.
Proof.
  intros E. apply inherited_chain in E as (l & Hl & Hc).
  destruct (exists_last (l := t :: l)) as (l' & z & El); [discriminate|]. rewrite El in Hc.
  assert (Hl' : length l' = S (size (k_threads k))).
  { apply (f_equal length) in El. rewrite length_app in El. simpl in El. lia. }
  destruct (repeated l') as (x & l1 & l2 & l3 & ->).
  - intros Hnd. assert (Hle : (length l' <= length (elements (dom (k_threads k))))%nat).
    { apply submseteq_length, NoDup_submseteq; [exact Hnd|]. intros x Hx. apply elem_of_elements, elem_of_dom.
      pose proof (chain_waited k l' z Hc x Hx) as Hw. unfold waiters, thr in Hw. rewrite lookup_total_alt in Hw.
      destruct (k_threads k !! x); [eauto|]. destruct Hw. reflexivity. }
    rewrite <- size_dom in Hl'. unfold size at 1, set_size in Hl'. simpl in Hl'. lia.
  - exists x. rewrite <- app_assoc in Hc. apply chain_app in Hc. simpl in Hc. rewrite <- app_assoc in Hc. exact (chain_tc k x x l2 _ Hc).
Qed.

(** C5: in every state reached by calls that keep to [call_ok] a thread has at least
    its base priority and at least
    the priority of every thread that waits for one of its mutexes; unless some
    thread waits, through others, for itself, its priority is exactly the greatest
    base priority among itself and the threads it holds up, directly or through
    others.

    Among the calls, [call_ok] leaves out one that would break this:
    [chThdSetPriority] by a thread that runs at its base priority, to a value below
    that of a thread waiting for one of its mutexes ([waiter_above]);
    [set_priority_below_waiter] shows the inheritance lost there. *)
Theorem priority_inherited prios k t :
  Forall (fun p => NOPRIO < p) prios -> k_reach prios k ->
  th_realprio (thr k t) <= prio k t /\ (forall s, s ∈ waiters k t -> prio k s <= prio k t) /\
  (forall fuel p, inherited fuel k t = Some p -> prio k t = p) /\
  ((exists u, tc (fun s t => s ∈ waiters k t) u u) \/ inherited (S (size (k_threads k))) k t = Some (prio k t)).
Proof.
  intros Hp R. destruct (reach_inv prios k Hp R) as [H _]. destruct (ki_lower _ _ _ _ H t) as [[_ L1] L2].
  split; [exact L1|]. split; [|split; [intros fuel; apply inherited_ok; exact H|]].
  - intros s Hs. apply L2, (waiters_blocks k s t (ki_links _ _ _ _ H) (ki_own _ _ _ _ H)), Hs.
  - destruct (inherited (S (size (k_threads k))) k t) as [p|] eqn:E; [right|left; exact (inherited_ring k t E)].
    rewrite (inherited_ok k _ H t p E). reflexivity.
Qed.

(** The main thread holds up two threads, the second through the first. *)
Definition run_chain : list kevent :=
  [KCall (KLock 1); KCall (KStart 2); KCall (KLock 2); KCall (KLock 1); KCall (KStart 3); KCall (KLock 2)].

Lemma priority_inherited_witness :
  let k := after [130; 150] run_chain in
  k_current k = 1%nat /\ waiters k 1 = [2%nat] /\ waiters k 2 = [3%nat] /\ th_realprio (thr k 1) = 128 /\ prio k 1 = 150.
Proof.
  intros k. split; [vm_compute; reflexivity|]. split; [vm_compute; reflexivity|]. split; [vm_compute; reflexivity|].
  split; [vm_compute; reflexivity|].
  apply (priority_inherited [130; 150] k 1 ltac:(repeat constructor) (after_reach _ _)) with (fuel := 3%nat). vm_compute. reflexivity.
Defined.
