(* ===== verification/EvtSpec.v ===== *)
(** * What events promise

    Waits for one event take the lowest bit, dispatching calls the handlers of the
    set bits in order, and a signal wakes exactly the threads that wait for it. *)

From stdpp Require Import gmap sorting.
From S2P Require Import Prelude CInt CLib Threads Sched Mutexes Events Messages Kernel KInv KSched KMutex KLock KUnlock KOps KEvt KMsg KSafe KProps.
#[local] Open Scope Z_scope.

(** ** The lowest bit *)

Lemma odd_part (p : positive) : exists i q, 0 <= i /\ Zpos p = 2 ^ i * (2 * q + 1).
Proof.
  induction p as [p _|p (i & q & Hi & E)|].
  - exists 0, (Zpos p). split; [lia|]. rewrite Z.pow_0_r. lia.
  - exists (i + 1), q. split; [lia|]. rewrite Z.pow_add_r, Z.pow_1_r by lia. lia.
  - exists 0, 0. split; [lia|]. reflexivity.
Qed.

Lemma odd_part_bits i q : 0 <= i ->
  let m := 2 ^ i * (2 * q + 1) in
  Z.testbit m i = true /\ (forall j, j < i -> Z.testbit m j = false) /\
  Z.testbit (m - 1) i = false /\ (forall j, i < j -> Z.testbit (m - 1) j = Z.testbit m j).
Proof.
  intros Hi m. pose proof (Z.pow_pos_nonneg 2 i ltac:(lia) Hi) as Hp.
  assert (Em : m = Z.shiftl (2 * q + 1) i) by (rewrite Z.shiftl_mul_pow2 by exact Hi; unfold m; ring).
  assert (E1 : (m - 1) / 2 ^ i = 2 * q).
  { replace (m - 1) with (2 * q * 2 ^ i + (2 ^ i - 1)) by (unfold m; ring). rewrite Z.div_add_l, Z.div_small by lia. lia. }
  assert (E2 : m / 2 ^ i = 2 * q + 1) by (unfold m; rewrite Z.mul_comm, Z.div_mul; lia).
  split; [|split; [|split]].
  - pose proof (Z.div_pow2_bits m i 0 Hi ltac:(lia)) as D. rewrite Z.add_0_l in D. rewrite <- D, E2. apply Z.testbit_odd_0.
  - intros j Hj. destruct (Z.lt_ge_cases j 0); [apply Z.testbit_neg_r; assumption|]. rewrite Em. apply Z.shiftl_spec_low. exact Hj.
  - pose proof (Z.div_pow2_bits (m - 1) i 0 Hi ltac:(lia)) as D. rewrite Z.add_0_l in D. rewrite <- D, E1. apply Z.testbit_even_0.
  - intros j Hj. replace j with ((j - i) + i) by lia. rewrite <- !Z.div_pow2_bits by lia. rewrite E1, E2.
    replace (j - i) with (Z.succ (j - i - 1)) by lia. rewrite Z.testbit_even_succ, Z.testbit_odd_succ by lia. reflexivity.
Qed.

(** The expression that waits for one event use to choose it, [m ^ (m & (m - 1))],
    is the lowest bit that is set in a mask of pending events. *)
Theorem lowest_event_is_lowest m :
  0 < m < 2 ^ 32 ->
  exists i, 0 <= i < 32 /\ lowest_event m = EVENT_MASK i /\ Z.testbit m i = true /\ forall j, j < i -> Z.testbit m j = false.
Proof.
  intros Hm. destruct m as [|p|p]; try lia. destruct (odd_part p) as (i & q & Hi & E).
  destruct (odd_part_bits i q Hi) as (B1 & B2 & B3 & B4). cbv zeta in *. rewrite <- E in *. set (m := Zpos p) in *.
  assert (Hlt : i < 32).
  { apply (Z.pow_lt_mono_r_iff 2); [lia|lia|]. destruct (Z.lt_ge_cases (2 * q + 1) 1) as [Hq|Hq]; [|nia].
    exfalso. assert (2 * q + 1 <= -1) by lia. pose proof (Z.pow_pos_nonneg 2 i ltac:(lia) Hi). nia. }
  exists i. split; [lia|]. split; [|auto].
  unfold lowest_event, EVENT_MASK. rewrite (u32_id (m - 1)) by (change (2 ^ 32) with 4294967296 in Hm; lia).
  rewrite Z.shiftl_1_l, u32_id.
  - apply Z.bits_inj'. intros j Hj. rewrite Z.lxor_spec, Z.land_spec, Z.pow2_bits_eqb by exact Hi.
    destruct (Z.compare_spec j i) as [->|Hji|Hji].
    + rewrite B1, B3, Z.eqb_refl. reflexivity.
    + rewrite (B2 j Hji), (proj2 (Z.eqb_neq i j)) by lia. reflexivity.
    + rewrite (B4 j Hji), (proj2 (Z.eqb_neq i j)) by lia. destruct (Z.testbit m j); reflexivity.
  - pose proof (Z.pow_pos_nonneg 2 i ltac:(lia) Hi). change 4294967296 with (2 ^ 32).
    pose proof (Z.pow_lt_mono_r 2 i 32 ltac:(lia) ltac:(lia) Hlt). lia.
Qed.

Lemma lowest_event_is_lowest_witness :
  lowest_event 40 = 8 /\
  exists i, 0 <= i < 32 /\ lowest_event 40 = EVENT_MASK i /\ Z.testbit 40 i = true /\ forall j, j < i -> Z.testbit 40 j = false.
Proof. split; [vm_compute; reflexivity|]. apply lowest_event_is_lowest. lia. Defined.

(** ** Dispatching *)

(** The identifiers of the set bits, in order. *)
Definition set_bits (m : Z) : list Z := filter (fun i => Z.testbit m i = true) (seqZ 0 32).

Lemma event_mask eid : 0 <= eid < 32 -> EVENT_MASK eid = 2 ^ eid.
Proof.
  intros H. unfold EVENT_MASK. rewrite Z.shiftl_1_l. apply u32_id. pose proof (Z.pow_pos_nonneg 2 eid ltac:(lia) ltac:(lia)).
  change 4294967296 with (2 ^ 32). pose proof (Z.pow_lt_mono_r 2 eid 32 ltac:(lia) ltac:(lia) ltac:(lia)). lia.
Qed.

Lemma land_pow2 m i : 0 <= i -> (Z.land m (2 ^ i) =? 0) = negb (Z.testbit m i).
Proof.
  intros Hi. destruct (Z.testbit m i) eqn:Eb; simpl.
  - apply Z.eqb_neq. intros E. apply (f_equal (fun z => Z.testbit z i)) in E. rewrite Z.land_spec, Eb, Z.pow2_bits_true, Z.bits_0 in E by exact Hi.
    discriminate.
  - apply Z.eqb_eq. apply Z.bits_inj'. intros j Hj. rewrite Z.land_spec, Z.pow2_bits_eqb, Z.bits_0 by exact Hi.
    destruct (Z.eqb_spec i j) as [->|]; [rewrite Eb; reflexivity|apply andb_false_r].
Qed.

Lemma filter_ext_in {A} (P Q : A -> Prop) `{!forall x, Decision (P x), !forall x, Decision (Q x)} (l : list A) :
  (forall x, x ∈ l -> P x <-> Q x) -> filter P l = filter Q l.
Proof.
  induction l as [|x l IH]; intros HPQ; [reflexivity|]. rewrite !filter_cons, IH by (intros; apply HPQ; right; assumption).
  pose proof (HPQ x ltac:(left)). repeat case_decide; tauto.
Qed.

Lemma dispatch_from n : forall fuel eid m,
  0 <= eid -> eid + Z.of_nat n = 32 -> (n < fuel)%nat -> (forall j, Z.testbit m j = true -> eid <= j < 32) -> 0 <= m ->
  evt_dispatch fuel eid m = Some (filter (fun i => Z.testbit m i = true) (seqZ eid (Z.of_nat n))).
Proof.
  induction n as [|n IH]; intros fuel eid m He Hn Hf Hm Hpos; (destruct fuel as [|fuel]; [lia|]); cbn [evt_dispatch].
  - assert (m = 0) as ->; [|reflexivity]. apply Z.bits_inj_0. intros j. destruct (Z.testbit m j) eqn:E; [|reflexivity].
    apply Hm in E. lia.
  - rewrite seqZ_cons by lia. replace (Z.pred (Z.of_nat (S n))) with (Z.of_nat n) by lia.
    rewrite event_mask by lia. rewrite land_pow2, negb_involutive by lia.
    destruct (Z.eqb_spec m 0) as [->|Hm0].
    { rewrite filter_cons_False by (rewrite Z.bits_0; discriminate).
      rewrite (filter_ext_in _ (fun _ => False)) by (intros; rewrite Z.bits_0; intuition discriminate).
      clear. generalize (seqZ (Z.succ eid) (Z.of_nat n)). intros l. induction l as [|x l IH]; [reflexivity|].
      rewrite filter_cons_False by tauto. exact IH. }
    assert (Hb : forall j, Z.testbit (Z.ldiff m (2 ^ eid)) j = Z.testbit m j && negb (eid =? j)).
    { intros j. rewrite Z.ldiff_spec, Z.pow2_bits_eqb by lia. reflexivity. }
    assert (Hsame : forall j, j ∈ seqZ (eid + 1) (Z.of_nat n) -> Z.testbit (Z.ldiff m (2 ^ eid)) j = Z.testbit m j).
    { intros j Hj. apply elem_of_seqZ in Hj. rewrite Hb, (proj2 (Z.eqb_neq eid j)) by lia. apply andb_true_r. }
    replace (Z.succ eid) with (eid + 1) by lia.
    destruct (Z.testbit m eid) eqn:Eb.
    + rewrite filter_cons_True by exact Eb. rewrite IH; [| lia | lia | lia | |apply Z.ldiff_nonneg; left; exact Hpos].
      * cbn [mbind option_bind]. do 2 f_equal. apply filter_ext_in. intros j Hj. rewrite (Hsame j Hj). reflexivity.
      * intros j. rewrite Hb. intros E. apply andb_prop in E as [E E']. apply negb_true_iff, Z.eqb_neq in E'. apply Hm in E. lia.
    + rewrite filter_cons_False by congruence. apply IH; [lia|lia|lia| |exact Hpos].
      intros j E. assert (j <> eid) by congruence. apply Hm in E. lia.
Qed.

(** Dispatching a mask of events ends for every mask, and calls the handlers of
    exactly the events that are set, each once, the lowest first. *)
Theorem dispatch_set_bits m : 0 <= m < 2 ^ 32 -> chEvtDispatch m = Some (set_bits m).
Proof.
  intros Hm. apply (dispatch_from 32); [lia|lia|lia| |lia]. intros j E.
  destruct (Z.lt_ge_cases j 0) as [Hj|Hj]; [rewrite Z.testbit_neg_r in E by exact Hj; discriminate|]. split; [exact Hj|].
  destruct (Z.lt_ge_cases j 32) as [|Hge]; [assumption|]. rewrite Z.bits_above_log2 in E; [discriminate|lia|].
  destruct (Z.eq_dec m 0) as [->|Hne]; [simpl; lia|]. pose proof (proj1 (Z.log2_lt_pow2 m 32 ltac:(lia)) ltac:(lia)). lia.
Qed.

Lemma dispatch_set_bits_witness : chEvtDispatch 2147483657 = Some [0; 3; 31].
Proof. rewrite (dispatch_set_bits 2147483657) by lia. vm_compute. reflexivity. Defined.

(** ** Signals and waits *)

(** A signal adds its events to those pending for the thread; a thread that waits
    for events is made ready exactly when what is pending now is what it waits for,
    one or all of its events; nothing else changes for it, and nothing for the other
    threads. *)
Theorem signal_wakes_waiting prios k t events :
  Forall (fun p => NOPRIO < p) prios -> k_reach prios k ->
  let pending := Z.lor (th_epending (thr k t)) events in
  exists k', chEvtSignalI t events k = Some k' /\
    th_epending (thr k' t) = pending /\ (forall s, s <> t -> thr k' s = thr k s) /\
    th_state (thr k' t) =
      match th_state (thr k t), th_cont (thr k t) with
      | CH_STATE_WTOREVT, Some (C_evt kind _ mask) | CH_STATE_WTANDEVT, Some (C_evt kind _ mask) =>
          if evt_found kind pending mask then CH_STATE_READY else th_state (thr k t)
      | s, _ => s
      end.
Proof.
  intros Hp R pending. destruct (reach_inv prios k Hp R) as [H _].
  destruct (signalI_ok t events k H) as (k' & E & _ & _ & _ & Ek). fold pending in Ek. set (k1 := set_epending t pending k) in *.
  assert (E1 : thr k1 t = th_with_epending pending (thr k t)) by (unfold k1; unfold set_epending; kg; reflexivity).
  assert (E1' : forall s, s <> t -> thr k1 s = thr k s) by (intros s Hs; unfold k1, set_epending; kg; reflexivity).
  exists k'. split; [exact E|]. rewrite E1 in Ek. cbn [th_state th_u th_epending th_with_epending] in Ek.
  assert (Hw : match th_state (thr k t), th_cont (thr k t) with
               | CH_STATE_WTOREVT, Some (C_evt kind _ mask) | CH_STATE_WTANDEVT, Some (C_evt kind _ mask) =>
                   evt_wakes (th_state (thr k t)) (th_u (thr k t)) pending = evt_found kind pending mask
               | CH_STATE_WTOREVT, _ | CH_STATE_WTANDEVT, _ => False
               | _, _ => evt_wakes (th_state (thr k t)) (th_u (thr k t)) pending = false
               end).
  { destruct (th_state (thr k t)) eqn:Es; try reflexivity;
      (pose proof (to_cont _ _ _ (ki_thr _ _ _ _ H t ltac:(discriminate))) as TC; rewrite Es in TC;
       destruct (th_cont (thr k t)) as [c|];
       [destruct TC as [[[|] _]|TC]; try discriminate;
        destruct c as [| | | | | |[]| |]; simpl in TC; try (exfalso; intuition discriminate); destruct TC as [_ ->]; reflexivity
       |destruct TC as [[|]|]; discriminate]). }
  destruct (evt_wakes _ _ pending) eqn:Ew.
  - destruct Ek as [l ->]. set (k2 := upd_thread t _ k1).
    assert (E2 : thr (readied t l k2) t = th_with_link Q_ready (th_with_state CH_STATE_READY (th_with_u (U_msg MSG_OK) (thr k1 t))))
      by (unfold readied, k2; kg; reflexivity).
    rewrite E2, E1. split; [reflexivity|]. split; [intros s Hs; unfold readied, k2; kg; apply E1'; exact Hs|].
    simpl. destruct (th_state (thr k t)); try discriminate; destruct (th_cont (thr k t)) as [[]|]; try contradiction; rewrite <- Hw; reflexivity.
  - subst k'. rewrite E1. split; [reflexivity|]. split; [exact E1'|]. simpl.
    destruct (th_state (thr k t)); try reflexivity; destruct (th_cont (thr k t)) as [[]|]; try contradiction; rewrite <- Hw; reflexivity.
Qed.

(** A thread waits for all of two events, of which one is pending. *)
Definition run_events : list kevent := [KCall (KStart 2); KCall (KEvtAdd 1); KCall (KEvtWait EvtAll 5)].

Lemma signal_wakes_waiting_witness :
  exists k', chEvtSignalI 2 4 (after [140] run_events) = Some k' /\ th_epending (thr k' 2) = 5 /\
    th_state (thr k' 2) = CH_STATE_READY.
Proof.
  destruct (signal_wakes_waiting [140] (after [140] run_events) 2 4 ltac:(repeat constructor) (after_reach _ _)) as (k' & E & Ee & _ & Es).
  exists k'. split; [exact E|]. split; [rewrite Ee|rewrite Es]; vm_compute; reflexivity.
Defined.

(** A thread that wakes from a wait for events, in any reachable state, has what it
    asked for: unless its wait timed out, when it gets no events, those pending were
    enough, it gets the lowest one, all of them or exactly those asked for, and just
    these are pending no longer. *)
Theorem event_wait_returns prios k kind timed events k' r :
  Forall (fun p => NOPRIO < p) prios -> k_reach prios k ->
  th_cont (thr k (k_current k)) = Some (C_evt kind timed events) -> k_step KContinue k = Some (k', r) ->
  let t := k_current k in
  let pending := th_epending (thr k t) in
  (timed = true /\ th_u (thr k t) = U_msg MSG_TIMEOUT /\ r = Some (RMask 0) /\ th_epending (thr k' t) = pending) \/
  (evt_found kind pending events = true /\ r = Some (RMask (evt_taken kind pending events)) /\
   th_epending (thr k' t) = Z.ldiff pending (evt_taken kind pending events)).
Proof.
  intros Hp R Ec E t pending. destruct (reach_inv prios k Hp R) as [H Ht].
  destruct (continue_ok k _ H Ht Ec) as [C HR]. cbv zeta in HR. simpl k_step in E. unfold continue in E. rewrite Ec in E.
  cbn [mbind option_bind exec_cont] in E. fold t in E, HR, C. set (k1 := upd_thread t _ k) in *. change (k_current k1) with t in *.
  assert (Et : thr k1 t = th_with_cont None (th_with_timer false (thr k t))) by (unfold k1; kg; reflexivity).
  simpl in HR. rewrite Et in HR. simpl in HR. fold pending in HR.
  assert (Htake : evt_take kind events k1 = Some (k', r) -> evt_found kind pending events = true ->
    evt_found kind pending events = true /\ r = Some (RMask (evt_taken kind pending events)) /\
    th_epending (thr k' t) = Z.ldiff pending (evt_taken kind pending events)).
  { intros Ek Hf. unfold evt_take in Ek. change (k_current k1) with t in Ek. rewrite Et in Ek. injection Ek as <- <-.
    split; [exact Hf|]. split; [reflexivity|]. unfold set_epending. kg. reflexivity. }
  unfold evt_woken, rdymsg in E. change (k_current k1) with t in E. rewrite Et in E. cbn [th_u th_with_cont th_with_timer] in E.
  destruct HR as [[-> Hu]|[Hu Hf]].
  - left. rewrite Hu in E. cbn [mbind option_bind] in E. change (MSG_TIMEOUT <? MSG_OK) with true in E. injection E as <- <-.
    split; [reflexivity|]. split; [exact Hu|]. split; [reflexivity|]. rewrite Et. reflexivity.
  - right. destruct timed; [|exact (Htake E Hf)]. rewrite (Hu eq_refl) in E. cbn [mbind option_bind] in E.
    change (MSG_OK <? MSG_OK) with false in E. exact (Htake E Hf).
Qed.

Lemma event_wait_returns_witness :
  let k := after [140] (run_events ++ [KIsr (IEvtSignal 2 12)]) in
  exists k', k_step KContinue k = Some (k', Some (RMask 5)) /\ th_epending (thr k' 2) = 8.
Proof.
  intros k. assert (Ec : th_cont (thr k (k_current k)) = Some (C_evt EvtAll false 5)) by (vm_compute; reflexivity).
  destruct (k_step KContinue k) as [[k' r]|] eqn:E; [|vm_compute in E; discriminate].
  destruct (event_wait_returns [140] k EvtAll false 5 k' r ltac:(repeat constructor) (after_reach _ _) Ec E) as [[H _]|(_ & Er & Ep)];
    [discriminate|].
  exists k'. change (k_current k) with 2%nat in Er, Ep. rewrite Er. change (thr k 2) with (thr k 2%nat) in Ep. rewrite Ep.
  split; [do 3 f_equal|]; vm_compute; reflexivity.
Defined.
