(* ===== verification/MtxSpec.v ===== *)
(** * What mutexes promise

    A mutex changes hands only when its owner lets go of it, and then goes to the
    waiting thread that comes first; the chain of owners that inherits a priority
    ends. *)

From stdpp Require Import gmap sorting.
From S2P Require Import Prelude CInt CLib Threads Sched Mutexes Events Messages Kernel KInv KSched KMutex KLock KUnlock KOps KEvt KMsg KSafe KProps.
#[local] Open Scope Z_scope.

(** ** What the rest of the kernel leaves alone *)

(** The owners of all mutexes are the same. *)
Definition mtx_eq (k k' : kernel) : Prop := k_owner k' = k_owner k.

Lemma mtx_eq_refl k : mtx_eq k k. Proof. reflexivity. Qed.
Lemma mtx_eq_trans k1 k2 k3 : mtx_eq k1 k2 -> mtx_eq k2 k3 -> mtx_eq k1 k3.
Proof. unfold mtx_eq. congruence. Qed.

Lemma mtx_upd_thread t f k : mtx_eq k (upd_thread t f k). Proof. reflexivity. Qed.
Lemma mtx_upd_queue q l k : mtx_eq k (upd_queue q l k). Proof. reflexivity. Qed.
Lemma mtx_set_current t k : mtx_eq k (set_current t k). Proof. reflexivity. Qed.
Lemma mtx_set_ref r o k : mtx_eq k (set_ref r o k). Proof. reflexivity. Qed.
Lemma mtx_set_listener el l k : mtx_eq k (set_listener el l k). Proof. reflexivity. Qed.
Lemma mtx_set_source es ls k : mtx_eq k (set_source es ls k). Proof. reflexivity. Qed.

Create HintDb mtx.

(** Peels the updates off a kernel that has the same mutexes. *)
Ltac same :=
  unfold set_state, set_epending;
  lazymatch goal with
  | |- mtx_eq _ (upd_thread _ _ _) => eapply mtx_eq_trans; [|apply mtx_upd_thread]; same
  | |- mtx_eq _ (set_current _ _) => eapply mtx_eq_trans; [|apply mtx_set_current]; same
  | |- mtx_eq _ (set_ref _ _ _) => eapply mtx_eq_trans; [|apply mtx_set_ref]; same
  | |- mtx_eq _ (set_listener _ _ _) => eapply mtx_eq_trans; [|apply mtx_set_listener]; same
  | |- mtx_eq _ (set_source _ _ _) => eapply mtx_eq_trans; [|apply mtx_set_source]; same
  | |- mtx_eq _ (upd_queue _ _ _) => eapply mtx_eq_trans; [|apply mtx_upd_queue]; same
  | |- mtx_eq _ (if ?b then _ else _) => destruct b; same
  | |- mtx_eq _ _ => apply mtx_eq_refl
  end.

(** The operation leaves the mutexes alone. *)
Definition mtx_keeps (k : kernel) (o : option kernel) : Prop := forall k', o = Some k' -> mtx_eq k k'.
Definition mtx_keeps_call {A} (k : kernel) (o : option (kernel * A)) : Prop := forall k' r, o = Some (k', r) -> mtx_eq k k'.

Lemma keeps_some k k' : mtx_eq k k' -> mtx_keeps k (Some k'). Proof. intros H k2 [= <-]. exact H. Qed.
Lemma keeps_call_some {A} k k' (r : A) : mtx_eq k k' -> mtx_keeps_call k (Some (k', r)). Proof. intros H k2 r2 [= <- <-]. exact H. Qed.
Lemma keeps_none k : mtx_keeps k None. Proof. discriminate. Qed.
Lemma keeps_call_none {A} k : @mtx_keeps_call A k None. Proof. discriminate. Qed.

Lemma keeps_from k1 k o : mtx_eq k1 k -> mtx_keeps k o -> mtx_keeps k1 o.
Proof. intros H Ho k' E. exact (mtx_eq_trans _ _ _ H (Ho k' E)). Qed.
Lemma keeps_call_from {A} k1 k (o : option (kernel * A)) : mtx_eq k1 k -> mtx_keeps_call k o -> mtx_keeps_call k1 o.
Proof. intros H Ho k' r E. exact (mtx_eq_trans _ _ _ H (Ho k' r E)). Qed.

Lemma keeps_bind k o f : mtx_keeps k o -> (forall k1, mtx_keeps k1 (f k1)) -> mtx_keeps k (k1 ← o; f k1).
Proof. intros Ho Hf k' E. destruct o as [k1|]; [|discriminate]. exact (mtx_eq_trans _ _ _ (Ho k1 eq_refl) (Hf k1 k' E)). Qed.
Lemma keeps_call_bind {A} k o (f : kernel -> option (kernel * A)) :
  mtx_keeps k o -> (forall k1, mtx_keeps_call k1 (f k1)) -> mtx_keeps_call k (k1 ← o; f k1).
Proof. intros Ho Hf k' r E. destruct o as [k1|]; [|discriminate]. exact (mtx_eq_trans _ _ _ (Ho k1 eq_refl) (Hf k1 k' r E)). Qed.
Lemma keeps_bind_call {A} k (o : option (kernel * A)) (f : kernel * A -> option kernel) :
  mtx_keeps_call k o -> (forall k1 a, mtx_keeps k1 (f (k1, a))) -> mtx_keeps k (p ← o; f p).
Proof. intros Ho Hf k' E. destruct o as [[k1 a]|]; [|discriminate]. exact (mtx_eq_trans _ _ _ (Ho k1 a eq_refl) (Hf k1 a k' E)). Qed.
Lemma keeps_call_bind_call {A B} k (o : option (kernel * A)) (f : kernel * A -> option (kernel * B)) :
  mtx_keeps_call k o -> (forall k1 a, mtx_keeps_call k1 (f (k1, a))) -> mtx_keeps_call k (p ← o; f p).
Proof. intros Ho Hf k' r E. destruct o as [[k1 a]|]; [|discriminate]. exact (mtx_eq_trans _ _ _ (Ho k1 a eq_refl) (Hf k1 a k' r E)). Qed.
Lemma keeps_check k b (f : unit -> option kernel) : mtx_keeps k (f tt) -> mtx_keeps k (u ← check b; f u).
Proof. destruct b; [auto|discriminate]. Qed.
Lemma keeps_call_check {A} k b (f : unit -> option (kernel * A)) : mtx_keeps_call k (f tt) -> mtx_keeps_call k (u ← check b; f u).
Proof. destruct b; [auto|discriminate]. Qed.

(** One step through the code of an operation. *)
Ltac keep1 :=
  match goal with
  | |- mtx_keeps _ None => apply keeps_none
  | |- mtx_keeps_call _ None => apply keeps_call_none
  | |- mtx_keeps _ (check _ ≫= _) => apply keeps_check
  | |- mtx_keeps_call _ (check _ ≫= _) => apply keeps_call_check
  | |- mtx_keeps _ (match ?x with _ => _ end) => destruct x
  | |- mtx_keeps_call _ (match ?x with _ => _ end) => destruct x
  | |- mtx_keeps _ (?o ≫= _) =>
      first [apply keeps_bind; [|intros ?] | apply keeps_bind_call; [|intros ? ?] | destruct o; cbn [mbind option_bind]]
  | |- mtx_keeps_call _ (?o ≫= _) =>
      first [apply keeps_call_bind; [|intros ?] | apply keeps_call_bind_call; [|intros ? ?] | destruct o; cbn [mbind option_bind]]
  end.
Ltac keeps :=
  cbn zeta; repeat keep1;
  lazymatch goal with
  | |- mtx_keeps _ (Some _) => apply keeps_some; same
  | |- mtx_keeps_call _ (Some _) => apply keeps_call_some; same
  | |- mtx_keeps _ _ => eapply keeps_from; [|solve [eauto 2 with mtx]]; same
  | |- mtx_keeps_call _ _ => eapply keeps_call_from; [|solve [eauto 2 with mtx]]; same
  end.

Lemma link_in_keeps q t l k : mtx_keeps k (link_in q t l k).
Proof. unfold link_in. keeps. Qed.
Lemma fifo_remove_keeps q k : mtx_keeps_call k (ch_queue_fifo_remove q k).
Proof. unfold ch_queue_fifo_remove. keeps. Qed.
#[export] Hint Resolve link_in_keeps fifo_remove_keeps : mtx.

Lemma pick_keeps k : mtx_keeps k (sch_pick k).
Proof. unfold sch_pick, ch_pqueue_remove_highest. keeps. Qed.
Lemma ready_behind_keeps t k : mtx_keeps k (sch_ready_behind t k).
Proof. unfold sch_ready_behind, ch_pqueue_insert_behind. keeps. Qed.
Lemma ready_ahead_keeps t k : mtx_keeps k (sch_ready_ahead t k).
Proof. unfold sch_ready_ahead, ch_pqueue_insert_ahead. keeps. Qed.
#[export] Hint Resolve pick_keeps ready_behind_keeps ready_ahead_keeps : mtx.

Lemma reschedule_keeps k : mtx_keeps k (chSchRescheduleS k).
Proof. unfold chSchRescheduleS, sch_reschedule_ahead. keeps. Qed.
Lemma epilogue_keeps k : mtx_keeps k (isr_epilogue k).
Proof. exact (reschedule_keeps k). Qed.
Lemma yield_keeps k : mtx_keeps k (chSchDoYieldS k).
Proof. unfold chSchDoYieldS, sch_reschedule_behind. keeps. Qed.
Lemma gosleep_keeps s c k : mtx_keeps k (chSchGoSleepS s c k).
Proof. unfold chSchGoSleepS. keeps. Qed.
#[export] Hint Resolve reschedule_keeps epilogue_keeps yield_keeps gosleep_keeps : mtx.

Lemma gosleep_timeout_keeps s timeout c k : mtx_keeps k (chSchGoSleepTimeoutS s timeout c k).
Proof. unfold chSchGoSleepTimeoutS. keeps. Qed.
Lemma wakeup_keeps t msg k : mtx_keeps k (chSchWakeupS t msg k).
Proof. unfold chSchWakeupS. keeps. Qed.
#[export] Hint Resolve gosleep_timeout_keeps wakeup_keeps : mtx.

(** ** Calls that leave the mutexes alone *)

Lemma cond_signal_keeps c k : mtx_keeps_call k (chCondSignal c k).
Proof. unfold chCondSignal. keeps. Qed.
Lemma cond_signalI_keeps c k : mtx_keeps k (chCondSignalI c k).
Proof. unfold chCondSignalI, chSchReadyI. keeps. Qed.
Lemma cond_broadcast_keeps c n : forall k, mtx_keeps k (cond_broadcast n c k).
Proof.
  induction n as [|n IH]; intros k; cbn [cond_broadcast]; unfold chSchReadyI; repeat keep1; [keeps..|].
  eapply keeps_from; [|apply IH]. same.
Qed.
Lemma cond_broadcastI_keeps c k : mtx_keeps k (chCondBroadcastI c k).
Proof. apply cond_broadcast_keeps. Qed.
#[export] Hint Resolve cond_signal_keeps cond_signalI_keeps cond_broadcastI_keeps : mtx.

Lemma signalI_keeps t events k : mtx_keeps k (chEvtSignalI t events k).
Proof. unfold chEvtSignalI, chSchReadyI. keeps. Qed.
#[export] Hint Resolve signalI_keeps : mtx.
Lemma notify_all_keeps flags ls : forall k, mtx_keeps k (evt_notify_all flags ls k).
Proof.
  induction ls as [|el ls IH]; intros k; cbn [evt_notify_all]; [keeps|]. apply keeps_bind; [|exact IH].
  unfold evt_notify. destruct (k_listeners k !! el); [|apply keeps_none]. cbn [mbind option_bind]. keeps.
Qed.
#[export] Hint Resolve notify_all_keeps : mtx.
Lemma evt_take_keeps kind events k : mtx_keeps_call k (evt_take kind events k).
Proof. unfold evt_take. keeps. Qed.
Lemma evt_woken_keeps kind timed events k : mtx_keeps_call k (evt_woken kind timed events k).
Proof.
  unfold evt_woken. destruct timed; [|apply evt_take_keeps]. destruct (rdymsg k (k_current k)) as [msg|]; [|apply keeps_call_none].
  cbn [mbind option_bind]. destruct (msg <? MSG_OK); [keeps|apply evt_take_keeps].
Qed.

Lemma msg_take_keeps k : mtx_keeps_call k (msg_take k).
Proof. unfold msg_take. keeps. Qed.
#[export] Hint Resolve evt_take_keeps evt_woken_keeps msg_take_keeps : mtx.
Lemma msg_woken_keeps timed k : mtx_keeps_call k (msg_woken timed k).
Proof. unfold msg_woken. keeps. Qed.
Lemma send_keeps t msg k : mtx_keeps_call k (chMsgSend t msg k).
Proof. unfold chMsgSend, ch_queue_insert, chSchReadyI. keeps. Qed.
#[export] Hint Resolve msg_woken_keeps : mtx.

Lemma resumeI_keeps r msg k : mtx_keeps k (chThdResumeI r msg k).
Proof. unfold chThdResumeI, chSchReadyI. keeps. Qed.
Lemma resumeS_keeps r msg k : mtx_keeps k (chThdResumeS r msg k).
Proof. unfold chThdResumeS. keeps. Qed.
Lemma suspend_keeps r k : mtx_keeps k (suspend_at r k).
Proof. unfold suspend_at. keeps. Qed.
Lemma exit_wake_keeps t n : forall k, mtx_keeps k (exit_wake n (Q_exit t) k).
Proof.
  induction n as [|n IH]; intros k; cbn [exit_wake]; unfold ch_list_unlink, chSchReadyI; [keeps|].
  apply keeps_bind_call; [keeps|]. intros k1 s. apply keeps_bind; [keeps|exact IH].
Qed.
#[export] Hint Resolve resumeI_keeps resumeS_keeps suspend_keeps exit_wake_keeps : mtx.

Lemma dequeue_keeps t k : mtx_keeps k (ch_queue_dequeue t k).
Proof. unfold ch_queue_dequeue. keeps. Qed.
#[export] Hint Resolve dequeue_keeps : mtx.
Lemma timeout_keeps t k : mtx_keeps k (sch_wakeup t k).
Proof. unfold sch_wakeup. keeps. Qed.
#[export] Hint Resolve timeout_keeps : mtx.

Lemma call_keeps op k :
  match op with
  | KLock _ | KTryLock _ | KUnlock _ | KUnlockAll | KCondWait _ | KCondWaitTimeout _ _ => True
  | _ => mtx_keeps_call k (exec_call op k)
  end.
Proof.
  destruct op; try exact I; simpl exec_call.
  - apply cond_signal_keeps.
  - unfold chCondBroadcast. keeps.
  - unfold chEvtRegisterMaskWithFlagsI. keeps.
  - intros k' r [= <- <-]. reflexivity.
  - unfold chEvtSignal. keeps.
  - unfold chEvtBroadcastFlags, chEvtBroadcastFlagsI. keeps.
  - intros k' r [= <- <-]. reflexivity.
  - intros k' r [= <- <-]. reflexivity.
  - unfold chEvtGetAndClearFlagsI. destruct (k_listeners k !! el); [|discriminate]. intros k' r [= <- <-]. reflexivity.
  - unfold chEvtWait. keeps.
  - unfold chEvtWaitTimeout. keeps.
  - apply send_keeps.
  - unfold chMsgWait, chMsgWaitS. keeps.
  - unfold chMsgWaitTimeout, chMsgWaitTimeoutS. keeps.
  - unfold chMsgPoll, chMsgPollS. keeps.
  - unfold chMsgRelease, chMsgReleaseS. keeps.
  - unfold chThdStart. keeps.
  - unfold chThdSetPriority. keeps.
  - unfold chThdYield. keeps.
  - unfold chThdSleepS. keeps.
  - unfold chThdSuspendS. keeps.
  - unfold chThdSuspendTimeoutS. keeps.
  - unfold chThdResume. keeps.
  - unfold chThdExitS, REG_REMOVE. keeps.
  - unfold chThdWait, ch_list_link. keeps.
  - unfold chThdAddRef. keeps.
  - unfold chThdRelease, REG_REMOVE. keeps.
Qed.

Lemma isr_keeps op k : mtx_keeps k (exec_isr op k).
Proof. destruct op; simpl; unfold chEvtBroadcastFlagsI; keeps. Qed.

(** ** Calls that lock and unlock *)

Lemma owner_give m t k m' : owner (mtx_give m t k) m' = if decide (m' = m) then Some t else owner k m'.
Proof. unfold mtx_give. kg; reflexivity. Qed.

Lemma keeps_owner k k' m : mtx_eq k k' -> owner k' m = owner k m.
Proof. unfold mtx_eq, owner. intros ->. reflexivity. Qed.

(** A lock takes a free mutex and returns, or waits and takes none. *)
Lemma lock_owner m r k k' r' :
  kinv None None None k -> mtx_lock m r k = Some (k', r') ->
  (owner k m = None /\ k' = mtx_give m (k_current k) k /\ r' = Some r) \/
  ((exists o, owner k m = Some o) /\ (forall m', owner k' m' = owner k m') /\ r' = None).
Proof.
  intros H E. unfold mtx_lock in E. destruct (owner k m) as [o|] eqn:Ho; [right|left; injection E as <- <-; auto].
  destruct (boost_ok None o (prio k (k_current k)) m k H Ho) as (k1 & E1 & _ & _ & Li). rewrite E1 in E. cbn [mbind option_bind] in E.
  split; [eauto|]. assert (K : mtx_keeps_call k1 (k0 ← ch_sch_prio_insert (Q_mtx m) (k_current k) k1;
    k2 ← chSchGoSleepS CH_STATE_WTMTX (C_mtx m r) (upd_thread (k_current k) (th_with_u (U_wtmtxp m)) k0); Some (k2, @None kresult))).
  { unfold ch_sch_prio_insert. keeps. }
  specialize (K _ _ E). split; [|destruct (ch_sch_prio_insert _ _ k1); [|discriminate]; cbn [mbind option_bind] in E;
    destruct (chSchGoSleepS _ _ _); [|discriminate]; injection E as _ <-; reflexivity].
  intros m'. rewrite (keeps_owner k1 k' m' K). apply (li_owner _ _ _ Li).
Qed.

Lemma hand_over_owner m k k' : mtx_hand_over m k = Some k' ->
  owner k' m = match queue k (Q_mtx m) with [] => None | t :: _ => Some t end /\ forall m', m' <> m -> owner k' m' = owner k m'.
Proof.
  unfold mtx_hand_over, chMtxQueueNotEmptyS, ch_queue_fifo_remove. destruct (queue k (Q_mtx m)) as [|t l]; cbn [mbind option_bind].
  - intros [= <-]. split; [kg; reflexivity|]. intros m' Hm. kg. reflexivity.
  - intros E. unfold chSchReadyI in E. apply (ready_behind_keeps t (mtx_give m t _)) in E.
    split; [rewrite (keeps_owner _ _ _ E), owner_give, decide_True; reflexivity|].
    intros m' Hm. rewrite (keeps_owner _ _ _ E), owner_give, decide_False by exact Hm. reflexivity.
Qed.

Lemma unlock_owner m k k' :
  chMtxUnlockS m k = Some k' ->
  owner k m = Some (k_current k) /\ owner k' m = match queue k (Q_mtx m) with [] => None | t :: _ => Some t end /\
  forall m', m' <> m -> owner k' m' = owner k m'.
Proof.
  unfold chMtxUnlockS. destruct (th_mtxlist _) as [|top ms]; [discriminate|].
  destruct (bool_decide _) eqn:Eb; [|discriminate]. apply bool_decide_eq_true in Eb. change (check true) with (Some tt).
  cbn [mbind option_bind]. destruct (Nat.eqb top m) eqn:Em; [|discriminate]. apply Nat.eqb_eq in Em. subst top.
  change (check true) with (Some tt). cbn [mbind option_bind]. intros E. apply hand_over_owner in E as [E1 E2].
  split; [exact Eb|]. destruct (chMtxQueueNotEmptyS m (upd_thread (k_current k) (th_with_mtxlist ms) k)); auto.
Qed.

Lemma unlock_all_owner t ms : forall k k',
  unlock_all t ms k = Some k' -> forall m, m ∉ ms -> owner k' m = owner k m.
Proof.
  induction ms as [|m ms IH]; intros k k' E m' Hm; [injection E as <-; reflexivity|]. cbn [unlock_all] in E.
  destruct (mtx_hand_over _ _) as [k1|] eqn:E1; [|discriminate]. cbn [mbind option_bind] in E.
  apply hand_over_owner in E1 as [_ E1]. apply not_elem_of_cons in Hm as [Hm1 Hm2].
  rewrite (IH k1 k' E m' Hm2). apply E1. exact Hm1.
Qed.

(** The calls by which a thread lets go of mutexes. *)
Definition lets_go (e : kevent) : bool :=
  match e with
  | KCall (KUnlock _) | KCall KUnlockAll | KCall (KCondWait _) | KCall (KCondWaitTimeout _ _) => true
  | _ => false
  end.

Lemma unlock_keeps_owner m k k1 k' m' t :
  chMtxUnlockS m k = Some k1 -> mtx_eq k1 k' -> owner k m' = Some t -> owner k' m' = Some t \/ t = k_current k.
Proof.
  intros E Ek Ho. apply unlock_owner in E as (E1 & _ & E2). destruct (decide (m' = m)) as [->|Hne]; [right; congruence|left].
  rewrite (keeps_owner _ _ _ Ek), (E2 m' Hne). exact Ho.
Qed.

Lemma enqueue_keeps_owner c k k1 m m' t :
  cond_enqueue c k = Some (k1, m) -> owner k m' = Some t -> owner k1 m' = Some t \/ t = k_current k.
Proof.
  unfold cond_enqueue. destruct (chMtxGetNextMutexX k) as [m0|]; [|discriminate]. cbn [mbind option_bind].
  destruct (chMtxUnlockS m0 k) as [k2|] eqn:E2; [|discriminate]. cbn [mbind option_bind].
  destruct (ch_sch_prio_insert _ _ _) as [k3|] eqn:E3; [|discriminate]. cbn [mbind option_bind]. intros [= <- <-].
  apply (unlock_keeps_owner m0 k k2 k3 m' t E2). unfold ch_sch_prio_insert in E3. exact (link_in_keeps _ _ _ _ _ E3).
Qed.

Lemma cont_keeps c k :
  match c with C_cond _ _ => True | _ => mtx_keeps_call k (exec_cont c k) end.
Proof.
  destruct c; try exact I; simpl exec_cont; try solve [keeps].
  unfold mtx_locked. keeps.
Qed.

(** C6: a mutex that a thread owns stays its own through every call, handler, timeout
    and switch, in every reachable state, but for the unlocking calls and the waits
    at condition variables of the owner itself: critical sections exclude each
    other. *)
Theorem mutex_exclusive prios k e k' r m t :
  Forall (fun p => NOPRIO < p) prios -> k_reach prios k -> k_enabled e k = true -> k_step e k = Some (k', r) ->
  owner k m = Some t -> owner k' m = Some t \/ (t = k_current k /\ lets_go e = true).
Proof.
  intros Hp R He E Ho. destruct (reach_inv prios k Hp R) as [H Ht].
  assert (Hk : mtx_keeps_call k (k_step e k) -> owner k' m = Some t) by (intros Hk; rewrite (keeps_owner k k' m (Hk _ _ E)); exact Ho).
  assert (Hlock : forall k0 m' r', kinv None None None k0 -> owner k0 m = Some t -> mtx_lock m' r' k0 = Some (k', r) -> owner k' m = Some t).
  { intros k0 m' r' H0 Ho0 E0. destruct (lock_owner m' r' k0 k' r H0 E0) as [(Hn & -> & _)|(_ & Hs & _)].
    - rewrite owner_give. case_decide; [congruence|exact Ho0].
    - rewrite Hs. exact Ho0. }
  destruct e as [op| |op|s]; simpl k_step in *.
  - pose proof (call_keeps op k) as K. destruct op; try (left; exact (Hk K)); simpl in E.
    + left. exact (Hlock k m0 RVoid H Ho E).
    + left. unfold chMtxTryLock, chMtxTryLockS in E. destruct (owner k m0) eqn:Em; injection E as <- _; [exact Ho|].
      rewrite owner_give. case_decide; [congruence|exact Ho].
    + unfold chMtxUnlock in E. destruct (chMtxUnlockS m0 k) as [k1|] eqn:E1; [|discriminate]. cbn [mbind option_bind] in E.
      destruct (unlock_keeps_owner m0 k k1 k' m t E1) as [?| ->]; [|exact Ho|auto|auto].
      destruct (chMtxQueueNotEmptyS m0 k); [|injection E as <- _; reflexivity].
      destruct (chSchRescheduleS k1) as [k2|] eqn:E2; [|discriminate]. injection E as <- _. exact (reschedule_keeps k1 k2 E2).
    + unfold chMtxUnlockAll, chMtxUnlockAllS in E. destruct (th_mtxlist (thr k (k_current k))) as [|m0 ms] eqn:Em; [left; injection E as <- _; exact Ho|].
      destruct (unlock_all _ (m0 :: ms) k) as [k1|] eqn:E1; [|discriminate]. cbn [mbind option_bind] in E.
      destruct (decide (m ∈ m0 :: ms)) as [Hin|Hin].
      * right. rewrite <- Em in Hin. apply (ow_list k (ki_own _ _ _ _ H)) in Hin. split; [congruence|reflexivity].
      * left. destruct (chSchRescheduleS _) as [k2|] eqn:E2; [|discriminate]. injection E as <- _.
        rewrite (keeps_owner _ _ m (reschedule_keeps _ _ E2)). change (owner k1 m = Some t). rewrite (unlock_all_owner _ _ k k1 E1 m Hin). exact Ho.
    + unfold chCondWaitS in E. destruct (cond_enqueue c k) as [[k1 m']|] eqn:E1; [|discriminate]. cbn [mbind option_bind] in E.
      destruct (chSchGoSleepS _ _ k1) as [k2|] eqn:E2; [|discriminate]. injection E as <- _.
      rewrite (keeps_owner _ _ m (gosleep_keeps _ _ _ _ E2)).
      destruct (enqueue_keeps_owner c k k1 m' m t E1 Ho) as [?| ->]; auto.
    + unfold chCondWaitTimeoutS in E. destruct (check _); [|discriminate]. cbn [mbind option_bind] in E.
      destruct (cond_enqueue c k) as [[k1 m']|] eqn:E1; [|discriminate]. cbn [mbind option_bind] in E.
      destruct (chSchGoSleepTimeoutS _ _ _ k1) as [k2|] eqn:E2; [|discriminate]. injection E as <- _.
      rewrite (keeps_owner _ _ m (gosleep_timeout_keeps _ _ _ _ _ E2)).
      destruct (enqueue_keeps_owner c k k1 m' m t E1 Ho) as [?| ->]; auto.
  - left. unfold continue in *. destruct (th_cont (thr k (k_current k))) as [c|] eqn:Ec; [|discriminate]. cbn [mbind option_bind] in *.
    destruct (continue_ok k c H Ht Ec) as [C _]. set (k1 := upd_thread _ _ k) in *.
    assert (Ho1 : owner k1 m = Some t) by exact Ho. pose proof (cont_keeps c k1) as K.
    destruct c as [|m' timed| | | | | | |]; try (rewrite (keeps_owner k1 k' m (K k' r E)); exact Ho1).
    simpl in E. unfold cond_woken in E. destruct (rdymsg _ _) as [msg|]; [|discriminate]. cbn [mbind option_bind] in E.
    destruct (timed && _); [injection E as <- _; exact Ho1|]. exact (Hlock k1 m' (RMsg msg) (ca_inv k1 C) Ho1 E).
  - left. apply Hk. apply keeps_call_bind; [apply isr_keeps|]. intros k1. keeps.
  - left. apply Hk. keeps.
Qed.

(** A thread of higher priority preempts the owner and tries to lock. *)
Lemma mutex_exclusive_witness :
  let k := after [140] [KCall (KLock 1); KCall (KStart 2)] in
  exists k' r, k_step (KCall (KLock 1)) k = Some (k', r) /\ k_current k = 2%nat /\ owner k' 1 = Some 1%nat.
Proof.
  intros k. destruct (k_step (KCall (KLock 1)) k) as [[k' r]|] eqn:E; [|vm_compute in E; discriminate].
  exists k', r. split; [reflexivity|]. split; [vm_compute; reflexivity|].
  destruct (mutex_exclusive [140] k (KCall (KLock 1)) k' r 1 1 ltac:(repeat constructor) (after_reach _ _)) as [Ho|[_ Ho]];
    [vm_compute; reflexivity|exact E|vm_compute; reflexivity|exact Ho|discriminate].
Defined.

(** Locking, in any reachable state: a call that returns at once has found the
    mutex free, and its thread owns it then; a call that does not has found an owner,
    takes nothing, and leaves its thread waiting for the mutex; and when that thread
    runs again it owns the mutex. *)
Theorem lock_gives_ownership prios k e k' r m :
  Forall (fun p => NOPRIO < p) prios -> k_reach prios k -> k_enabled e k = true -> k_step e k = Some (k', r) ->
  (e = KCall (KLock m) ->
     match owner k m with
     | Some o => r = None /\ owner k' m = Some o /\ th_cont (thr k' (k_current k)) = Some (C_mtx m RVoid)
     | None => r = Some RVoid /\ owner k' m = Some (k_current k) /\ k_current k' = k_current k
     end) /\
  (forall res, e = KContinue -> th_cont (thr k (k_current k)) = Some (C_mtx m res) ->
     r = Some res /\ owner k' m = Some (k_current k) /\ k_current k' = k_current k).
Proof.
  intros Hp R He E. destruct (reach_inv prios k Hp R) as [H Ht]. split.
  - intros ->. simpl in E. unfold chMtxLock, chMtxLockS in E. pose proof E as E'.
    destruct (lock_owner m RVoid k k' r H E) as [(Hn & -> & ->)|([o Hn] & Hs & ->)]; rewrite Hn.
    + split; [reflexivity|]. split; [rewrite owner_give, decide_True; reflexivity|reflexivity].
    + split; [reflexivity|]. split; [rewrite Hs, Hn; reflexivity|]. clear E. unfold mtx_lock in E'. rewrite Hn in E'.
      destruct (boost_ok None o (prio k (k_current k)) m k H Hn) as (k1 & E1 & _ & _ & Li). rewrite E1 in E'. cbn [mbind option_bind] in E'.
      destruct (ch_sch_prio_insert _ _ k1) as [k2|] eqn:E2; [|discriminate]. cbn [mbind option_bind] in E'.
      set (k3 := upd_thread _ _ k2) in *. unfold chSchGoSleepS in E'. destruct (check _); [|discriminate]. cbn [mbind option_bind] in E'.
      unfold ch_sch_prio_insert, link_in in E2. destruct (check _); [|discriminate]. cbn [mbind option_bind] in E2.
      injection E2 as E2. assert (Ec : k_current k3 = k_current k) by (unfold k3; rewrite <- E2; apply (li_cur _ _ _ Li)).
      rewrite Ec in E'. set (k4 := upd_thread (k_current k) _ (set_state _ _ k3)) in *. unfold sch_pick, ch_pqueue_remove_highest, ch_queue_fifo_remove in E'.
      destruct (queue k4 Q_ready) as [|n l]; [discriminate|]. cbn [mbind option_bind] in E'. injection E' as <-.
      unfold k4. kg; reflexivity.
  - intros res -> Ec. simpl in E. unfold continue in E. rewrite Ec in E. cbn [mbind option_bind exec_cont] in E.
    unfold mtx_locked in E. destruct (bool_decide (owner _ m = _)) eqn:Eb; [|discriminate]. apply bool_decide_eq_true in Eb.
    change (check true) with (Some tt) in E. cbn [mbind option_bind] in E. destruct (check _); [|discriminate]. cbn [mbind option_bind] in E.
    injection E as <- <-. split; [reflexivity|]. split; [exact Eb|reflexivity].
Qed.

Lemma lock_gives_ownership_witness :
  let k := after [140] (run_lock ++ [KCall (KUnlock 1)]) in
  exists k', k_step KContinue k = Some (k', Some RVoid) /\ owner k' 1 = Some 2%nat.
Proof.
  intros k. destruct (k_step KContinue k) as [[k' r]|] eqn:E; [|vm_compute in E; discriminate].
  destruct (lock_gives_ownership [140] k KContinue k' r 1 ltac:(repeat constructor) (after_reach _ _)) as [_ L];
    [vm_compute; reflexivity|exact E|].
  destruct (L RVoid eq_refl) as (-> & Ho & _); [vm_compute; reflexivity|]. exists k'. split; [reflexivity|]. rewrite Ho. vm_compute. reflexivity.
Defined.

(** ** Handing over *)

(** Passes the checks that an operation that is defined has made. *)
Ltac unchk E :=
  repeat match type of E with
  | check ?b ≫= _ = Some _ => destruct b; [change (check true) with (Some tt) in E; cbn [mbind option_bind] in E|discriminate E]
  end.

Lemma sorted_head k q t l : links_ok k -> ordered q -> queue k q = t :: l -> forall s, s ∈ l -> prio k s <= prio k t.
Proof.
  intros H Ho E s Hs. pose proof (lk_sorted k H q Ho) as S. rewrite E in S. apply StronglySorted_cons in S as [S _].
  rewrite Forall_forall in S. exact (S s Hs).
Qed.

Lemma reschedule_queue k k' q : chSchRescheduleS k = Some k' -> q <> Q_ready -> queue k' q = queue k q.
Proof.
  intros E Hq. unfold chSchRescheduleS in E. destruct (_ <? _); [|injection E as <-; reflexivity].
  unfold sch_reschedule_ahead, sch_pick, ch_pqueue_remove_highest, ch_queue_fifo_remove in E.
  destruct (queue k Q_ready) as [|n l]; [discriminate|]. cbn [mbind option_bind] in E.
  unfold sch_ready_ahead, ch_pqueue_insert_ahead, link_in in E. unchk E. injection E as <-. kg; reflexivity.
Qed.

(** Unlocking a mutex, in any reachable state, hands it to the first of the
    threads that wait for it, which has the highest priority among them, leaves the
    others in their order, and frees it when nobody waits; other mutexes keep their
    owners. *)
Theorem unlock_hands_over prios k k' r m :
  Forall (fun p => NOPRIO < p) prios -> k_reach prios k -> k_enabled (KCall (KUnlock m)) k = true ->
  k_step (KCall (KUnlock m)) k = Some (k', r) ->
  (forall m', m' <> m -> owner k' m' = owner k m') /\
  match queue k (Q_mtx m) with
  | [] => owner k' m = None
  | t :: l => owner k' m = Some t /\ (forall s, s ∈ l -> prio k s <= prio k t) /\ queue k' (Q_mtx m) = l
  end.
Proof.
  intros Hp R He E. destruct (reach_inv prios k Hp R) as [H Ht]. simpl in E. unfold chMtxUnlock in E.
  destruct (chMtxUnlockS m k) as [k1|] eqn:E1; [|discriminate]. cbn [mbind option_bind] in E.
  destruct (unlock_owner m k k1 E1) as (_ & O1 & O2).
  assert (Hq : queue k1 (Q_mtx m) = tl (queue k (Q_mtx m))).
  { unfold chMtxUnlockS in E1. destruct (th_mtxlist _) as [|top ms]; [discriminate|].
    unchk E1. set (k0 := if chMtxQueueNotEmptyS m _ then _ else _) in E1.
    assert (E0 : forall q, queue k0 q = queue k q) by (intros q; unfold k0; destruct (chMtxQueueNotEmptyS m _); reflexivity).
    unfold mtx_hand_over, chMtxQueueNotEmptyS, ch_queue_fifo_remove in E1. rewrite E0 in E1.
    destruct (queue k (Q_mtx m)) as [|t l] eqn:Eq; cbn [mbind option_bind] in E1.
    - injection E1 as <-. change (queue k0 (Q_mtx m) = []). rewrite E0. exact Eq.
    - unfold chSchReadyI, sch_ready_behind, ch_pqueue_insert_behind, link_in in E1.
      unchk E1. injection E1 as <-. unfold mtx_give. kg. reflexivity. }
  assert (Hk : (forall m', owner k' m' = owner k1 m') /\ queue k' (Q_mtx m) = queue k1 (Q_mtx m)).
  { destruct (chMtxQueueNotEmptyS m k); [|injection E as <- _; auto].
    destruct (chSchRescheduleS k1) as [k2|] eqn:E2; [|discriminate]. injection E as <- _.
    split; [intros m'; exact (keeps_owner _ _ m' (reschedule_keeps k1 k2 E2))|apply (reschedule_queue k1 k2 _ E2); discriminate]. }
  destruct Hk as [Hk1 Hk2]. split; [intros m' Hm; rewrite Hk1; exact (O2 m' Hm)|]. rewrite Hk1, O1, Hk2, Hq.
  destruct (queue k (Q_mtx m)) as [|t l] eqn:Eq; [reflexivity|]. split; [reflexivity|]. split; [|reflexivity].
  exact (sorted_head k (Q_mtx m) t l (ki_links _ _ _ _ H) I Eq).
Qed.

(** Two threads wait, the one of higher priority last. *)
Definition run_two : list kevent :=
  run_lock ++ [KCall (KStart 3); KCall (KLock 1)].

Lemma unlock_hands_over_witness :
  let k := after [140; 150] run_two in
  queue k (Q_mtx 1) = [3; 2]%nat /\ exists k' r, k_step (KCall (KUnlock 1)) k = Some (k', r) /\ owner k' 1 = Some 3%nat.
Proof.
  intros k. split; [vm_compute; reflexivity|].
  destruct (k_step (KCall (KUnlock 1)) k) as [[k' r]|] eqn:E; [|vm_compute in E; discriminate]. exists k', r. split; [reflexivity|].
  destruct (unlock_hands_over [140; 150] k k' r 1 ltac:(repeat constructor) (after_reach _ _)) as [_ U];
    [vm_compute; reflexivity|exact E|]. replace (queue k (Q_mtx 1)) with [3; 2]%nat in U by (vm_compute; reflexivity). apply U.
Defined.

(** ** The boost *)

(** C34: in every reachable state the inheritance of a priority along a chain of
    owners ends, also when the chain is a ring, within one turn more than there are
    threads; it raises priorities below the given one to it, changes no other
    priority, and leaves owners and the members of every queue as they were. *)
Theorem boost_terminates prios k m o p :
  Forall (fun p => NOPRIO < p) prios -> k_reach prios k -> owner k m = Some o ->
  exists k', mtx_boost (S (size (k_threads k))) p o k = Some k' /\ p <= prio k' o /\
    (forall s, prio k' s = prio k s \/ prio k s < p /\ prio k' s = p) /\
    (forall m', owner k' m' = owner k m') /\ (forall q, queue k' q ≡ₚ queue k q).
Proof.
  intros Hp R Ho. destruct (reach_inv prios k Hp R) as [H _].
  destruct (boost_ok None o p m k H Ho) as (k' & E & _ & B & Li). exists k'. split; [exact E|]. split; [apply (bd_done _ _ _ B)|].
  split; [apply (li_prio _ _ _ Li)|]. split; [apply (li_owner _ _ _ Li)|apply (li_queue _ _ _ Li)].
Qed.

(** Two threads wait for each other's mutexes. *)
Definition run_ring : list kevent :=
  [KCall (KLock 1); KCall (KStart 2); KCall (KLock 2); KCall (KLock 1); KCall (KLock 2)].

Lemma boost_terminates_witness :
  let k := after [130; 140] run_ring in
  owner k 1 = Some 1%nat /\ owner k 2 = Some 2%nat /\ queue k (Q_mtx 1) = [2%nat] /\ queue k (Q_mtx 2) = [1%nat] /\
  exists k', mtx_boost (S (size (k_threads k))) 200 1 k = Some k' /\ 200 <= prio k' 1.
Proof.
  intros k. split; [vm_compute; reflexivity|]. split; [vm_compute; reflexivity|]. split; [vm_compute; reflexivity|].
  split; [vm_compute; reflexivity|].
  destruct (boost_terminates [130; 140] k 1 1 200 ltac:(repeat constructor) (after_reach _ _)) as (k' & E & Hpr & _);
    [vm_compute; reflexivity|]. exists k'. split; [exact E|exact Hpr].
Defined.
