(* ===== verification/MsgSpec.v ===== *)
(** * What messages promise

    Senders queue in their order, a receiver takes the first with its message, and
    the answer reaches the sender. *)

From stdpp Require Import gmap sorting.
From S2P Require Import Prelude CInt CLib Threads Sched Mutexes Events Messages Kernel KInv KSched KMutex KLock KUnlock KOps KEvt KMsg KSafe KProps MtxSpec.
#[local] Open Scope Z_scope.

(** ** Switches leave messages alone *)

(** Queues other than the ready list, and what a thread sends. *)
Record msg_eq (k k' : kernel) : Prop := {
  ms_queue : forall q, q <> Q_ready -> queue k' q = queue k q;
  ms_u : forall s, th_u (thr k' s) = th_u (thr k s)
}.

Lemma msg_eq_trans k1 k2 k3 : msg_eq k1 k2 -> msg_eq k2 k3 -> msg_eq k1 k3.
Proof. intros [Q1 U1] [Q2 U2]. split; [intros q Hq; rewrite (Q2 q Hq); auto|intros s; rewrite U2; auto]. Qed.

Lemma ready_behind_msg t k k' : sch_ready_behind t k = Some k' -> msg_eq k k'.
Proof.
  unfold sch_ready_behind, ch_pqueue_insert_behind, link_in. intros E. unchk E. injection E as <-.
  split; [intros q Hq; kg; reflexivity|intros s; kg; reflexivity].
Qed.

Lemma ready_ahead_msg t k k' : sch_ready_ahead t k = Some k' -> msg_eq k k'.
Proof.
  unfold sch_ready_ahead, ch_pqueue_insert_ahead, link_in. intros E. unchk E. injection E as <-.
  split; [intros q Hq; kg; reflexivity|intros s; kg; reflexivity].
Qed.

Lemma pick_msg k k' : sch_pick k = Some k' -> msg_eq k k'.
Proof.
  unfold sch_pick, ch_pqueue_remove_highest, ch_queue_fifo_remove. destruct (queue k Q_ready) as [|n l]; [discriminate|].
  cbn [mbind option_bind]. intros [= <-]. split; [intros q Hq; kg; reflexivity|intros s; kg; reflexivity].
Qed.

Lemma gosleep_msg s c k k' : chSchGoSleepS s c k = Some k' -> msg_eq k k'.
Proof.
  unfold chSchGoSleepS. intros E. unchk E. apply pick_msg in E. eapply msg_eq_trans; [|exact E].
  split; [reflexivity|intros r; kg; reflexivity].
Qed.

(** A sleeping thread stays as it is when another is picked. *)
Lemma gosleep_self s c k k' :
  kinv (Some (k_current k)) None None k -> th_link (thr k (k_current k)) <> Q_ready -> chSchGoSleepS s c k = Some k' ->
  th_state (thr k' (k_current k)) = s /\ th_cont (thr k' (k_current k)) = Some c.
Proof.
  intros H Hl E. unfold chSchGoSleepS in E. unchk E. unfold sch_pick, ch_pqueue_remove_highest, ch_queue_fifo_remove in E.
  change (queue (upd_thread _ _ (set_state _ _ k)) Q_ready) with (queue k Q_ready) in E.
  destruct (queue k Q_ready) as [|n l] eqn:Eq; [discriminate|]. cbn [mbind option_bind] in E. injection E as <-.
  assert (Hn : k_current k <> n).
  { intros En. apply Hl, (lk_in k (ki_links _ _ _ _ H) Q_ready). rewrite Eq, En. left. }
  kg. auto.
Qed.

Lemma send_form t msg k k' r :
  calling k -> chMsgSend t msg k = Some (k', r) ->
  let s := k_current k in
  r = None /\ queue k' (Q_msg t) = queue k (Q_msg t) ++ [s] /\ th_u (thr k' s) = U_msg msg /\ th_state (thr k' s) = CH_STATE_SNDMSGQ.
Proof.
  intros C E s. pose proof (current_u_calling (U_msg msg) k C) as C1. unfold chMsgSend in E. fold s in E, C1.
  set (k1 := upd_thread s (th_with_u (U_msg msg)) k) in *. pose proof C1 as [H1 _ _ _].
  pose proof (current_link None None k1 H1) as Hl. change (k_current k1) with s in Hl.
  unfold ch_queue_insert in E. destruct (link_in_ok (Q_msg t) s (queue k1 (Q_msg t) ++ [s]) k1 (ki_links _ _ _ _ H1) Hl) as [E2 Hlk2];
    [discriminate|apply Permutation_app_comm|contradiction|]. rewrite E2 in E. cbn [mbind option_bind] in E.
  assert (H2 : kinv (Some s) None None (upd_thread s (th_with_link (Q_msg t)) (upd_queue (Q_msg t) (queue k1 (Q_msg t) ++ [s]) k1))).
  { apply enqueue_inv; [apply kinv_open, H1|exact Hl|discriminate|apply Permutation_app_comm|exact Hlk2]. }
  set (k2 := upd_thread s _ (upd_queue _ _ k1)) in *.
  assert (F2 : queue k2 (Q_msg t) = queue k (Q_msg t) ++ [s] /\ th_u (thr k2 s) = U_msg msg /\ th_link (thr k2 s) = Q_msg t).
  { unfold k2, k1. kg. auto. }
  assert (Hsleep : forall k3, kinv (Some s) None None k3 -> k_current k3 = s -> th_link (thr k3 s) = Q_msg t ->
    queue k3 (Q_msg t) = queue k (Q_msg t) ++ [s] -> th_u (thr k3 s) = U_msg msg ->
    (k4 ← chSchGoSleepS CH_STATE_SNDMSGQ C_msg_send k3; Some (k4, None)) = Some (k', r) ->
    r = None /\ queue k' (Q_msg t) = queue k (Q_msg t) ++ [s] /\ th_u (thr k' s) = U_msg msg /\ th_state (thr k' s) = CH_STATE_SNDMSGQ).
  { intros k3 H3 Ec Hl3 Hq3 Hu3 E4. destruct (chSchGoSleepS _ _ k3) as [k4|] eqn:Es; [|discriminate]. injection E4 as <- <-.
    split; [reflexivity|]. pose proof (gosleep_msg _ _ _ _ Es) as [Mq Mu]. rewrite Mq, Mu by discriminate. split; [exact Hq3|]. split; [exact Hu3|].
    rewrite <- Ec in H3, Hl3 |- *. apply (gosleep_self _ _ k3 k4 H3 ltac:(congruence) Es). }
  destruct F2 as (F2 & F3 & F4).
  destruct (bool_decide (th_state (thr k2 t) = CH_STATE_WTMSG)) eqn:Ew; [|apply (Hsleep k2); auto].
  apply bool_decide_eq_true in Ew. pose proof (current_state None None k1 H1) as Hst. change (k_current k1) with s in Hst.
  assert (Ht : t <> s) by (intros ->; revert Ew; unfold k2; kg; congruence).
  assert (Ew1 : th_state (thr k1 t) = CH_STATE_WTMSG) by (revert Ew; unfold k2; kg; auto).
  destruct (receiver_ready t k1 C1 Ew1 H2) as (k3 & E3 & H3 & Ec3 & Es3 & Er3). change (k_current k1) with s in *. fold k2 in E3, Es3, Er3.
  rewrite E3 in E. cbn [mbind option_bind] in E. unfold chSchReadyI in E3. pose proof (ready_behind_msg _ _ _ E3) as [Mq Mu].
  apply (Hsleep k3); auto; rewrite ?Es3, ?Mq by discriminate; auto.
Qed.

(** A message sent, in any reachable state, puts its sender at the end of the
    receiver's queue, asleep and carrying the message; a receiver that asks for a
    message while senders wait gets the first of them, which keeps its message until
    it is answered, and the others keep their order; and the answer is made the
    result of the sender's call, which is ready to continue. *)
Theorem messages_fifo prios k k' r t msg :
  Forall (fun p => NOPRIO < p) prios -> k_reach prios k ->
  (k_enabled (KCall (KMsgSend t msg)) k = true -> k_step (KCall (KMsgSend t msg)) k = Some (k', r) ->
     queue k' (Q_msg t) = queue k (Q_msg t) ++ [k_current k] /\ th_u (thr k' (k_current k)) = U_msg msg /\
     th_state (thr k' (k_current k)) = CH_STATE_SNDMSGQ) /\
  (forall s l, k_enabled (KCall KMsgWait) k = true -> k_step (KCall KMsgWait) k = Some (k', r) ->
     queue k (Q_msg (k_current k)) = s :: l ->
     r = Some (RThread (Some s)) /\ queue k' (Q_msg (k_current k)) = l /\ th_state (thr k' s) = CH_STATE_SNDMSG /\
     th_u (thr k' s) = th_u (thr k s)) /\
  (k_enabled (KCall (KMsgRelease t msg)) k = true -> k_step (KCall (KMsgRelease t msg)) k = Some (k', r) ->
     th_u (thr k' t) = U_msg msg /\ awake (th_state (thr k' t)) /\ th_cont (thr k' t) = Some C_msg_send).
Proof.
  intros Hp R. destruct (reach_inv prios k Hp R) as [H Ht].
  assert (HC : forall op, k_enabled (KCall op) k = true -> calling k).
  { intros op He. unfold k_enabled in He. destruct (th_cont (thr k (k_current k))) eqn:Ec; [discriminate|].
    apply andb_prop in He as [Hi _]. apply negb_true_iff, Nat.eqb_neq in Hi. split; assumption. }
  split; [|split].
  - intros He E. destruct (send_form t msg k k' r (HC _ He) E) as (_ & F). exact F.
  - intros s l He E Eq. simpl in E. unfold chMsgWait, chMsgWaitS, chMsgIsPendingI, msg_take, ch_queue_fifo_remove in E. rewrite Eq in E.
    simpl negb in E. cbn [mbind option_bind] in E. injection E as <- <-. split; [reflexivity|]. kg. auto.
  - intros He E. pose proof (HC _ He) as C. simpl in E. unfold chMsgRelease in E. unfold k_enabled in He. rewrite (ca_cont k C) in He.
    apply andb_prop in He as [_ He]. apply bool_decide_eq_true in He. unchk E.
    pose proof (ki_thr _ _ _ _ H t ltac:(discriminate)) as T. pose proof (to_cont _ _ _ T) as TC. rewrite He in TC.
    assert (Ec : th_cont (thr k t) = Some C_msg_send).
    { destruct (th_cont (thr k t)) as [c|]; [|destruct TC as [[|]|]; discriminate]. destruct TC as [[[|] _]|TC]; try discriminate.
      destruct c as [| | | | | |[]| |]; simpl in TC; try (exfalso; intuition discriminate). reflexivity. }
    unfold chMsgReleaseS, chSchWakeupS in E. destruct (check _); [|discriminate]. cbn [mbind option_bind] in E.
    set (k1 := upd_thread t (th_with_u (U_msg msg)) k) in *.
    assert (E1 : thr k1 t = th_with_u (U_msg msg) (thr k t)) by (unfold k1; kg; reflexivity).
    destruct (_ <=? _).
    + destruct (sch_ready_behind t k1) as [k2|] eqn:E2; [|discriminate]. injection E as <- _.
      unfold sch_ready_behind, ch_pqueue_insert_behind, link_in in E2. unchk E2. injection E2 as <-. kg. rewrite E1. simpl.
      split; [reflexivity|]. split; [left; reflexivity|exact Ec].
    + destruct (sch_ready_ahead (k_current k) k1) as [k2|] eqn:E2; [|discriminate]. injection E as <- _.
      unfold sch_ready_ahead, ch_pqueue_insert_ahead, link_in in E2. unchk E2. injection E2 as <-. kg; rewrite ?E1; simpl;
        (split; [reflexivity|]; split; [right; reflexivity|exact Ec]).
Qed.

(** Two threads send to the main thread. *)
Definition run_send : list kevent :=
  [KCall (KStart 2); KCall (KMsgSend 1 77); KCall (KStart 3); KCall (KMsgSend 1 88)].

Lemma messages_fifo_witness :
  let k := after [140; 150] run_send in
  queue k (Q_msg 1) = [2; 3]%nat /\
  exists k', k_step (KCall KMsgWait) k = Some (k', Some (RThread (Some 2%nat))) /\ queue k' (Q_msg 1) = [3%nat].
Proof.
  intros k. split; [vm_compute; reflexivity|].
  destruct (k_step (KCall KMsgWait) k) as [[k' r]|] eqn:E; [|vm_compute in E; discriminate].
  destruct (messages_fifo [140; 150] k k' r 1 0 ltac:(repeat constructor) (after_reach _ _)) as (_ & W & _).
  destruct (W 2%nat [3%nat]) as (-> & Hq & _); [vm_compute; reflexivity|exact E|vm_compute; reflexivity|]. exists k'. split; [reflexivity|exact Hq].
Defined.
