(* ===== verification/KRuns.v ===== *)
(** * Runs of the kernel that its documentation does not expect *)

From stdpp Require Import gmap sorting.
From S2P Require Import Prelude CInt CLib Threads Sched Mutexes Events Messages Kernel KInv KSafe KProps.
#[local] Open Scope Z_scope.

(** Mutexes unlocked in lock-reverse order do not exclude deadlocks: each of two
    threads holds the mutex that the other waits for. *)
Definition run_deadlock : list kevent :=
  [KCall (KLock 1); KCall (KStart 2); KCall (KLock 2); KCall (KLock 1); KCall (KLock 2)].

Lemma deadlock_reachable :
  let k := after [140] run_deadlock in
  k_reach [140] k /\ owner k 1 = Some 1%nat /\ owner k 2 = Some 2%nat /\
  th_link (thr k 1) = Q_mtx 2 /\ th_link (thr k 2) = Q_mtx 1.
Proof. intros k. split; [apply after_reach|]. vm_compute. repeat split. Qed.

(** A receiver that waits with a timeout, after a sleep that timed out, takes the
    message of that sleep for its own: told that nothing came, while a sender waits
    in its queue. *)
Definition run_stale : list kevent :=
  [KCall (KStart 2); KCall (KSleep 5); KCall (KSleep 1); KTimeout 2; KContinue; KCall (KMsgWaitTimeout 100); KTimeout 1;
   KContinue; KCall (KMsgSend 2 77)].

Lemma msg_wait_reads_stale :
  let k := after [140] run_stale in
  k_reach [140] k /\ k_current k = 2%nat /\ th_cont (thr k 2) = Some (C_msg_wait true) /\ queue k (Q_msg 2) = [1%nat] /\
  match k_step KContinue k with Some (k', r) => r = Some (RThread None) /\ queue k' (Q_msg 2) = [1%nat] | None => False end.
Proof. intros k. split; [apply after_reach|]. vm_compute. repeat split. Qed.

(** The owner of a mutex lowers its priority below that of a thread that waits for it. *)
Definition run_lower : list kevent :=
  [KCall (KStart 2); KCall (KLock 1); KCall (KSleep 5); KCall (KLock 1); KTimeout 1; KContinue].

Lemma set_priority_below_waiter :
  let k := after [120] run_lower in
  k_reach [120] k /\ k_current k = 1%nat /\ waiters k 1 = [2%nat] /\
  match chThdSetPriority 100 k with Some (k', _) => prio k' 1 = 100 /\ prio k' 2 = 120 | None => False end.
Proof. intros k. split; [apply after_reach|]. vm_compute. repeat split. Qed.

(** Disposing of an event source asserts the opposite of what it should. *)
Lemma dispose_idle_source_fails es k : chEvtIsListeningI es k = false -> chEvtObjectDispose es k = None.
Proof. unfold chEvtObjectDispose. intros ->. reflexivity. Qed.
