(* ===== verification/Pipes.v ===== *)
(** * Pipes (chpipes.c)

    A pipe is a ring of bytes with one writing and one reading call at work at a
    time: the write mutex and the read mutex serialise the callers of each
    direction, and the common mutex the accesses to the ring.  A call that finds
    the ring full or empty suspends itself on the pipe's reference for its
    direction; the other direction resumes it after a transfer.

    A call is modelled from one point where another thread may run to the next:
    the wait for its mutex, a transfer (which the common mutex makes one step),
    the suspension, the resumption of the other side.  [pipe_sys] is a pipe with
    the calls under way, and [pipe_step] one step of one of them, a timeout or a
    reset.  Which waiting call gets a mutex that becomes free is left open. *)

From stdpp Require Import gmap.
From S2P Require Import Prelude CInt CLib Threads Rings.
#[local] Open Scope Z_scope.

(** ** Data

    Pointers into the buffer are offsets from its start. A mutex is its owner, a
    thread reference the thread that waits on it. *)

Record pipe_t := Pipe {
  pp_buffer : list Z;
  pp_wrptr : Z;
  pp_rdptr : Z;
  pp_cnt : Z;
  pp_reset : bool;
  pp_wtr : option nat;
  pp_rtr : option nat;
  pp_cmtx : option nat;
  pp_wmtx : option nat;
  pp_rmtx : option nat
}.

Definition chPipeGetSize (pp : pipe_t) : Z := Z.of_nat (length (pp_buffer pp)).
Definition chPipeGetUsedCount (pp : pipe_t) : Z := pp_cnt pp.
Definition chPipeGetFreeCount (pp : pipe_t) : Z := chPipeGetSize pp - chPipeGetUsedCount pp.

(** The check that the buffer is not empty. *)
Definition chPipeObjectInit (buf : list Z) : option pipe_t :=
  _ ← check (0 <? Z.of_nat (length buf));
  Some (Pipe buf 0 0 0 false None None None None None).

Definition pp_ring (buf : list Z) (w r cnt : Z) (pp : pipe_t) : pipe_t :=
  Pipe buf w r cnt (pp_reset pp) (pp_wtr pp) (pp_rtr pp) (pp_cmtx pp) (pp_wmtx pp) (pp_rmtx pp).
Definition pp_with_reset (b : bool) (pp : pipe_t) : pipe_t :=
  Pipe (pp_buffer pp) (pp_wrptr pp) (pp_rdptr pp) (pp_cnt pp) b (pp_wtr pp) (pp_rtr pp)
    (pp_cmtx pp) (pp_wmtx pp) (pp_rmtx pp).
Definition pp_with_cmtx (o : option nat) (pp : pipe_t) : pipe_t :=
  Pipe (pp_buffer pp) (pp_wrptr pp) (pp_rdptr pp) (pp_cnt pp) (pp_reset pp) (pp_wtr pp) (pp_rtr pp)
    o (pp_wmtx pp) (pp_rmtx pp).

(** The reference and the mutex of a direction; [true] is writing. *)
Definition pp_tr (w : bool) (pp : pipe_t) : option nat := if w then pp_wtr pp else pp_rtr pp.
Definition pp_mtx (w : bool) (pp : pipe_t) : option nat := if w then pp_wmtx pp else pp_rmtx pp.
Definition set_tr (w : bool) (o : option nat) (pp : pipe_t) : pipe_t :=
  Pipe (pp_buffer pp) (pp_wrptr pp) (pp_rdptr pp) (pp_cnt pp) (pp_reset pp)
    (if w then o else pp_wtr pp) (if w then pp_rtr pp else o)
    (pp_cmtx pp) (pp_wmtx pp) (pp_rmtx pp).
Definition set_mtx (w : bool) (o : option nat) (pp : pipe_t) : pipe_t :=
  Pipe (pp_buffer pp) (pp_wrptr pp) (pp_rdptr pp) (pp_cnt pp) (pp_reset pp)
    (pp_wtr pp) (pp_rtr pp) (pp_cmtx pp)
    (if w then o else pp_wmtx pp) (if w then pp_rmtx pp else o).

(** ** Transfers *)

(** Up to [n] bytes of the memory at [bp] are written to the ring; the number that
    was. *)
Definition pipe_write (bp : list Z) (n : Z) (pp : pipe_t) : option (pipe_t * Z) :=
  let n := if chPipeGetFreeCount pp <? n then chPipeGetFreeCount pp else n in
  let cnt := pp_cnt pp + n in
  let s1 := chPipeGetSize pp - pp_wrptr pp in
  '(buf, w) ←
    (if n <? s1 then
       buf ← memcpy (pp_buffer pp) (pp_wrptr pp) bp n; Some (buf, pp_wrptr pp + n)
     else if s1 <? n then
       buf ← memcpy (pp_buffer pp) (pp_wrptr pp) bp s1;
       buf ← memcpy buf 0 (at_off bp s1) (n - s1); Some (buf, n - s1)
     else
       buf ← memcpy (pp_buffer pp) (pp_wrptr pp) bp n; Some (buf, 0));
  Some (pp_ring buf w (pp_rdptr pp) cnt pp, n).

(** Up to [n] bytes of the ring are read to [mem] from [off] on. *)
Definition pipe_read (mem : list Z) (off n : Z) (pp : pipe_t) : option (pipe_t * list Z * Z) :=
  let n := if chPipeGetUsedCount pp <? n then chPipeGetUsedCount pp else n in
  let cnt := pp_cnt pp - n in
  let s1 := chPipeGetSize pp - pp_rdptr pp in
  '(mem, r) ←
    (if n <? s1 then
       mem ← memcpy mem off (at_off (pp_buffer pp) (pp_rdptr pp)) n; Some (mem, pp_rdptr pp + n)
     else if s1 <? n then
       mem ← memcpy mem off (at_off (pp_buffer pp) (pp_rdptr pp)) s1;
       mem ← memcpy mem (off + s1) (pp_buffer pp) (n - s1); Some (mem, n - s1)
     else
       mem ← memcpy mem off (at_off (pp_buffer pp) (pp_rdptr pp)) n; Some (mem, 0));
  Some (pp_ring (pp_buffer pp) (pp_wrptr pp) r cnt pp, mem, n).

(** ** Calls *)

(** A call of one direction: the caller's memory, the position reached in it, the
    bytes still to transfer, the number asked for. *)
Record pcall := PCall {
  pc_write : bool;
  pc_mem : list Z;
  pc_bp : Z;
  pc_n : Z;
  pc_max : Z;
  pc_timeout : Z
}.

(** Where a call is: waiting for the mutex of its direction, at the head of the
    loop, between a transfer of nothing and the suspension, suspended, made ready,
    between a transfer and the resumption of the other side; or a reset between
    the emptying and the wake-ups. *)
Inductive pipe_pc :=
| PLocking (c : pcall)
| PTry (c : pcall)
| PWaiting (c : pcall)
| PSleeping (c : pcall)
| PWoken (c : pcall) (msg : Z)
| PResuming (c : pcall)
| PResetting.

(** What has happened: bytes that entered and left the ring, by thread; the ring
    emptied by a reset; a call that has returned. *)
Inductive pipe_entry :=
| Put (t : nat) (bs : list Z)
| Got (t : nat) (bs : list Z)
| Dropped
| Returned (t : nat) (c : pcall).

Record pipe_sys := PSys {
  ps_pipe : pipe_t;
  ps_threads : gmap nat pipe_pc;
  ps_log : list pipe_entry
}.

(** [chThdResumeI]: a thread that waits on the reference becomes ready. *)
Definition ref_resume (w : bool) (msg : Z) (pp : pipe_t) (m : gmap nat pipe_pc)
  : pipe_t * gmap nat pipe_pc :=
  match pp_tr w pp with
  | None => (pp, m)
  | Some t =>
      (set_tr w None pp,
       match m !! t with Some (PSleeping c) => <[t := PWoken c msg]> m | _ => m end)
  end.

(** The loop's exit: the mutex is released and the call returns. *)
Definition pipe_exit (t : nat) (c : pcall) (s : pipe_sys) : pipe_sys :=
  PSys (set_mtx (pc_write c) None (ps_pipe s)) (delete t (ps_threads s)) (ps_log s ++ [Returned t c]).

Definition pipe_goto (t : nat) (pc : pipe_pc) (s : pipe_sys) : pipe_sys :=
  PSys (ps_pipe s) (<[t := pc]> (ps_threads s)) (ps_log s).

(** A transfer at the head of the loop. *)
Definition pipe_transfer (c : pcall) (pp : pipe_t) : option (pipe_t * pcall * Z) :=
  if pc_write c then
    '(pp, done) ← pipe_write (at_off (pc_mem c) (pc_bp c)) (pc_n c) pp;
    Some (pp, PCall true (pc_mem c) (pc_bp c + done) (pc_n c - done) (pc_max c) (pc_timeout c), done)
  else
    '(pp, mem, done) ← pipe_read (pc_mem c) (pc_bp c) (pc_n c) pp;
    Some (pp, PCall false mem (pc_bp c + done) (pc_n c - done) (pc_max c) (pc_timeout c), done).

(** The bytes a transfer of [done] bytes has moved. *)
Definition pipe_entry_of (t : nat) (c : pcall) (done : Z) : pipe_entry :=
  let bs := take (Z.to_nat done) (at_off (pc_mem c) (pc_bp c - done)) in
  if pc_write c then Put t bs else Got t bs.

(** One step of thread [t] in [chPipeWriteTimeout], [chPipeReadTimeout] or
    [chPipeReset]. *)
Definition pipe_run (t : nat) (pc : pipe_pc) (s : pipe_sys) : option pipe_sys :=
  let pp := ps_pipe s in
  match pc with
  | PLocking c =>
      Some (PSys (set_mtx (pc_write c) (Some t) pp) (<[t := PTry c]> (ps_threads s)) (ps_log s))
  | PTry c =>
      if 0 <? pc_n c then
        '(pp, c', done) ← pipe_transfer c pp;
        if done =? 0 then Some (PSys pp (<[t := PWaiting c']> (ps_threads s)) (ps_log s))
        else Some (PSys pp (<[t := PResuming c']> (ps_threads s)) (ps_log s ++ [pipe_entry_of t c' done]))
      else Some (pipe_exit t c s)
  | PWaiting c =>
      _ ← check (bool_decide (pp_tr (pc_write c) pp = None));
      if pc_timeout c =? TIME_IMMEDIATE then Some (pipe_exit t c s)
      else Some (PSys (set_tr (pc_write c) (Some t) pp) (<[t := PSleeping c]> (ps_threads s)) (ps_log s))
  | PSleeping c => Some s
  | PWoken c msg => Some (if msg =? MSG_OK then pipe_goto t (PTry c) s else pipe_exit t c s)
  | PResuming c =>
      let '(pp, m) := ref_resume (negb (pc_write c)) MSG_OK pp (ps_threads s) in
      Some (PSys pp (<[t := PTry c]> m) (ps_log s))
  | PResetting =>
      let '(pp, m) := ref_resume true MSG_RESET pp (ps_threads s) in
      let '(pp, m) := ref_resume false MSG_RESET pp m in
      Some (PSys (pp_with_cmtx None pp) (delete t m) (ps_log s))
  end.

(** A call enters: at once back when the pipe is in its reset state. *)
Definition pipe_call (t : nat) (w : bool) (mem : list Z) (n timeout : Z) (s : pipe_sys) : option pipe_sys :=
  _ ← check (0 <? n);
  let c := PCall w mem 0 n n timeout in
  if pp_reset (ps_pipe s) then Some (PSys (ps_pipe s) (ps_threads s) (ps_log s ++ [Returned t c]))
  else Some (pipe_goto t (PLocking c) s).

Definition chPipeWriteTimeout (t : nat) := pipe_call t true.
Definition chPipeReadTimeout (t : nat) := pipe_call t false.

(** [chPipeReset] up to its wake-ups, which [PResetting] makes. *)
Definition chPipeReset (t : nat) (s : pipe_sys) : pipe_sys :=
  let pp := pp_with_reset true (pp_ring (pp_buffer (ps_pipe s)) 0 0 0 (ps_pipe s)) in
  PSys (pp_with_cmtx (Some t) pp) (<[t := PResetting]> (ps_threads s)) (ps_log s ++ [Dropped]).

Definition chPipeResume (s : pipe_sys) : pipe_sys :=
  PSys (pp_with_reset false (ps_pipe s)) (ps_threads s) (ps_log s).

(** The timer of a suspended call expires ([__sch_wakeup]). *)
Definition pipe_expire (t : nat) (c : pcall) (s : pipe_sys) : pipe_sys :=
  PSys (set_tr (pc_write c) None (ps_pipe s)) (<[t := PWoken c MSG_TIMEOUT]> (ps_threads s)) (ps_log s).

(** ** Steps *)

Inductive pipe_event :=
| PvWrite (t : nat) (mem : list Z) (n timeout : Z)
| PvRead (t : nat) (mem : list Z) (n timeout : Z)
| PvReset (t : nat)
| PvResume
| PvRun (t : nat)
| PvTimeout (t : nat).

Definition idle (t : nat) (s : pipe_sys) : bool :=
  match ps_threads s !! t with None => true | _ => false end.

Definition is_free (o : option nat) : bool := match o with None => true | _ => false end.

(** An event happens only when it can: a thread is in one call at a time and names
    memory it has; a mutex is taken when it is free; a suspended call runs again
    only when it has been made ready. *)
Definition pipe_enabled (e : pipe_event) (s : pipe_sys) : bool :=
  match e with
  | PvWrite t mem n _ | PvRead t mem n _ =>
      idle t s && (0 <? n) && (n <=? Z.of_nat (length mem))
  | PvReset t => idle t s && is_free (pp_cmtx (ps_pipe s))
  | PvResume => true
  | PvRun t =>
      match ps_threads s !! t with
      | Some (PLocking c) => is_free (pp_mtx (pc_write c) (ps_pipe s))
      | Some (PTry c) => negb (0 <? pc_n c) || is_free (pp_cmtx (ps_pipe s))
      | Some (PSleeping _) | None => false
      | Some _ => true
      end
  | PvTimeout t =>
      match ps_threads s !! t with
      | Some (PSleeping c) => negb (pc_timeout c =? TIME_INFINITE)
      | _ => false
      end
  end.

Definition pipe_step (e : pipe_event) (s : pipe_sys) : option pipe_sys :=
  match e with
  | PvWrite t mem n timeout => chPipeWriteTimeout t mem n timeout s
  | PvRead t mem n timeout => chPipeReadTimeout t mem n timeout s
  | PvReset t => Some (chPipeReset t s)
  | PvResume => Some (chPipeResume s)
  | PvRun t => match ps_threads s !! t with Some pc => pipe_run t pc s | None => Some s end
  | PvTimeout t =>
      match ps_threads s !! t with Some (PSleeping c) => Some (pipe_expire t c s) | _ => Some s end
  end.

Definition pipe_init (buf : list Z) : option pipe_sys :=
  pp ← chPipeObjectInit buf; Some (PSys pp ∅ []).

Fixpoint pipe_steps (es : list pipe_event) (s : pipe_sys) : option pipe_sys :=
  match es with
  | [] => Some s
  | e :: es => if pipe_enabled e s then s ← pipe_step e s; pipe_steps es s else None
  end.

Inductive pipe_reach (buf : list Z) : pipe_sys -> Prop :=
| pipe_start s : pipe_init buf = Some s -> pipe_reach buf s
| pipe_next s e s' :
    pipe_reach buf s -> pipe_enabled e s = true -> pipe_step e s = Some s' -> pipe_reach buf s'.

(** ** Specification: a bounded list of bytes *)

(** The contents after a log, if the log is one of a list of at most [size] bytes
    that are taken in the order in which they came. *)
Definition log_step (size : Z) (l : list Z) (x : pipe_entry) : option (list Z) :=
  match x with
  | Put _ bs =>
      _ ← check (Z.of_nat (length (l ++ bs)) <=? size); Some (l ++ bs)
  | Got _ bs => _ ← check (bool_decide (take (length bs) l = bs)); Some (drop (length bs) l)
  | Dropped => Some []
  | Returned _ _ => Some l
  end.

Fixpoint log_content (size : Z) (l : list Z) (xs : list pipe_entry) : option (list Z) :=
  match xs with
  | [] => Some l
  | x :: xs => l ← log_step size l x; log_content size l xs
  end.

(** All bytes that have entered, and all that have left. *)
Definition log_moved (w : bool) (xs : list pipe_entry) : list Z :=
  mjoin ((fun x => match x with
                   | Put _ bs => if w then bs else []
                   | Got _ bs => if w then [] else bs
                   | _ => [] end) <$> xs).

Definition pipe_content (pp : pipe_t) : list Z :=
  ring_content (pp_buffer pp) (pp_rdptr pp) (pp_cnt pp).

(** ** Transfers move bytes at the ends of the list *)

Definition pipe_ok (pp : pipe_t) : Prop :=
  ring_ok (pp_buffer pp) (pp_rdptr pp) (pp_wrptr pp) (pp_cnt pp).

Lemma pipe_write_spec bp n pp :
  pipe_ok pp -> 0 <= n <= Z.of_nat (length bp) ->
  let k := Z.min n (chPipeGetFreeCount pp) in
  exists buf w, pipe_write bp n pp = Some (pp_ring buf w (pp_rdptr pp) (pp_cnt pp + k) pp, k) /\
    length buf = length (pp_buffer pp) /\
    ring_content buf (pp_rdptr pp) (pp_cnt pp + k) = pipe_content pp ++ take (Z.to_nat k) bp /\
    ring_ok buf (pp_rdptr pp) w (pp_cnt pp + k).
Proof.
  intros Hok Hn k. unfold pipe_write.
  assert (Ek : (if chPipeGetFreeCount pp <? n then chPipeGetFreeCount pp else n) = k)
    by (subst k; case_bool; lia).
  rewrite Ek. pose proof Hok as (Hs & Hr & Hc & Ew).
  assert (Hk : 0 <= k /\ k <= n /\ pp_cnt pp + k <= Z.of_nat (length (pp_buffer pp)))
    by (subst k; unfold chPipeGetFreeCount, chPipeGetSize, chPipeGetUsedCount; lia).
  assert (Hw : 0 <= pp_wrptr pp < Z.of_nat (length (pp_buffer pp)))
    by (rewrite Ew; apply Z.mod_pos_bound; lia).
  clearbody k. clear Ek. unfold chPipeGetSize.
  set (s1 := Z.of_nat (length (pp_buffer pp)) - pp_wrptr pp).
  destruct (k <? s1) eqn:E1; bools.
  - destruct (ring_write bp _ _ _ _ k Hok) as (buf & E & Hl & Ec & Ho); [lia..|].
    rewrite (proj2 (Z.eqb_neq _ _)) in Ho by lia. rewrite E. cbn [mbind option_bind]. eauto 10.
  - destruct (s1 <? k) eqn:E2; bools.
    + destruct (ring_write bp _ _ _ _ s1 Hok) as (buf & E & Hl & Ec & Ho); [lia..|].
      rewrite (proj2 (Z.eqb_eq _ _)) in Ho by lia. rewrite E. cbn [mbind option_bind].
      destruct (ring_write (at_off bp s1) _ _ _ _ (k - s1) Ho) as (buf2 & E3 & Hl2 & Ec2 & Ho2);
        [unfold at_off; rewrite length_drop; lia|lia|lia|].
      rewrite (proj2 (Z.eqb_neq _ _)) in Ho2 by lia.
      replace (pp_cnt pp + s1 + (k - s1)) with (pp_cnt pp + k) in * by lia.
      rewrite E3. cbn [mbind option_bind]. do 2 eexists. split; [reflexivity|].
      split_and!; [lia| |exact Ho2]. rewrite Ec2, Ec, <- app_assoc. f_equal. unfold at_off.
      replace (Z.to_nat k) with (Z.to_nat s1 + Z.to_nat (k - s1))%nat by lia.
      rewrite take_take_drop. reflexivity.
    + destruct (ring_write bp _ _ _ _ k Hok) as (buf & E & Hl & Ec & Ho); [lia..|].
      rewrite (proj2 (Z.eqb_eq _ _)) in Ho by lia. rewrite E. cbn [mbind option_bind]. eauto 10.
Qed.

(** A block copied from a stretch of the ring that does not wrap. *)
Lemma memcpy_ring mem off buf r k :
  0 <= off -> 0 <= k -> off + k <= Z.of_nat (length mem) ->
  0 <= r -> r + k <= Z.of_nat (length buf) ->
  memcpy mem off (at_off buf r) k =
  Some (take (Z.to_nat off) mem ++ ring_content buf r k ++ drop (Z.to_nat (off + k)) mem).
Proof.
  intros. unfold memcpy, at_off. rewrite length_drop, !(proj2 (Z.leb_le _ _)) by lia. cbn [andb].
  rewrite ring_content_slice by lia. reflexivity.
Qed.

Lemma pipe_read_spec mem off n pp :
  pipe_ok pp -> 0 <= n -> 0 <= off -> off + n <= Z.of_nat (length mem) ->
  let k := Z.min n (pp_cnt pp) in
  exists r, pipe_read mem off n pp =
      Some (pp_ring (pp_buffer pp) (pp_wrptr pp) r (pp_cnt pp - k) pp,
            take (Z.to_nat off) mem ++ take (Z.to_nat k) (pipe_content pp) ++ drop (Z.to_nat (off + k)) mem, k) /\
    ring_content (pp_buffer pp) r (pp_cnt pp - k) = drop (Z.to_nat k) (pipe_content pp) /\
    ring_ok (pp_buffer pp) r (pp_wrptr pp) (pp_cnt pp - k).
Proof.
  intros Hok Hn Ho Hm k. unfold pipe_read, chPipeGetUsedCount.
  assert (Ek : (if pp_cnt pp <? n then pp_cnt pp else n) = k) by (subst k; case_bool; lia).
  rewrite Ek. pose proof Hok as (Hs & Hr & Hc & Ew).
  assert (Hk : 0 <= k /\ k <= n /\ k <= pp_cnt pp) by (subst k; lia).
  clearbody k. clear Ek.
  destruct (ring_skip _ _ _ _ k Hok) as [Hok' Ec]; [lia|].
  unfold pipe_content at 1 2. rewrite ring_content_take by lia.
  unfold chPipeGetSize. set (s1 := Z.of_nat (length (pp_buffer pp)) - pp_rdptr pp).
  exists ((pp_rdptr pp + k) mod Z.of_nat (length (pp_buffer pp))). split; [|split; [exact Ec|exact Hok']].
  destruct (k <? s1) eqn:E1; bools.
  - rewrite memcpy_ring by lia. cbn [mbind option_bind]. rewrite Z.mod_small by lia. reflexivity.
  - assert (Em : (pp_rdptr pp + k) mod Z.of_nat (length (pp_buffer pp)) = k - s1)
      by (symmetry; apply (Z.mod_unique_pos _ _ 1); lia).
    rewrite Em. destruct (s1 <? k) eqn:E2; bools.
    + rewrite memcpy_ring by lia. cbn [mbind option_bind].
      match goal with |- context [memcpy ?m ?o ?b ?j] =>
        pose proof (memcpy_ring m o b 0 j) as E; change (at_off b 0) with b in E end.
      rewrite E; clear E; rewrite ?length_app, ?length_take, ?length_drop, ?ring_content_length; try lia.
      cbn [mbind option_bind]. do 3 f_equal.
      replace k with (s1 + (k - s1)) at 3 by lia. rewrite (ring_content_app _ _ s1) by lia.
      replace (pp_rdptr pp + s1) with (Z.of_nat (length (pp_buffer pp))) by lia.
      rewrite <- (ring_content_mod _ (Z.of_nat _)), Z_mod_same_full by lia.
      rewrite (app_assoc (take _ mem)).
      rewrite take_app_length'; [|rewrite length_app, length_take, ring_content_length; lia].
      rewrite <- !app_assoc. do 3 f_equal.
      rewrite app_assoc, drop_app_ge; rewrite length_app, length_take, ring_content_length; [|lia].
      rewrite drop_drop. f_equal. lia.
    + rewrite memcpy_ring by lia. cbn [mbind option_bind]. replace (k - s1) with 0 by lia. reflexivity.
Qed.

(** ** Invariant *)

Definition pc_call (pc : pipe_pc) : option pcall :=
  match pc with
  | PLocking c | PTry c | PWaiting c | PSleeping c | PWoken c _ | PResuming c => Some c
  | PResetting => None
  end.

(** The direction whose mutex a thread holds, on whose reference it sleeps; whether
    it holds the common mutex between two steps. *)
Definition pc_holds (pc : pipe_pc) : option bool :=
  match pc with PLocking _ => None | _ => pc_write <$> pc_call pc end.
Definition pc_sleeps (pc : pipe_pc) : option bool :=
  match pc with PSleeping c => Some (pc_write c) | _ => None end.
Definition pc_resets (pc : pipe_pc) : option unit :=
  match pc with PResetting => Some tt | _ => None end.

Definition view {W} (f : pipe_pc -> option W) (m : gmap nat pipe_pc) (t : nat) : option W := m !! t ≫= f.

(** Slots and threads that name each other. *)
Definition agree {W} (o : W -> option nat) (f : nat -> option W) : Prop :=
  forall w t, o w = Some t <-> f t = Some w.

Lemma agree_ext {W} (o o' : W -> option nat) f f' :
  agree o f -> (forall w, o' w = o w) -> (forall t, f' t = f t) -> agree o' f'.
Proof. intros H Ho Hf w t. rewrite Ho, Hf. apply H. Qed.

Lemma agree_take {W} `{EqDecision W} (o o' : W -> option nat) f f' w t :
  agree o f -> o w = None -> f t = None ->
  (forall v, o' v = if decide (v = w) then Some t else o v) ->
  (forall u, f' u = if decide (u = t) then Some w else f u) -> agree o' f'.
Proof.
  intros H Ow Ft Ho Hf v u. rewrite Ho, Hf. pose proof (H v u) as Hvu.
  repeat case_decide; subst; rewrite ?Ow, ?Ft in *; try tauto; naive_solver.
Qed.

Lemma agree_drop {W} `{EqDecision W} (o o' : W -> option nat) f f' w t :
  agree o f -> f t = Some w ->
  (forall v, o' v = if decide (v = w) then None else o v) ->
  (forall u, f' u = if decide (u = t) then None else f u) -> agree o' f'.
Proof.
  intros H Ft Ho Hf v u. rewrite Ho, Hf. pose proof (H v u) as Hvu. pose proof (proj2 (H w t) Ft) as Ow.
  repeat case_decide; subst; rewrite ?Ow, ?Ft in *; try tauto; try naive_solver.
Qed.

Lemma view_insert {W} (f : pipe_pc -> option W) m t pc u :
  view f (<[t := pc]> m) u = if decide (u = t) then f pc else view f m u.
Proof.
  unfold view. case_decide as E; [subst; rewrite lookup_insert_eq; reflexivity|].
  rewrite lookup_insert_ne by congruence. reflexivity.
Qed.

Lemma view_delete {W} (f : pipe_pc -> option W) m t u :
  view f (delete t m) u = if decide (u = t) then None else view f m u.
Proof.
  unfold view. case_decide as E; [subst; rewrite lookup_delete_eq; reflexivity|].
  rewrite lookup_delete_ne by congruence. reflexivity.
Qed.

Lemma view_keep {W} (f : pipe_pc -> option W) m t pc pc' u :
  m !! t = Some pc -> f pc' = f pc -> view f (<[t := pc']> m) u = view f m u.
Proof. intros E Ef. rewrite view_insert. case_decide; [|reflexivity]. subst. unfold view. rewrite E. exact Ef. Qed.

(** A call is within its caller's memory, and what it has moved so far are the last
    bytes moved in its direction. *)
Definition pcall_ok (xs : list pipe_entry) (c : pcall) : Prop :=
  0 <= pc_bp c /\ 0 <= pc_n c /\ pc_bp c + pc_n c = pc_max c /\ pc_max c <= Z.of_nat (length (pc_mem c)) /\
  exists pre, log_moved (pc_write c) xs = pre ++ take (Z.to_nat (pc_bp c)) (pc_mem c).

Definition pcalls_ok (xs : list pipe_entry) (m : gmap nat pipe_pc) : Prop :=
  forall t pc c, m !! t = Some pc -> pc_call pc = Some c ->
    pcall_ok xs c /\ (pc_holds pc = None -> pc_bp c = 0).

Record pipe_inv (size : Z) (s : pipe_sys) : Prop := {
  pi_size : chPipeGetSize (ps_pipe s) = size;
  pi_ring : pipe_ok (ps_pipe s);
  pi_log : log_content size [] (ps_log s) = Some (pipe_content (ps_pipe s));
  pi_mtx : agree (fun w => pp_mtx w (ps_pipe s)) (view pc_holds (ps_threads s));
  pi_tr : agree (fun w => pp_tr w (ps_pipe s)) (view pc_sleeps (ps_threads s));
  pi_cmtx : agree (fun _ => pp_cmtx (ps_pipe s)) (view pc_resets (ps_threads s));
  pi_calls : pcalls_ok (ps_log s) (ps_threads s)
}.

Lemma log_content_app size xs : forall l ys,
  log_content size l (xs ++ ys) = (l ← log_content size l xs; log_content size l ys).
Proof.
  induction xs as [|x xs IH]; intros l ys; simpl; [reflexivity|].
  destruct (log_step size l x); simpl; [apply IH|reflexivity].
Qed.

Lemma log_moved_app w xs ys : log_moved w (xs ++ ys) = log_moved w xs ++ log_moved w ys.
Proof. unfold log_moved. rewrite fmap_app. apply join_app. Qed.

Lemma pcall_ok_moved xs ys c :
  pc_bp c = 0 \/ log_moved (pc_write c) ys = log_moved (pc_write c) xs -> pcall_ok xs c -> pcall_ok ys c.
Proof.
  intros Hm (H1 & H2 & H3 & H4 & pre & E). split_and!; try assumption.
  destruct Hm as [->| ->]; [|eauto]. exists (log_moved (pc_write c) ys). symmetry. apply app_nil_r.
Qed.

(** A step of thread [t] leaves the calls of the others as they are. *)
Lemma pcalls_insert xs ys m t pc :
  pcalls_ok xs m ->
  (forall u pc' c, u <> t -> m !! u = Some pc' -> pc_call pc' = Some c ->
     pc_bp c = 0 \/ log_moved (pc_write c) ys = log_moved (pc_write c) xs) ->
  (forall c, pc_call pc = Some c -> pcall_ok ys c /\ (pc_holds pc = None -> pc_bp c = 0)) ->
  pcalls_ok ys (<[t := pc]> m).
Proof.
  intros H Hm Hpc u pc' c E Ec. destruct (decide (u = t)) as [->|Hu].
  - rewrite lookup_insert_eq in E. injection E as <-. auto.
  - rewrite lookup_insert_ne in E by congruence. destruct (H u pc' c E Ec) as [Hc Hh].
    split; [|exact Hh]. apply (pcall_ok_moved xs); [|exact Hc]. exact (Hm u pc' c Hu E Ec).
Qed.

Lemma pcalls_delete xs ys m t :
  pcalls_ok xs m -> (forall w, log_moved w ys = log_moved w xs) -> pcalls_ok ys (delete t m).
Proof.
  intros H Hm u pc c E Ec. rewrite lookup_delete_Some in E. destruct E as [_ E].
  destruct (H u pc c E Ec) as [Hc Hh]. split; [|exact Hh]. apply (pcall_ok_moved xs); auto.
Qed.

(** Entries that move no bytes. *)
Lemma log_quiet size xs x l :
  match x with Returned _ _ => True | _ => False end ->
  log_content size [] xs = Some l ->
  log_content size [] (xs ++ [x]) = Some l /\ forall w, log_moved w (xs ++ [x]) = log_moved w xs.
Proof.
  intros Hx E. destruct x; try contradiction. split; [rewrite log_content_app, E; reflexivity|].
  intros w. rewrite log_moved_app. apply app_nil_r.
Qed.

(** ** Every step keeps the invariant *)

#[local] Ltac slots := intros []; try destruct (pc_write _); repeat case_decide; try congruence; reflexivity.

Lemma goto_inv size s t pc pc' :
  pipe_inv size s -> ps_threads s !! t = Some pc ->
  pc_holds pc' = pc_holds pc -> pc_sleeps pc' = pc_sleeps pc -> pc_resets pc' = pc_resets pc ->
  pc_call pc' = pc_call pc -> pipe_inv size (pipe_goto t pc' s).
Proof.
  intros H E Eh Es Er Ec. destruct H as [Hs Hr Hl Hm Ht Hc Hk]. split; try assumption; cbn.
  - apply (agree_ext _ _ _ _ Hm); [reflexivity|]. intros u. apply (view_keep _ _ _ pc); assumption.
  - apply (agree_ext _ _ _ _ Ht); [reflexivity|]. intros u. apply (view_keep _ _ _ pc); assumption.
  - apply (agree_ext _ _ _ _ Hc); [reflexivity|]. intros u. apply (view_keep _ _ _ pc); assumption.
  - apply (pcalls_insert (ps_log s)); [assumption|auto|]. rewrite Ec, Eh. intros c Ec'. exact (Hk _ _ c E Ec').
Qed.

Lemma exit_inv size s t pc c :
  pipe_inv size s -> ps_threads s !! t = Some pc -> pc_call pc = Some c ->
  pc_holds pc = Some (pc_write c) -> pc_sleeps pc = None -> pc_resets pc = None ->
  pipe_inv size (pipe_exit t c s).
Proof.
  intros [Hs Hr Hl Hm Ht Hc Hk] E Ec Eh Es Er.
  destruct (log_quiet size (ps_log s) (Returned t c) _ I Hl) as [Hl' Hq].
  split; try assumption; cbn.
  - apply (agree_drop _ _ _ _ (pc_write c) t Hm); [unfold view; rewrite E; exact Eh| |intros u; apply view_delete].
    slots.
  - apply (agree_ext _ _ _ _ Ht); [reflexivity|]. intros u. rewrite view_delete. case_decide; [|reflexivity].
    subst. unfold view. rewrite E. symmetry. exact Es.
  - apply (agree_ext _ _ _ _ Hc); [reflexivity|]. intros u. rewrite view_delete. case_decide; [|reflexivity].
    subst. unfold view. rewrite E. symmetry. exact Er.
  - apply (pcalls_delete (ps_log s)); assumption.
Qed.

(** Only a sleeping thread is resumed; every other thread stays where it is. *)
Lemma ref_resume_inv size s w msg :
  pipe_inv size s ->
  let r := ref_resume w msg (ps_pipe s) (ps_threads s) in
  pipe_inv size (PSys (fst r) (snd r) (ps_log s)) /\ pp_mtx w (fst r) = pp_mtx w (ps_pipe s) /\
  forall t pc, ps_threads s !! t = Some pc -> pc_sleeps pc = None -> snd r !! t = Some pc.
Proof.
  intros [Hs Hr Hl Hm Ht Hc Hk]. unfold ref_resume.
  destruct (pp_tr w (ps_pipe s)) as [u|] eqn:Eu; cbn; [|auto using Build_pipe_inv].
  pose proof (proj1 (Ht w u) Eu) as Ev. unfold view in Ev.
  destruct (ps_threads s !! u) as [[]|] eqn:E; try discriminate. injection Ev as Ew.
  split_and!.
  - split; try assumption; cbn.
    + apply (agree_ext _ _ _ _ Hm); [slots|]. intros x. apply (view_keep _ _ _ (PSleeping c)); auto.
    + apply (agree_drop _ _ _ _ w u Ht); [unfold view; rewrite E; cbn; congruence|destruct w; slots|].
      intros x. exact (view_insert pc_sleeps _ u _ x).
    + apply (agree_ext _ _ _ _ Hc); [reflexivity|]. intros x. apply (view_keep _ _ _ (PSleeping c)); auto.
    + apply (pcalls_insert (ps_log s)); [assumption|auto|]. intros c' [= <-].
      split; [apply (Hk u (PSleeping c)); auto|discriminate].
  - destruct w; reflexivity.
  - intros t pc Et Epc. rewrite lookup_insert_ne; [exact Et|]. intros ->.
    rewrite E in Et. injection Et as <-. discriminate.
Qed.

(** A transfer by the holder of the mutex of its direction. *)
Lemma moved_inv size s t c pc c' buf w r cnt xs :
  pipe_inv size s -> ps_threads s !! t = Some (PTry c) ->
  pc_call pc = Some c' -> pc_holds pc = Some (pc_write c) -> pc_sleeps pc = None -> pc_resets pc = None ->
  pc_write c' = pc_write c ->
  Z.of_nat (length buf) = size -> ring_ok buf r w cnt ->
  log_content size [] xs = Some (ring_content buf r cnt) ->
  log_moved (negb (pc_write c)) xs = log_moved (negb (pc_write c)) (ps_log s) ->
  pcall_ok xs c' ->
  pipe_inv size (PSys (pp_ring buf w r cnt (ps_pipe s)) (<[t := pc]> (ps_threads s)) xs).
Proof.
  intros [Hs Hr Hl Hm Ht Hc Hk] E Ec Eh Es Er Ew Hb Hr' Hl' Hn Hok. split; try assumption; cbn.
  - apply (agree_ext _ _ _ _ Hm); [slots|]. intros u. apply (view_keep _ _ _ (PTry c)); auto.
  - apply (agree_ext _ _ _ _ Ht); [slots|]. intros u. apply (view_keep _ _ _ (PTry c)); auto.
  - apply (agree_ext _ _ _ _ Hc); [reflexivity|]. intros u. apply (view_keep _ _ _ (PTry c)); auto.
  - apply (pcalls_insert (ps_log s)); [assumption| |].
    + intros u pc' c2 Hu E2 Ec2. destruct (Hk u pc' c2 E2 Ec2) as [_ Hz].
      destruct (pc_holds pc') as [v|] eqn:Ev; [|auto]. right.
      assert (v = pc_write c2) as -> by (destruct pc'; cbn in *; congruence).
      destruct (Bool.bool_dec (pc_write c2) (pc_write c)) as [Eq|Hne].
      * exfalso. apply Hu. apply (inj Some).
        transitivity (pp_mtx (pc_write c) (ps_pipe s)); [symmetry|]; apply (Hm (pc_write c));
          unfold view; rewrite ?E, ?E2; cbn; congruence.
      * replace (pc_write c2) with (negb (pc_write c)) by (destruct (pc_write c), (pc_write c2); cbn; congruence).
        exact Hn.
    + rewrite Ec, Eh. intros c2 [= <-]. split; [exact Hok|discriminate].
Qed.

(** A log with the entry of a transfer, which an empty transfer does not make. *)
Lemma log_if size xs x l l' k :
  log_content size [] xs = Some l -> log_step size l x = Some l' ->
  (k = 0 -> l' = l /\ forall w, log_moved w [x] = []) ->
  let ys := if k =? 0 then xs else xs ++ [x] in
  log_content size [] ys = Some l' /\ forall w, log_moved w ys = log_moved w xs ++ log_moved w [x].
Proof.
  intros E Ex Hk. cbn zeta. case_bool.
  - destruct (Hk E0) as [-> Hm]. split; [exact E|]. intros w. rewrite Hm, app_nil_r. reflexivity.
  - rewrite log_content_app, E. cbn. rewrite Ex. split; [reflexivity|]. intros w. apply log_moved_app.
Qed.

Lemma log_put size l t bs :
  Z.of_nat (length (l ++ bs)) <= size -> log_step size l (Put t bs) = Some (l ++ bs).
Proof. intros H. unfold log_step. rewrite check_true by (apply Z.leb_le; exact H). reflexivity. Qed.

Lemma log_got size l t k :
  (k <= length l)%nat -> log_step size l (Got t (take k l)) = Some (drop k l).
Proof.
  intros H. unfold log_step. rewrite length_take, Nat.min_l by exact H.
  rewrite bool_decide_eq_true_2 by reflexivity. reflexivity.
Qed.

Lemma log_moved_put w t bs : log_moved w [Put t bs] = if w then bs else [].
Proof. destruct w; [apply app_nil_r|reflexivity]. Qed.
Lemma log_moved_got w t bs : log_moved w [Got t bs] = if w then [] else bs.
Proof. destruct w; [reflexivity|apply app_nil_r]. Qed.

Lemma write_inv size s t c :
  pipe_inv size s -> ps_threads s !! t = Some (PTry c) -> pc_write c = true ->
  exists pp c' done, pipe_transfer c (ps_pipe s) = Some (pp, c', done) /\
    pipe_inv size (PSys pp (<[t := if done =? 0 then PWaiting c' else PResuming c']> (ps_threads s))
      (if done =? 0 then ps_log s else ps_log s ++ [pipe_entry_of t c' done])).
Proof.
  intros H E Ew. pose proof H as [Hs Hr Hl _ _ _ Hk].
  destruct (Hk _ _ c E eq_refl) as [(H1 & H2 & H3 & H4 & pre & Hp) _].
  pose proof Hr as (Hs0 & Hr0 & Hc0 & _). unfold chPipeGetSize in Hs.
  unfold pipe_transfer. rewrite Ew in *.
  destruct (pipe_write_spec (at_off (pc_mem c) (pc_bp c)) (pc_n c) (ps_pipe s) Hr) as
    (buf & w & Et & Hb & Ec & Ho); [unfold at_off; rewrite length_drop; lia|].
  rewrite Et. cbn [mbind option_bind]. clear Et.
  unfold chPipeGetFreeCount, chPipeGetSize, chPipeGetUsedCount in *. rewrite Hs in *.
  set (k := Z.min (pc_n c) (size - pp_cnt (ps_pipe s))) in *.
  assert (Hkr : 0 <= k /\ k <= pc_n c /\ pp_cnt (ps_pipe s) + k <= size) by lia. clearbody k.
  do 3 eexists. split; [reflexivity|]. set (c' := PCall _ _ _ _ _ _).
  assert (Eb : pipe_entry_of t c' k = Put t (take (Z.to_nat k) (at_off (pc_mem c) (pc_bp c))))
    by (unfold pipe_entry_of, c'; cbn; do 3 f_equal; lia).
  rewrite Eb. clear Eb. set (bs := take (Z.to_nat k) (at_off (pc_mem c) (pc_bp c))) in *.
  destruct (log_if size (ps_log s) (Put t bs) _ (pipe_content (ps_pipe s) ++ bs) k Hl) as [Hl' Hm'].
  { apply log_put. rewrite <- Ec, ring_content_length. lia. }
  { intros ->. split; [apply app_nil_r|]. intros []; reflexivity. }
  apply (moved_inv size s t c _ c'); try assumption; try (case_bool; rewrite ?Ew; reflexivity); try lia; auto.
  - rewrite Ec. exact Hl'.
  - rewrite Ew, Hm', log_moved_put. apply app_nil_r.
  - subst c'. split_and!; cbn; try lia. exists pre. rewrite Hm', log_moved_put, Hp, <- app_assoc. f_equal.
    rewrite Z2Nat.inj_add by lia. apply take_take_drop.
Qed.

Lemma pipe_read_inv size s t c :
  pipe_inv size s -> ps_threads s !! t = Some (PTry c) -> pc_write c = false ->
  exists pp c' done, pipe_transfer c (ps_pipe s) = Some (pp, c', done) /\
    pipe_inv size (PSys pp (<[t := if done =? 0 then PWaiting c' else PResuming c']> (ps_threads s))
      (if done =? 0 then ps_log s else ps_log s ++ [pipe_entry_of t c' done])).
Proof.
  intros H E Ew. pose proof H as [Hs Hr Hl _ _ _ Hk].
  destruct (Hk _ _ c E eq_refl) as [(H1 & H2 & H3 & H4 & pre & Hp) _].
  pose proof Hr as (Hs0 & Hr0 & Hc0 & _). unfold chPipeGetSize in Hs.
  unfold pipe_transfer. rewrite Ew in *.
  destruct (pipe_read_spec (pc_mem c) (pc_bp c) (pc_n c) (ps_pipe s) Hr) as (r & Et & Ec & Ho); try lia.
  rewrite Et. cbn [mbind option_bind]. clear Et.
  set (k := Z.min (pc_n c) (pp_cnt (ps_pipe s))) in *.
  assert (Hkr : 0 <= k /\ k <= pc_n c /\ k <= pp_cnt (ps_pipe s)) by lia. clearbody k.
  do 3 eexists. split; [reflexivity|]. set (bs := take (Z.to_nat k) (pipe_content (ps_pipe s))) in *.
  assert (Hbs : length bs = Z.to_nat k) by (subst bs; unfold pipe_content; rewrite length_take, ring_content_length; lia).
  set (c' := PCall _ _ _ _ _ _).
  assert (Eb : pipe_entry_of t c' k = Got t bs).
  { unfold pipe_entry_of, c', at_off. cbn. rewrite Z.add_simpl_r, drop_app_length' by (rewrite length_take; lia).
    rewrite take_app_length' by congruence. reflexivity. }
  rewrite Eb. clear Eb.
  destruct (log_if size (ps_log s) (Got t bs) _ (drop (Z.to_nat k) (pipe_content (ps_pipe s))) k Hl) as [Hl' Hm'].
  { apply log_got. unfold pipe_content. rewrite ring_content_length. lia. }
  { intros ->. split; [reflexivity|]. intros []; reflexivity. }
  apply (moved_inv size s t c _ c'); try assumption; try (case_bool; rewrite ?Ew; reflexivity); try lia; auto.
  - rewrite Ec. exact Hl'.
  - rewrite Ew, Hm', log_moved_got. apply app_nil_r.
  - subst c'. split_and!; cbn; try lia.
    { rewrite !length_app, length_take, length_drop. lia. }
    exists pre. rewrite Hm', log_moved_got, Hp, <- app_assoc. f_equal.
    rewrite Z2Nat.inj_add by lia. rewrite app_assoc, take_app_length'; [reflexivity|].
    rewrite length_app, length_take. lia.
Qed.

Lemma transfer_inv size s t c :
  pipe_inv size s -> ps_threads s !! t = Some (PTry c) ->
  exists pp c' done, pipe_transfer c (ps_pipe s) = Some (pp, c', done) /\
    pipe_inv size (PSys pp (<[t := if done =? 0 then PWaiting c' else PResuming c']> (ps_threads s))
      (if done =? 0 then ps_log s else ps_log s ++ [pipe_entry_of t c' done])).
Proof.
  intros H E. destruct (pc_write c) eqn:Ew; [apply write_inv|apply pipe_read_inv]; assumption.
Qed.

(** The first half of a reset empties the ring, the second wakes both sides. *)
Lemma reset_inv size s t :
  pipe_inv size s -> ps_threads s !! t = None -> pp_cmtx (ps_pipe s) = None ->
  pipe_inv size (chPipeReset t s).
Proof.
  intros [Hs Hr Hl Hm Ht Hc Hk] E Ec. pose proof Hr as (Hs0 & Hr0 & Hc0 & _). split; cbn.
  - exact Hs.
  - unfold pipe_ok, ring_ok. cbn. split_and!; try lia; reflexivity.
  - rewrite log_content_app, Hl. reflexivity.
  - apply (agree_ext _ _ _ _ Hm); [reflexivity|]. intros u. rewrite view_insert. case_decide; [|reflexivity].
    subst. unfold view. rewrite E. reflexivity.
  - apply (agree_ext _ _ _ _ Ht); [reflexivity|]. intros u. rewrite view_insert. case_decide; [|reflexivity].
    subst. unfold view. rewrite E. reflexivity.
  - apply (agree_take _ _ _ _ tt t Hc Ec); [unfold view; rewrite E; reflexivity|slots|].
    intros u. exact (view_insert pc_resets _ t _ u).
  - apply (pcalls_insert (ps_log s)); [assumption| |discriminate].
    intros. right. rewrite log_moved_app. apply app_nil_r.
Qed.

Lemma reset_end_inv size s t :
  pipe_inv size s -> ps_threads s !! t = Some PResetting ->
  exists s', pipe_run t PResetting s = Some s' /\ pipe_inv size s'.
Proof.
  intros H E. cbn [pipe_run].
  destruct (ref_resume_inv size s true MSG_RESET H) as (H1 & _ & K1).
  pose proof (K1 t _ E eq_refl) as E1. clear K1.
  destruct (ref_resume true MSG_RESET _ _) as [pp m]. cbn in H1, E1.
  destruct (ref_resume_inv size _ false MSG_RESET H1) as (H2 & _ & K2).
  pose proof (K2 t _ E1 eq_refl) as E2. clear K2.
  destruct (ref_resume false MSG_RESET _ _) as [pp' m']. cbn in H2, E2.
  eexists. split; [reflexivity|]. destruct H2 as [Hs Hr Hl Hm Ht Hc Hk]. split; try assumption; cbn in *.
  - apply (agree_ext _ _ _ _ Hm); [reflexivity|]. intros u. rewrite view_delete. case_decide; [|reflexivity].
    subst. unfold view. rewrite E2. reflexivity.
  - apply (agree_ext _ _ _ _ Ht); [reflexivity|]. intros u. rewrite view_delete. case_decide; [|reflexivity].
    subst. unfold view. rewrite E2. reflexivity.
  - apply (agree_drop _ _ _ _ tt t Hc); [unfold view; rewrite E2; reflexivity|slots|intros u; apply view_delete].
  - apply (pcalls_delete (ps_log s)); auto.
Qed.

Lemma pipe_call_inv size s t w mem n timeout :
  pipe_inv size s -> ps_threads s !! t = None -> 0 < n <= Z.of_nat (length mem) ->
  exists s', pipe_call t w mem n timeout s = Some s' /\ pipe_inv size s'.
Proof.
  intros [Hs Hr Hl Hm Ht Hc Hk] E Hn. unfold pipe_call. rewrite check_true by (apply Z.ltb_lt; lia).
  cbn [mbind option_bind]. case_bool; eexists; (split; [reflexivity|]).
  - destruct (log_quiet size (ps_log s) (Returned t (PCall w mem 0 n n timeout)) _ I Hl) as [Hl' Hq].
    split; try assumption; cbn. intros u pc c Eu Ec. destruct (Hk u pc c Eu Ec) as [Hok Hz].
    split; [|exact Hz]. apply (pcall_ok_moved (ps_log s)); auto.
  - split; try assumption; cbn.
    + apply (agree_ext _ _ _ _ Hm); [reflexivity|]. intros u. rewrite view_insert. case_decide; [|reflexivity].
      subst. unfold view. rewrite E. reflexivity.
    + apply (agree_ext _ _ _ _ Ht); [reflexivity|]. intros u. rewrite view_insert. case_decide; [|reflexivity].
      subst. unfold view. rewrite E. reflexivity.
    + apply (agree_ext _ _ _ _ Hc); [reflexivity|]. intros u. rewrite view_insert. case_decide; [|reflexivity].
      subst. unfold view. rewrite E. reflexivity.
    + apply (pcalls_insert (ps_log s)); [assumption|auto|]. intros c [= <-]. cbn.
      split; [|reflexivity]. split_and!; cbn; try lia. exists (log_moved w (ps_log s)). symmetry. apply app_nil_r.
Qed.

Lemma lock_inv size s t c :
  pipe_inv size s -> ps_threads s !! t = Some (PLocking c) -> pp_mtx (pc_write c) (ps_pipe s) = None ->
  pipe_inv size (PSys (set_mtx (pc_write c) (Some t) (ps_pipe s)) (<[t := PTry c]> (ps_threads s)) (ps_log s)).
Proof.
  intros [Hs Hr Hl Hm Ht Hc Hk] E Ef. split; try assumption; cbn.
  - apply (agree_take _ _ _ _ _ t Hm Ef); [unfold view; rewrite E; reflexivity|slots|].
    intros u. exact (view_insert pc_holds _ t _ u).
  - apply (agree_ext _ _ _ _ Ht); [slots|]. intros u. apply (view_keep _ _ _ (PLocking c)); auto.
  - apply (agree_ext _ _ _ _ Hc); [reflexivity|]. intros u. apply (view_keep _ _ _ (PLocking c)); auto.
  - apply (pcalls_insert (ps_log s)); [assumption|auto|]. intros c' [= <-].
    split; [apply (Hk t (PLocking c)); auto|discriminate].
Qed.

(** The thread that is about to suspend itself finds the reference free: it holds
    the mutex of its direction, as a thread that sleeps on the reference would. *)
Lemma suspend_inv size s t c :
  pipe_inv size s -> ps_threads s !! t = Some (PWaiting c) ->
  pp_tr (pc_write c) (ps_pipe s) = None /\
  pipe_inv size (PSys (set_tr (pc_write c) (Some t) (ps_pipe s)) (<[t := PSleeping c]> (ps_threads s)) (ps_log s)).
Proof.
  intros [Hs Hr Hl Hm Ht Hc Hk] E.
  assert (Ef : pp_tr (pc_write c) (ps_pipe s) = None).
  { destruct (pp_tr (pc_write c) (ps_pipe s)) as [u|] eqn:Eu; [exfalso|reflexivity].
    apply (Ht (pc_write c)) in Eu. unfold view in Eu.
    destruct (ps_threads s !! u) as [[]|] eqn:E2; try discriminate. injection Eu as Ec.
    assert (Some u = Some t) as [= ->]; [|congruence].
    transitivity (pp_mtx (pc_write c) (ps_pipe s)); [symmetry|]; apply (Hm (pc_write c));
      unfold view; rewrite ?E, ?E2; cbn; congruence. }
  split; [exact Ef|]. split; try assumption; cbn.
  - apply (agree_ext _ _ _ _ Hm); [slots|]. intros u. apply (view_keep _ _ _ (PWaiting c)); auto.
  - apply (agree_take _ _ _ _ _ t Ht Ef); [unfold view; rewrite E; reflexivity|slots|].
    intros u. exact (view_insert pc_sleeps _ t _ u).
  - apply (agree_ext _ _ _ _ Hc); [reflexivity|]. intros u. apply (view_keep _ _ _ (PWaiting c)); auto.
  - apply (pcalls_insert (ps_log s)); [assumption|auto|]. intros c' [= <-].
    split; [apply (Hk t (PWaiting c)); auto|discriminate].
Qed.

Lemma expire_inv size s t c :
  pipe_inv size s -> ps_threads s !! t = Some (PSleeping c) -> pipe_inv size (pipe_expire t c s).
Proof.
  intros [Hs Hr Hl Hm Ht Hc Hk] E. split; try assumption; cbn.
  - apply (agree_ext _ _ _ _ Hm); [slots|]. intros u. apply (view_keep _ _ _ (PSleeping c)); auto.
  - apply (agree_drop _ _ _ _ (pc_write c) t Ht); [unfold view; rewrite E; reflexivity|slots|].
    intros u. exact (view_insert pc_sleeps _ t _ u).
  - apply (agree_ext _ _ _ _ Hc); [reflexivity|]. intros u. apply (view_keep _ _ _ (PSleeping c)); auto.
  - apply (pcalls_insert (ps_log s)); [assumption|auto|]. intros c' [= <-].
    split; [apply (Hk t (PSleeping c)); auto|discriminate].
Qed.

Lemma pipe_run_inv size s t pc :
  pipe_inv size s -> ps_threads s !! t = Some pc -> pipe_enabled (PvRun t) s = true ->
  exists s', pipe_run t pc s = Some s' /\ pipe_inv size s'.
Proof.
  intros H E En. cbn in En. rewrite E in En. destruct pc; cbn [pipe_run].
  - eexists. split; [reflexivity|]. apply lock_inv; try assumption.
    destruct (pp_mtx _ _); [discriminate|reflexivity].
  - case_bool; [|eexists; split; [reflexivity|]; eapply exit_inv; eauto].
    destruct (transfer_inv size s t c H E) as (pp & c' & done & -> & Hi). cbn [mbind option_bind].
    case_bool_in Hi; eauto.
  - destruct (suspend_inv size s t c H E) as [-> Hi]. cbn. case_bool; eexists; (split; [reflexivity|]); [|exact Hi].
    eapply exit_inv; eauto.
  - discriminate.
  - eexists. split; [reflexivity|]. case_bool; [apply (goto_inv _ _ _ (PWoken c msg)); auto|].
    apply (exit_inv _ _ _ (PWoken c msg)); auto.
  - destruct (ref_resume_inv size s (negb (pc_write c)) MSG_OK H) as (Hi & _ & Hk).
    specialize (Hk t _ E eq_refl). destruct (ref_resume _ _ _ _) as [pp m]. eexists. split; [reflexivity|].
    apply (goto_inv size (PSys pp m (ps_log s)) t (PResuming c)); auto.
  - apply reset_end_inv; assumption.
Qed.

Lemma pipe_step_inv size s e :
  pipe_inv size s -> pipe_enabled e s = true -> exists s', pipe_step e s = Some s' /\ pipe_inv size s'.
Proof.
  intros H En. destruct e as [t mem n timeout|t mem n timeout|t| |t|t]; cbn [pipe_step].
  1, 2: cbn in En; unfold idle in En; destruct (ps_threads s !! t) eqn:E; [discriminate|]; bools;
    apply pipe_call_inv; auto; lia.
  - eexists. split; [reflexivity|]. cbn in En. unfold idle in En.
    destruct (ps_threads s !! t) eqn:E; [discriminate|]. cbn in En.
    apply reset_inv; [assumption|assumption|]. destruct (pp_cmtx _); [discriminate|reflexivity].
  - eexists. split; [reflexivity|]. destruct H. split; assumption.
  - pose proof En as En'. cbn in En'. destruct (ps_threads s !! t) eqn:E; [|discriminate].
    apply pipe_run_inv; assumption.
  - cbn in En. destruct (ps_threads s !! t) as [[]|] eqn:E; try discriminate.
    eexists. split; [reflexivity|]. apply expire_inv; assumption.
Qed.

Lemma pipe_init_inv buf s : pipe_init buf = Some s -> pipe_inv (Z.of_nat (length buf)) s.
Proof.
  unfold pipe_init, chPipeObjectInit. destruct (0 <? Z.of_nat (length buf)) eqn:E0; intros E; [|discriminate].
  injection E as <-. bools.
  split; cbn; try (intros w t; unfold view; cbn; rewrite lookup_empty; destruct w; split; discriminate).
  - reflexivity.
  - unfold pipe_ok, ring_ok. cbn. split_and!; try lia; reflexivity.
  - reflexivity.
Qed.

Lemma pipe_reach_inv buf s : pipe_reach buf s -> pipe_inv (Z.of_nat (length buf)) s.
Proof.
  induction 1 as [s E|s e s' _ IH En E]; [apply pipe_init_inv; exact E|].
  destruct (pipe_step_inv _ _ _ IH En) as (s2 & E2 & H2). congruence.
Qed.

(** ** What users of a pipe may rely on *)

(** C26: however calls, resets and timeouts interleave, from the initialisation of a
    pipe on, every step that can happen is defined, with no access outside the ring
    or the callers' memory and no reference taken twice; and the ring holds the
    bytes that a list of at most its size would, to which the log's transfers
    append and from whose head they take. *)
Theorem pipe_refines_list (buf : list Z) (s : pipe_sys) :
  pipe_reach buf s ->
  (forall e, pipe_enabled e s = true -> is_Some (pipe_step e s)) /\
  log_content (Z.of_nat (length buf)) [] (ps_log s) = Some (pipe_content (ps_pipe s)).
Proof.
  intros H. apply pipe_reach_inv in H. split; [|apply H].
  intros e En. destruct (pipe_step_inv _ _ _ H En) as (s' & -> & _). eauto.
Qed.

(** What a step adds to the log. *)
Lemma pipe_step_log size s e s' :
  pipe_inv size s -> pipe_enabled e s = true -> pipe_step e s = Some s' ->
  ps_log s' = ps_log s \/
  exists x, ps_log s' = ps_log s ++ [x] /\ forall t c, x = Returned t c -> pcall_ok (ps_log s) c.
Proof.
  intros H En E. pose proof (pi_calls _ _ H) as Hk.
  assert (Hcall : forall t w mem n timeout, 0 < n <= Z.of_nat (length mem) ->
    pipe_call t w mem n timeout s = Some s' -> ps_log s' = ps_log s \/
    exists x, ps_log s' = ps_log s ++ [x] /\ forall t c, x = Returned t c -> pcall_ok (ps_log s) c).
  { intros t w mem n timeout Hn. unfold pipe_call. rewrite check_true by (apply Z.ltb_lt; lia).
    cbn [mbind option_bind]. case_bool; intros [= <-]; [right|left; reflexivity].
    eexists. split; [reflexivity|]. intros t' c [= _ <-]. split_and!; cbn; try lia.
    exists (log_moved w (ps_log s)). symmetry. apply app_nil_r. }
  destruct e as [t mem n timeout|t mem n timeout|t| |t|t]; cbn [pipe_step] in E.
  1: cbn in En; bools; apply (Hcall t true mem n timeout); [lia|exact E].
  1: cbn in En; bools; apply (Hcall t false mem n timeout); [lia|exact E].
  - injection E as <-. right. exists Dropped. split; [reflexivity|discriminate].
  - injection E as <-. auto.
  - destruct (ps_threads s !! t) as [pc|] eqn:Et; [|injection E as <-; auto].
    assert (Hx : forall c, pc_call pc = Some c -> s' = pipe_exit t c s -> ps_log s' = ps_log s \/
      exists x, ps_log s' = ps_log s ++ [x] /\ forall t c, x = Returned t c -> pcall_ok (ps_log s) c).
    { intros c Ec ->. right. eexists. split; [reflexivity|]. intros t' c' [= _ <-]. apply (Hk t pc c Et Ec). }
    destruct pc; cbn [pipe_run] in E.
    + injection E as <-. auto.
    + case_bool_in E; [|injection E as <-; eauto].
      destruct (transfer_inv size s t c H Et) as (pp & c' & done & Etr & _). rewrite Etr in E. cbn [mbind option_bind] in E.
      case_bool_in E; injection E as <-; [auto|right]. eexists. split; [reflexivity|].
      unfold pipe_entry_of. destruct (pc_write c'); discriminate.
    + destruct (suspend_inv size s t c H Et) as [Ef _]. rewrite Ef in E. cbn in E.
      case_bool_in E; injection E as <-; eauto.
    + injection E as <-. auto.
    + case_bool_in E; injection E as <-; eauto.
    + destruct (ref_resume _ _ _ _); injection E as <-; auto.
    + destruct (ref_resume true _ _ _) as [p1 m1]; destruct (ref_resume false _ p1 m1); injection E as <-; auto.
  - destruct (ps_threads s !! t) as [[]|]; injection E as <-; auto.
Qed.

(** A call that returns has moved as many bytes as it says, from the start of its
    memory, and no other call's bytes lie between them in the stream of its
    direction: when it returns, they are the stream's last bytes. *)
Theorem pipe_calls_whole (buf : list Z) (s : pipe_sys) (i : nat) (t : nat) (c : pcall) :
  pipe_reach buf s -> ps_log s !! i = Some (Returned t c) ->
  0 <= pc_max c - pc_n c <= pc_max c /\ pc_max c <= Z.of_nat (length (pc_mem c)) /\
  exists pre, log_moved (pc_write c) (take i (ps_log s)) =
              pre ++ take (Z.to_nat (pc_max c - pc_n c)) (pc_mem c).
Proof.
  intros H. revert i t c. induction H as [s E|s e s' Hr IH En E]; intros i t c Ei.
  - unfold pipe_init in E. inv_bind. subst. discriminate.
  - destruct (pipe_step_log _ s e s' (pipe_reach_inv _ _ Hr) En E) as [El|(x & El & Hx)];
      rewrite El in *; [eauto|].
    apply lookup_app_Some in Ei as [Ei|[Hle Ei]].
    + rewrite take_app_le by (apply lookup_lt_Some in Ei; lia). eauto.
    + apply list_lookup_singleton_Some in Ei as [Hi Ex].
      destruct (Hx t c Ex) as (H1 & H2 & H3 & H4 & pre & Hp).
      rewrite take_app_length' by lia. replace (pc_max c - pc_n c) with (pc_bp c) by lia. eauto with lia.
Qed.

(** *** Runs *)

Lemma pipe_steps_reach buf es : forall s s', pipe_reach buf s -> pipe_steps es s = Some s' -> pipe_reach buf s'.
Proof.
  induction es as [|e es IH]; cbn; intros s s' H E; [injection E as <-; exact H|].
  destruct (pipe_enabled e s) eqn:En; [|discriminate]. inv_bind.
  apply (IH x); [|assumption]. apply (pipe_next buf s e); assumption.
Qed.

Definition pipe_sys0 (buf : list Z) : pipe_sys := PSys (Pipe buf 0 0 0 false None None None None None) ∅ [].

Lemma pipe_sys0_reach b buf : pipe_reach (b :: buf) (pipe_sys0 (b :: buf)).
Proof. apply pipe_start. reflexivity. Qed.

(** Thread 1 writes three bytes to a pipe of two, thread 2 reads them. *)
Definition pipe_demo : list pipe_event :=
  [PvWrite 1 [7; 8; 9] 3 TIME_INFINITE; PvRun 1; PvRun 1; PvRun 1; PvRun 1; PvRun 1;
   PvRead 2 [0; 0; 0] 3 TIME_INFINITE; PvRun 2; PvRun 2; PvRun 2; PvRun 1; PvRun 1; PvRun 1;
   PvRun 2; PvRun 1; PvRun 2; PvRun 2].

Definition pipe_demo_end : pipe_sys := default (pipe_sys0 [0; 0]) (pipe_steps pipe_demo (pipe_sys0 [0; 0])).

Lemma pipe_demo_reach : pipe_reach [0; 0] pipe_demo_end.
Proof. apply (pipe_steps_reach _ pipe_demo (pipe_sys0 [0; 0])); [apply pipe_sys0_reach|vm_compute; reflexivity]. Qed.

Lemma pipe_refines_list_witness :
  (forall e, pipe_enabled e pipe_demo_end = true -> is_Some (pipe_step e pipe_demo_end)) /\
  log_content 2 [] (ps_log pipe_demo_end) = Some [].
Proof.
  destruct (pipe_refines_list [0; 0] pipe_demo_end pipe_demo_reach) as [H1 H2].
  split; [exact H1|]. exact H2.
Defined.

Lemma pipe_calls_whole_witness :
  0 <= 3 - 0 <= 3 /\ 3 <= Z.of_nat (length [7; 8; 9]) /\
  exists pre, log_moved true (take 4 (ps_log pipe_demo_end)) = pre ++ take 3 [7; 8; 9].
Proof.
  apply (pipe_calls_whole [0; 0] pipe_demo_end 4 1 (PCall true [7; 8; 9] 3 0 3 TIME_INFINITE));
    [exact pipe_demo_reach|vm_compute; reflexivity].
Defined.

(** A wake-up can be lost: the reader empties the ring and finds no writer to resume
    while the writer, which has found the ring full, is about to suspend itself.
    Then both wait for ever, at an empty ring, with bytes left to write. *)
Definition pipe_stall : list pipe_event :=
  [PvWrite 1 [7; 8] 2 TIME_INFINITE; PvRun 1; PvRun 1; PvRun 1; PvRun 1;
   PvRead 2 [0; 0] 2 TIME_INFINITE; PvRun 2; PvRun 2; PvRun 2; PvRun 2; PvRun 2; PvRun 1].

Theorem pipe_deadlock_reachable :
  exists s, pipe_reach [0] s /\ pipe_content (ps_pipe s) = [] /\
    ps_threads s = {[ 1%nat := PSleeping (PCall true [7; 8] 1 1 2 TIME_INFINITE);
                      2%nat := PSleeping (PCall false [7; 0] 1 1 2 TIME_INFINITE) ]} /\
    forall t, pipe_enabled (PvRun t) s = false /\ pipe_enabled (PvTimeout t) s = false.
Proof.
  eexists. split; [apply (pipe_steps_reach _ pipe_stall (pipe_sys0 [0])); [apply pipe_sys0_reach|vm_compute; reflexivity]|].
  split; [reflexivity|]. split; [reflexivity|]. intros t.
  assert (Ht : t = 1%nat \/ t = 2%nat \/ t <> 1%nat /\ t <> 2%nat) by lia.
  destruct Ht as [->|[->|[H1 H2]]]; [split; reflexivity..|].
  cbn [pipe_enabled ps_threads].
  match goal with |- context [?m !! t] => assert (E : m !! t = None) end; [|rewrite E; auto].
  change (({[ 1%nat := PSleeping (PCall true [7; 8] 1 1 2 TIME_INFINITE);
              2%nat := PSleeping (PCall false [7; 0] 1 1 2 TIME_INFINITE) ]} : gmap nat pipe_pc) !! t = None).
  rewrite lookup_insert_ne, lookup_singleton_ne by congruence. reflexivity.
Qed.
