(* ===== verification/Mempools.v ===== *)
(** * Memory pools (chmempools.c)

    A pool is a list of free objects of one size, linked through their first
    words; an empty pool may get objects from the core memory.  A guarded pool
    counts its objects with a semaphore, on which threads wait for one.  [gpool_sys]
    is a guarded pool with the threads that wait for objects or have been woken,
    and the objects that are out; [gpool_step] is one call, the end of a wait or a
    timeout.  Objects are conserved, and a thread that is granted an object gets
    one. *)

From stdpp Require Import gmap.
From S2P Require Import Prelude CInt CLib Threads Memcore Semaphores.
#[local] Open Scope Z_scope.

(** ** Data *)

Definition PORT_NATURAL_ALIGN : Z := 4.

(** The first words of objects, by address, and the core memory. *)
Record pool_mem := PoolMem { pm_words : gmap Z Z; pm_core : memcore_t }.

(** The provider is the core memory's allocator, or none. *)
Record memory_pool_t := Pool {
  mp_next : Z;
  mp_object_size : Z;
  mp_align : Z;
  mp_provider : bool
}.

Record guarded_memory_pool_t := GPool { gmp_sem : semaphore_t; gmp_pool : memory_pool_t }.

Definition chCoreAllocAlignedI (size align : Z) : memcore_t -> option (memcore_t * Z) :=
  chCoreAllocFromTopI size align 0.

(** ** Pools *)

Definition chPoolObjectInitAligned (size align : Z) (provider : bool) : option memory_pool_t :=
  _ ← check ((4 <=? size) && (PORT_NATURAL_ALIGN <=? align) && MEM_IS_VALID_ALIGNMENT align);
  Some (Pool 0 size align provider).

Definition chPoolObjectInit (size : Z) (provider : bool) : option memory_pool_t :=
  chPoolObjectInitAligned size PORT_NATURAL_ALIGN provider.

Definition mp_with_next (p : Z) (mp : memory_pool_t) : memory_pool_t :=
  Pool p (mp_object_size mp) (mp_align mp) (mp_provider mp).

(** The address of the object, 0 for none. *)
Definition chPoolAllocI (mp : memory_pool_t) (m : pool_mem) : option (memory_pool_t * pool_mem * Z) :=
  let objp := mp_next mp in
  if negb (objp =? 0) then
    next ← pm_words m !! objp; Some (mp_with_next next mp, m, objp)
  else if mp_provider mp then
    '(core, objp) ← chCoreAllocAlignedI (mp_object_size mp) (mp_align mp) (pm_core m);
    _ ← check (MEM_IS_ALIGNED objp (mp_align mp));
    Some (mp, PoolMem (pm_words m) core, objp)
  else Some (mp, m, objp).

Definition chPoolFreeI (objp : Z) (mp : memory_pool_t) (m : pool_mem) : option (memory_pool_t * pool_mem) :=
  _ ← check (negb (objp =? 0) && MEM_IS_ALIGNED objp (mp_align mp));
  Some (mp_with_next objp mp, PoolMem (<[objp := mp_next mp]> (pm_words m)) (pm_core m)).

Definition chPoolAlloc := chPoolAllocI.
Definition chPoolFree := chPoolFreeI.
Definition chPoolAdd := chPoolFree.

Fixpoint pool_load (n : nat) (p : Z) (mp : memory_pool_t) (m : pool_mem) : option (memory_pool_t * pool_mem) :=
  match n with
  | O => Some (mp, m)
  | S n => '(mp, m) ← chPoolAdd p mp m; pool_load n (u32 (p + mp_object_size mp)) mp m
  end.

Definition chPoolLoadArray (p n : Z) (mp : memory_pool_t) (m : pool_mem) : option (memory_pool_t * pool_mem) :=
  _ ← check (negb (n =? 0)); pool_load (Z.to_nat n) p mp m.

(** ** Guarded pools *)

Definition chGuardedPoolObjectInitAligned (size align : Z) : option guarded_memory_pool_t :=
  mp ← chPoolObjectInitAligned size align false;
  sem ← chSemObjectInit 0;
  Some (GPool sem mp).

Definition chGuardedPoolObjectInit (size : Z) : option guarded_memory_pool_t :=
  chGuardedPoolObjectInitAligned size PORT_NATURAL_ALIGN.

Definition chGuardedPoolGetCounterI (gmp : guarded_memory_pool_t) : Z := chSemGetCounterI (gmp_sem gmp).

Definition chGuardedPoolFreeI (objp : Z) (gmp : guarded_memory_pool_t) (m : pool_mem)
  : option (guarded_memory_pool_t * pool_mem * list event) :=
  '(mp, m) ← chPoolFreeI objp (gmp_pool gmp) m;
  '(sem, ev) ← chSemSignalI (gmp_sem gmp);
  Some (GPool sem mp, m, ev).

Definition chGuardedPoolFreeS := chGuardedPoolFreeI.
Definition chGuardedPoolFree := chGuardedPoolFreeI.
Definition chGuardedPoolAdd := chGuardedPoolFree.

Fixpoint gpool_load (n : nat) (p : Z) (gmp : guarded_memory_pool_t) (m : pool_mem)
  : option (guarded_memory_pool_t * pool_mem * list event) :=
  match n with
  | O => Some (gmp, m, [])
  | S n =>
      '(gmp, m, ev) ← chGuardedPoolAdd p gmp m;
      '(gmp, m, evs) ← gpool_load n (u32 (p + mp_object_size (gmp_pool gmp))) gmp m;
      Some (gmp, m, ev ++ evs)
  end.

Definition chGuardedPoolLoadArray (p n : Z) (gmp : guarded_memory_pool_t) (m : pool_mem)
  : option (guarded_memory_pool_t * pool_mem * list event) :=
  _ ← check (negb (n =? 0)); gpool_load (Z.to_nat n) p gmp m.

(** The pool's part of an allocation, once a permit has been taken. *)
Definition gpool_take (gmp : guarded_memory_pool_t) (m : pool_mem) : option (guarded_memory_pool_t * pool_mem * Z) :=
  '(mp, m, objp) ← chPoolAllocI (gmp_pool gmp) m; Some (GPool (gmp_sem gmp) mp, m, objp).

Definition chGuardedPoolAllocI (gmp : guarded_memory_pool_t) (m : pool_mem)
  : option (guarded_memory_pool_t * pool_mem * Z) :=
  '(gmp, m, p) ← gpool_take gmp m;
  if negb (p =? 0) then
    sem ← chSemFastWaitI (gmp_sem gmp);
    _ ← check (0 <=? chSemGetCounterI sem);
    Some (GPool sem (gmp_pool gmp), m, p)
  else Some (gmp, m, p).

(** The call of thread [t], up to its return or its suspension. *)
Definition chGuardedPoolAllocTimeoutS (t : nat) (timeout : Z) (gmp : guarded_memory_pool_t) (m : pool_mem)
  : option (guarded_memory_pool_t * pool_mem * outcome Z unit) :=
  '(sem, o) ← chSemWaitTimeoutS t timeout (gmp_sem gmp);
  match o with
  | Return msg =>
      if negb (msg =? MSG_OK) then Some (GPool sem (gmp_pool gmp), m, Return 0)
      else '(gmp, m, p) ← gpool_take (GPool sem (gmp_pool gmp)) m; Some (gmp, m, Return p)
  | Blocked c | More c => Some (GPool sem (gmp_pool gmp), m, Blocked c)
  end.

Definition chGuardedPoolAllocTimeout := chGuardedPoolAllocTimeoutS.

(** The rest of the call, when its thread runs again. *)
Definition gpool_resume (msg : Z) (gmp : guarded_memory_pool_t) (m : pool_mem)
  : option (guarded_memory_pool_t * pool_mem * Z) :=
  if negb (msg =? MSG_OK) then Some (gmp, m, 0) else gpool_take gmp m.

(** ** A guarded pool at work

    Which threads wait is in the semaphore; [gs_ready] are the threads that have
    been woken and have not run yet, with their messages, [gs_held] the objects
    that are out, and [gs_log] what calls have returned: at once, with their
    timeout, or after a wait, with its message. *)

Inductive gpool_ret :=
| AtOnce (timeout p : Z)
| AfterWait (msg p : Z).

Record gpool_sys := GSys {
  gs_pool : guarded_memory_pool_t;
  gs_mem : pool_mem;
  gs_ready : list (nat * Z);
  gs_held : list Z;
  gs_log : list gpool_ret
}.

Inductive gpool_event :=
| GvAlloc (t : nat) (timeout : Z)
| GvAllocI
| GvFree (objp : Z)
| GvRun (i : nat)
| GvTimeout (t : nat).

Definition hand_out (r : Z -> gpool_ret) (p : Z) (s : gpool_sys) : gpool_sys :=
  GSys (gs_pool s) (gs_mem s) (gs_ready s) (if p =? 0 then gs_held s else p :: gs_held s) (gs_log s ++ [r p]).

Definition gs_waiting (s : gpool_sys) : list nat := sem_queue (gmp_sem (gs_pool s)).

(** A thread is in one call at a time, and there are fewer threads than a counter
    can count.  [GvAllocI] takes what is free at once, even before threads that
    have been woken for it: it is left out while there are any. *)
Definition gpool_enabled (e : gpool_event) (s : gpool_sys) : bool :=
  match e with
  | GvAlloc t _ =>
      bool_decide (t ∉ gs_waiting s) && bool_decide (t ∉ (gs_ready s).*1) &&
      (Z.of_nat (length (gs_waiting s)) <? 2 ^ 31)
  | GvAllocI => bool_decide (filter (fun r => snd r = MSG_OK) (gs_ready s) = [])
  | GvFree objp => bool_decide (objp ∈ gs_held s)
  | GvRun i => bool_decide (i < length (gs_ready s))%nat
  | GvTimeout t => bool_decide (t ∈ gs_waiting s)
  end.

Definition remove_one (p : Z) (l : list Z) : list Z := filter (fun q => q <> p) l.

Definition gpool_step (e : gpool_event) (s : gpool_sys) : option gpool_sys :=
  match e with
  | GvAlloc t timeout =>
      '(gmp, m, o) ← chGuardedPoolAllocTimeoutS t timeout (gs_pool s) (gs_mem s);
      let s' := GSys gmp m (gs_ready s) (gs_held s) (gs_log s) in
      match o with
      | Return p => Some (hand_out (AtOnce timeout) p s')
      | _ => Some s'
      end
  | GvAllocI =>
      '(gmp, m, p) ← chGuardedPoolAllocI (gs_pool s) (gs_mem s);
      Some (hand_out (AtOnce TIME_IMMEDIATE) p (GSys gmp m (gs_ready s) (gs_held s) (gs_log s)))
  | GvFree objp =>
      '(gmp, m, ev) ← chGuardedPoolFreeI objp (gs_pool s) (gs_mem s);
      Some (GSys gmp m (gs_ready s ++ wakes ev) (remove_one objp (gs_held s)) (gs_log s))
  | GvRun i =>
      match gs_ready s !! i with
      | None => Some s
      | Some (t, msg) =>
          '(gmp, m, p) ← gpool_resume msg (gs_pool s) (gs_mem s);
          Some (hand_out (AfterWait msg) p (GSys gmp m (delete i (gs_ready s)) (gs_held s) (gs_log s)))
      end
  | GvTimeout t =>
      '(sem, ev) ← sem_wakeup t (gmp_sem (gs_pool s));
      Some (GSys (GPool sem (gmp_pool (gs_pool s))) (gs_mem s) (gs_ready s ++ wakes ev) (gs_held s) (gs_log s))
  end.

(** A pool of [n] objects from address [p] on. *)
Definition gpool_init (size align p n : Z) (m : pool_mem) : option gpool_sys :=
  gmp ← chGuardedPoolObjectInitAligned size align;
  '(gmp, m, ev) ← chGuardedPoolLoadArray p n gmp m;
  Some (GSys gmp m (wakes ev) [] []).

Fixpoint gpool_run (es : list gpool_event) (s : gpool_sys) : option gpool_sys :=
  match es with
  | [] => Some s
  | e :: es => if gpool_enabled e s then s ← gpool_step e s; gpool_run es s else None
  end.

(** ** The free list *)

Fixpoint chain (w : gmap Z Z) (p : Z) (l : list Z) : Prop :=
  match l with
  | [] => p = 0
  | a :: l => p = a /\ a <> 0 /\ exists next, w !! a = Some next /\ chain w next l
  end.

Lemma chain_write w p l a v : a ∉ l -> chain w p l -> chain (<[a := v]> w) p l.
Proof.
  revert p. induction l as [|b l IH]; intros p Ha; cbn [chain]; [auto|].
  apply not_elem_of_cons in Ha as [Hab Ha]. intros (Hp & Hb & next & E & Hc). split_and!; auto.
  exists next. rewrite lookup_insert_ne by congruence. auto.
Qed.

(** A pool of the free objects [l], the next to be given out first. *)
Definition pool_rep (mp : memory_pool_t) (m : pool_mem) (l : list Z) : Prop :=
  chain (pm_words m) (mp_next mp) l /\ NoDup l.

Definition object_ok (align p : Z) : Prop := p <> 0 /\ MEM_IS_ALIGNED p align = true.

Lemma pool_free_spec mp m l p :
  pool_rep mp m l -> object_ok (mp_align mp) p -> p ∉ l ->
  exists m', chPoolFreeI p mp m = Some (mp_with_next p mp, m') /\ pool_rep (mp_with_next p mp) m' (p :: l).
Proof.
  intros [Hc Hnd] [Hp Ha] Hin. unfold chPoolFreeI.
  rewrite check_true by (rewrite Ha, (proj2 (Z.eqb_neq _ _) Hp); reflexivity). cbn [mbind option_bind].
  eexists. split; [reflexivity|]. split; [|constructor; assumption]. cbn. split_and!; auto.
  eexists. rewrite lookup_insert_eq. split; [reflexivity|]. apply chain_write; assumption.
Qed.

Lemma pool_alloc_spec mp m p l :
  pool_rep mp m (p :: l) ->
  p <> 0 /\ exists next, chPoolAllocI mp m = Some (mp_with_next next mp, m, p) /\ pool_rep (mp_with_next next mp) m l.
Proof.
  intros [(Ep & Hp & next & E & Hc) Hnd]. split; [exact Hp|]. exists next. unfold chPoolAllocI.
  rewrite Ep, (proj2 (Z.eqb_neq _ _) Hp). cbn [negb]. rewrite E. apply NoDup_cons in Hnd as [_ Hnd].
  split; [reflexivity|]. split; assumption.
Qed.

(** Without a provider an empty pool gives nothing. *)
Lemma pool_alloc_empty mp m :
  pool_rep mp m [] -> mp_provider mp = false -> chPoolAllocI mp m = Some (mp, m, 0).
Proof. intros [Hc _] Hp. cbn in Hc. unfold chPoolAllocI. rewrite Hc, Hp. reflexivity. Qed.

Lemma remove_one_perm p l : NoDup l -> p ∈ l -> l ≡ₚ p :: remove_one p l.
Proof.
  induction l as [|q l IH]; intros Hnd Hin; [inversion Hin|]. apply NoDup_cons in Hnd as [Hq Hnd].
  unfold remove_one. apply elem_of_cons in Hin as [->|Hin].
  - rewrite filter_cons_False by auto. apply Permutation_cons; [reflexivity|].
    clear IH Hnd. induction l as [|r l IHl]; [reflexivity|]. apply not_elem_of_cons in Hq as [Hr Hq].
    rewrite filter_cons_True by congruence. apply Permutation_cons; auto.
  - rewrite filter_cons_True by (intros ->; contradiction).
    rewrite (IH Hnd Hin) at 1. apply Permutation_swap.
Qed.

(** ** Waiting on a semaphore of known permits *)

Lemma signal_spec sp p :
  sem_rep sp p -> p_free p + 1 < 2 ^ 31 ->
  exists sp' ev, chSemSignalI sp = Some (sp', ev) /\ sem_rep sp' (fst (spec_release 1 p)) /\
    wakes ev = snd (spec_release 1 p).
Proof.
  intros Hr Hlt. unfold chSemSignalI. rewrite (rep_consistent _ _ Hr).
  destruct (release_spec sp p Hr Hlt) as (sp' & ev & -> & H). eauto.
Qed.

Lemma wait_timeout_spec t timeout sp p :
  sem_rep sp p -> t ∉ p_wait p -> Z.of_nat (length (p_wait p)) < 2 ^ 31 ->
  exists sp' o, chSemWaitTimeoutS t timeout sp = Some (sp', o) /\
    (0 < p_free p /\ o = Return MSG_OK /\ sem_rep sp' (Permits (p_free p - 1) (p_wait p)) \/
     p_free p = 0 /\ timeout = TIME_IMMEDIATE /\ o = Return MSG_TIMEOUT /\ sp' = sp \/
     p_free p = 0 /\ o = Blocked tt /\ sem_rep sp' (Permits 0 (p_wait p ++ [t]))).
Proof.
  intros Hr Ht Hl. unfold chSemWaitTimeoutS, cnt_dec, cnt_inc. pose proof Hr as (Hq & Hnd & Hf & Hc & H).
  rewrite (rep_consistent _ _ Hr). change (check true) with (Some tt). cbn [mbind option_bind].
  rewrite check_true by (apply Z.ltb_lt; lia). cbn [mbind option_bind sem_cnt sem_queue].
  destruct (Z.ltb_spec 0 (p_free p)) as [Hp|Hp].
  - destruct (rep_take _ _ Hr Hp) as [Hn Hr']. rewrite (proj2 (Z.ltb_ge _ _)) by exact Hn. eauto 10.
  - destruct (rep_wait t _ _ Hr Hp Ht) as [Hn Hr']. rewrite (proj2 (Z.ltb_lt _ _)) by exact Hn.
    assert (Hz : p_free p = 0) by lia. rewrite Hz in Hr'.
    destruct (Z.eqb_spec timeout TIME_IMMEDIATE) as [->|Hne]; [|eauto 10].
    rewrite check_true by (apply Z.ltb_lt; lia). cbn [mbind option_bind].
    replace (sem_cnt sp - 1 + 1) with (sem_cnt sp) by lia. destruct sp. eauto 10.
Qed.

Lemma wakeup_spec t sp p :
  sem_rep sp p -> p_free p + 1 < 2 ^ 31 -> t ∈ p_wait p ->
  exists sp' ev, sem_wakeup t sp = Some (sp', ev) /\ wakes ev = [(t, MSG_TIMEOUT)] /\
    sem_rep sp' (Permits (p_free p) (filter (fun t' => t' <> t) (p_wait p))).
Proof.
  intros Hr Hf Ht. destruct (sem_exec_spec (STimeout t) sp p Hr) as (sp' & E & Hr').
  { split; [exact Ht|]. cbn. lia. }
  cbn [sem_exec spec_exec fst snd] in *. apply bind_Some_inv in E as ([sp2 ev] & E & E2).
  injection E2 as <- Hw. rewrite E. eauto.
Qed.

(** ** Invariant *)

(** Nothing is returned only for want of objects at once, or after a wait that was
    not granted. *)
Definition ret_ok (objs : list Z) (r : gpool_ret) : Prop :=
  match r with
  | AtOnce timeout p => p ∈ objs \/ p = 0 /\ timeout = TIME_IMMEDIATE
  | AfterWait msg p => if msg =? MSG_OK then p ∈ objs else p = 0
  end.

(** [free] is the free list, [p] the permits of the semaphore: the objects are free
    or out, and the free ones are the permits and those of the threads that have
    been granted one and have not run yet. *)
Record gpool_inv (align : Z) (objs : list Z) (s : gpool_sys) (free : list Z) (p : permits) : Prop := {
  gi_sem : sem_rep (gmp_sem (gs_pool s)) p;
  gi_pool : pool_rep (gmp_pool (gs_pool s)) (gs_mem s) free;
  gi_conf : mp_provider (gmp_pool (gs_pool s)) = false /\ mp_align (gmp_pool (gs_pool s)) = align;
  gi_count : Z.of_nat (length free) = p_free p + granted (gs_ready s);
  gi_objs : gs_held s ++ free ≡ₚ objs;
  gi_log : Forall (ret_ok objs) (gs_log s)
}.

Definition objs_ok (align : Z) (objs : list Z) : Prop :=
  NoDup objs /\ Forall (object_ok align) objs /\ Z.of_nat (length objs) < 2 ^ 31.

Lemma granted_nonneg l : 0 <= granted l.
Proof. unfold granted. lia. Qed.

Lemma granted_delete i l t msg :
  l !! i = Some (t, msg) -> granted l = granted (delete i l) + (if msg =? MSG_OK then 1 else 0).
Proof.
  intros E. unfold granted. rewrite (delete_Permutation l i _ E) at 1. rewrite filter_cons.
  case_decide as Em; cbn [snd] in Em; [rewrite (proj2 (Z.eqb_eq _ _) Em); cbn [length]; lia|].
  rewrite (proj2 (Z.eqb_neq _ _) Em). lia.
Qed.

Lemma granted_none l : filter (fun r => snd r = MSG_OK) l = [] -> granted l = 0.
Proof. intros E. unfold granted. rewrite E. reflexivity. Qed.

(** An object is taken from the pool for which a permit has been taken. *)
Lemma hand_out_inv align objs s free p sem q ready r :
  objs_ok align objs -> gpool_inv align objs s free p ->
  sem_rep sem q -> Z.of_nat (length free) = p_free q + granted ready + 1 ->
  (forall x, x ∈ objs -> ret_ok objs (r x)) ->
  exists gmp m x free', gpool_take (GPool sem (gmp_pool (gs_pool s))) (gs_mem s) = Some (gmp, m, x) /\
    x <> 0 /\ gmp_sem gmp = sem /\
    gpool_inv align objs (hand_out r x (GSys gmp m ready (gs_held s) (gs_log s))) free' q.
Proof.
  intros (Hnd & Hok & Hlen) [Hs Hp [Hc1 Hc2] Hn Ho Hl] Hq Hcount Hr.
  pose proof Hq as (_ & _ & Hf & _). pose proof (granted_nonneg ready).
  destruct free as [|x free]; [cbn in Hcount; lia|].
  destruct (pool_alloc_spec _ _ _ _ Hp) as (Hx & next & E & Hp').
  unfold gpool_take. cbn [gmp_pool]. rewrite E. cbn [mbind option_bind gmp_sem].
  do 4 eexists. split; [reflexivity|]. split; [exact Hx|]. split; [reflexivity|].
  unfold hand_out. rewrite (proj2 (Z.eqb_neq _ _) Hx). split; cbn.
  - exact Hq.
  - exact Hp'.
  - auto.
  - cbn [length] in Hcount. lia.
  - rewrite <- Ho. apply Permutation_middle.
  - apply Forall_app. split; [exact Hl|]. constructor; [|constructor]. apply Hr. rewrite <- Ho. set_solver.
Qed.

Lemma no_hand_out_inv align objs s free p r :
  gpool_inv align objs s free p -> ret_ok objs (r 0) -> gpool_inv align objs (hand_out r 0 s) free p.
Proof.
  intros [Hs Hp Hc Hn Ho Hl] Hr. split; try assumption. cbn.
  apply Forall_app. split; [exact Hl|]. constructor; [exact Hr|constructor].
Qed.

Lemma gpool_alloc_inv align objs s free p t timeout :
  objs_ok align objs -> gpool_inv align objs s free p -> gpool_enabled (GvAlloc t timeout) s = true ->
  exists s' free' p', gpool_step (GvAlloc t timeout) s = Some s' /\ gpool_inv align objs s' free' p'.
Proof.
  intros Hobjs H En. pose proof H as [Hs Hp Hc Hn Ho Hl]. cbn in En. bools.
  apply bool_decide_eq_true in H0. unfold gs_waiting in *. pose proof Hs as (Hq & _). rewrite Hq in *.
  destruct (wait_timeout_spec t timeout _ _ Hs H0 H1) as (sp' & o & E & Hcase).
  cbn [gpool_step]. unfold chGuardedPoolAllocTimeoutS. rewrite E. cbn [mbind option_bind].
  destruct Hcase as [(Hf & -> & Hs')|[(Hf & -> & -> & ->)|(Hf & -> & Hs')]].
  - change (negb (MSG_OK =? MSG_OK)) with false.
    destruct (hand_out_inv align objs s free p sp' (Permits (p_free p - 1) (p_wait p)) (gs_ready s) (AtOnce timeout))
      as (gmp & m & x & free' & -> & _ & _ & Hi); auto; [cbn [p_free]; lia|intros x Hx; left; exact Hx|].
    cbn [mbind option_bind]. eauto.
  - change (negb (MSG_TIMEOUT =? MSG_OK)) with true. eexists _, free, p. split; [reflexivity|].
    apply no_hand_out_inv; [|right; auto]. destruct s as [[sem mp] m r h l]. exact H.
  - eexists _, free, _. split; [reflexivity|]. split; try eassumption. cbn. lia.
Qed.

Lemma gpool_alloc_i_inv align objs s free p :
  objs_ok align objs -> gpool_inv align objs s free p -> gpool_enabled GvAllocI s = true ->
  exists s' free' p', gpool_step GvAllocI s = Some s' /\ gpool_inv align objs s' free' p'.
Proof.
  intros Hobjs H En. pose proof H as [Hs Hp Hc Hn Ho Hl]. cbn in En. apply bool_decide_eq_true in En.
  pose proof (granted_none _ En) as Hg. rewrite Hg in Hn. cbn [gpool_step]. unfold chGuardedPoolAllocI.
  destruct free as [|x0 free0].
  - unfold gpool_take. rewrite pool_alloc_empty by (assumption || apply Hc). cbn [mbind option_bind].
    eexists _, [], p. split; [reflexivity|]. apply no_hand_out_inv; [|right; auto].
    destruct s as [[sem mp] m r h l]. exact H.
  - assert (Hf : 0 < p_free p) by (cbn [length] in Hn; lia).
    destruct (rep_take _ _ Hs Hf) as [Hz Hs'].
    destruct (hand_out_inv align objs s (x0 :: free0) p _ _ (gs_ready s) (AtOnce TIME_IMMEDIATE) Hobjs H Hs')
      as (gmp & m & x & free' & E & Hx & Esem & Hi); [cbn [p_free]; lia|intros y Hy; left; exact Hy|].
    unfold gpool_take in *. cbn [gmp_pool gmp_sem] in *.
    destruct (chPoolAllocI _ _) as [[[mp' m'] x']|]; [|discriminate]. cbn [mbind option_bind] in *.
    injection E as <- <- <-. rewrite (proj2 (Z.eqb_neq _ _) Hx). cbn [negb gmp_sem gmp_pool].
    unfold chSemFastWaitI, cnt_dec. pose proof Hs as (_ & _ & Hfr & Hcn & Hw).
    rewrite check_true by (apply Z.ltb_lt; lia). cbn [mbind option_bind]. unfold chSemGetCounterI. cbn [sem_cnt].
    rewrite check_true by (apply Z.leb_le; lia). cbn [mbind option_bind]. eauto.
Qed.

Lemma gpool_free_inv align objs s free p x :
  objs_ok align objs -> gpool_inv align objs s free p -> gpool_enabled (GvFree x) s = true ->
  exists s' free' p', gpool_step (GvFree x) s = Some s' /\ gpool_inv align objs s' free' p'.
Proof.
  intros (Hnd & Hok & Hlen) [Hs Hp [Hc1 Hc2] Hn Ho Hl] En. cbn in En. apply bool_decide_eq_true in En.
  assert (Hnd' : NoDup (gs_held s ++ free)) by (rewrite Ho; exact Hnd).
  apply NoDup_app in Hnd' as (Hh & Hdis & _).
  assert (Hx : x ∈ objs) by (rewrite <- Ho; set_solver).
  pose proof (Permutation_length Ho) as Hpl. rewrite length_app in Hpl.
  pose proof (granted_nonneg (gs_ready s)).
  assert (Hheld : (0 < length (gs_held s))%nat) by (destruct (gs_held s); [inversion En|cbn; lia]).
  cbn [gpool_step]. unfold chGuardedPoolFreeI.
  destruct (pool_free_spec _ _ _ x Hp) as (m' & -> & Hp'); [rewrite Hc2; rewrite Forall_forall in Hok; auto|auto|].
  cbn [mbind option_bind].
  destruct (signal_spec _ _ Hs) as (sp' & ev & -> & Hs' & Hw); [lia|].
  cbn [mbind option_bind]. eexists _, (x :: free), _. split; [reflexivity|]. split; cbn.
  - exact Hs'.
  - exact Hp'.
  - auto.
  - rewrite granted_app, Hw. unfold spec_release. cbn [snd fst p_free]. rewrite granted_ok, length_take. lia.
  - rewrite <- Permutation_middle, <- Ho. change (x :: remove_one x (gs_held s) ++ free) with ((x :: remove_one x (gs_held s)) ++ free).
    apply Permutation_app_tail. symmetry. apply remove_one_perm; assumption.
  - exact Hl.
Qed.

Lemma gpool_run_inv align objs s free p i :
  objs_ok align objs -> gpool_inv align objs s free p ->
  exists s' free' p', gpool_step (GvRun i) s = Some s' /\ gpool_inv align objs s' free' p'.
Proof.
  intros Hobjs H. pose proof H as [Hs Hp Hc Hn Ho Hl]. cbn [gpool_step].
  destruct (gs_ready s !! i) as [[t msg]|] eqn:E; [|eauto 6].
  pose proof (granted_delete _ _ _ _ E) as Hg. unfold gpool_resume.
  destruct (Z.eqb_spec msg MSG_OK) as [Em|Em]; cbn [negb].
  - destruct (hand_out_inv align objs s free p (gmp_sem (gs_pool s)) p (delete i (gs_ready s)) (AfterWait msg))
      as (gmp & m & x & free' & E2 & _ & _ & Hi); auto; [lia|intros x Hx; cbn; rewrite (proj2 (Z.eqb_eq _ _) Em); exact Hx|].
    destruct (gs_pool s) as [sem mp]. cbn [gmp_pool gmp_sem] in *. rewrite E2. cbn [mbind option_bind]. eauto.
  - eexists _, free, p. split; [reflexivity|].
    apply no_hand_out_inv; [|cbn; rewrite (proj2 (Z.eqb_neq _ _) Em); reflexivity].
    split; try assumption. cbn. lia.
Qed.

Lemma gpool_timeout_inv align objs s free p t :
  objs_ok align objs -> gpool_inv align objs s free p -> gpool_enabled (GvTimeout t) s = true ->
  exists s' free' p', gpool_step (GvTimeout t) s = Some s' /\ gpool_inv align objs s' free' p'.
Proof.
  intros (Hnd & Hok & Hlen) [Hs Hp Hc Hn Ho Hl] En. cbn in En. apply bool_decide_eq_true in En.
  unfold gs_waiting in En. pose proof Hs as (Hq & _ & _ & _ & Hw). rewrite Hq in En.
  destruct Hw as [Hw|Hw]; [rewrite Hw in En; inversion En|].
  destruct (wakeup_spec t _ _ Hs) as (sp' & ev & E & Ew & Hs'); [lia|exact En|].
  cbn [gpool_step]. rewrite E. cbn [mbind option_bind]. eexists _, free, _. split; [reflexivity|].
  split; try eassumption. cbn. rewrite granted_app, Ew. change (granted [(t, MSG_TIMEOUT)]) with 0. lia.
Qed.

Lemma gpool_step_inv align objs s free p e :
  objs_ok align objs -> gpool_inv align objs s free p -> gpool_enabled e s = true ->
  exists s' free' p', gpool_step e s = Some s' /\ gpool_inv align objs s' free' p'.
Proof.
  intros Hobjs H En. destruct e.
  - eapply gpool_alloc_inv; eauto.
  - eapply gpool_alloc_i_inv; eauto.
  - eapply gpool_free_inv; eauto.
  - eapply gpool_run_inv; eauto.
  - eapply gpool_timeout_inv; eauto.
Qed.

(** ** Loading *)

(** The addresses of an array's elements. *)
Fixpoint array_objs (n : nat) (p size : Z) : list Z :=
  match n with O => [] | S n => p :: array_objs n (p + size) size end.

Lemma array_objs_ge n : forall p size x, 0 < size -> x ∈ array_objs n p size -> p <= x.
Proof.
  induction n as [|n IH]; intros p size x Hs Hx; [inversion Hx|]. cbn in Hx.
  apply elem_of_cons in Hx as [->|Hx]; [lia|]. apply IH in Hx; lia.
Qed.

Lemma array_objs_length n : forall p size, length (array_objs n p size) = n.
Proof. induction n as [|n IH]; intros p size; cbn; [reflexivity|]. rewrite IH. reflexivity. Qed.

Lemma array_objs_ok n : forall p size k,
  0 <= k < 32 -> 0 < size -> size mod 2 ^ k = 0 -> p mod 2 ^ k = 0 -> 0 < p -> p + Z.of_nat n * size <= 2 ^ 32 ->
  NoDup (array_objs n p size) /\ Forall (object_ok (2 ^ k)) (array_objs n p size).
Proof.
  induction n as [|n IH]; intros p size k Hk Hs Hsm Hpm Hp Hle; [split; constructor|]. cbn [array_objs].
  destruct (IH (p + size) size k) as [H1 H2]; try lia.
  { rewrite Zplus_mod, Hsm, Hpm. apply Z.mod_0_l. pose proof (Z.pow_pos_nonneg 2 k). lia. }
  split; constructor; try assumption.
  - intros Hin. apply array_objs_ge in Hin; lia.
  - split; [lia|]. rewrite is_aligned_value by nia. apply Z.eqb_eq. exact Hpm.
Qed.

Lemma gpool_load_spec n : forall p gmp m free f align,
  sem_rep (gmp_sem gmp) (Permits f []) -> pool_rep (gmp_pool gmp) m free -> mp_align (gmp_pool gmp) = align ->
  f = Z.of_nat (length free) -> f + Z.of_nat n < 2 ^ 31 ->
  0 < p -> 0 < mp_object_size (gmp_pool gmp) -> p + Z.of_nat n * mp_object_size (gmp_pool gmp) <= 2 ^ 32 ->
  Forall (object_ok align) (array_objs n p (mp_object_size (gmp_pool gmp))) ->
  (forall x, x ∈ free -> x < p) ->
  exists gmp' m' ev free', gpool_load n p gmp m = Some (gmp', m', ev) /\ wakes ev = [] /\
    sem_rep (gmp_sem gmp') (Permits (f + Z.of_nat n) []) /\ pool_rep (gmp_pool gmp') m' free' /\
    free' ≡ₚ free ++ array_objs n p (mp_object_size (gmp_pool gmp)) /\
    mp_align (gmp_pool gmp') = align /\ mp_provider (gmp_pool gmp') = mp_provider (gmp_pool gmp).
Proof.
  induction n as [|n IH]; intros p gmp m free f align Hs Hp Ha Hf Hn Hp0 Hsz Hle Hok Hlt; cbn [gpool_load].
  { exists gmp, m, [], free. rewrite Z.add_0_r, app_nil_r. auto 10. }
  cbn [array_objs] in *. apply Forall_cons in Hok as [Hok1 Hok2].
  unfold chGuardedPoolAdd, chGuardedPoolFree, chGuardedPoolFreeI.
  destruct (pool_free_spec _ _ _ p Hp) as (m1 & -> & Hp1); [rewrite Ha; exact Hok1|intros Hin; apply Hlt in Hin; lia|].
  cbn [mbind option_bind].
  destruct (signal_spec _ _ Hs) as (sp1 & ev1 & -> & Hs1 & Hw1); [cbn [p_free]; lia|]. cbn [mbind option_bind gmp_pool].
  unfold spec_release in Hs1, Hw1. cbn [fst snd p_free p_wait length] in Hs1, Hw1.
  rewrite drop_nil in Hs1. rewrite take_nil in Hw1. change (f + Z.max 0 (1 - Z.of_nat 0)) with (f + 1) in Hs1.
  destruct n as [|n].
  { cbn [gpool_load mbind option_bind]. do 3 eexists. exists (p :: free). split; [reflexivity|].
    rewrite app_nil_r. split_and!; auto. apply Permutation_cons_append. }
  rewrite (u32_small (p + _)) by (cbn [mp_with_next mp_object_size]; nia). cbn [mp_with_next mp_object_size].
  edestruct (IH (p + mp_object_size (gmp_pool gmp)) (GPool sp1 (mp_with_next p (gmp_pool gmp))) m1 (p :: free) (f + 1) align)
    as (gmp2 & m2 & ev2 & free2 & E & Hw2 & Hs2 & Hp2 & Hperm & Ha2 & Hpr2); cbn; auto; try lia.
  { intros x Hx. apply elem_of_cons in Hx as [->|Hx]; [lia|]. apply Hlt in Hx. lia. }
  cbn [gpool_load gmp_pool mp_with_next mp_object_size] in *. rewrite E. cbn [mbind option_bind].
  do 3 eexists. exists free2. split; [reflexivity|]. rewrite wakes_app, Hw1, Hw2. split_and!; auto.
  - replace (f + Z.of_nat (S (S n))) with (f + 1 + Z.of_nat (S n)) by lia. exact Hs2.
  - rewrite Hperm. cbn [app]. apply Permutation_middle.
Qed.

(** A pool that can be laid out: the objects are aligned and in the address space. *)
Definition layout_ok (size k p n : Z) : Prop :=
  2 <= k < 32 /\ 4 <= size /\ size mod 2 ^ k = 0 /\ p mod 2 ^ k = 0 /\ 0 < p /\ 0 < n < 2 ^ 31 /\
  p + n * size <= 2 ^ 32.

Lemma gpool_init_inv size k p n m :
  layout_ok size k p n ->
  objs_ok (2 ^ k) (array_objs (Z.to_nat n) p size) /\
  exists s free, gpool_init size (2 ^ k) p n m = Some s /\
    gpool_inv (2 ^ k) (array_objs (Z.to_nat n) p size) s free (Permits n []).
Proof.
  intros (Hk & Hsz & Hsm & Hpm & Hp & Hn & Hle).
  destruct (array_objs_ok (Z.to_nat n) p size k) as [Hnd Hok]; try lia.
  split; [split_and!; auto; rewrite array_objs_length; lia|].
  unfold gpool_init, chGuardedPoolObjectInitAligned, chPoolObjectInitAligned, PORT_NATURAL_ALIGN.
  assert (H4 : 4 <= 2 ^ k) by (change 4 with (2 ^ 2); apply Z.pow_le_mono_r; lia).
  rewrite check_true by (rewrite !(proj2 (Z.leb_le _ _)), valid_alignment_pow by lia; reflexivity).
  cbn [mbind option_bind]. destruct (sem_init_rep 0) as (sem & -> & Hsem); [lia|]. cbn [mbind option_bind].
  unfold chGuardedPoolLoadArray. rewrite check_true by (rewrite (proj2 (Z.eqb_neq _ _)) by lia; reflexivity).
  cbn [mbind option_bind].
  destruct (gpool_load_spec (Z.to_nat n) p (GPool sem (Pool 0 size (2 ^ k) false)) m [] 0 (2 ^ k))
    as (gmp & m' & ev & free & -> & Hw & Hs & Hr & Hperm & Ha & Hpr); auto; try (cbn; lia).
  { split; [reflexivity|constructor]. }
  { intros x Hx. inversion Hx. }
  cbn [mbind option_bind]. do 2 eexists. split; [reflexivity|]. split; cbn.
  - replace n with (0 + Z.of_nat (Z.to_nat n)) by lia. exact Hs.
  - exact Hr.
  - auto.
  - rewrite Hw, (Permutation_length Hperm), app_nil_l, array_objs_length. change (granted []) with 0. lia.
  - exact Hperm.
  - constructor.
Qed.

Lemma gpool_run_all align objs es : forall s free p s',
  objs_ok align objs -> gpool_inv align objs s free p -> gpool_run es s = Some s' ->
  exists free' p', gpool_inv align objs s' free' p'.
Proof.
  induction es as [|e es IH]; cbn; intros s free p s' Hobjs H E; [injection E as <-; eauto|].
  destruct (gpool_enabled e s) eqn:En; [|discriminate].
  destruct (gpool_step_inv align objs s free p e Hobjs H En) as (s1 & free1 & p1 & E1 & H1).
  rewrite E1 in E. cbn in E. eapply IH; eauto.
Qed.

(** C30: however allocations, releases, ends of waits and timeouts follow each other on a
    guarded pool, as long as [chGuardedPoolAllocI] is not called while a woken thread
    has yet to take the object it was granted ([gpool_enabled]; its assertion fails
    there, see [guarded_alloc_i_out_of_sync]), every step is defined and trips no
    assertion; every
    object is free or held by one caller; a call returns an object unless it was
    not to wait or its wait was not granted; and threads wait only while the free
    objects are all meant for threads that have been woken. *)
Theorem guarded_pool_serves (size k p n : Z) (m : pool_mem) (es : list gpool_event) :
  layout_ok size k p n ->
  exists s0, gpool_init size (2 ^ k) p n m = Some s0 /\
    forall s, gpool_run es s0 = Some s ->
      (forall e, gpool_enabled e s = true -> is_Some (gpool_step e s)) /\
      exists free, chain (pm_words (gs_mem s)) (mp_next (gmp_pool (gs_pool s))) free /\
        gs_held s ++ free ≡ₚ array_objs (Z.to_nat n) p size /\ NoDup (gs_held s ++ free) /\
        Forall (ret_ok (array_objs (Z.to_nat n) p size)) (gs_log s) /\
        (gs_waiting s <> [] -> Z.of_nat (length free) = granted (gs_ready s)).
Proof.
  intros Hl. destruct (gpool_init_inv size k p n m Hl) as (Hobjs & s0 & free0 & E0 & H0).
  exists s0. split; [exact E0|]. intros s E.
  destruct (gpool_run_all _ _ _ _ _ _ _ Hobjs H0 E) as (free & q & H). split.
  - intros e En. destruct (gpool_step_inv _ _ _ _ _ _ Hobjs H En) as (s' & f' & p' & -> & _). eauto.
  - destruct H as [Hs Hp Hc Hn Ho Hlog]. exists free. split_and!; auto; [apply Hp|rewrite Ho; apply Hobjs|].
    intros Hw. pose proof Hs as (Hq & _ & _ & _ & [Hx|Hx]); [|lia]. unfold gs_waiting in Hw. congruence.
Qed.

(** *** Runs *)

Definition pool_mem0 : pool_mem := PoolMem ∅ (Memcore 8192 8192).

Definition gpool_demo : list gpool_event :=
  [GvAlloc 1 TIME_IMMEDIATE; GvAlloc 2 TIME_INFINITE; GvAlloc 3 TIME_INFINITE; GvAlloc 4 10;
   GvFree 4104; GvTimeout 4; GvRun 0; GvRun 0; GvAllocI; GvFree 4096; GvAllocI].

Definition gpool_demo_start : gpool_sys :=
  default (GSys (GPool (Sem [] 0) (Pool 0 0 0 false)) pool_mem0 [] [] []) (gpool_init 8 (2 ^ 2) 4096 2 pool_mem0).
Definition gpool_demo_end : gpool_sys := default gpool_demo_start (gpool_run gpool_demo gpool_demo_start).

Lemma gpool_demo_layout : layout_ok 8 2 4096 2.
Proof. unfold layout_ok. split_and!; first [lia|reflexivity|discriminate]. Qed.

Lemma gpool_demo_returns :
  gs_log gpool_demo_end =
  [AtOnce TIME_IMMEDIATE 4104; AtOnce TIME_INFINITE 4096; AfterWait MSG_OK 4104; AfterWait MSG_TIMEOUT 0;
   AtOnce TIME_IMMEDIATE 0; AtOnce TIME_IMMEDIATE 4096].
Proof. vm_compute. reflexivity. Qed.

Lemma guarded_pool_serves_witness :
  exists s0, gpool_init 8 (2 ^ 2) 4096 2 pool_mem0 = Some s0 /\
    forall s, gpool_run gpool_demo s0 = Some s ->
      (forall e, gpool_enabled e s = true -> is_Some (gpool_step e s)) /\
      exists free, chain (pm_words (gs_mem s)) (mp_next (gmp_pool (gs_pool s))) free /\
        gs_held s ++ free ≡ₚ array_objs 2 4096 8 /\ NoDup (gs_held s ++ free) /\
        Forall (ret_ok (array_objs 2 4096 8)) (gs_log s) /\
        (gs_waiting s <> [] -> Z.of_nat (length free) = granted (gs_ready s)).
Proof. apply (guarded_pool_serves 8 2 4096 2 pool_mem0 gpool_demo gpool_demo_layout). Defined.

(** An allocation at once takes an object that has been handed to a thread already:
    the permit is gone, so that the assertion "semaphore out of sync" fails. *)
Theorem guarded_alloc_i_out_of_sync :
  exists es s, gpool_run es gpool_demo_start = Some s /\
    gs_ready s = [(3%nat, MSG_OK)] /\ gpool_step GvAllocI s = None.
Proof.
  exists [GvAlloc 1 TIME_INFINITE; GvAlloc 2 TIME_INFINITE; GvAlloc 3 TIME_INFINITE; GvFree 4104].
  eexists. split; [vm_compute; reflexivity|]. split; reflexivity.
Qed.
