(* ===== verification/ObjFifos.v ===== *)
(** * Objects FIFOs (chobjfifos.h)

    A guarded pool of objects and a mailbox as long as the pool is large: a thread
    takes a free object, fills it and sends it; another receives it and returns
    it.  [fifo_sys] composes the models of the two, with the threads that wait on
    either; the theorem is what the composition gives: no object is lost or in two
    places, the mailbox never refuses one, and objects are received in the order in
    which they were sent. *)

From stdpp Require Import gmap.
From S2P Require Import Prelude CInt CLib Threads Rings Mailboxes Memcore Semaphores Mempools.
#[local] Open Scope Z_scope.

(** ** Operations *)

Record objects_fifo_t := Fifo { of_free : guarded_memory_pool_t; of_mbx : mailbox_t }.

(** The pool's objects are an array at [objbuf], the mailbox's messages [msgbuf]. *)
Definition chFifoObjectInitAligned (objsize objn objalign objbuf : Z) (msgbuf : list Z) (m : pool_mem)
  : option (objects_fifo_t * pool_mem) :=
  _ ← check ((objalign <=? objsize) && (objsize mod objalign =? 0));
  gmp ← chGuardedPoolObjectInitAligned objsize objalign;
  '(gmp, m, _) ← chGuardedPoolLoadArray objbuf objn gmp m;
  mbx ← chMBObjectInit (take (Z.to_nat objn) msgbuf);
  Some (Fifo gmp mbx, m).

Definition chFifoObjectInit (objsize objn objbuf : Z) (msgbuf : list Z) (m : pool_mem)
  : option (objects_fifo_t * pool_mem) :=
  chFifoObjectInitAligned objsize objn PORT_NATURAL_ALIGN objbuf msgbuf m.

Definition chFifoTakeObjectI (ofp : objects_fifo_t) (m : pool_mem) : option (objects_fifo_t * pool_mem * Z) :=
  '(gmp, m, p) ← chGuardedPoolAllocI (of_free ofp) m; Some (Fifo gmp (of_mbx ofp), m, p).

Definition chFifoTakeObjectTimeoutS (t : nat) (timeout : Z) (ofp : objects_fifo_t) (m : pool_mem)
  : option (objects_fifo_t * pool_mem * outcome Z unit) :=
  '(gmp, m, o) ← chGuardedPoolAllocTimeoutS t timeout (of_free ofp) m; Some (Fifo gmp (of_mbx ofp), m, o).
Definition chFifoTakeObjectTimeout := chFifoTakeObjectTimeoutS.

Definition chFifoReturnObjectI (objp : Z) (ofp : objects_fifo_t) (m : pool_mem)
  : option (objects_fifo_t * pool_mem * list event) :=
  '(gmp, m, ev) ← chGuardedPoolFreeI objp (of_free ofp) m; Some (Fifo gmp (of_mbx ofp), m, ev).
Definition chFifoReturnObjectS := chFifoReturnObjectI.
Definition chFifoReturnObject := chFifoReturnObjectI.

(** The assertion "post failed" of the four ways to send. *)
Definition chFifoSendObjectI (objp : Z) (ofp : objects_fifo_t) : option (objects_fifo_t * list event) :=
  '(mbx, msg, ev) ← chMBPostI objp (of_mbx ofp);
  _ ← check (msg =? MSG_OK);
  Some (Fifo (of_free ofp) mbx, ev).

Definition chFifoSendObjectAheadI (objp : Z) (ofp : objects_fifo_t) : option (objects_fifo_t * list event) :=
  '(mbx, msg, ev) ← chMBPostAheadI objp (of_mbx ofp);
  _ ← check (msg =? MSG_OK);
  Some (Fifo (of_free ofp) mbx, ev).

Definition posted (o : outcome Z unit) : bool := match o with Return msg => msg =? MSG_OK | _ => false end.

Definition chFifoSendObjectS (t : nat) (objp : Z) (ofp : objects_fifo_t) : option (objects_fifo_t * list event) :=
  '(mbx, o, ev) ← chMBPostTimeoutS t objp TIME_IMMEDIATE (of_mbx ofp);
  _ ← check (posted o);
  Some (Fifo (of_free ofp) mbx, ev).
Definition chFifoSendObject := chFifoSendObjectS.

Definition chFifoSendObjectAheadS (t : nat) (objp : Z) (ofp : objects_fifo_t) : option (objects_fifo_t * list event) :=
  '(mbx, o, ev) ← chMBPostAheadTimeoutS t objp TIME_IMMEDIATE (of_mbx ofp);
  _ ← check (posted o);
  Some (Fifo (of_free ofp) mbx, ev).
Definition chFifoSendObjectAhead := chFifoSendObjectAheadS.

Definition chFifoReceiveObjectI (ofp : objects_fifo_t)
  : option (objects_fifo_t * (Z * option Z) * list event) :=
  '(mbx, r, ev) ← chMBFetchI (of_mbx ofp); Some (Fifo (of_free ofp) mbx, r, ev).

Definition chFifoReceiveObjectTimeoutS (t : nat) (timeout : Z) (ofp : objects_fifo_t)
  : option (objects_fifo_t * outcome (Z * option Z) unit * list event) :=
  '(mbx, o, ev) ← chMBFetchTimeoutS t timeout (of_mbx ofp); Some (Fifo (of_free ofp) mbx, o, ev).
Definition chFifoReceiveObjectTimeout := chFifoReceiveObjectTimeoutS.

(** ** A FIFO at work

    [fs_free] is the pool half, with the objects that are out of the pool; [fs_mbx]
    the mailbox half, with the threads in a receiving call. *)

Inductive fifo_entry :=
| Sent (p : Z)
| SentAhead (p : Z)
| Received (p : Z).

Record fifo_sys := FSys {
  fs_free : gpool_sys;
  fs_mbx : system mailbox_t mb_call;
  fs_log : list fifo_entry
}.

Definition fs_fifo (s : fifo_sys) : objects_fifo_t := Fifo (gs_pool (fs_free s)) (sy_obj (fs_mbx s)).

(** The mailbox half after an operation: the threads woken, the log. *)
Definition fs_next (ofp : objects_fifo_t) (m : gmap nat (tstate mb_call)) (xs : list fifo_entry) (s : fifo_sys) : fifo_sys :=
  FSys (fs_free s) (Sys (of_mbx ofp) m) (fs_log s ++ xs).

Definition received (r : Z * option Z) : list fifo_entry :=
  match r with (_, Some p) => [Received p] | _ => [] end.
Definition received_by (o : outcome (Z * option Z) unit) : list fifo_entry :=
  match o with Return r => received r | _ => [] end.

(** The receiving call of thread [t], or its next turn after a wake-up. *)
Definition fifo_receive (t : nat) (timeout : Z) (s : fifo_sys) : option fifo_sys :=
  '(ofp, o, ev) ← chFifoReceiveObjectTimeoutS t timeout (fs_fifo s);
  Some (fs_next ofp (settle t (outcome_map id (fun _ => MbFetchTimeout timeout) o)
                       (wake_all (wakes ev) (sy_threads (fs_mbx s)))) (received_by o) s).

Inductive fifo_event :=
| FvPool (e : gpool_event)
| FvSendI (ahead : bool) (p : Z)
| FvSend (t : nat) (ahead : bool) (p : Z)
| FvReceiveI
| FvReceive (t : nat) (timeout : Z)
| FvRun (t : nat)
| FvTimeout (t : nat).

Definition fifo_idle (t : nat) (s : fifo_sys) : bool :=
  match sy_threads (fs_mbx s) !! t with None => true | _ => false end.

(** A user sends or returns an object that it has: one that is out of the pool and
    not in the mailbox. *)
Definition in_use (p : Z) (s : fifo_sys) : bool :=
  bool_decide (p ∈ gs_held (fs_free s)) && bool_decide (p ∉ mb_content (sy_obj (fs_mbx s))).

Definition fifo_enabled (e : fifo_event) (s : fifo_sys) : bool :=
  match e with
  | FvPool (GvFree p) => in_use p s
  | FvPool e => gpool_enabled e (fs_free s)
  | FvSendI _ p => in_use p s
  | FvSend t _ p => fifo_idle t s && in_use p s
  | FvReceiveI => true
  | FvReceive t _ => fifo_idle t s
  | FvRun t => match sy_threads (fs_mbx s) !! t with Some (Ready (MbFetchTimeout _) _) => true | _ => false end
  | FvTimeout t => match sy_threads (fs_mbx s) !! t with Some (Suspended (MbFetchTimeout _)) => true | _ => false end
  end.

Definition fifo_step (e : fifo_event) (s : fifo_sys) : option fifo_sys :=
  let th := sy_threads (fs_mbx s) in
  match e with
  | FvPool e => g ← gpool_step e (fs_free s); Some (FSys g (fs_mbx s) (fs_log s))
  | FvSendI ahead p =>
      '(ofp, ev) ← (if ahead then chFifoSendObjectAheadI p (fs_fifo s) else chFifoSendObjectI p (fs_fifo s));
      Some (fs_next ofp (wake_all (wakes ev) th) [if ahead then SentAhead p else Sent p] s)
  | FvSend t ahead p =>
      '(ofp, ev) ← (if ahead then chFifoSendObjectAheadS t p (fs_fifo s) else chFifoSendObjectS t p (fs_fifo s));
      Some (fs_next ofp (delete t (wake_all (wakes ev) th)) [if ahead then SentAhead p else Sent p] s)
  | FvReceiveI =>
      '(ofp, r, ev) ← chFifoReceiveObjectI (fs_fifo s);
      Some (fs_next ofp (wake_all (wakes ev) th) (received r) s)
  | FvReceive t timeout => fifo_receive t timeout s
  | FvRun t =>
      match th !! t with
      | Some (Ready (MbFetchTimeout timeout) msg) =>
          if msg =? MSG_OK then fifo_receive t timeout s
          else Some (fs_next (fs_fifo s) (delete t th) [] s)
      | _ => Some s
      end
  | FvTimeout t =>
      Some (fs_next (Fifo (gs_pool (fs_free s)) (with_qr (fst (sch_wakeup t (mb_qr (sy_obj (fs_mbx s))))) (sy_obj (fs_mbx s))))
              (wake_all [(t, MSG_TIMEOUT)] th) [] s)
  end.

Definition fifo_init (objsize objalign objbuf objn : Z) (msgbuf : list Z) (m : pool_mem) : option fifo_sys :=
  '(ofp, m) ← chFifoObjectInitAligned objsize objn objalign objbuf msgbuf m;
  Some (FSys (GSys (of_free ofp) m [] [] []) (Sys (of_mbx ofp) ∅) []).

Fixpoint fifo_run (es : list fifo_event) (s : fifo_sys) : option fifo_sys :=
  match es with
  | [] => Some s
  | e :: es => if fifo_enabled e s then s ← fifo_step e s; fifo_run es s else None
  end.

(** The sequence of sent objects that a log leaves, if it is one from whose head
    objects are received. *)
Fixpoint fifo_log (l : list Z) (xs : list fifo_entry) : option (list Z) :=
  match xs with
  | [] => Some l
  | Sent p :: xs => fifo_log (l ++ [p]) xs
  | SentAhead p :: xs => fifo_log (p :: l) xs
  | Received p :: xs => match l with q :: l => if p =? q then fifo_log l xs else None | [] => None end
  end.

(** ** The pool half *)

(** An object stays out until it is returned. *)
Lemma gpool_keeps e s s' x :
  gpool_step e s = Some s' -> e <> GvFree x -> x ∈ gs_held s -> x ∈ gs_held s'.
Proof.
  intros E Hne Hx.
  assert (Ho : forall r p g, x ∈ gs_held g -> x ∈ gs_held (hand_out r p g))
    by (intros r p g Hg; unfold hand_out; cbn; case_bool; [exact Hg|constructor; exact Hg]).
  destruct e; cbn [gpool_step] in E.
  - apply bind_Some_inv in E as ([[gmp m] o] & _ & E). destruct o; injection E as <-; auto.
  - apply bind_Some_inv in E as ([[gmp m] p] & _ & E). injection E as <-. auto.
  - apply bind_Some_inv in E as ([[gmp m] ev] & _ & E). injection E as <-. cbn.
    unfold remove_one. apply list_elem_of_filter. split; [congruence|exact Hx].
  - destruct (gs_ready s !! i) as [[t msg]|]; [|injection E as <-; exact Hx].
    apply bind_Some_inv in E as ([[gmp m] p] & _ & E). injection E as <-. auto.
  - apply bind_Some_inv in E as ([sem ev] & _ & E). injection E as <-. exact Hx.
Qed.

(** ** The mailbox half *)

Lemma wake_all_idle t ws : forall m : gmap nat (tstate mb_call), m !! t = None -> wake_all ws m !! t = None.
Proof.
  induction ws as [|w ws IH]; intros m E; [exact E|]. apply IH. unfold wake_one.
  destruct (m !! fst w) as [[c|c msg|c]|] eqn:Ew; try exact E.
  rewrite lookup_insert_ne; [exact E|]. intros Et. rewrite Et in Ew. congruence.
Qed.

(** An operation that does not wait, on the mailbox of a FIFO. *)
Lemma fifo_mb_exec i (sy : system mailbox_t mb_call) :
  sys_inv sy ->
  exists mb r ev, mb_exec i (sy_obj sy) = Some (mb, r, ev) /\
    sys_inv (Sys mb (wake_all (wakes ev) (sy_threads sy))) /\
    chMBGetSizeI mb = chMBGetSizeI (sy_obj sy) /\
    deque_exec (chMBGetSizeI (sy_obj sy)) i (mb_content (sy_obj sy), mb_reset (sy_obj sy)) =
      ((mb_content mb, mb_reset mb), r).
Proof.
  intros H. destruct (mb_exec_spec i (sy_obj sy)) as (mb & ev & r & E & _ & Hs & Hd & _); [apply H|].
  exists mb, r, ev. split_and!; auto.
  destruct (sys_step_inv sy (EvIsr i) H) as (sy' & E' & H'); [reflexivity|exact I|].
  cbn in E'. rewrite E in E'. cbn in E'. injection E' as <-. exact H'.
Qed.

Lemma post_room t msg timeout mb :
  mb_reset mb = false -> 0 < chMBGetFreeCountI mb ->
  chMBPostTimeoutS t msg timeout mb = ('(mb, r, ev) ← chMBPostI msg mb; Some (mb, Return r, ev)) /\
  chMBPostAheadTimeoutS t msg timeout mb = ('(mb, r, ev) ← chMBPostAheadI msg mb; Some (mb, Return r, ev)).
Proof.
  intros Hr Hf. unfold chMBPostTimeoutS, chMBPostI, chMBPostAheadTimeoutS, chMBPostAheadI.
  rewrite Hr, (proj2 (Z.ltb_lt _ _) Hf).
  split; [destruct (mb_append msg mb) as [[]|]|destruct (mb_prepend msg mb) as [[]|]]; reflexivity.
Qed.

Lemma fetch_spec t timeout mb :
  mb_ok mb -> mb_reset mb = false ->
  exists mb' o ev, chMBFetchTimeoutS t timeout mb = Some (mb', o, ev) /\
    mb_reset mb' = false /\ chMBGetSizeI mb' = chMBGetSizeI mb /\
    ((exists p, received_by o = [Received p] /\ mb_content mb = p :: mb_content mb') \/
     received_by o = [] /\ mb_content mb' = mb_content mb).
Proof.
  intros Hok Hr. unfold chMBFetchTimeoutS. rewrite Hr. unfold chMBGetUsedCountI. case_bool.
  - destruct (mb_remove_spec mb Hok Hr E) as (mb' & msg & ev & -> & Hc & _ & Hr' & Hs & _).
    cbn [mbind option_bind]. do 3 eexists. split; [reflexivity|]. eauto 8.
  - destruct (chThdEnqueueTimeoutS _ _ _); do 3 eexists; (split; [reflexivity|]); auto.
Qed.

(** ** Invariant *)

Record fifo_inv (align : Z) (objs : list Z) (s : fifo_sys) (free : list Z) (p : permits) : Prop := {
  fi_pool : gpool_inv align objs (fs_free s) free p;
  fi_mbx : sys_inv (fs_mbx s);
  fi_reset : mb_reset (sy_obj (fs_mbx s)) = false;
  fi_size : chMBGetSizeI (sy_obj (fs_mbx s)) = Z.of_nat (length objs);
  fi_log : fifo_log [] (fs_log s) = Some (mb_content (sy_obj (fs_mbx s)));
  fi_nodup : NoDup (mb_content (sy_obj (fs_mbx s)));
  fi_out : mb_content (sy_obj (fs_mbx s)) ⊆ gs_held (fs_free s)
}.

Lemma fifo_log_app xs : forall l ys, fifo_log l (xs ++ ys) = (l ← fifo_log l xs; fifo_log l ys).
Proof.
  induction xs as [|[p|p|p] xs IH]; intros l ys; cbn; try apply IH; [reflexivity|].
  destruct l as [|q l]; [reflexivity|]. case_bool; [apply IH|reflexivity].
Qed.

(** The mailbox has room for an object in use. *)
Lemma fifo_room align objs s free p x :
  objs_ok align objs -> fifo_inv align objs s free p -> in_use x s = true ->
  mb_cnt (sy_obj (fs_mbx s)) < chMBGetSizeI (sy_obj (fs_mbx s)) /\
  x ∈ gs_held (fs_free s) /\ x ∉ mb_content (sy_obj (fs_mbx s)).
Proof.
  intros (Hnd & _ & _) [Hp Hm Hr Hs Hl Hc Ho] Hx. unfold in_use in Hx. bools.
  apply bool_decide_eq_true in H, H0. split; [|auto].
  rewrite Hs, <- (mb_length _ (proj1 Hm)).
  pose proof (gi_objs _ _ _ _ _ Hp) as Hperm. pose proof (Permutation_length Hperm) as Hpl. rewrite length_app in Hpl.
  assert (Hsub : x :: mb_content (sy_obj (fs_mbx s)) ⊆+ gs_held (fs_free s)).
  { apply NoDup_submseteq; [constructor; assumption|]. intros y Hy. apply elem_of_cons in Hy as [->|Hy]; auto. }
  apply submseteq_length in Hsub. cbn in Hsub. lia.
Qed.

(** The mailbox half moves on, the pool half stays. *)
Lemma fifo_next_inv align objs s free p ofp m xs :
  fifo_inv align objs s free p ->
  sys_inv (Sys (of_mbx ofp) m) -> mb_reset (of_mbx ofp) = false ->
  chMBGetSizeI (of_mbx ofp) = chMBGetSizeI (sy_obj (fs_mbx s)) ->
  fifo_log (mb_content (sy_obj (fs_mbx s))) xs = Some (mb_content (of_mbx ofp)) ->
  NoDup (mb_content (of_mbx ofp)) -> mb_content (of_mbx ofp) ⊆ gs_held (fs_free s) ->
  fifo_inv align objs (fs_next ofp m xs s) free p.
Proof.
  intros [Hp Hm Hr Hs Hl Hc Ho] H1 H2 H3 H4 H5 H6. split; try assumption; cbn.
  - rewrite H3. exact Hs.
  - rewrite fifo_log_app, Hl. exact H4.
Qed.

(** Posting an object in use succeeds, at either end. *)
Lemma fifo_post align objs s free p x (ahead : bool) :
  objs_ok align objs -> fifo_inv align objs s free p -> in_use x s = true ->
  exists mb ev, (if ahead then chMBPostAheadI x (sy_obj (fs_mbx s)) else chMBPostI x (sy_obj (fs_mbx s)))
      = Some (mb, MSG_OK, ev) /\
    forall m, m = wake_all (wakes ev) (sy_threads (fs_mbx s)) ->
      fifo_inv align objs (fs_next (Fifo (gs_pool (fs_free s)) mb) m [if ahead then SentAhead x else Sent x] s) free p.
Proof.
  intros Hobjs H Hx. destruct (fifo_room _ _ _ _ _ _ Hobjs H Hx) as (Hroom & Hin & Hnin).
  pose proof H as [Hp Hm Hr Hs Hl Hc Ho]. pose proof (mb_length _ (proj1 Hm)) as Hlen.
  destruct (fifo_mb_exec (if ahead then MbPostAhead x else MbPost x) _ Hm) as (mb & r & ev & E & Hi & Hsz & Hd).
  exists mb, ev. destruct ahead; cbn in E, Hd; rewrite Hr, Hlen, (proj2 (Z.ltb_lt _ _) Hroom) in Hd;
    injection Hd as Hct Hrs Hres; subst r.
  - destruct (chMBPostAheadI _ _) as [[[mb' r'] ev']|]; [|discriminate]. cbn in E.
    assert (mb' = mb /\ r' = MSG_OK /\ ev' = ev) as (-> & -> & ->) by (injection E; auto).
    split; [reflexivity|]. intros m ->. apply fifo_next_inv; auto; cbn; rewrite <- Hct; auto.
    + constructor; assumption.
    + set_solver.
  - destruct (chMBPostI _ _) as [[[mb' r'] ev']|]; [|discriminate]. cbn in E.
    assert (mb' = mb /\ r' = MSG_OK /\ ev' = ev) as (-> & -> & ->) by (injection E; auto).
    split; [reflexivity|]. intros m ->. apply fifo_next_inv; auto; cbn; rewrite <- Hct; auto.
    + apply NoDup_app. split_and!; [exact Hc| |apply NoDup_singleton]. set_solver.
    + set_solver.
Qed.

Lemma fifo_send_i_inv align objs s free p ahead x :
  objs_ok align objs -> fifo_inv align objs s free p -> in_use x s = true ->
  exists s', fifo_step (FvSendI ahead x) s = Some s' /\ fifo_inv align objs s' free p.
Proof.
  intros Hobjs H Hx. destruct (fifo_post _ _ _ _ _ x ahead Hobjs H Hx) as (mb & ev & E & Hi).
  cbn [fifo_step]. unfold chFifoSendObjectI, chFifoSendObjectAheadI. cbn [fs_fifo of_mbx of_free].
  destruct ahead; rewrite E; cbn; eauto.
Qed.

Lemma fifo_send_inv align objs s free p t ahead x :
  objs_ok align objs -> fifo_inv align objs s free p -> fifo_idle t s = true -> in_use x s = true ->
  exists s', fifo_step (FvSend t ahead x) s = Some s' /\ fifo_inv align objs s' free p.
Proof.
  intros Hobjs H Ht Hx. destruct (fifo_post _ _ _ _ _ x ahead Hobjs H Hx) as (mb & ev & E & Hi).
  destruct (fifo_room _ _ _ _ _ _ Hobjs H Hx) as (Hroom & _).
  destruct (post_room t x TIME_IMMEDIATE (sy_obj (fs_mbx s))) as [E1 E2];
    [apply H|unfold chMBGetFreeCountI, chMBGetUsedCountI; lia|].
  unfold fifo_idle in Ht. destruct (sy_threads (fs_mbx s) !! t) eqn:Et; [discriminate|].
  pose proof (wake_all_idle t (wakes ev) _ Et) as Hw.
  cbn [fifo_step]. unfold chFifoSendObjectS, chFifoSendObjectAheadS. cbn [fs_fifo of_mbx of_free].
  destruct ahead; rewrite ?E1, ?E2, E; cbn; eexists; (split; [reflexivity|]); apply Hi; apply delete_id; exact Hw.
Qed.

(** A turn of a receiving call, which the generic model of threads makes too. *)
Lemma fifo_receive_inv align objs s free p t timeout e :
  fifo_inv align objs s free p -> sys_enabled e (fs_mbx s) = true -> event_ok e ->
  sys_step e (fs_mbx s) = after_call t (fs_mbx s) (mb_do t (MbFetchTimeout timeout) (sy_obj (fs_mbx s))) ->
  exists s', fifo_receive t timeout s = Some s' /\ fifo_inv align objs s' free p.
Proof.
  intros H En Hev Es. pose proof H as [Hp Hm Hr Hs Hl Hc Ho].
  destruct (sys_step_inv _ _ Hm En Hev) as (sy' & E' & H').
  destruct (fetch_spec t timeout _ (proj1 Hm) Hr) as (mb & o & ev & E & Hr' & Hs' & Hcase).
  unfold fifo_receive, chFifoReceiveObjectTimeoutS. cbn [fs_fifo of_mbx of_free].
  rewrite Es in E'. cbn [mb_do] in E'. rewrite E in *. cbn [mbind option_bind] in *.
  cbn in E'. injection E' as <-. eexists. split; [reflexivity|]. apply fifo_next_inv; auto; cbn [of_mbx].
  - destruct Hcase as [(q & -> & ->)|[-> ->]]; cbn; [rewrite Z.eqb_refl|]; reflexivity.
  - destruct Hcase as [(q & _ & Ec)|[_ ->]]; [|exact Hc]. rewrite Ec in Hc. apply NoDup_cons in Hc. apply Hc.
  - destruct Hcase as [(q & _ & Ec)|[_ ->]]; [|exact Ho]. rewrite Ec in Ho. set_solver.
Qed.

Lemma fifo_receive_i_inv align objs s free p :
  fifo_inv align objs s free p ->
  exists s', fifo_step FvReceiveI s = Some s' /\ fifo_inv align objs s' free p.
Proof.
  intros H. pose proof H as [Hp Hm Hr Hs Hl Hc Ho].
  destruct (fifo_mb_exec MbFetch _ Hm) as (mb & r & ev & E & Hi & Hsz & Hd). cbn in E.
  cbn [fifo_step]. unfold chFifoReceiveObjectI. cbn [fs_fifo of_mbx of_free]. rewrite E. cbn [mbind option_bind].
  eexists. split; [reflexivity|]. cbn in Hd. rewrite Hr in Hd.
  destruct (mb_content (sy_obj (fs_mbx s))) as [|q l] eqn:Ec; injection Hd as Hct Hrs <-;
    apply fifo_next_inv; auto; cbn [of_mbx]; rewrite <- Hct, ?Ec; auto.
  - cbn. rewrite Z.eqb_refl. reflexivity.
  - apply NoDup_cons in Hc. apply Hc.
  - set_solver.
Qed.

Lemma fifo_run_inv align objs s free p t :
  fifo_inv align objs s free p -> fifo_enabled (FvRun t) s = true ->
  exists s', fifo_step (FvRun t) s = Some s' /\ fifo_inv align objs s' free p.
Proof.
  intros H En. pose proof H as [Hp Hm Hr Hs Hl Hc Ho]. cbn [fifo_step] in *. cbn in En.
  destruct (sy_threads (fs_mbx s) !! t) as [[c|[| |timeout] msg|c]|] eqn:Et; try discriminate.
  assert (Hen : sys_enabled (EvRun (I := mb_op) t) (fs_mbx s) = true) by (cbn; rewrite Et; reflexivity).
  case_bool.
  - apply (fifo_receive_inv align objs s free p t timeout (EvRun t)); auto; [exact I|].
    cbn. rewrite Et. unfold mb_resume. rewrite (proj2 (Z.eqb_eq _ _) E). reflexivity.
  - eexists. split; [reflexivity|]. destruct (sys_step_inv _ _ Hm Hen I) as (sy' & E' & H').
    cbn in E'. rewrite Et in E'. unfold mb_resume in E'. rewrite (proj2 (Z.eqb_neq _ _) E) in E'.
    cbn in E'. injection E' as <-. apply fifo_next_inv; auto.
Qed.

Lemma fifo_timeout_inv align objs s free p t :
  fifo_inv align objs s free p -> fifo_enabled (FvTimeout t) s = true ->
  exists s', fifo_step (FvTimeout t) s = Some s' /\ fifo_inv align objs s' free p.
Proof.
  intros H En. pose proof H as [Hp Hm Hr Hs Hl Hc Ho]. cbn [fifo_step] in *. cbn in En.
  destruct (sy_threads (fs_mbx s) !! t) as [[[| |timeout]|c msg|c]|] eqn:Et; try discriminate.
  assert (Hen : sys_enabled (EvTimeout (I := mb_op) t) (fs_mbx s) = true) by (cbn; rewrite Et; reflexivity).
  eexists. split; [reflexivity|]. destruct (sys_step_inv _ _ Hm Hen I) as (sy' & E' & H').
  cbn in E'. rewrite Et in E'. cbn in E'. injection E' as <-. apply fifo_next_inv; auto.
Qed.

Lemma fifo_step_inv align objs s free p e :
  objs_ok align objs -> fifo_inv align objs s free p -> fifo_enabled e s = true ->
  exists s' free' p', fifo_step e s = Some s' /\ fifo_inv align objs s' free' p'.
Proof.
  intros Hobjs H En. destruct e as [e|ahead x|t ahead x| |t timeout|t|t].
  - pose proof H as [Hp Hm Hr Hs Hl Hc Ho].
    assert (En' : gpool_enabled e (fs_free s) = true).
    { destruct e; try exact En. cbn in *. unfold in_use in En. bools. assumption. }
    destruct (gpool_step_inv _ _ _ _ _ _ Hobjs Hp En') as (g & free' & p' & E & Hg).
    cbn [fifo_step]. rewrite E. cbn. do 3 eexists. split; [reflexivity|]. split; try eassumption. cbn.
    intros x Hx. apply (gpool_keeps _ _ _ _ E); [|apply Ho; exact Hx]. intros ->.
    cbn in En. unfold in_use in En. bools. apply bool_decide_eq_true in H1. contradiction.
  - destruct (fifo_send_i_inv _ _ _ _ _ ahead x Hobjs H En) as (s' & ? & ?); eauto.
  - cbn in En. bools. destruct (fifo_send_inv _ _ _ _ _ t ahead x Hobjs H) as (s' & ? & ?); eauto.
  - destruct (fifo_receive_i_inv _ _ _ _ _ H) as (s' & ? & ?); eauto.
  - destruct (fifo_receive_inv align objs s free p t timeout (EvCall t (MbFetchTimeout timeout)) H) as (s' & ? & ?);
      [exact En|exact I|reflexivity|eauto].
  - destruct (fifo_run_inv _ _ _ _ _ t H En) as (s' & ? & ?); eauto.
  - destruct (fifo_timeout_inv _ _ _ _ _ t H En) as (s' & ? & ?); eauto.
Qed.

Lemma fifo_init_inv size k p n msgbuf m :
  layout_ok size k p n -> n <= Z.of_nat (length msgbuf) ->
  exists s free, fifo_init size (2 ^ k) p n msgbuf m = Some s /\
    fifo_inv (2 ^ k) (array_objs (Z.to_nat n) p size) s free (Permits n []).
Proof.
  intros Hl Hbuf. pose proof Hl as (Hk & Hsz & Hsm & _ & _ & Hn & _).
  destruct (gpool_init_inv size k p n m Hl) as (_ & s0 & free & E0 & [Hs Hp Hc Hcount Ho Hlog]).
  unfold gpool_init in E0. apply bind_Some_inv in E0 as (gmp & E1 & E0).
  apply bind_Some_inv in E0 as ([[gmp' m'] ev] & E2 & E0). injection E0 as <-. cbn in *.
  unfold fifo_init, chFifoObjectInitAligned.
  assert (H2k : 0 < 2 ^ k) by (apply Z.pow_pos_nonneg; lia).
  assert (Hle : 2 ^ k <= size) by (destruct (Z.le_gt_cases (2 ^ k) size); [assumption|rewrite Z.mod_small in Hsm; lia]).
  rewrite check_true by (rewrite Hsm, andb_true_iff, Z.leb_le; split; [exact Hle|reflexivity]).
  cbn [mbind option_bind]. rewrite E1. cbn [mbind option_bind]. rewrite E2. cbn [mbind option_bind].
  destruct (chMBObjectInit (take (Z.to_nat n) msgbuf)) as [mb|] eqn:Em.
  2: { unfold chMBObjectInit in Em. rewrite check_true in Em; [discriminate|].
       apply Z.ltb_lt. rewrite length_take. lia. }
  destruct (chMBObjectInit_ok _ _ Em) as (Hok & Hct & Hr & Hsize & Hqw & Hqr).
  cbn [mbind option_bind]. do 2 eexists. split; [reflexivity|]. split; cbn.
  - split; cbn; try eassumption. change (granted []) with 0.
    rewrite (Permutation_length Ho), array_objs_length. lia.
  - apply sys_init_inv; [exact Hok|]. intros []; assumption.
  - exact Hr.
  - rewrite Hsize, length_take, array_objs_length. lia.
  - rewrite Hct. reflexivity.
  - rewrite Hct. constructor.
  - rewrite Hct. set_solver.
Qed.

Lemma fifo_run_all align objs es : forall s free p s',
  objs_ok align objs -> fifo_inv align objs s free p -> fifo_run es s = Some s' ->
  exists free' p', fifo_inv align objs s' free' p'.
Proof.
  induction es as [|e es IH]; cbn; intros s free p s' Hobjs H E; [injection E as <-; eauto|].
  destruct (fifo_enabled e s) eqn:En; [|discriminate].
  destruct (fifo_step_inv align objs s free p e Hobjs H En) as (s1 & free1 & p1 & E1 & H1).
  rewrite E1 in E. cbn in E. eapply IH; eauto.
Qed.

(** C29: however objects are taken, sent from either kind of context and at either end,
    received and returned, with waits and timeouts on both sides: every step is
    defined and "post failed" never happens; every object is free, in the mailbox
    or with one user; and the mailbox holds the sent objects in their order, those
    sent ahead first. *)
Theorem fifo_conserves_objects (size k p n : Z) (msgbuf : list Z) (m : pool_mem) (es : list fifo_event) :
  layout_ok size k p n -> n <= Z.of_nat (length msgbuf) ->
  exists s0, fifo_init size (2 ^ k) p n msgbuf m = Some s0 /\
    forall s, fifo_run es s0 = Some s ->
      (forall e, fifo_enabled e s = true -> is_Some (fifo_step e s)) /\
      fifo_log [] (fs_log s) = Some (mb_content (of_mbx (fs_fifo s))) /\
      exists free users, chain (pm_words (gs_mem (fs_free s))) (mp_next (gmp_pool (of_free (fs_fifo s)))) free /\
        free ++ mb_content (of_mbx (fs_fifo s)) ++ users ≡ₚ array_objs (Z.to_nat n) p size /\
        forall x, x ∈ users <-> in_use x s = true.
Proof.
  intros Hl Hbuf. destruct (gpool_init_inv size k p n m Hl) as (Hobjs & _).
  destruct (fifo_init_inv size k p n msgbuf m Hl Hbuf) as (s0 & free0 & E0 & H0).
  exists s0. split; [exact E0|]. intros s E.
  destruct (fifo_run_all _ _ _ _ _ _ _ Hobjs H0 E) as (free & q & H). split; [|split].
  - intros e En. destruct (fifo_step_inv _ _ _ _ _ _ Hobjs H En) as (s' & f' & p' & -> & _). eauto.
  - apply H.
  - destruct H as [Hp Hm Hr Hs Hlg Hc Ho]. set (ct := mb_content (sy_obj (fs_mbx s))) in *.
    set (held := gs_held (fs_free s)) in *.
    assert (Hnd : NoDup held).
    { destruct Hobjs as [Hnd _]. rewrite <- (gi_objs _ _ _ _ _ Hp) in Hnd. apply NoDup_app in Hnd. apply Hnd. }
    exists free, (list_difference held ct). split; [apply (gi_pool _ _ _ _ _ Hp)|]. split.
    + rewrite <- (gi_objs _ _ _ _ _ Hp), Permutation_app_comm. apply Permutation_app_tail. fold held.
      change (mb_content (of_mbx (fs_fifo s))) with ct. apply NoDup_Permutation; [|exact Hnd|].
      * apply NoDup_app. split_and!; [exact Hc| |apply NoDup_list_difference; exact Hnd].
        intros x Hx Hx'. apply list_elem_of_difference in Hx'. tauto.
      * intros x. rewrite elem_of_app, list_elem_of_difference. specialize (Ho x).
        destruct (decide (x ∈ ct)); tauto.
    + intros x. rewrite list_elem_of_difference. unfold in_use. fold ct held.
      rewrite andb_true_iff, !bool_decide_eq_true. tauto.
Qed.

(** *** A run *)

(** A receiver waits; two objects are sent, the second ahead; both are received and
    one is returned. *)
Definition fifo_demo : list fifo_event :=
  [FvReceive 9 TIME_INFINITE; FvPool (GvAlloc 1 TIME_INFINITE); FvPool (GvAlloc 2 TIME_INFINITE);
   FvSendI false 4104; FvSend 2 true 4096; FvRun 9; FvReceiveI; FvPool (GvAlloc 3 10); FvPool (GvFree 4096);
   FvPool (GvRun 0)].

Definition fifo_demo_start : fifo_sys :=
  default (FSys gpool_demo_start (Sys (Mailbox [] 0 0 0 false [] []) ∅) []) (fifo_init 8 (2 ^ 2) 4096 2 [0; 0] pool_mem0).
Definition fifo_demo_end : fifo_sys := default fifo_demo_start (fifo_run fifo_demo fifo_demo_start).

Lemma fifo_demo_log :
  fs_log fifo_demo_end = [Sent 4104; SentAhead 4096; Received 4096; Received 4104] /\
  gs_held (fs_free fifo_demo_end) = [4096; 4104].
Proof. vm_compute. split; reflexivity. Qed.

Lemma fifo_conserves_objects_witness :
  exists s0, fifo_init 8 (2 ^ 2) 4096 2 [0; 0] pool_mem0 = Some s0 /\
    forall s, fifo_run fifo_demo s0 = Some s ->
      (forall e, fifo_enabled e s = true -> is_Some (fifo_step e s)) /\
      fifo_log [] (fs_log s) = Some (mb_content (of_mbx (fs_fifo s))) /\
      exists free users, chain (pm_words (gs_mem (fs_free s))) (mp_next (gmp_pool (of_free (fs_fifo s)))) free /\
        free ++ mb_content (of_mbx (fs_fifo s)) ++ users ≡ₚ array_objs 2 4096 8 /\
        forall x, x ∈ users <-> in_use x s = true.
Proof. apply (fifo_conserves_objects 8 2 4096 2 [0; 0] pool_mem0 fifo_demo); [exact gpool_demo_layout|cbn; lia]. Defined.
