(* ===== verification/Objcaches.v ===== *)
(** * Objects caches (chobjcaches.c)

    Buffers for objects of a slow medium, found by group and key through a hash
    table and reused in the order of their last use.  The links of the two kinds of
    list are the sequence of the objects they hold.  A call is modelled up to the
    point where its thread sleeps or leaves the kernel lock for the external
    writer; [cache_sys] holds a cache with the threads in a call.  For one user at
    a time the cache implements a list in order of use, and no lazy write is lost;
    with several users two flaws show. *)

From stdpp Require Import gmap.
From S2P Require Import Prelude CInt CLib Threads Semaphores.
#[local] Open Scope Z_scope.

(** ** Data *)

Definition OC_FLAG_INLRU : Z := 1.
Definition OC_FLAG_INHASH : Z := 2.
Definition OC_FLAG_SHARED : Z := 4.
Definition OC_FLAG_NOTSYNC : Z := 8.
Definition OC_FLAG_LAZYWRITE : Z := 16.
Definition OC_FLAG_FORGET : Z := 32.

Record oc_object_t := OcObject {
  obj_group : Z;
  obj_key : Z;
  obj_sem : semaphore_t;
  obj_flags : Z
}.

(** Objects are numbered; a hash slot is the sequence of its objects, and so is the
    LRU list, the most recently used first. *)
Record objects_cache_t := Cache {
  oc_hashn : Z;
  oc_hashp : list (list nat);
  oc_objs : gmap nat oc_object_t;
  oc_lru : list nat;
  oc_lru_sem : semaphore_t
}.

Definition OC_HASH_FUNCTION (c : objects_cache_t) (group key : Z) : nat :=
  Z.to_nat (Z.land (u32 (u32 group + u32 key)) (u32 (oc_hashn c - 1))).

Definition set_obj (i : nat) (o : oc_object_t) (c : objects_cache_t) : objects_cache_t :=
  Cache (oc_hashn c) (oc_hashp c) (<[i := o]> (oc_objs c)) (oc_lru c) (oc_lru_sem c).
Definition set_lru (l : list nat) (c : objects_cache_t) : objects_cache_t :=
  Cache (oc_hashn c) (oc_hashp c) (oc_objs c) l (oc_lru_sem c).
Definition set_lru_sem (s : semaphore_t) (c : objects_cache_t) : objects_cache_t :=
  Cache (oc_hashn c) (oc_hashp c) (oc_objs c) (oc_lru c) s.
Definition set_hash (h : list (list nat)) (c : objects_cache_t) : objects_cache_t :=
  Cache (oc_hashn c) h (oc_objs c) (oc_lru c) (oc_lru_sem c).

Definition with_flags (f : Z) (o : oc_object_t) : oc_object_t := OcObject (obj_group o) (obj_key o) (obj_sem o) f.
Definition with_sem (s : semaphore_t) (o : oc_object_t) : oc_object_t := OcObject (obj_group o) (obj_key o) s (obj_flags o).
Definition with_name (g k f : Z) (o : oc_object_t) : oc_object_t := OcObject g k (obj_sem o) f.

(** [(flags & f) == v] *)
Definition flags_are (f v flags : Z) : bool := Z.land flags f =? v.

(** ** The lists

    Unlinking an object that is in no list of the kind is undefined. *)

Definition HASH_INSERT (i : nat) (group key : Z) (c : objects_cache_t) : option objects_cache_t :=
  slot ← oc_hashp c !! OC_HASH_FUNCTION c group key;
  Some (set_hash (<[OC_HASH_FUNCTION c group key := i :: slot]> (oc_hashp c)) c).

Definition HASH_REMOVE (i : nat) (c : objects_cache_t) : option objects_cache_t :=
  _ ← check (existsb (fun slot => bool_decide (i ∈ slot)) (oc_hashp c));
  Some (set_hash (filter (fun j => j <> i) <$> oc_hashp c) c).

Definition LRU_INSERT_HEAD (i : nat) (c : objects_cache_t) : objects_cache_t := set_lru (i :: oc_lru c) c.
Definition LRU_INSERT_TAIL (i : nat) (c : objects_cache_t) : objects_cache_t := set_lru (oc_lru c ++ [i]) c.
Definition LRU_REMOVE (i : nat) (c : objects_cache_t) : option objects_cache_t :=
  _ ← check (bool_decide (i ∈ oc_lru c));
  Some (set_lru (filter (fun j => j <> i) (oc_lru c)) c).

(** ** Initialisation *)

(** The objects are put in the list one after the other, each before the last. *)
Fixpoint oc_init_objs (n : nat) (next : nat) (c : objects_cache_t) : objects_cache_t :=
  match n with
  | O => c
  | S n => oc_init_objs n (S next) (LRU_INSERT_HEAD next (set_obj next (OcObject 0 0 (Sem [] 1) OC_FLAG_INLRU) c))
  end.

Definition chCacheObjectInit (hashn objn : Z) : option objects_cache_t :=
  _ ← check ((Z.land hashn (hashn - 1) =? 0) && (0 <? objn) && (objn <=? hashn));
  sem ← chSemObjectInit objn;
  Some (oc_init_objs (Z.to_nat objn) 0 (Cache hashn (replicate (Z.to_nat hashn) []) ∅ [] sem)).

(** ** Getting an object *)

Fixpoint hash_scan (objs : gmap nat oc_object_t) (group key : Z) (slot : list nat) : option (option nat) :=
  match slot with
  | [] => Some None
  | i :: slot =>
      o ← objs !! i;
      if (obj_key o =? key) && (obj_group o =? group) then Some (Some i) else hash_scan objs group key slot
  end.

Definition hash_get_s (group key : Z) (c : objects_cache_t) : option (option nat) :=
  slot ← oc_hashp c !! OC_HASH_FUNCTION c group key; hash_scan (oc_objs c) group key slot.

(** How far a call has come: it returns the object, sleeps on the object's semaphore
    or on that of the LRU list, or has left the lock to have an object written. *)
Inductive oc_outcome :=
| OcGot (i : nat)
| OcWaitObj (i : nat)
| OcWaitLru
| OcWrite (i : nat).

(** The object is taken from the LRU list, and its semaphore. *)
Definition oc_own (i : nat) (c : objects_cache_t) : option objects_cache_t :=
  c ← LRU_REMOVE i c;
  o ← oc_objs c !! i;
  sem ← chSemFastWaitI (obj_sem o);
  Some (set_obj i (with_sem sem (with_flags (Z.ldiff (obj_flags o) OC_FLAG_INLRU) o)) c).

(** [lru_get_last_s] once it has a permit: the last object of the list (the list's
    header when it is empty, which is no object). *)
Definition lru_take (c : objects_cache_t) : option (objects_cache_t * oc_outcome) :=
  i ← last (oc_lru c);
  o ← oc_objs c !! i;
  _ ← check (flags_are OC_FLAG_INLRU OC_FLAG_INLRU (obj_flags o));
  _ ← check (chSemGetCounterI (obj_sem o) =? 1);
  c ← oc_own i c;
  o ← oc_objs c !! i;
  if flags_are OC_FLAG_LAZYWRITE 0 (obj_flags o) then
    c ← (if negb (flags_are OC_FLAG_INHASH 0 (obj_flags o)) then HASH_REMOVE i c else Some c);
    Some (set_obj i (with_flags 0 o) c, OcGot i)
  else Some (set_obj i (with_flags (Z.lor OC_FLAG_INHASH OC_FLAG_FORGET) o) c, OcWrite i).

(** The object is named and published. *)
Definition oc_publish (i : nat) (group key : Z) (c : objects_cache_t) : option objects_cache_t :=
  o ← oc_objs c !! i;
  HASH_INSERT i group key (set_obj i (with_name group key (Z.lor OC_FLAG_INHASH OC_FLAG_NOTSYNC) o) c).

Definition oc_named (group key : Z) (r : objects_cache_t * oc_outcome) : option (objects_cache_t * oc_outcome) :=
  match r with
  | (c, OcGot i) => c ← oc_publish i group key c; Some (c, OcGot i)
  | _ => Some r
  end.

(** One turn of [lru_get_last_s] by thread [t], and what follows it. *)
Definition lru_get_last_s (t : nat) (group key : Z) (c : objects_cache_t) : option (objects_cache_t * oc_outcome) :=
  '(sem, o) ← chSemWaitS t (oc_lru_sem c);
  let c := set_lru_sem sem c in
  match o with
  | Return _ => r ← lru_take c; oc_named group key r
  | _ => Some (c, OcWaitLru)
  end.

Definition chCacheGetObject (t : nat) (group key : Z) (c : objects_cache_t) : option (objects_cache_t * oc_outcome) :=
  hit ← hash_get_s group key c;
  match hit with
  | Some i =>
      o ← oc_objs c !! i;
      _ ← check (flags_are OC_FLAG_INHASH OC_FLAG_INHASH (obj_flags o));
      if 0 <? chSemGetCounterI (obj_sem o) then
        _ ← check (flags_are OC_FLAG_INLRU OC_FLAG_INLRU (obj_flags o));
        c ← oc_own i c; Some (c, OcGot i)
      else
        _ ← check (flags_are OC_FLAG_INLRU 0 (obj_flags o));
        '(sem, w) ← chSemWaitS t (obj_sem o);
        Some (set_obj i (with_sem sem o) c, match w with Return _ => OcGot i | _ => OcWaitObj i end)
  | None => lru_get_last_s t group key c
  end.

(** ** Releasing it *)

Definition chCacheReleaseObjectI (i : nat) (c : objects_cache_t) : option (objects_cache_t * list event) :=
  o ← oc_objs c !! i;
  _ ← check (flags_are (Z.lor OC_FLAG_INLRU (Z.lor OC_FLAG_INHASH OC_FLAG_SHARED)) OC_FLAG_INHASH (obj_flags o));
  _ ← check (chSemGetCounterI (obj_sem o) <=? 0);
  if chSemGetCounterI (obj_sem o) <? 0 then
    let f := Z.land (obj_flags o) (Z.lor OC_FLAG_INHASH (Z.lor OC_FLAG_NOTSYNC OC_FLAG_LAZYWRITE)) in
    '(sem, ev) ← chSemSignalI (obj_sem o);
    Some (set_obj i (with_sem sem (with_flags f o)) c, ev)
  else
    c ← (if negb (flags_are OC_FLAG_NOTSYNC 0 (obj_flags o)) then
           c ← HASH_REMOVE i c;
           Some (set_obj i (with_name 0 0 OC_FLAG_INLRU o) (LRU_INSERT_TAIL i c))
         else
           let c := if flags_are OC_FLAG_FORGET 0 (obj_flags o) then LRU_INSERT_HEAD i c else LRU_INSERT_TAIL i c in
           let f := Z.lor (Z.land (obj_flags o) (Z.lor OC_FLAG_INHASH OC_FLAG_LAZYWRITE)) OC_FLAG_INLRU in
           Some (set_obj i (with_flags f o) c));
    '(lsem, ev) ← chSemSignalI (oc_lru_sem c);
    let c := set_lru_sem lsem c in
    o ← oc_objs c !! i;
    sem ← chSemFastSignalI (obj_sem o);
    Some (set_obj i (with_sem sem o) c, ev).

Definition chCacheReleaseObject := chCacheReleaseObjectI.

(** The reader and the writer are functions of the user; what they do to the cache,
    and the status they return, is an argument. *)
Definition chCacheReadObject (readf : objects_cache_t -> objects_cache_t * bool) (i : nat) (c : objects_cache_t)
  : option (objects_cache_t * bool) :=
  o ← oc_objs c !! i;
  Some (readf (set_obj i (with_flags (Z.lor (obj_flags o) OC_FLAG_NOTSYNC) o) c)).

Definition chCacheWriteObject (writef : objects_cache_t -> objects_cache_t * bool) (i : nat) (c : objects_cache_t)
  : option (objects_cache_t * bool) :=
  o ← oc_objs c !! i;
  Some (writef (set_obj i (with_flags (Z.ldiff (obj_flags o) OC_FLAG_LAZYWRITE) o) c)).

(** ** Threads at work on a cache

    A thread in a call sleeps on an object's semaphore or on that of the LRU list,
    has been woken, or is in the external writer with an object that the writer
    will release.  [cs_got] are the objects that calls have returned and that have
    not been released, each with its thread. *)

Inductive oc_pc :=
| OcSleepObj (i : nat)
| OcSleepLru (group key : Z)
| OcReadyObj (i : nat)
| OcReadyLru (group key : Z)
| OcWriting (i : nat) (group key : Z).

Record cache_sys := CSys {
  cs_cache : objects_cache_t;
  cs_threads : gmap nat oc_pc;
  cs_got : list (nat * nat)
}.

Definition oc_wake (m : gmap nat oc_pc) (w : nat * Z) : gmap nat oc_pc :=
  match m !! fst w with
  | Some (OcSleepObj i) => <[fst w := OcReadyObj i]> m
  | Some (OcSleepLru g k) => <[fst w := OcReadyLru g k]> m
  | _ => m
  end.

Definition oc_settle (t : nat) (group key : Z) (r : objects_cache_t * oc_outcome) (s : cache_sys) : cache_sys :=
  let '(c, o) := r in
  match o with
  | OcGot i => CSys c (delete t (cs_threads s)) ((t, i) :: cs_got s)
  | OcWaitObj i => CSys c (<[t := OcSleepObj i]> (cs_threads s)) (cs_got s)
  | OcWaitLru => CSys c (<[t := OcSleepLru group key]> (cs_threads s)) (cs_got s)
  | OcWrite i => CSys c (<[t := OcWriting i group key]> (cs_threads s)) (cs_got s)
  end.

Inductive cache_event :=
| CvGet (t : nat) (group key : Z)
| CvRun (t : nat)
| CvFlags (i : nat) (f : Z)
| CvRelease (i : nat).

Definition cache_step (e : cache_event) (s : cache_sys) : option cache_sys :=
  match e with
  | CvGet t g k => r ← chCacheGetObject t g k (cs_cache s); Some (oc_settle t g k r s)
  | CvRun t =>
      match cs_threads s !! t with
      | Some (OcReadyObj i) => Some (oc_settle t 0 0 (cs_cache s, OcGot i) s)
      | Some (OcReadyLru g k) => r ← lru_take (cs_cache s); r ← oc_named g k r; Some (oc_settle t g k r s)
      | Some (OcWriting i g k) => r ← lru_get_last_s t g k (cs_cache s); Some (oc_settle t g k r s)
      | _ => Some s
      end
  | CvFlags i f => o ← oc_objs (cs_cache s) !! i; Some (CSys (set_obj i (with_flags f o) (cs_cache s)) (cs_threads s) (cs_got s))
  | CvRelease i =>
      '(c, ev) ← chCacheReleaseObject i (cs_cache s);
      Some (CSys c (fold_left oc_wake (wakes ev) (cs_threads s)) (filter (fun p => snd p <> i) (cs_got s)))
  end.

Fixpoint cache_run (es : list cache_event) (s : cache_sys) : option cache_sys :=
  match es with
  | [] => Some s
  | e :: es => s ← cache_step e s; cache_run es s
  end.

(** ** One user at a time

    A use is a get, the user's work, which ends with the flags it sets, and the
    release; a lazy write that was due before stays due.  The writer writes at once
    and releases. *)

Record oc_use := Use { u_group : Z; u_key : Z; u_notsync : bool; u_lazy : bool; u_forget : bool }.

Definition user_flags (u : oc_use) (flags : Z) : Z :=
  Z.lor (Z.land flags (Z.lor OC_FLAG_INHASH OC_FLAG_LAZYWRITE)) (Z.lor (if u_notsync u then OC_FLAG_NOTSYNC else 0)
    (Z.lor (if u_lazy u then OC_FLAG_LAZYWRITE else 0) (if u_forget u then OC_FLAG_FORGET else 0))).

(** The end of a get, with the turns in which an object is written; the object, its
    cache and the names of the written objects. *)
Fixpoint oc_finish (fuel : nat) (t : nat) (g k : Z) (r : objects_cache_t * oc_outcome)
  : option (objects_cache_t * nat * list (Z * Z)) :=
  match r with
  | (c, OcGot i) => Some (c, i, [])
  | (c, OcWrite i) =>
      match fuel with
      | O => None
      | S fuel =>
          o ← oc_objs c !! i;
          '(c, _) ← chCacheReleaseObject i c;
          r ← lru_get_last_s t g k c;
          '(c, j, ws) ← oc_finish fuel t g k r;
          Some (c, j, (obj_group o, obj_key o) :: ws)
      end
  | _ => None
  end.

(** What a use shows: the object's number, its name and whether its data must be
    read, and the names of the objects written before. *)
Definition cache_use (t : nat) (u : oc_use) (c : objects_cache_t)
  : option (objects_cache_t * (nat * (Z * Z) * bool * list (Z * Z))) :=
  r ← chCacheGetObject t (u_group u) (u_key u) c;
  '(c, i, ws) ← oc_finish 1 t (u_group u) (u_key u) r;
  o ← oc_objs c !! i;
  '(c', _) ← chCacheReleaseObject i (set_obj i (with_flags (user_flags u (obj_flags o)) o) c);
  Some (c', (i, (obj_group o, obj_key o), negb (flags_are OC_FLAG_NOTSYNC 0 (obj_flags o)), ws)).

Fixpoint cache_uses (t : nat) (us : list oc_use) (c : objects_cache_t)
  : option (objects_cache_t * list (nat * (Z * Z) * bool * list (Z * Z))) :=
  match us with
  | [] => Some (c, [])
  | u :: us => '(c, x) ← cache_use t u c; '(c, xs) ← cache_uses t us c; Some (c, x :: xs)
  end.

(** *** Specification: buffers in the order of their last use *)

Record oc_entry := Entry { en_id : nat; en_name : option (Z * Z); en_lazy : bool }.

Definition has_name (g k : Z) (e : oc_entry) : bool := bool_decide (en_name e = Some (g, k)).

(** The buffer for an object, the others, whether it is new, and the objects that had
    to be written for it. *)
Definition spec_get (g k : Z) (l : list oc_entry) : option (oc_entry * list oc_entry * bool * list (Z * Z)) :=
  match List.find (has_name g k) l with
  | Some e => Some (e, filter (fun e' => en_id e' <> en_id e) l, false, [])
  | None =>
      e ← last l;
      Some (Entry (en_id e) (Some (g, k)) false, removelast l, true,
            if en_lazy e then match en_name e with Some n => [n] | None => [] end else [])
  end.

Definition spec_put (e : oc_entry) (u : oc_use) (l : list oc_entry) : list oc_entry :=
  if u_notsync u then l ++ [Entry (en_id e) None false]
  else
    let e := Entry (en_id e) (en_name e) (en_lazy e || u_lazy u) in
    if u_forget u then l ++ [e] else e :: l.

Definition spec_use (u : oc_use) (l : list oc_entry) : option (list oc_entry * (nat * (Z * Z) * bool * list (Z * Z))) :=
  '(e, l, new, ws) ← spec_get (u_group u) (u_key u) l;
  Some (spec_put e u l, (en_id e, (u_group u, u_key u), new, ws)).

Fixpoint spec_uses (us : list oc_use) (l : list oc_entry) : option (list oc_entry * list (nat * (Z * Z) * bool * list (Z * Z))) :=
  match us with
  | [] => Some (l, [])
  | u :: us => '(l, x) ← spec_use u l; '(l, xs) ← spec_uses us l; Some (l, x :: xs)
  end.

(** *** Hash table *)

(** The objects in the table: of [es], those that have a name. *)
Definition slot_ok (c : objects_cache_t) (es : list oc_entry) : Prop :=
  0 < oc_hashn c <= 2 ^ 31 /\ Z.of_nat (length (oc_hashp c)) = oc_hashn c /\
  forall b slot, oc_hashp c !! b = Some slot -> forall i,
    i ∈ slot <-> exists e g k, e ∈ es /\ en_id e = i /\ en_name e = Some (g, k) /\ OC_HASH_FUNCTION c g k = b.

Lemma land_upper a b : 0 <= b -> 0 <= Z.land a b <= b.
Proof.
  intros Hb. split; [apply Z.land_nonneg; right; exact Hb|].
  assert (H : b - Z.land a b = Z.ldiff b (Z.land a b)).
  { apply Z.sub_nocarry_ldiff. apply Z.bits_inj'. intros n Hn. rewrite Z.ldiff_spec, Z.land_spec, Z.bits_0.
    destruct (Z.testbit a n), (Z.testbit b n); reflexivity. }
  assert (0 <= Z.ldiff b (Z.land a b)) by (apply Z.ldiff_nonneg; left; exact Hb). lia.
Qed.

Lemma hash_slot c es g k : slot_ok c es -> exists slot, oc_hashp c !! OC_HASH_FUNCTION c g k = Some slot.
Proof.
  intros (Hn & Hl & _). apply lookup_lt_is_Some_2. unfold OC_HASH_FUNCTION.
  rewrite (u32_id (oc_hashn c - 1)) by lia.
  pose proof (land_upper (u32 (u32 g + u32 k)) (oc_hashn c - 1)). lia.
Qed.

(** A change of the other fields, or of the order, does not matter to the table. *)
Lemma slot_ok_ext c c' es es' :
  slot_ok c es -> oc_hashn c' = oc_hashn c -> oc_hashp c' = oc_hashp c ->
  (forall e g k, en_name e = Some (g, k) -> e ∈ es <-> e ∈ es') -> slot_ok c' es'.
Proof.
  intros (Hn & Hl & H) En Eh Hes. unfold slot_ok, OC_HASH_FUNCTION. rewrite En, Eh. split_and!; try assumption; try lia.
  intros b slot E i. rewrite (H b slot E i). unfold OC_HASH_FUNCTION.
  split; intros (e & g & k & H1 & H2 & H3 & H4); exists e, g, k; rewrite (Hes e g k) in *; auto.
Qed.

Lemma slot_ok_same c e e' l :
  slot_ok c (e :: l) -> en_id e' = en_id e -> en_name e' = en_name e -> slot_ok c (e' :: l).
Proof.
  intros (Hn & Hl & H) Ei En. split_and!; try assumption; try lia. intros b slot E i. rewrite (H b slot E i).
  split; intros (e1 & g & k & H1 & H2 & H3 & H4); apply elem_of_cons in H1 as [->|H1].
  - exists e', g, k. rewrite Ei, En. split_and!; auto. constructor.
  - exists e1, g, k. split_and!; auto. constructor. exact H1.
  - exists e, g, k. rewrite <- Ei, <- En. split_and!; auto. constructor.
  - exists e1, g, k. split_and!; auto. constructor. exact H1.
Qed.

Lemma hash_insert_ok c es e g k :
  slot_ok c es -> en_name e = Some (g, k) ->
  exists h, HASH_INSERT (en_id e) g k c = Some (set_hash h c) /\ slot_ok (set_hash h c) (e :: es).
Proof.
  intros H En. destruct (hash_slot c es g k H) as [slot Es]. unfold HASH_INSERT. rewrite Es. cbn [mbind option_bind].
  eexists. split; [reflexivity|]. destruct H as (Hn & Hl & H).
  unfold slot_ok, OC_HASH_FUNCTION in *. cbn [set_hash oc_hashn oc_hashp]. rewrite length_insert.
  split_and!; try assumption; try lia. intros b slot' E i.
  apply list_lookup_insert_Some in E as [(<- & <- & _)|[Hb E]].
  - rewrite elem_of_cons, (H _ _ Es). split.
    + intros [->|(e' & g' & k' & H1 & H2)]; [exists e, g, k; split_and!; auto; constructor|].
      exists e', g', k'. split; [constructor; exact H1|exact H2].
    + intros (e' & g' & k' & H1 & H2 & H3 & H4). apply elem_of_cons in H1 as [->|H1]; [left; congruence|].
      right. exists e', g', k'. auto.
  - rewrite (H _ _ E). split.
    + intros (e' & g' & k' & H1 & H2). exists e', g', k'. split; [constructor; exact H1|exact H2].
    + intros (e' & g' & k' & H1 & H2 & H3 & H4). apply elem_of_cons in H1 as [->|H1]; [congruence|].
      exists e', g', k'. auto.
Qed.

Lemma hash_remove_ok c es i e g k :
  slot_ok c es -> e ∈ es -> en_id e = i -> en_name e = Some (g, k) ->
  exists h, HASH_REMOVE i c = Some (set_hash h c) /\
    slot_ok (set_hash h c) (filter (fun e' => en_id e' <> i) es).
Proof.
  intros H He Hi Hnm. destruct (hash_slot c es g k H) as [slot Es]. pose proof H as (Hn & Hl & Hm).
  unfold HASH_REMOVE. rewrite check_true.
  2: { apply existsb_exists. exists slot. split; [apply list_elem_of_In, list_elem_of_lookup; eauto|].
       apply bool_decide_eq_true_2. apply (Hm _ _ Es). exists e, g, k. auto. }
  cbn [mbind option_bind]. eexists. split; [reflexivity|].
  unfold slot_ok, OC_HASH_FUNCTION in *. cbn [set_hash oc_hashn oc_hashp]. rewrite length_fmap.
  split_and!; try assumption; try lia. intros b slot' E j.
  rewrite list_lookup_fmap in E. destruct (oc_hashp c !! b) as [slot0|] eqn:E0; [|discriminate]. injection E as <-.
  rewrite list_elem_of_filter, (Hm _ _ E0). split.
  - intros (Hj & e' & g' & k' & H1 & H2 & H3). exists e', g', k'. split; [|auto].
    apply list_elem_of_filter. split; [congruence|exact H1].
  - intros (e' & g' & k' & H1 & H2 & H3). apply list_elem_of_filter in H1 as [H0 H1].
    split; [congruence|]. exists e', g', k'. auto.
Qed.

(** *** Representation *)

Definition oc_mk (notsync lazy forget : bool) : Z :=
  Z.lor OC_FLAG_INHASH (Z.lor (if notsync then OC_FLAG_NOTSYNC else 0)
    (Z.lor (if lazy then OC_FLAG_LAZYWRITE else 0) (if forget then OC_FLAG_FORGET else 0))).

Definition en_flags (e : oc_entry) : Z :=
  Z.lor OC_FLAG_INLRU (Z.lor (match en_name e with Some _ => OC_FLAG_INHASH | None => 0 end)
    (if en_lazy e then OC_FLAG_LAZYWRITE else 0)).

Definition en_obj (cnt : Z) (f : Z) (e : oc_entry) : oc_object_t :=
  let '(g, k) := default (0, 0) (en_name e) in OcObject g k (Sem [] cnt) f.

(** Entries with different numbers, and different names where they have one; only
    named ones have a write due. *)
Definition distinct (es : list oc_entry) : Prop :=
  NoDup (en_id <$> es) /\
  (forall e e', e ∈ es -> e' ∈ es -> en_name e = en_name e' -> en_name e <> None -> e = e') /\
  (forall e, e ∈ es -> en_lazy e = true -> en_name e <> None).

Record cache_rep (c : objects_cache_t) (l : list oc_entry) (cnt : Z) : Prop := {
  cr_lru : oc_lru c = en_id <$> l;
  cr_sem : oc_lru_sem c = Sem [] cnt;
  cr_dist : distinct l;
  cr_objs : forall e, e ∈ l -> oc_objs c !! en_id e = Some (en_obj 1 (en_flags e) e);
  cr_slot : slot_ok c l
}.

(** The object of the entry [e] is out, with the flags [f]; [e] has a name. *)
Record cache_out (c : objects_cache_t) (l : list oc_entry) (e : oc_entry) (f cnt : Z) : Prop := {
  co_lru : oc_lru c = en_id <$> l;
  co_sem : oc_lru_sem c = Sem [] cnt;
  co_dist : distinct (e :: l);
  co_name : en_name e <> None;
  co_objs : forall e, e ∈ l -> oc_objs c !! en_id e = Some (en_obj 1 (en_flags e) e);
  co_obj : oc_objs c !! en_id e = Some (en_obj 0 f e);
  co_slot : slot_ok c (e :: l)
}.

Lemma distinct_id es e e' : distinct es -> e ∈ es -> e' ∈ es -> en_id e = en_id e' -> e = e'.
Proof.
  intros (Hnd & _) H H' E. apply list_elem_of_lookup in H as [i Hi], H' as [j Hj].
  assert (i = j) as ->; [|congruence].
  apply (NoDup_lookup _ _ _ (en_id e) Hnd); rewrite list_lookup_fmap, ?Hi, ?Hj; cbn; congruence.
Qed.

Lemma distinct_sub (es es' : list oc_entry) : distinct es -> (en_id <$> es') `sublist_of` (en_id <$> es) -> es' ⊆ es -> distinct es'.
Proof.
  intros (Hnd & Hu & Hz) Hs Hsub. split_and!; [eapply sublist_NoDup; eauto|auto|auto].
Qed.

Lemma fmap_filter_id i (l : list oc_entry) :
  filter (fun j => j <> i) (en_id <$> l) = en_id <$> filter (fun e => en_id e <> i) l.
Proof.
  induction l as [|e l IH]; [reflexivity|]. cbn [fmap list_fmap]. rewrite !filter_cons.
  repeat case_decide; try congruence; cbn [fmap list_fmap]; rewrite <- ?IH; reflexivity.
Qed.

Lemma find_spec g k l :
  match List.find (has_name g k) l with
  | Some e => e ∈ l /\ en_name e = Some (g, k)
  | None => forall e, e ∈ l -> en_name e <> Some (g, k)
  end.
Proof.
  destruct (List.find (has_name g k) l) as [e|] eqn:E.
  - apply find_some in E as [E1 E2]. split; [apply list_elem_of_In; exact E1|apply bool_decide_eq_true in E2; exact E2].
  - intros e He Hn. apply list_elem_of_In in He. apply (find_none _ _ E) in He.
    unfold has_name in He. apply bool_decide_eq_false in He. contradiction.
Qed.

Lemma hash_scan_spec objs g k l slot :
  distinct l ->
  (forall i, i ∈ slot -> exists e, e ∈ l /\ en_id e = i /\ en_name e <> None /\ objs !! i = Some (en_obj 1 (en_flags e) e)) ->
  (forall e, List.find (has_name g k) l = Some e -> en_id e ∈ slot) ->
  hash_scan objs g k slot = Some (en_id <$> List.find (has_name g k) l).
Proof.
  intros Hd Hs Hf. pose proof (find_spec g k l) as Hfind.
  induction slot as [|i slot IH].
  - destruct (List.find _ _) as [e|]; [|reflexivity]. specialize (Hf e eq_refl). inversion Hf.
  - cbn [hash_scan]. destruct (Hs i) as (e & He & Hi & Hn & Eo); [constructor|]. rewrite Eo. cbn [mbind option_bind].
    unfold en_obj. destruct (en_name e) as [[g' k']|] eqn:En; [|contradiction]. cbn.
    destruct ((k' =? k) && (g' =? g)) eqn:Eq; bools; subst.
    + destruct (List.find _ _) as [e0|]; [|exfalso; apply (Hfind e He); exact En]. clear IH.
      destruct Hfind as [H0 E0]. cbn. do 2 f_equal. symmetry.
      f_equal. apply Hd; try assumption; congruence.
    + apply IH; [intros j Hj; apply Hs; constructor; exact Hj|].
      intros e0 Ef. specialize (Hf e0 Ef). apply elem_of_cons in Hf as [Hf|Hf]; [|exact Hf].
      exfalso. rewrite Ef in Hfind. destruct Hfind as [H0 E0].
      assert (e0 = e) as -> by (apply (distinct_id l); auto). rewrite En in E0. injection E0 as -> ->.
      rewrite !Z.eqb_refl in Eq. discriminate.
Qed.

Lemma hash_get_spec c l cnt g k :
  cache_rep c l cnt -> hash_get_s g k c = Some (en_id <$> List.find (has_name g k) l).
Proof.
  intros H. unfold hash_get_s. destruct (hash_slot c l g k (cr_slot _ _ _ H)) as [slot Es]. rewrite Es.
  cbn [mbind option_bind]. pose proof (cr_slot _ _ _ H) as (_ & _ & Hm).
  apply hash_scan_spec; [apply H| |].
  - intros i Hi. apply (Hm _ _ Es) in Hi as (e & g' & k' & He & <- & En & _). exists e.
    split_and!; auto; [congruence|]. apply (cr_objs _ _ _ H); exact He.
  - intros e Ef. pose proof (find_spec g k l) as Hf. rewrite Ef in Hf. destruct Hf as [He En].
    apply (Hm _ _ Es). exists e, g, k. auto.
Qed.

Lemma sem_wait_free t cnt : 0 < cnt < 2 ^ 31 -> chSemWaitS t (Sem [] cnt) = Some (Sem [] (cnt - 1), Return MSG_OK).
Proof.
  intros H. unfold chSemWaitS, sem_consistent, cnt_dec. cbn [sem_queue sem_cnt].
  rewrite !check_true by (rewrite ?Z.leb_le, ?Z.ltb_lt; lia). cbn [mbind option_bind sem_cnt].
  rewrite (proj2 (Z.ltb_ge _ _)) by lia. reflexivity.
Qed.

Lemma sem_signal_free cnt : 0 <= cnt < 2 ^ 31 - 1 -> chSemSignalI (Sem [] cnt) = Some (Sem [] (cnt + 1), []).
Proof.
  intros H. unfold chSemSignalI, sem_consistent, sem_release, cnt_inc. cbn [sem_queue sem_cnt].
  rewrite !check_true by (rewrite ?Z.leb_le, ?Z.ltb_lt; lia). cbn [mbind option_bind sem_cnt].
  rewrite (proj2 (Z.leb_gt _ _)) by lia. reflexivity.
Qed.

(** An object is taken from the LRU list. *)
Definition owned (e : oc_entry) (f : Z) (c : objects_cache_t) : objects_cache_t :=
  set_obj (en_id e) (en_obj 0 f e) (set_lru (filter (fun j => j <> en_id e) (oc_lru c)) c).

Lemma own_spec c l cnt e :
  cache_rep c l cnt -> e ∈ l ->
  oc_own (en_id e) c = Some (owned e (Z.ldiff (en_flags e) OC_FLAG_INLRU) c).
Proof.
  intros H He. unfold oc_own, LRU_REMOVE. rewrite check_true.
  2: { apply bool_decide_eq_true_2. rewrite (cr_lru _ _ _ H). apply list_elem_of_fmap. eauto. }
  cbn [mbind option_bind set_lru oc_objs]. rewrite (cr_objs _ _ _ H e He). cbn [mbind option_bind].
  unfold en_obj. destruct (default (0, 0) (en_name e)) as [g k] eqn:En. cbn [obj_sem obj_flags].
  unfold chSemFastWaitI, cnt_dec. cbn. unfold owned, en_obj. rewrite En. reflexivity.
Qed.

(** The entries that stay. *)
Lemma out_intro c l cnt e f :
  cache_rep c l cnt -> e ∈ l -> en_name e <> None ->
  cache_out (owned e f c) (filter (fun e' => en_id e' <> en_id e) l) e f cnt.
Proof.
  intros [Hl Hs Hd Ho Hsl] He Hn.
  assert (Hmem : forall e', e' ∈ l <-> e' ∈ e :: filter (fun e' => en_id e' <> en_id e) l).
  { intros e'. rewrite elem_of_cons, list_elem_of_filter. split; [|intros [->|[_ H]]; assumption].
    intros He'. destruct (decide (en_id e' = en_id e)) as [E|E]; [left; apply (distinct_id l); assumption|auto]. }
  assert (Hsub : sublist (filter (fun e' => en_id e' <> en_id e) l) l) by apply sublist_filter.
  split; cbn.
  - rewrite Hl. apply fmap_filter_id.
  - exact Hs.
  - destruct Hd as (Hnd & Hu & Hz). split_and!.
    + cbn. constructor; [|rewrite <- fmap_filter_id; apply NoDup_filter; exact Hnd].
      intros Hin. apply list_elem_of_fmap in Hin as (e' & E & Hin). apply list_elem_of_filter in Hin as [Hne _]. congruence.
    + intros e1 e2 H1 H2. apply Hu; apply Hmem; assumption.
    + intros e1 H1. apply Hz, Hmem, H1.
  - exact Hn.
  - intros e' He'. apply list_elem_of_filter in He' as [Hne He']. rewrite lookup_insert_ne by congruence. auto.
  - apply lookup_insert_eq.
  - apply (slot_ok_ext c _ l); auto.
Qed.

(** The object that is out comes back as the entry [e']. *)
Lemma rep_intro c l e f cnt c' e' l' :
  cache_out c l e f cnt -> l' ≡ₚ e' :: l -> en_id e' = en_id e ->
  en_name e' = en_name e \/ en_name e' = None -> (en_lazy e' = true -> en_name e' <> None) ->
  oc_lru c' = en_id <$> l' -> oc_lru_sem c' = Sem [] (cnt + 1) ->
  oc_objs c' !! en_id e = Some (en_obj 1 (en_flags e') e') ->
  (forall j, j <> en_id e -> oc_objs c' !! j = oc_objs c !! j) -> slot_ok c' l' ->
  cache_rep c' l' (cnt + 1).
Proof.
  intros [Hl Hs Hd Hn Ho He Hsl] Hp Hid Hnm Hz E1 E2 E3 E4 E5.
  destruct Hd as (Hnd & Hu & Hlz). cbn in Hnd. apply NoDup_cons in Hnd as [Hin Hnd].
  split; try assumption.
  - split_and!.
    + rewrite Hp. cbn. rewrite Hid. constructor; assumption.
    + intros e1 e2 H1 H2. rewrite Hp in H1, H2. apply elem_of_cons in H1, H2.
      intros En Hne. destruct H1 as [->|H1], H2 as [->|H2]; auto.
      * destruct Hnm as [Hnm|Hnm]; [|congruence]. exfalso. apply Hin.
        rewrite (Hu e e2); [apply list_elem_of_fmap; eauto|constructor|constructor; assumption|congruence|congruence].
      * destruct Hnm as [Hnm|Hnm]; [|congruence]. exfalso. apply Hin.
        rewrite (Hu e e1); [apply list_elem_of_fmap; eauto|constructor|constructor; assumption|congruence|congruence].
      * apply Hu; try (constructor; assumption); assumption.
    + intros e1 H1. rewrite Hp in H1. apply elem_of_cons in H1 as [->|H1]; [exact Hz|].
      apply Hlz. constructor. exact H1.
  - intros e1 H1. rewrite Hp in H1. apply elem_of_cons in H1 as [->|H1]; [rewrite Hid; exact E3|].
    rewrite E4; [apply Ho; exact H1|]. intros Eq. apply Hin. rewrite <- Eq. apply list_elem_of_fmap. eauto.
Qed.

Definition put_entry (e : oc_entry) (n z fo : bool) (l : list oc_entry) : list oc_entry :=
  if n then l ++ [Entry (en_id e) None false]
  else if fo then l ++ [Entry (en_id e) (en_name e) z] else Entry (en_id e) (en_name e) z :: l.

#[local] Ltac oc_cbn := cbn [mbind option_bind set_lru_sem set_obj set_lru set_hash LRU_INSERT_TAIL LRU_INSERT_HEAD
  oc_objs oc_lru oc_lru_sem oc_hashp oc_hashn obj_sem obj_flags with_name with_flags with_sem sem_cnt sem_queue].

Lemma release_out c l e n z fo cnt :
  cache_out c l e (oc_mk n z fo) cnt -> 0 <= cnt < 2 ^ 31 - 1 ->
  exists c' ev, chCacheReleaseObjectI (en_id e) c = Some (c', ev) /\ cache_rep c' (put_entry e n z fo l) (cnt + 1).
Proof.
  intros H Hcnt. pose proof H as [Hl Hs Hd Hn Ho He Hsl].
  destruct (en_name e) as [[g k]|] eqn:En; [|contradiction].
  assert (Eobj : forall cn f, en_obj cn f e = OcObject g k (Sem [] cn) f) by (intros; unfold en_obj; rewrite En; reflexivity).
  rewrite Eobj in He. unfold chCacheReleaseObjectI. rewrite He. cbn [mbind option_bind obj_flags obj_sem].
  rewrite !check_true by (destruct n, z, fo; reflexivity). cbn [mbind option_bind].
  unfold chSemGetCounterI. cbn [sem_cnt]. change (0 <? 0) with false. cbv iota.
  assert (Hp : forall e', l ++ [e'] ≡ₚ e' :: l) by (intros; symmetry; apply Permutation_cons_append).
  assert (Hsig : chSemSignalI (oc_lru_sem c) = Some (Sem [] (cnt + 1), []))
    by (rewrite Hs; apply sem_signal_free; lia).
  unfold put_entry. destruct n.
  - replace (negb (flags_are OC_FLAG_NOTSYNC 0 (oc_mk true z fo))) with true by (destruct z, fo; reflexivity).
    destruct (hash_remove_ok c (e :: l) (en_id e) e g k Hsl) as (h & -> & Hh); [constructor|reflexivity|exact En|].
    oc_cbn. rewrite Hsig.
    oc_cbn. rewrite lookup_insert_eq. oc_cbn.
    unfold chSemFastSignalI, cnt_inc. cbn [sem_cnt]. change (check (0 <? 2 ^ 31 - 1)) with (Some tt). cbn [mbind option_bind].
    do 2 eexists. split; [reflexivity|].
    apply (rep_intro c l e _ cnt _ (Entry (en_id e) None false) _ H (Hp _)); cbn; auto; try discriminate.
    + rewrite Hl, fmap_app. reflexivity.
    + rewrite lookup_insert_eq. reflexivity.
    + intros j Hj. rewrite !lookup_insert_ne by congruence. reflexivity.
    + eapply slot_ok_ext; [exact Hh|reflexivity|reflexivity|].
      intros e1 g1 k1 E1. rewrite list_elem_of_filter, elem_of_cons, elem_of_app, list_elem_of_singleton.
      destruct Hd as (Hnd & _). cbn in Hnd. apply NoDup_cons in Hnd as [Hin _].
      split; [intros [Hne [->|H1]]; [congruence|auto]|]. intros [H1| ->]; [|discriminate].
      split; [|auto]. intros Eq. apply Hin. rewrite <- Eq. apply list_elem_of_fmap. eauto.
  - replace (negb (flags_are OC_FLAG_NOTSYNC 0 (oc_mk false z fo))) with false by (destruct z, fo; reflexivity).
    replace (flags_are OC_FLAG_FORGET 0 (oc_mk false z fo)) with (negb fo) by (destruct z, fo; reflexivity).
    set (f' := Z.lor (Z.land (oc_mk false z fo) _) _).
    rewrite En. set (e' := Entry (en_id e) (Some (g, k)) z).
    assert (Ef : f' = en_flags e') by (subst f' e'; destruct z, fo; reflexivity). rewrite Ef. clear f' Ef.
    set (l' := if fo then l ++ [e'] else e' :: l).
    set (c1 := if negb fo then LRU_INSERT_HEAD (en_id e) c else LRU_INSERT_TAIL (en_id e) c).
    assert (Ec1 : c1 = set_lru (en_id <$> l') c).
    { subst c1 l'. destruct fo; unfold LRU_INSERT_HEAD, LRU_INSERT_TAIL; cbn; rewrite Hl, ?fmap_app; reflexivity. }
    rewrite Ec1. oc_cbn. rewrite Hsig.
    oc_cbn. rewrite lookup_insert_eq. oc_cbn.
    unfold chSemFastSignalI, cnt_inc. cbn [sem_cnt]. change (check (0 <? 2 ^ 31 - 1)) with (Some tt). cbn [mbind option_bind].
    do 2 eexists. split; [reflexivity|].
    assert (Hp' : l' ≡ₚ e' :: l) by (subst l'; destruct fo; [apply Hp|reflexivity]).
    apply (rep_intro c l e _ cnt _ e' _ H Hp'); cbn; auto; try discriminate.
    + rewrite lookup_insert_eq. reflexivity.
    + intros j Hj. rewrite !lookup_insert_ne by congruence. reflexivity.
    + apply (slot_ok_ext c _ (e' :: l)); [|reflexivity..|intros e1 g1 k1 _; rewrite Hp'; reflexivity].
      apply (slot_ok_same c e); auto.
Qed.

Lemma en_flags_out e : en_name e <> None -> Z.ldiff (en_flags e) OC_FLAG_INLRU = oc_mk false (en_lazy e) false.
Proof. intros Hn. unfold en_flags. destruct (en_name e), (en_lazy e); try contradiction; reflexivity. Qed.

Lemma get_hit t g k c l cnt e :
  cache_rep c l cnt -> List.find (has_name g k) l = Some e ->
  exists c', chCacheGetObject t g k c = Some (c', OcGot (en_id e)) /\
    cache_out c' (filter (fun e' => en_id e' <> en_id e) l) e (oc_mk false (en_lazy e) false) cnt.
Proof.
  intros H Ef. pose proof (find_spec g k l) as Hf. rewrite Ef in Hf. destruct Hf as [He En].
  assert (Hn : en_name e <> None) by congruence.
  unfold chCacheGetObject. rewrite (hash_get_spec c l cnt g k H), Ef. cbn [mbind option_bind fmap option_fmap option_map].
  rewrite (cr_objs _ _ _ H e He). cbn [mbind option_bind].
  assert (Eo : en_obj 1 (en_flags e) e = OcObject g k (Sem [] 1) (en_flags e)) by (unfold en_obj; rewrite En; reflexivity).
  rewrite Eo. unfold chSemGetCounterI. cbn [obj_flags obj_sem sem_cnt].
  change (0 <? 1) with true. cbv iota.
  assert (Hfl : flags_are OC_FLAG_INHASH OC_FLAG_INHASH (en_flags e) = true /\ flags_are OC_FLAG_INLRU OC_FLAG_INLRU (en_flags e) = true)
    by (unfold en_flags; rewrite En; destruct (en_lazy e); split; reflexivity).
  destruct Hfl as [-> ->]. cbn [check mbind option_bind].
  rewrite (own_spec c l cnt e H He). cbn [mbind option_bind]. rewrite en_flags_out by exact Hn.
  eexists. split; [reflexivity|]. apply out_intro; assumption.
Qed.

(** *** The last of the list *)

Lemma last_split (l : list oc_entry) e : last l = Some e -> l = removelast l ++ [e].
Proof.
  intros E. apply last_Some in E as [l' ->]. rewrite removelast_last. reflexivity.
Qed.

Lemma rep_sem c l cnt cnt' : cache_rep c l cnt -> cache_rep (set_lru_sem (Sem [] cnt') c) l cnt'.
Proof. intros [Hl Hs Hd Ho Hsl]. split; try assumption. reflexivity. Qed.

Lemma filter_last l e :
  distinct (l ++ [e]) -> filter (fun e' => en_id e' <> en_id e) (l ++ [e]) = l.
Proof.
  intros (Hnd & _). rewrite fmap_app in Hnd. apply NoDup_app in Hnd as (_ & Hdis & _).
  rewrite filter_app, filter_cons_False, filter_nil, app_nil_r by auto.
  induction l as [|e1 l IH]; [reflexivity|]. rewrite filter_cons_True.
  - f_equal. apply IH. intros x Hx. apply Hdis. constructor. exact Hx.
  - intros Eq. apply (Hdis (en_id e1)); [constructor|]. rewrite Eq. constructor.
Qed.

(** The buffer gets its new name. *)
Lemma publish_spec c l e cnt g k :
  oc_lru c = en_id <$> l -> oc_lru_sem c = Sem [] cnt -> distinct (e :: l) ->
  (forall e', e' ∈ l -> oc_objs c !! en_id e' = Some (en_obj 1 (en_flags e') e')) ->
  (exists o, oc_objs c !! en_id e = Some o /\ obj_sem o = Sem [] 0) ->
  slot_ok c l -> (forall e', e' ∈ l -> en_name e' <> Some (g, k)) ->
  exists c', oc_publish (en_id e) g k c = Some c' /\
    cache_out c' l (Entry (en_id e) (Some (g, k)) false) (oc_mk true false false) cnt.
Proof.
  intros Hl Hs (Hnd & Hu & Hz) Ho (o & Eo & Es) Hsl Hnew. unfold oc_publish. rewrite Eo. cbn [mbind option_bind].
  set (e' := Entry (en_id e) (Some (g, k)) false). set (c1 := set_obj _ _ c).
  destruct (hash_insert_ok c1 l e' g k) as (h & E & Hh); [apply (slot_ok_ext c c1 l l); auto; tauto|reflexivity|].
  change (en_id e) with (en_id e') at 1. rewrite E. eexists. split; [reflexivity|].
  cbn in Hnd. pose proof Hnd as Hnd'. apply NoDup_cons in Hnd' as [Hin Hnd'].
  split; cbn; auto.
  - split_and!; [exact Hnd| |].
    + intros e1 e2 H1 H2 E12 Hne. apply elem_of_cons in H1, H2. destruct H1 as [->|H1], H2 as [->|H2]; auto.
      * exfalso. apply (Hnew e2 H2). rewrite <- E12. reflexivity.
      * exfalso. apply (Hnew e1 H1). rewrite E12. reflexivity.
      * apply Hu; try (constructor; assumption); assumption.
    + intros e1 H1. apply elem_of_cons in H1 as [->|H1]; [discriminate|]. apply Hz. constructor. exact H1.
  - intros e1 H1. rewrite lookup_insert_ne; [auto|]. intros Eq. apply Hin. rewrite Eq. apply list_elem_of_fmap. eauto.
  - rewrite lookup_insert_eq. unfold with_name, e', en_obj. cbn. rewrite Es. reflexivity.
Qed.

Lemma take_clean g k c l cnt e :
  cache_rep c (l ++ [e]) cnt -> en_lazy e = false -> (forall e', e' ∈ l -> en_name e' <> Some (g, k)) ->
  exists c', (r ← lru_take c; oc_named g k r) = Some (c', OcGot (en_id e)) /\
    cache_out c' l (Entry (en_id e) (Some (g, k)) false) (oc_mk true false false) cnt.
Proof.
  intros H Ez Hnew. pose proof H as [Hl Hs Hd Ho Hsl].
  assert (He : e ∈ l ++ [e]) by (rewrite elem_of_app, list_elem_of_singleton; auto).
  assert (Hd' : distinct (e :: l)).
  { destruct Hd as (Hnd & Hu & Hz). split_and!.
    - rewrite fmap_app in Hnd. cbn in *. rewrite Permutation_app_comm in Hnd. exact Hnd.
    - intros e1 e2 H1 H2. apply Hu; rewrite elem_of_app, list_elem_of_singleton; apply elem_of_cons in H1, H2; tauto.
    - intros e1 H1. apply Hz. rewrite elem_of_app, list_elem_of_singleton. apply elem_of_cons in H1. tauto. }
  assert (El : last (oc_lru c) = Some (en_id e)) by (rewrite Hl, fmap_app; apply last_snoc).
  unfold lru_take. rewrite El. cbn [mbind option_bind]. rewrite (Ho e He). cbn [mbind option_bind].
  pose proof (own_spec c (l ++ [e]) cnt e H He) as Eown.
  set (f := Z.ldiff (en_flags e) OC_FLAG_INLRU) in *.
  assert (Ef : f = match en_name e with Some _ => OC_FLAG_INHASH | None => 0 end)
    by (subst f; unfold en_flags; rewrite Ez; destruct (en_name e); reflexivity).
  assert (Eobj : forall cn fl, obj_sem (en_obj cn fl e) = Sem [] cn /\ obj_flags (en_obj cn fl e) = fl)
    by (intros; unfold en_obj; destruct (default (0, 0) (en_name e)); auto).
  destruct (Eobj 1 (en_flags e)) as [-> ->].
  rewrite !check_true by (unfold en_flags; rewrite ?Ez; destruct (en_name e); reflexivity). cbn [mbind option_bind].
  rewrite Eown. cbn [mbind option_bind owned set_obj oc_objs]. rewrite lookup_insert_eq. cbn [mbind option_bind].
  destruct (Eobj 0 f) as [Es Efl]. rewrite Efl.
  replace (flags_are OC_FLAG_LAZYWRITE 0 f) with true by (rewrite Ef; destruct (en_name e); reflexivity).
  assert (Hrest : oc_lru (owned e f c) = en_id <$> l)
    by (cbn; rewrite Hl, fmap_filter_id, filter_last by exact Hd; reflexivity).
  assert (Hobjs : forall e', e' ∈ l -> oc_objs (owned e f c) !! en_id e' = Some (en_obj 1 (en_flags e') e')).
  { intros e' He'. cbn. rewrite lookup_insert_ne; [apply Ho; rewrite elem_of_app; auto|].
    intros Eq. destruct Hd' as (Hnd & _). cbn in Hnd. apply NoDup_cons in Hnd as [Hin _]. apply Hin. rewrite Eq.
    apply list_elem_of_fmap. eauto. }
  destruct (en_name e) as [[g0 k0]|] eqn:En; rewrite Ef.
  - replace (negb (flags_are OC_FLAG_INHASH 0 OC_FLAG_INHASH)) with true by reflexivity.
    destruct (hash_remove_ok (owned e f c) (l ++ [e]) (en_id e) e g0 k0) as (h & E & Hh); auto.
    rewrite <- Ef. change (set_obj (en_id e) (en_obj 0 f e) (set_lru (filter (fun j => j <> en_id e) (oc_lru c)) c)) with (owned e f c).
    rewrite E. cbn [mbind option_bind oc_named].
    rewrite filter_last in Hh by exact Hd.
    destruct (publish_spec (set_obj (en_id e) (with_flags 0 (en_obj 0 f e)) (set_hash h (owned e f c))) l e cnt g k)
      as (c' & Ec & Hout); auto.
    + intros e' He'. cbn. rewrite lookup_insert_ne; [apply Hobjs; exact He'|].
      intros Eq. destruct Hd' as (Hnd & _). cbn in Hnd. apply NoDup_cons in Hnd as [Hin _]. apply Hin. rewrite Eq.
      apply list_elem_of_fmap. eauto.
    + eexists. cbn. rewrite lookup_insert_eq. split; [reflexivity|exact Es].
    + rewrite Ec. eauto.
  - replace (negb (flags_are OC_FLAG_INHASH 0 0)) with false by reflexivity. cbn [mbind option_bind oc_named].
    change (set_obj (en_id e) (en_obj 0 0 e) (set_lru (filter (fun j => j <> en_id e) (oc_lru c)) c)) with (owned e 0 c).
    rewrite Ef in *.
    destruct (publish_spec (set_obj (en_id e) (with_flags 0 (en_obj 0 0 e)) (owned e 0 c)) l e cnt g k)
      as (c' & Ec & Hout); auto.
    + intros e' He'. cbn. rewrite lookup_insert_ne; [apply Hobjs; exact He'|].
      intros Eq. destruct Hd' as (Hnd & _). cbn in Hnd. apply NoDup_cons in Hnd as [Hin _]. apply Hin. rewrite Eq.
      apply list_elem_of_fmap. eauto.
    + eexists. cbn. rewrite lookup_insert_eq. split; [reflexivity|exact Es].
    + apply (slot_ok_ext c _ (l ++ [e])); auto. intros e1 g1 k1 E1. rewrite elem_of_app, list_elem_of_singleton.
      split; [intros [H1| ->]; [exact H1|congruence]|auto].
    + rewrite Ec. eauto.
Qed.

(** A buffer with a write due is written; the writer puts it back at the end, clean. *)
Lemma take_lazy c l cnt e :
  cache_rep c (l ++ [e]) cnt -> en_lazy e = true ->
  exists c', lru_take c = Some (c', OcWrite (en_id e)) /\ cache_out c' l e (oc_mk false false true) cnt.
Proof.
  intros H Ez. pose proof H as [Hl Hs Hd Ho Hsl].
  assert (He : e ∈ l ++ [e]) by (rewrite elem_of_app, list_elem_of_singleton; auto).
  assert (Hn : en_name e <> None) by (apply Hd; assumption).
  destruct (en_name e) as [[g0 k0]|] eqn:En; [|contradiction].
  assert (El : last (oc_lru c) = Some (en_id e)) by (rewrite Hl, fmap_app; apply last_snoc).
  unfold lru_take. rewrite El. cbn [mbind option_bind]. rewrite (Ho e He). cbn [mbind option_bind].
  assert (Eobj : forall cn fl, en_obj cn fl e = OcObject g0 k0 (Sem [] cn) fl)
    by (intros; unfold en_obj; rewrite En; reflexivity).
  rewrite Eobj. cbn [obj_sem obj_flags].
  rewrite !check_true by (unfold en_flags; rewrite ?En, ?Ez; reflexivity). cbn [mbind option_bind].
  rewrite (own_spec c (l ++ [e]) cnt e H He). cbn [mbind option_bind owned set_obj oc_objs].
  rewrite lookup_insert_eq. cbn [mbind option_bind]. rewrite Eobj. cbn [obj_flags].
  replace (flags_are OC_FLAG_LAZYWRITE 0 (Z.ldiff (en_flags e) OC_FLAG_INLRU)) with false
    by (unfold en_flags; rewrite En, Ez; reflexivity).
  eexists. split; [reflexivity|].
  destruct (out_intro c (l ++ [e]) cnt e (oc_mk false false true) H He) as [H1 H2 H3 H4 H5 H6 H7]; [congruence|].
  rewrite filter_last in * by exact Hd. split; try assumption; cbn in *.
  - intros e' He'. rewrite <- (H5 e' He'). destruct (decide (en_id e' = en_id e)) as [->|Hne].
    + rewrite !lookup_insert_eq. rewrite <- H6, lookup_insert_eq. rewrite Eobj. reflexivity.
    + rewrite !lookup_insert_ne by congruence. reflexivity.
  - rewrite lookup_insert_eq, Eobj. reflexivity.
Qed.

Lemma get_miss t g k c l cnt e :
  cache_rep c (l ++ [e]) cnt -> List.find (has_name g k) (l ++ [e]) = None ->
  Z.of_nat (length (l ++ [e])) <= cnt < 2 ^ 31 - 1 ->
  exists r c', chCacheGetObject t g k c = Some r /\
    oc_finish 1 t g k r = Some (c', en_id e, if en_lazy e then match en_name e with Some n => [n] | None => [] end else []) /\
    cache_out c' l (Entry (en_id e) (Some (g, k)) false) (oc_mk true false false) (cnt - 1).
Proof.
  intros H Ef Hcnt. pose proof (find_spec g k (l ++ [e])) as Hf. rewrite Ef in Hf.
  assert (Hnew : forall e', e' ∈ l -> en_name e' <> Some (g, k)) by (intros e' He'; apply Hf, elem_of_app; auto).
  rewrite length_app in Hcnt. cbn [length] in Hcnt.
  unfold chCacheGetObject. rewrite (hash_get_spec c _ cnt g k H), Ef. cbn [mbind option_bind fmap option_fmap option_map].
  assert (Hwait : forall c0 m, oc_lru_sem c0 = Sem [] m -> 0 < m < 2 ^ 31 ->
    lru_get_last_s t g k c0 = (r ← lru_take (set_lru_sem (Sem [] (m - 1)) c0); oc_named g k r)).
  { intros c0 m E0 Hm. unfold lru_get_last_s. rewrite E0, sem_wait_free by exact Hm. reflexivity. }
  rewrite (Hwait c cnt (cr_sem _ _ _ H)) by lia.
  pose proof (rep_sem c _ cnt (cnt - 1) H) as H1. destruct (en_lazy e) eqn:Ez.
  - destruct (take_lazy _ _ _ _ H1 Ez) as (c1 & -> & Ho1). cbn [mbind option_bind oc_named].
    destruct (release_out c1 l e false false true (cnt - 1) Ho1) as (c2 & ev & E2 & H2); [lia|].
    replace (cnt - 1 + 1) with cnt in H2 by lia. cbn [put_entry] in H2.
    pose proof (rep_sem c2 _ cnt (cnt - 1) H2) as H3.
    destruct (take_clean g k _ _ _ _ H3 eq_refl Hnew) as (c3 & E3 & Ho3).
    do 2 eexists. split; [reflexivity|]. split; [|exact Ho3]. cbn [oc_finish].
    rewrite (co_obj _ _ _ _ _ Ho1). cbn [mbind option_bind]. unfold chCacheReleaseObject. rewrite E2.
    cbn [mbind option_bind]. rewrite (Hwait c2 cnt (cr_sem _ _ _ H2)) by lia. cbn [en_id] in E3. rewrite E3. cbn.
    assert (Hn : en_name e <> None) by (apply (co_name _ _ _ _ _ Ho1)).
    unfold en_obj. destruct (en_name e) as [[g0 k0]|]; [|contradiction]. reflexivity.
  - destruct (take_clean g k _ _ _ _ H1 Ez Hnew) as (c1 & E1 & Ho1).
    rewrite E1. do 2 eexists. split; [reflexivity|]. split; [reflexivity|exact Ho1].
Qed.

Lemma get_spec t g k c l cnt :
  cache_rep c l cnt -> l <> [] -> Z.of_nat (length l) <= cnt < 2 ^ 31 - 1 ->
  exists r c' e l' new ws cnt', chCacheGetObject t g k c = Some r /\
    oc_finish 1 t g k r = Some (c', en_id e, ws) /\ spec_get g k l = Some (e, l', new, ws) /\
    cache_out c' l' e (oc_mk new (en_lazy e) false) cnt' /\ en_name e = Some (g, k) /\
    S (length l') = length l /\ Z.of_nat (length l) <= cnt' + 1 /\ cnt' <= cnt.
Proof.
  intros H Hl Hcnt. unfold spec_get. pose proof (find_spec g k l) as Hf.
  destruct (List.find (has_name g k) l) as [e|] eqn:Ef.
  - destruct (get_hit t g k c l cnt e H Ef) as (c' & E & Hout). destruct Hf as [He En].
    exists (c', OcGot (en_id e)), c', e. do 2 eexists. exists [], cnt.
    split; [exact E|]. split; [reflexivity|]. split; [reflexivity|]. split; [exact Hout|]. split; [exact En|].
    assert (Hp : S (length (filter (fun e' => en_id e' <> en_id e) l)) = length l); [|lia].
    rewrite <- (length_fmap en_id l), <- (length_fmap en_id (filter _ l)), <- fmap_filter_id.
    symmetry. apply filter_length_nodup; [apply (cr_dist _ _ _ H)|apply list_elem_of_fmap; eauto].
  - destruct l as [|e0 l0] using rev_ind; [contradiction|]. clear IHl0.
    destruct (get_miss t g k c l0 cnt e0 H Ef Hcnt) as (r & c' & E & Efin & Hout).
    rewrite last_snoc, removelast_last. cbn [mbind option_bind].
    exists r, c', (Entry (en_id e0) (Some (g, k)) false). do 3 eexists. exists (cnt - 1). split; [exact E|]. split; [exact Efin|]. split; [reflexivity|].
    split; [exact Hout|]. split; [reflexivity|]. rewrite length_app in *. cbn [length] in *. lia.
Qed.

Lemma out_flags c l e f f' cnt :
  cache_out c l e f cnt -> cache_out (set_obj (en_id e) (with_flags f' (en_obj 0 f e)) c) l e f' cnt.
Proof.
  intros [H1 H2 H3 H4 H5 H6 H7]. split; try assumption; cbn.
  - intros e' He'. rewrite lookup_insert_ne; [auto|]. intros Eq. destruct H3 as (Hnd & _). cbn in Hnd.
    apply NoDup_cons in Hnd as [Hin _]. apply Hin. rewrite Eq. apply list_elem_of_fmap. eauto.
  - rewrite lookup_insert_eq. unfold en_obj. destruct (default (0, 0) (en_name e)). reflexivity.
Qed.

Lemma use_spec t u c l cnt :
  cache_rep c l cnt -> l <> [] -> Z.of_nat (length l) <= cnt < 2 ^ 31 - 1 ->
  exists c' l' x cnt', cache_use t u c = Some (c', x) /\ spec_use u l = Some (l', x) /\
    cache_rep c' l' cnt' /\ length l' = length l /\ Z.of_nat (length l) <= cnt' <= cnt + 1.
Proof.
  intros H Hl Hcnt.
  destruct (get_spec t (u_group u) (u_key u) c l cnt H Hl Hcnt)
    as (r & c1 & e & l1 & new & ws & cnt1 & E1 & E2 & E3 & Hout & En & Hlen & Hc1 & Hc2).
  unfold cache_use, spec_use. rewrite E1. cbn [mbind option_bind]. rewrite E2, E3. cbn [mbind option_bind].
  rewrite (co_obj _ _ _ _ _ Hout). cbn [mbind option_bind].
  assert (Eo : en_obj 0 (oc_mk new (en_lazy e) false) e = OcObject (u_group u) (u_key u) (Sem [] 0) (oc_mk new (en_lazy e) false))
    by (unfold en_obj; rewrite En; reflexivity).
  pose proof (out_flags c1 l1 e _ (oc_mk (u_notsync u) (en_lazy e || u_lazy u) (u_forget u)) cnt1 Hout) as Hout'.
  rewrite Eo in *. cbn [obj_flags obj_group obj_key].
  replace (user_flags u (oc_mk new (en_lazy e) false)) with (oc_mk (u_notsync u) (en_lazy e || u_lazy u) (u_forget u))
    by (unfold user_flags; destruct new, (en_lazy e), (u_notsync u), (u_lazy u), (u_forget u); reflexivity).
  destruct (release_out _ _ _ _ _ _ _ Hout') as (c2 & ev & E4 & H2); [lia|].
  unfold chCacheReleaseObject. rewrite E4. cbn [mbind option_bind].
  exists c2. do 2 eexists. exists (cnt1 + 1). split; [reflexivity|]. split; [|split; [exact H2|]].
  - unfold spec_put, put_entry. destruct new, (en_lazy e), (u_notsync u); reflexivity.
  - split; [|lia]. unfold put_entry.
    destruct (u_notsync u), (u_forget u); rewrite ?length_app; cbn [length]; lia.
Qed.

Lemma uses_spec t us : forall c l cnt,
  cache_rep c l cnt -> l <> [] -> Z.of_nat (length l) <= cnt -> cnt + Z.of_nat (length us) < 2 ^ 31 - 1 ->
  exists c' l' xs, cache_uses t us c = Some (c', xs) /\ spec_uses us l = Some (l', xs).
Proof.
  induction us as [|u us IH]; intros c l cnt H Hl Hcnt Hb; cbn [cache_uses spec_uses]; [eauto|]. cbn [length] in Hb.
  destruct (use_spec t u c l cnt H Hl) as (c1 & l1 & x & cnt1 & -> & -> & H1 & Hlen & Hc1); [lia|]. cbn [mbind option_bind].
  destruct (IH c1 l1 cnt1 H1) as (c2 & l2 & xs & -> & ->); try lia; [|cbn; eauto].
  intros ->. destruct l; [contradiction|discriminate].
Qed.

(** *** The start *)

Definition oc_start (n : nat) : list oc_entry := (fun i => Entry i None false) <$> rev (seq 0 n).

Lemma oc_init_lru n : forall k c,
  oc_lru (oc_init_objs n k c) = rev (seq k n) ++ oc_lru c /\ oc_lru_sem (oc_init_objs n k c) = oc_lru_sem c /\
  oc_hashn (oc_init_objs n k c) = oc_hashn c /\ oc_hashp (oc_init_objs n k c) = oc_hashp c /\
  (forall i, (k <= i < k + n)%nat -> oc_objs (oc_init_objs n k c) !! i = Some (OcObject 0 0 (Sem [] 1) OC_FLAG_INLRU)) /\
  (forall i, (i < k)%nat -> oc_objs (oc_init_objs n k c) !! i = oc_objs c !! i).
Proof.
  induction n as [|n IH]; intros k c; cbn [oc_init_objs seq rev]; [split_and!; auto; lia|].
  edestruct (IH (S k)) as (E1 & E2 & E3 & E4 & E5 & E6). rewrite E1, E2, E3, E4. cbn.
  split_and!; auto.
  - rewrite <- app_assoc. reflexivity.
  - intros i Hi. destruct (decide (i = k)) as [->|Hne]; [|apply E5; lia].
    rewrite E6 by lia. cbn. apply lookup_insert_eq.
  - intros i Hi. rewrite E6 by lia. cbn. apply lookup_insert_ne. lia.
Qed.

Lemma cache_init_rep hashn objn :
  Z.land hashn (hashn - 1) = 0 -> 0 < objn <= hashn -> hashn <= 2 ^ 31 -> objn < 2 ^ 31 ->
  exists c, chCacheObjectInit hashn objn = Some c /\ cache_rep c (oc_start (Z.to_nat objn)) objn.
Proof.
  intros Hp Ho Hh Hlt. unfold chCacheObjectInit.
  rewrite check_true by (rewrite !andb_true_iff, Z.eqb_eq, Z.ltb_lt, Z.leb_le; lia). cbn [mbind option_bind].
  unfold chSemObjectInit. rewrite check_true by (apply Z.leb_le; lia). cbn [mbind option_bind].
  eexists. split; [reflexivity|].
  destruct (oc_init_lru (Z.to_nat objn) 0 (Cache hashn (replicate (Z.to_nat hashn) []) ∅ [] (Sem chThdQueueObjectInit objn)))
    as (E1 & E2 & E3 & E4 & E5 & _).
  assert (Hids : en_id <$> oc_start (Z.to_nat objn) = rev (seq 0 (Z.to_nat objn)))
    by (unfold oc_start; rewrite <- list_fmap_compose; apply list_fmap_id).
  assert (Hin : forall e, e ∈ oc_start (Z.to_nat objn) -> en_name e = None /\ en_lazy e = false /\ (en_id e < Z.to_nat objn)%nat).
  { intros e He. apply list_elem_of_fmap in He as (i & -> & Hi). cbn. split_and!; auto.
    apply list_elem_of_In, in_rev, in_seq in Hi. lia. }
  split.
  - rewrite E1, app_nil_r, Hids. reflexivity.
  - rewrite E2. reflexivity.
  - split_and!.
    + rewrite Hids. apply NoDup_ListNoDup, NoDup_rev, NoDup_ListNoDup, NoDup_seq.
    + intros e e' He He' _ Hne. apply Hin in He as (Hn & _). congruence.
    + intros e He Hz. apply Hin in He as (_ & Hn & _). congruence.
  - intros e He. destruct (Hin e He) as (Hn & Hz & Hi). rewrite E5 by lia. unfold en_obj, en_flags. rewrite Hn, Hz. reflexivity.
  - unfold slot_ok. rewrite E3, E4. cbn. rewrite length_replicate. split_and!; try lia.
    intros b slot E i. apply lookup_replicate in E as [-> _]. split; [intros Hi; inversion Hi|].
    intros (e & g & k & He & _ & Hn & _). apply Hin in He as (He & _). congruence.
Qed.

(** C28: for one user at a time a cache implements buffers in the order of their last use:
    through any sequence of uses no assertion fails and no call waits; an object
    that is in the cache is found, otherwise the buffer used least recently (or
    given up) is reused and its data has to be read; and a buffer with a write due is
    written before it is reused, under its name. *)
Theorem cache_refines_lru (hashn objn : Z) (t : nat) (us : list oc_use) :
  Z.land hashn (hashn - 1) = 0 -> 0 < objn <= hashn -> hashn <= 2 ^ 31 ->
  objn + Z.of_nat (length us) < 2 ^ 31 - 1 ->
  exists c0 c l xs, chCacheObjectInit hashn objn = Some c0 /\ cache_uses t us c0 = Some (c, xs) /\
    spec_uses us (oc_start (Z.to_nat objn)) = Some (l, xs).
Proof.
  intros Hp Ho Hh Hb. destruct (cache_init_rep hashn objn Hp Ho Hh) as (c0 & E0 & H0); [lia|].
  assert (Hlen : length (oc_start (Z.to_nat objn)) = Z.to_nat objn)
    by (unfold oc_start; rewrite length_fmap, length_rev, length_seq; reflexivity).
  destruct (uses_spec t us c0 _ _ H0) as (c & l & xs & E1 & E2); try lia.
  - intros E. rewrite E in Hlen. cbn in Hlen. lia.
  - exists c0, c, l, xs. auto.
Qed.

Definition cache_demo : list oc_use :=
  [Use 1 7 false true false; Use 2 7 false false false; Use 3 7 false false false; Use 2 7 false true true;
   Use 4 7 true false false; Use 3 7 false false false; Use 1 7 false false false].

Lemma cache_refines_lru_witness :
  exists c0 c l xs, chCacheObjectInit 2 2 = Some c0 /\ cache_uses 1 cache_demo c0 = Some (c, xs) /\
    spec_uses cache_demo (oc_start 2) = Some (l, xs).
Proof. apply (cache_refines_lru 2 2 1 cache_demo); [reflexivity|lia|lia|cbn; lia]. Defined.

(** What the uses show: new, new, the first written and replaced, a hit, the second
    written, a hit, the first again and its data to be read again. *)
Lemma cache_demo_shows :
  snd <$> spec_uses cache_demo (oc_start 2) =
  Some [(0%nat, (1, 7), true, []); (1%nat, (2, 7), true, []); (0%nat, (3, 7), true, [(1, 7)]);
        (1%nat, (2, 7), false, []); (1%nat, (4, 7), true, [(2, 7)]); (0%nat, (3, 7), false, []);
        (1%nat, (1, 7), true, [])].
Proof. vm_compute. reflexivity. Qed.

(** *** Several users *)

Definition cache_sys0 (hashn objn : Z) : cache_sys :=
  CSys (default (Cache 0 [] ∅ [] (Sem [] 0)) (chCacheObjectInit hashn objn)) ∅ [].

(** A get that finds its object in the LRU list takes the object but no permit of the
    list's semaphore, and the release gives one back.  Thereafter a get that misses
    while all objects are out passes the semaphore and takes an object from the
    empty list. *)
Theorem cache_hit_leaks_permit :
  exists es s, cache_run es (cache_sys0 1 1) = Some s /\
    oc_lru (cs_cache s) = [] /\ sem_cnt (oc_lru_sem (cs_cache s)) = 1 /\ cs_got s = [(1%nat, 0%nat)] /\
    cache_step (CvGet 2 0 2) s = None.
Proof.
  exists [CvGet 1 0 1; CvFlags 0 OC_FLAG_INHASH; CvRelease 0; CvGet 1 0 1].
  eexists. split; [vm_compute; reflexivity|]. repeat split; reflexivity.
Qed.

(** Two threads that wait for a buffer for the same object get one each: the cache
    then holds the object twice. *)
Theorem cache_duplicates_object :
  exists es s i j, cache_run es (cache_sys0 2 2) = Some s /\ i <> j /\ cs_got s = [(4%nat, i); (3%nat, j)] /\
    forall x, x = i \/ x = j -> obj_key <$> oc_objs (cs_cache s) !! x = Some 3.
Proof.
  exists [CvGet 1 0 1; CvGet 2 0 2; CvGet 3 0 3; CvGet 4 0 3; CvFlags 0 OC_FLAG_INHASH; CvFlags 1 OC_FLAG_INHASH;
          CvRelease 0; CvRelease 1; CvRun 3; CvRun 4].
  eexists. exists 1%nat, 0%nat. split; [vm_compute; reflexivity|]. split; [discriminate|]. split; [reflexivity|].
  intros x [->| ->]; reflexivity.
Qed.
