(* ===== verification/Factory.v ===== *)
(** * Factory of named objects (chfactory.c)

    Objects with names and reference counts, kept in one linked list per kind; the
    elements come from a memory pool or from the heap.  The list operations are
    those of the source on pointers: an element is known by its address, the list
    header is an address too, and an element that has been given back is no longer
    in the store, so that an access to it is undefined.  [Allocator] is what the
    factory uses of a pool or a heap, [AllocatorLaws] what it relies on; the pool
    is shown to satisfy it.  The factory's mutex makes each operation one step, but
    for the part of [chFactoryFindObjectByPointer] that comes before it. *)

From stdpp Require Import gmap.
From S2P Require Import Prelude CInt CLib Threads Memcore Heap Semaphores Mailboxes Mempools ObjFifos Pipes.
#[local] Open Scope Z_scope.

(** ** Memory for elements *)

Class Allocator (S : Type) := {
  al_alloc : S -> option (S * Z);
  al_free : Z -> S -> option S
}.

Definition pool_state : Type := memory_pool_t * pool_mem.

#[export] Instance pool_allocator : Allocator pool_state := {
  al_alloc := fun s => '(mp, m, p) ← chPoolAlloc (fst s) (snd s); Some ((mp, m), p);
  al_free := fun p s => chPoolFree p (fst s) (snd s)
}.

(** The default heap, for objects of one size and alignment. *)
Definition heap_allocator (heapp : memory_heap_t) (size align : Z) : Allocator heap_state := {|
  al_alloc := chHeapAllocAligned heapp size align;
  al_free := chHeapFree
|}.

(** ** Lists of named elements *)

Definition CH_CFG_FACTORY_MAX_NAMES_LENGTH : nat := 8.

Record dyn_element_t (P : Type) := DynElement {
  de_next : Z;
  de_refs : Z;
  de_name : list Z;
  de_object : option P
}.
Arguments DynElement {P}.
Arguments de_next {P}.
Arguments de_refs {P}.
Arguments de_name {P}.
Arguments de_object {P}.

(** The address of the header, its pointer, and the elements. *)
Record dyn_list_t (P : Type) := DynList { dl_head : Z; dl_next : Z; dl_elems : gmap Z (dyn_element_t P) }.
Arguments DynList {P}.
Arguments dl_head {P}.
Arguments dl_next {P}.
Arguments dl_elems {P}.

(** At most eight bytes are copied, the last of them a NUL if there is one; the cells
    behind keep what they held. *)
Fixpoint copy_bytes (n : nat) (sp dp : list Z) : option (list Z) :=
  match n with
  | O => Some dp
  | S n =>
      match sp, dp with
      | c :: sp, _ :: dp => if c =? 0 then Some (c :: dp) else dp ← copy_bytes n sp dp; Some (c :: dp)
      | _, _ => None
      end
  end.
Definition copy_name (sp dp : list Z) : option (list Z) := copy_bytes CH_CFG_FACTORY_MAX_NAMES_LENGTH sp dp.

Section Lists.
Context {P S : Type}.

Definition dyn_list_init (head : Z) : dyn_list_t P := DynList head head ∅.

Definition set_elem (p : Z) (e : dyn_element_t P) (dlp : dyn_list_t P) : dyn_list_t P :=
  DynList (dl_head dlp) (dl_next dlp) (<[p := e]> (dl_elems dlp)).
Definition with_next (next : Z) (e : dyn_element_t P) : dyn_element_t P :=
  DynElement next (de_refs e) (de_name e) (de_object e).
Definition with_refs (refs : Z) (e : dyn_element_t P) : dyn_element_t P :=
  DynElement (de_next e) refs (de_name e) (de_object e).
Definition with_object (x : P) (e : dyn_element_t P) : dyn_element_t P :=
  DynElement (de_next e) (de_refs e) (de_name e) (Some x).

(** The address of the element with the name, from [p] on; 0 for none. *)
Fixpoint dyn_find_from (fuel : nat) (name : list Z) (p : Z) (dlp : dyn_list_t P) : option Z :=
  match fuel with
  | O => None
  | Datatypes.S fuel =>
      if p =? dl_head dlp then Some 0
      else
        e ← dl_elems dlp !! p;
        same ← strncmp_eq (de_name e) name CH_CFG_FACTORY_MAX_NAMES_LENGTH;
        if (same : bool) then Some p else dyn_find_from fuel name (de_next e) dlp
  end.

Definition dyn_fuel (dlp : dyn_list_t P) : nat := Datatypes.S (base.size (dl_elems dlp)).

Definition dyn_list_find (name : list Z) (dlp : dyn_list_t P) : option Z :=
  dyn_find_from (dyn_fuel dlp) name (dl_next dlp) dlp.

(** The pointer [prev->next], and its assignment: [prev] is the header or an
    element. *)
Definition next_of (prev : Z) (dlp : dyn_list_t P) : option Z :=
  if prev =? dl_head dlp then Some (dl_next dlp) else de_next <$> dl_elems dlp !! prev.
Definition set_next (prev next : Z) (dlp : dyn_list_t P) : option (dyn_list_t P) :=
  if prev =? dl_head dlp then Some (DynList (dl_head dlp) next (dl_elems dlp))
  else e ← dl_elems dlp !! prev; Some (set_elem prev (with_next next e) dlp).

(** The element unlinked, or 0 when it is not in the list. *)
Fixpoint dyn_unlink_from (fuel : nat) (element prev : Z) (dlp : dyn_list_t P) : option (dyn_list_t P * Z) :=
  match fuel with
  | O => None
  | Datatypes.S fuel =>
      next ← next_of prev dlp;
      if next =? dl_head dlp then Some (dlp, 0)
      else if next =? element then
        e ← dl_elems dlp !! element;
        dlp ← set_next prev (de_next e) dlp; Some (dlp, element)
      else dyn_unlink_from fuel element next dlp
  end.

Definition dyn_list_unlink (element : Z) (dlp : dyn_list_t P) : option (dyn_list_t P * Z) :=
  dyn_unlink_from (dyn_fuel dlp) element (dl_head dlp) dlp.

(** [dyn_create_object_heap] and [dyn_create_object_pool]: [cells] is what the memory
    of the name held before. *)
Definition dyn_create_object `{Allocator S} (name cells : list Z) (dlp : dyn_list_t P) (s : S)
  : option (dyn_list_t P * S * Z) :=
  dep ← dyn_list_find name dlp;
  if negb (dep =? 0) then Some (dlp, s, 0)
  else
    '(s, dep) ← al_alloc s;
    if dep =? 0 then Some (dlp, s, 0)
    else
      cells ← copy_name name cells;
      let e := DynElement (dl_next dlp) 1 cells None in
      Some (DynList (dl_head dlp) dep (<[dep := e]> (dl_elems dlp)), s, dep).

(** [dyn_release_object_heap] and [dyn_release_object_pool]: the element given back
    leaves the store. *)
Definition dyn_release_object `{Allocator S} (dep : Z) (dlp : dyn_list_t P) (s : S)
  : option (dyn_list_t P * S) :=
  _ ← check (negb (dep =? 0));
  e ← dl_elems dlp !! dep;
  _ ← check (0 <? de_refs e);
  let refs := de_refs e - 1 in
  let dlp := set_elem dep (with_refs refs e) dlp in
  if refs =? 0 then
    '(dlp, dep) ← dyn_list_unlink dep dlp;
    s ← al_free dep s;
    Some (DynList (dl_head dlp) (dl_next dlp) (delete dep (dl_elems dlp)), s)
  else Some (dlp, s).

(** One more reference to an element. *)
Definition dyn_reference (dep : Z) (dlp : dyn_list_t P) : option (dyn_list_t P) :=
  e ← dl_elems dlp !! dep; Some (set_elem dep (with_refs (u32 (de_refs e + 1)) e) dlp).

Definition dyn_find_object (name : list Z) (dlp : dyn_list_t P) : option (dyn_list_t P * Z) :=
  dep ← dyn_list_find name dlp;
  if negb (dep =? 0) then dlp ← dyn_reference dep dlp; Some (dlp, dep) else Some (dlp, dep).

(** The object part of a new element is initialised. *)
Definition dyn_set_object (dep : Z) (x : P) (dlp : dyn_list_t P) : option (dyn_list_t P) :=
  if dep =? 0 then Some dlp
  else e ← dl_elems dlp !! dep; Some (set_elem dep (with_object x e) dlp).

End Lists.

(** ** The factory *)

(** Sizes of the elements on the target. *)
Definition sizeof_dyn_element : Z := 16.
Definition sizeof_registered_object : Z := 20.
Definition sizeof_dyn_semaphore : Z := 28.
Definition sizeof_dyn_mailbox : Z := 56.
Definition sizeof_dyn_objects_fifo : Z := 84.
Definition sizeof_dyn_pipe : Z := 96.
Definition sizeof_msg : Z := 4.

Record objects_factory_t := Factory {
  f_obj_list : dyn_list_t Z;
  f_obj_pool : memory_pool_t;
  f_buf_list : dyn_list_t (list Z);
  f_sem_list : dyn_list_t semaphore_t;
  f_sem_pool : memory_pool_t;
  f_mbx_list : dyn_list_t mailbox_t;
  f_fifo_list : dyn_list_t objects_fifo_t;
  f_pipe_list : dyn_list_t pipe_t;
  f_mem : pool_mem;
  f_heapp : memory_heap_t;
  f_heap : heap_state
}.

Definition with_objs (l : dyn_list_t Z) (s : pool_state) (f : objects_factory_t) : objects_factory_t :=
  Factory l (fst s) (f_buf_list f) (f_sem_list f) (f_sem_pool f) (f_mbx_list f) (f_fifo_list f) (f_pipe_list f)
    (snd s) (f_heapp f) (f_heap f).
Definition with_sems (l : dyn_list_t semaphore_t) (s : pool_state) (f : objects_factory_t) : objects_factory_t :=
  Factory (f_obj_list f) (f_obj_pool f) (f_buf_list f) l (fst s) (f_mbx_list f) (f_fifo_list f) (f_pipe_list f)
    (snd s) (f_heapp f) (f_heap f).
Definition with_bufs (l : dyn_list_t (list Z)) (h : heap_state) (f : objects_factory_t) : objects_factory_t :=
  Factory (f_obj_list f) (f_obj_pool f) l (f_sem_list f) (f_sem_pool f) (f_mbx_list f) (f_fifo_list f)
    (f_pipe_list f) (f_mem f) (f_heapp f) h.
Definition with_mbxs (l : dyn_list_t mailbox_t) (h : heap_state) (f : objects_factory_t) : objects_factory_t :=
  Factory (f_obj_list f) (f_obj_pool f) (f_buf_list f) (f_sem_list f) (f_sem_pool f) l (f_fifo_list f)
    (f_pipe_list f) (f_mem f) (f_heapp f) h.
Definition with_fifos (l : dyn_list_t objects_fifo_t) (m : pool_mem) (h : heap_state) (f : objects_factory_t)
  : objects_factory_t :=
  Factory (f_obj_list f) (f_obj_pool f) (f_buf_list f) (f_sem_list f) (f_sem_pool f) (f_mbx_list f) l
    (f_pipe_list f) m (f_heapp f) h.
Definition with_pipes (l : dyn_list_t pipe_t) (h : heap_state) (f : objects_factory_t) : objects_factory_t :=
  Factory (f_obj_list f) (f_obj_pool f) (f_buf_list f) (f_sem_list f) (f_sem_pool f) (f_mbx_list f)
    (f_fifo_list f) l (f_mem f) (f_heapp f) h.

(** [__factory_init]; [heads] are the addresses of the six list headers. *)
Definition factory_init (heads : nat -> Z) (m : pool_mem) (heapp : memory_heap_t) (h : heap_state)
  : option objects_factory_t :=
  op ← chPoolObjectInit sizeof_registered_object true;
  sp ← chPoolObjectInit sizeof_dyn_semaphore true;
  Some (Factory (dyn_list_init (heads 0%nat)) op (dyn_list_init (heads 1%nat)) (dyn_list_init (heads 2%nat)) sp
    (dyn_list_init (heads 3%nat)) (dyn_list_init (heads 4%nat)) (dyn_list_init (heads 5%nat)) m heapp h).

(** *** Registered objects *)

Definition obj_state (f : objects_factory_t) : pool_state := (f_obj_pool f, f_mem f).

Definition chFactoryRegisterObject (name cells : list Z) (objp : Z) (f : objects_factory_t)
  : option (objects_factory_t * Z) :=
  '(l, s, rop) ← dyn_create_object name cells (f_obj_list f) (obj_state f);
  l ← dyn_set_object rop objp l;
  Some (with_objs l s f, rop).

Definition chFactoryFindObject (name : list Z) (f : objects_factory_t) : option (objects_factory_t * Z) :=
  '(l, rop) ← dyn_find_object name (f_obj_list f); Some (with_objs l (obj_state f) f, rop).

(** The pointer read before the mutex is locked, and the scan from it. *)
Definition find_by_pointer_start (f : objects_factory_t) : Z := dl_next (f_obj_list f).

Fixpoint scan_by_pointer (fuel : nat) (objp rop : Z) (l : dyn_list_t Z) : option (dyn_list_t Z * Z) :=
  match fuel with
  | O => None
  | S fuel =>
      if rop =? dl_head l then Some (l, 0)
      else
        e ← dl_elems l !! rop;
        if bool_decide (de_object e = Some objp) then l ← dyn_reference rop l; Some (l, rop)
        else scan_by_pointer fuel objp (de_next e) l
  end.

Definition chFactoryFindObjectByPointer (objp start : Z) (f : objects_factory_t) : option (objects_factory_t * Z) :=
  '(l, rop) ← scan_by_pointer (dyn_fuel (f_obj_list f)) objp start (f_obj_list f);
  Some (with_objs l (obj_state f) f, rop).

Definition chFactoryReleaseObject (rop : Z) (f : objects_factory_t) : option objects_factory_t :=
  '(l, s) ← dyn_release_object rop (f_obj_list f) (obj_state f); Some (with_objs l s f).

Definition chFactoryGetObject (rop : Z) (f : objects_factory_t) : option Z :=
  e ← dl_elems (f_obj_list f) !! rop; de_object e.

(** [chFactoryDuplicateReference], of a registered object. *)
Definition chFactoryDuplicateReference (rop : Z) (f : objects_factory_t) : option objects_factory_t :=
  l ← dyn_reference rop (f_obj_list f); Some (with_objs l (obj_state f) f).

(** *** Semaphores *)

Definition sem_state (f : objects_factory_t) : pool_state := (f_sem_pool f, f_mem f).

Definition chFactoryCreateSemaphore (name cells : list Z) (n : Z) (f : objects_factory_t)
  : option (objects_factory_t * Z) :=
  '(l, s, dsp) ← dyn_create_object name cells (f_sem_list f) (sem_state f);
  if dsp =? 0 then Some (with_sems l s f, dsp)
  else
    sem ← chSemObjectInit n;
    l ← dyn_set_object dsp sem l;
    Some (with_sems l s f, dsp).

Definition chFactoryFindSemaphore (name : list Z) (f : objects_factory_t) : option (objects_factory_t * Z) :=
  '(l, dsp) ← dyn_find_object name (f_sem_list f); Some (with_sems l (sem_state f) f, dsp).

Definition chFactoryReleaseSemaphore (dsp : Z) (f : objects_factory_t) : option objects_factory_t :=
  '(l, s) ← dyn_release_object dsp (f_sem_list f) (sem_state f); Some (with_sems l s f).

Definition chFactoryGetSemaphore (dsp : Z) (f : objects_factory_t) : option semaphore_t :=
  e ← dl_elems (f_sem_list f) !! dsp; de_object e.

(** *** Buffers *)

Definition chFactoryCreateBuffer (name cells : list Z) (size : Z) (f : objects_factory_t)
  : option (objects_factory_t * Z) :=
  '(l, h, dbp) ← dyn_create_object (H := heap_allocator (f_heapp f) (u32 (sizeof_dyn_element + size)) CH_HEAP_ALIGNMENT)
                   name cells (f_buf_list f) (f_heap f);
  l ← dyn_set_object dbp (replicate (Z.to_nat size) 0) l;
  Some (with_bufs l h f, dbp).

Definition chFactoryFindBuffer (name : list Z) (f : objects_factory_t) : option (objects_factory_t * Z) :=
  '(l, dbp) ← dyn_find_object name (f_buf_list f); Some (with_bufs l (f_heap f) f, dbp).

Definition chFactoryReleaseBuffer (dbp : Z) (f : objects_factory_t) : option objects_factory_t :=
  '(l, h) ← dyn_release_object (H := heap_allocator (f_heapp f) 0 CH_HEAP_ALIGNMENT) dbp (f_buf_list f) (f_heap f);
  Some (with_bufs l h f).

Definition chFactoryGetBufferSize (dbp : Z) (f : objects_factory_t) : option Z :=
  n ← chHeapGetSize dbp (h_mem (f_heap f)); Some (u32 (n - sizeof_dyn_element)).

Definition chFactoryGetBuffer (dbp : Z) (f : objects_factory_t) : option (list Z) :=
  e ← dl_elems (f_buf_list f) !! dbp; de_object e.

(** *** Mailboxes; [msgs] is what their memory held before. *)

Definition chFactoryCreateMailbox (name cells msgs : list Z) (n : Z) (f : objects_factory_t)
  : option (objects_factory_t * Z) :=
  '(l, h, dmp) ← dyn_create_object (H := heap_allocator (f_heapp f) (u32 (sizeof_dyn_mailbox + u32 (n * sizeof_msg))) CH_HEAP_ALIGNMENT)
                   name cells (f_mbx_list f) (f_heap f);
  if dmp =? 0 then Some (with_mbxs l h f, dmp)
  else
    mbx ← chMBObjectInit (take (Z.to_nat n) msgs);
    l ← dyn_set_object dmp mbx l;
    Some (with_mbxs l h f, dmp).

Definition chFactoryFindMailbox (name : list Z) (f : objects_factory_t) : option (objects_factory_t * Z) :=
  '(l, dmp) ← dyn_find_object name (f_mbx_list f); Some (with_mbxs l (f_heap f) f, dmp).

Definition chFactoryReleaseMailbox (dmp : Z) (f : objects_factory_t) : option objects_factory_t :=
  '(l, h) ← dyn_release_object (H := heap_allocator (f_heapp f) 0 CH_HEAP_ALIGNMENT) dmp (f_mbx_list f) (f_heap f);
  Some (with_mbxs l h f).

Definition chFactoryGetMailbox (dmp : Z) (f : objects_factory_t) : option mailbox_t :=
  e ← dl_elems (f_mbx_list f) !! dmp; de_object e.

(** *** Objects FIFOs *)

Definition chFactoryCreateObjectsFIFO (name cells msgs : list Z) (objsize objn objalign : Z) (f : objects_factory_t)
  : option (objects_factory_t * Z) :=
  let objsize := MEM_ALIGN_NEXT objsize objalign in
  let size1 := MEM_ALIGN_NEXT (u32 (sizeof_dyn_objects_fifo + u32 (objn * sizeof_msg))) objalign in
  let size2 := u32 (objn * objsize) in
  '(l, h, dofp) ← dyn_create_object (H := heap_allocator (f_heapp f) (u32 (size1 + size2)) objalign)
                    name cells (f_fifo_list f) (f_heap f);
  if dofp =? 0 then Some (with_fifos l (f_mem f) h f, dofp)
  else
    '(fifo, m) ← chFifoObjectInitAligned objsize objn objalign (u32 (dofp + size1)) msgs (f_mem f);
    l ← dyn_set_object dofp fifo l;
    Some (with_fifos l m h f, dofp).

Definition chFactoryFindObjectsFIFO (name : list Z) (f : objects_factory_t) : option (objects_factory_t * Z) :=
  '(l, dofp) ← dyn_find_object name (f_fifo_list f); Some (with_fifos l (f_mem f) (f_heap f) f, dofp).

Definition chFactoryReleaseObjectsFIFO (dofp : Z) (f : objects_factory_t) : option objects_factory_t :=
  '(l, h) ← dyn_release_object (H := heap_allocator (f_heapp f) 0 CH_HEAP_ALIGNMENT) dofp (f_fifo_list f) (f_heap f);
  Some (with_fifos l (f_mem f) h f).

Definition chFactoryGetObjectsFIFO (dofp : Z) (f : objects_factory_t) : option objects_fifo_t :=
  e ← dl_elems (f_fifo_list f) !! dofp; de_object e.

(** *** Pipes *)

Definition chFactoryCreatePipe (name cells buf : list Z) (size : Z) (f : objects_factory_t)
  : option (objects_factory_t * Z) :=
  '(l, h, dpp) ← dyn_create_object (H := heap_allocator (f_heapp f) (u32 (sizeof_dyn_pipe + size)) CH_HEAP_ALIGNMENT)
                   name cells (f_pipe_list f) (f_heap f);
  if dpp =? 0 then Some (with_pipes l h f, dpp)
  else
    pipe ← chPipeObjectInit (take (Z.to_nat size) buf);
    l ← dyn_set_object dpp pipe l;
    Some (with_pipes l h f, dpp).

Definition chFactoryFindPipe (name : list Z) (f : objects_factory_t) : option (objects_factory_t * Z) :=
  '(l, dpp) ← dyn_find_object name (f_pipe_list f); Some (with_pipes l (f_heap f) f, dpp).

Definition chFactoryReleasePipe (dpp : Z) (f : objects_factory_t) : option objects_factory_t :=
  '(l, h) ← dyn_release_object (H := heap_allocator (f_heapp f) 0 CH_HEAP_ALIGNMENT) dpp (f_pipe_list f) (f_heap f);
  Some (with_pipes l h f).

Definition chFactoryGetPipe (dpp : Z) (f : objects_factory_t) : option pipe_t :=
  e ← dl_elems (f_pipe_list f) !! dpp; de_object e.

(** ** Names *)

(** The significant part of a name: the bytes before the NUL, at most [n]. *)
Fixpoint name_key (n : nat) (sp : list Z) : option (list Z) :=
  match n with
  | O => Some []
  | S n =>
      match sp with
      | [] => None
      | c :: sp => if c =? 0 then Some [] else k ← name_key n sp; Some (c :: k)
      end
  end.

Lemma strncmp_key n : forall a b ka kb,
  name_key n a = Some ka -> name_key n b = Some kb -> strncmp_eq a b n = Some (bool_decide (ka = kb)).
Proof.
  induction n as [|n IH]; intros a b ka kb Ha Hb; cbn in Ha, Hb.
  { injection Ha as <-. injection Hb as <-. rewrite bool_decide_eq_true_2 by reflexivity. destruct a, b; reflexivity. }
  destruct a as [|x a], b as [|y b]; try discriminate. cbn [strncmp_eq].
  destruct (Z.eqb_spec x y) as [->|Hne].
  - destruct (y =? 0); [injection Ha as <-; injection Hb as <-; rewrite bool_decide_eq_true_2 by reflexivity; reflexivity|].
    apply bind_Some_inv in Ha as (ka' & Ha & [= <-]), Hb as (kb' & Hb & [= <-]).
    rewrite (IH _ _ _ _ Ha Hb). f_equal. apply bool_decide_ext. split; congruence.
  - rewrite bool_decide_eq_false_2; [reflexivity|]. intros <-.
    destruct (Z.eqb_spec x 0), (Z.eqb_spec y 0); try lia;
      repeat (apply bind_Some_inv in Ha as (? & ? & Ha)); repeat (apply bind_Some_inv in Hb as (? & ? & Hb)); congruence.
Qed.

Lemma copy_key n : forall sp dp k, name_key n sp = Some k -> (n <= length dp)%nat ->
  exists dp', copy_bytes n sp dp = Some dp' /\ name_key n dp' = Some k.
Proof.
  induction n as [|n IH]; intros sp dp k Hk Hl; cbn in *; [eauto|].
  destruct sp as [|c sp]; [discriminate|]. destruct dp as [|d dp]; [cbn in Hl; lia|].
  destruct (c =? 0) eqn:Ec; [injection Hk as <-; eexists; split; [reflexivity|]; cbn; rewrite Ec; reflexivity|].
  apply bind_Some_inv in Hk as (k' & Hk & [= <-]). cbn in Hl.
  destruct (IH sp dp k' Hk) as (dp' & -> & E); [lia|]. cbn. eexists. split; [reflexivity|]. cbn. rewrite Ec, E. reflexivity.
Qed.

(** ** Lists as sequences of entries *)

Record dyn_entry (P : Type) := DynEntry { ne_addr : Z; ne_key : list Z; ne_refs : Z; ne_object : option P }.
Arguments DynEntry {P}.
Arguments ne_addr {P}.
Arguments ne_key {P}.
Arguments ne_refs {P}.
Arguments ne_object {P}.

Section Chains.
Context {P : Type}.
Implicit Types (m : gmap Z (dyn_element_t P)) (dlp : dyn_list_t P) (l : list (dyn_entry P)).

Definition entry_in m (x : dyn_entry P) (next : Z) : Prop :=
  exists e, m !! ne_addr x = Some e /\ de_next e = next /\ de_refs e = ne_refs x /\ de_object e = ne_object x /\
    name_key CH_CFG_FACTORY_MAX_NAMES_LENGTH (de_name e) = Some (ne_key x).

(** The elements linked from [p] to [q]. *)
Fixpoint dseg m (p : Z) (l : list (dyn_entry P)) (q : Z) : Prop :=
  match l with
  | [] => p = q
  | x :: l => p = ne_addr x /\ exists next, entry_in m x next /\ dseg m next l q
  end.

Record dl_rep dlp (l : list (dyn_entry P)) : Prop := {
  dr_seg : dseg (dl_elems dlp) (dl_next dlp) l (dl_head dlp);
  dr_nodup : NoDup (ne_addr <$> l);
  dr_keys : NoDup (ne_key <$> l);
  dr_dom : forall a, is_Some (dl_elems dlp !! a) <-> a ∈ ne_addr <$> l;
  dr_size : base.size (dl_elems dlp) = length l;
  dr_head : forall x, x ∈ l -> ne_addr x <> dl_head dlp /\ ne_addr x <> 0
}.

Lemma entry_update m x next a e :
  ne_addr x <> a -> entry_in m x next -> entry_in (<[a := e]> m) x next.
Proof. intros Hne (e' & E & H). exists e'. rewrite lookup_insert_ne by congruence. auto. Qed.

Lemma dseg_update m p l q a e : a ∉ ne_addr <$> l -> dseg m p l q -> dseg (<[a := e]> m) p l q.
Proof.
  revert p. induction l as [|x l IH]; intros p Ha; cbn; [auto|]. cbn in Ha.
  apply not_elem_of_cons in Ha as [Hx Ha]. intros (Ep & next & Hin & Hs). split; [exact Ep|].
  exists next. split; [apply entry_update; auto|auto].
Qed.

Lemma dseg_delete m p l q a : a ∉ ne_addr <$> l -> dseg m p l q -> dseg (delete a m) p l q.
Proof.
  revert p. induction l as [|x l IH]; intros p Ha; cbn; [auto|]. cbn in Ha.
  apply not_elem_of_cons in Ha as [Hx Ha]. intros (Ep & next & (e & E & H) & Hs). split; [exact Ep|].
  exists next. split; [exists e; rewrite lookup_delete_ne by congruence; auto|auto].
Qed.

Lemma dseg_app m l1 : forall p l2 q, dseg m p (l1 ++ l2) q <-> exists r, dseg m p l1 r /\ dseg m r l2 q.
Proof.
  induction l1 as [|x l1 IH]; intros p l2 q; cbn.
  - split; [eauto|]. intros (r & -> & H). exact H.
  - split.
    + intros (Ep & next & Hin & Hs). apply IH in Hs as (r & H1 & H2). exists r. split; [|exact H2]. eauto.
    + intros (r & (Ep & next & Hin & Hs) & H2). split; [exact Ep|]. exists next. split; [exact Hin|]. apply IH. eauto.
Qed.

(** *** Search *)

Definition find_entry (k : list Z) (l : list (dyn_entry P)) : option (dyn_entry P) :=
  List.find (fun x => bool_decide (ne_key x = k)) l.
Definition addr_of (x : option (dyn_entry P)) : Z := match x with Some x => ne_addr x | None => 0 end.

Lemma find_from_spec dlp name k l : forall fuel p,
  name_key CH_CFG_FACTORY_MAX_NAMES_LENGTH name = Some k ->
  dseg (dl_elems dlp) p l (dl_head dlp) -> (forall x, x ∈ l -> ne_addr x <> dl_head dlp /\ ne_addr x <> 0) ->
  (length l < fuel)%nat -> dyn_find_from fuel name p dlp = Some (addr_of (find_entry k l)).
Proof.
  induction l as [|x l IH]; intros [|fuel] p Hk Hs Hh Hf; cbn [length] in Hf; try lia; cbn [dyn_find_from dseg] in *.
  - rewrite Hs, Z.eqb_refl. reflexivity.
  - destruct Hs as (-> & next & (e & Ee & En & _ & _ & Ek) & Hs).
    rewrite (proj2 (Z.eqb_neq _ _)) by (apply Hh; constructor). rewrite Ee. cbn [mbind option_bind].
    rewrite (strncmp_key _ _ _ _ _ Ek Hk). cbn [mbind option_bind].
    unfold find_entry. cbn [List.find]. destruct (bool_decide (ne_key x = k)); [reflexivity|].
    rewrite En. apply IH; auto; [|lia]. intros y Hy. apply Hh. constructor. exact Hy.
Qed.

Lemma list_find_spec dlp name k l :
  name_key CH_CFG_FACTORY_MAX_NAMES_LENGTH name = Some k -> dl_rep dlp l ->
  dyn_list_find name dlp = Some (addr_of (find_entry k l)).
Proof.
  intros Hk [Hs _ _ _ Hsz Hh]. apply find_from_spec; auto. unfold dyn_fuel. lia.
Qed.

Lemma find_entry_spec k l :
  match find_entry k l with
  | Some x => x ∈ l /\ ne_key x = k
  | None => k ∉ ne_key <$> l
  end.
Proof.
  unfold find_entry. destruct (List.find _ l) as [x|] eqn:E.
  - apply find_some in E as [E1 E2]. apply bool_decide_eq_true in E2. split; [apply list_elem_of_In; exact E1|exact E2].
  - intros Hin. apply list_elem_of_fmap in Hin as (x & -> & Hx). apply list_elem_of_In in Hx.
    apply (find_none _ _ E) in Hx. apply bool_decide_eq_false in Hx. contradiction.
Qed.

(** *** Unlinking *)

Definition last_or (prev : Z) (l : list (dyn_entry P)) : Z := match last l with Some y => ne_addr y | None => prev end.

Lemma last_or_cons prev y l : last_or (ne_addr y) l = last_or prev (y :: l).
Proof. unfold last_or. destruct l as [|z l]; [reflexivity|]. cbn [last]. destruct (last (z :: l)) eqn:E; [reflexivity|].
  apply last_None in E. discriminate. Qed.

Lemma unlink_spec dlp x l2 l1 : forall prev p fuel,
  next_of prev dlp = Some p -> dseg (dl_elems dlp) p (l1 ++ x :: l2) (dl_head dlp) ->
  (forall y, y ∈ l1 ++ x :: l2 -> ne_addr y <> dl_head dlp) -> NoDup (ne_addr <$> (l1 ++ x :: l2)) ->
  (length l1 < fuel)%nat ->
  dyn_unlink_from fuel (ne_addr x) prev dlp =
    (e ← dl_elems dlp !! ne_addr x; dlp' ← set_next (last_or prev l1) (de_next e) dlp; Some (dlp', ne_addr x)).
Proof.
  induction l1 as [|y l1 IH]; intros prev p [|fuel] Hn Hs Hh Hnd Hf; cbn [length] in Hf; try lia;
    cbn [dyn_unlink_from]; rewrite Hn; cbn [mbind option_bind app dseg] in *;
    destruct Hs as (-> & next & (e & Ee & En & _) & Hs); rewrite (proj2 (Z.eqb_neq _ _)) by (apply Hh; constructor).
  - rewrite Z.eqb_refl. reflexivity.
  - cbn in Hnd. apply NoDup_cons in Hnd as [Hy Hnd]. rewrite fmap_app in Hy.
    rewrite (proj2 (Z.eqb_neq (ne_addr y) (ne_addr x))) by (intros E; apply Hy; rewrite E; cbn; rewrite elem_of_app, elem_of_cons; auto).
    rewrite (IH (ne_addr y) next fuel); auto; try lia.
    + rewrite (last_or_cons prev). reflexivity.
    + unfold next_of. rewrite (proj2 (Z.eqb_neq _ _)) by (apply Hh; constructor). rewrite Ee. cbn. congruence.
    + intros z Hz. apply Hh. constructor. exact Hz.
Qed.

(** *** One element changed *)

Lemma rep_entry dlp l x : dl_rep dlp l -> x ∈ l -> exists next, entry_in (dl_elems dlp) x next.
Proof.
  intros H Hx. apply list_elem_of_split in Hx as (l1 & l2 & ->). destruct H as [Hs _ _ _ _ _].
  apply dseg_app in Hs as (r & _ & _ & next & Hin & _). eauto.
Qed.

(** Its links and its name stay. *)
Lemma rep_set dlp l1 x l2 e e' refs o :
  dl_rep dlp (l1 ++ x :: l2) -> dl_elems dlp !! ne_addr x = Some e ->
  de_next e' = de_next e -> de_name e' = de_name e -> de_refs e' = refs -> de_object e' = o ->
  dl_rep (set_elem (ne_addr x) e' dlp) (l1 ++ DynEntry (ne_addr x) (ne_key x) refs o :: l2).
Proof.
  intros [Hs Hnd Hk Hd Hsz Hh] Ee En Em Er Eo. rewrite fmap_app in Hnd. rewrite fmap_app in Hk. setoid_rewrite fmap_app in Hd.
  pose proof Hnd as Hnd'. apply NoDup_app in Hnd' as (_ & Hx1 & Hx2). apply NoDup_cons in Hx2 as [Hx2 _].
  assert (Hx1' : ne_addr x ∉ ne_addr <$> l1) by (intros Hin; apply (Hx1 _ Hin); constructor).
  split; cbn [set_elem dl_elems dl_next dl_head]; rewrite ?fmap_app; cbn [fmap list_fmap ne_addr ne_key]; auto.
  - apply dseg_app in Hs as (r & Hs1 & -> & next & Hin & Hs2). apply dseg_app. exists (ne_addr x).
    split; [apply dseg_update; assumption|]. cbn. split; [reflexivity|]. exists next.
    split; [|apply dseg_update; assumption]. destruct Hin as (e0 & Ee0 & En0 & _ & _ & Ek0).
    rewrite Ee in Ee0. injection Ee0 as <-. exists e'. cbn. rewrite lookup_insert_eq, En, Em. auto.
  - intros a. rewrite <- Hd. destruct (decide (a = ne_addr x)) as [->|Hne].
    + rewrite lookup_insert_eq, Ee. split; eauto.
    + rewrite lookup_insert_ne by congruence. reflexivity.
  - rewrite map_size_insert_Some by (rewrite Ee; eauto). rewrite Hsz, !length_app. reflexivity.
  - intros y Hy. apply elem_of_app in Hy as [Hy|Hy]; [apply Hh, elem_of_app; auto|].
    apply elem_of_cons in Hy as [->|Hy]; [|apply Hh, elem_of_app; right; constructor; exact Hy].
    apply (Hh x). apply elem_of_app. right. constructor.
Qed.

(** The element taken out of the list and out of the store. *)
Lemma rep_unlink dlp l1 x l2 :
  dl_rep dlp (l1 ++ x :: l2) ->
  exists dlp', dyn_list_unlink (ne_addr x) dlp = Some (dlp', ne_addr x) /\ dl_head dlp' = dl_head dlp /\
    dl_rep (DynList (dl_head dlp') (dl_next dlp') (delete (ne_addr x) (dl_elems dlp'))) (l1 ++ l2).
Proof.
  intros [Hs Hnd Hk Hd Hsz Hh]. unfold dyn_list_unlink.
  rewrite (unlink_spec dlp x l2 l1 (dl_head dlp) (dl_next dlp)); auto; cycle 1.
  { unfold next_of. rewrite Z.eqb_refl. reflexivity. }
  { intros y Hy. apply Hh. exact Hy. }
  { unfold dyn_fuel. rewrite Hsz, length_app. cbn. lia. }
  apply dseg_app in Hs as (r & Hs1 & -> & next & (e & Ee & En & _) & Hs2). rewrite Ee. cbn [mbind option_bind].
  rewrite fmap_app in Hnd. rewrite fmap_app in Hk. cbn in Hnd, Hk.
  pose proof Hnd as Hnd'. apply NoDup_app in Hnd' as (Hn1 & Hx1 & Hx2). apply NoDup_cons in Hx2 as [Hx2 Hn2].
  assert (Hx1' : ne_addr x ∉ ne_addr <$> l1) by (intros Hin; apply (Hx1 _ Hin); constructor).
  assert (Hnd2 : NoDup (ne_addr <$> (l1 ++ l2))).
  { rewrite fmap_app. apply NoDup_app. split_and!; auto. intros a Ha Hin. apply (Hx1 a Ha). constructor. exact Hin. }
  assert (Hk2 : NoDup (ne_key <$> (l1 ++ l2))).
  { rewrite fmap_app. apply NoDup_app in Hk as (Hk1 & Hk12 & Hk2). apply NoDup_cons in Hk2 as [_ Hk2].
    apply NoDup_app. split_and!; auto. intros a Ha Hin. apply (Hk12 a Ha). constructor. exact Hin. }
  assert (Hh2 : forall y, y ∈ l1 ++ l2 -> ne_addr y <> dl_head dlp /\ ne_addr y <> 0).
  { intros y Hy. apply Hh. apply elem_of_app in Hy as [Hy|Hy]; apply elem_of_app; [auto|right; constructor; exact Hy]. }
  assert (Hdom : forall m, (forall a, a <> ne_addr x -> is_Some (m !! a) <-> is_Some (dl_elems dlp !! a)) ->
            forall a, is_Some (delete (ne_addr x) m !! a) <-> a ∈ ne_addr <$> (l1 ++ l2)).
  { intros m Hm a. destruct (decide (a = ne_addr x)) as [->|Hne].
    - rewrite lookup_delete_eq, fmap_app, elem_of_app. split; [intros [? ?]; discriminate|intros [?|?]; contradiction].
    - rewrite lookup_delete_ne by congruence. rewrite Hm, Hd by exact Hne.
      rewrite !fmap_app, !elem_of_app. cbn. rewrite elem_of_cons. intuition congruence. }
  unfold set_next, last_or. destruct (last l1) as [y|] eqn:El.
  - apply last_Some in El as (l0 & ->). rewrite fmap_app in Hx1'. cbn in Hx1'.
    assert (Hxy : ne_addr y <> ne_addr x).
    { intros E. apply Hx1'. apply elem_of_app. right. rewrite E. constructor. }
    rewrite (proj2 (Z.eqb_neq _ _)) by (apply Hh2; apply elem_of_app; left; apply elem_of_app; right; constructor).
    apply dseg_app in Hs1 as (r & Hs0 & -> & next' & (e' & Ee' & En' & Er' & Eo' & Ek') & E0). cbn in E0.
    rewrite Ee'. cbn [mbind option_bind]. eexists. split; [reflexivity|]. split; [reflexivity|].
    assert (Hy0 : ne_addr y ∉ ne_addr <$> l0).
    { rewrite fmap_app in Hn1. cbn in Hn1. apply NoDup_app in Hn1 as (_ & H & _). intros Hin. apply (H _ Hin). constructor. }
    assert (Hy2 : ne_addr y ∉ ne_addr <$> l2).
    { intros Hin. apply (Hx1 (ne_addr y)); [rewrite fmap_app; apply elem_of_app; right; constructor|constructor; exact Hin]. }
    split; cbn [set_elem dl_elems dl_next dl_head]; auto.
    + rewrite <- app_assoc. apply dseg_app. exists (ne_addr y).
      split; [apply dseg_delete; [intros Hin; apply Hx1', elem_of_app; auto|apply dseg_update; assumption]|].
      cbn. split; [reflexivity|]. exists next.
      split; [|apply dseg_delete, dseg_update; assumption].
      exists (with_next (de_next e) e'). rewrite lookup_delete_ne, lookup_insert_eq by congruence. cbn. auto.
    + apply Hdom. intros a Ha. destruct (decide (a = ne_addr y)) as [->|Hne].
      * rewrite lookup_insert_eq, Ee'. split; eauto.
      * rewrite lookup_insert_ne by congruence. reflexivity.
    + rewrite map_size_delete_Some by (rewrite lookup_insert_ne, Ee by congruence; eauto).
      rewrite map_size_insert_Some by (rewrite Ee'; eauto). rewrite Hsz, !length_app. cbn. lia.
  - apply last_None in El as ->. rewrite Z.eqb_refl. eexists. split; [reflexivity|]. split; [reflexivity|].
    split; cbn [dl_elems dl_next dl_head app]; auto.
    + rewrite En. apply dseg_delete; assumption.
    + rewrite map_size_delete_Some by (rewrite Ee; eauto). rewrite Hsz. cbn. lia.
Qed.

(** A new element in front. *)
Lemma rep_insert dlp l a k refs cells o :
  dl_rep dlp l -> name_key CH_CFG_FACTORY_MAX_NAMES_LENGTH cells = Some k ->
  a <> dl_head dlp -> a <> 0 -> a ∉ ne_addr <$> l -> k ∉ ne_key <$> l ->
  dl_rep (DynList (dl_head dlp) a (<[a := DynElement (dl_next dlp) refs cells o]> (dl_elems dlp)))
    (DynEntry a k refs o :: l).
Proof.
  intros [Hs Hnd Hk Hd Hsz Hh] Ek Hah Ha0 Ha Hkl.
  assert (Hnone : dl_elems dlp !! a = None).
  { destruct (dl_elems dlp !! a) eqn:E; [|reflexivity]. exfalso. apply Ha, Hd. rewrite E. eauto. }
  split; cbn [dl_elems dl_next dl_head fmap list_fmap ne_addr ne_key].
  - cbn. split; [reflexivity|]. eexists. split; [|apply dseg_update; eassumption].
    eexists. cbn. rewrite lookup_insert_eq. auto.
  - constructor; assumption.
  - constructor; assumption.
  - intros b. rewrite elem_of_cons, <- Hd. destruct (decide (b = a)) as [->|Hne].
    + rewrite lookup_insert_eq. split; eauto.
    + rewrite lookup_insert_ne by congruence. intuition congruence.
  - rewrite map_size_insert_None by exact Hnone. rewrite Hsz. reflexivity.
  - intros y Hy. apply elem_of_cons in Hy as [->|Hy]; [cbn; auto|apply Hh; exact Hy].
Qed.

End Chains.

(** ** What the factory relies on *)

(** [al_inv s live]: the allocator can serve any sequence of calls, the objects [live]
    being out; [avoid] is the address of the list header, which is never given out. *)
Class AllocatorLaws (S : Type) `{Allocator S} (avoid : Z) := {
  al_inv : S -> list Z -> Prop;
  al_live_ok : forall s live p, al_inv s live -> p ∈ live -> p <> avoid /\ p <> 0;
  al_alloc_ok : forall s live, al_inv s live ->
    exists s' p, al_alloc s = Some (s', p) /\
      (p = 0 /\ al_inv s' live \/ p ∉ live /\ al_inv s' (p :: live));
  al_free_ok : forall s l1 p l2, al_inv s (l1 ++ p :: l2) ->
    exists s', al_free p s = Some s' /\ al_inv s' (l1 ++ l2)
}.

(** A pool with the core memory behind it; [k] is its alignment. *)
Record pool_serves (k avoid : Z) (s : pool_state) (live free : list Z) : Prop := {
  ps_rep : pool_rep (fst s) (snd s) free;
  ps_core : core_ok (pm_core (snd s));
  ps_avoid : avoid < basemem (pm_core (snd s));
  ps_provider : mp_provider (fst s) = true;
  ps_align : mp_align (fst s) = 2 ^ k;
  ps_room : 0 < mp_object_size (fst s) /\ 0 <= k < 32 /\
    topmem (pm_core (snd s)) + mp_object_size (fst s) + 2 ^ k < 2 ^ 32;
  ps_nodup : NoDup (live ++ free);
  ps_objects : forall p, p ∈ live ++ free -> topmem (pm_core (snd s)) <= p < 2 ^ 32 /\ p mod 2 ^ k = 0
}.

Lemma core_top_base size align core core' p :
  chCoreAllocAlignedI size align core = Some (core', p) -> basemem core' = basemem core /\ topmem core' <= topmem core.
Proof.
  unfold chCoreAllocAlignedI, chCoreAllocFromTopI. intros E. apply bind_Some_inv in E as (? & _ & E).
  destruct (_ || _) eqn:Eb; injection E as <- _; [lia|]. apply orb_false_iff in Eb as [_ Eb]. cbn. lia.
Qed.

Lemma pool_serves_alloc k avoid s live free :
  pool_serves k avoid s live free ->
  exists s' p, al_alloc s = Some (s', p) /\
    (p = 0 /\ pool_serves k avoid s' live free \/
     p ∉ live /\ exists free', pool_serves k avoid s' (p :: live) free').
Proof.
  destruct s as [mp m]. intros [Hr Hc Ha Hp Hal Hroom Hnd Ho]. cbn [fst snd al_alloc pool_allocator] in *.
  unfold chPoolAlloc. destruct free as [|p free].
  - unfold chPoolAllocI. destruct Hr as [Hr _]. cbn in Hr. rewrite Hr, Hp, Hal. cbn [negb Z.eqb].
    destruct (core_top_spec (mp_object_size mp) k 0 (pm_core m) Hc) as [[E _]|(p & core' & E & Hm & Hcv & Hle & Hok & Hpos)].
    { unfold req_ok. lia. }
    + fold (chCoreAllocAlignedI (mp_object_size mp) (2 ^ k)) in E. rewrite E. cbn [mbind option_bind].
      rewrite check_true by (rewrite is_aligned_value by lia; reflexivity). cbn [mbind option_bind].
      eexists _, 0. split; [reflexivity|]. left. split; [reflexivity|]. destruct m as [w core]. split; cbn in *; auto.
      split; [exact Hr|constructor].
    + fold (chCoreAllocAlignedI (mp_object_size mp) (2 ^ k)) in E. rewrite E. cbn [mbind option_bind].
      pose proof (core_top_base _ _ _ _ _ E) as [Eb Et].
      assert (Hp32 : 0 <= p < topmem (pm_core m)) by lia. destruct Hc as [Hc1 Hc2]. destruct Hcv as (Hcv1 & Hcv2 & Hcv3).
      rewrite check_true by (rewrite is_aligned_value by lia; apply Z.eqb_eq; exact Hm). cbn [mbind option_bind].
      eexists _, p. split; [reflexivity|]. right.
      assert (Hfresh : p ∉ live). { intros Hin. destruct (Ho p); [apply elem_of_app; auto|lia]. }
      split; [exact Hfresh|]. exists []. split; cbn [fst snd pm_core pm_words]; auto; try lia.
      * split; [exact Hr|constructor].
      * cbn. constructor; [rewrite app_nil_r; exact Hfresh|exact Hnd].
      * intros q Hq. cbn in Hq. apply elem_of_cons in Hq as [->|Hq]; [split; [lia|exact Hm]|].
        destruct (Ho q Hq). split; [lia|assumption].
  - destruct (pool_alloc_spec mp m p free Hr) as (Hp0 & next & E & Hr'). rewrite E. cbn [mbind option_bind].
    eexists _, p. split; [reflexivity|]. right.
    assert (Hperm : live ++ p :: free ≡ₚ (p :: live) ++ free) by (rewrite <- Permutation_middle; reflexivity).
    rewrite Hperm in Hnd. split; [apply NoDup_cons in Hnd as [Hn _]; intros Hin; apply Hn, elem_of_app; auto|].
    exists free. split; cbn [fst snd]; auto. intros q Hq. apply Ho. rewrite Hperm. exact Hq.
Qed.

Lemma pool_serves_free k avoid s l1 p l2 free :
  pool_serves k avoid s (l1 ++ p :: l2) free ->
  exists s', al_free p s = Some s' /\ pool_serves k avoid s' (l1 ++ l2) (p :: free).
Proof.
  destruct s as [mp m]. intros [Hr Hc Ha Hp Hal Hroom Hnd Ho]. cbn [fst snd al_free pool_allocator] in *.
  unfold chPoolFree. assert (Hperm : (l1 ++ p :: l2) ++ free ≡ₚ (l1 ++ l2) ++ p :: free).
  { rewrite <- !Permutation_middle. reflexivity. }
  rewrite Hperm in Hnd. destruct (Ho p) as [Hp1 Hp2]; [rewrite <- app_assoc, elem_of_app; right; constructor|].
  destruct Hc as [Hc1 Hc2].
  destruct (pool_free_spec mp m free p Hr) as (m' & E & Hr').
  { split; [lia|]. rewrite Hal, is_aligned_value by lia. apply Z.eqb_eq. exact Hp2. }
  { apply NoDup_app in Hnd as (_ & _ & Hnd). apply NoDup_cons in Hnd as [Hnd _]. exact Hnd. }
  rewrite E. eexists. split; [reflexivity|].
  assert (Em : pm_core m' = pm_core m).
  { unfold chPoolFreeI in E. apply bind_Some_inv in E as (? & _ & E). injection E as <-. reflexivity. }
  split; cbn [fst snd]; rewrite ?Em; auto; [split; auto|]. intros q Hq. apply Ho. rewrite Hperm. exact Hq.
Qed.

#[export] Instance pool_laws (k avoid : Z) : AllocatorLaws pool_state avoid.
Proof.
  refine {| al_inv := fun s live => exists free, pool_serves k avoid s live free |}.
  - intros s live p [free [_ Hc Ha _ _ _ _ Ho]] Hin. destruct (Ho p) as [Hp _]; [apply elem_of_app; auto|].
    destruct Hc. lia.
  - intros s live [free Hs]. destruct (pool_serves_alloc _ _ _ _ _ Hs) as (s' & p & E & H).
    exists s', p. split; [exact E|]. destruct H as [[Hp H]|[Hp H]]; eauto.
  - intros s l1 p l2 [free Hs]. destruct (pool_serves_free _ _ _ _ _ _ _ Hs) as (s' & E & H). eauto.
Defined.

(** ** Elements of one list *)

Section Elements.
Context {P S : Type} `{AllocatorLaws S avoid}.
Implicit Types (dlp : dyn_list_t P) (l : list (dyn_entry P)) (s : S).

Definition elements_ok dlp l s : Prop := dl_head dlp = avoid /\ dl_rep dlp l /\ al_inv s (ne_addr <$> l).

(** A name that is taken gives nothing; a new one a new element, if there is memory. *)
Lemma create_spec dlp l s name cells k :
  elements_ok dlp l s -> name_key CH_CFG_FACTORY_MAX_NAMES_LENGTH name = Some k ->
  (CH_CFG_FACTORY_MAX_NAMES_LENGTH <= length cells)%nat ->
  exists dlp' s' p, dyn_create_object name cells dlp s = Some (dlp', s', p) /\
    (p = 0 /\ elements_ok dlp' l s' \/
     find_entry k l = None /\ p <> 0 /\ p ∉ ne_addr <$> l /\ elements_ok dlp' (DynEntry p k 1 None :: l) s').
Proof.
  intros (Hh & Hr & Hs) Hk Hc. unfold dyn_create_object. rewrite (list_find_spec _ _ _ _ Hk Hr). cbn [mbind option_bind].
  pose proof (find_entry_spec k l) as Hf. destruct (find_entry k l) as [x|] eqn:Ef; cbn [addr_of].
  - destruct Hf as [Hx _]. rewrite (proj2 (Z.eqb_neq _ _)) by (apply (dr_head _ _ Hr); exact Hx).
    eexists _, _, _. split; [reflexivity|]. left. split; [reflexivity|]. split_and!; assumption.
  - cbn [negb Z.eqb]. destruct (al_alloc_ok _ _ Hs) as (s' & p & E & Hp). rewrite E. cbn [mbind option_bind].
    destruct (Z.eqb_spec p 0) as [->|Hp0].
    + eexists _, _, _. split; [reflexivity|]. left. split; [reflexivity|]. split_and!; auto.
      destruct Hp as [[_ Hp]|[_ Hp]]; [exact Hp|].
      exfalso. apply (al_live_ok _ _ 0 Hp); [constructor|reflexivity].
    + destruct Hp as [[? _]|[Hp1 Hp2]]; [contradiction|].
      destruct (copy_key _ name cells k Hk Hc) as (cells' & Ec & Ek). unfold copy_name. rewrite Ec. cbn [mbind option_bind].
      eexists _, _, _. split; [reflexivity|]. right. split_and!; auto. split_and!; auto.
      apply rep_insert; auto. rewrite Hh. apply (al_live_ok _ _ p Hp2). constructor.
Qed.

Lemma set_object_spec dlp l1 y l2 s o :
  elements_ok dlp (l1 ++ y :: l2) s ->
  exists dlp', dyn_set_object (ne_addr y) o dlp = Some dlp' /\
    elements_ok dlp' (l1 ++ DynEntry (ne_addr y) (ne_key y) (ne_refs y) (Some o) :: l2) s.
Proof.
  intros (Hh & Hr & Hs). unfold dyn_set_object.
  assert (Hy : y ∈ l1 ++ y :: l2) by (apply elem_of_app; right; constructor).
  rewrite (proj2 (Z.eqb_neq _ _)) by (apply (dr_head _ _ Hr); exact Hy).
  destruct (rep_entry _ _ _ Hr Hy) as (next & e & E & _ & Er & _). rewrite E. eexists. split; [reflexivity|].
  split_and!; [exact Hh| |].
  - apply (rep_set dlp l1 y l2 e); auto.
  - rewrite fmap_app in *. exact Hs.
Qed.

Lemma reference_spec dlp l1 y l2 s :
  elements_ok dlp (l1 ++ y :: l2) s -> 0 <= ne_refs y < 2 ^ 32 - 1 ->
  exists dlp', dyn_reference (ne_addr y) dlp = Some dlp' /\
    elements_ok dlp' (l1 ++ DynEntry (ne_addr y) (ne_key y) (ne_refs y + 1) (ne_object y) :: l2) s.
Proof.
  intros (Hh & Hr & Hs) Hb. unfold dyn_reference.
  assert (Hy : y ∈ l1 ++ y :: l2) by (apply elem_of_app; right; constructor).
  destruct (rep_entry _ _ _ Hr Hy) as (next & e & E & _ & Er & Eo & _). rewrite E. eexists. split; [reflexivity|].
  split_and!; [exact Hh| |].
  - apply (rep_set dlp l1 y l2 e); auto. cbn. rewrite Er. apply u32_id. lia.
  - rewrite fmap_app in *. exact Hs.
Qed.

(** The last reference gives the element back. *)
Lemma element_release_spec dlp l1 y l2 s :
  elements_ok dlp (l1 ++ y :: l2) s -> 0 < ne_refs y ->
  exists dlp' s', dyn_release_object (ne_addr y) dlp s = Some (dlp', s') /\
    elements_ok dlp' (if ne_refs y =? 1 then l1 ++ l2
                      else l1 ++ DynEntry (ne_addr y) (ne_key y) (ne_refs y - 1) (ne_object y) :: l2) s'.
Proof.
  intros (Hh & Hr & Hs) Hb. unfold dyn_release_object.
  assert (Hy : y ∈ l1 ++ y :: l2) by (apply elem_of_app; right; constructor).
  rewrite check_true by (rewrite (proj2 (Z.eqb_neq _ _)) by (apply (dr_head _ _ Hr); exact Hy); reflexivity).
  cbn [mbind option_bind]. destruct (rep_entry _ _ _ Hr Hy) as (next & e & E & _ & Er & Eo & _). rewrite E. cbn [mbind option_bind].
  rewrite check_true by (apply Z.ltb_lt; lia). cbn [mbind option_bind]. rewrite Er.
  assert (Hr' : dl_rep (set_elem (ne_addr y) (with_refs (ne_refs y - 1) e) dlp)
                  (l1 ++ DynEntry (ne_addr y) (ne_key y) (ne_refs y - 1) (ne_object y) :: l2)).
  { apply (rep_set dlp l1 y l2 e); auto. }
  destruct (Z.eqb_spec (ne_refs y - 1) 0) as [H1|H1]; destruct (Z.eqb_spec (ne_refs y) 1); try lia.
  - destruct (rep_unlink _ _ _ _ Hr') as (dlp' & Eu & Hh' & Hr2). cbn [ne_addr] in *. rewrite Eu. cbn [mbind option_bind].
    rewrite fmap_app in Hs. cbn in Hs. destruct (al_free_ok _ _ _ _ Hs) as (s' & Ef & Hs'). rewrite Ef. cbn [mbind option_bind].
    eexists _, _. split; [reflexivity|]. split_and!; [cbn in *; congruence|exact Hr2|rewrite fmap_app; exact Hs'].
  - eexists _, _. split; [reflexivity|]. split_and!; [exact Hh|exact Hr'|]. rewrite fmap_app in *. exact Hs.
Qed.

End Elements.
