(* ===== verification/Registry.v ===== *)
(** * The objects registry (chfactory.c)

    Registered objects as their users see them: a registry of names, each with a
    handle and an object, and the references that are held.  [registry_step] is one
    call, from [factory_init] on; the theorems show that the factory's lists and
    its pool implement the registry, and what the scan for a pointer does when a
    release comes between the read of the list's head and the lock. *)

From stdpp Require Import gmap.
From S2P Require Import Prelude CInt CLib Memcore Heap Mempools Factory.
#[local] Open Scope Z_scope.

(** ** Specification *)

Record registration := Registered { rn_handle : Z; rn_key : list Z; rn_objp : Z }.
Record registry := Registry { rg_names : list registration; rg_out : list Z }.

Definition handle_of (x : option registration) : Z := match x with Some x => rn_handle x | None => 0 end.

Definition reg_named (k : list Z) (rg : registry) : Z :=
  handle_of (List.find (fun x => bool_decide (rn_key x = k)) (rg_names rg)).
Definition reg_pointing (objp : Z) (rg : registry) : Z :=
  handle_of (List.find (fun x => bool_decide (rn_objp x = objp)) (rg_names rg)).

Definition refs_of (h : Z) (out : list Z) : nat := count_occ Z.eq_dec out h.

Fixpoint drop_ref (h : Z) (out : list Z) : list Z :=
  match out with
  | [] => []
  | h' :: out => if h' =? h then out else h' :: drop_ref h out
  end.

Definition reg_add (h : Z) (rg : registry) : registry := Registry (rg_names rg) (h :: rg_out rg).

Definition reg_register (k : list Z) (objp h : Z) (rg : registry) : registry :=
  Registry (Registered h k objp :: rg_names rg) (h :: rg_out rg).

(** The last reference takes the name away. *)
Definition reg_release (h : Z) (rg : registry) : registry :=
  let out := drop_ref h (rg_out rg) in
  Registry (if refs_of h out =? 0 then filter (fun x => rn_handle x <> h) (rg_names rg) else rg_names rg)%nat out.

(** ** Calls *)

Inductive registry_call :=
| CRegister (name cells : list Z) (objp : Z)
| CFind (name : list Z)
| CFindPointer (objp : Z)
| CRelease (h : Z)
| CDuplicate (h : Z).

(** The call on the factory, with the handle it returns or was given. *)
Definition factory_call (c : registry_call) (f : objects_factory_t) : option (objects_factory_t * Z) :=
  match c with
  | CRegister name cells objp => chFactoryRegisterObject name cells objp f
  | CFind name => chFactoryFindObject name f
  | CFindPointer objp => chFactoryFindObjectByPointer objp (find_by_pointer_start f) f
  | CRelease h => f ← chFactoryReleaseObject h f; Some (f, h)
  | CDuplicate h => f ← chFactoryDuplicateReference h f; Some (f, h)
  end.

(** What it does to the registry, given the handle. *)
Definition registry_call_spec (c : registry_call) (h : Z) (rg : registry) : registry :=
  match c with
  | CRelease _ => reg_release h rg
  | CRegister name _ objp =>
      if h =? 0 then rg else reg_register (default [] (name_key CH_CFG_FACTORY_MAX_NAMES_LENGTH name)) objp h rg
  | _ => if h =? 0 then rg else reg_add h rg
  end.

(** Names are C strings, or at least eight bytes long; only references that are held
    are released or duplicated, and there are fewer of them than a counter can
    count. *)
Definition call_enabled (c : registry_call) (rg : registry) : bool :=
  match c with
  | CRegister name cells _ =>
      bool_decide (is_Some (name_key CH_CFG_FACTORY_MAX_NAMES_LENGTH name)) &&
      (CH_CFG_FACTORY_MAX_NAMES_LENGTH <=? length cells)%nat
  | CFind name =>
      bool_decide (is_Some (name_key CH_CFG_FACTORY_MAX_NAMES_LENGTH name)) && (Z.of_nat (length (rg_out rg)) <? 2 ^ 32 - 1)
  | CFindPointer _ => Z.of_nat (length (rg_out rg)) <? 2 ^ 32 - 1
  | CRelease h => bool_decide (h ∈ rg_out rg)
  | CDuplicate h => bool_decide (h ∈ rg_out rg) && (Z.of_nat (length (rg_out rg)) <? 2 ^ 32 - 1)
  end.

(** The handles returned: a name that is taken is not registered again, and a new
    registration gets a handle of its own, or none for want of memory. *)
Definition handle_right (c : registry_call) (h : Z) (rg : registry) : Prop :=
  match c with
  | CRegister name _ _ =>
      h = 0 \/ reg_named (default [] (name_key CH_CFG_FACTORY_MAX_NAMES_LENGTH name)) rg = 0 /\
        h ∉ rn_handle <$> rg_names rg
  | CFind name => h = reg_named (default [] (name_key CH_CFG_FACTORY_MAX_NAMES_LENGTH name)) rg
  | CFindPointer objp => h = reg_pointing objp rg
  | CRelease h' | CDuplicate h' => h = h'
  end.

Fixpoint registry_run (cs : list registry_call) (f : objects_factory_t) (rg : registry)
  : option (objects_factory_t * registry) :=
  match cs with
  | [] => Some (f, rg)
  | c :: cs =>
      if call_enabled c rg then
        '(f, h) ← factory_call c f; registry_run cs f (registry_call_spec c h rg)
      else None
  end.

(** ** Correspondence *)

Definition entry_of (out : list Z) (x : registration) : dyn_entry Z :=
  DynEntry (rn_handle x) (rn_key x) (Z.of_nat (refs_of (rn_handle x) out)) (Some (rn_objp x)).

Record registry_rep (avoid : Z) (f : objects_factory_t) (rg : registry) : Prop := {
  rr_elements : elements_ok (H0 := pool_laws 2 avoid) (f_obj_list f) (entry_of (rg_out rg) <$> rg_names rg) (obj_state f);
  rr_held : forall x, x ∈ rg_names rg -> rn_handle x ∈ rg_out rg;
  rr_known : forall h, h ∈ rg_out rg -> h ∈ rn_handle <$> rg_names rg
}.

Implicit Types (ns : list registration) (out : list Z) (rg : registry) (f : objects_factory_t).

Lemma entries_handles out ns : ne_addr <$> (entry_of out <$> ns) = rn_handle <$> ns.
Proof. rewrite <- list_fmap_compose. reflexivity. Qed.

Lemma entries_keys out ns : ne_key <$> (entry_of out <$> ns) = rn_key <$> ns.
Proof. rewrite <- list_fmap_compose. reflexivity. Qed.

Lemma find_named out k ns :
  addr_of (find_entry k (entry_of out <$> ns)) = handle_of (List.find (fun x => bool_decide (rn_key x = k)) ns).
Proof.
  unfold find_entry. induction ns as [|x ns IH]; [reflexivity|]. cbn. destruct (bool_decide (rn_key x = k)); [reflexivity|exact IH].
Qed.

(** The other entries do not change when the references to one do. *)
Lemma entries_other out out' h ns :
  h ∉ rn_handle <$> ns -> (forall a, a <> h -> refs_of a out' = refs_of a out) ->
  entry_of out' <$> ns = entry_of out <$> ns.
Proof.
  intros Hh Hr. apply list_fmap_ext. intros i x Hx. unfold entry_of. rewrite Hr; [reflexivity|].
  intros E. apply Hh. rewrite <- E. apply list_elem_of_fmap_2. eapply list_elem_of_lookup_2. exact Hx.
Qed.

Lemma refs_of_cons_eq h out : refs_of h (h :: out) = S (refs_of h out).
Proof. apply count_occ_cons_eq. reflexivity. Qed.

Lemma refs_of_cons_ne a h out : a <> h -> refs_of a (h :: out) = refs_of a out.
Proof. intros Hne. apply count_occ_cons_neq. congruence. Qed.

Lemma refs_of_pos h out : h ∈ out <-> (0 < refs_of h out)%nat.
Proof. rewrite list_elem_of_In. apply count_occ_In. Qed.

Lemma refs_of_bound h out : (refs_of h out <= length out)%nat.
Proof. apply count_occ_bound. Qed.

Lemma drop_ref_same h out : h ∈ out -> S (refs_of h (drop_ref h out)) = refs_of h out.
Proof.
  induction out as [|a out IH]; intros Hin; [inversion Hin|]. cbn [drop_ref].
  destruct (Z.eqb_spec a h) as [->|Hne]; [symmetry; apply refs_of_cons_eq|].
  rewrite !refs_of_cons_ne by congruence. apply IH. apply elem_of_cons in Hin as [?|Hin]; [congruence|exact Hin].
Qed.

Lemma drop_ref_other a h out : a <> h -> refs_of a (drop_ref h out) = refs_of a out.
Proof.
  intros Hne. induction out as [|b out IH]; [reflexivity|]. cbn [drop_ref].
  destruct (Z.eqb_spec b h) as [->|Hb]; [rewrite refs_of_cons_ne by congruence; reflexivity|].
  destruct (decide (a = b)) as [->|Hab]; [rewrite !refs_of_cons_eq; congruence|].
  rewrite !refs_of_cons_ne by assumption. exact IH.
Qed.

Lemma elem_of_drop_ref a h out : a ∈ drop_ref h out -> a ∈ out.
Proof.
  rewrite !refs_of_pos. destruct (decide (a = h)) as [->|Hne]; [|rewrite drop_ref_other by exact Hne; auto].
  intros Hp. destruct (decide (h ∈ out)) as [Hin|Hn]; [apply refs_of_pos; exact Hin|].
  exfalso. revert Hp. replace (drop_ref h out) with out; [intros Hp; apply Hn, refs_of_pos; exact Hp|].
  clear -Hn. induction out as [|b out IH]; [reflexivity|]. cbn. apply not_elem_of_cons in Hn as [Hb Hn].
  rewrite (proj2 (Z.eqb_neq b h)) by congruence. f_equal. apply IH. exact Hn.
Qed.

(** The names with one handle among them, apart. *)
Lemma rep_split avoid f rg h :
  registry_rep avoid f rg -> h ∈ rg_out rg ->
  exists n1 x n2, rg_names rg = n1 ++ x :: n2 /\ rn_handle x = h /\ h ∉ rn_handle <$> n1 /\ h ∉ rn_handle <$> n2.
Proof.
  intros [(Hh & Hr & Hs) Hheld Hknown] Hin. apply Hknown in Hin. apply list_elem_of_fmap in Hin as (x & -> & Hx).
  apply list_elem_of_split in Hx as (n1 & n2 & E). exists n1, x, n2.
  pose proof (dr_nodup _ _ Hr) as Hnd. rewrite entries_handles, E, fmap_app in Hnd. cbn in Hnd.
  apply NoDup_app in Hnd as (_ & H1 & H2). apply NoDup_cons in H2 as [H2 _].
  split_and!; auto. intros Hin. apply (H1 _ Hin). constructor.
Qed.

Lemma entries_split out n1 x n2 :
  entry_of out <$> (n1 ++ x :: n2) = (entry_of out <$> n1) ++ entry_of out x :: (entry_of out <$> n2).
Proof. rewrite fmap_app. reflexivity. Qed.

(** One more reference. *)
Lemma reference_rep avoid f rg h :
  registry_rep avoid f rg -> h ∈ rg_out rg -> Z.of_nat (length (rg_out rg)) < 2 ^ 32 - 1 ->
  exists l, dyn_reference h (f_obj_list f) = Some l /\
    registry_rep avoid (with_objs l (obj_state f) f) (reg_add h rg).
Proof.
  intros H Hin Hlen. destruct (rep_split _ _ _ _ H Hin) as (n1 & x & n2 & En & <- & H1 & H2).
  destruct H as [He Hheld Hknown]. rewrite En, entries_split in He.
  pose proof (refs_of_bound (rn_handle x) (rg_out rg)) as Hb.
  destruct (reference_spec _ _ _ _ _ He) as (l & E & He'); [cbn; lia|]. cbn [entry_of ne_addr] in E.
  exists l. split; [exact E|]. split; cbn [reg_add rg_names rg_out].
  - rewrite En, entries_split. unfold with_objs, obj_state in *. cbn [f_obj_list f_obj_pool f_mem fst snd].
    rewrite (entries_other (rg_out rg) _ (rn_handle x) n1), (entries_other (rg_out rg) _ (rn_handle x) n2);
      auto using refs_of_cons_ne.
    unfold entry_of at 2. rewrite refs_of_cons_eq, Nat2Z.inj_succ. exact He'.
  - intros y Hy. apply elem_of_cons. auto.
  - intros a Ha. apply elem_of_cons in Ha as [->|Ha]; auto.
Qed.

Lemma with_objs_id f : with_objs (f_obj_list f) (obj_state f) f = f.
Proof. destruct f. reflexivity. Qed.

(** Finding. *)
Lemma find_elem (p : registration -> bool) ns x : List.find p ns = Some x -> x ∈ ns.
Proof. intros E. apply find_some in E as [E _]. apply list_elem_of_In. exact E. Qed.

Lemma handle_nonzero avoid f rg x : registry_rep avoid f rg -> x ∈ rg_names rg -> rn_handle x <> 0.
Proof.
  intros [(_ & Hr & _) _ _] Hx. apply (dr_head _ _ Hr (entry_of (rg_out rg) x)). apply list_elem_of_fmap_2. exact Hx.
Qed.

Lemma find_call avoid f rg name k :
  registry_rep avoid f rg -> name_key CH_CFG_FACTORY_MAX_NAMES_LENGTH name = Some k ->
  Z.of_nat (length (rg_out rg)) < 2 ^ 32 - 1 ->
  exists f', chFactoryFindObject name f = Some (f', reg_named k rg) /\
    registry_rep avoid f' (if reg_named k rg =? 0 then rg else reg_add (reg_named k rg) rg).
Proof.
  intros H Hk Hlen. pose proof H as [(_ & Hr & _) Hheld _]. unfold chFactoryFindObject, dyn_find_object.
  rewrite (list_find_spec _ _ _ _ Hk Hr), find_named. fold (reg_named k rg). cbn [mbind option_bind].
  destruct (Z.eqb_spec (reg_named k rg) 0) as [E0|E0]; cbn [negb].
  - eexists. split; [reflexivity|]. rewrite with_objs_id. exact H.
  - destruct (reference_rep avoid f rg (reg_named k rg) H) as (l & E & H'); [|exact Hlen|].
    { unfold reg_named in *. destruct (List.find _ _) as [x|] eqn:Ef; [|contradiction]. apply Hheld, (find_elem _ _ _ Ef). }
    rewrite E. eexists. split; [reflexivity|]. exact H'.
Qed.

Lemma scan_from avoid f rg objp ns : forall p,
  registry_rep avoid f rg -> Z.of_nat (length (rg_out rg)) < 2 ^ 32 - 1 ->
  dseg (dl_elems (f_obj_list f)) p (entry_of (rg_out rg) <$> ns) (dl_head (f_obj_list f)) ->
  (forall x, x ∈ ns -> x ∈ rg_names rg) ->
  let h := handle_of (List.find (fun x => bool_decide (rn_objp x = objp)) ns) in
  exists l, scan_by_pointer (S (length ns)) objp p (f_obj_list f) = Some (l, h) /\
    registry_rep avoid (with_objs l (obj_state f) f) (if h =? 0 then rg else reg_add h rg).
Proof.
  induction ns as [|x ns IH]; intros p H Hlen Hs Hsub; cbn [scan_by_pointer List.find length].
  - cbn in Hs. rewrite Hs, Z.eqb_refl. exists (f_obj_list f). split; [reflexivity|]. cbn. rewrite with_objs_id. exact H.
  - assert (Hx : x ∈ rg_names rg) by (apply Hsub; constructor).
    destruct Hs as (-> & next & (e & Ee & En & _ & Eo & _) & Hs). cbn [entry_of ne_addr ne_object] in Ee, Eo |- *.
    pose proof H as [(_ & Hr & _) Hheld _].
    rewrite (proj2 (Z.eqb_neq _ _)) by (apply (dr_head _ _ Hr (entry_of (rg_out rg) x)), list_elem_of_fmap_2; exact Hx).
    rewrite Ee. cbn [mbind option_bind]. rewrite Eo.
    rewrite (bool_decide_ext (Some (rn_objp x) = Some objp) (rn_objp x = objp)) by (split; congruence).
    destruct (bool_decide (rn_objp x = objp)); cbn [handle_of].
    + destruct (reference_rep avoid f rg (rn_handle x) H) as (l & E & H'); [apply Hheld, Hx|exact Hlen|].
      rewrite E. exists l. split; [reflexivity|].
      rewrite (proj2 (Z.eqb_neq _ _)) by (eapply handle_nonzero; eassumption). exact H'.
    + rewrite En. apply IH; auto. intros y Hy. apply Hsub. constructor. exact Hy.
Qed.

Lemma find_pointer_call avoid f rg objp :
  registry_rep avoid f rg -> Z.of_nat (length (rg_out rg)) < 2 ^ 32 - 1 ->
  exists f', chFactoryFindObjectByPointer objp (find_by_pointer_start f) f = Some (f', reg_pointing objp rg) /\
    registry_rep avoid f' (if reg_pointing objp rg =? 0 then rg else reg_add (reg_pointing objp rg) rg).
Proof.
  intros H Hlen. pose proof H as [(_ & [Hs _ _ _ Hsz _] & _) _ _].
  unfold chFactoryFindObjectByPointer, find_by_pointer_start, dyn_fuel. rewrite Hsz, length_fmap.
  destruct (scan_from avoid f rg objp (rg_names rg) _ H Hlen Hs) as (l & E & H'); [auto|].
  rewrite E. eexists. split; [reflexivity|]. exact H'.
Qed.

Lemma register_call avoid f rg name cells objp k :
  registry_rep avoid f rg -> name_key CH_CFG_FACTORY_MAX_NAMES_LENGTH name = Some k ->
  (CH_CFG_FACTORY_MAX_NAMES_LENGTH <= length cells)%nat ->
  exists f' h, chFactoryRegisterObject name cells objp f = Some (f', h) /\
    (h = 0 \/ reg_named k rg = 0 /\ h ∉ rn_handle <$> rg_names rg) /\
    registry_rep avoid f' (if h =? 0 then rg else reg_register k objp h rg).
Proof.
  intros H Hk Hc. destruct H as [He Hheld Hknown]. unfold chFactoryRegisterObject.
  destruct (create_spec _ _ _ _ _ _ He Hk Hc) as (l & s & h & E & Hcases). rewrite E. cbn [mbind option_bind].
  destruct Hcases as [[-> He']|(Hnone & Hh0 & Hfresh & He')].
  - cbn. eexists _, 0. split; [reflexivity|]. split; [auto|]. destruct s. split; auto.
  - destruct (set_object_spec _ [] _ _ _ objp He') as (l' & E' & He2). cbn [ne_addr app] in *. rewrite E'. cbn [mbind option_bind].
    eexists _, h. split; [reflexivity|]. rewrite (proj2 (Z.eqb_neq _ _) Hh0). rewrite entries_handles in Hfresh. split.
    + right. split; [|exact Hfresh]. unfold reg_named. rewrite <- (find_named (rg_out rg)), Hnone. reflexivity.
    + assert (Hnew : h ∉ rg_out rg) by (intros Hin; apply Hfresh, Hknown, Hin).
      split; cbn [reg_register rg_names rg_out].
      * destruct s as [mp m]. unfold with_objs, obj_state. cbn [f_obj_list f_obj_pool f_mem fst snd].
        cbn [fmap list_fmap]. fold (entry_of (h :: rg_out rg) <$> rg_names rg).
        rewrite (entries_other (rg_out rg) _ h) by auto using refs_of_cons_ne.
        unfold entry_of at 1. cbn [rn_handle rn_key rn_objp]. rewrite refs_of_cons_eq.
        replace (refs_of h (rg_out rg)) with 0%nat; [exact He2|]. rewrite refs_of_pos in Hnew. lia.
      * intros x Hx. apply elem_of_cons in Hx as [->|Hx]; [constructor|]. constructor. auto.
      * intros a Ha. cbn. rewrite elem_of_cons in Ha |- *. destruct Ha as [->|Ha]; auto.
Qed.

Lemma filter_handles h n1 x n2 :
  rn_handle x = h -> h ∉ rn_handle <$> n1 -> h ∉ rn_handle <$> n2 ->
  filter (fun y => rn_handle y <> h) (n1 ++ x :: n2) = n1 ++ n2.
Proof.
  intros Hx H1 H2. rewrite filter_app, filter_cons_False by auto.
  assert (Hall : forall ns, h ∉ rn_handle <$> ns -> filter (fun y => rn_handle y <> h) ns = ns).
  { induction ns as [|y ns IH]; intros Hns; [reflexivity|]. cbn in Hns. apply not_elem_of_cons in Hns as [Hy Hns].
    rewrite filter_cons_True by congruence. rewrite IH by exact Hns. reflexivity. }
  rewrite !Hall by assumption. reflexivity.
Qed.

Lemma release_call avoid f rg h :
  registry_rep avoid f rg -> h ∈ rg_out rg ->
  exists f', chFactoryReleaseObject h f = Some f' /\ registry_rep avoid f' (reg_release h rg).
Proof.
  intros H Hin. destruct (rep_split _ _ _ _ H Hin) as (n1 & x & n2 & En & Ex & H1 & H2).
  destruct H as [He Hheld Hknown]. rewrite En, entries_split in He. unfold chFactoryReleaseObject.
  pose proof Hin as Hpos. apply refs_of_pos in Hpos. pose proof (drop_ref_same h (rg_out rg) Hin) as Hd.
  destruct (element_release_spec _ _ _ _ _ He) as (l & s & E & He'); [cbn; rewrite Ex; lia|].
  cbn [entry_of ne_addr ne_refs ne_key ne_object] in *. rewrite Ex in E. rewrite E. cbn [mbind option_bind]. eexists. split; [reflexivity|].
  assert (Hother : forall ns, h ∉ rn_handle <$> ns -> entry_of (drop_ref h (rg_out rg)) <$> ns = entry_of (rg_out rg) <$> ns).
  { intros ns Hns. apply (entries_other _ _ h); auto. intros a Ha. apply drop_ref_other. exact Ha. }
  unfold reg_release. rewrite Ex in He'. destruct s as [mp m].
  destruct (Nat.eqb_spec (refs_of h (drop_ref h (rg_out rg))) 0) as [H0|H0];
    destruct (Z.eqb_spec (Z.of_nat (refs_of h (rg_out rg))) 1); try lia.
  - rewrite En, (filter_handles h) by assumption. split; cbn [rg_names rg_out].
    + unfold with_objs, obj_state. cbn [f_obj_list f_obj_pool f_mem fst snd]. rewrite fmap_app, !Hother by assumption. exact He'.
    + intros y Hy. assert (Hne : rn_handle y <> h).
      { intros Ey. apply elem_of_app in Hy as [Hy|Hy]; [apply H1|apply H2]; rewrite <- Ey; apply list_elem_of_fmap_2; exact Hy. }
      apply refs_of_pos. rewrite drop_ref_other by exact Hne. apply refs_of_pos, Hheld. rewrite En.
      apply elem_of_app in Hy as [Hy|Hy]; apply elem_of_app; [auto|right; constructor; exact Hy].
    + intros a Ha. assert (Hne : a <> h). { intros ->. apply refs_of_pos in Ha. lia. }
      apply elem_of_drop_ref, Hknown in Ha. rewrite En in Ha. rewrite fmap_app in Ha |- *. cbn in Ha.
      rewrite elem_of_app, elem_of_cons in Ha. rewrite elem_of_app. intuition congruence.
  - split; cbn [rg_names rg_out].
    + unfold with_objs, obj_state. cbn [f_obj_list f_obj_pool f_mem fst snd]. rewrite En, entries_split, !Hother by assumption.
      unfold entry_of at 2. rewrite Ex. replace (Z.of_nat (refs_of h (drop_ref h (rg_out rg)))) with (Z.of_nat (refs_of h (rg_out rg)) - 1) by lia.
      exact He'.
    + intros y Hy. apply refs_of_pos. destruct (decide (rn_handle y = h)) as [Ey|Hne]; [rewrite Ey; lia|].
      rewrite drop_ref_other by exact Hne. apply refs_of_pos, Hheld, Hy.
    + intros a Ha. apply Hknown, (elem_of_drop_ref _ _ _ Ha).
Qed.

(** Every call that is enabled is defined, returns the right handle and does to the
    factory what it does to the registry. *)
Lemma call_rep avoid c f rg :
  registry_rep avoid f rg -> call_enabled c rg = true ->
  exists f' h, factory_call c f = Some (f', h) /\ handle_right c h rg /\ registry_rep avoid f' (registry_call_spec c h rg).
Proof.
  intros H En. destruct c as [name cells objp|name|objp|h|h]; cbn [call_enabled factory_call handle_right registry_call_spec] in *; bools;
    try match goal with B : bool_decide _ = true |- _ => apply bool_decide_eq_true in B; rename B into Hd end.
  - destruct Hd as [k Hk]. rewrite Hk. apply Nat.leb_le in H1.
    destruct (register_call avoid f rg name cells objp k H Hk H1) as (f' & h & E & Hh & Hr). eauto 10.
  - destruct Hd as [k Hk]. rewrite Hk. destruct (find_call avoid f rg name k H Hk) as (f' & E & Hr); [lia|]. eauto 10.
  - destruct (find_pointer_call avoid f rg objp H) as (f' & E & Hr); [lia|]. eauto 10.
  - destruct (release_call avoid f rg h H) as (f' & E & Hr); [exact Hd|]. rewrite E. cbn. eauto 10.
  - unfold chFactoryDuplicateReference. destruct (reference_rep avoid f rg h H Hd) as (l & E & Hr); [lia|]. rewrite E. cbn.
    eexists _, h. split; [reflexivity|]. split; [reflexivity|].
    rewrite (proj2 (Z.eqb_neq _ _)); [exact Hr|]. destruct (rep_split _ _ _ _ H Hd) as (n1 & x & n2 & Ex & <- & _).
    eapply handle_nonzero; [exact H|]. rewrite Ex. apply elem_of_app. right. constructor.
Qed.

Lemma run_rep avoid cs : forall f rg f' rg',
  registry_rep avoid f rg -> registry_run cs f rg = Some (f', rg') -> registry_rep avoid f' rg'.
Proof.
  induction cs as [|c cs IH]; cbn; intros f rg f' rg' H E; [injection E as <- <-; exact H|].
  destruct (call_enabled c rg) eqn:En; [|discriminate].
  destruct (call_rep avoid c f rg H En) as (f1 & h & E1 & _ & H1). rewrite E1 in E. cbn in E. eapply IH; eauto.
Qed.

(** The header is in static memory, below the core memory, which ends short of the
    top of the address space. *)
Definition registry_layout (heads : nat -> Z) (m : pool_mem) : Prop :=
  core_ok (pm_core m) /\ heads 0%nat < basemem (pm_core m) /\ topmem (pm_core m) + sizeof_registered_object + 4 < 2 ^ 32.

Lemma registry_init_rep heads m heapp h :
  registry_layout heads m ->
  exists f0, factory_init heads m heapp h = Some f0 /\ registry_rep (heads 0%nat) f0 (Registry [] []).
Proof.
  intros (Hc & Ha & Hlim). unfold sizeof_registered_object in Hlim. eexists. split; [reflexivity|]. split.
  - split; [reflexivity|]. split.
    + split; cbn; auto using NoDup_nil_2.
      * intros a. rewrite lookup_empty. split; [intros [? E]; discriminate|intros Hin; inversion Hin].
      * intros x Hin. inversion Hin.
    + exists []. split; cbn; auto using NoDup_nil_2; [split; [reflexivity|apply NoDup_nil_2]|unfold sizeof_registered_object; lia|].
      intros p Hin. inversion Hin.
  - intros x Hx. inversion Hx.
  - intros a Ha'. inversion Ha'.
Qed.

(** C27: from its initialisation on, whatever registrations, searches by name or by
    pointer, duplicated references and releases follow each other, the factory
    implements the registry: every call is defined and returns the handle of the name
    or the object it is asked for, names and handles are unique, an element is in
    memory exactly as long as there are references to it, and it holds their number
    and the object registered. *)
Theorem factory_implements_registry (heads : nat -> Z) (m : pool_mem) (heapp : memory_heap_t) (h : heap_state)
    (cs : list registry_call) :
  registry_layout heads m ->
  exists f0, factory_init heads m heapp h = Some f0 /\
    forall f rg, registry_run cs f0 (Registry [] []) = Some (f, rg) ->
      (forall c, call_enabled c rg = true ->
         exists f' r, factory_call c f = Some (f', r) /\ handle_right c r rg) /\
      NoDup (rn_handle <$> rg_names rg) /\ NoDup (rn_key <$> rg_names rg) /\
      (forall a, is_Some (dl_elems (f_obj_list f) !! a) <-> a ∈ rg_out rg) /\
      (forall x, x ∈ rg_names rg ->
         chFactoryGetObject (rn_handle x) f = Some (rn_objp x) /\
         de_refs <$> dl_elems (f_obj_list f) !! rn_handle x = Some (Z.of_nat (refs_of (rn_handle x) (rg_out rg)))).
Proof.
  intros Hl. destruct (registry_init_rep heads m heapp h Hl) as (f0 & E0 & H0). exists f0. split; [exact E0|].
  intros f rg E. pose proof (run_rep _ _ _ _ _ _ H0 E) as H. split.
  - intros c En. destruct (call_rep _ c f rg H En) as (f' & r & E1 & Hr & _). eauto.
  - destruct H as [(_ & Hr & _) Hheld Hknown]. pose proof Hr as [_ Hnd Hk Hd _ _].
    rewrite entries_handles in Hnd. rewrite entries_keys in Hk. split_and!; auto.
    + intros a. rewrite Hd, entries_handles. split; [|apply Hknown].
      intros Hin. apply list_elem_of_fmap in Hin as (x & -> & Hx). apply Hheld, Hx.
    + intros x Hx. destruct (rep_entry _ _ (entry_of (rg_out rg) x) Hr) as (next & e & Ee & _ & Er & Eo & _).
      { apply list_elem_of_fmap_2. exact Hx. }
      cbn [entry_of ne_addr ne_refs ne_object] in *. unfold chFactoryGetObject. rewrite Ee. cbn. rewrite Er. auto.
Qed.

(** *** Runs *)

Definition factory_heads (i : nat) : Z := 256 + 4 * Z.of_nat i.
Definition factory_mem : pool_mem := PoolMem ∅ (Memcore 8192 8240).
Definition no_heap : memory_heap_t := MemHeap false (MemArea 0 0) 0.
Definition factory_heap : heap_state := HeapState ∅ (Memcore 0 0).

Definition bytes8 (s : list Z) : list Z := take 8 (s ++ replicate 8 0).
Definition name_led : list Z := bytes8 [108; 101; 100].
Definition name_adc : list Z := bytes8 [97; 100; 99].
Definition name_gps : list Z := bytes8 [103; 112; 115].

(** There is memory for two elements. *)
Definition registry_demo : list registry_call :=
  [CRegister name_led name_adc 5000; CFind name_led; CRegister name_led name_adc 6000;
   CRegister name_adc name_adc 6000; CRegister name_gps name_adc 7000; CFindPointer 5000;
   CDuplicate 8200; CRelease 8200; CRelease 8200; CRegister name_gps name_adc 7000].

Definition factory0 : objects_factory_t :=
  match factory_init factory_heads factory_mem no_heap factory_heap with
  | Some f => f
  | None => Factory (dyn_list_init 0) (Pool 0 0 0 false) (dyn_list_init 0) (dyn_list_init 0) (Pool 0 0 0 false)
              (dyn_list_init 0) (dyn_list_init 0) (dyn_list_init 0) factory_mem no_heap factory_heap
  end.

Lemma registry_demo_runs :
  snd <$> registry_run registry_demo factory0 (Registry [] []) =
  Some (Registry [Registered 8200 (take 3 name_gps) 7000; Registered 8220 (take 3 name_led) 5000]
          [8200; 8220; 8220; 8220]).
Proof. vm_compute. reflexivity. Qed.

Lemma factory_implements_registry_witness :
  registry_layout factory_heads factory_mem /\
  exists f0, factory_init factory_heads factory_mem no_heap factory_heap = Some f0 /\
    forall f rg, registry_run registry_demo f0 (Registry [] []) = Some (f, rg) ->
      (forall c, call_enabled c rg = true ->
         exists f' r, factory_call c f = Some (f', r) /\ handle_right c r rg) /\
      NoDup (rn_handle <$> rg_names rg) /\ NoDup (rn_key <$> rg_names rg) /\
      (forall a, is_Some (dl_elems (f_obj_list f) !! a) <-> a ∈ rg_out rg) /\
      (forall x, x ∈ rg_names rg ->
         chFactoryGetObject (rn_handle x) f = Some (rn_objp x) /\
         de_refs <$> dl_elems (f_obj_list f) !! rn_handle x = Some (Z.of_nat (refs_of (rn_handle x) (rg_out rg)))).
Proof.
  assert (Hl : registry_layout factory_heads factory_mem).
  { unfold registry_layout, core_ok, factory_heads, sizeof_registered_object. cbn. lia. }
  split; [exact Hl|]. apply (factory_implements_registry factory_heads factory_mem no_heap factory_heap registry_demo Hl).
Defined.

(** The scan for a pointer starts from the head of the list as it was before the
    mutex was locked: when the first element is released in between, it reads an
    element that has been given back. *)
Theorem find_by_pointer_stale_start :
  exists cs f rg h f', registry_run cs factory0 (Registry [] []) = Some (f, rg) /\
    find_by_pointer_start f = h /\ chFactoryReleaseObject h f = Some f' /\
    is_Some (chFactoryFindObjectByPointer 5000 (find_by_pointer_start f') f') /\
    chFactoryFindObjectByPointer 5000 (find_by_pointer_start f) f' = None.
Proof.
  exists [CRegister name_led name_adc 5000; CRegister name_adc name_adc 6000].
  eexists _, _, _, _. split; [vm_compute; reflexivity|]. split; [reflexivity|].
  split; [vm_compute; reflexivity|]. split; [vm_compute; eauto|vm_compute; reflexivity].
Qed.
