(* ===== verification/Words.v ===== *)
(** * Words in memory

    Unsigned integers as bytes, least significant first, as the processor stores
    them, and their fields in a buffer: what C code does when it reads and writes
    words of a byte array through a pointer or a union. *)

From S2P Require Import Prelude CInt.
#[local] Open Scope Z_scope.

(** ** Definitions *)

Fixpoint le_bytes (n : nat) (v : Z) : list Z :=
  match n with
  | O => []
  | S n => v mod 256 :: le_bytes n (v / 256)
  end.

Fixpoint le_value (bs : list Z) : Z :=
  match bs with
  | [] => 0
  | b :: bs => b + 256 * le_value bs
  end.

Definition get_le (n off : nat) (buf : list Z) : Z := le_value (take n (drop off buf)).
Definition set_bytes (off : nat) (bs buf : list Z) : list Z := take off buf ++ bs ++ drop (off + length bs) buf.
Definition put_le (n off : nat) (v : Z) (buf : list Z) : list Z := set_bytes off (le_bytes n v) buf.

(** ** Lemmas *)

Definition is_byte (b : Z) : Prop := 0 <= b < 256.

Lemma le_bytes_length n v : length (le_bytes n v) = n.
Proof. revert v. induction n as [|n IH]; intros v; [reflexivity|]. cbn. rewrite IH. reflexivity. Qed.

Lemma le_bytes_range n v : Forall is_byte (le_bytes n v).
Proof. revert v. induction n as [|n IH]; intros v; constructor; [apply Z.mod_pos_bound; lia|apply IH]. Qed.

Lemma le_value_bytes n : forall v, 0 <= v < 256 ^ Z.of_nat n -> le_value (le_bytes n v) = v.
Proof.
  induction n as [|n IH]; intros v Hv; [cbn in *; lia|]. cbn [le_bytes le_value].
  rewrite Nat2Z.inj_succ, Z.pow_succ_r in Hv by lia.
  rewrite IH by (split; [apply Z.div_pos; lia|apply Z.div_lt_upper_bound; lia]).
  pose proof (Z_div_mod_eq_full v 256). lia.
Qed.

Lemma le_bytes_value bs : Forall is_byte bs -> le_bytes (length bs) (le_value bs) = bs.
Proof.
  induction 1 as [|b bs Hb H IH]; [reflexivity|]. cbn [length le_bytes le_value].
  replace ((b + 256 * le_value bs) mod 256) with b by (apply (Z.mod_unique_pos _ _ (le_value bs)); unfold is_byte in Hb; lia).
  replace ((b + 256 * le_value bs) / 256) with (le_value bs) by (apply (Z.div_unique_pos _ _ _ b); unfold is_byte in Hb; lia).
  rewrite IH. reflexivity.
Qed.

Lemma le_value_range bs : Forall is_byte bs -> 0 <= le_value bs < 256 ^ Z.of_nat (length bs).
Proof.
  induction 1 as [|b bs Hb H IH]; [cbn; lia|]. cbn [length le_value]. rewrite Nat2Z.inj_succ, Z.pow_succ_r by lia.
  unfold is_byte in Hb. lia.
Qed.

(** Reading a field of a buffer that starts with known bytes. *)
Lemma get_le_here n v l : 0 <= v < 256 ^ Z.of_nat n -> get_le n 0 (le_bytes n v ++ l) = v.
Proof.
  intros Hv. unfold get_le. rewrite drop_0, take_app_length' by (symmetry; apply le_bytes_length). apply le_value_bytes, Hv.
Qed.

Lemma get_le_skip n off k v l : (k <= off)%nat -> get_le n off (le_bytes k v ++ l) = get_le n (off - k) l.
Proof.
  intros Hk. unfold get_le. rewrite drop_app_ge by (rewrite le_bytes_length; exact Hk). rewrite le_bytes_length. reflexivity.
Qed.

Ltac get_field :=
  rewrite <- ?app_assoc; repeat (rewrite get_le_skip by lia; cbn [Nat.sub]); apply get_le_here.

(** Only the cells of the field matter. *)
Lemma get_le_take n off k buf : (off + n <= k)%nat -> get_le n off (take k buf) = get_le n off buf.
Proof.
  intros Hk. unfold get_le. rewrite skipn_firstn_comm, take_take. do 2 f_equal. lia.
Qed.

Lemma get_le_word n off buf v :
  Forall is_byte buf -> (off + n <= length buf)%nat -> get_le n off buf = v -> take n (drop off buf) = le_bytes n v.
Proof.
  intros Hb Hl <-. unfold get_le. set (bs := take n (drop off buf)).
  assert (El : length bs = n) by (unfold bs; rewrite length_take, length_drop; lia).
  symmetry. rewrite <- El at 1. apply le_bytes_value. apply Forall_take, Forall_drop, Hb.
Qed.

Lemma set_bytes_length off bs buf : (off + length bs <= length buf)%nat -> length (set_bytes off bs buf) = length buf.
Proof. intros H. unfold set_bytes. rewrite !length_app, length_take, length_drop. lia. Qed.

Lemma put_le_length n off v buf : (off + n <= length buf)%nat -> length (put_le n off v buf) = length buf.
Proof. intros H. apply set_bytes_length. rewrite le_bytes_length. exact H. Qed.

(** ** Slices *)

Lemma set_bytes_lookup off bs m i : (off + length bs <= length m)%nat ->
  set_bytes off bs m !! i = if decide (off <= i < off + length bs)%nat then bs !! (i - off)%nat else m !! i.
Proof.
  intros Hl. unfold set_bytes. destruct (decide (i < off)%nat) as [Hi|Hi].
  - rewrite lookup_app_l by (rewrite length_take; lia). rewrite lookup_take_lt by lia. case_decide; [lia|reflexivity].
  - rewrite lookup_app_r by (rewrite length_take; lia). rewrite length_take, Nat.min_l by lia.
    case_decide as Hd; [apply lookup_app_l; lia|]. rewrite lookup_app_r by lia. rewrite lookup_drop. f_equal. lia.
Qed.

Lemma slice_lookup (a n i : nat) (m : list Z) : take n (drop a m) !! i = if decide (i < n)%nat then m !! (a + i)%nat else None.
Proof.
  case_decide as Hd; [rewrite lookup_take_lt by exact Hd; apply lookup_drop|apply lookup_take_ge; lia].
Qed.

(** A write leaves a slice beside it alone. *)
Lemma slice_set_other a n off bs m : (off + length bs <= length m)%nat -> (off + length bs <= a \/ a + n <= off)%nat ->
  take n (drop a (set_bytes off bs m)) = take n (drop a m).
Proof.
  intros Hl Ho. apply list_eq. intros i. rewrite !slice_lookup. destruct (decide (i < n)%nat); [|reflexivity].
  rewrite set_bytes_lookup by exact Hl. case_decide; [lia|reflexivity].
Qed.

(** A write inside a slice is a write to the slice. *)
Lemma slice_set_inside a n o bs m : (a + n <= length m)%nat -> (o + length bs <= n)%nat ->
  take n (drop a (set_bytes (a + o) bs m)) = set_bytes o bs (take n (drop a m)).
Proof.
  intros Hl Ho. apply list_eq. intros i. rewrite slice_lookup, !set_bytes_lookup by (rewrite ?length_take, ?length_drop; lia).
  rewrite slice_lookup. destruct (decide (i < n)%nat) as [Hi|Hi].
  - destruct (decide (a + o <= a + i < a + o + length bs)%nat), (decide (o <= i < o + length bs)%nat); try lia; [f_equal; lia|reflexivity].
  - destruct (decide (o <= i < o + length bs)%nat); [lia|reflexivity].
Qed.

(** A slice of a slice. *)
Lemma slice_slice a n o k (m : list Z) : (o + k <= n)%nat -> take k (drop o (take n (drop a m))) = take k (drop (a + o) m).
Proof.
  intros Ho. rewrite skipn_firstn_comm, take_take, drop_drop. f_equal. lia.
Qed.
