(* ===== verification/Crc16.v ===== *)
(** * Checksums of records (crc16 of hal_mfs.c)

    The table-driven checksum of the managed flash storage, and the bitwise division
    by the polynomial x^16 + x^12 + x^5 + 1 that it computes.  What the storage relies
    on follows from that: the checksum can be taken in pieces, and a change of one
    byte is always seen. *)

From S2P Require Import Prelude CInt.

(** ** The program *)

Definition crc16_table : list Z :=
  [0x0000; 0x1021; 0x2042; 0x3063; 0x4084; 0x50A5; 0x60C6; 0x70E7;
   0x8108; 0x9129; 0xA14A; 0xB16B; 0xC18C; 0xD1AD; 0xE1CE; 0xF1EF;
   0x1231; 0x0210; 0x3273; 0x2252; 0x52B5; 0x4294; 0x72F7; 0x62D6;
   0x9339; 0x8318; 0xB37B; 0xA35A; 0xD3BD; 0xC39C; 0xF3FF; 0xE3DE;
   0x2462; 0x3443; 0x0420; 0x1401; 0x64E6; 0x74C7; 0x44A4; 0x5485;
   0xA56A; 0xB54B; 0x8528; 0x9509; 0xE5EE; 0xF5CF; 0xC5AC; 0xD58D;
   0x3653; 0x2672; 0x1611; 0x0630; 0x76D7; 0x66F6; 0x5695; 0x46B4;
   0xB75B; 0xA77A; 0x9719; 0x8738; 0xF7DF; 0xE7FE; 0xD79D; 0xC7BC;
   0x48C4; 0x58E5; 0x6886; 0x78A7; 0x0840; 0x1861; 0x2802; 0x3823;
   0xC9CC; 0xD9ED; 0xE98E; 0xF9AF; 0x8948; 0x9969; 0xA90A; 0xB92B;
   0x5AF5; 0x4AD4; 0x7AB7; 0x6A96; 0x1A71; 0x0A50; 0x3A33; 0x2A12;
   0xDBFD; 0xCBDC; 0xFBBF; 0xEB9E; 0x9B79; 0x8B58; 0xBB3B; 0xAB1A;
   0x6CA6; 0x7C87; 0x4CE4; 0x5CC5; 0x2C22; 0x3C03; 0x0C60; 0x1C41;
   0xEDAE; 0xFD8F; 0xCDEC; 0xDDCD; 0xAD2A; 0xBD0B; 0x8D68; 0x9D49;
   0x7E97; 0x6EB6; 0x5ED5; 0x4EF4; 0x3E13; 0x2E32; 0x1E51; 0x0E70;
   0xFF9F; 0xEFBE; 0xDFDD; 0xCFFC; 0xBF1B; 0xAF3A; 0x9F59; 0x8F78;
   0x9188; 0x81A9; 0xB1CA; 0xA1EB; 0xD10C; 0xC12D; 0xF14E; 0xE16F;
   0x1080; 0x00A1; 0x30C2; 0x20E3; 0x5004; 0x4025; 0x7046; 0x6067;
   0x83B9; 0x9398; 0xA3FB; 0xB3DA; 0xC33D; 0xD31C; 0xE37F; 0xF35E;
   0x02B1; 0x1290; 0x22F3; 0x32D2; 0x4235; 0x5214; 0x6277; 0x7256;
   0xB5EA; 0xA5CB; 0x95A8; 0x8589; 0xF56E; 0xE54F; 0xD52C; 0xC50D;
   0x34E2; 0x24C3; 0x14A0; 0x0481; 0x7466; 0x6447; 0x5424; 0x4405;
   0xA7DB; 0xB7FA; 0x8799; 0x97B8; 0xE75F; 0xF77E; 0xC71D; 0xD73C;
   0x26D3; 0x36F2; 0x0691; 0x16B0; 0x6657; 0x7676; 0x4615; 0x5634;
   0xD94C; 0xC96D; 0xF90E; 0xE92F; 0x99C8; 0x89E9; 0xB98A; 0xA9AB;
   0x5844; 0x4865; 0x7806; 0x6827; 0x18C0; 0x08E1; 0x3882; 0x28A3;
   0xCB7D; 0xDB5C; 0xEB3F; 0xFB1E; 0x8BF9; 0x9BD8; 0xABBB; 0xBB9A;
   0x4A75; 0x5A54; 0x6A37; 0x7A16; 0x0AF1; 0x1AD0; 0x2AB3; 0x3A92;
   0xFD2E; 0xED0F; 0xDD6C; 0xCD4D; 0xBDAA; 0xAD8B; 0x9DE8; 0x8DC9;
   0x7C26; 0x6C07; 0x5C64; 0x4C45; 0x3CA2; 0x2C83; 0x1CE0; 0x0CC1;
   0xEF1F; 0xFF3E; 0xCF5D; 0xDF7C; 0xAF9B; 0xBFBA; 0x8FD9; 0x9FF8;
   0x6E17; 0x7E36; 0x4E55; 0x5E74; 0x2E93; 0x3EB2; 0x0ED1; 0x1EF0].

Definition crc16_byte (crc b : Z) : Z :=
  u16 (Z.lxor (Z.shiftl crc 8) (default 0 (crc16_table !! Z.to_nat (Z.lxor (Z.shiftr crc 8) b)))).

Fixpoint crc16 (crc : Z) (data : list Z) : Z :=
  match data with
  | [] => crc
  | b :: data => crc16 (crc16_byte crc b) data
  end.

(** ** Reference: division by the polynomial, bit by bit *)

Definition crc_poly : Z := 0x1021.

Definition crc_bit (c : Z) : Z :=
  let c' := u16 (Z.shiftl c 1) in if Z.testbit c 15 then Z.lxor c' crc_poly else c'.

Definition crc_ref_byte (c b : Z) : Z := Nat.iter 8 crc_bit (Z.lxor c (Z.shiftl b 8)).

Fixpoint crc_ref (c : Z) (data : list Z) : Z :=
  match data with
  | [] => c
  | b :: data => crc_ref (crc_ref_byte c b) data
  end.

(** ** The state is a 16-bit word *)

Definition word16 (c : Z) : Prop := 0 <= c < 2 ^ 16.
Definition byte8 (b : Z) : Prop := 0 <= b < 2 ^ 8.

Lemma u16_land x : u16 x = Z.land x (Z.ones 16).
Proof. rewrite Z.land_ones by lia. reflexivity. Qed.

Lemma lxor_bound n a b : 0 <= n -> 0 <= a < 2 ^ n -> 0 <= b < 2 ^ n -> 0 <= Z.lxor a b < 2 ^ n.
Proof.
  intros Hn Ha Hb. assert (H : Z.lxor a b = Z.land (Z.lxor a b) (Z.ones n)).
  { apply Z.bits_inj'. intros i Hi. rewrite Z.land_spec, Z.lxor_spec.
    destruct (Z.lt_ge_cases i n) as [Hlt|Hge]; [rewrite Z.ones_spec_low by lia; rewrite andb_true_r; reflexivity|].
    rewrite Z.ones_spec_high, andb_false_r by lia.
    assert (Hz : forall x, 0 <= x < 2 ^ n -> Z.testbit x i = false).
    { intros x Hx. apply Z.testbit_false; [lia|]. rewrite Z.div_small; [reflexivity|].
      split; [lia|]. apply (Z.lt_le_trans _ (2 ^ n)); [lia|apply Z.pow_le_mono_r; lia]. }
    rewrite !Hz by assumption. reflexivity. }
  rewrite H, Z.land_ones by exact Hn. apply Z.mod_pos_bound. apply Z.pow_pos_nonneg; lia.
Qed.

Lemma crc_bit_word c : word16 (crc_bit c).
Proof.
  unfold word16, crc_bit. pose proof (u16_range (Z.shiftl c 1)) as H.
  destruct (Z.testbit c 15); [|lia]. apply lxor_bound; [lia|lia|]. unfold crc_poly. lia.
Qed.

(** ** Linearity *)

Lemma u16_lxor a b : u16 (Z.lxor a b) = Z.lxor (u16 a) (u16 b).
Proof.
  rewrite !u16_land. apply Z.bits_inj'. intros i Hi. rewrite Z.land_spec, !Z.lxor_spec, !Z.land_spec.
  destruct (Z.testbit a i), (Z.testbit b i), (Z.testbit (Z.ones 16) i); reflexivity.
Qed.

Lemma crc_bit_lxor a b : crc_bit (Z.lxor a b) = Z.lxor (crc_bit a) (crc_bit b).
Proof.
  unfold crc_bit. rewrite Z.shiftl_lxor, u16_lxor, Z.lxor_spec.
  generalize (u16 (Z.shiftl a 1)) (u16 (Z.shiftl b 1)). intros x y.
  destruct (Z.testbit a 15), (Z.testbit b 15); cbn [xorb].
  - rewrite (Z.lxor_comm y crc_poly), Z.lxor_assoc, <- (Z.lxor_assoc crc_poly crc_poly).
    rewrite Z.lxor_nilpotent, Z.lxor_0_l. reflexivity.
  - rewrite !Z.lxor_assoc, (Z.lxor_comm y). reflexivity.
  - rewrite Z.lxor_assoc. reflexivity.
  - reflexivity.
Qed.

Lemma crc_bits_lxor n a b : Nat.iter n crc_bit (Z.lxor a b) = Z.lxor (Nat.iter n crc_bit a) (Nat.iter n crc_bit b).
Proof. induction n as [|n IH]; [reflexivity|]. rewrite !Nat.iter_succ. rewrite IH. apply crc_bit_lxor. Qed.

(** Shifting out a bit loses nothing: the polynomial has a constant term. *)
Lemma crc_bit_zero c : word16 c -> crc_bit c = 0 -> c = 0.
Proof.
  unfold word16, crc_bit. intros Hc. rewrite Z.shiftl_mul_pow2 by lia.
  assert (Hb : Z.testbit c 15 = (2 ^ 15 <=? c)).
  { rewrite Z.testbit_eqb by lia. destruct (Z.leb_spec (2 ^ 15) c).
    - apply Z.eqb_eq. replace (c / 2 ^ 15) with 1; [reflexivity|]. apply (Z.div_unique_pos _ _ _ (c - 2 ^ 15)); lia.
    - apply Z.eqb_neq. rewrite Z.div_small by lia. discriminate. }
  rewrite Hb. destruct (Z.leb_spec (2 ^ 15) c) as [Hge|Hlt].
  - intros E. apply Z.lxor_eq in E. exfalso.
    assert (Hu : u16 (c * 2 ^ 1) = c * 2 - 2 ^ 16).
    { unfold u16, wrapu. symmetry. apply (Z.mod_unique_pos _ _ 1); lia. }
    rewrite Hu in E. unfold crc_poly in E. lia.
  - rewrite u16_id by lia. lia.
Qed.

Lemma crc_bits_zero n c : word16 c -> Nat.iter n crc_bit c = 0 -> c = 0.
Proof.
  revert c. induction n as [|n IH]; intros c Hc E; [exact E|]. rewrite Nat.iter_succ in E. apply IH; [exact Hc|].
  apply crc_bit_zero; [|exact E]. destruct n; [exact Hc|apply crc_bit_word].
Qed.

(** ** The table *)

(** Its entries are the remainders of the words whose low byte is 0, and a low byte
    is only shifted. *)
Lemma crc_table_rows : forallb (fun h => bool_decide (crc16_table !! Z.to_nat h = Some (Nat.iter 8 crc_bit (Z.shiftl h 8)))
                                && (Nat.iter 8 crc_bit h =? Z.shiftl h 8)) (seqZ 0 256) = true.
Proof. vm_compute. reflexivity. Qed.

Lemma crc_table_row h :
  byte8 h -> crc16_table !! Z.to_nat h = Some (Nat.iter 8 crc_bit (Z.shiftl h 8)) /\ Nat.iter 8 crc_bit h = Z.shiftl h 8.
Proof.
  intros Hh. pose proof crc_table_rows as H. rewrite forallb_forall in H.
  specialize (H h). rewrite <- list_elem_of_In, elem_of_seqZ in H. specialize (H ltac:(unfold byte8 in Hh; lia)).
  apply andb_true_iff in H as [H1 H2]. apply bool_decide_eq_true in H1. apply Z.eqb_eq in H2. auto.
Qed.

Lemma word16_split c : word16 c -> c = Z.lxor (Z.shiftl (Z.shiftr c 8) 8) (c mod 2 ^ 8) /\
  byte8 (Z.shiftr c 8) /\ byte8 (c mod 2 ^ 8).
Proof.
  unfold word16, byte8. intros Hc. rewrite Z.shiftr_div_pow2, Z.shiftl_mul_pow2 by lia.
  pose proof (Z.mod_pos_bound c (2 ^ 8) ltac:(lia)). pose proof (Z.div_pos c (2 ^ 8) ltac:(lia) ltac:(lia)).
  pose proof (Z.div_lt_upper_bound c (2 ^ 8) (2 ^ 8) ltac:(lia) ltac:(lia)). split; [|lia].
  rewrite <- Z.add_nocarry_lxor; [pose proof (Z_div_mod_eq_full c (2 ^ 8)); lia|].
  apply Z.bits_inj'. intros i Hi. rewrite Z.land_spec, Z.bits_0.
  destruct (Z.lt_ge_cases i 8); [rewrite Z.mul_pow2_bits_low by lia; reflexivity|].
  rewrite Z.mod_pow2_bits_high by lia. apply andb_false_r.
Qed.

Lemma crc16_byte_ref c b : word16 c -> byte8 b -> crc16_byte c b = crc_ref_byte c b.
Proof.
  intros Hc Hb. unfold crc16_byte, crc_ref_byte. destruct (word16_split c Hc) as (E & Hh & Hl).
  assert (Hx : byte8 (Z.lxor (Z.shiftr c 8) b)) by (apply lxor_bound; [lia|exact Hh|exact Hb]).
  destruct (crc_table_row _ Hx) as [Et _]. rewrite Et. cbn [default].
  destruct (crc_table_row _ Hl) as [_ El].
  rewrite E at 3. rewrite (Z.lxor_comm (Z.shiftl (Z.shiftr c 8) 8)), Z.lxor_assoc, <- Z.shiftl_lxor.
  rewrite crc_bits_lxor, El, u16_lxor. f_equal.
  - unfold u16, wrapu. rewrite !Z.shiftl_mul_pow2 by lia. change (2 ^ 16) with (2 ^ 8 * 2 ^ 8).
    rewrite Z.mul_mod_distr_r by lia. reflexivity.
  - apply u16_id. rewrite !Nat.iter_succ. apply crc_bit_word.
Qed.

Lemma crc_ref_byte_word c b : word16 (crc_ref_byte c b).
Proof. unfold crc_ref_byte. rewrite !Nat.iter_succ. apply crc_bit_word. Qed.

(** C25: the table-driven checksum is the remainder of the bitwise division by
    x^16 + x^12 + x^5 + 1, for every initial word and all data. *)
Theorem crc16_divides (c : Z) (data : list Z) : word16 c -> Forall byte8 data -> crc16 c data = crc_ref c data.
Proof.
  intros Hc H. revert c Hc. induction H as [|b data Hb H IH]; intros c Hc; [reflexivity|].
  cbn [crc16 crc_ref]. rewrite crc16_byte_ref by assumption. apply IH. apply crc_ref_byte_word.
Qed.

(** The check value of this checksum, of the digits 1 to 9. *)
Lemma crc16_divides_witness :
  crc_ref 0xFFFF [49; 50; 51; 52; 53; 54; 55; 56; 57] = 0x29B1.
Proof.
  rewrite <- (crc16_divides 0xFFFF); [vm_compute; reflexivity|unfold word16; lia|repeat constructor; unfold byte8; lia].
Defined.

(** ** What the storage uses *)

Lemma crc16_app c l1 l2 : crc16 c (l1 ++ l2) = crc16 (crc16 c l1) l2.
Proof. revert c. induction l1 as [|b l1 IH]; intros c; [reflexivity|]. apply IH. Qed.

Lemma crc16_byte_word c b : word16 (crc16_byte c b).
Proof. unfold crc16_byte. apply u16_range. Qed.

Lemma crc16_word c data : word16 c -> word16 (crc16 c data).
Proof. revert c. induction data as [|b data IH]; intros c Hc; [exact Hc|]. apply IH, crc16_byte_word. Qed.

Lemma lxor_eq_0 a b : Z.lxor a b = 0 <-> a = b.
Proof. split; [apply Z.lxor_eq|intros ->; apply Z.lxor_nilpotent]. Qed.

Lemma crc_ref_byte_inj c c' b : word16 c -> word16 c' -> crc_ref_byte c b = crc_ref_byte c' b -> c = c'.
Proof.
  intros Hc Hc' E. apply lxor_eq_0 in E. unfold crc_ref_byte in E. rewrite <- crc_bits_lxor in E.
  replace (Z.lxor (Z.lxor c _) (Z.lxor c' _)) with (Z.lxor c c') in E.
  2: { rewrite (Z.lxor_comm c'), Z.lxor_assoc, <- (Z.lxor_assoc (Z.shiftl b 8)), Z.lxor_nilpotent, Z.lxor_0_l. reflexivity. }
  apply lxor_eq_0, (crc_bits_zero 8); [apply lxor_bound; [lia|assumption..]|exact E].
Qed.

Lemma crc_ref_inj data : forall c c', word16 c -> word16 c' -> crc_ref c data = crc_ref c' data -> c = c'.
Proof.
  induction data as [|b data IH]; intros c c' Hc Hc' E; [exact E|]. cbn in E.
  apply IH in E; [|apply crc_ref_byte_word..]. eapply crc_ref_byte_inj; eauto.
Qed.

(** A change within one byte of a record is always seen. *)
Theorem crc16_detects_byte (c b b' : Z) (l1 l2 : list Z) :
  word16 c -> Forall byte8 (l1 ++ b :: l2) -> byte8 b' ->
  crc16 c (l1 ++ b :: l2) = crc16 c (l1 ++ b' :: l2) -> b = b'.
Proof.
  intros Hc Hl Hb' E. apply Forall_app in Hl as [Hl1 Hl2]. apply Forall_cons in Hl2 as [Hb Hl2].
  rewrite !crc16_app in E. cbn [crc16] in E. set (d := crc16 c l1) in *.
  assert (Hd : word16 d) by (apply crc16_word; exact Hc).
  rewrite !crc16_divides in E by (auto; apply crc16_byte_word).
  apply crc_ref_inj in E; [|apply crc16_byte_word..]. rewrite !crc16_byte_ref in E by assumption.
  apply lxor_eq_0 in E. unfold crc_ref_byte in E. rewrite <- crc_bits_lxor in E.
  replace (Z.lxor (Z.lxor d _) (Z.lxor d _)) with (Z.shiftl (Z.lxor b b') 8) in E.
  2: { rewrite Z.shiftl_lxor, (Z.lxor_comm d), Z.lxor_assoc, <- (Z.lxor_assoc d), Z.lxor_nilpotent, Z.lxor_0_l. reflexivity. }
  pose proof (lxor_bound 8 b b' ltac:(lia) Hb Hb') as Hx.
  apply crc_bits_zero in E.
  - apply lxor_eq_0. rewrite Z.shiftl_mul_pow2 in E by lia. lia.
  - unfold word16. rewrite Z.shiftl_mul_pow2 by lia. lia.
Qed.
