(* ===== verification/Flash.v ===== *)
(** * Flash devices (hal_flash.h, hal_flash.c)

    The base class of flash drivers as a class of operations, the functions of
    hal_flash.c on top of it, and [FlashLaws], what a client relies on: erased cells
    read 255, cells are programmed in the order of their addresses, the erase of a
    sector happens or does not, and the power may fail in any of these, after which
    nothing happens until it comes back.  [nor] is such a device. *)

From stdpp Require Import gmap.
From S2P Require Import Prelude CInt.
#[local] Open Scope Z_scope.

(** ** Devices *)

Inductive flash_error_t :=
| FLASH_NO_ERROR
| FLASH_BUSY_ERASING
| FLASH_ERROR_READ
| FLASH_ERROR_PROGRAM
| FLASH_ERROR_ERASE
| FLASH_ERROR_VERIFY
| FLASH_ERROR_HW_FAILURE
| FLASH_ERROR_UNIMPLEMENTED.

#[export] Instance flash_error_dec : EqDecision flash_error_t.
Proof. solve_decision. Defined.

Record flash_sector_descriptor_t := SectorDesc { sd_offset : Z; sd_size : Z }.

(** The fields that the functions below read; [fd_sectors] is absent for sectors of
    one size. *)
Record flash_descriptor_t := FlashDesc {
  fd_sectors_count : Z;
  fd_sectors : option (list flash_sector_descriptor_t);
  fd_sectors_size : Z;
  fd_address : Z;
  fd_size : Z
}.

(** [vmt]: the methods; a read delivers the bytes it stores, a query the time to wait.
    [fl_polls] bounds the queries that an erase takes. *)
Class BaseFlash (F : Type) := {
  flashGetDescriptor : F -> flash_descriptor_t;
  flashRead : Z -> Z -> F -> F * (flash_error_t * list Z);
  flashProgram : Z -> list Z -> F -> F * flash_error_t;
  flashStartEraseSector : Z -> F -> F * flash_error_t;
  flashQueryErase : F -> F * (flash_error_t * Z);
  flashVerifyErase : Z -> F -> F * flash_error_t;
  fl_polls : nat
}.

(** ** hal_flash.c *)

Definition sector_offset (d : flash_descriptor_t) (sector : Z) : option Z :=
  _ ← check (sector <? fd_sectors_count d);
  match fd_sectors d with
  | Some sectors => s ← sectors !! Z.to_nat sector; Some (sd_offset s)
  | None => Some (u32 (sector * fd_sectors_size d))
  end.

Definition sector_size (d : flash_descriptor_t) (sector : Z) : option Z :=
  _ ← check (sector <? fd_sectors_count d);
  match fd_sectors d with
  | Some sectors => s ← sectors !! Z.to_nat sector; Some (sd_size s)
  | None => Some (fd_sectors_size d)
  end.

Section Functions.
Context {F : Type} `{BaseFlash F}.

(** The thread sleeps between the queries. *)
Fixpoint flash_wait (fuel : nat) (f : F) : option (F * flash_error_t) :=
  match fuel with
  | O => None
  | S fuel =>
      let '(f, (err, msec)) := flashQueryErase f in
      if bool_decide (err = FLASH_BUSY_ERASING) then flash_wait fuel f else Some (f, err)
  end.

Definition flashWaitErase (f : F) : option (F * flash_error_t) := flash_wait fl_polls f.

Definition flashGetSectorOffset (f : F) (sector : Z) : option Z := sector_offset (flashGetDescriptor f) sector.

Definition flashGetSectorSize (f : F) (sector : Z) : option Z := sector_size (flashGetDescriptor f) sector.

(** The scan of the sectors; the assertion that follows it fails. *)
Fixpoint offset_sector (sectors : list flash_sector_descriptor_t) (i offset : Z) : option Z :=
  match sectors with
  | [] => None
  | s :: sectors =>
      if (sd_offset s <=? offset) && (offset <=? u32 (sd_offset s + sd_size s - 1)) then Some i
      else offset_sector sectors (i + 1) offset
  end.

Definition flashGetOffsetSector (f : F) (offset : Z) : option Z :=
  let d := flashGetDescriptor f in
  _ ← check (offset <? fd_size d);
  match fd_sectors d with
  | Some sectors => offset_sector (take (Z.to_nat (fd_sectors_count d)) sectors) 0 offset
  | None => _ ← check (negb (fd_sectors_size d =? 0)); Some (offset / fd_sectors_size d)
  end.

Definition flashGetOffsetAddress (f : F) (offset : Z) : option Z :=
  let d := flashGetDescriptor f in
  _ ← check (offset <? fd_size d); Some (u32 (fd_address d + offset)).

Definition flashGetAddressOffset (f : F) (addr : Z) : option Z :=
  let d := flashGetDescriptor f in
  _ ← check ((fd_address d <=? addr) && (addr <=? u32 (fd_address d + fd_size d)));
  Some (u32 (addr - fd_address d)).

End Functions.

(** ** Contents *)

Definition bytes_at (m : Z -> Z) (off n : Z) : list Z := m <$> seqZ off n.

Definition upd (m : Z -> Z) (off : Z) (bs : list Z) (a : Z) : Z :=
  if (off <=? a) && (a <? off + Z.of_nat (length bs)) then default 0 (bs !! Z.to_nat (a - off)) else m a.

Definition erased_in (m : Z -> Z) (lo hi : Z) : Prop := forall a, lo <= a < hi -> m a = 255.

Definition same (m m' : Z -> Z) : Prop := forall a, m' a = m a.

Lemma bytes_at_length m off n : length (bytes_at m off n) = Z.to_nat n.
Proof. unfold bytes_at. rewrite length_fmap, length_seqZ. reflexivity. Qed.

Lemma bytes_at_lookup m off n i : (i < Z.to_nat n)%nat -> bytes_at m off n !! i = Some (m (off + Z.of_nat i)).
Proof. intros Hi. unfold bytes_at. rewrite list_lookup_fmap, lookup_seqZ_lt by lia. reflexivity. Qed.

Lemma bytes_at_ext m m' off n : (forall a, off <= a < off + n -> m' a = m a) -> bytes_at m' off n = bytes_at m off n.
Proof.
  intros H. unfold bytes_at. apply list_fmap_ext. intros i a Ha. apply lookup_seqZ in Ha as [-> Hi]. apply H. lia.
Qed.

Lemma bytes_at_app m off n1 n2 :
  0 <= n1 -> 0 <= n2 -> bytes_at m off (n1 + n2) = bytes_at m off n1 ++ bytes_at m (off + n1) n2.
Proof. intros H1 H2. unfold bytes_at. rewrite seqZ_app by assumption. apply fmap_app. Qed.

Lemma bytes_at_upd m off bs : bytes_at (upd m off bs) off (Z.of_nat (length bs)) = bs.
Proof.
  apply list_eq_same_length with (n := length bs); [reflexivity|rewrite bytes_at_length; lia|].
  intros i x y Hi. rewrite bytes_at_lookup by lia. unfold upd.
  destruct ((off <=? off + Z.of_nat i) && (off + Z.of_nat i <? off + Z.of_nat (length bs))) eqn:E; [|lia].
  replace (Z.to_nat (off + Z.of_nat i - off)) with i by lia. intros [= <-] Hy. rewrite Hy. reflexivity.
Qed.

Lemma upd_out m off bs a : a < off \/ off + Z.of_nat (length bs) <= a -> upd m off bs a = m a.
Proof. intros Ha. unfold upd. destruct (_ && _) eqn:E; [lia|reflexivity]. Qed.

Lemma upd_nil m off : same m (upd m off []).
Proof. intros a. apply upd_out. cbn. lia. Qed.

Lemma bytes_at_upd_out m off bs o n :
  o + n <= off \/ off + Z.of_nat (length bs) <= o -> bytes_at (upd m off bs) o n = bytes_at m o n.
Proof. intros Ho. apply bytes_at_ext. intros a Ha. apply upd_out. lia. Qed.

Lemma upd_in m off bs a : off <= a < off + Z.of_nat (length bs) -> upd m off bs a = default 0 (bs !! Z.to_nat (a - off)).
Proof. intros Ha. unfold upd. rewrite (proj2 (Z.leb_le _ _)), (proj2 (Z.ltb_lt _ _)) by lia. reflexivity. Qed.

Lemma upd_take_app m off b1 b2 : same (upd m off (b1 ++ b2)) (upd (upd m off b1) (off + Z.of_nat (length b1)) b2).
Proof.
  intros a. assert (Hl : Z.of_nat (length (b1 ++ b2)) = Z.of_nat (length b1) + Z.of_nat (length b2)) by (rewrite length_app; lia).
  assert (Hc : off + Z.of_nat (length b1) <= a < off + Z.of_nat (length b1) + Z.of_nat (length b2) \/
               off <= a < off + Z.of_nat (length b1) \/
               (a < off \/ off + Z.of_nat (length b1) + Z.of_nat (length b2) <= a)) by lia.
  destruct Hc as [Hc|[Hc|Hc]].
  - rewrite (upd_in (upd _ _ _)), upd_in, lookup_app_r by lia. do 2 f_equal. lia.
  - rewrite (upd_out (upd _ _ _)), !upd_in, lookup_app_l by lia. reflexivity.
  - rewrite !upd_out by lia. reflexivity.
Qed.

Lemma erased_bytes m off n : erased_in m off (off + n) -> bytes_at m off n = replicate (Z.to_nat n) 255.
Proof.
  intros H. apply list_eq_same_length with (n := Z.to_nat n); rewrite ?length_replicate, ?bytes_at_length; auto.
  intros i x y Hi. rewrite bytes_at_lookup by lia. rewrite lookup_replicate_2 by lia. intros [= <-] [= <-]. apply H. lia.
Qed.

(** ** What clients rely on *)

(** What a flash driver is assumed to do, an interruption by a power failure
    included.  That a read returns the content, that programming erased bytes
    stores them and that erasing a sector sets its bytes to 255 is the
    interface's documentation (hal_flash.h).  What an interrupted operation leaves
    is not documented there: it is assumed that programming has stored a
    prefix of the bytes, in the order of the addresses, and that an erasure
    is done as a whole or not at all.  A device whose interrupted erasure leaves
    a sector half erased, or whose programming tears in another order, is outside
    these laws, and what [Mfs] does on it is not covered. *)
Class FlashLaws (F : Type) `{BaseFlash F} := {
  fl_mem : F -> Z -> Z;
  fl_on : F -> bool;
  fl_power_on : F -> F;
  byte_law f a : 0 <= fl_mem f a < 256;
  read_law f off n :
    let '(f', (err, bs)) := flashRead off n f in
    same (fl_mem f) (fl_mem f') /\ fl_on f' = fl_on f /\ flashGetDescriptor f' = flashGetDescriptor f /\
    (if fl_on f then 0 <= off -> 0 <= n -> off + n <= fd_size (flashGetDescriptor f) ->
       err = FLASH_NO_ERROR /\ bs = bytes_at (fl_mem f) off n
     else err <> FLASH_NO_ERROR);
  program_law f off bs :
    let '(f', err) := flashProgram off bs f in
    flashGetDescriptor f' = flashGetDescriptor f /\
    (if fl_on f then
       0 <= off -> off + Z.of_nat (length bs) <= fd_size (flashGetDescriptor f) ->
       erased_in (fl_mem f) off (off + Z.of_nat (length bs)) -> Forall (fun b => 0 <= b < 256) bs ->
       if fl_on f' then err = FLASH_NO_ERROR /\ same (upd (fl_mem f) off bs) (fl_mem f')
       else err <> FLASH_NO_ERROR /\ exists k, same (upd (fl_mem f) off (take k bs)) (fl_mem f')
     else same (fl_mem f) (fl_mem f') /\ fl_on f' = false /\ err <> FLASH_NO_ERROR);
  erase_law f sector lo size :
    flashGetSectorOffset f sector = Some lo -> flashGetSectorSize f sector = Some size -> 0 <= sector ->
    let '(f1, err1) := flashStartEraseSector sector f in
    flashGetDescriptor f1 = flashGetDescriptor f /\
    if bool_decide (err1 = FLASH_NO_ERROR) then
      fl_on f = true /\
      exists f2 err2, flashWaitErase f1 = Some (f2, err2) /\ flashGetDescriptor f2 = flashGetDescriptor f /\
        if fl_on f2 then err2 = FLASH_NO_ERROR /\ same (upd (fl_mem f) lo (replicate (Z.to_nat size) 255)) (fl_mem f2)
        else err2 <> FLASH_NO_ERROR /\
          (same (fl_mem f) (fl_mem f2) \/ same (upd (fl_mem f) lo (replicate (Z.to_nat size) 255)) (fl_mem f2))
    else same (fl_mem f) (fl_mem f1) /\ fl_on f1 = false;
  verify_law f sector lo size :
    flashGetSectorOffset f sector = Some lo -> flashGetSectorSize f sector = Some size -> 0 <= sector ->
    let '(f', err) := flashVerifyErase sector f in
    same (fl_mem f) (fl_mem f') /\ fl_on f' = fl_on f /\ flashGetDescriptor f' = flashGetDescriptor f /\
    (if fl_on f then
       err = FLASH_NO_ERROR /\ erased_in (fl_mem f) lo (lo + size) \/
       err = FLASH_ERROR_VERIFY /\ ~ erased_in (fl_mem f) lo (lo + size)
     else err <> FLASH_NO_ERROR);
  power_law f : fl_on (fl_power_on f) = true /\ same (fl_mem f) (fl_mem (fl_power_on f)) /\
    flashGetDescriptor (fl_power_on f) = flashGetDescriptor f
}.

(** ** A device

    Cells hold 255 unless programmed; programming clears bits.  [nor_fuel] is the
    number of cells that can be programmed and sectors erased before the power
    fails, if it does; [nor_later] are the numbers for the next times. *)

Record nor := Nor {
  nor_desc : flash_descriptor_t;
  nor_cells : gmap Z Z;
  nor_busy : bool;
  nor_fuel : option nat;
  nor_on : bool;
  nor_later : list nat
}.

Definition nor_byte (s : nor) (a : Z) : Z := default 255 (nor_cells s !! a) mod 256.

Definition nor_fail (s : nor) : nor := Nor (nor_desc s) (nor_cells s) false (nor_fuel s) false (nor_later s).

Definition nor_spend (s : nor) : option nor :=
  match nor_fuel s with
  | Some O => None
  | Some (S n) => Some (Nor (nor_desc s) (nor_cells s) (nor_busy s) (Some n) (nor_on s) (nor_later s))
  | None => Some s
  end.

Definition nor_set (a b : Z) (s : nor) : nor :=
  Nor (nor_desc s) (<[a := Z.land (nor_byte s a) b]> (nor_cells s)) (nor_busy s) (nor_fuel s) (nor_on s) (nor_later s).

Definition nor_read (off n : Z) (s : nor) : nor * (flash_error_t * list Z) :=
  if nor_on s then (s, (FLASH_NO_ERROR, bytes_at (nor_byte s) off n)) else (s, (FLASH_ERROR_HW_FAILURE, [])).

Fixpoint nor_program_from (off : Z) (bs : list Z) (s : nor) : nor * flash_error_t :=
  match bs with
  | [] => (s, FLASH_NO_ERROR)
  | b :: bs =>
      match nor_spend s with
      | None => (nor_fail s, FLASH_ERROR_HW_FAILURE)
      | Some s => nor_program_from (off + 1) bs (nor_set off b s)
      end
  end.

Definition nor_program (off : Z) (bs : list Z) (s : nor) : nor * flash_error_t :=
  if nor_on s then nor_program_from off bs s else (s, FLASH_ERROR_HW_FAILURE).

Definition nor_erase (sector : Z) (s : nor) : nor * flash_error_t :=
  if nor_on s then
    match nor_spend s, sector_offset (nor_desc s) sector, sector_size (nor_desc s) sector with
    | Some s, Some lo, Some size =>
        (Nor (nor_desc s) (filter (fun kv => ~ lo <= kv.1 < lo + size) (nor_cells s)) true (nor_fuel s) (nor_on s) (nor_later s),
         FLASH_NO_ERROR)
    | _, _, _ => (nor_fail s, FLASH_ERROR_HW_FAILURE)
    end
  else (s, FLASH_ERROR_HW_FAILURE).

Definition nor_query (s : nor) : nor * (flash_error_t * Z) :=
  if nor_on s then
    if nor_busy s then (Nor (nor_desc s) (nor_cells s) false (nor_fuel s) (nor_on s) (nor_later s), (FLASH_BUSY_ERASING, 1))
    else (s, (FLASH_NO_ERROR, 0))
  else (s, (FLASH_ERROR_HW_FAILURE, 0)).

Definition nor_verify (sector : Z) (s : nor) : nor * flash_error_t :=
  if nor_on s then
    match sector_offset (nor_desc s) sector, sector_size (nor_desc s) sector with
    | Some lo, Some size =>
        (s, if forallb (fun a => nor_byte s a =? 255) (seqZ lo size) then FLASH_NO_ERROR else FLASH_ERROR_VERIFY)
    | _, _ => (s, FLASH_ERROR_HW_FAILURE)
    end
  else (s, FLASH_ERROR_HW_FAILURE).

Definition nor_power (s : nor) : nor := Nor (nor_desc s) (nor_cells s) false (head (nor_later s)) true (tail (nor_later s)).

#[export] Instance nor_flash : BaseFlash nor := {
  flashGetDescriptor := nor_desc;
  flashRead := nor_read;
  flashProgram := nor_program;
  flashStartEraseSector := nor_erase;
  flashQueryErase := nor_query;
  flashVerifyErase := nor_verify;
  fl_polls := 2
}.

Lemma nor_spend_byte s s' a : nor_spend s = Some s' -> nor_byte s' a = nor_byte s a /\ nor_desc s' = nor_desc s /\
  nor_on s' = nor_on s /\ nor_cells s' = nor_cells s.
Proof. unfold nor_spend. destruct (nor_fuel s) as [[|n]|]; intros [= <-]; auto. Qed.

Lemma land_255 b : 0 <= b < 256 -> Z.land 255 b = b.
Proof. intros Hb. rewrite Z.land_comm. change 255 with (Z.ones 8). rewrite Z.land_ones by lia. apply Z.mod_small. lia. Qed.

Lemma nor_set_byte a b s : nor_byte s a = 255 -> 0 <= b < 256 -> same (upd (nor_byte s) a [b]) (nor_byte (nor_set a b s)).
Proof.
  intros Ha Hb x. unfold nor_byte at 1, nor_set. cbn [nor_cells]. destruct (decide (x = a)) as [->|Hne].
  - rewrite lookup_insert_eq, Ha. cbn [default]. rewrite land_255, Z.mod_small by exact Hb.
    rewrite upd_in by (cbn; lia). rewrite Z.sub_diag. reflexivity.
  - rewrite lookup_insert_ne by congruence. rewrite upd_out by (cbn; lia). reflexivity.
Qed.

Lemma same_trans m1 m2 m3 : same m1 m2 -> same m2 m3 -> same m1 m3.
Proof. intros H1 H2 a. rewrite H2. apply H1. Qed.

Lemma same_upd m m' off bs : same m m' -> same (upd m off bs) (upd m' off bs).
Proof. intros H a. unfold upd. destruct (_ && _); [reflexivity|apply H]. Qed.

Lemma nor_program_spec bs : forall off s,
  nor_on s = true -> erased_in (nor_byte s) off (off + Z.of_nat (length bs)) -> Forall (fun b => 0 <= b < 256) bs ->
  let '(s', err) := nor_program_from off bs s in
  nor_desc s' = nor_desc s /\
  if nor_on s' then err = FLASH_NO_ERROR /\ same (upd (nor_byte s) off bs) (nor_byte s')
  else err <> FLASH_NO_ERROR /\ exists k, same (upd (nor_byte s) off (take k bs)) (nor_byte s').
Proof.
  induction bs as [|b bs IH]; intros off s Hon He Hb; cbn [nor_program_from].
  - split; [reflexivity|]. rewrite Hon. split; [reflexivity|]. intros a. symmetry. apply upd_nil.
  - apply Forall_cons in Hb as [Hb Hbs]. destruct (nor_spend s) as [s1|] eqn:Es.
    + destruct (nor_spend_byte s s1 off Es) as (Eb & Ed & Eo & Ec).
      assert (Em : nor_byte s1 = nor_byte s) by (unfold nor_byte; rewrite Ec; reflexivity).
      assert (H1 : same (upd (nor_byte s) off [b]) (nor_byte (nor_set off b s1))).
      { rewrite <- Em. apply nor_set_byte; [rewrite Em; apply He; cbn; lia|exact Hb]. }
      specialize (IH (off + 1) (nor_set off b s1)). cbn [nor_on nor_set nor_desc] in IH.
      destruct (nor_program_from (off + 1) bs (nor_set off b s1)) as [s' err].
      destruct IH as [Hd IH]; [congruence| |exact Hbs|].
      { intros a Ha. rewrite H1, upd_out by (cbn; lia). apply He. cbn [length]. lia. }
      split; [congruence|]. destruct (nor_on s').
      * destruct IH as [He' IH]. split; [exact He'|]. eapply same_trans; [|exact IH].
        eapply same_trans; [apply (upd_take_app _ _ [b] bs)|]. apply same_upd, H1.
      * destruct IH as [He' (k & IH)]. split; [exact He'|]. exists (S k). eapply same_trans; [|exact IH]. cbn [take].
        eapply same_trans; [apply (upd_take_app _ _ [b] (take k bs))|]. apply same_upd, H1.
    + split; [reflexivity|]. cbn. split; [discriminate|]. exists O. cbn. intros a. symmetry. apply upd_nil.
Qed.

Lemma nor_erase_byte s lo size a :
  nor_byte (Nor (nor_desc s) (filter (fun kv => ~ lo <= kv.1 < lo + size) (nor_cells s)) true (nor_fuel s) (nor_on s) (nor_later s)) a =
  upd (nor_byte s) lo (replicate (Z.to_nat size) 255) a.
Proof.
  unfold nor_byte at 1. cbn [nor_cells]. destruct (decide (lo <= a < lo + size)) as [Hin|Hout].
  - rewrite upd_in by (rewrite length_replicate; lia). rewrite lookup_replicate_2 by lia.
    rewrite (proj2 (map_lookup_filter_None _ _ _)); [reflexivity|]. right. intros x _ Hx. apply Hx. exact Hin.
  - rewrite upd_out by (rewrite length_replicate; lia). unfold nor_byte. f_equal. f_equal.
    destruct (nor_cells s !! a) as [x|] eqn:E.
    + apply map_lookup_filter_Some. auto.
    + apply map_lookup_filter_None. auto.
Qed.

Lemma nor_erase_law s sector lo size :
  sector_offset (nor_desc s) sector = Some lo -> sector_size (nor_desc s) sector = Some size ->
  let '(s1, err1) := nor_erase sector s in
  nor_desc s1 = nor_desc s /\
  if bool_decide (err1 = FLASH_NO_ERROR) then
    nor_on s = true /\
    exists s2 err2, flashWaitErase s1 = Some (s2, err2) /\ nor_desc s2 = nor_desc s /\
      if nor_on s2 then err2 = FLASH_NO_ERROR /\ same (upd (nor_byte s) lo (replicate (Z.to_nat size) 255)) (nor_byte s2)
      else err2 <> FLASH_NO_ERROR /\
        (same (nor_byte s) (nor_byte s2) \/ same (upd (nor_byte s) lo (replicate (Z.to_nat size) 255)) (nor_byte s2))
  else same (nor_byte s) (nor_byte s1) /\ nor_on s1 = false.
Proof.
  intros Elo Esz. unfold nor_erase. rewrite Elo, Esz. destruct (nor_on s) eqn:Hon; [|split; [reflexivity|]].
  - destruct (nor_spend s) as [s1|] eqn:Es; [|split; [reflexivity|split; [intros a|]; reflexivity]].
    destruct (nor_spend_byte s s1 0 Es) as (_ & Ed & Eo & Ec). split; [exact Ed|].
    rewrite bool_decide_eq_true_2 by reflexivity. split; [reflexivity|]. eexists _, _.
    unfold flashWaitErase, fl_polls, nor_flash, flash_wait, flashQueryErase, nor_query. cbn [nor_on nor_busy].
    rewrite Eo, Hon. cbn [nor_on nor_busy]. split; [reflexivity|]. cbn [nor_on nor_desc]. split; [exact Ed|].
    split; [reflexivity|]. intros a. rewrite <- nor_erase_byte. unfold nor_byte. cbn [nor_cells]. rewrite Ec. reflexivity.
  - split; [intros a; reflexivity|exact Hon].
Qed.

#[export] Instance nor_laws : FlashLaws nor.
Proof.
  refine {| fl_mem := nor_byte; fl_on := nor_on; fl_power_on := nor_power |}; intros.
  - apply Z.mod_pos_bound. lia.
  - cbn. unfold nor_read. destruct (nor_on f) eqn:E; split_and!; try reflexivity; try exact E; intros; try intros a; auto; discriminate.
  - cbn. unfold nor_program. destruct (nor_on f) eqn:E.
    + destruct (nor_program_from off bs f) as [s' err] eqn:Ep. split.
      * revert off f E Ep. induction bs as [|b bs IH]; intros off f E; cbn; [intros [= <- <-]; reflexivity|].
        destruct (nor_spend f) as [s1|] eqn:Es; [|intros [= <- <-]; reflexivity]. intros Ep.
        destruct (nor_spend_byte f s1 off Es) as (_ & Ed & Eo & _). rewrite <- Ed. apply (IH (off + 1) (nor_set off b s1)); [cbn; congruence|exact Ep].
      * intros H1 H2 H3 H4. pose proof (nor_program_spec bs off f E H3 H4) as H. rewrite Ep in H. apply H.
    + split; [reflexivity|]. split; [intros a; reflexivity|]. split; [exact E|discriminate].
  - apply nor_erase_law; assumption.
  - cbn in *. unfold nor_verify. unfold flashGetSectorOffset, flashGetSectorSize in *. cbn in *. rewrite H, H0.
    destruct (nor_on f) eqn:E; cbn; [|split; [intros a; reflexivity|]; split; [exact E|]; split; [reflexivity|discriminate]].
    split; [intros a; reflexivity|]. split; [exact E|]. split; [reflexivity|].
    destruct (forallb _ _) eqn:Ef.
    + left. split; [reflexivity|]. intros a Ha. rewrite forallb_forall in Ef. apply Z.eqb_eq, Ef.
      apply list_elem_of_In, elem_of_seqZ. lia.
    + right. split; [reflexivity|]. intros He. apply not_true_iff_false in Ef. apply Ef, forallb_forall.
      intros a Ha. apply list_elem_of_In, elem_of_seqZ in Ha. apply Z.eqb_eq, He. lia.
  - split; [reflexivity|]. split; [intros a|]; reflexivity.
Defined.
