(* ===== verification/Mfs.v ===== *)
(** * Managed flash storage (hal_mfs.c)

    Records with numbers, kept as a log in one of two banks of a flash device; when
    the bank is full the live records are copied to the other one.  The functions of
    hal_mfs.c are programs of the monad [MFS] over the driver's variables and the
    device, in the order of the source, the shared buffer [ncbuf] included: it holds
    headers as bytes, and a write from it is verified against it.  [None] is a failed
    assertion or an access out of range. *)

From S2P Require Import Prelude CInt Words Crc16 Flash.
#[local] Open Scope Z_scope.

(** ** Constants *)

Definition MFS_BANK_MAGIC_1 : Z := 0xEC705ADE.
Definition MFS_BANK_MAGIC_2 : Z := 0xF0339CC5.
Definition MFS_HEADER_MAGIC_1 : Z := 0x5FAE45F0.
Definition MFS_HEADER_MAGIC_2 : Z := 0xF045AE5F.

Definition MFS_CFG_MAX_RECORDS : nat := 32.
Definition MFS_CFG_MAX_REPAIR_ATTEMPTS : nat := 3.
Definition MFS_CFG_BUFFER_SIZE : Z := 32.
Definition MFS_CFG_MEMORY_ALIGNMENT : Z := 2.
Definition MFS_CFG_TRANSACTION_MAX : nat := 16.

Definition MFS_ALIGN_MASK : Z := u32 (MFS_CFG_MEMORY_ALIGNMENT - 1).
Definition MFS_ALIGN_PREV (v : Z) : Z := Z.land (u32 v) (Z.lxor MFS_ALIGN_MASK (2 ^ 32 - 1)).
Definition MFS_ALIGN_NEXT (v : Z) : Z := u32 (MFS_ALIGN_PREV (u32 v - 1) + MFS_CFG_MEMORY_ALIGNMENT).

Definition sizeof_mfs_data_header_t : Z := 16.
Definition sizeof_mfs_bank_header_t : Z := 16.
Definition ALIGNED_REC_SIZE (n : Z) : Z := MFS_ALIGN_NEXT (u32 (sizeof_mfs_data_header_t + n)).
Definition ALIGNED_DHDR_SIZE : Z := ALIGNED_REC_SIZE 0.
Definition ALIGNED_SIZEOF_BHDR : Z := u32 (Z.lor (sizeof_mfs_bank_header_t - 1) MFS_ALIGN_MASK + 1).

(** ** Data *)

Inductive mfs_bank_t := MFS_BANK_0 | MFS_BANK_1.
Inductive mfs_state_t := MFS_UNINIT | MFS_STOP | MFS_READY | MFS_TRANSACTION | MFS_ERROR.
Inductive mfs_error_t :=
| MFS_NO_ERROR | MFS_WARN_REPAIR | MFS_WARN_GC
| MFS_ERR_INV_STATE | MFS_ERR_INV_SIZE | MFS_ERR_NOT_FOUND | MFS_ERR_OUT_OF_MEM
| MFS_ERR_TRANSACTION_NUM | MFS_ERR_TRANSACTION_SIZE | MFS_ERR_NOT_ERASED
| MFS_ERR_FLASH_FAILURE | MFS_ERR_INTERNAL.
Inductive mfs_bank_state_t := MFS_BANK_ERASED | MFS_BANK_OK | MFS_BANK_GARBAGE.

#[export] Instance mfs_bank_dec : EqDecision mfs_bank_t. Proof. solve_decision. Defined.
#[export] Instance mfs_state_dec : EqDecision mfs_state_t. Proof. solve_decision. Defined.
#[export] Instance mfs_error_dec : EqDecision mfs_error_t. Proof. solve_decision. Defined.
#[export] Instance mfs_bank_state_dec : EqDecision mfs_bank_state_t. Proof. solve_decision. Defined.

Definition MFS_IS_ERROR (err : mfs_error_t) : bool :=
  match err with MFS_NO_ERROR | MFS_WARN_REPAIR | MFS_WARN_GC => false | _ => true end.

Record mfs_record_descriptor_t := Descriptor { rd_offset : Z; rd_size : Z }.

(** The driver and its device are the state. *)
Record MFSConfig := Config {
  cfg_erased : Z;
  cfg_bank_size : Z;
  cfg_bank0_start : Z;
  cfg_bank0_sectors : Z;
  cfg_bank1_start : Z;
  cfg_bank1_sectors : Z
}.

Record mfs_transaction_op_t := TrOp { op_offset : Z; op_size : Z; op_id : Z }.

(** [m_tr_ops] are the [tr_nops] first entries of the array. *)
Record MFSDriver := Driver {
  m_state : mfs_state_t;
  m_config : option MFSConfig;
  m_bank : mfs_bank_t;
  m_counter : Z;
  m_next : Z;
  m_used : Z;
  m_descs : list mfs_record_descriptor_t;
  m_tr_next : Z;
  m_tr_limit : Z;
  m_tr_ops : list mfs_transaction_op_t;
  m_ncbuf : list Z
}.

Definition with_state st d := Driver st (m_config d) (m_bank d) (m_counter d) (m_next d) (m_used d) (m_descs d)
  (m_tr_next d) (m_tr_limit d) (m_tr_ops d) (m_ncbuf d).
Definition with_config c d := Driver (m_state d) c (m_bank d) (m_counter d) (m_next d) (m_used d) (m_descs d)
  (m_tr_next d) (m_tr_limit d) (m_tr_ops d) (m_ncbuf d).
Definition with_bank b cnt d := Driver (m_state d) (m_config d) b cnt (m_next d) (m_used d) (m_descs d)
  (m_tr_next d) (m_tr_limit d) (m_tr_ops d) (m_ncbuf d).
Definition with_next_offset n d := Driver (m_state d) (m_config d) (m_bank d) (m_counter d) n (m_used d) (m_descs d)
  (m_tr_next d) (m_tr_limit d) (m_tr_ops d) (m_ncbuf d).
Definition with_used u d := Driver (m_state d) (m_config d) (m_bank d) (m_counter d) (m_next d) u (m_descs d)
  (m_tr_next d) (m_tr_limit d) (m_tr_ops d) (m_ncbuf d).
Definition with_descs ds d := Driver (m_state d) (m_config d) (m_bank d) (m_counter d) (m_next d) (m_used d) ds
  (m_tr_next d) (m_tr_limit d) (m_tr_ops d) (m_ncbuf d).
Definition with_tr next limit ops d := Driver (m_state d) (m_config d) (m_bank d) (m_counter d) (m_next d) (m_used d)
  (m_descs d) next limit ops (m_ncbuf d).
Definition with_ncbuf buf d := Driver (m_state d) (m_config d) (m_bank d) (m_counter d) (m_next d) (m_used d)
  (m_descs d) (m_tr_next d) (m_tr_limit d) (m_tr_ops d) buf.

Definition no_record : mfs_record_descriptor_t := Descriptor 0 0.

(** *** Words in the buffer *)

(** The fields of the two headers. *)
Definition f_magic1 := get_le 4 0.
Definition f_magic2 := get_le 4 4.
Definition dhdr_id := get_le 2 8.
Definition dhdr_crc := get_le 2 10.
Definition dhdr_size := get_le 4 12.
Definition bhdr_counter := get_le 4 8.
Definition bhdr_reserved1 := get_le 2 12.
Definition bhdr_crc := get_le 2 14.

(** ** Programs *)

Section MfsPrograms.
Context {F : Type} `{BaseFlash F}.

Record mfs_sys := MfsSys { s_drv : MFSDriver; s_fl : F }.

Definition MFS (A : Type) : Type := mfs_sys -> option (mfs_sys * A).

#[local] Instance mfs_ret : MRet MFS := fun A a s => Some (s, a).
#[local] Instance mfs_bind : MBind MFS := fun A B k m s =>
  match m s with Some (s, a) => k a s | None => None end.

Definition lift {A} (o : option A) : MFS A := fun s => match o with Some a => Some (s, a) | None => None end.
Definition assert (b : bool) : MFS unit := lift (check b).
Definition drv : MFS MFSDriver := fun s => Some (s, s_drv s).
Definition modify (f : MFSDriver -> MFSDriver) : MFS unit := fun s => Some (MfsSys (f (s_drv s)) (s_fl s), tt).
Definition dev {A} (f : F -> F * A) : MFS A := fun s => let '(fl, a) := f (s_fl s) in Some (MfsSys (s_drv s) fl, a).
Definition flash : MFS F := fun s => Some (s, s_fl s).

(** [RET_ON_ERROR], in functions that return an error only, or with something else. *)
Definition ret_on_error {A} (other : mfs_error_t -> A) (m : MFS mfs_error_t) (k : MFS A) : MFS A :=
  err ← m; if decide (err = MFS_NO_ERROR) then k else mret (other err).
Definition RET_ON_ERROR := @ret_on_error mfs_error_t id.

Definition config : MFS MFSConfig := d ← drv; lift (m_config d).

Definition mfs_state_reset : MFS unit :=
  modify (fun d => with_bank MFS_BANK_0 0 (with_next_offset 0 (with_used 0
    (with_descs (replicate MFS_CFG_MAX_RECORDS no_record) d)))).

Definition mfs_flash_get_bank_offset (bank : mfs_bank_t) : MFS Z :=
  cfg ← config;
  fl ← flash;
  lift (flashGetSectorOffset fl match bank with MFS_BANK_0 => cfg_bank0_start cfg | MFS_BANK_1 => cfg_bank1_start cfg end).

(** *** Device access *)

(** The status of a device call; a failure stops the driver. *)
Definition flash_status (ferr : flash_error_t) : MFS mfs_error_t :=
  if decide (ferr = FLASH_NO_ERROR) then mret MFS_NO_ERROR
  else modify (with_state MFS_ERROR);; mret MFS_ERR_FLASH_FAILURE.

Definition mfs_flash_read (offset n : Z) : MFS (mfs_error_t * list Z) :=
  '(ferr, bs) ← dev (flashRead offset n); err ← flash_status ferr; mret (err, bs).

(** The same to the buffer's first cells. *)
Definition mfs_flash_read_ncbuf (offset n : Z) : MFS mfs_error_t :=
  d ← drv;
  assert (n <=? Z.of_nat (length (m_ncbuf d)));;
  '(err, bs) ← mfs_flash_read offset n;
  modify (fun d => with_ncbuf (set_bytes 0 bs (m_ncbuf d)) d);;
  mret err.

(** What is written: a part of the buffer, or memory of the caller. *)
Inductive wsource :=
| Ncbuf (i : Z)
| Memory (bs : list Z).

Definition source_bytes (wp : wsource) (off n : Z) : MFS (list Z) :=
  d ← drv;
  let from := match wp with Ncbuf i => drop (Z.to_nat i) (m_ncbuf d) | Memory bs => bs end in
  assert (off + n <=? Z.of_nat (length from));;
  mret (take (Z.to_nat n) (drop (Z.to_nat off) from)).

(** The written data is read back to the buffer, in pieces, and compared. *)
Fixpoint verify_write (fuel : nat) (offset n : Z) (wp : wsource) (pos : Z) : MFS mfs_error_t :=
  match fuel with
  | O => lift None
  | S fuel =>
      if 0 <? n then
        let chunk := if n <=? MFS_CFG_BUFFER_SIZE then n else MFS_CFG_BUFFER_SIZE in
        RET_ON_ERROR (mfs_flash_read_ncbuf offset chunk)
        (d ← drv;
         bs ← source_bytes wp pos chunk;
         if negb (bool_decide (take (Z.to_nat chunk) (m_ncbuf d) = bs)) then
           modify (with_state MFS_ERROR);; mret MFS_ERR_FLASH_FAILURE
         else verify_write fuel (u32 (offset + chunk)) (n - chunk) wp (pos + chunk))
      else mret MFS_NO_ERROR
  end.

Definition mfs_flash_write (offset n : Z) (wp : wsource) : MFS mfs_error_t :=
  bs ← source_bytes wp 0 n;
  ferr ← dev (flashProgram offset bs);
  if decide (ferr = FLASH_NO_ERROR) then verify_write (S (Z.to_nat n)) offset n wp 0
  else modify (with_state MFS_ERROR);; mret MFS_ERR_FLASH_FAILURE.

Fixpoint flash_copy (fuel : nat) (doffset soffset n : Z) : MFS mfs_error_t :=
  match fuel with
  | O => lift None
  | S fuel =>
      if 0 <? n then
        let chunk := u32 (u32 (Z.lor doffset (MFS_CFG_BUFFER_SIZE - 1) + 1) - doffset) in
        let chunk := if n <? chunk then n else chunk in
        RET_ON_ERROR (mfs_flash_read_ncbuf soffset chunk)
        (RET_ON_ERROR (mfs_flash_write doffset chunk (Ncbuf 0))
        (flash_copy fuel (u32 (doffset + chunk)) (u32 (soffset + chunk)) (n - chunk)))
      else mret MFS_NO_ERROR
  end.
Definition mfs_flash_copy (doffset soffset n : Z) : MFS mfs_error_t :=
  flash_copy (S (Z.to_nat n)) doffset soffset n.

(** *** Banks *)

Definition bank_sectors (bank : mfs_bank_t) : MFS (Z * Z) :=
  cfg ← config;
  mret match bank with
       | MFS_BANK_0 => (cfg_bank0_start cfg, cfg_bank0_sectors cfg)
       | MFS_BANK_1 => (cfg_bank1_start cfg, cfg_bank1_sectors cfg)
       end.

Fixpoint erase_sectors (n : nat) (sector : Z) : MFS mfs_error_t :=
  match n with
  | O => mret MFS_NO_ERROR
  | S n =>
      ferr ← dev (flashStartEraseSector sector);
      RET_ON_ERROR (flash_status ferr)
      (s ← flash;
       '(fl, ferr) ← lift (flashWaitErase s);
       dev (fun _ => (fl, tt));;
       RET_ON_ERROR (flash_status ferr)
       (ferr ← dev (flashVerifyErase sector);
        RET_ON_ERROR (flash_status ferr)
        (erase_sectors n (sector + 1))))
  end.

Definition mfs_bank_erase (bank : mfs_bank_t) : MFS mfs_error_t :=
  '(sector, n) ← bank_sectors bank; erase_sectors (Z.to_nat n) sector.

Fixpoint verify_sectors (n : nat) (sector : Z) : MFS mfs_error_t :=
  match n with
  | O => mret MFS_NO_ERROR
  | S n =>
      ferr ← dev (flashVerifyErase sector);
      if decide (ferr = FLASH_ERROR_VERIFY) then mret MFS_ERR_NOT_ERASED
      else RET_ON_ERROR (flash_status ferr) (verify_sectors n (sector + 1))
  end.

Definition mfs_bank_verify_erase (bank : mfs_bank_t) : MFS mfs_error_t :=
  '(sector, n) ← bank_sectors bank; verify_sectors (Z.to_nat n) sector.

(** The header's bytes are all but the checksum. *)
Definition bhdr_fill (cfg : MFSConfig) (cnt : Z) (buf : list Z) : list Z :=
  let buf := put_le 4 0 MFS_BANK_MAGIC_1 buf in
  let buf := put_le 4 4 MFS_BANK_MAGIC_2 buf in
  let buf := put_le 4 8 cnt buf in
  let buf := put_le 2 12 (u16 (cfg_erased cfg)) buf in
  put_le 2 14 (crc16 0xFFFF (take 14 buf)) buf.

Definition mfs_bank_write_header (bank : mfs_bank_t) (cnt : Z) : MFS mfs_error_t :=
  cfg ← config;
  modify (fun d => with_ncbuf (bhdr_fill cfg cnt (m_ncbuf d)) d);;
  offset ← mfs_flash_get_bank_offset bank;
  mfs_flash_write offset sizeof_mfs_bank_header_t (Ncbuf 0).

Definition bhdr_check (erased : Z) (buf : list Z) : mfs_bank_state_t :=
  if (get_le 4 0 buf =? erased) && (get_le 4 4 buf =? erased) && (get_le 4 8 buf =? erased) && (get_le 4 12 buf =? erased)
  then MFS_BANK_ERASED
  else if negb (f_magic1 buf =? MFS_BANK_MAGIC_1) || negb (f_magic2 buf =? MFS_BANK_MAGIC_2) ||
          (bhdr_counter buf =? erased) || negb (bhdr_reserved1 buf =? u16 erased)
  then MFS_BANK_GARBAGE
  else if negb (crc16 0xFFFF (take 14 buf) =? bhdr_crc buf) then MFS_BANK_GARBAGE
  else MFS_BANK_OK.

Definition mfs_bank_check_header : MFS mfs_bank_state_t :=
  cfg ← config; d ← drv; mret (bhdr_check (cfg_erased cfg) (m_ncbuf d)).

(** *** The scan of a bank *)

(** The checksum of a record's data, in pieces. *)
Fixpoint crc_data (fuel : nat) (data total crc : Z) : MFS (mfs_error_t * Z) :=
  match fuel with
  | O => lift None
  | S fuel =>
      if 0 <? total then
        let chunk := if MFS_CFG_BUFFER_SIZE <? total then MFS_CFG_BUFFER_SIZE else total in
        ret_on_error (fun err => (err, crc)) (mfs_flash_read_ncbuf data chunk)
        (d ← drv;
         crc_data fuel (u32 (data + chunk)) (total - chunk) (crc16 crc (take (Z.to_nat chunk) (m_ncbuf d))))
      else mret (MFS_NO_ERROR, crc)
  end.

Definition set_desc (id : Z) (rd : mfs_record_descriptor_t) : MFS unit :=
  d ← drv;
  assert ((1 <=? id) && (id <=? Z.of_nat (length (m_descs d))));;
  modify (with_descs (<[Z.to_nat (id - 1) := rd]> (m_descs d))).

Definition get_desc (id : Z) : MFS mfs_record_descriptor_t :=
  d ← drv; assert (1 <=? id);; lift (m_descs d !! Z.to_nat (id - 1)).

(** What the test of a header in the buffer finds. *)
Inductive dhdr_state_t := DHDR_ERASED | DHDR_BAD | DHDR_OK.

Definition dhdr_check (erased space : Z) (buf : list Z) : dhdr_state_t :=
  if (get_le 4 0 buf =? erased) && (get_le 4 4 buf =? erased) && (get_le 4 8 buf =? erased) then DHDR_ERASED
  else if negb (f_magic1 buf =? MFS_HEADER_MAGIC_1) || negb (f_magic2 buf =? MFS_HEADER_MAGIC_2) ||
          (dhdr_id buf <? 1) || (Z.of_nat MFS_CFG_MAX_RECORDS <? dhdr_id buf) || (space <? dhdr_size buf)
  then DHDR_BAD else DHDR_OK.

(** The offset where the scan ends, and the warning flag. *)
Fixpoint scan_from (fuel : nat) (hdr_offset end_offset : Z) (wflag : bool) : MFS (mfs_error_t * Z * bool) :=
  match fuel with
  | O => lift None
  | S fuel =>
      if hdr_offset <? u32 (end_offset - ALIGNED_DHDR_SIZE) then
        ret_on_error (fun err => (err, hdr_offset, wflag)) (mfs_flash_read_ncbuf hdr_offset sizeof_mfs_data_header_t)
        (cfg ← config;
         d ← drv;
         let dhdr := m_ncbuf d in
         match dhdr_check (cfg_erased cfg) (u32 (end_offset - hdr_offset)) dhdr with
         | DHDR_ERASED => mret (MFS_NO_ERROR, hdr_offset, wflag)
         | DHDR_BAD => mret (MFS_NO_ERROR, hdr_offset, true)
         | DHDR_OK =>
             let size := dhdr_size dhdr in
             '(err, crc) ← crc_data (S (Z.to_nat size)) (u32 (hdr_offset + sizeof_mfs_data_header_t)) size 0xFFFF;
             if decide (err = MFS_NO_ERROR) then
               if negb (crc =? dhdr_crc dhdr) then
                 scan_from fuel (u32 (hdr_offset + ALIGNED_REC_SIZE size)) end_offset true
               else
                 set_desc (dhdr_id dhdr) (if size =? 0 then no_record else Descriptor hdr_offset size);;
                 scan_from fuel (u32 (hdr_offset + ALIGNED_REC_SIZE size)) end_offset wflag
             else mret (err, hdr_offset, wflag)
         end)
      else mret (MFS_NO_ERROR, hdr_offset, wflag)
  end.

Definition mfs_bank_scan_records (bank : mfs_bank_t) : MFS (mfs_error_t * bool) :=
  cfg ← config;
  start_offset ← mfs_flash_get_bank_offset bank;
  let hdr_offset := u32 (start_offset + ALIGNED_SIZEOF_BHDR) in
  let end_offset := u32 (start_offset + cfg_bank_size cfg) in
  '(err, hdr_offset, wflag) ← scan_from (S (Z.to_nat (cfg_bank_size cfg))) hdr_offset end_offset false;
  if decide (err = MFS_NO_ERROR) then modify (with_next_offset hdr_offset);; mret (MFS_NO_ERROR, wflag)
  else mret (err, wflag).

(** The state of a bank and its counter. *)
Definition mfs_bank_get_state (bank : mfs_bank_t) : MFS (mfs_error_t * mfs_bank_state_t * Z) :=
  offset ← mfs_flash_get_bank_offset bank;
  ret_on_error (fun err => (err, MFS_BANK_GARBAGE, 0)) (mfs_flash_read_ncbuf offset sizeof_mfs_bank_header_t)
  (d ← drv;
   let cnt := bhdr_counter (m_ncbuf d) in
   sts ← mfs_bank_check_header;
   if decide (sts = MFS_BANK_ERASED) then
     err ← mfs_bank_verify_erase bank;
     mret (MFS_NO_ERROR, if decide (err = MFS_ERR_NOT_ERASED) then MFS_BANK_GARBAGE else sts, cnt)
   else mret (MFS_NO_ERROR, sts, cnt)).

(** *** Garbage collection *)

Definition other_bank (bank : mfs_bank_t) : mfs_bank_t :=
  match bank with MFS_BANK_0 => MFS_BANK_1 | MFS_BANK_1 => MFS_BANK_0 end.

(** The records from number [i] + 1 on; the offset behind the last copy. *)
Fixpoint gc_copy (n i : nat) (dest_offset : Z) : MFS (mfs_error_t * Z) :=
  match n with
  | O => mret (MFS_NO_ERROR, dest_offset)
  | S n =>
      d ← drv;
      rd ← lift (m_descs d !! i);
      let totsize := ALIGNED_REC_SIZE (rd_size rd) in
      if negb (rd_offset rd =? 0) then
        ret_on_error (fun err => (err, dest_offset)) (mfs_flash_copy dest_offset (rd_offset rd) totsize)
        (modify (fun d => with_descs (<[i := Descriptor dest_offset (rd_size rd)]> (m_descs d)) d);;
         gc_copy n (S i) (u32 (dest_offset + totsize)))
      else gc_copy n (S i) dest_offset
  end.

Definition mfs_garbage_collect : MFS mfs_error_t :=
  d ← drv;
  let sbank := m_bank d in
  let dbank := other_bank sbank in
  start ← mfs_flash_get_bank_offset dbank;
  '(err, dest_offset) ← gc_copy MFS_CFG_MAX_RECORDS 0 (u32 (start + ALIGNED_SIZEOF_BHDR));
  if decide (err = MFS_NO_ERROR) then
    modify (fun d => with_next_offset dest_offset (with_bank dbank (u32 (m_counter d + 1)) d));;
    d ← drv;
    RET_ON_ERROR (mfs_bank_write_header dbank (m_counter d))
    (RET_ON_ERROR (mfs_bank_erase sbank) (mret MFS_NO_ERROR))
  else mret err.

(** *** Mounting *)

(** The recovery for each pair of states: the bank to mount, and whether something
    was repaired. *)
Definition mount_recover (sts0 sts1 : mfs_bank_state_t) (cnt0 cnt1 : Z) : MFS (mfs_error_t * mfs_bank_t * bool) :=
  let ret bank w : MFS (mfs_error_t * mfs_bank_t * bool) := mret (MFS_NO_ERROR, bank, w) in
  let try (m : MFS mfs_error_t) (k : MFS (mfs_error_t * mfs_bank_t * bool)) := ret_on_error (fun err => (err, MFS_BANK_0, false)) m k in
  match sts0, sts1 with
  | MFS_BANK_ERASED, MFS_BANK_ERASED => try (mfs_bank_write_header MFS_BANK_0 1) (ret MFS_BANK_0 false)
  | MFS_BANK_OK, MFS_BANK_OK =>
      if cnt1 <? cnt0 then try (mfs_bank_erase MFS_BANK_1) (ret MFS_BANK_0 true)
      else try (mfs_bank_erase MFS_BANK_0) (ret MFS_BANK_1 true)
  | MFS_BANK_GARBAGE, MFS_BANK_GARBAGE =>
      try (mfs_bank_erase MFS_BANK_0)
      (try (mfs_bank_erase MFS_BANK_1)
      (try (mfs_bank_write_header MFS_BANK_0 1) (ret MFS_BANK_0 true)))
  | MFS_BANK_ERASED, MFS_BANK_OK => ret MFS_BANK_1 false
  | MFS_BANK_OK, MFS_BANK_ERASED => ret MFS_BANK_0 false
  | MFS_BANK_ERASED, MFS_BANK_GARBAGE =>
      try (mfs_bank_erase MFS_BANK_1) (try (mfs_bank_write_header MFS_BANK_0 1) (ret MFS_BANK_0 true))
  | MFS_BANK_GARBAGE, MFS_BANK_ERASED =>
      try (mfs_bank_erase MFS_BANK_0) (try (mfs_bank_write_header MFS_BANK_1 1) (ret MFS_BANK_1 true))
  | MFS_BANK_OK, MFS_BANK_GARBAGE => try (mfs_bank_erase MFS_BANK_1) (ret MFS_BANK_0 true)
  | MFS_BANK_GARBAGE, MFS_BANK_OK => try (mfs_bank_erase MFS_BANK_0) (ret MFS_BANK_1 true)
  end.

(** The space of the live records. *)
Fixpoint add_used (used : Z) (ds : list mfs_record_descriptor_t) : Z :=
  match ds with
  | [] => used
  | rd :: ds => add_used (if negb (rd_offset rd =? 0) then u32 (used + ALIGNED_REC_SIZE (rd_size rd)) else used) ds
  end.

Definition mfs_try_mount : MFS mfs_error_t :=
  mfs_state_reset;;
  '(err, sts0, cnt0) ← mfs_bank_get_state MFS_BANK_0;
  RET_ON_ERROR (mret err)
  ('(err, sts1, cnt1) ← mfs_bank_get_state MFS_BANK_1;
   RET_ON_ERROR (mret err)
   ('(err, bank, w1) ← mount_recover sts0 sts1 cnt0 cnt1;
    RET_ON_ERROR (mret err)
    (offset ← mfs_flash_get_bank_offset bank;
     RET_ON_ERROR (mfs_flash_read_ncbuf offset sizeof_mfs_bank_header_t)
     (sts ← mfs_bank_check_header;
      if negb (bool_decide (sts = MFS_BANK_OK)) then mret MFS_ERR_INTERNAL
      else
        modify (fun d => with_bank bank (bhdr_counter (m_ncbuf d)) d);;
        '(err, w2) ← mfs_bank_scan_records bank;
        RET_ON_ERROR (mret err)
        (modify (fun d => with_used (add_used ALIGNED_SIZEOF_BHDR (m_descs d)) d);;
         let result : MFS mfs_error_t := mret (if w1 || w2 then MFS_WARN_REPAIR else MFS_NO_ERROR) in
         if (w2 : bool) then RET_ON_ERROR mfs_garbage_collect result else result))))).

Fixpoint mount_attempts (n : nat) : MFS mfs_error_t :=
  match n with
  | O => modify (with_state MFS_ERROR);; mret MFS_ERR_FLASH_FAILURE
  | S n =>
      err ← mfs_try_mount;
      if decide (err = MFS_ERR_INTERNAL) then modify (with_state MFS_ERROR);; mret err
      else if negb (MFS_IS_ERROR err) then modify (with_state MFS_READY);; mret err
      else mount_attempts n
  end.

Definition mfs_mount : MFS mfs_error_t := mfs_state_reset;; mount_attempts MFS_CFG_MAX_REPAIR_ATTEMPTS.

(** ** The exported functions *)

(** The other fields of the new instance are zero, as static variables are. *)
Definition mfsObjectInit (ncbuf : list Z) : MFSDriver :=
  Driver MFS_STOP None MFS_BANK_0 0 0 0 (replicate MFS_CFG_MAX_RECORDS no_record) 0 0 [] ncbuf.

Definition mfs_started (st : mfs_state_t) : bool :=
  match st with MFS_STOP | MFS_READY | MFS_ERROR => true | _ => false end.

Definition mfsStart (cfg : MFSConfig) : MFS mfs_error_t :=
  d ← drv; assert (mfs_started (m_state d));; modify (with_config (Some cfg));; mfs_mount.

Definition mfsStop : MFS unit :=
  d ← drv; assert (mfs_started (m_state d));; modify (fun d => with_state MFS_STOP (with_config None d)).

Definition mfsErase : MFS mfs_error_t :=
  d ← drv;
  if negb (bool_decide (m_state d = MFS_READY)) then mret MFS_ERR_INV_STATE
  else RET_ON_ERROR (mfs_bank_erase MFS_BANK_0) (RET_ON_ERROR (mfs_bank_erase MFS_BANK_1) mfs_mount).

Definition valid_id (id : Z) : bool := (1 <=? id) && (id <=? Z.of_nat MFS_CFG_MAX_RECORDS).

(** A buffer of [np] bytes is read to; what it holds then. *)
Definition mfsReadRecord (id np : Z) : MFS (mfs_error_t * list Z) :=
  assert (valid_id id && (0 <? np));;
  d ← drv;
  if negb (bool_decide (m_state d = MFS_READY)) && negb (bool_decide (m_state d = MFS_TRANSACTION)) then mret (MFS_ERR_INV_STATE, [])
  else
    rd ← get_desc id;
    if rd_offset rd =? 0 then mret (MFS_ERR_NOT_FOUND, [])
    else if np <? rd_size rd then mret (MFS_ERR_INV_SIZE, [])
    else
      ret_on_error (fun err => (err, [])) (mfs_flash_read_ncbuf (rd_offset rd) sizeof_mfs_data_header_t)
      ('(err, bs) ← mfs_flash_read (u32 (rd_offset rd + sizeof_mfs_data_header_t)) (rd_size rd);
       ret_on_error (fun err => (err, bs)) (mret err)
       (d ← drv;
        if negb (crc16 0xFFFF bs =? dhdr_crc (m_ncbuf d)) then
          modify (with_state MFS_ERROR);; mret (MFS_ERR_FLASH_FAILURE, bs)
        else mret (MFS_NO_ERROR, bs))).

(** A record's header, without or with the magic numbers. *)
Definition dhdr_fill (id n crc : Z) (buf : list Z) : list Z :=
  put_le 2 10 crc (put_le 4 12 n (put_le 2 8 (u16 id) buf)).
Definition dhdr_seal (buf : list Z) : list Z := put_le 4 4 MFS_HEADER_MAGIC_2 (put_le 4 0 MFS_HEADER_MAGIC_1 buf).

Definition edit_ncbuf (f : list Z -> list Z) : MFS unit := modify (fun d => with_ncbuf (f (m_ncbuf d)) d).

(** The space behind the records of the current bank. *)
Definition mfs_free : MFS Z :=
  cfg ← config;
  d ← drv;
  offset ← mfs_flash_get_bank_offset (m_bank d);
  mret (u32 (u32 (offset + cfg_bank_size cfg) - m_next d)).

(** The header without the magic numbers, and the data. *)
Definition write_record (offset id : Z) (bs : list Z) (k : MFS mfs_error_t) : MFS mfs_error_t :=
  edit_ncbuf (dhdr_fill id (Z.of_nat (length bs)) (crc16 0xFFFF bs));;
  RET_ON_ERROR (mfs_flash_write (u32 (offset + 8)) (sizeof_mfs_data_header_t - 8) (Ncbuf 8))
  (RET_ON_ERROR (mfs_flash_write (u32 (offset + sizeof_mfs_data_header_t)) (Z.of_nat (length bs)) (Memory bs)) k).

Definition mfsWriteRecord (id : Z) (bs : list Z) : MFS mfs_error_t :=
  let n := Z.of_nat (length bs) in
  assert (valid_id id && (0 <? n));;
  let asize := ALIGNED_REC_SIZE n in
  cfg ← config;
  d ← drv;
  match m_state d with
  | MFS_READY =>
      let rspace := u32 (ALIGNED_DHDR_SIZE + asize) in
      if u32 (cfg_bank_size cfg - m_used d) <? rspace then mret MFS_ERR_OUT_OF_MEM
      else
        free ← mfs_free;
        let warning := free <? rspace in
        RET_ON_ERROR (if (warning : bool) then mfs_garbage_collect else mret MFS_NO_ERROR)
        (d ← drv;
         write_record (m_next d) id bs
         (edit_ncbuf dhdr_seal;;
          d ← drv;
          RET_ON_ERROR (mfs_flash_write (m_next d) 8 (Ncbuf 0))
          (rd ← get_desc id;
           (if negb (rd_offset rd =? 0) then modify (fun d => with_used (u32 (m_used d - ALIGNED_REC_SIZE (rd_size rd))) d)
            else mret tt);;
           set_desc id (Descriptor (m_next d) n);;
           modify (fun d => with_next_offset (u32 (m_next d + asize)) (with_used (u32 (m_used d + asize)) d));;
           mret (if (warning : bool) then MFS_WARN_GC else MFS_NO_ERROR))))
  | MFS_TRANSACTION =>
      if (MFS_CFG_TRANSACTION_MAX <=? length (m_tr_ops d))%nat then mret MFS_ERR_TRANSACTION_NUM
      else if u32 (m_tr_limit d - m_tr_next d) <? asize then mret MFS_ERR_TRANSACTION_SIZE
      else
        write_record (m_tr_next d) id bs
        (modify (fun d => with_tr (u32 (m_tr_next d + asize)) (m_tr_limit d)
                            (m_tr_ops d ++ [TrOp (m_tr_next d) n id]) d);;
         mret MFS_NO_ERROR)
  | _ => mret MFS_ERR_INV_STATE
  end.

Definition mfsEraseRecord (id : Z) : MFS mfs_error_t :=
  assert (valid_id id);;
  let asize := ALIGNED_DHDR_SIZE in
  cfg ← config;
  d ← drv;
  match m_state d with
  | MFS_READY =>
      rd ← get_desc id;
      if rd_offset rd =? 0 then mret MFS_ERR_NOT_FOUND
      else if u32 (cfg_bank_size cfg - m_used d) <? asize then mret MFS_ERR_INTERNAL
      else
        free ← mfs_free;
        let warning := free <? asize in
        RET_ON_ERROR (if (warning : bool) then mfs_garbage_collect else mret MFS_NO_ERROR)
        (edit_ncbuf (fun buf => dhdr_fill id 0 0xFFFF (dhdr_seal buf));;
         d ← drv;
         RET_ON_ERROR (mfs_flash_write (m_next d) sizeof_mfs_data_header_t (Ncbuf 0))
         (rd ← get_desc id;
          modify (fun d => with_used (u32 (m_used d - ALIGNED_REC_SIZE (rd_size rd)))
                             (with_next_offset (u32 (m_next d + sizeof_mfs_data_header_t)) d));;
          set_desc id no_record;;
          mret (if (warning : bool) then MFS_WARN_GC else MFS_NO_ERROR)))
  | MFS_TRANSACTION =>
      rd ← get_desc id;
      if rd_offset rd =? 0 then mret MFS_ERR_NOT_FOUND
      else if (MFS_CFG_TRANSACTION_MAX <=? length (m_tr_ops d))%nat then mret MFS_ERR_TRANSACTION_NUM
      else if u32 (m_tr_limit d - m_tr_next d) <? asize then mret MFS_ERR_TRANSACTION_SIZE
      else
        edit_ncbuf (dhdr_fill id 0 0xFFFF);;
        RET_ON_ERROR (mfs_flash_write (u32 (m_tr_next d + 8)) (sizeof_mfs_data_header_t - 8) (Ncbuf 8))
        (modify (fun d => with_tr (u32 (m_tr_next d + asize)) (m_tr_limit d)
                            (m_tr_ops d ++ [TrOp (m_tr_next d) 0 id]) d);;
         mret MFS_NO_ERROR)
  | _ => mret MFS_ERR_INV_STATE
  end.

Definition mfsPerformGarbageCollection : MFS mfs_error_t :=
  d ← drv;
  if negb (bool_decide (m_state d = MFS_READY)) then mret MFS_ERR_INV_STATE else mfs_garbage_collect.

(** *** Transactions *)

Definition mfsStartTransaction (size : Z) : MFS mfs_error_t :=
  assert (ALIGNED_DHDR_SIZE <? size);;
  d ← drv;
  if negb (bool_decide (m_state d = MFS_READY)) then mret MFS_ERR_INV_STATE
  else
    cfg ← config;
    let tspace := MFS_ALIGN_NEXT size in
    let rspace := u32 (tspace + ALIGNED_DHDR_SIZE) in
    if u32 (cfg_bank_size cfg - m_used d) <? rspace then mret MFS_ERR_OUT_OF_MEM
    else
      free ← mfs_free;
      RET_ON_ERROR (if free <? rspace then mfs_garbage_collect else mret MFS_NO_ERROR)
      (modify (fun d => with_state MFS_TRANSACTION (with_tr (m_next d) (u32 (m_next d + tspace)) [] d));;
       mret MFS_NO_ERROR).

(** The magic numbers, from the last operation to the first. *)
Fixpoint seal_ops (ops : list mfs_transaction_op_t) : MFS mfs_error_t :=
  match ops with
  | [] => mret MFS_NO_ERROR
  | top :: ops => RET_ON_ERROR (seal_ops ops) (mfs_flash_write (op_offset top) 8 (Ncbuf 0))
  end.

Fixpoint apply_ops (ops : list mfs_transaction_op_t) : MFS unit :=
  match ops with
  | [] => mret tt
  | top :: ops =>
      rd ← get_desc (op_id top);
      (if 0 <? op_size top then
         (if negb (rd_offset rd =? 0) then modify (fun d => with_used (u32 (m_used d - ALIGNED_REC_SIZE (rd_size rd))) d)
          else mret tt);;
         modify (fun d => with_used (u32 (m_used d + ALIGNED_REC_SIZE (op_size top))) d);;
         set_desc (op_id top) (Descriptor (op_offset top) (op_size top))
       else
         modify (fun d => with_used (u32 (m_used d - ALIGNED_REC_SIZE (rd_size rd))) d);;
         set_desc (op_id top) no_record);;
      apply_ops ops
  end.

Definition mfsCommitTransaction : MFS mfs_error_t :=
  d ← drv;
  if negb (bool_decide (m_state d = MFS_TRANSACTION)) then mret MFS_ERR_INV_STATE
  else
    edit_ncbuf dhdr_seal;;
    RET_ON_ERROR (seal_ops (m_tr_ops d))
    (modify (fun d => with_next_offset (m_tr_next d) d);;
     apply_ops (m_tr_ops d);;
     modify (with_state MFS_READY);;
     mret MFS_NO_ERROR).

Definition mfsRollbackTransaction : MFS mfs_error_t :=
  d ← drv;
  if negb (bool_decide (m_state d = MFS_TRANSACTION)) then mret MFS_ERR_INV_STATE
  else
    modify (with_state MFS_READY);;
    if (0 <? length (m_tr_ops d))%nat then mfs_garbage_collect else mret MFS_NO_ERROR.

End MfsPrograms.
Arguments mfs_sys : clear implicits.
Arguments MFS : clear implicits.
