(* ===== verification/MfsLog.v ===== *)
(** * The contents of a managed bank (hal_mfs.c)

    How headers and records lie in memory, as bytes: encoding and decoding of words,
    [enc], a record with its header, [enc_log], the records one after the other, and
    [replay], the records that a log leaves.  The headers that an interrupted write
    leaves are never taken for records. *)

From S2P Require Import Prelude CInt Words Crc16 Flash Mfs.
#[local] Open Scope Z_scope.

(** ** Records *)

Abbreviation entry := (Z * list Z)%type.

Definition rec_size (n : Z) : Z := 16 + n + n mod 2.

Lemma rec_size_bound n : 0 <= n -> 16 + n <= rec_size n <= 17 + n.
Proof. intros Hn. unfold rec_size. pose proof (Z.mod_pos_bound n 2). lia. Qed.

Lemma align_next_even v : 0 < v < 2 ^ 32 - 2 -> MFS_ALIGN_NEXT v = v + v mod 2.
Proof.
  intros Hv. unfold MFS_ALIGN_NEXT, MFS_ALIGN_PREV. rewrite (u32_id v) by lia. rewrite (u32_id (v - 1)) by lia.
  change (Z.lxor MFS_ALIGN_MASK (2 ^ 32 - 1)) with (2 ^ 32 - 2). unfold MFS_CFG_MEMORY_ALIGNMENT.
  assert (E : Z.land (v - 1) (2 ^ 32 - 2) = (v - 1) - (v - 1) mod 2).
  { transitivity (Z.ldiff (v - 1) (Z.ones 1)).
    - apply Z.bits_inj'. intros i Hi. rewrite Z.land_spec, Z.ldiff_spec.
      destruct (Z.testbit (v - 1) i) eqn:Eb; [|reflexivity]. cbn [andb].
      destruct (Z.eq_dec i 0) as [->|Hi0]; [reflexivity|].
      rewrite Z.ones_spec_high by lia. destruct (Z.lt_ge_cases i 32) as [Hlt|Hge].
      + change (2 ^ 32 - 2) with (Z.lxor (Z.ones 32) 1). rewrite Z.lxor_spec, Z.ones_spec_low by lia.
        change 1 with (2 ^ 0). rewrite Z.pow2_bits_false by lia. reflexivity.
      + exfalso. rewrite Z.bits_above_log2 in Eb; [discriminate|lia|]. apply Z.log2_lt_pow2; [|apply (Z.lt_le_trans _ (2 ^ 32)); [lia|apply Z.pow_le_mono_r; lia]].
        destruct (Z.eq_dec v 1) as [->|]; [|lia]. cbn in Eb. rewrite Z.bits_0 in Eb. discriminate.
    - rewrite Z.ldiff_ones_r, Z.shiftl_mul_pow2, Z.shiftr_div_pow2 by lia. change (2 ^ 1) with 2.
      pose proof (Z_div_mod_eq_full (v - 1) 2). lia. }
  rewrite E, u32_id by zlia. zlia.
Qed.

Lemma aligned_rec_size n : 0 <= n < 2 ^ 31 -> ALIGNED_REC_SIZE n = rec_size n.
Proof.
  intros Hn. unfold ALIGNED_REC_SIZE, sizeof_mfs_data_header_t, rec_size. rewrite u32_id by lia.
  rewrite align_next_even by lia. zlia.
Qed.

Definition magic : list Z := le_bytes 4 MFS_HEADER_MAGIC_1 ++ le_bytes 4 MFS_HEADER_MAGIC_2.
Definition body (id : Z) (bs : list Z) : list Z :=
  le_bytes 2 id ++ le_bytes 2 (crc16 0xFFFF bs) ++ le_bytes 4 (Z.of_nat (length bs)).
Definition pad (bs : list Z) : list Z := replicate (Z.to_nat (Z.of_nat (length bs) mod 2)) 255.
Definition enc (e : entry) : list Z := magic ++ body e.1 e.2 ++ e.2 ++ pad e.2.
Definition enc_log (l : list entry) : list Z := concat (enc <$> l).

Definition esize (e : entry) : Z := rec_size (Z.of_nat (length e.2)).
Definition lsize (l : list entry) : Z := Z.of_nat (length (enc_log l)).

Definition entry_ok (e : entry) : Prop :=
  1 <= e.1 <= 32 /\ Z.of_nat (length e.2) < 2 ^ 31 /\ Forall is_byte e.2.

Lemma body_length id bs : length (body id bs) = 8%nat.
Proof. unfold body. rewrite !length_app, !le_bytes_length. reflexivity. Qed.

Lemma enc_length e : Z.of_nat (length (enc e)) = esize e.
Proof.
  unfold enc, esize, rec_size, pad, magic. rewrite !length_app, body_length, !le_bytes_length, length_replicate.
  pose proof (Z.mod_pos_bound (Z.of_nat (length e.2)) 2). lia.
Qed.

Lemma enc_log_app l1 l2 : enc_log (l1 ++ l2) = enc_log l1 ++ enc_log l2.
Proof. unfold enc_log. rewrite fmap_app. apply concat_app. Qed.

Lemma lsize_cons e l : lsize (e :: l) = esize e + lsize l.
Proof. unfold lsize. change (enc_log (e :: l)) with (enc e ++ enc_log l). rewrite length_app, Nat2Z.inj_add, enc_length. reflexivity. Qed.

Lemma lsize_app l1 l2 : lsize (l1 ++ l2) = lsize l1 + lsize l2.
Proof. unfold lsize. rewrite enc_log_app, length_app. lia. Qed.

Lemma lsize_nonneg l : 0 <= lsize l.
Proof. unfold lsize. lia. Qed.

Lemma esize_bound e : 16 <= esize e.
Proof. unfold esize. pose proof (rec_size_bound (Z.of_nat (length e.2))). lia. Qed.

Lemma crc16_range data : 0 <= crc16 0xFFFF data < 2 ^ 16.
Proof. apply crc16_word. unfold word16. lia. Qed.

(** A complete header is read as what was written. *)
Lemma enc_header e rest :
  entry_ok e ->
  let buf := magic ++ body e.1 e.2 ++ rest in
  f_magic1 buf = MFS_HEADER_MAGIC_1 /\ f_magic2 buf = MFS_HEADER_MAGIC_2 /\ dhdr_id buf = e.1 /\
  dhdr_crc buf = crc16 0xFFFF e.2 /\ dhdr_size buf = Z.of_nat (length e.2).
Proof.
  intros (Hid & Hn & _) buf. pose proof (crc16_range e.2).
  unfold buf, magic, body, f_magic1, f_magic2, dhdr_id, dhdr_crc, dhdr_size.
  split_and!; get_field; unfold MFS_HEADER_MAGIC_1, MFS_HEADER_MAGIC_2; cbn; lia.
Qed.

(** ** The test of headers *)

Definition erased_word : Z := 2 ^ 32 - 1.

Lemma dhdr_check_take space buf : dhdr_check erased_word space (take 16 buf) = dhdr_check erased_word space buf.
Proof.
  unfold dhdr_check, f_magic1, f_magic2, dhdr_id, dhdr_size. rewrite !get_le_take by lia. reflexivity.
Qed.

Lemma dhdr_check_enc e rest space :
  entry_ok e -> Z.of_nat (length e.2) <= space -> dhdr_check erased_word space (magic ++ body e.1 e.2 ++ rest) = DHDR_OK.
Proof.
  intros He Hs. destruct (enc_header e rest He) as (E1 & E2 & Ei & _ & En). destruct He as (Hid & Hn & _).
  unfold dhdr_check. change (Z.of_nat MFS_CFG_MAX_RECORDS) with 32. rewrite E1, E2, Ei, En. cbn [Z.eqb andb]. rewrite !Z.eqb_refl. cbn [negb orb].
  rewrite (proj2 (Z.ltb_ge e.1 1)), (proj2 (Z.ltb_ge _ e.1)), (proj2 (Z.ltb_ge space _)) by lia. reflexivity.
Qed.

Lemma dhdr_check_erased space : dhdr_check erased_word space (replicate 16 255) = DHDR_ERASED.
Proof. reflexivity. Qed.

(** Some of the first twelve cells is programmed, but the magic numbers are not all
    there. *)
Lemma dhdr_check_unsealed buf space i j b :
  Forall is_byte buf -> (16 <= length buf)%nat -> (i < 12)%nat -> buf !! i = Some b -> b <> 255 ->
  (j < 8)%nat -> buf !! j = Some 255 -> dhdr_check erased_word space buf = DHDR_BAD.
Proof.
  intros Hb Hl Hi Ei Hne Hj Ej. unfold dhdr_check.
  assert (Hw : forall off v, (off + 4 <= 16)%nat -> get_le 4 off buf = v ->
            forall x, (x < 4)%nat -> buf !! (off + x)%nat = le_bytes 4 v !! x).
  { intros off v Ho E x Hx. rewrite <- (get_le_word 4 off buf v Hb ltac:(lia) E).
    rewrite lookup_take_lt by exact Hx. rewrite lookup_drop. reflexivity. }
  destruct ((_ =? _) && (_ =? _) && (_ =? _)) eqn:E0.
  { exfalso. bools. assert (Hx : buf !! i = Some 255); [|congruence].
    assert (Hc : exists off x, i = (off + x)%nat /\ (x < 4)%nat /\ (off = 0 \/ off = 4 \/ off = 8)%nat).
    { exists (4 * (i / 4))%nat, (i mod 4)%nat. pose proof (Nat.div_mod_eq i 4). pose proof (Nat.mod_upper_bound i 4).
      pose proof (Nat.Div0.div_lt_upper_bound i 4 3). lia. }
    destruct Hc as (off & x & -> & Hx & Hoff).
    rewrite (Hw off erased_word) by (try lia; destruct Hoff as [->|[->| ->]]; assumption).
    clear - Hx. destruct x as [|[|[|[|x]]]]; [reflexivity..|lia]. }
  destruct (negb (f_magic1 buf =? MFS_HEADER_MAGIC_1)) eqn:E1; [reflexivity|].
  destruct (negb (f_magic2 buf =? MFS_HEADER_MAGIC_2)) eqn:E2; [reflexivity|]. exfalso. bools.
  destruct (Nat.lt_ge_cases j 4) as [Hj4|Hj4].
  - specialize (Hw 0%nat _ ltac:(lia) E1 j Hj4). cbn [Nat.add] in Hw. rewrite Ej in Hw.
    clear - Hw Hj4. destruct j as [|[|[|[|j]]]]; [discriminate Hw..|lia].
  - specialize (Hw 4%nat _ ltac:(lia) E2 (j - 4)%nat ltac:(lia)). replace (4 + (j - 4))%nat with j in Hw by lia.
    rewrite Ej in Hw. clear - Hw Hj Hj4. do 8 (destruct j as [|j]; [try lia; discriminate Hw|]). lia.
Qed.

(** The size's most significant byte, or that of the number, is not programmed. *)
Lemma dhdr_check_unsized buf space :
  Forall is_byte buf -> (16 <= length buf)%nat -> space < 0xFF000000 -> buf !! 0%nat <> Some 255 ->
  (buf !! 9%nat = Some 255 \/ buf !! 15%nat = Some 255) -> dhdr_check erased_word space buf = DHDR_BAD.
Proof.
  intros Hb Hl Hs H0 H. unfold dhdr_check.
  destruct ((_ =? _) && (_ =? _) && (_ =? _)) eqn:E0.
  { exfalso. bools. apply H0. pose proof (get_le_word 4 0 buf _ Hb ltac:(lia) H1) as E. rewrite drop_0 in E.
    rewrite <- (lookup_take_lt buf 4 0) by lia. rewrite E. reflexivity. }
  destruct (negb (f_magic1 buf =? MFS_HEADER_MAGIC_1)) eqn:E1; [reflexivity|].
  destruct (negb (f_magic2 buf =? MFS_HEADER_MAGIC_2)) eqn:E2; [reflexivity|]. cbn [orb].
  assert (Hv : forall n off k, (off + n <= 16)%nat -> (k < n)%nat -> buf !! (off + k)%nat = Some 255 ->
            255 * 256 ^ Z.of_nat k <= get_le n off buf).
  { intros n off k Ho Hk Ek. unfold get_le. set (l := take n (drop off buf)).
    assert (Hlk : l !! k = Some 255) by (unfold l; rewrite lookup_take_lt, lookup_drop by exact Hk; exact Ek).
    assert (Hlb : Forall is_byte l) by (apply Forall_take, Forall_drop, Hb). clearbody l. clear - Hlk Hlb.
    revert k Hlk. induction Hlb as [|b l Hb Hlb IH]; intros [|k] Hlk; try discriminate; cbn [le_value].
    - injection Hlk as ->. pose proof (le_value_range l Hlb). cbn. lia.
    - cbn in Hlk. specialize (IH k Hlk). rewrite Nat2Z.inj_succ, Z.pow_succ_r by lia. unfold is_byte in Hb. lia. }
  destruct H as [H|H].
  - specialize (Hv 2%nat 8%nat 1%nat ltac:(lia) ltac:(lia) H). change (255 * 256 ^ 1 <= dhdr_id buf) in Hv. change (Z.of_nat MFS_CFG_MAX_RECORDS) with 32.
    rewrite (proj2 (Z.ltb_lt 32 _)) by lia. rewrite orb_true_r. reflexivity.
  - specialize (Hv 4%nat 12%nat 3%nat ltac:(lia) ltac:(lia) H). change (255 * 256 ^ 3 <= dhdr_size buf) in Hv.
    rewrite (proj2 (Z.ltb_lt space _)) by lia. rewrite !orb_true_r. reflexivity.
Qed.

(** ** What a log leaves *)

(** The data of each number, from 1 on. *)
Abbreviation records := (list (option (list Z))).

Definition rstep (M : records) (e : entry) : records :=
  <[Z.to_nat (e.1 - 1) := match e.2 with [] => None | _ => Some e.2 end]> M.

Definition no_records : records := replicate MFS_CFG_MAX_RECORDS None.
Definition replay (L : list entry) : records := foldl rstep no_records L.

Definition slot_size (o : option (list Z)) : Z := match o with Some bs => rec_size (Z.of_nat (length bs)) | None => 0 end.
Definition used_of (M : records) : Z := foldr (fun o n => slot_size o + n) 0 M.

(** The records that the garbage collection copies. *)
Fixpoint live_from (i : Z) (M : records) : list entry :=
  match M with
  | [] => []
  | Some bs :: M => (i, bs) :: live_from (i + 1) M
  | None :: M => live_from (i + 1) M
  end.
Definition live (M : records) : list entry := live_from 1 M.

Definition slot_ok (o : option (list Z)) : Prop :=
  match o with Some bs => bs <> [] /\ Z.of_nat (length bs) < 2 ^ 31 /\ Forall is_byte bs | None => True end.
Definition records_ok (M : records) : Prop := length M = MFS_CFG_MAX_RECORDS /\ Forall slot_ok M.

Lemma rstep_ok M e : records_ok M -> entry_ok e -> records_ok (rstep M e).
Proof.
  intros [Hl HM] (Hid & Hn & Hb). split; [unfold rstep; rewrite length_insert; exact Hl|].
  apply Forall_insert; [exact HM|]. destruct e as [id [|x bs]]; cbn in *; [exact I|]. split_and!; [discriminate|exact Hn|exact Hb].
Qed.

Lemma no_records_ok : records_ok no_records.
Proof. split; [reflexivity|]. apply Forall_replicate. exact I. Qed.

Lemma replay_app L1 L2 : replay (L1 ++ L2) = foldl rstep (replay L1) L2.
Proof. apply foldl_app. Qed.

Lemma replay_snoc L e : replay (L ++ [e]) = rstep (replay L) e.
Proof. rewrite replay_app. reflexivity. Qed.

Lemma fold_rstep_ok L M : records_ok M -> Forall entry_ok L -> records_ok (foldl rstep M L).
Proof. intros HM HL. revert M HM. induction HL as [|e L He HL IH]; intros M HM; [exact HM|]. apply IH, rstep_ok; assumption. Qed.

Lemma replay_ok L : Forall entry_ok L -> records_ok (replay L).
Proof. apply fold_rstep_ok, no_records_ok. Qed.

Lemma used_of_nonneg M : 0 <= used_of M.
Proof.
  unfold used_of. induction M as [|[bs|] M IH]; cbn [foldr slot_size];
    [lia|pose proof (rec_size_bound (Z.of_nat (length bs)))|]; lia.
Qed.

Lemma used_of_none M : used_of (None :: M) = used_of M.
Proof. reflexivity. Qed.

Lemma used_of_some bs M : used_of (Some bs :: M) = rec_size (Z.of_nat (length bs)) + used_of M.
Proof. reflexivity. Qed.

Lemma used_of_insert M i o x :
  M !! i = Some o -> used_of (<[i := x]> M) = used_of M - slot_size o + slot_size x.
Proof.
  unfold used_of. revert i. induction M as [|y M IH]; intros [|i] E; [discriminate..| |].
  - injection E as ->. cbn. lia.
  - change (<[S i := x]> (y :: M)) with (y :: <[i := x]> M). cbn [foldr]. rewrite (IH i E). lia.
Qed.

Lemma lsize_live_from i M : lsize (live_from i M) = used_of M.
Proof.
  revert i. induction M as [|[bs|] M IH]; intros i; [reflexivity| |].
  - cbn [live_from]. rewrite lsize_cons, IH. reflexivity.
  - cbn [live_from]. rewrite IH. reflexivity.
Qed.

Lemma live_from_ok i M : 1 <= i -> i + Z.of_nat (length M) <= 33 -> Forall slot_ok M -> Forall entry_ok (live_from i M).
Proof.
  intros Hi Hl HM. revert i Hi Hl. induction HM as [|o M Ho HM IH]; intros i Hi Hl; [constructor|]. cbn [length] in Hl.
  destruct o as [bs|]; cbn [live_from]; [constructor|]; try (apply IH; lia).
  destruct Ho as (_ & Hn & Hb). repeat split; cbn; try lia; assumption.
Qed.

Lemma live_ok M : records_ok M -> Forall entry_ok (live M).
Proof. intros [Hl HM]. apply live_from_ok; [lia|rewrite Hl; unfold MFS_CFG_MAX_RECORDS; lia|exact HM]. Qed.

Lemma fold_live_from M : forall pre,
  Forall slot_ok M ->
  foldl rstep (pre ++ replicate (length M) None) (live_from (Z.of_nat (length pre) + 1) M) = pre ++ M.
Proof.
  induction M as [|o M IH]; intros pre HM; [reflexivity|]. apply Forall_cons in HM as [Ho HM].
  assert (E : forall o, (pre ++ [o]) ++ replicate (length M) None = pre ++ o :: replicate (length M) None) by (intros; rewrite <- app_assoc; reflexivity).
  assert (El : forall o : option (list Z), Z.of_nat (length pre) + 1 + 1 = Z.of_nat (length (pre ++ [o])) + 1) by (intros; rewrite length_app; cbn; lia).
  destruct o as [bs|]; cbn [length replicate live_from].
  - cbn [foldl]. unfold rstep at 2. cbn [fst snd].
    replace (Z.to_nat (Z.of_nat (length pre) + 1 - 1)) with (length pre + 0)%nat by lia. rewrite insert_app_r.
    cbn [insert list_insert].
    destruct Ho as (Hne & _). destruct bs as [|b bs]; [congruence|]. rewrite (El (Some (b :: bs))), <- E, IH by exact HM.
    rewrite <- app_assoc. reflexivity.
  - rewrite (El None), <- E, IH by exact HM. rewrite <- app_assoc. reflexivity.
Qed.

Lemma replay_live M : records_ok M -> replay (live M) = M.
Proof.
  intros [Hl HM]. unfold replay, live, no_records. rewrite <- Hl. apply (fold_live_from M []), HM.
Qed.
