(* ===== verification/MfsWp.v ===== *)
(** * Programs on a device whose power may fail (hal_mfs.c)

    [wp p d m Q C]: the program [p], started with the driver's variables [d] on a
    device that holds [m], ends; either the device is still powered, and [Q] holds
    for the result, or the power has failed, [C] holds for what the device holds, and
    the program reports a failure.  The rules follow the programs' structure; those of
    the device accesses list every content that a failure may leave. *)

From Stdlib Require Import FunctionalExtensionality.
From S2P Require Import Prelude CInt Words Crc16 Flash Mfs MfsLog.
#[local] Open Scope Z_scope.
#[local] Existing Instances mfs_ret mfs_bind.

(** ** Geometry *)

Definition bank_first (cfg : MFSConfig) (b : mfs_bank_t) : Z :=
  match b with MFS_BANK_0 => cfg_bank0_start cfg | MFS_BANK_1 => cfg_bank1_start cfg end.
Definition bank_count (cfg : MFSConfig) (b : mfs_bank_t) : nat :=
  Z.to_nat match b with MFS_BANK_0 => cfg_bank0_sectors cfg | MFS_BANK_1 => cfg_bank1_sectors cfg end.

(** The sectors of each bank lie one after the other from [pos b 0] on. *)
Class Geometry (cfg : MFSConfig) (desc : flash_descriptor_t) (pos : mfs_bank_t -> nat -> Z) : Prop := {
  g_erased : cfg_erased cfg = erased_word;
  g_first b : 0 <= bank_first cfg b;
  g_count b : (0 < bank_count cfg b)%nat;
  g_sector b i : (i < bank_count cfg b)%nat ->
    sector_offset desc (bank_first cfg b + Z.of_nat i) = Some (pos b i) /\
    sector_size desc (bank_first cfg b + Z.of_nat i) = Some (pos b (S i) - pos b i) /\ 16 <= pos b (S i) - pos b i;
  g_bank b : pos b (bank_count cfg b) = pos b 0%nat + cfg_bank_size cfg;
  g_range b : 0 <= pos b 0%nat /\ pos b 0%nat + cfg_bank_size cfg <= fd_size desc;
  g_size : fd_size desc < 2 ^ 31;
  g_room : 32 <= cfg_bank_size cfg;
  g_disjoint b : pos b 0%nat + cfg_bank_size cfg <= pos (other_bank b) 0%nat \/
                 pos (other_bank b) 0%nat + cfg_bank_size cfg <= pos b 0%nat
}.

(** ** Contents as functions *)

Lemma same_eq m m' : same m m' -> m' = m.
Proof. intros H. apply functional_extensionality. exact H. Qed.

Lemma upd_nil_eq m off : upd m off [] = m.
Proof. apply functional_extensionality. intros a. apply upd_nil. Qed.

Lemma upd_app m off b1 b2 : upd m off (b1 ++ b2) = upd (upd m off b1) (off + Z.of_nat (length b1)) b2.
Proof. symmetry. apply functional_extensionality. apply upd_take_app. Qed.

Definition wipe (m : Z -> Z) (lo hi : Z) : Z -> Z := fun a => if (lo <=? a) && (a <? hi) then 255 else m a.

Lemma wipe_in m lo hi a : lo <= a < hi -> wipe m lo hi a = 255.
Proof. intros Ha. unfold wipe. rewrite (proj2 (Z.leb_le _ _)), (proj2 (Z.ltb_lt _ _)) by lia. reflexivity. Qed.

Lemma wipe_out m lo hi a : a < lo \/ hi <= a -> wipe m lo hi a = m a.
Proof. intros Ha. unfold wipe. destruct (_ && _) eqn:E; [lia|reflexivity]. Qed.

Lemma wipe_nil m lo : wipe m lo lo = m.
Proof. apply functional_extensionality. intros a. apply wipe_out. lia. Qed.

Lemma wipe_upd m lo n : upd m lo (replicate n 255) = wipe m lo (lo + Z.of_nat n).
Proof.
  apply functional_extensionality. intros a. destruct (decide (lo <= a < lo + Z.of_nat n)) as [H|H].
  - rewrite wipe_in by lia. rewrite upd_in by (rewrite length_replicate; lia). rewrite lookup_replicate_2 by lia. reflexivity.
  - rewrite wipe_out by lia. apply upd_out. rewrite length_replicate. lia.
Qed.

Lemma wipe_app m lo mid hi : lo <= mid <= hi -> wipe (wipe m lo mid) mid hi = wipe m lo hi.
Proof.
  intros H. apply functional_extensionality. intros a.
  assert (Hc : mid <= a < hi \/ lo <= a < mid \/ (a < lo \/ hi <= a)) by lia. destruct Hc as [Hc|[Hc|Hc]].
  - rewrite !wipe_in by lia. reflexivity.
  - rewrite wipe_out, !wipe_in by lia. reflexivity.
  - rewrite !wipe_out by lia. reflexivity.
Qed.

(** ** The rules *)

Class Failing (A : Type) := failed : A -> Prop.
#[export] Instance failing_error : Failing mfs_error_t := fun e => e = MFS_ERR_FLASH_FAILURE.
#[export] Instance failing_pair {A B} `{Failing A} : Failing (A * B) := fun p => failed p.1.
#[export] Instance failing_unit : Failing unit := fun _ => False.
#[export] Instance failing_Z : Failing Z := fun _ => False.

Section Rules.
Context {F : Type} `{BF : BaseFlash F} `{FL : !FlashLaws F}.
Context (cfg : MFSConfig) (desc : flash_descriptor_t) (pos : mfs_bank_t -> nat -> Z).
Context `{G : !Geometry cfg desc pos}.

Definition base (b : mfs_bank_t) : Z := pos b 0%nat.
Definition lim (b : mfs_bank_t) : Z := base b + cfg_bank_size cfg.

Definition kept (d : MFSDriver) : Prop := m_config d = Some cfg /\ (32 <= length (m_ncbuf d))%nat.

Definition wp {A} `{Failing A} (p : MFS F A) (d : MFSDriver) (m : Z -> Z)
    (Q : A -> MFSDriver -> (Z -> Z) -> Prop) (C : (Z -> Z) -> Prop) : Prop :=
  kept d -> forall fl, fl_mem fl = m -> fl_on fl = true -> flashGetDescriptor fl = desc ->
  exists d' fl' a, p (MfsSys d fl) = Some (MfsSys d' fl', a) /\ kept d' /\ flashGetDescriptor fl' = desc /\
    if fl_on fl' then Q a d' (fl_mem fl') else C (fl_mem fl') /\ failed a.

(** A program that passes a failure on. *)
Definition propagates {A B} `{Failing A} `{Failing B} (k : A -> MFS F B) : Prop :=
  forall a d fl, failed a -> kept d ->
  exists d' b, k a (MfsSys d fl) = Some (MfsSys d' fl, b) /\ kept d' /\ failed b.

Context {A B : Type} `{FA : Failing A} `{FB : Failing B}.
Implicit Types (Q : B -> MFSDriver -> (Z -> Z) -> Prop) (C : (Z -> Z) -> Prop) (k : A -> MFS F B).

Lemma wp_ret (b : B) d m Q C : Q b d m -> wp (mret b) d m Q C.
Proof. intros HQ Hk fl <- Hon Hd. exists d, fl, b. rewrite Hon. auto. Qed.

Lemma wp_mono (p : MFS F B) d m Q Q' (C C' : (Z -> Z) -> Prop) :
  wp p d m Q C -> (forall b d' m', Q b d' m' -> Q' b d' m') -> (forall m', C m' -> C' m') -> wp p d m Q' C'.
Proof.
  intros Hp HQ HC Hk fl Hm Hon Hd. destruct (Hp Hk fl Hm Hon Hd) as (d' & fl' & b & E & Hk' & Hd' & H).
  exists d', fl', b. split_and!; try assumption. destruct (fl_on fl'); [apply HQ, H|split; [apply HC, H|apply H]].
Qed.

Lemma wp_bind (p : MFS F A) k d m Q C :
  propagates k -> wp p d m (fun a d' m' => wp (k a) d' m' Q C) C -> wp (p ≫= k) d m Q C.
Proof.
  intros Hp H Hk fl Hm Hon Hd. destruct (H Hk fl Hm Hon Hd) as (d' & fl' & a & E & Hk' & Hd' & H').
  unfold mbind, mfs_bind. rewrite E. destruct (fl_on fl') eqn:Eon.
  - apply (H' Hk' fl' eq_refl Eon Hd').
  - destruct H' as [HC Hf]. destruct (Hp a d' fl' Hf Hk') as (d2 & b & Eb & Hk2 & Hb). exists d2, fl', b. rewrite Eb, Eon. auto.
Qed.

Lemma wp_error (other : mfs_error_t -> B) (p : MFS F mfs_error_t) (k : MFS F B) d m Q C :
  failed (other MFS_ERR_FLASH_FAILURE) ->
  wp p d m (fun e d' m' => e = MFS_NO_ERROR /\ wp k d' m' Q C) C ->
  wp (ret_on_error other p k) d m Q C.
Proof.
  intros Ho H Hk fl Hm Hon Hd. destruct (H Hk fl Hm Hon Hd) as (d' & fl' & e & E & Hk' & Hd' & H').
  unfold ret_on_error, mbind, mfs_bind. rewrite E. destruct (fl_on fl') eqn:Eon.
  - destruct H' as [-> H']. rewrite decide_True by reflexivity. apply (H' Hk' fl' eq_refl Eon Hd').
  - destruct H' as [HC Hf]. change (e = MFS_ERR_FLASH_FAILURE) in Hf. subst e. rewrite decide_False by discriminate. eexists d', fl', _. rewrite Eon. split; [reflexivity|]. auto.
Qed.

Lemma wp_drv (k : MFSDriver -> MFS F B) d m Q C : wp (k d) d m Q C -> wp (drv ≫= k) d m Q C.
Proof. exact id. Qed.

Lemma wp_modify f (k : unit -> MFS F B) d m Q C :
  (kept d -> kept (f d)) -> wp (k tt) (f d) m Q C -> wp (modify f ≫= k) d m Q C.
Proof. intros Hf H Hk. apply H, Hf, Hk. Qed.

(** The usual case: neither the configuration nor the buffer is concerned. *)
Lemma wp_set f (k : unit -> MFS F B) d m Q C :
  (forall d, m_config (f d) = m_config d) -> (forall d, m_ncbuf (f d) = m_ncbuf d) ->
  wp (k tt) (f d) m Q C -> wp (modify f ≫= k) d m Q C.
Proof. intros H1 H2. apply wp_modify. intros [Hc Hb]. split; [rewrite H1; exact Hc|rewrite H2; exact Hb]. Qed.

(** A program that reads the driver's variables only. *)
Lemma wp_pure {X} (p : MFS F X) (x : X) (k : X -> MFS F B) d m Q C :
  (forall fl : F, p (MfsSys d fl) = Some (MfsSys d fl, x)) -> wp (k x) d m Q C -> wp (p ≫= k) d m Q C.
Proof. intros E H Hk fl. unfold mbind, mfs_bind. rewrite E. apply (H Hk). Qed.

Lemma wp_lift {X} (o : option X) (x : X) (k : X -> MFS F B) d m Q C :
  o = Some x -> wp (k x) d m Q C -> wp (lift o ≫= k) d m Q C.
Proof. intros -> H. exact H. Qed.

Lemma wp_assert b (k : unit -> MFS F B) d m Q C : b = true -> wp (k tt) d m Q C -> wp (assert b ≫= k) d m Q C.
Proof. intros -> H. exact H. Qed.

Lemma wp_config (k : MFSConfig -> MFS F B) d m Q C : wp (k cfg) d m Q C -> wp (config ≫= k) d m Q C.
Proof. intros H Hk fl. unfold config, drv, lift, mbind, mfs_bind. cbn. rewrite (proj1 Hk). apply (H Hk). Qed.

Lemma wp_kept (p : MFS F B) d m Q C : (kept d -> wp p d m Q C) -> wp p d m Q C.
Proof. intros H Hk. apply (H Hk Hk). Qed.

Lemma wp_bytes (p : MFS F B) d m Q C : ((forall a, is_byte (m a)) -> wp p d m Q C) -> wp p d m Q C.
Proof. intros H Hk fl Hm. apply H; [|exact Hk|exact Hm]. intros a. rewrite <- Hm. apply byte_law. Qed.

Lemma wp_flash (k : F -> MFS F B) d m Q C :
  (forall fl, fl_mem fl = m -> flashGetDescriptor fl = desc -> wp (k fl) d m Q C) -> wp (flash ≫= k) d m Q C.
Proof. intros H Hk fl Hm Hon Hd. apply (H fl Hm Hd Hk fl Hm Hon Hd). Qed.

End Rules.

(** ** Device accesses *)

Lemma lor_31 x : 0 <= x -> x <= Z.lor x 31 < x + 32.
Proof.
  intros Hx. pose proof (Z.add_lor_land x 31) as E. change 31 with (Z.ones 5) in *.
  rewrite Z.land_ones in E by lia. change (Z.ones 5) with 31 in *. change (2 ^ 5) with 32 in E.
  pose proof (Z.mod_pos_bound x 32). lia.
Qed.

Lemma with_ncbuf_id d : with_ncbuf (m_ncbuf d) d = d.
Proof. destruct d. reflexivity. Qed.

Section Device.
Context {F : Type} `{BF : BaseFlash F} `{FL : !FlashLaws F}.
Context (cfg : MFSConfig) (desc : flash_descriptor_t) (pos : mfs_bank_t -> nat -> Z).
Context `{G : !Geometry cfg desc pos}.

#[local] Abbreviation wp := (wp cfg desc).
#[local] Abbreviation kept := (kept cfg).

Lemma kept_ncbuf buf d : (32 <= length buf)%nat -> kept d -> kept (with_ncbuf buf d).
Proof. intros Hb [Hc _]. split; [exact Hc|exact Hb]. Qed.

Lemma source_mem bs off n d (fl : F) :
  off + n <= Z.of_nat (length bs) ->
  source_bytes (Memory bs) off n (MfsSys d fl) = Some (MfsSys d fl, take (Z.to_nat n) (drop (Z.to_nat off) bs)).
Proof.
  intros H. unfold source_bytes, drv, assert, lift, mbind, mfs_bind. rewrite (proj2 (Z.leb_le _ _)) by lia. reflexivity.
Qed.

Lemma source_buf i off n d (fl : F) :
  off + n <= Z.of_nat (length (m_ncbuf d) - Z.to_nat i) ->
  source_bytes (Ncbuf i) off n (MfsSys d fl) =
  Some (MfsSys d fl, take (Z.to_nat n) (drop (Z.to_nat off) (drop (Z.to_nat i) (m_ncbuf d)))).
Proof.
  intros H. unfold source_bytes, drv, assert, lift, mbind, mfs_bind. cbn [s_drv].
  rewrite (proj2 (Z.leb_le _ _)) by (rewrite length_drop; lia). reflexivity.
Qed.

Lemma wp_flash_read off n d m Q C :
  0 <= off -> 0 <= n -> off + n <= fd_size desc -> Q (MFS_NO_ERROR, bytes_at m off n) d m ->
  wp (mfs_flash_read off n) d m Q C.
Proof.
  intros H1 H2 H3 HQ Hk fl <- Hon Hd. unfold mfs_flash_read, dev, flash_status, mbind, mfs_bind. cbn [s_fl s_drv].
  pose proof (read_law fl off n) as H. destruct (flashRead off n fl) as [fl' [err bs]].
  destruct H as (Hm & Ho & Hd' & H). rewrite Hon in H. rewrite Hd in Hd', H. destruct (H H1 H2 H3) as [-> ->].
  rewrite decide_True by reflexivity. exists d, fl', (MFS_NO_ERROR, bytes_at (fl_mem fl) off n).
  rewrite Ho, Hon, (same_eq _ _ Hm). auto.
Qed.

Lemma wp_read_ncbuf off n d m Q C :
  0 <= off -> 0 <= n <= 32 -> off + n <= fd_size desc ->
  Q MFS_NO_ERROR (with_ncbuf (bytes_at m off n ++ drop (Z.to_nat n) (m_ncbuf d)) d) m ->
  wp (mfs_flash_read_ncbuf off n) d m Q C.
Proof.
  intros H1 H2 H3 HQ. apply wp_drv. apply wp_kept. intros [_ Hb]. apply wp_assert; [lia|].
  eapply wp_bind.
  - intros [err bs] d' fl Hf [Hc Hl]. eexists _, _. split; [reflexivity|]. split; [|exact Hf]. split; [exact Hc|].
    change (m_ncbuf _) with (bs ++ drop (length bs) (m_ncbuf d')). rewrite length_app, length_drop. lia.
  - apply wp_flash_read; [lia..|]. cbv beta iota. apply wp_modify.
    + intros Hk. apply kept_ncbuf; [|exact Hk].
      change (set_bytes 0 ?l ?buf) with (l ++ drop (length l) buf). rewrite length_app, length_drop. lia.
    + apply wp_ret. change (set_bytes 0 ?l ?buf) with (l ++ drop (length l) buf). rewrite bytes_at_length. exact HQ.
Qed.

Lemma wp_verify_mem bs : forall fuel off n start d m Q C,
  0 <= start -> 0 <= n < Z.of_nat fuel -> 0 <= off -> off + n <= fd_size desc -> start + n = Z.of_nat (length bs) ->
  bytes_at m off n = drop (Z.to_nat start) bs ->
  (forall buf, (32 <= length buf)%nat -> Q MFS_NO_ERROR (with_ncbuf buf d) m) ->
  wp (verify_write fuel off n (Memory bs) start) d m Q C.
Proof.
  pose proof (@g_size _ _ _ G) as Hsz.
  induction fuel as [|fuel IH]; intros off n start d m Q C Hs Hn H1 H2 Hl E HQ; [lia|]. cbn [verify_write].
  apply wp_kept. intros [_ Hb]. destruct (0 <? n) eqn:E0.
  2:{ apply wp_ret. rewrite <- (with_ncbuf_id d). apply HQ, Hb. }
  set (c := if n <=? MFS_CFG_BUFFER_SIZE then n else MFS_CFG_BUFFER_SIZE).
  assert (Hc : 0 < c <= 32 /\ c <= n) by (unfold c, MFS_CFG_BUFFER_SIZE; destruct (n <=? 32) eqn:?; lia).
  apply wp_error; [reflexivity|]. apply wp_read_ncbuf; [lia..|]. split; [reflexivity|].
  apply wp_drv. eapply wp_pure; [intros fl; apply source_mem; lia|]. cbn [m_ncbuf with_ncbuf].
  rewrite take_app_length' by (rewrite bytes_at_length; reflexivity).
  assert (Ec : bytes_at m off c = take (Z.to_nat c) (drop (Z.to_nat start) bs)).
  { rewrite <- E. replace n with (c + (n - c)) by lia. rewrite bytes_at_app by lia.
    rewrite take_app_length' by (rewrite bytes_at_length; reflexivity). reflexivity. }
  rewrite bool_decide_eq_true_2 by exact Ec. cbn [negb].
  rewrite u32_id by lia. apply IH; try lia.
  - replace (Z.to_nat (start + c)) with (Z.to_nat start + Z.to_nat c)%nat by lia. rewrite <- drop_drop, <- E.
    replace n with (c + (n - c)) at 2 by lia. rewrite bytes_at_app by lia.
    rewrite drop_app_length' by (rewrite bytes_at_length; reflexivity). reflexivity.
  - intros buf Hbuf. apply (HQ buf Hbuf).
Qed.

Lemma wp_verify_buf i off n d m Q C :
  0 < n <= 32 -> 0 <= i -> i = 0 \/ n <= i -> i + n <= 32 -> 0 <= off -> off + n <= fd_size desc ->
  bytes_at m off n = take (Z.to_nat n) (drop (Z.to_nat i) (m_ncbuf d)) ->
  Q MFS_NO_ERROR (with_ncbuf (bytes_at m off n ++ drop (Z.to_nat n) (m_ncbuf d)) d) m ->
  wp (verify_write (S (Z.to_nat n)) off n (Ncbuf i) 0) d m Q C.
Proof.
  intros Hn Hi Hin Hin' H1 H2 E HQ. cbn [verify_write]. rewrite (proj2 (Z.ltb_lt 0 n)) by lia.
  unfold MFS_CFG_BUFFER_SIZE. rewrite (proj2 (Z.leb_le n 32)) by lia. apply wp_kept. intros [_ Hb].
  apply wp_error; [reflexivity|]. apply wp_read_ncbuf; [lia..|]. split; [reflexivity|].
  apply wp_drv. eapply wp_pure.
  { intros fl. apply source_buf. cbn [m_ncbuf with_ncbuf]. rewrite length_app, bytes_at_length, length_drop. lia. }
  cbn [m_ncbuf with_ncbuf]. rewrite drop_0, take_app_length' by (rewrite bytes_at_length; reflexivity).
  rewrite bool_decide_eq_true_2.
  - cbn [negb]. replace (Z.to_nat n) with (S (Z.to_nat n - 1))%nat by lia. cbn [verify_write].
    rewrite Z.sub_diag. cbn [Z.ltb Z.compare]. apply wp_ret.
    replace (S (Z.to_nat n - 1)) with (Z.to_nat n) by lia. exact HQ.
  - destruct Hin as [->|Hin].
    + rewrite drop_0. rewrite take_app_length' by (rewrite bytes_at_length; reflexivity). reflexivity.
    + rewrite E at 1. rewrite drop_app_ge by (rewrite bytes_at_length; lia). rewrite drop_drop, bytes_at_length.
      do 2 f_equal. lia.
Qed.

Lemma wp_program off n src bs d m Q C :
  (forall fl : F, source_bytes src 0 n (MfsSys d fl) = Some (MfsSys d fl, bs)) -> Z.of_nat (length bs) = n ->
  0 <= off -> off + n <= fd_size desc -> erased_in m off (off + n) -> Forall is_byte bs ->
  (forall k, C (upd m off (take k bs))) ->
  wp (verify_write (S (Z.to_nat n)) off n src 0) d (upd m off bs) Q C ->
  wp (mfs_flash_write off n src) d m Q C.
Proof.
  intros Hs <- H1 H2 He Hb HC HQ Hk fl <- Hon Hd. unfold mfs_flash_write, mbind, mfs_bind. rewrite Hs.
  unfold dev. cbn [s_fl s_drv]. pose proof (program_law fl off bs) as H. destruct (flashProgram off bs fl) as [fl' err].
  destruct H as [Hd' H]. rewrite Hon in H. rewrite Hd in Hd', H. specialize (H H1 H2 He Hb).
  destruct (fl_on fl') eqn:Eon.
  - destruct H as [-> Hm]. rewrite decide_True by reflexivity. apply HQ; auto. apply same_eq, Hm.
  - destruct H as [Hne (k & Hm)]. rewrite decide_False by exact Hne. eexists _, fl', _. split; [reflexivity|].
    rewrite Eon, (same_eq _ _ Hm). split; [exact Hk|]. split; [exact Hd'|]. split; [apply HC|reflexivity].
Qed.

Lemma wp_write_mem off n bs d m Q C :
  Z.of_nat (length bs) = n -> 0 <= off -> off + n <= fd_size desc -> erased_in m off (off + n) -> Forall is_byte bs ->
  (forall k, C (upd m off (take k bs))) ->
  (forall buf, (32 <= length buf)%nat -> Q MFS_NO_ERROR (with_ncbuf buf d) (upd m off bs)) ->
  wp (mfs_flash_write off n (Memory bs)) d m Q C.
Proof.
  intros <- H1 H2 He Hb HC HQ. apply wp_program with (bs := bs); try assumption; try reflexivity.
  - intros fl. rewrite source_mem, drop_0, take_ge by lia. reflexivity.
  - apply wp_verify_mem; try lia; [|exact HQ]. rewrite bytes_at_upd, drop_0. reflexivity.
Qed.

Lemma wp_write_buf i off n bs d m Q C :
  bs = take (Z.to_nat n) (drop (Z.to_nat i) (m_ncbuf d)) ->
  0 < n <= 32 -> 0 <= i -> i = 0 \/ n <= i -> i + n <= 32 -> 0 <= off -> off + n <= fd_size desc ->
  erased_in m off (off + n) -> Forall is_byte bs -> (forall k, C (upd m off (take k bs))) ->
  Q MFS_NO_ERROR (with_ncbuf (bs ++ drop (Z.to_nat n) (m_ncbuf d)) d) (upd m off bs) ->
  wp (mfs_flash_write off n (Ncbuf i)) d m Q C.
Proof.
  intros Ebs Hn Hi Hin Hin' H1 H2 He Hb HC HQ. apply wp_kept. intros [_ Hl].
  assert (Hlen : Z.of_nat (length bs) = n) by (rewrite Ebs, length_take, length_drop; lia).
  assert (Eb : bytes_at (upd m off bs) off n = bs) by (rewrite <- Hlen; apply bytes_at_upd).
  apply wp_program with (bs := bs); try assumption.
  - intros fl. rewrite source_buf, drop_0, Ebs by lia. reflexivity.
  - apply wp_verify_buf; try assumption; rewrite Eb; assumption.
Qed.

Lemma wp_flash_copy : forall fuel doff soff n d m Q C,
  0 <= n < Z.of_nat fuel -> 0 <= doff -> doff + n <= fd_size desc -> 0 <= soff -> soff + n <= fd_size desc ->
  doff + n <= soff \/ soff + n <= doff -> erased_in m doff (doff + n) ->
  (forall k, C (upd m doff (take k (bytes_at m soff n)))) ->
  (forall buf, (32 <= length buf)%nat -> Q MFS_NO_ERROR (with_ncbuf buf d) (upd m doff (bytes_at m soff n))) ->
  wp (flash_copy fuel doff soff n) d m Q C.
Proof.
  pose proof (@g_size _ _ _ G) as Hsz.
  induction fuel as [|fuel IH]; intros doff soff n d m Q C Hn H1 H2 H3 H4 Hdis He HC HQ; [lia|]. cbn [flash_copy].
  apply wp_kept. intros [_ Hb]. destruct (0 <? n) eqn:E0.
  2:{ apply wp_ret. rewrite <- (with_ncbuf_id d). specialize (HQ _ Hb). replace n with 0 in HQ by lia.
      change (bytes_at m soff 0) with (@nil Z) in HQ. rewrite upd_nil_eq in HQ. exact HQ. }
  change (MFS_CFG_BUFFER_SIZE - 1) with 31. pose proof (lor_31 doff H1) as Hlor.
  rewrite (u32_id (Z.lor doff 31 + 1)), u32_id by lia.
  set (c := if n <? Z.lor doff 31 + 1 - doff then n else Z.lor doff 31 + 1 - doff).
  assert (Hc : 0 < c <= 32 /\ c <= n) by (unfold c; destruct (n <? _) eqn:?; lia). clearbody c.
  assert (Es : bytes_at m soff n = bytes_at m soff c ++ bytes_at m (soff + c) (n - c)) by (rewrite <- bytes_at_app by lia; f_equal; lia).
  assert (Elen : length (bytes_at m soff c) = Z.to_nat c) by apply bytes_at_length.
  apply wp_bytes. intros Hby.
  apply wp_error; [reflexivity|]. apply wp_read_ncbuf; [lia..|]. split; [reflexivity|].
  apply wp_error; [reflexivity|]. apply wp_write_buf with (bs := bytes_at m soff c); try lia.
  - cbn [m_ncbuf with_ncbuf]. rewrite drop_0, take_app_length' by (symmetry; exact Elen). reflexivity.
  - intros a Ha. apply He. lia.
  - unfold bytes_at. apply Forall_fmap, Forall_true. exact Hby.
  - intros k. specialize (HC (k `min` Z.to_nat c)%nat). rewrite Es, take_app_le in HC by lia.
    rewrite <- Elen, <- take_take, firstn_all in HC. exact HC.
  - split; [reflexivity|].
    assert (Eu : bytes_at (upd m doff (bytes_at m soff c)) (soff + c) (n - c) = bytes_at m (soff + c) (n - c)).
    { apply bytes_at_upd_out. rewrite Elen. lia. }
    rewrite !u32_id by lia. apply IH; try lia.
    + intros a Ha. rewrite upd_out by lia. apply He. lia.
    + intros k. rewrite Eu. specialize (HC (Z.to_nat c + k)%nat). rewrite Es, take_app_add' in HC by (symmetry; exact Elen).
      rewrite upd_app, Elen, Z2Nat.id in HC by lia. exact HC.
    + intros buf Hbuf. rewrite Eu. specialize (HQ buf Hbuf). rewrite Es, upd_app, Elen, Z2Nat.id in HQ by lia. exact HQ.
Qed.

End Device.
