(* ===== verification/MfsBank.v ===== *)
(** * Banks and their headers (hal_mfs.c)

    The rules of [MfsWp] for the operations on whole banks: erasing, verifying and
    writing the header, and the state that [mfs_bank_get_state] finds. *)

From S2P Require Import Prelude CInt Words Crc16 Flash Mfs MfsLog MfsWp.
#[local] Open Scope Z_scope.
#[local] Existing Instances mfs_ret mfs_bind.

(** ** Headers in the buffer *)

Definition bank_words (cnt : Z) : list Z :=
  le_bytes 4 MFS_BANK_MAGIC_1 ++ le_bytes 4 MFS_BANK_MAGIC_2 ++ le_bytes 4 cnt ++ le_bytes 2 0xFFFF.
Definition bank_header (cnt : Z) : list Z := bank_words cnt ++ le_bytes 2 (crc16 0xFFFF (bank_words cnt)).

Ltac cells buf n :=
  match n with
  | O => idtac
  | S ?n => destruct buf as [|? buf]; [exfalso; cbn in *; lia|cells buf n]
  end.

Lemma bank_words_length cnt : length (bank_words cnt) = 14%nat.
Proof. reflexivity. Qed.

Lemma bank_header_length cnt : length (bank_header cnt) = 16%nat.
Proof. unfold bank_header. rewrite length_app, bank_words_length, le_bytes_length. reflexivity. Qed.

Lemma bank_header_bytes cnt : Forall is_byte (bank_header cnt).
Proof. unfold bank_header, bank_words. repeat apply Forall_app_2; apply le_bytes_range. Qed.

Lemma put_words cnt buf :
  (16 <= length buf)%nat ->
  put_le 2 12 0xFFFF (put_le 4 8 cnt (put_le 4 4 MFS_BANK_MAGIC_2 (put_le 4 0 MFS_BANK_MAGIC_1 buf))) = bank_words cnt ++ drop 14 buf.
Proof. intros H. cells buf 16%nat. reflexivity. Qed.

Lemma bhdr_fill_bytes cfg cnt buf :
  cfg_erased cfg = erased_word -> (16 <= length buf)%nat -> bhdr_fill cfg cnt buf = bank_header cnt ++ drop 16 buf.
Proof.
  intros He H. unfold bhdr_fill. rewrite He. change (u16 erased_word) with 0xFFFF. rewrite put_words by exact H.
  rewrite take_app_length' by reflexivity. unfold bank_header. set (c := crc16 _ _). clearbody c.
  rewrite <- app_assoc. generalize (bank_words_length cnt). generalize (bank_words cnt). intros w Hw.
  unfold put_le, set_bytes. rewrite take_app_length' by auto.
  rewrite le_bytes_length, drop_app_ge by lia. rewrite drop_drop, Hw. reflexivity.
Qed.

Lemma dhdr_fill_bytes id n crc buf :
  (16 <= length buf)%nat ->
  dhdr_fill id n crc buf = take 8 buf ++ (le_bytes 2 (u16 id) ++ le_bytes 2 crc ++ le_bytes 4 n) ++ drop 16 buf.
Proof. intros H. cells buf 16%nat. reflexivity. Qed.

Lemma dhdr_seal_bytes buf : (8 <= length buf)%nat -> dhdr_seal buf = magic ++ drop 8 buf.
Proof. intros H. cells buf 8%nat. reflexivity. Qed.

Lemma bank_header_fields cnt rest :
  0 <= cnt < 2 ^ 32 ->
  let buf := bank_header cnt ++ rest in
  f_magic1 buf = MFS_BANK_MAGIC_1 /\ f_magic2 buf = MFS_BANK_MAGIC_2 /\ bhdr_counter buf = cnt /\
  bhdr_reserved1 buf = 0xFFFF /\ bhdr_crc buf = crc16 0xFFFF (take 14 buf).
Proof.
  intros Hc buf. pose proof (crc16_range (bank_words cnt)).
  replace (take 14 buf) with (bank_words cnt)
    by (unfold buf, bank_header; rewrite <- app_assoc, take_app_length' by reflexivity; reflexivity).
  unfold buf, bank_header, f_magic1, f_magic2, bhdr_counter, bhdr_reserved1, bhdr_crc.
  set (c := crc16 0xFFFF _) in *. clearbody c. unfold bank_words.
  split_and!; get_field; unfold MFS_BANK_MAGIC_1, MFS_BANK_MAGIC_2; cbn; lia.
Qed.

Lemma bank_header_ok cnt : 0 <= cnt < erased_word -> bhdr_check erased_word (bank_header cnt) = MFS_BANK_OK.
Proof.
  intros Hc. rewrite <- (app_nil_r (bank_header cnt)).
  destruct (bank_header_fields cnt []) as (E1 & E2 & E3 & E4 & E5); [unfold erased_word in Hc; lia|].
  set (buf := bank_header cnt ++ []) in *. unfold bhdr_check.
  change (get_le 4 0 buf) with (f_magic1 buf). rewrite E1, E2, E3, E4, E5, !Z.eqb_refl.
  change (MFS_BANK_MAGIC_1 =? erased_word) with false. change (u16 erased_word) with 0xFFFF. cbn [andb negb orb].
  rewrite (proj2 (Z.eqb_neq cnt erased_word)) by lia. reflexivity.
Qed.

Lemma bank_header_counter cnt : 0 <= cnt < 2 ^ 32 -> bhdr_counter (bank_header cnt) = cnt.
Proof.
  intros Hc. destruct (bank_header_fields cnt [] Hc) as (_ & _ & E & _). rewrite app_nil_r in E. exact E.
Qed.

Lemma bhdr_check_erased : bhdr_check erased_word (replicate 16 255) = MFS_BANK_ERASED.
Proof. reflexivity. Qed.

Lemma bhdr_check_take buf : bhdr_check erased_word (take 16 buf) = bhdr_check erased_word buf.
Proof.
  unfold bhdr_check, f_magic1, f_magic2, bhdr_counter, bhdr_reserved1, bhdr_crc.
  rewrite !get_le_take by lia. rewrite take_take. reflexivity.
Qed.

Lemma bhdr_counter_take buf : bhdr_counter (take 16 buf) = bhdr_counter buf.
Proof. apply get_le_take. lia. Qed.

(** ** Banks *)

Section Banks.
Context {F : Type} `{BF : BaseFlash F} `{FL : !FlashLaws F}.
Context (cfg : MFSConfig) (desc : flash_descriptor_t) (pos : mfs_bank_t -> nat -> Z).
Context `{G : !Geometry cfg desc pos}.

#[local] Abbreviation wp := (wp cfg desc).
#[local] Abbreviation kept := (kept cfg).
#[local] Abbreviation base := (base pos).
#[local] Abbreviation lim := (lim cfg pos).

(** A step that only reads need not pass failures on. *)
Lemma wp_bind_on {A B} `{Failing A} `{Failing B} (p : MFS F A) (k : A -> MFS F B) d m Q C :
  wp p d m (fun a d' m' => wp (k a) d' m' Q C) (fun _ => False) -> wp (p ≫= k) d m Q C.
Proof.
  intros Hp Hk fl Hm Hon Hd. destruct (Hp Hk fl Hm Hon Hd) as (d' & fl' & a & E & Hk' & Hd' & H').
  unfold mbind, mfs_bind. rewrite E. destruct (fl_on fl') eqn:Eon; [|destruct H' as [[] _]].
  apply (H' Hk' fl' eq_refl Eon Hd').
Qed.

Lemma wp_bank_offset {B} `{Failing B} b (k : Z -> MFS F B) d m Q C :
  wp (k (base b)) d m Q C -> wp (mfs_flash_get_bank_offset b ≫= k) d m Q C.
Proof.
  intros Hw Hk fl Hm Hon Hd. unfold mfs_flash_get_bank_offset, config, drv, flash, lift, mbind, mfs_bind. cbn [s_drv s_fl].
  rewrite (proj1 Hk). cbn [s_fl]. unfold flashGetSectorOffset. rewrite Hd.
  destruct (@g_sector _ _ _ G b 0 (@g_count _ _ _ G b)) as (E & _). rewrite Z.add_0_r in E.
  change (match b with MFS_BANK_0 => cfg_bank0_start cfg | MFS_BANK_1 => cfg_bank1_start cfg end) with (bank_first cfg b).
  rewrite E. apply (Hw Hk fl Hm Hon Hd).
Qed.

Lemma wp_bank_sectors {B} `{Failing B} b (k : Z * Z -> MFS F B) d m Q C :
  wp (k (bank_first cfg b, match b with MFS_BANK_0 => cfg_bank0_sectors cfg | MFS_BANK_1 => cfg_bank1_sectors cfg end)) d m Q C ->
  wp (bank_sectors b ≫= k) d m Q C.
Proof.
  intros Hw. apply wp_kept. intros [Hc _]. eapply wp_pure; [|exact Hw]. intros fl.
  unfold bank_sectors, config, drv, lift, mbind, mfs_bind. cbn. rewrite Hc. destruct b; reflexivity.
Qed.

Lemma pos_step b i : (i < bank_count cfg b)%nat -> pos b i + 16 <= pos b (S i).
Proof. intros Hi. destruct (@g_sector _ _ _ G b i Hi) as (_ & _ & H). lia. Qed.

Lemma pos_mono b i j : (i <= j <= bank_count cfg b)%nat -> pos b i <= pos b j.
Proof.
  intros [Hij Hj]. induction Hij as [|j Hij IH]; [lia|]. pose proof (pos_step b j). lia.
Qed.

Lemma pos_lim b : pos b (bank_count cfg b) = lim b.
Proof. apply (@g_bank _ _ _ G). Qed.

Lemma bank_range b : 0 <= base b /\ base b + 32 <= lim b /\ lim b <= fd_size desc /\ fd_size desc < 2 ^ 31.
Proof.
  pose proof (@g_range _ _ _ G b) as [H1 H2]. pose proof (@g_room _ _ _ G). pose proof (@g_size _ _ _ G).
  unfold MfsWp.lim, MfsWp.base. lia.
Qed.

(** One sector, with the three accesses written out. *)
Lemma erase_sectors_eq n sector d (fl : F) :
  erase_sectors (S n) sector (MfsSys d fl) =
  let failure (fl : F) := Some (MfsSys (with_state MFS_ERROR d) fl, MFS_ERR_FLASH_FAILURE) in
  let '(f1, err1) := flashStartEraseSector sector fl in
  if decide (err1 = FLASH_NO_ERROR) then
    match flashWaitErase f1 with
    | Some (f2, err2) =>
        if decide (err2 = FLASH_NO_ERROR) then
          let '(f3, err3) := flashVerifyErase sector f2 in
          if decide (err3 = FLASH_NO_ERROR) then erase_sectors n (sector + 1) (MfsSys d f3) else failure f3
        else failure f2
    | None => None
    end
  else failure f1.
Proof.
  cbn [erase_sectors]. unfold RET_ON_ERROR, ret_on_error, flash_status, flash, lift, dev, modify, mbind, mfs_bind, mret, mfs_ret.
  cbn [s_fl s_drv]. destruct (flashStartEraseSector sector fl) as [f1 err1].
  destruct (decide (err1 = FLASH_NO_ERROR)); [|reflexivity]. rewrite decide_True by reflexivity. cbn [s_fl s_drv].
  destruct (flashWaitErase f1) as [[f2 err2]|]; [|reflexivity]. cbn [s_fl s_drv].
  destruct (decide (err2 = FLASH_NO_ERROR)); [|reflexivity]. rewrite decide_True by reflexivity. cbn [s_fl s_drv].
  destruct (flashVerifyErase sector f2) as [f3 err3].
  destruct (decide (err3 = FLASH_NO_ERROR)); [|reflexivity]. rewrite decide_True by reflexivity. reflexivity.
Qed.

Lemma wp_erase_sector n sector lo size d m Q C :
  0 <= sector -> 0 <= size -> sector_offset desc sector = Some lo -> sector_size desc sector = Some size ->
  C m -> C (wipe m lo (lo + size)) -> wp (erase_sectors n (sector + 1)) d (wipe m lo (lo + size)) Q C ->
  wp (erase_sectors (S n) sector) d m Q C.
Proof.
  intros H0 Hs Elo Esz HC HC' HQ Hk fl <- Hon Hd. rewrite erase_sectors_eq.
  pose proof (erase_law fl sector lo size) as H. unfold flashGetSectorOffset, flashGetSectorSize in H. rewrite Hd in H.
  specialize (H Elo Esz H0). destruct (flashStartEraseSector sector fl) as [f1 err1]. destruct H as [Hd1 H].
  rewrite bool_decide_decide in H. destruct (decide (err1 = FLASH_NO_ERROR)) as [->|E1].
  - destruct H as (_ & f2 & err2 & Ew & Hd2 & H). rewrite Ew. rewrite wipe_upd, Z2Nat.id in H by exact Hs.
    destruct (fl_on f2) eqn:Eon2.
    + destruct H as [-> Hm]. apply same_eq in Hm. rewrite decide_True by reflexivity.
      pose proof (verify_law f2 sector lo size) as V. unfold flashGetSectorOffset, flashGetSectorSize in V. rewrite Hd2 in V.
      specialize (V Elo Esz H0). destruct (flashVerifyErase sector f2) as [f3 err3]. destruct V as (Vm & Vo & Vd & V).
      apply same_eq in Vm. rewrite Eon2 in V, Vo. destruct V as [[-> _]|[_ V]].
      2:{ exfalso. apply V. intros a Ha. rewrite Hm. apply wipe_in, Ha. }
      rewrite decide_True by reflexivity. apply (HQ Hk); congruence.
    + destruct H as [Hne Hm]. rewrite decide_False by exact Hne. eexists _, f2, _. split; [reflexivity|]. rewrite Eon2.
      split; [exact Hk|]. split; [exact Hd2|]. split; [|reflexivity].
      destruct Hm as [Hm|Hm]; apply same_eq in Hm; rewrite Hm; assumption.
  - destruct H as [Hm Hoff]. apply same_eq in Hm. eexists _, f1, _. split; [reflexivity|]. rewrite Hoff, Hm.
    split; [exact Hk|]. split; [congruence|]. split; [exact HC|reflexivity].
Qed.

Lemma wp_erase_sectors b n : forall i d m Q C,
  (i + n = bank_count cfg b)%nat ->
  (forall j, (i <= j <= i + n)%nat -> C (wipe m (pos b i) (pos b j))) ->
  Q MFS_NO_ERROR d (wipe m (pos b i) (lim b)) ->
  wp (erase_sectors n (bank_first cfg b + Z.of_nat i)) d m Q C.
Proof.
  induction n as [|n IH]; intros i d m Q C Hi HC HQ.
  - cbn [erase_sectors]. apply wp_ret. rewrite Nat.add_0_r in Hi. subst i. rewrite pos_lim, wipe_nil in HQ. exact HQ.
  - destruct (@g_sector _ _ _ G b i ltac:(lia)) as (E1 & E2 & Hs). pose proof (@g_first _ _ _ G b).
    apply wp_erase_sector with (lo := pos b i) (size := pos b (S i) - pos b i); try assumption; try lia.
    + rewrite <- (wipe_nil m (pos b i)). apply HC. lia.
    + rewrite Zplus_minus. apply HC. lia.
    + rewrite Zplus_minus. replace (bank_first cfg b + Z.of_nat i + 1) with (bank_first cfg b + Z.of_nat (S i)) by lia.
      pose proof (pos_mono b (S i) (bank_count cfg b) ltac:(lia)) as Hp. rewrite pos_lim in Hp.
      apply IH; [lia| |].
      * intros j Hj. rewrite wipe_app; [apply HC; lia|]. split; [lia|apply pos_mono; lia].
      * rewrite wipe_app by lia. exact HQ.
Qed.

Lemma wp_erase b d m Q C :
  C m -> (forall x, base b + 16 <= x <= lim b -> C (wipe m (base b) x)) -> Q MFS_NO_ERROR d (wipe m (base b) (lim b)) ->
  wp (mfs_bank_erase b) d m Q C.
Proof.
  intros HC HC' HQ. apply wp_bank_sectors. cbv beta iota. rewrite <- (Z.add_0_r (bank_first cfg b)).
  apply (wp_erase_sectors b _ 0); [destruct b; reflexivity| |exact HQ].
  intros [|j] Hj; [rewrite wipe_nil; exact HC|]. apply HC'.
  assert (Hj' : (S j <= bank_count cfg b)%nat) by (unfold bank_count; lia).
  pose proof (pos_mono b 1 (S j) ltac:(lia)). pose proof (pos_step b 0 (@g_count _ _ _ G b)).
  pose proof (pos_mono b (S j) (bank_count cfg b) ltac:(lia)) as Hl. rewrite pos_lim in Hl.
  unfold MfsWp.base. lia.
Qed.

(** *** Verifying *)

Lemma wp_verify_sectors b n : forall i d m Q C,
  (i + n = bank_count cfg b)%nat ->
  (erased_in m (pos b i) (lim b) -> Q MFS_NO_ERROR d m) -> Q MFS_ERR_NOT_ERASED d m ->
  wp (verify_sectors n (bank_first cfg b + Z.of_nat i)) d m Q C.
Proof.
  induction n as [|n IH]; intros i d m Q C Hi HQ HN.
  - cbn [verify_sectors]. apply wp_ret, HQ. rewrite Nat.add_0_r in Hi. subst i. rewrite pos_lim. intros a Ha. lia.
  - destruct (@g_sector _ _ _ G b i ltac:(lia)) as (E1 & E2 & Hs). pose proof (@g_first _ _ _ G b).
    intros Hk fl <- Hon Hd. cbn [verify_sectors]. unfold dev, mbind at 1, mfs_bind at 1. cbn [s_fl s_drv].
    pose proof (verify_law fl _ _ _ ltac:(unfold flashGetSectorOffset; rewrite Hd; exact E1)
      ltac:(unfold flashGetSectorSize; rewrite Hd; exact E2) ltac:(lia)) as V.
    destruct (flashVerifyErase _ fl) as [f1 err1]. destruct V as (Vm & Vo & Vd & V). rewrite Hon in V, Vo.
    apply same_eq in Vm. destruct V as [[-> Ve]|[-> _]].
    + rewrite decide_False by discriminate. replace (bank_first cfg b + Z.of_nat i + 1) with (bank_first cfg b + Z.of_nat (S i)) by lia.
      apply (IH (S i) d (fl_mem fl) Q C); auto; try lia; try congruence. intros He. apply HQ. intros a Ha.
      destruct (Z.lt_ge_cases a (pos b (S i))); [apply Ve; lia|apply He; lia].
    + rewrite decide_True by reflexivity. eexists _, f1, _. split; [reflexivity|]. rewrite Vo, Vm. split_and!; try assumption. congruence.
Qed.

Lemma wp_verify_erase b d m Q C :
  (erased_in m (base b) (lim b) -> Q MFS_NO_ERROR d m) -> Q MFS_ERR_NOT_ERASED d m -> wp (mfs_bank_verify_erase b) d m Q C.
Proof.
  intros HQ HN. apply wp_bank_sectors. cbv beta iota. rewrite <- (Z.add_0_r (bank_first cfg b)).
  apply (wp_verify_sectors b _ 0); [destruct b; reflexivity|exact HQ|exact HN].
Qed.

End Banks.
