(* ===== verification/MfsDisk.v ===== *)
(** * What a managed device holds (hal_mfs.c)

    [bank_log]: a bank whose records make the map [M], its log followed by erased
    memory or by a header that a power failure left unfinished; [disk]: every bank
    with a valid header makes [M], so that it does not matter which one is mounted.
    [live_bank] relates the driver's variables to the bank in use.  The lemmas follow
    them through the memory's changes, whole or interrupted. *)

From S2P Require Import Prelude CInt Words Crc16 Flash Mfs MfsLog MfsWp MfsBank.
#[local] Open Scope Z_scope.

(** ** Agreement of contents *)

Definition agree (m m' : Z -> Z) (lo hi : Z) : Prop := forall a, lo <= a < hi -> m' a = m a.
Definition bytes_of (m : Z -> Z) : Prop := forall a, is_byte (m a).

Lemma agree_sub m m' lo hi lo' hi' : agree m m' lo hi -> lo <= lo' -> hi' <= hi -> agree m m' lo' hi'.
Proof. intros H H1 H2 a Ha. apply H. lia. Qed.

Lemma agree_refl m lo hi : agree m m lo hi.
Proof. intros a _. reflexivity. Qed.

Lemma agree_trans m1 m2 m3 lo hi : agree m1 m2 lo hi -> agree m2 m3 lo hi -> agree m1 m3 lo hi.
Proof. intros H1 H2 a Ha. rewrite H2 by exact Ha. apply H1, Ha. Qed.

Lemma agree_upd m off bs lo hi : off + Z.of_nat (length bs) <= lo \/ hi <= off -> agree m (upd m off bs) lo hi.
Proof. intros H a Ha. apply upd_out. lia. Qed.

Lemma agree_wipe m x y lo hi : y <= lo \/ hi <= x -> agree m (wipe m x y) lo hi.
Proof. intros H a Ha. apply wipe_out. lia. Qed.

Lemma agree_bytes m m' lo hi off n : agree m m' lo hi -> lo <= off -> off + n <= hi -> bytes_at m' off n = bytes_at m off n.
Proof. intros H H1 H2. apply bytes_at_ext. intros a Ha. apply H. lia. Qed.

Lemma agree_erased m m' lo hi lo' hi' : agree m m' lo hi -> lo <= lo' -> hi' <= hi -> erased_in m lo' hi' -> erased_in m' lo' hi'.
Proof. intros H H1 H2 He a Ha. rewrite H by lia. apply He, Ha. Qed.

Lemma bytes_of_at m off n : bytes_of m -> Forall is_byte (bytes_at m off n).
Proof. intros H. unfold bytes_at. apply Forall_fmap, Forall_true. intros a. apply H. Qed.

Lemma bytes_of_upd m off bs : bytes_of m -> Forall is_byte bs -> bytes_of (upd m off bs).
Proof.
  intros H Hb a. unfold upd. destruct (_ && _); [|apply H]. destruct (bs !! Z.to_nat (a - off)) as [b|] eqn:E.
  - cbn. apply (Forall_lookup_1 _ _ _ _ Hb E).
  - cbn. unfold is_byte. lia.
Qed.

Lemma take_length_le {A} k (l : list A) : (length (take k l) <= length l)%nat.
Proof. rewrite length_take. lia. Qed.

(** ** Banks *)

Section Disk.
Context (cfg : MFSConfig) (desc : flash_descriptor_t) (pos : mfs_bank_t -> nat -> Z).
Context `{G : !Geometry cfg desc pos}.

#[local] Abbreviation base := (base pos).
#[local] Abbreviation lim := (lim cfg pos).
#[local] Abbreviation bank_range := (bank_range cfg desc pos).

Definition hdr (m : Z -> Z) (b : mfs_bank_t) : list Z := bytes_at m (base b) 16.
Definition st (m : Z -> Z) (b : mfs_bank_t) : mfs_bank_state_t := bhdr_check erased_word (hdr m b).

Definition log_at (m : Z -> Z) (b : mfs_bank_t) (L : list entry) : Prop :=
  bytes_at m (base b + 16) (lsize L) = enc_log L /\ Forall entry_ok L.

Definition next (b : mfs_bank_t) (L : list entry) : Z := base b + 16 + lsize L.

Inductive tail (m : Z -> Z) (b : mfs_bank_t) (n : Z) : Prop :=
| tail_clean : erased_in m n (lim b) -> n + 16 <= lim b -> tail m b n
| tail_torn : n + 16 < lim b -> dhdr_check erased_word (lim b - n) (bytes_at m n 16) = DHDR_BAD -> tail m b n.

Definition room (M : records) : Prop := 32 + used_of M <= cfg_bank_size cfg.

Definition bank_log (m : Z -> Z) (b : mfs_bank_t) (M : records) : Prop :=
  exists L, log_at m b L /\ replay L = M /\ tail m b (next b L) /\ room M.

Definition disk (m : Z -> Z) (M : records) : Prop :=
  (forall b, st m b = MFS_BANK_OK -> bank_log m b M) /\ ((forall b, st m b <> MFS_BANK_OK) -> M = no_records).

Lemma other_other b : other_bank (other_bank b) = b.
Proof. destruct b; reflexivity. Qed.

Lemma bank_split b b' : b' = b \/ b' = other_bank b.
Proof. destruct b, b'; auto. Qed.

Lemma tail_room m b n : tail m b n -> n + 16 <= lim b.
Proof. intros []; lia. Qed.

Lemma agree_st m m' b : agree m m' (base b) (base b + 16) -> st m' b = st m b.
Proof. intros H. unfold st, hdr. rewrite (agree_bytes _ _ _ _ _ _ H) by lia. reflexivity. Qed.

Lemma agree_log m m' b L hi : agree m m' (base b + 16) hi -> next b L <= hi -> log_at m b L -> log_at m' b L.
Proof. intros H Hh [E HL]. split; [|exact HL]. rewrite (agree_bytes _ _ _ _ _ _ H) by (unfold next in Hh; lia). exact E. Qed.

Lemma agree_bank_log m m' b M : agree m m' (base b) (lim b) -> bank_log m b M -> bank_log m' b M.
Proof.
  intros H (L & HL & HM & Ht & Hr). pose proof (tail_room _ _ _ Ht). exists L. pose proof (lsize_nonneg L).
  split; [apply (agree_log m m' b L (lim b)); [apply (agree_sub _ _ _ _ _ _ H); lia|lia|exact HL]|].
  split; [exact HM|]. split; [|exact Hr]. assert (Hn : base b <= next b L) by (unfold next; lia).
  destruct Ht as [He Hl|Hl Hc].
  - apply tail_clean; [|exact Hl]. apply (agree_erased _ _ _ _ _ _ H); [lia|lia|exact He].
  - apply tail_torn; [exact Hl|]. rewrite (agree_bytes _ _ _ _ _ _ H) by lia. exact Hc.
Qed.

Lemma erased_st m b : erased_in m (base b) (base b + 16) -> st m b = MFS_BANK_ERASED.
Proof. intros H. unfold st, hdr. rewrite erased_bytes by exact H. reflexivity. Qed.

Lemma disk_one m M b :
  st m b = MFS_BANK_OK -> bank_log m b M -> (st m (other_bank b) = MFS_BANK_OK -> bank_log m (other_bank b) M) -> disk m M.
Proof.
  intros Hs Hb Ho. split.
  - intros b'. destruct (bank_split b b') as [->| ->]; auto.
  - intros Hn. destruct (Hn b Hs).
Qed.

Lemma disk_none m : (forall b, st m b <> MFS_BANK_OK) -> disk m no_records.
Proof. intros H. split; [intros b Hb; destruct (H b Hb)|reflexivity]. Qed.

(** *** A log with one more record *)

Lemma log_at_snoc m b L e :
  log_at m b L -> bytes_at m (next b L) (esize e) = enc e -> entry_ok e -> log_at m b (L ++ [e]).
Proof.
  intros [E HL] Ee He. split; [|apply Forall_app_2; [exact HL|constructor; [exact He|constructor]]].
  rewrite lsize_app, lsize_cons. change (lsize []) with 0. rewrite Z.add_0_r.
  pose proof (esize_bound e). pose proof (lsize_nonneg L). rewrite bytes_at_app, E by lia.
  change (base b + 16 + lsize L) with (next b L). rewrite Ee, enc_log_app. f_equal. symmetry. apply app_nil_r.
Qed.

Lemma next_snoc b L e : next b (L ++ [e]) = next b L + esize e.
Proof. unfold next. rewrite lsize_app, lsize_cons. change (lsize []) with 0. lia. Qed.

(** The end of an interrupted write: its header is not sealed. *)
Lemma unsealed_tail m b n j :
  bytes_of m -> n + 16 < lim b -> m (n + 8) <> 255 -> (j < 8)%nat -> m (n + Z.of_nat j) = 255 -> tail m b n.
Proof.
  intros Hm Hl H8 Hj Ej. apply tail_torn; [exact Hl|].
  apply (dhdr_check_unsealed _ _ 8 j (m (n + 8))); try lia.
  - apply bytes_of_at, Hm.
  - rewrite bytes_at_length. lia.
  - rewrite bytes_at_lookup by lia. reflexivity.
  - rewrite bytes_at_lookup by lia. rewrite Ej. reflexivity.
Qed.

(** *** The driver's variables *)

Definition desc_ok (m : Z -> Z) (lo hi : Z) (i : nat) (o : option (list Z)) (rd : mfs_record_descriptor_t) : Prop :=
  match o with
  | None => rd = no_record
  | Some bs =>
      rd_size rd = Z.of_nat (length bs) /\ lo <= rd_offset rd /\ rd_offset rd + rec_size (rd_size rd) <= hi /\
      bytes_at m (rd_offset rd) (rec_size (rd_size rd)) = enc (Z.of_nat i + 1, bs)
  end.

Definition descs_ok (m : Z -> Z) (lo hi : Z) (M : records) (ds : list mfs_record_descriptor_t) : Prop :=
  length ds = length M /\ forall i o rd, M !! i = Some o -> ds !! i = Some rd -> desc_ok m lo hi i o rd.

Lemma desc_ok_agree m m' lo hi hi' i o rd :
  agree m m' lo hi -> hi <= hi' -> desc_ok m lo hi i o rd -> desc_ok m' lo hi' i o rd.
Proof.
  intros H Hh. destruct o as [bs|]; [|auto]. intros (E & H1 & H2 & Eb). split_and!; try assumption; [lia|].
  rewrite (agree_bytes _ _ _ _ _ _ H) by lia. exact Eb.
Qed.

Lemma descs_ok_agree m m' lo hi hi' M ds : agree m m' lo hi -> hi <= hi' -> descs_ok m lo hi M ds -> descs_ok m' lo hi' M ds.
Proof.
  intros H Hh [Hl Hd]. split; [exact Hl|]. intros i o rd E1 E2. apply (desc_ok_agree m _ _ hi); auto.
Qed.

Lemma descs_ok_insert m lo hi M ds i o rd :
  descs_ok m lo hi M ds -> desc_ok m lo hi i o rd -> descs_ok m lo hi (<[i := o]> M) (<[i := rd]> ds).
Proof.
  intros [Hl Hd] Hi. split; [rewrite !length_insert; exact Hl|]. intros j o' rd' E1 E2. destruct (decide (i = j)) as [<-|Hne].
  - apply list_lookup_insert_Some in E1 as [(_ & <- & Hlt)|(Hne & _)]; [|congruence].
    rewrite list_lookup_insert_eq in E2 by lia. congruence.
  - rewrite list_lookup_insert_ne in E1 by exact Hne. rewrite list_lookup_insert_ne in E2 by exact Hne. eauto.
Qed.

Lemma descs_ok_none m lo hi : descs_ok m lo hi no_records (replicate MFS_CFG_MAX_RECORDS no_record).
Proof.
  split; [reflexivity|]. intros i o rd E1 E2. apply lookup_replicate in E1 as [-> _], E2 as [-> _]. reflexivity.
Qed.

(** What the record's descriptor becomes. *)
Definition entry_desc (off : Z) (e : entry) : mfs_record_descriptor_t :=
  match e.2 with [] => no_record | _ => Descriptor off (Z.of_nat (length e.2)) end.

Lemma descs_ok_rstep m lo hi M ds off e :
  descs_ok m lo hi M ds -> entry_ok e -> lo <= off -> off + esize e <= hi -> bytes_at m off (esize e) = enc e ->
  descs_ok m lo hi (rstep M e) (<[Z.to_nat (e.1 - 1) := entry_desc off e]> ds).
Proof.
  intros Hd (Hid & _) H1 H2 Eb. apply descs_ok_insert; [exact Hd|]. destruct e as [id bs]. unfold entry_desc. cbn [fst snd] in *.
  destruct bs as [|x bs]; [reflexivity|]. unfold desc_ok. cbn [rd_size rd_offset]. split_and!; try assumption; [reflexivity|].
  replace (Z.of_nat (Z.to_nat (id - 1)) + 1) with id by lia. exact Eb.
Qed.

Record live_bank (d : MFSDriver) (m : Z -> Z) (M : records) (L : list entry) : Prop := {
  lb_ok : st m (m_bank d) = MFS_BANK_OK;
  lb_counter : bhdr_counter (hdr m (m_bank d)) = m_counter d;
  lb_log : log_at m (m_bank d) L;
  lb_replay : replay L = M;
  lb_next : m_next d = next (m_bank d) L;
  lb_used : m_used d = 16 + used_of M;
  lb_descs : descs_ok m (base (m_bank d) + 16) (m_next d) M (m_descs d);
  lb_room : room M;
  lb_fits : m_next d + 16 <= lim (m_bank d);
  lb_spare : erased_in m (base (other_bank (m_bank d))) (lim (other_bank (m_bank d)))
}.

(** The bank behind the log is erased. *)
Definition clean (d : MFSDriver) (m : Z -> Z) : Prop := erased_in m (m_next d) (lim (m_bank d)).

Lemma disjoint b : lim b <= base (other_bank b) \/ lim (other_bank b) <= base b.
Proof. exact (@g_disjoint _ _ _ G b). Qed.

Lemma spare_st d m M L : live_bank d m M L -> st m (other_bank (m_bank d)) = MFS_BANK_ERASED.
Proof.
  intros H. apply erased_st. intros a Ha. apply (lb_spare _ _ _ _ H). pose proof (bank_range (other_bank (m_bank d))). lia.
Qed.

(** Whatever happens behind the log, if what follows it is a tail. *)
Lemma tail_disk d m m' M L :
  live_bank d m M L -> (forall a, ~ m_next d <= a < lim (m_bank d) -> m' a = m a) -> tail m' (m_bank d) (m_next d) -> disk m' M.
Proof.
  intros H Ha Ht. pose proof (bank_range (m_bank d)). pose proof (bank_range (other_bank (m_bank d))).
  pose proof (disjoint (m_bank d)) as Hdis. pose proof (tail_room _ _ _ Ht). pose proof (lsize_nonneg L).
  pose proof (lb_next _ _ _ _ H) as En. unfold next in En. apply (disk_one _ _ (m_bank d)).
  - rewrite <- (lb_ok _ _ _ _ H). apply agree_st. intros a Hr. apply Ha. lia.
  - exists L. split; [|split; [apply H|split; [rewrite <- (lb_next _ _ _ _ H); exact Ht|apply H]]].
    apply (agree_log m _ _ _ (m_next d)); [|rewrite (lb_next _ _ _ _ H); lia|apply H]. intros a Hr. apply Ha. lia.
  - rewrite erased_st; [discriminate|]. intros a Hr. rewrite Ha by lia. apply (lb_spare _ _ _ _ H). lia.
Qed.

Lemma clean_disk d m M L : live_bank d m M L -> clean d m -> disk m M.
Proof. intros H He. apply (tail_disk d m m M L H); [reflexivity|]. apply tail_clean; [exact He|apply H]. Qed.

End Disk.
