(* ===== verification/MfsGc.v ===== *)
(** * Garbage collection (hal_mfs.c)

    [mfs_garbage_collect] leaves the same records in the other bank, with the first
    bank erased; when the power fails during it, every bank with a valid header still
    has them. *)

From S2P Require Import Prelude CInt Words Crc16 Flash Mfs MfsLog MfsWp MfsBank MfsDisk.
#[local] Open Scope Z_scope.
#[local] Existing Instances mfs_ret mfs_bind.

(** The failure of a part is the failure of the whole. *)
Ltac propagate :=
  let a := fresh in let Hf := fresh in
  intros a ? ? Hf ?; repeat (destruct a as [a ?]); destruct a; try discriminate Hf;
  eexists _, _; split; [reflexivity|]; split; [assumption|reflexivity].

Section Gc.
Context {F : Type} `{BF : BaseFlash F} `{FL : !FlashLaws F}.
Context (cfg : MFSConfig) (desc : flash_descriptor_t) (pos : mfs_bank_t -> nat -> Z).
Context `{G : !Geometry cfg desc pos}.

#[local] Abbreviation wp := (wp cfg desc).
#[local] Abbreviation kept := (kept cfg).
#[local] Abbreviation base := (base pos).
#[local] Abbreviation lim := (lim cfg pos).
#[local] Abbreviation bank_range := (bank_range cfg desc pos).
#[local] Abbreviation disk := (disk cfg pos).
#[local] Abbreviation live_bank := (live_bank cfg pos).
#[local] Abbreviation clean := (clean cfg pos).
#[local] Abbreviation st := (st pos).
#[local] Abbreviation bank_log := (bank_log cfg pos).

Lemma wp_write_header b cnt d m Q C :
  erased_in m (base b) (base b + 16) -> (forall k, C (upd m (base b) (take k (bank_header cnt)))) ->
  (forall buf, (32 <= length buf)%nat -> Q MFS_NO_ERROR (with_ncbuf buf d) (upd m (base b) (bank_header cnt))) ->
  wp (mfs_bank_write_header b cnt) d m Q C.
Proof.
  intros He HC HQ. pose proof (bank_range b). unfold mfs_bank_write_header. apply wp_config.
  apply wp_kept. intros [_ Hl].
  assert (E : bhdr_fill cfg cnt (m_ncbuf d) = bank_header cnt ++ drop 16 (m_ncbuf d)) by (apply bhdr_fill_bytes; [apply G|lia]).
  assert (El : (32 <= length (bhdr_fill cfg cnt (m_ncbuf d)))%nat) by (rewrite E, length_app, bank_header_length, length_drop; lia).
  apply wp_modify; [intros Hk; apply kept_ncbuf; assumption|]. apply (wp_bank_offset cfg desc pos).
  apply (wp_write_buf cfg desc 0 _ _ (bank_header cnt)); unfold sizeof_mfs_bank_header_t; try lia.
  - cbn [m_ncbuf with_ncbuf]. rewrite E, drop_0, take_app_length' by reflexivity. reflexivity.
  - exact He.
  - apply bank_header_bytes.
  - exact HC.
  - apply HQ. rewrite length_app, bank_header_length, length_drop. cbn [m_ncbuf with_ncbuf]. lia.
Qed.

Definition suffix_descs (m : Z -> Z) (lo hi : Z) (i : nat) (M : records) (ds : list mfs_record_descriptor_t) : Prop :=
  forall j o rd, (i <= j)%nat -> M !! j = Some o -> ds !! j = Some rd -> desc_ok m lo hi j o rd.

Lemma wp_gc_copy M lo hi : Forall slot_ok M -> 0 < lo -> hi <= fd_size desc ->
  forall n i dest d m Q C,
  (i + n = length M)%nat -> length (m_descs d) = length M -> suffix_descs m lo hi i M (m_descs d) ->
  0 < dest -> dest + used_of (drop i M) <= fd_size desc -> dest + used_of (drop i M) <= lo \/ hi <= dest ->
  erased_in m dest (dest + used_of (drop i M)) ->
  (forall k, C (upd m dest (take k (enc_log (live_from (Z.of_nat i + 1) (drop i M)))))) ->
  (forall buf ds, let m' := upd m dest (enc_log (live_from (Z.of_nat i + 1) (drop i M))) in
     (32 <= length buf)%nat -> length ds = length M -> (forall j, (j < i)%nat -> ds !! j = m_descs d !! j) ->
     suffix_descs m' dest (dest + used_of (drop i M)) i M ds ->
     Q (MFS_NO_ERROR, dest + used_of (drop i M)) (with_ncbuf buf (with_descs ds d)) m') ->
  wp (gc_copy n i dest) d m Q C.
Proof.
  intros HM Hlo Hhi. pose proof (@g_size _ _ _ G) as Hsz.
  induction n as [|n IH]; intros i dest d m Q C Hi Hl Hs Hd1 Hd2 Hdis He HC HQ; cbn [gc_copy].
  - apply wp_kept. intros [_ Hb]. apply wp_ret. rewrite drop_ge in HQ by lia.
    specialize (HQ (m_ncbuf d) (m_descs d) Hb Hl (fun _ _ => eq_refl)). cbv zeta in HQ. cbn [live_from] in HQ.
    change (enc_log []) with (@nil Z) in HQ. change (used_of []) with 0 in HQ. rewrite upd_nil_eq, Z.add_0_r in HQ.
    replace (with_ncbuf (m_ncbuf d) (with_descs (m_descs d) d)) with d in HQ by (destruct d; reflexivity).
    apply HQ. intros j o rd Hj E1. apply lookup_lt_Some in E1. lia.
  - destruct (lookup_lt_is_Some_2 M i ltac:(lia)) as [o Eo]. destruct (lookup_lt_is_Some_2 (m_descs d) i ltac:(lia)) as [rd Er].
    apply wp_drv. apply wp_lift with (x := rd); [exact Er|]. pose proof (Hs i o rd ltac:(lia) Eo Er) as Hrd.
    assert (Ho : slot_ok o) by (apply (Forall_lookup_1 _ _ _ _ HM Eo)).
    assert (Ed : drop i M = o :: drop (S i) M) by (apply drop_S, Eo).
    rewrite Ed in Hd2, Hdis, He, HC, HQ. destruct o as [bs|].
    2:{ cbn in Hrd. subst rd. cbn [rd_offset no_record Z.eqb negb]. rewrite used_of_none in Hd2, Hdis, He, HQ. cbn [live_from] in HC, HQ.
        replace (Z.of_nat i + 1 + 1) with (Z.of_nat (S i) + 1) in HC, HQ by lia.
        apply IH; try assumption; try lia.
        - intros j o rd Hj. apply Hs. lia.
        - intros buf ds m' H1 H2 H3 H4. apply HQ; try assumption; [intros j Hj; apply H3; lia|].
          intros j o rd Hj E1 E2. destruct (decide (j = i)) as [->|Hne]; [|apply (H4 j); [lia|assumption..]].
          rewrite Eo in E1. injection E1 as <-. rewrite H3, Er in E2 by lia. injection E2 as <-. reflexivity. }
    destruct Ho as (Hne & Hn & Hb). destruct Hrd as (Esz & Hlo' & Hhi' & Eb).
    assert (Hoff : (rd_offset rd =? 0) = false) by lia. rewrite Hoff. cbn [negb].
    rewrite aligned_rec_size by lia. pose proof (rec_size_bound (rd_size rd) ltac:(lia)) as Hrs.
    set (e := (Z.of_nat i + 1, bs)) in *. set (tot := rec_size (rd_size rd)) in *.
    assert (Ee : esize e = tot) by (unfold esize, tot; rewrite Esz; reflexivity).
    rewrite used_of_some in Hd2, Hdis, He, HQ. cbn [live_from] in HC, HQ.
    rewrite <- Esz in Hd2, Hdis, He, HQ. fold tot in Hd2, Hdis, He, HQ. fold e in HC, HQ.
    replace (Z.of_nat i + 1 + 1) with (Z.of_nat (S i) + 1) in HC, HQ by lia.
    change (enc_log (e :: ?l)) with (enc e ++ enc_log l) in HC, HQ.
    assert (El : Z.of_nat (length (enc e)) = tot) by (rewrite enc_length; exact Ee).
    pose proof (used_of_nonneg (drop (S i) M)) as Hu. rewrite Z.add_assoc in Hd2, Hdis, He, HQ.
    apply wp_error; [reflexivity|]. apply (wp_flash_copy cfg desc pos); try lia.
    + intros a Ha. apply He. lia.
    + rewrite Eb. intros k. specialize (HC (k `min` length (enc e))%nat). rewrite take_app_le in HC by lia.
      rewrite <- take_take, firstn_all in HC. exact HC.
    + intros buf Hbuf. split; [reflexivity|]. rewrite Eb. apply wp_set; [reflexivity|reflexivity|].
      rewrite u32_id by lia. apply IH; cbn [m_descs with_descs with_ncbuf]; try lia.
      * rewrite length_insert. exact Hl.
      * intros j o rd' Hj E1 E2. rewrite list_lookup_insert_ne in E2 by lia.
        apply (desc_ok_agree m _ lo hi hi); [apply agree_upd; rewrite El; lia|lia|]. apply Hs; auto with lia.
      * intros a Ha. rewrite upd_out by lia. apply He. lia.
      * intros k. specialize (HC (length (enc e) + k)%nat). rewrite take_app_add, upd_app, El in HC. exact HC.
      * cbv zeta. intros buf' ds H1 H2 H3 H4. rewrite upd_app, El in HQ. apply (HQ buf' ds H1 H2).
        -- intros j Hj. rewrite H3, list_lookup_insert_ne by lia. reflexivity.
        -- intros j o rd' Hj E1 E2. destruct (decide (j = i)) as [->|Hji].
           ++ rewrite Eo in E1. injection E1 as <-. rewrite H3, list_lookup_insert_eq in E2 by lia. injection E2 as <-.
              unfold desc_ok. cbn [rd_size rd_offset]. fold tot e. split_and!; [exact Esz|lia|lia|].
              rewrite bytes_at_upd_out by lia. rewrite <- El. apply bytes_at_upd.
           ++ specialize (H4 j o rd' ltac:(lia) E1 E2). destruct o; [|exact H4].
              destruct H4 as (A1 & A2 & A3 & A4). split_and!; try assumption. lia.
Qed.

(** The records are in the other bank too, whose header is being written. *)
Lemma copied_disk d m m' M L k cnt :
  live_bank d m M L -> disk m M -> let b' := other_bank (m_bank d) in
  m' = upd (upd m (base b' + 16) (enc_log (live M))) (base b') (take k (bank_header cnt)) ->
  agree m m' (base (m_bank d)) (lim (m_bank d)) /\ bank_log m' b' M /\ log_at pos m' b' (live M) /\
  erased_in m' (next pos b' (live M)) (lim b') /\ disk m' M.
Proof.
  intros H Hd b' ->. set (b := m_bank d) in *. pose proof (bank_range b) as Hb. pose proof (bank_range b') as Hb'.
  pose proof (disjoint cfg desc pos b) as Hdis. pose proof (lb_room _ _ _ _ _ _ H) as Hr. unfold MfsDisk.room in Hr.
  assert (HM : records_ok M) by (rewrite <- (lb_replay _ _ _ _ _ _ H); apply replay_ok, (lb_log _ _ _ _ _ _ H)).
  assert (Hu : lsize (live M) = used_of M) by apply lsize_live_from. pose proof (used_of_nonneg M) as Hnn.
  assert (Hlim : lim b' = base b' + cfg_bank_size cfg) by reflexivity.
  set (hd := take k (bank_header cnt)). set (m1 := upd m (base b' + 16) (enc_log (live M))).
  assert (Hhd : Z.of_nat (length hd) <= 16) by (unfold hd; rewrite length_take, bank_header_length; lia).
  assert (Hlog : Z.of_nat (length (enc_log (live M))) = used_of M) by exact Hu.
  assert (Ha : agree m (upd m1 (base b') hd) (base b) (lim b)).
  { apply (agree_trans _ m1); apply agree_upd; fold b' in Hdis; [rewrite Hlog|]; lia. }
  assert (Hlg : log_at pos (upd m1 (base b') hd) b' (live M)).
  { split; [|apply live_ok, HM]. rewrite bytes_at_upd_out by lia. unfold lsize. apply bytes_at_upd. }
  assert (He : erased_in (upd m1 (base b') hd) (next pos b' (live M)) (lim b')).
  { intros a Ha'. unfold next in Ha'. rewrite Hu in Ha'. unfold m1. rewrite !upd_out by lia. apply (lb_spare _ _ _ _ _ _ H). fold b b'. lia. }
  assert (Hbl : bank_log (upd m1 (base b') hd) b' M).
  { exists (live M). split; [exact Hlg|]. split; [apply replay_live, HM|]. split; [|exact (lb_room _ _ _ _ _ _ H)].
    apply tail_clean; [exact He|]. unfold next. rewrite Hu. lia. }
  split_and!; try assumption. apply (disk_one cfg pos _ _ b).
  - transitivity (st m b); [|exact (lb_ok _ _ _ _ _ _ H)]. apply agree_st, (agree_sub _ _ _ _ _ _ Ha); lia.
  - apply (agree_bank_log cfg pos m _ b); [exact Ha|]. apply Hd. apply (lb_ok _ _ _ _ _ _ H).
  - intros _. exact Hbl.
Qed.

(** The header is not there yet. *)
Lemma copying_disk d m M L bs :
  live_bank d m M L -> disk m M -> let b' := other_bank (m_bank d) in
  base b' + 16 + Z.of_nat (length bs) <= lim b' -> disk (upd m (base b' + 16) bs) M.
Proof.
  intros H Hd b' Hl. set (b := m_bank d) in *. pose proof (bank_range b) as Hb. pose proof (bank_range b') as Hb'.
  pose proof (disjoint cfg desc pos b) as Hdis. fold b' in Hdis. assert (Ha : agree m (upd m (base b' + 16) bs) (base b) (lim b)) by (apply agree_upd; lia).
  apply (disk_one cfg pos _ _ b).
  - transitivity (st m b); [|exact (lb_ok _ _ _ _ _ _ H)]. apply agree_st, (agree_sub _ _ _ _ _ _ Ha); lia.
  - apply (agree_bank_log cfg pos m _ b); [exact Ha|]. apply Hd. apply (lb_ok _ _ _ _ _ _ H).
  - change (other_bank b) with b'. rewrite erased_st; [discriminate|]. intros a Ha'. rewrite upd_out by lia.
    apply (lb_spare _ _ _ _ _ _ H). fold b b'. lia.
Qed.

(** The driver's variables afterwards. *)
Lemma collected_live d m M L buf ds :
  live_bank d m M L -> disk m M -> 0 <= m_counter d + 1 < erased_word ->
  let b := m_bank d in let b' := other_bank b in let m1 := upd m (base b' + 16) (enc_log (live M)) in
  let m' := wipe (upd m1 (base b') (bank_header (m_counter d + 1))) (base b) (lim b) in
  let d' := with_ncbuf buf (with_next_offset (base b' + 16 + used_of M) (with_bank b' (m_counter d + 1) (with_descs ds d))) in
  length ds = length M -> suffix_descs m1 (base b' + 16) (base b' + 16 + used_of M) 0 M ds ->
  live_bank d' m' M (live M) /\ clean d' m'.
Proof.
  intros H Hd Hcnt b b' m1 m' d' Hl Hds. pose proof (bank_range b) as Hb. pose proof (bank_range b') as Hb'.
  pose proof (disjoint cfg desc pos b) as Hdis. change (other_bank b) with b' in Hdis.
  pose proof (lb_room _ _ _ _ _ _ H) as Hr. unfold MfsDisk.room in Hr.
  assert (HM : records_ok M) by (rewrite <- (lb_replay _ _ _ _ _ _ H); apply replay_ok, (lb_log _ _ _ _ _ _ H)).
  assert (Hu : lsize (live M) = used_of M) by apply lsize_live_from.
  assert (Hlim : lim b' = base b' + cfg_bank_size cfg) by reflexivity.
  pose proof (copied_disk d m _ M L 16 (m_counter d + 1) H Hd eq_refl) as (_ & _ & Hlg & He & _).
  change (other_bank (m_bank d)) with b' in Hlg, He. change (take 16 (bank_header (m_counter d + 1))) with (bank_header (m_counter d + 1)) in Hlg, He.
  fold m1 in Hlg, He. set (m2 := upd m1 (base b') (bank_header (m_counter d + 1))) in *.
  assert (Ha : agree m2 m' (base b') (lim b')) by (apply agree_wipe; lia).
  assert (Ehdr : hdr pos m' b' = bank_header (m_counter d + 1)).
  { unfold hdr. rewrite (agree_bytes _ _ _ _ _ _ Ha) by lia. apply (bytes_at_upd m1 (base b')). }
  assert (Hm1 : agree m1 m' (base b' + 16) (lim b')).
  { apply (agree_trans _ m2); [apply agree_upd; rewrite bank_header_length; lia|]. apply (agree_sub _ _ _ _ _ _ Ha); lia. }
  split; [constructor|]; cbn [d' m_bank m_counter m_next m_used m_descs with_ncbuf with_next_offset with_bank with_descs].
  - unfold MfsDisk.st. rewrite Ehdr. apply bank_header_ok, Hcnt.
  - rewrite Ehdr. apply bank_header_counter. unfold erased_word in Hcnt. lia.
  - apply (agree_log pos m2 m' b' _ (lim b')); [apply (agree_sub _ _ _ _ _ _ Ha); lia| |exact Hlg]. unfold next. lia.
  - apply replay_live, HM.
  - unfold next. lia.
  - apply H.
  - apply (descs_ok_agree m1 m' _ (base b' + 16 + used_of M)); [apply (agree_sub _ _ _ _ _ _ Hm1); lia|lia|].
    split; [exact Hl|]. intros i o rd. apply Hds. lia.
  - apply H.
  - lia.
  - unfold b'. rewrite other_other. fold b. intros a Hr'. apply wipe_in, Hr'.
  - unfold MfsDisk.clean. change (m_bank d') with b'. change (m_next d') with (base b' + 16 + used_of M). unfold next in He. rewrite Hu in He.
    apply (agree_erased _ _ _ _ _ _ Ha); [pose proof (used_of_nonneg M); lia|lia|exact He].
Qed.

Lemma wp_gc d m M L Q C :
  live_bank d m M L -> disk m M -> 0 <= m_counter d + 1 < erased_word ->
  (forall m', disk m' M -> C m') ->
  (forall d' m', live_bank d' m' M (live M) -> clean d' m' -> m_state d' = m_state d -> Q MFS_NO_ERROR d' m') ->
  wp mfs_garbage_collect d m Q C.
Proof.
  intros H Hd Hcnt HC HQ. set (b := m_bank d) in *. set (b' := other_bank b).
  pose proof (bank_range b) as Hb. pose proof (bank_range b') as Hb'. pose proof (disjoint cfg desc pos b) as Hdis. fold b' in Hdis.
  pose proof (lb_room _ _ _ _ _ _ H) as Hr. unfold MfsDisk.room in Hr. pose proof (used_of_nonneg M) as Hnn.
  assert (HM : records_ok M) by (rewrite <- (lb_replay _ _ _ _ _ _ H); apply replay_ok, (lb_log _ _ _ _ _ _ H)).
  assert (Hu : lsize (live M) = used_of M) by apply lsize_live_from.
  assert (Hlim : lim b' = base b' + cfg_bank_size cfg) by reflexivity.
  pose proof (lb_fits _ _ _ _ _ _ H) as Hfit. fold b in Hfit.
  assert (Hcopy : forall k, C (upd m (base b' + 16) (take k (enc_log (live M))))).
  { intros k. apply HC, (copying_disk d m M L); [exact H|exact Hd|]. fold b b'.
    pose proof (take_length_le k (enc_log (live M))). unfold lsize in Hu. lia. }
  pose proof (copied_disk d m _ M L 16 (m_counter d + 1) H Hd eq_refl) as (Ha & Hbl & Hlg & He & Hdk). fold b b' in Ha, Hbl, Hlg, He, Hdk.
  assert (Hhdr : forall k, C (upd (upd m (base b' + 16) (enc_log (live M))) (base b') (take k (bank_header (m_counter d + 1))))).
  { intros k. apply HC. apply (copied_disk d m _ M L k (m_counter d + 1) H Hd eq_refl). }
  unfold mfs_garbage_collect. apply wp_drv. fold b b'. apply (wp_bank_offset cfg desc pos).
  change ALIGNED_SIZEOF_BHDR with 16. rewrite u32_id by lia. eapply wp_bind; [propagate|].
  pose proof (lb_descs _ _ _ _ _ _ H) as [Hdl Hds].
  apply (wp_gc_copy M (base b + 16) (m_next d)); rewrite ?drop_0; try lia; try assumption; [apply HM|symmetry; apply HM| | |].
  - intros j o rd _. apply Hds.
  - intros a Ha'. apply (lb_spare _ _ _ _ _ _ H). fold b b'. lia.
  - intros buf ds m1 Hbuf Hl _ Hs. rewrite decide_True by reflexivity.
    apply wp_set; [reflexivity|reflexivity|]. apply wp_drv. cbn [m_counter with_next_offset with_bank with_ncbuf with_descs].
    rewrite u32_id by (unfold erased_word in Hcnt; lia).
    apply wp_error; [reflexivity|]. apply wp_write_header; [|exact Hhdr|].
    + intros a Ha'. unfold m1. rewrite upd_out by lia. apply (lb_spare _ _ _ _ _ _ H). fold b b'. lia.
    + intros buf' Hbuf'. split; [reflexivity|]. apply wp_error; [reflexivity|]. apply (wp_erase cfg desc pos).
      * apply HC, Hdk.
      * intros x Hx. apply HC. apply (disk_one cfg pos _ _ b').
        -- transitivity (st (upd m1 (base b') (bank_header (m_counter d + 1))) b'); [apply agree_st, agree_wipe; lia|].
           unfold MfsDisk.st, hdr. rewrite (bytes_at_upd m1 (base b')). apply bank_header_ok, Hcnt.
        -- apply (agree_bank_log cfg pos _ _ b') with (2 := Hbl). apply agree_wipe. lia.
        -- unfold b'. rewrite other_other. rewrite erased_st; [discriminate|]. intros a Ha'. apply wipe_in. lia.
      * split; [reflexivity|]. apply wp_ret.
        destruct (collected_live d m M L buf' ds H Hd Hcnt Hl Hs) as [H1 H2]. apply HQ; [exact H1|exact H2|reflexivity].
Qed.

End Gc.
