(* ===== verification/MfsScan.v ===== *)
(** * The scan of a bank (hal_mfs.c)

    [mfs_bank_scan_records] finds the records of a log, sets the descriptors to what
    the log leaves and tells whether the log ends cleanly. *)

From S2P Require Import Prelude CInt Words Crc16 Flash Mfs MfsLog MfsWp MfsBank MfsDisk MfsGc.
#[local] Open Scope Z_scope.
#[local] Existing Instances mfs_ret mfs_bind.

(** The two parts of a record that are read. *)
Lemma enc_split m off e :
  bytes_at m off (esize e) = enc e ->
  bytes_at m off 16 = magic ++ body e.1 e.2 /\ bytes_at m (off + 16) (Z.of_nat (length e.2)) = e.2.
Proof.
  intros E. pose proof (rec_size_bound (Z.of_nat (length e.2)) ltac:(lia)) as Hr. fold (esize e) in Hr.
  assert (E1 : bytes_at m off 16 ++ bytes_at m (off + 16) (esize e - 16) = (magic ++ body e.1 e.2) ++ e.2 ++ pad e.2).
  { rewrite <- bytes_at_app by lia. replace (16 + (esize e - 16)) with (esize e) by lia. rewrite E. unfold enc.
    rewrite <- app_assoc. reflexivity. }
  apply app_inj_1 in E1 as [E1 E2]; [|rewrite bytes_at_length, length_app, body_length; reflexivity].
  split; [exact E1|]. replace (esize e - 16) with (Z.of_nat (length e.2) + (esize e - 16 - Z.of_nat (length e.2))) in E2 by lia.
  rewrite bytes_at_app in E2 by lia. apply app_inj_1 in E2 as [E2 _]; [exact E2|]. rewrite bytes_at_length. lia.
Qed.

Section Scan.
Context {F : Type} `{BF : BaseFlash F} `{FL : !FlashLaws F}.
Context (cfg : MFSConfig) (desc : flash_descriptor_t) (pos : mfs_bank_t -> nat -> Z).
Context `{G : !Geometry cfg desc pos}.

#[local] Abbreviation wp := (wp cfg desc).
#[local] Abbreviation kept := (kept cfg).
#[local] Abbreviation base := (base pos).
#[local] Abbreviation lim := (lim cfg pos).
#[local] Abbreviation bank_range := (bank_range cfg desc pos).
#[local] Abbreviation log_at := (log_at pos).
#[local] Abbreviation next := (next pos).
#[local] Abbreviation tail := (tail cfg pos).

Lemma wp_crc_data : forall fuel data total crc d m Q C,
  0 <= total < Z.of_nat fuel -> 0 <= data -> data + total <= fd_size desc ->
  (forall buf, (32 <= length buf)%nat -> Q (MFS_NO_ERROR, crc16 crc (bytes_at m data total)) (with_ncbuf buf d) m) ->
  wp (crc_data fuel data total crc) d m Q C.
Proof.
  pose proof (@g_size _ _ _ G) as Hsz.
  induction fuel as [|fuel IH]; intros data total crc d m Q C Hn H1 H2 HQ; [lia|]. cbn [crc_data].
  apply wp_kept. intros [_ Hb]. destruct (0 <? total) eqn:E0.
  2:{ apply wp_ret. replace total with 0 in HQ by lia. specialize (HQ _ Hb). rewrite with_ncbuf_id in HQ. exact HQ. }
  unfold MFS_CFG_BUFFER_SIZE. set (c := if 32 <? total then 32 else total).
  assert (Hc : 0 < c <= 32 /\ c <= total) by (unfold c; destruct (32 <? total) eqn:?; lia). clearbody c.
  apply wp_error; [reflexivity|]. apply wp_read_ncbuf; [lia..|]. split; [reflexivity|].
  apply wp_drv. cbn [m_ncbuf with_ncbuf]. rewrite take_app_length' by (rewrite bytes_at_length; reflexivity).
  rewrite u32_id by lia. apply IH; try lia. intros buf Hbuf. rewrite <- crc16_app, <- bytes_at_app by lia.
  replace (c + (total - c)) with total by lia. apply HQ, Hbuf.
Qed.

Lemma wp_set_desc {B} `{Failing B} id rd (k : unit -> MFS F B) d m Q C :
  1 <= id <= Z.of_nat (length (m_descs d)) -> wp (k tt) (with_descs (<[Z.to_nat (id - 1) := rd]> (m_descs d)) d) m Q C ->
  wp (set_desc id rd ≫= k) d m Q C.
Proof.
  intros Hid Hw Hk fl. unfold set_desc, drv, assert, lift, modify, mbind, mfs_bind. cbn [s_drv s_fl].
  rewrite (proj2 (Z.leb_le 1 id)), (proj2 (Z.leb_le id _)) by lia. cbn. apply Hw. exact Hk.
Qed.

(** The descriptors after the record [e], whose header the buffer holds. *)
Lemma scan_desc off e :
  (if Z.of_nat (length e.2) =? 0 then no_record else Descriptor off (Z.of_nat (length e.2))) = entry_desc off e.
Proof. unfold entry_desc. destruct e as [id [|b bs]]; reflexivity. Qed.

Definition scan_post (m : Z -> Z) (b : mfs_bank_t) (L : list entry) (d : MFSDriver)
    (Q : mfs_error_t * Z * bool -> MFSDriver -> (Z -> Z) -> Prop) : Prop :=
  forall buf ds w, (32 <= length buf)%nat -> descs_ok m (base b + 16) (next b L) (replay L) ds ->
    (w = false -> erased_in m (next b L) (lim b)) -> Q (MFS_NO_ERROR, next b L, w) (with_ncbuf buf (with_descs ds d)) m.

(** Behind the last record. *)
Lemma wp_scan_end fuel b L d m Q C :
  tail m b (next b L) -> descs_ok m (base b + 16) (next b L) (replay L) (m_descs d) -> scan_post m b L d Q ->
  wp (scan_from (S fuel) (next b L) (lim b) false) d m Q C.
Proof.
  intros Ht Hd HQ. pose proof (bank_range b) as Hb. pose proof (tail_room _ _ _ _ _ Ht) as Hr. pose proof (lsize_nonneg L).
  assert (Hn : base b + 16 <= next b L) by (unfold MfsDisk.next; lia).
  cbn [scan_from]. change ALIGNED_DHDR_SIZE with 16. rewrite u32_id by lia. apply wp_kept. intros [_ Hbuf].
  destruct (next b L <? lim b - 16) eqn:E0.
  2:{ apply wp_ret. destruct Ht as [He Hl|Hl _]; [|lia].
      specialize (HQ (m_ncbuf d) (m_descs d) false Hbuf Hd (fun _ => He)).
      replace (with_ncbuf (m_ncbuf d) (with_descs (m_descs d) d)) with d in HQ by (destruct d; reflexivity). exact HQ. }
  apply wp_error; [reflexivity|]. apply wp_read_ncbuf; unfold sizeof_mfs_data_header_t; try lia. split; [reflexivity|].
  apply wp_config. apply wp_drv. cbn [m_ncbuf with_ncbuf]. rewrite (@g_erased _ _ _ G), u32_id by lia.
  set (buf := bytes_at m (next b L) 16 ++ _). rewrite <- dhdr_check_take. unfold buf at 1.
  rewrite take_app_length' by (rewrite bytes_at_length; reflexivity).
  assert (Hlb : (32 <= length buf)%nat) by (unfold buf; rewrite length_app, bytes_at_length, length_drop; lia).
  destruct Ht as [He Hl|Hl Hc].
  - rewrite erased_bytes by (intros a Ha; apply He; lia). rewrite dhdr_check_erased. apply wp_ret.
    exact (HQ buf (m_descs d) false Hlb Hd (fun _ => He)).
  - rewrite Hc. apply wp_ret. refine (HQ buf (m_descs d) true Hlb Hd _). discriminate.
Qed.

Lemma wp_scan_from b L m : log_at m b L -> tail m b (next b L) ->
  forall L2 L1 fuel d Q C,
  L = L1 ++ L2 -> (length L2 < fuel)%nat -> descs_ok m (base b + 16) (next b L1) (replay L1) (m_descs d) -> scan_post m b L d Q ->
  wp (scan_from fuel (next b L1) (lim b) false) d m Q C.
Proof.
  intros [Hlog HL] Ht. pose proof (bank_range b) as Hb. pose proof (tail_room _ _ _ _ _ Ht) as Hr.
  induction L2 as [|e L2 IH]; intros L1 fuel d Q C EL Hf Hd HQ; (destruct fuel as [|fuel]; [cbn in Hf; lia|]).
  { rewrite app_nil_r in EL. subst L1. apply wp_scan_end; assumption. }
  assert (He : entry_ok e) by (rewrite EL in HL; apply Forall_app in HL as [_ HL]; apply Forall_cons in HL; apply HL).
  assert (HL1 : Forall entry_ok L1) by (rewrite EL in HL; apply Forall_app in HL; apply HL).
  pose proof (lsize_nonneg L1) as Hn1. pose proof (lsize_nonneg L2) as Hn2. pose proof (esize_bound e) as Hes.
  assert (Els : next b L = next b L1 + esize e + lsize L2).
  { rewrite EL. unfold MfsDisk.next. rewrite lsize_app, lsize_cons. lia. }
  assert (Hn : base b + 16 <= next b L1) by (unfold MfsDisk.next; lia).
  assert (Ee : bytes_at m (next b L1) (esize e) = enc e).
  { rewrite EL, lsize_app, lsize_cons, bytes_at_app, enc_log_app in Hlog by lia.
    apply app_inj_1 in Hlog as [_ Hlog]; [|rewrite bytes_at_length; unfold lsize; lia].
    rewrite bytes_at_app in Hlog by lia. change (enc_log (e :: L2)) with (enc e ++ enc_log L2) in Hlog.
    apply app_inj_1 in Hlog as [Hlog _]; [exact Hlog|]. rewrite bytes_at_length, <- enc_length. lia. }
  destruct (enc_split _ _ _ Ee) as [Eh Eb]. pose proof He as (Hid & Hlen & _).
  pose proof (rec_size_bound (Z.of_nat (length e.2)) ltac:(lia)) as Hrs. fold (esize e) in Hrs.
  cbn [scan_from]. change ALIGNED_DHDR_SIZE with 16. rewrite (u32_id (lim b - 16)) by lia.
  apply wp_kept. intros [_ Hbuf]. rewrite (proj2 (Z.ltb_lt _ _)) by lia.
  apply wp_error; [reflexivity|]. apply wp_read_ncbuf; unfold sizeof_mfs_data_header_t; try lia. split; [reflexivity|].
  apply wp_config. apply wp_drv. cbn [m_ncbuf with_ncbuf]. rewrite (@g_erased _ _ _ G), u32_id, Eh by lia.
  rewrite <- app_assoc. rewrite dhdr_check_enc by (try exact He; lia).
  destruct (enc_header e (drop (Z.to_nat 16) (m_ncbuf d)) He) as (_ & _ & Ei & Ec & En). rewrite Ei, Ec, En.
  eapply wp_bind; [propagate|]. rewrite u32_id by lia. apply wp_crc_data; try lia. intros buf Hbuf'.
  rewrite Eb, decide_True, Z.eqb_refl by reflexivity. cbn [negb]. rewrite scan_desc.
  apply wp_set_desc; [cbn [m_descs with_ncbuf]; rewrite (proj1 Hd), (proj1 (replay_ok L1 HL1)); unfold MFS_CFG_MAX_RECORDS; lia|].
  rewrite aligned_rec_size by lia. fold (esize e). rewrite u32_id, <- next_snoc by lia.
  apply IH; [rewrite EL, <- app_assoc; reflexivity|cbn in Hf; lia| |].
  - rewrite replay_snoc, next_snoc. cbn [m_descs with_descs with_ncbuf].
    apply descs_ok_rstep; try assumption; [|lia..]. apply (descs_ok_agree m m _ (next b L1)); [apply agree_refl|lia|exact Hd].
  - intros buf' ds w H1 H2 H3. exact (HQ buf' ds w H1 H2 H3).
Qed.

End Scan.
