(* ===== verification/MfsMount.v ===== *)
(** * Mounting (hal_mfs.c)

    From every content that [disk] describes, [mfs_mount] sets up the driver with the
    same records, in whichever bank it finds them; the power may fail again. *)

From S2P Require Import Prelude CInt Words Crc16 Flash Mfs MfsLog MfsWp MfsBank MfsDisk MfsGc MfsScan.
#[local] Open Scope Z_scope.
#[local] Existing Instances mfs_ret mfs_bind.

Section Mount.
Context {F : Type} `{BF : BaseFlash F} `{FL : !FlashLaws F}.
Context (cfg : MFSConfig) (desc : flash_descriptor_t) (pos : mfs_bank_t -> nat -> Z).
Context `{G : !Geometry cfg desc pos}.

#[local] Abbreviation wp := (wp cfg desc).
#[local] Abbreviation kept := (kept cfg).
#[local] Abbreviation base := (base pos).
#[local] Abbreviation lim := (lim cfg pos).
#[local] Abbreviation bank_range := (bank_range cfg desc pos).
#[local] Abbreviation disk := (disk cfg pos).
#[local] Abbreviation live_bank := (live_bank cfg pos).
#[local] Abbreviation clean := (clean cfg pos).
#[local] Abbreviation st := (st pos).
#[local] Abbreviation hdr := (hdr pos).
#[local] Abbreviation bank_log := (bank_log cfg pos).
#[local] Abbreviation next := (next pos).

(** No counter of a valid header can wrap in the next garbage collection. *)
Definition counters (m : Z -> Z) : Prop := forall b, st m b = MFS_BANK_OK -> bhdr_counter (hdr m b) + 1 < erased_word.

(** *** The states of the banks *)

Lemma wp_check_header {B} `{Failing B} (k : mfs_bank_state_t -> MFS F B) d m Q C :
  wp (k (bhdr_check erased_word (m_ncbuf d))) d m Q C -> wp (mfs_bank_check_header ≫= k) d m Q C.
Proof.
  intros Hw. apply wp_kept. intros [Hc _]. eapply wp_pure; [|exact Hw]. intros fl.
  unfold mfs_bank_check_header, config, drv, lift, mbind, mfs_bind. cbn. rewrite Hc, <- (@g_erased _ _ _ G). reflexivity.
Qed.

Lemma wp_read_header b d m Q C :
  (forall buf, (32 <= length buf)%nat -> bhdr_check erased_word buf = st m b -> bhdr_counter buf = bhdr_counter (hdr m b) ->
     Q MFS_NO_ERROR (with_ncbuf buf d) m) ->
  wp (mfs_flash_read_ncbuf (base b) sizeof_mfs_bank_header_t) d m Q C.
Proof.
  intros HQ. pose proof (bank_range b). apply wp_kept. intros [_ Hb].
  apply wp_read_ncbuf; unfold sizeof_mfs_bank_header_t; try lia. apply HQ.
  - rewrite length_app, bytes_at_length, length_drop. lia.
  - rewrite <- bhdr_check_take, take_app_length' by (rewrite bytes_at_length; reflexivity). reflexivity.
  - rewrite <- bhdr_counter_take, take_app_length' by (rewrite bytes_at_length; reflexivity). reflexivity.
Qed.

(** What is known of a bank whose state is [sts]. *)
Definition state_of (m : Z -> Z) (b : mfs_bank_t) (sts : mfs_bank_state_t) : Prop :=
  match sts with
  | MFS_BANK_OK => st m b = MFS_BANK_OK
  | MFS_BANK_ERASED => erased_in m (base b) (lim b)
  | MFS_BANK_GARBAGE => st m b <> MFS_BANK_OK
  end.

Lemma wp_get_state b d m Q C :
  (forall buf sts cnt, (32 <= length buf)%nat -> state_of m b sts -> Q (MFS_NO_ERROR, sts, cnt) (with_ncbuf buf d) m) ->
  wp (mfs_bank_get_state b) d m Q C.
Proof.
  intros HQ. apply (wp_bank_offset cfg desc pos). apply wp_error; [reflexivity|]. apply wp_read_header.
  intros buf Hl Es _. split; [reflexivity|]. apply wp_drv. cbn [m_ncbuf with_ncbuf]. apply wp_check_header.
  cbn [m_ncbuf with_ncbuf]. rewrite Es. destruct (st m b) eqn:Est.
  - rewrite decide_True by reflexivity. eapply wp_bind_on. apply (wp_verify_erase cfg desc pos).
    + intros He. apply wp_ret. rewrite decide_False by discriminate. exact (HQ buf MFS_BANK_ERASED _ Hl He).
    + apply wp_ret. rewrite decide_True by reflexivity. apply (HQ buf MFS_BANK_GARBAGE _ Hl). cbn. congruence.
  - rewrite decide_False by discriminate. apply wp_ret. exact (HQ buf MFS_BANK_OK _ Hl Est).
  - rewrite decide_False by discriminate. apply wp_ret. apply (HQ buf MFS_BANK_GARBAGE _ Hl). cbn. congruence.
Qed.

Lemma state_not_ok m b sts : state_of m b sts -> sts <> MFS_BANK_OK -> st m b <> MFS_BANK_OK.
Proof.
  intros H Hn. destruct sts; cbn in H; [|congruence|exact H]. pose proof (bank_range b). rewrite erased_st; [discriminate|].
  intros a Ha. apply H. lia.
Qed.

(** *** The repairs *)

(** The bank [b] can be mounted. *)
Definition mountable (m : Z -> Z) (M : records) (b : mfs_bank_t) : Prop :=
  st m b = MFS_BANK_OK /\ bank_log m b M /\ erased_in m (base (other_bank b)) (lim (other_bank b)) /\
  bhdr_counter (hdr m b) + 1 < erased_word.

Lemma mountable_disk m M b : mountable m M b -> disk m M.
Proof.
  intros (H1 & H2 & H3 & _). apply (disk_one cfg pos _ _ b); try assumption. pose proof (bank_range (other_bank b)).
  rewrite erased_st; [discriminate|]. intros a Ha. apply H3. lia.
Qed.

Lemma disk_mountable m M b sts : disk m M -> counters m -> state_of m b MFS_BANK_OK -> state_of m (other_bank b) sts ->
  sts = MFS_BANK_ERASED -> mountable m M b.
Proof. intros [Hd _] Hc Hb Ho ->. split_and!; [exact Hb|apply Hd, Hb|exact Ho|apply Hc, Hb]. Qed.

(** The other bank is erased. *)
Lemma wp_keep b d m M Q C :
  disk m M -> counters m -> st m b = MFS_BANK_OK -> (forall m', disk m' M -> C m') ->
  (forall m', mountable m' M b -> Q MFS_NO_ERROR d m') -> wp (mfs_bank_erase (other_bank b)) d m Q C.
Proof.
  intros Hd Hc Hb HC HQ. pose proof (bank_range b). pose proof (bank_range (other_bank b)). pose proof (disjoint cfg desc pos b).
  assert (Hw : forall x, base (other_bank b) + 16 <= x <= lim (other_bank b) ->
            let m' := wipe m (base (other_bank b)) x in
            st m' b = MFS_BANK_OK /\ bank_log m' b M /\ bhdr_counter (hdr m' b) + 1 < erased_word).
  { intros x Hx m'. assert (Ha : agree m m' (base b) (lim b)) by (apply agree_wipe; lia). split_and!.
    - rewrite <- Hb. apply agree_st, (agree_sub _ _ _ _ _ _ Ha); lia.
    - apply (agree_bank_log cfg pos m _ b _ Ha), Hd, Hb.
    - unfold MfsDisk.hdr. rewrite (agree_bytes _ _ _ _ _ _ Ha) by lia. apply Hc, Hb. }
  apply (wp_erase cfg desc pos).
  - apply HC, Hd.
  - intros x Hx. apply HC. destruct (Hw x Hx) as (H3 & H4 & _). apply (disk_one cfg pos _ _ b); [exact H3|exact H4|].
    rewrite erased_st; [discriminate|]. intros a Ha. apply wipe_in. lia.
  - apply HQ. destruct (Hw (lim (other_bank b))) as (H3 & H4 & H5); [lia|]. split_and!; try assumption.
    intros a Ha. apply wipe_in, Ha.
Qed.

(** No bank has a valid header: one is erased. *)
Lemma wp_erase_garbage b d m Q C :
  (forall b, st m b <> MFS_BANK_OK) -> (forall m', disk m' no_records -> C m') ->
  (forall m', (forall b, st m' b <> MFS_BANK_OK) -> erased_in m' (base b) (lim b) ->
     agree m m' (base (other_bank b)) (lim (other_bank b)) -> Q MFS_NO_ERROR d m') ->
  wp (mfs_bank_erase b) d m Q C.
Proof.
  intros Hn HC HQ. pose proof (bank_range b). pose proof (bank_range (other_bank b)). pose proof (disjoint cfg desc pos b).
  assert (Hw : forall x, base b + 16 <= x <= lim b -> forall b', st (wipe m (base b) x) b' <> MFS_BANK_OK).
  { intros x Hx b'. destruct (bank_split b b') as [->| ->].
    - rewrite erased_st; [discriminate|]. intros a Ha. apply wipe_in. lia.
    - rewrite (agree_st _ m); [apply Hn|]. apply agree_wipe. lia. }
  apply (wp_erase cfg desc pos).
  - apply HC, disk_none, Hn.
  - intros x Hx. apply HC, disk_none, Hw, Hx.
  - apply HQ; [apply Hw; lia|intros a Ha; apply wipe_in, Ha|apply agree_wipe; lia].
Qed.

(** Both banks are erased: one gets a header. *)
Lemma wp_format b d m Q C :
  erased_in m (base b) (lim b) -> erased_in m (base (other_bank b)) (lim (other_bank b)) ->
  (forall m', disk m' no_records -> C m') ->
  (forall buf m', (32 <= length buf)%nat -> mountable m' no_records b -> Q MFS_NO_ERROR (with_ncbuf buf d) m') ->
  wp (mfs_bank_write_header b 1) d m Q C.
Proof.
  intros He Ho HC HQ. pose proof (bank_range b). pose proof (bank_range (other_bank b)). pose proof (disjoint cfg desc pos b).
  assert (Hw : forall k, let m' := upd m (base b) (take k (bank_header 1)) in
            bank_log m' b no_records /\ erased_in m' (base (other_bank b)) (lim (other_bank b))).
  { intros k m'. pose proof (take_length_le k (bank_header 1)) as Hl. rewrite bank_header_length in Hl. split.
    - exists []. split; [split; [reflexivity|constructor]|]. split; [reflexivity|]. unfold MfsDisk.next. change (lsize []) with 0. split.
      + apply tail_clean; [|lia]. intros a Ha. unfold m'. rewrite upd_out by lia. apply He. lia.
      + unfold room. change (used_of no_records) with 0. pose proof (@g_room _ _ _ G). lia.
    - intros a Ha. unfold m'. rewrite upd_out by lia. apply Ho, Ha. }
  apply (wp_write_header cfg desc pos); [intros a Ha; apply He; lia| |].
  - intros k. apply HC. destruct (Hw k) as [H2 H3]. split; [|reflexivity]. intros b'. destruct (bank_split b b') as [->| ->]; [auto|].
    rewrite erased_st; [discriminate|]. intros a Ha. apply H3. lia.
  - intros buf Hb. apply HQ; [exact Hb|]. destruct (Hw 16%nat) as [H2 H3].
    change (take 16 (bank_header 1)) with (bank_header 1) in H2, H3.
    assert (Eh : MfsDisk.hdr pos (upd m (base b) (bank_header 1)) b = bank_header 1) by (apply (bytes_at_upd m (base b))).
    split_and!; try assumption.
    + unfold MfsDisk.st. rewrite Eh. apply bank_header_ok. unfold erased_word. lia.
    + rewrite Eh, bank_header_counter by lia. unfold erased_word. lia.
Qed.

Lemma wp_recover sts0 sts1 cnt0 cnt1 d m M Q C :
  disk m M -> counters m -> state_of m MFS_BANK_0 sts0 -> state_of m MFS_BANK_1 sts1 -> (forall m', disk m' M -> C m') ->
  (forall d' m' b w, (exists buf, d' = with_ncbuf buf d) -> mountable m' M b -> Q (MFS_NO_ERROR, b, w) d' m') ->
  wp (mount_recover sts0 sts1 cnt0 cnt1) d m Q C.
Proof.
  intros Hd Hc H0 H1 HC HQ. assert (Hself : exists buf, d = with_ncbuf buf d) by (exists (m_ncbuf d); symmetry; apply with_ncbuf_id).
  assert (Hnone : sts0 <> MFS_BANK_OK -> sts1 <> MFS_BANK_OK -> (forall b, st m b <> MFS_BANK_OK) /\ M = no_records).
  { intros N0 N1. assert (Hn : forall b, st m b <> MFS_BANK_OK) by (intros [|]; eapply state_not_ok; eassumption).
    split; [exact Hn|]. apply Hd, Hn. }
  assert (Hkeep : forall b w, st m b = MFS_BANK_OK ->
            wp (ret_on_error (fun err => (err, MFS_BANK_0, false)) (mfs_bank_erase (other_bank b)) (mret (MFS_NO_ERROR, b, w))) d m Q C).
  { intros b w Hb. apply wp_error; [reflexivity|]. apply wp_keep with (M := M); try assumption.
    intros m' Hm'. split; [reflexivity|]. apply wp_ret, HQ; assumption. }
  assert (Hformat : forall b w m', M = no_records -> erased_in m' (base b) (lim b) ->
            erased_in m' (base (other_bank b)) (lim (other_bank b)) ->
            wp (ret_on_error (fun err => (err, MFS_BANK_0, false)) (mfs_bank_write_header b 1) (mret (MFS_NO_ERROR, b, w))) d m' Q C).
  { intros b w m' -> He Ho. apply wp_error; [reflexivity|]. apply wp_format; try assumption.
    intros buf m2 _ Hm2. split; [reflexivity|]. apply wp_ret, HQ; [exists buf; reflexivity|exact Hm2]. }
  assert (Hgarbage : forall b m' k, M = no_records -> (forall b, st m' b <> MFS_BANK_OK) ->
            (forall m2, (forall b, st m2 b <> MFS_BANK_OK) -> erased_in m2 (base b) (lim b) ->
               agree m' m2 (base (other_bank b)) (lim (other_bank b)) -> wp k d m2 Q C) ->
            wp (ret_on_error (fun err => (err, MFS_BANK_0, false)) (mfs_bank_erase b) k) d m' Q C).
  { intros b m' k -> Hn Hk. apply wp_error; [reflexivity|]. apply wp_erase_garbage; try assumption. auto. }
  destruct sts0, sts1; cbn [mount_recover].
  - apply (Hformat MFS_BANK_0); [apply Hnone; discriminate|exact H0|exact H1].
  - apply wp_ret, HQ; [exact Hself|]. apply (disk_mountable _ _ MFS_BANK_1 MFS_BANK_ERASED); auto.
  - destruct Hnone as [Hn HM]; [discriminate..|]. apply Hgarbage; [exact HM|exact Hn|]. intros m2 _ He Ha.
    apply (Hformat MFS_BANK_0); [exact HM| |exact He]. apply (agree_erased _ _ _ _ _ _ Ha); [reflexivity..|exact H0].
  - apply wp_ret, HQ; [exact Hself|]. apply (disk_mountable _ _ MFS_BANK_0 MFS_BANK_ERASED); auto.
  - destruct (cnt1 <? cnt0); [apply (Hkeep MFS_BANK_0), H0|apply (Hkeep MFS_BANK_1), H1].
  - apply (Hkeep MFS_BANK_0), H0.
  - destruct Hnone as [Hn HM]; [discriminate..|]. apply Hgarbage; [exact HM|exact Hn|]. intros m2 _ He Ha.
    apply (Hformat MFS_BANK_1); [exact HM| |exact He]. apply (agree_erased _ _ _ _ _ _ Ha); [reflexivity..|exact H1].
  - apply (Hkeep MFS_BANK_1), H1.
  - destruct Hnone as [Hn HM]; [discriminate..|]. apply Hgarbage; [exact HM|exact Hn|]. intros m2 Hn2 He Ha.
    apply Hgarbage; [exact HM|exact Hn2|]. intros m3 _ He3 Ha3.
    apply (Hformat MFS_BANK_0); [exact HM| |exact He3]. apply (agree_erased _ _ _ _ _ _ Ha3); [reflexivity..|exact He].
Qed.

(** *** Mounting *)

Lemma add_used_spec m lo hi M : 0 < lo -> hi <= fd_size desc -> 0 <= used_of M < 2 ^ 31 -> Forall slot_ok M ->
  forall ds i used, 0 <= used -> used + used_of M < 2 ^ 31 -> length ds = length M ->
  (forall j o rd, M !! j = Some o -> ds !! j = Some rd -> desc_ok m lo hi (i + j) o rd) ->
  add_used used ds = used + used_of M.
Proof.
  intros Hlo Hhi. pose proof (@g_size _ _ _ G) as Hsz. induction M as [|o M IH]; intros Hu HM [|rd ds] i used H1 H2 Hl Hd; try discriminate Hl.
  - cbn. change (used_of []) with 0. lia.
  - apply Forall_cons in HM as [Ho HM]. pose proof (Hd 0%nat o rd eq_refl eq_refl) as Hrd. cbn [add_used].
    pose proof (used_of_nonneg M) as Hn.
    assert (IH' : forall u, 0 <= u -> u + used_of M < 2 ^ 31 -> add_used u ds = u + used_of M).
    { intros u Hu1 Hu2. apply (IH ltac:(lia) HM ds (S i)); [exact Hu1|exact Hu2|cbn in Hl; lia|].
      intros j o' rd' E1 E2. rewrite Nat.add_succ_comm. apply (Hd (S j)); assumption. }
    destruct o as [bs|].
    + destruct Hrd as (Es & Ho1 & Ho2 & _). rewrite (proj2 (Z.eqb_neq (rd_offset rd) 0)) by lia. cbn [negb].
      rewrite used_of_some in *. rewrite <- Es in *. pose proof (rec_size_bound (rd_size rd) ltac:(lia)) as Hr.
      rewrite aligned_rec_size, u32_id by lia. rewrite IH' by lia. lia.
    + cbn in Hrd. subst rd. cbn [rd_offset no_record Z.eqb negb]. rewrite used_of_none in *. apply IH'; assumption.
Qed.

Lemma wp_scan_records b d m L Q C :
  log_at pos m b L -> tail cfg pos m b (next b L) -> m_descs d = replicate MFS_CFG_MAX_RECORDS no_record ->
  (forall buf ds w, (32 <= length buf)%nat -> descs_ok m (base b + 16) (next b L) (replay L) ds ->
     (w = false -> erased_in m (next b L) (lim b)) ->
     Q (MFS_NO_ERROR, w) (with_next_offset (next b L) (with_ncbuf buf (with_descs ds d))) m) ->
  wp (mfs_bank_scan_records b) d m Q C.
Proof.
  intros HL Ht Ed HQ. pose proof (bank_range b) as Hb. pose proof (tail_room _ _ _ _ _ Ht) as Hr. unfold mfs_bank_scan_records.
  apply wp_config. apply (wp_bank_offset cfg desc pos). change ALIGNED_SIZEOF_BHDR with 16. eapply wp_bind; [propagate|].
  rewrite u32_id by lia. change (base b + cfg_bank_size cfg) with (lim b). rewrite u32_id by lia.
  replace (base b + 16) with (next b []) by (unfold MfsDisk.next; change (lsize []) with 0; lia).
  apply (wp_scan_from cfg desc pos b L m HL Ht L []); [reflexivity| | |].
  - assert (Hlen : 16 * Z.of_nat (length L) <= lsize L).
    { clear. induction L as [|e L IH]; [apply lsize_nonneg|]. rewrite lsize_cons. pose proof (esize_bound e). cbn [length]. lia. }
    unfold MfsDisk.next in Hr. change (lim b) with (base b + cfg_bank_size cfg) in Hr. lia.
  - rewrite Ed. apply descs_ok_none.
  - intros buf ds w H1 H2 H3. rewrite decide_True by reflexivity. apply wp_set; [reflexivity|reflexivity|]. apply wp_ret. auto.
Qed.

Lemma mountable_live m M b buf ds d L :
  mountable m M b -> log_at pos m b L -> replay L = M -> next b L + 16 <= lim b ->
  descs_ok m (base b + 16) (next b L) M ds ->
  m_bank d = b -> m_counter d = bhdr_counter (hdr m b) -> m_next d = next b L -> m_descs d = ds ->
  m_used d = add_used 16 ds -> m_ncbuf d = buf -> live_bank d m M L.
Proof.
  intros (H1 & H2 & H3 & H4) HL HM Hl Hds Eb Ec En Ed Eu _. subst ds. pose proof (bank_range b).
  assert (Hok : records_ok M) by (rewrite <- HM; apply replay_ok, HL). pose proof (used_of_nonneg M).
  assert (Hr : room cfg M) by (destruct H2 as (L' & _ & _ & _ & H2); exact H2). unfold room in Hr.
  assert (Hlim : lim b = base b + cfg_bank_size cfg) by reflexivity.
  constructor; rewrite ?Eb; try assumption; try congruence.
  - rewrite Eu. destruct Hds as [Hdl Hds].
    apply (add_used_spec m (base b + 16) (next b L) M) with (i := 0%nat); try lia; [apply Hok|]. exact Hds.
Qed.

Lemma counter_nonneg m b : bytes_of m -> 0 <= bhdr_counter (hdr m b).
Proof. intros H. apply le_value_range, Forall_take, Forall_drop, bytes_of_at, H. Qed.

Lemma wp_try_mount d m M Q C :
  disk m M -> counters m -> (forall m', disk m' M -> C m') ->
  (forall e d' m' L, e = MFS_NO_ERROR \/ e = MFS_WARN_REPAIR -> live_bank d' m' M L -> clean d' m' -> m_state d' = m_state d ->
     Q e d' m') ->
  wp mfs_try_mount d m Q C.
Proof.
  intros Hd Hc HC HQ. unfold mfs_try_mount, mfs_state_reset. apply wp_set; [reflexivity|reflexivity|].
  eapply wp_bind; [propagate|]. apply wp_get_state. intros buf0 sts0 cnt0 Hb0 Hs0.
  apply wp_error; [reflexivity|]. apply wp_ret. split; [reflexivity|].
  eapply wp_bind; [propagate|]. apply wp_get_state. intros buf1 sts1 cnt1 Hb1 Hs1.
  apply wp_error; [reflexivity|]. apply wp_ret. split; [reflexivity|].
  eapply wp_bind; [propagate|]. apply wp_recover with (M := M); try assumption. intros d1 m1 b w1 (buf & ->) Hm.
  apply wp_error; [reflexivity|]. apply wp_ret. split; [reflexivity|].
  apply (wp_bank_offset cfg desc pos). apply wp_error; [reflexivity|]. apply wp_read_header. intros buf2 Hb2 Es Ecnt.
  split; [reflexivity|]. apply wp_check_header. cbn [m_ncbuf with_ncbuf]. rewrite Es, (proj1 Hm).
  rewrite bool_decide_eq_true_2 by reflexivity. cbn [negb].
  apply wp_set; [reflexivity|reflexivity|]. cbn [m_ncbuf with_ncbuf]. rewrite Ecnt.
  destruct Hm as (Hm1 & Hm2 & Hm3 & Hm4). pose proof Hm2 as (L & HL & HM & Ht & Hr).
  eapply wp_bind; [propagate|]. apply (wp_scan_records b _ m1 L); [exact HL|exact Ht|reflexivity|].
  intros buf3 ds w2 Hb3 Hds Hw2. apply wp_error; [reflexivity|]. apply wp_ret. split; [reflexivity|].
  apply wp_set; [reflexivity|reflexivity|].
  match goal with |- wp _ ?d3 _ _ _ => set (d' := d3) end.
  assert (Hlive : live_bank d' m1 M L).
  { apply (mountable_live m1 M b buf3 ds); try reflexivity; try assumption; [split_and!; assumption| |rewrite <- HM; exact Hds].
    apply (tail_room _ _ _ _ _ Ht). }
  assert (Hres : (if w1 || w2 then MFS_WARN_REPAIR else MFS_NO_ERROR) = MFS_NO_ERROR \/
                 (if w1 || w2 then MFS_WARN_REPAIR else MFS_NO_ERROR) = MFS_WARN_REPAIR) by (destruct (w1 || w2); auto).
  destruct w2.
  - apply wp_bytes. intros Hby. apply wp_error; [reflexivity|]. apply (wp_gc cfg desc pos d' m1 M L); try assumption.
    + apply (mountable_disk m1 M b). split_and!; assumption.
    + change (m_counter d') with (bhdr_counter (MfsDisk.hdr pos m1 b)). split; [|exact Hm4].
      pose proof (counter_nonneg m1 b Hby). lia.
    + intros d2 m2 H1 H2 E2. split; [reflexivity|]. apply wp_ret. apply (HQ _ d2 m2 (live M)); assumption.
  - apply wp_ret. apply (HQ _ d' m1 L); try assumption; [|reflexivity]. apply Hw2. reflexivity.
Qed.

(** *** Without power *)

Lemma dead_read d (fl : F) off n :
  kept d -> fl_on fl = false -> n <= 32 ->
  exists d' fl', mfs_flash_read_ncbuf off n (MfsSys d fl) = Some (MfsSys d' fl', MFS_ERR_FLASH_FAILURE) /\ kept d' /\
    fl_mem fl' = fl_mem fl /\ fl_on fl' = false /\ flashGetDescriptor fl' = flashGetDescriptor fl.
Proof.
  intros [Hc Hb] Hoff Hn. unfold mfs_flash_read_ncbuf, mfs_flash_read, drv, assert, lift, dev, flash_status, modify, mbind, mfs_bind.
  cbn [s_drv s_fl]. rewrite (proj2 (Z.leb_le _ _)) by lia. cbn [check s_drv s_fl].
  pose proof (read_law fl off n) as H. destruct (flashRead off n fl) as [fl' [err bs]]. destruct H as (Hm & Ho & Hd & H).
  rewrite Hoff in H, Ho. rewrite decide_False by exact H. eexists _, fl'. split; [reflexivity|]. cbn [s_drv].
  split; [|split; [apply same_eq, Hm|auto]]. split; [exact Hc|]. cbn [m_ncbuf with_ncbuf with_state].
  change (set_bytes 0 bs ?l) with (bs ++ drop (length bs) l). rewrite length_app, length_drop. lia.
Qed.

Lemma dead_try_mount d (fl : F) :
  kept d -> fl_on fl = false -> flashGetDescriptor fl = desc ->
  exists d' fl', mfs_try_mount (MfsSys d fl) = Some (MfsSys d' fl', MFS_ERR_FLASH_FAILURE) /\ kept d' /\
    fl_mem fl' = fl_mem fl /\ fl_on fl' = false /\ flashGetDescriptor fl' = desc.
Proof.
  intros Hk Hoff Hd. set (d0 := with_bank MFS_BANK_0 0 (with_next_offset 0 (with_used 0 (with_descs (replicate MFS_CFG_MAX_RECORDS no_record) d)))).
  destruct (dead_read d0 fl (base MFS_BANK_0) sizeof_mfs_bank_header_t) as (d' & fl' & E & Hk' & Hm & Ho & Hd'); try assumption; [discriminate|].
  exists d', fl'. split; [|split_and!; congruence || assumption].
  assert (Ec : m_config d0 = Some cfg) by apply Hk.
  destruct (@g_sector _ _ _ G MFS_BANK_0 0 (@g_count _ _ _ G MFS_BANK_0)) as (Es & _). rewrite Z.add_0_r in Es.
  unfold mfs_try_mount, mfs_state_reset, modify, mfs_bank_get_state, mfs_flash_get_bank_offset, config, drv, flash, lift, ret_on_error, mbind, mfs_bind.
  cbn [s_drv s_fl]. fold d0. rewrite Ec. cbn [s_drv s_fl]. unfold flashGetSectorOffset. rewrite Hd.
  change (cfg_bank0_start cfg) with (bank_first cfg MFS_BANK_0). rewrite Es. fold (MfsWp.base pos MFS_BANK_0). rewrite E. reflexivity.
Qed.

Lemma dead_attempts n : forall d (fl : F),
  kept d -> fl_on fl = false -> flashGetDescriptor fl = desc ->
  exists d' fl', mount_attempts n (MfsSys d fl) = Some (MfsSys d' fl', MFS_ERR_FLASH_FAILURE) /\ kept d' /\
    fl_mem fl' = fl_mem fl /\ fl_on fl' = false /\ flashGetDescriptor fl' = desc.
Proof.
  induction n as [|n IH]; intros d fl Hk Hoff Hd.
  - exists (with_state MFS_ERROR d), fl. split_and!; auto.
  - destruct (dead_try_mount d fl Hk Hoff Hd) as (d1 & fl1 & E1 & Hk1 & Hm1 & Ho1 & Hd1).
    destruct (IH d1 fl1 Hk1 Ho1 Hd1) as (d2 & fl2 & E2 & Hk2 & Hm2 & Ho2 & Hd2).
    exists d2, fl2. split; [|split_and!; congruence || assumption]. cbn [mount_attempts]. unfold mbind, mfs_bind. rewrite E1. exact E2.
Qed.

Lemma wp_mount d m M Q C :
  disk m M -> counters m -> (forall m', disk m' M -> C m') ->
  (forall e d' m' L, e = MFS_NO_ERROR \/ e = MFS_WARN_REPAIR -> live_bank d' m' M L -> clean d' m' -> m_state d' = MFS_READY ->
     Q e d' m') ->
  wp mfs_mount d m Q C.
Proof.
  intros Hd Hc HC HQ. unfold mfs_mount, mfs_state_reset. apply wp_set; [reflexivity|reflexivity|].
  change MFS_CFG_MAX_REPAIR_ATTEMPTS with 3%nat. remember 2%nat as n. clear Heqn. cbn [mount_attempts]. intros Hk fl Hm Hon Hdesc.
  match goal with |- context [_ (MfsSys ?x fl)] => set (d0 := x) in * end.
  destruct (wp_try_mount d0 m M (fun e d' m' => exists L, (e = MFS_NO_ERROR \/ e = MFS_WARN_REPAIR) /\ live_bank d' m' M L /\ clean d' m')
    C Hd Hc HC (fun e d' m' L He Hl Hcl _ => ex_intro _ L (conj He (conj Hl Hcl))) Hk fl Hm Hon Hdesc) as (d1 & fl1 & e & E & Hk1 & Hd1 & H).
  unfold mbind, mfs_bind. rewrite E. destruct (fl_on fl1) eqn:Eon.
  - destruct H as (L & He & Hl & Hcl). exists (with_state MFS_READY d1), fl1, e.
    split; [destruct He as [->| ->]; reflexivity|]. split; [exact Hk1|]. split; [exact Hd1|]. rewrite Eon.
    apply (HQ e _ _ L He); [|exact Hcl|reflexivity]. destruct Hl; constructor; assumption.
  - destruct H as [HCm Hf]. change (e = MFS_ERR_FLASH_FAILURE) in Hf. subst e. rewrite decide_False by discriminate. cbn [MFS_IS_ERROR negb].
    destruct (dead_attempts n d1 fl1 Hk1 Eon Hd1) as (d2 & fl2 & E2 & Hk2 & Hm2 & Ho2 & Hd2). exists d2, fl2, MFS_ERR_FLASH_FAILURE.
    rewrite E2, Ho2, Hm2. split_and!; auto; try reflexivity.
Qed.

End Mount.
