(* ===== verification/MfsOps.v ===== *)
(** * Records and transactions (hal_mfs.c)

    The exported functions on a mounted driver: what each leaves in the variables and
    in the device, and that a power failure leaves the records of before or, once the
    record or the first record of the transaction is sealed, of afterwards. *)

From S2P Require Import Prelude CInt Words Crc16 Flash Mfs MfsLog MfsWp MfsBank MfsDisk MfsGc MfsScan MfsMount.
#[local] Open Scope Z_scope.
#[local] Existing Instances mfs_ret mfs_bind.

(** ** Sizes *)

Lemma used_rstep M e o :
  M !! Z.to_nat (e.1 - 1) = Some o ->
  used_of (rstep M e) = used_of M - slot_size o + match e.2 with [] => 0 | _ => esize e end.
Proof.
  intros E. unfold rstep. rewrite (used_of_insert M _ o) by exact E. f_equal. destruct e as [id [|b bs]]; reflexivity.
Qed.

Lemma slot_size_nonneg o : 0 <= slot_size o.
Proof. destruct o as [bs|]; cbn; [|lia]. pose proof (rec_size_bound (Z.of_nat (length bs)) ltac:(lia)). lia. Qed.

Lemma slot_size_le M i o : M !! i = Some o -> slot_size o <= used_of M.
Proof. intros E. pose proof (used_of_nonneg (<[i := None]> M)) as H. rewrite (used_of_insert M i o None E) in H. cbn in H. lia. Qed.

Lemma records_lookup M e : records_ok M -> 1 <= e <= 32 -> exists o, M !! Z.to_nat (e - 1) = Some o.
Proof. intros [Hl _] He. apply lookup_lt_is_Some_2. rewrite Hl. unfold MFS_CFG_MAX_RECORDS. lia. Qed.

Lemma used_fold P : forall M, records_ok M -> Forall entry_ok P -> used_of (foldl rstep M P) <= used_of M + lsize P.
Proof.
  induction P as [|e P IH]; intros M HM HP; [cbn [foldl]; pose proof (lsize_nonneg []); lia|]. apply Forall_cons in HP as [He HP]. cbn [foldl].
  specialize (IH (rstep M e) (rstep_ok M e HM He) HP). destruct (records_lookup M e.1 HM (proj1 He)) as [o Eo].
  rewrite (used_rstep M e o Eo) in IH. pose proof (slot_size_nonneg o). pose proof (esize_bound e). rewrite lsize_cons.
  destruct e.2; lia.
Qed.

(** A record whose header is not sealed. *)
Definition unsealed (m : Z -> Z) (off : Z) (id : Z) (bs : list Z) : Z -> Z := upd m (off + 8) (body id bs ++ bs).

Lemma body_bytes id bs : Forall is_byte (body id bs).
Proof. unfold body. repeat apply Forall_app_2; apply le_bytes_range. Qed.

Lemma unsealed_first m off id bs k :
  1 <= id <= 32 -> (0 < k)%nat -> upd m (off + 8) (take k (body id bs ++ bs)) (off + 8) <> 255.
Proof.
  intros Hid Hk. destruct k as [|k]; [lia|]. rewrite upd_in by (cbn; lia). rewrite Z.sub_diag.
  change (id mod 256 <> 255). rewrite Z.mod_small; lia.
Qed.

Definition raw (e : entry) : list Z := replicate 8 255 ++ body e.1 e.2 ++ e.2 ++ pad e.2.

Lemma bytes_of_split m off e (h : list Z) :
  length h = 8%nat -> bytes_at m off 8 = h ->
  bytes_at m (off + 8) (8 + Z.of_nat (length e.2)) = body e.1 e.2 ++ e.2 ->
  bytes_at m (off + 16 + Z.of_nat (length e.2)) (Z.of_nat (length e.2) mod 2) = pad e.2 ->
  bytes_at m off (esize e) = h ++ body e.1 e.2 ++ e.2 ++ pad e.2.
Proof.
  intros Hl E1 E2 E3. set (n := Z.of_nat (length e.2)) in *. pose proof (Z.mod_pos_bound n 2).
  assert (Es : esize e = 8 + ((8 + n) + n mod 2)) by (unfold esize, rec_size; fold n; lia).
  rewrite Es, bytes_at_app, E1, bytes_at_app, E2 by lia. replace (off + 8 + (8 + n)) with (off + 16 + n) by lia. rewrite E3.
  rewrite <- app_assoc. reflexivity.
Qed.

Lemma raw_bytes m off id bs :
  erased_in m off (off + esize (id, bs)) -> bytes_at (unsealed m off id bs) off (esize (id, bs)) = raw (id, bs).
Proof.
  intros He. set (n := Z.of_nat (length bs)). pose proof (rec_size_bound n ltac:(lia)) as Hr. pose proof (Z.mod_pos_bound n 2).
  assert (Es : esize (id, bs) = 16 + n + n mod 2) by reflexivity. rewrite Es in He.
  assert (Eb : Z.of_nat (length (body id bs ++ bs)) = 8 + n) by (rewrite length_app, body_length; lia).
  apply bytes_of_split; [reflexivity| | |]; cbn [fst snd]; fold n; unfold unsealed.
  - rewrite bytes_at_upd_out by lia. apply erased_bytes. intros a Ha. apply He. lia.
  - rewrite <- Eb. apply bytes_at_upd.
  - rewrite bytes_at_upd_out by lia. rewrite erased_bytes by (intros a Ha; apply He; lia). reflexivity.
Qed.

(** Sealing makes it a record of the log. *)
Lemma sealed_raw m off e : bytes_at m off (esize e) = raw e -> bytes_at (upd m off magic) off (esize e) = enc e.
Proof.
  intros E. pose proof (esize_bound e) as Hs. replace (esize e) with (8 + (esize e - 8)) in E |- * by lia.
  rewrite bytes_at_app in E |- * by lia. unfold raw in E. apply app_inj_1 in E as [_ E]; [|rewrite bytes_at_length; reflexivity].
  unfold enc. rewrite (bytes_at_upd m off magic : bytes_at _ off 8 = magic). f_equal. rewrite <- E. apply bytes_at_upd_out. cbn. lia.
Qed.

Lemma sealed_bytes m off id bs :
  erased_in m off (off + esize (id, bs)) ->
  bytes_at (upd (unsealed m off id bs) off magic) off (esize (id, bs)) = enc (id, bs).
Proof. intros He. apply sealed_raw, raw_bytes, He. Qed.

Section Ops.
Context {F : Type} `{BF : BaseFlash F} `{FL : !FlashLaws F}.
Context (cfg : MFSConfig) (desc : flash_descriptor_t) (pos : mfs_bank_t -> nat -> Z).
Context `{G : !Geometry cfg desc pos}.

#[local] Abbreviation wp := (wp cfg desc).
#[local] Abbreviation kept := (kept cfg).
#[local] Abbreviation base := (base pos).
#[local] Abbreviation lim := (lim cfg pos).
#[local] Abbreviation bank_range := (bank_range cfg desc pos).
#[local] Abbreviation disk := (disk cfg pos).
#[local] Abbreviation live_bank := (live_bank cfg pos).
#[local] Abbreviation clean := (clean cfg pos).
#[local] Abbreviation next := (next pos).

(** ** The driver's variables after one more record *)

Lemma live_ok_records d m M L : live_bank d m M L -> records_ok M.
Proof. intros H. rewrite <- (lb_replay _ _ _ _ _ _ H). apply replay_ok, (lb_log _ _ _ _ _ _ H). Qed.

Lemma live_next d m M L : live_bank d m M L -> base (m_bank d) + 16 <= m_next d.
Proof. intros H. rewrite (lb_next _ _ _ _ _ _ H). unfold MfsDisk.next. pose proof (lsize_nonneg L). lia. Qed.

Lemma live_agree d m m' M L :
  live_bank d m M L -> (forall a, ~ m_next d <= a < lim (m_bank d) -> m' a = m a) -> live_bank d m' M L.
Proof.
  intros H Ha. pose proof (live_next _ _ _ _ H) as Hn. pose proof (bank_range (m_bank d)). pose proof (bank_range (other_bank (m_bank d))).
  pose proof (disjoint cfg desc pos (m_bank d)). pose proof (lb_fits _ _ _ _ _ _ H).
  assert (Hb : agree m m' (base (m_bank d)) (m_next d)) by (intros a Hr; apply Ha; lia). constructor; try apply H.
  - rewrite (agree_st pos m m'); [apply H|]. apply (agree_sub _ _ _ _ _ _ Hb); lia.
  - unfold hdr. rewrite (agree_bytes _ _ _ _ _ _ Hb) by lia. apply H.
  - apply (agree_log pos m m' _ _ (m_next d)); [apply (agree_sub _ _ _ _ _ _ Hb); lia|rewrite (lb_next _ _ _ _ _ _ H); lia|apply H].
  - apply (descs_ok_agree m m' _ (m_next d)); [apply (agree_sub _ _ _ _ _ _ Hb); lia|lia|apply H].
  - intros a Hr. rewrite Ha by lia. apply (lb_spare _ _ _ _ _ _ H), Hr.
Qed.

Lemma live_step d d' m M L e :
  live_bank d m M L -> entry_ok e -> bytes_at m (m_next d) (esize e) = enc e -> m_next d + esize e + 16 <= lim (m_bank d) ->
  m_bank d' = m_bank d -> m_counter d' = m_counter d -> m_next d' = m_next d + esize e ->
  m_used d' = 16 + used_of (rstep M e) ->
  m_descs d' = <[Z.to_nat (e.1 - 1) := entry_desc (m_next d) e]> (m_descs d) ->
  live_bank d' m (rstep M e) (L ++ [e]).
Proof.
  intros H He Eb Hl Ebank Ecnt En Eu Ed. pose proof (live_next _ _ _ _ H) as Hn. pose proof (esize_bound e).
  pose proof (live_ok_records _ _ _ _ H) as HM. destruct (records_lookup M e.1 HM (proj1 He)) as [o Eo].
  constructor; rewrite ?Ebank, ?Ecnt; try apply H.
  - apply log_at_snoc; [apply H| |exact He]. rewrite <- (lb_next _ _ _ _ _ _ H). exact Eb.
  - rewrite replay_snoc, (lb_replay _ _ _ _ _ _ H). reflexivity.
  - rewrite En, next_snoc, (lb_next _ _ _ _ _ _ H). reflexivity.
  - exact Eu.
  - rewrite Ed, En. apply descs_ok_rstep; try assumption; [|lia]. apply (descs_ok_agree m m _ (m_next d)); [apply agree_refl|lia|apply H].
  - unfold room. assert (HP : Forall entry_ok (L ++ [e])) by (apply Forall_app_2; [apply (lb_log _ _ _ _ _ _ H)|constructor; [exact He|constructor]]).
    pose proof (used_fold (L ++ [e]) no_records no_records_ok HP) as Hu. change (foldl rstep no_records (L ++ [e])) with (replay (L ++ [e])) in Hu.
    rewrite replay_snoc, (lb_replay _ _ _ _ _ _ H), lsize_app, lsize_cons in Hu. change (used_of no_records) with 0 in Hu. change (lsize []) with 0 in Hu.
    rewrite (lb_next _ _ _ _ _ _ H) in Hl. unfold MfsDisk.next in Hl. change (lim (m_bank d)) with (base (m_bank d) + cfg_bank_size cfg) in Hl. lia.
  - rewrite En. exact Hl.
Qed.

(** ** Steps that the operations share *)

Lemma wp_get_desc {B} `{Failing B} id rd (k : mfs_record_descriptor_t -> MFS F B) d m Q C :
  1 <= id -> m_descs d !! Z.to_nat (id - 1) = Some rd -> wp (k rd) d m Q C -> wp (get_desc id ≫= k) d m Q C.
Proof.
  intros Hid E Hw. eapply wp_pure; [|exact Hw]. intros fl. unfold get_desc, drv, assert, lift, mbind, mfs_bind. cbn [s_drv].
  rewrite (proj2 (Z.leb_le 1 id)) by lia. cbn. rewrite E. reflexivity.
Qed.

Lemma wp_free {B} `{Failing B} (k : Z -> MFS F B) d m Q C :
  0 <= m_next d <= lim (m_bank d) -> wp (k (lim (m_bank d) - m_next d)) d m Q C -> wp (mfs_free ≫= k) d m Q C.
Proof.
  intros Hn Hw. pose proof (bank_range (m_bank d)) as Hb.
  assert (E : u32 (u32 (base (m_bank d) + cfg_bank_size cfg) - m_next d) = lim (m_bank d) - m_next d).
  { change (base (m_bank d) + cfg_bank_size cfg) with (lim (m_bank d)). rewrite (u32_id (lim _)), u32_id by lia. reflexivity. }
  eapply wp_bind; [intros a ? ? []|]. apply wp_config. apply wp_drv. apply (wp_bank_offset cfg desc pos). apply wp_ret. rewrite E. exact Hw.
Qed.

Lemma wp_then {A B} `{Failing B} (a : A) (k : A -> MFS F B) d m Q C : wp (k a) d m Q C -> wp (mret a ≫= k) d m Q C.
Proof. exact id. Qed.

(** The space of the record that is replaced. *)
Lemma wp_unuse {B} `{Failing B} m0 rd o i lo hi (k : unit -> MFS F B) d m Q C :
  0 < lo -> hi < 2 ^ 31 -> desc_ok m0 lo hi i o rd -> slot_size o <= m_used d < 2 ^ 31 ->
  wp (k tt) (with_used (m_used d - slot_size o) d) m Q C ->
  wp ((if negb (rd_offset rd =? 0) then modify (fun d => with_used (u32 (m_used d - ALIGNED_REC_SIZE (rd_size rd))) d) else mret tt) ≫= k)
     d m Q C.
Proof.
  intros Hlo Hhi Hrd Hu Hw. destruct o as [bs|].
  - destruct Hrd as (Es & H1 & H2 & _). rewrite (proj2 (Z.eqb_neq (rd_offset rd) 0)) by lia. cbn [negb].
    pose proof (rec_size_bound (rd_size rd) ltac:(lia)) as Hr. rewrite aligned_rec_size by lia.
    apply wp_set; [reflexivity|reflexivity|]. cbn [slot_size] in Hu, Hw. rewrite <- Es in Hu, Hw. rewrite u32_id by lia. exact Hw.
  - cbn in Hrd. subst rd. cbn [rd_offset no_record Z.eqb negb]. apply wp_then. cbn [slot_size] in Hw. rewrite Z.sub_0_r in Hw.
    replace (with_used (m_used d) d) with d in Hw by (destruct d; reflexivity). exact Hw.
Qed.

Lemma u16_id_of id : 1 <= id <= 32 -> u16 id = id.
Proof. intros H. apply Z.mod_small. lia. Qed.

Lemma valid_id_in id : 1 <= id <= 32 -> valid_id id = true.
Proof. intros [H1 H2]. unfold valid_id. apply andb_true_intro. split; apply Z.leb_le; assumption. Qed.

(** The header's second half, then the data. *)
Lemma wp_write_record off id bs k d m Q C :
  entry_ok (id, bs) -> bs <> [] -> 0 <= off -> off + esize (id, bs) <= fd_size desc -> erased_in m off (off + esize (id, bs)) ->
  (forall j, C (upd m (off + 8) (take j (body id bs ++ bs)))) ->
  (forall buf, (32 <= length buf)%nat -> wp k (with_ncbuf buf d) (unsealed m off id bs) Q C) ->
  wp (write_record off id bs k) d m Q C.
Proof.
  intros (Hid & Hn & Hb) Hne H1 H2 He HC HQ. cbn [fst snd] in *. pose proof (@g_size _ _ _ G) as Hsz.
  pose proof (rec_size_bound (Z.of_nat (length bs)) ltac:(lia)) as Hr. change (esize (id, bs)) with (rec_size (Z.of_nat (length bs))) in *.
  assert (Hl : Z.of_nat (length (body id bs)) = 8) by (rewrite body_length; reflexivity).
  unfold write_record, edit_ncbuf. apply wp_kept. intros [_ Hbuf].
  assert (E : dhdr_fill id (Z.of_nat (length bs)) (crc16 0xFFFF bs) (m_ncbuf d) = take 8 (m_ncbuf d) ++ body id bs ++ drop 16 (m_ncbuf d)).
  { rewrite dhdr_fill_bytes, u16_id_of by (assumption || lia). reflexivity. }
  assert (Hlen : length (take 8 (m_ncbuf d) ++ body id bs ++ drop 16 (m_ncbuf d)) = length (m_ncbuf d)).
  { rewrite !length_app, length_take, length_drop, body_length. lia. }
  apply wp_modify; [intros Hk; apply kept_ncbuf; [rewrite E, Hlen; exact Hbuf|exact Hk]|]. rewrite !u32_id by (unfold sizeof_mfs_data_header_t; lia).
  apply wp_error; [reflexivity|]. change (sizeof_mfs_data_header_t - 8) with 8.
  apply (wp_write_buf cfg desc 8 _ _ (body id bs)); try lia.
  - cbn [m_ncbuf with_ncbuf]. rewrite E. rewrite drop_app_length' by (rewrite length_take; lia).
    rewrite take_app_length' by (rewrite body_length; reflexivity). reflexivity.
  - intros a Ha. apply He. lia.
  - apply body_bytes.
  - intros j. specialize (HC (j `min` length (body id bs))%nat). rewrite take_app_le in HC by lia.
    rewrite <- take_take, firstn_all in HC. exact HC.
  - split; [reflexivity|]. apply wp_error; [reflexivity|]. unfold sizeof_mfs_data_header_t. apply (wp_write_mem cfg desc pos); try lia.
    + intros a Ha. rewrite upd_out by lia. apply He. lia.
    + exact Hb.
    + intros j. specialize (HC (length (body id bs) + j)%nat). rewrite take_app_add, upd_app, Hl in HC.
      replace (off + 16) with (off + 8 + 8) by lia. exact HC.
    + intros buf Hbuf'. split; [reflexivity|]. replace (off + 16) with (off + 8 + 8) by lia. rewrite <- Hl at 2. rewrite <- upd_app.
      exact (HQ buf Hbuf').
Qed.

(** A collection, if the space is short. *)
Lemma wp_make_room (w : bool) k d m M L Q C :
  live_bank d m M L -> clean d m -> counters pos m -> (forall m', disk m' M -> C m') ->
  (forall d' m' L', live_bank d' m' M L' -> clean d' m' -> m_state d' = m_state d ->  (w = false -> d' = d /\ m' = m /\ L' = L) -> (w = true -> m_next d' = base (m_bank d') + 16 + used_of M) -> wp k d' m' Q C) ->
  wp (RET_ON_ERROR (if w then mfs_garbage_collect else mret MFS_NO_ERROR) k) d m Q C.
Proof.
  intros H Hcl Hc HC HQ. apply wp_error; [reflexivity|]. destruct w.
  - apply wp_bytes. intros Hby. apply (wp_gc cfg desc pos d m M L); try assumption.
    + apply (clean_disk cfg desc pos d m M L H Hcl).
    + rewrite <- (lb_counter _ _ _ _ _ _ H). pose proof (counter_nonneg pos m (m_bank d) Hby). split; [lia|]. apply Hc, H.
    + intros d' m' H1 H2 E. split; [reflexivity|]. apply (HQ d' m' (live M)); auto; try discriminate. intros _.
      rewrite (lb_next _ _ _ _ _ _ H1). unfold MfsDisk.next. f_equal. apply lsize_live_from.
  - apply wp_ret. split; [reflexivity|]. apply (HQ d m L); auto; discriminate.
Qed.

(** ** Outside of transactions *)

Lemma unsealed_bytes m off id bs : bytes_of m -> Forall is_byte bs -> bytes_of (unsealed m off id bs).
Proof. intros Hm Hb. apply bytes_of_upd; [exact Hm|]. apply Forall_app_2; [apply body_bytes|exact Hb]. Qed.

Lemma size_parts id bs : Z.of_nat (length (body id bs ++ bs)) + 8 <= esize (id, bs).
Proof.
  rewrite length_app, body_length. unfold esize. cbn [snd]. pose proof (rec_size_bound (Z.of_nat (length bs)) ltac:(lia)). lia.
Qed.

(** The header and the data are being written. *)
Lemma writing_disk d m M L id bs j :
  live_bank d m M L -> clean d m -> bytes_of m -> entry_ok (id, bs) -> m_next d + 16 < lim (m_bank d) ->
  m_next d + esize (id, bs) <= lim (m_bank d) -> disk (upd m (m_next d + 8) (take j (body id bs ++ bs))) M.
Proof.
  intros H Hcl Hby (Hid & _ & Hb) H1 H2. pose proof (size_parts id bs) as Hs. pose proof (take_length_le j (body id bs ++ bs)) as Ht.
  apply (tail_disk cfg desc pos d m _ M L H).
  - intros a Ha. apply upd_out. lia.
  - destruct j as [|j].
    + cbn [take]. rewrite upd_nil_eq. apply tail_clean; [exact Hcl|lia].
    + apply (unsealed_tail cfg pos _ _ _ 0); [|exact H1|apply unsealed_first; [exact Hid|lia]|lia|].
      * apply bytes_of_upd; [exact Hby|]. apply Forall_take, Forall_app_2; [apply body_bytes|exact Hb].
      * rewrite upd_out by lia. apply Hcl. lia.
Qed.

(** The record is being sealed. *)
Lemma sealing_disk d m M L id bs j :
  live_bank d m M L -> clean d m -> bytes_of m -> entry_ok (id, bs) -> m_next d + esize (id, bs) + 16 <= lim (m_bank d) ->
  (j < 8)%nat -> disk (upd (unsealed m (m_next d) id bs) (m_next d) (take j magic)) M.
Proof.
  intros H Hcl Hby (Hid & _ & Hb) H1 Hj. pose proof (size_parts id bs) as Hs. pose proof (esize_bound (id, bs)).
  assert (Ht : Z.of_nat (length (take j magic)) <= 7) by (rewrite length_take; lia). unfold unsealed.
  apply (tail_disk cfg desc pos d m _ M L H).
  - intros a Ha. rewrite !upd_out by lia. reflexivity.
  - apply (unsealed_tail cfg pos _ _ _ 7); [|lia| |lia|].
    + apply bytes_of_upd; [apply unsealed_bytes; assumption|]. apply Forall_take, Forall_app_2; apply le_bytes_range.
    + rewrite upd_out by lia. rewrite <- (firstn_all (body id bs ++ bs)). apply unsealed_first; [exact Hid|].
      rewrite length_app, body_length. lia.
    + rewrite !upd_out by lia. apply Hcl. lia.
Qed.

(** The driver after a record that is sealed behind the log. *)
Lemma sealed_live d d' m m' M L e :
  live_bank d m M L -> clean d m -> entry_ok e -> bytes_at m' (m_next d) (esize e) = enc e ->
  (forall a, ~ m_next d <= a < m_next d + esize e -> m' a = m a) -> m_next d + esize e + 16 <= lim (m_bank d) ->
  m_bank d' = m_bank d -> m_counter d' = m_counter d -> m_next d' = m_next d + esize e ->
  m_used d' = 16 + used_of (rstep M e) ->
  m_descs d' = <[Z.to_nat (e.1 - 1) := entry_desc (m_next d) e]> (m_descs d) ->
  live_bank d' m' (rstep M e) (L ++ [e]) /\ clean d' m'.
Proof.
  intros H Hcl He Eb Ha Hl E1 E2 E3 E4 E5. pose proof (esize_bound e). split.
  - apply (live_step d d'); try assumption. apply (live_agree d m m' M L H). intros a Hr. apply Ha. lia.
  - intros a Hr. rewrite E1, E3 in Hr. rewrite Ha by lia. apply Hcl. lia.
Qed.

Lemma used_bound d m M L : live_bank d m M L -> 16 <= m_used d < 2 ^ 31 - 16 /\ m_used d + 16 <= cfg_bank_size cfg < 2 ^ 31.
Proof.
  intros H. rewrite (lb_used _ _ _ _ _ _ H). pose proof (lb_room _ _ _ _ _ _ H) as Hr. unfold room in Hr.
  pose proof (used_of_nonneg M). pose proof (bank_range (m_bank d)). pose proof (disjoint cfg desc pos (m_bank d)).
  pose proof (bank_range (other_bank (m_bank d))). change (lim (m_bank d)) with (base (m_bank d) + cfg_bank_size cfg) in *. lia.
Qed.

Lemma live_desc d m M L id :
  live_bank d m M L -> 1 <= id <= 32 ->
  exists o rd, M !! Z.to_nat (id - 1) = Some o /\ m_descs d !! Z.to_nat (id - 1) = Some rd /\
    desc_ok m (base (m_bank d) + 16) (m_next d) (Z.to_nat (id - 1)) o rd /\ slot_size o <= used_of M.
Proof.
  intros H Hid. destruct (records_lookup M id (live_ok_records _ _ _ _ H) Hid) as [o Eo]. destruct (lb_descs _ _ _ _ _ _ H) as [Hl Hd].
  destruct (lookup_lt_is_Some_2 (m_descs d) (Z.to_nat (id - 1))) as [rd Er]; [rewrite Hl; apply (lookup_lt_Some _ _ _ Eo)|].
  exists o, rd. split_and!; auto. apply (slot_size_le _ _ _ Eo).
Qed.

Definition no_space (M : records) (n : Z) : bool := cfg_bank_size cfg - (16 + used_of M) <? n.

(** The end of [mfsWriteRecord], from the sealing on. *)
Definition seal_part (id n : Z) (warning : bool) : MFS F mfs_error_t :=
  edit_ncbuf dhdr_seal;;
  d ← drv;
  RET_ON_ERROR (mfs_flash_write (m_next d) 8 (Ncbuf 0))
  (rd ← get_desc id;
   (if negb (rd_offset rd =? 0) then modify (fun d => with_used (u32 (m_used d - ALIGNED_REC_SIZE (rd_size rd))) d)
    else mret tt);;
   set_desc id (Descriptor (m_next d) n);;
   modify (fun d => with_next_offset (u32 (m_next d + rec_size n)) (with_used (u32 (m_used d + rec_size n)) d));;
   mret (if warning then MFS_WARN_GC else MFS_NO_ERROR)).

Lemma wp_seal_part id bs d m M L (w : bool) buf Q C :
  live_bank d m M L -> clean d m -> bytes_of m -> entry_ok (id, bs) -> bs <> [] -> (32 <= length buf)%nat ->
  m_next d + esize (id, bs) + 16 <= lim (m_bank d) ->
  (forall m', disk m' M \/ disk m' (rstep M (id, bs)) -> C m') ->
  (forall d' m', live_bank d' m' (rstep M (id, bs)) (L ++ [(id, bs)]) -> clean d' m' -> m_state d' = m_state d ->
     Q (if w then MFS_WARN_GC else MFS_NO_ERROR) d' m') ->
  wp (seal_part id (Z.of_nat (length bs)) w) (with_ncbuf buf d) (unsealed m (m_next d) id bs) Q C.
Proof.
  intros H Hcl Hby He Hne Hbuf Hfit HC HQ. pose proof He as (Hid & Hn & Hb). cbn [fst snd] in Hid, Hn, Hb.
  pose proof (used_bound d m M L H) as Hu. pose proof (live_next _ _ _ _ H) as Hnx. pose proof (bank_range (m_bank d)) as Hbk.
  pose proof (lb_used _ _ _ _ _ _ H) as Eu. pose proof (size_parts id bs) as Hs. pose proof (esize_bound (id, bs)) as Hn16.
  destruct (live_desc d m M L id H Hid) as (o & rd & Eo & Er & Hrd & Ho). pose proof (slot_size_nonneg o) as Ho'.
  change (esize (id, bs)) with (rec_size (Z.of_nat (length bs))) in *. set (n := rec_size (Z.of_nat (length bs))) in *.
  set (m2 := unsealed m (m_next d) id bs). set (m3 := upd m2 (m_next d) magic).
  assert (Hfin : forall d', m_bank d' = m_bank d -> m_counter d' = m_counter d -> m_next d' = m_next d + n ->
            m_used d' = 16 + (used_of M - slot_size o + n) ->
            m_descs d' = <[Z.to_nat (id - 1) := Descriptor (m_next d) (Z.of_nat (length bs))]> (m_descs d) ->
            live_bank d' m3 (rstep M (id, bs)) (L ++ [(id, bs)]) /\ clean d' m3).
  { intros d' E1 E2 E3 E4 E5. apply (sealed_live d d' m _ M L (id, bs)); try assumption.
    - apply sealed_bytes. intros a Ha. apply Hcl. change (esize (id, bs)) with n in Ha. lia.
    - intros a Ha. change (esize (id, bs)) with n in Ha. unfold m3, m2, unsealed.
      rewrite !upd_out by (try change (length magic) with 8%nat; lia). reflexivity.
    - rewrite E4, (used_rstep M (id, bs) o Eo). cbn [snd]. destruct bs; [congruence|reflexivity].
    - rewrite E5. destruct bs; [congruence|reflexivity]. }
  assert (Eseal : dhdr_seal buf = magic ++ drop 8 buf) by (apply dhdr_seal_bytes; lia).
  unfold seal_part, edit_ncbuf. apply wp_modify.
  { intros Hk. apply kept_ncbuf; [|exact Hk]. cbn [m_ncbuf with_ncbuf]. rewrite Eseal, length_app, length_drop. change (length magic) with 8%nat. lia. }
  apply wp_drv. cbn [m_ncbuf m_next with_ncbuf]. rewrite Eseal.
  apply wp_error; [reflexivity|]. apply (wp_write_buf cfg desc 0 _ _ magic); try lia.
  - reflexivity.
  - intros a Hr'. unfold m2, unsealed. rewrite upd_out by lia. apply Hcl. lia.
  - apply Forall_app_2; apply le_bytes_range.
  - intros j. apply HC. destruct (Nat.lt_ge_cases j 8) as [Hj|Hj].
    + left. apply (sealing_disk d m M L); assumption.
    + right. rewrite take_ge by exact Hj.
      destruct (Hfin (Driver MFS_READY None (m_bank d) (m_counter d) (m_next d + n) (16 + (used_of M - slot_size o + n))
        (<[Z.to_nat (id - 1) := Descriptor (m_next d) (Z.of_nat (length bs))]> (m_descs d)) 0 0 [] [])) as [A1 A2]; [reflexivity..|].
      apply (clean_disk cfg desc pos _ _ _ _ A1 A2).
  - split; [reflexivity|]. apply wp_get_desc with (rd := rd); [lia|exact Er|].
    eapply wp_unuse with (3 := Hrd); [lia|lia|cbn [m_used with_ncbuf]; lia|]. cbn [m_used with_ncbuf].
    apply wp_set_desc.
    { cbn [m_descs with_used with_ncbuf]. rewrite (proj1 (lb_descs _ _ _ _ _ _ H)), (proj1 (live_ok_records _ _ _ _ H)). exact Hid. }
    apply wp_set; [reflexivity|reflexivity|]. apply wp_ret. cbn [m_used m_next with_used with_descs with_ncbuf m_descs]. fold n.
    match goal with |- Q _ ?d2 _ => destruct (Hfin d2) as [A1 A2] end;
      [reflexivity|reflexivity|apply u32_id; lia| |reflexivity|apply HQ; [exact A1|exact A2|reflexivity]].
    cbn [m_used with_used with_descs with_ncbuf with_next_offset]. rewrite u32_id by lia. lia.
Qed.

Lemma wp_write_ready id bs d m M L Q C :
  live_bank d m M L -> clean d m -> counters pos m -> m_state d = MFS_READY -> entry_ok (id, bs) -> bs <> [] ->
  (forall m', no_space M (16 + esize (id, bs)) = false -> disk m' M \/ disk m' (rstep M (id, bs)) -> C m') ->
  (no_space M (16 + esize (id, bs)) = true -> Q MFS_ERR_OUT_OF_MEM d m) ->
  (forall e d' m' L', no_space M (16 + esize (id, bs)) = false -> e = MFS_NO_ERROR \/ e = MFS_WARN_GC ->
     live_bank d' m' (rstep M (id, bs)) L' -> clean d' m' -> m_state d' = MFS_READY -> Q e d' m') ->
  wp (mfsWriteRecord id bs) d m Q C.
Proof.
  intros H Hcl Hc Hst He Hne HC Hmem HQ. pose proof He as (Hid & Hn & Hb). cbn [fst snd] in Hid, Hn, Hb.
  pose proof (used_bound d m M L H) as Hu. pose proof (lb_used _ _ _ _ _ _ H) as Eu. pose proof (lb_fits _ _ _ _ _ _ H) as Hf.
  pose proof (live_next _ _ _ _ H) as Hnx. pose proof (bank_range (m_bank d)) as Hbk.
  assert (Hlen : 0 < Z.of_nat (length bs)) by (destruct bs; [congruence|cbn; lia]).
  pose proof (rec_size_bound (Z.of_nat (length bs)) ltac:(lia)) as Hr. change (esize (id, bs)) with (rec_size (Z.of_nat (length bs))) in *.
  set (n := rec_size (Z.of_nat (length bs))) in *.
  unfold mfsWriteRecord. apply wp_assert; [rewrite valid_id_in by exact Hid; apply Z.ltb_lt, Hlen|]. apply wp_config. apply wp_drv. rewrite Hst.
  rewrite aligned_rec_size by lia. fold n. change ALIGNED_DHDR_SIZE with 16. rewrite (u32_id (16 + n)), u32_id by lia.
  unfold no_space in *. rewrite Eu in Hu |- *. destruct (cfg_bank_size cfg - (16 + used_of M) <? 16 + n) eqn:Em; [apply wp_ret; auto|].
  specialize (fun m' => HC m' eq_refl) as HC'. clear HC. rename HC' into HC.
  apply wp_free; [lia|]. apply (wp_make_room _ _ _ m M L); auto. intros d1 m1 L1 H1 Hcl1 Hst1 Hw0 Hw1.
  assert (Hfree : m_next d1 + n + 16 <= lim (m_bank d1)).
  { destruct (lim (m_bank d) - m_next d <? 16 + n) eqn:Ew.
    - rewrite (Hw1 eq_refl). change (lim (m_bank d1)) with (base (m_bank d1) + cfg_bank_size cfg). lia.
    - destruct (Hw0 eq_refl) as (-> & -> & ->). lia. }
  clear Hw0 Hw1 Hnx Hbk Hf. pose proof (live_next _ _ _ _ H1) as Hnx. pose proof (bank_range (m_bank d1)) as Hbk.
  apply wp_bytes. intros Hby. apply wp_drv. apply wp_write_record; try assumption; change (esize (id, bs)) with n; try lia.
  - intros a Ha. apply Hcl1. lia.
  - intros j. apply HC. left. apply (writing_disk d1 m1 M L1); try assumption; [lia|]. change (esize (id, bs)) with n. lia.
  - intros buf Hbuf. apply (wp_seal_part id bs d1 m1 M L1); try assumption.
    intros d' m' A1 A2 A3. apply (HQ _ d' m' _ eq_refl) with (2 := A1); [case_match; auto|exact A2|congruence].
Qed.

(** An erase marker is being written, from its magic numbers to its size. *)
Lemma marker_disk d m M L id j :
  live_bank d m M L -> clean d m -> bytes_of m -> m_next d + 16 < lim (m_bank d) -> (j < 16)%nat ->
  disk (upd m (m_next d) (take j (enc (id, [])))) M.
Proof.
  intros H Hcl Hby Hl Hj. pose proof (live_next _ _ _ _ H) as Hnx. pose proof (bank_range (m_bank d)) as Hbk.
  assert (Hlen : length (take j (enc (id, []))) = j) by (rewrite length_take; cbn; lia).
  assert (Hby' : bytes_of (upd m (m_next d) (take j (enc (id, []))))).
  { apply bytes_of_upd; [exact Hby|]. apply Forall_take. repeat apply Forall_app_2; try apply le_bytes_range; constructor. }
  apply (tail_disk cfg desc pos d m _ M L H); [intros a Ha; apply upd_out; lia|]. destruct j as [|j].
  { cbn [take]. rewrite upd_nil_eq. apply tail_clean; [exact Hcl|lia]. }
  apply tail_torn; [exact Hl|]. set (m' := upd m (m_next d) (take (S j) (enc (id, [])))) in *.
  assert (H0 : m' (m_next d) = 0xF0) by (unfold m'; rewrite upd_in by lia; rewrite Z.sub_diag; reflexivity).
  assert (Ha : forall a, m_next d + Z.of_nat (S j) <= a < m_next d + 16 -> m' a = 255).
  { intros a Ha. unfold m'. rewrite upd_out by lia. apply Hcl. lia. }
  assert (Hat : forall i, (i < 16)%nat -> bytes_at m' (m_next d) 16 !! i = Some (m' (m_next d + Z.of_nat i))) by (intros i Hi; apply bytes_at_lookup; lia).
  destruct (Nat.lt_ge_cases j 7) as [Hj7|Hj7].
  - apply (dhdr_check_unsealed _ _ 0 7 0xF0); try lia; [apply bytes_of_at, Hby'|rewrite bytes_at_length; lia| |].
    + rewrite Hat by lia. rewrite Z.add_0_r, H0. reflexivity.
    + rewrite Hat by lia. rewrite Ha by lia. reflexivity.
  - apply dhdr_check_unsized; [apply bytes_of_at, Hby'|rewrite bytes_at_length; lia|lia| |right].
    + rewrite Hat by lia. rewrite Z.add_0_r, H0. discriminate.
    + rewrite Hat by lia. rewrite Ha by lia. reflexivity.
Qed.

Lemma marker_length id : length (enc (id, [])) = 16%nat.
Proof. reflexivity. Qed.

Lemma marker_bytes id buf :
  1 <= id <= 32 -> (16 <= length buf)%nat -> dhdr_fill id 0 0xFFFF (dhdr_seal buf) = enc (id, []) ++ drop 16 buf.
Proof.
  intros Hid Hl. rewrite dhdr_fill_bytes, dhdr_seal_bytes, u16_id_of by
    (try rewrite dhdr_seal_bytes by lia; rewrite ?length_app, ?length_drop; try exact Hid; change (length magic) with 8%nat; lia).
  rewrite take_app_length' by reflexivity. rewrite drop_app_ge by (change (length magic) with 8%nat; lia). rewrite drop_drop. reflexivity.
Qed.

Lemma wp_erase_ready id d m M L Q C :
  live_bank d m M L -> clean d m -> m_state d = MFS_READY -> 1 <= id <= 32 ->
  (forall m', M !! Z.to_nat (id - 1) <> Some None -> disk m' M \/ disk m' (rstep M (id, [])) -> C m') ->
  (M !! Z.to_nat (id - 1) = Some None -> Q MFS_ERR_NOT_FOUND d m) ->
  (M !! Z.to_nat (id - 1) <> Some None -> m_next d + 32 <= lim (m_bank d)) ->
  (forall d' m' L', M !! Z.to_nat (id - 1) <> Some None ->
     live_bank d' m' (rstep M (id, [])) L' -> clean d' m' -> m_state d' = MFS_READY -> Q MFS_NO_ERROR d' m') ->
  wp (mfsEraseRecord id) d m Q C.
Proof.
  intros H Hcl Hst Hid HC Hnone Hfit HQ. destruct (live_desc d m M L id H Hid) as (o & rd & Eo & Er & Hrd & Ho).
  pose proof (used_bound d m M L H) as Hu. pose proof (live_next _ _ _ _ H) as Hnx. pose proof (bank_range (m_bank d)) as Hbk.
  pose proof (lb_used _ _ _ _ _ _ H) as Eu. unfold mfsEraseRecord. apply wp_assert; [apply valid_id_in, Hid|].
  apply wp_config. apply wp_drv. rewrite Hst. apply wp_get_desc with (rd := rd); [lia|exact Er|]. destruct o as [bs|].
  2:{ cbn in Hrd. subst rd. apply wp_ret, Hnone, Eo. }
  destruct Hrd as (Es & H1 & H2 & _). specialize (Hfit ltac:(congruence)). rewrite (proj2 (Z.eqb_neq (rd_offset rd) 0)) by lia.
  change ALIGNED_DHDR_SIZE with 16. rewrite u32_id by lia. rewrite (proj2 (Z.ltb_ge _ 16)) by lia.
  apply wp_free; [lia|]. rewrite (proj2 (Z.ltb_ge _ 16)) by lia. apply wp_error; [reflexivity|]. apply wp_ret. split; [reflexivity|].
  apply wp_kept. intros [_ Hbuf]. pose proof (marker_bytes id (m_ncbuf d) Hid ltac:(lia)) as Em. unfold edit_ncbuf. apply wp_modify.
  { intros Hk. apply kept_ncbuf; [|exact Hk]. rewrite Em, length_app, marker_length, length_drop. lia. }
  apply wp_bytes. intros Hby. apply wp_drv. cbn [m_next with_ncbuf]. rewrite Em. set (m' := upd m (m_next d) (enc (id, []))).
  assert (He : entry_ok (id, [])) by (split_and!; [apply Hid|apply Hid|cbn; lia|constructor]).
  pose proof (rec_size_bound (rd_size rd) ltac:(lia)) as Hr. cbn [slot_size] in Ho. rewrite <- Es in Ho.
  assert (Hfin : forall d', m_bank d' = m_bank d -> m_counter d' = m_counter d -> m_next d' = m_next d + 16 ->
            m_used d' = 16 + used_of M - rec_size (rd_size rd) -> m_descs d' = <[Z.to_nat (id - 1) := no_record]> (m_descs d) ->
            live_bank d' m' (rstep M (id, [])) (L ++ [(id, [])]) /\ clean d' m').
  { intros d' E1 E2 E3 E4 E5. apply (sealed_live d d' m _ M L (id, [])); try assumption; change (esize (id, [])) with 16.
    - apply (bytes_at_upd m (m_next d)).
    - intros a Ha. apply upd_out. rewrite marker_length. lia.
    - lia.
    - rewrite E4, (used_rstep M (id, []) _ Eo). cbn [snd slot_size]. rewrite <- Es. lia. }
  apply wp_error; [reflexivity|]. unfold sizeof_mfs_data_header_t. apply (wp_write_buf cfg desc 0 _ _ (enc (id, []))); try lia.
  - reflexivity.
  - intros a Ha. apply Hcl. lia.
  - repeat apply Forall_app_2; try apply le_bytes_range; constructor.
  - intros j. apply HC; [congruence|]. destruct (Nat.lt_ge_cases j 16) as [Hj|Hj].
    + left. apply (marker_disk d m M L); try assumption. lia.
    + right. rewrite take_ge by (rewrite marker_length; exact Hj).
      destruct (Hfin (Driver MFS_READY None (m_bank d) (m_counter d) (m_next d + 16) (16 + used_of M - rec_size (rd_size rd))
        (<[Z.to_nat (id - 1) := no_record]> (m_descs d)) 0 0 [] [])) as [A1 A2]; [reflexivity..|].
      apply (clean_disk cfg desc pos _ _ _ _ A1 A2).
  - split; [reflexivity|]. apply wp_get_desc with (rd := rd); [lia|exact Er|]. apply wp_set; [reflexivity|reflexivity|].
    apply wp_set_desc.
    { cbn [m_descs with_used with_ncbuf with_next_offset]. rewrite (proj1 (lb_descs _ _ _ _ _ _ H)), (proj1 (live_ok_records _ _ _ _ H)). exact Hid. }
    apply wp_ret. rewrite aligned_rec_size by lia. cbn [m_used m_next m_descs with_used with_ncbuf with_next_offset].
    match goal with |- Q _ ?d2 _ => destruct (Hfin d2) as [A1 A2] end;
      [reflexivity|reflexivity|apply u32_id; lia| |reflexivity|apply (HQ _ _ _ ltac:(congruence) A1 A2), Hst].
    cbn [m_used with_used with_descs with_ncbuf with_next_offset]. rewrite u32_id by lia. lia.
Qed.

(** ** Reading *)

Lemma live_ncbuf d m M L buf : live_bank d m M L -> live_bank (with_ncbuf buf d) m M L.
Proof. intros []. constructor; assumption. Qed.

Lemma wp_read_record id n d m M L Q C :
  live_bank d m M L -> m_state d = MFS_READY \/ m_state d = MFS_TRANSACTION -> 1 <= id <= 32 -> 0 < n ->
  (M !! Z.to_nat (id - 1) = Some None -> Q (MFS_ERR_NOT_FOUND, []) d m) ->
  (forall bs, M !! Z.to_nat (id - 1) = Some (Some bs) -> n < Z.of_nat (length bs) -> Q (MFS_ERR_INV_SIZE, []) d m) ->
  (forall bs buf, M !! Z.to_nat (id - 1) = Some (Some bs) -> Z.of_nat (length bs) <= n -> Q (MFS_NO_ERROR, bs) (with_ncbuf buf d) m) ->
  wp (mfsReadRecord id n) d m Q C.
Proof.
  intros H Hst Hid Hn HN HS HQ. destruct (live_desc d m M L id H Hid) as (o & rd & Eo & Er & Hrd & _).
  pose proof (live_next _ _ _ _ H) as Hnx. pose proof (bank_range (m_bank d)) as Hbk. pose proof (lb_fits _ _ _ _ _ _ H) as Hf.
  unfold mfsReadRecord. apply wp_assert; [rewrite valid_id_in by exact Hid; apply Z.ltb_lt, Hn|]. apply wp_drv.
  replace (negb (bool_decide (m_state d = MFS_READY)) && negb (bool_decide (m_state d = MFS_TRANSACTION))) with false
    by (destruct Hst as [-> | ->]; reflexivity).
  apply wp_get_desc with (rd := rd); [lia|exact Er|]. destruct o as [bs|].
  2:{ cbn in Hrd. subst rd. apply wp_ret, HN, Eo. }
  destruct Hrd as (Es & H1 & H2 & Eb). rewrite (proj2 (Z.eqb_neq (rd_offset rd) 0)) by lia. rewrite Es in H2, Eb |- *.
  assert (Hbs : entry_ok (id, bs)).
  { pose proof (Forall_lookup_1 _ _ _ _ (proj2 (live_ok_records _ _ _ _ H)) Eo) as (_ & A1 & A2). split_and!; cbn; [lia..|exact A1|exact A2]. }
  replace (Z.of_nat (Z.to_nat (id - 1)) + 1) with id in Eb by lia. change (rec_size (Z.of_nat (length bs))) with (esize (id, bs)) in *.
  destruct (enc_split m (rd_offset rd) (id, bs) Eb) as [Eh Ed]. cbn [fst snd] in Eh, Ed. pose proof (size_parts id bs) as Hs.
  rewrite length_app, body_length in Hs. destruct (n <? Z.of_nat (length bs)) eqn:En; [apply wp_ret, (HS bs); [exact Eo|lia]|].
  apply wp_error; [reflexivity|]. unfold sizeof_mfs_data_header_t. apply wp_read_ncbuf; try lia. split; [reflexivity|].
  rewrite u32_id by lia. eapply wp_bind; [propagate|]. apply wp_flash_read; try lia.
  apply wp_error; [reflexivity|]. apply wp_ret. split; [reflexivity|]. apply wp_drv. cbn [m_ncbuf with_ncbuf]. rewrite Eh, Ed, <- app_assoc.
  destruct (enc_header (id, bs) (drop (Z.to_nat 16) (m_ncbuf d)) Hbs) as (_ & _ & _ & Ec & _). cbn [fst snd] in Ec. rewrite Ec, Z.eqb_refl.
  apply wp_ret, HQ; [exact Eo|lia].
Qed.

End Ops.
