(* ===== verification/MfsTrans.v ===== *)
(** * Transactions (hal_mfs.c)

    [pending]: the records of the open transaction lie behind the log, their headers
    not sealed.  The commit seals them from the last to the first, so that a power
    failure leaves all of them or none. *)

From S2P Require Import Prelude CInt Words Crc16 Flash Mfs MfsLog MfsWp MfsBank MfsDisk MfsGc MfsScan MfsMount MfsOps.
#[local] Open Scope Z_scope.
#[local] Existing Instances mfs_ret mfs_bind.

(** ** Records in a row *)

Fixpoint unsealed_at (m : Z -> Z) (o : Z) (P : list entry) : Prop :=
  match P with
  | [] => True
  | e :: P => bytes_at m o (esize e) = raw e /\ unsealed_at m (o + esize e) P
  end.

Fixpoint sealed_at (m : Z -> Z) (o : Z) (P : list entry) : Prop :=
  match P with
  | [] => True
  | e :: P => bytes_at m o (esize e) = enc e /\ sealed_at m (o + esize e) P
  end.

Fixpoint ops_at (o : Z) (P : list entry) : list mfs_transaction_op_t :=
  match P with
  | [] => []
  | e :: P => TrOp o (Z.of_nat (length e.2)) e.1 :: ops_at (o + esize e) P
  end.

(** The order of the commit. *)
Fixpoint seal (m : Z -> Z) (o : Z) (P : list entry) : Z -> Z :=
  match P with
  | [] => m
  | e :: P => upd (seal m (o + esize e) P) o magic
  end.

Lemma lsize_nil : lsize [] = 0.
Proof. reflexivity. Qed.

Lemma unsealed_at_agree m m' P : forall o, agree m m' o (o + lsize P) -> unsealed_at m o P -> unsealed_at m' o P.
Proof.
  induction P as [|e P IH]; intros o Ha; [auto|]. rewrite lsize_cons in Ha. pose proof (lsize_nonneg P). pose proof (esize_bound e).
  intros [E HP]. split; [rewrite (agree_bytes _ _ _ _ _ _ Ha) by lia; exact E|].
  apply IH; [apply (agree_sub _ _ _ _ _ _ Ha); lia|exact HP].
Qed.

Lemma unsealed_at_snoc m e P : forall o,
  unsealed_at m o P -> bytes_at m (o + lsize P) (esize e) = raw e -> unsealed_at m o (P ++ [e]).
Proof.
  induction P as [|x P IH]; intros o H E; cbn [app unsealed_at].
  - rewrite lsize_nil, Z.add_0_r in E. auto.
  - destruct H as [H1 H2]. split; [exact H1|]. apply IH; [exact H2|]. rewrite lsize_cons, Z.add_assoc in E. exact E.
Qed.

Lemma ops_at_snoc e P : forall o, ops_at o (P ++ [e]) = ops_at o P ++ [TrOp (o + lsize P) (Z.of_nat (length e.2)) e.1].
Proof.
  induction P as [|x P IH]; intros o; cbn [app ops_at]; [rewrite lsize_nil, Z.add_0_r; reflexivity|].
  rewrite IH, lsize_cons, Z.add_assoc. reflexivity.
Qed.

Lemma ops_at_length P : forall o, length (ops_at o P) = length P.
Proof. induction P as [|e P IH]; intros o; cbn; [reflexivity|]. rewrite IH. reflexivity. Qed.

Lemma seal_out m P : forall o a, ~ o <= a < o + lsize P -> seal m o P a = m a.
Proof.
  induction P as [|e P IH]; intros o a Ha; cbn [seal]; [reflexivity|]. rewrite lsize_cons in Ha.
  pose proof (lsize_nonneg P). pose proof (esize_bound e). rewrite upd_out by (change (length magic) with 8%nat; lia). apply IH. lia.
Qed.

Lemma magic_bytes : Forall is_byte magic.
Proof. apply Forall_app_2; apply le_bytes_range. Qed.

Lemma seal_bytes m P : bytes_of m -> forall o, bytes_of (seal m o P).
Proof. intros Hm. induction P as [|e P IH]; intros o; cbn [seal]; [exact Hm|]. apply bytes_of_upd; [apply IH|apply magic_bytes]. Qed.

Lemma sealed_at_agree m m' P : forall o, agree m m' o (o + lsize P) -> sealed_at m o P -> sealed_at m' o P.
Proof.
  induction P as [|e P IH]; intros o Ha; [auto|]. rewrite lsize_cons in Ha. pose proof (lsize_nonneg P). pose proof (esize_bound e).
  intros [E HP]. split; [rewrite (agree_bytes _ _ _ _ _ _ Ha) by lia; exact E|].
  apply IH; [apply (agree_sub _ _ _ _ _ _ Ha); lia|exact HP].
Qed.

Lemma seal_sealed m P : forall o, unsealed_at m o P -> sealed_at (seal m o P) o P.
Proof.
  induction P as [|e P IH]; intros o H; [exact I|]. destruct H as [E H]. pose proof (lsize_nonneg P). pose proof (esize_bound e).
  cbn [seal sealed_at]. split.
  - apply sealed_raw. rewrite <- E. apply bytes_at_ext. intros a Ha. apply seal_out. lia.
  - apply (sealed_at_agree (seal m (o + esize e) P)); [apply agree_upd; change (length magic) with 8%nat; lia|apply IH, H].
Qed.

(** What the first header shows before it is sealed. *)
Lemma raw_head m o e : 1 <= e.1 <= 32 -> bytes_at m o (esize e) = raw e -> (forall a, o <= a < o + 8 -> m a = 255) /\ m (o + 8) <> 255.
Proof.
  intros Hid E. pose proof (esize_bound e) as Hs.
  assert (Hat : forall i, (i < 16)%nat -> raw e !! i = Some (m (o + Z.of_nat i))) by (intros i Hi; rewrite <- E; apply bytes_at_lookup; lia).
  split.
  - intros a Ha. specialize (Hat (Z.to_nat (a - o)) ltac:(lia)). unfold raw in Hat.
    rewrite lookup_app_l in Hat by (rewrite length_replicate; lia). rewrite lookup_replicate_2 in Hat by lia.
    injection Hat as Hat. rewrite Hat. f_equal. lia.
  - specialize (Hat 8%nat ltac:(lia)). change (raw e !! 8%nat) with (Some (e.1 mod 256)) in Hat. injection Hat as Hat.
    change (Z.of_nat 8) with 8 in Hat. rewrite <- Hat, Z.mod_small; lia.
Qed.

(** A record that is to be erased is there when its turn comes. *)
Fixpoint ops_ok (M : records) (P : list entry) : Prop :=
  match P with
  | [] => True
  | e :: P => (e.2 = [] -> M !! Z.to_nat (e.1 - 1) <> Some None) /\ ops_ok (rstep M e) P
  end.

Lemma ops_ok_snoc P e : forall M,
  ops_ok M P -> (e.2 = [] -> foldl rstep M P !! Z.to_nat (e.1 - 1) <> Some None) -> ops_ok M (P ++ [e]).
Proof. induction P as [|x P IH]; intros M H He; cbn in *; [auto|]. destruct H. auto. Qed.

Section Trans.
Context {F : Type} `{BF : BaseFlash F} `{FL : !FlashLaws F}.
Context (cfg : MFSConfig) (desc : flash_descriptor_t) (pos : mfs_bank_t -> nat -> Z).
Context `{G : !Geometry cfg desc pos}.

#[local] Abbreviation wp := (wp cfg desc).
#[local] Abbreviation kept := (kept cfg).
#[local] Abbreviation base := (base pos).
#[local] Abbreviation lim := (lim cfg pos).
#[local] Abbreviation bank_range := (bank_range cfg desc pos).
#[local] Abbreviation disk := (disk cfg pos).
#[local] Abbreviation live_bank := (live_bank cfg pos).
#[local] Abbreviation clean := (clean cfg pos).

Record pending (d : MFSDriver) (m : Z -> Z) (M : records) (P : list entry) (budget : Z) : Prop := {
  pd_ops : m_tr_ops d = ops_at (m_next d) P;
  pd_next : m_tr_next d = m_next d + lsize P;
  pd_limit : m_tr_limit d = m_tr_next d + budget;
  pd_budget : 0 <= budget /\ m_tr_limit d + 16 <= lim (m_bank d);
  pd_raw : unsealed_at m (m_next d) P;
  pd_erased : erased_in m (m_tr_next d) (lim (m_bank d));
  pd_entries : Forall entry_ok P;
  pd_present : ops_ok M P
}.

(** Without the first header, what is behind the log does not count. *)
Lemma pending_disk d m m' M L P budget :
  live_bank d m M L -> pending d m M P budget -> P <> [] -> bytes_of m' ->
  (forall a, ~ m_next d <= a < lim (m_bank d) -> m' a = m a) -> m' (m_next d + 7) = m (m_next d + 7) ->
  m' (m_next d + 8) = m (m_next d + 8) -> disk m' M.
Proof.
  intros H HP Hne Hby Ha E7 E8. destruct P as [|e P]; [congruence|]. pose proof (pd_raw _ _ _ _ _ HP) as [Er _].
  pose proof (pd_entries _ _ _ _ _ HP) as He. apply Forall_cons in He as [He _]. destruct (raw_head _ _ _ (proj1 He) Er) as [R1 R2].
  pose proof (pd_next _ _ _ _ _ HP) as En. rewrite lsize_cons in En. pose proof (pd_limit _ _ _ _ _ HP). pose proof (pd_budget _ _ _ _ _ HP).
  pose proof (lsize_nonneg P). pose proof (esize_bound e).
  apply (tail_disk cfg desc pos d m _ M L H Ha). apply (unsealed_tail cfg pos _ _ _ 7); [exact Hby|lia|congruence|lia|].
  change (Z.of_nat 7) with 7. rewrite E7. apply R1. lia.
Qed.

Lemma pending_disk_now d m M L P budget : live_bank d m M L -> pending d m M P budget -> bytes_of m -> disk m M.
Proof.
  intros H HP Hby. destruct P as [|e P].
  - apply (clean_disk cfg desc pos d m M L H). unfold MfsDisk.clean. pose proof (pd_erased _ _ _ _ _ HP) as He.
    rewrite (pd_next _ _ _ _ _ HP), lsize_nil, Z.add_0_r in He. exact He.
  - apply (pending_disk d m m M L (e :: P) budget); auto.
Qed.

(** *** Recording *)

Lemma recording_disk d m M L P budget id bs j :
  live_bank d m M L -> pending d m M P budget -> bytes_of m -> entry_ok (id, bs) -> esize (id, bs) <= budget ->
  disk (upd m (m_tr_next d + 8) (take j (body id bs ++ bs))) M.
Proof.
  intros H HP Hby He Hb. pose proof (pd_next _ _ _ _ _ HP) as En. pose proof (pd_limit _ _ _ _ _ HP) as El. pose proof (pd_budget _ _ _ _ _ HP) as Hlim.
  pose proof (size_parts id bs) as Hs. pose proof (take_length_le j (body id bs ++ bs)) as Ht. pose proof (esize_bound (id, bs)).
  destruct P as [|e P].
  - rewrite lsize_nil, Z.add_0_r in En. rewrite En. apply (writing_disk cfg desc pos d m M L); try assumption; try lia.
    unfold MfsDisk.clean. rewrite <- En. apply HP.
  - rewrite lsize_cons in En. pose proof (lsize_nonneg P). pose proof (esize_bound e).
    apply (pending_disk d m _ M L (e :: P) budget H HP); try discriminate.
    + apply bytes_of_upd; [exact Hby|]. apply Forall_take, Forall_app_2; [apply body_bytes|apply He].
    + intros a Ha. apply upd_out. lia.
    + apply upd_out. lia.
    + apply upd_out. lia.
Qed.

Lemma recorded d d' m M L P budget id bs :
  live_bank d m M L -> pending d m M P budget -> entry_ok (id, bs) -> esize (id, bs) <= budget ->
  (bs = [] -> foldl rstep M P !! Z.to_nat (id - 1) <> Some None) ->
  m_bank d' = m_bank d -> m_counter d' = m_counter d -> m_next d' = m_next d -> m_used d' = m_used d -> m_descs d' = m_descs d ->
  m_tr_next d' = m_tr_next d + esize (id, bs) -> m_tr_limit d' = m_tr_limit d ->
  m_tr_ops d' = m_tr_ops d ++ [TrOp (m_tr_next d) (Z.of_nat (length bs)) id] ->
  live_bank d' (unsealed m (m_tr_next d) id bs) M L /\
  pending d' (unsealed m (m_tr_next d) id bs) M (P ++ [(id, bs)]) (budget - esize (id, bs)).
Proof.
  intros H HP He Hb Hpres E1 E2 E3 E4 E5 E6 E7 E8. pose proof (pd_next _ _ _ _ _ HP) as En. pose proof (pd_limit _ _ _ _ _ HP) as El.
  pose proof (pd_budget _ _ _ _ _ HP) as Hlim. pose proof (size_parts id bs) as Hs. pose proof (lsize_nonneg P). pose proof (esize_bound (id, bs)).
  assert (Hl : live_bank d (unsealed m (m_tr_next d) id bs) M L).
  { apply (live_agree cfg desc pos d m _ M L H). intros a Ha. apply upd_out. lia. }
  assert (Her : erased_in m (m_tr_next d) (m_tr_next d + esize (id, bs))) by (intros a Ha; apply (pd_erased _ _ _ _ _ HP); lia).
  split; [destruct Hl; constructor; rewrite ?E1, ?E2, ?E3, ?E4, ?E5; assumption|].
  constructor; rewrite ?E1, ?E3, ?E6, ?E7, ?E8, ?lsize_app, ?lsize_cons, ?lsize_nil.
  - rewrite ops_at_snoc, (pd_ops _ _ _ _ _ HP), En. reflexivity.
  - lia.
  - lia.
  - lia.
  - apply unsealed_at_snoc; [|rewrite <- En; apply raw_bytes, Her].
    apply (unsealed_at_agree m); [apply agree_upd; lia|apply HP].
  - intros a Ha. unfold unsealed. rewrite upd_out by lia. apply (pd_erased _ _ _ _ _ HP). lia.
  - apply Forall_app_2; [apply HP|constructor; [exact He|constructor]].
  - apply ops_ok_snoc; [apply HP|exact Hpres].
Qed.

(** *** The operations *)

Lemma pending_none d m M L n : live_bank d m M L -> clean d m -> 0 <= n -> m_next d + n + 16 <= lim (m_bank d) ->
  m_tr_next d = m_next d -> m_tr_limit d = m_next d + n -> m_tr_ops d = [] -> pending d m M [] n.
Proof.
  intros H Hcl Hn Hl E1 E2 E3. constructor; rewrite ?E1, ?E2, ?E3, ?lsize_nil; try exact I; try lia; try reflexivity; try constructor. exact Hcl.
Qed.

Lemma wp_start n d m M L Q C :
  live_bank d m M L -> clean d m -> counters pos m -> m_state d = MFS_READY -> 16 < n < 2 ^ 31 ->
  (forall m', disk m' M -> C m') ->
  (no_space cfg M (n + n mod 2 + 16) = true -> Q MFS_ERR_OUT_OF_MEM d m) ->
  (forall d' m' L', no_space cfg M (n + n mod 2 + 16) = false -> live_bank d' m' M L' -> pending d' m' M [] (n + n mod 2) ->
     m_state d' = MFS_TRANSACTION -> Q MFS_NO_ERROR d' m') ->
  wp (mfsStartTransaction n) d m Q C.
Proof.
  intros H Hcl Hc Hst Hn HC Hmem HQ. pose proof (used_bound cfg desc pos d m M L H) as Hu. pose proof (lb_used _ _ _ _ _ _ H) as Eu.
  pose proof (lb_fits _ _ _ _ _ _ H) as Hf. pose proof (live_next cfg pos _ _ _ _ H) as Hnx. pose proof (bank_range (m_bank d)) as Hbk.
  pose proof (Z.mod_pos_bound n 2) as Hm2. unfold mfsStartTransaction. change ALIGNED_DHDR_SIZE with 16.
  apply wp_assert; [apply Z.ltb_lt; lia|]. apply wp_drv. rewrite Hst. cbn [negb]. rewrite bool_decide_eq_true_2 by reflexivity. cbn [negb].
  apply wp_config. rewrite align_next_even by lia. set (k := n + n mod 2) in *. rewrite (u32_id (k + 16)), u32_id by lia.
  unfold no_space in *. rewrite Eu in Hu |- *. destruct (cfg_bank_size cfg - (16 + used_of M) <? k + 16) eqn:Em; [apply wp_ret; auto|].
  apply (wp_free cfg desc pos); [lia|]. apply (wp_make_room cfg desc pos _ _ _ m M L); auto. intros d1 m1 L1 H1 Hcl1 Hst1 Hw0 Hw1.
  assert (Hfree : m_next d1 + k + 16 <= lim (m_bank d1)).
  { destruct (lim (m_bank d) - m_next d <? k + 16) eqn:Ew.
    - rewrite (Hw1 eq_refl). change (lim (m_bank d1)) with (base (m_bank d1) + cfg_bank_size cfg). lia.
    - destruct (Hw0 eq_refl) as (-> & -> & ->). lia. }
  apply wp_set; [reflexivity|reflexivity|]. apply wp_ret. pose proof (live_next cfg pos _ _ _ _ H1). pose proof (bank_range (m_bank d1)).
  rewrite u32_id by lia. apply (HQ _ m1 L1 eq_refl); [destruct H1; constructor; assumption| |reflexivity].
  apply (pending_none _ _ _ L1); try reflexivity; [destruct H1; constructor; assumption|exact Hcl1|lia|exact Hfree].
Qed.

Lemma wp_write_pending id bs d m M L P budget Q C :
  live_bank d m M L -> pending d m M P budget -> m_state d = MFS_TRANSACTION -> entry_ok (id, bs) -> bs <> [] ->
  (forall m', disk m' M -> C m') ->
  ((16 <= length P)%nat -> Q MFS_ERR_TRANSACTION_NUM d m) ->
  ((length P < 16)%nat -> budget < esize (id, bs) -> Q MFS_ERR_TRANSACTION_SIZE d m) ->
  (forall d' m', (length P < 16)%nat -> esize (id, bs) <= budget -> live_bank d' m' M L ->
     pending d' m' M (P ++ [(id, bs)]) (budget - esize (id, bs)) -> m_state d' = MFS_TRANSACTION -> Q MFS_NO_ERROR d' m') ->
  wp (mfsWriteRecord id bs) d m Q C.
Proof.
  intros H HP Hst He Hne HC Hnum Hsize HQ. pose proof He as (Hid & Hn & Hb). cbn [fst snd] in Hid, Hn, Hb.
  pose proof (live_next cfg pos _ _ _ _ H) as Hnx. pose proof (bank_range (m_bank d)) as Hbk. pose proof (lsize_nonneg P) as HlP.
  pose proof (pd_next _ _ _ _ _ HP) as En. pose proof (pd_limit _ _ _ _ _ HP) as El. pose proof (pd_budget _ _ _ _ _ HP) as Hlim.
  assert (Hlen : 0 < Z.of_nat (length bs)) by (destruct bs; [congruence|cbn; lia]).
  pose proof (rec_size_bound (Z.of_nat (length bs)) ltac:(lia)) as Hr. change (rec_size (Z.of_nat (length bs))) with (esize (id, bs)) in *.
  unfold mfsWriteRecord. apply wp_assert; [rewrite valid_id_in by exact Hid; apply Z.ltb_lt, Hlen|]. apply wp_config. apply wp_drv. rewrite Hst.
  rewrite (pd_ops _ _ _ _ _ HP), ops_at_length. change MFS_CFG_TRANSACTION_MAX with 16%nat.
  destruct (16 <=? length P)%nat eqn:E16; [apply wp_ret, Hnum; apply Nat.leb_le, E16|]. apply Nat.leb_gt in E16.
  rewrite aligned_rec_size by lia. change (rec_size (Z.of_nat (length bs))) with (esize (id, bs)). rewrite u32_id by lia.
  destruct (m_tr_limit d - m_tr_next d <? esize (id, bs)) eqn:Es; [apply wp_ret, Hsize; lia|].
  apply wp_bytes. intros Hby. apply (wp_write_record cfg desc pos); try assumption; try lia.
  - intros a Ha. apply (pd_erased _ _ _ _ _ HP). lia.
  - intros j. apply HC, (recording_disk d m M L P budget); try assumption. lia.
  - intros buf Hbuf. apply wp_set; [reflexivity|reflexivity|]. apply wp_ret.
    match goal with |- Q _ ?d2 _ => destruct (recorded d d2 m M L P budget id bs) as [A1 A2] end; try assumption; try reflexivity; [lia|congruence| |].
    + cbn. apply u32_id. lia.
    + apply HQ; try assumption. lia.
Qed.

Lemma wp_erase_pending id d m M L P budget Q C :
  live_bank d m M L -> pending d m M P budget -> m_state d = MFS_TRANSACTION -> 1 <= id <= 32 ->
  (forall m', disk m' M -> C m') ->
  (M !! Z.to_nat (id - 1) = Some None -> Q MFS_ERR_NOT_FOUND d m) ->
  (M !! Z.to_nat (id - 1) <> Some None -> (16 <= length P)%nat -> Q MFS_ERR_TRANSACTION_NUM d m) ->
  (M !! Z.to_nat (id - 1) <> Some None -> (length P < 16)%nat -> budget < 16 -> Q MFS_ERR_TRANSACTION_SIZE d m) ->
  (M !! Z.to_nat (id - 1) <> Some None -> (length P < 16)%nat -> 16 <= budget -> foldl rstep M P !! Z.to_nat (id - 1) <> Some None) ->
  (forall d' m', M !! Z.to_nat (id - 1) <> Some None -> (length P < 16)%nat -> 16 <= budget -> live_bank d' m' M L ->
     pending d' m' M (P ++ [(id, [])]) (budget - 16) -> m_state d' = MFS_TRANSACTION -> Q MFS_NO_ERROR d' m') ->
  wp (mfsEraseRecord id) d m Q C.
Proof.
  intros H HP Hst Hid HC Hnone Hnum Hsize Hpres HQ. destruct (live_desc cfg pos d m M L id H Hid) as (o & rd & Eo & Er & Hrd & _).
  pose proof (live_next cfg pos _ _ _ _ H) as Hnx. pose proof (bank_range (m_bank d)) as Hbk. pose proof (lsize_nonneg P) as HlP.
  pose proof (pd_next _ _ _ _ _ HP) as En. pose proof (pd_limit _ _ _ _ _ HP) as El. pose proof (pd_budget _ _ _ _ _ HP) as Hlim.
  unfold mfsEraseRecord. apply wp_assert; [apply valid_id_in, Hid|]. apply wp_config. apply wp_drv. rewrite Hst.
  apply (wp_get_desc cfg desc) with (rd := rd); [lia|exact Er|]. destruct o as [bs|].
  2:{ cbn in Hrd. subst rd. apply wp_ret, Hnone, Eo. }
  assert (HM : M !! Z.to_nat (id - 1) <> Some None) by congruence.
  destruct Hrd as (_ & H1 & _). rewrite (proj2 (Z.eqb_neq (rd_offset rd) 0)) by lia.
  rewrite (pd_ops _ _ _ _ _ HP), ops_at_length. change MFS_CFG_TRANSACTION_MAX with 16%nat.
  destruct (16 <=? length P)%nat eqn:E16; [apply wp_ret, Hnum; [exact HM|apply Nat.leb_le, E16]|]. apply Nat.leb_gt in E16.
  change ALIGNED_DHDR_SIZE with 16. rewrite u32_id by lia.
  destruct (m_tr_limit d - m_tr_next d <? 16) eqn:Es; [apply wp_ret, Hsize; auto; lia|].
  assert (He : entry_ok (id, [])) by (split_and!; [apply Hid|apply Hid|cbn; lia|constructor]).
  apply wp_kept. intros [_ Hbuf]. apply wp_bytes. intros Hby.
  assert (Ef : dhdr_fill id 0 0xFFFF (m_ncbuf d) = take 8 (m_ncbuf d) ++ body id [] ++ drop 16 (m_ncbuf d)).
  { rewrite dhdr_fill_bytes, u16_id_of by (assumption || lia). reflexivity. }
  unfold edit_ncbuf. apply wp_modify.
  { intros Hk. apply kept_ncbuf; [|exact Hk]. rewrite Ef, !length_app, body_length, length_take, length_drop. lia. }
  rewrite u32_id by lia. change (sizeof_mfs_data_header_t - 8) with 8. apply wp_error; [reflexivity|].
  apply (wp_write_buf cfg desc 8 _ _ (body id [])); try lia.
  - cbn [m_ncbuf with_ncbuf]. rewrite Ef. rewrite drop_app_length' by (rewrite length_take; lia).
    rewrite take_app_length' by (rewrite body_length; reflexivity). reflexivity.
  - intros a Ha. apply (pd_erased _ _ _ _ _ HP). lia.
  - apply body_bytes.
  - intros j. apply HC. rewrite <- (app_nil_r (body id [])). apply (recording_disk d m M L P budget); try assumption.
    change (esize (id, [])) with 16. lia.
  - split; [reflexivity|]. apply wp_set; [reflexivity|reflexivity|]. apply wp_ret. rewrite <- (app_nil_r (body id [])) at 1.
    fold (unsealed m (m_tr_next d) id []).
    match goal with |- Q _ ?d2 ?m2 => change m2 with (unsealed m (m_tr_next d) id []); destruct (recorded d d2 m M L P budget id []) as [A1 A2] end;
      try assumption; try reflexivity; change (esize (id, [])) with 16; [lia|intros _; apply Hpres; [exact HM|exact E16|lia]|cbn; apply u32_id; lia|].
    apply HQ; try assumption. lia.
Qed.

(** *** The commit *)

Lemma wp_seal_ops P : forall o d m Q C,
  unsealed_at m o P -> bytes_of m -> take 8 (m_ncbuf d) = magic -> Forall entry_ok P -> 0 <= o -> o + lsize P <= fd_size desc ->
  (forall m', bytes_of m' -> (forall a, ~ o <= a < o + lsize P -> m' a = m a) ->
     (P <> [] -> m' (o + 7) = m (o + 7) /\ m' (o + 8) = m (o + 8)) -> C m') -> C (seal m o P) ->
  (forall buf, (32 <= length buf)%nat -> take 8 buf = magic -> Q MFS_NO_ERROR (with_ncbuf buf d) (seal m o P)) ->
  wp (seal_ops (ops_at o P)) d m Q C.
Proof.
  induction P as [|e P IH]; intros o d m Q C HP Hby Hbuf He Ho Hl HC HC' HQ; cbn [ops_at seal_ops op_offset].
  - apply wp_kept. intros [_ Hk]. apply wp_ret. rewrite <- (with_ncbuf_id d). apply HQ; assumption.
  - apply Forall_cons in He as [He HPe]. destruct HP as [Er HP]. rewrite lsize_cons in Hl, HC. pose proof (lsize_nonneg P) as Hn.
    pose proof (esize_bound e) as Hs. destruct (raw_head m o e (proj1 He) Er) as [R1 _].
    apply wp_error; [reflexivity|]. apply IH; try assumption; try lia.
    + intros m' H1 H2 _. apply HC; [exact H1| |]; [intros a Ha; apply H2; lia|]. intros _. split; apply H2; lia.
    + apply HC; [apply seal_bytes, Hby| |]; [intros a Ha; apply seal_out; lia|]. intros _. split; apply seal_out; lia.
    + intros buf Hbl Hbm. split; [reflexivity|].
      assert (El : length magic = 8%nat) by reflexivity.
      apply (wp_write_buf cfg desc 0 _ _ magic); try lia.
      * cbn [m_ncbuf with_ncbuf]. rewrite drop_0. symmetry. exact Hbm.
      * intros a Ha. rewrite seal_out by lia. apply R1. lia.
      * apply magic_bytes.
      * intros j. destruct (Nat.lt_ge_cases j 8) as [Hj|Hj]; [|rewrite take_ge by exact Hj; exact HC'].
        assert (Hjl : length (take j magic) = j) by (rewrite length_take; lia).
        apply HC; [apply bytes_of_upd; [apply seal_bytes, Hby|apply Forall_take, magic_bytes]| |].
        -- intros a Ha. rewrite upd_out by lia. apply seal_out. lia.
        -- intros _. split; rewrite upd_out by lia; apply seal_out; lia.
      * apply HQ; [|reflexivity]. rewrite length_app, length_drop. cbn [m_ncbuf with_ncbuf]. lia.
Qed.

Lemma live_fold P : forall d m M L,
  live_bank d m M L -> sealed_at m (m_next d) P -> Forall entry_ok P -> m_next d + lsize P + 16 <= lim (m_bank d) ->
  exists d', m_bank d' = m_bank d /\ m_next d' = m_next d + lsize P /\ live_bank d' m (foldl rstep M P) (L ++ P).
Proof.
  induction P as [|e P IH]; intros d m M L H HP He Hl.
  - exists d. rewrite lsize_nil, Z.add_0_r, app_nil_r. auto.
  - apply Forall_cons in He as [He HPe]. destruct HP as [Ee HP]. rewrite lsize_cons in Hl |- *. pose proof (lsize_nonneg P).
    set (d1 := Driver MFS_READY None (m_bank d) (m_counter d) (m_next d + esize e) (16 + used_of (rstep M e))
      (<[Z.to_nat (e.1 - 1) := entry_desc (m_next d) e]> (m_descs d)) 0 0 [] []).
    assert (H1 : live_bank d1 m (rstep M e) (L ++ [e])) by (apply (live_step cfg pos d d1); try assumption; try reflexivity; lia).
    destruct (IH d1 m _ _ H1 HP HPe) as (d' & E1 & E2 & H2); [change (m_next d + esize e + lsize P + 16 <= lim (m_bank d)); lia|]. exists d'.
    rewrite E1, E2. cbn [m_bank m_next d1]. split; [reflexivity|]. split; [lia|]. rewrite <- app_assoc in H2. exact H2.
Qed.

Lemma wp_last_desc id rd d m (Q : unit -> MFSDriver -> (Z -> Z) -> Prop) C :
  1 <= id <= Z.of_nat (length (m_descs d)) -> Q tt (with_descs (<[Z.to_nat (id - 1) := rd]> (m_descs d)) d) m ->
  wp (set_desc id rd) d m Q C.
Proof.
  intros Hid HQ Hk fl Hm Hon Hd. unfold set_desc, drv, assert, lift, modify, mbind, mfs_bind. cbn [s_drv s_fl].
  rewrite (proj2 (Z.leb_le 1 id)), (proj2 (Z.leb_le id _)) by lia. cbn. eexists _, fl, tt. split; [reflexivity|].
  rewrite Hon, Hm. split; [exact Hk|]. split; [exact Hd|exact HQ].
Qed.

Lemma wp_apply_ops m C P : forall o d M L Q,
  live_bank (with_next_offset o d) m M L -> sealed_at m o P -> Forall entry_ok P -> ops_ok M P -> o + lsize P + 16 <= lim (m_bank d) ->
  (forall d', live_bank (with_next_offset (o + lsize P) d') m (foldl rstep M P) (L ++ P) -> m_next d' = m_next d ->
     m_bank d' = m_bank d -> Q tt d' m) ->
  wp (apply_ops (ops_at o P)) d m Q C.
Proof.
  induction P as [|e P IH]; intros o d M L Q H HP He Hok Hl HQ; cbn [ops_at apply_ops op_id op_size op_offset].
  - apply wp_ret, HQ; [|reflexivity..]. rewrite lsize_nil, Z.add_0_r, app_nil_r. exact H.
  - apply Forall_cons in He as [He HPe]. destruct HP as [Ee HP]. destruct Hok as [Hpres Hok]. rewrite lsize_cons in Hl, HQ.
    pose proof (lsize_nonneg P) as HlP. pose proof (esize_bound e) as Hes. pose proof He as (Hid & Hlen & _).
    destruct (live_desc cfg pos _ m M L e.1 H Hid) as (op & rd & Eo & Er & Hrd & Hop). pose proof (live_ok_records cfg pos _ _ _ _ H) as HM.
    pose proof (lb_used _ _ _ _ _ _ H) as Eu. pose proof (used_bound cfg desc pos _ m M L H) as Hu. pose proof (slot_size_nonneg op) as Hop'.
    pose proof (live_next cfg pos _ _ _ _ H) as Hnx. pose proof (bank_range (m_bank d)) as Hbk.
    cbn [m_used m_descs m_next m_bank with_next_offset] in Eu, Hu, Er, Hrd, Hnx.
    assert (Hds : 1 <= e.1 <= Z.of_nat (length (m_descs d))).
    { change (m_descs d) with (m_descs (with_next_offset o d)). rewrite (proj1 (lb_descs _ _ _ _ _ _ H)), (proj1 HM). exact Hid. }
    assert (Hnext : forall d', m_bank d' = m_bank d -> m_counter d' = m_counter d -> m_next d' = m_next d ->
              m_used d' = 16 + used_of (rstep M e) -> m_descs d' = <[Z.to_nat (e.1 - 1) := entry_desc o e]> (m_descs d) ->
              wp (apply_ops (ops_at (o + esize e) P)) d' m Q C).
    { intros d' E1 E2 E3 E4 E5. apply IH with (M := rstep M e) (L := L ++ [e]); try assumption; [|rewrite E1; lia|].
      - apply (live_step cfg pos (with_next_offset o d) _ m M L e); try assumption; try reflexivity. change (o + esize e + 16 <= lim (m_bank d)). lia.
      - intros d'' H1 H2 H3. rewrite <- Z.add_assoc, <- app_assoc in H1. apply HQ; [exact H1|congruence|congruence]. }
    rewrite (used_rstep M e op Eo) in Hnext. apply (wp_get_desc cfg desc) with (rd := rd); [lia|exact Er|].
    eapply wp_bind; [intros a ? ? []|]. unfold entry_desc in Hnext. destruct e.2 as [|b bs] eqn:Ebs.
    + cbn [length Z.of_nat Z.ltb Z.compare]. apply wp_set; [reflexivity|reflexivity|]. apply wp_last_desc; [exact Hds|].
      destruct op as [old|]; [|destruct (Hpres eq_refl); exact Eo]. destruct Hrd as (Es & H1 & H2 & _). cbn [slot_size] in Hop, Hnext, Hop'.
      rewrite <- Es in Hop, Hnext, Hop'. pose proof (lb_fits _ _ _ _ _ _ H) as Hf. cbn [m_next m_bank with_next_offset] in Hf. pose proof (rec_size_bound (rd_size rd) ltac:(lia)).
      apply Hnext; try reflexivity. cbn [m_used with_used with_descs]. rewrite aligned_rec_size, u32_id by lia. lia.
    + rewrite (proj2 (Z.ltb_lt 0 _)) by (cbn; lia). pose proof (lb_fits _ _ _ _ _ _ H) as Hf. cbn [m_next m_bank with_next_offset] in Hf.
      eapply (wp_unuse cfg desc) with (3 := Hrd); [lia|lia|lia|]. apply wp_set; [reflexivity|reflexivity|]. apply wp_last_desc; [exact Hds|].
      rewrite aligned_rec_size by lia.
      assert (Ees : esize e = rec_size (Z.of_nat (length (b :: bs)))) by (unfold esize; rewrite Ebs; reflexivity). rewrite <- Ees.
      apply Hnext; try reflexivity. cbn [m_used with_used with_descs]. rewrite u32_id by lia. lia.
Qed.

Lemma wp_commit d m M L P budget Q C :
  live_bank d m M L -> pending d m M P budget -> m_state d = MFS_TRANSACTION ->
  (forall m', disk m' M \/ disk m' (foldl rstep M P) -> C m') ->
  (forall d' m', live_bank d' m' (foldl rstep M P) (L ++ P) -> clean d' m' -> m_state d' = MFS_READY -> Q MFS_NO_ERROR d' m') ->
  wp mfsCommitTransaction d m Q C.
Proof.
  intros H HP Hst HC HQ. pose proof (pd_next _ _ _ _ _ HP) as En. pose proof (pd_limit _ _ _ _ _ HP) as El. pose proof (pd_budget _ _ _ _ _ HP) as Hlim.
  pose proof (live_next cfg pos _ _ _ _ H) as Hnx. pose proof (bank_range (m_bank d)) as Hbk. pose proof (lsize_nonneg P) as HlP.
  set (m' := seal m (m_next d) P).
  assert (Hl' : live_bank d m' M L) by (apply (live_agree cfg desc pos d m m' M L H); intros a Ha; apply seal_out; lia).
  assert (Hs : sealed_at m' (m_next d) P) by (apply seal_sealed, HP).
  assert (Her : erased_in m' (m_next d + lsize P) (lim (m_bank d))).
  { intros a Ha. unfold m'. rewrite seal_out by lia. apply (pd_erased _ _ _ _ _ HP). lia. }
  unfold mfsCommitTransaction. apply wp_drv. rewrite Hst, bool_decide_eq_true_2 by reflexivity. cbn [negb].
  apply wp_kept. intros [_ Hbuf]. pose proof (dhdr_seal_bytes (m_ncbuf d) ltac:(lia)) as Eb. unfold edit_ncbuf. apply wp_modify.
  { intros Hk. apply kept_ncbuf; [|exact Hk]. rewrite Eb, length_app, length_drop. change (length magic) with 8%nat. lia. }
  rewrite (pd_ops _ _ _ _ _ HP), Eb. apply wp_bytes. intros Hby. apply wp_error; [reflexivity|]. apply wp_seal_ops; try assumption; try lia.
  - apply HP.
  - reflexivity.
  - apply HP.
  - intros m1 H1 H2 H3. apply HC. left. destruct P as [|e P].
    + rewrite lsize_nil in H2. replace m1 with m; [apply (pending_disk_now d m M L [] budget); assumption|].
      symmetry. apply same_eq. intros a. apply H2. lia.
    + destruct (H3 ltac:(discriminate)) as [A1 A2]. apply (pending_disk d m m1 M L (e :: P) budget); auto.
      intros a Ha. apply H2. lia.
  - apply HC. right. destruct (live_fold P d m' M L Hl' Hs (pd_entries _ _ _ _ _ HP) ltac:(lia)) as (d' & E1 & E2 & H1).
    apply (clean_disk cfg desc pos d' _ _ _ H1). unfold MfsDisk.clean. rewrite E1, E2. exact Her.
  - intros buf Hbl _. split; [reflexivity|]. apply wp_set; [reflexivity|reflexivity|]. eapply wp_bind; [intros a ? ? []|].
    apply (wp_apply_ops m' C P (m_next d) _ M L); [destruct Hl'; constructor; assumption|exact Hs|apply HP|apply HP|change (m_next d + lsize P + 16 <= lim (m_bank d)); lia|].
    intros d' H1 H2 H3. apply wp_set; [reflexivity|reflexivity|]. apply wp_ret. cbn [m_next m_bank m_tr_next with_next_offset with_ncbuf] in H2, H3.
    rewrite En in H2. apply HQ; [| |reflexivity].
    + rewrite <- H2 in H1. destruct H1; constructor; assumption.
    + unfold MfsDisk.clean. cbn [m_next m_bank with_state]. rewrite H2, H3. exact Her.
Qed.

Lemma wp_rollback d m M L P budget Q C :
  live_bank d m M L -> pending d m M P budget -> counters pos m -> m_state d = MFS_TRANSACTION ->
  (forall m', disk m' M -> C m') ->
  (forall d' m' L', live_bank d' m' M L' -> clean d' m' -> m_state d' = MFS_READY -> Q MFS_NO_ERROR d' m') ->
  wp mfsRollbackTransaction d m Q C.
Proof.
  intros H HP Hc Hst HC HQ. unfold mfsRollbackTransaction. apply wp_drv. rewrite Hst, bool_decide_eq_true_2 by reflexivity. cbn [negb].
  assert (H' : live_bank (with_state MFS_READY d) m M L) by (destruct H; constructor; assumption).
  apply wp_set; [reflexivity|reflexivity|]. rewrite (pd_ops _ _ _ _ _ HP), ops_at_length. destruct P as [|e P]; cbn [length Nat.ltb Nat.leb].
  - apply wp_ret, (HQ _ _ L); [exact H'| |reflexivity]. unfold MfsDisk.clean. cbn [m_next m_bank with_state].
    pose proof (pd_erased _ _ _ _ _ HP) as He. rewrite (pd_next _ _ _ _ _ HP), lsize_nil, Z.add_0_r in He. exact He.
  - apply wp_bytes. intros Hby. apply (wp_gc cfg desc pos _ m M L); try assumption.
    + apply (pending_disk_now d m M L (e :: P) budget); assumption.
    + cbn [m_counter with_state]. rewrite <- (lb_counter _ _ _ _ _ _ H). pose proof (counter_nonneg pos m (m_bank d) Hby). split; [lia|]. apply Hc, H.
    + intros d' m' H1 H2 H3. apply (HQ d' m' _ H1 H2). exact H3.
Qed.

End Trans.
