(* ===== verification/MfsStore.v ===== *)
(** * The record store (hal_mfs.c)

    What clients rely on, as a state machine: [store_do] is the effect of each call on
    a map of records and on the open transaction, [astep] adds the failures of power
    and the reboots.  [mfs_power_safe]: the driver on any device that keeps the laws of
    [FlashLaws] does what this machine does, whenever the power fails. *)

From stdpp Require Import gmap.
From S2P Require Import Prelude CInt Words Crc16 Flash Mfs MfsLog MfsWp MfsBank MfsDisk MfsGc MfsScan MfsMount MfsOps MfsTrans.
#[local] Open Scope Z_scope.
#[local] Existing Instances mfs_ret mfs_bind.

(** ** The specification *)

(** The records, or the committed records, those of the transaction and the space
    that it has left. *)
Inductive store :=
| Idle (M : records)
| Open (M : records) (P : list entry) (budget : Z).

Inductive mfs_call :=
| ReadRecord (id n : Z)
| WriteRecord (id : Z) (bs : list Z)
| EraseRecord (id : Z)
| CollectGarbage
| StartTransaction (n : Z)
| CommitTransaction
| RollbackTransaction
| EraseAll.

Definition committed (s : store) : records := match s with Idle M | Open M _ _ => M end.

Definition record_of (M : records) (id : Z) : option (list Z) := default None (M !! Z.to_nat (id - 1)).

Definition read_result (M : records) (id n : Z) : mfs_error_t * list Z :=
  match record_of M id with
  | None => (MFS_ERR_NOT_FOUND, [])
  | Some bs => if n <? Z.of_nat (length bs) then (MFS_ERR_INV_SIZE, []) else (MFS_NO_ERROR, bs)
  end.

(** [size]: of a bank. *)
Definition store_do (size : Z) (c : mfs_call) (s : store) : store * (mfs_error_t * list Z) :=
  let stay e : store * (mfs_error_t * list Z) := (s, (e, [])) in
  let full M n := size - (16 + used_of M) <? n in
  match s, c with
  | Idle M, ReadRecord id n => (s, read_result M id n)
  | Idle M, WriteRecord id bs =>
      if full M (16 + rec_size (Z.of_nat (length bs))) then stay MFS_ERR_OUT_OF_MEM
      else (Idle (rstep M (id, bs)), (MFS_NO_ERROR, []))
  | Idle M, EraseRecord id =>
      match record_of M id with
      | Some _ => (Idle (rstep M (id, [])), (MFS_NO_ERROR, []))
      | None => stay MFS_ERR_NOT_FOUND
      end
  | Idle M, CollectGarbage => stay MFS_NO_ERROR
  | Idle M, StartTransaction n =>
      if full M (n + n mod 2 + 16) then stay MFS_ERR_OUT_OF_MEM else (Open M [] (n + n mod 2), (MFS_NO_ERROR, []))
  | Idle M, EraseAll => (Idle no_records, (MFS_NO_ERROR, []))
  | Idle _, _ => stay MFS_ERR_INV_STATE
  | Open M P budget, ReadRecord id n => (s, read_result M id n)
  | Open M P budget, WriteRecord id bs =>
      let n := rec_size (Z.of_nat (length bs)) in
      if (16 <=? length P)%nat then stay MFS_ERR_TRANSACTION_NUM
      else if budget <? n then stay MFS_ERR_TRANSACTION_SIZE
      else (Open M (P ++ [(id, bs)]) (budget - n), (MFS_NO_ERROR, []))
  | Open M P budget, EraseRecord id =>
      match record_of M id with
      | Some _ =>
          if (16 <=? length P)%nat then stay MFS_ERR_TRANSACTION_NUM
          else if budget <? 16 then stay MFS_ERR_TRANSACTION_SIZE
          else (Open M (P ++ [(id, [])]) (budget - 16), (MFS_NO_ERROR, []))
      | None => stay MFS_ERR_NOT_FOUND
      end
  | Open M P _, CommitTransaction => (Idle (foldl rstep M P), (MFS_NO_ERROR, []))
  | Open M _ _, RollbackTransaction => (Idle M, (MFS_NO_ERROR, []))
  | Open _ _ _, _ => stay MFS_ERR_INV_STATE
  end.

(** A warning may take the place of success. *)
Definition reported (r r' : mfs_error_t * list Z) : Prop :=
  r' = r \/ r.1 = MFS_NO_ERROR /\ (r'.1 = MFS_WARN_GC \/ r'.1 = MFS_WARN_REPAIR) /\ r'.2 = r.2.

(** *** With failures of power *)

(** Without power, the device holds one of two maps. *)
Inductive astate :=
| On (s : store)
| Off (M1 M2 : records).

Inductive event :=
| Call (c : mfs_call)
| Reboot (buf : list Z).

Definition holds (a : astate) (M : records) : Prop :=
  match a with On s => M = committed s | Off M1 M2 => M = M1 \/ M = M2 end.

Inductive astep (size : Z) : astate -> event -> mfs_error_t * list Z -> astate -> Prop :=
| a_call s c s' r r' : store_do size c s = (s', r) -> reported r r' -> astep size (On s) (Call c) r' (On s')
| a_lose s c s' r bs : store_do size c s = (s', r) ->
    astep size (On s) (Call c) (MFS_ERR_FLASH_FAILURE, bs) (Off (committed s) (committed s'))
| a_boot a M buf r : holds a M -> reported (MFS_NO_ERROR, []) r -> astep size a (Reboot buf) r (On (Idle M))
| a_boot_lose a M buf : holds a M -> astep size a (Reboot buf) (MFS_ERR_FLASH_FAILURE, []) (Off M M).

Inductive asteps (size : Z) : astate -> list event -> list (mfs_error_t * list Z) -> astate -> Prop :=
| as_nil a : asteps size a [] [] a
| as_cons a ev r a' evs rs a'' : astep size a ev r a' -> asteps size a' evs rs a'' -> asteps size a (ev :: evs) (r :: rs) a''.

(** ** The driver *)

Section Store.
Context {F : Type} `{BF : BaseFlash F} `{FL : !FlashLaws F}.
Context (cfg : MFSConfig) (desc : flash_descriptor_t) (pos : mfs_bank_t -> nat -> Z).

#[local] Abbreviation base := (base pos).
#[local] Abbreviation lim := (lim cfg pos).

Definition no_data (p : MFS F mfs_error_t) : MFS F (mfs_error_t * list Z) := e ← p; mret (e, []).

Definition mfs_do (c : mfs_call) : MFS F (mfs_error_t * list Z) :=
  match c with
  | ReadRecord id n => mfsReadRecord id n
  | WriteRecord id bs => no_data (mfsWriteRecord id bs)
  | EraseRecord id => no_data (mfsEraseRecord id)
  | CollectGarbage => no_data mfsPerformGarbageCollection
  | StartTransaction n => no_data (mfsStartTransaction n)
  | CommitTransaction => no_data mfsCommitTransaction
  | RollbackTransaction => no_data mfsRollbackTransaction
  | EraseAll => no_data mfsErase
  end.

(** A reboot: the driver's variables are new, the device has power. *)
Definition sys_do (ev : event) (s : mfs_sys F) : option (mfs_sys F * (mfs_error_t * list Z)) :=
  match ev with
  | Call c => mfs_do c s
  | Reboot buf => no_data (mfsStart cfg) (MfsSys (mfsObjectInit buf) (fl_power_on (s_fl s)))
  end.

Fixpoint sys_run (evs : list event) (s : mfs_sys F) : option (mfs_sys F * list (mfs_error_t * list Z)) :=
  match evs with
  | [] => Some (s, [])
  | ev :: evs => '(s, r) ← sys_do ev s; '(s, rs) ← sys_run evs s; Some (s, r :: rs)
  end.

(** *** What the calls assume

    Arguments in range; no counter near its end; the two last headers' places of the
    bank free before an erasure (see [erase_lost]); one erasure of a record in a
    transaction (see [erased_twice]). *)

Definition bytesb (bs : list Z) : bool := forallb (fun b => (0 <=? b) && (b <? 256)) bs.

Definition call_ok (c : mfs_call) : bool :=
  match c with
  | ReadRecord id n => (1 <=? id) && (id <=? 32) && (0 <? n)
  | WriteRecord id bs => (1 <=? id) && (id <=? 32) && (0 <? length bs)%nat && (Z.of_nat (length bs) <? 2 ^ 31) && bytesb bs
  | EraseRecord id => (1 <=? id) && (id <=? 32)
  | StartTransaction n => (16 <? n) && (n <? 2 ^ 31)
  | _ => true
  end.

Definition counter_ok (m : Z -> Z) (b : mfs_bank_t) : bool :=
  negb (bool_decide (st pos m b = MFS_BANK_OK)) || (bhdr_counter (hdr pos m b) + 1 <? erased_word).

Definition erase_ok (c : mfs_call) (d : MFSDriver) : bool :=
  match c with
  | EraseRecord id =>
      match m_state d with
      | MFS_READY => m_next d + 32 <=? lim (m_bank d)
      | _ => forallb (fun op => negb (op_id op =? id) || (0 <? op_size op)) (m_tr_ops d)
      end
  | _ => true
  end.

Definition event_ok (ev : event) (s : mfs_sys F) : bool :=
  counter_ok (fl_mem (s_fl s)) MFS_BANK_0 && counter_ok (fl_mem (s_fl s)) MFS_BANK_1 &&
  match ev with
  | Call c => fl_on (s_fl s) && call_ok c && erase_ok c (s_drv s)
  | Reboot buf => (32 <=? length buf)%nat
  end.

Fixpoint guarded (evs : list event) (s : mfs_sys F) : bool :=
  match evs with
  | [] => true
  | ev :: evs => event_ok ev s && match sys_do ev s with Some (s, _) => guarded evs s | None => true end
  end.

(** *** The relation *)

Definition mounted (s : store) (d : MFSDriver) (m : Z -> Z) : Prop :=
  match s with
  | Idle M => exists L, live_bank cfg pos d m M L /\ clean cfg pos d m /\ m_state d = MFS_READY
  | Open M P budget => exists L, live_bank cfg pos d m M L /\ pending cfg pos d m M P budget /\ m_state d = MFS_TRANSACTION
  end.

Definition refines (a : astate) (s : mfs_sys F) : Prop :=
  flashGetDescriptor (s_fl s) = desc /\
  match a with
  | On st => fl_on (s_fl s) = true /\ kept cfg (s_drv s) /\ mounted st (s_drv s) (fl_mem (s_fl s))
  | Off M1 M2 => fl_on (s_fl s) = false /\ (disk cfg pos (fl_mem (s_fl s)) M1 \/ disk cfg pos (fl_mem (s_fl s)) M2)
  end.

Context `{G : !Geometry cfg desc pos}.

#[local] Abbreviation wp := (wp cfg desc).
#[local] Abbreviation disk := (disk cfg pos).

Lemma wp_no_data (p : MFS F mfs_error_t) d m Q C :
  wp p d m (fun e d' m' => Q (e, []) d' m') C -> wp (no_data p) d m Q C.
Proof.
  intros H. eapply wp_bind; [propagate|]. eapply wp_mono; [exact H| |auto]. intros e d' m' HQ. apply wp_ret, HQ.
Qed.

(** The calls that the state does not allow. *)
Lemma wp_refused (p : MFS F mfs_error_t) d m (Q : mfs_error_t -> MFSDriver -> (Z -> Z) -> Prop) C :
  (forall fl : F, p (MfsSys d fl) = Some (MfsSys d fl, MFS_ERR_INV_STATE)) -> Q MFS_ERR_INV_STATE d m -> wp p d m Q C.
Proof. intros E HQ Hk fl Hm Hon Hd. exists d, fl, MFS_ERR_INV_STATE. rewrite E, Hon, Hm. auto. Qed.

(** *** The whole device is erased *)

Lemma wp_erase_all d m M L Q C :
  live_bank cfg pos d m M L -> clean cfg pos d m -> m_state d = MFS_READY ->
  (forall m', disk m' M \/ disk m' no_records -> C m') ->
  (forall e d' m' L', e = MFS_NO_ERROR \/ e = MFS_WARN_REPAIR -> live_bank cfg pos d' m' no_records L' -> clean cfg pos d' m' ->
     m_state d' = MFS_READY -> Q e d' m') ->
  wp mfsErase d m Q C.
Proof.
  intros H Hcl Hst HC HQ. pose proof (spare_st cfg desc pos d m M L H) as Hsp. set (b0 := MFS_BANK_0). set (b1 := MFS_BANK_1).
  pose proof (bank_range cfg desc pos b0) as Hb0. pose proof (bank_range cfg desc pos b1) as Hb1.
  pose proof (disjoint cfg desc pos b0) as Hdis. change (other_bank b0) with b1 in Hdis.
  assert (Hd : disk m M) by (apply (clean_disk cfg desc pos d m M L H Hcl)).
  assert (H0 : forall x, base b0 + 16 <= x <= lim b0 -> disk (wipe m (base b0) x) M \/ disk (wipe m (base b0) x) no_records).
  { intros x Hx. set (m' := wipe m (base b0) x).
    assert (E0 : st pos m' b0 = MFS_BANK_ERASED) by (apply erased_st; intros a Ha; apply wipe_in; lia).
    assert (Ha : agree m m' (base b1) (lim b1)) by (apply agree_wipe; lia).
    assert (E1 : st pos m' b1 = st pos m b1) by (apply agree_st, (agree_sub _ _ _ _ _ _ Ha); lia).
    destruct (m_bank d) eqn:Eb; cbn [other_bank] in Hsp.
    - right. apply disk_none. intros [|]; [fold b0; rewrite E0|fold b1; rewrite E1; unfold b1; rewrite Hsp]; discriminate.
    - left. apply (disk_one cfg pos _ _ b1).
      + rewrite E1. rewrite <- (lb_ok _ _ _ _ _ _ H), Eb. reflexivity.
      + apply (agree_bank_log cfg pos m _ b1 _ Ha). apply Hd. rewrite <- (lb_ok _ _ _ _ _ _ H), Eb. reflexivity.
      + cbn [other_bank b1]. fold b0. rewrite E0. discriminate. }
  unfold mfsErase. apply wp_drv. rewrite Hst, bool_decide_eq_true_2 by reflexivity. cbn [negb].
  apply wp_error; [reflexivity|]. apply (wp_erase cfg desc pos); [apply HC; auto|intros x Hx; apply HC, H0, Hx|].
  split; [reflexivity|]. set (m1 := wipe m (base b0) (lim b0)).
  assert (Hn : forall x, base b1 + 16 <= x <= lim b1 -> forall b, st pos (wipe m1 (base b1) x) b <> MFS_BANK_OK).
  { intros x Hx b. rewrite erased_st; [discriminate|]. intros a Ha. destruct b; fold b0 b1 in Ha.
    - rewrite wipe_out by lia. apply wipe_in. lia.
    - apply wipe_in. lia. }
  apply wp_error; [reflexivity|]. apply (wp_erase cfg desc pos).
  - apply HC, H0. fold b0. lia.
  - intros x Hx. apply HC. right. apply disk_none, Hn, Hx.
  - split; [reflexivity|]. apply (wp_mount cfg desc pos d _ no_records).
    + apply disk_none, Hn. fold b1. lia.
    + intros b Hb. destruct (Hn (lim b1) ltac:(lia) b Hb).
    + intros m' Hm'. apply HC. right. exact Hm'.
    + exact HQ.
Qed.

(** *** One call *)

Lemma entry_ok_of id bs : call_ok (WriteRecord id bs) = true -> entry_ok (id, bs) /\ bs <> [].
Proof.
  intros H. cbn [call_ok] in H. apply andb_prop in H as [H Hb]. apply andb_prop in H as [H Hl]. apply andb_prop in H as [H Hn].
  apply andb_prop in H as [H1 H2]. apply Z.leb_le in H1, H2. apply Z.ltb_lt in Hl. apply Nat.ltb_lt in Hn.
  split; [|destruct bs; [cbn in Hn; lia|discriminate]]. split_and!; cbn; try assumption.
  apply Forall_forall. intros b Hin. unfold bytesb in Hb. rewrite forallb_forall in Hb. apply list_elem_of_In in Hin. specialize (Hb b Hin).
  apply andb_prop in Hb as [A1 A2]. apply Z.leb_le in A1. apply Z.ltb_lt in A2. split; assumption.
Qed.

Lemma record_of_some M id bs : record_of M id = Some bs <-> M !! Z.to_nat (id - 1) = Some (Some bs).
Proof. unfold record_of. destruct (M !! Z.to_nat (id - 1)) as [[x|]|]; cbn; naive_solver. Qed.

Lemma record_of_lookup M id : record_of M id = None <-> M !! Z.to_nat (id - 1) = Some None \/ M !! Z.to_nat (id - 1) = None.
Proof. unfold record_of. destruct (M !! Z.to_nat (id - 1)) as [[x|]|]; cbn; naive_solver. Qed.

Lemma wp_read s id n d m C :
  mounted s d m -> call_ok (ReadRecord id n) = true ->
  wp (mfsReadRecord id n) d m (fun r d' m' => r = read_result (committed s) id n /\ mounted s d' m') C.
Proof.
  intros Hm Hok. cbn in Hok. apply andb_prop in Hok as [Hok Hn]. apply andb_prop in Hok as [H1 H2].
  apply Z.leb_le in H1, H2. apply Z.ltb_lt in Hn.
  assert (H : exists L, live_bank cfg pos d m (committed s) L /\ (m_state d = MFS_READY \/ m_state d = MFS_TRANSACTION)).
  { destruct s as [M|M P b]; destruct Hm as (L & Hl & _ & Hst); exists L; auto. }
  assert (Hb : forall buf, mounted s (with_ncbuf buf d) m).
  { intros buf. destruct s as [M|M P b]; destruct Hm as (L' & A1 & A2 & A3); exists L'.
    - split; [apply live_ncbuf, A1|]. split; [exact A2|exact A3].
    - split; [apply live_ncbuf, A1|]. split; [destruct A2; constructor; assumption|exact A3]. }
  destruct H as (L & Hl & Hst). apply (wp_read_record cfg desc pos) with (M := committed s) (L := L); try assumption; try lia; unfold read_result.
  - intros E. rewrite (proj2 (record_of_lookup _ _) (or_introl E)). auto.
  - intros bs E Hlt. rewrite (proj2 (record_of_some _ _ _) E), (proj2 (Z.ltb_lt n _)) by exact Hlt. auto.
  - intros bs buf E Hle. rewrite (proj2 (record_of_some _ _ _) E), (proj2 (Z.ltb_ge n _)) by exact Hle. auto.
Qed.

Lemma present_after id P : forall o M,
  1 <= id -> Forall entry_ok P -> M !! Z.to_nat (id - 1) <> Some None ->
  forallb (fun op => negb (op_id op =? id) || (0 <? op_size op)) (ops_at o P) = true ->
  foldl rstep M P !! Z.to_nat (id - 1) <> Some None.
Proof.
  induction P as [|e P IH]; intros o M Hid HP HM Hf; [exact HM|]. apply Forall_cons in HP as [(He & _) HP].
  cbn [ops_at forallb op_id op_size] in Hf. apply andb_prop in Hf as [He1 Hf]. cbn [foldl]. apply (IH (o + esize e)); try assumption.
  unfold rstep. destruct (decide (e.1 = id)) as [Eid|Hne].
  - rewrite Eid, list_lookup_insert. case_decide; [|exact HM]. rewrite Eid, Z.eqb_refl in He1. cbn in He1.
    apply Z.ltb_lt in He1. destruct e.2; [cbn in He1; lia|discriminate].
  - rewrite list_lookup_insert_ne by lia. exact HM.
Qed.

(** What holds after a call, and after a failure in it. *)
Definition sim_post (s' : store) (r : mfs_error_t * list Z) (r' : mfs_error_t * list Z) (d' : MFSDriver) (m' : Z -> Z) : Prop :=
  reported r r' /\ mounted s' d' m'.

Definition sim_crash (s s' : store) (m' : Z -> Z) : Prop := disk m' (committed s) \/ disk m' (committed s').

Lemma record_absent d m M L id :
  live_bank cfg pos d m M L -> record_of M id = None -> 1 <= id <= 32 -> M !! Z.to_nat (id - 1) = Some None.
Proof.
  intros Hl Er Hid. apply record_of_lookup in Er as [Er|Er]; [exact Er|].
  destruct (records_lookup M id (live_ok_records _ _ _ _ _ _ Hl)) as [o Eo]; [exact Hid|congruence].
Qed.

Lemma sim_idle M c d m :
  mounted (Idle M) d m -> call_ok c = true -> erase_ok c d = true -> counters pos m ->
  let '(s', r) := store_do (cfg_bank_size cfg) c (Idle M) in wp (mfs_do c) d m (sim_post s' r) (sim_crash (Idle M) s').
Proof.
  intros Hm Hok Her Hc. pose proof Hm as (L & Hl & Hcl & Hst).
  assert (Hstay : forall e, sim_post (Idle M) (e, []) (e, []) d m) by (intros e; split; [left; reflexivity|exact Hm]).
  assert (Hnew : forall M' e d' m' L', e = MFS_NO_ERROR \/ e = MFS_WARN_GC \/ e = MFS_WARN_REPAIR -> live_bank cfg pos d' m' M' L' ->
            clean cfg pos d' m' -> m_state d' = MFS_READY -> sim_post (Idle M') (MFS_NO_ERROR, []) (e, []) d' m').
  { intros M' e d' m' L' He A1 A2 A3. split; [|exists L'; auto]. destruct He as [-> | [-> | ->]]; [left; reflexivity|right..]; cbn; auto. }
  destruct c as [id n|id bs|id| |n| | |]; cbn [store_do mfs_do].
  - eapply wp_mono; [apply (wp_read (Idle M) id n d m _ Hm Hok)| |intros m' H'; exact H'].
    intros r d' m' [-> A]. split; [left; reflexivity|exact A].
  - destruct (entry_ok_of id bs Hok) as [He Hne].
    destruct (_ <? _) eqn:Ef; apply wp_no_data; (apply (wp_write_ready cfg desc pos id bs d m M L); try assumption; [intros m' Hn H'; try exact H'; unfold no_space in Hn; change (esize (id, bs)) with (rec_size (Z.of_nat (length bs))) in Hn; congruence| |]);
      unfold no_space; change (esize (id, bs)) with (rec_size (Z.of_nat (length bs))); try congruence; [auto|].
    intros e d' m' L' _ He' A1 A2 A3. apply (Hnew _ e d' m' L'); auto. tauto.
  - cbn in Hok. apply andb_prop in Hok as [H1 H2]. apply Z.leb_le in H1, H2. cbn in Her. rewrite Hst in Her. apply Z.leb_le in Her.
    destruct (record_of M id) as [bs|] eqn:Er; apply wp_no_data;
      (apply (wp_erase_ready cfg desc pos id d m M L); try assumption; [lia| | | |]).
    + intros m' _ H'. exact H'.
    + apply record_of_some in Er. congruence.
    + auto.
    + intros d' m' L' _ A1 A2 A3. apply (Hnew _ _ d' m' L'); auto.
    + intros m' Hn _. destruct (Hn (record_absent d m M L id Hl Er ltac:(lia))).
    + auto.
    + auto.
    + intros d' m' L' Hn _ _ _. destruct (Hn (record_absent d m M L id Hl Er ltac:(lia))).
  - apply wp_no_data. apply wp_drv. rewrite Hst, bool_decide_eq_true_2 by reflexivity. cbn [negb]. apply wp_bytes. intros Hby.
    apply (wp_gc cfg desc pos d m M L); try assumption.
    + apply (clean_disk cfg desc pos d m M L Hl Hcl).
    + rewrite <- (lb_counter _ _ _ _ _ _ Hl). pose proof (counter_nonneg pos m (m_bank d) Hby). split; [lia|]. apply Hc, Hl.
    + intros m' Hd'. left. exact Hd'.
    + intros d' m' A1 A2 A3. apply (Hnew _ _ d' m' (live M)); auto. congruence.
  - cbn in Hok. apply andb_prop in Hok as [H1 H2]. apply Z.ltb_lt in H1, H2.
    destruct (_ <? _) eqn:Ef; apply wp_no_data; (apply (wp_start cfg desc pos n d m M L); try assumption; [lia|intros m' H'; left; exact H'| |]);
      unfold no_space; try congruence; [auto|].
    intros d' m' L' _ A1 A2 A3. split; [left; reflexivity|]. exists L'. auto.
  - apply wp_no_data. apply wp_refused; [|apply Hstay]. intros fl. unfold mfsCommitTransaction, drv, mbind, mfs_bind. cbn. rewrite Hst. reflexivity.
  - apply wp_no_data. apply wp_refused; [|apply Hstay]. intros fl. unfold mfsRollbackTransaction, drv, mbind, mfs_bind. cbn. rewrite Hst. reflexivity.
  - apply wp_no_data. apply (wp_erase_all d m M L); try assumption; [intros m' H'; exact H'|].
    intros e d' m' L' He A1 A2 A3. apply (Hnew _ e d' m' L'); auto. tauto.
Qed.

Lemma sim_open M P budget c d m :
  mounted (Open M P budget) d m -> call_ok c = true -> erase_ok c d = true -> counters pos m ->
  let '(s', r) := store_do (cfg_bank_size cfg) c (Open M P budget) in
  wp (mfs_do c) d m (sim_post s' r) (sim_crash (Open M P budget) s').
Proof.
  intros Hm Hok Her Hc. pose proof Hm as (L & Hl & HP & Hst).
  assert (Hstay : forall e, sim_post (Open M P budget) (e, []) (e, []) d m) by (intros e; split; [left; reflexivity|exact Hm]).
  assert (Hmore : forall e P' b d' m', live_bank cfg pos d' m' M L -> pending cfg pos d' m' M P' b -> m_state d' = MFS_TRANSACTION ->
            sim_post (Open M P' b) (e, []) (e, []) d' m').
  { intros e P' b d' m' A1 A2 A3. split; [left; reflexivity|]. exists L. auto. }
  assert (Hnew : forall M' d' m' L', live_bank cfg pos d' m' M' L' -> clean cfg pos d' m' -> m_state d' = MFS_READY ->
            sim_post (Idle M') (MFS_NO_ERROR, []) (MFS_NO_ERROR, []) d' m').
  { intros M' d' m' L' A1 A2 A3. split; [left; reflexivity|]. exists L'. auto. }
  destruct c as [id n|id bs|id| |n| | |]; cbn [store_do mfs_do].
  - eapply wp_mono; [apply (wp_read (Open M P budget) id n d m _ Hm Hok)| |intros m' H'; exact H'].
    intros r d' m' [-> A]. split; [left; reflexivity|exact A].
  - destruct (entry_ok_of id bs Hok) as [He Hne]. change (rec_size (Z.of_nat (length bs))) with (esize (id, bs)).
    destruct (16 <=? length P)%nat eqn:E16; [apply Nat.leb_le in E16|apply Nat.leb_gt in E16; destruct (budget <? esize (id, bs)) eqn:Eb;
      [apply Z.ltb_lt in Eb|apply Z.ltb_ge in Eb]]; apply wp_no_data;
      (apply (wp_write_pending cfg desc pos id bs d m M L P budget); try assumption; [intros m' H'; left; exact H'| | |]); auto; try lia.
    all: intros; exfalso; lia.
  - cbn in Hok. apply andb_prop in Hok as [H1 H2]. apply Z.leb_le in H1, H2. cbn in Her. rewrite Hst, (pd_ops _ _ _ _ _ _ _ HP) in Her.
    assert (Hpres : M !! Z.to_nat (id - 1) <> Some None -> foldl rstep M P !! Z.to_nat (id - 1) <> Some None).
    { intros Hn. apply (present_after id P (m_next d)); try assumption. apply HP. }
    destruct (record_of M id) as [bs|] eqn:Er; [apply record_of_some in Er; destruct (16 <=? length P)%nat eqn:E16;
      [apply Nat.leb_le in E16|apply Nat.leb_gt in E16; destruct (budget <? 16) eqn:Eb; [apply Z.ltb_lt in Eb|apply Z.ltb_ge in Eb]]|]; apply wp_no_data;
      (apply (wp_erase_pending cfg desc pos id d m M L P budget); try assumption; [lia|intros m' H'; left; exact H'|..]); auto; try congruence.
    all: intros; exfalso; try lia.
    all: pose proof (record_absent d m M L id Hl Er ltac:(lia)); congruence.
  - apply wp_no_data. apply wp_refused; [|apply Hstay]. intros fl. unfold mfsPerformGarbageCollection, drv, mbind, mfs_bind. cbn. rewrite Hst. reflexivity.
  - cbn in Hok. apply andb_prop in Hok as [H1 H2]. apply wp_no_data. apply wp_refused; [|apply Hstay]. intros fl.
    unfold mfsStartTransaction, drv, assert, lift, mbind, mfs_bind. change ALIGNED_DHDR_SIZE with 16. rewrite H1. cbn. rewrite Hst. reflexivity.
  - apply wp_no_data. apply (wp_commit cfg desc pos d m M L P budget); try assumption; [intros m' H'; exact H'|].
    intros d' m' A1 A2 A3. apply (Hnew _ d' m' (L ++ P)); assumption.
  - apply wp_no_data. apply (wp_rollback cfg desc pos d m M L P budget); try assumption; [intros m' H'; left; exact H'|].
    intros d' m' L' A1 A2 A3. apply (Hnew _ d' m' L'); assumption.
  - apply wp_no_data. apply wp_refused; [|apply Hstay]. intros fl. unfold mfsErase, drv, mbind, mfs_bind. cbn. rewrite Hst. reflexivity.
Qed.

(** *** Events and runs *)

Lemma counters_of m : counter_ok m MFS_BANK_0 = true -> counter_ok m MFS_BANK_1 = true -> counters pos m.
Proof.
  intros H0 H1 b Hb. assert (H : counter_ok m b = true) by (destruct b; assumption). unfold counter_ok in H.
  rewrite bool_decide_eq_true_2 in H by exact Hb. apply Z.ltb_lt in H. exact H.
Qed.

Lemma step_call s c (x : mfs_sys F) :
  refines (On s) x -> event_ok (Call c) x = true ->
  exists x' r a', sys_do (Call c) x = Some (x', r) /\ astep (cfg_bank_size cfg) (On s) (Call c) r a' /\ refines a' x'.
Proof.
  destruct x as [d fl]. unfold refines. cbn [s_drv s_fl]. intros (Hd & Hon & Hk & Hm) Hok. unfold event_ok in Hok. cbn [s_drv s_fl] in Hok.
  apply andb_prop in Hok as [Hc Hok]. apply andb_prop in Hc as [Hc0 Hc1]. apply andb_prop in Hok as [Hok Her]. apply andb_prop in Hok as [_ Hok].
  pose proof (counters_of _ Hc0 Hc1) as Hc.
  assert (H : let '(s', r) := store_do (cfg_bank_size cfg) c s in wp (mfs_do c) d (fl_mem fl) (sim_post s' r) (sim_crash s s')).
  { destruct s as [M|M P b]; [apply sim_idle|apply sim_open]; assumption. }
  destruct (store_do (cfg_bank_size cfg) c s) as [s' r] eqn:Es.
  destruct (H Hk fl eq_refl Hon Hd) as (d' & fl' & r' & E & Hk' & Hd' & H'). exists (MfsSys d' fl'), r'.
  destruct (fl_on fl') eqn:Eon.
  - destruct H' as [Hr Hm']. exists (On s'). split; [exact E|]. split; [apply (a_call _ s c s' r r' Es Hr)|].
    unfold refines; cbn [s_drv s_fl]; split_and!; assumption.
  - destruct H' as [HC Hf]. exists (Off (committed s) (committed s')). split; [exact E|]. split.
    + destruct r' as [e bs]. change (e = MFS_ERR_FLASH_FAILURE) in Hf. subst e. apply (a_lose _ s c s' r bs Es).
    + unfold refines; cbn [s_drv s_fl]; split_and!; assumption.
Qed.

Lemma mounted_disk s d m : bytes_of m -> mounted s d m -> disk m (committed s).
Proof.
  intros Hby. destruct s as [M|M P b]; intros (L & Hl & Hm & _); cbn [committed].
  - apply (clean_disk cfg desc pos d m M L Hl Hm).
  - apply (pending_disk_now cfg desc pos d m M L P b Hl Hm Hby).
Qed.

Lemma start_mounts buf (fl : F) :
  mfsStart cfg (MfsSys (mfsObjectInit buf) fl) = mfs_mount (MfsSys (with_config (Some cfg) (mfsObjectInit buf)) fl).
Proof. unfold mfsStart, drv, assert, lift, modify, mbind, mfs_bind. reflexivity. Qed.

Lemma boot_mounts buf d (fl : F) :
  sys_do (Reboot buf) (MfsSys d fl) = no_data mfs_mount (MfsSys (with_config (Some cfg) (mfsObjectInit buf)) (fl_power_on fl)).
Proof. unfold sys_do, no_data, mbind, mfs_bind. cbn [s_fl]. rewrite start_mounts. reflexivity. Qed.

#[local] Opaque mfs_mount.

Lemma step_boot a buf (x : mfs_sys F) :
  refines a x -> event_ok (Reboot buf) x = true ->
  exists x' r a', sys_do (Reboot buf) x = Some (x', r) /\ astep (cfg_bank_size cfg) a (Reboot buf) r a' /\ refines a' x'.
Proof.
  destruct x as [d fl]. intros Ha Hok. unfold event_ok in Hok. cbn [s_drv s_fl] in Hok.
  apply andb_prop in Hok as [Hc Hbuf]. apply andb_prop in Hc as [Hc0 Hc1]. apply Nat.leb_le in Hbuf. pose proof (counters_of _ Hc0 Hc1) as Hc.
  assert (HM : exists M, holds a M /\ disk (fl_mem fl) M).
  { destruct a as [s|M1 M2]; destruct Ha as [_ Ha]; cbn [s_drv s_fl] in Ha.
    - exists (committed s). split; [reflexivity|]. apply (mounted_disk s d); [intros a; apply byte_law|apply Ha].
    - destruct Ha as [_ [Ha|Ha]]; [exists M1|exists M2]; cbn; auto. }
  destruct HM as (M & Hh & Hdisk). assert (Hd : flashGetDescriptor fl = desc) by apply Ha.
  destruct (power_law fl) as (P1 & P2 & P3). apply same_eq in P2. set (fl0 := fl_power_on fl) in *.
  set (d0 := with_config (Some cfg) (mfsObjectInit buf)).
  assert (H : wp (no_data mfs_mount) d0 (fl_mem fl)
    (fun r d' m' => reported (MFS_NO_ERROR, []) r /\ mounted (Idle M) d' m') (fun m' => disk m' M)).
  { apply wp_no_data. apply (wp_mount cfg desc pos d0 _ M); try assumption; [auto|]. intros e d' m' L He A1 A2 A3. split; [|exists L; auto].
    destruct He as [-> | ->]; [left; reflexivity|right; cbn; auto]. }
  destruct (H ltac:(split; [reflexivity|exact Hbuf]) fl0 P2 P1 ltac:(congruence)) as (d' & fl' & r & E & Hk' & Hd' & H').
  unfold fl0, d0 in E. rewrite <- (boot_mounts buf d) in E. exists (MfsSys d' fl'), r.
  destruct (fl_on fl') eqn:Eon.
  - destruct H' as [Hr Hm']. exists (On (Idle M)). split; [exact E|]. split; [apply (a_boot _ a M buf r Hh Hr)|].
    unfold refines; cbn [s_drv s_fl]; split_and!; assumption.
  - destruct H' as [HC Hf]. exists (Off M M). split; [exact E|]. split; [|unfold refines; cbn [s_drv s_fl]; auto].
    assert (Er : r = (MFS_ERR_FLASH_FAILURE, [])); [|rewrite Er; apply a_boot_lose, Hh].
    rewrite boot_mounts in E. unfold no_data, mbind, mfs_bind in E.
    destruct (mfs_mount _) as [[x e]|]; [|discriminate]. injection E as _ <-.
    change (e = MFS_ERR_FLASH_FAILURE) in Hf. subst e. reflexivity.
Qed.

Lemma step_event a ev (x : mfs_sys F) :
  refines a x -> event_ok ev x = true ->
  exists x' r a', sys_do ev x = Some (x', r) /\ astep (cfg_bank_size cfg) a ev r a' /\ refines a' x'.
Proof.
  intros Ha Hok. destruct ev as [c|buf]; [|apply step_boot; assumption]. destruct a as [s|M1 M2]; [apply step_call; assumption|].
  unfold event_ok in Hok. destruct Ha as (_ & Hoff & _). rewrite Hoff in Hok. cbn [andb] in Hok. rewrite andb_false_r in Hok. discriminate.
Qed.

(** C4: in a run whose calls are [guarded], and wherever the power fails in it, in a
    call or in the mount after a reboot, the driver does what the store does: every
    call ends, its result is the store's, and after a failure a reboot finds the
    records of before the call or of after it.

    [guarded] leaves out the calls after which the code loses records ([erase_ok]:
    [mfsEraseRecord] when only the last header place of the bank is left, see
    [erase_lost], and a record erased twice in one transaction, see
    [erased_twice]), and a change of banks once the counter of changes has come to
    its end.  The device is one that keeps to [FlashLaws]: an interrupted program
    operation has written a prefix of its bytes, in the order of the addresses, and
    an interrupted erasure has erased its sector or left it alone. *)
Theorem mfs_power_safe (evs : list event) (a : astate) (x : mfs_sys F) :
  refines a x -> guarded evs x = true ->
  exists x' rs a', sys_run evs x = Some (x', rs) /\ asteps (cfg_bank_size cfg) a evs rs a' /\ refines a' x'.
Proof.
  revert a x. induction evs as [|ev evs IH]; intros a x Ha Hg; cbn [sys_run guarded] in *.
  - exists x, [], a. split; [reflexivity|]. split; [constructor|exact Ha].
  - apply andb_prop in Hg as [Hok Hg]. destruct (step_event a ev x Ha Hok) as (x1 & r & a1 & E & Hs & Ha1). rewrite E in Hg |- *.
    destruct (IH a1 x1 Ha1 Hg) as (x2 & rs & a2 & E2 & Hss & Ha2). cbn. rewrite E2. exists x2, (r :: rs), a2.
    split; [reflexivity|]. split; [apply (as_cons _ _ _ _ _ _ _ _ Hs Hss)|exact Ha2].
Qed.

End Store.
