(* ===== verification/MfsNor.v ===== *)
(** * A store on a small device (hal_mfs.c)

    [nor] with two banks of two sectors of 64 bytes: the hypotheses of
    [mfs_power_safe] hold there, and the two cases that they leave out show. *)

From stdpp Require Import gmap.
From S2P Require Import Prelude CInt Words Crc16 Flash Mfs MfsLog MfsWp MfsBank MfsDisk MfsGc MfsScan MfsMount MfsOps MfsTrans MfsStore.
#[local] Open Scope Z_scope.
#[local] Existing Instances mfs_ret mfs_bind.

Definition small_desc : flash_descriptor_t := FlashDesc 4 None 64 0 256.
Definition small_cfg : MFSConfig := Config erased_word 128 0 2 2 2.
Definition small_pos (b : mfs_bank_t) (i : nat) : Z :=
  match b with MFS_BANK_0 => 0 | MFS_BANK_1 => 128 end + 64 * Z.of_nat i.

(** Erased, and without power; [fuels]: what the device can do each time it has. *)
Definition fresh (fuels : list nat) : mfs_sys nor :=
  MfsSys (mfsObjectInit (replicate 32 0)) (Nor small_desc ∅ false None false fuels).

Lemma small_count b : bank_count small_cfg b = 2%nat.
Proof. destruct b; reflexivity. Qed.

#[export] Instance small_geometry : Geometry small_cfg small_desc small_pos.
Proof.
  split; intros; rewrite ?small_count in *; unfold small_pos, small_cfg, small_desc; cbn [cfg_bank_size fd_size];
    try reflexivity; try lia; try (destruct b; cbn; lia).
  assert (Hi : i = 0%nat \/ i = 1%nat) by lia. destruct b, Hi as [-> | ->]; split_and!; try reflexivity; cbn; lia.
Qed.

Lemma fresh_off fuels : refines small_cfg small_desc small_pos (Off no_records no_records) (fresh fuels).
Proof.
  split; [reflexivity|]. split; [reflexivity|]. left. apply disk_none. intros b. rewrite erased_st; [discriminate|].
  intros a _. reflexivity.
Qed.

Definition new_buf : list Z := replicate 32 0.

(** The power fails in the second write, and in the mount that follows. *)
Definition story : list event :=
  [Reboot new_buf; Call (WriteRecord 1 [1; 2; 3]); Call (WriteRecord 1 [4; 5; 6]);
   Reboot new_buf; Reboot new_buf; Call (ReadRecord 1 8)].

Lemma mfs_power_safe_witness :
  guarded small_cfg small_pos story (fresh [50; 1]%nat) = true /\
  exists x rs a, sys_run small_cfg story (fresh [50; 1]%nat) = Some (x, rs) /\
    asteps 128 (Off no_records no_records) story rs a /\ refines small_cfg small_desc small_pos a x.
Proof.
  split; [vm_compute; reflexivity|].
  apply (mfs_power_safe small_cfg small_desc small_pos story (Off no_records no_records)); [apply fresh_off|vm_compute; reflexivity].
Defined.

(** ** What the guards leave out *)

(** An erase marker in the last place of the bank is not seen by the next mount: the
    record is back. *)
Definition lost_erasure : list event :=
  [Reboot new_buf; Call (WriteRecord 5 [1; 2; 3]); Call (WriteRecord 7 (replicate 60 7)); Call (EraseRecord 5);
   Call (ReadRecord 5 8); Reboot new_buf; Call (ReadRecord 5 8)].

Example erase_lost :
  option_map snd (sys_run small_cfg lost_erasure (fresh [])) =
  Some [(MFS_NO_ERROR, []); (MFS_NO_ERROR, []); (MFS_NO_ERROR, []); (MFS_NO_ERROR, []);
        (MFS_ERR_NOT_FOUND, []); (MFS_NO_ERROR, []); (MFS_NO_ERROR, [1; 2; 3])].
Proof. vm_compute. reflexivity. Qed.

(** A record that one transaction erases twice is subtracted twice from the space in
    use; when it has happened often enough, a record is written beyond its bank, and the
    next mount loses it. *)
Definition double_erasure : list event :=
  [Call (WriteRecord 1 [1]); Call (StartTransaction 32); Call (EraseRecord 1); Call (EraseRecord 1); Call CommitTransaction].

Definition beyond_bank : list event :=
  Reboot new_buf :: double_erasure ++ double_erasure ++ double_erasure ++
  [Call (WriteRecord 2 (replicate 40 7)); Call (WriteRecord 3 (replicate 48 7)); Call (ReadRecord 3 99);
   Reboot new_buf; Call (ReadRecord 3 99)].

Example erased_twice :
  option_map (fun p => m_used (s_drv p.1)) (sys_run small_cfg (Reboot new_buf :: double_erasure) (fresh [])) = Some 0 /\
  option_map (fun p => drop 17 p.2) (sys_run small_cfg beyond_bank (fresh [])) =
  Some [(MFS_WARN_GC, []); (MFS_NO_ERROR, replicate 48 7); (MFS_WARN_REPAIR, []); (MFS_ERR_NOT_FOUND, [])].
Proof. split; vm_compute; reflexivity. Qed.

(** The verification of what was written from the start of the buffer reads the device
    into the same place and finds no difference, whatever it delivers. *)
Lemma verify_from_buffer {F} `{BF : BaseFlash F} off n d (fl fl' : F) bs :
  0 < n <= 32 -> n <= Z.of_nat (length (m_ncbuf d)) -> flashRead off n fl = (fl', (FLASH_NO_ERROR, bs)) -> Z.of_nat (length bs) = n ->
  exists d', verify_write (S (Z.to_nat n)) off n (Ncbuf 0) 0 (MfsSys d fl) = Some (MfsSys d' fl', MFS_NO_ERROR).
Proof.
  intros Hn Hb Er Hl. cbn [verify_write]. rewrite (proj2 (Z.ltb_lt 0 n)) by lia. unfold MFS_CFG_BUFFER_SIZE.
  rewrite (proj2 (Z.leb_le n 32)), Z.sub_diag by lia. eexists.
  unfold RET_ON_ERROR, ret_on_error, mfs_flash_read_ncbuf, mfs_flash_read, drv, assert, lift, dev, modify, flash_status, mbind, mfs_bind.
  cbn [s_drv s_fl]. rewrite (proj2 (Z.leb_le _ _)) by lia. cbn [check s_drv s_fl]. rewrite Er. rewrite decide_True by reflexivity.
  cbn [mret mfs_ret s_drv s_fl]. rewrite decide_True by reflexivity.
  set (d1 := with_ncbuf (set_bytes 0 bs (m_ncbuf d)) d).
  assert (E1 : m_ncbuf d1 = bs ++ drop (length bs) (m_ncbuf d)) by reflexivity.
  rewrite (source_buf 0 0 n d1 fl') by (rewrite E1, length_app, length_drop; lia).
  rewrite !drop_0. rewrite bool_decide_eq_true_2 by reflexivity. cbn [negb].
  replace (Z.to_nat n) with (S (Z.to_nat n - 1))%nat by lia. reflexivity.
Qed.
