(* ===== verification/Bufstreams.v ===== *)
(** * Buffered streams (hal_streams.h, bufstreams.c, memstreams.c, nullstreams.c)

    The whole method tables of ChibiOS's stream classes: [BaseSequentialStream] adds
    the reading methods to [SeqStream], [BaseBufferedStream] the method that takes a
    byte back.  The memory stream, the null stream and the adapter of bufstreams.c
    implement them; [TextSource] is what a reader of text relies on, and the first and
    the last keep it. *)

From S2P Require Import Prelude CInt CLib Streams.

(** ** Interfaces *)

Definition STM_RESET : Z := MSG_RESET.

(** A write takes the caller's memory and the number of bytes; a read delivers its
    memory as it is then and the number of bytes. *)
Class BaseSequentialStream (S : Type) := {
  seq_put :: SeqStream S;
  streamWrite : S -> list Z -> Z -> option (S * Z);
  streamRead : S -> list Z -> Z -> option (S * list Z * Z);
  streamGet : S -> option (S * Z)
}.

Class BaseBufferedStream (S : Type) := {
  buf_seq :: BaseSequentialStream S;
  streamUnget : S -> Z -> option (S * Z)
}.

(** ** Implementations *)

#[export] Instance memory_seq : BaseSequentialStream MemoryStream :=
  { streamWrite := ms_writes; streamRead := ms_reads; streamGet := ms_get }.
#[export] Instance memory_buffered : BaseBufferedStream MemoryStream := { streamUnget := ms_unget }.

Definition null_writes (s : NullStream) (bp : list Z) (n : Z) : option (NullStream * Z) := Some (s, n).
Definition null_reads (s : NullStream) (bp : list Z) (n : Z) : option (NullStream * list Z * Z) := Some (s, bp, 0).
Definition null_get (s : NullStream) : option (NullStream * Z) := Some (s, 4).
Definition null_unget (s : NullStream) (b : Z) : option (NullStream * Z) := Some (s, MSG_OK).

#[export] Instance null_seq : BaseSequentialStream NullStream :=
  { streamWrite := null_writes; streamRead := null_reads; streamGet := null_get }.
#[export] Instance null_buffered : BaseBufferedStream NullStream := { streamUnget := null_unget }.

(** *** bufstreams.c *)

Definition BUFSTREAM_BUFFER_SIZE : Z := 1.

Record BufferedStreamAdapter (S : Type) := MkAdapter {
  bsa_bssp : S;
  bsa_buffer : list Z;
  bsa_ndx : Z
}.
Arguments MkAdapter {S}.
Arguments bsa_bssp {S}.
Arguments bsa_buffer {S}.
Arguments bsa_ndx {S}.

Section Adapter.
Context {S : Type} `{BaseSequentialStream S}.

Definition bsaObjectInit (bssp : S) : BufferedStreamAdapter S :=
  MkAdapter bssp (replicate (Z.to_nat BUFSTREAM_BUFFER_SIZE) (u8 STM_RESET)) BUFSTREAM_BUFFER_SIZE.

Definition bsa_writes (a : BufferedStreamAdapter S) (bp : list Z) (n : Z) : option (BufferedStreamAdapter S * Z) :=
  '(s, r) ← streamWrite (bsa_bssp a) bp n; Some (MkAdapter s (bsa_buffer a) (bsa_ndx a), r).

(** The bytes taken back, then those of the stream. *)
Definition bsa_reads (a : BufferedStreamAdapter S) (bp : list Z) (n : Z)
  : option (BufferedStreamAdapter S * list Z * Z) :=
  let room := u32 (BUFSTREAM_BUFFER_SIZE - bsa_ndx a) in
  let buffered := if n <? room then n else room in
  bp ← memcpy bp 0 (at_off (bsa_buffer a) (u32 (BUFSTREAM_BUFFER_SIZE - buffered))) buffered;
  '(s, rest, r) ← streamRead (bsa_bssp a) (at_off bp buffered) (u32 (n - buffered));
  Some (MkAdapter s (bsa_buffer a) (u32 (bsa_ndx a + buffered)), take (Z.to_nat buffered) bp ++ rest, u32 (buffered + r)).

Definition bsa_put (a : BufferedStreamAdapter S) (b : Z) : option (BufferedStreamAdapter S * Z) :=
  '(s, r) ← streamPut (bsa_bssp a) b; Some (MkAdapter s (bsa_buffer a) (bsa_ndx a), r).

Definition bsa_get (a : BufferedStreamAdapter S) : option (BufferedStreamAdapter S * Z) :=
  if bsa_ndx a =? BUFSTREAM_BUFFER_SIZE then
    '(s, r) ← streamGet (bsa_bssp a); Some (MkAdapter s (bsa_buffer a) (bsa_ndx a), r)
  else
    b ← rd (bsa_buffer a) (bsa_ndx a);
    Some (MkAdapter (bsa_bssp a) (bsa_buffer a) (u32 (bsa_ndx a + 1)), b).

(** The byte whose value is that of the end of file is not taken back. *)
Definition bsa_unget (a : BufferedStreamAdapter S) (b : Z) : option (BufferedStreamAdapter S * Z) :=
  if (i8 b =? STM_RESET) || (bsa_ndx a =? 0) then Some (a, STM_RESET)
  else
    let ndx := u32 (bsa_ndx a - 1) in
    buffer ← wr (bsa_buffer a) ndx b;
    Some (MkAdapter (bsa_bssp a) buffer ndx, b).

#[export] Instance adapter_put : SeqStream (BufferedStreamAdapter S) := { streamPut := bsa_put }.
#[export] Instance adapter_seq : BaseSequentialStream (BufferedStreamAdapter S) :=
  { streamWrite := bsa_writes; streamRead := bsa_reads; streamGet := bsa_get }.
#[export] Instance adapter_buffered : BaseBufferedStream (BufferedStreamAdapter S) := { streamUnget := bsa_unget }.

End Adapter.

(** ** Sources of text

    [src_text s l]: the bytes [l] are left; [src_back s l]: the same, and a byte can be
    taken back.  After the bytes comes the end of file, again and again. *)

Class TextSource (S : Type) `{BaseBufferedStream S} := {
  src_text : S -> list Z -> Prop;
  src_back : S -> list Z -> Prop;
  src_back_text s l : src_back s l -> src_text s l;
  src_get s b l : src_text s (b :: l) -> 0 <= b < 128 -> exists s', streamGet s = Some (s', b) /\ src_back s' l;
  src_end s : src_text s [] -> exists s', streamGet s = Some (s', STM_RESET) /\ src_text s' [];
  src_unget s b l : src_back s l -> 0 <= b < 128 -> exists s' r, streamUnget s b = Some (s', r) /\ src_text s' (b :: l);
  src_unget_end s l : src_text s l -> exists s' r, streamUnget s (u8 STM_RESET) = Some (s', r)
}.

Lemma ms_unget_spec m b l :
  ms_ok m -> ms_content m = l -> 0 < ms_offset m -> 0 <= b < 256 ->
  exists m', ms_unget m b = Some (m', MSG_OK) /\ ms_ok m' /\ ms_content m' = b :: l.
Proof.
  intros (Ho & He & Hs & Hl) Hc Hpos Hb. unfold ms_unget. rewrite (proj2 (Z.leb_gt _ _)) by lia.
  rewrite u32_id by lia. rewrite wr_defined by lia. cbn [mbind option_bind]. rewrite u8_id by exact Hb.
  eexists. split; [reflexivity|]. split; [unfold ms_ok; cbn; rewrite length_insert; lia|].
  subst l. unfold ms_content. cbn. rewrite take_insert_lt by lia.
  rewrite (drop_S _ b) by (apply list_lookup_insert_eq; rewrite length_take; lia).
  f_equal. rewrite drop_insert_lt by lia. f_equal. lia.
Qed.

Lemma ms_get_step m b l :
  ms_ok m -> ms_content m = b :: l ->
  exists m', ms_get m = Some (m', b) /\ ms_ok m' /\ ms_content m' = l /\ 0 < ms_offset m'.
Proof.
  intros Hok Hc. destruct (ms_get_cons m b l Hok Hc) as (m' & E & Hok' & Hc'). exists m'. split_and!; try assumption.
  pose proof (ms_content_length m Hok) as Hl. rewrite Hc in Hl. cbn in Hl. destruct Hok as (Ho & He & Hs & _).
  unfold ms_get in E. rewrite u32_id, (proj2 (Z.leb_gt _ _)) in E by lia. inv_bind. subst. cbn. rewrite u32_id; lia.
Qed.

#[export] Instance memory_source : TextSource MemoryStream.
Proof.
  refine {| src_text := fun m l => ms_ok m /\ ms_content m = l;
            src_back := fun m l => (ms_ok m /\ ms_content m = l) /\ 0 < ms_offset m |}.
  - intros s l [Hs _]. exact Hs.
  - intros s b l [Hok Hc] _. destruct (ms_get_step s b l Hok Hc) as (m' & E & Hok' & Hc' & Hp). exists m'. auto.
  - intros s [Hok Hc]. exists s. split; [|auto]. pose proof (ms_content_length s Hok) as Hl. rewrite Hc in Hl. cbn in Hl.
    destruct Hok as (Ho & He & Hs & _). cbn. unfold ms_get. rewrite u32_id, (proj2 (Z.leb_le _ _)) by lia. reflexivity.
  - intros s b l [[Hok Hc] Hp] Hb. destruct (ms_unget_spec s b l Hok Hc Hp ltac:(lia)) as (m' & E & Hok' & Hc'). exists m', MSG_OK. auto.
  - intros s l [Hok Hc]. destruct (Z_lt_le_dec 0 (ms_offset s)) as [Hp|Hz].
    + destruct (ms_unget_spec s (u8 STM_RESET) l Hok Hc Hp) as (m' & E & _); [apply u8_range|]. exists m', MSG_OK. exact E.
    + exists s, MSG_RESET. cbn. unfold ms_unget. rewrite (proj2 (Z.leb_le _ _)) by lia. reflexivity.
Defined.

(** The adapter over any sequential stream that delivers a text. *)
Section AdapterSource.
Context {S : Type} `{BaseSequentialStream S}.
Context (text : S -> list Z -> Prop).
Context (text_get : forall s b l, text s (b :: l) -> 0 <= b < 128 -> exists s', streamGet s = Some (s', b) /\ text s' l).
Context (text_end : forall s, text s [] -> exists s', streamGet s = Some (s', STM_RESET) /\ text s' []).

Definition bsa_holds (a : BufferedStreamAdapter S) (l : list Z) : Prop :=
  text (bsa_bssp a) l /\ length (bsa_buffer a) = 1%nat /\ bsa_ndx a = 1 \/
  exists b l', l = b :: l' /\ 0 <= b < 128 /\ text (bsa_bssp a) l' /\ bsa_buffer a = [b] /\ bsa_ndx a = 0.

Lemma bsaObjectInit_holds s l : text s l -> bsa_holds (bsaObjectInit s) l.
Proof. intros Hs. left. auto. Qed.

Lemma bsa_unget_refused (a : BufferedStreamAdapter S) : bsa_unget a (u8 STM_RESET) = Some (a, STM_RESET).
Proof. reflexivity. Qed.

#[export] Instance adapter_source : TextSource (BufferedStreamAdapter S).
Proof.
  refine {| src_text := bsa_holds;
            src_back := fun a l => text (bsa_bssp a) l /\ length (bsa_buffer a) = 1%nat /\ bsa_ndx a = 1 |}.
  - intros a l Ha. left. exact Ha.
  - intros [s buf ndx] b l [(Ht & Hl & Hn) | (b' & l' & [= <- <-] & Hb' & Ht & Hl & Hn)] Hb; cbn in *; subst.
    + destruct (text_get s b l Ht Hb) as (s' & E & Ht'). exists (MkAdapter s' buf 1). unfold bsa_get. cbn. rewrite E. auto.
    + exists (MkAdapter s [b] 1). auto.
  - intros [s buf ndx] [(Ht & Hl & Hn) | (b' & l' & [=] & _)]; cbn in *; subst.
    destruct (text_end s Ht) as (s' & E & Ht'). exists (MkAdapter s' buf 1). unfold bsa_get. cbn. rewrite E. cbn. split; [reflexivity|].
    left. auto.
  - intros [s buf ndx] b l (Ht & Hl & Hn) Hb; cbn in *; subst. unfold bsa_unget. cbn [bsa_ndx bsa_buffer bsa_bssp].
    rewrite (proj2 (Z.eqb_neq (i8 b) STM_RESET)) by (rewrite i8_id by lia; unfold STM_RESET, MSG_RESET; lia).
    cbn [orb]. destruct buf as [|x [|y buf]]; try discriminate. exists (MkAdapter s [b] 0), b. split; [reflexivity|].
    right. exists b, l. auto.
  - intros a l _. exists a, STM_RESET. reflexivity.
Defined.

End AdapterSource.

(** With a larger buffer the adapter would read the wrong bytes: it copies the last
    bytes of the buffer, not those at its index.  With one place they are the same. *)
Lemma bsa_reads_back {S} `{BaseSequentialStream S} (s : S) b bp n :
  0 < n < 2 ^ 32 -> n <= Z.of_nat (length bp) ->
  bsa_reads (MkAdapter s [b] 0) bp n =
  '(s', rest, r) ← streamRead s (tail bp) (n - 1); Some (MkAdapter s' [b] 1, b :: rest, u32 (1 + r)).
Proof.
  intros Hn Hl. unfold bsa_reads. cbn [bsa_ndx bsa_buffer bsa_bssp]. change (u32 (BUFSTREAM_BUFFER_SIZE - 0)) with 1.
  rewrite (proj2 (Z.ltb_ge n 1)) by lia. change (at_off [b] (u32 (BUFSTREAM_BUFFER_SIZE - 1))) with [b].
  destruct bp as [|x bp]; [cbn in Hl; lia|]. unfold memcpy. cbn [length]. rewrite (proj2 (Z.leb_le (0 + 1) _)) by (cbn in Hl; lia).
  rewrite (u32_id (n - 1)) by lia. reflexivity.
Qed.
