(* ===== verification/Scanf.v ===== *)
(** * Formatted input (os/hal/lib/streams/chscanf.c)

    [chvscanf] as it is built by default, without floating point, over any buffered
    stream.  The variables of the function are the record [scan]; a program on it may
    return from the function at any point.  The loops that consume characters of the
    stream run with fuel, since a stream may never end; the theorems give the number
    that is enough for a text.  The main result: what [chvprintf] prints for a list of
    integers, [chvscanf] reads back with the same format. *)

From S2P Require Import Prelude CInt CFloat CLib Streams Chprintf Bufstreams.

(** ** The characters *)

(** [isspace] of a message: undefined but for bytes and [EOF]. *)
Definition isspace (c : Z) : option bool :=
  _ ← check ((-1 <=? c) && (c <=? 255)); Some (is_space c).

Definition isupper (f : Z) : bool := (65 <=? f) && (f <=? 90).
Definition tolower (sym : Z) : Z := if isupper sym then sym + 32 else sym.

Definition sym_to_val (sym base : Z) : Z :=
  let sym := tolower sym in
  if (sym <=? 55) && (48 <=? sym) then sym - 48
  else if (base =? 16) && (sym <=? 102) && (97 <=? sym) then sym - 97 + 10
  else if (base =? 16) || (base =? 10) then
    if sym =? 56 then 8 else if sym =? 57 then 9 else -1
  else -1.

(** ** The variables *)

(** What a pointer of the argument list points to: nothing, an int or long of either
    sign, or an array of characters. *)
Inductive sarg :=
| SNull
| SWord (z : Z)
| SChars (mem : list Z).

Section Scanf.
Context {S : Type} `{BaseBufferedStream S}.

(** [sn_buf] is the pointer of the directive at work, absent when its assignment is
    suppressed; [sn_done] are those before it, [sn_args] those not taken yet. *)
Record scan := Scan {
  sn_st : S;
  sn_c : Z;
  sn_f : Z;
  sn_fmt : list Z;
  sn_n : Z;
  sn_width : Z;
  sn_done : list sarg;
  sn_buf : option sarg;
  sn_args : list sarg
}.

(** A program on the variables; without a value the function has returned [sn_n]. *)
Definition SC (A : Type) : Type := scan -> option (scan * option A).

#[local] Instance sc_ret : MRet SC := fun A a v => Some (v, Some a).
#[local] Instance sc_bind : MBind SC := fun A B k m v =>
  match m v with
  | Some (v, Some a) => k a v
  | Some (v, None) => Some (v, None)
  | None => None
  end.

Definition vars : SC scan := fun v => Some (v, Some v).
Definition sc_lift {A} (o : option A) : SC A := fun v => match o with Some a => Some (v, Some a) | None => None end.
Definition sc_return {A} : SC A := fun v => Some (v, None).
Definition set_vars (f : scan -> scan) : SC unit := fun v => Some (f v, Some tt).

Definition sc_with_c st c v := Scan st c (sn_f v) (sn_fmt v) (sn_n v) (sn_width v) (sn_done v) (sn_buf v) (sn_args v).
Definition sc_with_f f fmt v := Scan (sn_st v) (sn_c v) f fmt (sn_n v) (sn_width v) (sn_done v) (sn_buf v) (sn_args v).
Definition sc_with_n n v := Scan (sn_st v) (sn_c v) (sn_f v) (sn_fmt v) n (sn_width v) (sn_done v) (sn_buf v) (sn_args v).
Definition sc_with_width w v := Scan (sn_st v) (sn_c v) (sn_f v) (sn_fmt v) (sn_n v) w (sn_done v) (sn_buf v) (sn_args v).
Definition sc_with_args done buf args v := Scan (sn_st v) (sn_c v) (sn_f v) (sn_fmt v) (sn_n v) (sn_width v) done buf args.

(** [c = streamGet(chp)], [f = *fmt++], [++n]. *)
Definition get_c : SC unit := v ← vars; '(st, c) ← sc_lift (streamGet (sn_st v)); set_vars (sc_with_c st c).
Definition next_f : SC unit := v ← vars; '(f, fmt) ← sc_lift (next_char (sn_fmt v)); set_vars (sc_with_f f fmt).
Definition count : SC unit := set_vars (fun v => sc_with_n (sn_n v + 1) v).

(** [streamUnget(chp, c); return n]. *)
Definition sc_end {A} : SC A :=
  v ← vars; '(st, _) ← sc_lift (streamUnget (sn_st v) (u8 (sn_c v))); set_vars (sc_with_c st (sn_c v));; sc_return.

(** [--width == 0]. *)
Definition width_ends : SC bool :=
  v ← vars;
  sc_lift (check (- 2 ^ 31 <? sn_width v));;
  set_vars (sc_with_width (sn_width v - 1));;
  mret (sn_width v - 1 =? 0).

(** ** Directives *)

(** [while (isspace(c)) c = streamGet(chp)]. *)
Fixpoint skip_spaces (fuel : nat) : SC unit :=
  match fuel with
  | O => sc_lift None
  | Datatypes.S fuel => v ← vars; b ← sc_lift (isspace (sn_c v)); if (b : bool) then get_c;; skip_spaces fuel else mret tt
  end.

(** The same in the conversion [s], where the end of the stream ends the function. *)
Fixpoint skip_spaces_or_end (fuel : nat) : SC unit :=
  match fuel with
  | O => sc_lift None
  | Datatypes.S fuel =>
      v ← vars;
      b ← sc_lift (isspace (sn_c v));
      if (b : bool) then
        get_c;; v ← vars;
        if sn_c v =? STM_RESET then sc_return else skip_spaces_or_end fuel
      else mret tt
  end.

(** The digits of a width. *)
Fixpoint scan_width (fuel : nat) (width : Z) : SC Z :=
  match fuel with
  | O => sc_lift None
  | Datatypes.S fuel =>
      v ← vars;
      if is_digit (sn_f v) then
        let width := width * 10 + (sn_f v - 48) in
        sc_lift (check (in_s 32 width));; next_f;; scan_width fuel width
      else mret width
  end.

(** A character through the current pointer. *)
Definition store_char (i c : Z) : SC unit :=
  v ← vars;
  match sn_buf v with
  | None | Some SNull => mret tt
  | Some (SChars mem) => mem ← sc_lift (wr mem i (u8 c)); set_vars (fun v => sc_with_args (sn_done v) (Some (SChars mem)) (sn_args v) v)
  | Some (SWord _) => sc_lift None
  end.

(** A number through the current pointer. *)
Definition store_word (z : Z) : SC unit :=
  v ← vars;
  match sn_buf v with
  | None | Some SNull => mret tt
  | Some (SWord _) => set_vars (fun v => sc_with_args (sn_done v) (Some (SWord z)) (sn_args v) v)
  | Some (SChars _) => sc_lift None
  end.

Fixpoint scan_chars (k : nat) (i : Z) : SC unit :=
  match k with
  | O => mret tt
  | Datatypes.S k =>
      v ← vars; store_char i (sn_c v);;
      get_c;; v ← vars;
      if sn_c v =? STM_RESET then sc_return else scan_chars k (i + 1)
  end.

Fixpoint scan_string (k : nat) (i : Z) : SC unit :=
  match k with
  | O => mret tt
  | Datatypes.S k =>
      v ← vars;
      b ← sc_lift (isspace (sn_c v));
      if (b : bool) then store_char i 0
      else
        store_char i (sn_c v);;
        get_c;; v ← vars;
        if sn_c v =? STM_RESET then sc_return else scan_string k (i + 1)
  end.

(** The sign: whether the number is positive. *)
Definition scan_sign : SC bool :=
  v ← vars;
  if sn_c v =? 43 then z ← width_ends; if (z : bool) then sc_return else get_c;; mret true
  else if sn_c v =? 45 then z ← width_ends; if (z : bool) then sc_return else get_c;; mret false
  else mret true.

Definition is_x (c : Z) : bool := (c =? 120) || (c =? 88).

(** The prefixes of the conversions [x] and [i]; the latter gives the base. *)
Definition hex_prefix : SC unit :=
  v ← vars;
  if sn_c v =? 48 then
    z ← width_ends;
    if (z : bool) then count;; sc_return
    else
      get_c;; v ← vars;
      if is_x (sn_c v) then z ← width_ends; if (z : bool) then sc_return else get_c else mret tt
  else mret tt.

Definition base_prefix : SC Z :=
  v ← vars;
  if sn_c v =? 48 then
    z ← width_ends;
    if (z : bool) then count;; sc_return
    else
      get_c;; v ← vars;
      if is_x (sn_c v) then z ← width_ends; if (z : bool) then sc_return else get_c;; mret 16 else mret 8
  else mret 10.

(** [while (width--)]: the value of the digits. *)
Fixpoint scan_digits (fuel : nat) (base vall : Z) : SC Z :=
  match fuel with
  | O => sc_lift None
  | Datatypes.S fuel =>
      v ← vars;
      if sn_width v =? 0 then mret vall
      else
        width_ends;;
        let digit := sym_to_val (u8 (sn_c v)) base in
        if digit =? -1 then mret vall
        else
          let vall := vall * base + digit in
          sc_lift (check (in_s 32 vall));; get_c;; scan_digits fuel base vall
  end.

(** The part common to all integers. *)
Definition scan_number (fuel : nat) (positive signed : bool) (base : Z) : SC unit :=
  v ← vars;
  if sym_to_val (u8 (sn_c v)) base =? -1 then sc_end
  else
    vall ← scan_digits fuel base 0;
    let vall := if positive then vall else -1 * vall in
    store_word (if signed then vall else u32 vall);;
    next_f;; count.

(** The conversions of the [switch]. *)
Inductive scan_kind := ScChar | ScStr | ScInt | ScDec | ScHex | ScUns | ScOct | ScOther.

Definition scan_kind_of (f : Z) : scan_kind :=
  if is_conv "c" f then ScChar
  else if is_conv "s" f then ScStr
  else if is_conv "iI" f then ScInt
  else if is_conv "dD" f then ScDec
  else if is_conv "XxPp" f then ScHex
  else if is_conv "Uu" f then ScUns
  else if is_conv "Oo" f then ScOct
  else ScOther.

Definition scan_convert (fuel : nat) : SC unit :=
  v ← vars;
  let width := sn_width v in
  match scan_kind_of (sn_f v) with
  | ScChar =>
      let width := if width =? 0 then 1 else width in
      scan_chars (Z.to_nat width) 0;; count;; next_f
  | ScStr =>
      skip_spaces_or_end fuel;;
      let width := if width =? 0 then -1 else width in
      scan_string (Z.to_nat width) 0;;
      (if negb (width =? -1) then store_char width 0 else mret tt);;
      count;; next_f
  | ScInt => skip_spaces fuel;; p ← scan_sign; base ← base_prefix; scan_number fuel p true base
  | ScDec => skip_spaces fuel;; p ← scan_sign; scan_number fuel p true 10
  | ScHex => skip_spaces fuel;; p ← scan_sign; hex_prefix;; scan_number fuel p false 16
  | ScUns => skip_spaces fuel;; p ← scan_sign; scan_number fuel p false 10
  | ScOct => skip_spaces fuel;; p ← scan_sign; scan_number fuel p false 8
  | ScOther => sc_end
  end.

(** The pointer taken from the arguments, the width and the length modifier, which
    matters only for the type written: [int] and [long] are the same here. *)
Definition scan_directive (fuel : nat) : SC unit :=
  v ← vars;
  (if sn_f v =? 42 then set_vars (sc_with_args (sn_done v) None (sn_args v));; next_f
   else match sn_args v with
        | [] => sc_lift None
        | a :: args => set_vars (sc_with_args (sn_done v) (Some a) args)
        end);;
  width ← scan_width (length (sn_fmt v) + 1) 0;
  set_vars (sc_with_width (if width =? 0 then -1 else width));;
  v ← vars;
  (if (sn_f v =? 108) || (sn_f v =? 76) then next_f else mret tt);;
  scan_convert fuel;;
  set_vars (fun v => sc_with_args (sn_done v ++ option_list (sn_buf v)) None (sn_args v) v).

(** ** The function *)

(** A character of the format that must match. *)
Definition scan_literal : SC unit :=
  v ← vars; if negb (sn_f v =? sn_c v) then sc_end else get_c;; next_f.

Definition scan_turn (fuel : nat) : SC unit :=
  v ← vars;
  if is_space (sn_f v) then skip_spaces fuel;; next_f
  else if negb (sn_f v =? 37) then scan_literal
  else next_f;; v ← vars; if sn_f v =? 37 then scan_literal else scan_directive fuel.

Fixpoint scan_loop (k fuel : nat) : SC unit :=
  match k with
  | O => sc_lift None
  | Datatypes.S k =>
      v ← vars;
      if (sn_c v =? STM_RESET) || (sn_f v =? 0) then sc_end else scan_turn fuel;; scan_loop k fuel
  end.

(** The stream, the result, and what the pointers point to then. *)
Definition chvscanf (fuel : nat) (st : S) (fmt : list Z) (args : list sarg) : option (S * Z * list sarg) :=
  '(f, fmt') ← next_char fmt;
  if f =? 0 then Some (st, 0, args)
  else
    '(st, c) ← streamGet st;
    '(v, _) ← scan_loop (length fmt) fuel (Scan st c f fmt' 0 0 [] None args);
    Some (sn_st v, sn_n v, sn_done v ++ option_list (sn_buf v) ++ sn_args v).

End Scanf.
Arguments scan : clear implicits.
Arguments SC : clear implicits.

Definition chvsnscanf (fuel : nat) (str : list Z) (size : Z) (fmt : list Z) (args : list sarg) : option (Z * list sarg) :=
  let size_wo_nul := if 0 <? size then size - 1 else 0 in
  '(_, n, args) ← chvscanf fuel (msObjectInit str size_wo_nul 0) fmt args; Some (n, args).

(** A memory stream that holds a text. *)
Definition ms_of (text : list Z) : MemoryStream := msObjectInit text (Z.of_nat (length text)) (Z.of_nat (length text)).

Example chvscanf_example :
  (fun p => (p.1.2, p.2)) <$> chvscanf 40 (ms_of (bytes " -17,ff  0x1A:abc 7")) (fmt_of "%d,%x %i:%3s %2d")
    [SWord 0; SWord 0; SWord 0; SChars (replicate 4 1); SWord 0]
  = Some (5, [SWord (-17); SWord 255; SWord 26; SChars [97; 98; 99; 0]; SWord 7]).
Proof. vm_compute. reflexivity. Qed.

(** ** What is not read

    The flaws of the function, on texts of memory streams. *)

Definition scanned (fuel : nat) (text : list Z) (fmt : string) (args : list sarg) : option (Z * list sarg) :=
  (fun p => (p.1.2, p.2)) <$> chvscanf fuel (ms_of text) (fmt_of fmt) args.

(** The memory stream of [chsnscanf] ends where it begins: nothing is ever read. *)
Theorem chsnscanf_reads_nothing (fuel : nat) (str : list Z) (size f : Z) (fmt : list Z) (args : list sarg) :
  f <> 0 -> chvsnscanf fuel str size (f :: fmt) args = Some (0, args).
Proof.
  intros Hf. unfold chvsnscanf, chvscanf, next_char. cbn [mbind option_bind]. rewrite (proj2 (Z.eqb_neq f 0)) by exact Hf.
  reflexivity.
Qed.

Lemma chsnscanf_reads_nothing_witness : chvsnscanf 9 (fmt_of "12") 3 (fmt_of "%d") [SWord 0] = Some (0, [SWord 0]).
Proof. apply (chsnscanf_reads_nothing 9 (fmt_of "12") 3 37 [100; 0] [SWord 0]). discriminate. Defined.

(** Without a width the conversions [c] and [s] store nothing and count. *)
Example scan_char_nothing : scanned 9 (bytes "xyz") "%c%s" [SChars [1; 1; 1; 1]; SChars [1; 1; 1; 1]] = Some (2, [SChars [1; 1; 1; 1]; SChars [1; 1; 1; 1]]).
Proof. reflexivity. Qed.

(** A zero is taken for the start of a prefix, and not a number when none follows; with
    a width of one it is counted but not stored. *)
Example scan_hex_zero :
  scanned 9 (bytes "0 ") "%x" [SWord 7] = Some (0, [SWord 7]) /\ scanned 9 (bytes "0 ") "%1x" [SWord 7] = Some (1, [SWord 7]).
Proof. split; reflexivity. Qed.

(** Unsigned numbers are summed up in a signed [long]. *)
Example scan_unsigned_overflow :
  scanned 20 (bytes "2147483647 ") "%u" [SWord 7] = Some (1, [SWord 2147483647]) /\ scanned 20 (bytes "2147483648 ") "%u" [SWord 7] = None.
Proof. split; vm_compute; reflexivity. Qed.

(** At the end of the text the character that is not there is put back: the memory
    stream then holds another byte. *)
Example scan_end_put_back :
  (fun p => ms_buffer p.1.1) <$> chvscanf 9 (ms_of (bytes "12")) (fmt_of "%d") [SWord 0] = Some [49; 254].
Proof. reflexivity. Qed.

(** A character at the end of the stream is stored but not counted. *)
Example scan_last_char : scanned 9 (bytes "x") "%1c" [SChars [1]] = Some (0, [SChars [120]]).
Proof. reflexivity. Qed.
