(* ===== verification/ScanText.v ===== *)
(** * Reading back what was printed (chscanf.c, chprintf.c)

    [chvscanf] on a source of text: each piece of the function by what it consumes,
    and the round trip of a list of integers through [chvprintf] and [chvscanf] with
    one format. *)

From S2P Require Import Prelude CInt CFloat CLib Streams Chprintf Bufstreams Scanf.
#[local] Existing Instances sc_ret sc_bind.

Section Text.
Context {S : Type} `{TS : TextSource S}.

Definition ascii_byte (b : Z) : Prop := 0 <= b < 128.

(** The character in [c] and those behind it in the stream are [l]. *)
Definition ahead (st : S) (c : Z) (l : list Z) : Prop :=
  match l with
  | [] => c = STM_RESET /\ src_text st []
  | b :: l => c = b /\ ascii_byte b /\ src_back st l
  end.

Lemma get_ahead st l : src_text st l -> Forall ascii_byte l -> exists st' c, streamGet st = Some (st', c) /\ ahead st' c l.
Proof.
  intros Hs Hl. destruct l as [|b l].
  - destruct (src_end st Hs) as (st' & E & Hs'). exists st', STM_RESET. split; [exact E|]. split; [reflexivity|exact Hs'].
  - apply Forall_cons in Hl as [Hb _]. destruct (src_get st b l Hs Hb) as (st' & E & Hs'). exists st', b. split; [exact E|].
    split_and!; auto.
Qed.

Lemma ahead_tail st b c l : ahead st c (b :: l) -> src_text st l.
Proof. intros (_ & _ & Hs). apply src_back_text, Hs. Qed.

Lemma get_c_ahead v b l :
  ahead (sn_st v) (sn_c v) (b :: l) -> Forall ascii_byte l ->
  exists st c, get_c v = Some (sc_with_c st c v, Some tt) /\ ahead st c l.
Proof.
  intros Ha Hl. destruct (get_ahead (sn_st v) l (ahead_tail _ _ _ _ Ha) Hl) as (st & c & E & Ha').
  exists st, c. split; [|exact Ha']. unfold get_c, vars, sc_lift, set_vars, mbind, sc_bind. rewrite E. reflexivity.
Qed.

(** The character is put back. *)
Lemma unget_ahead st c l : ahead st c l -> exists st' r, streamUnget st (u8 c) = Some (st', r) /\ (l <> [] -> src_text st' l).
Proof.
  destruct l as [|b l]; intros Ha.
  - destruct Ha as [-> Hs]. destruct (src_unget_end st [] Hs) as (st' & r & E). exists st', r. split; [exact E|congruence].
  - destruct Ha as (-> & Hb & Hs). unfold ascii_byte in Hb. rewrite u8_id by lia.
    destruct (src_unget st b l Hs Hb) as (st' & r & E & Hs'). exists st', r. auto.
Qed.

(** ** Digits *)

Lemma sym_to_val_digit b : is_digit b = true -> sym_to_val b 10 = b - 48.
Proof.
  unfold is_digit, sym_to_val, tolower, isupper. intros Hb. bools.
  rewrite (proj2 (Z.leb_gt 65 b)) by lia. cbn [andb]. destruct (Z.leb_spec b 55); [rewrite (proj2 (Z.leb_le 48 b)) by lia; reflexivity|].
  assert (Hc : b = 56 \/ b = 57) by lia. destruct Hc as [-> | ->]; reflexivity.
Qed.

Lemma sym_to_val_other b : ascii_byte b -> is_digit b = false -> sym_to_val b 10 = -1.
Proof.
  unfold ascii_byte, is_digit, sym_to_val. intros Hb Hd. change (10 =? 16) with false. change (10 =? 10) with true. cbn [orb andb].
  assert (Hr : b < 48 \/ 57 < b) by (destruct (Z.leb_spec 48 b), (Z.leb_spec b 57); cbn in Hd; try discriminate; lia).
  set (s := tolower b). assert (Hs : s < 48 \/ 57 < s) by (unfold s, tolower, isupper; case_bool; lia).
  rewrite (proj2 (Z.eqb_neq s 56)), (proj2 (Z.eqb_neq s 57)) by lia.
  destruct (Z.leb_spec s 55), (Z.leb_spec 48 s); cbn [andb]; try reflexivity. lia.
Qed.

(** The text ends, or goes on with something that is not a digit. *)
Definition no_digit (l : list Z) : Prop := match l with [] => True | b :: _ => is_digit b = false end.

Lemma ahead_no_digit st c l : ahead st c l -> no_digit l -> sym_to_val (u8 c) 10 = -1.
Proof.
  destruct l as [|b l]; cbn; [intros [-> _] _; reflexivity|]. intros (-> & Hb & _) Hd.
  unfold ascii_byte in Hb. rewrite u8_id by lia. apply sym_to_val_other; [exact Hb|exact Hd].
Qed.

Lemma width_ends_spec (v : scan S) : - 2 ^ 31 < sn_width v -> width_ends v = Some (sc_with_width (sn_width v - 1) v, Some (sn_width v - 1 =? 0)).
Proof.
  intros Hw. unfold width_ends, vars, sc_lift, set_vars, mbind, sc_bind. rewrite check_true by (apply Z.ltb_lt; exact Hw). reflexivity.
Qed.

(** Along the digits only the stream, the character and the width change. *)
Definition moved_to (st : S) (c w : Z) (v : scan S) : scan S := sc_with_width w (sc_with_c st c v).

Lemma scan_digits_spec ds : forall fuel v vall rest,
  ahead (sn_st v) (sn_c v) (ds ++ rest) -> Forall ascii_byte rest -> no_digit rest -> Forall (fun b => is_digit b = true) ds ->
  (length ds < fuel)%nat -> - 2 ^ 31 + Z.of_nat (length ds) < sn_width v < 0 -> 0 <= vall -> digits_value vall ds < 2 ^ 31 ->
  exists st c w, scan_digits fuel 10 vall v = Some (moved_to st c w v, Some (digits_value vall ds)) /\ ahead st c rest.
Proof.
  induction ds as [|b ds IH]; intros fuel v vall rest Ha Hr Hn Hd Hf Hw Hv Hmax; (destruct fuel as [|fuel]; [cbn in Hf; lia|]).
  - cbn [app] in Ha. exists (sn_st v), (sn_c v), (sn_width v - 1). split; [|exact Ha].
    cbn [scan_digits]. unfold vars at 1. cbn [mbind sc_bind]. unfold mbind, sc_bind. rewrite (proj2 (Z.eqb_neq (sn_width v) 0)) by lia.
    rewrite width_ends_spec by (cbn in Hw; lia). cbn [sn_c sc_with_width]. rewrite (ahead_no_digit _ _ _ Ha Hn). destruct v; reflexivity.
  - apply Forall_cons in Hd as [Hb Hd]. cbn [app] in Ha. cbn [length] in Hf, Hw.
    assert (Hl : Forall ascii_byte (ds ++ rest)).
    { apply Forall_app. split; [|exact Hr]. eapply Forall_impl; [exact Hd|]. intros x Hx. unfold is_digit in Hx. bools. unfold ascii_byte. lia. }
    assert (Hbr : 48 <= b <= 57) by (unfold is_digit in Hb; bools; lia).
    assert (Hmono : forall l a, 0 <= a -> Forall (fun x => is_digit x = true) l -> a <= digits_value a l).
    { clear. induction l as [|x l IH]; intros a Ha Hl; cbn; [lia|]. apply Forall_cons in Hl as [Hx Hl].
      unfold is_digit in Hx. bools. specialize (IH (a * 10 + (x - 48)) ltac:(lia) Hl). lia. }
    cbn [digits_value] in Hmax. pose proof (Hmono ds (vall * 10 + (b - 48)) ltac:(lia) Hd) as Hle.
    destruct (get_c_ahead (sc_with_width (sn_width v - 1) v) b (ds ++ rest) Ha Hl) as (st1 & c1 & E1 & Ha1).
    destruct (IH fuel (sc_with_c st1 c1 (sc_with_width (sn_width v - 1) v)) (vall * 10 + (b - 48)) rest Ha1 Hr Hn Hd ltac:(lia)
      ltac:(cbn; lia) ltac:(lia) Hmax) as (st & c & w & E & Ha2).
    exists st, c, w. split; [|exact Ha2]. cbn [scan_digits digits_value].
    unfold vars at 1. unfold mbind at 1, sc_bind at 1. rewrite (proj2 (Z.eqb_neq (sn_width v) 0)) by lia.
    unfold mbind at 1, sc_bind at 1. rewrite width_ends_spec by lia. destruct Ha as (Hc & _ & _). rewrite Hc, u8_id by lia.
    rewrite sym_to_val_digit by exact Hb. rewrite (proj2 (Z.eqb_neq (b - 48) (-1))) by lia.
    unfold mbind at 1, sc_bind at 1, sc_lift at 1. rewrite check_true by (unfold in_s; apply andb_true_intro; rewrite Z.leb_le, Z.ltb_lt; lia).
    unfold mbind at 1, sc_bind at 1. rewrite E1, E. destruct v; reflexivity.
Qed.

(** ** One number *)

Lemma sc_bind_eq {A B} (m : SC S A) (k : A -> SC S B) v v' a : m v = Some (v', Some a) -> (m ≫= k) v = k a v'.
Proof. intros E. unfold mbind, sc_bind. rewrite E. reflexivity. Qed.

Lemma sc_bind_return {A B} (m : SC S A) (k : A -> SC S B) v v' : m v = Some (v', None) -> (m ≫= k) v = Some (v', None).
Proof. intros E. unfold mbind, sc_bind. rewrite E. reflexivity. Qed.

Lemma signed_text_parts z : - 2 ^ 31 < z < 2 ^ 31 ->
  exists ds, signed_text false z = (if z <? 0 then [45] else []) ++ ds /\ Forall (fun b => is_digit b = true) ds /\
    (1 <= length ds <= 10)%nat /\ digits_value 0 ds = Z.abs z.
Proof.
  intros Hz. unfold signed_text. cbv zeta. rewrite i32_id by lia. exists (ltoa_digits 32 (Z.abs z) (Z.abs z) 10). split_and!.
  - unfold sign_text. destruct (z <? 0); reflexivity.
  - apply ltoa_digits_decimal.
  - apply (ltoa_digits_length 10 32 10); [lia| |lia]. change (10 ^ Z.of_nat 10) with 10000000000. lia.
  - apply (ltoa_digits_length 10 32 10); [lia| |lia]. change (10 ^ Z.of_nat 10) with 10000000000. lia.
  - apply ltoa_digits_value. change (Z.of_nat 32) with 32.
    assert (10 ^ 10 <= 10 ^ 32) by (apply Z.pow_le_mono_r; lia). change (10 ^ 10) with 10000000000 in *. lia.
Qed.

Lemma digits_ascii ds : Forall (fun b => is_digit b = true) ds -> Forall ascii_byte ds.
Proof. intros Hd. eapply Forall_impl; [exact Hd|]. intros x Hx. unfold is_digit in Hx. bools. unfold ascii_byte. lia. Qed.

(** The sign of a number, and no sign. *)
Lemma scan_sign_spec z ds v rest :
  ahead (sn_st v) (sn_c v) ((if z <? 0 then [45] else []) ++ ds ++ rest) -> Forall ascii_byte (ds ++ rest) ->
  Forall (fun b => is_digit b = true) ds -> (1 <= length ds)%nat -> - 2 ^ 30 < sn_width v < 0 ->
  exists st c w, scan_sign v = Some (moved_to st c w v, Some (negb (z <? 0))) /\ ahead st c (ds ++ rest) /\ sn_width v - 1 <= w < 0.
Proof.
  intros Ha Hl Hd Hn Hw. unfold scan_sign. rewrite (sc_bind_eq _ _ v v v) by reflexivity. destruct (z <? 0).
  - destruct Ha as (Hc & Ha). rewrite Hc. cbn [Z.eqb Pos.eqb]. rewrite (sc_bind_eq _ _ _ _ _ (width_ends_spec v ltac:(lia))).
    rewrite (proj2 (Z.eqb_neq (sn_width v - 1) 0)) by lia.
    destruct (get_c_ahead (sc_with_width (sn_width v - 1) v) 45 (ds ++ rest)) as (st & c & E & Ha'); [|exact Hl|].
    { cbn [sn_st sn_c sc_with_width]. rewrite Hc. split; [reflexivity|exact Ha]. }
    rewrite (sc_bind_eq _ _ _ _ _ E). exists st, c, (sn_width v - 1). split; [destruct v; reflexivity|]. split; [exact Ha'|lia].
  - exists (sn_st v), (sn_c v), (sn_width v). split; [|split; [exact Ha|lia]]. destruct ds as [|b ds]; [cbn in Hn; lia|].
    apply Forall_cons in Hd as [Hb _]. unfold is_digit in Hb. bools. destruct Ha as (Hc & _).
    rewrite !(proj2 (Z.eqb_neq (sn_c v) _)) by lia. destruct v; reflexivity.
Qed.

(** ["d"] reads what ["d"] prints. *)
Lemma scan_number_spec fuel v z ds rest x f' fmt' :
  ahead (sn_st v) (sn_c v) (ds ++ rest) -> Forall ascii_byte rest -> no_digit rest -> Forall (fun b => is_digit b = true) ds ->
  (1 <= length ds <= 10)%nat -> (10 < fuel)%nat -> - 2 ^ 30 < sn_width v < 0 ->
  digits_value 0 ds = Z.abs z -> Z.abs z < 2 ^ 31 -> sn_buf v = Some (SWord x) -> sn_fmt v = f' :: fmt' ->
  exists st c w, scan_number fuel (negb (z <? 0)) true 10 v =
    Some (Scan st c f' fmt' (sn_n v + 1) w (sn_done v) (Some (SWord z)) (sn_args v), Some tt) /\ ahead st c rest.
Proof.
  intros Ha Hr Hnd Hd Hl Hf Hw Hv Hz Hbuf Hfmt. unfold scan_number. rewrite (sc_bind_eq _ _ v v v) by reflexivity.
  assert (Hs : (sym_to_val (u8 (sn_c v)) 10 =? -1) = false).
  { destruct ds as [|b ds]; [cbn in Hl; lia|]. destruct Ha as (Hc & _). apply Forall_cons in Hd as [Hb _]. rewrite Hc.
    pose proof Hb as Hb'. unfold is_digit in Hb'. bools. rewrite u8_id, sym_to_val_digit by (assumption || lia). apply Z.eqb_neq. lia. }
  rewrite Hs. destruct (scan_digits_spec ds fuel v 0 rest Ha Hr Hnd Hd) as (st & c & w & E & Ha'); try lia.
  rewrite (sc_bind_eq _ _ _ _ _ E). exists st, c, w. split; [|exact Ha']. rewrite Hv.
  assert (Ez : (if negb (z <? 0) then Z.abs z else -1 * Z.abs z) = z) by (destruct (Z.ltb_spec z 0); cbn [negb]; lia).
  cbv zeta. rewrite Ez. destruct v as [s0 c0 f0 fm n w0 dn bf ar]. cbn in Hbuf, Hfmt. subst. reflexivity.
Qed.

Lemma scan_directive_d fuel v z rest x args f' fmt' :
  ahead (sn_st v) (sn_c v) (signed_text false z ++ rest) -> Forall ascii_byte rest -> no_digit rest -> - 2 ^ 31 < z < 2 ^ 31 ->
  (10 < fuel)%nat -> sn_f v = 100 -> sn_fmt v = f' :: fmt' -> sn_args v = SWord x :: args ->
  exists st c w, scan_directive fuel v =
    Some (Scan st c f' fmt' (sn_n v + 1) w (sn_done v ++ [SWord z]) None args, Some tt) /\ ahead st c rest.
Proof.
  intros Ha Hr Hnd Hz Hf Ef Efmt Eargs. destruct (signed_text_parts z Hz) as (ds & Et & Hd & Hl & Hv). rewrite Et, <- app_assoc in Ha.
  assert (Hds : Forall ascii_byte (ds ++ rest)) by (apply Forall_app; split; [apply digits_ascii, Hd|exact Hr]).
  destruct v as [s0 c0 f0 fm n w0 dn bf ar]. cbn in Ha, Ef, Efmt, Eargs. subst.
  unfold scan_directive. rewrite (sc_bind_eq _ _ _ _ _ (eq_refl : vars _ = Some (_, Some _))). cbn [sn_f sn_args Z.eqb Pos.eqb sn_done sn_fmt].
  erewrite sc_bind_eq; [|reflexivity]. rewrite (sc_bind_eq _ _ _ (Scan s0 c0 100 (f' :: fmt') n w0 dn (Some (SWord x)) args) 0) by reflexivity.
  erewrite sc_bind_eq; [|reflexivity]. cbn [Z.eqb sc_with_width]. erewrite sc_bind_eq; [|reflexivity]. cbn [sn_f Z.eqb Pos.eqb orb].
  erewrite sc_bind_eq; [|reflexivity]. set (v1 := Scan s0 c0 100 (f' :: fmt') n (-1) dn (Some (SWord x)) args).
  change (sc_with_width _ _) with v1.
  assert (Hsp : skip_spaces fuel v1 = Some (v1, Some tt)).
  { destruct fuel as [|fuel]; [lia|]. cbn [skip_spaces]. rewrite (sc_bind_eq _ _ _ _ _ (eq_refl : vars v1 = Some (v1, Some v1))).
    assert (Hc : isspace c0 = Some false).
    { assert (Hc0 : 45 <= c0 <= 57).
      { destruct (z <? 0); [destruct Ha as (-> & _); lia|]. destruct ds as [|b ds]; [cbn in Hl; lia|]. apply Forall_cons in Hd as [Hb _].
        destruct Ha as (-> & _). unfold is_digit in Hb. bools. lia. }
      unfold isspace. rewrite check_true by (apply andb_true_intro; rewrite !Z.leb_le; lia). cbn [mbind option_bind]. f_equal.
      unfold is_space. apply orb_false_iff. split; [apply andb_false_iff; right; apply Z.leb_gt; lia|apply Z.eqb_neq; lia]. }
    cbn [sn_c v1]. rewrite (sc_bind_eq _ _ v1 v1 false) by (unfold sc_lift; rewrite Hc; reflexivity). reflexivity. }
  destruct (scan_sign_spec z ds v1 rest Ha Hds Hd) as (st1 & c1 & w1 & E1 & Ha1 & Hw1); [lia|cbn; lia|].
  destruct (scan_number_spec fuel (moved_to st1 c1 w1 v1) z ds rest x f' fmt' Ha1 Hr Hnd Hd Hl Hf) as (st & c & w & E2 & Ha2);
    try reflexivity; try (cbn in *; lia).
  exists st, c, w. split; [|exact Ha2].
  assert (Ec : scan_convert fuel v1 = Some (Scan st c f' fmt' (n + 1) w dn (Some (SWord z)) args, Some tt)).
  { unfold scan_convert. rewrite (sc_bind_eq _ _ _ _ _ (eq_refl : vars v1 = Some (v1, Some v1))). change (scan_kind_of (sn_f v1)) with ScDec.
    cbv iota zeta. rewrite (sc_bind_eq _ _ _ _ _ Hsp), (sc_bind_eq _ _ _ _ _ E1). exact E2. }
  rewrite (sc_bind_eq _ _ _ _ _ Ec). reflexivity.
Qed.

(** ** Lists of numbers *)

(** A separator: a space, or a character that must match. *)
Definition separator (sep : Z) : Prop := 32 <= sep < 127 /\ sep <> 37 /\ is_digit sep = false.

Definition numeral (l : list Z) : Prop := match l with [] => False | b :: _ => 33 <= b < 128 end.

Lemma skip_spaces_none fuel v b l :
  ahead (sn_st v) (sn_c v) (b :: l) -> 33 <= b -> (0 < fuel)%nat -> skip_spaces fuel v = Some (v, Some tt).
Proof.
  intros (Hc & Hb & _) H33 Hf. unfold ascii_byte in Hb. destruct fuel as [|fuel]; [lia|]. cbn [skip_spaces].
  rewrite (sc_bind_eq _ _ _ _ _ (eq_refl : vars v = Some (v, Some v))). rewrite (sc_bind_eq _ _ v v false); [reflexivity|].
  unfold sc_lift, isspace. rewrite Hc, check_true by (apply andb_true_intro; rewrite !Z.leb_le; lia). cbn [mbind option_bind].
  do 2 f_equal. unfold is_space. f_equal. apply orb_false_iff. split; [apply andb_false_iff; right; apply Z.leb_gt; lia|apply Z.eqb_neq; lia].
Qed.

Lemma scan_turn_separator fuel v sep l fmt :
  separator sep -> ahead (sn_st v) (sn_c v) (sep :: l) -> Forall ascii_byte l -> numeral l -> (1 < fuel)%nat ->
  sn_f v = sep -> sn_fmt v = 37 :: fmt ->
  exists st c, scan_turn fuel v = Some (sc_with_f 37 fmt (sc_with_c st c v), Some tt) /\ ahead st c l.
Proof.
  intros (Hs & H37 & Hd) Ha Hl Hn Hf Ef Efmt. destruct (get_c_ahead v sep l Ha Hl) as (st & c & E & Ha'). exists st, c. split; [|exact Ha'].
  assert (Enext : next_f (sc_with_c st c v) = Some (sc_with_f 37 fmt (sc_with_c st c v), Some tt)).
  { destruct v. cbn in Efmt. subst. reflexivity. }
  destruct Ha as (Hc & _). unfold scan_turn. rewrite (sc_bind_eq _ _ _ _ _ (eq_refl : vars v = Some (v, Some v))). rewrite Ef.
  destruct (is_space sep) eqn:Es.
  - assert (sep = 32) as -> by (unfold is_space in Es; destruct (Z.leb_spec 9 sep), (Z.leb_spec sep 13), (Z.eqb_spec sep 32); cbn in Es; congruence || lia).
    assert (Esk : skip_spaces fuel v = Some (sc_with_c st c v, Some tt)).
    { destruct fuel as [|fuel]; [lia|]. cbn [skip_spaces]. rewrite (sc_bind_eq _ _ _ _ _ (eq_refl : vars v = Some (v, Some v))).
      rewrite (sc_bind_eq _ _ v v true) by (unfold sc_lift; rewrite Hc; reflexivity). rewrite (sc_bind_eq _ _ _ _ _ E).
      destruct l as [|b l]; [destruct Hn|]. apply (skip_spaces_none fuel (sc_with_c st c v) b l Ha'); cbn in Hn; lia. }
    rewrite (sc_bind_eq _ _ _ _ _ Esk). exact Enext.
  - rewrite (proj2 (Z.eqb_neq sep 37)) by exact H37. cbn [negb]. unfold scan_literal.
    rewrite (sc_bind_eq _ _ _ _ _ (eq_refl : vars v = Some (v, Some v))). rewrite Ef, Hc, Z.eqb_refl. cbn [negb].
    rewrite (sc_bind_eq _ _ _ _ _ E). exact Enext.
Qed.

Fixpoint ints_fmt (sep : Z) (n : nat) : list Z :=
  match n with
  | O => []
  | 1%nat => [37; 100]
  | Datatypes.S n => 37 :: 100 :: sep :: ints_fmt sep n
  end.

Fixpoint ints_text (sep : Z) (zs : list Z) : list Z :=
  match zs with
  | [] => []
  | [z] => signed_text false z
  | z :: zs => signed_text false z ++ sep :: ints_text sep zs
  end.

Lemma ints_fmt_cons sep n : ints_fmt sep (Datatypes.S n) = 37 :: 100 :: (if decide (n = O) then [] else sep :: ints_fmt sep n).
Proof. destruct n; reflexivity. Qed.

Definition in_long (z : Z) : Prop := - 2 ^ 31 < z < 2 ^ 31.

Lemma signed_text_ascii z : in_long z -> Forall ascii_byte (signed_text false z) /\ forall l, numeral (signed_text false z ++ l).
Proof.
  intros Hz. destruct (signed_text_parts z Hz) as (ds & -> & Hd & Hl & _). split.
  - apply Forall_app. split; [destruct (z <? 0); repeat constructor; unfold ascii_byte; lia|apply digits_ascii, Hd].
  - intros l. destruct (z <? 0); [cbn; lia|]. destruct ds as [|b ds]; [cbn in Hl; lia|]. apply Forall_cons in Hd as [Hb _].
    unfold is_digit in Hb. bools. cbn. lia.
Qed.

Lemma ints_text_ascii sep zs : separator sep -> Forall in_long zs -> Forall ascii_byte (ints_text sep zs) /\ (zs <> [] -> forall l, numeral (ints_text sep zs ++ l)).
Proof.
  intros (Hs & _) Hz. induction Hz as [|z zs Hz Hzs [IH _]]; [split; [constructor|congruence]|].
  destruct (signed_text_ascii z Hz) as [Ha Hn]. destruct zs as [|z2 zs]; cbn [ints_text]; [auto|]. split.
  - apply Forall_app. split; [exact Ha|]. constructor; [unfold ascii_byte; lia|exact IH].
  - intros _ l. rewrite <- app_assoc. apply Hn.
Qed.

Lemma scan_loop_turn k fuel v v' l :
  ahead (sn_st v) (sn_c v) l -> l <> [] -> sn_f v <> 0 -> scan_turn fuel v = Some (v', Some tt) ->
  scan_loop (Datatypes.S k) fuel v = scan_loop k fuel v'.
Proof.
  intros Ha Hl Hf E. cbn [scan_loop]. rewrite (sc_bind_eq _ _ _ _ _ (eq_refl : vars v = Some (v, Some v))).
  destruct l as [|b l]; [congruence|]. destruct Ha as (Hc & Hb & _). unfold ascii_byte in Hb.
  rewrite (proj2 (Z.eqb_neq (sn_c v) STM_RESET)) by (rewrite Hc; unfold STM_RESET, MSG_RESET; lia).
  rewrite (proj2 (Z.eqb_neq (sn_f v) 0)) by exact Hf. cbn [orb]. rewrite (sc_bind_eq _ _ _ _ _ E). reflexivity.
Qed.

Lemma scan_loop_end k fuel v l :
  ahead (sn_st v) (sn_c v) l -> sn_f v = 0 ->
  exists st, scan_loop (Datatypes.S k) fuel v = Some (sc_with_c st (sn_c v) v, None) /\ (l <> [] -> src_text st l).
Proof.
  intros Ha Hf. destruct (unget_ahead _ _ _ Ha) as (st & r & E & Hs). exists st. split; [|exact Hs].
  cbn [scan_loop]. rewrite (sc_bind_eq _ _ _ _ _ (eq_refl : vars v = Some (v, Some v))). rewrite Hf, Z.eqb_refl, orb_true_r.
  unfold sc_end. rewrite (sc_bind_eq _ _ _ _ _ (eq_refl : vars v = Some (v, Some v))).
  rewrite (sc_bind_eq _ _ v v (st, r)) by (unfold sc_lift; rewrite E; reflexivity). reflexivity.
Qed.

(** The turn of a directive. *)
Lemma scan_turn_d fuel v z rest x args f' fmt' :
  ahead (sn_st v) (sn_c v) (signed_text false z ++ rest) -> Forall ascii_byte rest -> no_digit rest -> in_long z ->
  (10 < fuel)%nat -> sn_f v = 37 -> sn_fmt v = 100 :: f' :: fmt' -> sn_args v = SWord x :: args ->
  exists st c w, scan_turn fuel v =
    Some (Scan st c f' fmt' (sn_n v + 1) w (sn_done v ++ [SWord z]) None args, Some tt) /\ ahead st c rest.
Proof.
  intros Ha Hr Hn Hz Hf Ef Efmt Eargs.
  destruct (scan_directive_d fuel (sc_with_f 100 (f' :: fmt') v) z rest x args f' fmt') as (st & c & w & E & Ha'); try assumption; try reflexivity.
  exists st, c, w. split; [|exact Ha']. unfold scan_turn. rewrite (sc_bind_eq _ _ _ _ _ (eq_refl : vars v = Some (v, Some v))).
  rewrite Ef. change (is_space 37) with false. cbn [Z.eqb Pos.eqb negb].
  rewrite (sc_bind_eq _ _ v (sc_with_f 100 (f' :: fmt') v) tt) by (destruct v; cbn in Efmt; subst; reflexivity).
  rewrite (sc_bind_eq _ _ _ _ _ (eq_refl : vars (sc_with_f 100 (f' :: fmt') v) = Some (_, Some _))). exact E.
Qed.

Lemma scan_ints sep zs : separator sep -> forall z k fuel v rest olds,
  Forall in_long (z :: zs) -> length olds = length (z :: zs) -> Forall ascii_byte rest -> no_digit rest -> (10 < fuel)%nat ->
  (2 * length (z :: zs) <= k)%nat -> ahead (sn_st v) (sn_c v) (ints_text sep (z :: zs) ++ rest) ->
  sn_f v = 37 -> sn_fmt v = tail (ints_fmt sep (length (z :: zs))) ++ [0] -> sn_args v = SWord <$> olds ->
  exists st c w, scan_loop k fuel v =
      Some (Scan st c 0 [] (sn_n v + Z.of_nat (length (z :: zs))) w (sn_done v ++ (SWord <$> z :: zs)) None [], None) /\
    (rest <> [] -> src_text st rest).
Proof.
  intros Hsep. induction zs as [|z2 zs IH]; intros z k fuel v rest olds Hz Hlen Hr Hn Hf Hk Ha Ef Efmt Eargs;
    apply Forall_cons in Hz as [Hz Hzs]; (destruct olds as [|x olds]; [discriminate|]).
  - destruct k as [|[|k]]; cbn [length] in Hk; try lia. cbn [ints_text] in Ha. destruct olds; [|discriminate].
    destruct (scan_turn_d fuel v z rest x [] 0 [] Ha Hr Hn Hz Hf Ef Efmt Eargs) as (st & c & w & E & Ha').
    assert (Hne : signed_text false z ++ rest <> []) by (destruct (signed_text false z) eqn:Es; [|discriminate]; pose proof (proj2 (signed_text_ascii z Hz) []) as X; rewrite Es in X; destruct X).
    rewrite (scan_loop_turn _ _ _ _ _ Ha Hne ltac:(lia) E).
    match type of E with _ = Some (?v1, _) => destruct (scan_loop_end k fuel v1 rest Ha' eq_refl) as (st' & E' & Hs) end.
    exists st', c, w. split; [exact E'|exact Hs].
  - cbn [length] in Hk, Hlen. destruct k as [|[|k]]; try lia. change (ints_text sep (z :: z2 :: zs)) with (signed_text false z ++ sep :: ints_text sep (z2 :: zs)) in Ha.
    rewrite <- app_assoc in Ha. cbn [app] in Ha.
    destruct (ints_text_ascii sep (z2 :: zs) Hsep Hzs) as [Hasc Hnum]. specialize (Hnum ltac:(discriminate) rest).
    assert (Hrest : Forall ascii_byte (ints_text sep (z2 :: zs) ++ rest)) by (apply Forall_app; auto).
    change (length (z :: z2 :: zs)) with (Datatypes.S (length (z2 :: zs))) in Efmt. rewrite ints_fmt_cons in Efmt. cbn [tail app decide] in Efmt.
    destruct (decide (length (z2 :: zs) = O)) as [Hx|_]; [discriminate|]. cbn [length] in Efmt. rewrite ints_fmt_cons in Efmt. cbn [app] in Efmt.
    set (fmt2 := 100 :: (if decide (length zs = O) then [] else sep :: ints_fmt sep (length zs)) ++ [0]) in Efmt.
    destruct (scan_turn_d fuel v z (sep :: ints_text sep (z2 :: zs) ++ rest) x (SWord <$> olds) sep (37 :: fmt2) Ha) as (st & c & w & E & Ha');
      try assumption; [constructor; [destruct Hsep; unfold ascii_byte; lia|exact Hrest]|apply Hsep|].
    rewrite (scan_loop_turn _ _ _ _ _ Ha ltac:(destruct (signed_text false z); discriminate) ltac:(lia) E).
    match type of E with _ = Some (?v1, _) => destruct (scan_turn_separator fuel v1 sep _ fmt2 Hsep Ha' Hrest Hnum) as (st2 & c2 & E2 & Ha2) end;
      [lia|reflexivity|reflexivity|].
    match type of E with _ = Some (?v1, _) => rewrite (scan_loop_turn _ _ v1 _ (sep :: _) Ha' ltac:(discriminate) ltac:(destruct Hsep; cbn; lia) E2) end.
    match type of E2 with _ = Some (?v1, _) => destruct (IH z2 k fuel v1 rest olds Hzs) as (st3 & c3 & w3 & E3 & Hs3) end;
      try assumption; try reflexivity; try (cbn [length]; lia).
    + cbn [length sn_fmt sc_with_f]. rewrite ints_fmt_cons. reflexivity.
    + exists st3, c3, w3. split; [|exact Hs3]. rewrite E3. cbn [sn_n sn_done sc_with_f sc_with_c length]. rewrite <- app_assoc. do 3 f_equal. lia.
Qed.

End Text.

(** ** The round trip *)

Lemma signed_text_wrap z : wrapu 8 <$> signed_text false z = signed_text false z.
Proof. apply wrapu8_bytes, signed_text_bytes. Qed.

Lemma format_text_d_next fuel z fmt args :
  in_long z ->
  format_text (S fuel) (37 :: 100 :: fmt) (VInt z :: args) =
  (out ← format_text fuel fmt args; Some (signed_text false z ++ out)).
Proof.
  intros Hz. destruct (convert_signed_spec (ChSpec false false 32 0 0 false 100) z) as [Hc Hl];
    [apply printable_range; exact Hz|]. cbn [do_sign] in *.
  erewrite format_text_dir; [|reflexivity|change (convert _ _) with (t ← convert_signed (ChSpec false false 32 0 0 false 100) z;
    Some (t, 32, args)); rewrite Hc; reflexivity].
  rewrite emit_text_nopad by (cbn; lia). rewrite signed_text_wrap. reflexivity.
Qed.

Lemma format_text_ints sep zs : separator sep -> Forall in_long zs -> zs <> [] -> forall fuel,
  (2 * length zs < fuel)%nat ->
  format_text fuel (ints_fmt sep (length zs) ++ [0]) (VInt <$> zs) = Some (ints_text sep zs).
Proof.
  intros (Hs & H37 & _) Hzs. induction Hzs as [|z zs Hz _ IH]; intros Hne fuel Hf; [congruence|]. cbn [length] in Hf |- *. rewrite ints_fmt_cons.
  destruct fuel as [|[|[|fuel]]]; try lia. cbn [app fmap list_fmap]. rewrite format_text_d_next by exact Hz. destruct zs as [|z2 zs].
  - change (Some (signed_text false z ++ []) = Some (signed_text false z)). rewrite app_nil_r. reflexivity.
  - destruct (decide _) as [Hx|_]; [discriminate|]. cbn [app]. rewrite format_text_char by lia.
    rewrite (IH ltac:(discriminate) (Datatypes.S fuel)) by (cbn [length] in *; lia). cbn [mbind option_bind]. rewrite u8_id by lia. reflexivity.
Qed.

Lemma ints_fmt_length sep n : (3 * n <= length (ints_fmt sep n) + 1)%nat.
Proof. induction n as [|n IH]; [cbn; lia|]. rewrite ints_fmt_cons. cbn [length]. destruct (decide (n = O)); cbn [length]; lia. Qed.

(** C22: the numbers that chvprintf prints with "%d" and any separator chvscanf reads
    back with the same format from any stream that delivers the text, stores them all,
    counts them, and leaves what comes behind the last digit in the stream; only the
    least [int] is excepted. *)
Theorem scan_reads_print {S : Type} `{TS : TextSource S} (sep : Z) (zs olds rest : list Z) (fuel : nat) :
  separator sep -> zs <> [] -> Forall in_long zs -> length olds = length zs -> Forall ascii_byte rest -> no_digit rest -> (10 < fuel)%nat ->
  let fmt := ints_fmt sep (length zs) ++ [0] in
  exists text, chvprintf [] fmt (VInt <$> zs) = Some (text, i32 (Z.of_nat (length text))) /\
    forall st : S, src_text st (text ++ rest) ->
      exists st', chvscanf fuel st fmt (SWord <$> olds) = Some (st', Z.of_nat (length zs), SWord <$> zs) /\
        (rest <> [] -> src_text st' rest).
Proof.
  intros Hsep Hne Hz Hlen Hr Hn Hf fmt. exists (ints_text sep zs). split.
  - rewrite chvprintf_list. unfold fmt. rewrite format_text_ints; [reflexivity|exact Hsep|exact Hz|exact Hne|].
    rewrite length_app. pose proof (ints_fmt_length sep (length zs)). cbn. lia.
  - intros st Hst. destruct zs as [|z zs]; [congruence|]. destruct (ints_text_ascii sep (z :: zs) Hsep Hz) as [Hasc _].
    destruct (get_ahead st _ Hst) as (st1 & c & E & Ha); [apply Forall_app; auto|].
    destruct (scan_ints sep zs Hsep z (length fmt) fuel (Scan st1 c 37 (tail fmt) 0 0 [] None (SWord <$> olds)) rest olds Hz Hlen Hr Hn Hf)
      as (st2 & c2 & w & E2 & Hs2); try reflexivity.
    + unfold fmt. rewrite length_app. pose proof (ints_fmt_length sep (length (z :: zs))). cbn [length] in *. lia.
    + exact Ha.
    + unfold fmt. cbn [sn_fmt length]. rewrite ints_fmt_cons. reflexivity.
    + exists st2. split; [|exact Hs2]. unfold chvscanf.
      assert (Efmt : fmt = 37 :: tail fmt) by (unfold fmt; cbn [length]; rewrite ints_fmt_cons; reflexivity).
      rewrite Efmt at 1. cbn [next_char mbind option_bind Z.eqb]. rewrite E. cbn [mbind option_bind]. rewrite E2.
      cbn [mbind option_bind sn_st sn_n sn_done sn_buf sn_args option_list app]. rewrite app_nil_r. reflexivity.
Qed.

Lemma scan_reads_print_witness :
  let fmt := fmt_of "%d,%d,%d" in
  exists text, chvprintf [] fmt (VInt <$> [-2147483647; 0; 42]) = Some (text, i32 (Z.of_nat (length text))) /\
    forall st : MemoryStream, src_text st (text ++ bytes " end") ->
      exists st', chvscanf 11 st fmt (SWord <$> [7; 8; 9]) = Some (st', 3, SWord <$> [-2147483647; 0; 42]) /\
        (bytes " end" <> [] -> src_text st' (bytes " end")).
Proof.
  apply (scan_reads_print 44 [-2147483647; 0; 42] [7; 8; 9] (bytes " end") 11).
  - unfold separator. split_and!; [lia|lia|discriminate|reflexivity].
  - discriminate.
  - repeat constructor; unfold in_long; lia.
  - reflexivity.
  - repeat constructor; unfold ascii_byte; vm_compute; congruence.
  - reflexivity.
  - lia.
Defined.

(** The least [int] overflows while it is printed, and while it is read. *)
Example scan_least_undefined :
  chvprintf [] (fmt_of "%d") [VInt (-2147483648)] = None /\
  scanned 20 (bytes "-2147483648") "%d" [SWord 7] = None.
Proof. split; vm_compute; reflexivity. Qed.
