(* ===== verification/Buffers.v ===== *)
(** * Queues of buffers (hal_buffers.h, hal_buffers.c)

    The queues through which drivers of packet devices exchange whole buffers with
    threads that read and write bytes.  The memory of the buffers is an array of bytes,
    pointers are offsets in it, and the first word of a buffer is its size.  The calls
    that may block are modelled from suspension to suspension, so that every
    interleaving of threads, interrupts and timeouts is a sequence of the steps below. *)

From stdpp Require Import gmap.
From S2P Require Import Prelude CInt CLib Words Threads.
#[local] Open Scope Z_scope.

(** ** Data *)

Definition BUFFERS_CHUNKS_SIZE : Z := 64.
Definition sizeof_size_t : Z := 4.

Record io_buffers_queue := BQueue {
  bq_waiting : threads_queue;
  bq_suspended : bool;
  bq_bcounter : Z;
  bq_bwrptr : Z;
  bq_brdptr : Z;
  bq_btop : Z;
  bq_bsize : Z;
  bq_bn : Z;
  bq_buffers : list Z;
  bq_ptr : option Z;
  bq_top : option Z;
  bq_notify : bool
}.

Definition bq_set_waiting ts q := BQueue ts (bq_suspended q) (bq_bcounter q) (bq_bwrptr q) (bq_brdptr q) (bq_btop q)
  (bq_bsize q) (bq_bn q) (bq_buffers q) (bq_ptr q) (bq_top q) (bq_notify q).
Definition bq_set_suspended b q := BQueue (bq_waiting q) b (bq_bcounter q) (bq_bwrptr q) (bq_brdptr q) (bq_btop q)
  (bq_bsize q) (bq_bn q) (bq_buffers q) (bq_ptr q) (bq_top q) (bq_notify q).
Definition bq_set_write cnt p q := BQueue (bq_waiting q) (bq_suspended q) cnt p (bq_brdptr q) (bq_btop q)
  (bq_bsize q) (bq_bn q) (bq_buffers q) (bq_ptr q) (bq_top q) (bq_notify q).
Definition bq_set_read cnt p q := BQueue (bq_waiting q) (bq_suspended q) cnt (bq_bwrptr q) p (bq_btop q)
  (bq_bsize q) (bq_bn q) (bq_buffers q) (bq_ptr q) (bq_top q) (bq_notify q).
Definition bq_set_buffers mem q := BQueue (bq_waiting q) (bq_suspended q) (bq_bcounter q) (bq_bwrptr q) (bq_brdptr q) (bq_btop q)
  (bq_bsize q) (bq_bn q) mem (bq_ptr q) (bq_top q) (bq_notify q).
Definition bq_set_ptr p top q := BQueue (bq_waiting q) (bq_suspended q) (bq_bcounter q) (bq_bwrptr q) (bq_brdptr q) (bq_btop q)
  (bq_bsize q) (bq_bn q) (bq_buffers q) p top (bq_notify q).

(** The first word of a buffer, a [size_t] accessed at the buffer's address as it
    is.  The queue does not ask for buffers of whole words: with another size some
    of these accesses are not aligned, which C leaves undefined; what is modelled
    is a target that allows them, as the ARMv7-M cores of this firmware do for
    single words ([size_words_aligned]: with whole words they are aligned). *)
Definition rd_size (mem : list Z) (p : Z) : option Z :=
  _ ← check ((0 <=? p) && (p + sizeof_size_t <=? Z.of_nat (length mem))); Some (get_le 4 (Z.to_nat p) mem).
Definition wr_size (mem : list Z) (p size : Z) : option (list Z) :=
  _ ← check ((0 <=? p) && (p + sizeof_size_t <=? Z.of_nat (length mem))); Some (put_le 4 (Z.to_nat p) size mem).

(** The buffer behind the one at [p]. *)
Definition bq_next (q : io_buffers_queue) (p : Z) : Z :=
  let p := p + bq_bsize q in if bq_btop q <=? p then 0 else p.

Definition bq_dequeue (f : threads_queue -> Z -> threads_queue * list event) (msg : Z) (q : io_buffers_queue)
  : io_buffers_queue * list event :=
  let '(ts, ev) := f (bq_waiting q) msg in (bq_set_waiting ts q, ev).

Definition bq_enqueue (t : nat) (timeout : Z) (q : io_buffers_queue) : option io_buffers_queue :=
  ts ← chThdEnqueueTimeoutS t timeout (bq_waiting q); Some (bq_set_waiting ts q).

Definition bq_notification (q : io_buffers_queue) : list event := if bq_notify q then [Notify] else [].

Definition bqSuspendI (q : io_buffers_queue) : io_buffers_queue * list event :=
  bq_dequeue chThdDequeueAllI MSG_RESET (bq_set_suspended true q).
Definition bqResumeX (q : io_buffers_queue) : io_buffers_queue := bq_set_suspended false q.

(** ** Input queues *)

Definition ibqObjectInit (suspended : bool) (bp : list Z) (size n : Z) (infy : bool) : option io_buffers_queue :=
  _ ← check (2 <=? size);
  Some (BQueue chThdQueueObjectInit suspended 0 0 0 ((size + sizeof_size_t) * n) (size + sizeof_size_t) n bp None None infy).

Definition ibqIsEmptyI (q : io_buffers_queue) : bool := bq_bcounter q =? 0.
Definition ibqIsFullI (q : io_buffers_queue) : bool := (bq_bwrptr q =? bq_brdptr q) && negb (bq_bcounter q =? 0).

Definition ibqResetI (q : io_buffers_queue) : io_buffers_queue * list event :=
  bq_dequeue chThdDequeueAllI MSG_RESET (bq_set_ptr None None (bq_set_write 0 0 (bq_set_read 0 0 q))).

Definition ibqGetEmptyBufferI (q : io_buffers_queue) : option Z :=
  if ibqIsFullI q then None else Some (bq_bwrptr q + sizeof_size_t).

Definition ibqPostFullBufferI (size : Z) (q : io_buffers_queue) : option (io_buffers_queue * list event) :=
  _ ← check ((0 <? size) && (size <=? bq_bsize q - sizeof_size_t));
  _ ← check (negb (ibqIsFullI q));
  mem ← wr_size (bq_buffers q) (bq_bwrptr q) size;
  Some (bq_dequeue chThdDequeueNextI MSG_OK
          (bq_set_write (bq_bcounter q + 1) (bq_next q (bq_bwrptr q)) (bq_set_buffers mem q))).

(** Up to the return of a message or the suspension of the thread. *)
Definition ibqGetFullBufferTimeoutS (t : nat) (timeout : Z) (q : io_buffers_queue)
  : option (io_buffers_queue * outcome Z unit) :=
  if ibqIsEmptyI q then
    if bq_suspended q then Some (q, Return MSG_RESET)
    else match bq_enqueue t timeout q with
         | None => Some (q, Return MSG_TIMEOUT)
         | Some q => Some (q, Blocked tt)
         end
  else
    size ← rd_size (bq_buffers q) (bq_brdptr q);
    let ptr := bq_brdptr q + sizeof_size_t in
    Some (bq_set_ptr (Some ptr) (Some (ptr + size)) q, Return MSG_OK).

(** The loop goes on after a wake-up. *)
Definition ibqGetFullBufferTimeoutS_resume (t : nat) (timeout msg : Z) (q : io_buffers_queue)
  : option (io_buffers_queue * outcome Z unit) :=
  if msg <? MSG_OK then Some (q, Return msg) else ibqGetFullBufferTimeoutS t timeout q.

Definition ibqReleaseEmptyBufferS (q : io_buffers_queue) : option (io_buffers_queue * list event) :=
  _ ← check (negb (ibqIsEmptyI q));
  Some (bq_set_ptr None (bq_top q) (bq_set_read (bq_bcounter q - 1) (bq_next q (bq_brdptr q)) q), bq_notification q).

(** The buffer at work, or the next one. *)
Definition ibq_current (t : nat) (timeout : Z) (q : io_buffers_queue) : option (io_buffers_queue * outcome Z unit) :=
  match bq_ptr q with
  | None => ibqGetFullBufferTimeoutS t timeout q
  | Some _ => Some (q, Return MSG_OK)
  end.

(** [n] bytes of the current buffer, which is released after its last byte. *)
Definition ibq_advance (n : Z) (q : io_buffers_queue) : option (io_buffers_queue * list Z * list event) :=
  ptr ← bq_ptr q;
  top ← bq_top q;
  _ ← check ((0 <=? n) && (0 <=? ptr) && (ptr + n <=? Z.of_nat (length (bq_buffers q))));
  let bs := take (Z.to_nat n) (drop (Z.to_nat ptr) (bq_buffers q)) in
  let q := bq_set_ptr (Some (ptr + n)) (Some top) q in
  if top <=? ptr + n then '(q, ev) ← ibqReleaseEmptyBufferS q; Some (q, bs, ev) else Some (q, bs, []).

(** What [ibqGetTimeout] does when the call for a buffer has come to [o]. *)
Definition ibq_get (q : io_buffers_queue) (o : outcome Z unit) : option (io_buffers_queue * outcome Z unit * list event) :=
  match o with
  | Return msg =>
      if negb (msg =? MSG_OK) then Some (q, Return msg, [])
      else '(q, bs, ev) ← ibq_advance 1 q; b ← head bs; Some (q, Return b, ev)
  | o => Some (q, o, [])
  end.

Definition ibqGetTimeout (t : nat) (timeout : Z) (q : io_buffers_queue)
  : option (io_buffers_queue * outcome Z unit * list event) :=
  '(q, o) ← ibq_current t timeout q; ibq_get q o.
Definition ibqGetTimeout_resume (t : nat) (timeout msg : Z) (q : io_buffers_queue)
  : option (io_buffers_queue * outcome Z unit * list event) :=
  '(q, o) ← ibqGetFullBufferTimeoutS_resume t timeout msg q; ibq_get q o.

(** The same of [ibqReadTimeout]; [got] are the bytes at [bp], [n] are still wanted.  A
    piece has at most [BUFFERS_CHUNKS_SIZE] bytes; between two pieces the kernel is
    unlocked. *)
Definition ibq_read (got : list Z) (n : Z) (q : io_buffers_queue) (o : outcome Z unit)
  : option (io_buffers_queue * outcome (Z * list Z) (list Z * Z) * list event) :=
  match o with
  | Return msg =>
      if negb (msg =? MSG_OK) then Some (q, Return (Z.of_nat (length got), got), [])
      else
        ptr ← bq_ptr q;
        top ← bq_top q;
        let size := if n <? top - ptr then n else top - ptr in
        let size := if BUFFERS_CHUNKS_SIZE <? size then BUFFERS_CHUNKS_SIZE else size in
        '(q, bs, ev) ← ibq_advance size q;
        if n - size <=? 0 then Some (q, Return (Z.of_nat (length (got ++ bs)), got ++ bs), ev)
        else Some (q, More (got ++ bs, n - size), ev)
  | _ => Some (q, Blocked (got, n), [])
  end.

Definition ibqReadTimeout_step (t : nat) (timeout : Z) (st : list Z * Z) (q : io_buffers_queue)
  : option (io_buffers_queue * outcome (Z * list Z) (list Z * Z) * list event) :=
  _ ← check (0 <? snd st); '(q, o) ← ibq_current t timeout q; ibq_read (fst st) (snd st) q o.
Definition ibqReadTimeout_resume (t : nat) (timeout msg : Z) (st : list Z * Z) (q : io_buffers_queue)
  : option (io_buffers_queue * outcome (Z * list Z) (list Z * Z) * list event) :=
  '(q, o) ← ibqGetFullBufferTimeoutS_resume t timeout msg q; ibq_read (fst st) (snd st) q o.

(** ** Output queues *)

Definition obqObjectInit (suspended : bool) (bp : list Z) (size n : Z) (onfy : bool) : option io_buffers_queue :=
  _ ← check (2 <=? size);
  Some (BQueue chThdQueueObjectInit suspended n 0 0 ((size + sizeof_size_t) * n) (size + sizeof_size_t) n bp None None onfy).

Definition obqIsFullI (q : io_buffers_queue) : bool := bq_bcounter q =? 0.
Definition obqIsEmptyI (q : io_buffers_queue) : bool := (bq_bwrptr q =? bq_brdptr q) && negb (bq_bcounter q =? 0).

Definition obqResetI (q : io_buffers_queue) : io_buffers_queue * list event :=
  bq_dequeue chThdDequeueAllI MSG_RESET (bq_set_ptr None None (bq_set_write (bq_bn q) 0 (bq_set_read (bq_bn q) 0 q))).

(** The size and the pointer of the first full buffer. *)
Definition obqGetFullBufferI (q : io_buffers_queue) : option (option (Z * Z)) :=
  if obqIsEmptyI q then Some None
  else size ← rd_size (bq_buffers q) (bq_brdptr q); Some (Some (size, bq_brdptr q + sizeof_size_t)).

Definition obqReleaseEmptyBufferI (q : io_buffers_queue) : option (io_buffers_queue * list event) :=
  _ ← check (negb (obqIsEmptyI q));
  Some (bq_dequeue chThdDequeueNextI MSG_OK (bq_set_read (bq_bcounter q + 1) (bq_next q (bq_brdptr q)) q)).

Definition obqGetEmptyBufferTimeoutS (t : nat) (timeout : Z) (q : io_buffers_queue)
  : option (io_buffers_queue * outcome Z unit) :=
  if obqIsFullI q then
    if bq_suspended q then Some (q, Return MSG_RESET)
    else match bq_enqueue t timeout q with
         | None => Some (q, Return MSG_TIMEOUT)
         | Some q => Some (q, Blocked tt)
         end
  else Some (bq_set_ptr (Some (bq_bwrptr q + sizeof_size_t)) (Some (bq_bwrptr q + bq_bsize q)) q, Return MSG_OK).

Definition obqGetEmptyBufferTimeoutS_resume (t : nat) (timeout msg : Z) (q : io_buffers_queue)
  : option (io_buffers_queue * outcome Z unit) :=
  if msg <? MSG_OK then Some (q, Return msg) else obqGetEmptyBufferTimeoutS t timeout q.

(** The size is stored and the buffer counted as full. *)
Definition obq_post (size : Z) (q : io_buffers_queue) : option io_buffers_queue :=
  mem ← wr_size (bq_buffers q) (bq_bwrptr q) size;
  Some (bq_set_ptr None (bq_top q) (bq_set_write (bq_bcounter q - 1) (bq_next q (bq_bwrptr q)) (bq_set_buffers mem q))).

Definition obqPostFullBufferS (size : Z) (q : io_buffers_queue) : option (io_buffers_queue * list event) :=
  _ ← check ((0 <? size) && (size <=? bq_bsize q - sizeof_size_t));
  _ ← check (negb (obqIsFullI q));
  q ← obq_post size q;
  Some (q, bq_notification q).

Definition obq_current (t : nat) (timeout : Z) (q : io_buffers_queue) : option (io_buffers_queue * outcome Z unit) :=
  match bq_ptr q with
  | None => obqGetEmptyBufferTimeoutS t timeout q
  | Some _ => Some (q, Return MSG_OK)
  end.

(** [n] of the bytes [bs] to the current buffer, which is posted when it is full. *)
Definition obq_advance (bs : list Z) (n : Z) (q : io_buffers_queue) : option (io_buffers_queue * list event) :=
  ptr ← bq_ptr q;
  top ← bq_top q;
  mem ← memcpy (bq_buffers q) ptr bs n;
  let q := bq_set_ptr (Some (ptr + n)) (Some top) (bq_set_buffers mem q) in
  if top <=? ptr + n then obqPostFullBufferS (bq_bsize q - sizeof_size_t) q else Some (q, []).

Definition obq_put (b : Z) (q : io_buffers_queue) (o : outcome Z unit)
  : option (io_buffers_queue * outcome Z unit * list event) :=
  match o with
  | Return msg =>
      if negb (msg =? MSG_OK) then Some (q, Return msg, [])
      else '(q, ev) ← obq_advance [b] 1 q; Some (q, Return MSG_OK, ev)
  | o => Some (q, o, [])
  end.

Definition obqPutTimeout (t : nat) (b timeout : Z) (q : io_buffers_queue)
  : option (io_buffers_queue * outcome Z unit * list event) :=
  '(q, o) ← obq_current t timeout q; obq_put b q o.
Definition obqPutTimeout_resume (t : nat) (b timeout msg : Z) (q : io_buffers_queue)
  : option (io_buffers_queue * outcome Z unit * list event) :=
  '(q, o) ← obqGetEmptyBufferTimeoutS_resume t timeout msg q; obq_put b q o.

(** [w] bytes are written, [bp] is still to write. *)
Definition obq_write (w : Z) (bp : list Z) (q : io_buffers_queue) (o : outcome Z unit)
  : option (io_buffers_queue * outcome Z (Z * list Z) * list event) :=
  match o with
  | Return msg =>
      if negb (msg =? MSG_OK) then Some (q, Return w, [])
      else
        ptr ← bq_ptr q;
        top ← bq_top q;
        let n := Z.of_nat (length bp) in
        let size := if n <? top - ptr then n else top - ptr in
        let size := if BUFFERS_CHUNKS_SIZE <? size then BUFFERS_CHUNKS_SIZE else size in
        '(q, ev) ← obq_advance bp size q;
        if n - size <=? 0 then Some (q, Return (w + size), ev)
        else Some (q, More (w + size, drop (Z.to_nat size) bp), ev)
  | _ => Some (q, Blocked (w, bp), [])
  end.

Definition obqWriteTimeout_step (t : nat) (timeout : Z) (st : Z * list Z) (q : io_buffers_queue)
  : option (io_buffers_queue * outcome Z (Z * list Z) * list event) :=
  _ ← check (0 <? Z.of_nat (length (snd st))); '(q, o) ← obq_current t timeout q; obq_write (fst st) (snd st) q o.
Definition obqWriteTimeout_resume (t : nat) (timeout msg : Z) (st : Z * list Z) (q : io_buffers_queue)
  : option (io_buffers_queue * outcome Z (Z * list Z) * list event) :=
  '(q, o) ← obqGetEmptyBufferTimeoutS_resume t timeout msg q; obq_write (fst st) (snd st) q o.

Definition obqTryFlushI (q : io_buffers_queue) : option (io_buffers_queue * bool) :=
  if obqIsEmptyI q then
    match bq_ptr q with
    | Some ptr =>
        let size := ptr - (bq_bwrptr q + sizeof_size_t) in
        if 0 <? size then q ← obq_post size q; Some (q, true) else Some (q, false)
    | None => Some (q, false)
    end
  else Some (q, false).

Definition obqFlush (q : io_buffers_queue) : option (io_buffers_queue * list event) :=
  match bq_ptr q with
  | Some ptr =>
      let size := ptr - bq_bwrptr q - sizeof_size_t in
      if 0 <? size then obqPostFullBufferS size q else Some (q, [])
  | None => Some (q, [])
  end.

(** ** The queues as components with wait queues *)

(** What interrupts do: the driver of an input queue posts a buffer with the bytes it
    has received, if one is free; that of an output queue takes the first full buffer. *)
Inductive ibq_op := IbqPost (bs : list Z) | IbqReset | IbqSuspend | IbqResume.
Inductive obq_op := ObqTake | ObqTryFlush | ObqFlush | ObqReset | ObqSuspend | ObqResume.

Definition ibq_exec (i : ibq_op) (q : io_buffers_queue) : option (io_buffers_queue * list event) :=
  match i with
  | IbqPost bs =>
      match ibqGetEmptyBufferI q with
      | None => Some (q, [])
      | Some p =>
          mem ← memcpy (bq_buffers q) p bs (Z.of_nat (length bs));
          ibqPostFullBufferI (Z.of_nat (length bs)) (bq_set_buffers mem q)
      end
  | IbqReset => Some (ibqResetI q)
  | IbqSuspend => Some (bqSuspendI q)
  | IbqResume => Some (bqResumeX q, [])
  end.

Definition obq_exec (i : obq_op) (q : io_buffers_queue) : option (io_buffers_queue * list Z * list event) :=
  match i with
  | ObqTake =>
      r ← obqGetFullBufferI q;
      match r with
      | None => Some (q, [], [])
      | Some (size, p) =>
          _ ← check (p + size <=? Z.of_nat (length (bq_buffers q)));
          '(q', ev) ← obqReleaseEmptyBufferI q;
          Some (q', take (Z.to_nat size) (drop (Z.to_nat p) (bq_buffers q)), ev)
      end
  | ObqTryFlush => '(q, _) ← obqTryFlushI q; Some (q, [], [])
  | ObqFlush => '(q, ev) ← obqFlush q; Some (q, [], ev)
  | ObqReset => let '(q, ev) := obqResetI q in Some (q, [], ev)
  | ObqSuspend => let '(q, ev) := bqSuspendI q in Some (q, [], ev)
  | ObqResume => Some (bqResumeX q, [], [])
  end.

(** The calls of threads: a byte, or a block in progress. *)
Inductive ibq_call := IbqGet (timeout : Z) | IbqRead (timeout : Z) (st : list Z * Z).
Inductive obq_call := ObqPut (timeout b : Z) | ObqWrite (timeout : Z) (st : Z * list Z).

(** The result, and the bytes that the caller has then. *)
Definition ibq_do (t : nat) (resumed : option Z) (c : ibq_call) (q : io_buffers_queue)
  : option (io_buffers_queue * outcome (Z * list Z) ibq_call * list event) :=
  match c with
  | IbqGet timeout =>
      '(q, o, ev) ← match resumed with
                    | None => ibqGetTimeout t timeout q
                    | Some msg => ibqGetTimeout_resume t timeout msg q
                    end;
      Some (q, outcome_map (fun r => (r, if 0 <=? r then [r] else [])) (fun _ => c) o, ev)
  | IbqRead timeout st =>
      '(q, o, ev) ← match resumed with
                    | None => ibqReadTimeout_step t timeout st q
                    | Some msg => ibqReadTimeout_resume t timeout msg st q
                    end;
      Some (q, outcome_map id (IbqRead timeout) o, ev)
  end.

Definition obq_do (t : nat) (resumed : option Z) (c : obq_call) (q : io_buffers_queue)
  : option (io_buffers_queue * outcome Z obq_call * list event) :=
  match c with
  | ObqPut timeout b =>
      '(q, o, ev) ← match resumed with
                    | None => obqPutTimeout t b timeout q
                    | Some msg => obqPutTimeout_resume t b timeout msg q
                    end;
      Some (q, outcome_map id (fun _ => c) o, ev)
  | ObqWrite timeout st =>
      '(q, o, ev) ← match resumed with
                    | None => obqWriteTimeout_step t timeout st q
                    | Some msg => obqWriteTimeout_resume t timeout msg st q
                    end;
      Some (q, outcome_map id (ObqWrite timeout) o, ev)
  end.

(** The timer of a waiting thread expires. *)
Definition bq_expire (t : nat) (q : io_buffers_queue) : io_buffers_queue :=
  bq_set_waiting (fst (sch_wakeup t (bq_waiting q))) q.

#[export] Instance ibq_channel : Channel io_buffers_queue ibq_op ibq_call (Z * list Z) := {
  ch_waiting := fun s q => if s then bq_waiting q else [];
  ch_avail := fun s q => if s then bq_bcounter q else 0;
  ch_side := fun _ => true;
  ch_isr := ibq_exec;
  ch_call := fun t c q => ibq_do t None c q;
  ch_resume := fun t msg c q => ibq_do t (Some msg) c q;
  ch_expire := fun s t q => if s then bq_expire t q else q
}.

#[export] Instance obq_channel : Channel io_buffers_queue obq_op obq_call Z := {
  ch_waiting := fun s q => if s then bq_waiting q else [];
  ch_avail := fun s q => if s then bq_bcounter q else 0;
  ch_side := fun _ => true;
  ch_isr := fun i q => '(q, _, ev) ← obq_exec i q; Some (q, ev);
  ch_call := fun t c q => obq_do t None c q;
  ch_resume := fun t msg c q => obq_do t (Some msg) c q;
  ch_expire := fun s t q => if s then bq_expire t q else q
}.
