(* ===== verification/BuffersSpec.v ===== *)
(** * Queues of buffers in memory, and as streams for one thread (hal_buffers.c)

    The memory of a queue as a ring of slots that hold packets ([bq_ok]), and what
    posting and releasing a buffer do to it.  [StreamQueue] and [StreamLaws] state what
    makes a queue a stream of bytes for one thread; the section [OneThread] proves,
    against them, that the queue stays one through any sequence of calls, interrupts and
    timeouts. *)

From stdpp Require Import gmap.
From S2P Require Import Prelude CInt CLib Words Threads Rings Buffers.
#[local] Open Scope Z_scope.

(** ** Buffers in memory *)

(** The [k]-th buffer, and the data it holds. *)
Definition slot (q : io_buffers_queue) (k : Z) : list Z :=
  take (Z.to_nat (bq_bsize q)) (drop (Z.to_nat (bq_bsize q * k)) (bq_buffers q)).

Definition packet (s : list Z) : list Z := take (Z.to_nat (get_le 4 0 s)) (drop 4 s).

(** The [n] full buffers from the read pointer on. *)
Definition bq_packets (q : io_buffers_queue) (n : Z) : list (list Z) :=
  (fun i => packet (slot q ((bq_brdptr q / bq_bsize q + Z.of_nat i) mod bq_bn q))) <$> seq 0 (Z.to_nat n).

Definition holds (bsize : Z) (s p : list Z) : Prop :=
  1 <= Z.of_nat (length p) <= bsize - 4 /\ get_le 4 0 s = Z.of_nat (length p) /\ take (length p) (drop 4 s) = p.

(** The queue's memory and pointers; the full buffers hold [pk]. *)
Record bq_ok (q : io_buffers_queue) (r : Z) (pk : list (list Z)) : Prop := {
  ok_bn : 0 < bq_bn q;
  ok_bsize : 6 <= bq_bsize q;
  ok_fit : bq_bsize q * bq_bn q < 2 ^ 32;
  ok_mem : Z.of_nat (length (bq_buffers q)) = bq_bsize q * bq_bn q;
  ok_btop : bq_btop q = bq_bsize q * bq_bn q;
  ok_r : 0 <= r < bq_bn q;
  ok_rd : bq_brdptr q = bq_bsize q * r;
  ok_wr : bq_bwrptr q = bq_bsize q * ((r + Z.of_nat (length pk)) mod bq_bn q);
  ok_len : Z.of_nat (length pk) <= bq_bn q;
  ok_pk : forall i p, pk !! i = Some p -> holds (bq_bsize q) (slot q ((r + Z.of_nat i) mod bq_bn q)) p
}.

(** With buffers of whole words every size word lies at a whole word, so that the
    accesses of [rd_size] and [wr_size] are aligned when the memory is. *)
Lemma size_words_aligned q r pk :
  bq_ok q r pk -> (4 | bq_bsize q) -> (4 | bq_brdptr q) /\ (4 | bq_bwrptr q).
Proof.
  intros H Hd. rewrite (ok_rd _ _ _ H), (ok_wr _ _ _ H). split; apply Z.divide_mul_l, Hd.
Qed.

Lemma holds_packet bsize s p : holds bsize s p -> packet s = p.
Proof. intros (_ & E & Et). unfold packet. rewrite E, Nat2Z.id. exact Et. Qed.

Lemma bq_packets_eq q r pk : bq_ok q r pk -> bq_packets q (Z.of_nat (length pk)) = pk.
Proof.
  intros H. unfold bq_packets. rewrite Nat2Z.id. apply list_eq. intros i. rewrite list_lookup_fmap.
  rewrite (ok_rd _ _ _ H), Z.mul_comm, Z.div_mul by (pose proof (ok_bsize _ _ _ H); lia).
  destruct (pk !! i) as [p|] eqn:E.
  - rewrite lookup_seq_lt by (apply lookup_lt_Some in E; exact E). cbn. f_equal. apply (holds_packet (bq_bsize q)), (ok_pk _ _ _ H), E.
  - rewrite lookup_seq_ge by (apply lookup_ge_None in E; exact E). reflexivity.
Qed.

(** Two buffers, and the writes inside one. *)
Lemma slot_range q r pk k : bq_ok q r pk -> 0 <= k < bq_bn q ->
  0 <= bq_bsize q * k /\ bq_bsize q * k + bq_bsize q <= Z.of_nat (length (bq_buffers q)) /\ length (slot q k) = Z.to_nat (bq_bsize q).
Proof.
  intros H Hk. pose proof (ok_mem _ _ _ H) as Hm. pose proof (ok_bsize _ _ _ H) as Hs.
  assert (bq_bsize q * k + bq_bsize q <= bq_bsize q * bq_bn q) by nia. split_and!; [nia|lia|].
  unfold slot. rewrite length_take, length_drop. lia.
Qed.

Definition wrote (q : io_buffers_queue) (k o : Z) (bs : list Z) : io_buffers_queue :=
  bq_set_buffers (set_bytes (Z.to_nat (bq_bsize q * k + o)) bs (bq_buffers q)) q.

Lemma slot_wrote q r pk k o bs k' : bq_ok q r pk -> 0 <= k < bq_bn q -> 0 <= k' < bq_bn q ->
  0 <= o -> o + Z.of_nat (length bs) <= bq_bsize q ->
  slot (wrote q k o bs) k' = if decide (k' = k) then set_bytes (Z.to_nat o) bs (slot q k) else slot q k'.
Proof.
  intros H Hk Hk' Ho Hl. destruct (slot_range q r pk k H Hk) as (R1 & R2 & _). destruct (slot_range q r pk k' H Hk') as (R3 & R4 & _).
  pose proof (ok_bsize _ _ _ H) as Hs. unfold slot, wrote. cbn [bq_bsize bq_buffers bq_set_buffers].
  rewrite Z2Nat.inj_add by lia. case_decide as Hd; [subst k'; apply slice_set_inside; lia|]. apply slice_set_other; [lia|].
  assert (k < k' \/ k' < k) as [Hlt|Hlt] by lia; [left|right]; nia.
Qed.

Lemma wrote_length q r pk k o bs : bq_ok q r pk -> 0 <= k < bq_bn q -> 0 <= o -> o + Z.of_nat (length bs) <= bq_bsize q ->
  length (bq_buffers (wrote q k o bs)) = length (bq_buffers q).
Proof.
  intros H Hk Ho Hl. destruct (slot_range q r pk k H Hk) as (R1 & R2 & _). cbn. apply set_bytes_length. lia.
Qed.

(** Writing to a free buffer changes nothing that counts. *)
Lemma wrote_ok q r pk k o bs : bq_ok q r pk -> 0 <= o -> o + Z.of_nat (length bs) <= bq_bsize q ->
  Z.of_nat (length pk) < bq_bn q -> k = (r + Z.of_nat (length pk)) mod bq_bn q -> bq_ok (wrote q k o bs) r pk.
Proof.
  intros H Ho Hl Hlt Ek. pose proof (ok_bn _ _ _ H) as Hbn. assert (Hk : 0 <= k < bq_bn q) by (subst k; apply Z.mod_pos_bound; lia).
  constructor; try apply H; [rewrite (wrote_length q r pk k o bs) by assumption; apply H|].
  intros i p Hp. pose proof (lookup_lt_Some _ _ _ Hp) as Hi. cbn [bq_bsize bq_bn wrote bq_set_buffers].
  rewrite (slot_wrote q r pk k o bs _ H Hk) by (try assumption; apply Z.mod_pos_bound; lia).
  case_decide as Hd; [|apply H, Hp]. exfalso. revert Hd. rewrite Ek. apply mod_distinct; lia.
Qed.

(** A buffer with its size and its data. *)
Lemma posted_holds q r pk k p o : bq_ok q r pk -> 0 <= k < bq_bn q -> 1 <= Z.of_nat (length p) <= bq_bsize q - 4 ->
  take (length p) (drop 4 (slot q k)) = p -> o = 0 ->
  holds (bq_bsize q) (slot (wrote q k o (le_bytes 4 (Z.of_nat (length p)))) k) p.
Proof.
  intros H Hk Hl Hd ->. pose proof (ok_fit _ _ _ H). pose proof (ok_bn _ _ _ H).
  assert (bq_bsize q <= bq_bsize q * bq_bn q) by (pose proof (ok_bsize _ _ _ H); nia).
  rewrite (slot_wrote q r pk k 0 _ k H Hk Hk ltac:(lia)) by (rewrite le_bytes_length; lia).
  rewrite decide_True by reflexivity. unfold set_bytes. change (take (Z.to_nat 0) (slot q k)) with (@nil Z). rewrite app_nil_l, le_bytes_length. split_and!; try lia.
  - apply get_le_here. change (256 ^ Z.of_nat 4) with (2 ^ 32). lia.
  - rewrite (drop_app_ge (le_bytes 4 (Z.of_nat (length p)))) by (rewrite le_bytes_length; lia).
    rewrite le_bytes_length, Nat.sub_diag, drop_0. exact Hd.
Qed.

(** ** Posting and releasing buffers *)

Lemma bq_ok_frame q q' r pk : bq_ok q r pk ->
  bq_bn q' = bq_bn q -> bq_bsize q' = bq_bsize q -> bq_buffers q' = bq_buffers q -> bq_btop q' = bq_btop q ->
  bq_brdptr q' = bq_brdptr q -> bq_bwrptr q' = bq_bwrptr q -> bq_ok q' r pk.
Proof. intros [] E1 E2 E3 E4 E5 E6. constructor; unfold slot; rewrite ?E1, ?E2, ?E3, ?E4, ?E5, ?E6; assumption. Qed.

Lemma bq_next_eq q r pk k : bq_ok q r pk -> 0 <= k < bq_bn q -> bq_next q (bq_bsize q * k) = bq_bsize q * ((k + 1) mod bq_bn q).
Proof.
  intros H Hk. pose proof (ok_bsize _ _ _ H). unfold bq_next. rewrite (ok_btop _ _ _ H).
  destruct (Z.eq_dec (k + 1) (bq_bn q)) as [E|E].
  - rewrite E, Z_mod_same_full, (proj2 (Z.leb_le _ _)) by nia. lia.
  - rewrite (Z.mod_small (k + 1)) by lia. rewrite (proj2 (Z.leb_gt _ _)) by nia. lia.
Qed.

(** The write pointer's buffer. *)
Definition wslot (q : io_buffers_queue) (r : Z) (pk : list (list Z)) : Z := (r + Z.of_nat (length pk)) mod bq_bn q.

Lemma wslot_range q r pk : bq_ok q r pk -> 0 <= wslot q r pk < bq_bn q.
Proof. intros H. apply Z.mod_pos_bound, H. Qed.

Lemma bq_post_ok q r pk p cnt : bq_ok q r pk -> Z.of_nat (length pk) < bq_bn q -> 1 <= Z.of_nat (length p) <= bq_bsize q - 4 ->
  take (length p) (drop 4 (slot q (wslot q r pk))) = p ->
  exists mem, wr_size (bq_buffers q) (bq_bwrptr q) (Z.of_nat (length p)) = Some mem /\
    bq_ok (bq_set_write cnt (bq_next q (bq_bwrptr q)) (bq_set_buffers mem q)) r (pk ++ [p]).
Proof.
  intros H Hlt Hl Hd. pose proof (wslot_range q r pk H) as Hw. destruct (slot_range q r pk _ H Hw) as (R1 & R2 & _).
  pose proof (ok_bsize _ _ _ H) as Hs. assert (Ewr : bq_bwrptr q = bq_bsize q * wslot q r pk) by apply H.
  set (bs := le_bytes 4 (Z.of_nat (length p))). exists (bq_buffers (wrote q (wslot q r pk) 0 bs)). split.
  - unfold wr_size, sizeof_size_t. rewrite Ewr, check_true by (apply andb_true_intro; rewrite !Z.leb_le; lia). cbn [mbind option_bind].
    unfold wrote. rewrite Z.add_0_r. reflexivity.
  - set (q1 := wrote q (wslot q r pk) 0 bs).
    assert (H1 : bq_ok q1 r pk) by (apply wrote_ok; auto; [lia|unfold bs; rewrite le_bytes_length; lia]).
    rewrite Ewr, (bq_next_eq q r pk) by assumption. change (bq_set_buffers (bq_buffers q1) q) with q1.
    assert (Hp : holds (bq_bsize q) (slot q1 (wslot q r pk)) p) by (apply (posted_holds q r pk); auto).
    constructor; try apply H1; cbn [bq_bn bq_bsize bq_bwrptr bq_set_write]; rewrite ?length_app; cbn [length].
    + f_equal. unfold wslot. rewrite Zplus_mod_idemp_l. f_equal. lia.
    + change (bq_bn q1) with (bq_bn q). lia.
    + intros i x Hx. change (bq_bsize q1) with (bq_bsize q). change (bq_bn q1) with (bq_bn q).
      change (slot (bq_set_write cnt (bq_bsize q * ((wslot q r pk + 1) mod bq_bn q)) q1)) with (slot q1).
      apply lookup_app_Some in Hx as [Hx|[Hge Hx]].
      * apply (ok_pk _ _ _ H1 i x Hx).
      * destruct (i - length pk)%nat as [|j] eqn:Ei; [injection Hx as <-|discriminate]. replace (Z.of_nat i) with (Z.of_nat (length pk)) by lia.
        exact Hp.
Qed.

Lemma bq_release_ok q r p pk cnt : bq_ok q r (p :: pk) -> bq_ok (bq_set_read cnt (bq_next q (bq_brdptr q)) q) ((r + 1) mod bq_bn q) pk.
Proof.
  intros H. pose proof (ok_bn _ _ _ H) as Hbn. assert (Er : bq_brdptr q = bq_bsize q * r) by apply H.
  rewrite Er, (bq_next_eq q r (p :: pk) r H) by apply H.
  constructor; try apply H; cbn [bq_bn bq_bsize bq_bwrptr bq_brdptr bq_set_read].
  - apply Z.mod_pos_bound. exact Hbn.
  - reflexivity.
  - rewrite (ok_wr _ _ _ H), Zplus_mod_idemp_l. f_equal. f_equal. cbn [length]. lia.
  - pose proof (ok_len _ _ _ H) as Hl. cbn [length] in Hl. lia.
  - intros i x Hx. rewrite Zplus_mod_idemp_l. replace (r + 1 + Z.of_nat i) with (r + Z.of_nat (S i)) by lia. apply (ok_pk _ _ _ H (S i) x Hx).
Qed.

(** After a reset. *)
Lemma bq_ok_empty q r pk cnt : bq_ok q r pk -> bq_ok (bq_set_ptr None None (bq_set_write cnt 0 (bq_set_read cnt 0 q))) 0 [].
Proof.
  intros H. pose proof (ok_bn _ _ _ H). constructor; try apply H; cbn; [lia|lia|rewrite Z.mod_0_l by lia; lia|lia|discriminate].
Qed.

(** Both pointers agree just when no buffer or every buffer is full. *)
Lemma bq_pointers q r pk : bq_ok q r pk ->
  (bq_bwrptr q =? bq_brdptr q) = (Z.of_nat (length pk) =? 0) || (Z.of_nat (length pk) =? bq_bn q).
Proof.
  intros H. destruct H as [A1 A2 A3 A4 A5 A6 A7 A8 A9 _]. rewrite A7, A8.
  set (n := Z.of_nat (length pk)) in *. apply Bool.eq_iff_eq_true. rewrite orb_true_iff, !Z.eqb_eq. split.
  - intros E. apply Z.mul_reg_l in E; [|lia]. destruct (Z.eq_dec n 0) as [|Hn]; [auto|]. right.
    destruct (Z.eq_dec n (bq_bn q)) as [|Hn2]; [assumption|exfalso].
    apply (mod_distinct r 0 n (bq_bn q)); try lia. rewrite Z.add_0_r, E. apply Z.mod_small. lia.
  - intros [-> | ->]; [rewrite Z.add_0_r, Z.mod_small by lia; reflexivity|].
    replace (r + bq_bn q) with (r + 1 * bq_bn q) by lia. rewrite Z_mod_plus_full, Z.mod_small by lia. reflexivity.
Qed.

(** The bytes of a full buffer, read at an offset. *)
Lemma read_packet q r pk i p o n : bq_ok q r pk -> pk !! i = Some p -> 0 <= o -> 0 <= n -> o + n <= Z.of_nat (length p) ->
  let base := bq_bsize q * ((r + Z.of_nat i) mod bq_bn q) in
  0 <= base /\ base + bq_bsize q <= Z.of_nat (length (bq_buffers q)) /\
  take (Z.to_nat n) (drop (Z.to_nat (base + 4 + o)) (bq_buffers q)) = take (Z.to_nat n) (drop (Z.to_nat o) p).
Proof.
  intros H Hp Ho Hn Hle base. pose proof (ok_bn _ _ _ H) as Hbn. pose proof (ok_bsize _ _ _ H) as Hs.
  assert (Hk : 0 <= (r + Z.of_nat i) mod bq_bn q < bq_bn q) by (apply Z.mod_pos_bound; lia).
  destruct (slot_range q r pk _ H Hk) as (R1 & R2 & _). split; [exact R1|]. split; [exact R2|].
  destruct (ok_pk _ _ _ H i p Hp) as (Hl & _ & Et). transitivity (take (Z.to_nat n) (drop (Z.to_nat o) (take (length p) (drop 4 (slot q ((r + Z.of_nat i) mod bq_bn q)))))); [|rewrite Et; reflexivity]. unfold slot.
  rewrite !slice_slice by lia.
  fold base. do 2 f_equal. lia.
Qed.

Lemma read_size q r pk p : bq_ok q r (p :: pk) -> rd_size (bq_buffers q) (bq_brdptr q) = Some (Z.of_nat (length p)).
Proof.
  intros H. pose proof (ok_bsize _ _ _ H) as Hs. pose proof (ok_r _ _ _ H) as Hr. destruct (slot_range q r _ r H Hr) as (R1 & R2 & _).
  unfold rd_size, sizeof_size_t. rewrite (ok_rd _ _ _ H), check_true by (apply andb_true_intro; rewrite !Z.leb_le; lia). cbn [mbind option_bind].
  destruct (ok_pk _ _ _ H 0%nat p eq_refl) as (_ & E & _). rewrite Z.add_0_r, Z.mod_small in E by exact Hr. rewrite <- E. f_equal.
  unfold get_le, slot. rewrite (slice_slice _ _ 0) by lia. rewrite Nat.add_0_r. reflexivity.
Qed.

(** Bytes for the free buffer, from its [o]-th byte on. *)
Lemma bq_memcpy q r pk o bs n : bq_ok q r pk -> 0 <= o -> 0 <= n <= Z.of_nat (length bs) -> o + n <= bq_bsize q ->
  exists mem, memcpy (bq_buffers q) (bq_bwrptr q + o) bs n = Some mem /\
    bq_set_buffers mem q = wrote q (wslot q r pk) o (take (Z.to_nat n) bs).
Proof.
  intros H Ho Hn Hl. pose proof (wslot_range q r pk H) as Hw. destruct (slot_range q r pk _ H Hw) as (R1 & R2 & R3).
  assert (Ewr : bq_bwrptr q = bq_bsize q * wslot q r pk) by apply H. eexists. split.
  - unfold memcpy. rewrite (proj2 (andb_true_iff _ _)) by (rewrite !andb_true_iff, !Z.leb_le; lia). reflexivity.
  - unfold wrote, set_bytes. rewrite Ewr, length_take, Nat.min_l by lia. do 4 f_equal. lia.
Qed.

Lemma set_bytes_append k u x l : length u = k -> take k (drop 4 l) = u -> (4 + k <= length l)%nat ->
  take (length (u ++ x)) (drop 4 (set_bytes (4 + k) x l)) = u ++ x.
Proof.
  intros Hk Hu Hl. unfold set_bytes. rewrite drop_app_le by (rewrite length_take; lia).
  rewrite skipn_firstn_comm. replace (4 + k - 4)%nat with k by lia. rewrite Hu, app_assoc. apply take_app_length.
Qed.

(** The driver's bytes go to the free buffer. *)
Lemma bq_fill q r pk bs : bq_ok q r pk -> Z.of_nat (length pk) < bq_bn q -> 1 <= Z.of_nat (length bs) <= bq_bsize q - 4 ->
  exists mem, memcpy (bq_buffers q) (bq_bwrptr q + 4) bs (Z.of_nat (length bs)) = Some mem /\
    bq_ok (bq_set_buffers mem q) r pk /\ take (length bs) (drop 4 (slot (bq_set_buffers mem q) (wslot q r pk))) = bs.
Proof.
  intros H Hlt Hl. pose proof (wslot_range q r pk H) as Hw. destruct (slot_range q r pk _ H Hw) as (R1 & R2 & R3).
  destruct (bq_memcpy q r pk 4 bs (Z.of_nat (length bs)) H) as (mem & Em & E); try lia. rewrite Nat2Z.id, firstn_all in E.
  exists mem. split; [exact Em|]. rewrite E. split; [apply wrote_ok; auto; lia|].
  rewrite (slot_wrote q r pk) by (auto; lia). rewrite decide_True by reflexivity. apply (set_bytes_append 0 []); [reflexivity|reflexivity|lia].
Qed.

(** ** One thread at a queue *)

(** What an operation does to a wait queue of at most one thread. *)
Definition wakes_one (q q' : io_buffers_queue) (ev : list event) : Prop :=
  (bq_waiting q = [] -> bq_waiting q' = [] /\ wakes ev = []) /\
  (forall t, bq_waiting q = [t] -> bq_waiting q' = [] /\ exists msg, msg <= MSG_OK /\ wakes ev = [(t, msg)]).

Lemma dequeue_one f msg q : f = chThdDequeueNextI \/ f = chThdDequeueAllI -> msg <= MSG_OK ->
  exists q' ev, bq_dequeue f msg q = (q', ev) /\ q' = bq_set_waiting (bq_waiting q') q /\ wakes_one q q' ev.
Proof.
  intros Hf Hm. unfold bq_dequeue. destruct (f (bq_waiting q) msg) as [ts ev] eqn:E. do 2 eexists. split; [reflexivity|]. split; [reflexivity|].
  split; [intros Hw|intros t Hw]; rewrite Hw in E; destruct Hf as [-> | ->]; cbn in E; injection E as <- <-; cbn; eauto.
Qed.

Definition thread_map {C} (t : nat) (st : option (tstate C)) : gmap nat (tstate C) :=
  match st with Some st => {[t := st]} | None => ∅ end.

Lemma thread_map_lookup {C} t (st : option (tstate C)) t' : thread_map t st !! t' = if decide (t' = t) then st else None.
Proof. destruct st as [st|]; cbn; case_decide as Hd; subst; simplify_map_eq; reflexivity. Qed.

Lemma thread_map_wake {C} t (c : C) msg : wake_all [(t, msg)] (thread_map t (Some (Suspended c))) = thread_map t (Some (Ready c msg)).
Proof. cbn. unfold wake_one. cbn. rewrite lookup_singleton_eq. apply insert_singleton_eq. Qed.

Lemma thread_map_settle {R C} t (st : option (tstate C)) (o : outcome R C) :
  settle t o (thread_map t st) = thread_map t (match o with Return _ => None | Blocked c => Some (Suspended c) | More c => Some (Running c) end).
Proof.
  apply map_eq. intros t'. rewrite thread_map_lookup. destruct (decide (t' = t)) as [->|Hd]; destruct o; cbn [settle];
    rewrite ?lookup_insert_eq, ?lookup_delete_eq, ?lookup_insert_ne, ?lookup_delete_ne by congruence; try reflexivity;
    rewrite thread_map_lookup, decide_False by exact Hd; reflexivity.
Qed.

(** What makes a queue of buffers a stream of bytes for one thread: [sq_holds] the bytes
    in it, [sq_idle] that there is nothing to do, [sq_flow] what a part of a call does
    with the bytes, and [sq_after] what an interrupt does with them. *)
Class StreamQueue (I C R : Type) `{Channel io_buffers_queue I C R} := {
  sq_holds : io_buffers_queue -> list Z -> Prop;
  sq_idle : io_buffers_queue -> list Z -> Prop;
  sq_call_ok : C -> Prop;
  sq_flow : C -> list Z -> R + C -> list Z -> Prop;
  sq_isr_ok : I -> io_buffers_queue -> Prop;
  sq_after : I -> io_buffers_queue -> list Z -> list Z -> Prop
}.

Section Part.
Context {I C R : Type} `{StreamQueue I C R}.

(** A part of the call [c] of the thread [t] at a queue with the bytes [s]. *)
Definition sq_ran (t : nat) (c : C) (s : list Z) (r : option (io_buffers_queue * outcome R C * list event)) : Prop :=
  exists q o ev s', r = Some (q, o, ev) /\ wakes ev = [] /\ sq_holds q s' /\
    match o with
    | Return v => bq_waiting q = [] /\ sq_flow c s (inl v) s'
    | More c' => bq_waiting q = [] /\ sq_flow c s (inr c') s' /\ sq_call_ok c'
    | Blocked c' => bq_waiting q = [t] /\ sq_flow c s (inr c') s' /\ sq_call_ok c' /\ bq_ptr q = None /\ sq_idle q s'
    end.

End Part.

Class StreamLaws (I C R : Type) `{StreamQueue I C R} := {
  sq_side : forall c, ch_side c = true;
  sq_expire : forall t q, ch_expire true t q = bq_expire t q;
  sq_waiting : forall ts q s, sq_holds q s -> sq_holds (bq_set_waiting ts q) s;
  sq_call_law : forall t c q s, sq_holds q s -> bq_waiting q = [] -> sq_call_ok c -> sq_ran t c s (ch_call t c q);
  sq_resume_law : forall t msg c q s, sq_holds q s -> bq_waiting q = [] -> bq_ptr q = None -> msg <= MSG_OK -> sq_call_ok c ->
    sq_ran t c s (ch_resume t msg c q);
  sq_isr_law : forall i q s, sq_holds q s -> sq_isr_ok i q ->
    exists q' ev s', ch_isr i q = Some (q', ev) /\ sq_holds q' s' /\ sq_after i q s s' /\ (bq_ptr q = None -> bq_ptr q' = None) /\
      (wakes_one q q' ev \/ wakes ev = [] /\ bq_waiting q' = bq_waiting q /\ (bq_ptr q = None -> sq_idle q s -> sq_idle q' s'))
}.

Section OneThread.
Context {I C R : Type} `{StreamLaws I C R}.

(** What may happen: the thread [t] starts a call, an interrupt occurs, a ready thread
    runs, a timer expires. *)
Definition sq_event_ok (t : nat) (e : sys_event I C) (sy : system io_buffers_queue C) : Prop :=
  sys_enabled e sy = true /\
  match e with
  | EvIsr i => sq_isr_ok i (sy_obj sy)
  | EvCall t' c => t' = t /\ sq_call_ok c
  | _ => True
  end.

Inductive sq_reach (t : nat) (q0 : io_buffers_queue) : system io_buffers_queue C -> Prop :=
| sq_reach_init : sq_reach t q0 (Sys q0 ∅)
| sq_reach_step e sy sy' : sq_reach t q0 sy -> sq_event_ok t e sy -> sys_step e sy = Some sy' -> sq_reach t q0 sy'.

(** The call in progress. *)
Definition call_of (t : nat) (sy : system io_buffers_queue C) : option C :=
  match sy_threads sy !! t with
  | Some (Suspended c) | Some (Ready c _) | Some (Running c) => Some c
  | None => None
  end.

(** What the thread's state means for the queue with the bytes [s]. *)
Definition sq_thread_ok (t : nat) (st : option (tstate C)) (q : io_buffers_queue) (s : list Z) : Prop :=
  match st with
  | None => bq_waiting q = []
  | Some (Running c) => bq_waiting q = [] /\ sq_call_ok c
  | Some (Ready c msg) => bq_waiting q = [] /\ sq_call_ok c /\ bq_ptr q = None /\ msg <= MSG_OK
  | Some (Suspended c) => bq_waiting q = [t] /\ sq_call_ok c /\ bq_ptr q = None /\ sq_idle q s
  end.

Definition sq_sys_ok (t : nat) (sy : system io_buffers_queue C) (s : list Z) : Prop :=
  sq_holds (sy_obj sy) s /\ exists st, sy_threads sy = thread_map t st /\ sq_thread_ok t st (sy_obj sy) s.

(** A part of the call [c] has come to a result or to a call that goes on. *)
Definition sq_went (t : nat) (c : C) (s : list Z) (rets : list (nat * R)) (sy : system io_buffers_queue C) (s' : list Z) : Prop :=
  exists o, rets = match o with inl r => [(t, r)] | inr _ => [] end /\
    call_of t sy = match o with inl _ => None | inr c' => Some c' end /\ sq_flow c s o s'.

Definition sq_stepped (t : nat) (e : sys_event I C) (sy : system io_buffers_queue C) (s : list Z)
    (sy' : system io_buffers_queue C) (s' : list Z) : Prop :=
  match e with
  | EvIsr i => call_of t sy' = call_of t sy /\ sq_after i (sy_obj sy) s s'
  | EvTimeout _ => call_of t sy' = call_of t sy /\ s' = s
  | EvCall _ c => call_of t sy = None /\ sq_went t c s (sys_returns e sy) sy' s'
  | EvRun _ => exists c, call_of t sy = Some c /\ sq_went t c s (sys_returns e sy) sy' s'
  end.

Lemma call_of_eq t sy st : sy_threads sy = thread_map t st ->
  call_of t sy = match st with Some (Suspended c) | Some (Ready c _) | Some (Running c) => Some c | None => None end.
Proof. intros E. unfold call_of. rewrite E, thread_map_lookup, decide_True by reflexivity. reflexivity. Qed.

Lemma sq_part_ok t c s sy st r : sy_threads sy = thread_map t st -> sq_ran t c s r ->
  exists sy' s', after_call t sy r = Some sy' /\ sq_sys_ok t sy' s' /\ sq_went t c s (returned t r) sy' s'.
Proof.
  intros Et (q' & o & ev & s' & -> & Hev & H' & Ho). unfold after_call. cbn [mbind option_bind]. rewrite Hev, Et.
  change (wake_all [] (thread_map t st)) with (thread_map t st). rewrite thread_map_settle. eexists _, s'. split; [reflexivity|].
  unfold sq_sys_ok, sq_went. cbn [sy_obj sy_threads]. set (st' := match o with Return _ => None | _ => _ end).
  rewrite (call_of_eq t _ st') by reflexivity. subst st'. destruct o as [v|c'|c']; cbn [returned].
  - destruct Ho as [Hw Hf]. split; [|exists (inl v); auto]. split; [exact H'|]. exists None. split; [reflexivity|exact Hw].
  - destruct Ho as (Hw & Hf & Hc & Hp & Hi). split; [|exists (inr c'); auto]. split; [exact H'|]. exists (Some (Suspended c')).
    split; [reflexivity|]. cbn. auto.
  - destruct Ho as (Hw & Hf & Hc). split; [|exists (inr c'); auto]. split; [exact H'|]. exists (Some (Running c')). split; [reflexivity|]. cbn. auto.
Qed.

Lemma sq_isr_step t i sy s : sq_sys_ok t sy s -> sq_isr_ok i (sy_obj sy) ->
  exists sy' s', sys_step (EvIsr i) sy = Some sy' /\ sq_sys_ok t sy' s' /\ sq_stepped t (EvIsr i) sy s sy' s'.
Proof.
  intros [Hh (st & Et & Hst)] Hi. destruct (sq_isr_law i _ s Hh Hi) as (q' & ev & s' & Ex & H' & Ha & Hp & Hw).
  cbn [sys_step]. rewrite Ex. cbn [mbind option_bind].
  assert (E : exists st', wake_all (wakes ev) (thread_map t st) = thread_map t st' /\ sq_thread_ok t st' q' s' /\
    match st' with Some (Suspended c) | Some (Ready c _) | Some (Running c) => Some c | None => None end =
    match st with Some (Suspended c) | Some (Ready c _) | Some (Running c) => Some c | None => None end).
  { destruct Hw as [[Hn Hone]|(-> & Hw & Hs)].
    - destruct st as [[c|c msg|c]|]; cbn in Hst.
      + destruct Hst as (Hq & Hc & Hp0 & _). destruct (Hone t Hq) as (Hq' & msg & Hm & ->). exists (Some (Ready c msg)).
        split; [apply thread_map_wake|]. split; [|reflexivity]. cbn. auto.
      + destruct Hst as (Hq & Hc & Hp0 & Hm). destruct (Hn Hq) as [Hq' ->]. eexists. split; [reflexivity|]. split; [|reflexivity]. cbn. auto.
      + destruct Hst as [Hq Hc]. destruct (Hn Hq) as [Hq' ->]. eexists. split; [reflexivity|]. split; [|reflexivity]. cbn. auto.
      + destruct (Hn Hst) as [Hq' ->]. eexists. split; [reflexivity|]. split; [|reflexivity]. exact Hq'.
    - exists st. split; [reflexivity|]. split; [|reflexivity]. destruct st as [[c|c msg|c]|]; cbn in *; rewrite Hw; intuition. }
  destruct E as (st' & Ew & Hst' & Eg). eexists _, s'. split; [reflexivity|]. rewrite Et, Ew. split.
  - split; [exact H'|]. exists st'. split; [reflexivity|exact Hst'].
  - split; [|exact Ha]. rewrite (call_of_eq t sy st Et), <- Eg. apply call_of_eq. reflexivity.
Qed.

Lemma sq_step_ok t e sy s : sq_sys_ok t sy s -> sq_event_ok t e sy ->
  exists sy' s', sys_step e sy = Some sy' /\ sq_sys_ok t sy' s' /\ sq_stepped t e sy s sy' s'.
Proof.
  intros Hsy [Hen He]. pose proof Hsy as [Hh (st & Et & Hst)]. pose proof (call_of_eq t sy st Et) as Ec.
  assert (Hth : forall t' x, sy_threads sy !! t' = Some x -> t' = t /\ st = Some x).
  { intros t' x E. rewrite Et, thread_map_lookup in E. case_decide; [auto|discriminate]. }
  destruct e as [i|t' c|t'|t']; cbn [sys_enabled] in Hen.
  - exact (sq_isr_step t i sy s Hsy He).
  - destruct He as (-> & Hc). rewrite Et, thread_map_lookup, decide_True in Hen by reflexivity. destruct st as [x|]; [discriminate|].
    destruct (sq_part_ok t c s sy None (ch_call t c (sy_obj sy)) Et) as (sy' & s' & Es & Hok & Hw); [apply sq_call_law; assumption|].
    exists sy', s'. split; [exact Es|]. split; [exact Hok|]. split; [exact Ec|exact Hw].
  - unfold sq_stepped. cbn [sys_step sys_returns].
    destruct (sy_threads sy !! t') as [[c|c msg|c]|] eqn:E; try discriminate; destruct (Hth _ _ E) as [-> ->]; cbn in Hst.
    + destruct (sq_part_ok t c s sy _ (ch_resume t msg c (sy_obj sy)) Et) as (sy' & s' & Es & Hok & Hw); [apply sq_resume_law; tauto|]. eauto 10.
    + destruct (sq_part_ok t c s sy _ (ch_call t c (sy_obj sy)) Et) as (sy' & s' & Es & Hok & Hw); [apply sq_call_law; tauto|]. eauto 10.
  - unfold sq_stepped. cbn [sys_step].
    destruct (sy_threads sy !! t') as [[c|c msg|c]|] eqn:E; try discriminate. destruct (Hth _ _ E) as [-> ->]. cbn in Hst.
    destruct Hst as (Hw & Hc & Hp & Hi). exists (Sys (ch_expire (ch_side c) t (sy_obj sy)) (thread_map t (Some (Ready c MSG_TIMEOUT)))), s.
    rewrite Et, thread_map_wake, sq_side, sq_expire. split; [reflexivity|]. split; [|split; [rewrite Ec; apply (call_of_eq t _ (Some (Ready c MSG_TIMEOUT))); reflexivity|reflexivity]].
    split; [apply sq_waiting, Hh|]. eexists. split; [reflexivity|]. cbn. rewrite Hw. cbn. rewrite decide_False by auto. split_and!; auto. discriminate.
Qed.

Lemma sq_reach_ok t q0 s0 sy : sq_holds q0 s0 -> bq_waiting q0 = [] -> sq_reach t q0 sy -> exists s, sq_sys_ok t sy s.
Proof.
  intros Hs0 Hw0. induction 1 as [|e sy sy' Hr [s IH] He Es].
  - exists s0. split; [exact Hs0|]. exists None. split; [reflexivity|exact Hw0].
  - destruct (sq_step_ok t e sy s IH He) as (sy2 & s' & Es2 & Hok & _). rewrite Es in Es2. injection Es2 as <-. eauto.
Qed.

End OneThread.
