(* ===== verification/BuffersIn.v ===== *)
(** * Input queues of buffers as streams

    What a queue of buffers holds for its reader, [ibq_pending], and that for one reader
    thread, whatever interrupts, resets, suspensions and timeouts come in between, the
    bytes are passed on in order, no assertion fails, and the thread sleeps only when
    there is nothing to read.  With two readers this is not so, as the runs at the end
    show. *)

From stdpp Require Import gmap.
From S2P Require Import Prelude CInt CLib Words Threads Rings Buffers BuffersSpec.
#[local] Open Scope Z_scope.

(** ** Input queues as streams *)

(** The bytes that wait to be read: those of the full buffers without the part of the
    first one that has been read. *)
Definition ibq_pending (q : io_buffers_queue) : list Z :=
  drop (match bq_ptr q with Some p => Z.to_nat (p - (bq_brdptr q + sizeof_size_t)) | None => 0 end)
    (concat (bq_packets q (bq_bcounter q))).

(** The queue at rest holds the bytes [s]. *)
Definition ibq_holds (q : io_buffers_queue) (s : list Z) : Prop :=
  exists r pk, bq_ok q r pk /\ bq_bcounter q = Z.of_nat (length pk) /\ Forall (Forall is_byte) pk /\
    match bq_ptr q with
    | None => s = concat pk
    | Some a => exists p pk' k, pk = p :: pk' /\ (k < length p)%nat /\ a = bq_brdptr q + 4 + Z.of_nat k /\
        bq_top q = Some (bq_brdptr q + 4 + Z.of_nat (length p)) /\ s = drop k p ++ concat pk'
    end.

Lemma ibq_holds_pending q s : ibq_holds q s -> ibq_pending q = s.
Proof.
  intros (r & pk & Hok & Hc & _ & Hp). unfold ibq_pending. rewrite Hc, (bq_packets_eq q r pk Hok).
  destruct (bq_ptr q) as [a|]; [|symmetry; exact Hp]. destruct Hp as (p & pk' & k & -> & Hk & -> & _ & ->).
  unfold sizeof_size_t. replace (Z.to_nat _) with k by lia. cbn [concat]. rewrite drop_app_le by lia. reflexivity.
Qed.

Lemma ibq_holds_bytes q s : ibq_holds q s -> Forall is_byte s.
Proof.
  intros (r & pk & _ & _ & Hb & Hp). assert (Hc : Forall is_byte (concat pk)) by (apply Forall_concat, Hb).
  destruct (bq_ptr q) as [a|]; [|rewrite Hp; exact Hc]. destruct Hp as (p & pk' & k & -> & Hk & _ & _ & ->).
  cbn [concat] in Hc. apply Forall_app in Hc as [H1 H2]. apply Forall_app; split; [apply Forall_drop, H1|exact H2].
Qed.

Lemma ibq_holds_frame q ts b s : ibq_holds q s -> ibq_holds (bq_set_waiting ts (bq_set_suspended b q)) s.
Proof. intros (r & pk & Hok & H). exists r, pk. split; [eapply bq_ok_frame; eauto|exact H]. Qed.

Lemma ibq_holds_waiting q ts s : ibq_holds q s -> ibq_holds (bq_set_waiting ts q) s.
Proof. intros H. destruct q. exact (ibq_holds_frame _ ts _ s H). Qed.

(** A buffer is at work; [s] is not empty. *)
Definition working (q : io_buffers_queue) : Prop := bq_ptr q <> None.

Lemma ibq_current_ok t timeout q s : ibq_holds q s -> bq_waiting q = [] ->
  exists q' o, ibq_current t timeout q = Some (q', o) /\ ibq_holds q' s /\
    match o with
    | Return msg => bq_waiting q' = [] /\ (msg = MSG_OK /\ working q' \/ msg < MSG_OK)
    | Blocked _ => bq_waiting q' = [t] /\ s = [] /\ bq_ptr q' = None /\ bq_suspended q' = false
    | More _ => False
    end.
Proof.
  intros H Hw. unfold ibq_current. destruct (bq_ptr q) as [a|] eqn:Ep.
  { exists q, (Return MSG_OK). split_and!; auto. left. unfold working. rewrite Ep. auto. }
  unfold ibqGetFullBufferTimeoutS, ibqIsEmptyI. destruct (bq_bcounter q =? 0) eqn:Ec.
  - destruct (bq_suspended q) eqn:Es; [exists q, (Return MSG_RESET); split_and!; auto; right; reflexivity|].
    unfold bq_enqueue, chThdEnqueueTimeoutS. destruct (timeout =? TIME_IMMEDIATE); cbn [mbind option_bind].
    + exists q, (Return MSG_TIMEOUT). split_and!; auto. right. reflexivity.
    + do 2 eexists. split; [reflexivity|]. split; [apply ibq_holds_waiting, H|]. cbn. rewrite Hw. split_and!; auto.
      destruct H as (r & pk & _ & Hc & _ & Hp). rewrite Ep in Hp. apply Z.eqb_eq in Ec.
      destruct pk; [exact Hp|cbn [length] in Hc; lia].
  - destruct H as (r & pk & Hok & Hc & Hb & Hp). rewrite Ep in Hp. destruct pk as [|p pk]; [cbn in Hc; lia|].
    rewrite (read_size q r pk p Hok). cbn [mbind option_bind]. do 2 eexists. split; [reflexivity|]. split.
    + exists r, (p :: pk). split; [eapply bq_ok_frame; eauto|]. split_and!; [exact Hc|exact Hb|]. cbn [bq_ptr bq_set_ptr bq_brdptr bq_top].
      exists p, pk, 0%nat. pose proof (ok_pk _ _ _ Hok 0%nat p eq_refl) as [Hl _]. unfold sizeof_size_t. split_and!; auto; lia.
    + split; [exact Hw|]. left. split; [reflexivity|]. unfold working. cbn. discriminate.
Qed.

Lemma ibq_advance_ok q s a tp n : ibq_holds q s -> bq_ptr q = Some a -> bq_top q = Some tp -> 1 <= n <= tp - a ->
  exists q' ev, ibq_advance n q = Some (q', take (Z.to_nat n) s, ev) /\ wakes ev = [] /\ bq_waiting q' = bq_waiting q /\
    n <= Z.of_nat (length s) /\ ibq_holds q' (drop (Z.to_nat n) s).
Proof.
  intros (r & pk & Hok & Hc & Hb & Hp) Ea Et Hn. rewrite Ea in Hp. destruct Hp as (p & pk' & k & -> & Hk & -> & Et' & ->).
  rewrite Et in Et'. injection Et' as ->. assert (Hl : length (drop k p) = (length p - k)%nat) by apply length_drop.
  destruct (read_packet q r (p :: pk') 0 p (Z.of_nat k) n Hok eq_refl) as (B1 & B2 & B3); try lia.
  pose proof (ok_rd _ _ _ Hok) as Erd. pose proof (ok_r _ _ _ Hok) as Hr. pose proof (ok_pk _ _ _ Hok 0%nat p eq_refl) as [Hpl _].
  rewrite Z.add_0_r, Z.mod_small, <- Erd in B1, B2, B3 by lia. rewrite Nat2Z.id in B3.
  unfold ibq_advance. rewrite Ea, Et. cbn [mbind option_bind].
  rewrite check_true by (rewrite !andb_true_iff, !Z.leb_le; lia). cbn [mbind option_bind]. rewrite B3.
  rewrite (take_app_le (drop k p)), (drop_app_le (drop k p)), length_app by lia.
  destruct (bq_brdptr q + 4 + Z.of_nat (length p) <=? bq_brdptr q + 4 + Z.of_nat k + n) eqn:El.
  - assert (Z.to_nat n = length (drop k p)) as En by lia. unfold ibqReleaseEmptyBufferS, ibqIsEmptyI. cbn [bq_bcounter bq_set_ptr].
    rewrite check_true by (apply negb_true_iff, Z.eqb_neq; cbn [length] in Hc; lia). cbn [mbind option_bind].
    do 2 eexists. split; [reflexivity|]. split; [unfold bq_notification; destruct (bq_notify _); reflexivity|].
    split; [reflexivity|]. split; [lia|]. rewrite En, drop_all. cbn [app].
    exists ((r + 1) mod bq_bn q), pk'. split; [eapply bq_ok_frame; [apply (bq_release_ok q r p pk' (bq_bcounter q - 1) Hok)|..]; reflexivity|].
    split_and!; [cbn in *; lia|inversion Hb; assumption|reflexivity].
  - do 2 eexists. split; [reflexivity|]. split_and!; [reflexivity|reflexivity|lia|].
    exists r, (p :: pk'). split; [eapply bq_ok_frame; eauto|]. split_and!; [exact Hc|exact Hb|].
    cbn [bq_ptr bq_set_ptr bq_brdptr bq_top]. exists p, pk', (k + Z.to_nat n)%nat. rewrite drop_drop.
    split_and!; auto; lia.
Qed.

Lemma ibq_working q s : ibq_holds q s -> working q ->
  exists a tp, bq_ptr q = Some a /\ bq_top q = Some tp /\ 1 <= tp - a.
Proof.
  intros (r & pk & _ & _ & _ & Hp) Hw. unfold working in Hw. destruct (bq_ptr q) as [a|]; [|contradiction].
  destruct Hp as (p & pk' & k & _ & Hk & -> & -> & _). do 2 eexists. split_and!; [reflexivity..|lia].
Qed.

(** What the reader has of its block, and the calls that make sense. *)
Definition ibq_got (c : ibq_call) : list Z := match c with IbqGet _ => [] | IbqRead _ st => fst st end.
Definition ibq_call_ok (c : ibq_call) : Prop := match c with IbqGet _ => True | IbqRead _ st => 0 < snd st end.

(** What an interrupt makes of the bytes in the queue. *)
Definition ibq_after (i : ibq_op) (q : io_buffers_queue) (s : list Z) : list Z :=
  match i with
  | IbqPost bs => if ibqIsFullI q then s else s ++ bs
  | IbqReset => []
  | IbqSuspend | IbqResume => s
  end.

Definition ibq_isr_ok (i : ibq_op) (q : io_buffers_queue) : Prop :=
  match i with IbqPost bs => 1 <= Z.of_nat (length bs) <= bq_bsize q - 4 /\ Forall is_byte bs | _ => True end.

#[export] Instance ibq_stream : StreamQueue ibq_op ibq_call (Z * list Z) := {
  sq_holds := ibq_holds;
  sq_idle := fun q s => s = [] /\ bq_suspended q = false;
  sq_call_ok := ibq_call_ok;
  sq_flow := fun c s o s' => ibq_got c ++ s = match o with inl v => snd v | inr c' => ibq_got c' end ++ s';
  sq_isr_ok := ibq_isr_ok;
  sq_after := fun i q s s' => s' = ibq_after i q s
}.

(** A call for a buffer that has failed, or has come to [o]. *)
Definition ibq_came (t : nat) (s : list Z) (q : io_buffers_queue) (o : outcome Z unit) : Prop :=
  ibq_holds q s /\
  match o with
  | Return msg => bq_waiting q = [] /\ (msg = MSG_OK /\ working q \/ msg < MSG_OK)
  | Blocked _ => bq_waiting q = [t] /\ s = [] /\ bq_ptr q = None /\ bq_suspended q = false
  | More _ => False
  end.

Lemma ibq_get_ok t timeout q s o : ibq_came t s q o ->
  sq_ran t (IbqGet timeout) s ('(q, o, ev) ← ibq_get q o; Some (q, outcome_map (fun r => (r, if 0 <=? r then [r] else [])) (fun _ => IbqGet timeout) o, ev)).
Proof.
  intros [H Ho]. destruct o as [msg|c|c]; [|destruct Ho as (Hw & -> & Hp & Hs)|contradiction].
  - destruct Ho as [Hw [[-> Hk]|Hm]]; cbn [ibq_get].
    + rewrite Z.eqb_refl. cbn [negb]. destruct (ibq_working q s H Hk) as (a & tp & Ea & Et & Hr).
      destruct (ibq_advance_ok q s a tp 1 H Ea Et ltac:(lia)) as (q' & ev & -> & Hev & Hw' & Hl & H'). pose proof (ibq_holds_bytes q s H) as Hb.
      destruct s as [|b s]; [cbn in Hl; lia|]. inversion_clear Hb as [|? ? Hb1 Hb2]. 
      unfold is_byte in Hb1. unfold sq_ran. simpl. rewrite (proj2 (Z.leb_le 0 b)) by lia.
      exists q', (Return (b, [b])), ev, s.
      rewrite Hw', Hw. split_and!; auto.
    + rewrite (proj2 (Z.eqb_neq msg MSG_OK)) by lia. cbn [negb mbind option_bind outcome_map].
      rewrite (proj2 (Z.leb_gt 0 msg)) by exact Hm. exists q, (Return (msg, [])), [], s. split_and!; auto. reflexivity.
  - exists q, (Blocked (IbqGet timeout)), [], []. cbn. split_and!; auto.
Qed.

Lemma ibq_read_ok t timeout q s o got n : 0 < n -> ibq_came t s q o ->
  sq_ran t (IbqRead timeout (got, n)) s ('(q, o, ev) ← ibq_read got n q o; Some (q, outcome_map id (IbqRead timeout) o, ev)).
Proof.
  intros Hn [H Ho]. destruct o as [msg|c|c]; [|destruct Ho as (Hw & -> & Hp & Hs)|contradiction].
  - destruct Ho as [Hw [[-> Hk]|Hm]]; cbn [ibq_read].
    + rewrite Z.eqb_refl. cbn [negb]. destruct (ibq_working q s H Hk) as (a & tp & Ea & Et & Hr). rewrite Ea, Et. cbn [mbind option_bind].
      set (z := if BUFFERS_CHUNKS_SIZE <? (if n <? tp - a then n else tp - a) then BUFFERS_CHUNKS_SIZE else if n <? tp - a then n else tp - a).
      assert (Hz : 1 <= z <= tp - a) by (unfold z, BUFFERS_CHUNKS_SIZE; repeat case_match; lia).
      destruct (ibq_advance_ok q s a tp z H Ea Et Hz) as (q' & ev & -> & Hev & Hw' & Hl & H'). cbn [mbind option_bind].
      destruct (n - z <=? 0) eqn:Ez; cbn [outcome_map id]; do 4 eexists; (split; [reflexivity|]; split; [exact Hev|]; split; [exact H'|]); cbn;
        rewrite Hw', <- app_assoc, take_drop; split_and!; auto; lia.
    + rewrite (proj2 (Z.eqb_neq msg MSG_OK)) by lia. cbn [negb mbind option_bind outcome_map id].
      do 4 eexists. split; [reflexivity|]. split; [reflexivity|]. split; [exact H|]. split; [exact Hw|reflexivity].
  - exists q, (Blocked (IbqRead timeout (got, n))), [], []. cbn. split_and!; auto.
Qed.

Lemma ibq_do_ok t c q s : ibq_holds q s -> bq_waiting q = [] -> ibq_call_ok c -> sq_ran t c s (ibq_do t None c q).
Proof.
  intros H Hw Hc. destruct c as [timeout|timeout [got n]]; cbn [ibq_do]; unfold ibqGetTimeout, ibqReadTimeout_step; cbn [fst snd].
  - destruct (ibq_current_ok t timeout q s H Hw) as (q' & o & -> & H' & Ho). cbn [mbind option_bind].
    apply ibq_get_ok. split; assumption.
  - cbn in Hc. rewrite check_true by (apply Z.ltb_lt, Hc). cbn [mbind option_bind].
    destruct (ibq_current_ok t timeout q s H Hw) as (q' & o & -> & H' & Ho). cbn [mbind option_bind].
    apply ibq_read_ok; [exact Hc|split; assumption].
Qed.

Lemma ibq_do_resume_ok t msg c q s : ibq_holds q s -> bq_waiting q = [] -> bq_ptr q = None -> msg <= MSG_OK -> ibq_call_ok c ->
  sq_ran t c s (ibq_do t (Some msg) c q).
Proof.
  intros H Hw Hp Hm Hc.
  assert (E : forall timeout, exists q' o, ibqGetFullBufferTimeoutS_resume t timeout msg q = Some (q', o) /\ ibq_came t s q' o).
  { intros timeout. unfold ibqGetFullBufferTimeoutS_resume. destruct (msg <? MSG_OK) eqn:El.
    - exists q, (Return msg). split; [reflexivity|]. split; [exact H|]. split; [exact Hw|]. right. apply Z.ltb_lt, El.
    - destruct (ibq_current_ok t timeout q s H Hw) as (q' & o & Ec & H' & Ho). unfold ibq_current in Ec. rewrite Hp in Ec.
      exists q', o. split; [exact Ec|]. split; assumption. }
  destruct c as [timeout|timeout [got n]]; cbn [ibq_do]; unfold ibqGetTimeout_resume, ibqReadTimeout_resume;
    destruct (E timeout) as (q' & o & -> & Ho); cbn [mbind option_bind fst snd]; [apply ibq_get_ok|apply ibq_read_ok]; assumption.
Qed.

Lemma ibq_full q r pk : bq_ok q r pk -> bq_bcounter q = Z.of_nat (length pk) ->
  ibqIsFullI q = (Z.of_nat (length pk) =? bq_bn q).
Proof.
  intros Hok Hc. pose proof (ok_bn _ _ _ Hok). unfold ibqIsFullI. rewrite (bq_pointers q r pk Hok), Hc.
  apply Bool.eq_iff_eq_true. rewrite andb_true_iff, orb_true_iff, negb_true_iff, !Z.eqb_eq, Z.eqb_neq. lia.
Qed.

(** Interrupts change the bytes as they should, and wake the reader when they bring
    some or take away what it waits for. *)
Lemma ibq_post_ok bs q s : ibq_holds q s -> ibq_isr_ok (IbqPost bs) q -> ibqIsFullI q = false ->
  exists q' ev, ibq_exec (IbqPost bs) q = Some (q', ev) /\ ibq_holds q' (s ++ bs) /\ (bq_ptr q = None -> bq_ptr q' = None) /\
    wakes_one q q' ev.
Proof.
  intros (r & pk & Hok & Hc & Hb & Hp) [Hl Hbs] Hf. rewrite (ibq_full q r pk Hok Hc), Z.eqb_neq in Hf. pose proof (ok_len _ _ _ Hok).
  cbn [ibq_exec]. unfold ibqGetEmptyBufferI. rewrite (ibq_full q r pk Hok Hc), (proj2 (Z.eqb_neq _ _)) by exact Hf.
  destruct (bq_fill q r pk bs Hok ltac:(lia) Hl) as (mem & Em & Hok1 & Hd). unfold sizeof_size_t. rewrite Em. cbn [mbind option_bind].
  set (q1 := bq_set_buffers mem q) in *. unfold ibqPostFullBufferI, sizeof_size_t.
  rewrite (check_true (_ && _)) by (apply andb_true_intro; cbn [bq_bsize q1 bq_set_buffers]; rewrite Z.ltb_lt, Z.leb_le; lia). cbn [mbind option_bind].
  rewrite (check_true (negb _)) by (rewrite (ibq_full q1 r pk Hok1 Hc); apply negb_true_iff, Z.eqb_neq, Hf). cbn [mbind option_bind].
  destruct (bq_post_ok q1 r pk bs (bq_bcounter q1 + 1) Hok1 ltac:(cbn; lia) ltac:(cbn; lia) Hd) as (mem2 & -> & Hok2). cbn [mbind option_bind].
  destruct (dequeue_one chThdDequeueNextI MSG_OK (bq_set_write (bq_bcounter q1 + 1) (bq_next q1 (bq_bwrptr q1)) (bq_set_buffers mem2 q1)))
    as (q' & ev & -> & Eq' & Hw); [auto|lia|].
  exists q', ev. split; [reflexivity|]. split; [|split; [rewrite Eq'; auto|exact Hw]].
  rewrite Eq'. apply ibq_holds_waiting. exists r, (pk ++ [bs]). split; [exact Hok2|]. split_and!.
  - cbn. rewrite length_app. cbn [length]. lia.
  - apply Forall_app; split; [exact Hb|repeat constructor; exact Hbs].
  - cbn [bq_ptr bq_set_write bq_set_buffers q1]. destruct (bq_ptr q) as [a|]; [|rewrite Hp, concat_app; cbn; rewrite app_nil_r; reflexivity].
    destruct Hp as (p & pk' & k & -> & Hk & Ha & Ht & ->). exists p, (pk' ++ [bs]), k. split_and!; auto.
    rewrite concat_app. cbn. rewrite app_nil_r, app_assoc. reflexivity.
Qed.

Lemma ibq_exec_ok i q s : ibq_holds q s -> ibq_isr_ok i q ->
  exists q' ev, ibq_exec i q = Some (q', ev) /\ ibq_holds q' (ibq_after i q s) /\ (bq_ptr q = None -> bq_ptr q' = None) /\
    (wakes_one q q' ev \/ wakes ev = [] /\ bq_waiting q' = bq_waiting q /\
      ibq_after i q s = s /\ (bq_suspended q = false -> bq_suspended q' = false)).
Proof.
  intros H Hi. destruct i as [bs| | |].
  - unfold ibq_after. destruct (ibqIsFullI q) eqn:Ef.
    + cbn [ibq_exec]. unfold ibqGetEmptyBufferI. rewrite Ef. exists q, []. auto 10.
    + destruct (ibq_post_ok bs q s H Hi Ef) as (q' & ev & E & H' & Hp & Hw). exists q', ev. auto 10.
  - cbn [ibq_exec]. unfold ibqResetI.
    destruct (dequeue_one chThdDequeueAllI MSG_RESET (bq_set_ptr None None (bq_set_write 0 0 (bq_set_read 0 0 q)))) as (q' & ev & -> & Eq' & Hw);
      [auto|discriminate|].
    exists q', ev. split; [reflexivity|]. split; [|split; [rewrite Eq'; auto|left; exact Hw]].
    rewrite Eq'. apply ibq_holds_waiting. destruct H as (r & pk & Hok & _). exists 0, []. split_and!; [apply (bq_ok_empty q r pk _ Hok)|reflexivity|constructor|reflexivity].
  - cbn [ibq_exec]. unfold bqSuspendI.
    destruct (dequeue_one chThdDequeueAllI MSG_RESET (bq_set_suspended true q)) as (q' & ev & -> & Eq' & Hw); [auto|discriminate|].
    exists q', ev. split; [reflexivity|]. split; [|split; [rewrite Eq'; auto|left; exact Hw]].
    rewrite Eq'. apply ibq_holds_frame, H.
  - cbn [ibq_exec]. exists (bqResumeX q), []. split; [reflexivity|]. split; [exact (ibq_holds_frame q (bq_waiting q) false s H)|].
    auto 10.
Qed.


#[export] Instance ibq_stream_laws : StreamLaws ibq_op ibq_call (Z * list Z).
Proof.
  split.
  - reflexivity.
  - reflexivity.
  - intros ts q s H. apply ibq_holds_waiting, H.
  - intros t c q s H Hw Hc. apply ibq_do_ok; assumption.
  - intros t msg c q s H Hw Hp Hm Hc. apply ibq_do_resume_ok; assumption.
  - intros i q s H Hi. destruct (ibq_exec_ok i q s H Hi) as (q' & ev & E & H' & Hp & Hw). exists q', ev, (ibq_after i q s).
    split_and!; [exact E|exact H'|reflexivity|exact Hp|]. destruct Hw as [Hw|(Hv & Hw & Ea & Hs)]; [left; exact Hw|right].
    split_and!; [exact Hv|exact Hw|]. intros _ [-> Hb]. split; [exact Ea|apply Hs, Hb].
Qed.

Lemma ibq_init_holds suspended bp size n infy q : ibqObjectInit suspended bp size n infy = Some q ->
  0 < n -> Z.of_nat (length bp) = (size + 4) * n -> (size + 4) * n < 2 ^ 32 -> ibq_holds q [].
Proof.
  unfold ibqObjectInit. destruct (2 <=? size) eqn:E; [|discriminate]. intros [= <-] Hn Hl Hb. exists 0, [].
  split_and!; [|reflexivity|constructor|reflexivity]. unfold sizeof_size_t. constructor; cbn; try lia; [rewrite Z.mod_0_l by lia; lia|discriminate].
Qed.

(** C23: an input queue of buffers is a stream for its reader.  Whatever calls one thread
    makes, and in whatever order its steps come with buffers from the driver, resets,
    suspensions and timeouts, no assertion fails and no memory outside the buffers is
    touched; a call takes its bytes from the head of those in the queue, exactly as many
    as it returns or has, a posted buffer adds its bytes at the end if one was free, and
    the thread sleeps only when nothing is in the queue and it is not suspended. *)
Theorem ibq_delivers_stream t suspended bp size n infy q0 e sy :
  ibqObjectInit suspended bp size n infy = Some q0 -> 0 < n ->
  Z.of_nat (length bp) = (size + 4) * n -> (size + 4) * n < 2 ^ 32 ->
  sq_reach t q0 sy -> sq_event_ok t e sy ->
  exists sy', sys_step e sy = Some sy' /\
    sq_stepped t e sy (ibq_pending (sy_obj sy)) sy' (ibq_pending (sy_obj sy')) /\
    forall c, sy_threads sy' !! t = Some (Suspended c) -> ibq_pending (sy_obj sy') = [] /\ bq_suspended (sy_obj sy') = false.
Proof.
  intros Hi Hn Hl Hb Hr He. pose proof (ibq_init_holds _ _ _ _ _ _ Hi Hn Hl Hb) as H0.
  assert (Hw : bq_waiting q0 = []) by (unfold ibqObjectInit in Hi; destruct (2 <=? size); [injection Hi as <-; reflexivity|discriminate]).
  assert (exists s, sq_sys_ok t sy s) as [s Hok] by (eapply sq_reach_ok; [exact H0|exact Hw|exact Hr]). destruct (sq_step_ok t e sy s Hok He) as (sy' & s' & Es & Hok' & Hst).
  destruct Hok as [Hh _]. destruct Hok' as [Hh' (st & Et & Hth)].
  exists sy'. rewrite (ibq_holds_pending _ _ Hh), (ibq_holds_pending _ _ Hh'). split_and!; [exact Es|exact Hst|].
  intros c Ec. rewrite Et, thread_map_lookup, decide_True in Ec by reflexivity. subst st. cbn in Hth. apply Hth.
Qed.

(** A queue of two buffers of four bytes. *)
Definition ibq_small : io_buffers_queue := default (BQueue [] false 0 0 0 0 0 0 [] None None false) (ibqObjectInit false (replicate 16 0) 4 2 false).

Definition ibq_posted : system io_buffers_queue ibq_call :=
  default (Sys ibq_small ∅) (sys_run [EvIsr (IbqPost [10; 20])] (Sys ibq_small ∅)).

(** A byte of a posted buffer. *)
Lemma ibq_delivers_stream_witness :
  exists sy' : system io_buffers_queue ibq_call,
    ibq_pending (sy_obj ibq_posted) = [10; 20] /\ sys_step (EvCall 1%nat (IbqGet 5)) ibq_posted = Some sy' /\
    sq_stepped 1%nat (EvCall 1%nat (IbqGet 5)) ibq_posted [10; 20] sy' (ibq_pending (sy_obj sy')).
Proof.
  assert (R : sq_reach 1%nat ibq_small ibq_posted).
  { eapply (sq_reach_step _ _ (EvIsr (IbqPost [10; 20]))); [apply sq_reach_init|split; [reflexivity|]|vm_compute; reflexivity].
    split; [vm_compute; split; congruence|]. repeat constructor; unfold is_byte; lia. }
  destruct (ibq_delivers_stream 1%nat false (replicate 16 0) 4 2 false ibq_small (EvCall 1%nat (IbqGet 5)) ibq_posted) as (sy' & Es & Hs & _).
  - reflexivity.
  - lia.
  - reflexivity.
  - lia.
  - exact R.
  - split; [reflexivity|]. split; [reflexivity|exact I].
  - exists sy'. split; [vm_compute; reflexivity|]. split; [exact Es|exact Hs].
Defined.

(** With two readers a wake-up is lost: the second waits while there is a byte. *)
Example ibq_lost_wakeup :
  sys_run [EvCall 1 (IbqGet 5); EvCall 2 (IbqGet 5); EvIsr (IbqPost [10; 20]); EvRun 1] (Sys ibq_small ∅) ≫=
    (fun sy => Some (sy_threads sy !! 2%nat, ibq_pending (sy_obj sy))) = Some (Some (Suspended (IbqGet 5)), [20]).
Proof. vm_compute. reflexivity. Qed.

(** And a byte may be read twice. *)
Example ibq_read_twice :
  sys_log [EvCall 1 (IbqGet 5); EvIsr (IbqPost [10; 20]); EvCall 2 (IbqGet 5); EvRun 1; EvCall 2 (IbqGet 5)] (Sys ibq_small ∅) ≫=
    (fun r => Some (snd r)) = Some [(2%nat, (10, [10])); (1%nat, (10, [10])); (2%nat, (20, [20]))].
Proof. vm_compute. reflexivity. Qed.
