(* ===== verification/BuffersOut.v ===== *)
(** * Output queues of buffers as streams

    What a queue of buffers holds for its driver, [obq_pending], and that for one writer
    thread, whatever interrupts, flushes, resets, suspensions and timeouts come in
    between, the bytes reach the driver in order, no assertion fails, and the thread
    sleeps only when every buffer is full.  With two writers a byte may be lost, as the
    run at the end shows. *)

From stdpp Require Import gmap.
From S2P Require Import Prelude CInt CLib Words Threads Rings Buffers BuffersSpec.
#[local] Open Scope Z_scope.

(** ** Output queues as streams *)

(** The bytes that wait for the driver: those of the full buffers and of the buffer
    that is being filled. *)
Definition obq_pending (q : io_buffers_queue) : list Z :=
  concat (bq_packets q (bq_bn q - bq_bcounter q)) ++
  match bq_ptr q with
  | Some p => take (Z.to_nat (p - (bq_bwrptr q + sizeof_size_t))) (drop (Z.to_nat (bq_bwrptr q + sizeof_size_t)) (bq_buffers q))
  | None => []
  end.

(** The buffer at the write pointer starts with [u]. *)
Definition filled (q : io_buffers_queue) (r : Z) (pk : list (list Z)) (u : list Z) : Prop :=
  bq_ok q r pk /\ bq_bcounter q = bq_bn q - Z.of_nat (length pk) /\ Z.of_nat (length pk) < bq_bn q /\
  Z.of_nat (length u) <= bq_bsize q - 4 /\ take (length u) (drop 4 (slot q (wslot q r pk))) = u.

(** The queue holds the bytes [s]. *)
Definition obq_holds (q : io_buffers_queue) (s : list Z) : Prop :=
  exists r pk u, bq_ok q r pk /\ bq_bcounter q = bq_bn q - Z.of_nat (length pk) /\ s = concat pk ++ u /\
    match bq_ptr q with
    | None => u = []
    | Some a => filled q r pk u /\ a = bq_bwrptr q + 4 + Z.of_nat (length u) /\ bq_top q = Some (bq_bwrptr q + bq_bsize q) /\
        Z.of_nat (length u) < bq_bsize q - 4
    end.

Lemma obq_holds_pending q s : obq_holds q s -> obq_pending q = s.
Proof.
  intros (r & pk & u & Hok & Hc & -> & Hp). unfold obq_pending. rewrite Hc. replace (_ - (_ - _)) with (Z.of_nat (length pk)) by lia.
  rewrite (bq_packets_eq q r pk Hok). f_equal. destruct (bq_ptr q) as [a|]; [|symmetry; exact Hp].
  destruct Hp as ((_ & _ & _ & Hl & Hu) & -> & _). pose proof (wslot_range q r pk Hok) as Hw. destruct (slot_range q r pk _ Hok Hw) as (R1 & _ & _).
  assert (Ewr : bq_bwrptr q = bq_bsize q * wslot q r pk) by apply Hok. pose proof (ok_bsize _ _ _ Hok).
  unfold sizeof_size_t. replace (Z.to_nat (_ - _)) with (length u) by lia. rewrite <- Hu at 2. unfold slot. rewrite slice_slice by lia.
  do 2 f_equal. rewrite Ewr. lia.
Qed.

Lemma obq_holds_frame q ts b s : obq_holds q s -> obq_holds (bq_set_waiting ts (bq_set_suspended b q)) s.
Proof.
  intros (r & pk & u & Hok & Hc & Es & Hp). exists r, pk, u. split; [eapply bq_ok_frame; eauto|]. split_and!; [exact Hc|exact Es|].
  cbn [bq_ptr bq_set_waiting bq_set_suspended]. destruct (bq_ptr q) as [a|]; [|exact Hp].
  destruct Hp as ((_ & H1 & H2 & H3 & H4) & H5). split; [|exact H5]. split; [eapply bq_ok_frame; eauto|]. auto.
Qed.

Lemma obq_holds_waiting q ts s : obq_holds q s -> obq_holds (bq_set_waiting ts q) s.
Proof. intros H. destruct q. exact (obq_holds_frame _ ts _ s H). Qed.

Lemma obq_full q (pk : list (list Z)) : bq_bcounter q = bq_bn q - Z.of_nat (length pk) -> obqIsFullI q = (Z.of_nat (length pk) =? bq_bn q).
Proof. intros Hc. unfold obqIsFullI. rewrite Hc. apply Bool.eq_iff_eq_true. rewrite !Z.eqb_eq. lia. Qed.

Lemma obq_empty q r pk : bq_ok q r pk -> bq_bcounter q = bq_bn q - Z.of_nat (length pk) ->
  obqIsEmptyI q = (Z.of_nat (length pk) =? 0).
Proof.
  intros Hok Hc. pose proof (ok_bn _ _ _ Hok). unfold obqIsEmptyI. rewrite (bq_pointers q r pk Hok), Hc.
  apply Bool.eq_iff_eq_true. rewrite andb_true_iff, orb_true_iff, negb_true_iff, !Z.eqb_eq, Z.eqb_neq. lia.
Qed.

(** The buffer that is being filled becomes a full one. *)
Lemma obq_post_ok q r pk u : filled q r pk u -> 1 <= Z.of_nat (length u) ->
  exists q', obq_post (Z.of_nat (length u)) q = Some q' /\ obq_holds q' (concat pk ++ u) /\
    bq_waiting q' = bq_waiting q /\ bq_suspended q' = bq_suspended q /\ bq_ptr q' = None.
Proof.
  intros (Hok & Hc & Hlt & Hl & Hu) Hl1. unfold obq_post.
  destruct (bq_post_ok q r pk u (bq_bcounter q - 1) Hok Hlt ltac:(lia) Hu) as (mem & -> & Hok2). cbn [mbind option_bind].
  eexists. split; [reflexivity|]. split; [|auto]. exists r, (pk ++ [u]), []. split; [eapply bq_ok_frame; eauto|]. cbn. split_and!.
  - rewrite length_app. cbn [length]. lia.
  - rewrite concat_app, app_nil_r. cbn. rewrite app_nil_r. reflexivity.
  - reflexivity.
Qed.

Lemma obq_current_ok t timeout q s : obq_holds q s -> bq_waiting q = [] ->
  exists q' o, obq_current t timeout q = Some (q', o) /\ obq_holds q' s /\
    match o with
    | Return msg => bq_waiting q' = [] /\ (msg = MSG_OK /\ bq_ptr q' <> None \/ msg < MSG_OK)
    | Blocked _ => bq_waiting q' = [t] /\ bq_ptr q' = None /\ obqIsFullI q' = true /\ bq_suspended q' = false
    | More _ => False
    end.
Proof.
  intros H Hw. unfold obq_current. destruct (bq_ptr q) as [a|] eqn:Ep.
  { exists q, (Return MSG_OK). split_and!; auto. left. rewrite Ep. split; [reflexivity|discriminate]. }
  unfold obqGetEmptyBufferTimeoutS. destruct (obqIsFullI q) eqn:Ef.
  - destruct (bq_suspended q) eqn:Es; [exists q, (Return MSG_RESET); split_and!; auto; right; reflexivity|].
    unfold bq_enqueue, chThdEnqueueTimeoutS. destruct (timeout =? TIME_IMMEDIATE); cbn [mbind option_bind].
    + exists q, (Return MSG_TIMEOUT). split_and!; auto. right. reflexivity.
    + do 2 eexists. split; [reflexivity|]. split; [apply obq_holds_waiting, H|]. cbn. rewrite Hw. split_and!; auto.
  - destruct H as (r & pk & u & Hok & Hc & -> & Hp). rewrite Ep in Hp. subst u.
    rewrite (obq_full q pk Hc), Z.eqb_neq in Ef. pose proof (ok_len _ _ _ Hok). pose proof (ok_bsize _ _ _ Hok).
    do 2 eexists. split; [reflexivity|]. split; [|split; [exact Hw|left; split; [reflexivity|discriminate]]].
    exists r, pk, []. split; [eapply bq_ok_frame; eauto|]. split_and!; [exact Hc|reflexivity|]. cbn [bq_ptr bq_set_ptr].
    split_and!; [|cbn; unfold sizeof_size_t; lia|reflexivity|cbn; lia].
    split; [eapply bq_ok_frame; eauto|]. split_and!; [exact Hc|cbn; lia|cbn; lia|reflexivity].
Qed.

Lemma obq_advance_ok q s a tp bs n : obq_holds q s -> bq_ptr q = Some a -> bq_top q = Some tp ->
  1 <= n <= tp - a -> n <= Z.of_nat (length bs) ->
  exists q' ev, obq_advance bs n q = Some (q', ev) /\ wakes ev = [] /\ bq_waiting q' = bq_waiting q /\
    obq_holds q' (s ++ take (Z.to_nat n) bs).
Proof.
  intros (r & pk & u & Hok & Hc & -> & Hp) Ea Et Hn Hl. rewrite Ea in Hp.
  destruct Hp as ((_ & _ & Hlt & Hlu & Hu) & -> & Et' & Hlt2). rewrite Et in Et'. injection Et' as ->.
  set (x := take (Z.to_nat n) bs). assert (Hx : Z.of_nat (length x) = n) by (unfold x; rewrite length_take; lia).
  pose proof (wslot_range q r pk Hok) as Hw. destruct (slot_range q r pk _ Hok Hw) as (R1 & R2 & R3).
  destruct (bq_memcpy q r pk (4 + Z.of_nat (length u)) bs n Hok) as (mem & Em & E); try lia.
  unfold obq_advance. rewrite Ea, Et. cbn [mbind option_bind]. rewrite <- (Z.add_assoc (bq_bwrptr q) 4), Em. cbn [mbind option_bind]. rewrite E.
  fold x. set (q1 := wrote q (wslot q r pk) (4 + Z.of_nat (length u)) x).
  assert (H1 : bq_ok q1 r pk) by (apply wrote_ok; auto; lia).
  assert (F : forall p, filled (bq_set_ptr (Some p) (Some (bq_bwrptr q + bq_bsize q)) q1) r pk (u ++ x)).
  { intros p. split; [eapply bq_ok_frame; eauto|]. split_and!; [exact Hc|exact Hlt|cbn; rewrite length_app; lia|].
    change (slot (bq_set_ptr _ _ q1)) with (slot q1). change (wslot (bq_set_ptr _ _ q1)) with (wslot q).
    unfold q1. rewrite (slot_wrote q r pk) by (auto; lia). rewrite decide_True by reflexivity.
    replace (Z.to_nat (4 + Z.of_nat (length u))) with (4 + length u)%nat by lia. apply set_bytes_append; [reflexivity|exact Hu|lia]. }
  rewrite <- app_assoc. case_match eqn:El.
  - assert (Hlen : Z.of_nat (length (u ++ x)) = bq_bsize q - 4) by (rewrite length_app; lia).
    unfold obqPostFullBufferS, sizeof_size_t. cbn [bq_bsize bq_set_ptr q1 wrote bq_set_buffers]. pose proof (ok_bsize _ _ _ Hok).
    rewrite (check_true (_ && _)) by (apply andb_true_intro; rewrite Z.ltb_lt, Z.leb_le; lia). cbn [mbind option_bind].
    pose proof (F (bq_bwrptr q + (4 + Z.of_nat (length u)) + n)) as HF. set (q2 := bq_set_ptr _ _ q1) in *. destruct HF as (F1 & F2 & F3).
    rewrite (check_true (negb _)) by (rewrite (obq_full q2 pk F2); apply negb_true_iff, Z.eqb_neq; lia). cbn [mbind option_bind].
    destruct (obq_post_ok q2 r pk (u ++ x)) as (q3 & Ep & Hh & Hw3 & _); [split; auto|lia|]. rewrite Hlen in Ep. rewrite Ep. cbn [mbind option_bind].
    do 2 eexists. split; [reflexivity|]. split; [unfold bq_notification; destruct (bq_notify q3); reflexivity|]. split; [exact Hw3|exact Hh].
  - do 2 eexists. split; [reflexivity|]. split_and!; [reflexivity|reflexivity|].
    exists r, pk, (u ++ x). split; [apply F|]. split_and!; [exact Hc|reflexivity|]. cbn [bq_ptr bq_set_ptr].
    split; [apply F|]. cbn. rewrite length_app. split_and!; [lia|reflexivity|lia].
Qed.

Lemma obq_working q s : obq_holds q s -> bq_ptr q <> None ->
  exists a tp, bq_ptr q = Some a /\ bq_top q = Some tp /\ 1 <= tp - a.
Proof.
  intros (r & pk & u & _ & _ & _ & Hp) Hw. destruct (bq_ptr q) as [a|]; [|contradiction].
  destruct Hp as (_ & -> & -> & Hl). do 2 eexists. split_and!; [reflexivity..|lia].
Qed.

(** The bytes that a call still has to write, those that it has not written when it
    returns [r], and the calls that make sense. *)
Definition obq_left (c : obq_call) : list Z := match c with ObqPut _ b => [b] | ObqWrite _ st => snd st end.
Definition obq_rest (c : obq_call) (r : Z) : list Z :=
  match c with
  | ObqPut _ b => if r =? MSG_OK then [] else [b]
  | ObqWrite _ st => drop (Z.to_nat (r - fst st)) (snd st)
  end.
Definition obq_call_ok (c : obq_call) : Prop := match c with ObqPut _ _ => True | ObqWrite _ st => snd st <> [] end.

(** The bytes that the driver takes. *)
Definition obq_taken (q : io_buffers_queue) : list Z := match obq_exec ObqTake q with Some (_, bs, _) => bs | None => [] end.

(** What an interrupt makes of the bytes in the queue. *)
Definition obq_after (i : obq_op) (q : io_buffers_queue) (s s' : list Z) : Prop :=
  match i with
  | ObqTake => s = obq_taken q ++ s' /\ (obqIsEmptyI q = false -> obq_taken q <> [])
  | ObqReset => s' = []
  | _ => s' = s
  end.

#[export] Instance obq_stream : StreamQueue obq_op obq_call Z := {
  sq_holds := obq_holds;
  sq_idle := fun q s => obqIsFullI q = true /\ bq_suspended q = false;
  sq_call_ok := obq_call_ok;
  sq_flow := fun c s o s' => s ++ obq_left c = s' ++ match o with inl r => obq_rest c r | inr c' => obq_left c' end;
  sq_isr_ok := fun _ _ => True;
  sq_after := obq_after
}.

(** A call for a buffer that has failed, or has come to [o]. *)
Definition obq_came (t : nat) (s : list Z) (q : io_buffers_queue) (o : outcome Z unit) : Prop :=
  obq_holds q s /\
  match o with
  | Return msg => bq_waiting q = [] /\ (msg = MSG_OK /\ bq_ptr q <> None \/ msg < MSG_OK)
  | Blocked _ => bq_waiting q = [t] /\ bq_ptr q = None /\ obqIsFullI q = true /\ bq_suspended q = false
  | More _ => False
  end.

Lemma obq_put_ok t timeout b q s o : obq_came t s q o ->
  sq_ran t (ObqPut timeout b) s ('(q, o, ev) ← obq_put b q o; Some (q, outcome_map id (fun _ => ObqPut timeout b) o, ev)).
Proof.
  intros [H Ho]. destruct o as [msg|c|c]; [|destruct Ho as (Hw & Hp & Hf & Hs)|contradiction].
  - destruct Ho as [Hw [[-> Hk]|Hm]]; cbn [obq_put].
    + rewrite Z.eqb_refl. cbn [negb]. destruct (obq_working q s H Hk) as (a & tp & Ea & Et & Hr).
      destruct (obq_advance_ok q s a tp [b] 1 H Ea Et ltac:(lia) ltac:(cbn; lia)) as (q' & ev & -> & Hev & Hw' & H').
      exists q', (Return MSG_OK), ev, (s ++ [b]). rewrite Hw', Hw. split_and!; [reflexivity|exact Hev|exact H'|reflexivity|].
      cbn. rewrite app_nil_r. reflexivity.
    + rewrite (proj2 (Z.eqb_neq msg MSG_OK)) by lia. cbn [negb mbind option_bind outcome_map id].
      exists q, (Return msg), [], s. split_and!; auto. cbn. rewrite (proj2 (Z.eqb_neq msg MSG_OK)) by lia. reflexivity.
  - exists q, (Blocked (ObqPut timeout b)), [], s. cbn. split_and!; auto.
Qed.

Lemma obq_write_ok t timeout q s o w bp : bp <> [] -> obq_came t s q o ->
  sq_ran t (ObqWrite timeout (w, bp)) s ('(q, o, ev) ← obq_write w bp q o; Some (q, outcome_map id (ObqWrite timeout) o, ev)).
Proof.
  intros Hn [H Ho]. assert (Hn1 : 0 < Z.of_nat (length bp)) by (destruct bp; [contradiction|cbn; lia]).
  destruct o as [msg|c|c]; [|destruct Ho as (Hw & Hp & Hf & Hs)|contradiction].
  - destruct Ho as [Hw [[-> Hk]|Hm]]; cbn [obq_write].
    + rewrite Z.eqb_refl. cbn [negb]. destruct (obq_working q s H Hk) as (a & tp & Ea & Et & Hr). rewrite Ea, Et. cbn [mbind option_bind].
      set (n := Z.of_nat (length bp)) in *.
      set (z := if BUFFERS_CHUNKS_SIZE <? (if n <? tp - a then n else tp - a) then BUFFERS_CHUNKS_SIZE else if n <? tp - a then n else tp - a).
      assert (Hz : 1 <= z <= tp - a /\ z <= n) by (unfold z, BUFFERS_CHUNKS_SIZE; repeat case_match; lia).
      destruct (obq_advance_ok q s a tp bp z H Ea Et) as (q' & ev & -> & Hev & Hw' & H'); [lia|lia|]. cbn [mbind option_bind].
      destruct (n - z <=? 0) eqn:Ez; cbn [outcome_map id]; do 4 eexists; (split; [reflexivity|]; split; [exact Hev|]; split; [exact H'|]); cbn;
        rewrite Hw'; split_and!; auto.
      * rewrite <- app_assoc. replace (w + z - w) with z by lia. rewrite take_drop. reflexivity.
      * rewrite <- app_assoc, take_drop. reflexivity.
      * intros Hnil. apply (f_equal length) in Hnil. rewrite length_drop in Hnil. cbn in Hnil. lia.
    + rewrite (proj2 (Z.eqb_neq msg MSG_OK)) by lia. cbn [negb mbind option_bind outcome_map id].
      exists q, (Return w), [], s. split_and!; auto. cbn. rewrite Z.sub_diag. reflexivity.
  - exists q, (Blocked (ObqWrite timeout (w, bp))), [], s. cbn. split_and!; auto.
Qed.

Lemma obq_do_ok t c q s : obq_holds q s -> bq_waiting q = [] -> obq_call_ok c -> sq_ran t c s (obq_do t None c q).
Proof.
  intros H Hw Hc. destruct c as [timeout b|timeout [w bp]]; cbn [obq_do]; unfold obqPutTimeout, obqWriteTimeout_step; cbn [fst snd].
  - destruct (obq_current_ok t timeout q s H Hw) as (q' & o & -> & H' & Ho). cbn [mbind option_bind].
    apply obq_put_ok. split; assumption.
  - cbn in Hc. rewrite check_true by (apply Z.ltb_lt; destruct bp; [contradiction|cbn; lia]). cbn [mbind option_bind].
    destruct (obq_current_ok t timeout q s H Hw) as (q' & o & -> & H' & Ho). cbn [mbind option_bind].
    apply obq_write_ok; [exact Hc|split; assumption].
Qed.

Lemma obq_do_resume_ok t msg c q s : obq_holds q s -> bq_waiting q = [] -> bq_ptr q = None -> msg <= MSG_OK -> obq_call_ok c ->
  sq_ran t c s (obq_do t (Some msg) c q).
Proof.
  intros H Hw Hp Hm Hc.
  assert (E : forall timeout, exists q' o, obqGetEmptyBufferTimeoutS_resume t timeout msg q = Some (q', o) /\ obq_came t s q' o).
  { intros timeout. unfold obqGetEmptyBufferTimeoutS_resume. destruct (msg <? MSG_OK) eqn:El.
    - exists q, (Return msg). split; [reflexivity|]. split; [exact H|]. split; [exact Hw|]. right. apply Z.ltb_lt, El.
    - destruct (obq_current_ok t timeout q s H Hw) as (q' & o & Ec & H' & Ho). unfold obq_current in Ec. rewrite Hp in Ec.
      exists q', o. split; [exact Ec|]. split; assumption. }
  destruct c as [timeout b|timeout [w bp]]; cbn [obq_do]; unfold obqPutTimeout_resume, obqWriteTimeout_resume;
    destruct (E timeout) as (q' & o & -> & Ho); cbn [mbind option_bind fst snd]; [apply obq_put_ok|apply obq_write_ok]; assumption.
Qed.

(** ** Interrupts *)

(** What an interrupt may do to the queue, its bytes and its wait queue. *)
Definition obq_isr (i : obq_op) (q : io_buffers_queue) (s : list Z) : Prop :=
  exists q' bs ev s', obq_exec i q = Some (q', bs, ev) /\ obq_holds q' s' /\ obq_after i q s s' /\ (bq_ptr q = None -> bq_ptr q' = None) /\
    (wakes_one q q' ev \/ wakes ev = [] /\ bq_waiting q' = bq_waiting q /\
      (bq_ptr q = None -> obqIsFullI q = true /\ bq_suspended q = false -> obqIsFullI q' = true /\ bq_suspended q' = false)).

Lemma wslot_release q r p pk cnt rd : bq_ok q r (p :: pk) -> wslot (bq_set_read cnt rd q) ((r + 1) mod bq_bn q) pk = wslot q r (p :: pk).
Proof. intros H. unfold wslot. cbn [bq_bn bq_set_read length]. rewrite Zplus_mod_idemp_l. f_equal. lia. Qed.

(** The driver takes the first full buffer. *)
Lemma obq_release_ok q s : obq_holds q s -> obqIsEmptyI q = false ->
  exists p s' ev q', p <> [] /\ s = p ++ s' /\ obq_exec ObqTake q = Some (q', p, ev) /\ obq_holds q' s' /\
    bq_ptr q' = bq_ptr q /\ wakes_one q q' ev.
Proof.
  intros (r & pk & u & Hok & Hc & -> & Hp) He. rewrite (obq_empty q r pk Hok Hc), Z.eqb_neq in He.
  destruct pk as [|p pk]; [cbn in He; lia|]. pose proof (ok_pk _ _ _ Hok 0%nat p eq_refl) as [Hl _].
  destruct (read_packet q r (p :: pk) 0 p 0 (Z.of_nat (length p)) Hok eq_refl) as (B1 & B2 & B3); try lia.
  pose proof (ok_rd _ _ _ Hok) as Erd. pose proof (ok_r _ _ _ Hok) as Hr. change (Z.of_nat 0) with 0 in B1, B2, B3.
  rewrite !Z.add_0_r in B1, B2, B3. rewrite Z.mod_small in B1, B2, B3 by lia.
  rewrite Z.add_0_r in B3. rewrite <- Erd in B1, B2, B3. change (Z.to_nat 0) with 0%nat in B3. rewrite drop_0, Nat2Z.id, firstn_all in B3.
  assert (Hem : obqIsEmptyI q = false) by (rewrite (obq_empty q r (p :: pk) Hok Hc); apply Z.eqb_neq, He).
  set (q1 := bq_set_read (bq_bcounter q + 1) (bq_next q (bq_brdptr q)) q).
  destruct (dequeue_one chThdDequeueNextI MSG_OK q1) as (q' & ev & Ed & Eq' & Hw); [auto|lia|].
  exists p, (concat pk ++ u), ev, q'. split; [destruct p; [cbn in Hl; lia|discriminate]|].
  split; [cbn [concat]; rewrite <- app_assoc; reflexivity|]. split; [|split; [|split; [rewrite Eq'; reflexivity|exact Hw]]].
  - cbn [obq_exec]. unfold obqGetFullBufferI. rewrite Hem, (read_size q r pk p Hok). cbn [mbind option_bind].
    unfold sizeof_size_t. rewrite (check_true (_ <=? _)) by (apply Z.leb_le; lia). cbn [mbind option_bind].
    unfold obqReleaseEmptyBufferI. rewrite Hem. cbn [negb check mbind option_bind]. fold q1. rewrite Ed, Nat2Z.id, B3. reflexivity.
  - rewrite Eq'. apply obq_holds_waiting. exists ((r + 1) mod bq_bn q), pk, u.
    pose proof (bq_release_ok q r p pk (bq_bcounter q + 1) Hok) as Hok1.
    split; [exact Hok1|]. split; [cbn in *; lia|]. split; [reflexivity|]. cbn [bq_ptr bq_set_read q1].
    destruct (bq_ptr q) as [a|]; [|exact Hp]. destruct Hp as ((_ & _ & H1 & H2 & H3) & H4). split; [|exact H4].
    split; [exact Hok1|]. split_and!; [cbn in *; lia|cbn in *; lia|exact H2|].
    unfold q1. rewrite (wslot_release q r p pk) by exact Hok. exact H3.
Qed.

(** The buffer at work becomes a full one, or is left alone when it is empty. *)
Lemma obq_flush_ok q s a size : obq_holds q s -> bq_ptr q = Some a -> size = a - bq_bwrptr q - sizeof_size_t -> 0 < size ->
  size <= bq_bsize q - sizeof_size_t /\ obqIsFullI q = false /\
  exists q', obq_post size q = Some q' /\ obq_holds q' s /\ bq_waiting q' = bq_waiting q /\ bq_ptr q' = None.
Proof.
  intros (r & pk & u & Hok & Hc & -> & Hp) Ea -> Hs. rewrite Ea in Hp. destruct Hp as (F & -> & _ & Hl). unfold sizeof_size_t in *.
  replace (bq_bwrptr q + 4 + Z.of_nat (length u) - bq_bwrptr q - 4) with (Z.of_nat (length u)) in * by lia.
  split; [lia|]. split; [rewrite (obq_full q pk Hc); apply Z.eqb_neq; destruct F as (_ & _ & F & _); lia|].
  destruct (obq_post_ok q r pk u F) as (q' & Ep & Hh & Hw & _ & Hn); [lia|]. exists q'. auto.
Qed.

Lemma obq_exec_ok i q s : obq_holds q s -> obq_isr i q s.
Proof.
  intros H. destruct i.
  - destruct (obqIsEmptyI q) eqn:He.
    + assert (E : obq_exec ObqTake q = Some (q, [], [])) by (cbn [obq_exec]; unfold obqGetFullBufferI; rewrite He; reflexivity).
      exists q, [], [], s. split; [exact E|]. split; [exact H|]. split; [|auto 10]. split; [unfold obq_taken; rewrite E; reflexivity|congruence].
    + destruct (obq_release_ok q s H He) as (p & s' & ev & q' & Hn & -> & E & H' & Hp & Hw). exists q', p, ev, s'.
      split; [exact E|]. split; [exact H'|]. split; [|split; [congruence|auto]]. unfold obq_after, obq_taken. rewrite E. auto.
  - unfold obq_isr. cbn [obq_exec]. unfold obqTryFlushI. destruct (obqIsEmptyI q); [|exists q, [], [], s; cbn; auto 10].
    destruct (bq_ptr q) as [a|] eqn:Ep; [|exists q, [], [], s; cbn; auto 10].
    destruct (0 <? a - (bq_bwrptr q + sizeof_size_t)) eqn:Es; [|exists q, [], [], s; cbn; rewrite Ep; auto 10].
    destruct (obq_flush_ok q s a (a - (bq_bwrptr q + sizeof_size_t)) H Ep) as (_ & _ & q' & -> & H' & Hw & Hn); [lia|lia|].
    exists q', [], [], s. cbn. split_and!; auto. right. split_and!; auto. discriminate.
  - unfold obq_isr. cbn [obq_exec]. unfold obqFlush. destruct (bq_ptr q) as [a|] eqn:Ep; [|exists q, [], [], s; cbn; auto 10].
    destruct (0 <? a - bq_bwrptr q - sizeof_size_t) eqn:Es; [|exists q, [], [], s; cbn; rewrite Ep; auto 10].
    destruct (obq_flush_ok q s a (a - bq_bwrptr q - sizeof_size_t) H Ep) as (Hl & Hf & q' & Eq & H' & Hw & Hn); [lia|lia|].
    unfold obqPostFullBufferS. rewrite (check_true (_ && _)) by (apply andb_true_intro; rewrite Z.ltb_lt, Z.leb_le; lia). cbn [mbind option_bind].
    rewrite Hf. cbn [negb check mbind option_bind]. rewrite Eq. cbn [mbind option_bind].
    exists q', [], (bq_notification q'), s. split; [reflexivity|]. split; [exact H'|]. split; [reflexivity|]. split; [discriminate|].
    right. split; [unfold bq_notification; destruct (bq_notify q'); reflexivity|]. split; [exact Hw|discriminate].
  - unfold obq_isr. cbn [obq_exec]. unfold obqResetI.
    destruct (dequeue_one chThdDequeueAllI MSG_RESET (bq_set_ptr None None (bq_set_write (bq_bn q) 0 (bq_set_read (bq_bn q) 0 q)))) as (q' & ev & -> & Eq' & Hw);
      [auto|discriminate|].
    exists q', [], ev, []. split; [reflexivity|]. split; [|split; [reflexivity|split; [rewrite Eq'; auto|left; exact Hw]]].
    rewrite Eq'. apply obq_holds_waiting. destruct H as (r & pk & u & Hok & _). exists 0, [], []. cbn. split_and!; [|lia|reflexivity|reflexivity].
    apply (bq_ok_empty q r pk _ Hok).
  - unfold obq_isr. cbn [obq_exec]. unfold bqSuspendI.
    destruct (dequeue_one chThdDequeueAllI MSG_RESET (bq_set_suspended true q)) as (q' & ev & -> & Eq' & Hw); [auto|discriminate|].
    exists q', [], ev, s. split; [reflexivity|]. split; [|split; [reflexivity|split; [rewrite Eq'; auto|left; exact Hw]]].
    rewrite Eq'. apply obq_holds_frame, H.
  - unfold obq_isr. cbn [obq_exec]. exists (bqResumeX q), [], [], s. split; [reflexivity|].
    split; [exact (obq_holds_frame q (bq_waiting q) false s H)|]. cbn. split_and!; auto. right. split_and!; auto. intros _ [Hf _]. auto.
Qed.

#[export] Instance obq_stream_laws : StreamLaws obq_op obq_call Z.
Proof.
  split.
  - reflexivity.
  - reflexivity.
  - intros ts q s H. apply obq_holds_waiting, H.
  - intros t c q s H Hw Hc. apply obq_do_ok; assumption.
  - intros t msg c q s H Hw Hp Hm Hc. apply obq_do_resume_ok; assumption.
  - intros i q s H _. destruct (obq_exec_ok i q s H) as (q' & bs & ev & s' & E & Hrest). exists q', ev, s'.
    cbn [ch_isr obq_channel]. rewrite E. split; [reflexivity|exact Hrest].
Qed.

Lemma obq_init_holds suspended bp size n onfy q : obqObjectInit suspended bp size n onfy = Some q ->
  0 < n -> Z.of_nat (length bp) = (size + 4) * n -> (size + 4) * n < 2 ^ 32 -> obq_holds q [] /\ bq_waiting q = [].
Proof.
  unfold obqObjectInit. destruct (2 <=? size) eqn:E; [|discriminate]. intros [= <-] Hn Hl Hb. split; [|reflexivity]. exists 0, [], [].
  split_and!; [|cbn; lia|reflexivity|reflexivity]. unfold sizeof_size_t. constructor; cbn; try lia; [rewrite Z.mod_0_l by lia; lia|discriminate].
Qed.

(** C24: an output queue of buffers is a stream for its writer.  Whatever calls one
    thread makes, and in whatever order its steps come with buffers taken by the driver,
    flushes, resets, suspensions and timeouts, no assertion fails and no memory outside
    the buffers is written; the bytes that a call has written join those in the queue
    at the end, just as many as it returns, the driver takes them from the head, and the
    thread sleeps only when every buffer is full and the queue is not suspended. *)
Theorem obq_delivers_stream t suspended bp size n onfy q0 e sy :
  obqObjectInit suspended bp size n onfy = Some q0 -> 0 < n ->
  Z.of_nat (length bp) = (size + 4) * n -> (size + 4) * n < 2 ^ 32 ->
  sq_reach t q0 sy -> sq_event_ok t e sy ->
  exists sy', sys_step e sy = Some sy' /\
    sq_stepped t e sy (obq_pending (sy_obj sy)) sy' (obq_pending (sy_obj sy')) /\
    forall c, sy_threads sy' !! t = Some (Suspended c) -> obqIsFullI (sy_obj sy') = true /\ bq_suspended (sy_obj sy') = false.
Proof.
  intros Hi Hn Hl Hb Hr He. destruct (obq_init_holds _ _ _ _ _ _ Hi Hn Hl Hb) as [H0 Hw].
  assert (exists s, sq_sys_ok t sy s) as [s Hok] by (eapply sq_reach_ok; [exact H0|exact Hw|exact Hr]).
  destruct (sq_step_ok t e sy s Hok He) as (sy' & s' & Es & Hok' & Hst).
  destruct Hok as [Hh _]. destruct Hok' as [Hh' (st & Et & Hth)].
  exists sy'. rewrite (obq_holds_pending _ _ Hh), (obq_holds_pending _ _ Hh'). split_and!; [exact Es|exact Hst|].
  intros c Ec. rewrite Et, thread_map_lookup, decide_True in Ec by reflexivity. subst st. cbn in Hth. apply Hth.
Qed.

(** A queue of two buffers of two bytes. *)
Definition obq_small : io_buffers_queue := default (BQueue [] false 0 0 0 0 0 0 [] None None false) (obqObjectInit false (replicate 12 0) 2 2 false).

Definition obq_writing : system io_buffers_queue obq_call :=
  default (Sys obq_small ∅) (sys_run [EvCall 1%nat (ObqWrite 5 (0, [1; 2; 3]))] (Sys obq_small ∅)).

(** The second part of a write. *)
Lemma obq_delivers_stream_witness :
  exists sy' : system io_buffers_queue obq_call,
    obq_pending (sy_obj obq_writing) = [1; 2] /\ sys_step (EvRun 1%nat) obq_writing = Some sy' /\
    sq_stepped 1%nat (EvRun 1%nat) obq_writing [1; 2] sy' (obq_pending (sy_obj sy')).
Proof.
  assert (R : sq_reach 1%nat obq_small obq_writing).
  { eapply (sq_reach_step _ _ (EvCall 1%nat (ObqWrite 5 (0, [1; 2; 3])))); [apply sq_reach_init|split; [reflexivity|]|vm_compute; reflexivity].
    split; [reflexivity|discriminate]. }
  destruct (obq_delivers_stream 1%nat false (replicate 12 0) 2 2 false obq_small (EvRun 1%nat) obq_writing) as (sy' & Es & Hs & _).
  - reflexivity.
  - lia.
  - reflexivity.
  - lia.
  - exact R.
  - split; [reflexivity|exact I].
  - exists sy'. split; [vm_compute; reflexivity|]. split; [exact Es|exact Hs].
Defined.

(** With two writers a byte is lost: the writer that was woken takes the buffer that the
    other has begun to fill. *)
Example obq_lost_byte :
  sys_run [EvCall 1%nat (ObqWrite 5 (0, [1; 2; 3; 4; 5])); EvRun 1%nat; EvRun 1%nat; EvIsr ObqTake; EvCall 2%nat (ObqPut 5 9); EvRun 1%nat]
    (Sys obq_small ∅) ≫= (fun sy => Some (sy_threads sy, obq_pending (sy_obj sy))) = Some (∅, [3; 4; 5]).
Proof. vm_compute. reflexivity. Qed.
